(* ===== verification/_CoqProject ===== *)
-Q . S2P
Prelude.v
JsText.v
JsDate.v
JsMap.v
JsJson.v
Programs.v
Finality.v
SettlementTypes.v
SettlementMachine.v
SettlementAmount.v
SettlementStore.v
SettlementStoreInv.v
CallbackDispatcher.v
SettlementService.v
ManagedSigner.v
GaslessDb.v
GaslessExec.v
GaslessWorkflow.v
GaslessReconcile.v
GaslessSystem.v
GaslessSafe.v
GaslessFailure.v
GaslessOutcome.v
GaslessRecovery.v
GaslessSamples.v
SettlementPg.v
SettlementPgInv.v
SettlementPgDispatch.v
TreasuryAmount.v
TreasuryPolicy.v
TreasuryChain.v
TreasuryDb.v
TreasuryLedger.v
TreasuryDbInv.v
TreasuryIngest.v
TreasuryCover.v
TreasuryProgress.v
ReconTypes.v
ReconCoverage.v
ReconClassifier.v
ReconDb.v
ReconRun.v
ReconRunInv.v
ReconHistory.v
ReconSound.v
FundedBinding.v
OracleTypes.v
OracleDb.v
OracleEvidence.v
OracleProg.v
OracleExec.v
OracleDbInv.v
OracleWp.v
OracleSafe.v
OracleGuard.v
OracleRetry.v
OracleLive.v
OracleSamples.v
Containment.v
ContainmentInv.v
FinancialCoverage.v
OracleContainment.v
IndexerTypes.v
IndexerHandlers.v
IndexerBatch.v
IndexerView.v
IndexerHistory.v
EscrowModel.v
IndexerSpec.v
IndexerTracks.v
IndexerSound.v
EscrowFees.v
IndexerCorrect.v
IndexerRecon.v
IndexerSamples.v
FeeFlow.v
FeeFeed.v
TreasurySamples.v
TreasuryGate.v
TreasuryExport.v
