(* ===== verification/Prelude.v ===== *)
(** * Cotsel: settlement, treasury, reconciliation and oracle of an escrow marketplace

    Cotsel runs trades through an on-chain escrow.  Around the contracts, a set
    of TypeScript services moves and accounts for the money: the SDK classifies
    transaction finality, the gateway tracks settlement handoffs and calls the
    platform back, the treasury sweeps released fees under maker-checker
    control, the reconciliation service proves that the indexer agrees with the
    chain, the oracle broadcasts the escrow's progressions, and the gateway relays
    buyers' gasless requests through a managed signer.  This library
    models those parts as executable definitions and proves what makes them
    correct.

    ** Conventions

    A function that may throw is a function into [result] (error constructors or
    texts; diagnostic [details] payloads and log lines are left out).  Stateful
    stores are records of tables passed explicitly; a database transaction is a
    function into [result], so that a throw leaves the tables unchanged.
    [bigint] and integral [number] values are [Z]; where a width matters (safe
    integers, uint256, decimal digits) the bound is in the definition.  Time is
    an integer of milliseconds and the clock, generated UUIDs and serials are
    arguments; freshness of UUIDs is a hypothesis of the steps that use them.
    Strings are 8-bit code-unit strings.  Code outside the repository (ethers,
    RPC nodes, the indexer's answers, the HTTP peer) is a parameter or an input
    record.  Loops that are not structural carry fuel, and the bound is stated
    where they are used: ids of a window, batches of a list, and enumeration
    pages each make progress on every iteration.  The oracle's asynchronous
    functions are programs: trees of database statements and external calls with
    a continuation on each answer, so that any interleaving of any number of
    processes is a sequence of steps; its retry loop has the configured attempts
    as fuel, which the loop never exceeds.

    ** Files

    - [Prelude]: errors as values, JSON, list and sort lemmas, tactics, the hint
      database [cotsel].
    - [JsText], [JsDate], [JsMap], [JsJson]: the JavaScript strings, numerals, dates
      and insertion-ordered maps the services rely on; [toISOString] is injective,
      and so is [JSON.stringify] on values with finite numbers.
    - [Programs]: asynchronous functions as trees of effects, their executions and
      weakest preconditions under a protocol, systems of interleaved processes and
      the invariant rule of such systems.
    - [Finality]: [sdk/src/finality.ts] and [sdk/src/confirmation.ts].  A
      transaction is finalized exactly under a quorum of agreeing providers, in
      any order of answers; accepted positions form sound histories; advancing
      chain heads only move an event forward.
    - [SettlementTypes], [SettlementMachine]: the handoff records of
      [gateway/src/core/settlementStoreTypes.ts], the ingress guards of
      [routes/settlement.ts], the status table of [settlementStateMachine.ts]
      and its finality claims ([settlementFinality.ts]).  Runs of accepted
      events never turn a broadcast transaction into a failed one, settled
      statuses stick, and the ingress cannot assert chain outcomes.
    - [SettlementAmount]: [settlementAmount.ts], exact parsing and round trips.
    - [SettlementStore], [SettlementStoreInv]: every operation of
      [inMemorySettlementStore.ts] on its five maps, and the invariants of all
      reachable stores: the status of a handoff is the fold of its events,
      recording and creating are idempotent, a claimed delivery is exclusive
      until its lease expires, a delivered one is final.
    - [SettlementService]: [settlementService.ts], the reader of reconciliation
      evidence, the callback payload, exact on both sides, and the recording of an
      event through the store.
    - [CallbackDispatcher]: [settlementCallbackDispatcher.ts] against the class
      [CallbackStore], which the store of [SettlementStore] implements:
      one attempt, the retry budget, replay of dead letters.
    - [SettlementPg], [SettlementPgInv], [SettlementPgDispatch]: the production
      store, [settlementStore.ts] and [settlementCallbackStore.ts] on their tables
      with constraints and row triggers, and the nonce table.  Every operation
      refines the in-memory store; the event sourcing invariant holds in
      production; the store discharges the dispatcher's interface; a nonce is
      accepted once.  The normal form of [jsonb] is a parameter, and histories are
      those whose platform ids contain no colon, with which the in-memory store
      joins its keys and so takes two references for one.
    - [TreasuryAmount], [TreasuryPolicy]: [canonicalAmount.ts],
      [accountingPolicy.ts], [actorIdentity.ts], [payout.ts],
      [sweepCanonicality.ts], [sweepFinalityProgression.ts]: uint256 texts and
      sums, status tables, separation of duty, authenticated actors, fresh
      finality evidence.
    - [TreasuryChain]: [core/chainCanonicality.ts], log digests and the verdict on
      a ledger entry, exact in both directions up to collisions of SHA-256.
    - [TreasuryLedger]: the tables of the ledger, of its payout, reorganisation and
      cursor rows, with every statement of [queries/ledger.ts],
      [queries/chainCanonicality.ts] and [queries/ingestion.ts] that writes them.
    - [TreasuryDb], [TreasuryDbInv]: the period, sweep-batch, allocation, claim
      and canonicality transactions of [treasury/src/database/queries], and
      their invariants over every history: four eyes on batches, two people on
      period closes, no double allocation, none in excess of an amount that later
      ingestion leaves as it was, orphaned entries block their batch.
    - [TreasuryIngest], [TreasuryCover], [TreasuryProgress], [TreasurySamples]:
      the worker's run ([core/ingestion.ts], [core/ingestionWorker.ts],
      [indexer/client.ts]) in a state and error monad whose statements may each
      fail or be preceded by anything else the treasury does.  Over every history
      of such runs no fee below the cursor is missed, none is invented, and runs
      end and move forward; concrete runs show what the code does not guarantee.
    - [TreasuryGate]: [core/reconciliationGate.ts] over the tables of [ReconDb] and
      [core/ingestionFreshness.ts] over the cursors: what CLEAR and FRESH mean,
      exactly, and that a CLEAR gate rests on a published comparison of the trade
      with the chain.
    - [TreasuryExport]: [core/exportEligibility.ts] with its context, the sweep gate,
      manual payout transitions and the export route, in the monad of
      [TreasuryIngest].  An entry cleared for payout is backed by every control at
      once; a delivered export is the ledger at its cutoff; concrete runs show
      where a decision rests on a state read earlier.
    - [ReconTypes], [ReconCoverage], [ReconClassifier]: the pure part of the
      reconciliation service ([coverage.ts], [duplicateCoverage.ts],
      [classifier.ts], [containment.ts]): sweeps visit every id, comparisons
      account for every record, silence of the classifier means agreement,
      financial disagreement is always contained.
    - [ReconDb], [ReconRun]: run rows and leases ([leases.ts]), enumeration
      cycles ([enumerationCycles.ts]), drift and cursor ([queries.ts]), and one
      whole run ([reconciler.ts], [enumeration.ts]) with its fenced publishing
      transaction.
    - [ReconRunInv], [ReconHistory], [ReconSound]: histories of
      interleaved workers in which every run works from rows read earlier.
      Displaced workers are fenced off, completed evidence is immutable, an
      advancing cursor has decided its ids, and a complete drift-free run proves
      that each allocated id agrees or is absent on both sides, and presence of
      every trade in its scope, at one block; the former when a failed chain read
      carries an error message, since an empty one passes for absence.
    - [FundedBinding]: [sdk/src/settlementFundedBinding.ts], the immutable funding
      terms a progression must match; two releases pay out the whole escrow.
    - [OracleTypes]: [oracle/src/utils/crypto.ts], [utils/errors.ts],
      [types/trigger.ts], [core/state-validator.ts], [core/trigger-finality.ts],
      [core/funded-settlement-instruction.ts]: waits, error classes, keys, states.
    - [OracleDb], [OracleDbInv]: the trigger table of [oracle/src/database] with its
      unique indexes and row triggers, every statement on it, the invariant they
      keep and the order in which rows only move forward.
    - [OracleEvidence], [OracleLive]: [blockchain/dispatch-finality.ts], the
      two-witness evidence, accepted from two agreeing reports of a receipt that
      succeeded or reverted; a finalized dispatch releases its signer.
    - [OracleProg], [OracleExec]: the effects and the programs of
      [core/trigger-manager.ts], [core/trigger-execution.ts],
      [core/blockchain-actions.ts], [core/containment-guard.ts],
      [worker/confirmation-worker.ts] and [sdk/src/modules/oracleSDK.ts].
    - [OracleWp], [OracleSafe], [OracleGuard], [OracleRetry], [OracleSamples]:
      weakest preconditions over programs and protocols of effects; under every
      interleaving at most one broadcast per action, every broadcast guarded by
      fresh containment, binding and claim checks and by a pause check of the very
      trade it progresses, every execution that is permitted an attempt answered;
      concrete runs, among them a refused approval that strands its
      action.
    - [Containment], [ContainmentInv]: the containment rows
      of [reconciliation/src/database/containments.ts], what a run decides about
      them ([core/runControls.ts]), the run alert outbox, the governed unpause
      ([core/governedApproval.ts], [blockchain/escrowGovernance.ts]) and the
      release command.  In every history of runs and releases a release carries
      governed evidence spent once, and, when it does not overlap a run, follows a
      clean comparison; two concrete runs show what is not guaranteed.
    - [FinancialCoverage]: [core/financialCoverage.ts], the proof served to the
      services that move money, sound over every history of runs.
    - [OracleContainment]: reconciliation and oracle
      together; a published financial disagreement stops every progression of its
      trade until a release.
    - [IndexerTypes], [IndexerHandlers], [IndexerBatch]: the
      indexer ([indexer/src]): entities, events and batches; the overview counters
      and their rebuild; every handler of [main.ts] and [handlers/claims.ts] as a
      change of the batch's variables over the stored tables; the batch loop, its
      persistence ([persistence.ts]), poison logs and the quarantine table
      ([poisonLog.ts], [quarantine.ts]), and histories of batches that commit, halt
      or fail to be read or written.  Every read of the database may reject: the
      class [StoreReads], whose instance in a batch is [f_reads]; inside a handler
      the rejection halts the batch, before the first log it ends it.
    - [IndexerView], [IndexerHistory]: a batch is a write-back cache: cutting it
      anywhere changes nothing, so the tables are the replay of the checkpointed
      logs; every handler writes one event row; where a batch halts, and that the
      log cannot be projected or a read rejected.  The replay is stated with reads
      that answer ([reads_answer]).
    - [IndexerSpec], [EscrowModel], [IndexerTracks], [IndexerSound]: what each event
      means for the projection, and that the handlers do exactly this; the calls of
      [contracts/src/AgroasysEscrow.sol] with the events they emit; every call is
      followed by the projection.
    - [IndexerCorrect], [IndexerRecon], [IndexerSamples]: the indexer's promises:
      batching is invisible, every log has its row with the columns of its event, a
      halt leaves evidence and is never passed unless a read had rejected, the
      contract's own events never halt it while reads answer and leave the
      contract's state in the tables, between which and the chain the classifier of
      reconciliation finds nothing; a concrete chain.

    - [ManagedSigner]: [sdk/src/managedSignerIntent.ts], canonical intents and their
      hash; a signer's answer is accepted exactly when it is the intended
      transaction in every field.
    - [GaslessDb]: the nonce reservations and the transaction outcomes
      of [gateway/src/core] with every statement on them, and the order in which
      their rows only move forward.
    - [GaslessExec], [GaslessWorkflow], [GaslessReconcile]: the executor, lifecycle and
      lock, the two workflows with their failure record, the reconciler with its
      projection on handoffs, as programs of [Programs].
    - [GaslessSystem], [GaslessSafe]: the stores, the settlement store, the signer and
      the network as one system in which statements fail before or after they took
      effect, processes die and others answer anything; one signature per nonce,
      one broadcast per request, transaction and nonce, each within the gateway's
      limits.
    - [GaslessFailure], [GaslessOutcome], [GaslessRecovery], [GaslessSamples]: when a
      request is recorded as failed, outcome rows as the replay of their events,
      what a recovery pass completes when the handoff is still open and what it
      can never report; concrete runs,
      among them two in which a mined transaction is recorded as failed.
    - [EscrowFees], [FeeFlow], [FeeFeed]: contract, indexer and
      treasury together.  Each trade of the contract announces its fees in a fixed
      trail of events; the handlers write them into the columns the treasury
      reads; a treasury that ingests from the indexer while it grows ends up with
      each fee of the contract once, with the contract's amount.

    ** What the theorems assume

    Nothing beyond their stated hypotheses: reachability of the store or
    database by the modelled operations from the empty one, freshness of
    generated ids, and for the dispatcher an attempt not disturbed by another
    worker.  The oracle's environment answers anything at any time, and so do the
    managed signer, the chain and the clock of gasless execution; of [getAddress] it
    is assumed that a checksummed address is its own checksummed form.  The indexer's
    library commits the tables and the checkpoint together and rolls both back
    when the batch throws, an upsert replaces the row with that id and does not
    write a relation that was not loaded, and decoding is a function of topics and
    data; ethers restores the case of an address that was lower-cased.  The treasury's
    queries answer by their filter, order, limit and offset over the rows of the
    indexer at that moment, or fail; the pages of one run come from an indexer
    that already reported the window's blocks as processed.  No axiom is
    used.

    ** Not modelled

    Of gasless execution the checks of a request and of its handoff before the first
    effect, which are arbitrary functions here, the user-action engine, the executor
    with a raw private key, the finality verifier, and readiness figures; of the
    settlement service the binding checks of [createHandoff]; user actions,
    governance and compliance of the gateway; the oracle's HTTP
    interface, request signatures, KMS signers and receipt decoders, and its
    advisory action lock, which only removes interleavings; the indexer's
    processor library (forks, RPC), readiness probes and start-up checks; auth and
    ricardian services; treasury export snapshots and the texts of export queries,
    bank and partner payouts;
    reports and notification texts of reconciliation; of the Solidity contracts the balances and the
    checks on callers, signatures, time and quorum;
    HTTP, RPC and GraphQL transports, logging and metrics. *)
From stdpp Require Export base option list gmap strings sorting.
From Stdlib Require Export ZArith Lia.

Open Scope Z_scope.
Open Scope list_scope.

(** ** Errors as values

    A TypeScript function that may throw becomes a function into [result]:
    [Ok] is a normal return, [Err] the thrown error.  The monad instances let
    the bodies be written with stdpp's [x ← e; k] notation, in the order of the
    source's statements. *)

Inductive result (E A : Type) : Type :=
| Ok (a : A)
| Err (e : E).
Arguments Ok {E A} a.
Arguments Err {E A} e.

#[export] Instance result_ret {E} : MRet (result E) := fun A x => Ok x.
#[export] Instance result_bind {E} : MBind (result E) :=
  fun A B f m => match m with Ok x => f x | Err e => Err e end.
#[export] Instance result_fmap {E} : FMap (result E) :=
  fun A B f m => match m with Ok x => Ok (f x) | Err e => Err e end.

Definition is_ok {E A} (r : result E A) : bool :=
  match r with Ok _ => true | Err _ => false end.

(** [throw_if c e] is the source's [if (c) throw e;]. *)
Definition throw_if {E} (c : bool) (e : E) : result E unit :=
  if c then Err e else Ok tt.

Fixpoint result_mapM {E A B} (f : A -> result E B) (l : list A) : result E (list B) :=
  match l with
  | [] => Ok []
  | x :: l => y ← f x; ys ← result_mapM f l; Ok (y :: ys)
  end.

Lemma bind_ok {E A B} (m : result E A) (f : A -> result E B) b :
  (x ← m; f x) = Ok b <-> exists a, m = Ok a /\ f a = Ok b.
Proof.
  split.
  - destruct m as [a|e]; simpl; [by eauto | by intros [=]].
  - by intros (a & -> & ?).
Qed.

Lemma throw_if_ok {E} c (e : E) u : throw_if c e = Ok u <-> c = false.
Proof. destruct c, u; simpl; split; congruence. Qed.

Lemma throw_if_bind {E A} c (e : E) (k : unit -> result E A) a :
  (x ← throw_if c e; k x) = Ok a <-> c = false /\ k tt = Ok a.
Proof. destruct c; simpl; split; [intros [=] | intros [[=] _] | auto | tauto]. Qed.

Lemma result_mapM_ok {E A B} (f : A -> result E B) l ys :
  result_mapM f l = Ok ys <-> Forall2 (fun x y => f x = Ok y) l ys.
Proof.
  revert ys. induction l as [|x l IH]; intros ys; simpl.
  - split; [intros [= <-]; constructor | by inversion 1].
  - rewrite bind_ok. split.
    + intros (y & Hy & H). apply bind_ok in H as (ys' & H1 & [= <-]).
      constructor; [done | by apply IH].
    + inversion 1 as [|? y ? ys' Hy Hl]; subst. exists y. split; [done|].
      apply IH in Hl. by rewrite Hl.
Qed.

(** ** JSON values

    [Record<string, unknown>] payloads.  Numbers are the exact decimals the
    service writes: integers, and other numbers by the decimal text ECMAScript
    prints for them. *)

Inductive json : Type :=
| JNull
| JBool (b : bool)
| JNum (z : Z)
| JDec (text : string)
| JStr (s : string)
| JArr (l : list json)
| JObj (fields : list (string * json)).

(** Property access on an object: the last binding of a key wins, as in a JS
    object literal with a repeated key. *)
Fixpoint json_assoc (k : string) (fields : list (string * json)) : option json :=
  match fields with
  | [] => None
  | (k', v) :: rest =>
      match json_assoc k rest with
      | Some v' => Some v'
      | None => if String.eqb k k' then Some v else None
      end
  end.

(** An optional member of an input object: absent, [null] or given.  Most code
    reads it as [value ?? null], which is [or_null]. *)
Inductive nullish (A : Type) : Type :=
| Undefined
| Null
| Given (a : A).
Arguments Undefined {A}.
Arguments Null {A}.
Arguments Given {A} a.

Definition or_null {A} (v : nullish A) : option A :=
  match v with Given a => Some a | _ => None end.

(** [stored === input] for a stored [A | null]: an absent input is never equal. *)
Definition strict_eq {A} (eqb : A -> A -> bool) (stored : option A) (input : nullish A) : bool :=
  match stored, input with
  | Some a, Given b => eqb a b
  | None, Null => true
  | _, _ => false
  end.

(** ** Machine ranges *)

(** Number.MAX_SAFE_INTEGER *)
Definition MAX_SAFE_INTEGER : Z := 2 ^ 53 - 1.

(** Number.isSafeInteger on an integral number. *)
Definition is_safe_integer (z : Z) : bool :=
  (- MAX_SAFE_INTEGER <=? z) && (z <=? MAX_SAFE_INTEGER).

(** ** Tactics *)

(** Split boolean conjunctions and disjunctions in the context into Props, with
    the decidable comparisons reflected. *)
Ltac reflect_bools :=
  repeat match goal with
  | H : (_ && _)%bool = true |- _ => apply andb_true_iff in H; destruct H
  | H : (_ || _)%bool = false |- _ => apply orb_false_iff in H; destruct H
  | H : negb _ = true |- _ => apply negb_true_iff in H
  | H : negb _ = false |- _ => apply negb_false_iff in H
  | H : (_ =? _)%Z = true |- _ => apply Z.eqb_eq in H
  | H : (_ =? _)%Z = false |- _ => apply Z.eqb_neq in H
  | H : (_ <? _)%Z = true |- _ => apply Z.ltb_lt in H
  | H : (_ <? _)%Z = false |- _ => apply Z.ltb_ge in H
  | H : (_ <=? _)%Z = true |- _ => apply Z.leb_le in H
  | H : (_ <=? _)%Z = false |- _ => apply Z.leb_gt in H
  | H : String.eqb _ _ = true |- _ => apply String.eqb_eq in H
  | H : String.eqb _ _ = false |- _ => apply String.eqb_neq in H
  | H : bool_decide _ = true |- _ => apply bool_decide_eq_true in H
  | H : bool_decide _ = false |- _ => apply bool_decide_eq_false in H
  end.

(** Walk down a successful run of a [result] computation, one statement at a
    time: binds are opened, guards become facts, error branches disappear. *)
Ltac inv_ok :=
  repeat match goal with
  | H : Err _ = Ok _ |- _ => discriminate H
  | H : Ok _ = Err _ |- _ => discriminate H
  | H : Ok _ = Ok _ |- _ => injection H as H; subst
  | H : throw_if _ _ = Ok _ |- _ => apply throw_if_ok in H
  | H : mbind _ (throw_if _ _) = Ok _ |- _ => apply throw_if_bind in H; destruct H
  | H : mbind _ _ = Ok _ |- _ => apply bind_ok in H; destruct H as (? & ? & ?)
  | H : mret _ = Ok _ |- _ => injection H as H; subst
  | H : (if ?c then Err _ else _) = Ok _ |- _ => destruct c eqn:?; [discriminate H|]
  | H : (if ?c then _ else Err _) = Ok _ |- _ => destruct c eqn:?; [|discriminate H]
  | H : match ?c with Some _ => _ | None => Err _ end = Ok _ |- _ =>
      destruct c eqn:?; [|discriminate H]
  end.

(** Case analysis of a goal over a finite enumeration. *)
Ltac by_cases := repeat match goal with
  | x : ?T |- _ => is_var x; progress destruct x; try (vm_compute; congruence)
  end.

(** ** Lists *)

Lemma existsb_false {A} (p : A -> bool) l :
  existsb p l = false <-> Forall (fun x => p x = false) l.
Proof.
  induction l as [|x l IH]; simpl; [split; [constructor|done]|].
  rewrite orb_false_iff, Forall_cons, IH. done.
Qed.

Lemma forallb_true {A} (p : A -> bool) l :
  forallb p l = true <-> Forall (fun x => p x = true) l.
Proof.
  induction l as [|x l IH]; simpl; [split; [constructor|done]|].
  rewrite andb_true_iff, Forall_cons, IH. done.
Qed.

Lemma existsb_Permutation {A} (p : A -> bool) l l' :
  l ≡ₚ l' -> existsb p l = existsb p l'.
Proof.
  induction 1 as [|x l l' _ IH|x y l|l1 l2 l3 _ IH1 _ IH2]; simpl; auto.
  - by rewrite IH.
  - by rewrite !orb_assoc, (orb_comm (p y)).
  - congruence.
Qed.

Lemma forallb_Permutation {A} (p : A -> bool) l l' :
  l ≡ₚ l' -> forallb p l = forallb p l'.
Proof.
  induction 1 as [|x l l' _ IH|x y l|l1 l2 l3 _ IH1 _ IH2]; simpl; auto.
  - by rewrite IH.
  - by rewrite !andb_assoc, (andb_comm (p y)).
  - congruence.
Qed.

(** [Array.prototype.sort] with a comparator: stable.  [le a b] is
    [compare(a, b) <= 0]. *)
Fixpoint sort_insert {A} (le : A -> A -> bool) (x : A) (l : list A) : list A :=
  match l with
  | [] => [x]
  | y :: l' => if le x y then x :: l else y :: sort_insert le x l'
  end.

Definition js_sort {A} (le : A -> A -> bool) (l : list A) : list A :=
  foldr (sort_insert le) [] l.

Lemma sort_insert_Permutation {A} (le : A -> A -> bool) x l : sort_insert le x l ≡ₚ x :: l.
Proof.
  induction l as [|y l IH]; simpl; [done|]. destruct (le x y); [done|].
  rewrite IH. apply Permutation_swap.
Qed.

Lemma js_sort_Permutation {A} (le : A -> A -> bool) l : js_sort le l ≡ₚ l.
Proof.
  induction l as [|x l IH]; simpl; [done|]. by rewrite sort_insert_Permutation, IH.
Qed.

Lemma js_sort_sorted {A} (le : A -> A -> bool) l :
  (forall a b, le a b = false -> le b a = true) ->
  (forall a b c, le a b = true -> le b c = true -> le a c = true) ->
  StronglySorted (fun a b => le a b = true) (js_sort le l).
Proof.
  intros Htot Htr. induction l as [|x l IH]; simpl; [constructor|].
  induction IH as [|y l' Hs IHs Hy]; simpl; [repeat constructor|].
  destruct (le x y) eqn:E.
  - constructor; [by constructor|]. constructor; [done|].
    eapply Forall_impl; [exact Hy|]. intros z Hz. simpl in *. eauto.
  - constructor; [done|]. rewrite sort_insert_Permutation. constructor; [auto|done].
Qed.

(** [list.slice(from, to)] for non-negative bounds. *)
Definition slice {A} (from to : Z) (l : list A) : list A :=
  take (Z.to_nat (to - from)) (drop (Z.to_nat from) l).

(** JavaScript's [Array.prototype.includes] on a list with decidable equality. *)
Definition includes {A} `{EqDecision A} (l : list A) (x : A) : bool :=
  bool_decide (x ∈ l).

Lemma includes_true {A} `{EqDecision A} (l : list A) x : includes l x = true <-> x ∈ l.
Proof. unfold includes. by rewrite bool_decide_eq_true. Qed.

Lemma includes_false {A} `{EqDecision A} (l : list A) x : includes l x = false <-> x ∉ l.
Proof. unfold includes. by rewrite bool_decide_eq_false. Qed.

(** ** Hint database of the development *)

Create HintDb cotsel.
Create Rewrite HintDb cotsel.
#[export] Hint Resolve Z.le_refl Z.lt_le_incl : cotsel.
#[export] Hint Rewrite @includes_true @includes_false : cotsel.
