(* ===== verification/JsText.v ===== *)
(** JavaScript text operations.

    A JS string is modelled as a [string] of 8-bit code units (the Latin-1
    subset of UTF-16): every literal and every accepted input of the modelled
    code is ASCII.  This file holds the operations the services use on strings
    ([trim], [toLowerCase], [padEnd], [includes], [startsWith]), the regular
    expressions they test written as boolean recognisers, and the decimal
    printing and reading behind [BigInt(text)] and [value.toString()], with
    their round trips. *)
From stdpp Require Import base list strings.
From Stdlib Require Export Ascii.
From Stdlib Require Import DecimalString DecimalN DecimalFacts.
From S2P Require Import Prelude.

Open Scope string_scope.

(** ** Characters *)

Definition code (c : ascii) : N := N_of_ascii c.

Definition char_between (lo hi : N) (c : ascii) : bool :=
  (lo <=? code c)%N && (code c <=? hi)%N.

(** [\d], i.e. [[0-9]] *)
Definition is_digit (c : ascii) : bool := char_between 48 57 c.

(** [[0-9a-f]] and [[0-9a-fA-F]] *)
Definition is_lower_hex (c : ascii) : bool := is_digit c || char_between 97 102 c.
Definition is_hex (c : ascii) : bool := is_lower_hex c || char_between 65 70 c.

(** The Latin-1 part of the JS whitespace and line terminators: TAB..CR, space, NBSP. *)
Definition is_js_space (c : ascii) : bool :=
  char_between 9 13 c || (code c =? 32)%N || (code c =? 160)%N.

(** [toLowerCase] on one Latin-1 code unit. *)
Definition lower_char (c : ascii) : ascii :=
  if char_between 65 90 c || (char_between 192 222 c && negb (code c =? 215)%N)
  then ascii_of_N (code c + 32) else c.

(** [toUpperCase] on one ASCII code unit. *)
Definition upper_char (c : ascii) : ascii :=
  if char_between 97 122 c then ascii_of_N (code c - 32) else c.

Definition digit_value (c : ascii) : N := (code c - 48)%N.

(** ** Strings *)

Fixpoint all_chars (p : ascii -> bool) (s : string) : bool :=
  match s with
  | EmptyString => true
  | String c s => p c && all_chars p s
  end.

Fixpoint map_chars (f : ascii -> ascii) (s : string) : string :=
  match s with
  | EmptyString => EmptyString
  | String c s => String (f c) (map_chars f s)
  end.

Definition toLowerCase (s : string) : string := map_chars lower_char s.
Definition toUpperCase (s : string) : string := map_chars upper_char s.

Fixpoint trim_start (s : string) : string :=
  match s with
  | EmptyString => EmptyString
  | String c s' => if is_js_space c then trim_start s' else s
  end.

Fixpoint trim_end (s : string) : string :=
  match s with
  | EmptyString => EmptyString
  | String c s' =>
      let r := trim_end s' in
      if String.eqb r "" && is_js_space c then "" else String c r
  end.

Definition trim (s : string) : string := trim_end (trim_start s).

Fixpoint text_includes (needle s : string) : bool :=
  String.prefix needle s ||
  match s with EmptyString => false | String _ s' => text_includes needle s' end.

Fixpoint repeat_char (n : nat) (c : ascii) : string :=
  match n with O => "" | S n => String c (repeat_char n c) end.

(** [s.padEnd(n, c)] *)
Definition padEnd (n : nat) (c : ascii) (s : string) : string :=
  s ++ repeat_char (n - String.length s) c.

(** A truthy string: JS treats the empty string as false. *)
Definition truthy (s : string) : bool := negb (String.eqb s "").

(** [s?.trim() || null] *)
Definition trimmed_or_null (s : option string) : option string :=
  match s with
  | Some t => if truthy (trim t) then Some (trim t) else None
  | None => None
  end.

(** ** Regular expressions *)

(** [/^\d+$/] *)
Definition digits_only (s : string) : bool := truthy s && all_chars is_digit s.

(** The unsigned decimal numeral without leading zero, [0|[1-9][0-9]{0,}], anchored. *)
Definition canonical_digits (s : string) : bool :=
  match s with
  | EmptyString => false
  | String c rest =>
      if (code c =? 48)%N then String.eqb rest ""
      else is_digit c && all_chars is_digit rest
  end.

(** [/^0x[0-9a-fA-F]{n}$/] and [/^0x[0-9a-f]{n}$/] *)
Definition hex_word (n : nat) (s : string) : bool :=
  match s with
  | String "0" (String "x" rest) => (String.length rest =? n)%nat && all_chars is_hex rest
  | _ => false
  end.

Definition lower_hex_word (n : nat) (s : string) : bool :=
  match s with
  | String "0" (String "x" rest) => (String.length rest =? n)%nat && all_chars is_lower_hex rest
  | _ => false
  end.

(** ** Decimal numerals *)

Fixpoint digits_acc (acc : N) (s : string) : N :=
  match s with
  | EmptyString => acc
  | String c s => digits_acc (10 * acc + digit_value c) s
  end.

(** [BigInt(s)] for a string of decimal digits. *)
Definition digits_value (s : string) : N := digits_acc 0 s.

(** [value.toString()] for a non-negative integer. *)
Definition print_N (n : N) : string := NilEmpty.string_of_uint (N.to_uint n).

(** [value.toString()] for a [bigint] or an integral number. *)
Definition print_Z (z : Z) : string :=
  match z with
  | Zneg p => "-" ++ print_N (Npos p)
  | _ => print_N (Z.to_N z)
  end.

(** ** Lemmas: concatenation and lengths *)

#[local] Arguments String.append !_ _ / : simpl nomatch.

Lemma string_app_assoc (a b c : string) : (a ++ b) ++ c = a ++ (b ++ c).
Proof. induction a; simpl; congruence. Qed.

Lemma string_app_nil_r (a : string) : a ++ "" = a.
Proof. induction a; simpl; congruence. Qed.

Lemma string_length_app (a b : string) :
  String.length (a ++ b) = (String.length a + String.length b)%nat.
Proof. induction a; simpl; congruence. Qed.

Lemma string_length_repeat n c : String.length (repeat_char n c) = n.
Proof. induction n; simpl; congruence. Qed.

Lemma string_app_inj_len (a b c d : string) :
  String.length a = String.length c -> a ++ b = c ++ d -> a = c /\ b = d.
Proof.
  revert c. induction a as [|x a IH]; intros [|y c]; simpl; try discriminate; [done|].
  intros [= Hl] [= -> H]. destruct (IH _ Hl H) as [-> ->]. done.
Qed.

Lemma all_chars_app p a b : all_chars p (a ++ b) = all_chars p a && all_chars p b.
Proof. induction a; simpl; [done|]. by rewrite IHa, andb_assoc. Qed.

Lemma all_chars_impl (p q : ascii -> bool) s :
  (forall c, p c = true -> q c = true) -> all_chars p s = true -> all_chars q s = true.
Proof.
  intros Hpq. induction s as [|c s IH]; simpl; [done|].
  rewrite !andb_true_iff. intros [H1 H2]. auto.
Qed.

Lemma all_chars_repeat p n c : p c = true -> all_chars p (repeat_char n c) = true.
Proof. intros Hc. induction n; simpl; [done|]. by rewrite Hc. Qed.

Lemma padEnd_length n c s : (String.length s <= n)%nat -> String.length (padEnd n c s) = n.
Proof. intros. unfold padEnd. rewrite string_length_app, string_length_repeat. lia. Qed.

(** A separator that does not occur before its first occurrence splits a string
    in one way only. *)
Lemma split_at_sep (sep : ascii) (a b c d : string) :
  all_chars (fun x => negb (Ascii.eqb x sep)) a = true ->
  all_chars (fun x => negb (Ascii.eqb x sep)) c = true ->
  a ++ String sep b = c ++ String sep d -> a = c /\ b = d.
Proof.
  revert c. induction a as [|x a IH]; intros [|y c]; simpl; intros Ha Hc H.
  - by injection H.
  - injection H as <- H. rewrite Ascii.eqb_refl in Hc. discriminate.
  - injection H as -> H. rewrite Ascii.eqb_refl in Ha. discriminate.
  - injection H as -> H. apply andb_true_iff in Ha as [_ Ha].
    apply andb_true_iff in Hc as [_ Hc]. destruct (IH _ Ha Hc H) as [-> ->]. done.
Qed.

(** ** Lemmas: case folding *)

Lemma lower_char_idem c : lower_char (lower_char c) = lower_char c.
Proof. destruct c as [[] [] [] [] [] [] [] []]; vm_compute; reflexivity. Qed.

Lemma toLowerCase_idem s : toLowerCase (toLowerCase s) = toLowerCase s.
Proof. unfold toLowerCase. induction s; simpl; [done|]. by rewrite IHs, lower_char_idem. Qed.

Lemma is_hex_lower c : is_hex c = true -> is_lower_hex (lower_char c) = true.
Proof. destruct c as [[] [] [] [] [] [] [] []]; vm_compute; congruence. Qed.

Lemma is_lower_hex_hex c : is_lower_hex c = true -> is_hex c = true.
Proof. unfold is_hex. by intros ->. Qed.

Lemma map_chars_length f s : String.length (map_chars f s) = String.length s.
Proof. induction s; simpl; congruence. Qed.

Lemma hex_word_inv n s :
  hex_word n s = true ->
  exists rest, s = String "0" (String "x" rest) /\ String.length rest = n /\
    all_chars is_hex rest = true.
Proof.
  destruct s as [|c s]; [discriminate|].
  destruct c as [[] [] [] [] [] [] [] []]; try discriminate.
  destruct s as [|c s]; [discriminate|].
  destruct c as [[] [] [] [] [] [] [] []]; try discriminate.
  simpl. rewrite andb_true_iff, Nat.eqb_eq. intros [? ?]. eauto.
Qed.

Lemma hex_word_lower n s : hex_word n s = true -> lower_hex_word n (toLowerCase s) = true.
Proof.
  intros (rest & -> & Hl & Hh)%hex_word_inv. simpl.
  rewrite map_chars_length, Hl, Nat.eqb_refl. simpl.
  clear Hl. induction rest as [|c r IH]; simpl in *; [done|].
  apply andb_true_iff in Hh as [Hc Hr]. by rewrite is_hex_lower, IH.
Qed.

Lemma lower_hex_word_hex n s : lower_hex_word n s = true -> hex_word n s = true.
Proof.
  destruct s as [|c s]; [discriminate|].
  destruct c as [[] [] [] [] [] [] [] []]; try discriminate.
  destruct s as [|c s]; [discriminate|].
  destruct c as [[] [] [] [] [] [] [] []]; try discriminate.
  simpl. rewrite !andb_true_iff. intros [? ?]. split; [done|].
  by eapply all_chars_impl; [apply is_lower_hex_hex|].
Qed.

Lemma lower_hex_lower n s : lower_hex_word n s = true -> toLowerCase s = s.
Proof.
  assert (Hall : forall r, all_chars is_lower_hex r = true -> toLowerCase r = r).
  { assert (Hc : forall c, is_lower_hex c = true -> lower_char c = c)
      by (intros [[] [] [] [] [] [] [] []]; vm_compute; congruence).
    unfold toLowerCase. induction r as [|c r IH]; [done|]. cbn. intros [H1 H2]%andb_true_iff. by rewrite (Hc c H1), (IH H2). }
  destruct s as [|c s]; [done|]. destruct c as [[] [] [] [] [] [] [] []]; try done.
  destruct s as [|c s]; [done|]. destruct c as [[] [] [] [] [] [] [] []]; try done.
  cbn [lower_hex_word]. intros [_ H]%andb_true_iff.
  change (String "0" (String "x" (toLowerCase s)) = String "0" (String "x" s)). by rewrite (Hall s H).
Qed.

Lemma lower_hex_no_colon c : is_lower_hex c = true -> negb (Ascii.eqb c ":") = true.
Proof. destruct c as [[] [] [] [] [] [] [] []]; vm_compute; congruence. Qed.

Lemma digit_no_colon c : is_digit c = true -> negb (Ascii.eqb c ":") = true.
Proof. destruct c as [[] [] [] [] [] [] [] []]; vm_compute; congruence. Qed.

Lemma lower_hash_no_colon n s :
  hex_word n s = true -> all_chars (fun x => negb (Ascii.eqb x ":")) (toLowerCase s) = true.
Proof.
  intros (rest & -> & _ & Hh)%hex_word_inv. simpl.
  induction rest as [|c r IH]; simpl in *; [done|].
  apply andb_true_iff in Hh as [Hc Hr].
  by rewrite (lower_hex_no_colon _ (is_hex_lower _ Hc)), IH.
Qed.

(** ** Lemmas: decimal numerals *)

Lemma digits_acc_shift acc s :
  digits_acc acc s = (acc * 10 ^ N.of_nat (String.length s) + digits_value s)%N.
Proof.
  unfold digits_value. revert acc. induction s as [|c s IH]; intros acc; [simpl; lia|].
  cbn [digits_acc String.length]. rewrite IH, (IH (10 * 0 + digit_value c)%N).
  rewrite Nat2N.inj_succ, N.pow_succ_r'. lia.
Qed.

Lemma digits_acc_app acc a b : digits_acc acc (a ++ b) = digits_acc (digits_acc acc a) b.
Proof. revert acc. induction a; simpl; auto. Qed.

Lemma digits_value_app a b :
  digits_value (a ++ b) =
  (digits_value a * 10 ^ N.of_nat (String.length b) + digits_value b)%N.
Proof. unfold digits_value at 1. by rewrite digits_acc_app, digits_acc_shift. Qed.

Lemma digits_value_zeros n : digits_value (repeat_char n "0") = 0%N.
Proof. unfold digits_value. by induction n. Qed.

Lemma digits_value_string_of_uint d :
  digits_value (NilEmpty.string_of_uint d) = N.of_uint d.
Proof.
  assert (Hacc : forall d p,
    digits_acc (Npos p) (NilEmpty.string_of_uint d) = Npos (Pos.of_uint_acc d p)).
  { clear d. induction d as [|d IH|d IH|d IH|d IH|d IH|d IH|d IH|d IH|d IH|d IH]; intros p;
      simpl; [done|..]; rewrite <- IH; f_equal; vm_compute digit_value; lia. }
  unfold N.of_uint, digits_value.
  induction d; simpl; [done|by rewrite <- IHd|..]; apply Hacc.
Qed.

Lemma all_digits_uint s :
  all_chars is_digit s = true -> exists d, NilEmpty.uint_of_string s = Some d.
Proof.
  induction s as [|c s IH]; simpl; [eauto|].
  rewrite andb_true_iff. intros [Hc [d ->]%IH].
  destruct c as [[] [] [] [] [] [] [] []]; vm_compute in Hc; try discriminate; simpl; eauto.
Qed.

Lemma string_of_uint_digits d : all_chars is_digit (NilEmpty.string_of_uint d) = true.
Proof. induction d; simpl; auto. Qed.

Lemma print_N_digits n : all_chars is_digit (print_N n) = true.
Proof. apply string_of_uint_digits. Qed.

Lemma digits_value_print n : digits_value (print_N n) = n.
Proof. unfold print_N. by rewrite digits_value_string_of_uint, Unsigned.of_to. Qed.

Lemma to_uint_unorm n : Decimal.unorm (N.to_uint n) = N.to_uint n.
Proof. rewrite <- Unsigned.to_of. by rewrite Unsigned.of_to. Qed.

Lemma canonical_digits_print n : canonical_digits (print_N n) = true.
Proof.
  unfold print_N. pose proof (to_uint_unorm n) as H.
  destruct (N.to_uint n) as [|d|d|d|d|d|d|d|d|d|d] eqn:E; simpl;
    try apply string_of_uint_digits.
  - by vm_compute in H.
  - rewrite unorm_D0 in H. unfold Decimal.unorm in H.
    destruct (Decimal.nzhead d) as [|d'|?|?|?|?|?|?|?|?|?] eqn:E'; try discriminate.
    + injection H as <-. done.
    + by apply nzhead_nonzero in E'.
Qed.

Lemma canonical_digits_all s : canonical_digits s = true -> all_chars is_digit s = true.
Proof.
  destruct s as [|c s]; [done|]. simpl. destruct (code c =? 48)%N eqn:E; [|done].
  intros ->%String.eqb_eq. apply N.eqb_eq in E. unfold is_digit, char_between.
  rewrite E. done.
Qed.

Lemma print_digits_value s : canonical_digits s = true -> print_N (digits_value s) = s.
Proof.
  intros Hs. destruct (all_digits_uint s) as [d Hd]; [by apply canonical_digits_all|].
  pose proof (NilEmpty.sus _ _ Hd) as <-. unfold print_N.
  rewrite digits_value_string_of_uint, Unsigned.to_of. f_equal.
  destruct d; try done.
  simpl in Hs. destruct d; done.
Qed.

(** Two canonical numerals with the same value are the same text. *)
Lemma canonical_digits_inj s t :
  canonical_digits s = true -> canonical_digits t = true ->
  digits_value s = digits_value t -> s = t.
Proof. intros Hs Ht H. rewrite <- (print_digits_value s), <- (print_digits_value t) by done. by rewrite H. Qed.

Lemma print_N_inj n m : print_N n = print_N m -> n = m.
Proof. intros H. rewrite <- (digits_value_print n), <- (digits_value_print m). by rewrite H. Qed.

Lemma print_N_no_dash n s : print_N n <> "-" ++ s.
Proof.
  intros H. pose proof (print_N_digits n) as Hd. rewrite H in Hd. by vm_compute in Hd.
Qed.

Lemma print_Z_inj a b : print_Z a = print_Z b -> a = b.
Proof.
  destruct a as [|p|p], b as [|q|q]; unfold print_Z; intros H;
    try (by apply print_N_no_dash in H); try (symmetry in H; by apply print_N_no_dash in H);
    try (apply print_N_inj in H; by inversion H).
  apply (inj (String.append "-")) in H. apply print_N_inj in H. by inversion H.
Qed.

Lemma print_Z_no_colon z : all_chars (fun x => negb (Ascii.eqb x ":")) (print_Z z) = true.
Proof.
  assert (H : forall n, all_chars (fun x => negb (Ascii.eqb x ":")) (print_N n) = true).
  { intros n. eapply all_chars_impl; [apply digit_no_colon | apply print_N_digits]. }
  destruct z; apply H.
Qed.

(** A numeral of [k] digits is below [10^k]. *)
Lemma digits_value_bound s :
  all_chars is_digit s = true ->
  (digits_value s < 10 ^ N.of_nat (String.length s))%N.
Proof.
  induction s as [|c s IH]; [done|]. cbn [all_chars].
  intros [Hc Hs]%andb_true_iff. unfold digits_value. cbn [digits_acc String.length].
  rewrite digits_acc_shift, Nat2N.inj_succ, N.pow_succ_r'.
  specialize (IH Hs). unfold is_digit, char_between in Hc. apply andb_true_iff in Hc as [_ Hc].
  apply N.leb_le in Hc. unfold digit_value. nia.
Qed.

(** ** [BigInt(text)] *)

Definition hex_digit_value (c : ascii) : N :=
  if is_digit c then code c - 48
  else if char_between 97 102 c then code c - 87 else code c - 55.

Fixpoint radix_acc (base acc : N) (s : string) : N :=
  match s with
  | EmptyString => acc
  | String c s => radix_acc base (base * acc + hex_digit_value c) s
  end.

(** The StringToBigInt grammar: surrounding white space is ignored, the empty
    text is zero, [0x], [0o] and [0b] introduce unsigned numerals, and a decimal
    numeral may carry one sign.  [None] is a [SyntaxError]. *)
Definition js_BigInt (s : string) : option Z :=
  let t := trim s in
  let radix base (p : ascii -> bool) rest :=
    if truthy rest && all_chars p rest then Some (Z.of_N (radix_acc base 0 rest)) else None in
  match t with
  | EmptyString => Some 0%Z
  | String "0" (String "x" rest) | String "0" (String "X" rest) => radix 16%N is_hex rest
  | String "0" (String "o" rest) | String "0" (String "O" rest) => radix 8%N (char_between 48 55) rest
  | String "0" (String "b" rest) | String "0" (String "B" rest) => radix 2%N (char_between 48 49) rest
  | String "-" rest => if digits_only rest then Some (- Z.of_N (digits_value rest))%Z else None
  | String "+" rest => if digits_only rest then Some (Z.of_N (digits_value rest)) else None
  | _ => if digits_only t then Some (Z.of_N (digits_value t)) else None
  end.

Lemma trim_digits s : all_chars is_digit s = true -> trim s = s.
Proof.
  intros H. unfold trim.
  assert (Hsp : forall c, is_digit c = true -> is_js_space c = false)
    by (intros [[] [] [] [] [] [] [] []]; vm_compute; congruence).
  assert (Hs : trim_start s = s).
  { destruct s as [|c s]; [done|]. simpl in *. apply andb_true_iff in H as [Hc _].
    by rewrite (Hsp c Hc). }
  rewrite Hs. clear Hs. induction s as [|c s IH]; [done|]. simpl in *.
  apply andb_true_iff in H as [Hc H]. rewrite (IH H), (Hsp c Hc), andb_false_r. done.
Qed.

Lemma js_BigInt_digits s :
  digits_only s = true -> js_BigInt s = Some (Z.of_N (digits_value s)).
Proof.
  intros H. unfold js_BigInt. pose proof H as H'. unfold digits_only in H'.
  apply andb_true_iff in H' as [Ht Hd]. rewrite trim_digits by done.
  destruct s as [|c s]; [done|]. simpl in Hd. apply andb_true_iff in Hd as [Hc Hd].
  destruct c as [[] [] [] [] [] [] [] []]; try (vm_compute in Hc; discriminate);
    try (by rewrite H).
  destruct s as [|d s]; [done|]. simpl in Hd. apply andb_true_iff in Hd as [Hc' Hd].
  destruct d as [[] [] [] [] [] [] [] []]; try (vm_compute in Hc'; discriminate); by rewrite H.
Qed.

Lemma trim_start_head s : trim_start s = "" \/
  exists c r, trim_start s = String c r /\ is_js_space c = false.
Proof.
  induction s as [|c s IH]; simpl; [by left|]. destruct (is_js_space c) eqn:E; [done|eauto].
Qed.

Lemma trim_end_idem s : trim_end (trim_end s) = trim_end s.
Proof.
  induction s as [|c s IH]; simpl; [done|].
  destruct (String.eqb (trim_end s) "" && is_js_space c) eqn:E; [done|]. simpl. by rewrite IH, E.
Qed.

Lemma trim_trim s : trim (trim s) = trim s.
Proof.
  unfold trim. destruct (trim_start_head s) as [->|(c & r & -> & Hc)]; [done|].
  rewrite <- (trim_end_idem (String c r)) at 2. f_equal. simpl. rewrite Hc, andb_false_r. simpl.
  by rewrite Hc.
Qed.
