(* ===== verification/JsDate.v ===== *)
(** The JavaScript [Date] values the services print: a time value in
    milliseconds since the epoch, or Invalid Date ([NaN]), and
    [toISOString] in the proleptic Gregorian calendar.  The point of the file is
    [toISOString_inj]: comparing ISO texts is comparing instants. *)
From stdpp Require Import base list strings.
From Stdlib Require Import ZArith Lia.
From S2P Require Import Prelude JsText.

Open Scope string_scope.
Open Scope Z_scope.

(** The time value of a [Date]; [None] is Invalid Date, whose [getTime()] is [NaN]. *)
Definition js_date : Type := option Z.

(** The range of time values, 100,000,000 days around the epoch. *)
Definition MAX_TIME_VALUE : Z := 8640000000000000.

Definition time_in_range (t : Z) : bool :=
  (- MAX_TIME_VALUE <=? t) && (t <=? MAX_TIME_VALUE).

(** [new Date(ms)] *)
Definition new_date (ms : Z) : js_date := if time_in_range ms then Some ms else None.

(** ** Calendar

    Years counted from March, in eras of 400 years (146097 days). *)
Record civil := { c_year : Z; c_month : Z; c_day : Z }.

Definition year_of_era (doe : Z) : Z := (doe - doe / 1460 + doe / 36524 - doe / 146096) / 365.

Definition day_of_year (doe : Z) : Z :=
  let yoe := year_of_era doe in doe - (365 * yoe + yoe / 4 - yoe / 100).

Definition civil_from_days (days : Z) : civil :=
  let z := days + 719468 in
  let era := z / 146097 in
  let doe := z mod 146097 in
  let doy := day_of_year doe in
  let mp := (5 * doy + 2) / 153 in
  let m := if mp <? 10 then mp + 3 else mp - 9 in
  {| c_year := year_of_era doe + era * 400 + (if m <=? 2 then 1 else 0);
     c_month := m;
     c_day := doy - (153 * mp + 2) / 5 + 1 |}.

(** [n] in decimal, padded with zeros on the left to [width]. *)
Definition padded (width : nat) (n : Z) : string :=
  let s := print_N (Z.to_N n) in repeat_char (width - String.length s) "0" ++ s.

Definition iso_year (y : Z) : string :=
  if (0 <=? y) && (y <=? 9999) then padded 4 y
  else if y <? 0 then "-" ++ padded 6 (- y)
  else "+" ++ padded 6 y.

Definition MS_PER_DAY : Z := 86400000.

(** The text of a time value, [YYYY-MM-DDTHH:mm:ss.sssZ]. *)
Definition iso_text (t : Z) : string :=
  let d := civil_from_days (t / MS_PER_DAY) in
  let ms := t mod MS_PER_DAY in
  iso_year (c_year d) ++ "-" ++ padded 2 (c_month d) ++ "-" ++ padded 2 (c_day d) ++ "T" ++
  padded 2 (ms / 3600000) ++ ":" ++ padded 2 (ms / 60000 mod 60) ++ ":" ++
  padded 2 (ms / 1000 mod 60) ++ "." ++ padded 3 (ms mod 1000) ++ "Z".

(** [date.toISOString()]: throws a [RangeError] on Invalid Date. *)
Definition toISOString (d : js_date) : result string string :=
  match d with
  | Some t => Ok (iso_text t)
  | None => Err "Invalid time value"
  end.

Example iso_epoch : iso_text 0 = "1970-01-01T00:00:00.000Z".
Proof. reflexivity. Qed.

Example iso_leap_day : iso_text 1709210096789 = "2024-02-29T12:34:56.789Z".
Proof. reflexivity. Qed.

Example iso_negative_year : iso_text (-62198755200001) = "-000002-12-31T23:59:59.999Z".
Proof. vm_compute. reflexivity. Qed.

(** Linear arithmetic with division by constants. *)
Ltac div_lia := Z.to_euclidean_division_equations; lia.

(** ** The calendar is injective *)

Lemma year_of_era_bounds doe : 0 <= doe < 146097 -> 0 <= year_of_era doe <= 399.
Proof. unfold year_of_era. intros H. div_lia. Qed.

Lemma era_day_bounds doe :
  0 <= doe < 146097 ->
  0 <= year_of_era doe <= 399 /\ 0 <= day_of_year doe <= 365.
Proof.
  intros H. split; [by apply year_of_era_bounds|].
  unfold day_of_year, year_of_era. div_lia.
Qed.

Lemma doe_decompose doe :
  doe = 365 * year_of_era doe + year_of_era doe / 4 - year_of_era doe / 100 + day_of_year doe.
Proof. unfold day_of_year. lia. Qed.

Lemma civil_bounds days :
  1 <= c_month (civil_from_days days) <= 12 /\ 1 <= c_day (civil_from_days days) <= 31.
Proof.
  unfold civil_from_days; cbn.
  destruct (era_day_bounds ((days + 719468) mod 146097)) as [_ Hd]; [apply Z.mod_pos_bound; lia|].
  generalize dependent (day_of_year ((days + 719468) mod 146097)). intros doy ?.
  destruct (Z.ltb_spec ((5 * doy + 2) / 153) 10); div_lia.
Qed.

Lemma civil_inj a b : civil_from_days a = civil_from_days b -> a = b.
Proof.
  unfold civil_from_days. intros [= Hy Hm Hd].
  pose proof (doe_decompose ((a + 719468) mod 146097)) as Ha.
  pose proof (doe_decompose ((b + 719468) mod 146097)) as Hb.
  destruct (era_day_bounds ((a + 719468) mod 146097)) as [Hya Hda]; [apply Z.mod_pos_bound; lia|].
  destruct (era_day_bounds ((b + 719468) mod 146097)) as [Hyb Hdb]; [apply Z.mod_pos_bound; lia|].
  generalize dependent (day_of_year ((a + 719468) mod 146097)).
  generalize dependent (day_of_year ((b + 719468) mod 146097)).
  generalize dependent (year_of_era ((a + 719468) mod 146097)).
  generalize dependent (year_of_era ((b + 719468) mod 146097)).
  intros yb ? ya ? db Hb ? da Hm Hy Hd Ha ?.
  assert ((5 * da + 2) / 153 = (5 * db + 2) / 153) as Hmp.
  { destruct (Z.ltb_spec ((5 * da + 2) / 153) 10), (Z.ltb_spec ((5 * db + 2) / 153) 10); div_lia. }
  rewrite Hmp in *. assert (da = db) as -> by lia.
  assert (ya = yb /\ (a + 719468) / 146097 = (b + 719468) / 146097) as [-> ?] by div_lia. div_lia.
Qed.

(** ** The text is injective *)

Lemma padded_digits w n : all_chars is_digit (padded w n) = true.
Proof.
  unfold padded. rewrite all_chars_app, print_N_digits, andb_true_r. by apply all_chars_repeat.
Qed.

Lemma padded_value w n : 0 <= n -> Z.of_N (digits_value (padded w n)) = n.
Proof.
  intros H. unfold padded. rewrite digits_value_app, digits_value_zeros, digits_value_print. lia.
Qed.

Lemma padded_inj w n m : 0 <= n -> 0 <= m -> padded w n = padded w m -> n = m.
Proof. intros Hn Hm H. rewrite <- (padded_value w n), <- (padded_value w m) by done. by rewrite H. Qed.

(** Two texts that go on with the same separator after digits agree piecewise. *)
Lemma padded_split (sep : ascii) w n m a b :
  is_digit sep = false -> 0 <= n -> 0 <= m ->
  padded w n ++ String sep a = padded w m ++ String sep b -> n = m /\ a = b.
Proof.
  intros Hs Hn Hm H.
  assert (forall k, all_chars (fun c => negb (Ascii.eqb c sep)) (padded w k) = true) as Hk.
  { intros k. eapply all_chars_impl; [|apply padded_digits].
    intros c Hc. destruct (Ascii.eqb_spec c sep) as [->|]; [congruence | done]. }
  apply split_at_sep in H as [H1 H2]; [|apply Hk ..]. split; [by eapply padded_inj | done].
Qed.

#[local] Arguments String.append !_ _ / : simpl nomatch.

Lemma padded_head w n s c r : padded w n ++ s = String c r -> padded w n <> "" -> is_digit c = true.
Proof.
  pose proof (padded_digits w n) as H. destruct (padded w n) as [|d p]; [done|].
  simpl in *. apply andb_true_iff in H as [H _]. intros [= -> _] _. done.
Qed.

Lemma padded_nonempty w n : padded w n <> "".
Proof.
  unfold padded. pose proof (canonical_digits_print (Z.to_N n)) as H.
  destruct (print_N (Z.to_N n)); [done|]. by destruct (repeat_char _ _).
Qed.

Lemma iso_year_split y y' a b :
  iso_year y ++ String "-" a = iso_year y' ++ String "-" b -> y = y' /\ a = b.
Proof.
  assert (forall n s c r, padded 4 n ++ s = String c r -> is_digit c = false -> False) as Hno.
  { intros n s c r H Hc. apply padded_head in H; [congruence | apply padded_nonempty]. }
  unfold iso_year.
  destruct ((0 <=? y) && (y <=? 9999)) eqn:Hy, ((0 <=? y') && (y' <=? 9999)) eqn:Hy'.
  - intros H. reflect_bools. by apply padded_split in H.
  - destruct (y' <? 0); simpl; intros H; exfalso; eapply Hno; eauto.
  - destruct (y <? 0); simpl; intros H; exfalso; symmetry in H; eapply Hno; eauto.
  - destruct (y <? 0) eqn:E, (y' <? 0) eqn:E'; simpl; intros [= H]; reflect_bools.
    + apply padded_split in H as [? ->]; [split; [lia|done] | done | lia ..].
    + apply padded_split in H as [? ->]; [done | done | | ];
        [apply andb_false_iff in Hy as [?|?] | apply andb_false_iff in Hy' as [?|?]]; reflect_bools; lia.
Qed.

Lemma iso_text_inj t u : iso_text t = iso_text u -> t = u.
Proof.
  unfold iso_text. set (ms := t mod MS_PER_DAY). set (ms' := u mod MS_PER_DAY).
  assert (0 <= ms < 86400000 /\ 0 <= ms' < 86400000) as [Hm Hm'].
  { unfold ms, ms', MS_PER_DAY. div_lia. }
  destruct (civil_bounds (t / MS_PER_DAY)) as [? ?], (civil_bounds (u / MS_PER_DAY)) as [? ?].
  intros H'. apply iso_year_split in H' as [Hy H'].
  apply (padded_split "-") in H' as [Hmo H']; [|done|lia ..].
  apply (padded_split "T") in H' as [Hd H']; [|done|lia ..].
  apply (padded_split ":") in H' as [Hh H']; [|done|div_lia ..].
  apply (padded_split ":") in H' as [Hmi H']; [|done|div_lia ..].
  apply (padded_split ".") in H' as [Hs H']; [|done|div_lia ..].
  apply (padded_split "Z") in H' as [Hms _]; [|done|div_lia ..].
  assert (ms = ms') by div_lia.
  assert (t / MS_PER_DAY = u / MS_PER_DAY) as Hdays.
  { apply civil_inj. destruct (civil_from_days (t / _)), (civil_from_days (u / _)).
    cbn in *. congruence. }
  unfold ms, ms', MS_PER_DAY in *. div_lia.
Qed.

Lemma toISOString_inj d e s : toISOString d = Ok s -> toISOString e = Ok s -> d = e.
Proof. destruct d, e; simpl; intros; simplify_eq. f_equal. by apply iso_text_inj. Qed.
