(* ===== verification/JsMap.v ===== *)
(** The JavaScript [Map] with string keys: an association list in insertion
    order.  [map_set] replaces the value of a present key in place and appends a
    new key at the end, as [Map.prototype.set] does, so that iteration over
    [values()] sees the entries in the order the services iterate them.

    Also JSON values compared structurally ([util.isDeepStrictEqual]). *)
From stdpp Require Import base list strings.
From S2P Require Import Prelude.

Definition jsmap (V : Type) : Type := list (string * V).

Fixpoint map_get {V} (k : string) (m : jsmap V) : option V :=
  match m with
  | [] => None
  | (k', v) :: r => if String.eqb k' k then Some v else map_get k r
  end.

Fixpoint map_set {V} (k : string) (v : V) (m : jsmap V) : jsmap V :=
  match m with
  | [] => [(k, v)]
  | (k', v') :: r => if String.eqb k' k then (k', v) :: r else (k', v') :: map_set k v r
  end.

Definition map_values {V} (m : jsmap V) : list V := m.*2.

Definition map_keys {V} (m : jsmap V) : list string := m.*1.

Section lemmas.
Context {V : Type}.
Implicit Types (m : jsmap V) (k : string) (v : V).

Lemma map_get_set k v m : map_get k (map_set k v m) = Some v.
Proof.
  induction m as [|[k' v'] m IH]; simpl; [by rewrite String.eqb_refl|].
  destruct (String.eqb k' k) eqn:E; simpl; by rewrite E.
Qed.

Lemma map_get_set_ne k k' v m : k <> k' -> map_get k' (map_set k v m) = map_get k' m.
Proof.
  intros Hne. induction m as [|[k1 v1] m IH]; simpl.
  - by destruct (String.eqb_spec k k').
  - destruct (String.eqb_spec k1 k) as [->|]; simpl.
    + by destruct (String.eqb_spec k k').
    + by rewrite IH.
Qed.

Lemma map_get_set_case k k' v m :
  map_get k' (map_set k v m) = if String.eqb k k' then Some v else map_get k' m.
Proof.
  destruct (String.eqb_spec k k') as [->|?]; [apply map_get_set | by apply map_get_set_ne].
Qed.

Lemma map_get_In k v m : map_get k m = Some v -> (k, v) ∈ m.
Proof.
  induction m as [|[k' v'] m IH]; simpl; [done|].
  destruct (String.eqb_spec k' k) as [->|]; [intros [= ->]; left | intros H; right; auto].
Qed.

Lemma map_get_keys k m : k ∈ map_keys m <-> exists v, map_get k m = Some v.
Proof.
  induction m as [|[k' v'] m IH]; simpl; [split; [by intros ?%not_elem_of_nil | by intros [? [=]]]|].
  rewrite elem_of_cons, IH. destruct (String.eqb_spec k' k) as [->|]; naive_solver.
Qed.

Lemma map_In_get k v m : NoDup (map_keys m) -> (k, v) ∈ m -> map_get k m = Some v.
Proof.
  induction m as [|[k' v'] m IH]; simpl; [by intros _ ?%not_elem_of_nil|].
  intros [Hn Hd]%NoDup_cons [[= -> ->]|Hin]%elem_of_cons; [by rewrite String.eqb_refl|].
  destruct (String.eqb_spec k' k) as [->|]; [|auto].
  exfalso. apply Hn. apply list_elem_of_fmap. by exists (k, v).
Qed.

Lemma map_keys_set k v m :
  map_keys (map_set k v m) = map_keys m \/
  (map_get k m = None /\ map_keys (map_set k v m) = map_keys m ++ [k]).
Proof.
  induction m as [|[k' v'] m IH]; simpl; [by right|].
  destruct (String.eqb_spec k' k); simpl; [by left|].
  destruct IH as [-> | [? ->]]; [by left | by right].
Qed.

Lemma map_set_NoDup k v m : NoDup (map_keys m) -> NoDup (map_keys (map_set k v m)).
Proof.
  intros Hd. destruct (map_keys_set k v m) as [-> | [Hn ->]]; [done|].
  apply NoDup_app. split_and!; [done| |apply NoDup_singleton].
  intros x Hx ->%list_elem_of_singleton. apply map_get_keys in Hx as [? ?]. congruence.
Qed.

Lemma map_values_elem v m :
  NoDup (map_keys m) -> v ∈ map_values m <-> exists k, map_get k m = Some v.
Proof.
  intros Hd. unfold map_values. rewrite list_elem_of_fmap. split.
  - intros ([k v'] & -> & Hin). exists k. by apply map_In_get.
  - intros (k & H%map_get_In). by exists (k, v).
Qed.

(** [values().find(p)]: the first value satisfying [p]. *)
Lemma find_some_elem (p : V -> bool) (l : list V) v :
  List.find p l = Some v -> v ∈ l /\ p v = true.
Proof.
  intros H. apply find_some in H as [H ?]. split; [|done]. by apply list_elem_of_In.
Qed.

Lemma find_none_elem (p : V -> bool) (l : list V) v :
  List.find p l = None -> v ∈ l -> p v = false.
Proof. intros H Hin. eapply find_none; [done|]. by apply list_elem_of_In. Qed.

Lemma find_exists (p : V -> bool) (l : list V) v :
  v ∈ l -> p v = true -> exists w, List.find p l = Some w.
Proof.
  intros Hin Hp. destruct (List.find p l) eqn:E; [eauto|].
  by rewrite (find_none_elem p l v E Hin) in Hp.
Qed.
End lemmas.

(** ** [isDeepStrictEqual] on JSON values *)

Fixpoint deep_equal (a b : json) : bool :=
  match a, b with
  | JNull, JNull => true
  | JBool x, JBool y => Bool.eqb x y
  | JNum x, JNum y => x =? y
  | JDec x, JDec y => String.eqb x y
  | JStr x, JStr y => String.eqb x y
  | JArr l, JArr r =>
      (fix go l r := match l, r with
        | [], [] => true
        | x :: l, y :: r => deep_equal x y && go l r
        | _, _ => false
        end) l r
  | JObj f, JObj g =>
      (length f =? length g)%nat &&
      (fix go f := match f with
        | [] => true
        | (k, v) :: f =>
            match json_assoc k g with Some w => deep_equal v w | None => false end && go f
        end) f
  | _, _ => false
  end.

(** The keys of every object in the value are distinct, as in any JS object. *)
Fixpoint json_keys_distinct (a : json) : bool :=
  match a with
  | JArr l => forallb json_keys_distinct l
  | JObj f => bool_decide (NoDup f.*1) && forallb (fun kv => json_keys_distinct kv.2) f
  | _ => true
  end.

Lemma json_assoc_In k v (f : list (string * json)) :
  NoDup f.*1 -> (k, v) ∈ f -> json_assoc k f = Some v.
Proof.
  induction f as [|[k' v'] f IH]; simpl; [by intros _ ?%not_elem_of_nil|].
  intros [Hn Hd]%NoDup_cons [[= -> ->]|Hin]%elem_of_cons.
  - destruct (json_assoc k' f) as [w|] eqn:E; [|by rewrite String.eqb_refl].
    exfalso. apply Hn. clear -E. revert w E. induction f as [|[k1 v1] f IH]; simpl; [done|].
    intros w. destruct (json_assoc k' f); [intros _; right; eauto|].
    destruct (String.eqb_spec k' k1) as [->|]; [left|done].
  - by rewrite (IH Hd Hin).
Qed.

Lemma deep_equal_refl a : json_keys_distinct a = true -> deep_equal a a = true.
Proof.
  revert a. fix IH 1. intros [| b | z | t | s | l | f]; simpl.
  - done.
  - intros _. apply eqb_reflx.
  - intros _. apply Z.eqb_refl.
  - intros _. apply String.eqb_refl.
  - intros _. apply String.eqb_refl.
  - induction l as [|x l IHl]; simpl; [done|].
    intros [Hx Hl]%andb_true_iff. by rewrite (IH x Hx), IHl.
  - intros [Hd Hf]%andb_true_iff. reflect_bools. rewrite Nat.eqb_refl. simpl.
    assert (Hsub : forall kv, kv ∈ f -> json_assoc kv.1 f = Some kv.2)
      by (intros [k v] ?; by apply json_assoc_In).
    clear Hd.
    enough (Hgo : forall g, (forall kv, kv ∈ f -> json_assoc kv.1 g = Some kv.2) ->
      (fix go f := match f with
        | [] => true
        | (k, v) :: f =>
            match json_assoc k g with Some w => deep_equal v w | None => false end && go f
        end) f = true) by (by apply Hgo).
    clear Hsub. intros g.
    induction f as [|[k v] f IHf]; simpl in *; [done|]. intros Hsub.
    apply andb_true_iff in Hf as [Hv Hf].
    assert (Hk : json_assoc k g = Some v) by (apply (Hsub (k, v)); left).
    rewrite Hk, (IH v Hv). simpl. apply (IHf Hf).
    intros kv Hin. apply Hsub. by right.
Qed.
