(* ===== verification/JsJson.v ===== *)
(** JSON texts: what [JSON.stringify] writes for strings, arrays and objects, and
    that the text determines the value, whatever follows it. *)
From stdpp Require Import base list strings.
From S2P Require Import Prelude JsText.

Open Scope string_scope.
Open Scope Z_scope.

(** ** Strings *)

Definition js_dquote : ascii := ascii_of_N 34.
Definition js_backslash : ascii := ascii_of_N 92.

Definition hex_digit (n : N) : ascii := ascii_of_N (if (n <? 10)%N then 48 + n else 87 + n)%N.

(** A character as [JSON.stringify] writes it. *)
Definition js_escape (c : ascii) : string :=
  let after d := String js_backslash (String d EmptyString) in
  match code c with
  | 34%N => after js_dquote
  | 92%N => after js_backslash
  | 8%N => after "b"%char
  | 12%N => after "f"%char
  | 10%N => after "n"%char
  | 13%N => after "r"%char
  | 9%N => after "t"%char
  | n => if (n <? 32)%N
         then String js_backslash (String "u" (String "0" (String "0"
                (String (hex_digit (n / 16)) (String (hex_digit (n mod 16)) EmptyString)))))
         else String c EmptyString
  end.

Fixpoint js_escaped (s : string) : string :=
  match s with
  | EmptyString => EmptyString
  | String c s => js_escape c ++ js_escaped s
  end.

Definition js_quoted (s : string) : string :=
  String js_dquote (js_escaped s ++ String js_dquote EmptyString).

Fixpoint js_elements (l : list string) : string :=
  match l with
  | [] => ""
  | [x] => js_quoted x
  | x :: l => js_quoted x ++ "," ++ js_elements l
  end.

(** ** Reading a text back *)

Definition hex_value (c : ascii) : N := (if code c <? 58 then code c - 48 else code c - 87)%N.

(** Reads one written character back. *)
Definition js_unescape (s : string) : option (ascii * string) :=
  match s with
  | EmptyString => None
  | String c r =>
      if Ascii.eqb c js_dquote then None
      else if Ascii.eqb c js_backslash then
        match r with
        | String "b" r => Some (ascii_of_N 8, r)
        | String "f" r => Some (ascii_of_N 12, r)
        | String "n" r => Some (ascii_of_N 10, r)
        | String "r" r => Some (ascii_of_N 13, r)
        | String "t" r => Some (ascii_of_N 9, r)
        | String "u" (String _ (String _ (String h (String k r)))) =>
            Some (ascii_of_N (16 * hex_value h + hex_value k), r)
        | String d r => Some (d, r)
        | EmptyString => None
        end
      else Some (c, r)
  end.

Lemma js_unescape_escape c r : js_unescape (js_escape c ++ r) = Some (c, r).
Proof. destruct c as [[] [] [] [] [] [] [] []]; reflexivity. Qed.

Lemma text_assoc (a b c : string) : (a ++ b) ++ c = a ++ (b ++ c).
Proof. induction a as [|x a IH]; [done|]. exact (f_equal (String x) IH). Qed.

Lemma js_escaped_inj s s' t t' :
  js_escaped s ++ String js_dquote t = js_escaped s' ++ String js_dquote t' -> s = s' /\ t = t'.
Proof.
  revert s'. induction s as [|c s IH]; intros [|c' s']; cbn [js_escaped]; rewrite ?text_assoc.
  - by intros [= ->].
  - intros H. apply (f_equal js_unescape) in H. by rewrite js_unescape_escape in H.
  - intros H. apply (f_equal js_unescape) in H. by rewrite js_unescape_escape in H.
  - intros H. apply (f_equal js_unescape) in H. rewrite !js_unescape_escape in H.
    injection H as -> H. by apply IH in H as [-> ->].
Qed.

Lemma js_quoted_app s t : js_quoted s ++ t = String js_dquote (js_escaped s ++ String js_dquote t).
Proof. exact (f_equal (String js_dquote) (text_assoc _ _ _)). Qed.

Lemma js_quoted_inj s s' t t' : js_quoted s ++ t = js_quoted s' ++ t' -> s = s' /\ t = t'.
Proof. rewrite !js_quoted_app. intros [= H]. by apply js_escaped_inj in H. Qed.

Lemma js_elements_inj l l' t t' :
  js_elements l ++ "]" ++ t = js_elements l' ++ "]" ++ t' -> l = l' /\ t = t'.
Proof.
  revert l'. induction l as [|x l IH]; intros [|x' l'].
  - intros [= H]. by split.
  - by destruct l'.
  - by destruct l.
  - destruct l as [|y l], l' as [|y' l']; cbn [js_elements]; rewrite ?text_assoc;
      intros H; apply js_quoted_inj in H as [-> H]; try done.
    + injection H as H. by split.
    + injection H as H. by destruct (IH (y' :: l') H) as [-> ->].
Qed.

Lemma text_app_inj (p x y : string) : p ++ x = p ++ y -> x = y.
Proof. induction p as [|c p IH]; [done|]. intros [= H]. by apply IH. Qed.

(** ** Values *)

(** A parsed JSON value.  A number is kept as the decimal text [Number::toString]
    writes for it, which names every finite number but the sign of zero.  The
    members of an object are in the order in which they are enumerated. *)
Inductive jvalue :=
| VNull
| VBool (b : bool)
| VNum (text : string)
| VStr (s : string)
| VArr (l : list jvalue)
| VObj (members : list (string * jvalue)).

(** Texts separated by commas. *)
Fixpoint commas (l : list string) : string :=
  match l with
  | [] => ""
  | [x] => x
  | x :: l => x ++ "," ++ commas l
  end.

(** [JSON.stringify(value)] *)
Fixpoint json_text (v : jvalue) : string :=
  match v with
  | VNull => "null"
  | VBool b => if b then "true" else "false"
  | VNum text => text
  | VStr s => js_quoted s
  | VArr l => "[" ++ commas (map json_text l) ++ "]"
  | VObj members =>
      "{" ++ commas (map (fun '(k, x) => js_quoted k ++ ":" ++ json_text x) members) ++ "}"
  end.

(** The characters of a finite number's text. *)
Definition number_char (c : ascii) : bool :=
  is_digit c || Ascii.eqb c "-" || Ascii.eqb c "+" || Ascii.eqb c "." || Ascii.eqb c "e".

Definition number_head (c : ascii) : bool := is_digit c || Ascii.eqb c "-".

Definition finite_number (text : string) : bool :=
  match text with
  | String c _ => number_head c && all_chars number_char text
  | EmptyString => false
  end.

Fixpoint finite_numbers (v : jvalue) : bool :=
  match v with
  | VNum text => finite_number text
  | VArr l => forallb finite_numbers l
  | VObj members => forallb (fun kx => finite_numbers kx.2) members
  | _ => true
  end.

(** What may follow a value in a text. *)
Definition delimited (t : string) : bool :=
  match t with String c _ => negb (number_char c) | EmptyString => true end.

(** Induction over nested values. *)
Lemma jvalue_rect' (P : jvalue -> Prop) :
  P VNull -> (forall b, P (VBool b)) -> (forall s, P (VNum s)) -> (forall s, P (VStr s)) ->
  (forall l, Forall P l -> P (VArr l)) -> (forall f, Forall (fun kx => P kx.2) f -> P (VObj f)) ->
  forall v, P v.
Proof.
  intros H1 H2 H3 H4 H5 H6. fix IH 1. intros [|b|s|s|l|f]; [done|done|done|done|apply H5|apply H6].
  - induction l as [|x l IHl]; constructor; [apply IH|exact IHl].
  - induction f as [|[k x] f IHf]; constructor; [apply IH|exact IHf].
Qed.

Lemma number_split s s' t t' :
  all_chars number_char s = true -> all_chars number_char s' = true ->
  delimited t = true -> delimited t' = true -> s ++ t = s' ++ t' -> s = s' /\ t = t'.
Proof.
  revert s'. induction s as [|c s IH]; intros [|c' s'] Hs Hs' Ht Ht' H; cbn in Hs, Hs'; simpl in H.
  - done.
  - change (t = String c' (s' ++ t')) in H. subst t. cbn in Ht. by rewrite (proj1 (proj1 (andb_true_iff _ _) Hs')) in Ht.
  - change (String c (s ++ t) = t') in H. subst t'. cbn in Ht'. by rewrite (proj1 (proj1 (andb_true_iff _ _) Hs)) in Ht'.
  - injection H as -> H. apply andb_true_iff in Hs as [_ Hs], Hs' as [_ Hs'].
    by destruct (IH s' Hs Hs' Ht Ht' H) as [-> ->].
Qed.

(** Which kind of value a text starts: by its first character. *)
Definition kind_of (c : ascii) : nat :=
  if number_head c then 1 else if Ascii.eqb c js_dquote then 2 else if Ascii.eqb c "[" then 3
  else if Ascii.eqb c "{" then 4 else if Ascii.eqb c "n" then 5 else if Ascii.eqb c "t" then 6 else 7.

Definition kind (v : jvalue) : nat :=
  match v with
  | VNum _ => 1 | VStr _ => 2 | VArr _ => 3 | VObj _ => 4
  | VNull => 5 | VBool true => 6 | VBool false => 7
  end.

Lemma json_text_kind v : finite_numbers v = true ->
  exists c r, json_text v = String c r /\ kind_of c = kind v.
Proof.
  destruct v as [|[]|s|s|l|f]; cbn; intros H; try by eexists _, _.
  destruct s as [|c s]; [done|]. cbn in H. apply andb_true_iff in H as [H _].
  exists c, s. unfold kind_of. by rewrite H.
Qed.

(** Elements of a list read back, up to the closing bracket. *)
Lemma commas_inj {A} (text : A -> string) (close : ascii) l l' t t' :
  number_char close = false -> close <> ","%char ->
  Forall (fun x => forall x' t t', x' ∈ l' -> delimited t = true -> delimited t' = true ->
    text x ++ t = text x' ++ t' -> x = x' /\ t = t') l ->
  (forall x, x ∈ l \/ x ∈ l' -> exists c r, text x = String c r /\ c <> close) ->
  commas (map text l) ++ String close t = commas (map text l') ++ String close t' -> l = l' /\ t = t'.
Proof.
  intros Hc Hcomma HF. revert l' HF. induction l as [|x l IH]; intros [|x' l'] HF Hhead H.
  - by injection H as ->.
  - destruct (Hhead x') as (c & r & E & Hne); [right; left|]. exfalso.
    destruct l'; cbn [map commas] in H; rewrite E in H; injection H; congruence.
  - destruct (Hhead x) as (c & r & E & Hne); [left; left|]. exfalso.
    destruct l; cbn [map commas] in H; rewrite E in H; injection H; congruence.
  - apply Forall_cons in HF as [Hx HF].
    assert (Hd : forall t, delimited (String close t) = true) by (intros; cbn; by rewrite Hc).
    assert (Hd' : forall t, delimited ("," ++ t) = true) by done.
    assert (Hin : x' ∈ x' :: l') by left.
    destruct l as [|y l], l' as [|y' l']; cbn [map commas] in H; rewrite ?text_assoc in H.
    + destruct (Hx x' _ _ Hin (Hd _) (Hd _) H) as [-> H']. by injection H' as ->.
    + destruct (Hx x' _ _ Hin (Hd _) (Hd' _) H) as [_ H']. injection H'. congruence.
    + destruct (Hx x' _ _ Hin (Hd' _) (Hd _) H) as [_ H']. injection H'. congruence.
    + destruct (Hx x' _ _ Hin (Hd' _) (Hd' _) H) as [-> H'].
      destruct (IH (y' :: l')) as [-> ->]; [| |exact (text_app_inj "," _ _ H')|done].
      * eapply Forall_impl; [exact HF|]. intros z Hz z' u u' Hin'. apply Hz. by right.
      * intros z [Hz|Hz]; apply Hhead; [left|right]; by right.
Qed.

(** The text determines the value, whatever follows it. *)
Lemma json_text_inj v v' t t' :
  finite_numbers v = true -> finite_numbers v' = true -> delimited t = true -> delimited t' = true ->
  json_text v ++ t = json_text v' ++ t' -> v = v' /\ t = t'.
Proof.
  revert v' t t'. induction v as [|b|s|s|l IH|f IH] using jvalue_rect'; intros v' t t' Hv Hv' Ht Ht' H;
    (destruct (json_text_kind _ Hv) as (c & r & E & Hk), (json_text_kind _ Hv') as (c' & r' & E' & Hk');
     assert (kind_of c = kind_of c') as Hkind by (rewrite E, E' in H; by injection H as ->);
     rewrite Hk, Hk' in Hkind; clear c r E Hk c' r' E' Hk').
  - destruct v' as [|[]| | | |]; try done. split; [done|]. exact (text_app_inj "null" _ _ H).
  - destruct v' as [|[]| | | |], b; try done; (split; [done|]).
    + exact (text_app_inj "true" _ _ H).
    + exact (text_app_inj "false" _ _ H).
  - destruct v' as [|[]|s'| | |]; try done; try by destruct s.
    cbn in Hv, Hv'. assert (forall u, finite_number u = true -> all_chars number_char u = true) as Hall.
    { intros [|? ?]; cbn; [done|]. by intros [_ ?]%andb_true_iff. }
    by destruct (number_split s s' t t' (Hall _ Hv) (Hall _ Hv') Ht Ht' H) as [-> ->].
  - destruct v' as [|[]| |s'| |]; try done. by apply js_quoted_inj in H as [-> ->].
  - destruct v' as [|[]| | |l'|]; try done. cbn [json_text] in H. rewrite !text_assoc in H.
    apply text_app_inj in H. cbn [finite_numbers] in Hv, Hv'. rewrite forallb_true in Hv, Hv'.
    destruct (commas_inj json_text "]"%char l l' t t') as [-> ->]; [done|done| | |exact H|done].
    + clear H Hkind Ht Ht'. induction l as [|x l IHl]; constructor; apply Forall_cons in IH as [IHx IH], Hv as [Hx Hv].
      * intros x' u u' Hin. apply IHx; [done|]. rewrite Forall_forall in Hv'. by apply Hv'.
      * by apply IHl.
    + rewrite Forall_forall in Hv, Hv'. intros x Hx.
      destruct (json_text_kind x) as (c & r & E & Hk); [destruct Hx; auto|]. exists c, r. split; [done|].
      intros ->. by destruct x as [|[]| | | |].
  - destruct v' as [|[]| | | |f']; try done. cbn [json_text] in H. rewrite !text_assoc in H.
    apply text_app_inj in H. cbn [finite_numbers] in Hv, Hv'. rewrite forallb_true in Hv, Hv'.
    destruct (commas_inj (fun '(k, x) => js_quoted k ++ ":" ++ json_text x) "}"%char f f' t t')
      as [-> ->]; [done|done| | |exact H|done].
    + clear H Hkind Ht Ht'. induction f as [|[k x] f IHf]; constructor; apply Forall_cons in IH as [IHx IH], Hv as [Hx Hv].
      * intros [k' x'] u u' Hin Hu Hu' H. rewrite !text_assoc in H. apply js_quoted_inj in H as [-> H].
        apply text_app_inj in H. rewrite Forall_forall in Hv'.
        destruct (IHx x' u u' Hx (Hv' _ Hin) Hu Hu' H) as [E ->].
        cbn in E. by subst.
      * by apply IHf.
    + intros [k x] _. exists js_dquote. eexists. split; [reflexivity|done].
Qed.

Lemma json_text_injective v v' :
  finite_numbers v = true -> finite_numbers v' = true -> json_text v = json_text v' -> v = v'.
Proof.
  intros Hv Hv' H. destruct (json_text_inj v v' "" "" Hv Hv' eq_refl eq_refl) as [-> _]; [|done].
  exact (f_equal (fun x => x ++ "") H).
Qed.

(** The texts of integers. *)
Lemma print_N_finite n : finite_number (print_N n) = true.
Proof.
  pose proof (print_N_digits n) as H. pose proof (canonical_digits_print n) as Hne.
  destruct (print_N n) as [|c s]; [done|]. cbn in H |- *. apply andb_true_iff in H as [Hc H].
  unfold number_head, number_char at 1. rewrite Hc. cbn.
  eapply all_chars_impl; [|exact H]. intros x Hx. unfold number_char. by rewrite Hx.
Qed.

Lemma print_Z_finite z : finite_number (print_Z z) = true.
Proof.
  destruct z as [|p|p]; try apply print_N_finite. pose proof (print_N_digits (Npos p)) as H.
  change (all_chars number_char (print_N (Npos p)) = true).
  eapply all_chars_impl; [|exact H]. intros x Hx. unfold number_char. by rewrite Hx.
Qed.
