(* ===== verification/Programs.v ===== *)
(** Programs with effects, shared by the services that are modelled as
    interleaved processes.

    An asynchronous function is a tree of effects (database statements, calls to
    other processes), each with a continuation on its reply or on the error it
    throws.  What an effect does is left to an interpretation: a relation between
    the world before it, its reply and the world after it.  The file has the monad
    of promises, the executions of one program, weakest preconditions under a
    protocol, systems of processes, and the invariant rule of such systems. *)
From stdpp Require Import base list.
From S2P Require Import Prelude.

(** The effects of a service, what each replies, and what it may throw. *)
Record signature := {
  effect : Type;
  reply : effect -> Type;
  error : Type }.

Inductive prog (S : signature) (A : Type) : Type :=
| Ret (a : A)
| Do (e : effect S) (k : result (error S) (reply S e) -> prog S A).
Arguments Ret {S A} a.
Arguments Do {S A} e k.

Fixpoint prog_bind {S A B} (f : A -> prog S B) (p : prog S A) : prog S B :=
  match p with
  | Ret a => f a
  | Do e k => Do e (fun r => prog_bind f (k r))
  end.

(** A promise: the program ends with a value or with a thrown error. *)
Definition io (S : signature) (A : Type) : Type := prog S (result (error S) A).

#[export] Instance io_ret S : MRet (io S) := fun A a => Ret (Ok a).
#[export] Instance io_bind S : MBind (io S) := fun A B f m =>
  prog_bind (fun r => match r with Ok a => f a | Err e => Ret (Err e) end) m.

Definition throw {S A} (e : error S) : io S A := Ret (Err e).
Definition lift {S A} (r : result (error S) A) : io S A := Ret r.
Definition call {S} (e : effect S) : io S (reply S e) := Do e Ret.

(** [if (c) throw e] *)
Definition guard_ {S} (c : bool) (e : error S) : io S unit := lift (throw_if c e).

(** [try { m } catch (error) { h(error) }] *)
Definition try_catch {S A} (m : io S A) (h : error S -> io S A) : io S A :=
  prog_bind (fun r => match r with Ok a => Ret (Ok a) | Err e => h e end) m.

(** [for (const x of l) body(x)] *)
Fixpoint for_each {S A} (l : list A) (body : A -> io S unit) : io S unit :=
  match l with
  | [] => mret tt
  | x :: l => body x ≫= fun _ => for_each l body
  end.

(** A process runs a promise and drops its outcome. *)
Definition run_process {S A} (p : io S A) : prog S unit := prog_bind (fun _ => Ret tt) p.

(** ** Executions of one program *)

Definition event (S : signature) : Type := { e : effect S & result (error S) (reply S e) }.

Definition ev {S} (e : effect S) (r : result (error S) (reply S e)) : event S := existT e r.

Inductive execution {S A} : prog S A -> list (event S) -> A -> Prop :=
| execution_ret a : execution (Ret a) [] a
| execution_do e k r tr a : execution (k r) tr a -> execution (Do e k) (ev e r :: tr) a.

(** The effects a program has performed so far. *)
Inductive performs {S A} : prog S A -> list (event S) -> prog S A -> Prop :=
| performs_nil p : performs p [] p
| performs_do e k r tr p : performs (k r) tr p -> performs (Do e k) (ev e r :: tr) p.

(** ** The effects a program may perform *)

(** Every effect of the program, whatever the replies are, is one of [ok]. *)
Fixpoint every {S A} (ok : effect S -> Prop) (p : prog S A) : Prop :=
  match p with
  | Ret _ => True
  | Do e k => ok e /\ forall r, every ok (k r)
  end.

Lemma every_bind {S A B} ok (f : A -> prog S B) p :
  every ok p -> (forall a, every ok (f a)) -> every ok (prog_bind f p).
Proof.
  intros Hp Hf. induction p as [a|e k IH]; simpl in *; [auto|].
  destruct Hp as [He Hk]. split; auto.
Qed.

Lemma every_io {S A B} ok (p : io S A) (f : A -> io S B) :
  every ok p -> (forall a, every ok (f a)) -> every ok (p ≫= f).
Proof. intros Hp Hf. apply every_bind; [done|]. intros [a|e]; [apply Hf|done]. Qed.

Lemma every_try {S A} ok (p : io S A) h :
  every ok p -> (forall e, every ok (h e)) -> every ok (try_catch p h).
Proof. intros Hp Hf. apply every_bind; [done|]. intros [a|e]; [done|apply Hf]. Qed.

Lemma every_call {S} (ok : effect S -> Prop) e : ok e -> every ok (call e).
Proof. by split. Qed.

Lemma every_for_each {S A} ok (l : list A) (body : A -> io S unit) :
  (forall x, every ok (body x)) -> every ok (for_each l body).
Proof. intros H. induction l as [|x l IH]; [done|]. by apply every_io. Qed.

Lemma every_mono {S A} (ok ok' : effect S -> Prop) (p : prog S A) :
  (forall e, ok e -> ok' e) -> every ok p -> every ok' p.
Proof. intros H. induction p as [a|e k IH]; simpl; [done|]. intros [He Hk]. split; auto. Qed.

(** ** Protocols *)

(** Which effect is allowed in which mode, and how the mode moves with the reply. *)
Record protocol (S : signature) := {
  mode : Type;
  allowed : mode -> effect S -> Prop;
  next : mode -> forall e, result (error S) (reply S e) -> mode }.
Arguments mode {S}.
Arguments allowed {S}.
Arguments next {S}.

Section Wp.
Context {S : signature} (P : protocol S).

Fixpoint wp {A} (m : mode P) (p : prog S A) (Q : mode P -> A -> Prop) : Prop :=
  match p with
  | Ret a => Q m a
  | Do e k => allowed P m e /\ forall r, wp (next P m e r) (k r) Q
  end.

(** The program follows the protocol from mode [m] on. *)
Definition safe {A} (m : mode P) (p : prog S A) : Prop := wp m p (fun _ _ => True).

Lemma wp_weaken {A} m (p : prog S A) (Q Q' : mode P -> A -> Prop) :
  (forall m a, Q m a -> Q' m a) -> wp m p Q -> wp m p Q'.
Proof.
  intros HQ. revert m. induction p as [a|e k IH]; simpl; intros m; [apply HQ|].
  intros [Ha Hk]. split; auto.
Qed.

Lemma wp_seq {A B} m (f : A -> prog S B) p Q :
  wp m p (fun m' a => wp m' (f a) Q) -> wp m (prog_bind f p) Q.
Proof.
  revert m. induction p as [a|e k IH]; simpl; intros m; [done|].
  intros [Ha Hk]. split; auto.
Qed.

Lemma wp_then {A B} m (p : io S A) (f : A -> io S B) Q :
  wp m p (fun m' r => match r with Ok a => wp m' (f a) Q | Err e => Q m' (Err e) end) ->
  wp m (p ≫= f) Q.
Proof.
  intros H. apply wp_seq. revert H. apply wp_weaken. intros m' [a|e]; auto.
Qed.

Lemma wp_call_bind {B} m (e : effect S) (f : reply S e -> io S B) Q :
  allowed P m e ->
  (forall a, wp (next P m e (Ok a)) (f a) Q) ->
  (forall x, Q (next P m e (Err x)) (Err x)) ->
  wp m (call e ≫= f) Q.
Proof. intros Ha Hok Herr. split; [done|]. intros [a|x]; [apply Hok|apply Herr]. Qed.

Lemma wp_lift_then {A B} m (r : result (error S) A) (f : A -> io S B) Q :
  (forall a, r = Ok a -> wp m (f a) Q) -> (forall x, r = Err x -> Q m (Err x)) ->
  wp m (lift r ≫= f) Q.
Proof. intros Hok Herr. apply wp_then. destruct r; simpl; auto. Qed.

Lemma wp_catch {A} m (p : io S A) h Q :
  wp m p (fun m' r => match r with Ok a => Q m' (Ok a) | Err e => wp m' (h e) Q end) ->
  wp m (try_catch p h) Q.
Proof. intros H. apply wp_seq. revert H. apply wp_weaken. intros m' [a|e]; auto. Qed.

(** A loop keeps a mode its body keeps. *)
Lemma wp_for_each {A} (J : mode P -> Prop) (l : list A) body m :
  (forall x m, x ∈ l -> J m ->
     wp m (body x) (fun m' r => J m' /\ exists u, r = Ok u)) ->
  J m -> wp m (for_each l body) (fun m' r => J m' /\ exists u, r = Ok u).
Proof.
  revert m. induction l as [|x l IH]; intros m Hb HJ; simpl.
  { split; [done|]. by exists tt. }
  apply wp_then. eapply wp_weaken; [|apply Hb; [left|done]].
  intros m' r [HJ' [u ->]]. apply IH; [|done]. intros y m2 Hy. apply Hb. by right.
Qed.

Lemma wp_run {A} m (p : io S A) : safe m p -> safe m (run_process p).
Proof. intros H. apply wp_seq. revert H. by apply wp_weaken. Qed.

(** The mode after a sequence of effects. *)
Fixpoint after (m : mode P) (tr : list (event S)) : mode P :=
  match tr with
  | [] => m
  | existT e r :: tr => after (next P m e r) tr
  end.

(** A program that follows the protocol performs only allowed effects. *)
Lemma wp_execution {A} m (p : prog S A) Q tr a :
  execution p tr a -> wp m p Q -> Q (after m tr) a.
Proof.
  intros H. revert m. induction H as [a|e k r tr a H IH]; intros m; simpl; [done|].
  intros [_ Hk]. apply IH, Hk.
Qed.

Lemma wp_performs {A} m (p p' : prog S A) Q tr :
  performs p tr p' -> wp m p Q -> wp (after m tr) p' Q.
Proof.
  intros H. revert m. induction H as [p|e k r tr p H IH]; intros m; simpl; [done|].
  intros [_ Hk]. apply IH, Hk.
Qed.

Lemma performs_app {A} (p p' : prog S A) tr1 tr2 :
  performs p (tr1 ++ tr2) p' -> exists q, performs p tr1 q /\ performs q tr2 p'.
Proof.
  revert p. induction tr1 as [|x tr1 IH]; intros p H; [exists p; split; [constructor|done]|].
  cbn in H. remember (x :: (tr1 ++ tr2)) as tr eqn:E. destruct H as [|e k r tr p H]; [done|].
  injection E as <- ->. destruct (IH _ H) as (q & H1 & H2). exists q. split; [by constructor|done].
Qed.

Lemma performs_first {A} (p p' : prog S A) x tr :
  performs p (x :: tr) p' -> exists k, p = Do (projT1 x) k.
Proof.
  intros H. remember (x :: tr) as l eqn:E. destruct H as [|e k r tr' p H]; [done|].
  injection E as <- ->. by exists k.
Qed.

Lemma performs_allowed {A} m (p p' : prog S A) Q tr1 e r tr2 :
  wp m p Q -> performs p (tr1 ++ ev e r :: tr2) p' -> allowed P (after m tr1) e.
Proof.
  intros Hw H. apply performs_app in H as (q & H1 & H2). apply performs_first in H2 as (k & ->).
  by destruct (wp_performs _ _ _ _ _ H1 Hw).
Qed.
End Wp.

(** The protocol that only says which effects a program may perform. *)
Definition stateless {S} (ok : effect S -> Prop) : protocol S :=
  Build_protocol S unit (fun _ => ok) (fun _ _ _ => tt).

Lemma every_safe {S A} (ok : effect S -> Prop) (p : prog S A) : every ok p -> safe (stateless ok) tt p.
Proof.
  unfold safe. induction p as [a|e k IH]; cbn; [done|]. intros [He Hk]. split; auto.
Qed.

(** ** Systems of processes *)

Section System.
Context {S : signature} {W : Type}.
Context (perform : W -> forall e : effect S, result (error S) (reply S e) -> W -> Prop).
Context (entry : prog S unit -> Prop).

(** Processes start at any time, run one effect of one of them at a time, and may
    die between any two effects. *)
Inductive step : W * list (prog S unit) -> W * list (prog S unit) -> Prop :=
| step_start w ps p : entry p -> step (w, ps) (w, p :: ps)
| step_do w w' l1 e k l2 r :
    perform w e r w' -> step (w, l1 ++ Do e k :: l2) (w', l1 ++ k r :: l2)
| step_crash w l1 p l2 : step (w, l1 ++ p :: l2) (w, l1 ++ l2).

Definition reachable (w0 w : W) : Prop := exists ps, rtc step (w0, []) (w, ps).

(** The invariant rule: a relation between the world and the modes of the
    processes that holds of the first world, and that every allowed effect, every
    new process and every death keeps, holds of every reachable world. *)
Context (P : protocol S) (idle : mode P) (I : W -> list (mode P) -> Prop).
Context (I_start : forall w ms, I w ms -> I w (idle :: ms))
  (I_crash : forall w l1 m l2, I w (l1 ++ m :: l2) -> I w (l1 ++ l2))
  (I_do : forall w l1 m l2 e r w', I w (l1 ++ m :: l2) -> allowed P m e -> perform w e r w' ->
     I w' (l1 ++ next P m e r :: l2))
  (entry_safe : forall p, entry p -> safe P idle p).

Lemma step_invariant w ps w' ps' ms :
  step (w, ps) (w', ps') -> Forall2 (safe P) ms ps -> I w ms ->
  exists ms', Forall2 (safe P) ms' ps' /\ I w' ms'.
Proof using I_crash I_do I_start entry_safe.
  intros H HF HI. inversion H as [w1 ps1 p Hp|w1 w2 l1 e k l2 r Hd|w1 l1 p l2]; subst.
  - exists (idle :: ms). split; [|auto]. constructor; auto.
  - apply Forall2_app_inv_r in HF as (ms1 & ms2 & HF1 & HF2 & ->).
    apply Forall2_cons_inv_r in HF2 as (m & ms3 & [Ha Hk] & HF3 & ->).
    exists (ms1 ++ next P m e r :: ms3). split; [|eauto].
    apply Forall2_app; [done|]. constructor; [apply Hk|done].
  - apply Forall2_app_inv_r in HF as (ms1 & ms2 & HF1 & HF2 & ->).
    apply Forall2_cons_inv_r in HF2 as (m & ms3 & _ & HF3 & ->).
    exists (ms1 ++ ms3). split; [by apply Forall2_app|eauto].
Qed.

Lemma reachable_invariant w0 w : I w0 [] -> reachable w0 w -> exists ms, I w ms.
Proof using I_crash I_do I_start entry_safe.
  intros H0 (ps & Hr).
  assert (Hall : forall s s', rtc step s s' ->
    (exists ms, Forall2 (safe P) ms s.2 /\ I s.1 ms) -> exists ms, Forall2 (safe P) ms s'.2 /\ I s'.1 ms).
  { clear -I_crash I_do I_start entry_safe. induction 1 as [s|[w1 ps1] [w2 ps2] s Hs _ IH]; [done|].
    intros (ms & HF & HI). apply IH. by eapply step_invariant. }
  destruct (Hall _ _ Hr) as (ms & _ & HI); [exists []; by split|by exists ms].
Qed.
End System.
