(* ===== verification/Finality.v ===== *)
(** The shared transaction finality model: sdk/src/finality.ts and
    sdk/src/confirmation.ts.

    [classifyTransactionFinality] turns independent provider observations of one
    transaction into a position; [canTransitionTransactionFinality] says which
    stored positions may move to which.  Block numbers are integral JS numbers
    ([Z], range-checked by [isBlockNumber] as the source does). *)
From stdpp Require Import base list gmap strings.
From S2P Require Import Prelude JsText.

Open Scope string_scope.
Open Scope Z_scope.

(** ** Confirmation stages (sdk/src/confirmation.ts) *)

Inductive SettlementConfirmationStage := INDEXED | SAFE | FINALIZED.

Record SettlementConfirmationHeads := {
  latestHead : Z;
  safeHead : option Z;
  finalizedHead : option Z }.

Record SettlementConfirmationState := {
  scs_eventBlockNumber : Z;
  scs_heads : SettlementConfirmationHeads;
  stage : SettlementConfirmationStage }.

(** [Number.isInteger(value) && value >= 0], on an integral number. *)
Definition assertBlockNumber (name : string) (value : option Z) : result string unit :=
  match value with
  | None => Ok tt
  | Some v => throw_if (v <? 0) (name ++ " must be a non-negative integer when provided")
  end.

Definition resolveSettlementConfirmationStage
    (eventBlockNumber : Z) (heads : SettlementConfirmationHeads)
    : result string SettlementConfirmationState :=
  _ ← assertBlockNumber "eventBlockNumber" (Some eventBlockNumber);
  _ ← assertBlockNumber "latestBlockNumber" (Some (latestHead heads));
  _ ← assertBlockNumber "safeBlockNumber" (safeHead heads);
  _ ← assertBlockNumber "finalizedBlockNumber" (finalizedHead heads);
  _ ← throw_if (latestHead heads <? eventBlockNumber)
        ("Event block " ++ print_Z eventBlockNumber ++ " cannot be ahead of latest block "
           ++ print_Z (latestHead heads));
  let reached h := match h with Some n => eventBlockNumber <=? n | None => false end in
  Ok {| scs_eventBlockNumber := eventBlockNumber;
        scs_heads := heads;
        stage := if reached (finalizedHead heads) then FINALIZED
                 else if reached (safeHead heads) then SAFE else INDEXED |}.

Definition isWorkflowConfirmationStage (s : SettlementConfirmationStage) : bool :=
  match s with SAFE | FINALIZED => true | INDEXED => false end.

Definition isTreasuryConfirmationStage (s : SettlementConfirmationStage) : bool :=
  match s with FINALIZED => true | _ => false end.

(** ** Vocabulary (sdk/src/finality.ts) *)

Inductive TransactionFinalityState :=
| fs_submitted | fs_confirmed | fs_safe | fs_finalized
| fs_reverted | fs_replaced | fs_unknown | fs_failed.

Inductive TransactionFinalityDepth := d_none | d_included | d_safe | d_finalized.

Inductive TransactionFinalityReason :=
| rejected_before_broadcast | contradicts_rejection | awaiting_receipt
| ambiguous_broadcast | insufficient_providers | invalid_observation | wrong_chain
| provider_disagreement | receipt_not_canonical | replacement_not_canonical
| included | finality_tag_unsupported | safe_tag_reached | finalized_tag_reached.

#[export] Instance TransactionFinalityState_eq_dec : EqDecision TransactionFinalityState.
Proof. solve_decision. Defined.
#[export] Instance TransactionFinalityDepth_eq_dec : EqDecision TransactionFinalityDepth.
Proof. solve_decision. Defined.
#[export] Instance TransactionFinalityReason_eq_dec : EqDecision TransactionFinalityReason.
Proof. solve_decision. Defined.

(** [number | null | 'unsupported'] *)
Inductive FinalityTagObservation := TagNumber (n : Z) | TagNull | TagUnsupported.

Record Receipt := { r_blockNumber : Z; r_blockHash : string; r_status : Z }.

Record Replacement := {
  p_transactionHash : string; p_blockNumber : Z; p_blockHash : string }.

Record TransactionFinalityObservation := {
  providerId : string;
  chainId : Z;
  latestBlockNumber : Z;
  safeBlockNumber : FinalityTagObservation;
  finalizedBlockNumber : FinalityTagObservation;
  receipt : option Receipt;
  canonicalBlockHash : option string;
  replacement : option Replacement }.

Inductive Submission := rejected | broadcast | ambiguous.

Record TransactionFinalityInput := {
  expectedChainId : Z;
  submission : Submission;
  observations : list TransactionFinalityObservation;
  minimumProviders : option Z }.

Record TransactionFinalityAssessment := {
  a_state : TransactionFinalityState;
  a_depth : TransactionFinalityDepth;
  a_final : bool;
  a_reason : TransactionFinalityReason;
  a_blockNumber : option Z;
  a_blockHash : option string;
  a_providerIds : list string }.

Definition DEPTH_RANK (d : TransactionFinalityDepth) : Z :=
  match d with d_none => 0 | d_included => 1 | d_safe => 2 | d_finalized => 3 end.

(** ** Validation of one observation *)

Definition HASH_PATTERN (s : string) : bool := hex_word 64 s.

Definition isBlockNumber (value : Z) : bool := is_safe_integer value && (0 <=? value).

Definition isTagObservation (value : FinalityTagObservation) : bool :=
  match value with TagNumber n => isBlockNumber n | TagNull | TagUnsupported => true end.

(** [typeof tag === 'number' && tag > bound] *)
Definition tag_above (tag : FinalityTagObservation) (bound : Z) : bool :=
  match tag with TagNumber n => bound <? n | _ => false end.

Definition isValidObservation (o : TransactionFinalityObservation) : bool :=
  truthy (providerId o)
  && isBlockNumber (chainId o)
  && isBlockNumber (latestBlockNumber o)
  && isTagObservation (safeBlockNumber o)
  && isTagObservation (finalizedBlockNumber o)
  && negb (tag_above (safeBlockNumber o) (latestBlockNumber o))
  && negb (tag_above (finalizedBlockNumber o) (latestBlockNumber o))
  && match safeBlockNumber o with
     | TagNumber s => negb (tag_above (finalizedBlockNumber o) s)
     | _ => true
     end
  && match canonicalBlockHash o with Some h => HASH_PATTERN h | None => true end
  && match receipt o with
     | Some r =>
         isBlockNumber (r_blockNumber r)
         && negb (latestBlockNumber o <? r_blockNumber r)
         && HASH_PATTERN (r_blockHash r)
         && ((r_status r =? 0) || (r_status r =? 1))
     | None => true
     end
  && match replacement o with
     | Some p =>
         match receipt o with Some _ => false | None => true end
         && HASH_PATTERN (p_transactionHash p)
         && HASH_PATTERN (p_blockHash p)
         && isBlockNumber (p_blockNumber p)
         && negb (latestBlockNumber o <? p_blockNumber p)
     | None => true
     end.

Definition depthAt (o : TransactionFinalityObservation) (blockNumber : Z)
    : TransactionFinalityDepth :=
  let reached tag := match tag with TagNumber n => blockNumber <=? n | _ => false end in
  if reached (finalizedBlockNumber o) then d_finalized
  else if reached (safeBlockNumber o) then d_safe
  else d_included.

(** What every provider must agree on before the observations count as one answer. *)
Definition agreementKey (o : TransactionFinalityObservation) : string :=
  match receipt o, replacement o with
  | Some r, _ =>
      "receipt:" ++ print_Z (r_blockNumber r) ++ ":" ++ toLowerCase (r_blockHash r)
        ++ ":" ++ print_Z (r_status r)
  | None, Some p =>
      "replacement:" ++ toLowerCase (p_transactionHash p) ++ ":" ++ print_Z (p_blockNumber p)
        ++ ":" ++ toLowerCase (p_blockHash p)
  | None, None => "none"
  end.

(** [first.receipt ?? first.replacement ?? null], as block number and hash. *)
Definition anchor_of (o : TransactionFinalityObservation) : option (Z * string) :=
  match receipt o, replacement o with
  | Some r, _ => Some (r_blockNumber r, r_blockHash r)
  | None, Some p => Some (p_blockNumber p, p_blockHash p)
  | None, None => None
  end.

Definition seen (o : TransactionFinalityObservation) : bool :=
  match anchor_of o with Some _ => true | None => false end.

(** The block of the anchor is still this provider's canonical block. *)
Definition canonical_at (hash : string) (o : TransactionFinalityObservation) : bool :=
  match canonicalBlockHash o with
  | Some h => String.eqb (toLowerCase h) (toLowerCase hash)
  | None => false
  end.

(** [reduce((weakest, next) => DEPTH_RANK[next] < DEPTH_RANK[weakest] ? next : weakest)] *)
Definition weaker (weakest next : TransactionFinalityDepth) : TransactionFinalityDepth :=
  if DEPTH_RANK next <? DEPTH_RANK weakest then next else weakest.

Definition distinct (l : list string) : Z := Z.of_nat (length (remove_dups l)).

(** ** Classification *)

(** An answer that locates no block. *)
Definition unlocated (obs : list TransactionFinalityObservation)
    (state : TransactionFinalityState) (reason : TransactionFinalityReason)
    : TransactionFinalityAssessment :=
  {| a_state := state; a_depth := d_none; a_final := false; a_reason := reason;
     a_blockNumber := None; a_blockHash := None; a_providerIds := map providerId obs |}.

(** The last part of the classification, once the providers agree: the first
    observation's anchor is checked against every provider's canonical block and
    the weakest depth wins. *)
Definition assessAgreed (is_broadcast : bool) (first : TransactionFinalityObservation)
    (rest : list TransactionFinalityObservation) : TransactionFinalityAssessment :=
  let obs := first :: rest in
  match anchor_of first with
  | None =>
      if is_broadcast then unlocated obs fs_submitted awaiting_receipt
      else unlocated obs fs_unknown ambiguous_broadcast
  | Some (blockNumber, blockHash) =>
      if existsb (fun o => negb (canonical_at blockHash o)) obs
      then unlocated obs fs_unknown
             (match receipt first with
              | Some _ => receipt_not_canonical
              | None => replacement_not_canonical
              end)
      else
        let depth :=
          fold_left weaker (map (fun o => depthAt o blockNumber) rest)
            (depthAt first blockNumber) in
        let reason :=
          match depth with
          | d_finalized => finalized_tag_reached
          | d_safe => safe_tag_reached
          | _ =>
              if existsb (fun o => match finalizedBlockNumber o with
                                   | TagUnsupported => true | _ => false end) obs
              then finality_tag_unsupported else included
          end in
        let located state :=
          {| a_state := state; a_depth := depth;
             a_final := bool_decide (depth = d_finalized);
             a_reason := reason; a_blockNumber := Some blockNumber;
             a_blockHash := Some (toLowerCase blockHash);
             a_providerIds := map providerId obs |} in
        let success :=
          match depth with
          | d_finalized => fs_finalized
          | d_safe => fs_safe
          | _ => fs_confirmed
          end in
        match replacement first, receipt first with
        | Some _, _ => located fs_replaced
        | None, Some r => located (if r_status r =? 0 then fs_reverted else success)
        | None, None => located success
        end
  end.

Definition classifyTransactionFinality (input : TransactionFinalityInput)
    : TransactionFinalityAssessment :=
  let obs := observations input in
  let providerIds := map providerId obs in
  let result := unlocated obs in
  let is_broadcast := match submission input with broadcast => true | _ => false end in
  if negb (forallb isValidObservation obs) then result fs_unknown invalid_observation
  else if existsb (fun o => negb (chainId o =? expectedChainId input)) obs
  then result fs_unknown wrong_chain
  else match submission input with
  | rejected =>
      if existsb seen obs then result fs_unknown contradicts_rejection
      else {| a_state := fs_failed; a_depth := d_none; a_final := true;
              a_reason := rejected_before_broadcast; a_blockNumber := None;
              a_blockHash := None; a_providerIds := providerIds |}
  | _ =>
      let minimum := Z.max 1 (default 1 (minimumProviders input)) in
      if (distinct providerIds <? minimum) || (Z.of_nat (length providerIds) <? minimum)
      then result (if is_broadcast then fs_submitted else fs_unknown) insufficient_providers
      else if negb (distinct (map agreementKey obs) =? 1)
      then result fs_unknown provider_disagreement
      else match obs with
      | [] => result fs_unknown provider_disagreement
      | first :: rest => assessAgreed is_broadcast first rest
      end
  end.

(** ** Positions and their transitions *)

Record TransactionFinalityPosition := {
  pos_state : TransactionFinalityState;
  pos_final : bool }.

#[export] Instance TransactionFinalityPosition_eq_dec : EqDecision TransactionFinalityPosition.
Proof. solve_decision. Defined.

Definition position_of (a : TransactionFinalityAssessment) : TransactionFinalityPosition :=
  {| pos_state := a_state a; pos_final := a_final a |}.

Definition SUCCESS_RANK (s : TransactionFinalityState) : option Z :=
  match s with
  | fs_confirmed => Some 1
  | fs_safe => Some 2
  | fs_finalized => Some 3
  | _ => None
  end.

Definition canTransitionTransactionFinality
    (from : option TransactionFinalityPosition) (to : TransactionFinalityPosition) : bool :=
  if bool_decide (pos_state to = fs_finalized) && negb (pos_final to) then false
  else if bool_decide (pos_state to = fs_failed) && negb (pos_final to) then false
  else match from with
  | None => true
  | Some from =>
      if bool_decide (pos_state from = pos_state to)
         && Bool.eqb (pos_final from) (pos_final to) then true
      else if pos_final from then false
      else if bool_decide (pos_state to = fs_failed) then false
      else match SUCCESS_RANK (pos_state from), SUCCESS_RANK (pos_state to) with
      | Some fromRank, Some toRank => fromRank <? toRank
      | _, _ => true
      end
  end.

Definition finality_state_name (s : TransactionFinalityState) : string :=
  match s with
  | fs_submitted => "submitted" | fs_confirmed => "confirmed" | fs_safe => "safe"
  | fs_finalized => "finalized" | fs_reverted => "reverted" | fs_replaced => "replaced"
  | fs_unknown => "unknown" | fs_failed => "failed"
  end.

Definition assertTransactionFinalityTransition
    (from : option TransactionFinalityPosition) (to : TransactionFinalityPosition)
    : result string unit :=
  let show p := finality_state_name (pos_state p) ++ (if pos_final p then " (final)" else "") in
  throw_if (negb (canTransitionTransactionFinality from to))
    ("Transaction finality cannot move from "
       ++ (match from with Some p => show p | None => "nothing" end)
       ++ " to " ++ show to).

Definition isFinalizedSuccess (p : TransactionFinalityPosition) : bool :=
  bool_decide (pos_state p = fs_finalized) && pos_final p.

Definition finalityFromConfirmationStage (s : SettlementConfirmationStage)
    : TransactionFinalityPosition :=
  match s with
  | FINALIZED => {| pos_state := fs_finalized; pos_final := true |}
  | SAFE => {| pos_state := fs_safe; pos_final := false |}
  | INDEXED => {| pos_state := fs_confirmed; pos_final := false |}
  end.

(** ** Lemmas: sets of keys, depths *)

Lemma distinct_Permutation l l' : l ≡ₚ l' -> distinct l = distinct l'.
Proof.
  intros H. unfold distinct. f_equal. apply Permutation_length.
  apply NoDup_Permutation; [apply NoDup_remove_dups..|].
  intros x. by rewrite !elem_of_remove_dups, H.
Qed.

Lemma distinct_length l : distinct l <= Z.of_nat (length l).
Proof.
  unfold distinct. apply inj_le. induction l as [|x l IH]; simpl; [done|].
  destruct (decide_rel _ _ _); simpl; lia.
Qed.

Lemma distinct_one l x : distinct l = 1 -> x ∈ l -> Forall (eq x) l.
Proof.
  unfold distinct. intros H Hx. apply Forall_forall. intros y Hy.
  rewrite <- elem_of_remove_dups in Hx, Hy.
  destruct (remove_dups l) as [|z [|? ?]]; simpl in H; try lia.
  apply list_elem_of_singleton in Hx, Hy. congruence.
Qed.

Lemma distinct_all_eq x l : x ∈ l -> Forall (eq x) l -> distinct l = 1.
Proof.
  unfold distinct. intros Hx Hl.
  assert (Hd : Forall (eq x) (remove_dups l)).
  { apply Forall_forall. intros y Hy. rewrite elem_of_remove_dups in Hy.
    rewrite Forall_forall in Hl. auto. }
  rewrite <- elem_of_remove_dups in Hx. pose proof (NoDup_remove_dups l) as Hnd.
  destruct (remove_dups l) as [|y [|z r]]; [by inversion Hx|done|].
  apply Forall_cons in Hd as [-> Hd]. apply Forall_cons in Hd as [-> _].
  apply NoDup_cons in Hnd as [Hn _]. exfalso. apply Hn. left.
Qed.

Lemma weaker_comm a b : weaker a b = weaker b a.
Proof. by destruct a, b. Qed.

Lemma weaker_assoc a b c : weaker a (weaker b c) = weaker (weaker a b) c.
Proof. by destruct a, b, c. Qed.

Lemma fold_weaker_foldr l d : fold_left weaker l d = weaker d (foldr weaker d_finalized l).
Proof.
  revert d. induction l as [|x l IH]; intros d; simpl; [by destruct d|].
  by rewrite IH, weaker_assoc.
Qed.

Lemma foldr_weaker_finalized l :
  foldr weaker d_finalized l = d_finalized <-> Forall (eq d_finalized) l.
Proof.
  induction l as [|x l IH]; simpl; [split; [constructor|done]|].
  rewrite Forall_cons, <- IH. destruct x, (foldr weaker d_finalized l);
    vm_compute; naive_solver.
Qed.

Lemma foldr_weaker_Permutation l l' :
  l ≡ₚ l' -> foldr weaker d_finalized l = foldr weaker d_finalized l'.
Proof.
  induction 1 as [|x l l' _ IH|x y l|l1 l2 l3 _ IH1 _ IH2]; simpl; auto.
  - by rewrite IH.
  - rewrite !weaker_assoc. by rewrite (weaker_comm y).
  - congruence.
Qed.

Lemma depthAt_finalized o bn :
  depthAt o bn = d_finalized <-> exists f, finalizedBlockNumber o = TagNumber f /\ bn <= f.
Proof.
  unfold depthAt. split.
  - destruct (finalizedBlockNumber o) as [f| |]; [|by destruct (safeBlockNumber o) as [n| |];
      try destruct (_ <=? _)..].
    destruct (bn <=? f) eqn:E; reflect_bools; [eauto|].
    by destruct (safeBlockNumber o) as [n| |]; try destruct (_ <=? _).
  - intros (f & -> & H). by rewrite (proj2 (Z.leb_le _ _) H).
Qed.

(** ** Lemmas: the agreement key identifies the observed outcome *)

(** The outcome a provider reports, with hashes in one spelling. *)
Inductive outcome :=
| OReceipt (bn : Z) (h : string) (st : Z)
| OReplacement (th : string) (bn : Z) (h : string)
| ONone.

Definition outcome_of (o : TransactionFinalityObservation) : outcome :=
  match receipt o, replacement o with
  | Some r, _ => OReceipt (r_blockNumber r) (toLowerCase (r_blockHash r)) (r_status r)
  | None, Some p =>
      OReplacement (toLowerCase (p_transactionHash p)) (p_blockNumber p)
        (toLowerCase (p_blockHash p))
  | None, None => ONone
  end.

Lemma valid_receipt o r :
  isValidObservation o = true -> receipt o = Some r ->
  HASH_PATTERN (r_blockHash r) = true /\ (r_status r = 0 \/ r_status r = 1) /\
  replacement o = None.
Proof.
  unfold isValidObservation. intros H Hr. rewrite Hr in H. reflect_bools.
  destruct (replacement o); [reflect_bools; discriminate|].
  repeat split; auto.
  destruct (Z.eqb_spec (r_status r) 0); [by left|].
  destruct (Z.eqb_spec (r_status r) 1); [by right|done].
Qed.

Lemma valid_replacement o p :
  isValidObservation o = true -> replacement o = Some p ->
  HASH_PATTERN (p_transactionHash p) = true /\ HASH_PATTERN (p_blockHash p) = true /\
  receipt o = None.
Proof.
  unfold isValidObservation. intros H Hp. rewrite Hp in H. reflect_bools.
  destruct (receipt o); [discriminate|]. auto.
Qed.

Lemma agreementKey_outcome o o' :
  isValidObservation o = true -> isValidObservation o' = true ->
  agreementKey o = agreementKey o' -> outcome_of o = outcome_of o'.
Proof.
  intros Hv Hv' H. unfold agreementKey, outcome_of in *.
  destruct (receipt o) as [r|] eqn:Er, (receipt o') as [r'|] eqn:Er'.
  - destruct (valid_receipt _ _ Hv Er) as (Hh & _), (valid_receipt _ _ Hv' Er') as (Hh' & _).
    apply (inj (String.append "receipt:")) in H.
    apply split_at_sep in H as [Hn H]; [|apply print_Z_no_colon..].
    apply split_at_sep in H as [-> Hs]; [|by eapply lower_hash_no_colon..].
    apply print_Z_inj in Hn, Hs. by rewrite Hn, Hs.
  - by destruct (replacement o').
  - by destruct (replacement o).
  - destruct (replacement o) as [p|] eqn:Ep, (replacement o') as [p'|] eqn:Ep'; try done.
    destruct (valid_replacement _ _ Hv Ep) as (Hh & _), (valid_replacement _ _ Hv' Ep') as (Hh' & _).
    apply (inj (String.append "replacement:")) in H.
    apply split_at_sep in H as [-> H]; [|by eapply lower_hash_no_colon..].
    apply split_at_sep in H as [Hn ->]; [|apply print_Z_no_colon..].
    apply print_Z_inj in Hn. by rewrite Hn.
Qed.

(** ** Lemmas: the assessment as a function of the common outcome

    Once every provider reports the same outcome, the choice of the first
    observation as the anchor is immaterial: [assessOutcome] computes the same
    verdict from the outcome and the set of observations. *)

Definition assessOutcome (is_broadcast : bool) (oc : outcome)
    (obs : list TransactionFinalityObservation) : TransactionFinalityAssessment :=
  let locate bn h fate missing :=
    if existsb (fun o => negb (canonical_at h o)) obs
    then unlocated obs fs_unknown missing
    else
      let depth := foldr weaker d_finalized (map (fun o => depthAt o bn) obs) in
      {| a_state := fate depth; a_depth := depth;
         a_final := bool_decide (depth = d_finalized);
         a_reason :=
           match depth with
           | d_finalized => finalized_tag_reached
           | d_safe => safe_tag_reached
           | _ => if existsb (fun o => match finalizedBlockNumber o with
                                       | TagUnsupported => true | _ => false end) obs
                  then finality_tag_unsupported else included
           end;
         a_blockNumber := Some bn; a_blockHash := Some h;
         a_providerIds := map providerId obs |} in
  match oc with
  | ONone => if is_broadcast then unlocated obs fs_submitted awaiting_receipt
             else unlocated obs fs_unknown ambiguous_broadcast
  | OReplacement _ bn h => locate bn h (fun _ => fs_replaced) replacement_not_canonical
  | OReceipt bn h st =>
      locate bn h (fun d => if st =? 0 then fs_reverted else
                            match d with
                            | d_finalized => fs_finalized | d_safe => fs_safe
                            | _ => fs_confirmed
                            end) receipt_not_canonical
  end.

Lemma canonical_at_lower h o : canonical_at (toLowerCase h) o = canonical_at h o.
Proof. unfold canonical_at. by rewrite toLowerCase_idem. Qed.

Lemma existsb_ext {A} (p q : A -> bool) l : (forall x, p x = q x) -> existsb p l = existsb q l.
Proof. intros H. induction l as [|x l IH]; simpl; [done|]. by rewrite H, IH. Qed.

Lemma assessAgreed_outcome b first rest :
  isValidObservation first = true ->
  assessAgreed b first rest = assessOutcome b (outcome_of first) (first :: rest).
Proof.
  intros Hv. unfold assessAgreed, assessOutcome, outcome_of, anchor_of.
  destruct (receipt first) as [r|] eqn:Er.
  - destruct (valid_receipt _ _ Hv Er) as (_ & _ & Hp). rewrite Hp.
    rewrite fold_weaker_foldr.
    rewrite (existsb_ext _ _ _ (fun o => f_equal negb (canonical_at_lower (r_blockHash r) o))).
    done.
  - destruct (replacement first) as [p|] eqn:Ep; [|done].
    rewrite fold_weaker_foldr.
    rewrite (existsb_ext _ _ _ (fun o => f_equal negb (canonical_at_lower (p_blockHash p) o))).
    done.
Qed.

(** Two assessments that say the same thing about the transaction; the list of
    providers is reported in observation order. *)
Definition same_verdict (a b : TransactionFinalityAssessment) : Prop :=
  a_state a = a_state b /\ a_depth a = a_depth b /\ a_final a = a_final b /\
  a_reason a = a_reason b /\ a_blockNumber a = a_blockNumber b /\
  a_blockHash a = a_blockHash b /\ a_providerIds a ≡ₚ a_providerIds b.

#[export] Instance same_verdict_equivalence : Equivalence same_verdict.
Proof.
  split.
  - intros a. unfold same_verdict. repeat split; done.
  - intros a b (?&?&?&?&?&?&?). unfold same_verdict. repeat split; by symmetry.
  - intros a b c (?&?&?&?&?&?&Hp) (?&?&?&?&?&?&Hq).
    unfold same_verdict. repeat split; try congruence. by rewrite Hp.
Qed.

#[export] Instance unlocated_Proper : Proper ((≡ₚ) ==> eq ==> eq ==> same_verdict) unlocated.
Proof.
  intros l l' H s ? <- r ? <-. unfold same_verdict; simpl. repeat split. by rewrite H.
Qed.

#[export] Instance assessOutcome_Proper :
  Proper (eq ==> eq ==> (≡ₚ) ==> same_verdict) assessOutcome.
Proof.
  intros b ? <- oc ? <- l l' H. unfold assessOutcome.
  destruct oc as [bn h st|th bn h|]; [| |destruct b; by rewrite H].
  all: rewrite (existsb_Permutation (fun o => negb (canonical_at h o)) _ _ H).
  all: destruct (existsb (fun o => negb (canonical_at h o)) l'); [by rewrite H|].
  all: rewrite (existsb_Permutation _ _ _ H).
  all: assert (Hd : foldr weaker d_finalized (map (λ o, depthAt o bn) l)
                    = foldr weaker d_finalized (map (λ o, depthAt o bn) l'))
         by (apply foldr_weaker_Permutation; by rewrite H).
  all: unfold same_verdict; simpl; rewrite Hd; repeat split; by rewrite H.
Qed.

(** ** Lemmas: when the classification reaches the agreed outcome *)

Definition quorum (input : TransactionFinalityInput) : Prop :=
  submission input <> rejected /\
  Forall (fun o => isValidObservation o = true) (observations input) /\
  Forall (fun o => chainId o = expectedChainId input) (observations input) /\
  Z.max 1 (default 1 (minimumProviders input))
    <= distinct (map providerId (observations input)).

Definition located_state (s : TransactionFinalityState) : bool :=
  match s with
  | fs_confirmed | fs_safe | fs_finalized | fs_reverted | fs_replaced => true
  | _ => false
  end.

Lemma classify_cases input :
  (a_depth (classifyTransactionFinality input) = d_none /\
   a_blockNumber (classifyTransactionFinality input) = None /\
   located_state (a_state (classifyTransactionFinality input)) = false /\
   (a_final (classifyTransactionFinality input) = true <->
    a_state (classifyTransactionFinality input) = fs_failed)) \/
  (quorum input /\
   exists first rest, observations input = first :: rest /\
     Forall (fun o => outcome_of o = outcome_of first) (observations input) /\
     classifyTransactionFinality input =
       assessOutcome (match submission input with broadcast => true | _ => false end)
         (outcome_of first) (observations input)).
Proof.
  unfold classifyTransactionFinality.
  destruct (forallb isValidObservation _) eqn:Hv; simpl; [|left; by repeat split].
  destruct (existsb _ _) eqn:Hc; simpl; [left; by repeat split|].
  apply forallb_true in Hv. apply existsb_false in Hc.
  destruct (submission input) eqn:Hs.
  { left. destruct (existsb seen _); by repeat split. }
  all: destruct (_ || _) eqn:Hm; [left; by repeat split|].
  all: destruct (distinct (map agreementKey _) =? 1) eqn:Hk; simpl; [|left; by repeat split].
  all: reflect_bools; right.
  all: destruct (observations input) as [|f rest] eqn:Ho; [done|].
  all: split; [unfold quorum; rewrite Hs, Ho; repeat split; try done; try lia;
    eapply Forall_impl; [exact Hc|]; intros o Hn; simpl in Hn; by reflect_bools|].
  all: exists f, rest; split; [done|]; split;
    [|apply assessAgreed_outcome; by apply Forall_cons in Hv as [? _]].
  all: apply (distinct_one _ (agreementKey f)) in Hk; [|left].
  all: rewrite Forall_forall in Hk; rewrite Forall_forall in Hv; apply Forall_forall; intros o Hin.
  all: apply agreementKey_outcome; [apply Hv; done | apply Hv; left|].
  all: symmetry; apply Hk, list_elem_of_fmap; eauto.
Qed.

Lemma depth_all_finalized obs bn :
  foldr weaker d_finalized (map (fun o => depthAt o bn) obs) = d_finalized <->
  Forall (fun o => exists f, finalizedBlockNumber o = TagNumber f /\ bn <= f) obs.
Proof.
  rewrite foldr_weaker_finalized, Forall_fmap. apply Forall_iff. intros o. simpl.
  rewrite <- depthAt_finalized. split; congruence.
Qed.

Lemma assessOutcome_finalized b oc obs :
  a_state (assessOutcome b oc obs) = fs_finalized <->
  exists bn h st, oc = OReceipt bn h st /\ st <> 0 /\
    Forall (fun o => canonical_at h o = true /\
                     exists f, finalizedBlockNumber o = TagNumber f /\ bn <= f) obs.
Proof.
  unfold assessOutcome. destruct oc as [bn h st|th bn h|].
  - destruct (existsb _ _) eqn:Ec; simpl.
    + split; [done|]. intros (bn' & h' & st' & [= <- <- <-] & _ & H). exfalso.
      apply not_false_iff_true in Ec. apply Ec. apply existsb_false.
      eapply Forall_impl; [exact H|]. intros o [Ho _]. by rewrite Ho.
    + apply existsb_false in Ec.
      assert (Hc : Forall (fun o => canonical_at h o = true) obs)
        by (eapply Forall_impl; [exact Ec|]; intros o Ho; by apply negb_false_iff).
      split.
      * intros H. exists bn, h, st. split; [done|].
        destruct (Z.eqb_spec st 0); [done|]. split; [done|]. apply Forall_and. split; [done|].
        apply depth_all_finalized. by destruct (foldr _ _ _).
      * intros (? & ? & ? & [= <- <- <-] & Hst & H). apply Forall_and in H as [_ H].
        apply depth_all_finalized in H. rewrite H. by destruct (Z.eqb_spec st 0).
  - destruct (existsb _ _); simpl; split; try done; naive_solver.
  - destruct b; simpl; split; try done; naive_solver.
Qed.

(** What one provider must report for the transaction to be finalized at block
    [bn] with hash [h] (in lower case). *)
Definition reports_final_success (bn : Z) (h : string) (o : TransactionFinalityObservation) : Prop :=
  (exists r, receipt o = Some r /\ r_blockNumber r = bn /\ toLowerCase (r_blockHash r) = h /\
             r_status r = 1) /\
  (exists c, canonicalBlockHash o = Some c /\ toLowerCase c = h) /\
  (exists f, finalizedBlockNumber o = TagNumber f /\ bn <= f).

Lemma outcome_receipt o bn h st :
  outcome_of o = OReceipt bn h st <->
  exists r, receipt o = Some r /\ r_blockNumber r = bn /\ toLowerCase (r_blockHash r) = h /\
            r_status r = st.
Proof.
  unfold outcome_of. destruct (receipt o) as [r|], (replacement o); naive_solver.
Qed.

Lemma canonical_at_some h o :
  toLowerCase h = h ->
  canonical_at h o = true <-> exists c, canonicalBlockHash o = Some c /\ toLowerCase c = h.
Proof.
  intros Hh. unfold canonical_at. rewrite Hh. destruct (canonicalBlockHash o) as [c|].
  - rewrite String.eqb_eq. naive_solver.
  - naive_solver.
Qed.

Lemma agreed_key_distinct obs first rest :
  obs = first :: rest -> Forall (fun o => outcome_of o = outcome_of first) obs ->
  distinct (map agreementKey obs) = 1.
Proof.
  intros Ho H. apply (distinct_all_eq (agreementKey first)).
  - subst. left.
  - apply Forall_forall. intros k (o & -> & Hin)%list_elem_of_fmap.
    rewrite Forall_forall in H. specialize (H o Hin). revert H.
    unfold outcome_of, agreementKey.
    destruct (receipt o), (receipt first), (replacement o), (replacement first); congruence.
Qed.

Lemma classify_quorum input first rest :
  quorum input -> observations input = first :: rest ->
  Forall (fun o => outcome_of o = outcome_of first) (observations input) ->
  classifyTransactionFinality input =
    assessOutcome (match submission input with broadcast => true | _ => false end)
      (outcome_of first) (observations input).
Proof.
  intros (Hs & Hv & Hc & Hm) Ho Ha. unfold classifyTransactionFinality.
  pose proof (distinct_length (map providerId (observations input))) as Hl.
  rewrite (proj2 (forallb_true _ _) Hv).
  assert (existsb (fun o => negb (chainId o =? expectedChainId input)) (observations input) = false) as ->.
  { apply existsb_false. eapply Forall_impl; [exact Hc|]. intros o Hoc. simpl in *.
    apply negb_false_iff. by apply Z.eqb_eq. }
  simpl. rewrite (agreed_key_distinct _ _ _ Ho Ha).
  destruct (Z.ltb_spec (distinct (map providerId (observations input)))
              (1 `max` default 1 (minimumProviders input))); [lia|].
  destruct (Z.ltb_spec (Z.of_nat (length (map providerId (observations input))))
              (1 `max` default 1 (minimumProviders input))); [lia|].
  simpl. rewrite Ho in *. apply Forall_cons in Hv as [Hv _].
  rewrite <- assessAgreed_outcome by done. by destruct (submission input).
Qed.

(** C11. A transaction is classified as finalized exactly when it was sent, every
    provider answer is well formed and from the expected chain, the required
    number of distinct providers answered, and all of them report one and the
    same successful receipt, see its block as canonical and have a finalized tag
    at or above it.  No weaker evidence is ever reported as finalized, and such
    evidence is never reported as anything less. *)
Theorem classify_finalized_iff (input : TransactionFinalityInput) :
  a_state (classifyTransactionFinality input) = fs_finalized <->
  quorum input /\
  exists bn h, Forall (reports_final_success bn h) (observations input).
Proof.
  split.
  - intros H. destruct (classify_cases input) as [(_ & _ & Hl & _)|(Hq & f & rest & Ho & Ha & Hc)].
    { by rewrite H in Hl. }
    rewrite Hc in H. apply assessOutcome_finalized in H as (bn & h & st & Hf & Hst & H).
    split; [done|]. exists bn, h. destruct Hq as (_ & Hv & _).
    rewrite Forall_forall in H; rewrite Forall_forall in Ha; rewrite Forall_forall in Hv.
    apply Forall_forall. intros o Hin.
    specialize (Ha o Hin). rewrite Hf in Ha. apply outcome_receipt in Ha as (r & Hr & Hbn & Hh & Hs).
    destruct (H o Hin) as [Hcan Hfin]. split; [|split; [|done]].
    + exists r. repeat split; auto. destruct (valid_receipt _ _ (Hv o Hin) Hr) as (_ & [?|?] & _); congruence.
    + apply canonical_at_some; [|done]. subst h. apply toLowerCase_idem.
  - intros (Hq & bn & h & Hall).
    destruct (observations input) as [|f rest] eqn:Ho.
    { destruct Hq as (_ & _ & _ & Hm). rewrite Ho in Hm. unfold distinct in Hm. simpl in Hm. lia. }
    assert (Hoc : Forall (fun o => outcome_of o = OReceipt bn h 1) (f :: rest)).
    { eapply Forall_impl; [exact Hall|]. intros o (Hr & _). by apply outcome_receipt. }
    assert (Hf : outcome_of f = OReceipt bn h 1) by (by apply Forall_cons in Hoc as [? _]).
    assert (Hlow : toLowerCase h = h).
    { apply Forall_cons in Hall as [((r & _ & _ & <- & _) & _) _]. apply toLowerCase_idem. }
    erewrite (classify_quorum input f rest); [|done|done|by rewrite Ho, Hf].
    apply assessOutcome_finalized. exists bn, h, 1. split; [done|]. split; [done|].
    rewrite Ho. eapply Forall_impl; [exact Hall|]. intros o (_ & Hcan & Hfin).
    by rewrite canonical_at_some.
Qed.

(** The verdict does not depend on the order in which providers answered,
    although the code takes its anchor from the first one: state, depth,
    finality, reason and block are the same for every reordering. *)
Theorem classify_order_independent (chain : Z) (sub : Submission) (minimum : option Z)
    (obs obs' : list TransactionFinalityObservation) :
  obs ≡ₚ obs' ->
  let input l := {| expectedChainId := chain; submission := sub; observations := l;
                    minimumProviders := minimum |} in
  same_verdict (classifyTransactionFinality (input obs)) (classifyTransactionFinality (input obs')).
Proof.
  intros H input. unfold classifyTransactionFinality. simpl.
  rewrite (forallb_Permutation _ _ _ H), (existsb_Permutation _ _ _ H).
  rewrite (existsb_Permutation seen _ _ H).
  rewrite (distinct_Permutation (map providerId obs) (map providerId obs')) by (by rewrite H).
  rewrite (distinct_Permutation (map agreementKey obs) (map agreementKey obs')) by (by rewrite H).
  rewrite !length_map, (Permutation_length H).
  destruct (forallb isValidObservation obs') eqn:Hv; simpl; [|by rewrite H].
  destruct (existsb _ obs'); [by rewrite H|].
  destruct sub.
  { destruct (existsb seen obs'); [by rewrite H|].
    unfold same_verdict; simpl; repeat split; by rewrite H. }
  all: destruct (_ || _); [by rewrite H|].
  all: destruct (distinct _ =? 1) eqn:Hk; simpl; [|by rewrite H].
  all: apply Z.eqb_eq in Hk; apply forallb_true in Hv.
  all: destruct obs as [|f r], obs' as [|f' r'];
    [done|by apply Permutation_nil_l in H|by apply Permutation_nil_r in H|].
  all: rewrite Forall_forall in Hv; assert (Hin : f ∈ f' :: r') by (rewrite <- H; left).
  all: rewrite !assessAgreed_outcome by (apply Hv; [done || left]).
  all: replace (outcome_of f) with (outcome_of f'); [by rewrite H|].
  all: apply agreementKey_outcome; [apply Hv; left|apply Hv; done|].
  all: apply (distinct_one _ (agreementKey f')) in Hk; [|left].
  all: rewrite Forall_forall in Hk; apply Hk, list_elem_of_fmap; eauto.
Qed.

(** A concrete two-provider input, used by the witnesses. *)
Definition sample_hash : string := "0x" ++ repeat_char 64 "A"%char.
Definition sample_obs (id : string) (fin : FinalityTagObservation) : TransactionFinalityObservation :=
  {| providerId := id; chainId := 8453; latestBlockNumber := 120; safeBlockNumber := TagNumber 110;
     finalizedBlockNumber := fin;
     receipt := Some {| r_blockNumber := 100; r_blockHash := sample_hash; r_status := 1 |};
     canonicalBlockHash := Some (toLowerCase sample_hash); replacement := None |}.

Lemma classify_order_independent_witness :
  let input l := {| expectedChainId := 8453; submission := broadcast; observations := l;
                    minimumProviders := Some 2 |} in
  let a := sample_obs "a" (TagNumber 105) in
  let b := sample_obs "b" (TagNumber 99) in
  a_state (classifyTransactionFinality (input [a; b])) = fs_safe /\
  same_verdict (classifyTransactionFinality (input [a; b])) (classifyTransactionFinality (input [b; a])).
Proof.
  split; [vm_compute; reflexivity|].
  apply (classify_order_independent 8453 broadcast (Some 2)
           [sample_obs "a" (TagNumber 105); sample_obs "b" (TagNumber 99)]
           [sample_obs "b" (TagNumber 99); sample_obs "a" (TagNumber 105)]).
  apply Permutation_swap.
Defined.

(** ** Stored histories

    A stored position is written once from nothing and then only moved where
    [canTransitionTransactionFinality] allows it; newest position first. *)
Inductive finality_history : list TransactionFinalityPosition -> Prop :=
| history_first p :
    canTransitionTransactionFinality None p = true -> finality_history [p]
| history_move p q h :
    finality_history (p :: h) -> canTransitionTransactionFinality (Some p) q = true ->
    finality_history (q :: p :: h).

Lemma transition_final p q :
  canTransitionTransactionFinality (Some p) q = true -> pos_final p = true -> q = p.
Proof. destruct p as [[] []], q as [[] []]; by vm_compute. Qed.

Lemma transition_target from q :
  canTransitionTransactionFinality from q = true ->
  (pos_state q = fs_finalized -> pos_final q = true) /\
  (pos_state q = fs_failed -> pos_final q = true).
Proof.
  destruct q as [[] []]; unfold canTransitionTransactionFinality; simpl; done.
Qed.

Lemma transition_to_failed p q :
  canTransitionTransactionFinality (Some p) q = true -> pos_state q = fs_failed -> p = q.
Proof. destruct p as [[] []], q as [[] []]; by vm_compute. Qed.

Lemma history_tail p h : finality_history (p :: h) -> h <> [] -> finality_history h.
Proof. inversion 1; subst; [done|]. auto. Qed.

Lemma history_before_failed h p :
  finality_history (p :: h) -> pos_state p = fs_failed -> Forall (eq p) h.
Proof.
  revert p. induction h as [|q h IH]; intros p H Hp; [constructor|].
  inversion H as [|? ? ? Hh Ht]; subst.
  apply transition_to_failed in Ht as ->; [|done]. constructor; [done|]. auto.
Qed.

Lemma history_after_final p h newer :
  finality_history (newer ++ p :: h) -> pos_final p = true -> Forall (eq p) newer.
Proof.
  induction newer as [|q newer IH]; intros H Hp; [constructor|].
  assert (Hh : finality_history (newer ++ p :: h))
    by (eapply history_tail; [exact H|]; by destruct newer).
  specialize (IH Hh Hp). constructor; [|done].
  destruct newer as [|q' newer]; inversion H; subst.
  - symmetry. by apply transition_final.
  - apply Forall_cons in IH as [<- _]. symmetry. by apply transition_final.
Qed.

(** In every stored history a finalized or failed position is final, a final
    position is never replaced by a different one, and a transaction recorded as
    failed before broadcast has never been recorded as anything else. *)
Theorem finality_history_sound newer p older :
  finality_history (newer ++ p :: older) ->
  (pos_state p = fs_finalized \/ pos_state p = fs_failed -> pos_final p = true) /\
  (pos_final p = true -> Forall (eq p) newer) /\
  (pos_state p = fs_failed -> Forall (eq p) older).
Proof.
  intros H. assert (Hp : finality_history (p :: older)).
  { clear -H. induction newer as [|q newer IH]; [done|]. apply IH.
    eapply history_tail; [exact H|]. by destruct newer. }
  split_and!.
  - intros Hs. assert (exists from, canTransitionTransactionFinality from p = true) as [from Hf]
      by (inversion Hp; eauto).
    apply transition_target in Hf as [? ?]. naive_solver.
  - by apply history_after_final with older.
  - by apply history_before_failed.
Qed.

Lemma finality_history_sound_witness :
  let confirmed := {| pos_state := fs_confirmed; pos_final := false |} in
  let unknown := {| pos_state := fs_unknown; pos_final := false |} in
  let finalized := {| pos_state := fs_finalized; pos_final := true |} in
  finality_history [finalized; finalized; confirmed; unknown] /\
  Forall (eq finalized) [finalized].
Proof.
  assert (H : finality_history
    ([{| pos_state := fs_finalized; pos_final := true |}] ++
     {| pos_state := fs_finalized; pos_final := true |} ::
     [{| pos_state := fs_confirmed; pos_final := false |};
      {| pos_state := fs_unknown; pos_final := false |}])).
  { apply history_move; [apply history_move; [apply history_move; [apply history_first|]|]|];
      vm_compute; reflexivity. }
  split; [exact H|].
  apply (proj1 (proj2 (finality_history_sound _ _ _ H))). reflexivity.
Defined.

Lemma assessOutcome_position b oc obs :
  let a := assessOutcome b oc obs in
  (a_final a = true <-> a_depth a = d_finalized) /\
  (located_state (a_state a) = true <-> a_depth a <> d_none) /\
  (a_blockNumber a <> None <-> a_depth a <> d_none) /\
  a_state a <> fs_failed /\ (a_state a = fs_finalized -> a_depth a = d_finalized).
Proof.
  assert (Hd : forall bn, obs <> [] \/ True ->
    foldr weaker d_finalized (map (fun o => depthAt o bn) obs) <> d_none).
  { intros bn _. induction obs as [|o l IH]; simpl; [done|].
    assert (depthAt o bn <> d_none) by (unfold depthAt; repeat case_match; done).
    unfold weaker. by destruct (_ <? _). }
  unfold assessOutcome. destruct oc as [bn h st|th bn h|].
  3: destruct b; simpl; repeat split; done.
  all: destruct (existsb _ _); simpl; [repeat split; done|].
  all: rewrite bool_decide_eq_true; specialize (Hd bn (or_intror I)).
  all: repeat split; repeat case_match; naive_solver.
Qed.

(** C40. Every classification is well formed: it is a legal initial position of
    the transition model; it carries a block exactly when it reports inclusion
    of the transaction (or of its replacement) at some depth; and it is final
    only for a finalized-depth outcome or a rejection before broadcast. *)
Theorem classify_well_formed (input : TransactionFinalityInput) :
  let a := classifyTransactionFinality input in
  canTransitionTransactionFinality None (position_of a) = true /\
  (a_blockNumber a <> None <-> located_state (a_state a) = true) /\
  (a_final a = true <-> a_depth a = d_finalized \/ a_state a = fs_failed).
Proof.
  simpl. unfold canTransitionTransactionFinality, position_of; simpl.
  destruct (classify_cases input) as [(Hd & Hb & Hl & Hf)|(Hq & f & rest & Ho & Ha & Hc)].
  - rewrite Hd, Hb. destruct (a_final _), (a_state _); simpl in *; naive_solver.
  - rewrite Hc. destruct (assessOutcome_position
      (match submission input with broadcast => true | _ => false end)
      (outcome_of f) (observations input)) as (H1 & H2 & H3 & H4 & H5).
    destruct (a_final _), (a_state _); simpl in *; try naive_solver.
Qed.

(** ** Indexed settlement events: the stage as heads advance *)

(** A tag that was absent may appear; a tag that was present never regresses. *)
Definition head_le (a b : option Z) : Prop :=
  match a, b with
  | None, _ => True
  | Some x, Some y => x <= y
  | Some _, None => False
  end.

(** While a chain's block tags only advance, re-resolving the confirmation
    stage of an indexed event always yields a position the finality model lets
    the stored one move to, so an honest indexer is never refused. *)
Theorem confirmation_stage_advances ev heads heads' s s' :
  head_le (safeHead heads) (safeHead heads') ->
  head_le (finalizedHead heads) (finalizedHead heads') ->
  resolveSettlementConfirmationStage ev heads = Ok s ->
  resolveSettlementConfirmationStage ev heads' = Ok s' ->
  canTransitionTransactionFinality (Some (finalityFromConfirmationStage (stage s)))
    (finalityFromConfirmationStage (stage s')) = true.
Proof.
  intros Hs Hf H H'. unfold resolveSettlementConfirmationStage in *. inv_ok. simpl.
  destruct (safeHead heads), (safeHead heads'), (finalizedHead heads), (finalizedHead heads');
    simpl in *; try done;
    repeat match goal with |- context [?a <=? ?b] => destruct (Z.leb_spec a b) end;
    first [done | lia].
Qed.

Lemma confirmation_stage_advances_witness :
  let h1 := {| latestHead := 10; safeHead := None; finalizedHead := None |} in
  let h2 := {| latestHead := 20; safeHead := Some 15; finalizedHead := Some 9 |} in
  (exists s s', resolveSettlementConfirmationStage 9 h1 = Ok s /\ stage s = INDEXED /\
     resolveSettlementConfirmationStage 9 h2 = Ok s' /\ stage s' = FINALIZED) /\
  canTransitionTransactionFinality (Some (finalityFromConfirmationStage INDEXED))
    (finalityFromConfirmationStage FINALIZED) = true.
Proof.
  split; [do 2 eexists; repeat split; vm_compute; reflexivity|].
  apply (confirmation_stage_advances 9
    {| latestHead := 10; safeHead := None; finalizedHead := None |}
    {| latestHead := 20; safeHead := Some 15; finalizedHead := Some 9 |}
    {| scs_eventBlockNumber := 9;
       scs_heads := {| latestHead := 10; safeHead := None; finalizedHead := None |};
       stage := INDEXED |}
    {| scs_eventBlockNumber := 9;
       scs_heads := {| latestHead := 20; safeHead := Some 15; finalizedHead := Some 9 |};
       stage := FINALIZED |}); simpl; try done.
Defined.
