(* ===== verification/SettlementTypes.v ===== *)
(** The settlement vocabulary of the gateway: gateway/src/errors.ts,
    gateway/src/core/settlementStoreTypes.ts and the string readers of
    gateway/src/routes/settlement.ts.

    Timestamps are milliseconds since the epoch: the service writes every one of
    them with [Date.prototype.toISOString], whose fixed-width UTC text is ordered
    like the instants it denotes.  Amounts held as JS numbers are kept as the
    decimal text [String(n)] gives for them. *)
From stdpp Require Import base list gmap strings.
From S2P Require Import Prelude JsText.

Open Scope string_scope.
Open Scope Z_scope.

(** ** Errors *)

Inductive GatewayErrorCode :=
| AUTH_REQUIRED | FORBIDDEN | VALIDATION_ERROR | WALLET_SIGNER_REQUIRED
| SIGNER_NOT_AUTHORIZED | SIGNER_POLICY_RESTRICTED | UPSTREAM_UNAVAILABLE
| CONFLICT | NOT_FOUND | INTERNAL_ERROR.

Record GatewayError := {
  statusCode : Z;
  ge_code : GatewayErrorCode;
  ge_message : string }.

Definition gatewayError (st : Z) (c : GatewayErrorCode) (m : string) : GatewayError :=
  {| statusCode := st; ge_code := c; ge_message := m |}.

(** ** Enumerations *)

Inductive SettlementExecutionStatus :=
| x_pending | x_accepted | x_queued | x_broadcast_unknown | x_confirmation_pending
| x_submitted | x_confirmed | x_reverted | x_replaced | x_failed | x_rejected.

Inductive SettlementReconciliationStatus := rs_pending | rs_matched | rs_drift | rs_unavailable.

Inductive SettlementCallbackStatus :=
| cb_pending | cb_delivered | cb_failed | cb_dead_letter | cb_disabled.

Inductive SettlementEventType :=
| e_accepted | e_queued | e_simulation_completed | e_broadcast_unknown | e_confirmation_pending
| e_submitted | e_confirmed | e_reverted | e_replaced | e_failed | e_rejected
| e_reconciled | e_drift_detected | e_chain_evidence_orphaned.

(** Status of one callback delivery row. *)
Inductive DeliveryStatus :=
| dl_pending | dl_delivering | dl_delivered | dl_failed | dl_dead_letter | dl_disabled.

#[export] Instance SettlementExecutionStatus_eq_dec : EqDecision SettlementExecutionStatus.
Proof. solve_decision. Defined.
#[export] Instance SettlementReconciliationStatus_eq_dec :
  EqDecision SettlementReconciliationStatus.
Proof. solve_decision. Defined.
#[export] Instance SettlementCallbackStatus_eq_dec : EqDecision SettlementCallbackStatus.
Proof. solve_decision. Defined.
#[export] Instance SettlementEventType_eq_dec : EqDecision SettlementEventType.
Proof. solve_decision. Defined.
#[export] Instance DeliveryStatus_eq_dec : EqDecision DeliveryStatus.
Proof. solve_decision. Defined.

Definition SETTLEMENT_EXECUTION_STATUSES : list (string * SettlementExecutionStatus) :=
  [("pending", x_pending); ("accepted", x_accepted); ("queued", x_queued);
   ("broadcast_unknown", x_broadcast_unknown); ("confirmation_pending", x_confirmation_pending);
   ("submitted", x_submitted); ("confirmed", x_confirmed); ("reverted", x_reverted);
   ("replaced", x_replaced); ("failed", x_failed); ("rejected", x_rejected)].

Definition SETTLEMENT_RECONCILIATION_STATUSES : list (string * SettlementReconciliationStatus) :=
  [("pending", rs_pending); ("matched", rs_matched); ("drift", rs_drift);
   ("unavailable", rs_unavailable)].

Definition SETTLEMENT_EVENT_TYPES : list (string * SettlementEventType) :=
  [("accepted", e_accepted); ("queued", e_queued);
   ("simulation_completed", e_simulation_completed);
   ("broadcast_unknown", e_broadcast_unknown); ("confirmation_pending", e_confirmation_pending);
   ("submitted", e_submitted); ("confirmed", e_confirmed); ("reverted", e_reverted);
   ("replaced", e_replaced); ("failed", e_failed); ("rejected", e_rejected);
   ("reconciled", e_reconciled); ("drift_detected", e_drift_detected);
   ("chain_evidence_orphaned", e_chain_evidence_orphaned)].

(** [LIST.includes(text)], giving the literal's value. *)
Fixpoint lookup_literal {A} (l : list (string * A)) (text : string) : option A :=
  match l with
  | [] => None
  | (k, v) :: r => if String.eqb k text then Some v else lookup_literal r text
  end.

(** ** Request readers (gateway/src/routes/settlement.ts) *)

Definition requireString (value : json) (field : string) : result GatewayError string :=
  let bad := Err (gatewayError 400 VALIDATION_ERROR (field ++ " must be a non-empty string")) in
  match value with
  | JStr s => if truthy (trim s) then Ok (trim s) else bad
  | _ => bad
  end.

Definition requireEventType (value : json) : result GatewayError SettlementEventType :=
  eventType ← requireString value "eventType";
  _ ← throw_if (String.eqb eventType "chain_evidence_orphaned")
        (gatewayError 400 VALIDATION_ERROR
           "Chain canonicality events belong to the retained observer");
  match lookup_literal SETTLEMENT_EVENT_TYPES eventType with
  | Some t => Ok t
  | None => Err (gatewayError 400 VALIDATION_ERROR "eventType is not supported")
  end.

Definition requireExecutionStatus (value : json) : result GatewayError SettlementExecutionStatus :=
  executionStatus ← requireString value "executionStatus";
  match lookup_literal SETTLEMENT_EXECUTION_STATUSES executionStatus with
  | Some s => Ok s
  | None => Err (gatewayError 400 VALIDATION_ERROR "executionStatus is not supported")
  end.

Definition requireReconciliationStatus (value : json)
    : result GatewayError SettlementReconciliationStatus :=
  reconciliationStatus ← requireString value "reconciliationStatus";
  match lookup_literal SETTLEMENT_RECONCILIATION_STATUSES reconciliationStatus with
  | Some s => Ok s
  | None => Err (gatewayError 400 VALIDATION_ERROR "reconciliationStatus is not supported")
  end.

(** ** Records *)

(** A settlement amount as callers pass it: text, or a JS number given by its
    [String(n)] rendering.  [AmtOther] is any other value, which the declared
    type excludes but the parser still checks for. *)
Inductive SettlementAmountInput :=
| AmtText (s : string)
| AmtNumber (rendering : string)
| AmtOther.

Record SettlementHandoffRecord := {
  h_executionBinding : option json;
  h_handoffId : string;
  h_platformId : string;
  h_platformHandoffId : string;
  h_tradeId : string;
  h_phase : string;
  h_settlementChannel : string;
  h_displayCurrency : string;
  h_displayAmount : string;
  h_assetSymbol : option string;
  h_assetAmount : option string;
  h_ricardianHash : option string;
  h_externalReference : option string;
  h_metadata : list (string * json);
  h_executionStatus : SettlementExecutionStatus;
  h_reconciliationStatus : SettlementReconciliationStatus;
  h_callbackStatus : SettlementCallbackStatus;
  h_providerStatus : option string;
  h_txHash : option string;
  h_latestEventId : option string;
  h_latestEventType : option SettlementEventType;
  h_latestEventDetail : option string;
  h_latestEventAt : option Z;
  h_callbackDeliveredAt : option Z;
  h_requestId : string;
  h_sourceApiKeyId : option string;
  h_createdAt : Z;
  h_updatedAt : Z }.

Record SettlementExecutionEventRecord := {
  ev_eventId : string;
  ev_handoffId : string;
  ev_eventType : SettlementEventType;
  ev_executionStatus : SettlementExecutionStatus;
  ev_reconciliationStatus : SettlementReconciliationStatus;
  ev_providerStatus : option string;
  ev_txHash : option string;
  ev_detail : option string;
  ev_metadata : list (string * json);
  ev_observedAt : Z;
  ev_requestId : string;
  ev_sourceApiKeyId : option string;
  ev_createdAt : Z }.

Record SettlementCallbackDeliveryRecord := {
  dv_deliveryId : string;
  dv_handoffId : string;
  dv_eventId : string;
  dv_targetUrl : string;
  dv_requestBody : json;
  dv_status : DeliveryStatus;
  dv_attemptCount : Z;
  dv_nextAttemptAt : Z;
  dv_lastAttemptedAt : option Z;
  dv_deliveredAt : option Z;
  dv_responseStatus : option Z;
  dv_lastError : option string;
  dv_leaseOwner : option string;
  dv_leaseExpiresAt : option Z;
  dv_requestId : string;
  dv_createdAt : Z;
  dv_updatedAt : Z }.

(** Optional members of an input are [None] when absent or [null]; the members
    whose two empty forms the store distinguishes are [nullish]. *)
Record CreateSettlementHandoffInput := {
  ci_executionBinding : nullish json;
  ci_platformId : string;
  ci_platformHandoffId : string;
  ci_tradeId : string;
  ci_phase : string;
  ci_settlementChannel : string;
  ci_displayCurrency : string;
  ci_displayAmount : SettlementAmountInput;
  ci_assetSymbol : option string;
  ci_assetAmount : option SettlementAmountInput;
  ci_ricardianHash : nullish string;
  ci_externalReference : nullish string;
  ci_metadata : list (string * json);
  ci_requestId : string;
  ci_sourceApiKeyId : option string }.

Record PersistSettlementExecutionEventInput := {
  pi_handoffId : string;
  pi_eventType : SettlementEventType;
  pi_executionStatus : SettlementExecutionStatus;
  pi_reconciliationStatus : SettlementReconciliationStatus;
  pi_providerStatus : option string;
  pi_txHash : option string;
  pi_detail : option string;
  pi_metadata : list (string * json);
  pi_observedAt : Z;
  pi_requestId : string;
  pi_sourceApiKeyId : option string;
  pi_dedupeKey : string }.

(** A plan's status is ['pending' | 'disabled']: [cp_enabled] is the former. *)
Record SettlementCallbackPlan := {
  cp_targetUrl : string;
  cp_requestId : string;
  cp_enabled : bool;
  cp_nextAttemptAt : Z;
  cp_buildRequestBody :
    SettlementHandoffRecord -> SettlementExecutionEventRecord -> result GatewayError json }.

Record TradeSettlementProjection := {
  tp_handoffId : string;
  tp_platformId : string;
  tp_platformHandoffId : string;
  tp_phase : string;
  tp_settlementChannel : string;
  tp_displayCurrency : string;
  tp_displayAmount : string;
  tp_executionStatus : SettlementExecutionStatus;
  tp_reconciliationStatus : SettlementReconciliationStatus;
  tp_callbackStatus : SettlementCallbackStatus;
  tp_providerStatus : option string;
  tp_txHash : option string;
  tp_externalReference : option string;
  tp_latestEventType : option SettlementEventType;
  tp_latestEventDetail : option string;
  tp_latestEventAt : option Z;
  tp_callbackDeliveredAt : option Z;
  tp_createdAt : Z;
  tp_updatedAt : Z }.

Record ListSettlementHandoffsInput := {
  li_tradeId : option string;
  li_reconciliationStatus : option SettlementReconciliationStatus;
  li_executionStatus : option SettlementExecutionStatus;
  li_limit : Z;
  li_offset : Z }.

Lemma requireEventType_not_orphaned v t :
  requireEventType v = Ok t -> t <> e_chain_evidence_orphaned.
Proof.
  unfold requireEventType. intros H. inv_ok. reflect_bools. intros ->.
  match goal with H : lookup_literal _ _ = _ |- _ => revert H end.
  cbn [lookup_literal SETTLEMENT_EVENT_TYPES].
  repeat match goal with |- context [String.eqb ?a ?b] =>
    destruct (String.eqb_spec a b); [congruence|] end.
  done.
Qed.
