(* ===== verification/SettlementMachine.v ===== *)
(** The settlement execution state machine:
    gateway/src/core/settlementStateMachine.ts and settlementFinality.ts, with
    the guard of the execution-event ingress in gateway/src/routes/settlement.ts. *)
From stdpp Require Import base list gmap strings.
From S2P Require Import Prelude JsText Finality SettlementTypes.

Open Scope string_scope.
Open Scope Z_scope.

(** ** Positions of the shared finality model (settlementFinality.ts) *)

Definition UNKNOWN : TransactionFinalityPosition := {| pos_state := fs_unknown; pos_final := false |}.
Definition NEVER_BROADCAST : TransactionFinalityPosition :=
  {| pos_state := fs_failed; pos_final := true |}.

Definition SETTLEMENT_EXECUTION_FINALITY (s : SettlementExecutionStatus)
    : option TransactionFinalityPosition :=
  match s with
  | x_pending | x_accepted | x_queued => None
  | x_broadcast_unknown => Some UNKNOWN
  | x_confirmation_pending => Some UNKNOWN
  | x_submitted => Some {| pos_state := fs_submitted; pos_final := false |}
  | x_confirmed => Some {| pos_state := fs_finalized; pos_final := true |}
  | x_reverted => Some {| pos_state := fs_reverted; pos_final := true |}
  | x_replaced => Some {| pos_state := fs_replaced; pos_final := false |}
  | x_failed => Some NEVER_BROADCAST
  | x_rejected => Some NEVER_BROADCAST
  end.

Inductive GaslessTransactionOutcomeStatus :=
| g_broadcast_pending | g_broadcast_unknown | g_confirmation_pending
| g_confirmed | g_reverted | g_replaced | g_failed.

Definition GASLESS_OUTCOME_FINALITY (s : GaslessTransactionOutcomeStatus)
    : TransactionFinalityPosition :=
  match s with
  | g_broadcast_pending => UNKNOWN
  | g_broadcast_unknown => UNKNOWN
  | g_confirmation_pending => UNKNOWN
  | g_confirmed => {| pos_state := fs_finalized; pos_final := true |}
  | g_reverted => {| pos_state := fs_reverted; pos_final := true |}
  | g_replaced => {| pos_state := fs_replaced; pos_final := false |}
  | g_failed => NEVER_BROADCAST
  end.

Definition GATEWAY_VERIFIED_EXECUTION_STATUSES : list SettlementExecutionStatus :=
  [x_confirmed; x_reverted; x_replaced].

Definition NON_MUTATING_EVENT_TYPES : list SettlementEventType := [e_reconciled; e_drift_detected].

Definition isServiceReportableExecution (eventType : SettlementEventType)
    (executionStatus : SettlementExecutionStatus) : bool :=
  negb (includes GATEWAY_VERIFIED_EXECUTION_STATUSES executionStatus)
  || includes NON_MUTATING_EVENT_TYPES eventType.

(** ** The transition table (settlementStateMachine.ts) *)

Definition EXECUTION_TRANSITIONS (s : SettlementExecutionStatus) : list SettlementExecutionStatus :=
  match s with
  | x_pending => [x_accepted; x_queued; x_broadcast_unknown; x_confirmation_pending; x_submitted;
                  x_failed; x_rejected]
  | x_accepted => [x_queued; x_broadcast_unknown; x_confirmation_pending; x_submitted;
                   x_failed; x_rejected]
  | x_queued => [x_broadcast_unknown; x_confirmation_pending; x_submitted; x_failed; x_rejected]
  | x_broadcast_unknown => [x_confirmation_pending; x_confirmed; x_reverted; x_replaced]
  | x_confirmation_pending => [x_confirmed; x_reverted; x_replaced]
  | x_submitted => [x_confirmation_pending; x_confirmed; x_reverted; x_replaced]
  | x_confirmed => [x_confirmed]
  | x_reverted => [x_reverted]
  | x_replaced => [x_replaced]
  | x_failed => [x_failed]
  | x_rejected => [x_rejected]
  end.

Definition RECONCILIATION_EVENT_TYPES : list SettlementEventType := [e_reconciled; e_drift_detected].
Definition NON_MUTATING_EXECUTION_EVENT_TYPES : list SettlementEventType :=
  [e_simulation_completed].

Definition validateExecutionTransition (current next : SettlementExecutionStatus)
    (eventType : SettlementEventType) : result GatewayError unit :=
  let conflict := gatewayError 409 CONFLICT in
  if bool_decide (eventType = e_chain_evidence_orphaned) then
    throw_if (negb (includes [x_confirmed; x_reverted; x_confirmation_pending] current)
              || negb (bool_decide (next = x_confirmation_pending)))
      (conflict "Chain canonicality loss must retain the original operation for reconciliation")
  else if includes RECONCILIATION_EVENT_TYPES eventType then
    _ ← throw_if (negb (bool_decide (current = x_confirmed)))
          (conflict "Reconciliation events require a confirmed settlement handoff");
    throw_if (negb (bool_decide (next = current)))
      (conflict "Reconciliation events cannot mutate settlement execution state")
  else if includes NON_MUTATING_EXECUTION_EVENT_TYPES eventType then
    throw_if (negb (bool_decide (next = current)))
      (conflict "Execution telemetry events cannot mutate settlement execution state")
  else if bool_decide (current = next) then Ok tt
  else
    throw_if (negb (includes (EXECUTION_TRANSITIONS current) next)
              || match SETTLEMENT_EXECUTION_FINALITY current, SETTLEMENT_EXECUTION_FINALITY next with
                 | Some from, Some to => negb (canTransitionTransactionFinality (Some from) to)
                 | _, _ => false
                 end)
      (conflict "Settlement execution event violates the handoff state machine").

(** ** The ingress guard (routes/settlement.ts, execution-events) *)

Definition ingress_event (eventType executionStatus : json)
    : result GatewayError (SettlementExecutionStatus * SettlementEventType) :=
  s ← requireExecutionStatus executionStatus;
  t ← requireEventType eventType;
  _ ← throw_if (negb (isServiceReportableExecution t s))
        (gatewayError 409 CONFLICT
           "Chain outcomes are recorded only from gateway-verified finalized evidence");
  Ok (s, t).

(** ** Runs

    A handoff moves by a sequence of accepted execution events; an event that is
    refused leaves it where it is. *)

Inductive accepted (s : SettlementExecutionStatus) :
    SettlementExecutionStatus * SettlementEventType -> SettlementExecutionStatus -> Prop :=
| accepted_event next t :
    validateExecutionTransition s next t = Ok tt -> accepted s (next, t) next.

Inductive run : SettlementExecutionStatus ->
    list (SettlementExecutionStatus * SettlementEventType) -> SettlementExecutionStatus -> Prop :=
| run_nil s : run s [] s
| run_cons s e s' es s'' : accepted s e s' -> run s' es s'' -> run s (e :: es) s''.

(** A run preserves every predicate each accepted event preserves. *)
Lemma run_invariant (P : SettlementExecutionStatus -> Prop) s es s' :
  (forall a e b, accepted a e b -> e ∈ es -> P a -> P b) ->
  run s es s' -> P s -> P s'.
Proof.
  intros Hstep Hr. induction Hr as [|s e s1 es s2 He Hr IH]; [done|].
  intros Hs. apply IH.
  - intros a e' b Ha Hin. apply (Hstep a e' b Ha). by right.
  - eapply Hstep; [exact He| |done]. left.
Qed.

(** Statuses of a handoff whose transaction may have reached the network. *)
Definition maybe_on_network (s : SettlementExecutionStatus) : bool :=
  match s with
  | x_broadcast_unknown | x_confirmation_pending | x_submitted
  | x_confirmed | x_reverted | x_replaced => true
  | _ => false
  end.

Definition terminal (s : SettlementExecutionStatus) : bool :=
  match s with x_replaced | x_failed | x_rejected => true | _ => false end.

Ltac accepted_cases H :=
  let t := fresh "t" in let next := fresh "next" in let Hv := fresh "Hv" in
  inversion H as [next t Hv]; subst; revert Hv.

Lemma accepted_on_network a e b :
  accepted a e b -> maybe_on_network a = true -> maybe_on_network b = true.
Proof. intros H. accepted_cases H. destruct a, b, t; by vm_compute. Qed.

Lemma accepted_terminal a e b : accepted a e b -> terminal a = true -> b = a.
Proof. intros H. accepted_cases H. destruct a, b, t; by vm_compute. Qed.

Lemma accepted_leaves_final a e b :
  accepted a e b -> a = x_confirmed \/ a = x_reverted ->
  b = a \/ (b = x_confirmation_pending /\ snd e = e_chain_evidence_orphaned).
Proof.
  intros H. accepted_cases H. intros Hv [-> | ->]; revert Hv; destruct b, t; vm_compute;
    intros Hv; try discriminate Hv; auto.
Qed.

Lemma accepted_service a e b :
  accepted a e b -> isServiceReportableExecution (snd e) (fst e) = true ->
  a ∉ GATEWAY_VERIFIED_EXECUTION_STATUSES -> b ∉ GATEWAY_VERIFIED_EXECUTION_STATUSES.
Proof.
  intros H. accepted_cases H. simpl. rewrite <- !includes_false.
  destruct a, b, t; vm_compute; intros Hv; try discriminate Hv; congruence.
Qed.

(** Once a handoff's transaction may have reached the network, no sequence of
    accepted events ever records it as failed or rejected (never broadcast). *)
Theorem on_network_never_failed s es s' :
  run s es s' -> maybe_on_network s = true -> s' <> x_failed /\ s' <> x_rejected.
Proof.
  intros Hr Hs.
  assert (maybe_on_network s' = true) as H.
  { apply (run_invariant (fun s => maybe_on_network s = true) s es s'); [|done..].
    intros a e b Ha _. by apply (accepted_on_network a e b). }
  destruct s'; simpl in H; split; congruence.
Qed.

Lemma on_network_never_failed_witness :
  run x_submitted [(x_confirmation_pending, e_confirmation_pending);
                   (x_confirmed, e_confirmed); (x_confirmed, e_reconciled)] x_confirmed /\
  x_confirmed <> x_failed.
Proof.
  assert (H : run x_submitted [(x_confirmation_pending, e_confirmation_pending);
                   (x_confirmed, e_confirmed); (x_confirmed, e_reconciled)] x_confirmed).
  { do 3 (eapply run_cons; [constructor; vm_compute; reflexivity|]). constructor. }
  split; [exact H|].
  exact (proj1 (on_network_never_failed _ _ _ H eq_refl)).
Defined.

(** [failed], [rejected] and [replaced] absorb every accepted event, and a
    [confirmed] or [reverted] handoff keeps its status along every sequence of
    accepted events that contains no loss of chain canonicality. *)
Theorem settled_statuses_stick s es s' :
  run s es s' ->
  (terminal s = true -> s' = s) /\
  (s = x_confirmed \/ s = x_reverted ->
   Forall (fun e => snd e <> e_chain_evidence_orphaned) es -> s' = s).
Proof.
  intros Hr. split.
  - intros Ht. apply (run_invariant (fun b => b = s) s es s'); [|done..].
    intros a e b Ha _ ->. by apply (accepted_terminal s e b).
  - intros Hs Hes. apply (run_invariant (fun b => b = s) s es s'); [|done..].
    intros a e b Ha Hin ->. rewrite Forall_forall in Hes. specialize (Hes e Hin).
    destruct (accepted_leaves_final s e b Ha Hs) as [?|[_ ?]]; congruence.
Qed.

Lemma settled_statuses_stick_witness :
  run x_confirmed [(x_confirmed, e_drift_detected)] x_confirmed /\ x_confirmed = x_confirmed.
Proof.
  assert (H : run x_confirmed [(x_confirmed, e_drift_detected)] x_confirmed).
  { eapply run_cons; [constructor; vm_compute; reflexivity|]. constructor. }
  split; [exact H|].
  apply (proj2 (settled_statuses_stick _ _ _ H)); [by left|].
  constructor; [discriminate | constructor].
Defined.

Lemma ingress_event_reportable v w s t :
  ingress_event v w = Ok (s, t) ->
  isServiceReportableExecution t s = true /\ t <> e_chain_evidence_orphaned.
Proof.
  unfold ingress_event. intros H. inv_ok. reflect_bools. split; [done|].
  eapply requireEventType_not_orphaned; eauto.
Qed.

(** No sequence of events a service caller can post through the ingress
    moves a handoff into a chain outcome ([confirmed], [reverted], [replaced]),
    nor out of one: those are reserved to the gateway's verified paths. *)
Theorem ingress_cannot_move_chain_outcomes s es s' :
  Forall (fun e => exists v w, ingress_event v w = Ok e) es ->
  run s es s' ->
  (s' ∈ GATEWAY_VERIFIED_EXECUTION_STATUSES -> s' = s) /\
  (s ∈ GATEWAY_VERIFIED_EXECUTION_STATUSES -> s' = s).
Proof.
  intros Hes Hr. rewrite Forall_forall in Hes.
  assert (Hin : s ∈ GATEWAY_VERIFIED_EXECUTION_STATUSES -> s' = s).
  { intros Hs. apply (run_invariant (fun b => b = s) s es s'); [|done..].
    intros a [n t] b Ha Hin ->. destruct (Hes _ Hin) as (v & w & Hi).
    apply ingress_event_reportable in Hi as [_ Ht].
    destruct (decide (s = x_replaced)) as [->|Hn]; [by apply (accepted_terminal _ _ _ Ha)|].
    destruct (accepted_leaves_final s (n, t) b Ha) as [?|[_ ?]]; [|done..].
    unfold GATEWAY_VERIFIED_EXECUTION_STATUSES in Hs. set_solver. }
  split; [|done]. intros Hs'.
  destruct (decide (s ∈ GATEWAY_VERIFIED_EXECUTION_STATUSES)) as [Hs|Hs]; [auto|].
  exfalso. revert Hs'.
  apply (run_invariant (fun b => b ∉ GATEWAY_VERIFIED_EXECUTION_STATUSES) s es s'); [|done..].
  intros a [n t] b Ha Hin'. destruct (Hes _ Hin') as (v & w & Hi).
  apply ingress_event_reportable in Hi as [Hr' _]. by apply (accepted_service a (n, t) b).
Qed.

Lemma ingress_cannot_move_chain_outcomes_witness :
  run x_pending [(x_accepted, e_accepted); (x_submitted, e_submitted)] x_submitted /\
  (x_submitted ∈ GATEWAY_VERIFIED_EXECUTION_STATUSES -> x_submitted = x_pending).
Proof.
  assert (H : run x_pending [(x_accepted, e_accepted); (x_submitted, e_submitted)] x_submitted).
  { do 2 (eapply run_cons; [constructor; vm_compute; reflexivity|]). constructor. }
  split; [exact H|].
  apply (proj1 (ingress_cannot_move_chain_outcomes _ _ _
    (Forall_cons_2 (fun e => exists v w, ingress_event v w = Ok e) _ _
       (ex_intro _ (JStr "accepted") (ex_intro _ (JStr "accepted") eq_refl))
       (Forall_cons_2 _ _ _
          (ex_intro _ (JStr "submitted") (ex_intro _ (JStr " submitted ") eq_refl))
          (Forall_nil_2 _))) H)).
Defined.

(** Every edge of the transition table between statuses that claim a finality
    position is legal in the shared finality model, so the second condition of
    the guard never refuses what the table allows; and along accepted events
    the claimed positions move as that model allows, loss of canonicality
    excepted. *)
Theorem transitions_respect_finality_model current next :
  (next ∈ EXECUTION_TRANSITIONS current ->
   forall t, t ∉ RECONCILIATION_EVENT_TYPES -> t ∉ NON_MUTATING_EXECUTION_EVENT_TYPES ->
     t <> e_chain_evidence_orphaned -> validateExecutionTransition current next t = Ok tt) /\
  (forall t from to, validateExecutionTransition current next t = Ok tt ->
     t <> e_chain_evidence_orphaned ->
     SETTLEMENT_EXECUTION_FINALITY current = Some from ->
     SETTLEMENT_EXECUTION_FINALITY next = Some to ->
     canTransitionTransactionFinality (Some from) to = true).
Proof.
  split.
  - rewrite <- includes_true. intros Ht t. rewrite <- !includes_false.
    intros Hr Hn Ho. unfold validateExecutionTransition.
    rewrite Hr, Hn, Ht, bool_decide_eq_false_2 by done. simpl.
    revert Ht. destruct current, next; by vm_compute.
  - intros t from to Hv Ho. revert Hv Ho.
    destruct current, next; vm_compute; intros Hv Ho [= <-] [= <-]; try reflexivity;
    destruct t; try discriminate Hv; done.
Qed.
