(* ===== verification/SettlementAmount.v ===== *)
(** Settlement amounts: gateway/src/core/settlementAmount.ts.

    An amount is parsed once into its canonical fixed-scale decimal text
    ([1000.00]) and never rounded.  The JSON number of the v1 contracts is
    represented by the decimal text ECMAScript prints for it: within 15
    significant digits and at least 1e-6 that text is the shortest decimal of
    the same value, without exponent. *)
From stdpp Require Import base list gmap strings.
From S2P Require Import Prelude JsText SettlementTypes.

Open Scope string_scope.
Open Scope Z_scope.
#[local] Arguments String.append !_ _ / : simpl nomatch.

Record SettlementAmountSpec := { scale : nat; maxIntegerDigits : nat }.

Definition DISPLAY_AMOUNT_SPEC : SettlementAmountSpec := {| scale := 2; maxIntegerDigits := 13 |}.
Definition ASSET_AMOUNT_SPEC : SettlementAmountSpec := {| scale := 6; maxIntegerDigits := 9 |}.

Definition reject {A} (field : string) (spec : SettlementAmountSpec) : result GatewayError A :=
  Err (gatewayError 400 VALIDATION_ERROR
    (field ++ " must be a non-negative decimal with at most "
       ++ print_N (N.of_nat (maxIntegerDigits spec)) ++ " integer digits and "
       ++ print_N (N.of_nat (scale spec)) ++ " fractional digits")).

(** The text before and after the first dot. *)
Fixpoint split_dot (s : string) : option (string * string) :=
  match s with
  | EmptyString => None
  | String c r =>
      if Ascii.eqb c "." then Some ("", r)
      else match split_dot r with
           | Some (i, f) => Some (String c i, f)
           | None => None
           end
  end.

(** [DECIMAL_PATTERN.exec(text)]: the integer group and the fraction group, the
    latter empty when absent. *)
Definition DECIMAL_PATTERN (text : string) : option (string * string) :=
  match split_dot text with
  | None => if canonical_digits text then Some (text, "") else None
  | Some (i, f) => if canonical_digits i && digits_only f then Some (i, f) else None
  end.

(** A number that is not finite prints as [NaN] or [Infinity]; the source rejects
    it here, the model at the pattern, with the same error. *)
Definition decimalText (value : SettlementAmountInput) (field : string)
    (spec : SettlementAmountSpec) : result GatewayError string :=
  match value with
  | AmtText s => Ok s
  | AmtNumber r => Ok r
  | AmtOther => reject field spec
  end.

Definition parseSettlementAmount (value : SettlementAmountInput) (field : string)
    (spec : SettlementAmountSpec) : result GatewayError string :=
  text ← decimalText value field spec;
  match DECIMAL_PATTERN text with
  | None => reject field spec
  | Some (integerPart, fractionPart) =>
      if (scale spec <? String.length fractionPart)%nat then reject field spec
      else if (maxIntegerDigits spec <? String.length integerPart)%nat then reject field spec
      else Ok (integerPart ++ "." ++ padEnd (scale spec) "0" fractionPart)
  end.

Definition parseOptionalSettlementAmount (value : option SettlementAmountInput) (field : string)
    (spec : SettlementAmountSpec) : result GatewayError (option string) :=
  match value with
  | None => Ok None
  | Some v => c ← parseSettlementAmount v field spec; Ok (Some c)
  end.

(** A parsed JSON number is replaced by the text the caller sent. *)
Definition jsonSettlementAmountInput (value : SettlementAmountInput)
    (lexemes : option (gmap string string)) (field : string) (spec : SettlementAmountSpec)
    : result GatewayError SettlementAmountInput :=
  match value with
  | AmtNumber _ =>
      match (m ← lexemes; m !! field) with
      | Some lexeme => Ok (AmtText lexeme)
      | None => reject field spec
      end
  | v => Ok v
  end.

Fixpoint strip_zeros (s : string) : string :=
  match s with
  | EmptyString => ""
  | String c r =>
      let r' := strip_zeros r in
      if String.eqb r' "" && Ascii.eqb c "0" then "" else String c r'
  end.

(** [Number(canonical)], printed. *)
Definition settlementAmountToNumber (canonical : string) : string :=
  match split_dot canonical with
  | None => canonical
  | Some (i, f) => if truthy (strip_zeros f) then i ++ "." ++ strip_zeros f else i
  end.

Definition storedSettlementAmountToNumber (value field : string) (spec : SettlementAmountSpec)
    : result GatewayError string :=
  match parseSettlementAmount (AmtText value) field spec with
  | Ok c => Ok (settlementAmountToNumber c)
  | Err _ => Err (gatewayError 500 INTERNAL_ERROR "Stored settlement amount is invalid")
  end.

Record SettlementMonetaryIntent := {
  mi_displayCurrency : string;
  mi_displayAmount : string;
  mi_assetSymbol : option string;
  mi_assetAmount : option string }.

Definition assertSameMonetaryIntent (existing incoming : SettlementMonetaryIntent)
    : result GatewayError unit :=
  throw_if
    (negb (bool_decide (mi_displayCurrency existing = mi_displayCurrency incoming))
     || negb (bool_decide (mi_displayAmount existing = mi_displayAmount incoming))
     || negb (bool_decide (mi_assetSymbol existing = mi_assetSymbol incoming))
     || negb (bool_decide (mi_assetAmount existing = mi_assetAmount incoming)))
    (gatewayError 409 CONFLICT
       "Settlement handoff already exists with a different monetary intent").

(** ** Lemmas *)

Lemma digit_no_dot c : is_digit c = true -> Ascii.eqb c "." = false.
Proof. destruct c as [[] [] [] [] [] [] [] []]; vm_compute; congruence. Qed.

Lemma split_dot_app i f :
  all_chars is_digit i = true -> split_dot (i ++ String "." f) = Some (i, f).
Proof.
  induction i as [|c i IH]; simpl; [done|]. intros [Hc Hi]%andb_true_iff.
  by rewrite digit_no_dot, IH.
Qed.

Lemma split_dot_digits i : all_chars is_digit i = true -> split_dot i = None.
Proof.
  induction i as [|c i IH]; simpl; [done|]. intros [Hc Hi]%andb_true_iff.
  by rewrite digit_no_dot, IH.
Qed.

Lemma split_dot_some s i f : split_dot s = Some (i, f) -> s = i ++ String "." f.
Proof.
  revert i. induction s as [|c s IH]; intros i; simpl; [done|].
  destruct (Ascii.eqb_spec c ".") as [->|Hc]; [by intros [= <- <-]|].
  destruct (split_dot s) as [[i' f']|]; [|done]. intros [= <- <-].
  simpl. by rewrite (IH i').
Qed.

(** The spellings of a decimal with integer digits [i] and fraction digits [f]. *)
Lemma DECIMAL_PATTERN_some text i f :
  DECIMAL_PATTERN text = Some (i, f) <->
  canonical_digits i = true /\ all_chars is_digit f = true /\
  text = (if truthy f then i ++ String "." f else i).
Proof.
  unfold DECIMAL_PATTERN. split.
  - destruct (split_dot text) as [[i' f']|] eqn:E.
    + destruct (_ && _) eqn:Hc; [|done]. intros [= <- <-]. unfold digits_only in Hc.
      reflect_bools. repeat split; [done..|]. rewrite H0. by apply split_dot_some.
    + destruct (canonical_digits text) eqn:Hc; [|done]. by intros [= <- <-].
  - intros (Hi & Hf & ->). pose proof (canonical_digits_all _ Hi) as Hd.
    unfold digits_only. destruct (truthy f) eqn:Ht.
    + by rewrite split_dot_app, Hi, Ht, Hf.
    + rewrite split_dot_digits, Hi by done. unfold truthy in Ht. by reflect_bools; subst.
Qed.

Lemma parse_ok v field spec c :
  parseSettlementAmount v field spec = Ok c <->
  exists text i f, decimalText v field spec = Ok text /\
    DECIMAL_PATTERN text = Some (i, f) /\
    (String.length f <= scale spec)%nat /\ (String.length i <= maxIntegerDigits spec)%nat /\
    c = i ++ String "." (padEnd (scale spec) "0" f).
Proof.
  unfold parseSettlementAmount. rewrite bind_ok. split.
  - intros (text & Ht & H). destruct (DECIMAL_PATTERN text) as [[i f]|] eqn:E; [|done].
    destruct (Nat.ltb_spec (scale spec) (String.length f)); [done|].
    destruct (Nat.ltb_spec (maxIntegerDigits spec) (String.length i)); [done|].
    injection H as <-. exists text, i, f. auto.
  - intros (text & i & f & Ht & HD & Hf & Hi & ->). exists text. split; [done|]. rewrite HD.
    destruct (Nat.ltb_spec (scale spec) (String.length f)); [lia|].
    destruct (Nat.ltb_spec (maxIntegerDigits spec) (String.length i)); [lia|]. done.
Qed.

(** The canonical texts of a scale: the values the store keeps. *)
Definition canonical_amount (spec : SettlementAmountSpec) (c : string) : Prop :=
  exists i f, c = i ++ String "." f /\ canonical_digits i = true /\ all_chars is_digit f = true /\
    String.length f = scale spec /\ (String.length i <= maxIntegerDigits spec)%nat.

Lemma all_chars_padEnd n f :
  all_chars is_digit f = true -> all_chars is_digit (padEnd n "0" f) = true.
Proof. intros Hf. unfold padEnd. by rewrite all_chars_app, Hf, all_chars_repeat. Qed.

Lemma parse_canonical v field spec c :
  parseSettlementAmount v field spec = Ok c -> canonical_amount spec c.
Proof.
  intros (text & i & f & _ & HD & Hf & Hi & ->)%parse_ok.
  apply DECIMAL_PATTERN_some in HD as (Hic & Hfd & _).
  exists i, (padEnd (scale spec) "0" f). repeat split; auto using all_chars_padEnd, padEnd_length.
Qed.

Lemma strip_zeros_app n s : strip_zeros (s ++ repeat_char n "0") = strip_zeros s.
Proof.
  induction s as [|c s IH]; simpl; [|by rewrite IH]. induction n as [|n IH]; simpl; [done|].
  by rewrite IH.
Qed.

Lemma strip_zeros_pad s : exists n, s = strip_zeros s ++ repeat_char n "0".
Proof.
  induction s as [|c s [n IH]]; simpl; [by exists 0%nat|].
  destruct (String.eqb_spec (strip_zeros s) ""); simpl.
  - destruct (Ascii.eqb_spec c "0") as [->|]; [exists (S n)|exists n]; simpl; rewrite IH at 1;
      by rewrite e.
  - exists n. simpl. by rewrite IH at 1.
Qed.

Lemma strip_zeros_length s : (String.length (strip_zeros s) <= String.length s)%nat.
Proof.
  destruct (strip_zeros_pad s) as [n H]. rewrite H at 2. rewrite string_length_app. lia.
Qed.

Lemma strip_zeros_digits s : all_chars is_digit s = true -> all_chars is_digit (strip_zeros s) = true.
Proof.
  destruct (strip_zeros_pad s) as [n H]. rewrite H at 1. rewrite all_chars_app.
  by intros [? _]%andb_true_iff.
Qed.

Lemma padEnd_strip_zeros s : padEnd (String.length s) "0" (strip_zeros s) = s.
Proof.
  destruct (strip_zeros_pad s) as [n H]. unfold padEnd.
  replace (String.length s - String.length (strip_zeros s))%nat with n; [done|].
  rewrite H at 1. rewrite string_length_app, string_length_repeat. lia.
Qed.

Lemma padEnd_full s : padEnd (String.length s) "0" s = s.
Proof. unfold padEnd. rewrite Nat.sub_diag. apply string_app_nil_r. Qed.

Lemma toNumber_spec i f :
  all_chars is_digit i = true ->
  settlementAmountToNumber (i ++ String "." f) =
  (if truthy (strip_zeros f) then i ++ String "." (strip_zeros f) else i).
Proof. intros Hi. unfold settlementAmountToNumber. by rewrite split_dot_app. Qed.

(** The amount in minor units of its scale, as [BigInt(text.replace('.', ''))]. *)
Definition minor_units (c : string) : N :=
  match split_dot c with
  | Some (i, f) => digits_value (i ++ f)
  | None => digits_value c
  end.

Lemma minor_units_parts i f :
  all_chars is_digit i = true -> minor_units (i ++ String "." f) = digits_value (i ++ f).
Proof. intros Hi. unfold minor_units. by rewrite split_dot_app. Qed.

(** Every decimal numeral of a given fraction width is determined by its value. *)
Lemma canonical_amount_inj spec c c' :
  canonical_amount spec c -> canonical_amount spec c' -> minor_units c = minor_units c' -> c = c'.
Proof.
  intros (i & f & -> & Hi & Hf & Hl & _) (i' & f' & -> & Hi' & Hf' & Hl' & _).
  rewrite !minor_units_parts by (by apply canonical_digits_all).
  rewrite !digits_value_app, Hl, Hl'. intros H.
  pose proof (digits_value_bound f Hf) as B. pose proof (digits_value_bound f' Hf') as B'.
  rewrite Hl in B. rewrite Hl' in B'.
  set (k := (10 ^ N.of_nat (scale spec))%N) in *.
  assert (digits_value i = digits_value i' /\ digits_value f = digits_value f') as [E1 E2]
    by (apply (N.div_mod_unique k); lia).
  apply canonical_digits_inj in E1 as ->; [|done..]. do 2 f_equal.
  assert (String "1" f = String "1" f') as E; [|by injection E].
  apply canonical_digits_inj; [done..|].
  change (String "1" f) with ("1" ++ f). change (String "1" f') with ("1" ++ f').
  rewrite !digits_value_app, Hl, Hl'. lia.
Qed.

(** C38. Parsing accepts exactly the canonical non-negative decimals within the
    scale and integer width of the specification, never rounds them and never
    produces more digits than the specification has (integer digits plus scale,
    15 for both specifications in use): the result is the fixed-scale
    text of the same value. *)
Theorem parseSettlementAmount_exact v field spec c :
  parseSettlementAmount v field spec = Ok c <->
  exists i f, decimalText v field spec = Ok (if truthy f then i ++ "." ++ f else i) /\
    canonical_digits i = true /\ all_chars is_digit f = true /\
    (String.length f <= scale spec)%nat /\ (String.length i <= maxIntegerDigits spec)%nat /\
    canonical_amount spec c /\
    (minor_units c = digits_value (i ++ f) * 10 ^ N.of_nat (scale spec - String.length f))%N /\
    (minor_units c < 10 ^ N.of_nat (maxIntegerDigits spec + scale spec))%N.
Proof.
  split.
  - intros H. pose proof (parse_canonical _ _ _ _ H) as Hc.
    apply parse_ok in H as (text & i & f & Ht & HD & Hf & Hi & ->).
    apply DECIMAL_PATTERN_some in HD as (Hic & Hfd & ->). exists i, f.
    assert (minor_units (i ++ String "." (padEnd (scale spec) "0" f)) =
            digits_value (i ++ f) * 10 ^ N.of_nat (scale spec - String.length f))%N as Hm.
    { rewrite minor_units_parts by (by apply canonical_digits_all). unfold padEnd.
      rewrite <- string_app_assoc, (digits_value_app (i ++ f)), digits_value_zeros, string_length_repeat. lia. }
    split_and!; try done. rewrite minor_units_parts by (by apply canonical_digits_all).
    eapply N.lt_le_trans; [apply digits_value_bound|].
    + rewrite all_chars_app, all_chars_padEnd, canonical_digits_all; done.
    + rewrite string_length_app, padEnd_length by done. apply N.pow_le_mono_r; lia.
  - intros (i & f & Ht & Hic & Hfd & Hf & Hi & Hc & Hm & _). apply parse_ok.
    exists (if truthy f then i ++ "." ++ f else i), i, f.
    split_and!; [done| |done|done|].
    + by apply DECIMAL_PATTERN_some.
    + apply (canonical_amount_inj spec); [done| |].
      * exists i, (padEnd (scale spec) "0" f).
        repeat split; auto using all_chars_padEnd, padEnd_length.
      * rewrite Hm, minor_units_parts by (by apply canonical_digits_all). unfold padEnd.
        rewrite <- string_app_assoc, (digits_value_app (i ++ f)), digits_value_zeros, string_length_repeat. lia.
Qed.

Lemma parse_canonical_id spec c field :
  (0 < scale spec)%nat -> canonical_amount spec c ->
  parseSettlementAmount (AmtText c) field spec = Ok c.
Proof.
  intros Hs (i & f & -> & Hi & Hf & Hl & Hm). apply parse_ok.
  exists (i ++ String "." f), i, f. split; [done|]. split.
  - apply DECIMAL_PATTERN_some. split_and!; [done..|]. by destruct f; simpl in *; [lia|].
  - rewrite <- Hl, padEnd_full. repeat split; lia || done.
Qed.

Lemma parse_number_roundtrip spec c field :
  canonical_amount spec c ->
  parseSettlementAmount (AmtNumber (settlementAmountToNumber c)) field spec = Ok c.
Proof.
  intros (i & f & -> & Hi & Hf & Hl & Hm). apply parse_ok.
  exists (settlementAmountToNumber (i ++ String "." f)), i, (strip_zeros f). split; [done|].
  pose proof (strip_zeros_length f). split_and!; [|lia|lia|].
  - apply DECIMAL_PATTERN_some. split_and!; [done|by apply strip_zeros_digits|].
    apply toNumber_spec. by apply canonical_digits_all.
  - by rewrite <- Hl, padEnd_strip_zeros.
Qed.

(** Round trip: an amount that was parsed, kept as a JSON number and parsed
    again is the same canonical amount, and so is one re-read from its stored
    text; the stored-amount reader never refuses a value the parser produced. *)
Theorem settlement_amount_roundtrip v field spec c :
  (0 < scale spec)%nat ->
  parseSettlementAmount v field spec = Ok c ->
  parseSettlementAmount (AmtNumber (settlementAmountToNumber c)) field spec = Ok c /\
  parseSettlementAmount (AmtText c) field spec = Ok c /\
  storedSettlementAmountToNumber c field spec = Ok (settlementAmountToNumber c).
Proof.
  intros Hs H%parse_canonical. unfold storedSettlementAmountToNumber.
  by rewrite parse_number_roundtrip, parse_canonical_id.
Qed.

Lemma settlement_amount_roundtrip_witness :
  parseSettlementAmount (AmtText "1000.5") "displayAmount" DISPLAY_AMOUNT_SPEC = Ok "1000.50" /\
  settlementAmountToNumber "1000.50" = "1000.5" /\
  parseSettlementAmount (AmtNumber "1000.5") "displayAmount" DISPLAY_AMOUNT_SPEC = Ok "1000.50".
Proof.
  split; [vm_compute; reflexivity|]. split; [vm_compute; reflexivity|].
  refine (proj1 (settlement_amount_roundtrip (AmtText "1000.5") "displayAmount"
    DISPLAY_AMOUNT_SPEC "1000.50" _ _)); [simpl; lia | vm_compute; reflexivity].
Defined.
