(* ===== verification/SettlementStore.v ===== *)
(** The settlement store: gateway/src/core/inMemorySettlementStore.ts, the
    implementation of the [SettlementStore] interface
    (gateway/src/core/settlementStoreTypes.ts) whose source is TypeScript alone.

    The five JS maps of the closure are the fields of [store].  Every operation
    is a function of the store; the clock readings ([new Date()]) and the random
    identifiers ([randomUUID()]) it consumes are arguments.  Records are handed
    in and out through [structuredClone], so values are never shared with
    callers. *)
From stdpp Require Import base list gmap strings.
From S2P Require Import Prelude JsText JsMap SettlementTypes SettlementMachine SettlementAmount.

Open Scope string_scope.
Open Scope Z_scope.

Record store := {
  handoffs : jsmap SettlementHandoffRecord;
  platformIndex : jsmap string;
  events : jsmap (list SettlementExecutionEventRecord);
  eventDedupeIndex : jsmap string;
  deliveries : jsmap SettlementCallbackDeliveryRecord }.

Definition platform_key (platformId platformHandoffId : string) : string :=
  platformId ++ ":" ++ platformHandoffId.

Definition dedupe_key (handoffId dedupeKey : string) : string := handoffId ++ ":" ++ dedupeKey.

(** [createInMemorySettlementStore(initialHandoffs)] *)
Definition createInMemorySettlementStore (initialHandoffs : list SettlementHandoffRecord) : store :=
  {| handoffs := fold_left (fun m r => map_set (h_handoffId r) r m) initialHandoffs [];
     platformIndex :=
       fold_left (fun m r => map_set (platform_key (h_platformId r) (h_platformHandoffId r))
                               (h_handoffId r) m) initialHandoffs [];
     events := []; eventDedupeIndex := []; deliveries := [] |}.

Definition set_handoff (r : SettlementHandoffRecord) (id : string) (s : store) : store :=
  {| handoffs := map_set id r (handoffs s); platformIndex := platformIndex s;
     events := events s; eventDedupeIndex := eventDedupeIndex s; deliveries := deliveries s |}.

Definition set_delivery (d : SettlementCallbackDeliveryRecord) (id : string) (s : store) : store :=
  {| handoffs := handoffs s; platformIndex := platformIndex s; events := events s;
     eventDedupeIndex := eventDedupeIndex s; deliveries := map_set id d (deliveries s) |}.

(** A property read on [undefined], surfaced by the error middleware as a 500. *)
Definition TypeError : GatewayError := gatewayError 500 INTERNAL_ERROR "TypeError".

(** ** Handoffs *)

Definition intent_of (displayCurrency : string) (displayAmount : SettlementAmountInput)
    (assetSymbol : option string) (assetAmount : option SettlementAmountInput)
    : result GatewayError SettlementMonetaryIntent :=
  d ← parseSettlementAmount displayAmount "displayAmount" DISPLAY_AMOUNT_SPEC;
  a ← parseOptionalSettlementAmount assetAmount "assetAmount" ASSET_AMOUNT_SPEC;
  Ok {| mi_displayCurrency := displayCurrency; mi_displayAmount := d;
        mi_assetSymbol := assetSymbol; mi_assetAmount := a |}.

Definition existing_intent (r : SettlementHandoffRecord)
    : result GatewayError SettlementMonetaryIntent :=
  intent_of (h_displayCurrency r) (AmtNumber (h_displayAmount r)) (h_assetSymbol r)
    (AmtNumber <$> h_assetAmount r).

Definition GASLESS : string := "gasless_create_trade".

(** The guards of a replayed [createHandoff]. *)
Definition check_replay (existing : SettlementHandoffRecord) (input : CreateSettlementHandoffInput)
    (intent : SettlementMonetaryIntent) : result GatewayError unit :=
  _ ← throw_if (negb (bool_decide (h_sourceApiKeyId existing = ci_sourceApiKeyId input)))
        (gatewayError 403 FORBIDDEN "Handoff belongs to another service identity");
  _ ← throw_if
        ((String.eqb (ci_phase input) GASLESS || String.eqb (h_phase existing) GASLESS)
         && (negb (match ci_sourceApiKeyId input with Some k => truthy k | None => false end)
             || negb (strict_eq deep_equal (h_executionBinding existing) (ci_executionBinding input))
             || negb (String.eqb (h_phase existing) (ci_phase input))
             || negb (String.eqb (h_tradeId existing) (ci_tradeId input))
             || negb (strict_eq String.eqb (h_ricardianHash existing) (ci_ricardianHash input))
             || negb (strict_eq String.eqb (h_externalReference existing)
                        (ci_externalReference input))))
        (gatewayError 409 CONFLICT "Handoff key belongs to a different execution binding");
  e ← existing_intent existing;
  assertSameMonetaryIntent e intent.

Definition new_handoff (input : CreateSettlementHandoffInput) (intent : SettlementMonetaryIntent)
    (now : Z) (uuid : string) : SettlementHandoffRecord :=
  {| h_handoffId := uuid;
     h_platformId := ci_platformId input;
     h_platformHandoffId := ci_platformHandoffId input;
     h_tradeId := ci_tradeId input;
     h_phase := ci_phase input;
     h_settlementChannel := ci_settlementChannel input;
     h_displayCurrency := ci_displayCurrency input;
     h_displayAmount := settlementAmountToNumber (mi_displayAmount intent);
     h_assetSymbol := mi_assetSymbol intent;
     h_assetAmount := settlementAmountToNumber <$> mi_assetAmount intent;
     h_ricardianHash := or_null (ci_ricardianHash input);
     h_externalReference := or_null (ci_externalReference input);
     h_metadata := ci_metadata input;
     h_executionBinding := or_null (ci_executionBinding input);
     h_executionStatus := x_pending;
     h_reconciliationStatus := rs_pending;
     h_callbackStatus := cb_pending;
     h_providerStatus := None;
     h_txHash := None;
     h_latestEventId := None;
     h_latestEventType := None;
     h_latestEventDetail := None;
     h_latestEventAt := None;
     h_callbackDeliveredAt := None;
     h_requestId := ci_requestId input;
     h_sourceApiKeyId := ci_sourceApiKeyId input;
     h_createdAt := now;
     h_updatedAt := now |}.

Definition createHandoff (input : CreateSettlementHandoffInput) (now : Z) (uuid : string)
    (s : store) : result GatewayError (store * SettlementHandoffRecord) :=
  intent ← intent_of (ci_displayCurrency input) (ci_displayAmount input) (ci_assetSymbol input)
             (ci_assetAmount input);
  let key := platform_key (ci_platformId input) (ci_platformHandoffId input) in
  let fresh :=
    let record := new_handoff input intent now uuid in
    Ok ({| handoffs := map_set (h_handoffId record) record (handoffs s);
           platformIndex := map_set key (h_handoffId record) (platformIndex s);
           events := events s; eventDedupeIndex := eventDedupeIndex s;
           deliveries := deliveries s |}, record) in
  match map_get key (platformIndex s) with
  | Some existingId =>
      if truthy existingId then
        match map_get existingId (handoffs s) with
        | None => Err TypeError
        | Some existing => _ ← check_replay existing input intent; Ok (s, existing)
        end
      else fresh
  | None => fresh
  end.

Definition getHandoff (handoffId : string) (s : store) : option SettlementHandoffRecord :=
  map_get handoffId (handoffs s).

Definition getHandoffByPlatformRef (platformId platformHandoffId : string) (s : store)
    : option SettlementHandoffRecord :=
  map_get (default "" (map_get (platform_key platformId platformHandoffId) (platformIndex s)))
    (handoffs s).

(** ** Execution events *)

Definition new_delivery (handoffId eventId : string) (callback : SettlementCallbackPlan)
    (body : json) (now : Z) (uuid : string) : SettlementCallbackDeliveryRecord :=
  {| dv_deliveryId := uuid; dv_handoffId := handoffId; dv_eventId := eventId;
     dv_targetUrl := cp_targetUrl callback; dv_requestBody := body;
     dv_status := if cp_enabled callback then dl_pending else dl_disabled;
     dv_attemptCount := 0; dv_nextAttemptAt := cp_nextAttemptAt callback;
     dv_lastAttemptedAt := None; dv_deliveredAt := None; dv_responseStatus := None;
     dv_lastError := None; dv_leaseOwner := None; dv_leaseExpiresAt := None;
     dv_requestId := cp_requestId callback; dv_createdAt := now; dv_updatedAt := now |}.

Definition with_callback (r : SettlementHandoffRecord) (st : SettlementCallbackStatus)
    (deliveredAt : option Z) (updatedAt : Z) : SettlementHandoffRecord :=
  {| h_executionBinding := h_executionBinding r; h_handoffId := h_handoffId r;
     h_platformId := h_platformId r; h_platformHandoffId := h_platformHandoffId r;
     h_tradeId := h_tradeId r; h_phase := h_phase r; h_settlementChannel := h_settlementChannel r;
     h_displayCurrency := h_displayCurrency r; h_displayAmount := h_displayAmount r;
     h_assetSymbol := h_assetSymbol r; h_assetAmount := h_assetAmount r;
     h_ricardianHash := h_ricardianHash r; h_externalReference := h_externalReference r;
     h_metadata := h_metadata r; h_executionStatus := h_executionStatus r;
     h_reconciliationStatus := h_reconciliationStatus r; h_callbackStatus := st;
     h_providerStatus := h_providerStatus r; h_txHash := h_txHash r;
     h_latestEventId := h_latestEventId r; h_latestEventType := h_latestEventType r;
     h_latestEventDetail := h_latestEventDetail r; h_latestEventAt := h_latestEventAt r;
     h_callbackDeliveredAt := deliveredAt; h_requestId := h_requestId r;
     h_sourceApiKeyId := h_sourceApiKeyId r; h_createdAt := h_createdAt r;
     h_updatedAt := updatedAt |}.

Definition new_event (input : PersistSettlementExecutionEventInput) (now : Z) (uuid : string)
    : SettlementExecutionEventRecord :=
  {| ev_eventId := uuid; ev_handoffId := pi_handoffId input; ev_eventType := pi_eventType input;
     ev_executionStatus := pi_executionStatus input;
     ev_reconciliationStatus := pi_reconciliationStatus input;
     ev_providerStatus := pi_providerStatus input; ev_txHash := pi_txHash input;
     ev_detail := pi_detail input; ev_metadata := pi_metadata input;
     ev_observedAt := pi_observedAt input; ev_requestId := pi_requestId input;
     ev_sourceApiKeyId := pi_sourceApiKeyId input; ev_createdAt := now |}.

(** [updatedHandoff]: the handoff after the event. *)
Definition apply_event (r : SettlementHandoffRecord) (input : PersistSettlementExecutionEventInput)
    (eventId : string) (now : Z) : SettlementHandoffRecord :=
  {| h_executionBinding := h_executionBinding r; h_handoffId := h_handoffId r;
     h_platformId := h_platformId r; h_platformHandoffId := h_platformHandoffId r;
     h_tradeId := h_tradeId r; h_phase := h_phase r; h_settlementChannel := h_settlementChannel r;
     h_displayCurrency := h_displayCurrency r; h_displayAmount := h_displayAmount r;
     h_assetSymbol := h_assetSymbol r; h_assetAmount := h_assetAmount r;
     h_ricardianHash := h_ricardianHash r; h_externalReference := h_externalReference r;
     h_metadata := h_metadata r;
     h_executionStatus := pi_executionStatus input;
     h_reconciliationStatus := pi_reconciliationStatus input;
     h_callbackStatus := match h_callbackStatus r with
                         | cb_disabled => cb_disabled | _ => cb_pending end;
     h_providerStatus := match pi_providerStatus input with
                         | Some p => Some p | None => h_providerStatus r end;
     h_txHash := match pi_txHash input with Some t => Some t | None => h_txHash r end;
     h_latestEventId := Some eventId;
     h_latestEventType := Some (pi_eventType input);
     h_latestEventDetail := pi_detail input;
     h_latestEventAt := Some (pi_observedAt input);
     h_callbackDeliveredAt := h_callbackDeliveredAt r; h_requestId := h_requestId r;
     h_sourceApiKeyId := h_sourceApiKeyId r; h_createdAt := h_createdAt r;
     h_updatedAt := now |}.

Record recorded := {
  rec_handoff : SettlementHandoffRecord;
  rec_event : SettlementExecutionEventRecord;
  rec_delivery : SettlementCallbackDeliveryRecord }.

(** The branch of [recordExecutionEvent] for an event the index already knows. *)
Definition replayEvent (input : PersistSettlementExecutionEventInput)
    (callback : SettlementCallbackPlan) (now : Z) (deliveryUuid existingEventId : string)
    (handoff : SettlementHandoffRecord) (s : store) : result GatewayError (store * recorded) :=
  match List.find (fun c => String.eqb (ev_eventId c) existingEventId)
          (default [] (map_get (pi_handoffId input) (events s))) with
  | None => Err (gatewayError 500 INTERNAL_ERROR "Settlement event dedupe index is inconsistent")
  | Some event =>
      match List.find (fun d => String.eqb (dv_eventId d) (ev_eventId event))
              (map_values (deliveries s)) with
      | Some delivery =>
          Ok (s, {| rec_handoff := handoff; rec_event := event; rec_delivery := delivery |})
      | None =>
          body ← cp_buildRequestBody callback handoff event;
          let delivery := new_delivery (pi_handoffId input) (ev_eventId event) callback body now
                            deliveryUuid in
          let handoff' := if cp_enabled callback then handoff
                          else with_callback handoff cb_disabled
                                 (h_callbackDeliveredAt handoff) now in
          let s1 := set_delivery delivery (dv_deliveryId delivery) s in
          let s2 := if cp_enabled callback then s1
                    else set_handoff handoff' (pi_handoffId input) s1 in
          Ok (s2, {| rec_handoff := handoff'; rec_event := event; rec_delivery := delivery |})
      end
  end.

Definition recordExecutionEvent (input : PersistSettlementExecutionEventInput)
    (callback : SettlementCallbackPlan) (now : Z) (eventUuid deliveryUuid : string) (s : store)
    : result GatewayError (store * recorded) :=
  match map_get (pi_handoffId input) (handoffs s) with
  | None => Err (gatewayError 404 NOT_FOUND "Settlement handoff not found")
  | Some handoff =>
      let key := dedupe_key (pi_handoffId input) (pi_dedupeKey input) in
      match (e ← map_get key (eventDedupeIndex s); if truthy e then Some e else None) with
      | Some existingEventId =>
          replayEvent input callback now deliveryUuid existingEventId handoff s
      | None =>
          _ ← validateExecutionTransition (h_executionStatus handoff) (pi_executionStatus input)
                (pi_eventType input);
          let event := new_event input now eventUuid in
          let updatedHandoff := apply_event handoff input (ev_eventId event) now in
          body ← cp_buildRequestBody callback updatedHandoff event;
          let delivery := new_delivery (pi_handoffId input) (ev_eventId event) callback body now
                            deliveryUuid in
          let finalHandoff :=
            if cp_enabled callback then updatedHandoff
            else with_callback updatedHandoff cb_disabled
                   (h_callbackDeliveredAt updatedHandoff) (h_updatedAt updatedHandoff) in
          let bucket := default [] (map_get (pi_handoffId input) (events s)) in
          Ok ({| handoffs := map_set (pi_handoffId input) finalHandoff (handoffs s);
                 platformIndex := platformIndex s;
                 events := map_set (pi_handoffId input) (event :: bucket) (events s);
                 eventDedupeIndex := map_set key (ev_eventId event) (eventDedupeIndex s);
                 deliveries := map_set (dv_deliveryId delivery) delivery (deliveries s) |},
              {| rec_handoff := finalHandoff; rec_event := event; rec_delivery := delivery |})
      end
  end.

Definition listExecutionEvents (handoffId : string) (s : store)
    : list SettlementExecutionEventRecord := default [] (map_get handoffId (events s)).

(** ** Callback deliveries *)

(** The readiness test shared by [getDueCallbackDeliveries] and
    [markCallbackDelivering]. *)
Definition delivery_ready (now : Z) (d : SettlementCallbackDeliveryRecord) : bool :=
  match dv_status d with
  | dl_pending | dl_failed => dv_nextAttemptAt d <=? now
  | dl_delivering =>
      match dv_leaseExpiresAt d with Some t => t <=? now | None => false end
  | _ => false
  end.

Definition due_at (d : SettlementCallbackDeliveryRecord) : Z :=
  default (dv_nextAttemptAt d) (dv_leaseExpiresAt d).

Definition getDueCallbackDeliveries (limit now : Z) (s : store)
    : list SettlementCallbackDeliveryRecord :=
  slice 0 limit
    (js_sort (fun l r => due_at l <=? due_at r)
       (List.filter (delivery_ready now) (map_values (deliveries s)))).

Definition getCallbackDelivery (deliveryId : string) (s : store)
    : option SettlementCallbackDeliveryRecord := map_get deliveryId (deliveries s).

(** A delivery after a change of status. *)
Definition delivery_update (d : SettlementCallbackDeliveryRecord) (st : DeliveryStatus)
    (attemptCount nextAttemptAt : Z) (lastAttemptedAt deliveredAt responseStatus : option Z)
    (lastError leaseOwner : option string) (leaseExpiresAt : option Z) (updatedAt : Z)
    : SettlementCallbackDeliveryRecord :=
  {| dv_deliveryId := dv_deliveryId d; dv_handoffId := dv_handoffId d;
     dv_eventId := dv_eventId d; dv_targetUrl := dv_targetUrl d;
     dv_requestBody := dv_requestBody d; dv_status := st; dv_attemptCount := attemptCount;
     dv_nextAttemptAt := nextAttemptAt; dv_lastAttemptedAt := lastAttemptedAt;
     dv_deliveredAt := deliveredAt; dv_responseStatus := responseStatus;
     dv_lastError := lastError; dv_leaseOwner := leaseOwner;
     dv_leaseExpiresAt := leaseExpiresAt; dv_requestId := dv_requestId d;
     dv_createdAt := dv_createdAt d; dv_updatedAt := updatedAt |}.

Definition claimed_delivery (d : SettlementCallbackDeliveryRecord) (leaseOwner : string)
    (attemptedAt leaseExpiresAt now : Z) : SettlementCallbackDeliveryRecord :=
  delivery_update d dl_delivering (dv_attemptCount d + 1) (dv_nextAttemptAt d) (Some attemptedAt)
    (dv_deliveredAt d) (dv_responseStatus d) (dv_lastError d) (Some leaseOwner)
    (Some leaseExpiresAt) now.

Definition markCallbackDelivering (deliveryId leaseOwner : string)
    (attemptedAt leaseExpiresAt now : Z) (s : store)
    : store * option SettlementCallbackDeliveryRecord :=
  match map_get deliveryId (deliveries s) with
  | Some d =>
      if delivery_ready attemptedAt d then
        let next := claimed_delivery d leaseOwner attemptedAt leaseExpiresAt now in
        (set_delivery next deliveryId s, Some next)
      else (s, None)
  | None => (s, None)
  end.

(** The delivery is being delivered under this lease. *)
Definition holds_lease (leaseOwner : string) (d : SettlementCallbackDeliveryRecord) : bool :=
  bool_decide (dv_status d = dl_delivering) && bool_decide (dv_leaseOwner d = Some leaseOwner).

(** Update the handoff of a delivery when the delivery is of its latest event. *)
Definition reflect_on_handoff (d : SettlementCallbackDeliveryRecord)
    (f : SettlementHandoffRecord -> SettlementHandoffRecord) (s : store) : store :=
  match map_get (dv_handoffId d) (handoffs s) with
  | Some h =>
      if bool_decide (h_latestEventId h = Some (dv_eventId d))
      then set_handoff (f h) (dv_handoffId d) s else s
  | None => s
  end.

Definition markCallbackDelivered (deliveryId leaseOwner : string)
    (completedAt responseStatus now1 now2 : Z) (s : store) : store * bool :=
  match map_get deliveryId (deliveries s) with
  | Some d =>
      if holds_lease leaseOwner d then
        let next := delivery_update d dl_delivered (dv_attemptCount d) (dv_nextAttemptAt d)
                      (dv_lastAttemptedAt d) (Some completedAt) (Some responseStatus)
                      (dv_lastError d) None None now1 in
        (reflect_on_handoff d (fun h => with_callback h cb_delivered (Some completedAt) now2)
           (set_delivery next deliveryId s), true)
      else (s, false)
  | None => (s, false)
  end.

Record FailedUpdate := {
  fu_attemptedAt : Z;
  fu_responseStatus : option Z;
  fu_errorMessage : string;
  fu_nextAttemptAt : Z;
  fu_deadLetter : bool }.

Definition markCallbackFailed (deliveryId leaseOwner : string) (update : FailedUpdate)
    (now1 now2 : Z) (s : store) : store * bool :=
  match map_get deliveryId (deliveries s) with
  | Some d =>
      if holds_lease leaseOwner d then
        let next := delivery_update d (if fu_deadLetter update then dl_dead_letter else dl_failed)
                      (dv_attemptCount d) (fu_nextAttemptAt update) (dv_lastAttemptedAt d)
                      (dv_deliveredAt d) (fu_responseStatus update) (Some (fu_errorMessage update))
                      None None now1 in
        (reflect_on_handoff d
           (fun h => with_callback h (if fu_deadLetter update then cb_dead_letter else cb_failed)
                       (h_callbackDeliveredAt h) now2)
           (set_delivery next deliveryId s), true)
      else (s, false)
  | None => (s, false)
  end.

Definition requeueCallbackDelivery (deliveryId : string) (nextAttemptAt now1 now2 : Z) (s : store)
    : store * option SettlementCallbackDeliveryRecord :=
  match map_get deliveryId (deliveries s) with
  | Some d =>
      if bool_decide (dv_status d = dl_dead_letter) then
        let next := delivery_update d dl_pending (dv_attemptCount d) nextAttemptAt
                      (dv_lastAttemptedAt d) (dv_deliveredAt d) (dv_responseStatus d)
                      (dv_lastError d) None None now1 in
        (reflect_on_handoff d (fun h => with_callback h cb_pending (h_callbackDeliveredAt h) now2)
           (set_delivery next deliveryId s), Some next)
      else (s, None)
  | None => (s, None)
  end.

(** ** Queries over handoffs *)

Definition listHandoffs (input : ListSettlementHandoffsInput) (s : store)
    : list SettlementHandoffRecord * Z * option Z :=
  let keep {A} `{EqDecision A} (want : option A) (have : A) :=
    match want with Some w => bool_decide (have = w) | None => true end in
  let filtered :=
    js_sort (fun l r => (h_updatedAt r <? h_updatedAt l)
                        || ((h_updatedAt r =? h_updatedAt l)
                            && String.leb (h_handoffId r) (h_handoffId l)))
      (List.filter (fun r => keep (li_executionStatus input) (h_executionStatus r))
        (List.filter (fun r => keep (li_reconciliationStatus input) (h_reconciliationStatus r))
          (List.filter (fun r => match li_tradeId input with
                                 | Some t => if truthy t then String.eqb (h_tradeId r) t else true
                                 | None => true
                                 end)
             (map_values (handoffs s))))) in
  (slice (li_offset input) (li_offset input + li_limit input) filtered,
   Z.of_nat (length filtered), h_updatedAt <$> head filtered).

Definition byTrade (tradeId : string) (s : store) : option SettlementHandoffRecord :=
  head (js_sort (fun l r => h_updatedAt r <=? h_updatedAt l)
          (List.filter (fun r => String.eqb (h_tradeId r) tradeId) (map_values (handoffs s)))).

Definition project (r : SettlementHandoffRecord) : TradeSettlementProjection :=
  {| tp_handoffId := h_handoffId r; tp_platformId := h_platformId r;
     tp_platformHandoffId := h_platformHandoffId r; tp_phase := h_phase r;
     tp_settlementChannel := h_settlementChannel r; tp_displayCurrency := h_displayCurrency r;
     tp_displayAmount := h_displayAmount r; tp_executionStatus := h_executionStatus r;
     tp_reconciliationStatus := h_reconciliationStatus r;
     tp_callbackStatus := h_callbackStatus r; tp_providerStatus := h_providerStatus r;
     tp_txHash := h_txHash r; tp_externalReference := h_externalReference r;
     tp_latestEventType := h_latestEventType r; tp_latestEventDetail := h_latestEventDetail r;
     tp_latestEventAt := h_latestEventAt r; tp_callbackDeliveredAt := h_callbackDeliveredAt r;
     tp_createdAt := h_createdAt r; tp_updatedAt := h_updatedAt r |}.

Definition getTradeSettlementProjectionMap (tradeIds : list string) (s : store)
    : jsmap TradeSettlementProjection :=
  fold_left (fun m tradeId => match byTrade tradeId s with
                              | Some r => map_set tradeId (project r) m
                              | None => m
                              end) tradeIds [].
