(* ===== verification/SettlementStoreInv.v ===== *)
(** Correctness of the settlement store: the well-formedness invariant of every
    reachable store, event sourcing (a handoff's status is what its own event
    history makes it), idempotent replay and lease safety. *)
From stdpp Require Import base list gmap strings.
From S2P Require Import Prelude JsText JsMap SettlementTypes SettlementMachine SettlementAmount.
From S2P Require Import SettlementStore.

Open Scope string_scope.
Open Scope Z_scope.

(** ** The invariant *)

Definition no_colon (s : string) : bool := all_chars (fun x => negb (Ascii.eqb x ":")) s.

Definition bucket (s : store) (id : string) : list SettlementExecutionEventRecord :=
  listExecutionEvents id s.

(** [explains b st]: the events [b], newest first, take a new handoff to [st],
    each accepted by the state machine. *)
Inductive explains : list SettlementExecutionEventRecord -> SettlementExecutionStatus -> Prop :=
| explains_nil : explains [] x_pending
| explains_cons e b prev :
    explains b prev ->
    validateExecutionTransition prev (ev_executionStatus e) (ev_eventType e) = Ok tt ->
    explains (e :: b) (ev_executionStatus e).

Definition delivery_ok (d : SettlementCallbackDeliveryRecord) : Prop :=
  (dv_status d = dl_delivering <-> is_Some (dv_leaseOwner d)) /\
  (dv_status d = dl_delivering <-> is_Some (dv_leaseExpiresAt d)) /\
  (dv_status d = dl_delivered -> is_Some (dv_deliveredAt d)) /\
  (dv_status d = dl_delivering -> 1 <= dv_attemptCount d) /\
  0 <= dv_attemptCount d.

Definition key_of (h : SettlementHandoffRecord) : string :=
  platform_key (h_platformId h) (h_platformHandoffId h).

Definition handoff_ok (s : store) (id : string) (h : SettlementHandoffRecord) : Prop :=
  h_handoffId h = id /\ no_colon id = true /\
  map_get (key_of h) (platformIndex s) = Some id /\
  explains (bucket s id) (h_executionStatus h) /\
  h_latestEventId h = ev_eventId <$> head (bucket s id).

Definition index_ok (s : store) (k id : string) : Prop :=
  truthy id = true /\ exists h, map_get id (handoffs s) = Some h /\ key_of h = k.

Definition bucket_ok (s : store) (id : string) : Prop :=
  (bucket s id <> [] -> is_Some (map_get id (handoffs s))) /\
  NoDup (map ev_eventId (bucket s id)) /\
  Forall (fun e => ev_handoffId e = id /\ truthy (ev_eventId e) = true) (bucket s id).

Definition dedupe_ok (s : store) (k eid : string) : Prop :=
  exists hid dk e, no_colon hid = true /\ k = dedupe_key hid dk /\
    e ∈ bucket s hid /\ ev_eventId e = eid /\ truthy eid = true.

Definition delivery_ref_ok (s : store) (did : string) (d : SettlementCallbackDeliveryRecord) : Prop :=
  dv_deliveryId d = did /\ delivery_ok d /\
  exists e, e ∈ bucket s (dv_handoffId d) /\ ev_eventId e = dv_eventId d.

Record wf (s : store) : Prop := {
  wf_handoffs : forall id h, map_get id (handoffs s) = Some h -> handoff_ok s id h;
  wf_index : forall k id, map_get k (platformIndex s) = Some id -> index_ok s k id;
  wf_buckets : forall id, bucket_ok s id;
  wf_event_owner : forall id id' e e', e ∈ bucket s id -> e' ∈ bucket s id' ->
    ev_eventId e = ev_eventId e' -> id = id';
  wf_dedupe : forall k eid, map_get k (eventDedupeIndex s) = Some eid -> dedupe_ok s k eid;
  wf_deliveries : forall did d, map_get did (deliveries s) = Some d -> delivery_ref_ok s did d;
  wf_one_delivery : forall did did' d d', map_get did (deliveries s) = Some d ->
    map_get did' (deliveries s) = Some d' -> dv_eventId d = dv_eventId d' -> did = did';
  wf_has_delivery : forall id e, e ∈ bucket s id ->
    exists did d, map_get did (deliveries s) = Some d /\ dv_eventId d = ev_eventId e;
  wf_delivery_keys : NoDup (map_keys (deliveries s)) }.

(** A random identifier: non-empty, without colon, and used by nothing yet. *)
Definition fresh_uuid (s : store) (u : string) : Prop :=
  truthy u = true /\ no_colon u = true /\
  map_get u (handoffs s) = None /\ map_get u (deliveries s) = None /\
  forall id e, e ∈ bucket s id -> ev_eventId e <> u.

(** ** Update lemmas *)

Lemma bucket_set_handoff s h id id' : bucket (set_handoff h id s) id' = bucket s id'.
Proof. done. Qed.

Lemma bucket_set_delivery s d id id' : bucket (set_delivery d id s) id' = bucket s id'.
Proof. done. Qed.

(** Two versions of a handoff that differ only in callback data and timestamps. *)
Definition same_core (h h' : SettlementHandoffRecord) : Prop :=
  h_handoffId h = h_handoffId h' /\ key_of h = key_of h' /\
  h_executionStatus h = h_executionStatus h' /\ h_latestEventId h = h_latestEventId h'.

Lemma same_core_with_callback h st d u : same_core h (with_callback h st d u).
Proof. by repeat split. Qed.

Lemma wf_set_handoff s id h h' :
  wf s -> map_get id (handoffs s) = Some h -> same_core h h' -> wf (set_handoff h' id s).
Proof.
  intros [W1 W2 W3 W4 W5 W6 W7 W8 W9] Hh (C1 & C2 & C3 & C4). split; try done.
  - intros id' h1. simpl. rewrite map_get_set_case.
    destruct (String.eqb_spec id id') as [<-|]; [|apply W1].
    intros [= <-]. destruct (W1 id h Hh) as (? & ? & ? & ? & ?).
    unfold handoff_ok. rewrite bucket_set_handoff, <- C1, <- C2, <- C3, <- C4. done.
  - intros k id' Hk. destruct (W2 k id' Hk) as (Ht & h1 & Hg & Hkey).
    split; [done|]. simpl. rewrite map_get_set_case.
    destruct (String.eqb_spec id id') as [<-|]; [|eauto]. exists h'. split; [done|]. congruence.
  - intros id'. destruct (W3 id') as (Hb & ? & ?). split_and!; [|done..]. simpl.
    rewrite bucket_set_handoff, map_get_set_case. by destruct (String.eqb id id'); [eauto|].
Qed.

Lemma wf_set_delivery s did d d' :
  wf s -> map_get did (deliveries s) = Some d ->
  dv_deliveryId d' = dv_deliveryId d -> dv_handoffId d' = dv_handoffId d ->
  dv_eventId d' = dv_eventId d -> delivery_ok d' -> wf (set_delivery d' did s).
Proof.
  intros [W1 W2 W3 W4 W5 W6 W7 W8 W9] Hd Hi Hh He Hok. split; try done.
  - intros did' d1. simpl. rewrite map_get_set_case.
    destruct (String.eqb_spec did did') as [<-|]; [|apply W6].
    intros [= <-]. destruct (W6 did d Hd) as (? & _ & e & ? & ?).
    split_and!; [congruence|done|]. exists e. rewrite Hh, He. done.
  - intros a b da db. simpl. rewrite !map_get_set_case.
    destruct (String.eqb_spec did a) as [<-|], (String.eqb_spec did b) as [<-|];
      intros Ha Hb; simplify_eq; try done; rewrite ?He; eauto.
  - intros id e Hin. destruct (W8 id e Hin) as (a & da & Ha & Hae). simpl.
    destruct (String.eqb_spec did a) as [<-|].
    + exists did, d'. rewrite map_get_set. split; [done|]. congruence.
    + exists a, da. by rewrite map_get_set_ne.
  - simpl. by apply map_set_NoDup.
Qed.

Lemma wf_reflect s d f :
  wf s -> (forall h, same_core h (f h)) -> wf (reflect_on_handoff d f s).
Proof.
  intros W Hf. unfold reflect_on_handoff.
  destruct (map_get (dv_handoffId d) (handoffs s)) as [h|] eqn:E; [|done].
  destruct (bool_decide _); [|done]. by apply (wf_set_handoff s _ h).
Qed.

(** ** Every operation preserves the invariant *)

Lemma wf_empty : wf (createInMemorySettlementStore []).
Proof.
  split; try done.
  - intros id. repeat split; simpl; done || constructor.
  - intros ? ? ? ? ?%not_elem_of_nil. done.
  - intros ? ? ?%not_elem_of_nil. done.
  - constructor.
Qed.

Lemma wf_createHandoff input now uuid s s' r :
  wf s -> fresh_uuid s uuid -> createHandoff input now uuid s = Ok (s', r) -> wf s'.
Proof.
  intros W (Hu & Hc & Hnh & Hnd & Hne). unfold createHandoff. intros H. inv_ok.
  set (k := platform_key _ _) in *.
  destruct (map_get k (platformIndex s)) as [e|] eqn:Ek.
  { pose proof (proj1 (wf_index s W k e Ek)) as Ht. rewrite Ht in H0. inv_ok. congruence. }
  injection H0 as <- <-. destruct W as [W1 W2 W3 W4 W5 W6 W7 W8 W9].
  assert (Hb : bucket s uuid = []).
  { destruct (W3 uuid) as (Hb & _). destruct (bucket s uuid); [done|].
    destruct Hb as [? ?]; [done|]. congruence. }
  split; try done.
  - intros id h. simpl. rewrite map_get_set_case.
    destruct (String.eqb_spec uuid id) as [<-|Hn].
    + intros [= <-]. unfold handoff_ok. simpl.
      change (bucket _ uuid) with (bucket s uuid). rewrite Hb.
      rewrite map_get_set. repeat split; try done. constructor.
    + intros Hid. destruct (W1 id h Hid) as (? & ? & ? & ? & ?). unfold handoff_ok. simpl.
      split_and!; try done. rewrite map_get_set_ne; congruence.
  - intros k' id. simpl. rewrite map_get_set_case.
    destruct (String.eqb_spec k k') as [<-|Hk].
    + intros [= <-]. split; [done|]. simpl. rewrite map_get_set. eauto.
    + intros Hid. destruct (W2 k' id Hid) as (? & h & Hh & ?). split; [done|]. simpl.
      rewrite map_get_set_ne; [eauto|congruence].
  - intros id. destruct (W3 id) as (? & ? & ?). split_and!; [|done..]. simpl.
    rewrite map_get_set_case. by destruct (String.eqb uuid id); [eauto|].
Qed.

Lemma delivery_ok_new hid eid cb body now u : delivery_ok (new_delivery hid eid cb body now u).
Proof.
  unfold delivery_ok, new_delivery; simpl.
  destruct (cp_enabled cb); repeat split; try done; by intros [? [=]].
Qed.

(** The store after [event] and [delivery] were added to handoff [hid]. *)
Definition add_event (s : store) (hid key : string) (h : SettlementHandoffRecord)
    (event : SettlementExecutionEventRecord) (d : SettlementCallbackDeliveryRecord) : store :=
  {| handoffs := map_set hid h (handoffs s);
     platformIndex := platformIndex s;
     events := map_set hid (event :: bucket s hid) (events s);
     eventDedupeIndex := map_set key (ev_eventId event) (eventDedupeIndex s);
     deliveries := map_set (dv_deliveryId d) d (deliveries s) |}.

Lemma bucket_add_event s hid key h e d id :
  bucket (add_event s hid key h e d) id =
  if String.eqb hid id then e :: bucket s hid else bucket s id.
Proof.
  unfold bucket, listExecutionEvents at 1, add_event; simpl. rewrite map_get_set_case.
  by destruct (String.eqb hid id).
Qed.

Lemma elem_add_event s hid key h e d id x :
  x ∈ bucket (add_event s hid key h e d) id <->
  (hid = id /\ x = e) \/ x ∈ bucket s id.
Proof.
  rewrite bucket_add_event. destruct (String.eqb_spec hid id) as [<-|];
    rewrite ?elem_of_cons; naive_solver.
Qed.

Lemma wf_add_event s hid dk h h' e d :
  wf s -> map_get hid (handoffs s) = Some h ->
  fresh_uuid s (ev_eventId e) -> map_get (dv_deliveryId d) (deliveries s) = None ->
  ev_handoffId e = hid ->
  validateExecutionTransition (h_executionStatus h) (ev_executionStatus e) (ev_eventType e) = Ok tt ->
  h_handoffId h' = h_handoffId h -> key_of h' = key_of h ->
  h_executionStatus h' = ev_executionStatus e -> h_latestEventId h' = Some (ev_eventId e) ->
  dv_handoffId d = hid -> dv_eventId d = ev_eventId e -> delivery_ok d ->
  wf (add_event s hid (dedupe_key hid dk) h' e d).
Proof.
  intros [W1 W2 W3 W4 W5 W6 W7 W8 W9] Hh (Ht & Hnc & Hfh & Hfd & Hfe) Hdn Heh Hval Hi Hk Hst Hlat
    Hdh Hde Hdok.
  destruct (W1 hid h Hh) as (Hid & Hcol & Hidx & Hexp & Hlast).
  assert (Hnew : forall id x, x ∈ bucket s id -> ev_eventId x <> ev_eventId e) by eauto.
  split.
  - intros id h1. unfold handoff_ok. rewrite bucket_add_event. simpl. rewrite map_get_set_case.
    destruct (String.eqb_spec hid id) as [<-|]; [|apply W1].
    intros [= <-]. rewrite Hi, Hst, Hlat, Hk. split_and!; try done. by econstructor.
  - intros k id Hki. destruct (W2 k id Hki) as (? & h1 & Hh1 & ?). split; [done|]. simpl.
    rewrite map_get_set_case. destruct (String.eqb_spec hid id) as [<-|]; [|eauto].
    exists h'. split; [done|]. congruence.
  - intros id. unfold bucket_ok. rewrite bucket_add_event. simpl. rewrite map_get_set_case.
    destruct (String.eqb_spec hid id) as [<-|]; [|apply W3].
    destruct (W3 hid) as (_ & Hnd & Hall). split_and!; [eauto| |by constructor].
    simpl. constructor; [|done]. intros (x & Hx & Hin)%list_elem_of_fmap. by apply (Hnew hid x).
  - intros id id' x x'. rewrite !elem_add_event.
    intros [[<- ->]|Hx] [[<- ->]|Hx']; [done| | |by apply W4].
    + intros Heq. by apply Hnew in Hx'.
    + intros Heq. by apply Hnew in Hx.
  - intros k eid. simpl. rewrite map_get_set_case.
    destruct (String.eqb_spec (dedupe_key hid dk) k) as [<-|].
    + intros [= <-]. exists hid, dk, e. rewrite elem_add_event. naive_solver.
    + intros Hke. destruct (W5 k eid Hke) as (hid' & dk' & x & ? & ? & ? & ? & ?).
      exists hid', dk', x. rewrite elem_add_event. naive_solver.
  - intros did d1. simpl. rewrite map_get_set_case.
    destruct (String.eqb_spec (dv_deliveryId d) did) as [<-|].
    + intros [= <-]. split_and!; [done..|]. exists e. rewrite elem_add_event. naive_solver.
    + intros Hd1. destruct (W6 did d1 Hd1) as (? & ? & x & ? & ?). split_and!; [done..|].
      exists x. rewrite elem_add_event. naive_solver.
  - assert (Hold : forall did d1, map_get did (deliveries s) = Some d1 -> dv_eventId d1 <> ev_eventId e).
    { intros did d1 Hd1. destruct (W6 did d1 Hd1) as (_ & _ & x & Hx & <-). by eapply Hnew. }
    intros a b da db. simpl. rewrite !map_get_set_case.
    destruct (String.eqb_spec (dv_deliveryId d) a) as [<-|], (String.eqb_spec (dv_deliveryId d) b) as [<-|];
      intros Ha Hb Heq; simplify_eq; try done; [| |by eauto].
    + destruct (Hold b db Hb). congruence.
    + destruct (Hold a da Ha). congruence.
  - intros id x. rewrite elem_add_event. simpl. intros [[<- ->]|Hx].
    + exists (dv_deliveryId d), d. by rewrite map_get_set.
    + destruct (W8 id x Hx) as (did & d1 & Hd1 & ?). exists did, d1.
      rewrite map_get_set_ne; [done|]. congruence.
  - simpl. by apply map_set_NoDup.
Qed.

Lemma dedupe_key_inj hid hid' dk dk' :
  no_colon hid = true -> no_colon hid' = true ->
  dedupe_key hid dk = dedupe_key hid' dk' -> hid = hid' /\ dk = dk'.
Proof. unfold dedupe_key. intros ? ? H. by apply split_at_sep in H. Qed.

(** A key the index knows leads to an event of the handoff and to its delivery. *)
Lemma dedupe_found s hid h dk eid :
  wf s -> map_get hid (handoffs s) = Some h ->
  map_get (dedupe_key hid dk) (eventDedupeIndex s) = Some eid ->
  truthy eid = true /\
  (exists event, List.find (fun c => String.eqb (ev_eventId c) eid) (bucket s hid) = Some event /\
     ev_eventId event = eid) /\
  (exists did d, map_get did (deliveries s) = Some d /\
     List.find (fun d => String.eqb (dv_eventId d) eid) (map_values (deliveries s)) = Some d).
Proof.
  intros W Hh Hk. destruct (wf_dedupe s W _ _ Hk) as (hid' & dk' & e & Hc' & Heq & He & Heid & Ht).
  destruct (wf_handoffs s W hid h Hh) as (_ & Hc & _).
  apply dedupe_key_inj in Heq as [<- <-]; [|done..]. split; [done|]. split.
  - destruct (find_exists (fun c => String.eqb (ev_eventId c) eid) (bucket s hid) e) as [w Hw];
      [done|by apply String.eqb_eq|]. exists w. split; [done|].
    apply find_some_elem in Hw as [_ ?]. by apply String.eqb_eq.
  - destruct (wf_has_delivery s W hid e He) as (did & d & Hd & Hde).
    destruct (find_exists (fun d => String.eqb (dv_eventId d) eid) (map_values (deliveries s)) d)
      as [w Hw].
    + apply map_values_elem; [apply W|eauto].
    + apply String.eqb_eq. congruence.
    + pose proof (find_some_elem _ _ _ Hw) as [Hin _].
      apply map_values_elem in Hin as [did' ?]; [eauto|apply W].
Qed.

(** [recordExecutionEvent] either replays a known event, returning it without
    touching the store, or adds one. *)
Lemma record_cases input cb now u1 u2 s s' r :
  wf s -> recordExecutionEvent input cb now u1 u2 s = Ok (s', r) ->
  exists h, map_get (pi_handoffId input) (handoffs s) = Some h /\
  ((s' = s /\ rec_handoff r = h /\
    map_get (dedupe_key (pi_handoffId input) (pi_dedupeKey input)) (eventDedupeIndex s)
      = Some (ev_eventId (rec_event r)) /\
    rec_event r ∈ bucket s (pi_handoffId input)) \/
   (map_get (dedupe_key (pi_handoffId input) (pi_dedupeKey input)) (eventDedupeIndex s) = None /\
    validateExecutionTransition (h_executionStatus h) (pi_executionStatus input)
      (pi_eventType input) = Ok tt /\
    rec_event r = new_event input now u1 /\
    (exists body, rec_delivery r = new_delivery (pi_handoffId input) u1 cb body now u2) /\
    rec_handoff r = (let uh := apply_event h input u1 now in
       if cp_enabled cb then uh
       else with_callback uh cb_disabled (h_callbackDeliveredAt uh) (h_updatedAt uh)) /\
    s' = add_event s (pi_handoffId input)
           (dedupe_key (pi_handoffId input) (pi_dedupeKey input))
           (rec_handoff r) (rec_event r) (rec_delivery r))).
Proof.
  intros W. unfold recordExecutionEvent.
  destruct (map_get (pi_handoffId input) (handoffs s)) as [h|] eqn:Hh; [|done]. intros H.
  exists h. split; [done|].
  destruct (map_get (dedupe_key _ _) (eventDedupeIndex s)) as [eid|] eqn:Hk; simpl in H.
  - left. destruct (dedupe_found s _ h _ eid W Hh Hk)
      as (Ht & (event & Hev & Heid) & (did & d & Hd & Hfd)).
    rewrite Ht in H. unfold replayEvent in H.
    change (default [] (map_get (pi_handoffId input) (events s)))
      with (bucket s (pi_handoffId input)) in H.
    rewrite Hev, Heid, Hfd in H. injection H as <- <-. simpl.
    apply find_some_elem in Hev as [? _]. by rewrite Heid.
  - right. inv_ok. destruct x. split_and!; eauto.
Qed.

Lemma wf_record input cb now u1 u2 s s' r :
  wf s -> fresh_uuid s u1 -> fresh_uuid s u2 ->
  recordExecutionEvent input cb now u1 u2 s = Ok (s', r) -> wf s'.
Proof.
  intros W F1 F2 H.
  destruct (record_cases _ _ _ _ _ _ _ _ W H)
    as (h & Hh & [(-> & _)|(_ & Hv & He & (body & Hd) & Hr & ->)]); [done|].
  rewrite Hr, He, Hd.
  apply (wf_add_event s (pi_handoffId input) (pi_dedupeKey input) h); try done.
  - by destruct F2 as (_ & _ & _ & ? & _).
  - simpl. by destruct (cp_enabled cb).
  - simpl. by destruct (cp_enabled cb).
  - simpl. by destruct (cp_enabled cb).
  - simpl. by destruct (cp_enabled cb).
  - apply delivery_ok_new.
Qed.

Lemma wf_markDelivering did owner att lease now s :
  wf s -> wf (markCallbackDelivering did owner att lease now s).1.
Proof.
  intros W. unfold markCallbackDelivering.
  destruct (map_get did (deliveries s)) as [d|] eqn:Hd; [|done].
  destruct (delivery_ready att d); [|done]. simpl.
  apply (wf_set_delivery s did d); try done.
  destruct (wf_deliveries s W did d Hd) as (_ & (_ & _ & _ & _ & ?) & _).
  repeat split; simpl; try done; try (by eauto); lia.
Qed.

(** A completed delivery keeps its identity and releases its lease. *)
Lemma wf_release s did d f st ac na la da rs le u :
  wf s -> map_get did (deliveries s) = Some d -> (forall h, same_core h (f h)) ->
  st <> dl_delivering -> (st = dl_delivered -> is_Some da) -> 0 <= ac ->
  wf (reflect_on_handoff d f (set_delivery (delivery_update d st ac na la da rs le None None u) did s)).
Proof.
  intros W Hd Hf Hst Hda Hac. apply wf_reflect; [|done].
  apply (wf_set_delivery s did d); try done.
  repeat split; simpl; try done; by intros [? [=]].
Qed.

Lemma wf_markDelivered did owner at_ rs n1 n2 s :
  wf s -> wf (markCallbackDelivered did owner at_ rs n1 n2 s).1.
Proof.
  intros W. unfold markCallbackDelivered.
  destruct (map_get did (deliveries s)) as [d|] eqn:Hd; [|done].
  destruct (holds_lease owner d); [|done].
  apply wf_release; eauto using same_core_with_callback; try done.
  apply (wf_deliveries s W did d Hd).
Qed.

Lemma wf_markFailed did owner upd n1 n2 s :
  wf s -> wf (markCallbackFailed did owner upd n1 n2 s).1.
Proof.
  intros W. unfold markCallbackFailed.
  destruct (map_get did (deliveries s)) as [d|] eqn:Hd; [|done].
  destruct (holds_lease owner d); [|done].
  apply wf_release; eauto using same_core_with_callback; try (by destruct (fu_deadLetter upd)).
  apply (wf_deliveries s W did d Hd).
Qed.

Lemma wf_requeue did at_ n1 n2 s : wf s -> wf (requeueCallbackDelivery did at_ n1 n2 s).1.
Proof.
  intros W. unfold requeueCallbackDelivery.
  destruct (map_get did (deliveries s)) as [d|] eqn:Hd; [|done].
  destruct (bool_decide _); [|done].
  apply wf_release; eauto using same_core_with_callback; try done.
  apply (wf_deliveries s W did d Hd).
Qed.

(** ** Reachable stores *)

(** One operation of the interface that changes the store.  Identifiers are
    fresh, the two of one call distinct, as [randomUUID] makes them. *)
Inductive step (s : store) : store -> Prop :=
| step_create input now uuid s' r :
    fresh_uuid s uuid -> createHandoff input now uuid s = Ok (s', r) -> step s s'
| step_record input cb now u1 u2 s' r :
    fresh_uuid s u1 -> fresh_uuid s u2 ->
    recordExecutionEvent input cb now u1 u2 s = Ok (s', r) -> step s s'
| step_delivering did owner att lease now :
    step s (markCallbackDelivering did owner att lease now s).1
| step_delivered did owner at_ rs n1 n2 :
    step s (markCallbackDelivered did owner at_ rs n1 n2 s).1
| step_failed did owner upd n1 n2 :
    step s (markCallbackFailed did owner upd n1 n2 s).1
| step_requeue did at_ n1 n2 :
    step s (requeueCallbackDelivery did at_ n1 n2 s).1.

Definition reachable (s : store) : Prop := rtc step (createInMemorySettlementStore []) s.

Lemma wf_step s s' : wf s -> step s s' -> wf s'.
Proof.
  intros W [ | | | | | ];
    eauto using wf_createHandoff, wf_record, wf_markDelivering, wf_markDelivered, wf_markFailed,
      wf_requeue.
Qed.

Lemma wf_steps s s' : wf s -> rtc step s s' -> wf s'.
Proof. intros W H. revert W. induction H; eauto using wf_step. Qed.

Lemma reachable_wf s : reachable s -> wf s.
Proof. intros H. eapply wf_steps; [apply wf_empty | exact H]. Qed.

(** The events of a handoff, oldest first, as the state machine reads them. *)
Definition transitions_of (b : list SettlementExecutionEventRecord) :=
  map (fun e => (ev_executionStatus e, ev_eventType e)) (reverse b).

Lemma run_snoc s es s1 e s2 : run s es s1 -> accepted s1 e s2 -> run s (es ++ [e]) s2.
Proof.
  intros Hr Ha. induction Hr; simpl; [econstructor; [done|constructor] | by econstructor; eauto].
Qed.

Lemma explains_run b st : explains b st -> run x_pending (transitions_of b) st.
Proof.
  induction 1 as [|e b prev _ IH Hv]; [constructor|].
  unfold transitions_of. rewrite reverse_cons, map_app. simpl.
  eapply run_snoc; [exact IH|]. by constructor.
Qed.

(** Event sourcing: in every reachable store the status of a handoff is the
    result of running exactly its own recorded events through the state machine
    from [pending]; its latest-event pointer is the newest of them; no event
    belongs to two handoffs; and every event has exactly one delivery. *)
Theorem store_event_sourced s id h :
  reachable s -> getHandoff id s = Some h ->
  run x_pending (transitions_of (listExecutionEvents id s)) (h_executionStatus h) /\
  h_latestEventId h = ev_eventId <$> head (listExecutionEvents id s) /\
  NoDup (map ev_eventId (listExecutionEvents id s)) /\
  forall e, e ∈ listExecutionEvents id s ->
    (forall id' e', e' ∈ listExecutionEvents id' s -> ev_eventId e' = ev_eventId e -> id' = id) /\
    exists! did, exists d, getCallbackDelivery did s = Some d /\ dv_eventId d = ev_eventId e.
Proof.
  intros W%reachable_wf Hh. destruct (wf_handoffs s W id h Hh) as (_ & _ & _ & Hexp & Hlast).
  split_and!; [by apply explains_run|done|apply (wf_buckets s W id)|].
  intros e He. split.
  - intros id' e' He' Heq. by apply (wf_event_owner s W id' id e' e).
  - destruct (wf_has_delivery s W id e He) as (did & d & Hd & Hde).
    exists did. split; [eauto|]. intros did' (d' & Hd' & Hde').
    apply (wf_one_delivery s W did did' d d'); [done..|]. congruence.
Qed.

(** ** What an operation never undoes *)

Lemma reflect_dedupe d f s : eventDedupeIndex (reflect_on_handoff d f s) = eventDedupeIndex s.
Proof. unfold reflect_on_handoff. repeat case_match; done. Qed.

Lemma reflect_deliveries d f s : deliveries (reflect_on_handoff d f s) = deliveries s.
Proof. unfold reflect_on_handoff. repeat case_match; done. Qed.

Lemma set_keeps_some {V} k k' (v : V) m :
  is_Some (map_get k' m) -> is_Some (map_get k' (map_set k v m)).
Proof. rewrite map_get_set_case. by destruct (String.eqb k k'); [eauto|]. Qed.

Lemma reflect_handoffs d f s id :
  is_Some (map_get id (handoffs s)) -> is_Some (map_get id (handoffs (reflect_on_handoff d f s))).
Proof.
  unfold reflect_on_handoff. repeat case_match; try done. simpl. apply set_keeps_some.
Qed.

Lemma step_keeps_handoff s s' id :
  wf s -> step s s' -> is_Some (map_get id (handoffs s)) -> is_Some (map_get id (handoffs s')).
Proof.
  intros W Hs Hid. destruct Hs as [input now u s' r F H|input cb now u1 u2 s' r F1 F2 H| | | | ].
  - unfold createHandoff in H. inv_ok. repeat case_match; inv_ok; simplify_eq; try done;
      by apply set_keeps_some.
  - destruct (record_cases _ _ _ _ _ _ _ _ W H) as (h & _ & [(-> & _)|(_ & _ & _ & _ & _ & ->)]);
      [done|]. by apply set_keeps_some.
  - unfold markCallbackDelivering. by repeat case_match.
  - unfold markCallbackDelivered. repeat case_match; try done. by apply reflect_handoffs.
  - unfold markCallbackFailed. repeat case_match; try done; by apply reflect_handoffs.
  - unfold requeueCallbackDelivery. repeat case_match; try done. by apply reflect_handoffs.
Qed.

Lemma step_keeps_dedupe s s' k eid :
  wf s -> step s s' -> map_get k (eventDedupeIndex s) = Some eid ->
  map_get k (eventDedupeIndex s') = Some eid.
Proof.
  intros W Hs Hk. destruct Hs as [input now u s' r F H|input cb now u1 u2 s' r F1 F2 H| | | | ].
  - unfold createHandoff in H. inv_ok. repeat case_match; inv_ok; by simplify_eq.
  - destruct (record_cases _ _ _ _ _ _ _ _ W H) as (h & _ & [(-> & _)|(Hn & _ & _ & _ & _ & ->)]);
      [done|]. simpl. rewrite map_get_set_ne; congruence.
  - unfold markCallbackDelivering. by repeat case_match.
  - unfold markCallbackDelivered. repeat case_match; simpl; rewrite ?reflect_dedupe; done.
  - unfold markCallbackFailed. repeat case_match; simpl; rewrite ?reflect_dedupe; done.
  - unfold requeueCallbackDelivery. repeat case_match; simpl; rewrite ?reflect_dedupe; done.
Qed.

Lemma steps_keep s s' id k eid :
  wf s -> rtc step s s' ->
  is_Some (map_get id (handoffs s)) -> map_get k (eventDedupeIndex s) = Some eid ->
  is_Some (map_get id (handoffs s')) /\ map_get k (eventDedupeIndex s') = Some eid.
Proof.
  intros W Hs. revert W. induction Hs as [|x y z Hxy Hyz IH]; [done|]. intros W Hid Hk.
  apply IH; eauto using wf_step, step_keeps_handoff, step_keeps_dedupe.
Qed.

(** Recording under a known key returns the known event. *)
Lemma record_known s hid h eid input cb now u1 u2 :
  wf s -> map_get hid (handoffs s) = Some h -> pi_handoffId input = hid ->
  map_get (dedupe_key hid (pi_dedupeKey input)) (eventDedupeIndex s) = Some eid ->
  exists r, recordExecutionEvent input cb now u1 u2 s = Ok (s, r) /\
    ev_eventId (rec_event r) = eid /\ rec_handoff r = h.
Proof.
  intros W Hh Hhid Hk. unfold recordExecutionEvent. rewrite Hhid, Hh, Hk. simpl.
  destruct (dedupe_found s hid h _ eid W Hh Hk) as (Ht & (event & Hev & Heid) & (did & d & Hd & Hfd)).
  rewrite Ht. unfold replayEvent. rewrite Hhid.
  change (default [] (map_get hid (events s))) with (bucket s hid).
  rewrite Hev, Heid, Hfd. by eexists.
Qed.

(** C28. Recording is idempotent: in a reachable store, once an event has been
    recorded under a deduplication key, recording again under that key, with any
    other content, at any time and after any further operations, changes nothing
    and returns that same event.  In particular the internal "inconsistent
    index" error is unreachable. *)
Theorem record_event_idempotent s s1 s2 input cb now u1 u2 r input' cb' now' u1' u2' :
  reachable s -> fresh_uuid s u1 -> fresh_uuid s u2 ->
  recordExecutionEvent input cb now u1 u2 s = Ok (s1, r) ->
  rtc step s1 s2 ->
  pi_handoffId input' = pi_handoffId input -> pi_dedupeKey input' = pi_dedupeKey input ->
  exists r', recordExecutionEvent input' cb' now' u1' u2' s2 = Ok (s2, r') /\
    ev_eventId (rec_event r') = ev_eventId (rec_event r) /\
    getHandoff (pi_handoffId input) s2 = Some (rec_handoff r').
Proof.
  intros W%reachable_wf F1 F2 H Hs Hhid Hdk.
  assert (W1 : wf s1) by exact (wf_record _ _ _ _ _ _ _ _ W F1 F2 H).
  assert (K1 : map_get (dedupe_key (pi_handoffId input) (pi_dedupeKey input)) (eventDedupeIndex s1)
                 = Some (ev_eventId (rec_event r)) /\
               is_Some (map_get (pi_handoffId input) (handoffs s1))).
  { destruct (record_cases _ _ _ _ _ _ _ _ W H)
      as (h & Hh & [(-> & _ & Hk & _)|(_ & _ & He & _ & Hr & ->)]); [by rewrite Hh|].
    simpl. by rewrite !map_get_set. }
  destruct K1 as [Hk Hid]. destruct (steps_keep _ _ _ _ _ W1 Hs Hid Hk) as [[h Hh] Hk2].
  rewrite <- Hdk in Hk2.
  destruct (record_known s2 _ h _ input' cb' now' u1' u2' (wf_steps _ _ W1 Hs) Hh Hhid Hk2)
    as (r' & ? & ? & <-).
  exists r'. done.
Qed.

(** ** The terms of a handoff *)

(** Everything about a handoff except its progress: identity, owner, references
    and money. *)
Definition terms_of (h : SettlementHandoffRecord) :=
  (h_handoffId h, h_platformId h, h_platformHandoffId h, h_tradeId h, h_phase h,
   h_settlementChannel h, (h_displayCurrency h, h_displayAmount h, h_assetSymbol h, h_assetAmount h),
   (h_ricardianHash h, h_externalReference h, h_metadata h, h_executionBinding h),
   (h_requestId h, h_sourceApiKeyId h, h_createdAt h)).

Lemma set_keeps_terms s id h0 h1 id' h :
  map_get id (handoffs s) = Some h0 -> terms_of h1 = terms_of h0 ->
  map_get id' (handoffs s) = Some h ->
  exists h', map_get id' (map_set id h1 (handoffs s)) = Some h' /\ terms_of h' = terms_of h.
Proof.
  intros H0 Ht Hh. rewrite map_get_set_case. destruct (String.eqb_spec id id') as [<-|]; [|eauto].
  exists h1. split; [done|]. congruence.
Qed.

Lemma reflect_terms d f s id h :
  (forall h, terms_of (f h) = terms_of h) -> map_get id (handoffs s) = Some h ->
  exists h', map_get id (handoffs (reflect_on_handoff d f s)) = Some h' /\ terms_of h' = terms_of h.
Proof.
  intros Hf Hh. unfold reflect_on_handoff.
  destruct (map_get (dv_handoffId d) (handoffs s)) as [h0|] eqn:H0; [|eauto].
  destruct (bool_decide _); [|eauto]. simpl. by apply (set_keeps_terms s _ h0).
Qed.

(** A creation succeeds in two ways: a replay of a known reference, or a new row. *)
Lemma create_cases input now u s s' r :
  wf s -> createHandoff input now u s = Ok (s', r) ->
  exists intent,
    intent_of (ci_displayCurrency input) (ci_displayAmount input) (ci_assetSymbol input)
      (ci_assetAmount input) = Ok intent /\
    ((s' = s /\ map_get (platform_key (ci_platformId input) (ci_platformHandoffId input))
                  (platformIndex s) = Some (h_handoffId r) /\
      map_get (h_handoffId r) (handoffs s) = Some r /\ check_replay r input intent = Ok tt) \/
     (map_get (platform_key (ci_platformId input) (ci_platformHandoffId input)) (platformIndex s)
        = None /\ r = new_handoff input intent now u /\
      s' = {| handoffs := map_set u r (handoffs s);
              platformIndex := map_set (platform_key (ci_platformId input)
                                          (ci_platformHandoffId input)) u (platformIndex s);
              events := events s; eventDedupeIndex := eventDedupeIndex s;
              deliveries := deliveries s |})).
Proof.
  intros W H. unfold createHandoff in H. apply bind_ok in H as (intent & Hi & H).
  exists intent. split; [done|].
  destruct (map_get (platform_key _ _) (platformIndex s)) as [id|] eqn:Hk.
  - left. destruct (wf_index s W _ _ Hk) as (Ht & h & Hh & _). rewrite Ht, Hh in H.
    apply bind_ok in H as ([] & Hc & [= <- <-]).
    destruct (wf_handoffs s W id h Hh) as (-> & _). done.
  - right. by injection H as <- <-.
Qed.

Lemma step_keeps_terms s s' id h :
  wf s -> step s s' -> map_get id (handoffs s) = Some h ->
  exists h', map_get id (handoffs s') = Some h' /\ terms_of h' = terms_of h.
Proof.
  intros W Hs Hh. destruct Hs as [input now u s' r F H|input cb now u1 u2 s' r F1 F2 H| | | | ].
  - destruct (create_cases _ _ _ _ _ _ W H) as (i & _ & [(-> & _)|(_ & _ & ->)]); [eauto|].
    simpl. exists h. rewrite map_get_set_ne; [done|]. intros <-.
    destruct F as (_ & _ & ? & _). congruence.
  - destruct (record_cases _ _ _ _ _ _ _ _ W H) as (h0 & H0 & [(-> & _)|(_ & _ & _ & _ & Hr & ->)]);
      [eauto|]. simpl. apply (set_keeps_terms s _ h0); [done| |done].
    rewrite Hr. simpl. by destruct (cp_enabled cb).
  - unfold markCallbackDelivering. repeat case_match; eauto.
  - unfold markCallbackDelivered. repeat case_match; eauto. simpl. by apply reflect_terms.
  - unfold markCallbackFailed. repeat case_match; eauto; simpl; by apply reflect_terms.
  - unfold requeueCallbackDelivery. repeat case_match; eauto. simpl. by apply reflect_terms.
Qed.

Lemma step_keeps_index s s' k id :
  wf s -> step s s' -> map_get k (platformIndex s) = Some id ->
  map_get k (platformIndex s') = Some id.
Proof.
  intros W Hs Hk. destruct Hs as [input now u s' r F H|input cb now u1 u2 s' r F1 F2 H| | | | ].
  - destruct (create_cases _ _ _ _ _ _ W H) as (i & _ & [(-> & _)|(Hn & _ & ->)]); [done|].
    simpl. rewrite map_get_set_ne; congruence.
  - by destruct (record_cases _ _ _ _ _ _ _ _ W H) as (h0 & H0 & [(-> & _)|(_ & _ & _ & _ & _ & ->)]).
  - unfold markCallbackDelivering. by repeat case_match.
  - unfold markCallbackDelivered, reflect_on_handoff. by repeat case_match.
  - unfold markCallbackFailed, reflect_on_handoff. by repeat case_match.
  - unfold requeueCallbackDelivery, reflect_on_handoff. by repeat case_match.
Qed.

Lemma steps_keep_reference s s' k id h :
  wf s -> rtc step s s' ->
  map_get k (platformIndex s) = Some id -> map_get id (handoffs s) = Some h ->
  map_get k (platformIndex s') = Some id /\
  exists h', map_get id (handoffs s') = Some h' /\ terms_of h' = terms_of h.
Proof.
  intros W Hs. revert W h. induction Hs as [|x y z Hxy Hyz IH]; [eauto|]. intros W h Hk Hh.
  destruct (step_keeps_terms _ _ _ _ W Hxy Hh) as (h1 & Hh1 & Ht).
  destruct (IH (wf_step _ _ W Hxy) h1) as (? & h2 & ? & ?); [by eapply step_keeps_index|done|].
  split; [done|]. exists h2. split; [done|]. congruence.
Qed.

Lemma new_handoff_intent input intent now u :
  intent_of (ci_displayCurrency input) (ci_displayAmount input) (ci_assetSymbol input)
    (ci_assetAmount input) = Ok intent ->
  existing_intent (new_handoff input intent now u) = Ok intent.
Proof.
  unfold existing_intent, intent_of. intros H. inv_ok. simpl.
  rewrite parse_number_roundtrip by (by eapply parse_canonical). simpl.
  match goal with H : parseOptionalSettlementAmount _ _ _ = Ok ?a |- _ =>
    unfold parseOptionalSettlementAmount in H; destruct a as [c|]; simpl end; [|done].
  case_match; inv_ok; simplify_eq.
  rewrite parse_number_roundtrip; [done|]. by eapply parse_canonical.
Qed.

Lemma existing_intent_terms h h' : terms_of h = terms_of h' -> existing_intent h = existing_intent h'.
Proof. unfold terms_of, existing_intent. congruence. Qed.

Lemma check_replay_ok h input intent :
  check_replay h input intent = Ok tt ->
  h_sourceApiKeyId h = ci_sourceApiKeyId input /\ existing_intent h = Ok intent.
Proof.
  unfold check_replay. intros H. inv_ok. reflect_bools. split; [done|].
  unfold assertSameMonetaryIntent in *. inv_ok. reflect_bools.
  match goal with H : existing_intent h = Ok ?e |- _ => destruct e, intent; simpl in *; congruence end.
Qed.

Lemma create_result input now u s s' r :
  wf s -> createHandoff input now u s = Ok (s', r) ->
  map_get (platform_key (ci_platformId input) (ci_platformHandoffId input)) (platformIndex s')
    = Some (h_handoffId r) /\
  map_get (h_handoffId r) (handoffs s') = Some r /\
  h_sourceApiKeyId r = ci_sourceApiKeyId input /\
  existing_intent r = intent_of (ci_displayCurrency input) (ci_displayAmount input)
                        (ci_assetSymbol input) (ci_assetAmount input).
Proof.
  intros W H. destruct (create_cases _ _ _ _ _ _ W H)
    as (intent & Hi & [(-> & Hk & Hh & Hc)|(Hn & -> & ->)]); rewrite Hi.
  - apply check_replay_ok in Hc as [? ?]. done.
  - simpl. rewrite !map_get_set. split_and!; try done. by apply new_handoff_intent.
Qed.

(** One handoff per platform reference: after a handoff was created, any later
    creation under the same reference that succeeds, after any operations, is
    the same handoff with the same owner and exactly the same monetary intent,
    and it changes nothing.  A replay for a different amount is never accepted. *)
Theorem create_handoff_once s s1 s2 s3 input input' now now' u u' r r' :
  reachable s -> fresh_uuid s u -> createHandoff input now u s = Ok (s1, r) ->
  rtc step s1 s2 ->
  ci_platformId input' = ci_platformId input ->
  ci_platformHandoffId input' = ci_platformHandoffId input ->
  createHandoff input' now' u' s2 = Ok (s3, r') ->
  s3 = s2 /\ terms_of r' = terms_of r /\
  ci_sourceApiKeyId input' = ci_sourceApiKeyId input /\
  intent_of (ci_displayCurrency input') (ci_displayAmount input') (ci_assetSymbol input')
    (ci_assetAmount input') =
  intent_of (ci_displayCurrency input) (ci_displayAmount input) (ci_assetSymbol input)
    (ci_assetAmount input).
Proof.
  intros W%reachable_wf F H Hs Hp Hph H'.
  assert (W1 : wf s1) by exact (wf_createHandoff _ _ _ _ _ _ W F H).
  assert (W2 : wf s2) by exact (wf_steps _ _ W1 Hs).
  destruct (create_result _ _ _ _ _ _ W H) as (Hk & Hh & Ho & Hi).
  destruct (create_result _ _ _ _ _ _ W2 H') as (Hk' & Hh' & Ho' & Hi').
  destruct (steps_keep_reference _ _ _ _ _ W1 Hs Hk Hh) as (Hk2 & h2 & Hh2 & Ht).
  destruct (create_cases _ _ _ _ _ _ W2 H') as (intent & _ & [(-> & Hk3 & Hh3 & _)|(Hn & _)]).
  - rewrite Hp, Hph, Hk2 in Hk3. injection Hk3 as Hk3. rewrite <- Hk3 in Hh3.
    assert (h2 = r') as -> by congruence. split_and!; [done|done| |].
    + rewrite <- Ho, <- Ho'. unfold terms_of in Ht. congruence.
    + rewrite <- Hi, <- Hi'. by apply existing_intent_terms.
  - rewrite Hp, Hph, Hk2 in Hn. done.
Qed.

(** ** Leases *)

(** Everything that can happen to the store other than by the holder of the
    lease on delivery [did]: operations on other rows, claims of [did] before
    the lease expires at [expiry], completions under any other owner. *)
Inductive other_step (did owner : string) (expiry : Z) (s : store) : store -> Prop :=
| other_create input now uuid s' r :
    fresh_uuid s uuid -> createHandoff input now uuid s = Ok (s', r) ->
    other_step did owner expiry s s'
| other_record input cb now u1 u2 s' r :
    fresh_uuid s u1 -> fresh_uuid s u2 ->
    recordExecutionEvent input cb now u1 u2 s = Ok (s', r) -> other_step did owner expiry s s'
| other_claim did' owner' att lease now :
    (did' = did -> att < expiry) ->
    other_step did owner expiry s (markCallbackDelivering did' owner' att lease now s).1
| other_delivered did' owner' at_ rs n1 n2 :
    (did' = did -> owner' <> owner) ->
    other_step did owner expiry s (markCallbackDelivered did' owner' at_ rs n1 n2 s).1
| other_failed did' owner' upd n1 n2 :
    (did' = did -> owner' <> owner) ->
    other_step did owner expiry s (markCallbackFailed did' owner' upd n1 n2 s).1
| other_requeue did' at_ n1 n2 :
    other_step did owner expiry s (requeueCallbackDelivery did' at_ n1 n2 s).1.

Lemma create_keeps_deliveries input now u s s' r :
  wf s -> createHandoff input now u s = Ok (s', r) -> deliveries s' = deliveries s.
Proof.
  intros W H. by destruct (create_cases _ _ _ _ _ _ W H) as (i & _ & [(-> & _)|(_ & _ & ->)]).
Qed.

Lemma record_keeps_delivery input cb now u1 u2 s s' r did d :
  wf s -> fresh_uuid s u2 -> recordExecutionEvent input cb now u1 u2 s = Ok (s', r) ->
  map_get did (deliveries s) = Some d -> map_get did (deliveries s') = Some d.
Proof.
  intros W (_ & _ & _ & Hu & _) H Hd.
  destruct (record_cases _ _ _ _ _ _ _ _ W H)
    as (h & _ & [(-> & _)|(_ & _ & _ & (body & Hb) & _ & ->)]); [done|].
  simpl. rewrite Hb. simpl. rewrite map_get_set_ne; congruence.
Qed.

(** An operation on row [did'] leaves every other row, and a row it is not
    allowed to touch, as it was. *)
Lemma claim_keeps did did' owner att lease now s d :
  map_get did (deliveries s) = Some d -> (did' = did -> delivery_ready att d = false) ->
  map_get did (deliveries (markCallbackDelivering did' owner att lease now s).1) = Some d.
Proof.
  intros Hd Hr. unfold markCallbackDelivering.
  destruct (String.eqb_spec did' did) as [->|Hn].
  - by rewrite Hd, Hr.
  - repeat case_match; try done. simpl. by rewrite map_get_set_ne.
Qed.

Lemma delivered_keeps did did' owner at_ rs n1 n2 s d :
  map_get did (deliveries s) = Some d -> (did' = did -> holds_lease owner d = false) ->
  map_get did (deliveries (markCallbackDelivered did' owner at_ rs n1 n2 s).1) = Some d.
Proof.
  intros Hd Hr. unfold markCallbackDelivered.
  destruct (String.eqb_spec did' did) as [->|Hn].
  - by rewrite Hd, Hr.
  - repeat case_match; try done. simpl. rewrite reflect_deliveries. simpl. by rewrite map_get_set_ne.
Qed.

Lemma failed_keeps did did' owner upd n1 n2 s d :
  map_get did (deliveries s) = Some d -> (did' = did -> holds_lease owner d = false) ->
  map_get did (deliveries (markCallbackFailed did' owner upd n1 n2 s).1) = Some d.
Proof.
  intros Hd Hr. unfold markCallbackFailed.
  destruct (String.eqb_spec did' did) as [->|Hn].
  - by rewrite Hd, Hr.
  - clear Hr. destruct (map_get did' (deliveries s)); [|exact Hd]. destruct (holds_lease _ _); [|exact Hd].
    cbn [fst]. rewrite reflect_deliveries. simpl. by rewrite map_get_set_ne.
Qed.

Lemma requeue_keeps did did' at_ n1 n2 s d :
  map_get did (deliveries s) = Some d -> (did' = did -> dv_status d <> dl_dead_letter) ->
  map_get did (deliveries (requeueCallbackDelivery did' at_ n1 n2 s).1) = Some d.
Proof.
  intros Hd Hr. unfold requeueCallbackDelivery.
  destruct (String.eqb_spec did' did) as [->|Hn].
  - rewrite Hd, bool_decide_eq_false_2; [done|]. by apply Hr.
  - repeat case_match; try done. simpl. rewrite reflect_deliveries. simpl. by rewrite map_get_set_ne.
Qed.

#[local] Hint Resolve claim_keeps delivered_keeps failed_keeps requeue_keeps record_keeps_delivery
  : cotsel.

Lemma other_step_keeps did owner expiry s s' d :
  wf s -> map_get did (deliveries s) = Some d ->
  dv_status d = dl_delivering -> dv_leaseOwner d = Some owner -> dv_leaseExpiresAt d = Some expiry ->
  other_step did owner expiry s s' -> map_get did (deliveries s') = Some d.
Proof.
  intros W Hd Hst Ho Hl Hs.
  assert (Hnr : forall att, att < expiry -> delivery_ready att d = false).
  { intros att Ha. unfold delivery_ready. rewrite Hst, Hl. lia. }
  assert (Hnl : forall o, o <> owner -> holds_lease o d = false).
  { intros o Hne. unfold holds_lease. rewrite Ho. apply andb_false_iff. right.
    apply bool_decide_eq_false. congruence. }
  destruct Hs as [input now u s' r F H| | | | | ]; eauto with cotsel.
  - by rewrite (create_keeps_deliveries _ _ _ _ _ _ W H).
  - apply requeue_keeps; [done|]. congruence.
Qed.

Lemma other_step_step did owner expiry s s' : other_step did owner expiry s s' -> step s s'.
Proof.
  destruct 1; eauto using step_create, step_record, step_delivering, step_delivered, step_failed,
    step_requeue.
Qed.

Lemma markDelivering_claim did owner att lease now s s1 d :
  markCallbackDelivering did owner att lease now s = (s1, Some d) ->
  map_get did (deliveries s1) = Some d /\ dv_status d = dl_delivering /\
  dv_leaseOwner d = Some owner /\ dv_leaseExpiresAt d = Some lease /\
  exists d0, map_get did (deliveries s) = Some d0 /\ dv_attemptCount d = dv_attemptCount d0 + 1 /\
    delivery_ready att d0 = true.
Proof.
  unfold markCallbackDelivering. destruct (map_get did (deliveries s)) as [d0|] eqn:E; [|done].
  destruct (delivery_ready att d0) eqn:Er; [|done]. intros [= <- <-]. simpl.
  rewrite map_get_set. repeat split. eauto.
Qed.

(** Lease exclusivity: after a worker claims a delivery until [lease], no
    sequence of operations by anyone else (other claims before the lease
    expires, completions under another owner, requeues, new events, work on
    other rows) changes that delivery in any way; and the claim was the only
    one possible at its time, counting one more attempt. *)
Theorem lease_exclusive did owner att lease now s s1 d s2 :
  reachable s ->
  markCallbackDelivering did owner att lease now s = (s1, Some d) ->
  rtc (other_step did owner lease) s1 s2 ->
  getCallbackDelivery did s2 = Some d /\ dv_leaseOwner d = Some owner /\
  (forall owner' att' lease' now', att' < lease ->
     markCallbackDelivering did owner' att' lease' now' s2 = (s2, None)) /\
  exists d0, getCallbackDelivery did s = Some d0 /\ dv_attemptCount d = dv_attemptCount d0 + 1.
Proof.
  intros W%reachable_wf H Hs.
  destruct (markDelivering_claim _ _ _ _ _ _ _ _ H) as (Hd & Hst & Ho & Hl & d0 & Hd0 & Hc & _).
  assert (W1 : wf s1).
  { replace s1 with (markCallbackDelivering did owner att lease now s).1 by (by rewrite H).
    by apply wf_markDelivering. }
  assert (Hd2 : map_get did (deliveries s2) = Some d).
  { clear H. induction Hs as [|x y z Hxy Hyz IH]; [done|].
    apply IH; [by eapply other_step_keeps|]. eapply wf_step; [done|]. by eapply other_step_step. }
  split_and!; [done|done| |eauto].
  intros owner' att' lease' now' Ha. unfold markCallbackDelivering. rewrite Hd2.
  unfold delivery_ready. rewrite Hst, Hl. by destruct (Z.leb_spec lease att'); [lia|].
Qed.

(** A delivered callback is final: no operation ever changes it again, so it
    is neither claimed, failed, requeued nor delivered a second time. *)
Theorem delivered_is_final did s s' d :
  reachable s -> getCallbackDelivery did s = Some d -> dv_status d = dl_delivered ->
  rtc step s s' -> getCallbackDelivery did s' = Some d.
Proof.
  intros W%reachable_wf Hd Hst Hs. unfold getCallbackDelivery in *.
  induction Hs as [|x y z Hxy Hyz IH]; [done|]. apply IH; [by eapply wf_step|].
  assert (Hl : forall o, holds_lease o d = false) by (intros o; unfold holds_lease; by rewrite Hst).
  assert (Hr : forall t, delivery_ready t d = false) by (intros t; unfold delivery_ready; by rewrite Hst).
  destruct Hxy as [input now u s' r F H| | | | | ]; eauto with cotsel.
  - by rewrite (create_keeps_deliveries _ _ _ _ _ _ W H).
  - apply requeue_keeps; [done|]. congruence.
Qed.

(** ** A concrete run *)

Definition fresh_check (s : store) (u : string) : bool :=
  truthy u && no_colon u
  && match map_get u (handoffs s) with None => true | _ => false end
  && match map_get u (deliveries s) with None => true | _ => false end
  && forallb (fun b => forallb (fun e => negb (String.eqb (ev_eventId e) u)) b.2) (events s).

Lemma fresh_check_sound s u : fresh_check s u = true -> fresh_uuid s u.
Proof.
  unfold fresh_check, fresh_uuid. intros H. reflect_bools. split_and!; try done.
  - by destruct (map_get u (handoffs s)).
  - by destruct (map_get u (deliveries s)).
  - intros id e. unfold bucket, listExecutionEvents.
    destruct (map_get id (events s)) as [b|] eqn:E; [|by intros ?%not_elem_of_nil].
    intros Hin Heq. apply map_get_In in E. simpl in Hin.
    match goal with H : forallb _ (events s) = true |- _ => apply forallb_true in H;
      rewrite Forall_forall in H; specialize (H _ E); apply forallb_true in H;
      rewrite Forall_forall in H; specialize (H e Hin) end.
    reflect_bools. done.
Qed.

Definition sample_create : CreateSettlementHandoffInput :=
  {| ci_executionBinding := Undefined; ci_platformId := "agroasys"; ci_platformHandoffId := "p-1";
     ci_tradeId := "7"; ci_phase := "stage_1"; ci_settlementChannel := "cotsel_escrow";
     ci_displayCurrency := "USD"; ci_displayAmount := AmtText "1000.5";
     ci_assetSymbol := Some "USDC"; ci_assetAmount := Some (AmtText "1000.5");
     ci_ricardianHash := Null; ci_externalReference := Null; ci_metadata := [];
     ci_requestId := "req-1"; ci_sourceApiKeyId := Some "svc" |}.

Definition sample_event (t : SettlementEventType) (st : SettlementExecutionStatus) (k : string)
    : PersistSettlementExecutionEventInput :=
  {| pi_handoffId := "h1"; pi_eventType := t; pi_executionStatus := st;
     pi_reconciliationStatus := rs_pending; pi_providerStatus := None; pi_txHash := None;
     pi_detail := None; pi_metadata := []; pi_observedAt := 5; pi_requestId := "req-2";
     pi_sourceApiKeyId := Some "svc"; pi_dedupeKey := k |}.

Definition sample_plan : SettlementCallbackPlan :=
  {| cp_targetUrl := "https://platform/callback"; cp_requestId := "req-2"; cp_enabled := true;
     cp_nextAttemptAt := 10; cp_buildRequestBody := fun _ _ => Ok JNull |}.

Definition store_of {A} (r : result GatewayError (store * A)) : store :=
  match r with Ok (s, _) => s | Err _ => createInMemorySettlementStore [] end.

Definition sample0 : store := createInMemorySettlementStore [].
Definition sample1 : store := store_of (createHandoff sample_create 1 "h1" sample0).
Definition sample2 : store :=
  store_of (recordExecutionEvent (sample_event e_submitted x_submitted "k1") sample_plan 6 "e1" "d1"
              sample1).
Definition sample3 : store := (markCallbackDelivering "d1" "w1" 10 40 10 sample2).1.
Definition sample4 : store := (markCallbackDelivered "d1" "w1" 12 200 12 12 sample3).1.

Lemma sample_result {A} (r : result GatewayError (store * A)) x :
  r = Ok x -> r = Ok (store_of r, x.2).
Proof. intros ->. by destruct x. Qed.

Lemma sample1_reachable : reachable sample1.
Proof.
  apply rtc_once. eapply (step_create _ sample_create 1 "h1").
  - by apply fresh_check_sound.
  - apply sample_result with (x := (sample1, new_handoff sample_create
      {| mi_displayCurrency := "USD"; mi_displayAmount := "1000.50"; mi_assetSymbol := Some "USDC";
         mi_assetAmount := Some "1000.500000" |} 1 "h1")). vm_compute. reflexivity.
Qed.

Lemma sample2_reachable : reachable sample2.
Proof.
  eapply rtc_r; [apply sample1_reachable|].
  eapply (step_record _ (sample_event e_submitted x_submitted "k1") sample_plan 6 "e1" "d1");
    [by apply fresh_check_sound..|].
  vm_compute. reflexivity.
Qed.

Lemma sample4_reachable : reachable sample4.
Proof.
  eapply rtc_r; [eapply rtc_r; [apply sample2_reachable|]|].
  - apply (step_delivering _ "d1" "w1" 10 40 10).
  - apply (step_delivered _ "d1" "w1" 12 200 12 12).
Qed.

Lemma store_event_sourced_witness :
  exists h, getHandoff "h1" sample2 = Some h /\ h_executionStatus h = x_submitted /\
    run x_pending (transitions_of (listExecutionEvents "h1" sample2)) (h_executionStatus h).
Proof.
  eexists. split; [vm_compute; reflexivity|]. split; [reflexivity|].
  refine (proj1 (store_event_sourced sample2 "h1" _ sample2_reachable _)). vm_compute. reflexivity.
Defined.

Lemma record_event_idempotent_witness :
  exists r', recordExecutionEvent (sample_event e_failed x_failed "k1") sample_plan 99 "x" "y" sample4
             = Ok (sample4, r') /\ ev_eventId (rec_event r') = "e1".
Proof.
  assert (Hr : exists r, recordExecutionEvent (sample_event e_submitted x_submitted "k1") sample_plan
                           6 "e1" "d1" sample1 = Ok (sample2, r) /\ ev_eventId (rec_event r) = "e1").
  { eexists. split; vm_compute; reflexivity. }
  destruct Hr as (r & Hr & He).
  destruct (record_event_idempotent sample1 sample2 sample4 _ _ _ _ _ r
    (sample_event e_failed x_failed "k1") sample_plan 99 "x" "y" sample1_reachable
    (fresh_check_sound sample1 "e1" eq_refl) (fresh_check_sound sample1 "d1" eq_refl) Hr) as (r' & H1 & H2 & _).
  - eapply rtc_l; [apply (step_delivering _ "d1" "w1" 10 40 10)|]. apply rtc_once.
    apply (step_delivered _ "d1" "w1" 12 200 12 12).
  - reflexivity.
  - reflexivity.
  - exists r'. rewrite H2, He. split; [exact H1|reflexivity].
Defined.

Lemma create_handoff_once_witness :
  exists r r', createHandoff sample_create 1 "h1" sample0 = Ok (sample1, r) /\
    createHandoff sample_create 50 "h9" sample2 = Ok (sample2, r') /\ terms_of r' = terms_of r.
Proof.
  assert (Hr : exists r, createHandoff sample_create 1 "h1" sample0 = Ok (sample1, r)).
  { eexists. vm_compute. reflexivity. }
  assert (Hr' : exists r', createHandoff sample_create 50 "h9" sample2 = Ok (sample2, r')).
  { eexists. vm_compute. reflexivity. }
  destruct Hr as (r & Hr), Hr' as (r' & Hr'). exists r, r'. split; [exact Hr|]. split; [exact Hr'|].
  refine (proj1 (proj2 (create_handoff_once sample0 sample1 sample2 sample2 sample_create sample_create
    1 50 "h1" "h9" r r' _ (fresh_check_sound sample0 "h1" eq_refl) Hr _ eq_refl eq_refl Hr'))).
  - apply rtc_refl.
  - apply rtc_once. eapply (step_record _ (sample_event e_submitted x_submitted "k1") sample_plan 6 "e1" "d1");
      [by apply fresh_check_sound..|]. vm_compute. reflexivity.
Defined.

Lemma lease_exclusive_witness :
  exists d, markCallbackDelivering "d1" "w1" 10 40 10 sample2 = (sample3, Some d) /\
    dv_attemptCount d = 1 /\
    getCallbackDelivery "d1" (markCallbackDelivered "d1" "w2" 11 200 11 11 sample3).1 = Some d.
Proof.
  assert (Hd : exists d, markCallbackDelivering "d1" "w1" 10 40 10 sample2 = (sample3, Some d) /\
                 dv_attemptCount d = 1).
  { eexists. split; vm_compute; reflexivity. }
  destruct Hd as (d & Hd & Hc). exists d. split; [exact Hd|]. split; [exact Hc|].
  refine (proj1 (lease_exclusive "d1" "w1" 10 40 10 sample2 sample3 d _ sample2_reachable Hd _)).
  apply rtc_once. apply other_delivered. intros _. discriminate.
Defined.

Lemma delivered_is_final_witness :
  exists d, getCallbackDelivery "d1" sample4 = Some d /\ dv_status d = dl_delivered /\
    getCallbackDelivery "d1" (requeueCallbackDelivery "d1" 90 90 90 sample4).1 = Some d.
Proof.
  assert (Hd : exists d, getCallbackDelivery "d1" sample4 = Some d /\ dv_status d = dl_delivered).
  { eexists. split; vm_compute; reflexivity. }
  destruct Hd as (d & Hd & Hst). exists d. split; [exact Hd|]. split; [exact Hst|].
  apply (delivered_is_final "d1" sample4 _ d sample4_reachable Hd Hst).
  apply rtc_once. apply (step_requeue _ "d1" 90 90 90).
Defined.
