(* ===== verification/CallbackDispatcher.v ===== *)
(** The settlement callback dispatcher:
    gateway/src/core/settlementCallbackDispatcher.ts.

    The dispatcher is written against the delivery part of the [SettlementStore]
    interface, here the class [CallbackStore]; its laws [CallbackStoreLaws] are
    what the store promises, and the store of SettlementStore.v discharges them.
    What a callback request does ([fetch], [URL], request signing) and what other
    workers do to the store while it is in flight are inputs of the model. *)
From stdpp Require Import base list gmap strings.
From S2P Require Import Prelude JsText JsMap SettlementTypes SettlementMachine SettlementAmount.
From S2P Require Import SettlementStore SettlementStoreInv.

Open Scope string_scope.
Open Scope Z_scope.

(** ** The interface *)

Class CallbackStore (St : Type) := {
  cs_get : string -> St -> option SettlementCallbackDeliveryRecord;
  cs_due : Z -> Z -> St -> list SettlementCallbackDeliveryRecord;
  cs_claim : string -> string -> Z -> Z -> St -> St * option SettlementCallbackDeliveryRecord;
  cs_delivered : string -> string -> Z -> Z -> St -> St * bool;
  cs_failed : string -> string -> FailedUpdate -> St -> St * bool;
  cs_requeue : string -> Z -> St -> St * option SettlementCallbackDeliveryRecord }.

(** Row [id] of [s'] is [d], under the identifier it had; every other row is as
    in [s]. *)
Definition row_updated {St} `{CallbackStore St} (id : string) (s s' : St)
    (d : SettlementCallbackDeliveryRecord) : Prop :=
  cs_get id s' = Some d /\
  (forall d0, cs_get id s = Some d0 -> dv_deliveryId d = dv_deliveryId d0) /\
  forall id', id' <> id -> cs_get id' s' = cs_get id' s.

Class CallbackStoreLaws (St : Type) `{CallbackStore St} := {
  law_claim : forall id w att lease s,
    match cs_get id s with
    | Some d =>
        if delivery_ready att d then
          exists s' d', cs_claim id w att lease s = (s', Some d') /\ row_updated id s s' d' /\
            dv_status d' = dl_delivering /\
            dv_leaseOwner d' = Some w /\ dv_leaseExpiresAt d' = Some lease /\
            dv_attemptCount d' = dv_attemptCount d + 1
        else cs_claim id w att lease s = (s, None)
    | None => cs_claim id w att lease s = (s, None)
    end;
  law_delivered : forall id w at_ rs s,
    match cs_get id s with
    | Some d =>
        if holds_lease w d then
          exists s' d', cs_delivered id w at_ rs s = (s', true) /\ row_updated id s s' d' /\
            dv_status d' = dl_delivered /\ dv_deliveredAt d' = Some at_ /\
            dv_attemptCount d' = dv_attemptCount d
        else cs_delivered id w at_ rs s = (s, false)
    | None => cs_delivered id w at_ rs s = (s, false)
    end;
  law_failed : forall id w upd s,
    match cs_get id s with
    | Some d =>
        if holds_lease w d then
          exists s' d', cs_failed id w upd s = (s', true) /\ row_updated id s s' d' /\
            dv_status d' = (if fu_deadLetter upd then dl_dead_letter else dl_failed) /\
            dv_nextAttemptAt d' = fu_nextAttemptAt upd /\
            dv_attemptCount d' = dv_attemptCount d /\ dv_leaseOwner d' = None
        else cs_failed id w upd s = (s, false)
    | None => cs_failed id w upd s = (s, false)
    end;
  law_requeue : forall id at_ s,
    match cs_get id s with
    | Some d =>
        if bool_decide (dv_status d = dl_dead_letter) then
          exists s' d', cs_requeue id at_ s = (s', Some d') /\ row_updated id s s' d' /\
            dv_status d' = dl_pending /\ dv_nextAttemptAt d' = at_ /\
            dv_attemptCount d' = dv_attemptCount d
        else cs_requeue id at_ s = (s, None)
    | None => cs_requeue id at_ s = (s, None)
    end;
  law_due : forall limit now s d, d ∈ cs_due limit now s -> delivery_ready now d = true }.

(** ** The dispatcher *)

(** The settings of [GatewayConfig] the dispatcher reads. *)
Record CallbackConfig := {
  settlementCallbackEnabled : bool;
  settlementCallbackRequestTimeoutMs : Z;
  settlementCallbackMaxAttempts : Z;
  settlementCallbackInitialBackoffMs : Z;
  settlementCallbackMaxBackoffMs : Z }.

(** [initialBackoffMs * 2 ** n] is exact in doubles until it overflows to
    Infinity, where the minimum is [maxBackoffMs] as well. *)
Definition computeBackoffMs (attemptCount initialBackoffMs maxBackoffMs : Z) : Z :=
  let backoff := initialBackoffMs * 2 ^ Z.max 0 (attemptCount - 1) in
  Z.min maxBackoffMs backoff.

Definition leaseDurationMs (config : CallbackConfig) : Z :=
  Z.max 30000 (settlementCallbackRequestTimeoutMs config * 2).

(** How the request ended: a response, or an exception of the [try] block. *)
Inductive FetchOutcome :=
| Response (ok : bool) (status : Z)
| Throws (message : string).

(** One delivery attempt as the outside world sees it: the clock readings, the
    outcome, and what others did to the store while the request was in flight. *)
Record AttemptEnv (St : Type) := {
  attemptedAtDate : Z;
  outcome_of_request : FetchOutcome;
  during : St -> St;
  completedAt : Z }.
Arguments attemptedAtDate {St}.
Arguments outcome_of_request {St}.
Arguments during {St}.
Arguments completedAt {St}.

Section dispatcher.
Context {St : Type} `{CallbackStore St}.
Variables (config : CallbackConfig) (workerId : string).

(** The new store, and the delivery handed to the failed-operation workflow. *)
Definition scheduleFailure (delivery : SettlementCallbackDeliveryRecord) (message : string)
    (responseStatus : option Z) (now : Z) (s : St)
    : St * option SettlementCallbackDeliveryRecord :=
  let deadLetter := settlementCallbackMaxAttempts config <=? dv_attemptCount delivery in
  let nextAttemptAt :=
    now + computeBackoffMs (dv_attemptCount delivery) (settlementCallbackInitialBackoffMs config)
            (settlementCallbackMaxBackoffMs config) in
  let '(s', updated) :=
    cs_failed (dv_deliveryId delivery) workerId
      {| fu_attemptedAt := now; fu_responseStatus := responseStatus; fu_errorMessage := message;
         fu_nextAttemptAt := nextAttemptAt; fu_deadLetter := deadLetter |} s in
  if updated then
    (s', if deadLetter then cs_get (dv_deliveryId delivery) s' else None)
  else (s', None).

Definition processDelivery (deliveryId : string) (env : AttemptEnv St) (s : St)
    : St * option SettlementCallbackDeliveryRecord :=
  let attemptedAt := attemptedAtDate env in
  let leaseExpiresAt := attemptedAtDate env + leaseDurationMs config in
  let '(s1, claimed) := cs_claim deliveryId workerId attemptedAt leaseExpiresAt s in
  match claimed with
  | None => (s1, None)
  | Some delivery =>
      let s2 := during env s1 in
      match outcome_of_request env with
      | Response true status =>
          ((cs_delivered deliveryId workerId (completedAt env) status s2).1, None)
      | Response false status =>
          scheduleFailure delivery ("HTTP " ++ print_Z status) (Some status) (completedAt env) s2
      | Throws message => scheduleFailure delivery message None (completedAt env) s2
      end
  end.

(** The [for] loop over the due deliveries, one at a time. *)
Fixpoint processAll (ids : list string) (env : string -> AttemptEnv St) (s : St)
    : St * list SettlementCallbackDeliveryRecord :=
  match ids with
  | [] => (s, [])
  | id :: rest =>
      let '(s1, captured) := processDelivery id (env id) s in
      let '(s2, more) := processAll rest env s1 in
      (s2, (option_list captured ++ more)%list)
  end.

(** [running] is the re-entrancy flag when the poll starts. *)
Definition processDueDeliveries (running : bool) (limit now : Z)
    (env : string -> AttemptEnv St) (s : St) : St * list SettlementCallbackDeliveryRecord :=
  if running || negb (settlementCallbackEnabled config) then (s, [])
  else processAll (map dv_deliveryId (cs_due limit now s)) env s.

Definition replayDeadLetterDelivery (deliveryId : string) (now : Z) (env : AttemptEnv St) (s : St)
    : result string (St * option SettlementCallbackDeliveryRecord) :=
  let '(s1, requeued) := cs_requeue deliveryId now s in
  match requeued with
  | None => Err ("Settlement callback delivery is not eligible for replay: " ++ deliveryId)
  | Some _ => Ok (processDelivery deliveryId env s1)
  end.
End dispatcher.

(** ** Theorems against the interface *)

Lemma computeBackoff_bounds n i m :
  0 <= i -> 0 <= m -> Z.min i m <= computeBackoffMs n i m <= m.
Proof.
  intros Hi Hm. unfold computeBackoffMs.
  pose proof (Z.pow_pos_nonneg 2 (Z.max 0 (n - 1)) ltac:(lia) ltac:(lia)). nia.
Qed.

Lemma computeBackoff_mono n n' i m :
  0 <= i -> n <= n' -> computeBackoffMs n i m <= computeBackoffMs n' i m.
Proof.
  intros Hi Hn. unfold computeBackoffMs. apply Z.min_le_compat_l.
  apply Z.mul_le_mono_nonneg_l; [done|]. apply Z.pow_le_mono_r; lia.
Qed.

Section correctness.
Context {St : Type} `{CallbackStoreLaws St}.
Variables (config : CallbackConfig) (w : string).

(** Whether the request was answered with a success. *)
Definition request_ok (env : AttemptEnv St) : bool :=
  match outcome_of_request env with Response ok _ => ok | Throws _ => false end.

(** While the request is in flight nobody takes the claimed row away. *)
Definition undisturbed (id : string) (env : AttemptEnv St) : Prop :=
  forall s d, cs_get id s = Some d -> dv_leaseOwner d = Some w ->
    dv_leaseExpiresAt d = Some (attemptedAtDate env + leaseDurationMs config) ->
    cs_get id (during env s) = Some d.

(** The state of a delivery after an attempt on it. *)
Definition after_attempt (env : AttemptEnv St) (d d' : SettlementCallbackDeliveryRecord) : Prop :=
  dv_deliveryId d' = dv_deliveryId d /\ dv_attemptCount d' = dv_attemptCount d + 1 /\
  if request_ok env then dv_status d' = dl_delivered /\ dv_deliveredAt d' = Some (completedAt env)
  else
    dv_nextAttemptAt d' =
      completedAt env +
      computeBackoffMs (dv_attemptCount d + 1) (settlementCallbackInitialBackoffMs config)
        (settlementCallbackMaxBackoffMs config) /\
    dv_status d' = if settlementCallbackMaxAttempts config <=? dv_attemptCount d + 1
                   then dl_dead_letter else dl_failed.

Lemma processDelivery_not_ready id env s :
  (forall d, cs_get id s = Some d -> delivery_ready (attemptedAtDate env) d = false) ->
  processDelivery config w id env s = (s, None).
Proof.
  intros Hn. unfold processDelivery.
  pose proof (law_claim id w (attemptedAtDate env)
    (attemptedAtDate env + leaseDurationMs config) s) as L.
  destruct (cs_get id s) as [d|]; [rewrite (Hn d eq_refl) in L|]; by rewrite L.
Qed.

Lemma scheduleFailure_spec id d d1 msg rs now s :
  cs_get id s = Some d -> dv_deliveryId d1 = id -> dv_attemptCount d1 = dv_attemptCount d ->
  holds_lease w d = true ->
  exists s' d', (scheduleFailure config w d1 msg rs now s).1 = s' /\
    cs_get id s' = Some d' /\ dv_deliveryId d' = dv_deliveryId d /\
    dv_attemptCount d' = dv_attemptCount d /\
    dv_nextAttemptAt d' = now + computeBackoffMs (dv_attemptCount d)
      (settlementCallbackInitialBackoffMs config) (settlementCallbackMaxBackoffMs config) /\
    dv_status d' = (if settlementCallbackMaxAttempts config <=? dv_attemptCount d
                    then dl_dead_letter else dl_failed) /\
    (scheduleFailure config w d1 msg rs now s).2 =
      (if settlementCallbackMaxAttempts config <=? dv_attemptCount d then Some d' else None).
Proof.
  intros Hg Hid Hc Hl. unfold scheduleFailure. rewrite Hid, Hc.
  set (upd := {| fu_attemptedAt := _ |}).
  pose proof (law_failed id w upd s) as L. rewrite Hg, Hl in L.
  destruct L as (s' & d' & -> & (Hg' & Hi & _) & Hst & Hn & Hc' & _).
  exists s', d'. rewrite Hg'. specialize (Hi d Hg). by split_and!.
Qed.

Lemma processDelivery_claimed id env s d :
  cs_get id s = Some d -> dv_deliveryId d = id ->
  delivery_ready (attemptedAtDate env) d = true -> undisturbed id env ->
  exists d', cs_get id (processDelivery config w id env s).1 = Some d' /\ after_attempt env d d' /\
    (processDelivery config w id env s).2 =
      if request_ok env then None
      else if settlementCallbackMaxAttempts config <=? dv_attemptCount d + 1 then Some d' else None.
Proof.
  intros Hg Hid Hr Hu. unfold processDelivery, after_attempt, request_ok.
  pose proof (law_claim id w (attemptedAtDate env)
    (attemptedAtDate env + leaseDurationMs config) s) as L.
  rewrite Hg, Hr in L.
  destruct L as (s1 & d1 & -> & (Hg1 & Hid1 & _) & Hst & Ho & Hl & Hc).
  specialize (Hid1 d Hg). pose proof (Hu s1 d1 Hg1 Ho Hl) as Hg2.
  assert (Hh : holds_lease w d1 = true).
  { unfold holds_lease. by rewrite Hst, Ho, !bool_decide_eq_true_2. }
  rewrite Hid in Hid1.
  destruct (outcome_of_request env) as [[] status|msg].
  - pose proof (law_delivered id w (completedAt env) status (during env s1)) as L.
    rewrite Hg2, Hh in L. destruct L as (s' & d' & -> & (Hg' & Hi & _) & Hst' & Hda & Hc').
    specialize (Hi d1 Hg2). exists d'. simpl. repeat split; congruence || lia.
  - destruct (scheduleFailure_spec id d1 d1 ("HTTP " ++ print_Z status) (Some status)
      (completedAt env) (during env s1)) as (s' & d' & <- & Hg' & Hi & Hc' & Hn & Hs' & Hcap); try done.
    rewrite Hc in *. exists d'. repeat split; congruence || lia.
  - destruct (scheduleFailure_spec id d1 d1 msg None
      (completedAt env) (during env s1)) as (s' & d' & <- & Hg' & Hi & Hc' & Hn & Hs' & Hcap); try done.
    rewrite Hc in *. exists d'. repeat split; congruence || lia.
Qed.

(** One attempt: an undisturbed attempt on a due delivery counts exactly one
    more attempt and ends delivered when the platform answered with success;
    otherwise it is scheduled again after the capped exponential backoff, or
    dead-lettered (and handed to the failed-operation workflow) when it was the
    last attempt allowed.  A delivery that is not due is left alone. *)
Theorem processDelivery_outcome id env s d :
  cs_get id s = Some d -> dv_deliveryId d = id -> undisturbed id env ->
  if delivery_ready (attemptedAtDate env) d then
    exists d', cs_get id (processDelivery config w id env s).1 = Some d' /\ after_attempt env d d' /\
      (processDelivery config w id env s).2 =
        if request_ok env then None
        else if settlementCallbackMaxAttempts config <=? dv_attemptCount d + 1
             then Some d' else None
  else processDelivery config w id env s = (s, None).
Proof.
  intros Hg Hid Hu. destruct (delivery_ready _ d) eqn:Hr.
  - by apply processDelivery_claimed.
  - apply processDelivery_not_ready. intros d' Hd'. congruence.
Qed.

(** Successive attempts on one delivery. *)
Fixpoint attempts (id : string) (envs : list (AttemptEnv St)) (s : St) : St :=
  match envs with
  | [] => s
  | env :: rest => attempts id rest (processDelivery config w id env s).1
  end.

(** Each attempt starts when the previous one has made the delivery due. *)
Fixpoint spaced (due : Z) (envs : list (AttemptEnv St)) : Prop :=
  match envs with
  | [] => True
  | env :: rest =>
      due <= attemptedAtDate env /\
      spaced (completedAt env + settlementCallbackMaxBackoffMs config) rest
  end.

Definition retryable (d : SettlementCallbackDeliveryRecord) : Prop :=
  dv_status d = dl_pending \/ dv_status d = dl_failed.

Lemma attempts_dead id envs s d :
  cs_get id s = Some d -> dv_status d = dl_dead_letter -> attempts id envs s = s.
Proof.
  intros Hg Hst. induction envs as [|env envs IH]; simpl; [done|].
  rewrite processDelivery_not_ready; [done|]. intros d' Hd'.
  assert (d' = d) as -> by congruence. unfold delivery_ready. by rewrite Hst.
Qed.

Lemma attempts_fail id envs s d :
  cs_get id s = Some d -> dv_deliveryId d = id -> retryable d ->
  dv_attemptCount d < settlementCallbackMaxAttempts config ->
  Forall (fun env => request_ok env = false /\ undisturbed id env) envs ->
  spaced (dv_nextAttemptAt d) envs ->
  exists d', cs_get id (attempts id envs s) = Some d' /\
    dv_attemptCount d' = Z.min (dv_attemptCount d + Z.of_nat (length envs))
                           (settlementCallbackMaxAttempts config) /\
    (dv_attemptCount d + Z.of_nat (length envs) < settlementCallbackMaxAttempts config ->
       retryable d') /\
    (settlementCallbackMaxAttempts config <= dv_attemptCount d + Z.of_nat (length envs) ->
       dv_status d' = dl_dead_letter).
Proof.
  revert s d. induction envs as [|env envs IH]; intros s d Hg Hid Hst Hlt Hf Hsp.
  { exists d. simpl. split_and!; [done|lia|done|lia]. }
  apply Forall_cons in Hf as [[Hok Hu] Hf]. destruct Hsp as [Ht Hsp].
  assert (Hr : delivery_ready (attemptedAtDate env) d = true)
    by (unfold delivery_ready; destruct Hst as [-> | ->]; lia).
  destruct (processDelivery_claimed id env s d Hg Hid Hr Hu) as (d1 & Hg1 & (Hi & Hc & Ha) & _).
  rewrite Hok in Ha. destruct Ha as [Hn Hs]. simpl attempts. simpl length.
  destruct (Z.leb_spec (settlementCallbackMaxAttempts config) (dv_attemptCount d + 1)).
  - exists d1. rewrite (attempts_dead id envs _ d1) by done. split_and!; [done|lia|lia|done].
  - destruct (IH (processDelivery config w id env s).1 d1) as (d' & Hg' & Hc' & Hret & Hdead); [done|congruence|by right|lia|done| |].
    + destruct envs as [|e envs]; [done|]. destruct Hsp as [? ?]. split; [|done].
      unfold computeBackoffMs in Hn. lia.
    + exists d'. rewrite Hc in *. split_and!; [done|lia|intros; apply Hret; lia|intros; apply Hdead; lia].
Qed.

(** Retry budget: a new delivery whose every attempt fails is attempted again
    each time it is due, stays retryable until the configured number of attempts
    is used up, is dead-lettered by exactly the last of them and is then never
    attempted again however often it is polled. *)
Theorem retry_budget_exhausted id envs s d :
  1 <= settlementCallbackMaxAttempts config ->
  cs_get id s = Some d -> dv_deliveryId d = id ->
  dv_status d = dl_pending -> dv_attemptCount d = 0 ->
  Forall (fun env => request_ok env = false /\ undisturbed id env) envs ->
  spaced (dv_nextAttemptAt d) envs ->
  exists d', cs_get id (attempts id envs s) = Some d' /\
    dv_attemptCount d' = Z.min (Z.of_nat (length envs)) (settlementCallbackMaxAttempts config) /\
    (dv_status d' = dl_dead_letter <->
     settlementCallbackMaxAttempts config <= Z.of_nat (length envs)).
Proof.
  intros Hm Hg Hid Hst Hc Hf Hsp.
  destruct (attempts_fail id envs s d Hg Hid (or_introl Hst) ltac:(lia) Hf Hsp)
    as (d' & Hg' & Hc' & Hret & Hdead).
  exists d'. rewrite Hc in *. split_and!; [done|lia|]. split; [|intros; apply Hdead; lia].
  intros Hd. destruct (Z.le_gt_cases (settlementCallbackMaxAttempts config) (Z.of_nat (length envs)));
    [done|]. destruct Hret as [?|?]; [lia|congruence|congruence].
Qed.

(** A dead-lettered delivery that an operator replays gets one more attempt:
    the replay requeues it and attempts it at once, and if that attempt fails it
    is dead-lettered again, since the attempt count is never reset.  Any other
    delivery is refused. *)
Theorem replay_dead_letter id now env s d :
  cs_get id s = Some d -> dv_deliveryId d = id -> undisturbed id env ->
  now <= attemptedAtDate env ->
  settlementCallbackMaxAttempts config <= dv_attemptCount d ->
  if bool_decide (dv_status d = dl_dead_letter) then
    exists s' captured d', replayDeadLetterDelivery config w id now env s = Ok (s', captured) /\
      cs_get id s' = Some d' /\ dv_attemptCount d' = dv_attemptCount d + 1 /\
      dv_status d' = if request_ok env then dl_delivered else dl_dead_letter
  else is_ok (replayDeadLetterDelivery config w id now env s) = false.
Proof.
  intros Hg Hid Hu Ht Hm. unfold replayDeadLetterDelivery.
  pose proof (law_requeue id now s) as L. rewrite Hg in L.
  destruct (bool_decide _); [|by rewrite L].
  destruct L as (s1 & d1 & -> & (Hg1 & Hi & _) & Hst & Hn & Hc). specialize (Hi d Hg).
  destruct (processDelivery_claimed id env s1 d1) as (d' & Hg' & (_ & Hc' & Ha) & _);
    [done|congruence|unfold delivery_ready; rewrite Hst, Hn; lia|done|].
  destruct (processDelivery config w id env s1) as [s' captured]. exists s', captured, d'.
  rewrite Hc in *. split_and!; [done|done|done|].
  destruct (request_ok env); [by destruct Ha|]. destruct Ha as [_ ->].
  by destruct (Z.leb_spec (settlementCallbackMaxAttempts config) (dv_attemptCount d + 1)); [|lia].
Qed.
End correctness.

(** ** The settlement store implements the interface *)

#[export] Instance store_callbacks : CallbackStore store := {|
  cs_get := getCallbackDelivery;
  cs_due := getDueCallbackDeliveries;
  cs_claim := fun id w att lease s => markCallbackDelivering id w att lease att s;
  cs_delivered := fun id w at_ rs s => markCallbackDelivered id w at_ rs at_ at_ s;
  cs_failed := fun id w upd s =>
    markCallbackFailed id w upd (fu_attemptedAt upd) (fu_attemptedAt upd) s;
  cs_requeue := fun id at_ s => requeueCallbackDelivery id at_ at_ at_ s |}.

Lemma row_updated_store id d' s s' :
  deliveries s' = map_set id d' (deliveries s) ->
  (forall d0, map_get id (deliveries s) = Some d0 -> dv_deliveryId d' = dv_deliveryId d0) ->
  row_updated id s s' d'.
Proof.
  intros H Hi. unfold row_updated. simpl. unfold getCallbackDelivery. rewrite H.
  split_and!; [apply map_get_set|done|]. intros id' Hne. by apply map_get_set_ne.
Qed.

#[export] Instance store_callback_laws : CallbackStoreLaws store.
Proof.
  split; simpl; unfold getCallbackDelivery.
  - intros id w att lease s. unfold markCallbackDelivering.
    destruct (map_get id (deliveries s)) as [d|] eqn:E; [|done].
    destruct (delivery_ready att d); [|done]. do 2 eexists. split; [done|].
    split; [apply row_updated_store; [done|]|done].
    intros d0 Hd0. rewrite E in Hd0. by injection Hd0 as <-.
  - intros id w at_ rs s. unfold markCallbackDelivered.
    destruct (map_get id (deliveries s)) as [d|] eqn:E; [|done].
    destruct (holds_lease w d); [|done]. do 2 eexists. split; [done|].
    split; [apply row_updated_store; [by rewrite reflect_deliveries|]|done].
    intros d0 Hd0. rewrite E in Hd0. by injection Hd0 as <-.
  - intros id w upd s. unfold markCallbackFailed.
    destruct (map_get id (deliveries s)) as [d|] eqn:E; [|done].
    destruct (holds_lease w d); [|done]. do 2 eexists. split; [done|].
    split; [apply row_updated_store; [by rewrite reflect_deliveries|]|done].
    intros d0 Hd0. rewrite E in Hd0. by injection Hd0 as <-.
  - intros id at_ s. unfold requeueCallbackDelivery.
    destruct (map_get id (deliveries s)) as [d|] eqn:E; [|done].
    destruct (bool_decide _); [|done]. do 2 eexists. split; [done|].
    split; [apply row_updated_store; [by rewrite reflect_deliveries|]|done].
    intros d0 Hd0. rewrite E in Hd0. by injection Hd0 as <-.
  - intros limit now s d. unfold getDueCallbackDeliveries, slice.
    intros Hin. apply elem_of_take in Hin as (i & Hin & _).
    rewrite drop_0 in Hin. apply list_elem_of_lookup_2 in Hin.
    rewrite js_sort_Permutation in Hin. apply list_elem_of_In, filter_In in Hin as [_ ?]. done.
Qed.

(** ** Concrete runs *)

Definition sample_config : CallbackConfig :=
  {| settlementCallbackEnabled := true; settlementCallbackRequestTimeoutMs := 5000;
     settlementCallbackMaxAttempts := 2; settlementCallbackInitialBackoffMs := 100;
     settlementCallbackMaxBackoffMs := 1000 |}.

(** While "d1" is in flight another worker tries to claim it. *)
Definition sample_env (t : Z) (o : FetchOutcome) : AttemptEnv store :=
  {| attemptedAtDate := t; outcome_of_request := o;
     during := fun s => (markCallbackDelivering "d2" "w2" (t + 1) (t + 2) (t + 1) s).1;
     completedAt := t + 5 |}.

Lemma sample_env_undisturbed t o : undisturbed sample_config "w1" "d1" (sample_env t o).
Proof.
  intros s d Hd _ _. simpl. unfold getCallbackDelivery in *. apply claim_keeps; [done|]. congruence.
Qed.

Definition sample_delivery : SettlementCallbackDeliveryRecord :=
  new_delivery "h1" "e1" sample_plan JNull 6 "d1".

Lemma sample_get : cs_get "d1" sample2 = Some sample_delivery.
Proof. vm_compute. reflexivity. Qed.

Lemma processDelivery_outcome_witness :
  exists d', getCallbackDelivery "d1"
      (processDelivery sample_config "w1" "d1" (sample_env 10 (Response true 200)) sample2).1
    = Some d' /\ dv_status d' = dl_delivered.
Proof.
  destruct (processDelivery_outcome sample_config "w1" "d1" (sample_env 10 (Response true 200))
    sample2 sample_delivery sample_get eq_refl (sample_env_undisturbed _ _)) as (d' & Hd & Ha & _).
  exists d'. split; [exact Hd|]. apply Ha.
Defined.

Lemma retry_budget_exhausted_witness :
  exists d', getCallbackDelivery "d1"
      (attempts sample_config "w1" "d1"
         [sample_env 10 (Response false 503); sample_env 2000 (Throws "timeout")] sample2) = Some d' /\
    dv_status d' = dl_dead_letter.
Proof.
  destruct (retry_budget_exhausted sample_config "w1" "d1"
    [sample_env 10 (Response false 503); sample_env 2000 (Throws "timeout")] sample2 sample_delivery)
    as (d' & Hd & _ & Hst); try reflexivity; try apply sample_get; try (simpl; lia).
  - repeat constructor; apply sample_env_undisturbed.
  - exists d'. split; [exact Hd|]. apply Hst. simpl. lia.
Defined.

Definition sample_dead : store :=
  attempts sample_config "w1" "d1"
    [sample_env 10 (Response false 503); sample_env 2000 (Throws "timeout")] sample2.

Lemma replay_dead_letter_witness :
  exists s' c d', replayDeadLetterDelivery sample_config "w1" "d1" 9000
      (sample_env 9000 (Response false 500)) sample_dead = Ok (s', c) /\
    getCallbackDelivery "d1" s' = Some d' /\ dv_status d' = dl_dead_letter.
Proof.
  assert (Hd : exists d, getCallbackDelivery "d1" sample_dead = Some d /\ dv_deliveryId d = "d1" /\
                 dv_status d = dl_dead_letter /\ dv_attemptCount d = 2).
  { eexists. split; [vm_compute; reflexivity|]. repeat split. }
  destruct Hd as (d & Hd & Hi & Hst & Hc).
  pose proof (replay_dead_letter sample_config "w1" "d1" 9000 (sample_env 9000 (Response false 500))
    sample_dead d Hd Hi (sample_env_undisturbed _ _) ltac:(simpl; lia) ltac:(simpl; lia)) as H.
  rewrite bool_decide_eq_true_2 in H by exact Hst.
  destruct H as (s' & c & d' & H1 & H2 & _ & H3). exists s', c, d'.
  split; [exact H1|]. split; [exact H2|exact H3].
Defined.
