(* ===== verification/SettlementService.v ===== *)
(** The settlement service: gateway/src/core/settlementService.ts, the reader of
    reconciliation evidence, the callback payload and [recordExecutionEvent], over
    the store of [SettlementStore].

    The configuration is the four settings [shouldQueueCallback] reads; the hash
    behind the deduplication key is a parameter. *)
From stdpp Require Import base list gmap strings.
From S2P Require Import Prelude JsText JsMap JsDate SettlementTypes SettlementMachine SettlementAmount SettlementStore.

Open Scope string_scope.
Open Scope Z_scope.

Definition validation {A} (message : string) : result GatewayError A :=
  Err (gatewayError 400 VALIDATION_ERROR message).

(** ** Readers *)

(** [new Date(text)] of the caller's text is the date handed in. *)
Definition parseIsoTimestamp (value : js_date) (field : string) : result GatewayError Z :=
  match value with
  | None => validation (field ++ " must be an ISO-8601 timestamp")
  | Some t => Ok t
  end.

Definition requireNonEmpty (value field : string) : result GatewayError string :=
  let trimmed := trim value in
  if truthy trimmed then Ok trimmed else validation (field ++ " is required").

Definition SETTLEMENT_CALLBACK_CONTRACT_VERSION : string := "cotsel.settlement-callback.v1".
Definition SETTLEMENT_OBSERVED_AMOUNTS_SCHEMA_VERSION : string :=
  "cotsel.settlement-observed-amounts.v1".
Definition GASLESS_SPONSORSHIP_HANDOFF_PREFIX : string := "gasless-sponsorship:".

(** [/^(0|[1-9]\d{0,})(\.\d{1,2})?$/] *)
Definition SETTLEMENT_AMOUNT_PATTERN (s : string) : bool :=
  match split_dot s with
  | None => canonical_digits s
  | Some (i, f) => canonical_digits i && digits_only f && (String.length f <=? 2)%nat
  end.

(** [/^0x[0-9a-fA-F]{64}$/] *)
Definition SETTLEMENT_TRANSACTION_HASH_PATTERN (s : string) : bool := hex_word 64 s.

Definition requireObservedAmount (value : option json) (field : string) : result GatewayError string :=
  match value with
  | Some (JStr s) =>
      if SETTLEMENT_AMOUNT_PATTERN s then Ok s
      else validation (field ++ " must be a non-negative decimal string with at most two fractional digits")
  | _ => validation (field ++ " must be a non-negative decimal string with at most two fractional digits")
  end.

(** [Object.keys(value).sort()] *)
Definition sorted_keys (fields : list (string * json)) : list string :=
  js_sort String.leb (remove_dups fields.*1).

Definition requireExactKeys (fields : list (string * json)) (expectedKeys : list string)
    (field : string) : result GatewayError unit :=
  let requiredKeys := js_sort String.leb expectedKeys in
  throw_if (negb (bool_decide (sorted_keys fields = requiredKeys)))
    (gatewayError 400 VALIDATION_ERROR
       (field ++ " must contain exactly: " ++ String.concat ", " requiredKeys)).

Record SettlementObservedAmounts := {
  supplierPayoutUsd : string;
  treasuryClaimableUsd : string;
  buyerRefundUsd : string }.

Definition EVIDENCE_FIELD : string := "metadata.reconciliationEvidence".
Definition AMOUNTS_FIELD : string := "metadata.reconciliationEvidence.observedAmounts".

(** The evidence is its observed amounts: the schema version is the constant. *)
Definition parseReconciliationEvidence (value : option json) (required : bool)
    : result GatewayError (option SettlementObservedAmounts) :=
  match value with
  | None =>
      if required
      then validation "metadata.reconciliationEvidence is required for matched or drift reconciliation callbacks"
      else Ok None
  | Some (JObj evidence) =>
      _ ← requireExactKeys evidence ["schemaVersion"; "observedAmounts"] EVIDENCE_FIELD;
      _ ← throw_if (match json_assoc "schemaVersion" evidence with
                    | Some (JStr v) => negb (String.eqb v SETTLEMENT_OBSERVED_AMOUNTS_SCHEMA_VERSION)
                    | _ => true
                    end)
            (gatewayError 400 VALIDATION_ERROR
               ("metadata.reconciliationEvidence.schemaVersion must be "
                ++ SETTLEMENT_OBSERVED_AMOUNTS_SCHEMA_VERSION));
      match json_assoc "observedAmounts" evidence with
      | Some (JObj amounts) =>
          _ ← requireExactKeys amounts ["supplierPayoutUsd"; "treasuryClaimableUsd"; "buyerRefundUsd"]
                AMOUNTS_FIELD;
          s ← requireObservedAmount (json_assoc "supplierPayoutUsd" amounts)
                (AMOUNTS_FIELD ++ ".supplierPayoutUsd");
          t ← requireObservedAmount (json_assoc "treasuryClaimableUsd" amounts)
                (AMOUNTS_FIELD ++ ".treasuryClaimableUsd");
          b ← requireObservedAmount (json_assoc "buyerRefundUsd" amounts)
                (AMOUNTS_FIELD ++ ".buyerRefundUsd");
          Ok (Some {| supplierPayoutUsd := s; treasuryClaimableUsd := t; buyerRefundUsd := b |})
      | _ => validation "metadata.reconciliationEvidence.observedAmounts is required"
      end
  | Some _ =>
      validation "metadata.reconciliationEvidence is required for matched or drift reconciliation callbacks"
  end.

Definition evidence_json (e : SettlementObservedAmounts) : json :=
  JObj [("schemaVersion", JStr SETTLEMENT_OBSERVED_AMOUNTS_SCHEMA_VERSION);
        ("observedAmounts",
          JObj [("supplierPayoutUsd", JStr (supplierPayoutUsd e));
                ("treasuryClaimableUsd", JStr (treasuryClaimableUsd e));
                ("buyerRefundUsd", JStr (buyerRefundUsd e))])].

(** ** The callback payload *)

(** The literal of an enumeration's value. *)
Fixpoint literal_text {A} `{EqDecision A} (l : list (string * A)) (v : A) : string :=
  match l with
  | [] => ""
  | (k, w) :: l => if bool_decide (v = w) then k else literal_text l v
  end.

Definition callback_status_text (s : SettlementCallbackStatus) : string :=
  match s with
  | cb_pending => "pending" | cb_delivered => "delivered" | cb_failed => "failed"
  | cb_dead_letter => "dead_letter" | cb_disabled => "disabled"
  end.

(** A JS number by its decimal text. *)
Definition json_number (rendering : string) : json :=
  if canonical_digits rendering then JNum (Z.of_N (digits_value rendering)) else JDec rendering.

Definition text_or_null (s : option string) : json :=
  match s with Some t => JStr t | None => JNull end.

Definition isGaslessSponsorship (handoff : SettlementHandoffRecord) : bool :=
  String.prefix GASLESS_SPONSORSHIP_HANDOFF_PREFIX (h_platformHandoffId handoff).

Definition requiresObservedAmounts (handoff : SettlementHandoffRecord)
    (event : SettlementExecutionEventRecord) : bool :=
  negb (isGaslessSponsorship handoff)
  && (bool_decide (h_reconciliationStatus handoff = rs_matched)
      || bool_decide (h_reconciliationStatus handoff = rs_drift)
      || bool_decide (ev_eventType event = e_reconciled)
      || bool_decide (ev_eventType event = e_drift_detected)).

Definition payload_json (handoff : SettlementHandoffRecord) (event : SettlementExecutionEventRecord)
    (evidence : option SettlementObservedAmounts) : json :=
  JObj
    [("contractVersion", JStr SETTLEMENT_CALLBACK_CONTRACT_VERSION);
     ("eventId", JStr (ev_eventId event));
     ("handoffId", JStr (h_handoffId handoff));
     ("platformId", JStr (h_platformId handoff));
     ("platformHandoffId", JStr (h_platformHandoffId handoff));
     ("tradeId", JStr (h_tradeId handoff));
     ("phase", JStr (h_phase handoff));
     ("settlementChannel", JStr (h_settlementChannel handoff));
     ("displayCurrency", JStr (h_displayCurrency handoff));
     ("displayAmount", json_number (h_displayAmount handoff));
     ("executionStatus",
       JStr (literal_text SETTLEMENT_EXECUTION_STATUSES (h_executionStatus handoff)));
     ("reconciliationStatus",
       JStr (literal_text SETTLEMENT_RECONCILIATION_STATUSES (h_reconciliationStatus handoff)));
     ("callbackStatus", JStr (callback_status_text (h_callbackStatus handoff)));
     ("providerStatus", text_or_null (h_providerStatus handoff));
     ("txHash", text_or_null (h_txHash handoff));
     ("latestEventType",
       text_or_null (literal_text SETTLEMENT_EVENT_TYPES <$> h_latestEventType handoff));
     ("latestEventDetail", text_or_null (h_latestEventDetail handoff));
     ("latestEventAt", text_or_null (iso_text <$> h_latestEventAt handoff));
     ("observedAt", JStr (iso_text (ev_observedAt event)));
     ("metadata",
       JObj (h_metadata handoff ++ [("event", JObj (ev_metadata event))]
             ++ match evidence with
                | Some e => [("reconciliationEvidence", evidence_json e)]
                | None => []
                end)%list)].

Definition buildCallbackPayload (handoff : SettlementHandoffRecord)
    (event : SettlementExecutionEventRecord) : result GatewayError json :=
  let required := requiresObservedAmounts handoff event in
  evidence ← parseReconciliationEvidence
               (json_assoc "reconciliationEvidence" (ev_metadata event)) required;
  _ ← throw_if (required && negb (digits_only (h_tradeId handoff)))
        (gatewayError 400 VALIDATION_ERROR
           "tradeId must be the numeric on-chain trade identifier for reconciliation callbacks");
  _ ← throw_if (required
                && negb (SETTLEMENT_TRANSACTION_HASH_PATTERN (default "" (h_txHash handoff))))
        (gatewayError 400 VALIDATION_ERROR
           "txHash must be the canonical release transaction hash for reconciliation callbacks");
  Ok (payload_json handoff event evidence).

(** ** Recording an event *)

Record callback_config := {
  settlementCallbackEnabled : bool;
  settlementCallbackUrl : option string;
  settlementCallbackApiKey : option string;
  settlementCallbackApiSecret : option string }.

(** [Boolean(text)] *)
Definition present (s : option string) : bool :=
  match s with Some t => truthy t | None => false end.

Definition shouldQueueCallback (cfg : callback_config) : bool :=
  settlementCallbackEnabled cfg && present (settlementCallbackUrl cfg)
  && present (settlementCallbackApiKey cfg) && present (settlementCallbackApiSecret cfg).

Record CreateSettlementExecutionEventInput := {
  xi_handoffId : string;
  xi_eventType : SettlementEventType;
  xi_executionStatus : SettlementExecutionStatus;
  xi_reconciliationStatus : SettlementReconciliationStatus;
  xi_providerStatus : option string;
  xi_txHash : option string;
  xi_detail : option string;
  xi_metadata : list (string * json);
  xi_observedAt : js_date;
  xi_requestId : string;
  xi_sourceApiKeyId : option string }.

Definition newline : string := String (ascii_of_N 10) "".

Section Service.
Context (sha256_hex : string -> string) (cfg : callback_config).

Definition event_dedupe_key (input : CreateSettlementExecutionEventInput) : string :=
  sha256_hex (xi_handoffId input ++ newline
    ++ literal_text SETTLEMENT_EVENT_TYPES (xi_eventType input) ++ newline ++ xi_requestId input).

Definition persist_input (input : CreateSettlementExecutionEventInput) (observedAt : Z)
    : PersistSettlementExecutionEventInput :=
  {| pi_handoffId := xi_handoffId input; pi_eventType := xi_eventType input;
     pi_executionStatus := xi_executionStatus input;
     pi_reconciliationStatus := xi_reconciliationStatus input;
     pi_providerStatus := xi_providerStatus input; pi_txHash := xi_txHash input;
     pi_detail := xi_detail input; pi_metadata := xi_metadata input;
     pi_observedAt := observedAt; pi_requestId := xi_requestId input;
     pi_sourceApiKeyId := xi_sourceApiKeyId input; pi_dedupeKey := event_dedupe_key input |}.

(** [nextAttemptAt] is the clock reading [new Date()]. *)
Definition callback_plan (input : CreateSettlementExecutionEventInput) (nextAttemptAt : Z)
    : SettlementCallbackPlan :=
  {| cp_targetUrl := if shouldQueueCallback cfg then default "" (settlementCallbackUrl cfg)
                     else default "disabled://callback" (settlementCallbackUrl cfg);
     cp_requestId := xi_requestId input;
     cp_enabled := shouldQueueCallback cfg;
     cp_nextAttemptAt := nextAttemptAt;
     cp_buildRequestBody := buildCallbackPayload |}.

(** The clock readings and identifiers it consumes: the plan's time, the
    store's time, and the two identifiers the store draws. *)
Record draws := {
  dr_planAt : Z; dr_now : Z; dr_eventId : string; dr_deliveryId : string }.

Definition service_recordExecutionEvent (input : CreateSettlementExecutionEventInput) (d : draws)
    (s : store) : result GatewayError (store * recorded) :=
  observedAt ← parseIsoTimestamp (xi_observedAt input) "observedAt";
  recordExecutionEvent (persist_input input observedAt) (callback_plan input (dr_planAt d))
    (dr_now d) (dr_eventId d) (dr_deliveryId d) s.

End Service.

(** ** Evidence *)

Lemma compare_trans_le a b c : String.leb a b = true -> String.leb b c = true -> String.leb a c = true.
Proof.
  unfold String.leb. revert b c.
  induction a as [|x a IH]; intros [|y b] [|z c]; simpl; try done.
  unfold Ascii.compare. intros H1 H2.
  destruct (N.compare_spec (N_of_ascii x) (N_of_ascii y)) as [E1|L1|L1]; [| |done];
  destruct (N.compare_spec (N_of_ascii y) (N_of_ascii z)) as [E2|L2|L2]; try done;
  destruct (N.compare_spec (N_of_ascii x) (N_of_ascii z)) as [E3|L3|L3]; try lia; try done.
  by apply (IH b c).
Qed.

(** Sorting the distinct keys of two lists gives the same list exactly when they
    have the same keys. *)
Lemma sorted_keys_eq fields expected :
  NoDup expected ->
  sorted_keys fields = js_sort String.leb expected <-> (forall k, k ∈ fields.*1 <-> k ∈ expected).
Proof.
  intros Hn. unfold sorted_keys. split.
  - intros H k. rewrite <- (elem_of_remove_dups fields.*1).
    rewrite <- (js_sort_Permutation String.leb (remove_dups fields.*1)), H.
    by rewrite (js_sort_Permutation String.leb expected).
  - intros H.
    assert (Hs : forall l, StronglySorted (fun a b => String.leb a b = true) (js_sort String.leb l)).
    { intros l. apply js_sort_sorted; [|apply compare_trans_le].
      intros a b Hab. destruct (String.leb_total a b); congruence. }
    assert (AntiSymm (=) (fun a b => String.leb a b = true)).
    { intros a b. apply String.leb_antisym. }
    apply (StronglySorted_unique _ _ _ (Hs _) (Hs _)).
    rewrite !js_sort_Permutation. apply NoDup_Permutation; [apply NoDup_remove_dups|done|].
    intros k. rewrite elem_of_remove_dups. apply H.
Qed.

Lemma requireExactKeys_ok fields expected field u :
  NoDup expected ->
  requireExactKeys fields expected field = Ok u <-> (forall k, k ∈ fields.*1 <-> k ∈ expected).
Proof.
  intros Hn. unfold requireExactKeys. rewrite throw_if_ok, negb_false_iff, bool_decide_eq_true.
  by apply sorted_keys_eq.
Qed.

Lemma requireObservedAmount_ok v field s :
  requireObservedAmount v field = Ok s <-> v = Some (JStr s) /\ SETTLEMENT_AMOUNT_PATTERN s = true.
Proof.
  destruct v as [[| | | |t| |]|]; unfold requireObservedAmount, validation;
    try (split; [discriminate|intros [[=] _]]).
  destruct (SETTLEMENT_AMOUNT_PATTERN t) eqn:E; split.
  - by intros [= <-].
  - by intros [[= ->] _].
  - discriminate.
  - intros [[= ->] H]. congruence.
Qed.

(** The event's metadata states these observed amounts, and nothing else, in the
    current schema. *)
Definition states_amounts (metadata : list (string * json)) (e : SettlementObservedAmounts) : Prop :=
  exists evidence amounts,
    json_assoc "reconciliationEvidence" metadata = Some (JObj evidence) /\
    (forall k, k ∈ evidence.*1 <-> k ∈ ["schemaVersion"; "observedAmounts"]) /\
    json_assoc "schemaVersion" evidence = Some (JStr SETTLEMENT_OBSERVED_AMOUNTS_SCHEMA_VERSION) /\
    json_assoc "observedAmounts" evidence = Some (JObj amounts) /\
    (forall k, k ∈ amounts.*1 <->
       k ∈ ["supplierPayoutUsd"; "treasuryClaimableUsd"; "buyerRefundUsd"]) /\
    json_assoc "supplierPayoutUsd" amounts = Some (JStr (supplierPayoutUsd e)) /\
    json_assoc "treasuryClaimableUsd" amounts = Some (JStr (treasuryClaimableUsd e)) /\
    json_assoc "buyerRefundUsd" amounts = Some (JStr (buyerRefundUsd e)) /\
    Forall (fun s => SETTLEMENT_AMOUNT_PATTERN s = true)
      [supplierPayoutUsd e; treasuryClaimableUsd e; buyerRefundUsd e].

Lemma evidence_required metadata o :
  parseReconciliationEvidence (json_assoc "reconciliationEvidence" metadata) true = Ok o <->
  exists e, o = Some e /\ states_amounts metadata e.
Proof.
  assert (N1 : NoDup ["schemaVersion"; "observedAmounts"]) by (apply (bool_decide_eq_true_1 _); reflexivity).
  assert (N2 : NoDup ["supplierPayoutUsd"; "treasuryClaimableUsd"; "buyerRefundUsd"])
    by (apply (bool_decide_eq_true_1 _); reflexivity).
  unfold parseReconciliationEvidence. split.
  - destruct (json_assoc "reconciliationEvidence" metadata) as [[| | | | | |ev]|] eqn:Ev; try done.
    intros H. apply bind_ok in H as ([] & K1 & H). apply bind_ok in H as ([] & V & H).
    apply throw_if_ok in V.
    destruct (json_assoc "schemaVersion" ev) as [[| | | |v| |]|] eqn:Ver; try done.
    apply negb_false_iff, String.eqb_eq in V as ->.
    destruct (json_assoc "observedAmounts" ev) as [[| | | | | |am]|] eqn:Am; try done.
    apply bind_ok in H as ([] & K2 & H). apply bind_ok in H as (s & Hs & H).
    apply bind_ok in H as (t & Ht & H). apply bind_ok in H as (b & Hb & H). injection H as <-.
    pose proof (proj1 (requireExactKeys_ok _ _ _ _ N1) K1) as K1'.
    pose proof (proj1 (requireExactKeys_ok _ _ _ _ N2) K2) as K2'.
    apply requireObservedAmount_ok in Hs as [Hs Ps], Ht as [Ht Pt], Hb as [Hb Pb].
    eexists. split; [done|]. exists ev, am. split_and!; try done. by repeat constructor.
  - intros (e & -> & ev & am & -> & K1 & -> & Am & K2 & Hs & Ht & Hb & HP).
    apply Forall_cons in HP as [Ps HP]. apply Forall_cons in HP as [Pt HP].
    apply Forall_cons in HP as [Pb _].
    rewrite (proj2 (requireExactKeys_ok ev _ EVIDENCE_FIELD tt N1) K1), String.eqb_refl, Am.
    cbn [mbind result_bind negb throw_if].
    rewrite (proj2 (requireExactKeys_ok am _ AMOUNTS_FIELD tt N2) K2).
    cbn [mbind result_bind].
    rewrite (proj2 (requireObservedAmount_ok _ _ _) (conj Hs Ps)). cbn [mbind result_bind].
    rewrite (proj2 (requireObservedAmount_ok _ _ _) (conj Ht Pt)). cbn [mbind result_bind].
    rewrite (proj2 (requireObservedAmount_ok _ _ _) (conj Hb Pb)). cbn [mbind result_bind].
    by destruct e.
Qed.

(** C33. A callback about a matched or diverging settlement, other than of a gas
    sponsorship, is built exactly when the event states the three observed amounts
    in the current schema and nothing else, the trade id is numeric and the
    transaction hash canonical; the callback then carries those amounts. *)
Theorem reconciliation_callback_exact h e p :
  requiresObservedAmounts h e = true ->
  buildCallbackPayload h e = Ok p <->
  exists a, states_amounts (ev_metadata e) a /\ digits_only (h_tradeId h) = true /\
    (exists hash, h_txHash h = Some hash /\ SETTLEMENT_TRANSACTION_HASH_PATTERN hash = true) /\
    p = payload_json h e (Some a).
Proof.
  intros Hr. unfold buildCallbackPayload. rewrite Hr. cbn [andb]. split.
  - intros H. apply bind_ok in H as (o & Ho & H). apply bind_ok in H as ([] & Ht & H).
    apply bind_ok in H as ([] & Hh & H). injection H as <-.
    apply throw_if_ok, negb_false_iff in Ht, Hh. apply evidence_required in Ho as (a & -> & Ha).
    exists a. split_and!; try done. destruct (h_txHash h) as [t|]; [eauto|done].
  - intros (a & Ha & Ht & (t & Eh & Hh) & ->).
    rewrite (proj2 (evidence_required (ev_metadata e) (Some a))) by eauto.
    cbn [mbind result_bind]. by rewrite Ht, Eh; cbn [default from_option id]; rewrite Hh.
Qed.
