(* ===== verification/ManagedSigner.v ===== *)
(** What the gateway lets a managed signer sign: sdk/src/managedSignerIntent.ts
    and the serialisation of gateway/src/core/managedSignerIntentValidation.ts.

    [getAddress], [keccak256] and [Transaction.from] are the ethers library's:
    parameters.  [isAddress] is documented to hold exactly where [getAddress] does
    not throw.  A number is an integer; [bigint] values are integers too, and
    [Number(chainId)] meets a safe integer only when it is that integer. *)
From stdpp Require Import base list strings.
From S2P Require Import Prelude JsText JsJson.

Open Scope string_scope.
Open Scope Z_scope.

(** ** Data *)

Record ManagedSignerTransactionIntent := {
  mi_requestId : string;
  mi_signerAddress : string;
  mi_chainId : Z;
  mi_to : string;
  mi_data : string;
  mi_value : string;
  mi_nonce : Z;
  mi_gasLimit : string;
  mi_type : Z;
  mi_maxFeePerGasWei : option string;
  mi_maxPriorityFeePerGasWei : option string;
  mi_gasPriceWei : option string }.

(** A response member of type [unknown]; [None] is absent. *)
Record ManagedSignerResponsePayload := {
  rp_requestId : option json;
  rp_intentHash : option json;
  rp_signerAddress : option json;
  rp_signedTransaction : option json }.

Inductive ManagedSignerValidationFailureReason :=
| response_request_id | response_intent_hash | response_signer | response_format
| unparseable_transaction | bad_signature | bad_signer | bad_recipient | bad_chainId | bad_nonce
| bad_value | bad_calldata | bad_gasLimit | bad_type | bad_accessList | bad_maxFeePerGas
| bad_maxPriorityFeePerGas | bad_gasPrice | bad_transaction_hash.

(** [ManagedSignerValidationError], and the plain errors of a malformed intent. *)
Inductive signer_error :=
| ManagedSignerValidationError (reason : ManagedSignerValidationFailureReason)
    (requestId intentHash : string) (signedTransactionHash : option string)
| IntentError (message : string).

Record ManagedSignerValidationEvidence := {
  ve_requestId : string;
  ve_intentHash : string;
  ve_signedTransactionHash : string;
  ve_signerAddress : string;
  ve_nonce : Z;
  ve_transactionType : Z }.

(** A transaction [Transaction.from] reads; an unsigned one has no sender. *)
Record Transaction := {
  tx_hash : option string;
  tx_unsignedHash : string;
  tx_hasSignature : bool;
  tx_from : option string;
  tx_to : option string;
  tx_chainId : Z;
  tx_nonce : Z;
  tx_value : Z;
  tx_data : string;
  tx_gasLimit : Z;
  tx_type : option Z;
  tx_accessListLength : option nat;
  tx_maxFeePerGas : option Z;
  tx_maxPriorityFeePerGas : option Z;
  tx_gasPrice : option Z }.

(** [/^0x(?:[0-9a-fA-F]{2})*$/] *)
Definition hex_bytes (s : string) : bool :=
  match s with
  | String "0" (String "x" r) => Nat.even (String.length r) && all_chars is_hex r
  | _ => false
  end.

(** [/^0x(?:[0-9a-fA-F]{2})+$/] *)
Definition some_hex_bytes (s : string) : bool := hex_bytes s && negb (String.eqb s "0x").

Section Signer.
Context (getAddress : string -> option string).
Context (keccak_text : string -> string) (keccak_hex : string -> option string).
Context (transaction_from : string -> option Transaction).

Definition isAddress (s : string) : bool :=
  match getAddress s with Some _ => true | None => false end.

Definition fail {A} (reason : ManagedSignerValidationFailureReason) (requestId intentHash : string)
    (hash : option string) : result signer_error A :=
  Err (ManagedSignerValidationError reason requestId intentHash hash).

Definition canonicalAddress (value field : string) : result signer_error string :=
  match getAddress value with
  | None => Err (IntentError ("Managed signer " ++ field ++ " must be an EVM address"))
  | Some a => Ok a
  end.

Definition canonicalUint (value field : string) : result signer_error string :=
  if digits_only value then Ok (print_N (digits_value value))
  else Err (IntentError ("Managed signer " ++ field ++ " must be an unsigned integer string")).

Definition canonicalIntent (intent : ManagedSignerTransactionIntent)
    : result signer_error ManagedSignerTransactionIntent :=
  let requestId := trim (mi_requestId intent) in
  _ ← throw_if (negb (truthy requestId) || (128 <? String.length requestId)%nat)
        (IntentError "Managed signer requestId must contain 1 to 128 characters");
  _ ← throw_if (negb (is_safe_integer (mi_chainId intent)) || (mi_chainId intent <? 1))
        (IntentError "Managed signer chainId must be a positive integer");
  _ ← throw_if (negb (is_safe_integer (mi_nonce intent)) || (mi_nonce intent <? 0))
        (IntentError "Managed signer nonce must be a non-negative integer");
  _ ← throw_if (negb (mi_type intent =? 0) && negb (mi_type intent =? 2))
        (IntentError "Managed signer transaction type must be 0 or 2");
  _ ← throw_if (negb (hex_bytes (mi_data intent)))
        (IntentError "Managed signer calldata must be canonical hex bytes");
  signerAddress ← canonicalAddress (mi_signerAddress intent) "signerAddress";
  to ← canonicalAddress (mi_to intent) "recipient";
  value ← canonicalUint (mi_value intent) "value";
  gasLimit ← canonicalUint (mi_gasLimit intent) "gasLimit";
  let normalized m p g :=
    {| mi_requestId := requestId; mi_signerAddress := signerAddress;
       mi_chainId := mi_chainId intent; mi_to := to; mi_data := toLowerCase (mi_data intent);
       mi_value := value; mi_nonce := mi_nonce intent; mi_gasLimit := gasLimit;
       mi_type := mi_type intent; mi_maxFeePerGasWei := m; mi_maxPriorityFeePerGasWei := p;
       mi_gasPriceWei := g |} in
  if mi_type intent =? 2 then
    _ ← throw_if (bool_decide (mi_gasPriceWei intent <> None))
          (IntentError "Managed signer EIP-1559 intent cannot set gasPriceWei");
    m ← canonicalUint (default "" (mi_maxFeePerGasWei intent)) "maxFeePerGasWei";
    p ← canonicalUint (default "" (mi_maxPriorityFeePerGasWei intent)) "maxPriorityFeePerGasWei";
    Ok (normalized (Some m) (Some p) None)
  else
    _ ← throw_if (bool_decide (mi_maxFeePerGasWei intent <> None)
                  || bool_decide (mi_maxPriorityFeePerGasWei intent <> None))
          (IntentError "Managed signer legacy intent cannot set EIP-1559 fee fields");
    g ← canonicalUint (default "" (mi_gasPriceWei intent)) "gasPriceWei";
    Ok (normalized None None (Some g)).

(** A member that is written only when it is set. *)
Definition optional_member (name : string) (v : option string) : list (string * jvalue) :=
  match v with Some s => [(name, VStr s)] | None => [] end.

(** The object [JSON.stringify] receives. *)
Definition intent_value (i : ManagedSignerTransactionIntent) : jvalue :=
  VObj ([("requestId", VStr (mi_requestId i));
         ("signerAddress", VStr (mi_signerAddress i));
         ("chainId", VNum (print_Z (mi_chainId i)));
         ("to", VStr (mi_to i));
         ("data", VStr (mi_data i));
         ("value", VStr (mi_value i));
         ("nonce", VNum (print_Z (mi_nonce i)));
         ("gasLimit", VStr (mi_gasLimit i));
         ("type", VNum (print_Z (mi_type i)))]
        ++ optional_member "maxFeePerGasWei" (mi_maxFeePerGasWei i)
        ++ optional_member "maxPriorityFeePerGasWei" (mi_maxPriorityFeePerGasWei i)
        ++ optional_member "gasPriceWei" (mi_gasPriceWei i))%list.

Definition buildManagedSignerIntentHash (intent : ManagedSignerTransactionIntent)
    : result signer_error string :=
  i ← canonicalIntent intent; Ok (keccak_text (json_text (intent_value i))).

Definition validateManagedSignerTransaction (signedTransaction : string)
    (intent : ManagedSignerTransactionIntent) : result signer_error ManagedSignerValidationEvidence :=
  expected ← canonicalIntent intent;
  intentHash ← buildManagedSignerIntentHash expected;
  let hash := keccak_hex signedTransaction in
  let fail_ {A} reason : result signer_error A := fail reason (mi_requestId expected) intentHash hash in
  let check_ (c : bool) reason : result signer_error unit := if c then Ok tt else fail_ reason in
  match transaction_from signedTransaction with
  | None => fail_ unparseable_transaction
  | Some t =>
      match hash with
      | None => fail bad_transaction_hash (mi_requestId expected) intentHash None
      | Some signedTransactionHash =>
          match tx_hasSignature t, tx_from t with
          | true, Some from =>
              signer ← canonicalAddress from "returned signer";
              _ ← check_ (String.eqb signer (mi_signerAddress expected)) bad_signer;
              _ ← match tx_to t with
                  | None => fail_ bad_recipient
                  | Some to =>
                      recipient ← canonicalAddress to "returned recipient";
                      check_ (String.eqb recipient (mi_to expected)) bad_recipient
                  end;
              _ ← check_ (tx_chainId t =? mi_chainId expected) bad_chainId;
              _ ← check_ (tx_nonce t =? mi_nonce expected) bad_nonce;
              _ ← check_ (String.eqb (print_Z (tx_value t)) (mi_value expected)) bad_value;
              _ ← check_ (String.eqb (toLowerCase (tx_data t)) (mi_data expected)) bad_calldata;
              _ ← check_ (String.eqb (print_Z (tx_gasLimit t)) (mi_gasLimit expected)) bad_gasLimit;
              _ ← check_ (bool_decide (tx_type t = Some (mi_type expected))) bad_type;
              _ ← check_ (default 0%nat (tx_accessListLength t) =? 0)%nat bad_accessList;
              _ ← (if mi_type expected =? 2 then
                     _ ← check_ (bool_decide (print_Z <$> tx_maxFeePerGas t
                                                = mi_maxFeePerGasWei expected)) bad_maxFeePerGas;
                     _ ← check_ (bool_decide (print_Z <$> tx_maxPriorityFeePerGas t
                                                = mi_maxPriorityFeePerGasWei expected))
                           bad_maxPriorityFeePerGas;
                     check_ (bool_decide (tx_gasPrice t = None)) bad_gasPrice
                   else
                     _ ← check_ (bool_decide (print_Z <$> tx_gasPrice t = mi_gasPriceWei expected))
                           bad_gasPrice;
                     _ ← check_ (bool_decide (tx_maxFeePerGas t = None)) bad_maxFeePerGas;
                     check_ (bool_decide (tx_maxPriorityFeePerGas t = None))
                       bad_maxPriorityFeePerGas);
              _ ← check_ (bool_decide (tx_hash t = Some signedTransactionHash)) bad_transaction_hash;
              Ok {| ve_requestId := mi_requestId expected; ve_intentHash := intentHash;
                    ve_signedTransactionHash := signedTransactionHash;
                    ve_signerAddress := mi_signerAddress expected; ve_nonce := mi_nonce expected;
                    ve_transactionType := mi_type expected |}
          | _, _ => fail_ bad_signature
          end
      end
  end.

(** The signed bytes of a response, when it holds a hex text. *)
Definition signed_member (response : ManagedSignerResponsePayload) : option string :=
  match rp_signedTransaction response with
  | Some (JStr s) => if some_hex_bytes s then Some s else None
  | _ => None
  end.

Definition validateManagedSignerResponse (response : ManagedSignerResponsePayload)
    (intent : ManagedSignerTransactionIntent) : result signer_error ManagedSignerValidationEvidence :=
  expected ← canonicalIntent intent;
  intentHash ← buildManagedSignerIntentHash expected;
  let signedTransaction := signed_member response in
  let hash := signedTransaction ≫= keccak_hex in
  let is_text (v : option json) (s : string) :=
    match v with Some (JStr t) => String.eqb t s | _ => false end in
  let check_ (c : bool) reason : result signer_error unit :=
    if c then Ok tt else fail reason (mi_requestId expected) intentHash hash in
  _ ← check_ (is_text (rp_requestId response) (mi_requestId expected)) response_request_id;
  _ ← check_ (is_text (rp_intentHash response) intentHash) response_intent_hash;
  _ ← check_ match rp_signerAddress response with
             | Some (JStr a) => bool_decide (getAddress a = Some (mi_signerAddress expected))
             | _ => false
             end response_signer;
  match signedTransaction with
  | None => fail response_format (mi_requestId expected) intentHash None
  | Some s => validateManagedSignerTransaction s expected
  end.

(** ** managedSignerIntentValidation.ts: [serializeManagedSignerTransaction]

    The transaction request the executor assembles: [None] is absent. *)
Record TransactionRequest := {
  rq_to : string;
  rq_chainId : Z;
  rq_value : Z;
  rq_data : string;
  rq_nonce : Z;
  rq_gasLimit : Z;
  rq_maxFeePerGas : option Z;
  rq_maxPriorityFeePerGas : option Z;
  rq_gasPrice : option Z }.

Definition serializeManagedSignerTransaction (requestId signerAddress : string)
    (t : TransactionRequest) : ManagedSignerTransactionIntent :=
  {| mi_requestId := requestId; mi_signerAddress := signerAddress;
     mi_chainId := rq_chainId t; mi_to := rq_to t; mi_data := rq_data t;
     mi_value := print_Z (rq_value t); mi_nonce := rq_nonce t;
     mi_gasLimit := print_Z (rq_gasLimit t);
     mi_type := match rq_maxFeePerGas t with Some _ => 2 | None => 0 end;
     mi_maxFeePerGasWei := print_Z <$> rq_maxFeePerGas t;
     mi_maxPriorityFeePerGasWei := print_Z <$> rq_maxPriorityFeePerGas t;
     mi_gasPriceWei := print_Z <$> rq_gasPrice t |}.

(** ** Canonical intents *)

(** The number a text of digits denotes. *)
Definition uint (s : string) : Z := Z.of_N (digits_value s).

Lemma canonicalUint_ok s f v :
  canonicalUint s f = Ok v <-> digits_only s = true /\ v = print_N (digits_value s).
Proof.
  unfold canonicalUint. destruct (digits_only s); split; [|by intros [_ ->]|done|by intros [? _]].
  by intros [= <-].
Qed.

Lemma canonicalAddress_ok s f v : canonicalAddress s f = Ok v <-> getAddress s = Some v.
Proof. unfold canonicalAddress. destruct (getAddress s); split; congruence. Qed.

Lemma canonicalUint_print n f : canonicalUint (print_N n) f = Ok (print_N n).
Proof.
  apply canonicalUint_ok. rewrite digits_value_print. split; [|done].
  unfold digits_only. rewrite print_N_digits, andb_true_r. pose proof (canonical_digits_print n).
  by destruct (print_N n).
Qed.

Lemma print_Z_uint v s : print_Z v = print_N (digits_value s) <-> v = uint s.
Proof.
  unfold uint. split.
  - intros H. apply print_Z_inj. rewrite H. by destruct (digits_value s).
  - intros ->. by destruct (digits_value s).
Qed.

(** The number printed is the number read, when the text is one of digits. *)
Lemma uint_print z : digits_only (print_Z z) = true -> uint (print_Z z) = z.
Proof.
  intros H. destruct z as [|p|p]; [done| |done]. unfold uint. cbn [print_Z].
  by rewrite digits_value_print.
Qed.

Lemma hex_bytes_lower s : hex_bytes s = true -> hex_bytes (toLowerCase s) = true.
Proof.
  destruct s as [|c s]; [done|]. destruct c as [[] [] [] [] [] [] [] []]; try done.
  destruct s as [|c s]; [done|]. destruct c as [[] [] [] [] [] [] [] []]; try done.
  cbn [hex_bytes]. rewrite andb_true_iff. intros [Hl Hx].
  change (Nat.even (String.length (map_chars lower_char s)) && all_chars is_hex (map_chars lower_char s) = true).
  rewrite map_chars_length, Hl. cbn. clear Hl. induction s as [|c s IH]; [done|]. cbn in Hx |- *.
  apply andb_true_iff in Hx as [Hc Hs]. rewrite (IH Hs), andb_true_r.
  by apply is_lower_hex_hex, is_hex_lower.
Qed.

Context (getAddress_checksummed : forall s a, getAddress s = Some a -> getAddress a = Some a).

(** A canonical intent is its own canonical form. *)
Lemma canonicalIntent_idem i e : canonicalIntent i = Ok e -> canonicalIntent e = Ok e.
Proof using getAddress_checksummed.
  unfold canonicalIntent at 1. intros H.
  apply throw_if_bind in H as [H1 H]. apply throw_if_bind in H as [H2 H].
  apply throw_if_bind in H as [H3 H]. apply throw_if_bind in H as [H4 H].
  apply throw_if_bind in H as [H5 H].
  apply bind_ok in H as (sg & Hsg & H). apply bind_ok in H as (to & Hto & H).
  apply bind_ok in H as (v & Hv & H). apply bind_ok in H as (g & Hg & H).
  apply canonicalAddress_ok in Hsg as Hsg%getAddress_checksummed.
  apply canonicalAddress_ok in Hto as Hto%getAddress_checksummed.
  apply canonicalUint_ok in Hv as [_ ->], Hg as [_ ->].
  destruct (mi_type i =? 2) eqn:Et.
  - apply throw_if_bind in H as [H6 H]. apply bind_ok in H as (m & Hm & H).
    apply bind_ok in H as (p & Hp & H). apply canonicalUint_ok in Hm as [_ ->], Hp as [_ ->].
    injection H as <-. unfold canonicalIntent.
    cbn [mi_requestId mi_signerAddress mi_chainId mi_to mi_data mi_value mi_nonce mi_gasLimit mi_type
      mi_maxFeePerGasWei mi_maxPriorityFeePerGasWei mi_gasPriceWei default from_option id].
    rewrite trim_trim, H1, H2, H3, Et, H4, hex_bytes_lower, toLowerCase_idem by (by destruct (hex_bytes _)).
    cbn [negb mbind result_bind throw_if]. rewrite (proj2 (canonicalAddress_ok _ _ _) Hsg).
    cbn [mbind result_bind]. rewrite (proj2 (canonicalAddress_ok _ _ _) Hto).
    cbn [mbind result_bind]. rewrite !canonicalUint_print. cbn [mbind result_bind].
    cbn [bool_decide decide_rel orb throw_if]. by rewrite ?canonicalUint_print.
  - apply throw_if_bind in H as [H6 H]. apply bind_ok in H as (m & Hm & H).
    apply canonicalUint_ok in Hm as [_ ->].
    injection H as <-. unfold canonicalIntent.
    cbn [mi_requestId mi_signerAddress mi_chainId mi_to mi_data mi_value mi_nonce mi_gasLimit mi_type
      mi_maxFeePerGasWei mi_maxPriorityFeePerGasWei mi_gasPriceWei default from_option id].
    rewrite trim_trim, H1, H2, H3, Et, H4, hex_bytes_lower, toLowerCase_idem by (by destruct (hex_bytes _)).
    cbn [negb mbind result_bind throw_if]. rewrite (proj2 (canonicalAddress_ok _ _ _) Hsg).
    cbn [mbind result_bind]. rewrite (proj2 (canonicalAddress_ok _ _ _) Hto).
    cbn [mbind result_bind]. rewrite !canonicalUint_print. cbn [mbind result_bind].
    cbn [bool_decide decide_rel orb throw_if]. by rewrite ?canonicalUint_print.
Qed.

(** ** Exactness of the validation *)

(** The signed transaction [t] is the one the intent asks for. *)
Definition is_intended (t : Transaction) (i : ManagedSignerTransactionIntent) : Prop :=
  tx_hasSignature t = true /\
  (exists from a, tx_from t = Some from /\ getAddress from = Some a /\
     getAddress (mi_signerAddress i) = Some a) /\
  (exists to a, tx_to t = Some to /\ getAddress to = Some a /\ getAddress (mi_to i) = Some a) /\
  tx_chainId t = mi_chainId i /\ tx_nonce t = mi_nonce i /\
  tx_value t = uint (mi_value i) /\ toLowerCase (tx_data t) = toLowerCase (mi_data i) /\
  tx_gasLimit t = uint (mi_gasLimit i) /\ tx_type t = Some (mi_type i) /\
  default 0%nat (tx_accessListLength t) = 0%nat /\
  (if mi_type i =? 2
   then tx_maxFeePerGas t = uint <$> mi_maxFeePerGasWei i /\
        tx_maxPriorityFeePerGas t = uint <$> mi_maxPriorityFeePerGasWei i /\ tx_gasPrice t = None
   else tx_gasPrice t = uint <$> mi_gasPriceWei i /\
        tx_maxFeePerGas t = None /\ tx_maxPriorityFeePerGas t = None).

(** What canonicalisation keeps. *)
Record canonical_of (i e : ManagedSignerTransactionIntent) : Prop := {
  co_signer : getAddress (mi_signerAddress i) = Some (mi_signerAddress e);
  co_to : getAddress (mi_to i) = Some (mi_to e);
  co_chain : mi_chainId e = mi_chainId i;
  co_nonce : mi_nonce e = mi_nonce i;
  co_type : mi_type e = mi_type i;
  co_data : mi_data e = toLowerCase (mi_data i);
  co_value : forall v, print_Z v = mi_value e <-> v = uint (mi_value i);
  co_gas : forall v, print_Z v = mi_gasLimit e <-> v = uint (mi_gasLimit i);
  co_fees : if mi_type i =? 2
    then (forall v, print_Z <$> v = mi_maxFeePerGasWei e <-> v = uint <$> mi_maxFeePerGasWei i) /\
         (forall v, print_Z <$> v = mi_maxPriorityFeePerGasWei e
            <-> v = uint <$> mi_maxPriorityFeePerGasWei i)
    else forall v, print_Z <$> v = mi_gasPriceWei e <-> v = uint <$> mi_gasPriceWei i }.

Lemma optional_uint (o : option string) f v :
  canonicalUint (default "" o) f = Ok v ->
  forall z, print_Z <$> z = Some v <-> z = uint <$> o.
Proof.
  intros H z. apply canonicalUint_ok in H as [Hd ->].
  destruct o as [s|]; [|done]. cbn in Hd |- *. destruct z as [z|]; [|done]. cbn.
  pose proof (print_Z_uint z s) as Hz. split; intros [= E]; f_equal; by apply Hz.
Qed.

Lemma canonicalIntent_ok i e : canonicalIntent i = Ok e -> canonical_of i e.
Proof.
  unfold canonicalIntent. intros H.
  apply throw_if_bind in H as [H1 H]. apply throw_if_bind in H as [H2 H].
  apply throw_if_bind in H as [H3 H]. apply throw_if_bind in H as [H4 H].
  apply throw_if_bind in H as [H5 H].
  apply bind_ok in H as (sg & Hsg & H). apply bind_ok in H as (to & Hto & H).
  apply bind_ok in H as (v & Hv & H). apply bind_ok in H as (g & Hg & H).
  apply canonicalAddress_ok in Hsg, Hto. apply canonicalUint_ok in Hv as [_ ->], Hg as [_ ->].
  destruct (mi_type i =? 2) eqn:Et.
  - apply throw_if_bind in H as [H6 H]. apply bind_ok in H as (m & Hm & H).
    apply bind_ok in H as (p & Hp & H). injection H as <-.
    split; cbn; try done; try (intros; apply print_Z_uint). rewrite Et.
    split; by eapply optional_uint.
  - apply throw_if_bind in H as [H6 H]. apply bind_ok in H as (m & Hm & H). injection H as <-.
    split; cbn; try done; try (intros; apply print_Z_uint). rewrite Et. by eapply optional_uint.
Qed.

(** The numeric members of an intent that has a canonical form. *)
Lemma canonicalIntent_digits i e : canonicalIntent i = Ok e ->
  digits_only (mi_value i) = true /\ digits_only (mi_gasLimit i) = true /\
  (if mi_type i =? 2 then digits_only (default "" (mi_maxFeePerGasWei i)) = true
   else digits_only (default "" (mi_gasPriceWei i)) = true).
Proof.
  unfold canonicalIntent. intros H.
  do 5 apply throw_if_bind in H as [_ H].
  apply bind_ok in H as (sg & _ & H). apply bind_ok in H as (to & _ & H).
  apply bind_ok in H as (v & Hv & H). apply bind_ok in H as (g & Hg & H).
  apply canonicalUint_ok in Hv as [Hv _], Hg as [Hg _].
  destruct (mi_type i =? 2); apply throw_if_bind in H as [_ H]; apply bind_ok in H as (m & Hm & H);
    by apply canonicalUint_ok in Hm as [Hm _].
Qed.

Lemma check_ok (c : bool) (x : signer_error) u : (if c then Ok tt else Err x) = Ok u <-> c = true.
Proof. destruct c, u; split; congruence. Qed.

Lemma check_bind {A} (c : bool) (x : signer_error) (k : unit -> result signer_error A) a :
  (u ← (if c then Ok tt else Err x); k u) = Ok a <-> c = true /\ k tt = Ok a.
Proof. destruct c; cbn; split; [auto|by intros [_ ?]|done|by intros [? _]]. Qed.

(** The evidence of an accepted transaction. *)
Definition evidence_of (e : ManagedSignerTransactionIntent) (h : string)
    : ManagedSignerValidationEvidence :=
  {| ve_requestId := mi_requestId e; ve_intentHash := keccak_text (json_text (intent_value e));
     ve_signedTransactionHash := h; ve_signerAddress := mi_signerAddress e;
     ve_nonce := mi_nonce e; ve_transactionType := mi_type e |}.

(** The fee guards of a transaction against a canonical intent. *)
Definition fee_checks (t : Transaction) (e : ManagedSignerTransactionIntent) : bool :=
  if mi_type e =? 2
  then bool_decide (print_Z <$> tx_maxFeePerGas t = mi_maxFeePerGasWei e)
       && bool_decide (print_Z <$> tx_maxPriorityFeePerGas t = mi_maxPriorityFeePerGasWei e)
       && bool_decide (tx_gasPrice t = None)
  else bool_decide (print_Z <$> tx_gasPrice t = mi_gasPriceWei e)
       && bool_decide (tx_maxFeePerGas t = None) && bool_decide (tx_maxPriorityFeePerGas t = None).

(** All the guards of [validateManagedSignerTransaction] at once. *)
Definition transaction_checks (t : Transaction) (e : ManagedSignerTransactionIntent) : bool :=
  tx_hasSignature t
  && match tx_from t with
     | Some from => bool_decide (getAddress from = Some (mi_signerAddress e)) | None => false end
  && match tx_to t with
     | Some to => bool_decide (getAddress to = Some (mi_to e)) | None => false end
  && (tx_chainId t =? mi_chainId e) && (tx_nonce t =? mi_nonce e)
  && String.eqb (print_Z (tx_value t)) (mi_value e)
  && String.eqb (toLowerCase (tx_data t)) (mi_data e)
  && String.eqb (print_Z (tx_gasLimit t)) (mi_gasLimit e)
  && bool_decide (tx_type t = Some (mi_type e))
  && (default 0%nat (tx_accessListLength t) =? 0)%nat && fee_checks t e.

Lemma transaction_checks_intended i e t :
  canonical_of i e -> transaction_checks t e = true <-> is_intended t i.
Proof.
  intros [S T C N Ty D V G F]. unfold transaction_checks, is_intended, fee_checks.
  rewrite !andb_true_iff, !Z.eqb_eq, !String.eqb_eq, Nat.eqb_eq, bool_decide_eq_true.
  rewrite C, N, Ty, D, V, G, S, T.
  destruct (mi_type i =? 2) eqn:Et; rewrite !andb_true_iff, !bool_decide_eq_true.
  - destruct F as [F1 F2]. rewrite F1, F2.
    destruct (tx_from t) as [f|], (tx_to t) as [o|]; rewrite ?bool_decide_eq_true; naive_solver.
  - rewrite F.
    destruct (tx_from t) as [f|], (tx_to t) as [o|]; rewrite ?bool_decide_eq_true; naive_solver.
Qed.

Lemma eqb_decide (a b : string) : String.eqb a b = bool_decide (a = b).
Proof. destruct (String.eqb_spec a b); symmetry; by apply bool_decide_eq_true || apply bool_decide_eq_false. Qed.

Lemma validate_checks s e ev :
  canonicalIntent e = Ok e ->
  validateManagedSignerTransaction s e = Ok ev <->
  exists t h, transaction_from s = Some t /\ keccak_hex s = Some h /\
    transaction_checks t e = true /\ tx_hash t = Some h /\ ev = evidence_of e h.
Proof.
  intros He. unfold validateManagedSignerTransaction, buildManagedSignerIntentHash, fail.
  rewrite He. cbn [mbind result_bind]. rewrite He. cbn [mbind result_bind]. cbv zeta.
  destruct (transaction_from s) as [t|]; [|split; [done|naive_solver]].
  destruct (keccak_hex s) as [h|]; [|split; [done|naive_solver]].
  transitivity (transaction_checks t e = true /\ tx_hash t = Some h /\ ev = evidence_of e h);
    [|naive_solver].
  unfold transaction_checks, fee_checks, canonicalAddress.
  destruct (tx_hasSignature t), (tx_from t) as [f|]; try (split; [done|by intros [? _]]).
  destruct (getAddress f) as [a|]; [|split; [done|by intros [? _]]]. cbn [mbind result_bind].
  rewrite check_bind. rewrite !andb_true_iff.
  assert (Ha : bool_decide (Some a = Some (mi_signerAddress e)) = String.eqb a (mi_signerAddress e)).
  { rewrite eqb_decide. apply bool_decide_ext. split; congruence. }
  rewrite Ha. destruct (tx_to t) as [o|]; [|split; [by intros [_ ?]|naive_solver]].
  destruct (getAddress o) as [b|]; [|split; [by intros [_ ?]|naive_solver]].
  cbn [mbind result_bind].
  assert (Hb : bool_decide (Some b = Some (mi_to e)) = String.eqb b (mi_to e)).
  { rewrite eqb_decide. apply bool_decide_ext. split; congruence. }
  rewrite Hb, !check_bind. destruct (mi_type e =? 2).
  - rewrite bind_ok. repeat setoid_rewrite check_bind. setoid_rewrite check_ok.
    repeat setoid_rewrite bool_decide_eq_true. rewrite !andb_true_iff, !bool_decide_eq_true. split.
    + intros (?&?&?&?&?&?&?&?&?&[] & ? & ? & [= <-]). tauto.
    + intros (?&?&->). split_and!; try tauto. exists tt. tauto.
  - rewrite bind_ok. repeat setoid_rewrite check_bind. setoid_rewrite check_ok.
    repeat setoid_rewrite bool_decide_eq_true. rewrite !andb_true_iff, !bool_decide_eq_true. split.
    + intros (?&?&?&?&?&?&?&?&?&[] & ? & ? & [= <-]). tauto.
    + intros (?&?&->). split_and!; try tauto. exists tt. tauto.
Qed.

(** C23. A response is accepted exactly when it echoes the request, the intent hash and
    the signer, and carries the bytes of a signed transaction that is the intended
    one in every field, under the hash those bytes have. *)
Theorem managed_signature_exact response intent e ev :
  canonicalIntent intent = Ok e ->
  validateManagedSignerResponse response intent = Ok ev <->
  rp_requestId response = Some (JStr (mi_requestId e)) /\
  rp_intentHash response = Some (JStr (keccak_text (json_text (intent_value e)))) /\
  (exists a, rp_signerAddress response = Some (JStr a) /\ getAddress a = Some (mi_signerAddress e)) /\
  exists s t h, rp_signedTransaction response = Some (JStr s) /\ some_hex_bytes s = true /\
    transaction_from s = Some t /\ keccak_hex s = Some h /\ is_intended t intent /\
    tx_hash t = Some h /\ ev = evidence_of e h.
Proof using getAddress_checksummed.
  intros Hi. pose proof (canonicalIntent_idem _ _ Hi) as He.
  pose proof (fun t => transaction_checks_intended _ _ t (canonicalIntent_ok _ _ Hi)) as Hc.
  unfold validateManagedSignerResponse, buildManagedSignerIntentHash, fail.
  rewrite Hi. cbn [mbind result_bind]. rewrite He. cbn [mbind result_bind]. cbv zeta.
  rewrite !check_bind.
  assert (Htext : forall v s, (match v with Some (JStr t) => String.eqb t s | _ => false end) = true
    <-> v = Some (JStr s)).
  { intros [[| | | |t| |]|] s; try (split; [done|by intros [=]]). rewrite String.eqb_eq. naive_solver. }
  rewrite !Htext.
  assert (Hsig : match rp_signerAddress response with
      | Some (JStr a) => bool_decide (getAddress a = Some (mi_signerAddress e)) | _ => false end = true
    <-> exists a, rp_signerAddress response = Some (JStr a) /\ getAddress a = Some (mi_signerAddress e)).
  { destruct (rp_signerAddress response) as [[| | | |t| |]|]; 
      try (split; [done|intros (? & E & _); discriminate E]).
    rewrite bool_decide_eq_true. split; [eauto|by intros (? & [= <-] & ?)]. }
  rewrite Hsig. do 3 (apply and_iff_compat_l). unfold signed_member.
  destruct (rp_signedTransaction response) as [[| | | |s| |]|]; 
    try (split; [done|intros (? & ? & ? & E & _); discriminate E]).
  destruct (some_hex_bytes s) eqn:Hs;
    [|split; [done|intros (s0 & ? & ? & E & Hx & _); injection E as <-; congruence]].
  rewrite (validate_checks s e ev He). setoid_rewrite Hc. split.
  - intros (t & h & H). exists s, t, h. tauto.
  - intros (s0 & t & h & E & _ & H). injection E as <-. by exists t, h.
Qed.

(** ** The intent hash *)

Lemma intent_value_finite i : finite_numbers (intent_value i) = true.
Proof.
  unfold intent_value. cbn [finite_numbers]. rewrite forallb_app. cbn [forallb snd finite_numbers].
  rewrite !print_Z_finite. cbn [andb].
  by destruct (mi_maxFeePerGasWei i), (mi_maxPriorityFeePerGasWei i), (mi_gasPriceWei i).
Qed.

Lemma intent_value_inj i j : intent_value i = intent_value j -> i = j.
Proof.
  unfold intent_value. intros [= H1 H2 H3 H4 H5 H6 H7 H8 H9 H].
  apply print_Z_inj in H3, H7, H9.
  destruct i as [? ? ? ? ? ? ? ? ? m p g], j as [? ? ? ? ? ? ? ? ? m' p' g']. cbn in *. subst.
  by destruct m, p, g, m', p', g'; cbn in H; simplify_eq.
Qed.

(** Two intents with one intent hash are the same transaction request, in canonical
    form, unless the hash function collides on two distinct texts. *)
Theorem intent_hash_binds i j h :
  buildManagedSignerIntentHash i = Ok h -> buildManagedSignerIntentHash j = Ok h ->
  (exists e, canonicalIntent i = Ok e /\ canonicalIntent j = Ok e) \/
  exists a b, a <> b /\ keccak_text a = keccak_text b.
Proof.
  unfold buildManagedSignerIntentHash. intros Hi Hj.
  apply bind_ok in Hi as (e & Hi & Ei), Hj as (e' & Hj & Ej).
  assert (keccak_text (json_text (intent_value e)) = keccak_text (json_text (intent_value e')))
    by congruence. clear Ei Ej.
  destruct (decide (json_text (intent_value e) = json_text (intent_value e'))) as [E|E].
  - left. apply json_text_injective in E; [|apply intent_value_finite..].
    apply intent_value_inj in E as ->. by exists e'.
  - right. eexists _, _. by split; [exact E|].
Qed.

End Signer.
