(* ===== verification/GaslessDb.v ===== *)
(** The two durable stores of gasless execution: the nonce reservations of
    gateway/src/core/gaslessNonceReservationStore.ts and the transaction outcomes of
    gaslessTransactionOutcomeStore.ts, over the tables of
    gateway/src/database/schema/003, 009, 011 and 012.

    A statement, or a transaction between [BEGIN] and [COMMIT], is a function of the
    database that either commits or fails and leaves it as it was; its constraints
    are checked.  [NOW()] is an argument, in milliseconds.  Numeric columns hold the
    canonical decimal text they are read back as.  Timestamp columns nothing reads
    ([created_at] of the events, [updated_at], [signed_at]) are left out. *)
From stdpp Require Import base list gmap strings.
From S2P Require Import Prelude JsText SettlementTypes SettlementMachine ManagedSigner.

Open Scope string_scope.
Open Scope Z_scope.

(** ** Errors *)

Inductive pending_outcome := po_broadcast_unknown | po_confirmation_pending.

(** What the gasless code throws: a [GatewayError], its two subclasses of
    gaslessTransactionLifecycle.ts, a managed signer rejection, or an [Error] of
    another package, with its [code] when it has one. *)
Inductive thrown :=
| ThrowGateway (e : GatewayError)
| OutcomePending (transactionHash : string) (outcome : pending_outcome) (message : string)
| TransactionReverted (transactionHash blockNumber : string)
| ThrowSigner (e : signer_error)
| Plain (code : option string) (message : string).

Definition throw_gateway (st : Z) (c : GatewayErrorCode) (m : string) : thrown :=
  ThrowGateway (gatewayError st c m).

(** A violated constraint, with its SQLSTATE. *)
Definition unique_violation (constraint : string) : thrown := Plain (Some "23505") constraint.
Definition check_violation (table : string) : thrown := Plain (Some "23514") table.

#[export] Instance GaslessTransactionOutcomeStatus_eq_dec :
  EqDecision GaslessTransactionOutcomeStatus.
Proof. solve_decision. Defined.

Inductive resource_kind := settlement_handoff | platform_transfer.

#[export] Instance resource_kind_eq_dec : EqDecision resource_kind.
Proof. solve_decision. Defined.

(** ** Nonce reservations *)

Record GaslessNonceReservationInput := {
  ni_chainId : Z;
  ni_signerAddress : string;
  ni_transactionNonce : Z;
  ni_requestId : string;
  ni_applicationRequestId : string;
  ni_resourceType : resource_kind;
  ni_resourceId : string;
  ni_operation : string;
  ni_intentHash : string }.

#[export] Instance GaslessNonceReservationInput_eq_dec : EqDecision GaslessNonceReservationInput.
Proof. solve_decision. Defined.

Record GaslessNonceReservation := {
  nr_reservationId : string;
  nr_leaseToken : string;
  nr_chainId : Z;
  nr_signerAddress : string;
  nr_transactionNonce : Z;
  nr_requestId : string;
  nr_intentHash : string }.

Inductive reservation_status := r_reserved | r_signing | r_signed.

#[export] Instance reservation_status_eq_dec : EqDecision reservation_status.
Proof. solve_decision. Defined.

(** A row of [gasless_nonce_reservations]: what was reserved, and its lease. *)
Record ReservationRow := {
  rv_reservationId : string;
  rv_input : GaslessNonceReservationInput;
  rv_status : reservation_status;
  rv_leaseToken : string;
  rv_leaseExpiresAt : option Z;
  rv_recoveryCount : Z;
  rv_signedHash : option string }.

Record reservation_event := {
  re_reservationId : string;
  re_status : reservation_status;
  re_recoveryCount : Z;
  re_signedHash : option string }.

(** ** Transaction outcomes *)

Record GaslessTransactionIdentity := {
  gi_transactionHash : string;
  gi_applicationRequestId : string;
  gi_resourceType : resource_kind;
  gi_resourceId : string;
  gi_operation : string;
  gi_chainId : Z;
  gi_signerAddress : string;
  gi_nonce : Z;
  gi_transactionType : Z;
  gi_destinationAddress : string;
  gi_valueWei : string;
  gi_gasLimit : string;
  gi_maxFeePerGasWei : option string;
  gi_maxPriorityFeePerGasWei : option string;
  gi_gasPriceWei : option string;
  gi_calldataHash : string;
  gi_intentHash : string;
  gi_sourceApiKeyId : option string }.

(** Evidence of gaslessChainFinality.ts. *)
Record GaslessFinalityEvidence := {
  fe_projectionCoverage : option json;
  fe_chainId : string;
  fe_transactionHash : string;
  fe_blockNumber : string;
  fe_blockHash : string;
  fe_finalizedBlockNumber : string;
  fe_finalizedBlockHash : string;
  fe_rpcWitnesses : list string }.

Fixpoint json_dec (a b : json) {struct a} : {a = b} + {a <> b}.
Proof.
  destruct a as [|x|x|x|x|l|f], b as [|y|y|y|y|l'|f']; try (right; discriminate).
  - by left.
  - destruct (decide (x = y)); [left|right]; congruence.
  - destruct (decide (x = y)); [left|right]; congruence.
  - destruct (decide (x = y)); [left|right]; congruence.
  - destruct (decide (x = y)); [left|right]; congruence.
  - assert (H : {l = l'} + {l <> l'}); [|destruct H; [left|right]; congruence].
    revert l'. induction l as [|x l IH]; intros [|y l']; [by left|by right|by right|].
    destruct (json_dec x y), (IH l'); [left|right..]; congruence.
  - assert (H : {f = f'} + {f <> f'}); [|destruct H; [left|right]; congruence].
    revert f'. induction f as [|[k x] f IH]; intros [|[k' y] f']; [by left|by right|by right|].
    destruct (decide (k = k')), (json_dec x y), (IH f'); [left|right..]; congruence.
Defined.

#[export] Instance json_eq_dec : EqDecision json := json_dec.

#[export] Instance GaslessFinalityEvidence_eq_dec : EqDecision GaslessFinalityEvidence.
Proof. solve_decision. Defined.

Record GaslessConfirmedOutcome := {
  co_finalityEvidence : option GaslessFinalityEvidence;
  co_blockNumber : string;
  co_blockHash : string;
  co_gasUsed : string;
  co_effectiveGasPriceWei : string }.

(** A row of [gasless_transaction_outcomes]. *)
Record OutcomeRow := {
  o_identity : GaslessTransactionIdentity;
  o_observedTransactionHash : option string;
  o_status : GaslessTransactionOutcomeStatus;
  o_projected : option GaslessTransactionOutcomeStatus;
  o_failureCode : option string;
  o_blockNumber : option string;
  o_blockHash : option string;
  o_gasUsed : option string;
  o_effectiveGasPriceWei : option string;
  o_finalityEvidence : option GaslessFinalityEvidence;
  o_lastAttemptAt : option Z;
  o_createdAt : Z }.

Definition o_hash (r : OutcomeRow) : string := gi_transactionHash (o_identity r).

Record outcome_event := {
  oe_transactionHash : string;
  oe_status : GaslessTransactionOutcomeStatus;
  oe_failureCode : option string;
  oe_blockNumber : option string;
  oe_blockHash : option string;
  oe_observedTransactionHash : option string;
  oe_finalityEvidence : option GaslessFinalityEvidence }.

(** Tables in insertion order; the event tables grow at the end. *)
Record gasless_db := {
  reservations : list ReservationRow;
  reservation_events : list reservation_event;
  outcomes : list OutcomeRow;
  outcome_events : list outcome_event }.

Definition empty_db : gasless_db :=
  {| reservations := []; reservation_events := []; outcomes := []; outcome_events := [] |}.

Definition set_reservations (l : list ReservationRow) (e : list reservation_event) (d : gasless_db)
    : gasless_db :=
  {| reservations := l; reservation_events := e; outcomes := outcomes d;
     outcome_events := outcome_events d |}.

Definition set_outcomes (l : list OutcomeRow) (e : list outcome_event) (d : gasless_db) : gasless_db :=
  {| reservations := reservations d; reservation_events := reservation_events d; outcomes := l;
     outcome_events := e |}.

(** [UPDATE ... SET f WHERE p]: the rows afterwards. *)
Definition update_where {A} (p : A -> bool) (f : A -> A) (l : list A) : list A :=
  map (fun r => if p r then f r else r) l.

(** ** gaslessNonceReservationStore.ts *)

Section Reservations.
Context (getAddress : string -> option string).

Definition canonicalInput (input : GaslessNonceReservationInput)
    : result thrown GaslessNonceReservationInput :=
  _ ← throw_if (negb (is_safe_integer (ni_chainId input)) || (ni_chainId input <? 1))
        (Plain None "Gasless nonce reservation chainId must be a positive integer");
  _ ← throw_if (negb (is_safe_integer (ni_transactionNonce input)) || (ni_transactionNonce input <? 0))
        (Plain None "Gasless nonce reservation transactionNonce must be a non-negative integer");
  match getAddress (ni_signerAddress input) with
  | None => Err (Plain (Some "INVALID_ARGUMENT") "invalid address")
  | Some a =>
      Ok {| ni_chainId := ni_chainId input; ni_signerAddress := toLowerCase a;
            ni_transactionNonce := ni_transactionNonce input;
            ni_requestId := trim (ni_requestId input);
            ni_applicationRequestId := trim (ni_applicationRequestId input);
            ni_resourceType := ni_resourceType input; ni_resourceId := trim (ni_resourceId input);
            ni_operation := trim (ni_operation input);
            ni_intentHash := toLowerCase (ni_intentHash input) |}
  end.

(** The transaction slot a reservation is for. *)
Definition nonce_key (i : GaslessNonceReservationInput) : Z * string * Z :=
  (ni_chainId i, ni_signerAddress i, ni_transactionNonce i).

Definition row_key (r : ReservationRow) : Z * string * Z := nonce_key (rv_input r).

Definition reservation (r : ReservationRow) : GaslessNonceReservation :=
  {| nr_reservationId := rv_reservationId r; nr_leaseToken := rv_leaseToken r;
     nr_chainId := ni_chainId (rv_input r); nr_signerAddress := ni_signerAddress (rv_input r);
     nr_transactionNonce := ni_transactionNonce (rv_input r);
     nr_requestId := ni_requestId (rv_input r); nr_intentHash := ni_intentHash (rv_input r) |}.

(** The CHECK constraints a new reservation can violate. *)
Definition reservation_allowed (i : GaslessNonceReservationInput) : bool :=
  (0 <? ni_chainId i) && lower_hex_word 40 (ni_signerAddress i) && (0 <=? ni_transactionNonce i)
  && (String.length (ni_requestId i) <=? 128)%nat && (String.length (ni_operation i) <=? 64)%nat
  && lower_hex_word 64 (ni_intentHash i).

(** [addEvent]: an event of the row the lease still names. *)
Definition addEvent (value : GaslessNonceReservation) (status : reservation_status)
    (transactionHash : option string) (d : gasless_db) : gasless_db :=
  set_reservations (reservations d)
    (reservation_events d ++
     map (fun r => {| re_reservationId := rv_reservationId r; re_status := status;
                      re_recoveryCount := rv_recoveryCount r; re_signedHash := transactionHash |})
       (List.filter (fun r => String.eqb (rv_reservationId r) (nr_reservationId value)
                              && String.eqb (rv_leaseToken r) (nr_leaseToken value))
          (reservations d)))%list d.

(** The expired reservation of the same intent, which may be taken over. *)
Definition recoverable (i : GaslessNonceReservationInput) (maximumRecoveries now : Z)
    (r : ReservationRow) : bool :=
  bool_decide (rv_input r = i) && bool_decide (rv_status r = r_reserved)
  && match rv_leaseExpiresAt r with Some t => t <=? now | None => false end
  && (rv_recoveryCount r <? maximumRecoveries).

Definition recovered (leaseToken : string) (expires : Z) (r : ReservationRow) : ReservationRow :=
  {| rv_reservationId := rv_reservationId r; rv_input := rv_input r; rv_status := rv_status r;
     rv_leaseToken := leaseToken; rv_leaseExpiresAt := Some expires;
     rv_recoveryCount := rv_recoveryCount r + 1; rv_signedHash := rv_signedHash r |}.

Definition nonce_conflict : thrown :=
  throw_gateway 409 CONFLICT "Gasless signer nonce is already reserved by another transaction intent".

Record lease_policy := { leaseSeconds : Z; maximumRecoveries : Z }.

Definition reserve (policy : lease_policy) (untrusted : GaslessNonceReservationInput)
    (reservationId leaseToken : string) (now : Z) (d : gasless_db)
    : result thrown (GaslessNonceReservation * gasless_db) :=
  input ← canonicalInput untrusted;
  _ ← throw_if (negb (reservation_allowed input)) (check_violation "gasless_nonce_reservations");
  let expires := now + leaseSeconds policy * 1000 in
  if existsb (fun r => bool_decide (row_key r = nonce_key input)) (reservations d) then
    match List.find (recoverable input (maximumRecoveries policy) now) (reservations d) with
    | None => Err nonce_conflict
    | Some r =>
        let value := reservation (recovered leaseToken expires r) in
        let d' := set_reservations
          (update_where (recoverable input (maximumRecoveries policy) now)
             (recovered leaseToken expires) (reservations d)) (reservation_events d) d in
        Ok (value, addEvent value r_reserved None d')
    end
  else
    _ ← throw_if (existsb (fun r => String.eqb (rv_reservationId r) reservationId) (reservations d))
          (unique_violation "gasless_nonce_reservations_pkey");
    let row := {| rv_reservationId := reservationId; rv_input := input; rv_status := r_reserved;
                  rv_leaseToken := leaseToken; rv_leaseExpiresAt := Some expires;
                  rv_recoveryCount := 0; rv_signedHash := None |} in
    let value := reservation row in
    Ok (value, addEvent value r_reserved None
                 (set_reservations (reservations d ++ [row])%list (reservation_events d) d)).

(** The row a reservation names, under its current lease. *)
Definition leased (value : GaslessNonceReservation) (r : ReservationRow) : bool :=
  String.eqb (rv_reservationId r) (nr_reservationId value)
  && String.eqb (rv_leaseToken r) (nr_leaseToken value).

Definition may_sign (value : GaslessNonceReservation) (now : Z) (r : ReservationRow) : bool :=
  leased value r && bool_decide (rv_status r = r_reserved)
  && match rv_leaseExpiresAt r with Some t => now <? t | None => false end.

Definition signing_row (r : ReservationRow) : ReservationRow :=
  {| rv_reservationId := rv_reservationId r; rv_input := rv_input r; rv_status := r_signing;
     rv_leaseToken := rv_leaseToken r; rv_leaseExpiresAt := None;
     rv_recoveryCount := rv_recoveryCount r; rv_signedHash := rv_signedHash r |}.

Definition beginSigning (value : GaslessNonceReservation) (now : Z) (d : gasless_db)
    : result thrown (unit * gasless_db) :=
  if existsb (may_sign value now) (reservations d) then
    Ok (tt, addEvent value r_signing None
              (set_reservations (update_where (may_sign value now) signing_row (reservations d))
                 (reservation_events d) d))
  else Err (throw_gateway 409 CONFLICT "Gasless nonce reservation is no longer active").

Definition may_record (value : GaslessNonceReservation) (r : ReservationRow) : bool :=
  leased value r && bool_decide (rv_status r = r_signing) && bool_decide (rv_signedHash r = None).

Definition signed_row (hash : string) (r : ReservationRow) : ReservationRow :=
  {| rv_reservationId := rv_reservationId r; rv_input := rv_input r; rv_status := r_signed;
     rv_leaseToken := rv_leaseToken r; rv_leaseExpiresAt := rv_leaseExpiresAt r;
     rv_recoveryCount := rv_recoveryCount r; rv_signedHash := Some hash |}.

Definition recordSigned (value : GaslessNonceReservation) (transactionHash : string) (d : gasless_db)
    : result thrown (unit * gasless_db) :=
  let normalizedHash := toLowerCase transactionHash in
  if existsb (may_record value) (reservations d) then
    _ ← throw_if (negb (lower_hex_word 64 normalizedHash)) (check_violation "gasless_nonce_reservations");
    _ ← throw_if (existsb (fun r => bool_decide (rv_signedHash r = Some normalizedHash)) (reservations d))
          (unique_violation "gasless_nonce_reservations_signed_transaction_hash_key");
    Ok (tt, addEvent value r_signed (Some normalizedHash)
              (set_reservations (update_where (may_record value) (signed_row normalizedHash)
                 (reservations d)) (reservation_events d) d))
  else Err (Plain None "Gasless nonce reservation cannot accept another signed transaction").

End Reservations.

(** ** gaslessTransactionOutcomeStore.ts *)

(** The key under which a request may prepare one transaction. *)
Definition request_key (i : GaslessTransactionIdentity) : string * string * resource_kind * string :=
  (gi_applicationRequestId i, gi_operation i, gi_resourceType i, gi_resourceId i).

Definition hash_or_null (h : option string) : bool :=
  match h with Some s => lower_hex_word 64 s | None => true end.

(** The CHECK constraints of a new outcome. *)
Definition identity_allowed (i : GaslessTransactionIdentity) : bool :=
  lower_hex_word 64 (gi_transactionHash i) && (0 <? gi_chainId i)
  && hex_word 40 (gi_signerAddress i) && (0 <=? gi_nonce i)
  && hex_word 40 (gi_destinationAddress i)
  && digits_only (gi_valueWei i) && digits_only (gi_gasLimit i)
  && (0 <? digits_value (gi_gasLimit i))%N
  && lower_hex_word 64 (gi_calldataHash i) && lower_hex_word 64 (gi_intentHash i)
  && (((gi_transactionType i =? 0) && bool_decide (is_Some (gi_gasPriceWei i)))
      || ((gi_transactionType i =? 2) && bool_decide (is_Some (gi_maxFeePerGasWei i)))).

Definition event_of (hash : string) (s : GaslessTransactionOutcomeStatus) : outcome_event :=
  {| oe_transactionHash := hash; oe_status := s; oe_failureCode := None; oe_blockNumber := None;
     oe_blockHash := None; oe_observedTransactionHash := None; oe_finalityEvidence := None |}.

Definition prepared_row (i : GaslessTransactionIdentity) (now : Z) : OutcomeRow :=
  {| o_identity := i; o_observedTransactionHash := None; o_status := g_broadcast_pending;
     o_projected := None; o_failureCode := None; o_blockNumber := None; o_blockHash := None;
     o_gasUsed := None; o_effectiveGasPriceWei := None; o_finalityEvidence := None;
     o_lastAttemptAt := None; o_createdAt := now |}.

Definition recordPrepared (i : GaslessTransactionIdentity) (now : Z) (d : gasless_db)
    : result thrown (unit * gasless_db) :=
  _ ← throw_if (negb (identity_allowed i)) (check_violation "gasless_transaction_outcomes");
  _ ← throw_if (existsb (fun r => String.eqb (o_hash r) (gi_transactionHash i)) (outcomes d))
        (Plain None ("Gasless transaction identity already exists for " ++ gi_transactionHash i));
  _ ← throw_if (existsb (fun r => bool_decide (request_key (o_identity r) = request_key i)) (outcomes d))
        (unique_violation "gasless_transaction_outcomes_application_request_id_key");
  Ok (tt, set_outcomes (outcomes d ++ [prepared_row i now])%list
            (outcome_events d ++ [event_of (gi_transactionHash i) g_broadcast_pending])%list d).

(** [Partial<GaslessConfirmedOutcome> & { failureCode?, observedTransactionHash? }] *)
Record outcome_details := {
  od_failureCode : option string;
  od_blockNumber : option string;
  od_blockHash : option string;
  od_gasUsed : option string;
  od_effectiveGasPriceWei : option string;
  od_observedTransactionHash : option string;
  od_finalityEvidence : option GaslessFinalityEvidence }.

Definition no_details : outcome_details :=
  {| od_failureCode := None; od_blockNumber := None; od_blockHash := None; od_gasUsed := None;
     od_effectiveGasPriceWei := None; od_observedTransactionHash := None;
     od_finalityEvidence := None |}.

Definition details_of (o : GaslessConfirmedOutcome) : outcome_details :=
  {| od_failureCode := None; od_blockNumber := Some (co_blockNumber o);
     od_blockHash := Some (co_blockHash o); od_gasUsed := Some (co_gasUsed o);
     od_effectiveGasPriceWei := Some (co_effectiveGasPriceWei o);
     od_observedTransactionHash := None; od_finalityEvidence := co_finalityEvidence o |}.

Definition allowedCurrentStatuses (s : GaslessTransactionOutcomeStatus)
    : list GaslessTransactionOutcomeStatus :=
  match s with
  | g_broadcast_unknown | g_confirmation_pending | g_confirmed | g_reverted =>
      [g_broadcast_pending; g_broadcast_unknown; g_confirmation_pending]
  | _ => []
  end.

(** [COALESCE(a, b)] *)
Definition coalesce {A} (a b : option A) : option A := match a with Some x => Some x | None => b end.

(** The WHERE clause of the transition. *)
Definition may_transition (transactionHash : string) (s : GaslessTransactionOutcomeStatus)
    (x : outcome_details) (r : OutcomeRow) : bool :=
  String.eqb (o_hash r) transactionHash
  && includes (allowedCurrentStatuses s ++ [s]) (o_status r)
  && (negb (bool_decide (o_status r = s))
      || (bool_decide (o_blockNumber r = od_blockNumber x)
          && bool_decide (o_blockHash r = od_blockHash x)
          && bool_decide (o_gasUsed r = od_gasUsed x)
          && bool_decide (o_effectiveGasPriceWei r = od_effectiveGasPriceWei x)))
  && (negb (bool_decide (o_status r = s))
      || negb (bool_decide (o_finalityEvidence r
                            = coalesce (od_finalityEvidence x) (o_finalityEvidence r)))
      || (bool_decide (s = g_broadcast_unknown)
          && (negb (bool_decide (o_failureCode r = od_failureCode x))
              || negb (bool_decide (o_observedTransactionHash r
                   = coalesce (od_observedTransactionHash x) (o_observedTransactionHash r)))))).

Definition transitioned (s : GaslessTransactionOutcomeStatus) (x : outcome_details) (r : OutcomeRow)
    : OutcomeRow :=
  {| o_identity := o_identity r;
     o_observedTransactionHash := coalesce (od_observedTransactionHash x) (o_observedTransactionHash r);
     o_status := s; o_projected := o_projected r;
     o_failureCode := if bool_decide (s = g_broadcast_unknown) then od_failureCode x
                      else o_failureCode r;
     o_blockNumber := coalesce (od_blockNumber x) (o_blockNumber r);
     o_blockHash := coalesce (od_blockHash x) (o_blockHash r);
     o_gasUsed := coalesce (od_gasUsed x) (o_gasUsed r);
     o_effectiveGasPriceWei := coalesce (od_effectiveGasPriceWei x) (o_effectiveGasPriceWei r);
     o_finalityEvidence := coalesce (od_finalityEvidence x) (o_finalityEvidence r);
     o_lastAttemptAt := o_lastAttemptAt r; o_createdAt := o_createdAt r |}.

Definition transition_event (s : GaslessTransactionOutcomeStatus) (x : outcome_details) (hash : string)
    : outcome_event :=
  {| oe_transactionHash := hash; oe_status := s; oe_failureCode := od_failureCode x;
     oe_blockNumber := od_blockNumber x; oe_blockHash := od_blockHash x;
     oe_observedTransactionHash := od_observedTransactionHash x;
     oe_finalityEvidence := od_finalityEvidence x |}.

(** The first statement of [transition]; it returns the number of events written. *)
Definition transition_statement (transactionHash : string) (s : GaslessTransactionOutcomeStatus)
    (x : outcome_details) (d : gasless_db) : result thrown (nat * gasless_db) :=
  let hit := List.filter (may_transition transactionHash s x) (outcomes d) in
  _ ← throw_if (negb (hash_or_null (od_blockHash x) && hash_or_null (od_observedTransactionHash x))
                && negb (bool_decide (hit = [])))
        (check_violation "gasless_transaction_outcomes");
  Ok (length hit,
      set_outcomes (update_where (may_transition transactionHash s x) (transitioned s x) (outcomes d))
        (outcome_events d ++ map (fun r => transition_event s x (o_hash r)) hit)%list d).

(** The second statement of [transition]: the row as it is now. *)
Definition current_outcome (transactionHash : string) (d : gasless_db) : option OutcomeRow :=
  List.find (fun r => String.eqb (o_hash r) transactionHash) (outcomes d).

(** The transition asked for has already happened. *)
Definition already_recorded (s : GaslessTransactionOutcomeStatus) (x : outcome_details)
    (existing : OutcomeRow) : bool :=
  bool_decide (o_status existing = s)
  && (negb (bool_decide (s = g_broadcast_unknown))
      || bool_decide (o_failureCode existing = od_failureCode x))
  && (negb (bool_decide (s = g_broadcast_unknown))
      || bool_decide (od_observedTransactionHash x = None)
      || bool_decide (o_observedTransactionHash existing = od_observedTransactionHash x))
  && (negb (includes [g_confirmed; g_reverted] s)
      || (bool_decide (o_blockNumber existing = od_blockNumber x)
          && bool_decide (o_blockHash existing = od_blockHash x)
          && bool_decide (o_gasUsed existing = od_gasUsed x)
          && bool_decide (o_effectiveGasPriceWei existing = od_effectiveGasPriceWei x))).

Definition ORPHANED : string := "FINALIZED_BLOCK_ORPHANED".

Definition orphaned_row (r : OutcomeRow) : OutcomeRow :=
  {| o_identity := o_identity r; o_observedTransactionHash := o_observedTransactionHash r;
     o_status := g_confirmation_pending; o_projected := None; o_failureCode := Some ORPHANED;
     o_blockNumber := o_blockNumber r; o_blockHash := o_blockHash r; o_gasUsed := o_gasUsed r;
     o_effectiveGasPriceWei := o_effectiveGasPriceWei r;
     o_finalityEvidence := o_finalityEvidence r;
     o_lastAttemptAt := o_lastAttemptAt r; o_createdAt := o_createdAt r |}.

Definition may_orphan (transactionHash : string) (r : OutcomeRow) : bool :=
  String.eqb (o_hash r) transactionHash && includes [g_confirmed; g_reverted] (o_status r).

Definition markOrphaned (transactionHash : string) (d : gasless_db)
    : result thrown (unit * gasless_db) :=
  let hit := List.filter (may_orphan transactionHash) (outcomes d) in
  let d' := set_outcomes (update_where (may_orphan transactionHash) orphaned_row (outcomes d))
    (outcome_events d ++
     map (fun r => {| oe_transactionHash := o_hash r; oe_status := g_confirmation_pending;
                      oe_failureCode := Some ORPHANED; oe_blockNumber := o_blockNumber r;
                      oe_blockHash := o_blockHash r; oe_observedTransactionHash := None;
                      oe_finalityEvidence := None |}) hit)%list d in
  if (length hit =? 1)%nat then Ok (tt, d')
  else Err (Plain None "Orphaned outcome requires reconciliation").

Definition attempted_row (now : Z) (r : OutcomeRow) : OutcomeRow :=
  {| o_identity := o_identity r; o_observedTransactionHash := o_observedTransactionHash r;
     o_status := o_status r; o_projected := o_projected r; o_failureCode := o_failureCode r;
     o_blockNumber := o_blockNumber r; o_blockHash := o_blockHash r; o_gasUsed := o_gasUsed r;
     o_effectiveGasPriceWei := o_effectiveGasPriceWei r;
     o_finalityEvidence := o_finalityEvidence r; o_lastAttemptAt := Some now;
     o_createdAt := o_createdAt r |}.

Definition markRecoveryAttempted (transactionHash : string) (now : Z) (d : gasless_db)
    : result thrown (unit * gasless_db) :=
  Ok (tt, set_outcomes (update_where (fun r => String.eqb (o_hash r) transactionHash)
            (attempted_row now) (outcomes d)) (outcome_events d) d).

Definition projected_row (s : GaslessTransactionOutcomeStatus) (r : OutcomeRow) : OutcomeRow :=
  {| o_identity := o_identity r; o_observedTransactionHash := o_observedTransactionHash r;
     o_status := o_status r; o_projected := Some s; o_failureCode := o_failureCode r;
     o_blockNumber := o_blockNumber r; o_blockHash := o_blockHash r; o_gasUsed := o_gasUsed r;
     o_effectiveGasPriceWei := o_effectiveGasPriceWei r;
     o_finalityEvidence := o_finalityEvidence r; o_lastAttemptAt := o_lastAttemptAt r;
     o_createdAt := o_createdAt r |}.

Definition markProjectionApplied (transactionHash : string) (s : GaslessTransactionOutcomeStatus)
    (d : gasless_db) : result thrown (unit * gasless_db) :=
  let p r := String.eqb (o_hash r) transactionHash && bool_decide (o_status r = s) in
  if (length (List.filter p (outcomes d)) =? 1)%nat then
    Ok (tt, set_outcomes (update_where p (projected_row s) (outcomes d)) (outcome_events d) d)
  else Err (Plain None ("Gasless outcome changed before projection for " ++ transactionHash)).

(** [listRecoveryCandidates], for a runtime without a recovery scope. *)
Definition needs_recovery (r : OutcomeRow) : bool :=
  includes [g_broadcast_pending; g_broadcast_unknown; g_confirmation_pending; g_confirmed; g_reverted]
    (o_status r)
  || negb (bool_decide (o_projected r = Some (o_status r))).

Definition attempt_time (r : OutcomeRow) : Z := default (o_createdAt r) (o_lastAttemptAt r).

Definition listRecoveryCandidates (limit : Z) (d : gasless_db) : list OutcomeRow :=
  slice 0 limit
    (js_sort (fun a b => attempt_time a <=? attempt_time b) (List.filter needs_recovery (outcomes d))).

(** ** Invariants

    Invariants of the two gasless stores: keys stay unique, rows are never removed
    nor change identity, a reservation only moves forward, and every outcome row is
    its recorded events replayed from [broadcast_pending]. *)

Open Scope string_scope.
Open Scope Z_scope.

(** ** Lists of rows *)

Lemma update_where_map {A B} (f : A -> B) p g (l : list A) :
  (forall r, f (g r) = f r) -> map f (update_where p g l) = map f l.
Proof.
  intros H. unfold update_where. rewrite map_map. apply map_ext. intros r. by destruct (p r).
Qed.

Lemma update_where_elem {A} p g (l : list A) r :
  r ∈ update_where p g l <-> exists r0, r0 ∈ l /\ r = if p r0 then g r0 else r0.
Proof. unfold update_where. rewrite list_elem_of_fmap. naive_solver. Qed.

Lemma exists_row {A} (p : A -> bool) l : existsb p l = true <-> exists x, x ∈ l /\ p x = true.
Proof.
  rewrite existsb_exists. setoid_rewrite list_elem_of_In. done.
Qed.

Lemma existsb_none {A} (p : A -> bool) l x : existsb p l = false -> x ∈ l -> p x = false.
Proof.
  intros H Hx. destruct (p x) eqn:E; [|done].
  assert (existsb p l = true) by (apply exists_row; eauto). congruence.
Qed.

Lemma NoDup_map_eq {A B} (f : A -> B) l a b :
  NoDup (map f l) -> a ∈ l -> b ∈ l -> f a = f b -> a = b.
Proof.
  induction l as [|x l IH]; cbn; intros Hn Ha Hb E; [by apply elem_of_nil in Ha|].
  apply NoDup_cons in Hn as [Hx Hn].
  apply elem_of_cons in Ha as [->|Ha], Hb as [->|Hb]; auto.
  - exfalso. apply Hx. rewrite E. by apply list_elem_of_fmap_2.
  - exfalso. apply Hx. rewrite <- E. by apply list_elem_of_fmap_2.
Qed.

(** A key unique in a table names at most one row. *)
Lemma filter_unique {A B} (f : A -> B) (p : A -> bool) (k : B) l :
  NoDup (map f l) -> (forall r, p r = true -> f r = k) -> (length (List.filter p l) <= 1)%nat.
Proof.
  intros Hn Hp. induction l as [|x l IH]; cbn; [lia|].
  apply NoDup_cons in Hn as [Hx Hn]. destruct (p x) eqn:E; [|auto]. cbn.
  enough (List.filter p l = []) as -> by done.
  destruct (List.filter p l) as [|y m] eqn:Em; [done|]. exfalso. apply Hx.
  assert (Hy : In y (List.filter p l)) by (rewrite Em; by left).
  apply filter_In in Hy as [Hy1 Hy2]. rewrite (Hp x E), <- (Hp y Hy2).
  apply list_elem_of_fmap_2. by apply list_elem_of_In.
Qed.

(** ** Identities *)

(** The reservation part of a database moves forward. *)
Definition row_forward (a b : ReservationRow) : Prop :=
  rv_reservationId b = rv_reservationId a /\ rv_input b = rv_input a /\
  (rv_status a <> r_reserved -> rv_status b <> r_reserved) /\
  (rv_status a = r_signed -> rv_status b = r_signed /\ rv_signedHash b = rv_signedHash a).

Definition db_le (d d' : gasless_db) : Prop :=
  (forall a, a ∈ reservations d -> exists b, b ∈ reservations d' /\ row_forward a b) /\
  (forall a, a ∈ outcomes d -> exists b, b ∈ outcomes d' /\ o_identity b = o_identity a).

#[export] Instance row_forward_refl : Reflexive row_forward.
Proof. by intros a. Qed.

#[export] Instance db_le_refl : Reflexive db_le.
Proof. intros d. split; intros a Ha; exists a; split; [done..|done|done]. Qed.

#[export] Instance db_le_trans : Transitive db_le.
Proof.
  intros d1 d2 d3 [A1 B1] [A2 B2]. split; intros a Ha.
  - destruct (A1 a Ha) as (b & Hb & I1 & I2 & I3 & I4).
    destruct (A2 b Hb) as (c & Hc & J1 & J2 & J3 & J4). exists c. split; [done|].
    split_and!; [congruence|congruence|auto|]. intros H. destruct (I4 H) as [H1 H2].
    destruct (J4 H1) as [H3 H4]. split; congruence.
  - destruct (B1 a Ha) as (b & Hb & E1). destruct (B2 b Hb) as (c & Hc & E2).
    exists c. split; [done|congruence].
Qed.

Record keys_ok (d : gasless_db) : Prop := {
  ok_ids : NoDup (map rv_reservationId (reservations d));
  ok_keys : NoDup (map row_key (reservations d));
  ok_hashes : NoDup (map o_hash (outcomes d));
  ok_requests : NoDup (map (fun r => request_key (o_identity r)) (outcomes d));
  ok_lower : Forall (fun h => toLowerCase h = h) (map o_hash (outcomes d)) }.

(** Updating rows in place keeps keys and moves forward. *)
Lemma update_reservations_ok p g es d :
  keys_ok d ->
  (forall r, rv_reservationId (g r) = rv_reservationId r) -> (forall r, rv_input (g r) = rv_input r) ->
  (forall r, r ∈ reservations d -> p r = true -> row_forward r (g r)) ->
  keys_ok (set_reservations (update_where p g (reservations d)) es d) /\
  db_le d (set_reservations (update_where p g (reservations d)) es d).
Proof.
  intros [K1 K2 K3 K4 K5] Hid Hin Hf. split.
  - split; cbn; [by rewrite update_where_map|rewrite update_where_map; [done|]|done|done|done].
    intros r. unfold row_key. by rewrite Hin.
  - split; cbn; [|intros a Ha; by exists a]. intros a Ha. exists (if p a then g a else a).
    split; [apply update_where_elem; eauto|]. destruct (p a) eqn:E; [auto|done].
Qed.

Lemma update_outcomes_ok p g es d :
  keys_ok d -> (forall r, o_identity (g r) = o_identity r) ->
  keys_ok (set_outcomes (update_where p g (outcomes d)) es d) /\
  db_le d (set_outcomes (update_where p g (outcomes d)) es d).
Proof.
  intros [K1 K2 K3 K4 K5] Hid. split.
  - split; cbn; [done|done|rewrite update_where_map; [done|]|rewrite update_where_map; [done|]|rewrite update_where_map; [done|]];
      intros r; unfold o_hash; by rewrite Hid.
  - split; cbn; [intros a Ha; by exists a|]. intros a Ha. exists (if p a then g a else a).
    split; [apply update_where_elem; eauto|]. destruct (p a); [by rewrite Hid|done].
Qed.

Lemma addEvent_ok v s h d d0 :
  keys_ok d /\ db_le d0 d -> keys_ok (addEvent v s h d) /\ db_le d0 (addEvent v s h d).
Proof. intros [[K1 K2 K3 K4 K5] [A B]]. split; [by split|by split]. Qed.

Lemma find_elem {A} (p : A -> bool) l x : List.find p l = Some x -> x ∈ l /\ p x = true.
Proof. intros H. apply find_some in H as [H1 H2]. split; [by apply list_elem_of_In|done]. Qed.

(** What the reserve operation gives. *)
Lemma reserve_spec getAddress policy u id token now d v d' :
  reserve getAddress policy u id token now d = Ok (v, d') -> keys_ok d ->
  keys_ok d' /\ db_le d d' /\
  exists i r, canonicalInput getAddress u = Ok i /\ r ∈ reservations d' /\
    rv_reservationId r = nr_reservationId v /\ rv_input r = i /\ outcomes d' = outcomes d.
Proof.
  unfold reserve. intros H K. apply bind_ok in H as (i & Hi & H).
  apply throw_if_bind in H as [_ H]. cbv zeta in H.
  destruct (existsb _ (reservations d)) eqn:Ex.
  - destruct (List.find _ (reservations d)) as [r|] eqn:Ef; [|done]. injection H as <- <-.
    apply find_elem in Ef as [Hr Hp].
    destruct (update_reservations_ok (recoverable i (maximumRecoveries policy) now)
      (recovered token (now + leaseSeconds policy * 1000)) (reservation_events d) d K) as [K' L'];
      [done|done| |].
    { intros x _ Hx. split_and!; [done|done|done|]. intros Hs. unfold recoverable in Hx.
      apply andb_true_iff in Hx as [[[_ Hx]%andb_true_iff _]%andb_true_iff _].
      apply bool_decide_eq_true in Hx. congruence. }
    destruct (addEvent_ok (reservation (recovered token (now + leaseSeconds policy * 1000) r))
      r_reserved None _ _ (conj K' L')) as [K2 L2].
    split_and!; [done|done|].
    exists i, (recovered token (now + leaseSeconds policy * 1000) r). split_and!; [done| |done| |done].
    + cbn. apply update_where_elem. exists r. by rewrite Hp.
    + unfold recoverable in Hp. apply andb_true_iff in Hp as [[[Hp _]%andb_true_iff _]%andb_true_iff _].
      by apply bool_decide_eq_true in Hp.
  - apply throw_if_bind in H as [Hid H]. injection H as <- <-. destruct K as [K1 K2 K3 K4 K5].
    set (row := {| rv_reservationId := id; rv_input := i; rv_status := r_reserved;
       rv_leaseToken := token; rv_leaseExpiresAt := Some (now + leaseSeconds policy * 1000);
       rv_recoveryCount := 0; rv_signedHash := None |}).
    assert (K' : keys_ok (set_reservations (reservations d ++ [row]) (reservation_events d) d)).
    { split; cbn; [| |done|done|done]; rewrite map_app; apply NoDup_app; split_and!;
        try done; try apply NoDup_singleton; cbn.
      - intros x (a & -> & Ha)%list_elem_of_fmap Hx. apply list_elem_of_singleton in Hx.
        pose proof (existsb_none _ _ _ Hid Ha) as H. cbn in H. by apply String.eqb_neq in H.
      - intros x (a & -> & Ha)%list_elem_of_fmap Hx. apply list_elem_of_singleton in Hx.
        pose proof (existsb_none _ _ _ Ex Ha) as H. cbn in H. by apply bool_decide_eq_false in H. }
    assert (L' : db_le d (set_reservations (reservations d ++ [row]) (reservation_events d) d)).
    { split; cbn; [intros a Ha; exists a; split; [set_solver|done]|intros a Ha; by exists a]. }
    destruct (addEvent_ok (reservation row) r_reserved None _ _ (conj K' L')) as [Ka La].
    split_and!; [done|done|]. exists i, row. split_and!; try done. cbn. set_solver.
Qed.

Lemma beginSigning_spec v now d u d' :
  beginSigning v now d = Ok (u, d') -> keys_ok d ->
  keys_ok d' /\ db_le d d' /\
  exists r r', r ∈ reservations d /\ rv_reservationId r = nr_reservationId v /\
    rv_status r = r_reserved /\ r' ∈ reservations d' /\ rv_reservationId r' = nr_reservationId v /\
    rv_status r' = r_signing.
Proof.
  unfold beginSigning. destruct (existsb _ _) eqn:Ex; [|done]. intros [= <- <-] K.
  destruct (update_reservations_ok (may_sign v now) signing_row (reservation_events d) d K) as [K' L'];
    [done|done| |].
  { intros x _ Hx. unfold may_sign in Hx. reflect_bools. split_and!; [done|done|done|]. congruence. }
  destruct (addEvent_ok v r_signing None _ _ (conj K' L')) as [K2 L2]. split_and!; [done|done|].
  apply exists_row in Ex as (r & Hr & Hp). exists r, (signing_row r).
  pose proof Hp as Hp'. unfold may_sign, leased in Hp'. reflect_bools. split_and!; try done.
  cbn. apply update_where_elem. exists r. by rewrite Hp.
Qed.

Lemma recordSigned_spec v h d u d' :
  recordSigned v h d = Ok (u, d') -> keys_ok d ->
  keys_ok d' /\ db_le d d' /\
  exists r', r' ∈ reservations d' /\ rv_reservationId r' = nr_reservationId v /\
    rv_status r' = r_signed /\ rv_signedHash r' = Some (toLowerCase h) /\
    lower_hex_word 64 (toLowerCase h) = true.
Proof.
  unfold recordSigned. destruct (existsb (may_record v) _) eqn:Ex; [|done]. intros H K.
  apply throw_if_bind in H as [Hh H]. apply throw_if_bind in H as [_ H]. injection H as <- <-.
  destruct (update_reservations_ok (may_record v) (signed_row (toLowerCase h)) (reservation_events d) d K)
    as [K' L']; [done|done| |].
  { intros x _ Hx. unfold may_record in Hx. reflect_bools. split_and!; [done|done|done|]. congruence. }
  destruct (addEvent_ok v r_signed (Some (toLowerCase h)) _ _ (conj K' L')) as [K2 L2].
  split_and!; [done|done|]. apply exists_row in Ex as (r & Hr & Hp).
  exists (signed_row (toLowerCase h) r). pose proof Hp as Hp'. unfold may_record, leased in Hp'.
  reflect_bools. split_and!; try done. cbn. apply update_where_elem. exists r. by rewrite Hp.
Qed.

Lemma recordPrepared_spec i now d u d' :
  recordPrepared i now d = Ok (u, d') -> keys_ok d ->
  keys_ok d' /\ db_le d d' /\ prepared_row i now ∈ outcomes d' /\
  (forall r, r ∈ outcomes d -> o_hash r <> gi_transactionHash i).
Proof.
  unfold recordPrepared. intros H [K1 K2 K3 K4 K5]. apply throw_if_bind in H as [Hi H].
  apply throw_if_bind in H as [Hh H]. apply throw_if_bind in H as [Hk H]. injection H as <- <-.
  assert (Hnew : forall r, r ∈ outcomes d -> o_hash r <> gi_transactionHash i).
  { intros r Hr. pose proof (existsb_none _ _ _ Hh Hr) as H. cbn in H. by apply String.eqb_neq in H. }
  split_and!.
  - split; cbn; [done|done|..|rewrite map_app; apply Forall_app; split; [done|];
      repeat constructor; apply negb_false_iff in Hi; unfold identity_allowed in Hi; reflect_bools;
      by eapply lower_hex_lower]; rewrite map_app; apply NoDup_app; split_and!; try done;
      try apply NoDup_singleton; cbn; intros x (a & -> & Ha)%list_elem_of_fmap Hx;
      apply list_elem_of_singleton in Hx; [by apply (Hnew a Ha)|].
    pose proof (existsb_none _ _ _ Hk Ha) as H. cbn in H. by apply bool_decide_eq_false in H.
  - split; cbn; [intros a Ha; by exists a|intros a Ha; exists a; split; [set_solver|done]].
  - cbn. set_solver.
  - done.
Qed.

Lemma transition_spec h s x d n d' :
  transition_statement h s x d = Ok (n, d') -> keys_ok d -> keys_ok d' /\ db_le d d'.
Proof.
  unfold transition_statement. intros H K. apply throw_if_bind in H as [_ H]. injection H as _ <-.
  by apply update_outcomes_ok.
Qed.

Lemma markOrphaned_spec h d u d' : markOrphaned h d = Ok (u, d') -> keys_ok d -> keys_ok d' /\ db_le d d'.
Proof.
  unfold markOrphaned. destruct (_ =? 1)%nat; [|done]. intros [= <- <-] K. by apply update_outcomes_ok.
Qed.

Lemma markAttempted_spec h now d u d' :
  markRecoveryAttempted h now d = Ok (u, d') -> keys_ok d -> keys_ok d' /\ db_le d d'.
Proof. intros [= <- <-] K. by apply update_outcomes_ok. Qed.

Lemma markProjected_spec h s d u d' :
  markProjectionApplied h s d = Ok (u, d') -> keys_ok d -> keys_ok d' /\ db_le d d'.
Proof.
  unfold markProjectionApplied. destruct (_ =? 1)%nat; [|done]. intros [= <- <-] K.
  by apply update_outcomes_ok.
Qed.
