(* ===== verification/GaslessExec.v ===== *)
(** Gasless execution through a managed signer: gateway/src/core
    gaslessManagedSignerExecutor.ts, gaslessManagedSignerTransactions.ts,
    gaslessTransactionEncoding.ts, gaslessTransactionLifecycle.ts and
    gaslessRelayerBroadcastLock.ts, with the recorder of
    gaslessTransactionOutcomeStore.ts.

    The in-process broadcast queue only orders the operations and is left out; the
    advisory lock is kept for its failures and excludes nothing here, so what is
    shown holds for every interleaving.  Memory used for readiness and capacity
    figures, logs and audit details are left out. *)
From stdpp Require Import base list gmap strings.
From S2P Require Import Prelude JsText JsJson JsDate Programs SettlementTypes SettlementMachine SettlementStore SettlementService ManagedSigner GaslessDb.

Open Scope string_scope.
Open Scope Z_scope.

(** ** Data (gaslessExecutionTypes.ts) *)

Record GaslessBuyerAuthorization := { ba_nonce : string; ba_deadline : string; ba_signature : string }.

Record GaslessUsdcAuthorization := {
  ua_from : string; ua_to : string; ua_value : string; ua_validAfter : string;
  ua_validBefore : string; ua_nonce : string; ua_v : Z; ua_r : string; ua_s : string }.

Record GaslessCreateTradeExecutionInput := {
  ct_handoffId : string;
  ct_chainId : Z;
  ct_contractAddress : string;
  ct_expiresAt : string;
  ct_payloadHash : string;
  ct_buyerAddress : string;
  ct_supplierAddress : string;
  ct_totalAmount : string;
  ct_logisticsAmount : string;
  ct_platformFeesAmount : string;
  ct_supplierFirstTranche : string;
  ct_supplierSecondTranche : string;
  ct_ricardianHash : string;
  ct_buyerAuthorization : GaslessBuyerAuthorization;
  ct_usdcAuthorization : GaslessUsdcAuthorization;
  ct_requestId : string;
  ct_sourceApiKeyId : option string }.

Record GaslessWalletUsdcTransferExecutionInput := {
  wt_platformTransferId : string;
  wt_chainId : Z;
  wt_tokenAddress : string;
  wt_authorizationDomainName : string;
  wt_from : string;
  wt_to : string;
  wt_value : string;
  wt_validAfter : string;
  wt_validBefore : string;
  wt_nonce : string;
  wt_v : Z;
  wt_r : string;
  wt_s : string;
  wt_requestId : string;
  wt_sourceApiKeyId : option string }.

(** A transaction before its nonce and fees are set. *)
Record CallRequest := {
  cr_from : string; cr_to : string; cr_chainId : Z; cr_value : Z; cr_data : string }.

Record FeeData := {
  fd_maxFeePerGas : option Z; fd_maxPriorityFeePerGas : option Z; fd_gasPrice : option Z }.

(** [maxFeePerGas?], [maxPriorityFeePerGas?], [gasPrice?] *)
Record FeeOverrides := {
  fo_maxFeePerGas : option Z; fo_maxPriorityFeePerGas : option Z; fo_gasPrice : option Z }.

Record TransactionReceipt := {
  rc_status : option Z; rc_blockNumber : Z; rc_blockHash : string; rc_gasUsed : Z; rc_gasPrice : Z }.

Record GaslessExecutionReceipt := {
  er_finalityEvidence : GaslessFinalityEvidence;
  er_txHash : string;
  er_blockNumber : string;
  er_gasUsed : string;
  er_effectiveGasPriceWei : string;
  er_nativeCostWei : string;
  er_executorAddress : string;
  er_executorBalanceWei : string }.

Record GaslessTransactionContext := {
  tc_applicationRequestId : string;
  tc_resourceType : resource_kind;
  tc_resourceId : string;
  tc_sourceApiKeyId : option string }.

Record ManagedSignerRequest := {
  ms_custodyMode : string;
  ms_operation : string;
  ms_signerAddress : string;
  ms_requestId : string;
  ms_intentHash : string;
  ms_transaction : ManagedSignerTransactionIntent;
  ms_policyContext : jvalue }.

(** What the audit store is told about a signer's answer. *)
Inductive validation_record :=
| ValidationAccepted (evidence : ManagedSignerValidationEvidence)
| ValidationRejected (reason : ManagedSignerValidationFailureReason) (requestId intentHash : string)
    (signedTransactionHash : option string).

Inductive canonicality := block_canonical | block_orphaned | block_unavailable.

(** ** Effects *)

Inductive gasless_effect :=
| Reserve (input : GaslessNonceReservationInput)
| BeginSigning (value : GaslessNonceReservation)
| RecordSigned (value : GaslessNonceReservation) (transactionHash : string)
| RecordPrepared (identity : GaslessTransactionIdentity)
| TransitionStatement (transactionHash : string) (s : GaslessTransactionOutcomeStatus)
    (x : outcome_details)
| CurrentOutcome (transactionHash : string)
| RecoveryCandidates (limit : Z)
| MarkOrphaned (transactionHash : string)
| MarkAttempted (transactionHash : string)
| MarkProjected (transactionHash : string) (s : GaslessTransactionOutcomeStatus)
| GetHandoff (handoffId : string)
| RecordEvent (input : CreateSettlementExecutionEventInput)
| RecordValidation (record : validation_record)
| GetSignerAddress
| GetBalance (address : string)
| GetFeeData
| CallTransaction (t : CallRequest)
| EstimateGas (t : CallRequest)
| GetTransactionCount (address : string) (pending : bool)
| SignTransaction (request : ManagedSignerRequest)
| BroadcastTransaction (signed : string)
| WaitReceipt (hash : string)
| VerifyReceipt (chainId : Z) (hash : string) (receipt : TransactionReceipt)
| RevalidateBlock (chainId : Z) (blockNumber blockHash : string)
| GetTransactionReceipt (hash : string)
| GetTransaction (hash : string)
| ConnectLock
| AcquireLock
| ReleaseLock
| DateNow.

Definition gasless_reply (e : gasless_effect) : Type :=
  match e with
  | Reserve _ => GaslessNonceReservation
  | BeginSigning _ | RecordSigned _ _ | RecordPrepared _ | MarkOrphaned _ | MarkAttempted _
  | MarkProjected _ _ | RecordValidation _ | CallTransaction _ | ConnectLock | AcquireLock
  | ReleaseLock => unit
  | TransitionStatement _ _ _ => nat
  | CurrentOutcome _ => option OutcomeRow
  | RecoveryCandidates _ => list OutcomeRow
  | GetHandoff _ => option SettlementHandoffRecord
  | RecordEvent _ => recorded
  | GetSignerAddress | BroadcastTransaction _ => string
  | GetBalance _ | EstimateGas _ | GetTransactionCount _ _ | DateNow => Z
  | GetFeeData => FeeData
  | SignTransaction _ => ManagedSignerResponsePayload
  | WaitReceipt _ | GetTransactionReceipt _ => option TransactionReceipt
  | VerifyReceipt _ _ _ => option GaslessFinalityEvidence
  | RevalidateBlock _ _ _ => canonicality
  | GetTransaction _ => bool
  end.

Definition gasless : signature :=
  {| effect := gasless_effect; reply := gasless_reply; error := thrown |}.

Definition call_ (e : gasless_effect) : io gasless (gasless_reply e) := call (S := gasless) e.
Definition throw_ {A} (e : thrown) : io gasless A := throw (S := gasless) e.
Definition check_ (c : bool) (e : thrown) : io gasless unit := guard_ (S := gasless) c e.
Definition upstream (st : Z) (m : string) : thrown := throw_gateway st UPSTREAM_UNAVAILABLE m.

(** [try { m } finally { f }]: what [f] throws replaces the outcome of [m]. *)
Definition finally {A} (m : io gasless A) (f : io gasless unit) : io gasless A :=
  prog_bind (fun r => prog_bind (fun u => match u with Ok _ => Ret r | Err e => Ret (Err e) end) f) m.

Definition lift_signer {A} (r : result signer_error A) : io gasless A :=
  lift (S := gasless) match r with Ok a => Ok a | Err e => Err (ThrowSigner e) end.

(** ** gaslessTransactionOutcomeStore.ts: [transition] and the recorder *)

Definition transition (hash : string) (s : GaslessTransactionOutcomeStatus) (x : outcome_details)
    : io gasless unit :=
  rowCount ← call_ (TransitionStatement hash s x);
  if (rowCount =? 1)%nat then mret tt
  else
    existing ← call_ (CurrentOutcome hash);
    match existing with
    | Some row =>
        if already_recorded s x row then mret tt
        else throw_ (Plain None ("Invalid gasless transaction outcome transition for " ++ hash))
    | None => throw_ (Plain None ("Invalid gasless transaction outcome transition for " ++ hash))
    end.

Definition unknown_details (failureCode : string) (observed : option string) : outcome_details :=
  {| od_failureCode := Some failureCode; od_blockNumber := None; od_blockHash := None;
     od_gasUsed := None; od_effectiveGasPriceWei := None; od_observedTransactionHash := observed;
     od_finalityEvidence := None |}.

Definition markBroadcastUnknown (hash failureCode : string) (observed : option string)
    : io gasless unit := transition hash g_broadcast_unknown (unknown_details failureCode observed).
Definition markConfirmationPending (hash : string) : io gasless unit :=
  transition hash g_confirmation_pending no_details.
Definition markConfirmed (hash : string) (o : GaslessConfirmedOutcome) : io gasless unit :=
  transition hash g_confirmed (details_of o).
Definition markReverted (hash : string) (o : GaslessConfirmedOutcome) : io gasless unit :=
  transition hash g_reverted (details_of o).

Definition error_code_text (c : GatewayErrorCode) : string :=
  match c with
  | AUTH_REQUIRED => "AUTH_REQUIRED" | FORBIDDEN => "FORBIDDEN"
  | VALIDATION_ERROR => "VALIDATION_ERROR" | WALLET_SIGNER_REQUIRED => "WALLET_SIGNER_REQUIRED"
  | SIGNER_NOT_AUTHORIZED => "SIGNER_NOT_AUTHORIZED"
  | SIGNER_POLICY_RESTRICTED => "SIGNER_POLICY_RESTRICTED"
  | UPSTREAM_UNAVAILABLE => "UPSTREAM_UNAVAILABLE" | CONFLICT => "CONFLICT"
  | NOT_FOUND => "NOT_FOUND" | INTERNAL_ERROR => "INTERNAL_ERROR"
  end.

(** [normalizeFailureCode(error)] *)
Definition gaslessBroadcastFailureCode (e : thrown) : string :=
  let code := match e with
              | ThrowGateway g => error_code_text (ge_code g)
              | OutcomePending _ _ _ | TransactionReverted _ _ => error_code_text UPSTREAM_UNAVAILABLE
              | ThrowSigner _ => ""
              | Plain c _ => default "" c
              end in
  if truthy (trim code) then String.substring 0 128 (trim code)
  else match e with
       | ThrowSigner (ManagedSignerValidationError _ _ _ _) => "ManagedSignerValidationError"
       | _ => "Error"
       end.

Record gasless_config := {
  gc_chainId : Z;
  gc_escrowAddress : string;
  gc_usdcAddress : string;
  gc_custodyMode : string;
  gc_maxGasLimit : Z;
  gc_maxFeePerGasWei : Z;
  gc_maxNativeCostWei : Z;
  gc_minExecutorBalanceWei : Z }.

Section Exec.
Context (getAddress : string -> option string).
Context (keccak_text : string -> string) (keccak_hex : string -> option string).
Context (transaction_from : string -> option Transaction).
(** [interface.encodeFunctionData(name, args)] of the escrow and of USDC. *)
Context (encodeFunctionData : string -> list jvalue -> string).
Context (cfg : gasless_config).

(** ** gaslessTransactionLifecycle.ts *)

Definition missing_identity : thrown :=
  upstream 502 "Signed gasless transaction is missing canonical broadcast identity".

(** [keccak256(text)] of hex data, which throws on anything else. *)
Definition keccak256_hex (s : string) : io gasless string :=
  lift (S := gasless) match keccak_hex s with
                      | Some h => Ok h | None => Err (Plain (Some "INVALID_ARGUMENT") "invalid BytesLike")
                      end.

Definition getAddress_ (s : string) : io gasless string :=
  lift (S := gasless) match getAddress s with
                      | Some a => Ok a | None => Err (Plain (Some "INVALID_ARGUMENT") "invalid address")
                      end.

Definition requireSignedTransactionIdentity (signedTransaction operation intentHash : string)
    (context : GaslessTransactionContext) : io gasless GaslessTransactionIdentity :=
  match transaction_from signedTransaction with
  | None => throw_ (Plain (Some "INVALID_ARGUMENT") "invalid transaction")
  | Some t =>
      match tx_hash t, tx_from t, tx_to t, tx_type t with
      | Some hash, Some from, Some to, Some type =>
          _ ← check_ (negb (truthy hash) || negb (truthy from) || negb (truthy to)
                      || (tx_nonce t <? 0) || (tx_gasLimit t =? 0)
                      || (negb (type =? 0) && negb (type =? 2))) missing_identity;
          signerAddress ← getAddress_ from;
          destinationAddress ← getAddress_ to;
          calldataHash ← keccak256_hex (if truthy (tx_data t) then tx_data t else "0x");
          mret {| gi_transactionHash := hash;
                  gi_applicationRequestId := tc_applicationRequestId context;
                  gi_resourceType := tc_resourceType context;
                  gi_resourceId := tc_resourceId context;
                  gi_operation := operation;
                  gi_chainId := tx_chainId t;
                  gi_signerAddress := signerAddress;
                  gi_nonce := tx_nonce t;
                  gi_transactionType := type;
                  gi_destinationAddress := destinationAddress;
                  gi_valueWei := print_Z (tx_value t);
                  gi_gasLimit := print_Z (tx_gasLimit t);
                  gi_maxFeePerGasWei := print_Z <$> tx_maxFeePerGas t;
                  gi_maxPriorityFeePerGasWei := print_Z <$> tx_maxPriorityFeePerGas t;
                  gi_gasPriceWei := print_Z <$> tx_gasPrice t;
                  gi_calldataHash := calldataHash;
                  gi_intentHash := intentHash;
                  gi_sourceApiKeyId := tc_sourceApiKeyId context |}
      | _, _, _, _ => throw_ missing_identity
      end
  end.

(** [try { m } catch { log }] *)
Definition logged (m : io gasless unit) : io gasless unit := try_catch m (fun _ => mret tt).

(** It returns the hash of the provider's response. *)
Definition broadcastPersistedGaslessTransaction (signedTransaction operation intentHash : string)
    (context : GaslessTransactionContext) : io gasless string :=
  identity ← requireSignedTransactionIdentity signedTransaction operation intentHash context;
  let hash := gi_transactionHash identity in
  _ ← call_ (RecordPrepared identity);
  response ← try_catch (call_ (BroadcastTransaction signedTransaction)) (fun error =>
    _ ← logged (markBroadcastUnknown hash (gaslessBroadcastFailureCode error) None);
    throw_ (OutcomePending hash po_broadcast_unknown
              "Gasless transaction broadcast outcome requires reconciliation"));
  if negb (String.eqb (toLowerCase response) (toLowerCase hash)) then
    _ ← logged (markBroadcastUnknown hash "BROADCAST_HASH_MISMATCH" (Some (toLowerCase response)));
    throw_ (OutcomePending hash po_broadcast_unknown
              "Gasless provider returned a different transaction identity")
  else
    _ ← try_catch (markConfirmationPending hash) (fun _ =>
          throw_ (OutcomePending hash po_confirmation_pending
                    "Gasless transaction confirmation requires reconciliation"));
    mret response.

Definition projectPersistedGaslessTransaction {A} (hash : string) (project : io gasless A)
    : io gasless A :=
  try_catch project (fun _ =>
    throw_ (OutcomePending hash po_confirmation_pending
              "Gasless transaction outcome projection requires reconciliation")).

Definition persistGaslessTerminalOutcome (hash : string) (reverted : bool)
    (outcome : GaslessConfirmedOutcome) : io gasless unit :=
  try_catch (if reverted then markReverted hash outcome else markConfirmed hash outcome) (fun _ =>
    throw_ (OutcomePending hash po_confirmation_pending
              "Gasless transaction confirmation requires reconciliation")).

(** ** gaslessManagedSignerTransactions.ts, gaslessTransactionEncoding.ts *)

Definition buildCreateTradeArguments (i : GaslessCreateTradeExecutionInput) : list jvalue :=
  let u := ct_usdcAuthorization i in
  [VStr (ct_buyerAddress i); VStr (ct_supplierAddress i); VStr (ct_totalAmount i);
   VStr (ct_logisticsAmount i); VStr (ct_platformFeesAmount i); VStr (ct_supplierFirstTranche i);
   VStr (ct_supplierSecondTranche i); VStr (ct_ricardianHash i);
   VStr (ba_nonce (ct_buyerAuthorization i)); VStr (ba_deadline (ct_buyerAuthorization i));
   VStr (ba_signature (ct_buyerAuthorization i));
   VObj [("validAfter", VStr (ua_validAfter u)); ("validBefore", VStr (ua_validBefore u));
         ("nonce", VStr (ua_nonce u)); ("v", VNum (print_Z (ua_v u))); ("r", VStr (ua_r u));
         ("s", VStr (ua_s u))]].

Definition buildWalletUsdcTransferArguments (i : GaslessWalletUsdcTransferExecutionInput)
    : list jvalue :=
  [VStr (wt_from i); VStr (wt_to i); VStr (wt_value i); VStr (wt_validAfter i);
   VStr (wt_validBefore i); VStr (wt_nonce i); VNum (print_Z (wt_v i)); VStr (wt_r i); VStr (wt_s i)].

Definition buildManagedCreateTradeTransaction (i : GaslessCreateTradeExecutionInput) (from : string)
    : CallRequest :=
  {| cr_from := from; cr_to := gc_escrowAddress cfg; cr_chainId := gc_chainId cfg; cr_value := 0;
     cr_data := encodeFunctionData "createTradeWithAuthorization" (buildCreateTradeArguments i) |}.

Definition buildManagedWalletTransferTransaction (i : GaslessWalletUsdcTransferExecutionInput)
    (from : string) : CallRequest :=
  {| cr_from := from; cr_to := gc_usdcAddress cfg; cr_chainId := gc_chainId cfg; cr_value := 0;
     cr_data := encodeFunctionData "transferWithAuthorization" (buildWalletUsdcTransferArguments i) |}.

Definition createTradePolicyContext (i : GaslessCreateTradeExecutionInput) : jvalue :=
  VObj [("kind", VStr "create_trade"); ("resourceId", VStr (ct_handoffId i));
        ("actorAddress", VStr (ct_buyerAddress i)); ("supplierAddress", VStr (ct_supplierAddress i));
        ("authorizationNonce", VStr (ba_nonce (ct_buyerAuthorization i)));
        ("authorizationDeadline", VStr (ba_deadline (ct_buyerAuthorization i)));
        ("usdcAuthorizationNonce", VStr (ua_nonce (ct_usdcAuthorization i)));
        ("usdcValidAfter", VStr (ua_validAfter (ct_usdcAuthorization i)));
        ("usdcValidBefore", VStr (ua_validBefore (ct_usdcAuthorization i)))].

Definition walletTransferPolicyContext (i : GaslessWalletUsdcTransferExecutionInput) : jvalue :=
  VObj [("kind", VStr "wallet_usdc_transfer"); ("resourceId", VStr (wt_platformTransferId i));
        ("actorAddress", VStr (wt_from i)); ("recipientAddress", VStr (wt_to i));
        ("amount", VStr (wt_value i)); ("validAfter", VStr (wt_validAfter i));
        ("validBefore", VStr (wt_validBefore i)); ("authorizationNonce", VStr (wt_nonce i));
        ("authorizationDomainName", VStr (wt_authorizationDomainName i))].

(** ** gaslessManagedSignerExecutor.ts *)

(** The memoised promise is not kept: each use may be answered differently, which
    allows every run the memo allows. *)
Definition getExecutorAddress : io gasless string :=
  signerAddress ← call_ GetSignerAddress;
  match getAddress signerAddress with
  | None => throw_ (upstream 502 "Gasless managed signer returned an invalid address")
  | Some a => mret a
  end.

Definition assertSignerBalance : io gasless (string * Z) :=
  executorAddress ← getExecutorAddress;
  balance ← call_ (GetBalance executorAddress);
  _ ← check_ ((balance : Z) <? gc_minExecutorBalanceWei cfg)
        (upstream 503 "Gasless executor balance is below floor");
  mret (executorAddress, balance : Z).

Definition assertGasSpendCap (gasEstimate : Z) : io gasless FeeOverrides :=
  feeData ← call_ GetFeeData;
  match coalesce (fd_maxFeePerGas feeData) (fd_gasPrice feeData) with
  | None => throw_ (upstream 503 "Gasless relayer could not resolve chain fee data")
  | Some effective =>
      _ ← check_ (effective =? 0) (upstream 503 "Gasless relayer could not resolve chain fee data");
      _ ← check_ (gc_maxFeePerGasWei cfg <? effective)
            (upstream 503 "Gasless relayer fee-per-gas cap exceeded");
      _ ← check_ (gc_maxNativeCostWei cfg <? gasEstimate * effective)
            (upstream 503 "Gasless relayer native spend cap exceeded");
      mret match fd_maxFeePerGas feeData with
           | Some m =>
               {| fo_maxFeePerGas := Some m;
                  fo_maxPriorityFeePerGas :=
                    match fd_maxPriorityFeePerGas feeData with
                    | Some p => if p =? 0 then None else Some p
                    | None => None
                    end;
                  fo_gasPrice := None |}
           | None =>
               {| fo_maxFeePerGas := None; fo_maxPriorityFeePerGas := None;
                  fo_gasPrice := Some effective |}
           end
  end.

Definition simulateTransaction (t : CallRequest) : io gasless Z :=
  _ ← call_ (CallTransaction t);
  gasEstimate ← call_ (EstimateGas t);
  _ ← check_ (gc_maxGasLimit cfg <? (gasEstimate : Z))
        (throw_gateway 400 VALIDATION_ERROR "Gasless transaction gas estimate exceeds cap");
  mret (gasEstimate : Z).

Definition confirmation_required (hash : string) : thrown :=
  OutcomePending hash po_confirmation_pending
    "Gasless transaction confirmation requires reconciliation".

Definition receipt_outcome (receipt : TransactionReceipt) (e : GaslessFinalityEvidence)
    : GaslessConfirmedOutcome :=
  {| co_finalityEvidence := Some e; co_blockNumber := print_Z (rc_blockNumber receipt);
     co_blockHash := rc_blockHash receipt; co_gasUsed := print_Z (rc_gasUsed receipt);
     co_effectiveGasPriceWei := print_Z (rc_gasPrice receipt) |}.

Definition waitForConfirmedReceipt (hash : string) : io gasless GaslessExecutionReceipt :=
  waited ← try_catch (call_ (WaitReceipt hash)) (fun _ => throw_ (confirmation_required hash));
  match waited with
  | None => throw_ (confirmation_required hash)
  | Some receipt =>
      evidence ← try_catch (call_ (VerifyReceipt (gc_chainId cfg) hash receipt)) (fun _ => mret None);
      match evidence with
      | None =>
          throw_ (OutcomePending hash po_confirmation_pending
                    "Gasless transaction awaits finalized chain evidence")
      | Some e =>
          let outcome := receipt_outcome receipt e in
          if negb (bool_decide (rc_status receipt = Some 1)) then
            _ ← persistGaslessTerminalOutcome hash true outcome;
            throw_ (TransactionReverted hash (co_blockNumber outcome))
          else
            signer ← assertSignerBalance;
            executorBalance ← call_ (GetBalance signer.1);
            _ ← persistGaslessTerminalOutcome hash false outcome;
            mret {| er_finalityEvidence := e; er_txHash := hash;
                    er_blockNumber := print_Z (rc_blockNumber receipt);
                    er_gasUsed := print_Z (rc_gasUsed receipt);
                    er_effectiveGasPriceWei := print_Z (rc_gasPrice receipt);
                    er_nativeCostWei := print_Z (rc_gasUsed receipt * rc_gasPrice receipt);
                    er_executorAddress := signer.1;
                    er_executorBalanceWei := print_Z executorBalance |}
      end
  end.

Definition resource_text (k : resource_kind) : string :=
  match k with settlement_handoff => "settlement_handoff" | platform_transfer => "platform_transfer" end.

Definition buildSigningRequestId (operation : string) (context : GaslessTransactionContext)
    (signerAddress : string) (nonce : Z) : io gasless string :=
  a ← getAddress_ signerAddress;
  mret (keccak_text (json_text (VArr
    [VStr (tc_applicationRequestId context); VNum (print_Z (gc_chainId cfg)); VStr operation;
     VStr (tc_resourceId context); VStr (resource_text (tc_resourceType context));
     VStr (toLowerCase a); VNum (print_Z nonce)]))).

(** managedSignerIntentValidation.ts *)
Definition validateManagedSignerForBroadcast (response : ManagedSignerResponsePayload)
    (intent : ManagedSignerTransactionIntent) : io gasless string :=
  match validateManagedSignerResponse getAddress keccak_text keccak_hex transaction_from response intent with
  | Ok evidence =>
      _ ← call_ (RecordValidation (ValidationAccepted evidence));
      mret match rp_signedTransaction response with Some (JStr s) => s | _ => "" end
  | Err (ManagedSignerValidationError reason requestId intentHash hash) =>
      _ ← call_ (RecordValidation (ValidationRejected reason requestId intentHash hash));
      throw_ (upstream 502
                "Gasless managed signer returned a transaction outside the approved intent")
  | Err e => throw_ (ThrowSigner e)
  end.

Definition request_transaction (t : CallRequest) (gasEstimate nonce : Z) (fees : FeeOverrides)
    : TransactionRequest :=
  {| rq_to := cr_to t; rq_chainId := cr_chainId t; rq_value := cr_value t; rq_data := cr_data t;
     rq_nonce := nonce; rq_gasLimit := gasEstimate; rq_maxFeePerGas := fo_maxFeePerGas fees;
     rq_maxPriorityFeePerGas := fo_maxPriorityFeePerGas fees; rq_gasPrice := fo_gasPrice fees |}.

Definition broadcastManagedTransaction (operation : string) (policyContext : jvalue)
    (context : GaslessTransactionContext) (t : CallRequest) (gasEstimate : Z) (fees : FeeOverrides)
    : io gasless string :=
  executorAddress ← getExecutorAddress;
  nonce ← call_ (GetTransactionCount executorAddress true);
  requestId ← buildSigningRequestId operation context executorAddress nonce;
  let intent := serializeManagedSignerTransaction requestId executorAddress
                  (request_transaction t gasEstimate nonce fees) in
  intentHash ← lift_signer (buildManagedSignerIntentHash getAddress keccak_text intent);
  nonceReservation ← call_ (Reserve
    {| ni_chainId := gc_chainId cfg; ni_signerAddress := executorAddress;
       ni_transactionNonce := nonce; ni_requestId := requestId;
       ni_applicationRequestId := tc_applicationRequestId context;
       ni_resourceType := tc_resourceType context; ni_resourceId := tc_resourceId context;
       ni_operation := operation; ni_intentHash := intentHash |});
  _ ← call_ (BeginSigning nonceReservation);
  signerResponse ← call_ (SignTransaction
    {| ms_custodyMode := gc_custodyMode cfg; ms_operation := operation;
       ms_signerAddress := executorAddress; ms_requestId := requestId;
       ms_intentHash := intentHash; ms_transaction := intent;
       ms_policyContext := policyContext |});
  signedTransaction ← validateManagedSignerForBroadcast signerResponse intent;
  signedHash ← keccak256_hex signedTransaction;
  _ ← call_ (RecordSigned nonceReservation signedHash);
  broadcastPersistedGaslessTransaction signedTransaction operation intentHash context.

(** A submission: the transaction hash and its receipt. *)
Definition GaslessExecutionSubmission : Type := string * GaslessExecutionReceipt.

Definition create_trade_context (i : GaslessCreateTradeExecutionInput) : GaslessTransactionContext :=
  {| tc_applicationRequestId := ct_requestId i; tc_resourceType := settlement_handoff;
     tc_resourceId := ct_handoffId i; tc_sourceApiKeyId := None |}.

Definition wallet_context (i : GaslessWalletUsdcTransferExecutionInput) : GaslessTransactionContext :=
  {| tc_applicationRequestId := wt_requestId i; tc_resourceType := platform_transfer;
     tc_resourceId := wt_platformTransferId i; tc_sourceApiKeyId := wt_sourceApiKeyId i |}.

Definition simulateCreateTrade (i : GaslessCreateTradeExecutionInput) : io gasless Z :=
  signer ← assertSignerBalance;
  simulateTransaction (buildManagedCreateTradeTransaction i signer.1).

Definition simulateWalletUsdcTransfer (i : GaslessWalletUsdcTransferExecutionInput) : io gasless Z :=
  signer ← assertSignerBalance;
  simulateTransaction (buildManagedWalletTransferTransaction i signer.1).

(** The steps [executeCreateTrade] and [executeWalletUsdcTransfer] share. *)
Definition execute (operation : string) (policyContext : jvalue)
    (context : GaslessTransactionContext) (transaction_of : string -> CallRequest)
    : io gasless GaslessExecutionSubmission :=
  signer ← assertSignerBalance;
  let transaction := transaction_of signer.1 in
  gasEstimate ← simulateTransaction transaction;
  feeOverrides ← assertGasSpendCap gasEstimate;
  tx ← broadcastManagedTransaction operation policyContext context transaction gasEstimate feeOverrides;
  receipt ← waitForConfirmedReceipt tx;
  mret (tx, receipt).

Definition executeCreateTrade (i : GaslessCreateTradeExecutionInput)
    : io gasless GaslessExecutionSubmission :=
  execute "create_trade" (createTradePolicyContext i) (create_trade_context i)
    (buildManagedCreateTradeTransaction i).

Definition executeWalletUsdcTransfer (i : GaslessWalletUsdcTransferExecutionInput)
    : io gasless GaslessExecutionSubmission :=
  execute "wallet_usdc_transfer" (walletTransferPolicyContext i) (wallet_context i)
    (buildManagedWalletTransferTransaction i).

(** ** gaslessRelayerBroadcastLock.ts *)

Definition runExclusive {A} (handler : io gasless A) : io gasless A :=
  _ ← call_ ConnectLock;
  finally (_ ← call_ AcquireLock; handler) (call_ ReleaseLock).

End Exec.
