(* ===== verification/GaslessWorkflow.v ===== *)
(** The gasless workflows: gaslessCreateTradeWorkflow.ts,
    gaslessWalletUsdcTransferWorkflow.ts, gaslessExecutionFailure.ts,
    gaslessExecutionEvidence.ts and [enqueueBroadcast]'s use of the lock in
    gaslessSettlementExecutionService.ts.

    The checks of a request before its first effect (normalisation, payload hash,
    expiry, pause and capacity) and of the handoff it names are functions the
    workflow is given: what is shown of it holds whatever they accept.  The inputs
    are normalised ones. *)
From stdpp Require Import base list gmap strings.
From S2P Require Import Prelude JsText JsJson JsDate Programs SettlementTypes SettlementMachine SettlementStore SettlementService ManagedSigner GaslessDb GaslessExec.

Open Scope string_scope.
Open Scope Z_scope.

(** ** gaslessExecutionEvidence.ts *)

Definition evidence_value (e : GaslessFinalityEvidence) : json :=
  JObj (match fe_projectionCoverage e with Some c => [("projectionCoverage", c)] | None => [] end ++
    [("policyVersion", JStr "gasless_dual_rpc_finalized_v1"); ("chainId", JStr (fe_chainId e));
     ("transactionHash", JStr (fe_transactionHash e)); ("blockNumber", JStr (fe_blockNumber e));
     ("blockHash", JStr (fe_blockHash e));
     ("finalizedBlockNumber", JStr (fe_finalizedBlockNumber e));
     ("finalizedBlockHash", JStr (fe_finalizedBlockHash e));
     ("rpcWitnesses", JArr (map JStr (fe_rpcWitnesses e)))])%list.

Definition buildConfirmedMetadata (action payloadHash : string) (r : GaslessExecutionReceipt)
    (extra : list (string * json)) : list (string * json) :=
  ([("action", JStr action); ("payloadHash", JStr payloadHash); ("txHash", JStr (er_txHash r));
    ("blockNumber", JStr (er_blockNumber r));
    ("finalityEvidence", evidence_value (er_finalityEvidence r));
    ("gasUsed", JStr (er_gasUsed r)); ("effectiveGasPriceWei", JStr (er_effectiveGasPriceWei r));
    ("nativeCostWei", JStr (er_nativeCostWei r)); ("executorAddress", JStr (er_executorAddress r));
    ("executorBalanceWei", JStr (er_executorBalanceWei r))] ++ extra)%list.

(** [error.message] *)
Definition thrown_message (e : thrown) : string :=
  match e with
  | ThrowGateway g => ge_message g
  | OutcomePending _ _ m | Plain _ m => m
  | TransactionReverted _ _ => "Gasless transaction reverted on-chain"
  | ThrowSigner (IntentError m) => m
  | ThrowSigner (ManagedSignerValidationError _ _ _ _) =>
      "Managed signer changed the approved transaction"
  end.

(** An event of a handoff, without its time. *)
Record event_input := {
  ei_handoffId : string;
  ei_eventType : SettlementEventType;
  ei_executionStatus : SettlementExecutionStatus;
  ei_reconciliationStatus : SettlementReconciliationStatus;
  ei_providerStatus : string;
  ei_txHash : option string;
  ei_detail : string;
  ei_metadata : list (string * json);
  ei_requestId : string;
  ei_sourceApiKeyId : option string }.

Definition at_time (i : event_input) (observedAt : js_date) : CreateSettlementExecutionEventInput :=
  {| xi_handoffId := ei_handoffId i; xi_eventType := ei_eventType i;
     xi_executionStatus := ei_executionStatus i;
     xi_reconciliationStatus := ei_reconciliationStatus i;
     xi_providerStatus := Some (ei_providerStatus i); xi_txHash := ei_txHash i;
     xi_detail := Some (ei_detail i); xi_metadata := ei_metadata i; xi_observedAt := observedAt;
     xi_requestId := ei_requestId i; xi_sourceApiKeyId := ei_sourceApiKeyId i |}.

(** [settlementService.recordExecutionEvent({ ..., observedAt: now })] *)
Definition record_event (i : event_input) : io gasless recorded :=
  now ← call_ DateNow; call_ (RecordEvent (at_time i (Some (now : Z)))).

(** ** gaslessExecutionFailure.ts *)

Record GaslessFailureContext := {
  gf_handoffId : string;
  gf_action : string;
  gf_payloadHash : string;
  gf_requestId : string;
  gf_sourceApiKeyId : option string;
  gf_reconciliationStatus : SettlementReconciliationStatus }.

Definition failure_event (f : GaslessFailureContext) (t : SettlementEventType)
    (s : SettlementExecutionStatus) (provider : string) (txHash : option string) (detail : string)
    (extra : list (string * json)) : event_input :=
  {| ei_handoffId := gf_handoffId f; ei_eventType := t; ei_executionStatus := s;
     ei_reconciliationStatus := gf_reconciliationStatus f; ei_providerStatus := provider;
     ei_txHash := txHash; ei_detail := detail;
     ei_metadata := ([("action", JStr (gf_action f)); ("payloadHash", JStr (gf_payloadHash f))]
                     ++ extra)%list;
     ei_requestId := gf_requestId f; ei_sourceApiKeyId := gf_sourceApiKeyId f |}.

Definition recordGaslessExecutionFailure {A} (f : GaslessFailureContext) (error : thrown)
    : io gasless A :=
  match error with
  | OutcomePending hash outcome message =>
      let recovery := [("recoveryRequired", JBool true); ("rebroadcastAllowed", JBool false)] in
      _ ← record_event
            match outcome with
            | po_broadcast_unknown =>
                failure_event f e_broadcast_unknown x_broadcast_unknown "gasless_broadcast_unknown"
                  (Some hash) message recovery
            | po_confirmation_pending =>
                failure_event f e_confirmation_pending x_confirmation_pending
                  "gasless_confirmation_pending" (Some hash) message recovery
            end;
      throw_ error
  | TransactionReverted hash blockNumber =>
      _ ← record_event (failure_event f e_reverted x_reverted "gasless_receipt_reverted"
                          (Some hash) (thrown_message error) [("blockNumber", JStr blockNumber)]);
      throw_ error
  | _ =>
      _ ← record_event (failure_event f e_failed x_failed "gasless_pre_broadcast_failed" None
                          (thrown_message error) []);
      throw_ (upstream 502 "Gasless execution failed")
  end.

Section Workflow.
Context (getAddress : string -> option string).
Context (keccak_text : string -> string) (keccak_hex : string -> option string).
Context (transaction_from : string -> option Transaction).
Context (encodeFunctionData : string -> list jvalue -> string).
Context (cfg : gasless_config).
(** The checks of the request and of its handoff, and the settings
    [buildConfirmedExecutionMetadata] adds. *)
Context (admit_create_trade : GaslessCreateTradeExecutionInput -> result thrown unit)
  (assertHandoffMatchesExecution :
     SettlementHandoffRecord -> GaslessCreateTradeExecutionInput -> result thrown unit)
  (admit_transfer : GaslessWalletUsdcTransferExecutionInput -> result thrown unit)
  (balance_settings : list (string * json)).

(** ** gaslessCreateTradeWorkflow.ts *)

Definition create_event (i : GaslessCreateTradeExecutionInput) (t : SettlementEventType)
    (s : SettlementExecutionStatus) (r : SettlementReconciliationStatus) (provider : string)
    (txHash : option string) (detail : string) (metadata : list (string * json)) : event_input :=
  {| ei_handoffId := ct_handoffId i; ei_eventType := t; ei_executionStatus := s;
     ei_reconciliationStatus := r; ei_providerStatus := provider; ei_txHash := txHash;
     ei_detail := detail; ei_metadata := metadata; ei_requestId := ct_requestId i;
     ei_sourceApiKeyId := ct_sourceApiKeyId i |}.

Definition trade_terms (i : GaslessCreateTradeExecutionInput) : list (string * json) :=
  [("chainId", JNum (ct_chainId i)); ("contractAddress", JStr (ct_contractAddress i));
   ("buyerAddress", JStr (ct_buyerAddress i)); ("supplierAddress", JStr (ct_supplierAddress i));
   ("totalAmount", JStr (ct_totalAmount i)); ("logisticsAmount", JStr (ct_logisticsAmount i));
   ("platformFeesAmount", JStr (ct_platformFeesAmount i));
   ("supplierFirstTranche", JStr (ct_supplierFirstTranche i));
   ("supplierSecondTranche", JStr (ct_supplierSecondTranche i));
   ("ricardianHash", JStr (ct_ricardianHash i))].

Record GaslessCreateTradeExecutionResult := {
  cr_handoff : SettlementHandoffRecord;
  cr_confirmedEvent : SettlementExecutionEventRecord;
  cr_txHash : string }.

Definition failure_context (i : GaslessCreateTradeExecutionInput) (r : SettlementReconciliationStatus)
    : GaslessFailureContext :=
  {| gf_handoffId := ct_handoffId i; gf_action := "create_trade"; gf_payloadHash := ct_payloadHash i;
     gf_requestId := ct_requestId i; gf_sourceApiKeyId := ct_sourceApiKeyId i;
     gf_reconciliationStatus := r |}.

(** The body of the [try] block, once the request is accepted. *)
Definition create_trade_body (i : GaslessCreateTradeExecutionInput)
    (r : SettlementReconciliationStatus) : io gasless GaslessCreateTradeExecutionResult :=
  let base := [("action", JStr "create_trade"); ("payloadHash", JStr (ct_payloadHash i))] in
  queued ← record_event (create_event i e_queued x_queued r "gasless_request_queued" None
             "Gasless create-trade request queued for simulation." base);
  gasEstimate ← simulateCreateTrade getAddress encodeFunctionData cfg i;
  simulation ← record_event (create_event i e_simulation_completed x_queued
             (h_reconciliationStatus (rec_handoff queued)) "gasless_simulation_completed" None
             "Gasless create-trade transaction simulation completed."
             [("action", JStr "create_trade"); ("gasEstimate", JStr (print_Z gasEstimate));
              ("payloadHash", JStr (ct_payloadHash i))]);
  execution ← runExclusive (executeCreateTrade getAddress keccak_text keccak_hex transaction_from
                              encodeFunctionData cfg i);
  projectPersistedGaslessTransaction execution.1 (
    submitted ← record_event (create_event i e_submitted x_submitted
                  (h_reconciliationStatus (rec_handoff simulation)) "gasless_broadcast_submitted"
                  (Some execution.1) "Gasless create-trade transaction submitted by Cotsel."
                  ([("action", JStr "create_trade");
                    ("usdcAuthorizationNonce", JStr (ua_nonce (ct_usdcAuthorization i)));
                    ("payloadHash", JStr (ct_payloadHash i))] ++ trade_terms i)%list);
    confirmed ← record_event (create_event i e_confirmed x_confirmed
                  (h_reconciliationStatus (rec_handoff submitted)) "gasless_receipt_confirmed"
                  (Some execution.1) "Gasless create-trade transaction confirmed on-chain."
                  (buildConfirmedMetadata "create_trade" (ct_payloadHash i) execution.2
                     (balance_settings ++ trade_terms i)%list));
    mret {| cr_handoff := rec_handoff confirmed; cr_confirmedEvent := rec_event confirmed;
            cr_txHash := execution.1 |}).

Definition executeCreateTradeWorkflow (i : GaslessCreateTradeExecutionInput)
    : io gasless GaslessCreateTradeExecutionResult :=
  _ ← lift (S := gasless) (admit_create_trade i);
  handoff ← call_ (GetHandoff (ct_handoffId i));
  match handoff with
  | None => throw_ (throw_gateway 404 NOT_FOUND "Settlement handoff not found")
  | Some h =>
      _ ← lift (S := gasless) (assertHandoffMatchesExecution h i);
      accepted ← record_event (create_event i e_accepted x_accepted (h_reconciliationStatus h)
        "gasless_request_accepted" None
        "Gasless create-trade request accepted by Cotsel execution service."
        [("action", JStr "create_trade"); ("chainId", JNum (ct_chainId i));
         ("contractAddress", JStr (ct_contractAddress i)); ("expiresAt", JStr (ct_expiresAt i));
         ("payloadHash", JStr (ct_payloadHash i)); ("buyerAddress", JStr (ct_buyerAddress i));
         ("supplierAddress", JStr (ct_supplierAddress i));
         ("ricardianHash", JStr (ct_ricardianHash i))]);
      let r := h_reconciliationStatus (rec_handoff accepted) in
      try_catch (create_trade_body i r) (recordGaslessExecutionFailure (failure_context i r))
  end.

(** ** gaslessWalletUsdcTransferWorkflow.ts *)

Definition executeWalletUsdcTransferWorkflow (i : GaslessWalletUsdcTransferExecutionInput)
    : io gasless GaslessExecutionSubmission :=
  _ ← lift (S := gasless) (admit_transfer i);
  _ ← simulateWalletUsdcTransfer getAddress encodeFunctionData cfg i;
  runExclusive (executeWalletUsdcTransfer getAddress keccak_text keccak_hex transaction_from
                  encodeFunctionData cfg i).

End Workflow.
