(* ===== verification/GaslessReconcile.v ===== *)
(** Recovery of gasless outcomes: gateway/src/core
    gaslessTransactionOutcomeReconciler.ts, gaslessSettlementOutcomeObserver.ts and
    the reconciler of gaslessTransactionOutcomeRuntime.ts.

    The single-flight flag only removes interleavings and is left out;
    [beforeReconcile] (the user actions' repair, whose failure is swallowed) belongs
    to the user-action engine, which is not modelled. *)
From stdpp Require Import base list gmap strings.
From S2P Require Import Prelude JsText JsDate Programs SettlementTypes SettlementMachine SettlementStore SettlementService GaslessDb GaslessExec GaslessWorkflow.

Open Scope string_scope.
Open Scope Z_scope.

(** ** gaslessSettlementOutcomeObserver.ts *)

Definition is_handoff (row : OutcomeRow) : bool :=
  bool_decide (gi_resourceType (o_identity row) = settlement_handoff).

Definition orphan_event (row : OutcomeRow) : event_input :=
  let i := o_identity row in
  {| ei_handoffId := gi_resourceId i; ei_eventType := e_chain_evidence_orphaned;
     ei_executionStatus := x_confirmation_pending; ei_reconciliationStatus := rs_drift;
     ei_providerStatus := "gasless_finalized_block_orphaned";
     ei_txHash := Some (gi_transactionHash i);
     ei_detail := "Recorded finalized chain evidence was orphaned. Governed reconciliation is required.";
     ei_metadata := [("originalBlockNumber", text_or_null (o_blockNumber row));
                     ("originalBlockHash", text_or_null (o_blockHash row));
                     ("chainId", JNum (gi_chainId i)); ("rebroadcastPerformed", JBool false);
                     ("moneyMovementFreezeRequired", JBool true)];
     ei_requestId := gi_applicationRequestId i; ei_sourceApiKeyId := None |}.

Definition onOrphaned (row : OutcomeRow) : io gasless unit :=
  if is_handoff row then _ ← record_event (orphan_event row); mret tt else mret tt.

(** The statuses [recordHandoffOutcome] records. *)
Inductive handoff_outcome := ho_broadcast_unknown | ho_confirmation_pending | ho_confirmed | ho_reverted.

Definition outcome_event_type (s : handoff_outcome) : SettlementEventType :=
  match s with
  | ho_broadcast_unknown => e_broadcast_unknown | ho_confirmation_pending => e_confirmation_pending
  | ho_confirmed => e_confirmed | ho_reverted => e_reverted
  end.

Definition outcome_execution_status (s : handoff_outcome) : SettlementExecutionStatus :=
  match s with
  | ho_broadcast_unknown => x_broadcast_unknown | ho_confirmation_pending => x_confirmation_pending
  | ho_confirmed => x_confirmed | ho_reverted => x_reverted
  end.

(** The literal of the status, and with its first underscore replaced by a space. *)
Definition outcome_text (s : handoff_outcome) : string :=
  match s with
  | ho_broadcast_unknown => "broadcast_unknown" | ho_confirmation_pending => "confirmation_pending"
  | ho_confirmed => "confirmed" | ho_reverted => "reverted"
  end.

Definition outcome_words (s : handoff_outcome) : string :=
  match s with
  | ho_broadcast_unknown => "broadcast unknown" | ho_confirmation_pending => "confirmation pending"
  | ho_confirmed => "confirmed" | ho_reverted => "reverted"
  end.

Definition outcome_members (o : GaslessConfirmedOutcome) : list (string * json) :=
  ([("blockNumber", JStr (co_blockNumber o)); ("blockHash", JStr (co_blockHash o));
    ("gasUsed", JStr (co_gasUsed o)); ("effectiveGasPriceWei", JStr (co_effectiveGasPriceWei o))]
   ++ match co_finalityEvidence o with
      | Some e => [("finalityEvidence", evidence_value e)] | None => [] end)%list.

Definition recovery_event (row : OutcomeRow) (s : handoff_outcome)
    (r : SettlementReconciliationStatus) (outcome : option GaslessConfirmedOutcome) : event_input :=
  let i := o_identity row in
  {| ei_handoffId := gi_resourceId i; ei_eventType := outcome_event_type s;
     ei_executionStatus := outcome_execution_status s; ei_reconciliationStatus := r;
     ei_providerStatus := "gasless_recovery_" ++ outcome_text s;
     ei_txHash := Some (gi_transactionHash i);
     ei_detail := "Gasless transaction recovery resolved " ++ outcome_words s ++ ".";
     ei_metadata := ([("action", JStr (gi_operation i)); ("chainId", JNum (gi_chainId i));
                      ("signerAddress", JStr (gi_signerAddress i)); ("nonce", JNum (gi_nonce i));
                      ("recoveredAfterRestart", JBool true); ("rebroadcastPerformed", JBool false)]
                     ++ match outcome with Some o => outcome_members o | None => [] end)%list;
     ei_requestId := gi_applicationRequestId i; ei_sourceApiKeyId := None |}.

Definition requireHandoff (row : OutcomeRow) : io gasless SettlementHandoffRecord :=
  handoff ← call_ (GetHandoff (gi_resourceId (o_identity row)));
  match handoff with
  | None => throw_ (Plain None ("Missing settlement handoff for gasless outcome " ++ o_hash row))
  | Some h => mret h
  end.

Definition recordHandoffOutcome (row : OutcomeRow) (s : handoff_outcome)
    (outcome : option GaslessConfirmedOutcome) : io gasless unit :=
  if is_handoff row then
    handoff ← requireHandoff row;
    _ ← record_event (recovery_event row s (h_reconciliationStatus handoff) outcome);
    mret tt
  else mret tt.

Definition prepareTerminalProjection (row : OutcomeRow) : io gasless unit :=
  if is_handoff row then
    handoff ← requireHandoff row;
    if includes [x_pending; x_accepted; x_queued] (h_executionStatus handoff)
    then recordHandoffOutcome row ho_confirmation_pending None
    else mret tt
  else mret tt.

Definition onTerminal (row : OutcomeRow) (s : handoff_outcome) (o : GaslessConfirmedOutcome)
    : io gasless unit :=
  _ ← prepareTerminalProjection row; recordHandoffOutcome row s (Some o).

(** ** gaslessTransactionOutcomeReconciler.ts *)

Definition final_status (s : GaslessTransactionOutcomeStatus) : bool :=
  includes [g_confirmed; g_reverted] s.

Definition projected_as (row : OutcomeRow) (s : GaslessTransactionOutcomeStatus) : bool :=
  bool_decide (o_projected row = Some s).

Definition with_orphan (row : OutcomeRow) : OutcomeRow :=
  {| o_identity := o_identity row; o_observedTransactionHash := o_observedTransactionHash row;
     o_status := g_confirmation_pending; o_projected := o_projected row;
     o_failureCode := Some ORPHANED; o_blockNumber := o_blockNumber row;
     o_blockHash := o_blockHash row; o_gasUsed := o_gasUsed row;
     o_effectiveGasPriceWei := o_effectiveGasPriceWei row;
     o_finalityEvidence := o_finalityEvidence row; o_lastAttemptAt := o_lastAttemptAt row;
     o_createdAt := o_createdAt row |}.

(** [text && ...] on a nullable text. *)
Definition present_text (s : option string) : bool := present s.

(** [if (c) await m] *)
Definition when (c : bool) (m : io gasless unit) : io gasless unit := if c then m else mret tt.

Definition projectBroadcastUnknown (row : OutcomeRow) (failureCode : string) : io gasless unit :=
  let unprojected := negb (projected_as row g_broadcast_unknown) in
  _ ← (if negb (bool_decide (o_status row = g_broadcast_unknown))
          || negb (bool_decide (o_failureCode row = Some failureCode)) then
         _ ← markBroadcastUnknown (o_hash row) failureCode
               (if present_text (o_observedTransactionHash row)
                then o_observedTransactionHash row else None);
         when unprojected (recordHandoffOutcome row ho_broadcast_unknown None)
       else when unprojected (recordHandoffOutcome row ho_broadcast_unknown None));
  when unprojected (call_ (MarkProjected (o_hash row) g_broadcast_unknown)).

Section Reconciler.
(** The retained rail an operation's chain and destination select. *)
Context (rail_known : OutcomeRow -> bool).

(** The branch of a finalized receipt. *)
Definition reconcile_receipt (row : OutcomeRow) (receipt : TransactionReceipt)
    (e : GaslessFinalityEvidence) : io gasless unit :=
  let outcome := receipt_outcome receipt e in
  let ok := bool_decide (rc_status receipt = Some 1) in
  let status := if ok then g_confirmed else g_reverted in
  _ ← when (negb (projected_as row status))
        (onTerminal row (if ok then ho_confirmed else ho_reverted) outcome);
  _ ← when (negb (bool_decide (o_status row = status)) || bool_decide (o_finalityEvidence row = None))
        (if ok then markConfirmed (o_hash row) outcome else markReverted (o_hash row) outcome);
  call_ (MarkProjected (o_hash row) status).

(** The branch of a receipt that is not final. *)
Definition reconcile_unfinal (row : OutcomeRow) : io gasless unit :=
  when (negb (final_status (o_status row)))
    (_ ← markConfirmationPending (o_hash row);
     when (negb (projected_as row g_confirmation_pending))
       (_ ← recordHandoffOutcome row ho_confirmation_pending None;
        call_ (MarkProjected (o_hash row) g_confirmation_pending))).

(** The branch of a transaction the provider knows without a receipt. *)
Definition reconcile_pending (row : OutcomeRow) : io gasless unit :=
  let unprojected := negb (projected_as row g_confirmation_pending) in
  _ ← when unprojected (recordHandoffOutcome row ho_confirmation_pending None);
  _ ← when (negb (bool_decide (o_status row = g_confirmation_pending)))
        (markConfirmationPending (o_hash row));
  when unprojected (call_ (MarkProjected (o_hash row) g_confirmation_pending)).

(** The branch of a transaction the provider does not know. *)
Definition reconcile_missing (row : OutcomeRow) : io gasless unit :=
  let hash := o_hash row in
  let nonce_evidence : io gasless unit :=
    confirmed ← call_ (GetTransactionCount (gi_signerAddress (o_identity row)) false);
    pending ← call_ (GetTransactionCount (gi_signerAddress (o_identity row)) true);
    projectBroadcastUnknown row
      (if gi_nonce (o_identity row) <? (confirmed : Z)
       then "RECOVERY_SIGNER_NONCE_CONFIRMED_PAST_TRANSACTION"
       else if gi_nonce (o_identity row) <? (pending : Z)
       then "RECOVERY_SIGNER_NONCE_PENDING_PAST_TRANSACTION"
       else "RECOVERY_TRANSACTION_NOT_FOUND") in
  match o_observedTransactionHash row with
  | Some observed =>
      if truthy observed && negb (String.eqb (toLowerCase observed) (toLowerCase hash)) then
        receipt ← call_ (GetTransactionReceipt observed);
        match receipt with
        | Some _ => projectBroadcastUnknown row "RECOVERY_OBSERVED_HASH_HAS_RECEIPT"
        | None =>
            known ← call_ (GetTransaction observed);
            if (known : bool) then projectBroadcastUnknown row "RECOVERY_OBSERVED_HASH_IS_PENDING"
            else nonce_evidence
        end
      else nonce_evidence
  | None => nonce_evidence
  end.

(** After the checks of an orphaned or already final outcome. *)
Definition reconcile_chain (row : OutcomeRow) : io gasless unit :=
  let hash := o_hash row in
  if negb (rail_known row)
  then throw_ (Plain None "Historical operation requires approved retained rail evidence")
  else
    receipt ← call_ (GetTransactionReceipt hash);
    match receipt with
    | Some r =>
        evidence ← call_ (VerifyReceipt (gi_chainId (o_identity row)) hash r);
        match evidence with
        | None => reconcile_unfinal row
        | Some e => reconcile_receipt row r e
        end
    | None =>
        if final_status (o_status row) then mret tt
        else
          known ← call_ (GetTransaction hash);
          if (known : bool) then reconcile_pending row else reconcile_missing row
    end.

Definition reconcile (row : OutcomeRow) : io gasless unit :=
  let hash := o_hash row in
  if bool_decide (o_failureCode row = Some ORPHANED) then
    when (negb (projected_as row g_confirmation_pending))
      (_ ← onOrphaned row; call_ (MarkProjected hash g_confirmation_pending))
  else if present_text (o_blockNumber row) && present_text (o_blockHash row)
          && final_status (o_status row) then
    answer ← call_ (RevalidateBlock (gi_chainId (o_identity row)) (default "" (o_blockNumber row))
                      (default "" (o_blockHash row)));
    match answer with
    | block_orphaned =>
        _ ← call_ (MarkOrphaned hash);
        _ ← onOrphaned (with_orphan row);
        call_ (MarkProjected hash g_confirmation_pending)
    | block_unavailable => mret tt
    | block_canonical => reconcile_chain row
    end
  else reconcile_chain row.

(** [try { reconcile } catch { log } finally { try { rotate } catch { log } }] *)
Definition process_record (row : OutcomeRow) : io gasless unit :=
  _ ← logged (reconcile row); logged (call_ (MarkAttempted (o_hash row))).

Definition processUnresolved (limit : Z) : io gasless unit :=
  records ← call_ (RecoveryCandidates limit);
  for_each (S := gasless) (records : list OutcomeRow) process_record.

End Reconciler.

(** Splits the claim that every effect of a gasless program is of some kind into one
    claim per effect, and claims about the parts it does not look into. *)
Ltac gasless_steps :=
  repeat match goal with
  | |- every _ (mbind _ _) => apply every_io; [|intros ?]
  | |- every _ (call_ _) => apply (every_call (S := gasless)); try done
  | |- every _ (try_catch _ _) => apply every_try; [|intros ?]
  | |- every _ (logged _) => unfold logged
  | |- every _ (throw_ _) => exact Logic.I
  | |- every _ (mret _) => exact Logic.I
  | |- every _ (check_ ?c _) => destruct c; exact Logic.I
  | |- every _ (lift _) => exact Logic.I
  | |- every _ (lift_signer _) => exact Logic.I
  | |- every _ (when _ _) => unfold when
  | |- every _ (match ?x with _ => _ end) => destruct x
  | |- every _ (let _ := _ in _) => cbv zeta
  | |- every _ (markBroadcastUnknown _ _ _) => unfold markBroadcastUnknown
  | |- every _ (markConfirmationPending _) => unfold markConfirmationPending
  | |- every _ (markConfirmed _ _) => unfold markConfirmed
  | |- every _ (markReverted _ _) => unfold markReverted
  end.
