(* ===== verification/GaslessSystem.v ===== *)
(** Gasless execution as a system of processes.

    The world is the two gasless stores, the settlement store, and what has left the
    gateway: the requests handed to the managed signer and the transactions handed
    to the network.  Any number of processes run create-trade workflows, wallet
    transfers, recovery passes and other clients of the settlement store.  A
    database effect may be refused, may fail before or after it took effect (a lost
    acknowledgement), a call to another process answers anything, and a process may
    die between any two effects.  Neither the broadcast queue nor the advisory lock
    is assumed to exclude anything. *)
From stdpp Require Import base list gmap strings.
From S2P Require Import Prelude JsText JsJson Programs SettlementTypes SettlementMachine SettlementStore SettlementService ManagedSigner GaslessDb GaslessExec GaslessWorkflow GaslessReconcile.

Open Scope string_scope.
Open Scope Z_scope.

Record world := {
  w_db : gasless_db;
  w_store : store;
  w_signed : list ManagedSignerRequest;
  w_broadcast : list string }.

Definition with_db (d : gasless_db) (w : world) : world :=
  {| w_db := d; w_store := w_store w; w_signed := w_signed w; w_broadcast := w_broadcast w |}.
Definition with_store (s : store) (w : world) : world :=
  {| w_db := w_db w; w_store := s; w_signed := w_signed w; w_broadcast := w_broadcast w |}.

(** What an effect hands to the signer and to the network, newest first in the logs. *)
Definition signing_request (e : gasless_effect) : list ManagedSignerRequest :=
  match e with SignTransaction r => [r] | _ => [] end.
Definition broadcast_bytes (e : gasless_effect) : list string :=
  match e with BroadcastTransaction s => [s] | _ => [] end.

Definition sent (e : gasless_effect) (w : world) : world :=
  {| w_db := w_db w; w_store := w_store w; w_signed := signing_request e ++ w_signed w;
     w_broadcast := broadcast_bytes e ++ w_broadcast w |}.

Section System.
Context (getAddress : string -> option string).
Context (keccak_text : string -> string) (keccak_hex : string -> option string).
Context (transaction_from : string -> option Transaction).
Context (encodeFunctionData : string -> list jvalue -> string).
Context (sha256_hex : string -> string) (callbacks : callback_config).
Context (cfg : gasless_config) (policy : lease_policy).
Context (admit_create_trade : GaslessCreateTradeExecutionInput -> result thrown unit)
  (assertHandoffMatchesExecution :
     SettlementHandoffRecord -> GaslessCreateTradeExecutionInput -> result thrown unit)
  (admit_transfer : GaslessWalletUsdcTransferExecutionInput -> result thrown unit)
  (balance_settings : list (string * json)) (rail_known : OutcomeRow -> bool).

(** The effect of a statement on the gasless stores; [None] for other effects.  The
    clock reading and the identifiers [randomUUID()] gives are the run's. *)
Definition statement (now : Z) (uuid1 uuid2 : string) (e : gasless_effect)
    : option (gasless_db -> result thrown (gasless_reply e * gasless_db)) :=
  match e return option (gasless_db -> result thrown (gasless_reply e * gasless_db)) with
  | Reserve i => Some (reserve getAddress policy i uuid1 uuid2 now)
  | BeginSigning v => Some (beginSigning v now)
  | RecordSigned v h => Some (recordSigned v h)
  | RecordPrepared i => Some (recordPrepared i now)
  | TransitionStatement h s x => Some (transition_statement h s x)
  | CurrentOutcome h => Some (fun d => Ok (current_outcome h d, d))
  | RecoveryCandidates n => Some (fun d => Ok (listRecoveryCandidates n d, d))
  | MarkOrphaned h => Some (markOrphaned h)
  | MarkAttempted h => Some (markRecoveryAttempted h now)
  | MarkProjected h s => Some (markProjectionApplied h s)
  | _ => None
  end.

(** The effects whose answer comes from another process. *)
Definition external (e : gasless_effect) : bool :=
  match e with
  | RecordValidation _ | GetSignerAddress | GetBalance _ | GetFeeData | CallTransaction _
  | EstimateGas _ | GetTransactionCount _ _ | SignTransaction _ | BroadcastTransaction _
  | WaitReceipt _ | VerifyReceipt _ _ _ | RevalidateBlock _ _ _ | GetTransactionReceipt _
  | GetTransaction _ | ConnectLock | AcquireLock | ReleaseLock | DateNow => true
  | _ => false
  end.

Inductive perform : world -> forall e : gasless_effect, result thrown (gasless_reply e) -> world -> Prop :=
| perform_statement w e f now u1 u2 a d :
    statement now u1 u2 e = Some f -> f (w_db w) = Ok (a, d) -> perform w e (Ok a) (with_db d w)
| perform_refused w e f now u1 u2 x :
    statement now u1 u2 e = Some f -> f (w_db w) = Err x -> perform w e (Err x) w
| perform_lost w e f now u1 u2 a d x :
    statement now u1 u2 e = Some f -> f (w_db w) = Ok (a, d) -> perform w e (Err x) (with_db d w)
| perform_failed w e x : external e = false -> perform w e (Err x) w
| perform_handoff w id : perform w (GetHandoff id) (Ok (getHandoff id (w_store w))) w
| perform_event w i d s r :
    service_recordExecutionEvent sha256_hex callbacks i d (w_store w) = Ok (s, r) ->
    perform w (RecordEvent i) (Ok r) (with_store s w)
| perform_event_refused w i d x :
    service_recordExecutionEvent sha256_hex callbacks i d (w_store w) = Err x ->
    perform w (RecordEvent i) (Err (ThrowGateway x)) w
| perform_event_lost w i d s r x :
    service_recordExecutionEvent sha256_hex callbacks i d (w_store w) = Ok (s, r) ->
    perform w (RecordEvent i) (Err x) (with_store s w)
| perform_external w e r : external e = true -> perform w e r (sent e w).

Definition create_trade (i : GaslessCreateTradeExecutionInput) :=
  executeCreateTradeWorkflow getAddress keccak_text keccak_hex transaction_from encodeFunctionData cfg
    admit_create_trade assertHandoffMatchesExecution balance_settings i.

Definition wallet_transfer (i : GaslessWalletUsdcTransferExecutionInput) :=
  executeWalletUsdcTransferWorkflow getAddress keccak_text keccak_hex transaction_from
    encodeFunctionData cfg admit_transfer i.

(** What the gateway starts. *)
Inductive entry : prog gasless unit -> Prop :=
| entry_create_trade i : entry (run_process (create_trade i))
| entry_wallet_transfer i : entry (run_process (wallet_transfer i))
| entry_recovery limit : entry (run_process (processUnresolved rail_known limit))
| entry_event i : entry (run_process (call_ (RecordEvent i))).

(** A deployment that starts with empty gasless stores. *)
Definition start (s : store) : world :=
  {| w_db := empty_db; w_store := s; w_signed := []; w_broadcast := [] |}.

Definition gasless_reachable (s : store) (w : world) : Prop :=
  reachable (S := gasless) perform entry (start s) w.

(** ** Runs of one program against healthy stores

    What one step gets from outside: the answers of other processes, the clock and
    the identifiers drawn. *)
Record answers := {
  an_external : forall e : gasless_effect, result thrown (gasless_reply e);
  an_now : Z;
  an_uuid1 : string;
  an_uuid2 : string;
  an_draws : draws }.

Definition answer (o : answers) (w : world) (e : gasless_effect)
    : result thrown (gasless_reply e) * world :=
  match statement (an_now o) (an_uuid1 o) (an_uuid2 o) e with
  | Some f =>
      match f (w_db w) with Ok (a, d) => (Ok a, with_db d w) | Err x => (Err x, w) end
  | None =>
      match e return result thrown (gasless_reply e) * world with
      | GetHandoff id => (Ok (getHandoff id (w_store w)), w)
      | RecordEvent i =>
          match service_recordExecutionEvent sha256_hex callbacks i (an_draws o) (w_store w) with
          | Ok (s, r) => (Ok r, with_store s w)
          | Err x => (Err (ThrowGateway x), w)
          end
      | e => (an_external o e, sent e w)
      end
  end.

(** The run of a program from its [n]th step on: the effects, the world it ends in
    and its outcome. *)
Fixpoint run {A} (o : nat -> answers) (n : nat) (p : prog gasless A) (w : world)
    : list (event gasless) * world * A :=
  match p with
  | Ret a => ([], w, a)
  | Do e k =>
      let x := answer (o n) w e in
      let y := run o (S n) (k x.1) x.2 in
      (ev (S := gasless) e x.1 :: y.1.1, y.1.2, y.2)
  end.

Lemma answer_perform o w e : perform w e (answer o w e).1 (answer o w e).2.
Proof.
  unfold answer. destruct (statement (an_now o) (an_uuid1 o) (an_uuid2 o) e) as [f|] eqn:Ef.
  - destruct (f (w_db w)) as [[a d]|x] eqn:E; [by eapply perform_statement|by eapply perform_refused].
  - destruct e; try done; try by apply perform_external.
    + apply perform_handoff.
    + destruct (service_recordExecutionEvent sha256_hex callbacks input (an_draws o) (w_store w))
        as [[s r]|x] eqn:E; [by eapply perform_event|by eapply perform_event_refused].
Qed.

Lemma run_performs {A} o n (p : prog gasless A) w :
  performs p (run o n p w).1.1 (Ret (run o n p w).2).
Proof. revert n w. induction p as [a|e k IH]; intros n w; cbn; constructor. apply IH. Qed.

(** A run is one schedule of the system. *)
Lemma run_steps o n (p : prog gasless unit) w ps :
  rtc (step (S := gasless) perform entry) (w, p :: ps) ((run o n p w).1.2, Ret (run o n p w).2 :: ps).
Proof.
  revert n w. induction p as [a|e k IH]; intros n w; cbn; [done|].
  eapply rtc_l; [|apply IH]. apply (step_do _ _ _ _ [] e k ps). apply answer_perform.
Qed.

Lemma run_reachable o n p s w :
  entry p -> gasless_reachable s w -> gasless_reachable s (run o n p w).1.2.
Proof.
  intros Hp (ps & Hr). eexists. etrans; [exact Hr|]. eapply rtc_l; [by apply step_start|]. apply run_steps.
Qed.

Lemma start_reachable s : gasless_reachable s (start s).
Proof. by exists []. Qed.

End System.
