(* ===== verification/GaslessSafe.v ===== *)
(** Safety of gasless execution in every interleaving: one signature per nonce slot,
    one broadcast per transaction, request and nonce slot, and only of transactions
    inside the gateway's policy that were durably recorded first. *)
From stdpp Require Import base list gmap strings.
From S2P Require Import Prelude JsText JsJson Programs SettlementTypes SettlementMachine SettlementStore SettlementService ManagedSigner GaslessDb GaslessExec GaslessWorkflow GaslessReconcile GaslessSystem.

Open Scope string_scope.
Open Scope Z_scope.

(** ** The protocol of one process *)

Inductive gmode :=
| Idle
| Reserved (v : GaslessNonceReservation) (i : GaslessNonceReservationInput)
| Signing (v : GaslessNonceReservation) (i : GaslessNonceReservationInput)
| Asked (v : GaslessNonceReservation) (i : GaslessNonceReservationInput) (q : ManagedSignerRequest)
| Recorded (i : GaslessNonceReservationInput) (q : ManagedSignerRequest) (hash : string)
| Prepared (i : GaslessNonceReservationInput) (q : ManagedSignerRequest)
    (id : GaslessTransactionIdentity)
| Sent.

Section Safe.
Context (getAddress : string -> option string).
Context (keccak_text : string -> string) (keccak_hex : string -> option string).
Context (transaction_from : string -> option Transaction).
Context (encodeFunctionData : string -> list jvalue -> string).
Context (sha256_hex : string -> string) (callbacks : callback_config).
Context (cfg : gasless_config) (policy : lease_policy).
Context (admit_create_trade : GaslessCreateTradeExecutionInput -> result thrown unit)
  (assertHandoffMatchesExecution :
     SettlementHandoffRecord -> GaslessCreateTradeExecutionInput -> result thrown unit)
  (admit_transfer : GaslessWalletUsdcTransferExecutionInput -> result thrown unit)
  (balance_settings : list (string * json)) (rail_known : OutcomeRow -> bool).

(** The gateway's limits on a transaction it asks to be signed. *)
Definition within_limits (operation : string) (t : ManagedSignerTransactionIntent) : Prop :=
  mi_chainId t = gc_chainId cfg /\ mi_value t = print_Z 0 /\
  ((operation = "create_trade" /\ mi_to t = gc_escrowAddress cfg)
   \/ (operation = "wallet_usdc_transfer" /\ mi_to t = gc_usdcAddress cfg)) /\
  exists gas fee, mi_gasLimit t = print_Z gas /\ gas <= gc_maxGasLimit cfg /\
    fee <= gc_maxFeePerGasWei cfg /\ gas * fee <= gc_maxNativeCostWei cfg /\
    ((mi_type t = 2 /\ mi_maxFeePerGasWei t = Some (print_Z fee))
     \/ (mi_type t = 0 /\ mi_gasPriceWei t = Some (print_Z fee))).

(** A request to the signer for the reserved intent. *)
Definition asks (i : GaslessNonceReservationInput) (q : ManagedSignerRequest) : Prop :=
  let t := ms_transaction q in
  ms_signerAddress q = ni_signerAddress i /\ ms_requestId q = ni_requestId i /\
  ms_intentHash q = ni_intentHash i /\ ms_operation q = ni_operation i /\
  mi_signerAddress t = ni_signerAddress i /\ mi_chainId t = ni_chainId i /\
  mi_nonce t = ni_transactionNonce i /\
  buildManagedSignerIntentHash getAddress keccak_text t = Ok (ms_intentHash q) /\
  within_limits (ms_operation q) t.

(** The bytes are a signature of what was asked for. *)
Definition signs (q : ManagedSignerRequest) (hash bytes : string) : Prop :=
  keccak_hex bytes = Some hash /\
  exists t, transaction_from bytes = Some t /\ tx_hash t = Some hash /\
    is_intended getAddress t (ms_transaction q).

Definition gallowed (m : gmode) (e : gasless_effect) : Prop :=
  match e with
  | Reserve _ => m = Idle
  | BeginSigning v => exists i, m = Reserved v i
  | SignTransaction q => exists v i, m = Signing v i /\ asks i q
  | RecordSigned v h => exists i q bytes, m = Asked v i q /\ signs q h bytes
  | RecordPrepared id => exists i q, m = Recorded i q (gi_transactionHash id) /\
      request_key id = (ni_applicationRequestId i, ni_operation i, ni_resourceType i, ni_resourceId i)
  | BroadcastTransaction s => exists i q id, m = Prepared i q id /\ signs q (gi_transactionHash id) s
  | _ => True
  end.

Definition gnext (m : gmode) (e : gasless_effect) : result thrown (gasless_reply e) -> gmode :=
  match e return result thrown (gasless_reply e) -> gmode with
  | Reserve i => fun r => match r with Ok v => Reserved v i | Err _ => m end
  | BeginSigning v => fun r =>
      match r, m with Ok _, Reserved v i => Signing v i | _, _ => m end
  | SignTransaction q => fun _ => match m with Signing v i => Asked v i q | _ => m end
  | RecordSigned _ h => fun r =>
      match r, m with Ok _, Asked v i q => Recorded i q h | _, _ => m end
  | RecordPrepared id => fun r =>
      match r, m with Ok _, Recorded i q _ => Prepared i q id | _, _ => m end
  | BroadcastTransaction _ => fun _ => Sent
  | _ => fun _ => m
  end.

Definition signing_protocol : protocol gasless :=
  Build_protocol gasless gmode gallowed gnext.

(** ** Programs *)

(** Effects the protocol does not constrain. *)
Definition free (e : gasless_effect) : bool :=
  match e with
  | Reserve _ | BeginSigning _ | SignTransaction _ | RecordSigned _ _ | RecordPrepared _
  | BroadcastTransaction _ => false
  | _ => true
  end.

(** A program that only performs free effects keeps every mode. *)
Notation frees := (every (S := gasless) (fun e => free e = true)).

Lemma wp_frees {A} m (p : prog gasless A) (Q : gmode -> A -> Prop) :
  frees p -> (forall a, Q m a) -> wp signing_protocol m p Q.
Proof.
  intros Hp HQ. induction p as [a|e k IH]; simpl in *; [auto|]. destruct Hp as [He Hk].
  assert (gallowed m e /\ forall r, gnext m e r = m) as [Ha Hn] by (by destruct e).
  split; [done|]. intros r. rewrite Hn. auto.
Qed.

End Safe.

Notation frees := (every (S := gasless) (fun e => free e = true)).

Section Free.
Context (getAddress : string -> option string) (cfg : gasless_config).

Lemma frees_transition h s x : frees (transition h s x).
Proof. unfold transition. gasless_steps. Qed.

Lemma frees_record_event i : frees (record_event i).
Proof. unfold record_event. gasless_steps. Qed.

Lemma frees_failure {A} f e : frees (recordGaslessExecutionFailure (A := A) f e).
Proof.
  unfold recordGaslessExecutionFailure. destruct e; gasless_steps; try apply frees_record_event.
Qed.

Lemma frees_balance : frees (assertSignerBalance getAddress cfg).
Proof. unfold assertSignerBalance, getExecutorAddress. gasless_steps. Qed.

Lemma frees_recovery rail limit : frees (processUnresolved rail limit).
Proof.
  unfold processUnresolved, process_record. gasless_steps. apply every_for_each. intros row.
  unfold process_record, reconcile, reconcile_chain, reconcile_missing, reconcile_receipt, reconcile_unfinal,
    reconcile_pending, projectBroadcastUnknown, onOrphaned, onTerminal, prepareTerminalProjection,
    recordHandoffOutcome, requireHandoff, markBroadcastUnknown, markConfirmationPending,
    markConfirmed, markReverted.
  gasless_steps; try apply frees_transition; try apply frees_record_event.
Qed.
End Free.

(** ** Every program follows the protocol *)

Section Programs.
Context (getAddress : string -> option string).
Context (keccak_text : string -> string) (keccak_hex : string -> option string).
Context (transaction_from : string -> option Transaction).
Context (encodeFunctionData : string -> list jvalue -> string).
Context (cfg : gasless_config).

Notation P := (signing_protocol getAddress keccak_text keccak_hex transaction_from cfg).
Notation signs_ := (signs getAddress keccak_hex transaction_from).

Lemma safe_io {A B} (m : mode P) (p : io gasless A) (f : A -> io gasless B) :
  wp P m p (fun m' r => match r with Ok a => safe P m' (f a) | Err _ => True end) ->
  safe P m (p ≫= f).
Proof. intros H. apply wp_then. revert H. apply wp_weaken. by intros m' [a|e]. Qed.

Lemma safe_frees {A} (m : mode P) (p : prog gasless A) : frees p -> safe P m p.
Proof. intros H. by apply wp_frees. Qed.

Lemma safe_free_bind {A B} (m : mode P) (p : io gasless A) (f : A -> io gasless B) :
  frees p -> (forall a, safe P m (f a)) -> safe P m (p ≫= f).
Proof. intros Hp Hf. apply safe_io, wp_frees; [done|]. intros [a|e]; [apply Hf|done]. Qed.

Lemma safe_call_bind {B} (m : mode P) e (f : gasless_reply e -> io gasless B) :
  allowed P m e -> (forall a, safe P (next P m e (Ok a)) (f a)) -> safe P m (call_ e ≫= f).
Proof. intros Ha Hf. apply safe_io. split; [done|]. intros [a|x]; [apply Hf|done]. Qed.

Lemma safe_check {B} (m : mode P) c e (f : unit -> io gasless B) :
  (c = false -> safe P m (f tt)) -> safe P m (check_ c e ≫= f).
Proof. intros H. apply safe_io. destruct c; simpl; auto. Qed.

Lemma wp_check {B} (m : mode P) c e (f : unit -> io gasless B) (Q : mode P -> _ -> Prop) :
  (c = false -> wp P m (f tt) Q) -> (forall x, Q m (Err x)) -> wp P m (check_ c e ≫= f) Q.
Proof. intros Hf He. destruct c; [apply He|by apply Hf]. Qed.

Lemma safe_lift {A B} (m : mode P) (r : result thrown A) (f : A -> io gasless B) :
  (forall a, r = Ok a -> safe P m (f a)) -> safe P m (lift (S := gasless) r ≫= f).
Proof. intros H. apply safe_io. destruct r; simpl; auto. Qed.

(** A program after which nothing the protocol constrains follows. *)
Lemma safe_then {A B} (m : mode P) (p : io gasless A) (f : result thrown A -> prog gasless B) :
  safe P m p -> (forall r, frees (f r)) -> safe P m (prog_bind f p).
Proof.
  intros Hp Hf. apply wp_seq. revert Hp. apply wp_weaken. intros m' r _. by apply safe_frees.
Qed.

Lemma identity_spec signed operation intentHash context (m : mode P) (Q : mode P -> _ -> Prop) :
  (forall id t, transaction_from signed = Some t -> tx_hash t = Some (gi_transactionHash id) ->
     request_key id = (tc_applicationRequestId context, operation, tc_resourceType context,
                       tc_resourceId context) -> Q m (Ok id)) ->
  (forall x, Q m (Err x)) ->
  wp P m (requireSignedTransactionIdentity getAddress keccak_hex transaction_from signed operation
            intentHash context) Q.
Proof.
  intros Hok Herr. unfold requireSignedTransactionIdentity.
  destruct (transaction_from signed) as [t|] eqn:Et; [|apply Herr].
  destruct (tx_hash t) as [h|] eqn:Eh; [|apply Herr].
  destruct (tx_from t) as [from|]; [|apply Herr]. destruct (tx_to t) as [to|]; [|apply Herr].
  destruct (tx_type t) as [type|]; [|apply Herr].
  apply wp_then. match goal with |- context [check_ ?c _] => destruct c end; simpl; [apply Herr|].
  unfold getAddress_, keccak256_hex.
  destruct (getAddress from); simpl; [|apply Herr]. destruct (getAddress to); simpl; [|apply Herr].
  destruct (keccak_hex (if truthy (tx_data t) then tx_data t else "0x")); simpl; [|apply Herr].
  by apply (Hok _ t).
Qed.

Lemma safe_broadcastPersisted i q h signed operation intentHash context :
  signs_ q h signed ->
  (tc_applicationRequestId context, operation, tc_resourceType context, tc_resourceId context) =
  (ni_applicationRequestId i, ni_operation i, ni_resourceType i, ni_resourceId i) ->
  safe P (Recorded i q h)
    (broadcastPersistedGaslessTransaction getAddress keccak_hex transaction_from signed operation
       intentHash context).
Proof.
  intros Hs Hk. unfold broadcastPersistedGaslessTransaction. apply safe_io.
  apply identity_spec; [|done]. intros id t Et Eh Hr. cbv zeta.
  assert (h = gi_transactionHash id) as ->.
  { destruct Hs as (_ & t' & Et' & Eh' & _). congruence. }
  apply safe_call_bind; [exists i, q; split; [done|congruence]|]. intros [].
  apply safe_io, wp_catch. split; [by exists i, q, id|]. intros [response|x]; cbn [wp].
  - apply safe_frees. gasless_steps; apply frees_transition.
  - apply wp_frees; [gasless_steps; apply frees_transition|]. intros [a|y]; [|done].
    apply safe_frees. gasless_steps; apply frees_transition.
Qed.

Lemma safe_validate i v q response intent {B} (f : string -> io gasless B) :
  intent = ms_transaction q ->
  (forall bytes h, signs_ q h bytes -> safe P (Asked v i q) (f bytes)) ->
  (forall s a, getAddress s = Some a -> getAddress a = Some a) ->
  safe P (Asked v i q)
    (validateManagedSignerForBroadcast getAddress keccak_text keccak_hex transaction_from response intent
       ≫= f).
Proof.
  intros -> Hf Hg. apply safe_io. unfold validateManagedSignerForBroadcast.
  destruct (validateManagedSignerResponse _ _ _ _ _ _) as [evidence|[reason rid ih sh|msg]] eqn:Ev.
  - destruct (canonicalIntent getAddress (ms_transaction q)) as [e|x] eqn:Ec.
    + pose proof (proj1 (managed_signature_exact _ _ _ _ Hg _ _ _ _ Ec) Ev)
        as (_ & _ & _ & s & t & h & Es & _ & Et & Eh & Hi & Hh & _).
      rewrite Es. apply wp_then. split; [done|]. intros [[]|x]; simpl; [|done].
      apply (Hf s h). split; [done|]. by exists t.
    + exfalso. unfold validateManagedSignerResponse in Ev. by rewrite Ec in Ev.
  - apply wp_then. split; [done|]. by intros [[]|x].
  - done.
Qed.

(** Fees within the caps, as [assertGasSpendCap] gives them. *)
Definition fees_within (gas : Z) (f : FeeOverrides) : Prop :=
  exists fee, fee <= gc_maxFeePerGasWei cfg /\ gas * fee <= gc_maxNativeCostWei cfg /\
    (fo_maxFeePerGas f = Some fee \/ (fo_maxFeePerGas f = None /\ fo_gasPrice f = Some fee)).

Lemma safe_spend_cap {B} (m : mode P) gas (f : FeeOverrides -> io gasless B) :
  (forall x, fees_within gas x -> safe P m (f x)) -> safe P m (assertGasSpendCap cfg gas ≫= f).
Proof.
  intros Hf. apply safe_io. unfold assertGasSpendCap. apply wp_then. split; [done|].
  intros [data|x]; cbn [wp]; [|done].
  destruct (coalesce (fd_maxFeePerGas data) (fd_gasPrice data)) as [e|] eqn:Ee; [|done].
  apply wp_check; [intros _|done]. apply wp_check; [intros E1|done].
  apply wp_check; [intros E2|done]. reflect_bools. apply Hf. exists e. unfold coalesce in Ee.
  destruct (fd_maxFeePerGas data) as [m'|]; simpl; simplify_eq; eauto.
Qed.

Lemma safe_simulate {B} (m : mode P) t (f : Z -> io gasless B) :
  (forall gas, gas <= gc_maxGasLimit cfg -> safe P m (f gas)) ->
  safe P m (simulateTransaction cfg t ≫= f).
Proof.
  intros Hf. apply safe_io. unfold simulateTransaction. apply wp_then. split; [done|].
  intros [[]|x]; cbn [wp]; [|done]. apply wp_then. split; [done|].
  intros [g|x]; cbn [wp]; [|done]. apply wp_check; [intros E|done]. apply Hf. by reflect_bools.
Qed.

(** What a transaction of the given operation is sent to. *)
Definition targets (operation : string) (t : CallRequest) : Prop :=
  cr_chainId t = gc_chainId cfg /\ cr_value t = 0 /\
  ((operation = "create_trade" /\ cr_to t = gc_escrowAddress cfg)
   \/ (operation = "wallet_usdc_transfer" /\ cr_to t = gc_usdcAddress cfg)).

Context (getAddress_checksummed : forall s a, getAddress s = Some a -> getAddress a = Some a).

Lemma safe_broadcastManaged operation pc context t gas fees :
  targets operation t -> gas <= gc_maxGasLimit cfg -> fees_within gas fees ->
  safe P Idle
    (broadcastManagedTransaction getAddress keccak_text keccak_hex transaction_from cfg operation pc
       context t gas fees).
Proof using getAddress_checksummed.
  intros (Tc & Tv & Tt) Hg (fee & F1 & F2 & F3). unfold broadcastManagedTransaction.
  apply safe_free_bind; [unfold getExecutorAddress; gasless_steps|]. intros executor.
  apply safe_call_bind; [done|]. intros nonce. simpl next.
  apply safe_free_bind; [unfold buildSigningRequestId, getAddress_; gasless_steps|]. intros requestId.
  cbv zeta. set (intent := serializeManagedSignerTransaction requestId executor
                   (request_transaction t gas nonce fees)).
  unfold lift_signer. apply safe_lift. intros intentHash Hh.
  destruct (buildManagedSignerIntentHash getAddress keccak_text intent) as [h0|x] eqn:Eh; [|done].
  injection Hh as ->.
  set (ni := {| ni_chainId := gc_chainId cfg; ni_signerAddress := executor |}).
  apply safe_call_bind; [done|]. intros v.
  apply safe_call_bind; [by exists ni|]. intros [].
  set (q := {| ms_custodyMode := gc_custodyMode cfg; ms_operation := operation |}).
  apply safe_call_bind.
  { exists v, ni. split; [done|]. unfold asks. cbn [ms_transaction q].
    split_and!; try done. unfold within_limits. cbn. rewrite Tv. split_and!; try done.
    exists gas, fee. split_and!; try done. destruct F3 as [->|[-> ->]]; [by left|by right]. }
  intros response.
  apply (safe_validate ni v q); [done| |done]. intros bytes h Hs.
  unfold keccak256_hex. pose proof (proj1 Hs) as Hk. rewrite Hk. apply safe_lift. intros h' [= <-].
  apply safe_call_bind; [by exists ni, q, bytes|]. intros [].
  by apply (safe_broadcastPersisted ni q h).
Qed.

Lemma safe_execution operation pc context transaction_of :
  (forall a, targets operation (transaction_of a)) ->
  safe P Idle
    (execute getAddress keccak_text keccak_hex transaction_from cfg operation pc context transaction_of).
Proof using getAddress_checksummed.
  intros Ht. unfold execute. apply safe_free_bind; [apply frees_balance|]. intros signer. cbv zeta.
  apply safe_simulate. intros gas Hg. apply safe_spend_cap. intros fees Hf. apply safe_io.
  eapply wp_weaken; [|by apply safe_broadcastManaged]. intros m [tx|x] _; [|done].
  apply safe_frees. unfold waitForConfirmedReceipt, persistGaslessTerminalOutcome.
  gasless_steps; first [apply frees_transition|apply frees_balance].
Qed.

Lemma safe_exclusive {A} (m : mode P) (p : io gasless A) : safe P m p -> safe P m (runExclusive p).
Proof.
  intros H. unfold runExclusive. apply safe_call_bind; [done|]. intros []. unfold finally.
  apply safe_then; [by apply safe_call_bind|]. intros r. split; [done|]. by intros [].
Qed.

Lemma create_trade_targets i a :
  targets "create_trade" (buildManagedCreateTradeTransaction encodeFunctionData cfg i a).
Proof. split_and!; [done|done|by left]. Qed.

Lemma wallet_targets i a :
  targets "wallet_usdc_transfer" (buildManagedWalletTransferTransaction encodeFunctionData cfg i a).
Proof. split_and!; [done|done|by right]. Qed.

Lemma frees_simulate t : frees (simulateTransaction cfg t).
Proof. unfold simulateTransaction. gasless_steps. Qed.

Lemma frees_simulateCreate i : frees (simulateCreateTrade getAddress encodeFunctionData cfg i).
Proof. unfold simulateCreateTrade. apply every_io; [apply frees_balance|]. intros. apply frees_simulate. Qed.

Lemma frees_simulateWallet i : frees (simulateWalletUsdcTransfer getAddress encodeFunctionData cfg i).
Proof.
  unfold simulateWalletUsdcTransfer. apply every_io; [apply frees_balance|]. intros. apply frees_simulate.
Qed.

Lemma safe_create_trade accepts matches balances i :
  safe P Idle (create_trade getAddress keccak_text keccak_hex transaction_from encodeFunctionData cfg
                 accepts matches balances i).
Proof using getAddress_checksummed.
  unfold create_trade, executeCreateTradeWorkflow. apply safe_lift. intros _ _.
  apply safe_call_bind; [done|]. intros [h|]; [|done]. cbn [next].
  apply safe_lift. intros _ _. apply safe_free_bind; [apply frees_record_event|]. intros accepted.
  cbv zeta. apply safe_then; [|intros [a|e]; [done|apply frees_failure]].
  unfold create_trade_body. cbv zeta.
  apply safe_free_bind; [apply frees_record_event|]. intros queued.
  apply safe_free_bind; [apply frees_simulateCreate|]. intros gas.
  apply safe_free_bind; [apply frees_record_event|]. intros simulation.
  apply safe_io. eapply wp_weaken; [|apply safe_exclusive, safe_execution, create_trade_targets].
  intros m [execution|x] _; [|done]. apply safe_frees. unfold projectPersistedGaslessTransaction.
  gasless_steps; apply frees_record_event.
Qed.

Lemma safe_wallet_transfer accepts i :
  safe P Idle (wallet_transfer getAddress keccak_text keccak_hex transaction_from encodeFunctionData cfg
                 accepts i).
Proof using getAddress_checksummed.
  unfold wallet_transfer, executeWalletUsdcTransferWorkflow. apply safe_lift. intros _ _.
  apply safe_free_bind; [apply frees_simulateWallet|]. intros gas.
  apply safe_exclusive, safe_execution, wallet_targets.
Qed.

Lemma entry_safe accepts matches accepts' balances rail p :
  entry getAddress keccak_text keccak_hex transaction_from encodeFunctionData cfg accepts matches accepts'
    balances rail p -> safe P Idle p.
Proof using getAddress_checksummed.
  intros [i|i|limit|i]; apply wp_run.
  - apply safe_create_trade.
  - apply safe_wallet_transfer.
  - apply safe_frees, frees_recovery.
  - apply safe_frees. by split.
Qed.
End Programs.

(** ** The invariant *)

Section Invariant.
Context (getAddress : string -> option string).
Context (keccak_text : string -> string) (keccak_hex : string -> option string).
Context (transaction_from : string -> option Transaction).
Context (cfg : gasless_config).

Notation P := (signing_protocol getAddress keccak_text keccak_hex transaction_from cfg).
Notation signs_ := (signs getAddress keccak_hex transaction_from).
Notation asks_ := (asks getAddress keccak_text cfg).

(** A transaction slot: chain, signer and nonce. *)
Definition slot : Type := Z * option string * Z.

Definition signing_slot (q : ManagedSignerRequest) : slot :=
  let t := ms_transaction q in
  (mi_chainId t, toLowerCase <$> getAddress (mi_signerAddress t), mi_nonce t).

Definition input_slot (u : GaslessNonceReservationInput) : slot :=
  (ni_chainId u, toLowerCase <$> getAddress (ni_signerAddress u), ni_transactionNonce u).

Definition row_slot (r : ReservationRow) : slot :=
  (ni_chainId (rv_input r), Some (ni_signerAddress (rv_input r)), ni_transactionNonce (rv_input r)).

Lemma canonical_slot u r : canonicalInput getAddress u = Ok (rv_input r) -> row_slot r = input_slot u.
Proof.
  unfold canonicalInput, row_slot, input_slot. intros H.
  apply throw_if_bind in H as [_ H]. apply throw_if_bind in H as [_ H].
  destruct (getAddress (ni_signerAddress u)) as [a|]; [|done]. injection H as <-. done.
Qed.

Lemma asks_slot u q : asks_ u q -> signing_slot q = input_slot u.
Proof. intros (_ & _ & _ & _ & E1 & E2 & E3 & _). unfold signing_slot, input_slot. by rewrite E1, E2, E3. Qed.

Definition sign_ticket (m : gmode) : option slot :=
  match m with Signing _ u => Some (input_slot u) | _ => None end.

Definition send_ticket (m : gmode) : option (option string) :=
  match m with Prepared _ _ id => Some (Some (gi_transactionHash id)) | _ => None end.

Definition slots (w : world) (ms : list gmode) : list slot :=
  omap sign_ticket ms ++ map signing_slot (w_signed w).

Definition hashes (w : world) (ms : list gmode) : list (option string) :=
  omap send_ticket ms ++ map keccak_hex (w_broadcast w).

(** The reservation a process holds. *)
Definition holds (w : world) (v : GaslessNonceReservation) (u : GaslessNonceReservationInput)
    (started : bool) : Prop :=
  exists r, r ∈ reservations (w_db w) /\ rv_reservationId r = nr_reservationId v /\
    canonicalInput getAddress u = Ok (rv_input r) /\
    (started = true -> rv_status r <> r_reserved).

(** The reservation records this hash as the one signature of the request. *)
Definition signed_for (w : world) (u : GaslessNonceReservationInput) (q : ManagedSignerRequest)
    (h : string) : Prop :=
  asks_ u q /\ q ∈ w_signed w /\
  exists r, r ∈ reservations (w_db w) /\ canonicalInput getAddress u = Ok (rv_input r) /\
    rv_status r = r_signed /\ rv_signedHash r = Some (toLowerCase h).

(** The outcome row of a request's transaction. *)
Definition prepared_for (w : world) (u : GaslessNonceReservationInput)
    (id : GaslessTransactionIdentity) : Prop :=
  request_key id = (ni_applicationRequestId u, ni_operation u, ni_resourceType u, ni_resourceId u) /\
  exists o, o ∈ outcomes (w_db w) /\ o_identity o = id.

Definition mode_ok (w : world) (m : gmode) : Prop :=
  match m with
  | Idle | Sent => True
  | Reserved v u => holds w v u false
  | Signing v u => holds w v u true
  | Asked v u q => holds w v u true /\ asks_ u q /\ q ∈ w_signed w
  | Recorded u q h => signed_for w u q h
  | Prepared u q id => signed_for w u q (gi_transactionHash id) /\ prepared_for w u id
  end.

Definition broadcast_ok (w : world) (s : string) : Prop :=
  exists u q id, signed_for w u q (gi_transactionHash id) /\ prepared_for w u id /\
    signs_ q (gi_transactionHash id) s.

(** A signing request is for the intent of a reservation that is no longer open. *)
Definition asked_ok (w : world) (q : ManagedSignerRequest) : Prop :=
  exists u v, asks_ u q /\ holds w v u true.

Record inv (w : world) (ms : list gmode) : Prop := {
  inv_keys : keys_ok (w_db w);
  inv_modes : Forall (mode_ok w) ms;
  inv_slots : NoDup (slots w ms);
  inv_open : forall k, k ∈ slots w ms ->
    exists r, r ∈ reservations (w_db w) /\ row_slot r = k /\ rv_status r <> r_reserved;
  inv_hashes : NoDup (hashes w ms);
  inv_prepared : forall h, h ∈ hashes w ms -> exists o, o ∈ outcomes (w_db w) /\ Some (o_hash o) = h;
  inv_sent : Forall (broadcast_ok w) (w_broadcast w);
  inv_asked : Forall (asked_ok w) (w_signed w) }.

(** *** Worlds only grow *)

Definition world_le (w w' : world) : Prop :=
  db_le (w_db w) (w_db w') /\ (forall q, q ∈ w_signed w -> q ∈ w_signed w').

Lemma holds_le w w' v u b : world_le w w' -> holds w v u b -> holds w' v u b.
Proof.
  intros [[L _] _] (r & Hr & E1 & E2 & E3). destruct (L r Hr) as (r' & Hr' & F1 & F2 & F3 & _).
  exists r'. split_and!; [done|congruence|congruence|auto].
Qed.

Lemma signed_for_le w w' u q h : world_le w w' -> signed_for w u q h -> signed_for w' u q h.
Proof.
  intros [[L _] Ls] (Ha & Hq & r & Hr & E1 & E2 & E3). split_and!; [done|auto|].
  destruct (L r Hr) as (r' & Hr' & F1 & F2 & F3 & F4). destruct (F4 E2) as [G1 G2].
  exists r'. split_and!; congruence.
Qed.

Lemma prepared_for_le w w' u id : world_le w w' -> prepared_for w u id -> prepared_for w' u id.
Proof.
  intros [[_ L] _] (Hk & o & Ho & E). split; [done|]. destruct (L o Ho) as (o' & Ho' & E').
  exists o'. split; [done|congruence].
Qed.

Lemma mode_ok_le w w' m : world_le w w' -> mode_ok w m -> mode_ok w' m.
Proof.
  intros L. destruct m; cbn; try done; try by apply holds_le.
  - intros (H1 & H2 & H3). split_and!; [by eapply holds_le|done|by apply (proj2 L)].
  - by apply signed_for_le.
  - intros [H1 H2]. split; [by eapply signed_for_le|by eapply prepared_for_le].
Qed.

Lemma broadcast_ok_le w w' s : world_le w w' -> broadcast_ok w s -> broadcast_ok w' s.
Proof.
  intros L (u & q & id & H1 & H2 & H3). exists u, q, id.
  split_and!; [by eapply signed_for_le|by eapply prepared_for_le|done].
Qed.

Lemma asked_ok_le w w' q : world_le w w' -> asked_ok w q -> asked_ok w' q.
Proof. intros L (u & v & H1 & H2). exists u, v. split; [done|by eapply holds_le]. Qed.

Lemma open_le w w' k : world_le w w' ->
  (exists r, r ∈ reservations (w_db w) /\ row_slot r = k /\ rv_status r <> r_reserved) ->
  exists r, r ∈ reservations (w_db w') /\ row_slot r = k /\ rv_status r <> r_reserved.
Proof.
  intros [[L _] _] (r & Hr & E & Hs). destruct (L r Hr) as (r' & Hr' & F1 & F2 & F3 & _).
  exists r'. split_and!; [done| |auto]. unfold row_slot in *. by rewrite F2.
Qed.

Lemma prepared_le w w' (h : option string) : world_le w w' ->
  (exists o, o ∈ outcomes (w_db w) /\ Some (o_hash o) = h) ->
  exists o, o ∈ outcomes (w_db w') /\ Some (o_hash o) = h.
Proof.
  intros [[_ L] _] (o & Ho & E). destruct (L o Ho) as (o' & Ho' & E'). exists o'.
  split; [done|]. unfold o_hash in *. by rewrite E'.
Qed.

(** A step that only moves the database forward keeps the invariant. *)
Lemma inv_forward w w' ms :
  world_le w w' -> keys_ok (w_db w') -> w_signed w' = w_signed w -> w_broadcast w' = w_broadcast w ->
  inv w ms -> inv w' ms.
Proof.
  intros L K Es Eb [I1 I2 I3 I4 I5 I6 I7 I8].
  assert (slots w' ms = slots w ms) as E1 by (unfold slots; by rewrite Es).
  assert (hashes w' ms = hashes w ms) as E2 by (unfold hashes; by rewrite Eb).
  split; rewrite ?E1, ?E2; try done.
  - eapply Forall_impl; [exact I2|]. intros m. by apply mode_ok_le.
  - intros k Hk. by eapply open_le; [|apply I4].
  - intros h Hh. by eapply prepared_le; [|apply I6].
  - rewrite Eb. eapply Forall_impl; [exact I7|]. intros s. by apply broadcast_ok_le.
  - rewrite Es. eapply Forall_impl; [exact I8|]. intros q. by apply asked_ok_le.
Qed.

Lemma inv_perm w ms ms' : ms ≡ₚ ms' -> inv w ms -> inv w ms'.
Proof.
  intros H [I1 I2 I3 I4 I5 I6 I7 I8].
  assert (slots w ms ≡ₚ slots w ms') as E1 by (unfold slots; by rewrite H).
  assert (hashes w ms ≡ₚ hashes w ms') as E2 by (unfold hashes; by rewrite H).
  split; rewrite <- ?H, <- ?E1, <- ?E2; try done.
  - intros k. rewrite <- E1. apply I4.
  - intros h. rewrite <- E2. apply I6.
Qed.

(** A process may always move to a mode without tickets that its world supports. *)
Lemma inv_replace w m m' ms :
  mode_ok w m' -> sign_ticket m' = None -> send_ticket m' = None -> inv w (m :: ms) -> inv w (m' :: ms).
Proof.
  intros Hm Hs Hb [I1 I2 I3 I4 I5 I6 I7 I8].
  assert (H1 : slots w (m' :: ms) `sublist_of` slots w (m :: ms)).
  { unfold slots. cbn. rewrite Hs. destruct (sign_ticket m); cbn; [by apply sublist_cons|done]. }
  assert (H2 : hashes w (m' :: ms) `sublist_of` hashes w (m :: ms)).
  { unfold hashes. cbn. rewrite Hb. destruct (send_ticket m); cbn; [by apply sublist_cons|done]. }
  split; try done.
  - constructor; [done|]. by inversion I2.
  - by eapply sublist_NoDup.
  - intros k Hk. apply I4. by eapply elem_of_sublist.
  - by eapply sublist_NoDup.
  - intros h Hh. apply I6. by eapply elem_of_sublist.
Qed.

(** *** One effect of one process *)

Lemma row_slot_key r r' : row_slot r = row_slot r' -> row_key r = row_key r'.
Proof. unfold row_slot, row_key, nonce_key. intros [= -> -> ->]. done. Qed.

Lemma world_le_db d w : db_le (w_db w) d -> world_le w (with_db d w).
Proof. by split. Qed.

Lemma inv_with_db d w ms : keys_ok d -> db_le (w_db w) d -> inv w ms -> inv (with_db d w) ms.
Proof. intros K L. apply inv_forward; [by apply world_le_db|done..]. Qed.

Lemma inv_reserve policy u id token now v d w ms :
  reserve getAddress policy u id token now (w_db w) = Ok (v, d) ->
  inv w (Idle :: ms) -> inv (with_db d w) (Reserved v u :: ms).
Proof.
  intros H I. destruct (reserve_spec _ _ _ _ _ _ _ _ _ H (inv_keys _ _ I))
    as (K & L & i & r & Hi & Hr & Eid & Ein & _).
  apply (inv_replace _ Idle); [|done..|by apply inv_with_db].
  exists r. rewrite Ein. by split_and!.
Qed.

Lemma inv_begin v u now d x w ms :
  beginSigning v now (w_db w) = Ok (x, d) ->
  inv w (Reserved v u :: ms) -> inv (with_db d w) (Signing v u :: ms).
Proof.
  intros H I. destruct (beginSigning_spec _ _ _ _ _ H (inv_keys _ _ I))
    as (K & L & r & r' & Hr & Er & Sr & Hr' & Er' & Sr').
  assert (I' := inv_with_db _ _ _ K L I).
  destruct (Forall_inv (inv_modes _ _ I)) as (r0 & Hr0 & E0 & C0 & _).
  assert (r0 = r) as -> by (eapply NoDup_map_eq; [apply I|..]; eauto; congruence).
  assert (Hin : rv_input r' = rv_input r).
  { destruct (proj1 L r Hr) as (b & Hb & B1 & B2 & _).
    assert (b = r') as -> by (eapply NoDup_map_eq; [apply K|..]; eauto; congruence). done. }
  pose proof (canonical_slot _ _ C0) as Es.
  assert (Hnew : input_slot u ∉ slots w (Reserved v u :: ms)).
  { intros Hk. destruct (inv_open _ _ I _ Hk) as (r1 & Hr1 & E1 & S1).
    assert (r1 = r) as -> by (apply (NoDup_map_eq row_key (reservations (w_db w)));
      [apply I|done|done|apply row_slot_key; congruence]).
    done. }
  destruct I' as [J1 J2 J3 J4 J5 J6 J7 J8]. split; try done.
  - constructor; [|by inversion J2]. exists r'. split_and!; [done|done|by rewrite Hin|]. by rewrite Sr'.
  - change (NoDup (input_slot u :: slots (with_db d w) (Reserved v u :: ms))). by constructor.
  - intros k Hk. change (k ∈ input_slot u :: slots (with_db d w) (Reserved v u :: ms)) in Hk.
    apply elem_of_cons in Hk as [->|Hk]; [|auto]. exists r'. split_and!; [done| |by rewrite Sr'].
    unfold row_slot in *. by rewrite Hin.
Qed.

Lemma inv_sign v u q w ms :
  asks_ u q -> inv w (Signing v u :: ms) -> inv (sent (SignTransaction q) w) (Asked v u q :: ms).
Proof.
  intros Ha [I1 I2 I3 I4 I5 I6 I7 I8].
  assert (L : world_le w (sent (SignTransaction q) w)) by (split; [done|intros x Hx; by right]).
  assert (E : slots (sent (SignTransaction q) w) (Asked v u q :: ms) ≡ₚ slots w (Signing v u :: ms)).
  { unfold slots. cbn. rewrite (asks_slot _ _ Ha). by rewrite <- Permutation_middle. }
  apply Forall_cons in I2 as [Hm I2]. split; try done.
  - constructor.
    + split_and!; [exact Hm|done|by left].
    + eapply Forall_impl; [exact I2|]. intros m. by apply mode_ok_le.
  - by rewrite E.
  - intros k. rewrite E. apply I4.
  - eapply Forall_impl; [exact I7|]. intros x. by apply broadcast_ok_le.
  - cbn. constructor; [by exists u, v|]. eapply Forall_impl; [exact I8|]. intros x.
    by apply asked_ok_le.
Qed.

Lemma inv_recordSigned v u q h d x w ms :
  recordSigned v h (w_db w) = Ok (x, d) ->
  inv w (Asked v u q :: ms) -> inv (with_db d w) (Recorded u q h :: ms).
Proof.
  intros H I. destruct (recordSigned_spec _ _ _ _ _ H (inv_keys _ _ I))
    as (K & L & r' & Hr' & Er' & Sr' & Hh & _).
  destruct (Forall_inv (inv_modes _ _ I)) as ((r0 & Hr0 & E0 & C0 & _) & Ha & Hq).
  apply (inv_replace _ (Asked v u q)); [|done..|by apply inv_with_db].
  split_and!; [done|done|]. exists r'. split_and!; try done.
  destruct (proj1 L r0 Hr0) as (b & Hb & B1 & B2 & _).
  assert (b = r') as -> by (eapply NoDup_map_eq; [apply K|..]; eauto; congruence). by rewrite B2.
Qed.

Lemma inv_prepare u q id now d x w ms :
  recordPrepared id now (w_db w) = Ok (x, d) ->
  request_key id = (ni_applicationRequestId u, ni_operation u, ni_resourceType u, ni_resourceId u) ->
  inv w (Recorded u q (gi_transactionHash id) :: ms) -> inv (with_db d w) (Prepared u q id :: ms).
Proof.
  intros H Hk I. destruct (recordPrepared_spec _ _ _ _ _ H (inv_keys _ _ I)) as (K & L & Hrow & Hnew).
  assert (I' := inv_with_db _ _ _ K L I).
  assert (Hfresh : Some (gi_transactionHash id) ∉ hashes w (Recorded u q (gi_transactionHash id) :: ms)).
  { intros Hin. destruct (inv_prepared _ _ I _ Hin) as (o & Ho & [= E]). by apply (Hnew o). }
  destruct I' as [J1 J2 J3 J4 J5 J6 J7 J8]. split; try done.
  - apply Forall_cons in J2 as [Hm J2]. constructor; [|done]. split; [exact Hm|]. split; [done|].
    by exists (prepared_row id now).
  - change (NoDup (Some (gi_transactionHash id) ::
      hashes (with_db d w) (Recorded u q (gi_transactionHash id) :: ms))). by constructor.
  - intros h Hh. change (h ∈ Some (gi_transactionHash id) ::
      hashes (with_db d w) (Recorded u q (gi_transactionHash id) :: ms)) in Hh.
    apply elem_of_cons in Hh as [->|Hh]; [|auto]. by exists (prepared_row id now).
Qed.

Lemma inv_broadcast u q id s w ms :
  signs_ q (gi_transactionHash id) s ->
  inv w (Prepared u q id :: ms) -> inv (sent (BroadcastTransaction s) w) (Sent :: ms).
Proof.
  intros Hs [I1 I2 I3 I4 I5 I6 I7 I8].
  assert (L : world_le w (sent (BroadcastTransaction s) w)) by done.
  assert (E : hashes (sent (BroadcastTransaction s) w) (Sent :: ms) ≡ₚ hashes w (Prepared u q id :: ms)).
  { unfold hashes. cbn. rewrite (proj1 Hs). by rewrite <- Permutation_middle. }
  apply Forall_cons in I2 as [[Hm1 Hm2] I2]. split; try done.
  - constructor; [done|]. eapply Forall_impl; [exact I2|]. intros m. by apply mode_ok_le.
  - by rewrite E.
  - intros h. rewrite E. apply I6.
  - cbn. constructor; [by exists u, q, id|]. eapply Forall_impl; [exact I7|]. intros x.
    by apply broadcast_ok_le.
Qed.

(** Statements that only the recorder and the reconciler make. *)
Lemma free_statement getAddress' policy now u1 u2 e f a d w :
  statement getAddress' policy now u1 u2 e = Some f -> free e = true -> f (w_db w) = Ok (a, d) ->
  keys_ok (w_db w) -> keys_ok d /\ db_le (w_db w) d.
Proof.
  destruct e; cbn; intros Hf He H K; try done; simplify_eq.
  - by eapply transition_spec.
  - by simplify_eq/=.
  - by simplify_eq/=.
  - by eapply markOrphaned_spec.
  - by eapply markAttempted_spec.
  - by eapply markProjected_spec.
Qed.

Lemma statement_forward getAddress' policy now u1 u2 e f a d w :
  statement getAddress' policy now u1 u2 e = Some f -> f (w_db w) = Ok (a, d) ->
  keys_ok (w_db w) -> keys_ok d /\ db_le (w_db w) d.
Proof.
  destruct (free e) eqn:He; [intros Hf H; by eapply free_statement|].
  destruct e; try done; cbn; intros Hf H K; simplify_eq.
  - destruct (reserve_spec _ _ _ _ _ _ _ _ _ H K) as (? & ? & _). done.
  - destruct (beginSigning_spec _ _ _ _ _ H K) as (? & ? & _). done.
  - destruct (recordSigned_spec _ _ _ _ _ H K) as (? & ? & _). done.
  - destruct (recordPrepared_spec _ _ _ _ _ H K) as (? & ? & _). done.
Qed.

Lemma next_free m e r : free e = true -> gnext m e r = m.
Proof. by destruct e. Qed.

Lemma next_failed m e x : external e = false -> gnext m e (Err x) = m.
Proof. by destruct e. Qed.

Lemma statement_internal getAddress' policy now u1 u2 e f :
  statement getAddress' policy now u1 u2 e = Some f -> external e = false.
Proof. by destruct e. Qed.

Lemma inv_do_head sha callbacks policy w m ms e r w' :
  perform getAddress sha callbacks policy w e r w' ->
  gallowed getAddress keccak_text keccak_hex transaction_from cfg m e ->
  inv w (m :: ms) -> inv w' (gnext m e r :: ms).
Proof.
  intros H Ha I. destruct H as [w e f now u1 u2 a d Hf He|w e f now u1 u2 x Hf He
    |w e f now u1 u2 a d x Hf He|w e x He|w id|w i dr s r He|w i dr x He|w i dr s r x He|w e r He].
  - destruct (free e) eqn:Hfree.
    { rewrite next_free by done. destruct (free_statement _ _ _ _ _ _ _ _ _ _ Hf Hfree He (inv_keys _ _ I)).
      by apply inv_with_db. }
    destruct e; try done; cbn in Hf, Ha, f; simplify_eq.
    + by eapply inv_reserve.
    + destruct Ha as (u & ->). by eapply inv_begin.
    + destruct Ha as (u & q & bytes & -> & _). by eapply inv_recordSigned.
    + destruct Ha as (u & q & -> & Hk). by eapply inv_prepare.
  - by rewrite next_failed by (by eapply statement_internal).
  - rewrite next_failed by (by eapply statement_internal).
    destruct (statement_forward _ _ _ _ _ _ _ _ _ _ Hf He (inv_keys _ _ I)). by apply inv_with_db.
  - by rewrite next_failed.
  - done.
  - apply (inv_forward w); [done|apply I|done|done|exact I].
  - done.
  - apply (inv_forward w); [done|apply I|done|done|exact I].
  - destruct (free e) eqn:Hfree.
    { rewrite next_free by done. assert (sent e w = w) as ->; [|done]. destruct w. by destruct e. }
    destruct e; try done; cbn in Ha.
    + destruct Ha as (v & u & -> & Ha). by apply inv_sign.
    + destruct Ha as (u & q & id & -> & Hs). by eapply inv_broadcast.
Qed.

Lemma inv_do sha callbacks policy w l1 m l2 e r w' :
  perform getAddress sha callbacks policy w e r w' ->
  gallowed getAddress keccak_text keccak_hex transaction_from cfg m e ->
  inv w (l1 ++ m :: l2)%list -> inv w' (l1 ++ gnext m e r :: l2)%list.
Proof.
  intros H Ha I. apply (inv_perm _ (gnext m e r :: l1 ++ l2)%list); [by rewrite Permutation_middle|].
  eapply inv_do_head; [done|done|]. eapply inv_perm; [|exact I]. by rewrite Permutation_middle.
Qed.

Lemma inv_start_process w ms : inv w ms -> inv w (Idle :: ms).
Proof. intros [I1 I2 I3 I4 I5 I6 I7 I8]. split; try done. by constructor. Qed.

Lemma inv_death w l1 m l2 : inv w (l1 ++ m :: l2)%list -> inv w (l1 ++ l2)%list.
Proof.
  intros I. assert (J : inv w (Idle :: l1 ++ l2)%list).
  { apply (inv_replace _ m); [done..|]. eapply inv_perm; [|exact I]. by rewrite Permutation_middle. }
  destruct J as [I1 I2 I3 I4 I5 I6 I7 I8]. split; try done. by inversion I2.
Qed.

End Invariant.

(** ** The theorems *)

Section Theorems.
Context (getAddress : string -> option string).
Context (keccak_text : string -> string) (keccak_hex : string -> option string).
Context (transaction_from : string -> option Transaction).
Context (encodeFunctionData : string -> list jvalue -> string).
Context (sha256_hex : string -> string) (callbacks : callback_config).
Context (cfg : gasless_config) (policy : lease_policy).
Context (admit_create_trade : GaslessCreateTradeExecutionInput -> result thrown unit)
  (assertHandoffMatchesExecution :
     SettlementHandoffRecord -> GaslessCreateTradeExecutionInput -> result thrown unit)
  (admit_transfer : GaslessWalletUsdcTransferExecutionInput -> result thrown unit)
  (balance_settings : list (string * json)) (rail_known : OutcomeRow -> bool).
Context (getAddress_checksummed : forall s a, getAddress s = Some a -> getAddress a = Some a).

Notation reachable_ := (gasless_reachable getAddress keccak_text keccak_hex transaction_from
  encodeFunctionData sha256_hex callbacks cfg policy admit_create_trade assertHandoffMatchesExecution
  admit_transfer balance_settings rail_known).
Notation inv_ := (inv getAddress keccak_text keccak_hex transaction_from cfg).

Lemma gasless_inv s w : reachable_ s w -> exists ms, inv_ w ms.
Proof using getAddress_checksummed.
  intros Hr. eapply (reachable_invariant (S := gasless) _ _
    (signing_protocol getAddress keccak_text keccak_hex transaction_from cfg) Idle inv_); [..|exact Hr].
  - intros w' ms. apply inv_start_process.
  - intros w' l1 m l2. apply inv_death.
  - intros w' l1 m l2 e r w'' I Ha Hp. by eapply inv_do.
  - intros p Hp. by eapply entry_safe.
  - split; cbn; try done; try constructor; try apply NoDup_nil_2; try (intros ? []%elem_of_nil).
    all: first [apply NoDup_nil_2|constructor].
Qed.

(** *** What a broadcast is backed by *)

(** The slot a signed transaction takes. *)
Definition transaction_slot (t : Transaction) : slot :=
  (tx_chainId t, toLowerCase <$> (tx_from t ≫= getAddress), tx_nonce t).

(** The broadcast bytes are the transaction [t] of the outcome row [o]. *)
Definition sent_as (w : world) (bytes : string) (t : Transaction) (o : OutcomeRow) : Prop :=
  transaction_from bytes = Some t /\ tx_hash t = Some (o_hash o) /\ o ∈ outcomes (w_db w).

Lemma intended_slot t q :
  is_intended getAddress t (ms_transaction q) -> transaction_slot t = signing_slot getAddress q.
Proof.
  intros (_ & (from & a & E1 & E2 & E3) & _ & Ec & En & _).
  unfold transaction_slot, signing_slot. by rewrite Ec, En, E1, E3; cbn; rewrite E2.
Qed.

(** Everything known of one broadcast. *)
Lemma broadcast_facts w ms bytes t o :
  inv_ w ms -> bytes ∈ w_broadcast w -> sent_as w bytes t o ->
  keccak_hex bytes = Some (o_hash o) /\
  exists q u r, q ∈ w_signed w /\ asks getAddress keccak_text cfg u q /\
    is_intended getAddress t (ms_transaction q) /\
    r ∈ reservations (w_db w) /\ row_slot r = transaction_slot t /\
    rv_status r = r_signed /\ rv_signedHash r = Some (toLowerCase (o_hash o)) /\
    request_key (o_identity o) =
      (ni_applicationRequestId u, ni_operation u, ni_resourceType u, ni_resourceId u).
Proof.
  intros I Hb (Et & Eh & Ho).
  destruct (proj1 (Forall_forall _ _) (inv_sent _ _ _ _ _ _ _ I) _ Hb)
    as (u & q & id & (Ha & Hq & r & Hr & Ci & Sr & Sh) & (Hk & o' & Ho' & <-) & Hk' & t' & Et' & Eh' & Hi).
  assert (t' = t) as -> by congruence.
  assert (o' = o) as -> by (apply (NoDup_map_eq o_hash (outcomes (w_db w))); [apply I|done|done|unfold o_hash in *; congruence]).
  split; [done|]. exists q, u, r. split_and!; try done.
  rewrite (canonical_slot _ _ _ Ci), (intended_slot _ _ Hi). symmetry. eapply asks_slot; eauto.
Qed.

Lemma broadcast_backed w ms bytes :
  inv_ w ms -> bytes ∈ w_broadcast w -> exists t o, sent_as w bytes t o.
Proof.
  intros I Hb. destruct (proj1 (Forall_forall _ _) (inv_sent _ _ _ _ _ _ _ I) _ Hb)
    as (u & q & id & _ & (_ & o & Ho & <-) & _ & t & Et & Eh & _).
  by exists t, o.
Qed.

(** C6. No signer is ever asked to sign twice for one slot (chain, signer and nonce), in
    any interleaving and whatever fails; what it is asked to sign is the exact intent
    the slot was reserved for. *)
Theorem one_signature_per_nonce s w :
  reachable_ s w ->
  NoDup (map (signing_slot getAddress) (w_signed w)) /\
  forall q, q ∈ w_signed w ->
    buildManagedSignerIntentHash getAddress keccak_text (ms_transaction q) = Ok (ms_intentHash q) /\
    exists r, r ∈ reservations (w_db w) /\ row_slot r = signing_slot getAddress q /\
      rv_status r <> r_reserved /\ ni_intentHash (rv_input r) = toLowerCase (ms_intentHash q).
Proof using getAddress_checksummed.
  intros Hr. destruct (gasless_inv _ _ Hr) as (ms & I). split.
  - pose proof (inv_slots _ _ _ _ _ _ _ I) as H. by apply NoDup_app in H as (_ & _ & H).
  - intros q Hq. destruct (proj1 (Forall_forall _ _) (inv_asked _ _ _ _ _ _ _ I) _ Hq)
      as (u & v & Ha & r & Hin & _ & Ci & Hs).
    pose proof Ha as (_ & _ & Eh & _ & _ & _ & _ & Hb & _). split; [done|]. exists r. split_and!; auto.
    + rewrite (canonical_slot _ _ _ Ci). symmetry. by eapply asks_slot.
    + rewrite Eh. unfold canonicalInput in Ci.
      apply throw_if_bind in Ci as [_ Ci]. apply throw_if_bind in Ci as [_ Ci].
      destruct (getAddress (ni_signerAddress u)) as [a|]; [|done]. injection Ci as <-. done.
Qed.

(** C5. Two broadcasts are one and the same broadcast as soon as they agree on the
    transaction hash, on the application request, or on chain, sender and nonce. *)
Theorem one_broadcast s w i j a b ta tb oa ob :
  reachable_ s w ->
  w_broadcast w !! i = Some a -> w_broadcast w !! j = Some b ->
  sent_as w a ta oa -> sent_as w b tb ob ->
  tx_hash ta = tx_hash tb \/ request_key (o_identity oa) = request_key (o_identity ob) \/
  transaction_slot ta = transaction_slot tb ->
  i = j.
Proof using getAddress_checksummed.
  intros Hr Ha Hb Sa Sb H. destruct (gasless_inv _ _ Hr) as (ms & I).
  pose proof (list_elem_of_lookup_2 _ _ _ Ha) as Ia. pose proof (list_elem_of_lookup_2 _ _ _ Hb) as Ib.
  destruct (broadcast_facts _ _ _ _ _ I Ia Sa) as (Ka & qa & ua & ra & _ & _ & _ & Ra & La & _ & Ga & _).
  destruct (broadcast_facts _ _ _ _ _ I Ib Sb) as (Kb & qb & ub & rb & _ & _ & _ & Rb & Lb & _ & Gb & _).
  destruct Sa as (_ & Ea & Oa), Sb as (_ & Eb & Ob).
  assert (Hh : keccak_hex a = keccak_hex b).
  { rewrite Ka, Kb. destruct H as [H|[H|H]]; [congruence| |].
    - do 2 f_equal. apply (NoDup_map_eq (fun r => request_key (o_identity r)) (outcomes (w_db w)));
        [apply I|done..].
    - assert (ra = rb) as <-.
      { apply (NoDup_map_eq row_key (reservations (w_db w))); [apply I|done..|].
        apply row_slot_key. congruence. }
      rewrite Ga in Gb. injection Gb as Gb. f_equal.
      pose proof (ok_lower _ (inv_keys _ _ _ _ _ _ _ I)) as Hl. rewrite Forall_forall in Hl.
      pose proof (Hl _ (list_elem_of_fmap_2 o_hash _ _ Oa)).
      pose proof (Hl _ (list_elem_of_fmap_2 o_hash _ _ Ob)). congruence. }
  pose proof (inv_hashes _ _ _ _ _ _ _ I) as Hn. apply NoDup_app in Hn as (_ & _ & Hn).
  eapply (NoDup_lookup _ i j (keccak_hex a) Hn); rewrite list_lookup_fmap, ?Ha, ?Hb; cbn; congruence.
Qed.

(** The limits on a request become limits on any transaction that is what it asks
    for. *)
Lemma limits_intended op q t h :
  buildManagedSignerIntentHash getAddress keccak_text q = Ok h ->
  within_limits cfg op q -> is_intended getAddress t q ->
  tx_chainId t = gc_chainId cfg /\ tx_value t = 0 /\
  (exists to a, tx_to t = Some to /\ getAddress to = Some a /\
     ((op = "create_trade" /\ getAddress (gc_escrowAddress cfg) = Some a)
      \/ (op = "wallet_usdc_transfer" /\ getAddress (gc_usdcAddress cfg) = Some a))) /\
  exists fee, tx_gasLimit t <= gc_maxGasLimit cfg /\ fee <= gc_maxFeePerGasWei cfg /\
    tx_gasLimit t * fee <= gc_maxNativeCostWei cfg /\
    (tx_maxFeePerGas t = Some fee \/ (tx_maxFeePerGas t = None /\ tx_gasPrice t = Some fee)).
Proof.
  unfold buildManagedSignerIntentHash. intros Hb (Lc & Lv & Lt & gas & fee & Lg & G1 & G2 & G3 & Lf).
  apply bind_ok in Hb as (e & He & _). apply canonicalIntent_digits in He as (_ & Dg & Df).
  intros (_ & _ & (to & a & Et & E1 & E2) & Ic & _ & Iv & _ & Ig & _ & _ & If).
  assert (Eg : tx_gasLimit t = gas) by (rewrite Ig, Lg; apply uint_print; congruence).
  split_and!; [congruence|by rewrite Iv, Lv| |].
  - exists to, a. split_and!; try done.
    destruct Lt as [[-> E]|[-> E]]; [left|right]; (split; [done|congruence]).
  - exists fee. rewrite Eg. split_and!; try done. destruct Lf as [[Ty Lf]|[Ty Lf]]; rewrite Ty, Lf in *; cbn in *.
    + left. destruct If as (-> & _ & _). f_equal. by apply uint_print.
    + right. destruct If as (-> & -> & _). split; [done|]. f_equal. by apply uint_print.
Qed.

(** C10. Every transaction handed to the network spends no native value, goes to the
    escrow or to USDC as its operation says, stays within the caps on gas, fee and
    total cost, is exactly what the signer was asked for, was recorded as the one
    signature of its nonce reservation, and has its durable outcome row. *)
Theorem broadcast_within_policy s w bytes :
  reachable_ s w -> bytes ∈ w_broadcast w ->
  exists t o q r,
    sent_as w bytes t o /\ q ∈ w_signed w /\ is_intended getAddress t (ms_transaction q) /\
    (r ∈ reservations (w_db w) /\ row_slot r = transaction_slot t /\ rv_status r = r_signed /\
     rv_signedHash r = Some (o_hash o)) /\
    tx_chainId t = gc_chainId cfg /\ tx_value t = 0 /\
    (exists to a, tx_to t = Some to /\ getAddress to = Some a /\
       ((ms_operation q = "create_trade" /\ getAddress (gc_escrowAddress cfg) = Some a)
        \/ (ms_operation q = "wallet_usdc_transfer" /\ getAddress (gc_usdcAddress cfg) = Some a))) /\
    exists fee, tx_gasLimit t <= gc_maxGasLimit cfg /\ fee <= gc_maxFeePerGasWei cfg /\
      tx_gasLimit t * fee <= gc_maxNativeCostWei cfg /\
      (tx_maxFeePerGas t = Some fee \/ (tx_maxFeePerGas t = None /\ tx_gasPrice t = Some fee)).
Proof using getAddress_checksummed.
  intros Hr Hb. destruct (gasless_inv _ _ Hr) as (ms & I).
  destruct (broadcast_backed _ _ _ I Hb) as (t & o & Hs).
  destruct (broadcast_facts _ _ _ _ _ I Hb Hs) as (_ & q & u & r & Hq & Ha & Hi & Rr & Er & Sr & Gr & _).
  destruct Ha as (_ & _ & _ & _ & _ & _ & _ & Hh & Hw).
  destruct (limits_intended _ _ _ _ Hh Hw Hi) as (L1 & L2 & L3 & L4).
  exists t, o, q, r. split_and!; try done.
  rewrite Gr. f_equal. pose proof (ok_lower _ (inv_keys _ _ _ _ _ _ _ I)) as Hl.
  rewrite Forall_forall in Hl. apply (Hl (o_hash o)), list_elem_of_fmap_2, Hs.
Qed.

End Theorems.
