(* ===== verification/GaslessFailure.v ===== *)
(** When a create-trade request is recorded as failed: the classification of
    gaslessExecutionFailure.ts against what the executor did before it threw. *)
From stdpp Require Import base list gmap strings.
From S2P Require Import Prelude JsText JsJson Programs SettlementTypes SettlementMachine SettlementStore SettlementService ManagedSigner GaslessDb GaslessExec GaslessWorkflow GaslessReconcile GaslessSystem.

Open Scope string_scope.
Open Scope Z_scope.

(** How far an execution has come. *)
Inductive phase := Fresh | Broadcasted | Finalized | BalanceRefused.

(** With whether the release of the lock has failed. *)
Record fmode := { f_phase : phase; f_unreleased : bool }.

Definition advance (from to : phase) (m : fmode) : fmode :=
  match f_phase m, from with
  | Fresh, Fresh | Broadcasted, Broadcasted | Finalized, Finalized =>
      {| f_phase := to; f_unreleased := f_unreleased m |}
  | _, _ => m
  end.

Section Failure.
Context (getAddress : string -> option string).
Context (keccak_text : string -> string) (keccak_hex : string -> option string).
Context (transaction_from : string -> option Transaction).
Context (encodeFunctionData : string -> list jvalue -> string).
Context (cfg : gasless_config).

Definition fallowed (m : fmode) (e : gasless_effect) : Prop :=
  match e with
  | RecordEvent x => xi_eventType x = e_failed ->
      f_phase m = Fresh \/ f_phase m = BalanceRefused \/ f_unreleased m = true
  | _ => True
  end.

Definition fnext (m : fmode) (e : gasless_effect) : result thrown (gasless_reply e) -> fmode :=
  match e return result thrown (gasless_reply e) -> fmode with
  | BroadcastTransaction _ => fun _ => advance Fresh Broadcasted m
  | VerifyReceipt _ _ receipt => fun r =>
      match r with
      | Ok (Some _) => if bool_decide (rc_status receipt = Some 1)
                       then advance Broadcasted Finalized m else m
      | _ => m
      end
  | GetSignerAddress => fun r =>
      match r with
      | Ok a => match getAddress a with None => advance Finalized BalanceRefused m | Some _ => m end
      | Err _ => advance Finalized BalanceRefused m
      end
  | GetBalance _ => fun r =>
      match r with
      | Ok b => if (b : Z) <? gc_minExecutorBalanceWei cfg
                then advance Finalized BalanceRefused m else m
      | Err _ => advance Finalized BalanceRefused m
      end
  | ReleaseLock => fun r =>
      match r with
      | Ok _ => m
      | Err _ => {| f_phase := f_phase m; f_unreleased := true |}
      end
  | _ => fun _ => m
  end.

Definition failure_protocol : protocol gasless := Build_protocol gasless fmode fallowed fnext.

Notation P := failure_protocol.

(** Errors that are recorded as a failure. *)
Definition plain (e : thrown) : Prop :=
  match e with OutcomePending _ _ _ | TransactionReverted _ _ => False | _ => True end.

(** Recording a failure is right in this mode. *)
Definition unsent (m : fmode) : Prop :=
  f_phase m = Fresh \/ f_phase m = BalanceRefused \/ f_unreleased m = true.

(** The outcome of a part of the execution: a plain error only where a failure may be
    recorded. *)
Definition honest {A} (m : fmode) (r : result thrown A) : Prop :=
  match r with Ok _ => True | Err e => plain e -> unsent m end.

(** Effects that leave the mode alone and are always allowed. *)
Definition quiet (e : gasless_effect) : bool :=
  match e with
  | BroadcastTransaction _ | VerifyReceipt _ _ _ | GetSignerAddress | GetBalance _ | ReleaseLock
  | RecordEvent _ => false
  | _ => true
  end.

Lemma quiet_next (m : fmode) e r : quiet e = true -> fnext m e r = m.
Proof. by destruct e. Qed.

Lemma quiet_allowed (m : fmode) e : quiet e = true -> fallowed m e.
Proof. by destruct e. Qed.

Lemma wp_quiet_then {B} (m : fmode) e (f : gasless_reply e -> io gasless B) Q :
  quiet e = true -> (forall a, wp P m (f a) Q) -> (forall x, Q m (Err x)) -> wp P m (call_ e ≫= f) Q.
Proof.
  intros He Hf Hx. split; [by apply quiet_allowed|]. intros r.
  change (next P m e r) with (fnext m e r). rewrite quiet_next by done.
  destruct r as [a|x]; [apply Hf|apply Hx].
Qed.

Lemma wp_quiet_call (m : fmode) e (Q : fmode -> result thrown (gasless_reply e) -> Prop) :
  quiet e = true -> (forall r, Q m r) -> wp P m (call_ e) Q.
Proof.
  intros He HQ. split; [by apply quiet_allowed|]. intros r.
  change (next P m e r) with (fnext m e r). rewrite quiet_next by done. apply HQ.
Qed.

Lemma wp_transition (m : fmode) h s x (Q : fmode -> result thrown unit -> Prop) :
  (forall r, Q m r) -> wp P m (transition h s x) Q.
Proof.
  intros HQ. unfold transition. apply wp_quiet_then; [done| |auto]. intros n.
  destruct ((n : nat) =? 1)%nat; [apply HQ|]. apply wp_quiet_then; [done| |auto]. intros [row|]; [|apply HQ].
  destruct (already_recorded s x row); apply HQ.
Qed.

(** Reading the signer and its balance. *)
Lemma wp_signer {B} (m : fmode) (f : string -> io gasless B) (Q : fmode -> result thrown B -> Prop) :
  (forall a, wp P m (f a) Q) -> (forall x, Q (advance Finalized BalanceRefused m) (Err x)) ->
  wp P m (getExecutorAddress getAddress ≫= f) Q.
Proof.
  intros Hf Hx. apply wp_then. unfold getExecutorAddress. split; [done|]. intros [a|x]; cbn.
  - destruct (getAddress a); [apply Hf|apply Hx].
  - apply Hx.
Qed.

Lemma wp_balance {B} (m : fmode) (f : string * Z -> io gasless B) (Q : fmode -> result thrown B -> Prop) :
  (forall a, wp P m (f a) Q) -> (forall x, Q (advance Finalized BalanceRefused m) (Err x)) ->
  wp P m (assertSignerBalance getAddress cfg ≫= f) Q.
Proof.
  intros Hf Hx. apply wp_then. unfold assertSignerBalance. apply wp_signer; [|done]. intros a.
  split; [done|]. intros [b|x]; cbn; [|apply Hx].
  destruct ((b : Z) <? gc_minExecutorBalanceWei cfg) eqn:E; [apply Hx|apply Hf].
Qed.

(** ** Before the broadcast *)

(** Effects that neither broadcast nor record an event. *)
Definition calm (e : gasless_effect) : bool :=
  match e with BroadcastTransaction _ | RecordEvent _ => false | _ => true end.

Notation calms := (every (S := gasless) (fun e => calm e = true)).

Lemma calm_fresh (m : fmode) e r :
  calm e = true -> f_phase m = Fresh -> f_phase (fnext m e r) = Fresh.
Proof.
  intros He Hm. assert (A : forall a b, a <> Fresh -> f_phase (advance a b m) = Fresh).
  { intros a b Ha. unfold advance. rewrite Hm. by destruct a. }
  destruct e; cbn in *; try done; repeat case_match; first [done|by apply A].
Qed.

Lemma wp_calm {A} (p : prog gasless A) (m : fmode) :
  calms p -> f_phase m = Fresh -> wp P m p (fun m' _ => f_phase m' = Fresh).
Proof.
  revert m. induction p as [a|e k IH]; intros m; [done|]. intros [He Hk] Hm. split.
  - by destruct e.
  - intros r. apply IH; [done|]. by apply calm_fresh.
Qed.

Lemma wp_calm_bind {A B} (p : io gasless A) (f : A -> io gasless B) (m : fmode)
    (Q : fmode -> result thrown B -> Prop) :
  calms p -> f_phase m = Fresh ->
  (forall a m', f_phase m' = Fresh -> wp P m' (f a) Q) ->
  (forall x m', f_phase m' = Fresh -> Q m' (Err x)) -> wp P m (p ≫= f) Q.
Proof.
  intros Hp Hm Hf Hx. apply wp_then. eapply wp_weaken; [|by apply wp_calm].
  intros m' [a|x] Hm'; auto.
Qed.

Lemma fresh_honest {A} (m : fmode) (r : result thrown A) : f_phase m = Fresh -> honest m r.
Proof. intros H. destruct r; [done|]. intros _. by left. Qed.

End Failure.

Notation calms := (every (S := gasless) (fun e => calm e = true)).

Section Calm.
Context (getAddress : string -> option string).
Context (keccak_text : string -> string) (keccak_hex : string -> option string).
Context (transaction_from : string -> option Transaction).
Context (cfg : gasless_config).

Lemma calms_signer : calms (getExecutorAddress getAddress).
Proof. unfold getExecutorAddress. gasless_steps. Qed.

Lemma calms_balance : calms (assertSignerBalance getAddress cfg).
Proof. unfold assertSignerBalance. gasless_steps. apply calms_signer. Qed.

Lemma calms_simulate t : calms (simulateTransaction cfg t).
Proof. unfold simulateTransaction. gasless_steps. Qed.

Lemma calms_spend g : calms (assertGasSpendCap cfg g).
Proof. unfold assertGasSpendCap. gasless_steps. Qed.

Lemma calms_identity s op h c :
  calms (requireSignedTransactionIdentity getAddress keccak_hex transaction_from s op h c).
Proof. unfold requireSignedTransactionIdentity, getAddress_, keccak256_hex. gasless_steps. Qed.

Lemma calms_validate r i :
  calms (validateManagedSignerForBroadcast getAddress keccak_text keccak_hex transaction_from r i).
Proof. unfold validateManagedSignerForBroadcast. gasless_steps. Qed.

End Calm.

Section Theorem_.
Context (getAddress : string -> option string).
Context (keccak_text : string -> string) (keccak_hex : string -> option string).
Context (transaction_from : string -> option Transaction).
Context (encodeFunctionData : string -> list jvalue -> string).
Context (cfg : gasless_config).

Notation P := (failure_protocol getAddress cfg).

(** ** The broadcast and the receipt *)

Lemma wp_logged_transition (m : fmode) h s x Q :
  Q m (Ok tt) -> wp P m (logged (transition h s x)) Q.
Proof.
  intros HQ. unfold logged. apply wp_catch. apply wp_transition. intros [[]|e]; apply HQ.
Qed.

Lemma pending_honest {A} (m : fmode) h o t : honest m (Err (A := A) (OutcomePending h o t)).
Proof. intros []. Qed.

Lemma reverted_honest {A} (m : fmode) h b : honest m (Err (A := A) (TransactionReverted h b)).
Proof. intros []. Qed.

Lemma wp_broadcast (m : fmode) s op h c :
  f_phase m = Fresh ->
  wp P m (broadcastPersistedGaslessTransaction getAddress keccak_hex transaction_from s op h c)
    (fun m' r => match r with Ok _ => f_phase m' = Broadcasted | Err _ => honest m' r end).
Proof.
  intros Hm. unfold broadcastPersistedGaslessTransaction.
  apply wp_calm_bind; [apply calms_identity|done| |intros x m' H; by apply fresh_honest].
  clear m Hm. intros id m Hm. cbv zeta.
  apply wp_quiet_then; [done| |intros x; by apply fresh_honest]. intros [].
  apply wp_then, wp_catch. split; [done|].
  change (next P m (BroadcastTransaction s)) with (fun _ : result thrown string => advance Fresh Broadcasted m).
  assert (Hb : f_phase (advance Fresh Broadcasted m) = Broadcasted) by (unfold advance; by rewrite Hm).
  cbv beta. revert Hb. generalize (advance Fresh Broadcasted m). clear m Hm. intros m Hb [response|x].
  - cbn [wp]. destruct (negb _).
    + apply wp_then, wp_logged_transition. apply pending_honest.
    + apply wp_then, wp_catch, wp_transition. intros [[]|x]; [done|apply pending_honest].
  - cbn [wp]. apply wp_then, wp_logged_transition. apply pending_honest.
Qed.

Lemma wp_terminal {B} (m : fmode) h b o (f : unit -> io gasless B) (Q : fmode -> result thrown B -> Prop) :
  wp P m (f tt) Q -> (forall h o t, Q m (Err (OutcomePending h o t))) ->
  wp P m (persistGaslessTerminalOutcome h b o ≫= f) Q.
Proof.
  intros Hf Hx. apply wp_then. unfold persistGaslessTerminalOutcome. apply wp_catch.
  destruct b; apply wp_transition; intros [[]|e]; first [done|apply Hx].
Qed.

Lemma wp_receipt (m : fmode) h :
  f_phase m = Broadcasted -> wp P m (waitForConfirmedReceipt getAddress cfg h) honest.
Proof.
  intros Hm. unfold waitForConfirmedReceipt.
  apply wp_then, wp_catch. apply wp_quiet_call; [done|]. intros [[receipt|]|x]; cbn beta iota;
    [|apply pending_honest..].
  apply wp_then, wp_catch. split; [done|].
  intros [[e|]|x]; cbn beta iota; [|apply pending_honest..].
  change (next P m (VerifyReceipt (gc_chainId cfg) h receipt) (Ok (Some e))) with
    (if bool_decide (rc_status receipt = Some 1) then advance Broadcasted Finalized m else m).
  cbn [wp]. destruct (bool_decide _); cbn [negb]; cbv zeta.
  - assert (Hr : unsent (advance Finalized BalanceRefused (advance Broadcasted Finalized m))).
    { right. left. unfold advance. by rewrite Hm. }
    assert (Hf : f_phase (advance Broadcasted Finalized m) = Finalized) by (unfold advance; by rewrite Hm).
    revert Hr Hf. generalize (advance Broadcasted Finalized m). clear m Hm. intros m Hr Hf.
    apply wp_balance; [|intros x _; exact Hr]. intros a. split; [done|]. intros [b|x].
    + cbn [wp]. apply wp_terminal; [done|]. intros. apply pending_honest.
    + intros _. exact Hr.
  - apply wp_terminal; [apply reverted_honest|]. intros. apply pending_honest.
Qed.

Lemma wp_managed (m : fmode) op pc c t g fees :
  f_phase m = Fresh ->
  wp P m (broadcastManagedTransaction getAddress keccak_text keccak_hex transaction_from cfg op pc c t g fees)
    (fun m' r => match r with Ok _ => f_phase m' = Broadcasted | Err _ => honest m' r end).
Proof.
  assert (Hx : forall (x : thrown) (m' : fmode), f_phase m' = Fresh -> honest m' (Err (A := string) x))
    by (intros; by apply fresh_honest).
  intros Hm. unfold broadcastManagedTransaction.
  apply wp_calm_bind; [apply calms_signer|done| |exact Hx]. clear m Hm. intros a m Hm.
  apply wp_calm_bind; [by apply (every_call (S := gasless))|done| |exact Hx]. clear m Hm. intros n m Hm.
  apply wp_calm_bind; [unfold buildSigningRequestId, getAddress_; gasless_steps|done| |exact Hx].
  clear m Hm. intros q m Hm. cbv zeta.
  apply wp_calm_bind; [gasless_steps|done| |exact Hx]. clear m Hm. intros h m Hm.
  apply wp_calm_bind; [by apply (every_call (S := gasless))|done| |exact Hx]. clear m Hm. intros v m Hm.
  apply wp_calm_bind; [by apply (every_call (S := gasless))|done| |exact Hx]. clear m Hm. intros [] m Hm.
  apply wp_calm_bind; [by apply (every_call (S := gasless))|done| |exact Hx]. clear m Hm. intros r m Hm.
  apply wp_calm_bind; [apply calms_validate|done| |exact Hx]. clear m Hm. intros s m Hm.
  apply wp_calm_bind; [unfold keccak256_hex; gasless_steps|done| |exact Hx]. clear m Hm. intros h' m Hm.
  apply wp_calm_bind; [by apply (every_call (S := gasless))|done| |exact Hx]. clear m Hm. intros [] m Hm.
  by apply wp_broadcast.
Qed.

Lemma wp_execute (m : fmode) op pc c f :
  f_phase m = Fresh ->
  wp P m (execute getAddress keccak_text keccak_hex transaction_from cfg op pc c f) honest.
Proof.
  assert (Hx : forall (x : thrown) (m' : fmode), f_phase m' = Fresh ->
    honest m' (Err (A := GaslessExecutionSubmission) x)) by (intros; by apply fresh_honest).
  intros Hm. unfold execute.
  apply wp_calm_bind; [apply calms_balance|done| |exact Hx]. clear m Hm. intros a m Hm. cbv zeta.
  apply wp_calm_bind; [apply calms_simulate|done| |exact Hx]. clear m Hm. intros g m Hm.
  apply wp_calm_bind; [apply calms_spend|done| |exact Hx]. clear m Hm. intros fees m Hm.
  apply wp_then. eapply wp_weaken; [|by apply wp_managed]. intros m' [tx|x] H; [|done].
  apply wp_then. eapply wp_weaken; [|by apply wp_receipt]. intros m2 [r|x] H2; done.
Qed.

(** What the release of the lock throws replaces any outcome. *)
Lemma wp_exclusive {A} (m : fmode) (p : io gasless A) :
  f_phase m = Fresh -> (forall m', f_phase m' = Fresh -> wp P m' p honest) ->
  wp P m (runExclusive p) honest.
Proof.
  intros Hm Hp. unfold runExclusive. apply wp_quiet_then; [done| |intros x; by apply fresh_honest].
  intros []. unfold finally. apply wp_seq. eapply wp_weaken.
  2:{ apply wp_quiet_then; [done|intros []; by apply Hp|intros x; by apply fresh_honest]. }
  intros m' r Hr. split; [done|]. intros [[]|x]; [exact Hr|]. intros _. by right; right.
Qed.

(** ** Events *)

Lemma wp_record {B} (m : fmode) i (f : recorded -> io gasless B) (Q : fmode -> result thrown B -> Prop) :
  (ei_eventType i = e_failed -> unsent m) ->
  (forall a, wp P m (f a) Q) -> (forall x, Q m (Err x)) -> wp P m (record_event i ≫= f) Q.
Proof.
  intros Hi Hf Hx. unfold record_event. apply wp_then, wp_quiet_then; [done| |done]. intros t.
  split; [exact Hi|]. intros [a|x]; [apply Hf|apply Hx].
Qed.

Lemma wp_failure {A} (m : fmode) g e :
  (plain e -> unsent m) ->
  wp P m (recordGaslessExecutionFailure (A := A) g e) (fun _ _ => True).
Proof.
  intros He. unfold recordGaslessExecutionFailure.
  destruct e as [| ? [] ?| | |]; apply wp_record; try done; intros _; by apply He.
Qed.

Lemma wp_projection {A} (m : fmode) h (p : io gasless A) :
  wp P m p (fun _ _ => True) -> wp P m (projectPersistedGaslessTransaction h p) honest.
Proof.
  intros Hp. unfold projectPersistedGaslessTransaction. apply wp_catch.
  eapply wp_weaken; [|exact Hp]. intros m' [a|x] _; [done|apply pending_honest].
Qed.

Lemma wp_body (m : fmode) settings i r :
  f_phase m = Fresh ->
  wp P m (create_trade_body getAddress keccak_text keccak_hex transaction_from encodeFunctionData cfg
            settings i r) honest.
Proof.
  intros Hm. unfold create_trade_body. cbv zeta.
  apply wp_record; [done| |intros x; by apply fresh_honest]. intros queued.
  apply wp_calm_bind; [unfold simulateCreateTrade; gasless_steps; [apply calms_balance|apply calms_simulate]
    |done| |intros x m' H; by apply fresh_honest].
  clear m Hm. intros g m Hm.
  apply wp_record; [done| |intros x; by apply fresh_honest]. intros simulation.
  apply wp_then. eapply wp_weaken; [|apply wp_exclusive; [done|]; intros m' Hm'; by apply wp_execute].
  intros m' [execution|x] H; [|done]. apply wp_projection.
  apply wp_record; [done| |done]. intros submitted. apply wp_record; done.
Qed.

Lemma wp_create_trade (m : fmode) accepts matches_ settings i :
  f_phase m = Fresh ->
  wp P m (executeCreateTradeWorkflow getAddress keccak_text keccak_hex transaction_from
            encodeFunctionData cfg accepts matches_ settings i) (fun _ _ => True).
Proof.
  intros Hm. unfold executeCreateTradeWorkflow.
  apply wp_lift_then; [|done]. intros [] _. apply wp_quiet_then; [done| |done]. intros [h|]; [|done].
  apply wp_lift_then; [|done]. intros [] _. apply wp_record; [done| |done]. intros accepted. cbv zeta.
  apply wp_catch. eapply wp_weaken; [|by apply wp_body].
  intros m' [a|x] H; [done|]. by apply wp_failure.
Qed.

(** ** What the mode says of the effects performed *)

(** The signer or its balance could not be read, or the balance is below the floor. *)
Inductive balance_refused : event gasless -> Prop :=
| refused_no_address x : balance_refused (ev (S := gasless) GetSignerAddress (Err x))
| refused_address a : getAddress a = None -> balance_refused (ev (S := gasless) GetSignerAddress (Ok a))
| refused_no_balance a x : balance_refused (ev (S := gasless) (GetBalance a) (Err x))
| refused_balance a b :
    b < gc_minExecutorBalanceWei cfg -> balance_refused (ev (S := gasless) (GetBalance a) (Ok b)).

(** A finalized receipt of a successful transaction. *)
Inductive success_finalized : event gasless -> Prop :=
| finalized c h receipt e :
    rc_status receipt = Some 1 ->
    success_finalized (ev (S := gasless) (VerifyReceipt c h receipt) (Ok (Some e))).

Definition broadcasts (x : event gasless) : bool :=
  match projT1 x with BroadcastTransaction _ => true | _ => false end.

Inductive unlock_failed : event gasless -> Prop :=
| unlock_failure x : unlock_failed (ev (S := gasless) ReleaseLock (Err x)).

Lemma advance_phase a b (m : fmode) :
  f_phase (advance a b m) = b /\ f_phase m = a \/ f_phase (advance a b m) = f_phase m.
Proof.
  unfold advance. destruct (f_phase m) eqn:E, a; auto.
Qed.

Lemma advance_unreleased a b (m : fmode) : f_unreleased (advance a b m) = f_unreleased m.
Proof. unfold advance. by destruct (f_phase m), a. Qed.

(** One effect moves the phase only by what it is. *)
Lemma next_phase (m : fmode) (e : gasless_effect) r :
  let m' := fnext getAddress cfg m e r in
  f_phase m' = f_phase m \/
  (f_phase m = Fresh /\ f_phase m' = Broadcasted) \/
  (f_phase m = Broadcasted /\ f_phase m' = Finalized /\ success_finalized (ev (S := gasless) e r)) \/
  (f_phase m = Finalized /\ f_phase m' = BalanceRefused /\ balance_refused (ev (S := gasless) e r)).
Proof.
  assert (Hb : balance_refused (ev (S := gasless) e r) ->
    f_phase (advance Finalized BalanceRefused m) = f_phase m \/
    (f_phase m = Finalized /\ f_phase (advance Finalized BalanceRefused m) = BalanceRefused /\
     balance_refused (ev (S := gasless) e r))).
  { intros H. destruct (advance_phase Finalized BalanceRefused m) as [[E1 E2]|E]; auto. }
  cbv zeta. destruct e; cbn in *; auto.
  - destruct r as [a|x].
    + destruct (getAddress a) eqn:E; [auto|]. destruct Hb; [by constructor|auto..].
    + destruct Hb; [by constructor|auto..].
  - destruct r as [b|x].
    + destruct (_ <? _) eqn:E; [|auto]. apply Z.ltb_lt in E. destruct Hb; [by constructor|auto..].
    + destruct Hb; [by constructor|auto..].
  - destruct (advance_phase Fresh Broadcasted m) as [[E1 E2]|E]; auto.
  - destruct r as [[e|]|x]; auto. destruct (bool_decide_reflect (rc_status receipt = Some 1)) as [E|]; [|auto].
    destruct (advance_phase Broadcasted Finalized m) as [[E1 E2]|E']; [|auto].
    right; right; left. split_and!; [done|done|by constructor].
  - destruct r; auto.
Qed.

Notation after_ := (after P).

Lemma after_snoc (m : fmode) tr e r : after_ m (tr ++ [existT e r])%list = fnext getAddress cfg (after_ m tr) e r.
Proof. revert m. induction tr as [|[e' r'] tr IH]; intros m; [done|]. apply IH. Qed.

Lemma broadcast_next (m : fmode) e r :
  broadcasts (ev (S := gasless) e r) = true -> f_phase (fnext getAddress cfg m e r) <> Fresh.
Proof.
  destruct e; try done. intros _. cbn. unfold advance. by destruct (f_phase m) eqn:E; cbn; rewrite ?E.
Qed.

Lemma broadcast_phase (m : fmode) tr :
  f_phase (after_ m tr) = Fresh -> Forall (fun x => broadcasts x = false) tr.
Proof.
  induction tr as [|[e r] tr IH] using rev_ind; [done|]. rewrite after_snoc. intros H.
  apply Forall_app. split.
  - apply IH. destruct (next_phase (after_ m tr) e r) as [E|[[E _]|[[E [E2 _]]|[E [E2 _]]]]]; congruence.
  - repeat constructor. destruct (broadcasts _) eqn:E; [|done]. by apply (broadcast_next (after_ m tr)) in E.
Qed.

Lemma finalized_phase tr :
  f_phase (after_ {| f_phase := Fresh; f_unreleased := false |} tr) = Finalized ->
  exists x, x ∈ tr /\ success_finalized x.
Proof.
  induction tr as [|[e r] tr IH] using rev_ind; [done|]. rewrite after_snoc. intros H.
  destruct (next_phase (after_ {| f_phase := Fresh; f_unreleased := false |} tr) e r)
    as [E|[[E E2]|[[E [E2 F]]|[E [E2 _]]]]]; try congruence.
  - destruct IH as (x & Hx & F); [congruence|]. exists x. split; [apply elem_of_app; by left|done].
  - eexists. split; [apply elem_of_app; right; by left|done].
Qed.

(** The order of a finalized success and a refused balance in a run. *)
Definition refused_after_success (tr : list (event gasless)) : Prop :=
  exists t1 x t2, tr = (t1 ++ x :: t2)%list /\ balance_refused x /\
    exists y, y ∈ t1 /\ success_finalized y.

Lemma refused_phase tr :
  f_phase (after_ {| f_phase := Fresh; f_unreleased := false |} tr) = BalanceRefused ->
  refused_after_success tr.
Proof.
  induction tr as [|[e r] tr IH] using rev_ind; [done|]. rewrite after_snoc. intros H.
  destruct (next_phase (after_ {| f_phase := Fresh; f_unreleased := false |} tr) e r)
    as [E|[[E E2]|[[E [E2 _]]|[E [E2 F]]]]]; try congruence.
  - destruct IH as (t1 & x & t2 & -> & F); [congruence|].
    exists t1, x, (t2 ++ [existT e r])%list. by rewrite <- app_assoc.
  - exists tr, (existT e r), []. split_and!; [done|done|]. by apply finalized_phase.
Qed.

Lemma unlock_phase (m : fmode) tr :
  f_unreleased (after_ m tr) = true -> f_unreleased m = true \/ exists x, x ∈ tr /\ unlock_failed x.
Proof.
  induction tr as [|[e r] tr IH] using rev_ind; [by left|]. rewrite after_snoc. intros H.
  assert (Hc : f_unreleased (fnext getAddress cfg (after_ m tr) e r) = f_unreleased (after_ m tr)
    \/ unlock_failed (existT e r)).
  { destruct e; cbn; repeat case_match; rewrite ?advance_unreleased; auto; right; constructor. }
  destruct Hc as [E|F].
  - destruct IH as [?|(x & Hx & F)]; [congruence|by left|]. right. exists x.
    split; [apply elem_of_app; by left|done].
  - right. eexists. split; [apply elem_of_app; right; by left|done].
Qed.

(** C18. In one execution of the create-trade workflow a failed event is recorded only
    if nothing was broadcast in that execution so far, or the release of the advisory
    lock threw, or the signer's balance was refused after the transaction had already
    been finalized as successful. The executions of a request that is sent again are
    separate: a later one may record a failure although an earlier one broadcast. *)
Theorem failed_record_causes accepts matches_ settings i tr1 x r tr2 p :
  performs (executeCreateTradeWorkflow getAddress keccak_text keccak_hex transaction_from
    encodeFunctionData cfg accepts matches_ settings i) (tr1 ++ ev (S := gasless) (RecordEvent x) r :: tr2)%list p ->
  xi_eventType x = e_failed ->
  Forall (fun y => broadcasts y = false) tr1 \/
  (exists y, y ∈ tr1 /\ unlock_failed y) \/
  refused_after_success tr1.
Proof.
  intros H Hx.
  pose proof (wp_create_trade {| f_phase := Fresh; f_unreleased := false |} accepts matches_ settings i eq_refl)
    as Hw.
  pose proof (performs_allowed P _ _ _ _ _ _ _ _ Hw H Hx) as [F|[F|F]].
  - left. by eapply broadcast_phase.
  - right; right. by apply refused_phase.
  - right; left. apply unlock_phase in F as [?|?]; done.
Qed.

End Theorem_.
