(* ===== verification/GaslessOutcome.v ===== *)
(** The transaction outcomes of gasless execution are event sourced: in every
    reachable world each row is its own history of events, replayed, and the history
    only makes the moves the recorder and the reconciler mean to make. *)
From stdpp Require Import base list gmap strings.
From S2P Require Import Prelude JsText JsJson Programs SettlementTypes SettlementMachine SettlementStore SettlementService ManagedSigner GaslessDb GaslessExec GaslessWorkflow GaslessReconcile GaslessSystem GaslessSafe.

Open Scope string_scope.
Open Scope Z_scope.

(** ** The history of a transaction *)

(** What the events say of an outcome. *)
Record outcome_view := {
  vw_status : GaslessTransactionOutcomeStatus;
  vw_failureCode : option string;
  vw_observed : option string;
  vw_blockNumber : option string;
  vw_blockHash : option string;
  vw_finalityEvidence : option GaslessFinalityEvidence }.

Definition view_of (r : OutcomeRow) : outcome_view :=
  {| vw_status := o_status r; vw_failureCode := o_failureCode r;
     vw_observed := o_observedTransactionHash r; vw_blockNumber := o_blockNumber r;
     vw_blockHash := o_blockHash r; vw_finalityEvidence := o_finalityEvidence r |}.

Definition prepared_view : outcome_view :=
  {| vw_status := g_broadcast_pending; vw_failureCode := None; vw_observed := None;
     vw_blockNumber := None; vw_blockHash := None; vw_finalityEvidence := None |}.

(** An event supersedes the status, and each detail it has; a lost broadcast also
    supersedes the failure it may not name. *)
Definition replay_event (v : outcome_view) (e : outcome_event) : outcome_view :=
  {| vw_status := oe_status e;
     vw_failureCode := if bool_decide (oe_status e = g_broadcast_unknown) then oe_failureCode e
                       else coalesce (oe_failureCode e) (vw_failureCode v);
     vw_observed := coalesce (oe_observedTransactionHash e) (vw_observed v);
     vw_blockNumber := coalesce (oe_blockNumber e) (vw_blockNumber v);
     vw_blockHash := coalesce (oe_blockHash e) (vw_blockHash v);
     vw_finalityEvidence := coalesce (oe_finalityEvidence e) (vw_finalityEvidence v) |}.

Definition replay (l : list outcome_event) : outcome_view := foldl replay_event prepared_view l.

Definition final (s : GaslessTransactionOutcomeStatus) : Prop := s = g_confirmed \/ s = g_reverted.

(** The finalized block of the outcome was orphaned. *)
Definition orphans (e : outcome_event) : Prop :=
  oe_status e = g_confirmation_pending /\ oe_failureCode e = Some ORPHANED.

(** The moves of a transaction: nothing returns to [broadcast_pending]; a final
    outcome is only restated, about the same block, or orphaned. *)
Definition legal (v : outcome_view) (e : outcome_event) : Prop :=
  oe_status e ∈ [g_broadcast_unknown; g_confirmation_pending; g_confirmed; g_reverted] /\
  (final (vw_status v) ->
   (oe_status e = vw_status v /\ oe_blockNumber e = vw_blockNumber v /\
    oe_blockHash e = vw_blockHash v) \/ orphans e).

(** Every event of the history is a legal move from what came before it. *)
Inductive history : list outcome_event -> Prop :=
| history_nil : history []
| history_snoc l e : history l -> legal (replay l) e -> history (l ++ [e]).

Definition events_of (hash : string) (d : gasless_db) : list outcome_event :=
  List.filter (fun e => String.eqb (oe_transactionHash e) hash) (outcome_events d).

Record sourced (d : gasless_db) : Prop := {
  so_known : forall e, e ∈ outcome_events d -> exists r, r ∈ outcomes d /\ o_hash r = oe_transactionHash e;
  so_rows : forall r, r ∈ outcomes d -> exists l,
    events_of (o_hash r) d = event_of (o_hash r) g_broadcast_pending :: l /\ history l /\
    view_of r = replay l }.

(** ** One statement *)

(** The events one statement writes for one row. *)
Lemma row_events (p : OutcomeRow -> bool) (g : OutcomeRow -> outcome_event) l r :
  NoDup (map o_hash l) -> r ∈ l -> (forall x, oe_transactionHash (g x) = o_hash x) ->
  List.filter (fun e => String.eqb (oe_transactionHash e) (o_hash r)) (map g (List.filter p l))
  = if p r then [g r] else [].
Proof.
  intros Hn Hr Hg. induction l as [|x l IH]; [by apply elem_of_nil in Hr|].
  cbn in Hn. apply NoDup_cons in Hn as [Hx Hn]. apply elem_of_cons in Hr as [->|Hr].
  - assert (E : List.filter (fun e => String.eqb (oe_transactionHash e) (o_hash x))
      (map g (List.filter p l)) = []).
    { destruct (List.filter _ _) as [|e m] eqn:E; [done|]. exfalso.
      assert (H : In e (e :: m)) by by left. rewrite <- E in H. apply filter_In in H as [H1 H2].
      apply in_map_iff in H1 as (y & <- & H1). apply filter_In in H1 as [H1 _].
      rewrite Hg in H2. apply String.eqb_eq in H2. apply Hx. rewrite <- H2.
      apply list_elem_of_fmap_2. by apply list_elem_of_In. }
    cbn. destruct (p x); cbn; [|done]. by rewrite Hg, String.eqb_refl, E.
  - assert (x <> r /\ o_hash x <> o_hash r) as [_ Hd].
    { split; intros E; apply Hx; [by rewrite E; apply list_elem_of_fmap_2|rewrite E; by apply list_elem_of_fmap_2]. }
    cbn. destruct (p x); cbn; [|by apply IH]. rewrite Hg. apply String.eqb_neq in Hd. rewrite Hd. by apply IH.
Qed.

Lemma replay_snoc l e : replay (l ++ [e]) = replay_event (replay l) e.
Proof. unfold replay. by rewrite foldl_app. Qed.

(** Rows updated by one statement with one event each. *)
Lemma sourced_update p f g d :
  keys_ok d -> sourced d ->
  (forall r, o_identity (f r) = o_identity r) -> (forall r, oe_transactionHash (g r) = o_hash r) ->
  (forall r, r ∈ outcomes d -> p r = true ->
     legal (view_of r) (g r) /\ view_of (f r) = replay_event (view_of r) (g r)) ->
  sourced (set_outcomes (update_where p f (outcomes d))
             (outcome_events d ++ map g (List.filter p (outcomes d)))%list d).
Proof.
  intros K [S1 S2] Hf Hg Hp.
  assert (Hh : forall r, o_hash (if p r then f r else r) = o_hash r).
  { intros r. unfold o_hash. destruct (p r); [by rewrite Hf|done]. }
  assert (Hin : forall r, r ∈ outcomes d -> exists r', r' ∈ update_where p f (outcomes d) /\ o_hash r' = o_hash r).
  { intros r Hr. exists (if p r then f r else r). split; [apply update_where_elem; eauto|apply Hh]. }
  split; cbn.
  - intros e [He|He]%elem_of_app.
    + destruct (S1 e He) as (r & Hr & <-). by apply Hin.
    + apply list_elem_of_fmap in He as (r & -> & Hr). rewrite Hg. apply Hin.
      apply list_elem_of_In, filter_In in Hr as [Hr _]. by apply list_elem_of_In.
  - intros r' (r & Hr & ->)%update_where_elem. rewrite Hh. destruct (S2 r Hr) as (l & El & Hl & Ev).
    unfold events_of. cbn. rewrite List.filter_app. fold (events_of (o_hash r) d). rewrite El.
    rewrite (row_events p g _ r (ok_hashes _ K) Hr Hg). destruct (p r) eqn:E.
    + destruct (Hp r Hr E) as [L V]. rewrite Ev in L, V. exists (l ++ [g r])%list. split_and!.
      * done.
      * by constructor.
      * by rewrite replay_snoc.
    + exists l. by rewrite app_nil_r.
Qed.

(** Rows updated without an event, and without a change the events would tell. *)
Lemma sourced_silent p f d :
  sourced d -> (forall r, o_identity (f r) = o_identity r) -> (forall r, view_of (f r) = view_of r) ->
  sourced (set_outcomes (update_where p f (outcomes d)) (outcome_events d) d).
Proof.
  intros [S1 S2] Hf Hv.
  assert (Hh : forall r, o_hash (if p r then f r else r) = o_hash r).
  { intros r. unfold o_hash. destruct (p r); [by rewrite Hf|done]. }
  split; cbn.
  - intros e He. destruct (S1 e He) as (r & Hr & <-). exists (if p r then f r else r).
    split; [apply update_where_elem; eauto|apply Hh].
  - intros r' (r & Hr & ->)%update_where_elem. rewrite Hh. destruct (S2 r Hr) as (l & El & Hl & Ev).
    exists l. split_and!; [done|done|]. rewrite <- Ev. destruct (p r); [apply Hv|done].
Qed.

Lemma sourced_prepared i now d u d' :
  recordPrepared i now d = Ok (u, d') -> sourced d -> sourced d'.
Proof.
  unfold recordPrepared. intros H [S1 S2]. apply throw_if_bind in H as [_ H].
  apply throw_if_bind in H as [Hh H]. apply throw_if_bind in H as [_ H]. injection H as <- <-.
  assert (Hnew : forall r, r ∈ outcomes d -> o_hash r <> gi_transactionHash i).
  { intros r Hr. pose proof (existsb_none _ _ _ Hh Hr) as H. cbn in H. by apply String.eqb_neq in H. }
  split; cbn.
  - intros e [He|He]%elem_of_app.
    + destruct (S1 e He) as (r & Hr & E). exists r. split; [set_solver|done].
    + apply list_elem_of_singleton in He as ->. exists (prepared_row i now). split; [set_solver|done].
  - intros r [Hr|Hr]%elem_of_app.
    + destruct (S2 r Hr) as (l & El & Hl & Ev). exists l. split_and!; [|done|done].
      unfold events_of. cbn. rewrite List.filter_app. fold (events_of (o_hash r) d). rewrite El. cbn.
      assert (E : String.eqb (gi_transactionHash i) (o_hash r) = false)
        by (apply String.eqb_neq; intros E; by apply (Hnew r)).
      by rewrite E, app_nil_r.
    + apply list_elem_of_singleton in Hr as ->. exists []. split_and!; [|constructor|done].
      unfold events_of. cbn. rewrite List.filter_app. cbn. unfold o_hash. cbn. rewrite String.eqb_refl.
      enough (List.filter (fun e => String.eqb (oe_transactionHash e) (gi_transactionHash i))
        (outcome_events d) = []) as -> by done.
      destruct (List.filter _ _) as [|e m] eqn:E; [done|]. exfalso.
      assert (H : In e (e :: m)) by by left. rewrite <- E in H. apply filter_In in H as [H1 H2].
      apply String.eqb_eq in H2. destruct (S1 e) as (r & Hr & Er); [by apply list_elem_of_In|].
      apply (Hnew r Hr). congruence.
Qed.

(** The transitions the recorder's operations ask for. *)
Definition recorded_kind (s : GaslessTransactionOutcomeStatus) (x : outcome_details) : bool :=
  match s with
  | g_broadcast_unknown => true
  | g_confirmation_pending | g_confirmed | g_reverted =>
      match od_failureCode x with None => true | Some _ => false end
  | _ => false
  end.

Lemma sourced_transition h s x d n d' :
  recorded_kind s x = true -> transition_statement h s x d = Ok (n, d') -> keys_ok d -> sourced d ->
  sourced d'.
Proof.
  unfold transition_statement. intros Hk H K S. apply throw_if_bind in H as [_ H]. injection H as _ <-.
  apply sourced_update; [done|done|done|done|]. intros r Hr Hm.
  unfold may_transition in Hm. apply andb_true_iff in Hm as [[[_ Hm]%andb_true_iff Hb]%andb_true_iff _].
  assert (Hs : final (o_status r) -> o_status r = s).
  { intros [E|E]; rewrite E in Hm; destruct s; done. }
  split.
  - split; [destruct s; try done; apply list_elem_of_In; cbn; tauto|]. intros Hf. left.
    pose proof (Hs Hf) as E. cbn in *. apply orb_true_iff in Hb as [Hb|Hb].
    + rewrite negb_true_iff in Hb. by apply bool_decide_eq_false in Hb.
    + reflect_bools. by split_and!.
  - unfold view_of, replay_event. cbn. f_equal. destruct (bool_decide_reflect (s = g_broadcast_unknown)) as [|Hn]; [done|].
    unfold recorded_kind in Hk. destruct (od_failureCode x), s; done.
Qed.

Lemma sourced_orphaned h d u d' : markOrphaned h d = Ok (u, d') -> keys_ok d -> sourced d -> sourced d'.
Proof.
  unfold markOrphaned. destruct (_ =? 1)%nat; [|done]. intros [= <- <-] K S.
  apply sourced_update; [done|done|done|done|]. intros r Hr Hm. split.
  - split; cbn; [set_solver|]. intros _. by right.
  - unfold view_of, replay_event. cbn. by destruct (o_blockNumber r), (o_blockHash r).
Qed.

Lemma history_same d d' :
  outcomes d' = outcomes d -> outcome_events d' = outcome_events d -> sourced d -> sourced d'.
Proof.
  intros E1 E2 [S1 S2]. split; unfold events_of; rewrite E1, ?E2; [exact S1|exact S2].
Qed.

(** ** Reachable worlds *)

Definition recorder_effect (e : gasless_effect) : Prop :=
  match e with TransitionStatement _ s x => recorded_kind s x = true | _ => True end.

Lemma sourced_statement getAddress policy now u1 u2 e f a d d' :
  statement getAddress policy now u1 u2 e = Some f -> f d = Ok (a, d') -> recorder_effect e ->
  keys_ok d -> sourced d -> sourced d'.
Proof.
  destruct e; cbn; intros Hf H Hok K S; try done; simplify_eq/=; try done.
  - unfold reserve in H. apply bind_ok in H as (i & _ & H). apply throw_if_bind in H as [_ H].
    cbv zeta in H. destruct (existsb _ _).
    + destruct (List.find _ _); [|done]. injection H as <- <-. by apply (history_same d).
    + apply throw_if_bind in H as [_ H]. injection H as <- <-. by apply (history_same d).
  - unfold beginSigning in H. destruct (existsb _ _); [|done]. injection H as <- <-.
    by apply (history_same d).
  - unfold recordSigned in H. destruct (existsb _ _); [|done].
    apply throw_if_bind in H as [_ H]. apply throw_if_bind in H as [_ H]. injection H as <- <-.
    by apply (history_same d).
  - by eapply sourced_prepared.
  - by eapply sourced_transition.
  - by eapply sourced_orphaned.
  - unfold markRecoveryAttempted in H. injection H as _ <-. by apply sourced_silent.
  - unfold markProjectionApplied in H. destruct (_ =? 1)%nat; [|done]. injection H as <- <-.
    by apply sourced_silent.
Qed.

Notation recorders := (every (S := gasless) recorder_effect).

Section Programs.
Context (getAddress : string -> option string).
Context (keccak_text : string -> string) (keccak_hex : string -> option string).
Context (transaction_from : string -> option Transaction).
Context (encodeFunctionData : string -> list jvalue -> string).
Context (cfg : gasless_config).

Lemma records_transition h s x : recorded_kind s x = true -> recorders (transition h s x).
Proof. intros H. unfold transition. gasless_steps. Qed.

Lemma records_event i : recorders (record_event i).
Proof. unfold record_event. gasless_steps. Qed.

Lemma records_balance : recorders (assertSignerBalance getAddress cfg).
Proof. unfold assertSignerBalance, getExecutorAddress. gasless_steps. Qed.

Lemma records_managed op pc c t g fees :
  recorders (broadcastManagedTransaction getAddress keccak_text keccak_hex transaction_from cfg op pc c t
               g fees).
Proof.
  unfold broadcastManagedTransaction, broadcastPersistedGaslessTransaction,
    requireSignedTransactionIdentity, validateManagedSignerForBroadcast, buildSigningRequestId,
    getExecutorAddress, getAddress_, keccak256_hex.
  gasless_steps; by apply records_transition.
Qed.

Lemma records_receipt h : recorders (waitForConfirmedReceipt getAddress cfg h).
Proof.
  unfold waitForConfirmedReceipt, persistGaslessTerminalOutcome.
  gasless_steps; first [apply records_balance|by apply records_transition].
Qed.

Lemma records_execute op pc c f :
  recorders (execute getAddress keccak_text keccak_hex transaction_from cfg op pc c f).
Proof.
  unfold execute, simulateTransaction, assertGasSpendCap.
  gasless_steps; first [apply records_balance|apply records_managed|apply records_receipt].
Qed.

Lemma records_exclusive {A} (p : io gasless A) : recorders p -> recorders (runExclusive p).
Proof.
  intros Hp. unfold runExclusive, finally. gasless_steps. apply every_bind; [by gasless_steps|].
  intros r. apply every_bind; [by gasless_steps|]. by intros [].
Qed.

Lemma records_failure {A} g e : recorders (recordGaslessExecutionFailure (A := A) g e).
Proof. unfold recordGaslessExecutionFailure. destruct e; gasless_steps; apply records_event. Qed.

Lemma records_create_trade accepts matches_ settings i :
  recorders (executeCreateTradeWorkflow getAddress keccak_text keccak_hex transaction_from
               encodeFunctionData cfg accepts matches_ settings i).
Proof.
  unfold executeCreateTradeWorkflow, create_trade_body, simulateCreateTrade, simulateTransaction,
    projectPersistedGaslessTransaction.
  gasless_steps; first [apply records_event|apply records_balance|apply records_failure
    |apply records_exclusive, records_execute].
Qed.

Lemma records_wallet accepts i :
  recorders (executeWalletUsdcTransferWorkflow getAddress keccak_text keccak_hex transaction_from
               encodeFunctionData cfg accepts i).
Proof.
  unfold executeWalletUsdcTransferWorkflow, simulateWalletUsdcTransfer, simulateTransaction.
  gasless_steps; first [apply records_balance|apply records_exclusive, records_execute].
Qed.

Lemma records_recovery rail limit : recorders (processUnresolved rail limit).
Proof.
  unfold processUnresolved. gasless_steps. apply every_for_each. intros row.
  unfold process_record, reconcile, reconcile_chain, reconcile_missing, reconcile_receipt, reconcile_unfinal,
    reconcile_pending, projectBroadcastUnknown, onOrphaned, onTerminal, prepareTerminalProjection,
    recordHandoffOutcome, requireHandoff.
  gasless_steps; first [apply records_event|by apply records_transition].
Qed.

End Programs.

Section Sourced.
Context (getAddress : string -> option string).
Context (keccak_text : string -> string) (keccak_hex : string -> option string).
Context (transaction_from : string -> option Transaction).
Context (encodeFunctionData : string -> list jvalue -> string).
Context (sha256_hex : string -> string) (callbacks : callback_config).
Context (cfg : gasless_config) (policy : lease_policy).
Context (admit_create_trade : GaslessCreateTradeExecutionInput -> result thrown unit)
  (assertHandoffMatchesExecution :
     SettlementHandoffRecord -> GaslessCreateTradeExecutionInput -> result thrown unit)
  (admit_transfer : GaslessWalletUsdcTransferExecutionInput -> result thrown unit)
  (balance_settings : list (string * json)) (rail_known : OutcomeRow -> bool).

Lemma entry_recorders p :
  entry getAddress keccak_text keccak_hex transaction_from encodeFunctionData cfg admit_create_trade
    assertHandoffMatchesExecution admit_transfer balance_settings rail_known p -> recorders p.
Proof.
  intros [i|i|limit|i]; unfold run_process; apply every_bind; try done.
  - apply records_create_trade.
  - apply records_wallet.
  - apply records_recovery.
Qed.

Lemma sourced_perform w e r w' :
  perform getAddress sha256_hex callbacks policy w e r w' -> recorder_effect e ->
  keys_ok (w_db w) /\ sourced (w_db w) -> keys_ok (w_db w') /\ sourced (w_db w').
Proof.
  intros H Hok [K S]. destruct H as [w e f now u1 u2 a d Hf He|w e f now u1 u2 x Hf He
    |w e f now u1 u2 a d x Hf He| | | | | |]; try done;
    (split; [by apply (statement_forward _ _ _ _ _ _ _ _ _ _ Hf He K)|by eapply sourced_statement]).
Qed.

(** C19. In every interleaving and whatever fails, each outcome row is its history of
    events replayed from [broadcast_pending], and the history is legal: nothing
    returns to [broadcast_pending], and a final outcome is only restated about the
    same block or orphaned. *)
Theorem outcome_event_sourced s w r :
  gasless_reachable getAddress keccak_text keccak_hex transaction_from encodeFunctionData sha256_hex
    callbacks cfg policy admit_create_trade assertHandoffMatchesExecution admit_transfer
    balance_settings rail_known s w ->
  r ∈ outcomes (w_db w) ->
  exists l, events_of (o_hash r) (w_db w) = event_of (o_hash r) g_broadcast_pending :: l /\
    history l /\ view_of r = replay l.
Proof.
  intros Hr Hin.
  assert (H : exists ms : list unit, keys_ok (w_db w) /\ sourced (w_db w)).
  { eapply (reachable_invariant (S := gasless) _ _ (stateless (S := gasless) recorder_effect) tt
      (fun w _ => keys_ok (w_db w) /\ sourced (w_db w))); [..|exact Hr].
    - done.
    - done.
    - intros w' l1 m l2 e rep w'' I Ha Hp. by eapply sourced_perform.
    - intros p Hp. apply every_safe. by eapply entry_recorders.
    - split; split; cbn; try constructor; try by intros ? ?%elem_of_nil. }
  destruct H as (_ & _ & [_ S2]). by apply S2.
Qed.

End Sourced.
