(* ===== verification/GaslessRecovery.v ===== *)
(** What a recovery pass of gasless outcomes achieves: a finalized success reaches
    the outcome row and a handoff that is still open, and an orphaned block never reaches a handoff
    whose callbacks need observed amounts. *)
From stdpp Require Import base list gmap strings.
From S2P Require Import Prelude JsText JsMap JsDate JsJson Programs SettlementTypes SettlementMachine SettlementStore SettlementService ManagedSigner GaslessDb GaslessExec GaslessWorkflow GaslessReconcile GaslessSystem.

Open Scope string_scope.
Open Scope Z_scope.

Section Recovery.
Context (getAddress : string -> option string).
Context (sha256_hex : string -> string) (callbacks : callback_config) (policy : lease_policy).
Context (rail_known : OutcomeRow -> bool).

Notation run_ := (run getAddress sha256_hex callbacks policy).
Notation answer_ := (answer getAddress sha256_hex callbacks policy).

(** ** Runs, composed *)

(** From step [n] on, the program takes [w] to [w'] with outcome [a], and the next
    step is [n']. *)
Definition ends {A} (o : nat -> answers) (n : nat) (p : prog gasless A) (w : world)
    (n' : nat) (w' : world) (a : A) : Prop :=
  (run_ o n p w).1.2 = w' /\ (run_ o n p w).2 = a /\ n' = (n + length (run_ o n p w).1.1)%nat.

Lemma ends_now {A} o n (a : A) w : ends o n (Ret a) w n w a.
Proof. split_and!; cbn; [done|done|lia]. Qed.

Lemma ends_seq {A B} o n n' n'' (p : prog gasless A) (f : A -> prog gasless B) w w' w'' a b :
  ends o n p w n' w' a -> ends o n' (f a) w' n'' w'' b -> ends o n (prog_bind f p) w n'' w'' b.
Proof.
  intros (<- & <- & ->). revert n w. induction p as [a|e k IH]; intros n w; cbn.
  - by rewrite Nat.add_0_r.
  - intros H. destruct (IH (answer_ (o n) w e).1 (S n) (answer_ (o n) w e).2) as (E1 & E2 & E3).
    { by rewrite Nat.add_succ_l, <- Nat.add_succ_r. }
    split_and!; cbn; [done|done|]. rewrite E3. lia.
Qed.

Lemma ends_io {A B} o n n' n'' (p : io gasless A) (f : A -> io gasless B) w w' w'' a b :
  ends o n p w n' w' (Ok a) -> ends o n' (f a) w' n'' w'' b -> ends o n (p ≫= f) w n'' w'' b.
Proof. intros H1 H2. by eapply ends_seq. Qed.

Lemma ends_io_err {A B} o n n' (p : io gasless A) (f : A -> io gasless B) w w' x :
  ends o n p w n' w' (Err x) -> ends o n (p ≫= f) w n' w' (Err x).
Proof. intros H. eapply ends_seq; [exact H|]. apply ends_now. Qed.

Lemma ends_call o n e w r w' :
  answer_ (o n) w e = (r, w') -> ends o n (call_ e) w (S n) w' r.
Proof. intros E. unfold ends. cbn. rewrite E. cbn. split_and!; [done|done|lia]. Qed.

(** An answer of another process that hands nothing over. *)
Lemma ends_external o n e w :
  external e = true -> signing_request e = [] -> broadcast_bytes e = [] ->
  ends o n (call_ e) w (S n) w (an_external (o n) e).
Proof.
  intros He Hs Hb. apply ends_call. destruct w. by destruct e.
Qed.

(** ** Recording an event *)

(** The key an event is deduplicated under, in the store. *)
Definition event_key (i : event_input) : string :=
  dedupe_key (ei_handoffId i) (event_dedupe_key sha256_hex (at_time i None)).

(** No event of this handoff, type and request has been recorded. *)
Definition unrecorded (i : event_input) (s : store) : Prop :=
  map_get (event_key i) (eventDedupeIndex s) = None.

Lemma event_without_amounts i t d s h :
  map_get (ei_handoffId i) (handoffs s) = Some h -> unrecorded i s ->
  isGaslessSponsorship h = false ->
  ei_reconciliationStatus i = rs_matched \/ ei_reconciliationStatus i = rs_drift ->
  json_assoc "reconciliationEvidence" (ei_metadata i) = None ->
  exists x, service_recordExecutionEvent sha256_hex callbacks (at_time i (Some t)) d s = Err x.
Proof.
  intros Hh Hu Hg Hr Hm. unfold service_recordExecutionEvent, recordExecutionEvent. cbn.
  rewrite Hh. unfold unrecorded, event_key in Hu.
  change (event_dedupe_key sha256_hex (at_time i (Some t))) with (event_dedupe_key sha256_hex (at_time i None)).
  rewrite Hu. cbn [mbind option_bind].
  destruct (validateExecutionTransition _ _ _); cbn [mbind result_bind]; [|eauto].
  set (b := buildCallbackPayload _ _). enough (exists x, b = Err x) as (x & ->); [by eexists|].
  unfold b, buildCallbackPayload.
  assert (E : forall h' e', isGaslessSponsorship h' = false ->
    h_reconciliationStatus h' = rs_matched \/ h_reconciliationStatus h' = rs_drift ->
    requiresObservedAmounts h' e' = true).
  { intros h' e' E1 E2. unfold requiresObservedAmounts. rewrite E1. by destruct E2 as [-> | ->]. }
  rewrite E; [|exact Hg|exact Hr]. cbn [new_event ev_metadata persist_input pi_metadata at_time xi_metadata].
  rewrite Hm. by eexists.
Qed.

Lemma record_event_refused o n i w h :
  map_get (ei_handoffId i) (handoffs (w_store w)) = Some h -> unrecorded i (w_store w) ->
  isGaslessSponsorship h = false ->
  ei_reconciliationStatus i = rs_matched \/ ei_reconciliationStatus i = rs_drift ->
  json_assoc "reconciliationEvidence" (ei_metadata i) = None ->
  exists n' x, ends o n (record_event i) w n' w (Err x).
Proof.
  intros Hh Hu Hg Hr Hm. unfold record_event.
  pose proof (ends_external o n DateNow w eq_refl eq_refl eq_refl) as Hd.
  destruct (an_external (o n) DateNow) as [t|x].
  - destruct (event_without_amounts i t (an_draws (o (S n))) (w_store w) h Hh Hu Hg Hr Hm) as (x & Ex).
    eexists _, _. eapply ends_io; [exact Hd|]. apply ends_call. unfold answer. cbn -[service_recordExecutionEvent]. by rewrite Ex.
  - eexists _, _. eapply ends_io_err. exact Hd.
Qed.

(** ** Orphaned blocks *)

(** The evidence of a handoff's transaction was orphaned, and no gas sponsorship
    exempts the handoff from observed amounts: a recovery pass fails and leaves the
    settlement store as it was, whether the block is found orphaned in this pass or
    was in an earlier one, whatever the outside answers. *)
Theorem orphan_never_reaches_handoff o n row w h :
  is_handoff row = true ->
  map_get (gi_resourceId (o_identity row)) (handoffs (w_store w)) = Some h ->
  isGaslessSponsorship h = false ->
  unrecorded (orphan_event row) (w_store w) ->
  (o_failureCode row = Some ORPHANED /\ projected_as row g_confirmation_pending = false) \/
  (o_failureCode row <> Some ORPHANED /\ final_status (o_status row) = true /\
   present_text (o_blockNumber row) = true /\ present_text (o_blockHash row) = true /\
   an_external (o n) (RevalidateBlock (gi_chainId (o_identity row)) (default "" (o_blockNumber row))
                        (default "" (o_blockHash row))) = Ok block_orphaned) ->
  exists n' w' x, ends o n (reconcile rail_known row) w n' w' (Err x) /\ w_store w' = w_store w.
Proof.
  intros Hk Hh Hg Hu [[Hf Hp]|(Hf & Hs & Hn & Hb & Ho)]; unfold reconcile.
  - rewrite bool_decide_eq_true_2 by done. rewrite Hp. cbn [negb when].
    unfold onOrphaned. rewrite Hk.
    destruct (record_event_refused o n (orphan_event row) w h) as (n' & x & E); [done|done|done|by right|done|].
    exists n', w, x. split; [|done]. by apply ends_io_err, ends_io_err.
  - rewrite bool_decide_eq_false_2 by done. rewrite Hs, Hn, Hb. cbn [andb].
    pose proof (ends_external o n (RevalidateBlock (gi_chainId (o_identity row))
      (default "" (o_blockNumber row)) (default "" (o_blockHash row))) w eq_refl eq_refl eq_refl) as Hr.
    rewrite Ho in Hr.
    destruct (answer_ (o (S n)) w (MarkOrphaned (o_hash row))) as [r w1] eqn:Em.
    assert (E1 : w_store w1 = w_store w).
    { unfold answer in Em. cbn in Em. destruct (markOrphaned _ _) as [[a d]|x]; by injection Em as <- <-. }
    pose proof (ends_call _ _ _ _ _ _ Em) as Hm. destruct r as [[]|x].
    + unfold onOrphaned. change (is_handoff (with_orphan row)) with (is_handoff row). rewrite Hk.
      change (orphan_event (with_orphan row)) with (orphan_event row).
      destruct (record_event_refused o (S (S n)) (orphan_event row) w1 h) as (n' & x & E);
        [by rewrite E1|by rewrite E1|done|by right|done|].
      exists n', w1, x. split; [|done]. eapply ends_io; [exact Hr|]. cbn beta iota.
      eapply ends_io; [exact Hm|]. by apply ends_io_err, ends_io_err.
    + exists (S (S n)), w1, x. split; [|done]. eapply ends_io; [exact Hr|]. cbn beta iota.
      by eapply ends_io_err.
Qed.

(** ** Finalized successes *)

(** The clock answers at every step. *)
Definition clocked (o : nat -> answers) : Prop :=
  forall n, exists t, an_external (o n) DateNow = Ok t.

(** An event whose callback needs no observed amounts is recorded. *)
Lemma event_recorded i t d s h :
  map_get (ei_handoffId i) (handoffs s) = Some h -> unrecorded i s ->
  validateExecutionTransition (h_executionStatus h) (ei_executionStatus i) (ei_eventType i) = Ok tt ->
  ei_reconciliationStatus i <> rs_matched -> ei_reconciliationStatus i <> rs_drift ->
  ei_eventType i <> e_reconciled -> ei_eventType i <> e_drift_detected ->
  json_assoc "reconciliationEvidence" (ei_metadata i) = None ->
  exists s' r h', service_recordExecutionEvent sha256_hex callbacks (at_time i (Some t)) d s = Ok (s', r) /\
    map_get (ei_handoffId i) (handoffs s') = Some h' /\
    h_executionStatus h' = ei_executionStatus i /\
    h_reconciliationStatus h' = ei_reconciliationStatus i /\
    (forall x, ei_txHash i = Some x -> h_txHash h' = Some x) /\
    (forall k, k <> event_key i -> map_get k (eventDedupeIndex s') = map_get k (eventDedupeIndex s)).
Proof.
  intros Hh Hu Hv Hr1 Hr2 He1 He2 Hm. unfold service_recordExecutionEvent, recordExecutionEvent.
  cbn -[buildCallbackPayload shouldQueueCallback].
  rewrite Hh. unfold unrecorded, event_key in Hu.
  change (event_dedupe_key sha256_hex (at_time i (Some t))) with (event_dedupe_key sha256_hex (at_time i None)).
  rewrite Hu. cbn [mbind option_bind]. rewrite Hv. cbn [mbind result_bind].
  set (b := buildCallbackPayload _ _).
  assert (exists body, b = Ok body) as (body & ->).
  { unfold b, buildCallbackPayload.
    assert (E : forall h' e', h_reconciliationStatus h' = ei_reconciliationStatus i ->
      ev_eventType e' = ei_eventType i -> requiresObservedAmounts h' e' = false).
    { intros h' e' E1 E2. unfold requiresObservedAmounts. rewrite E1, E2.
      rewrite !bool_decide_eq_false_2 by done. by destruct (isGaslessSponsorship h'). }
    rewrite E by done. cbn [new_event ev_metadata persist_input pi_metadata at_time xi_metadata].
    rewrite Hm. by eexists. }
  cbn [mbind result_bind]. eexists _, _, _. split; [done|].
  cbn [handoffs eventDedupeIndex]. rewrite map_get_set. split; [done|].
  assert (Hk : forall k m v, k <> event_key i ->
    map_get k (map_set (dedupe_key (ei_handoffId i) (event_dedupe_key sha256_hex (at_time i None))) v m)
    = map_get k (m : jsmap string)).
  { intros k m v Hk. apply map_get_set_ne. intros E. by apply Hk. }
  destruct (shouldQueueCallback callbacks); cbn.
  - split_and!; [done|done|by intros x ->|]. intros k Hne. by apply Hk.
  - split_and!; [done|done|by intros x ->|]. intros k Hne. by apply Hk.
Qed.

Lemma record_event_ends o n i w h :
  clocked o ->
  map_get (ei_handoffId i) (handoffs (w_store w)) = Some h -> unrecorded i (w_store w) ->
  validateExecutionTransition (h_executionStatus h) (ei_executionStatus i) (ei_eventType i) = Ok tt ->
  ei_reconciliationStatus i <> rs_matched -> ei_reconciliationStatus i <> rs_drift ->
  ei_eventType i <> e_reconciled -> ei_eventType i <> e_drift_detected ->
  json_assoc "reconciliationEvidence" (ei_metadata i) = None ->
  exists n' s' r h', ends o n (record_event i) w n' (with_store s' w) (Ok r) /\
    map_get (ei_handoffId i) (handoffs s') = Some h' /\
    h_executionStatus h' = ei_executionStatus i /\
    h_reconciliationStatus h' = ei_reconciliationStatus i /\
    (forall x, ei_txHash i = Some x -> h_txHash h' = Some x) /\
    (forall k, k <> event_key i ->
       map_get k (eventDedupeIndex s') = map_get k (eventDedupeIndex (w_store w))).
Proof.
  intros Ho Hh Hu Hv Hr1 Hr2 He1 He2 Hm. destruct (Ho n) as (t & Et).
  destruct (event_recorded i t (an_draws (o (S n))) (w_store w) h Hh Hu Hv Hr1 Hr2 He1 He2 Hm)
    as (s' & r & h' & Es & H).
  exists (S (S n)), s', r, h'. split; [|exact H]. unfold record_event.
  pose proof (ends_external o n DateNow w eq_refl eq_refl eq_refl) as Hd. rewrite Et in Hd.
  eapply ends_io; [exact Hd|]. apply ends_call. unfold answer. cbn -[service_recordExecutionEvent].
  by rewrite Es.
Qed.

Lemma handoff_read o n w id h :
  map_get id (handoffs (w_store w)) = Some h ->
  ends o n (call_ (GetHandoff id)) w (S n) w (Ok (Some h)).
Proof. intros Hh. apply ends_call. unfold answer, getHandoff. cbn. by rewrite Hh. Qed.

(** What a handoff of an unresolved outcome looks like: not yet reconciled. *)
Definition open_handoff (h : SettlementHandoffRecord) : Prop :=
  h_executionStatus h ∈ [x_pending; x_accepted; x_queued; x_submitted; x_broadcast_unknown;
                         x_confirmation_pending] /\
  h_reconciliationStatus h <> rs_matched /\ h_reconciliationStatus h <> rs_drift.

Lemma outcome_metadata row s r oc :
  json_assoc "reconciliationEvidence" (ei_metadata (recovery_event row s r oc)) = None.
Proof. cbn. destruct oc as [oc|]; [|done]. cbn. by destruct (co_finalityEvidence oc). Qed.

(** Recording the outcome of a row on its handoff. *)
Lemma record_outcome_ends o n row st oc w h :
  clocked o -> is_handoff row = true ->
  map_get (gi_resourceId (o_identity row)) (handoffs (w_store w)) = Some h ->
  h_reconciliationStatus h <> rs_matched -> h_reconciliationStatus h <> rs_drift ->
  validateExecutionTransition (h_executionStatus h) (outcome_execution_status st)
    (outcome_event_type st) = Ok tt ->
  unrecorded (recovery_event row st (h_reconciliationStatus h) oc) (w_store w) ->
  exists n' s' h', ends o n (recordHandoffOutcome row st oc) w n' (with_store s' w) (Ok tt) /\
    map_get (gi_resourceId (o_identity row)) (handoffs s') = Some h' /\
    h_executionStatus h' = outcome_execution_status st /\
    h_reconciliationStatus h' = h_reconciliationStatus h /\
    h_txHash h' = Some (o_hash row) /\
    (forall k, k <> event_key (recovery_event row st (h_reconciliationStatus h) oc) ->
       map_get k (eventDedupeIndex s') = map_get k (eventDedupeIndex (w_store w))).
Proof.
  intros Ho Hk Hh Hr1 Hr2 Hv Hu.
  destruct (record_event_ends o (S n) (recovery_event row st (h_reconciliationStatus h) oc) w h)
    as (n' & s' & r & h' & E & Hh' & Hs & Hr & Ht & Hkey); try done.
  - by destruct st.
  - by destruct st.
  - apply outcome_metadata.
  - exists n', s', h'. split_and!; [|done|done|done|by apply Ht|done].
    unfold recordHandoffOutcome. rewrite Hk. unfold requireHandoff.
    eapply ends_io; [eapply ends_io; [by apply handoff_read|apply ends_now]|].
    eapply ends_io; [exact E|apply ends_now].
Qed.

(** The two events a recovered confirmation may need have distinct keys. *)
Definition distinct_keys (row : OutcomeRow) : Prop :=
  event_key (recovery_event row ho_confirmation_pending rs_pending None) <>
  event_key (recovery_event row ho_confirmed rs_pending None).

(** A handoff before its submission; its confirmation goes through [confirmation_pending]. *)
Definition early (h : SettlementHandoffRecord) : bool :=
  includes [x_pending; x_accepted; x_queued] (h_executionStatus h).

(** The events of a recovered confirmation are new to the store: the one of the
    confirmation, and for an early handoff the one before it, under another key. *)
Definition confirmable (row : OutcomeRow) (h : SettlementHandoffRecord) (s : store) : Prop :=
  unrecorded (recovery_event row ho_confirmed rs_pending None) s /\
  (early h = true ->
     unrecorded (recovery_event row ho_confirmation_pending rs_pending None) s /\ distinct_keys row).

Lemma confirm_transition h :
  open_handoff h -> early h = false ->
  validateExecutionTransition (h_executionStatus h) x_confirmed e_confirmed = Ok tt.
Proof.
  intros [Hs _] Hn. apply list_elem_of_In in Hs. unfold early in Hn.
  destruct (h_executionStatus h); try done; cbn in Hs; intuition discriminate.
Qed.

Lemma pending_transition h :
  early h = true ->
  validateExecutionTransition (h_executionStatus h) x_confirmation_pending e_confirmation_pending = Ok tt.
Proof. unfold early. by destruct (h_executionStatus h). Qed.

(** Projecting a confirmation takes the handoff to [confirmed], through
    [confirmation_pending] when it was not yet past the queue. *)
Lemma terminal_ends o n row oc w h :
  clocked o -> is_handoff row = true ->
  map_get (gi_resourceId (o_identity row)) (handoffs (w_store w)) = Some h -> open_handoff h ->
  confirmable row h (w_store w) ->
  exists n' s' h', ends o n (onTerminal row ho_confirmed oc) w n' (with_store s' w) (Ok tt) /\
    map_get (gi_resourceId (o_identity row)) (handoffs s') = Some h' /\
    h_executionStatus h' = x_confirmed /\ h_txHash h' = Some (o_hash row).
Proof.
  intros Ho Hk Hh Hop [Hu2 Hu1]. pose proof Hop as (_ & Hr1 & Hr2).
  unfold onTerminal, prepareTerminalProjection. rewrite Hk.
  destruct (early h) eqn:Hs; pose proof Hs as Hi; unfold early in Hi.
  - destruct (Hu1 eq_refl) as [Hu Hd]. destruct (record_outcome_ends o (S n) row ho_confirmation_pending None w h)
      as (n1 & s1 & h1 & E1 & Hh1 & Hs1 & Hrr1 & _ & Hk1); try done; [by apply pending_transition|].
    destruct (record_outcome_ends o n1 row ho_confirmed (Some oc) (with_store s1 w) h1)
      as (n2 & s2 & h2 & E2 & Hh2 & Hs2 & _ & Ht2 & _); try done.
    + by rewrite Hrr1.
    + by rewrite Hrr1.
    + by rewrite Hs1.
    + unfold unrecorded. cbn. transitivity (map_get (event_key (recovery_event row ho_confirmed rs_pending None))
        (eventDedupeIndex s1)); [done|]. rewrite Hk1; [exact Hu2|]. intros E. by apply Hd.
    + exists n2, s2, h2. split_and!; [|done|done|done].
      eapply ends_io; [|exact E2].
      eapply ends_io; [eapply ends_io; [by apply handoff_read|apply ends_now]|]. cbn beta. by rewrite Hi.
  - destruct (record_outcome_ends o (S n) row ho_confirmed (Some oc) w h)
      as (n2 & s2 & h2 & E2 & Hh2 & Hs2 & _ & Ht2 & _); try done; [by apply confirm_transition|].
    exists n2, s2, h2. split_and!; [|done|done|done].
    eapply ends_io; [|exact E2].
    eapply ends_io; [eapply ends_io; [by apply handoff_read|apply ends_now]|]. cbn beta. rewrite Hi.
    apply ends_now.
Qed.

(** ** The statements on one row *)

Lemma one_hit (p : OutcomeRow -> bool) h l r :
  NoDup (map o_hash l) -> (forall x, p x = true -> o_hash x = h) -> r ∈ l -> p r = true ->
  length (List.filter p l) = 1%nat.
Proof.
  intros Hn Hp Hr Hpr. pose proof (filter_unique o_hash p h l Hn Hp).
  assert (List.filter p l <> []); [|destruct (List.filter p l); cbn in *; [done|lia]].
  intros E. assert (H1 : In r (List.filter p l)) by (apply filter_In; split; [by apply list_elem_of_In|done]).
  by rewrite E in H1.
Qed.

Lemma confirm_statement row oc d :
  keys_ok d -> row ∈ outcomes d ->
  o_status row ∈ [g_broadcast_pending; g_broadcast_unknown; g_confirmation_pending] ->
  lower_hex_word 64 (co_blockHash oc) = true ->
  exists d', transition_statement (o_hash row) g_confirmed (details_of oc) d = Ok (1%nat, d') /\
    keys_ok d' /\ transitioned g_confirmed (details_of oc) row ∈ outcomes d'.
Proof.
  intros K Hr Hs Hh.
  assert (Hm : may_transition (o_hash row) g_confirmed (details_of oc) row = true).
  { unfold may_transition. rewrite String.eqb_refl. rewrite list_elem_of_In in Hs. cbn in Hs.
    destruct Hs as [<-|[<-|[<-|[]]]]; done. }
  assert (E : transition_statement (o_hash row) g_confirmed (details_of oc) d
    = Ok (length (List.filter (may_transition (o_hash row) g_confirmed (details_of oc)) (outcomes d)),
        set_outcomes (update_where (may_transition (o_hash row) g_confirmed (details_of oc))
          (transitioned g_confirmed (details_of oc)) (outcomes d))
          (outcome_events d ++ map (fun r => transition_event g_confirmed (details_of oc) (o_hash r))
             (List.filter (may_transition (o_hash row) g_confirmed (details_of oc)) (outcomes d)))%list d)).
  { unfold transition_statement. cbn [details_of od_blockHash od_observedTransactionHash hash_or_null].
    by rewrite Hh. }
  rewrite (one_hit (may_transition (o_hash row) g_confirmed (details_of oc)) (o_hash row) _ row) in E;
    [|apply K| |done|done].
  - eexists. split; [exact E|]. split; [by eapply transition_spec in E as []|].
    cbn. apply update_where_elem. exists row. by rewrite Hm.
  - intros x Hx. unfold may_transition in Hx. repeat apply andb_true_iff in Hx as [Hx _].
    by apply String.eqb_eq in Hx.
Qed.

Lemma project_statement row s d :
  keys_ok d -> row ∈ outcomes d -> o_status row = s ->
  exists d', markProjectionApplied (o_hash row) s d = Ok (tt, d') /\
    projected_row s row ∈ outcomes d'.
Proof.
  intros K Hr Hs. unfold markProjectionApplied.
  assert (Hp : (String.eqb (o_hash row) (o_hash row) && bool_decide (o_status row = s)) = true)
    by (by rewrite String.eqb_refl, bool_decide_eq_true_2).
  rewrite (one_hit _ (o_hash row) _ row (ok_hashes _ K)); [|..|done|done].
  - cbn. eexists. split; [done|]. cbn. apply update_where_elem. exists row. cbn beta. by rewrite Hp.
  - intros x Hx. apply andb_true_iff in Hx as [Hx _]. by apply String.eqb_eq in Hx.
Qed.

(** ** The theorem *)

(** C15. Recovery completes what a crash or a lost answer left open, on a handoff that
    is still open: its status is pending, accepted, queued, submitted, broadcast
    unknown or confirmation pending, and it was not reconciled. When the chain has a
    finalized successful receipt with a well-formed block hash, the clock answers, and
    the store has not yet recorded the event of the confirmation, nor for a handoff
    before its submission the event of [confirmation_pending], whose key is another,
    one pass over the unresolved outcome ends with the row confirmed with the receipt's
    block, projected, and its handoff confirmed with the transaction's hash. A handoff
    that had failed is not open, and stays as it is
    ([GaslessSamples.finalized_then_failed]). *)
Theorem recovery_confirms o n row w h rc e :
  keys_ok (w_db w) -> row ∈ outcomes (w_db w) ->
  o_status row ∈ [g_broadcast_pending; g_broadcast_unknown; g_confirmation_pending] ->
  o_failureCode row <> Some ORPHANED -> projected_as row g_confirmed = false ->
  is_handoff row = true -> rail_known row = true ->
  map_get (gi_resourceId (o_identity row)) (handoffs (w_store w)) = Some h -> open_handoff h ->
  confirmable row h (w_store w) -> clocked o ->
  (forall n, an_external (o n) (GetTransactionReceipt (o_hash row)) = Ok (Some rc)) ->
  (forall n, an_external (o n) (VerifyReceipt (gi_chainId (o_identity row)) (o_hash row) rc) = Ok (Some e)) ->
  rc_status rc = Some 1 -> lower_hex_word 64 (rc_blockHash rc) = true ->
  exists n' w' r' h', ends o n (reconcile rail_known row) w n' w' (Ok tt) /\
    r' ∈ outcomes (w_db w') /\ o_identity r' = o_identity row /\
    o_status r' = g_confirmed /\ o_projected r' = Some g_confirmed /\
    o_blockNumber r' = Some (print_Z (rc_blockNumber rc)) /\ o_blockHash r' = Some (rc_blockHash rc) /\
    o_finalityEvidence r' = Some e /\
    map_get (gi_resourceId (o_identity row)) (handoffs (w_store w')) = Some h' /\
    h_executionStatus h' = x_confirmed /\ h_txHash h' = Some (o_hash row).
Proof.
  intros K Hr Hs Hf Hp Hk Hrail Hh Hop Hu Ho Hrc He H1 Hhash.
  assert (Hfin : final_status (o_status row) = false).
  { rewrite list_elem_of_In in Hs. cbn in Hs. destruct Hs as [<-|[<-|[<-|[]]]]; done. }
  assert (Hne : o_status row <> g_confirmed) by (intros E; by rewrite E in Hfin).
  destruct (terminal_ends o (S (S n)) row (receipt_outcome rc e) w h) as (n1 & s1 & h1 & E1 & Hh1 & Hs1 & Ht1);
    try done.
  destruct (confirm_statement row (receipt_outcome rc e) (w_db w)) as (d1 & Ed1 & K1 & Hr1); try done.
  destruct (project_statement _ g_confirmed d1 K1 Hr1 eq_refl) as (d2 & Ed2 & Hr2).
  exists (S (S n1)), (with_db d2 (with_db d1 (with_store s1 w))),
    (projected_row g_confirmed (transitioned g_confirmed (details_of (receipt_outcome rc e)) row)), h1.
  split_and!; try done.
  unfold reconcile. rewrite bool_decide_eq_false_2 by done. rewrite Hfin, andb_false_r.
  unfold reconcile_chain. rewrite Hrail. cbn [negb].
  pose proof (ends_external o n (GetTransactionReceipt (o_hash row)) w eq_refl eq_refl eq_refl) as X1.
  rewrite Hrc in X1. eapply ends_io; [exact X1|]. cbn beta iota.
  pose proof (ends_external o (S n) (VerifyReceipt (gi_chainId (o_identity row)) (o_hash row) rc) w
    eq_refl eq_refl eq_refl) as X2.
  rewrite He in X2. eapply ends_io; [exact X2|]. cbn beta iota.
  unfold reconcile_receipt. rewrite (bool_decide_eq_true_2 (rc_status rc = Some 1)) by done. cbv zeta.
  rewrite Hp, (bool_decide_eq_false_2 (o_status row = g_confirmed)) by done. cbn [negb orb when].
  eapply ends_io; [exact E1|]. cbn beta.
  eapply ends_io; [|apply ends_call; unfold answer; cbn -[markProjectionApplied]].
  - unfold markConfirmed, transition. eapply ends_io; [apply ends_call; unfold answer; cbn -[transition_statement]; by rewrite Ed1|].
    cbn. apply ends_now.
  - cbn -[markProjectionApplied]. change (o_hash row) with
      (o_hash (transitioned g_confirmed (details_of (receipt_outcome rc e)) row)).
    by rewrite Ed2.
Qed.

End Recovery.
