(* ===== verification/GaslessSamples.v ===== *)
(** Concrete runs of gasless execution: the witnesses of its theorems, and the runs
    in which a request whose transaction is on the chain is recorded as failed. *)
From stdpp Require Import base list gmap strings.
From S2P Require Import Prelude JsText JsMap JsDate JsJson Programs SettlementTypes SettlementMachine SettlementStore SettlementService ManagedSigner GaslessDb GaslessExec GaslessWorkflow GaslessReconcile GaslessSystem GaslessSafe GaslessFailure GaslessOutcome GaslessRecovery.

Open Scope string_scope.
Open Scope Z_scope.

(** ** Other packages, concretely *)

Definition signer_a : string := "0x1111111111111111111111111111111111111111".
Definition escrow_a : string := "0x2222222222222222222222222222222222222222".
Definition usdc_a : string := "0x3333333333333333333333333333333333333333".
Definition hash_1 : string := "0xaaaaaaaaaaaaaaaaaaaaaaaaaaaaaaaaaaaaaaaaaaaaaaaaaaaaaaaaaaaaaaaa".
Definition hash_2 : string := "0xbbbbbbbbbbbbbbbbbbbbbbbbbbbbbbbbbbbbbbbbbbbbbbbbbbbbbbbbbbbbbbbb".
Definition block_1 : string := "0xcccccccccccccccccccccccccccccccccccccccccccccccccccccccccccccccc".

(** Addresses in lower case are their own checksummed form. *)
Definition address_of (s : string) : option string := if lower_hex_word 40 s then Some s else None.
Definition keccak_text_ (s : string) : string := hash_2.
Definition keccak_hex_ (s : string) : option string := Some hash_1.
Definition sha_ (s : string) : string := s.
Definition encode_ (name : string) (args : list jvalue) : string := "0x01".

Lemma address_of_checksummed s a : address_of s = Some a -> address_of a = Some a.
Proof. unfold address_of. destruct (lower_hex_word 40 s) eqn:E; intros [= <-]. by rewrite E. Qed.

Definition signed_bytes : string := "0x02".

Definition signed_transaction : Transaction :=
  {| tx_hash := Some hash_1; tx_unsignedHash := hash_2; tx_hasSignature := true;
     tx_from := Some signer_a; tx_to := Some escrow_a; tx_chainId := 84532; tx_nonce := 7;
     tx_value := 0; tx_data := "0x01"; tx_gasLimit := 21000; tx_type := Some 2;
     tx_accessListLength := Some 0%nat; tx_maxFeePerGas := Some 100;
     tx_maxPriorityFeePerGas := Some 1; tx_gasPrice := None |}.

Definition transaction_from_ (s : string) : option Transaction :=
  if String.eqb s signed_bytes then Some signed_transaction else None.

Definition cfg_ : gasless_config :=
  {| gc_chainId := 84532; gc_escrowAddress := escrow_a; gc_usdcAddress := usdc_a;
     gc_custodyMode := "kms"; gc_maxGasLimit := 100000; gc_maxFeePerGasWei := 1000;
     gc_maxNativeCostWei := 10000000; gc_minExecutorBalanceWei := 50 |}.

Definition policy_ : lease_policy := {| leaseSeconds := 60; maximumRecoveries := 3 |}.

Definition callbacks_ : callback_config :=
  {| settlementCallbackEnabled := false; settlementCallbackUrl := None;
     settlementCallbackApiKey := None; settlementCallbackApiSecret := None |}.

Definition accept_all {A} (x : A) : result thrown unit := Ok tt.

Definition usdc_authorization : GaslessUsdcAuthorization :=
  {| ua_from := usdc_a; ua_to := escrow_a; ua_value := "10"; ua_validAfter := "0";
     ua_validBefore := "99"; ua_nonce := hash_2; ua_v := 27; ua_r := hash_2; ua_s := hash_2 |}.

Definition request_ : GaslessCreateTradeExecutionInput :=
  {| ct_handoffId := "handoff-1"; ct_chainId := 84532; ct_contractAddress := escrow_a;
     ct_expiresAt := "2026-01-01T00:00:00.000Z"; ct_payloadHash := hash_2; ct_buyerAddress := usdc_a;
     ct_supplierAddress := usdc_a; ct_totalAmount := "10"; ct_logisticsAmount := "1";
     ct_platformFeesAmount := "1"; ct_supplierFirstTranche := "4"; ct_supplierSecondTranche := "4";
     ct_ricardianHash := hash_2;
     ct_buyerAuthorization := {| ba_nonce := "0"; ba_deadline := "99"; ba_signature := "0x" |};
     ct_usdcAuthorization := usdc_authorization; ct_requestId := "request-1";
     ct_sourceApiKeyId := Some "platform" |}.

Definition handoff_ : SettlementHandoffRecord :=
  {| h_executionBinding := None; h_handoffId := "handoff-1"; h_platformId := "platform";
     h_platformHandoffId := "trade-1"; h_tradeId := "1"; h_phase := GASLESS;
     h_settlementChannel := "onchain"; h_displayCurrency := "USD"; h_displayAmount := "10";
     h_assetSymbol := None; h_assetAmount := None; h_ricardianHash := None;
     h_externalReference := None; h_metadata := []; h_executionStatus := x_pending;
     h_reconciliationStatus := rs_pending; h_callbackStatus := cb_pending;
     h_providerStatus := None; h_txHash := None; h_latestEventId := None;
     h_latestEventType := None; h_latestEventDetail := None; h_latestEventAt := None;
     h_callbackDeliveredAt := None; h_requestId := "handoff-request"; h_sourceApiKeyId := Some "platform";
     h_createdAt := 0; h_updatedAt := 0 |}.

Definition store_ : store := createInMemorySettlementStore [handoff_].

Definition receipt_ : TransactionReceipt :=
  {| rc_status := Some 1; rc_blockNumber := 12; rc_blockHash := block_1; rc_gasUsed := 20000;
     rc_gasPrice := 90 |}.

Definition evidence_ : GaslessFinalityEvidence :=
  {| fe_projectionCoverage := None; fe_chainId := "84532"; fe_transactionHash := hash_1;
     fe_blockNumber := "12"; fe_blockHash := block_1; fe_finalizedBlockNumber := "20";
     fe_finalizedBlockHash := block_1; fe_rpcWitnesses := ["https://a"; "https://b"] |}.

(** Other processes that answer well, with the given balance of the signer and the
    given end of the lock's release. *)
Definition external_ (balance : Z) (released : result thrown unit) (e : gasless_effect)
    : result thrown (gasless_reply e) :=
  match e return result thrown (gasless_reply e) with
  | RecordValidation _ | CallTransaction _ | ConnectLock | AcquireLock => Ok tt
  | ReleaseLock => released
  | GetSignerAddress => Ok signer_a
  | GetBalance _ => Ok balance
  | GetFeeData => Ok {| fd_maxFeePerGas := Some 100; fd_maxPriorityFeePerGas := Some 1;
                        fd_gasPrice := Some 90 |}
  | EstimateGas _ => Ok 21000
  | GetTransactionCount _ _ => Ok 7
  | SignTransaction q =>
      Ok {| rp_requestId := Some (JStr (ms_requestId q)); rp_intentHash := Some (JStr (ms_intentHash q));
            rp_signerAddress := Some (JStr (ms_signerAddress q));
            rp_signedTransaction := Some (JStr signed_bytes) |}
  | BroadcastTransaction _ => Ok hash_1
  | WaitReceipt _ | GetTransactionReceipt _ => Ok (Some receipt_)
  | VerifyReceipt _ _ _ => Ok (Some evidence_)
  | RevalidateBlock _ _ _ => Ok block_orphaned
  | GetTransaction _ => Ok true
  | DateNow => Ok 1000
  | _ => Err (Plain None "not another process")
  end.

(** The signer's balance is [balance n] at step [n]; identifiers are the step's. *)
Definition oracle (balance : nat -> Z) (released : result thrown unit) (n : nat) : answers :=
  let id := "id-" ++ print_N (N.of_nat n) in
  {| an_external := external_ (balance n) released; an_now := 1000; an_uuid1 := id;
     an_uuid2 := "lease-" ++ id;
     an_draws := {| dr_planAt := 1000; dr_now := 1000; dr_eventId := "event-" ++ id;
                    dr_deliveryId := "delivery-" ++ id |} |}.

Definition create_trade_ : io gasless GaslessCreateTradeExecutionResult :=
  create_trade address_of keccak_text_ keccak_hex_ transaction_from_ encode_ cfg_ accept_all
    (fun _ => accept_all) [] request_.

Definition run_ {A} (balance : nat -> Z) (released : result thrown unit) (p : prog gasless A) (w : world) :=
  run address_of sha_ callbacks_ policy_ (oracle balance released) 0 p w.

Definition rich (n : nat) : Z := 1000.

Definition processed {A} (p : io gasless A) (w : world) (balance : nat -> Z) (released : result thrown unit)
    : world := (run_ balance released (run_process p) w).1.2.

Definition reachable_ (w : world) : Prop :=
  gasless_reachable address_of keccak_text_ keccak_hex_ transaction_from_ encode_ sha_ callbacks_ cfg_
    policy_ accept_all (fun _ => accept_all) accept_all [] (fun _ => true) store_ w.

(** ** A run in which nothing goes wrong *)

Definition good_world : world := processed create_trade_ (start store_) rich (Ok tt).

Lemma good_reachable : reachable_ good_world.
Proof.
  apply run_reachable; [apply (entry_create_trade _ _ _ _ _ _ _ _ _ _ _ request_)|apply start_reachable].
Qed.

Lemma one_signature_per_nonce_witness :
  reachable_ good_world /\ length (w_signed good_world) = 1%nat /\
  NoDup (map (signing_slot address_of) (w_signed good_world)).
Proof.
  split; [apply good_reachable|]. split; [vm_compute; reflexivity|].
  exact (proj1 (one_signature_per_nonce _ _ _ _ _ _ _ _ _ _ _ _ _ _ address_of_checksummed _ _ good_reachable)).
Defined.

Lemma good_broadcast : exists o, w_broadcast good_world = [signed_bytes] /\
  sent_as transaction_from_ good_world signed_bytes signed_transaction o.
Proof.
  assert (H : exists o, outcomes (w_db good_world) = [o] /\ o_hash o = hash_1)
    by (eexists; split; vm_compute; reflexivity).
  destruct H as (o & E & Eh). exists o. split; [vm_compute; reflexivity|].
  split; [reflexivity|]. split; [by rewrite Eh|]. rewrite E. left.
Qed.

Lemma one_broadcast_witness :
  exists o, reachable_ good_world /\ sent_as transaction_from_ good_world signed_bytes signed_transaction o /\
    (0 = 0)%nat.
Proof.
  destruct good_broadcast as (o & Eb & Hs). exists o. split; [apply good_reachable|]. split; [exact Hs|].
  refine (one_broadcast _ _ _ _ _ _ _ _ _ _ _ _ _ _ address_of_checksummed _ _ 0 0 _ _ _ _ _ _
    good_reachable _ _ Hs Hs _); [by rewrite Eb|by rewrite Eb|by left].
Defined.

Lemma broadcast_within_policy_witness :
  reachable_ good_world /\ exists fee, tx_maxFeePerGas signed_transaction = Some fee /\
    tx_gasLimit signed_transaction * fee <= gc_maxNativeCostWei cfg_.
Proof.
  split; [apply good_reachable|]. destruct good_broadcast as (_ & Eb & _).
  assert (Hb : signed_bytes ∈ w_broadcast good_world) by (rewrite Eb; left).
  destruct (broadcast_within_policy _ _ _ _ _ _ _ _ _ _ _ _ _ _ address_of_checksummed _ _ _
    good_reachable Hb) as (t & o & q & r & (Et & _) & _ & _ & _ & _ & _ & _ & fee & _ & _ & Hc & Hf).
  injection Et as <-. exists fee. split; [|exact Hc]. destruct Hf as [Hf|[Hf _]]; [exact Hf|discriminate].
Defined.

Lemma outcome_event_sourced_witness :
  exists o l, reachable_ good_world /\ o ∈ outcomes (w_db good_world) /\
    events_of hash_1 (w_db good_world) = event_of hash_1 g_broadcast_pending :: l /\
    view_of o = replay l /\ o_status o = g_confirmed.
Proof.
  assert (H : exists o, outcomes (w_db good_world) = [o] /\ o_hash o = hash_1 /\ o_status o = g_confirmed)
    by (eexists; split; [vm_compute; reflexivity|]; split; reflexivity).
  destruct H as (o & E & Eh & Es). assert (Ho : o ∈ outcomes (w_db good_world)) by (rewrite E; left).
  destruct (outcome_event_sourced _ _ _ _ _ _ _ _ _ _ _ _ _ _ _ _ _ good_reachable Ho) as (l & El & _ & Ev).
  exists o, l. rewrite Eh in El. split; [apply good_reachable|]. by split_and!.
Defined.

(** ** Requests recorded as failed after their transaction was broadcast *)

(** The first record of a failure in a run. *)
Fixpoint split_failed (tr : list (event gasless))
    : option (list (event gasless) * (CreateSettlementExecutionEventInput * result thrown recorded)
              * list (event gasless)) :=
  match tr with
  | [] => None
  | existT e r :: tr =>
      let later := match split_failed tr with
                   | Some (t1, x, t2) => Some (existT e r :: t1, x, t2) | None => None end in
      match e return result thrown (gasless_reply e) -> _ with
      | RecordEvent x => fun r' =>
          if bool_decide (xi_eventType x = e_failed) then Some ([], (x, r'), tr) else later
      | _ => fun _ => later
      end r
  end.

Lemma split_failed_ok tr t1 x r t2 :
  split_failed tr = Some (t1, (x, r), t2) ->
  tr = (t1 ++ ev (S := gasless) (RecordEvent x) r :: t2)%list /\ xi_eventType x = e_failed.
Proof.
  revert t1. induction tr as [|[e r'] tr IH]; [done|]. intros t1 H. cbn [split_failed] in H.
  assert (Hl : match split_failed tr with
      | Some (t1, x, t2) => Some (existT e r' :: t1, x, t2) | None => None end
      = Some (t1, (x, r), t2) ->
    existT e r' :: tr = (t1 ++ ev (S := gasless) (RecordEvent x) r :: t2)%list /\ xi_eventType x = e_failed).
  { destruct (split_failed tr) as [[[t y] t']|]; [|done]. intros E. injection E as <- -> <-.
    destruct (IH t eq_refl) as [-> ?]. done. }
  destruct e; try by apply Hl. cbn in H.
  destruct (bool_decide_reflect (xi_eventType input = e_failed)) as [E|]; [|by apply Hl].
  by injection H as <- <- <- <-.
Qed.

(** The balance is below the floor once the transaction is out. *)
Definition drained (n : nat) : Z := if (n <? 30)%nat then 1000 else 0.

Definition drained_trace : list (event gasless) :=
  (run_ drained (Ok tt) create_trade_ (start store_)).1.1.

Lemma failed_record_causes_witness :
  exists tr1 x r tr2 p,
    performs create_trade_ (tr1 ++ ev (S := gasless) (RecordEvent x) r :: tr2)%list p /\
    xi_eventType x = e_failed /\ existsb broadcasts tr1 = true /\
    (Forall (fun y => broadcasts y = false) tr1 \/ (exists y, y ∈ tr1 /\ unlock_failed y) \/
     refused_after_success address_of cfg_ tr1).
Proof.
  pose proof (run_performs address_of sha_ callbacks_ policy_ (oracle drained (Ok tt)) 0 create_trade_
    (start store_)) as Hp.
  assert (H : match split_failed drained_trace with
              | Some (t1, _, _) => existsb broadcasts t1 | None => false end = true)
    by (vm_compute; reflexivity).
  destruct (split_failed drained_trace) as [[[t1 [x r]] t2]|] eqn:E; [|discriminate].
  apply split_failed_ok in E as [E Hx]. unfold drained_trace, run_ in E. rewrite E in Hp.
  exists t1, x, r, t2, (Ret (run address_of sha_ callbacks_ policy_ (oracle drained (Ok tt)) 0 create_trade_
    (start store_)).2). split; [exact Hp|]. split; [exact Hx|]. split; [exact H|].
  exact (failed_record_causes _ _ _ _ _ _ _ _ _ _ _ _ _ _ _ Hp Hx).
Defined.

(** How a run ends: what was broadcast, the outcome row and the handoff. *)
Definition ending (w : world) :=
  (w_broadcast w, (fun o => (o_status o, o_projected o)) <$> outcomes (w_db w),
   h_executionStatus <$> getHandoff "handoff-1" (w_store w)).

Definition recovery_ : io gasless unit := processUnresolved (fun _ => true) 10.

Definition drained_world : world := processed create_trade_ (start store_) drained (Ok tt).

(** The balance read that follows a finalized success is refused: the handoff is
    recorded as failed, and no recovery pass, with the same finalized receipt, moves
    it again. *)
Lemma finalized_then_failed :
  ending drained_world = ([signed_bytes], [(g_confirmation_pending, None)], Some x_failed) /\
  ending (processed recovery_ drained_world rich (Ok tt)) =
    ([signed_bytes], [(g_confirmation_pending, None)], Some x_failed) /\
  ending (processed recovery_ (processed recovery_ drained_world rich (Ok tt)) rich (Ok tt)) =
    ([signed_bytes], [(g_confirmation_pending, None)], Some x_failed).
Proof. split_and!; vm_compute; reflexivity. Qed.

Definition unreleased : result thrown unit := Err (Plain (Some "08006") "connection failure").
Definition unreleased_world : world := processed create_trade_ (start store_) rich unreleased.

(** The advisory lock cannot be released after a confirmed transaction: the same. *)
Lemma confirmed_then_failed :
  ending unreleased_world = ([signed_bytes], [(g_confirmed, None)], Some x_failed).
Proof. vm_compute. reflexivity. Qed.

(** ** Recovery *)

(** A confirmed transaction whose block is orphaned: its handoff stays confirmed. *)
Lemma orphan_never_reaches_handoff_witness :
  exists o h n' w' x, o ∈ outcomes (w_db good_world) /\
    map_get "handoff-1" (handoffs (w_store good_world)) = Some h /\ h_executionStatus h = x_confirmed /\
    ends address_of sha_ callbacks_ policy_ (oracle rich (Ok tt)) 0 (reconcile (fun _ => true) o) good_world
      n' w' (Err x) /\
    w_store w' = w_store good_world.
Proof.
  assert (H : exists o, outcomes (w_db good_world) = [o] /\ is_handoff o = true /\
      gi_resourceId (o_identity o) = "handoff-1" /\ o_failureCode o = None /\
      final_status (o_status o) = true /\ present_text (o_blockNumber o) = true /\
      present_text (o_blockHash o) = true /\
      event_key sha_ (orphan_event o) = "handoff-1:handoff-1" ++ newline ++ "chain_evidence_orphaned" ++ newline ++ "request-1")
    by (eexists; split; [vm_compute; reflexivity|]; split_and!; vm_compute; reflexivity).
  destruct H as (o & E & Hk & Hid & Hf & Hs & Hn & Hb & Hkey).
  assert (Hh : exists h, map_get "handoff-1" (handoffs (w_store good_world)) = Some h /\
      h_executionStatus h = x_confirmed /\ isGaslessSponsorship h = false)
    by (eexists; split; [vm_compute; reflexivity|]; split; reflexivity).
  destruct Hh as (h & Hh & Hx & Hg).
  assert (Hu : unrecorded sha_ (orphan_event o) (w_store good_world))
    by (unfold unrecorded; rewrite Hkey; vm_compute; reflexivity).
  rewrite <- Hid in Hh.
  destruct (orphan_never_reaches_handoff address_of sha_ callbacks_ policy_ (fun _ => true)
    (oracle rich (Ok tt)) 0 o good_world h Hk Hh Hg Hu) as (n' & w' & x & He & Hw).
  { right. rewrite Hf. by split_and!. }
  exists o, h, n', w', x. rewrite E. split; [left|]. rewrite <- Hid.
  split; [exact Hh|]. split; [exact Hx|]. split; [exact He|exact Hw].
Defined.

(** The process dies right after the broadcast: the world before its next effect. *)
Fixpoint run_until {A} (k n : nat) (p : prog gasless A) (w : world) : world :=
  match k, p with
  | Datatypes.S k, Do e f =>
      let x := answer address_of sha_ callbacks_ policy_ (oracle rich (Ok tt) n) w e in
      run_until k (Datatypes.S n) (f x.1) x.2
  | _, _ => w
  end.

Definition crashed_world : world := run_until 27 0 create_trade_ (start store_).

Lemma crashed_ending :
  ending crashed_world = ([signed_bytes], [(g_broadcast_pending, None)], Some x_queued).
Proof. vm_compute. reflexivity. Qed.

Lemma crashed_keys : keys_ok (w_db crashed_world).
Proof.
  assert (H : exists v r, reservations (w_db crashed_world) = [v] /\ outcomes (w_db crashed_world) = [r] /\
    toLowerCase (o_hash r) = o_hash r)
    by (eexists _, _; split; [vm_compute; reflexivity|]; split; [vm_compute; reflexivity|reflexivity]).
  destruct H as (v & r & E1 & E2 & E3). split; rewrite ?E1, ?E2; try apply NoDup_singleton.
  by constructor.
Qed.

Lemma recovery_confirms_witness :
  exists row n' w' r' h',
    outcomes (w_db crashed_world) = [row] /\ o_status row = g_broadcast_pending /\
    ends address_of sha_ callbacks_ policy_ (oracle rich (Ok tt)) 0 (reconcile (fun _ => true) row)
      crashed_world n' w' (Ok tt) /\
    r' ∈ outcomes (w_db w') /\ o_status r' = g_confirmed /\
    map_get "handoff-1" (handoffs (w_store w')) = Some h' /\ h_executionStatus h' = x_confirmed.
Proof.
  assert (H : exists row h, outcomes (w_db crashed_world) = [row] /\
      map_get "handoff-1" (handoffs (w_store crashed_world)) = Some h /\
      o_status row = g_broadcast_pending /\ o_failureCode row = None /\ o_projected row = None /\
      is_handoff row = true /\ gi_resourceId (o_identity row) = "handoff-1" /\ o_hash row = hash_1 /\
      distinct_keys sha_ row /\ open_handoff h /\
      unrecorded sha_ (recovery_event row ho_confirmation_pending rs_pending None) (w_store crashed_world) /\
      unrecorded sha_ (recovery_event row ho_confirmed rs_pending None) (w_store crashed_world)).
  { eexists _, _. split; [vm_compute; reflexivity|]. split; [vm_compute; reflexivity|].
    do 6 (split; [vm_compute; reflexivity|]).
    split; [vm_compute; discriminate|]. split; [|split; vm_compute; reflexivity].
    split; [|split; discriminate]. cbn. do 2 right. left. }
  destruct H as (row & h & E & Hh & Hs & Hf & Hp & Hk & Hid & Hhash & Hd & Ho & Hu1 & Hu2).
  rewrite <- Hid in Hh.
  assert (Hin : row ∈ outcomes (w_db crashed_world)) by (rewrite E; left).
  assert (Hs' : o_status row ∈ [g_broadcast_pending; g_broadcast_unknown; g_confirmation_pending])
    by (rewrite Hs; left).
  assert (Hf' : o_failureCode row <> Some ORPHANED) by (rewrite Hf; discriminate).
  assert (Hp' : projected_as row g_confirmed = false) by (unfold projected_as; by rewrite Hp).
  assert (Hc : clocked (oracle rich (Ok tt))) by (intros n; by exists 1000).
  destruct (recovery_confirms address_of sha_ callbacks_ policy_ (fun _ => true) (oracle rich (Ok tt)) 0 row
    crashed_world h receipt_ evidence_ crashed_keys Hin Hs' Hf' Hp' Hk eq_refl Hh Ho
    (conj Hu2 (fun _ => conj Hu1 Hd)) Hc
    (fun _ => eq_refl) (fun _ => eq_refl) eq_refl eq_refl)
    as (n' & w' & r' & h' & H1 & H2 & _ & H4 & _ & _ & _ & _ & H9 & H10 & _).
  exists row, n', w', r', h'. rewrite <- Hid. split; [exact E|]. split; [exact Hs|].
    split; [exact H1|]. split; [exact H2|]. split; [exact H4|]. split; [exact H9|exact H10].
Defined.

(** ** The managed signer *)

Definition sample_request : TransactionRequest :=
  {| rq_to := escrow_a; rq_chainId := 84532; rq_value := 0; rq_data := "0x01"; rq_nonce := 7;
     rq_gasLimit := 21000; rq_maxFeePerGas := Some 100; rq_maxPriorityFeePerGas := Some 1;
     rq_gasPrice := None |}.

Definition sample_intent : ManagedSignerTransactionIntent :=
  serializeManagedSignerTransaction "request-1" signer_a sample_request.

Definition sample_response : ManagedSignerResponsePayload :=
  {| rp_requestId := Some (JStr "request-1"); rp_intentHash := Some (JStr hash_2);
     rp_signerAddress := Some (JStr signer_a); rp_signedTransaction := Some (JStr signed_bytes) |}.

Lemma managed_signature_exact_witness :
  canonicalIntent address_of sample_intent = Ok sample_intent /\
  validateManagedSignerResponse address_of keccak_text_ keccak_hex_ transaction_from_ sample_response
    sample_intent = Ok (evidence_of keccak_text_ sample_intent hash_1) /\
  exists t, transaction_from_ signed_bytes = Some t /\ is_intended address_of t sample_intent.
Proof.
  assert (Hc : canonicalIntent address_of sample_intent = Ok sample_intent) by (vm_compute; reflexivity).
  assert (Hv : validateManagedSignerResponse address_of keccak_text_ keccak_hex_ transaction_from_
    sample_response sample_intent = Ok (evidence_of keccak_text_ sample_intent hash_1))
    by (vm_compute; reflexivity).
  split; [exact Hc|]. split; [exact Hv|].
  destruct (proj1 (managed_signature_exact _ _ _ _ address_of_checksummed sample_response sample_intent _ _ Hc) Hv)
    as (_ & _ & _ & s & t & h & Es & _ & Et & _ & Hi & _).
  injection Es as <-. by exists t.
Defined.

(** The same intent, spelled differently. *)
Definition spelled_intent : ManagedSignerTransactionIntent :=
  {| mi_requestId := " request-1 "; mi_signerAddress := signer_a; mi_chainId := 84532; mi_to := escrow_a;
     mi_data := "0x01"; mi_value := "000"; mi_nonce := 7; mi_gasLimit := "021000"; mi_type := 2;
     mi_maxFeePerGasWei := Some "100"; mi_maxPriorityFeePerGasWei := Some "01";
     mi_gasPriceWei := None |}.

Lemma intent_hash_binds_witness :
  exists h, buildManagedSignerIntentHash address_of sha_ sample_intent = Ok h /\
    buildManagedSignerIntentHash address_of sha_ spelled_intent = Ok h /\
    exists e, canonicalIntent address_of sample_intent = Ok e /\ canonicalIntent address_of spelled_intent = Ok e.
Proof.
  assert (H : exists h, buildManagedSignerIntentHash address_of sha_ sample_intent = Ok h /\
    buildManagedSignerIntentHash address_of sha_ spelled_intent = Ok h)
    by (eexists; split; vm_compute; reflexivity).
  destruct H as (h & H1 & H2). exists h. split; [exact H1|]. split; [exact H2|].
  destruct (intent_hash_binds _ _ _ _ _ H1 H2) as [H|(a & b & Hn & E)]; [exact H|].
  by destruct Hn.
Defined.

(** ** Callbacks *)

Definition matched_handoff : SettlementHandoffRecord :=
  {| h_executionBinding := None; h_handoffId := "handoff-1"; h_platformId := "platform";
     h_platformHandoffId := "trade-1"; h_tradeId := "42"; h_phase := "release";
     h_settlementChannel := "onchain"; h_displayCurrency := "USD"; h_displayAmount := "10.5";
     h_assetSymbol := None; h_assetAmount := None; h_ricardianHash := None;
     h_externalReference := None; h_metadata := []; h_executionStatus := x_confirmed;
     h_reconciliationStatus := rs_matched; h_callbackStatus := cb_pending;
     h_providerStatus := None; h_txHash := Some hash_1; h_latestEventId := None;
     h_latestEventType := None; h_latestEventDetail := None; h_latestEventAt := None;
     h_callbackDeliveredAt := None; h_requestId := "handoff-request"; h_sourceApiKeyId := Some "platform";
     h_createdAt := 0; h_updatedAt := 0 |}.

Definition reconciled_event : SettlementExecutionEventRecord :=
  {| ev_eventId := "event-1"; ev_handoffId := "handoff-1"; ev_eventType := e_reconciled;
     ev_executionStatus := x_confirmed; ev_reconciliationStatus := rs_matched;
     ev_providerStatus := None; ev_txHash := Some hash_1; ev_detail := None;
     ev_metadata := [("reconciliationEvidence", JObj
       [("observedAmounts", JObj [("buyerRefundUsd", JStr "0"); ("supplierPayoutUsd", JStr "9.50");
                                  ("treasuryClaimableUsd", JStr "1")]);
        ("schemaVersion", JStr SETTLEMENT_OBSERVED_AMOUNTS_SCHEMA_VERSION)])];
     ev_observedAt := 1000; ev_requestId := "request-2"; ev_sourceApiKeyId := None; ev_createdAt := 1000 |}.

Lemma reconciliation_callback_exact_witness :
  requiresObservedAmounts matched_handoff reconciled_event = true /\
  exists p a, buildCallbackPayload matched_handoff reconciled_event = Ok p /\
    states_amounts (ev_metadata reconciled_event) a /\ supplierPayoutUsd a = "9.50".
Proof.
  split; [vm_compute; reflexivity|].
  assert (H : exists p, buildCallbackPayload matched_handoff reconciled_event = Ok p)
    by (eexists; vm_compute; reflexivity).
  destruct H as (p & Hp). exists p.
  destruct (proj1 (reconciliation_callback_exact matched_handoff reconciled_event p eq_refl) Hp)
    as (a & Ha & _). exists a. split; [exact Hp|]. split; [exact Ha|].
  destruct Ha as (e & m & E1 & _ & _ & E2 & _ & E3 & _). cbn in E1. injection E1 as <-.
  cbn in E2. injection E2 as <-. cbn in E3. by injection E3.
Defined.
