(* ===== verification/SettlementPg.v ===== *)
(** The settlement store of production: gateway/src/core/settlementStore.ts and
    gateway/src/core/settlementCallbackStore.ts on the tables of
    gateway/src/database/schema.sql, with their primary keys, unique indexes and
    row triggers (schema/010, 013, 014 and 015).

    A table is a finite map from its primary key, the event table a list, newest
    row first.  A statement is a function of the tables, and a transaction a
    function into [result]: a throw rolls back.  [NOW()] is the argument [now],
    the time the transaction started.  The columns have the types of the
    TypeScript records, save that an amount is the text of its [NUMERIC] column:
    the store only writes canonical texts of the column's scale, which the
    database returns as they are.  [jsonb] stands for the normal form in which
    the database keeps a JSON document, and [jsonb_text] for its rendering of a
    member that is not a string. *)
From stdpp Require Import base list gmap strings.
From S2P Require Import Prelude JsText JsMap SettlementTypes SettlementMachine SettlementAmount.
From S2P Require Import SettlementStore.

Open Scope string_scope.
Open Scope Z_scope.

(** ** Tables *)

(** A row of [settlement_handoffs]: the record, with the amounts as column texts. *)
Notation SettlementHandoffRow := SettlementHandoffRecord (only parsing).

(** A row of [settlement_execution_events]. *)
Record EventRow := { er_event : SettlementExecutionEventRecord; er_dedupe_key : string }.

Record settlement_db := {
  settlement_handoffs : gmap string SettlementHandoffRow;
  settlement_execution_events : list EventRow;
  settlement_callback_deliveries : gmap string SettlementCallbackDeliveryRecord
}.

Definition empty_settlement_db : settlement_db :=
  {| settlement_handoffs := ∅; settlement_execution_events := [];
     settlement_callback_deliveries := ∅ |}.

Definition with_handoffs (t : gmap string SettlementHandoffRow) (d : settlement_db) : settlement_db :=
  {| settlement_handoffs := t; settlement_execution_events := settlement_execution_events d;
     settlement_callback_deliveries := settlement_callback_deliveries d |}.

Definition with_deliveries (t : gmap string SettlementCallbackDeliveryRecord) (d : settlement_db)
    : settlement_db :=
  {| settlement_handoffs := settlement_handoffs d;
     settlement_execution_events := settlement_execution_events d;
     settlement_callback_deliveries := t |}.

(** An error of the database itself, which the error middleware answers with 500. *)
Definition db_error (message : string) : GatewayError := gatewayError 500 INTERNAL_ERROR message.

(** Equality of two documents in the database's normal form. *)
Fixpoint json_eqb (a b : json) : bool :=
  match a, b with
  | JNull, JNull => true
  | JBool x, JBool y => Bool.eqb x y
  | JNum x, JNum y => x =? y
  | JDec x, JDec y => String.eqb x y
  | JStr x, JStr y => String.eqb x y
  | JArr l, JArr r =>
      (fix go l r := match l, r with
        | [], [] => true
        | x :: l, y :: r => json_eqb x y && go l r
        | _, _ => false
        end) l r
  | JObj f, JObj g =>
      (fix go f g := match f, g with
        | [], [] => true
        | (k, v) :: f, (k', w) :: g => String.eqb k k' && json_eqb v w && go f g
        | _, _ => false
        end) f g
  | _, _ => false
  end.

Section pg.
Context (jsonb : json -> json) (jsonb_fields : list (string * json) -> list (string * json))
  (jsonb_text : json -> string).

(** ** Row triggers *)

(** [binding ->> key] *)
Definition member_text (binding : option json) (key : string) : option string :=
  match binding with
  | Some (JObj fields) =>
      match json_assoc key fields with
      | Some (JStr s) => Some s
      | Some JNull | None => None
      | Some v => Some (jsonb_text v)
      end
  | _ => None
  end.

(** [binding ?& ARRAY[...]] on an object. *)
Definition has_members (binding : option json) (keys : list string) : bool :=
  match binding with
  | Some (JObj fields) => forallb (fun k => includes (map fst fields) k) keys
  | _ => false
  end.

Definition is_object (binding : option json) : bool :=
  match binding with Some (JObj _) => true | _ => false end.

(** [a IS DISTINCT FROM b] on texts *)
Definition distinct_text (a b : option string) : bool := negb (bool_decide (a = b)).

(** [protect_typed_execution_binding] on INSERT *)
Definition typed_binding_missing (r : SettlementHandoffRow) : bool :=
  let b := h_executionBinding r in
  String.eqb (h_phase r) GASLESS &&
  (negb (is_object b)
   || distinct_text (member_text b "scopeVersion") (Some "agroasys.cotsel-execution-binding.v1")
   || negb (bool_decide (is_Some (h_sourceApiKeyId r)))
   || distinct_text (member_text b "ownerServiceId") (h_sourceApiKeyId r)
   || negb (bool_decide (is_Some (h_externalReference r)))
   || distinct_text (member_text b "sourceOperationId") (h_externalReference r)
   || negb (has_members b
        ["packageId"; "approvalScopeFingerprint"; "chainId"; "escrowAddress"; "tokenAddress";
         "buyerAddress"; "supplierAddress"; "ricardianHash"; "totalAmount"; "logisticsAmount";
         "platformFeesAmount"; "supplierFirstTranche"; "supplierSecondTranche"; "expiresAt";
         "buyerAuthorization"; "usdcAuthorization"; "executionScopeHash"])).

(** [require_funded_progression_binding] *)
Definition funded_binding_missing (r : SettlementHandoffRow) : bool :=
  let b := h_executionBinding r in
  includes ["initial_release_after_custody_and_documents"; "inspection_available_standard";
            "inspection_available_packaged_local"; "final_release_after_inspection_acceptance";
            "final_release_after_notice_deadline"; "dispute_resolution"] (h_phase r) &&
  (negb (is_object b)
   || distinct_text (member_text b "scopeVersion") (Some "agroasys.funded-settlement-binding.v1")
   || negb (bool_decide (is_Some (h_sourceApiKeyId r)))
   || distinct_text (member_text b "ownerServiceId") (h_sourceApiKeyId r)
   || distinct_text (member_text b "sourceOperationId") (Some (h_platformHandoffId r))
   || distinct_text (member_text b "tradeId") (Some (h_tradeId r))
   || distinct_text (member_text b "phase") (Some (h_phase r))
   || distinct_text (member_text b "ricardianHash") (h_ricardianHash r)
   || negb (has_members b
        ["chainId"; "escrowAddress"; "tokenAddress"; "buyerAddress"; "supplierAddress";
         "totalAmount"; "logisticsAmount"; "platformFeesAmount"; "supplierFirstTranche";
         "supplierSecondTranche"; "supplierPayoutAmount"; "treasuryAccrualAmount";
         "buyerRefundAmount"; "fundingTransactionHash"; "fundingBlockNumber"; "fundingBlockHash";
         "originalFundingFingerprint"])).

(** [require_user_action_binding] *)
Definition user_action_binding_missing (r : SettlementHandoffRow) : bool :=
  let b := h_executionBinding r in
  String.eqb (h_phase r) "gasless_user_action" &&
  (negb (is_object b)
   || distinct_text (member_text b "scopeVersion") (Some "agroasys.cotsel-user-action-binding.v1")
   || negb (bool_decide (is_Some (h_sourceApiKeyId r)))
   || distinct_text (member_text b "ownerServiceId") (h_sourceApiKeyId r)
   || distinct_text (member_text b "sourceOperationId") (h_externalReference r)
   || negb (bool_decide (is_Some (h_externalReference r)))
   || distinct_text (member_text b "tradeId") (Some (h_tradeId r))
   || distinct_text (member_text b "phase") (Some (h_phase r))
   || negb (has_members b
        ["packageId"; "approvalScopeFingerprint"; "originalFundingFingerprint"; "action";
         "signerRole"; "signerAddress"; "buyerAddress"; "supplierAddress"; "chainId";
         "escrowAddress"; "tokenAddress"; "deploymentIdentity"; "nonce"; "deadline"; "expiresAt";
         "recipient"; "amount"; "totalAmount"; "supplierSecondTranche"; "fundingTransactionHash";
         "fundingBlockNumber"; "fundingBlockHash"; "executionScopeHash"])).

(** The triggers of an INSERT, in the order of their names. *)
Definition handoff_insert_error (r : SettlementHandoffRow) : option string :=
  if funded_binding_missing r then Some "complete_owned_funded_progression_binding_required"
  else if typed_binding_missing r then Some "complete_owned_execution_binding_required"
  else if user_action_binding_missing r then Some "complete_owned_user_action_binding_required"
  else None.

(** The columns the UPDATE triggers protect. *)
Definition protected_columns (r : SettlementHandoffRow) :=
  (h_platformId r, h_platformHandoffId r, h_tradeId r, h_phase r, h_settlementChannel r,
   (h_displayCurrency r, h_displayAmount r, h_assetSymbol r, h_assetAmount r),
   (h_ricardianHash r, h_externalReference r, h_sourceApiKeyId r)).

(** [protect_typed_execution_binding] and [prevent_gasless_handoff_scope_mutation]
    on UPDATE *)
Definition handoff_update_error (old new : SettlementHandoffRow) : option string :=
  let same_protected := bool_decide (protected_columns new = protected_columns old) in
  if includes (map fst (h_metadata old)) "executionScopeHash" &&
     (negb (json_eqb (JObj (h_metadata new)) (JObj (h_metadata old))) || negb same_protected)
  then Some "accepted_gasless_handoff_scope_is_immutable"
  else if negb (match h_executionBinding new, h_executionBinding old with
                | Some a, Some b => json_eqb a b
                | None, None => true
                | _, _ => false
                end)
  then Some "typed_execution_binding_is_immutable"
  else if bool_decide (is_Some (h_executionBinding old)) && negb same_protected
  then Some "typed_execution_binding_identity_is_immutable"
  else None.

(** [UPDATE settlement_handoffs SET ... WHERE handoff_id = $1] *)
Definition update_handoff (id : string) (f : SettlementHandoffRow -> SettlementHandoffRow)
    (d : settlement_db) : result GatewayError settlement_db :=
  match settlement_handoffs d !! id with
  | Some row =>
      match handoff_update_error row (f row) with
      | Some e => Err (db_error e)
      | None => Ok (with_handoffs (<[id := f row]> (settlement_handoffs d)) d)
      end
  | None => Ok d
  end.

(** ** Rows as records *)

Definition with_amounts (r : SettlementHandoffRecord) (display : string) (asset : option string)
    : SettlementHandoffRecord :=
  {| h_executionBinding := h_executionBinding r; h_handoffId := h_handoffId r;
     h_platformId := h_platformId r; h_platformHandoffId := h_platformHandoffId r;
     h_tradeId := h_tradeId r; h_phase := h_phase r; h_settlementChannel := h_settlementChannel r;
     h_displayCurrency := h_displayCurrency r; h_displayAmount := display;
     h_assetSymbol := h_assetSymbol r; h_assetAmount := asset;
     h_ricardianHash := h_ricardianHash r; h_externalReference := h_externalReference r;
     h_metadata := h_metadata r; h_executionStatus := h_executionStatus r;
     h_reconciliationStatus := h_reconciliationStatus r; h_callbackStatus := h_callbackStatus r;
     h_providerStatus := h_providerStatus r; h_txHash := h_txHash r;
     h_latestEventId := h_latestEventId r; h_latestEventType := h_latestEventType r;
     h_latestEventDetail := h_latestEventDetail r; h_latestEventAt := h_latestEventAt r;
     h_callbackDeliveredAt := h_callbackDeliveredAt r; h_requestId := h_requestId r;
     h_sourceApiKeyId := h_sourceApiKeyId r; h_createdAt := h_createdAt r;
     h_updatedAt := h_updatedAt r |}.

Definition mapHandoffRow (row : SettlementHandoffRow) : result GatewayError SettlementHandoffRecord :=
  display ← storedSettlementAmountToNumber (h_displayAmount row) "displayAmount" DISPLAY_AMOUNT_SPEC;
  asset ← match h_assetAmount row with
          | None => Ok None
          | Some a => n ← storedSettlementAmountToNumber a "assetAmount" ASSET_AMOUNT_SPEC; Ok (Some n)
          end;
  Ok (with_amounts row display asset).

(** The amount of a callback body: a number by the digits the database stores. *)
Definition body_amount (v : json) : SettlementAmountInput :=
  match v with
  | JNum z => AmtText (print_Z z)
  | JDec s | JStr s => AmtText s
  | _ => AmtOther
  end.

Definition parseStoredCallbackBody (body : json) : result GatewayError json :=
  let bad := Err (gatewayError 500 INTERNAL_ERROR "Stored settlement callback amount is invalid") in
  match body with
  | JObj fields =>
      match json_assoc "displayAmount" fields with
      | None => Ok body
      | Some v =>
          match parseSettlementAmount (body_amount v) "displayAmount" DISPLAY_AMOUNT_SPEC with
          | Ok _ => Ok body
          | Err _ => bad
          end
      end
  | _ => bad
  end.

Definition mapSettlementCallbackDeliveryRow (row : SettlementCallbackDeliveryRecord)
    : result GatewayError SettlementCallbackDeliveryRecord :=
  _ ← parseStoredCallbackBody (dv_requestBody row); Ok row.

(** [result.rows.map(f)] *)
Fixpoint map_rows {A B} (f : A -> result GatewayError B) (l : list A) : result GatewayError (list B) :=
  match l with
  | [] => Ok []
  | x :: l => y ← f x; r ← map_rows f l; Ok (y :: r)
  end.

Definition map_row {A B} (f : A -> result GatewayError B) (o : option A)
    : result GatewayError (option B) :=
  match o with None => Ok None | Some a => b ← f a; Ok (Some b) end.

(** ** Handoffs *)

(** [getHandoff], and [getHandoffWithClient] inside a transaction *)
Definition pg_getHandoff (handoffId : string) (d : settlement_db)
    : result GatewayError (option SettlementHandoffRecord) :=
  map_row mapHandoffRow (settlement_handoffs d !! handoffId).

Definition findHandoffRowByPlatformRef (platformId platformHandoffId : string) (d : settlement_db)
    : option SettlementHandoffRow :=
  List.find (fun r => String.eqb (h_platformId r) platformId
                      && String.eqb (h_platformHandoffId r) platformHandoffId)
    (map snd (map_to_list (settlement_handoffs d))).

Definition pg_getHandoffByPlatformRef (platformId platformHandoffId : string) (d : settlement_db)
    : result GatewayError (option SettlementHandoffRecord) :=
  map_row mapHandoffRow (findHandoffRowByPlatformRef platformId platformHandoffId d).

(** [if (value)] on a JSON document *)
Definition json_truthy (v : json) : bool :=
  match v with
  | JNull => false
  | JBool b => b
  | JNum z => negb (z =? 0)
  | JStr s => truthy s
  | JDec _ | JArr _ | JObj _ => true
  end.

Definition pg_new_handoff (input : CreateSettlementHandoffInput) (intent : SettlementMonetaryIntent)
    (now : Z) (uuid : string) : SettlementHandoffRow :=
  {| h_handoffId := uuid;
     h_platformId := ci_platformId input;
     h_platformHandoffId := ci_platformHandoffId input;
     h_tradeId := ci_tradeId input;
     h_phase := ci_phase input;
     h_settlementChannel := ci_settlementChannel input;
     h_displayCurrency := ci_displayCurrency input;
     h_displayAmount := mi_displayAmount intent;
     h_assetSymbol := mi_assetSymbol intent;
     h_assetAmount := mi_assetAmount intent;
     h_ricardianHash := or_null (ci_ricardianHash input);
     h_externalReference := or_null (ci_externalReference input);
     h_metadata := jsonb_fields (ci_metadata input);
     h_executionBinding :=
       match or_null (ci_executionBinding input) with
       | Some b => if json_truthy b then Some (jsonb b) else None
       | None => None
       end;
     h_executionStatus := x_pending;
     h_reconciliationStatus := rs_pending;
     h_callbackStatus := cb_pending;
     h_providerStatus := None; h_txHash := None; h_latestEventId := None;
     h_latestEventType := None; h_latestEventDetail := None; h_latestEventAt := None;
     h_callbackDeliveredAt := None;
     h_requestId := ci_requestId input;
     h_sourceApiKeyId := ci_sourceApiKeyId input;
     h_createdAt := now;
     h_updatedAt := now |}.

(** The guards of a creation whose reference is known. *)
Definition pg_check_replay (existing : SettlementHandoffRow) (input : CreateSettlementHandoffInput)
    (intent : SettlementMonetaryIntent) : result GatewayError unit :=
  _ ← throw_if (negb (bool_decide (h_sourceApiKeyId existing = ci_sourceApiKeyId input)))
        (gatewayError 403 FORBIDDEN "Handoff belongs to another service identity");
  _ ← throw_if
        ((bool_decide (is_Some (or_null (ci_executionBinding input)))
          || bool_decide (is_Some (h_executionBinding existing)))
         && (negb (match ci_sourceApiKeyId input with Some k => truthy k | None => false end)
             || negb (strict_eq deep_equal (h_executionBinding existing) (ci_executionBinding input))
             || negb (String.eqb (h_phase existing) (ci_phase input))
             || negb (String.eqb (h_tradeId existing) (ci_tradeId input))
             || negb (strict_eq String.eqb (h_ricardianHash existing) (ci_ricardianHash input))
             || negb (strict_eq String.eqb (h_externalReference existing)
                        (ci_externalReference input))))
        (gatewayError 409 CONFLICT "Handoff key belongs to a different execution binding");
  assertSameMonetaryIntent
    {| mi_displayCurrency := h_displayCurrency existing; mi_displayAmount := h_displayAmount existing;
       mi_assetSymbol := h_assetSymbol existing; mi_assetAmount := h_assetAmount existing |} intent.

(** Two statements: the lookup reads [snapshot], the INSERT runs on [d]. *)
Definition pg_createHandoff (input : CreateSettlementHandoffInput) (now : Z) (uuid : string)
    (snapshot d : settlement_db) : result GatewayError (settlement_db * SettlementHandoffRecord) :=
  intent ← intent_of (ci_displayCurrency input) (ci_displayAmount input) (ci_assetSymbol input)
             (ci_assetAmount input);
  match findHandoffRowByPlatformRef (ci_platformId input) (ci_platformHandoffId input) snapshot with
  | Some existing =>
      _ ← pg_check_replay existing input intent;
      r ← mapHandoffRow existing; Ok (d, r)
  | None =>
      let row := pg_new_handoff input intent now uuid in
      _ ← match handoff_insert_error row with Some e => Err (db_error e) | None => Ok tt end;
      _ ← throw_if (bool_decide (is_Some (settlement_handoffs d !! uuid)))
            (db_error "settlement_handoffs_pkey");
      _ ← throw_if (bool_decide (is_Some (findHandoffRowByPlatformRef (ci_platformId input)
                                            (ci_platformHandoffId input) d)))
            (db_error "settlement_handoffs_platform_id_platform_handoff_id_key");
      r ← mapHandoffRow row;
      Ok (with_handoffs (<[uuid := row]> (settlement_handoffs d)) d, r)
  end.

(** ** Execution events *)

Definition event_row (input : PersistSettlementExecutionEventInput) (now : Z) (uuid : string)
    : EventRow :=
  let e := new_event input now uuid in
  {| er_event :=
       {| ev_eventId := ev_eventId e; ev_handoffId := ev_handoffId e;
          ev_eventType := ev_eventType e; ev_executionStatus := ev_executionStatus e;
          ev_reconciliationStatus := ev_reconciliationStatus e;
          ev_providerStatus := ev_providerStatus e; ev_txHash := ev_txHash e;
          ev_detail := ev_detail e; ev_metadata := jsonb_fields (ev_metadata e);
          ev_observedAt := ev_observedAt e; ev_requestId := ev_requestId e;
          ev_sourceApiKeyId := ev_sourceApiKeyId e; ev_createdAt := ev_createdAt e |};
     er_dedupe_key := pi_dedupeKey input |}.

(** [WHERE handoff_id = $1 AND dedupe_key = $2] *)
Definition same_dedupe (handoffId dedupeKey : string) (e : EventRow) : bool :=
  String.eqb (ev_handoffId (er_event e)) handoffId && String.eqb (er_dedupe_key e) dedupeKey.

Definition createEventWithClient (input : PersistSettlementExecutionEventInput) (now : Z)
    (uuid : string) (d : settlement_db)
    : result GatewayError (settlement_db * SettlementExecutionEventRecord) :=
  let row := event_row input now uuid in
  _ ← throw_if (existsb (fun e => String.eqb (ev_eventId (er_event e)) uuid)
                  (settlement_execution_events d)) (db_error "settlement_execution_events_pkey");
  _ ← throw_if (existsb (same_dedupe (pi_handoffId input) (pi_dedupeKey input))
                  (settlement_execution_events d))
        (db_error "uq_settlement_events_handoff_dedupe_key");
  let d1 := {| settlement_handoffs := settlement_handoffs d;
               settlement_execution_events := row :: settlement_execution_events d;
               settlement_callback_deliveries := settlement_callback_deliveries d |} in
  d2 ← update_handoff (pi_handoffId input) (fun r => apply_event r input uuid now) d1;
  Ok (d2, er_event row).

Definition createCallbackDeliveryWithClient (handoffId eventId : string)
    (callback : SettlementCallbackPlan) (body : json) (now : Z) (uuid : string) (d : settlement_db)
    : result GatewayError (settlement_db * SettlementCallbackDeliveryRecord) :=
  let row := new_delivery handoffId eventId callback (jsonb body) now uuid in
  _ ← throw_if (bool_decide (is_Some (settlement_callback_deliveries d !! uuid)))
        (db_error "settlement_callback_deliveries_pkey");
  let d1 := with_deliveries (<[uuid := row]> (settlement_callback_deliveries d)) d in
  d2 ← (if cp_enabled callback then Ok d1
        else update_handoff handoffId
               (fun r => with_callback r cb_disabled (h_callbackDeliveredAt r) now) d1);
  r ← mapSettlementCallbackDeliveryRow row;
  Ok (d2, r).

(** [WHERE event_id = $1 ORDER BY created_at ASC LIMIT 1] *)
Definition first_delivery (eventId : string) (d : settlement_db)
    : option SettlementCallbackDeliveryRecord :=
  head (js_sort (fun a b => dv_createdAt a <=? dv_createdAt b)
    (List.filter (fun r => String.eqb (dv_eventId r) eventId)
       (map snd (map_to_list (settlement_callback_deliveries d))))).

(** [?? fallback] *)
Definition or_else (o : result GatewayError (option SettlementHandoffRecord))
    (fallback : SettlementHandoffRecord) : result GatewayError SettlementHandoffRecord :=
  r ← o; Ok (default fallback r).

(** The transaction holds the row lock of its handoff from its first statement on,
    so transactions on one handoff follow each other. *)
Definition pg_recordExecutionEvent (input : PersistSettlementExecutionEventInput)
    (callback : SettlementCallbackPlan) (now : Z) (eventUuid deliveryUuid : string)
    (d : settlement_db) : result GatewayError (settlement_db * recorded) :=
  locked ← pg_getHandoff (pi_handoffId input) d;
  match locked with
  | None => Err (gatewayError 404 NOT_FOUND "Settlement handoff not found")
  | Some lockedHandoff =>
      match List.find (same_dedupe (pi_handoffId input) (pi_dedupeKey input))
              (settlement_execution_events d) with
      | Some existing =>
          let event := er_event existing in
          r ← match first_delivery (ev_eventId event) d with
              | Some row => x ← mapSettlementCallbackDeliveryRow row; Ok (d, x)
              | None =>
                  body ← cp_buildRequestBody callback lockedHandoff event;
                  createCallbackDeliveryWithClient (h_handoffId lockedHandoff) (ev_eventId event)
                    callback body now deliveryUuid d
              end;
          current ← or_else (pg_getHandoff (pi_handoffId input) r.1) lockedHandoff;
          Ok (r.1, {| rec_handoff := current; rec_event := event; rec_delivery := r.2 |})
      | None =>
          _ ← validateExecutionTransition (h_executionStatus lockedHandoff)
                (pi_executionStatus input) (pi_eventType input);
          e ← createEventWithClient input now eventUuid d;
          updated ← pg_getHandoff (pi_handoffId input) e.1;
          match updated with
          | None => Err (gatewayError 500 INTERNAL_ERROR
                           "Settlement handoff disappeared after event persistence")
          | Some updatedHandoff =>
              body ← cp_buildRequestBody callback updatedHandoff e.2;
              r ← createCallbackDeliveryWithClient (h_handoffId updatedHandoff) (ev_eventId e.2)
                    callback body now deliveryUuid e.1;
              final ← (if cp_enabled callback then Ok updatedHandoff
                       else or_else (pg_getHandoff (pi_handoffId input) r.1) updatedHandoff);
              Ok (r.1, {| rec_handoff := final; rec_event := e.2; rec_delivery := r.2 |})
          end
      end
  end.

(** [WHERE handoff_id = $1 ORDER BY observed_at DESC, event_id DESC] *)
Definition pg_listExecutionEvents (handoffId : string) (d : settlement_db)
    : list SettlementExecutionEventRecord :=
  js_sort (fun a b => (ev_observedAt b <? ev_observedAt a)
                      || ((ev_observedAt b =? ev_observedAt a)
                          && String.leb (ev_eventId b) (ev_eventId a)))
    (List.filter (fun e => String.eqb (ev_handoffId e) handoffId)
       (map er_event (settlement_execution_events d))).

(** ** Callback deliveries *)

Definition delivery_rows (d : settlement_db) : list SettlementCallbackDeliveryRecord :=
  map snd (map_to_list (settlement_callback_deliveries d)).

(** [ORDER BY COALESCE(lease_expires_at, next_attempt_at), created_at LIMIT $2] *)
Definition pg_getDueCallbackDeliveries (limit now : Z) (d : settlement_db)
    : result GatewayError (list SettlementCallbackDeliveryRecord) :=
  map_rows mapSettlementCallbackDeliveryRow
    (slice 0 limit
       (js_sort (fun a b => (due_at a <? due_at b)
                            || ((due_at a =? due_at b) && (dv_createdAt a <=? dv_createdAt b)))
          (List.filter (delivery_ready now) (delivery_rows d)))).

Definition pg_getCallbackDelivery (deliveryId : string) (d : settlement_db)
    : result GatewayError (option SettlementCallbackDeliveryRecord) :=
  map_row mapSettlementCallbackDeliveryRow (settlement_callback_deliveries d !! deliveryId).

(** [UPDATE settlement_callback_deliveries SET ... WHERE delivery_id = $1 AND guard
    RETURNING] *)
Definition update_delivery (id : string) (guard : SettlementCallbackDeliveryRecord -> bool)
    (f : SettlementCallbackDeliveryRecord -> SettlementCallbackDeliveryRecord) (d : settlement_db)
    : settlement_db * option SettlementCallbackDeliveryRecord :=
  match settlement_callback_deliveries d !! id with
  | Some r => if guard r
              then (with_deliveries (<[id := f r]> (settlement_callback_deliveries d)) d, Some (f r))
              else (d, None)
  | None => (d, None)
  end.

(** The statement commits before its row is read. *)
Definition pg_markCallbackDelivering (deliveryId leaseOwner : string)
    (attemptedAt leaseExpiresAt now : Z) (d : settlement_db)
    : settlement_db * result GatewayError (option SettlementCallbackDeliveryRecord) :=
  let r := update_delivery deliveryId (delivery_ready attemptedAt)
             (fun x => claimed_delivery x leaseOwner attemptedAt leaseExpiresAt now) d in
  (r.1, map_row mapSettlementCallbackDeliveryRow r.2).

(** The second UPDATE of the statement: the handoff of a delivery of its latest event. *)
Definition update_callback_status (row : SettlementCallbackDeliveryRecord)
    (f : SettlementHandoffRow -> SettlementHandoffRow) (d : settlement_db)
    : result GatewayError settlement_db :=
  update_handoff (dv_handoffId row)
    (fun h => if bool_decide (h_latestEventId h = Some (dv_eventId row)) then f h else h) d.

(** One statement: when a trigger refuses the handoff nothing is written. *)
Definition settle_delivery (deliveryId leaseOwner : string)
    (f : SettlementCallbackDeliveryRecord -> SettlementCallbackDeliveryRecord)
    (g : SettlementHandoffRow -> SettlementHandoffRow) (d : settlement_db)
    : settlement_db * result GatewayError bool :=
  match update_delivery deliveryId (holds_lease leaseOwner) f d with
  | (d1, Some row) =>
      match update_callback_status row g d1 with
      | Ok d2 => (d2, Ok true)
      | Err e => (d, Err e)
      end
  | (_, None) => (d, Ok false)
  end.

Definition pg_markCallbackDelivered (deliveryId leaseOwner : string)
    (completedAt responseStatus now : Z) : settlement_db -> settlement_db * result GatewayError bool :=
  settle_delivery deliveryId leaseOwner
    (fun r => delivery_update r dl_delivered (dv_attemptCount r) (dv_nextAttemptAt r)
                (dv_lastAttemptedAt r) (Some completedAt) (Some responseStatus) (dv_lastError r)
                None None now)
    (fun h => with_callback h cb_delivered (Some completedAt) now).

Definition pg_markCallbackFailed (deliveryId leaseOwner : string) (update : FailedUpdate) (now : Z)
    : settlement_db -> settlement_db * result GatewayError bool :=
  settle_delivery deliveryId leaseOwner
    (fun r => delivery_update r (if fu_deadLetter update then dl_dead_letter else dl_failed)
                (dv_attemptCount r) (fu_nextAttemptAt update) (Some (fu_attemptedAt update))
                (dv_deliveredAt r) (fu_responseStatus update) (Some (fu_errorMessage update))
                None None now)
    (fun h => with_callback h (if fu_deadLetter update then cb_dead_letter else cb_failed)
                (h_callbackDeliveredAt h) now).

Definition pg_requeueCallbackDelivery (deliveryId : string) (nextAttemptAt now : Z)
    (d : settlement_db)
    : settlement_db * result GatewayError (option SettlementCallbackDeliveryRecord) :=
  let r := update_delivery deliveryId (fun r => bool_decide (dv_status r = dl_dead_letter))
    (fun r => delivery_update r dl_pending (dv_attemptCount r) nextAttemptAt (dv_lastAttemptedAt r)
                (dv_deliveredAt r) (dv_responseStatus r) (dv_lastError r) None None now) d in
  (r.1, map_row mapSettlementCallbackDeliveryRow r.2).

(** ** Queries over handoffs *)

(** [buildHandoffFilterClause]: an empty trade id filters nothing. *)
Definition handoff_filter (input : ListSettlementHandoffsInput) (r : SettlementHandoffRow) : bool :=
  match li_tradeId input with
  | Some t => if truthy t then String.eqb (h_tradeId r) t else true
  | None => true
  end
  && match li_reconciliationStatus input with
     | Some x => bool_decide (h_reconciliationStatus r = x) | None => true end
  && match li_executionStatus input with
     | Some x => bool_decide (h_executionStatus r = x) | None => true end.

Definition handoff_rows (d : settlement_db) : list SettlementHandoffRow :=
  map snd (map_to_list (settlement_handoffs d)).

(** [updated_at DESC, handoff_id DESC] *)
Definition newest_first (l r : SettlementHandoffRow) : bool :=
  (h_updatedAt r <? h_updatedAt l)
  || ((h_updatedAt r =? h_updatedAt l) && String.leb (h_handoffId r) (h_handoffId l)).

(** Two statements on one state; [MAX(updated_at)] of no rows is null. *)
Definition pg_listHandoffs (input : ListSettlementHandoffsInput) (d : settlement_db)
    : result GatewayError (list SettlementHandoffRecord * Z * option Z) :=
  let rows := List.filter (handoff_filter input) (handoff_rows d) in
  let page := slice (li_offset input) (li_offset input + li_limit input) (js_sort newest_first rows) in
  items ← map_rows mapHandoffRow page;
  Ok (items, Z.of_nat (length rows),
      match map h_updatedAt rows with
      | [] => None
      | t :: ts => Some (foldl Z.max t ts)
      end).

(** [DISTINCT ON (trade_id) ... ORDER BY trade_id, updated_at DESC, handoff_id DESC]:
    the newest handoff of each trade, in the order of the trade ids. *)
Definition newest_of_trade (tradeId : string) (d : settlement_db) : option SettlementHandoffRow :=
  head (js_sort newest_first
          (List.filter (fun r => String.eqb (h_tradeId r) tradeId) (handoff_rows d))).

Definition pg_getTradeSettlementProjectionMap (tradeIds : list string) (d : settlement_db)
    : result GatewayError (jsmap TradeSettlementProjection) :=
  let trades := js_sort String.leb (remove_dups (List.filter (includes tradeIds)
                  (map h_tradeId (handoff_rows d)))) in
  handoffs ← map_rows mapHandoffRow (omap (fun t => newest_of_trade t d) trades);
  Ok (fold_left (fun m h => map_set (h_tradeId h) (project h) m) handoffs []).

End pg.

(** ** Request nonces *)

(** [createGatewayServiceAuthNonceStore]: the rows of [service_auth_nonces] by
    their primary key, each with its expiry. *)
Notation nonces := (gmap (string * string) Z).

(** [DELETE ... WHERE expires_at < NOW()]; [dbNow] is [NOW()] as the column's type
    reads it. *)
Definition cleanupExpiredNonces (dbNow : Z) (t : nonces) : nonces :=
  filter (fun '(_, expires) => dbNow <= expires) t.

(** [INSERT ... ON CONFLICT DO NOTHING], and whether a row was written *)
Definition insert_nonce (apiKey nonce : string) (expiresAt : Z) (t : nonces) : nonces * bool :=
  match t !! (apiKey, nonce) with
  | Some _ => (t, false)
  | None => (<[(apiKey, nonce) := expiresAt]> t, true)
  end.

(** Two statements; [between] is what others did to the table between them. *)
Definition consume (apiKey nonce : string) (ttlSeconds dbNow appNow : Z)
    (between : nonces -> nonces) (t : nonces) : nonces * bool :=
  insert_nonce apiKey nonce (appNow + ttlSeconds * 1000) (between (cleanupExpiredNonces dbNow t)).
