(* ===== verification/SettlementPgInv.v ===== *)
(** The Postgres settlement store refines the reference store: every history of
    its statements and transactions is matched by a history of
    [inMemorySettlementStore.ts], with the same handoffs, events and deliveries.
    What the two do differently is stated in the relation: the mirror of the
    callback status on the handoff after a requeue, the time of the last attempt
    and the row's update time. *)
From stdpp Require Import base list gmap strings.
From S2P Require Import Prelude JsText JsMap SettlementTypes SettlementMachine SettlementAmount.
From S2P Require Import SettlementStore SettlementStoreInv CallbackDispatcher SettlementPg.

Open Scope string_scope.
Open Scope Z_scope.

(** ** The relation *)

(** After a requeue the reference store shows the handoff's callback as pending
    again; the database keeps the dead letter until the next attempt ends. *)
Definition callback_sim (pg mem : SettlementCallbackStatus) : Prop :=
  pg = mem \/ (pg = cb_dead_letter /\ mem = cb_pending).

Definition same_handoff (r h : SettlementHandoffRecord) : Prop :=
  h = with_callback r (h_callbackStatus h) (h_callbackDeliveredAt r) (h_updatedAt h) /\
  callback_sim (h_callbackStatus r) (h_callbackStatus h).

(** A delivery but for the times of its last attempt and of its last change. *)
Definition delivery_core (r : SettlementCallbackDeliveryRecord) :=
  (dv_deliveryId r, dv_handoffId r, dv_eventId r, dv_targetUrl r, dv_requestBody r,
   (dv_status r, dv_attemptCount r, dv_nextAttemptAt r, dv_deliveredAt r, dv_responseStatus r),
   (dv_lastError r, dv_leaseOwner r, dv_leaseExpiresAt r, dv_requestId r, dv_createdAt r)).

Definition same_delivery (r x : SettlementCallbackDeliveryRecord) : Prop :=
  delivery_core x = delivery_core r.

Definition readable (r : SettlementCallbackDeliveryRecord) : Prop :=
  mapSettlementCallbackDeliveryRow r = Ok r.

Definition handoff_sim (row : SettlementHandoffRow) (h : SettlementHandoffRecord) : Prop :=
  exists r, mapHandoffRow row = Ok r /\ same_handoff r h.

Definition delivery_sim (r x : SettlementCallbackDeliveryRecord) : Prop :=
  readable r /\ same_delivery r x.

Definition pg_bucket (d : settlement_db) (id : string) : list SettlementExecutionEventRecord :=
  List.filter (fun e => String.eqb (ev_handoffId e) id)
    (map er_event (settlement_execution_events d)).

(** A dead letter of the latest event shows on the handoff. *)
Definition mirrored (d : settlement_db) : Prop :=
  forall did x row, settlement_callback_deliveries d !! did = Some x ->
    dv_status x = dl_dead_letter ->
    settlement_handoffs d !! dv_handoffId x = Some row ->
    h_latestEventId row = Some (dv_eventId x) -> h_callbackStatus row = cb_dead_letter.

Record simulates (d : settlement_db) (s : store) : Prop := {
  sim_handoffs : forall id,
    option_Forall2 handoff_sim (settlement_handoffs d !! id) (map_get id (handoffs s));
  sim_deliveries : forall id,
    option_Forall2 delivery_sim (settlement_callback_deliveries d !! id) (map_get id (deliveries s));
  sim_events : forall id, pg_bucket d id = bucket s id;
  sim_dedupe : forall hid dk, is_Some (settlement_handoffs d !! hid) ->
    map_get (dedupe_key hid dk) (eventDedupeIndex s) =
    (fun e => ev_eventId (er_event e)) <$>
      List.find (same_dedupe hid dk) (settlement_execution_events d);
  sim_platform : forall id row, settlement_handoffs d !! id = Some row ->
    no_colon (h_platformId row) = true;
  sim_mirror : mirrored d
}.

Lemma option_rel_none {A B} (R : A -> B -> Prop) o : option_Forall2 R None o -> o = None.
Proof. by inversion 1. Qed.

Lemma option_rel_some {A B} (R : A -> B -> Prop) a o :
  option_Forall2 R (Some a) o -> exists b, o = Some b /\ R a b.
Proof. inversion 1; subst. eauto. Qed.

Lemma option_rel_some_r {A B} (R : A -> B -> Prop) o b :
  option_Forall2 R o (Some b) -> exists a, o = Some a /\ R a b.
Proof. inversion 1; subst. eauto. Qed.

(** ** Rows and triggers *)

Lemma json_eqb_refl a : json_eqb a a = true.
Proof.
  revert a. fix IH 1. intros [| b | z | t | s | l | f]; cbn [json_eqb].
  - done.
  - apply eqb_reflx.
  - apply Z.eqb_refl.
  - apply String.eqb_refl.
  - apply String.eqb_refl.
  - induction l as [|x l IHl]; [done|]. by rewrite (IH x), IHl.
  - induction f as [|[k v] f IHf]; [done|]. by rewrite String.eqb_refl, (IH v), IHf.
Qed.

(** No operation of the store changes the columns the triggers protect. *)
Lemma update_handoff_ok id f d :
  (forall r, terms_of (f r) = terms_of r) ->
  update_handoff id f d =
  Ok (match settlement_handoffs d !! id with
      | Some row => with_handoffs (<[id := f row]> (settlement_handoffs d)) d
      | None => d
      end).
Proof.
  intros Hf. unfold update_handoff. destruct (settlement_handoffs d !! id) as [row|]; [|done].
  assert (handoff_update_error row (f row) = None) as ->; [|done].
  specialize (Hf row). unfold terms_of in Hf. unfold handoff_update_error, protected_columns.
  injection Hf as _ -> -> -> -> -> -> -> -> -> -> -> -> -> _ -> _.
  rewrite bool_decide_eq_true_2, json_eqb_refl, andb_false_r by done. cbn.
  destruct (h_executionBinding row); [by rewrite json_eqb_refl | done].
Qed.

Lemma mapHandoffRow_comm (f : SettlementHandoffRecord -> SettlementHandoffRecord) row r :
  h_displayAmount (f row) = h_displayAmount row -> h_assetAmount (f row) = h_assetAmount row ->
  (forall a b, with_amounts (f row) a b = f (with_amounts row a b)) ->
  mapHandoffRow row = Ok r -> mapHandoffRow (f row) = Ok (f r).
Proof.
  intros H1 H2 H3. unfold mapHandoffRow. rewrite H1, H2. intros H.
  apply bind_ok in H as (a & -> & H). apply bind_ok in H as (b & Hb & [= <-]).
  cbn. rewrite Hb. cbn. by rewrite H3.
Qed.

Lemma map_apply_event row r input e now :
  mapHandoffRow row = Ok r ->
  mapHandoffRow (apply_event row input e now) = Ok (apply_event r input e now).
Proof. by apply (mapHandoffRow_comm (fun r => apply_event r input e now)). Qed.

Lemma map_with_callback row r st f now :
  (forall a b, f (with_amounts row a b) = f row) ->
  mapHandoffRow row = Ok r ->
  mapHandoffRow (with_callback row st (f row) now) = Ok (with_callback r st (f r) now).
Proof.
  intros Hf. apply (mapHandoffRow_comm (fun r => with_callback r st (f r) now)); [done..|].
  intros a b. by rewrite Hf.
Qed.

Lemma mapHandoffRow_fields row r :
  mapHandoffRow row = Ok r -> exists a b, r = with_amounts row a b.
Proof.
  unfold mapHandoffRow. intros H. apply bind_ok in H as (a & _ & H).
  apply bind_ok in H as (b & _ & [= <-]). eauto.
Qed.

(** What the two stores agree on about a handoff. *)
Lemma handoff_sim_fields row h :
  handoff_sim row h ->
  h_handoffId h = h_handoffId row /\ h_platformId h = h_platformId row /\
  h_platformHandoffId h = h_platformHandoffId row /\
  h_executionStatus h = h_executionStatus row /\ h_latestEventId h = h_latestEventId row /\
  h_callbackDeliveredAt h = h_callbackDeliveredAt row /\
  callback_sim (h_callbackStatus row) (h_callbackStatus h).
Proof.
  intros (r & Hr & -> & Hc). apply mapHandoffRow_fields in Hr as (a & b & ->). by split_and!.
Qed.

Lemma handoff_sim_apply row h input e now :
  handoff_sim row h -> handoff_sim (apply_event row input e now) (apply_event h input e now).
Proof.
  intros (r & Hr & Hh & Hc). exists (apply_event r input e now).
  split; [by apply map_apply_event|]. split; [rewrite Hh; done|]. cbn.
  destruct Hc as [->|[-> ->]]; [by left | by left].
Qed.

Lemma handoff_sim_callback row h st da n1 n2 :
  handoff_sim row h ->
  handoff_sim (with_callback row st da n1) (with_callback h st da n2).
Proof.
  intros (r & Hr & Hh & _). exists (with_callback r st da n1). split.
  - by apply (map_with_callback row r st (fun _ => da) n1).
  - split; [rewrite Hh; done | by left].
Qed.

(** ** Steps *)

Section refinement.
Context (jsonb : json -> json) (jsonb_fields : list (string * json) -> list (string * json))
  (jsonb_text : json -> string).
Notation pg_create := (pg_createHandoff jsonb jsonb_fields jsonb_text).
Notation pg_record := (pg_recordExecutionEvent jsonb jsonb_fields).

(** A random identifier that nothing in the database uses yet. *)
Definition pg_fresh (d : settlement_db) (u : string) : Prop :=
  truthy u = true /\ no_colon u = true /\
  settlement_handoffs d !! u = None /\ settlement_callback_deliveries d !! u = None /\
  forall e, e ∈ settlement_execution_events d -> ev_eventId (er_event e) <> u.

(** One statement or transaction of some gateway process.  The lookup of a creation
    may have read any earlier state; platform ids have no colon, which the
    reference store uses to join its keys. *)
Inductive pg_step (d : settlement_db) : settlement_db -> Prop :=
| pg_step_create input now uuid snapshot d' r :
    pg_fresh d uuid -> no_colon (ci_platformId input) = true ->
    pg_create input now uuid snapshot d = Ok (d', r) -> pg_step d d'
| pg_step_record input cb now u1 u2 d' r :
    pg_fresh d u1 -> pg_fresh d u2 -> pg_record input cb now u1 u2 d = Ok (d', r) -> pg_step d d'
| pg_step_delivering did owner att lease now :
    pg_step d (pg_markCallbackDelivering did owner att lease now d).1
| pg_step_delivered did owner at_ rs now :
    pg_step d (pg_markCallbackDelivered did owner at_ rs now d).1
| pg_step_failed did owner upd now :
    pg_step d (pg_markCallbackFailed did owner upd now d).1
| pg_step_requeue did at_ now :
    pg_step d (pg_requeueCallbackDelivery did at_ now d).1.

Definition pg_reachable (d : settlement_db) : Prop := rtc pg_step empty_settlement_db d.

Lemma fresh_sim d s u : simulates d s -> pg_fresh d u -> fresh_uuid s u.
Proof.
  intros S (Ht & Hc & Hh & Hd & He). split_and!; [done..| | |].
  - eapply option_rel_none. rewrite <- Hh. apply S.
  - eapply option_rel_none. rewrite <- Hd. apply S.
  - intros id e Hin. rewrite <- (sim_events _ _ S id) in Hin.
    apply list_elem_of_In, filter_In in Hin as [Hin _].
    apply list_elem_of_In, list_elem_of_fmap in Hin as (r & -> & Hin). by apply He.
Qed.

(** A handoff that does not exist has no events. *)
Lemma unknown_bucket s id : wf s -> map_get id (handoffs s) = None -> bucket s id = [].
Proof.
  intros W Hn. destruct (wf_buckets s W id) as (Hb & _). destruct (bucket s id); [done|].
  destruct Hb as [? ?]; [done|]. congruence.
Qed.

Lemma unknown_dedupe s id dk :
  wf s -> no_colon id = true -> map_get id (handoffs s) = None ->
  map_get (dedupe_key id dk) (eventDedupeIndex s) = None.
Proof.
  intros W Hc Hn. destruct (map_get (dedupe_key id dk) _) as [eid|] eqn:Hk; [|done]. exfalso.
  destruct (wf_dedupe s W _ _ Hk) as (hid & dk' & e & Hc' & Heq & He & _).
  apply dedupe_key_inj in Heq as [<- _]; [|done..].
  rewrite (unknown_bucket s id W Hn) in He. by apply not_elem_of_nil in He.
Qed.

Lemma find_dedupe_bucket d hid dk e :
  List.find (same_dedupe hid dk) (settlement_execution_events d) = Some e ->
  er_event e ∈ pg_bucket d hid /\ ev_handoffId (er_event e) = hid /\ er_dedupe_key e = dk /\
  e ∈ settlement_execution_events d.
Proof.
  intros [Hin H]%find_some_elem. apply andb_true_iff in H as [H1%String.eqb_eq H2%String.eqb_eq].
  split_and!; [|done..]. apply list_elem_of_In, filter_In.
  split; [by apply list_elem_of_In, list_elem_of_fmap_2 | by apply String.eqb_eq].
Qed.

(** ** Creation *)

(** The input as the database keeps it. *)
Definition stored_input (input : CreateSettlementHandoffInput) : CreateSettlementHandoffInput :=
  {| ci_executionBinding :=
       match or_null (ci_executionBinding input) with
       | Some b => if json_truthy b then Given (jsonb b) else Null
       | None => Null
       end;
     ci_platformId := ci_platformId input; ci_platformHandoffId := ci_platformHandoffId input;
     ci_tradeId := ci_tradeId input; ci_phase := ci_phase input;
     ci_settlementChannel := ci_settlementChannel input;
     ci_displayCurrency := ci_displayCurrency input; ci_displayAmount := ci_displayAmount input;
     ci_assetSymbol := ci_assetSymbol input; ci_assetAmount := ci_assetAmount input;
     ci_ricardianHash := ci_ricardianHash input;
     ci_externalReference := ci_externalReference input;
     ci_metadata := jsonb_fields (ci_metadata input); ci_requestId := ci_requestId input;
     ci_sourceApiKeyId := ci_sourceApiKeyId input |}.

Lemma stored_number v field spec c :
  (0 < scale spec)%nat -> parseSettlementAmount v field spec = Ok c ->
  storedSettlementAmountToNumber c field spec = Ok (settlementAmountToNumber c).
Proof.
  intros Hs H. unfold storedSettlementAmountToNumber.
  by rewrite (parse_canonical_id spec c field Hs (parse_canonical _ _ _ _ H)).
Qed.

Lemma new_row_sim input intent now u :
  intent_of (ci_displayCurrency input) (ci_displayAmount input) (ci_assetSymbol input)
    (ci_assetAmount input) = Ok intent ->
  handoff_sim (pg_new_handoff jsonb jsonb_fields input intent now u)
    (new_handoff (stored_input input) intent now u).
Proof.
  intros Hi. exists (new_handoff (stored_input input) intent now u). split.
  - unfold intent_of in Hi. apply bind_ok in Hi as (c & Hc & Hi).
    apply bind_ok in Hi as (a & Ha & [= <-]). unfold mapHandoffRow. cbn.
    rewrite (stored_number _ _ DISPLAY_AMOUNT_SPEC _ ltac:(cbn; lia) Hc). cbn. unfold parseOptionalSettlementAmount in Ha.
    assert (h_executionBinding (pg_new_handoff jsonb jsonb_fields input
      {| mi_displayCurrency := ci_displayCurrency input; mi_displayAmount := c;
         mi_assetSymbol := ci_assetSymbol input; mi_assetAmount := a |} now u) =
      or_null (ci_executionBinding (stored_input input))) as Hb.
    { cbn. destruct (or_null (ci_executionBinding input)) as [b|]; [by destruct (json_truthy b)|done]. }
    destruct (ci_assetAmount input) as [v|].
    + apply bind_ok in Ha as (c' & Hc' & [= <-]). rewrite (stored_number _ _ ASSET_AMOUNT_SPEC _ ltac:(cbn; lia) Hc').
      unfold new_handoff, with_amounts. rewrite <- Hb. done.
    + injection Ha as <-. unfold new_handoff, with_amounts. rewrite <- Hb. done.
  - split; [done | by left].
Qed.

Lemma find_platform_none d pid phid id row :
  findHandoffRowByPlatformRef pid phid d = None -> settlement_handoffs d !! id = Some row ->
  h_platformId row = pid -> h_platformHandoffId row = phid -> False.
Proof.
  unfold findHandoffRowByPlatformRef. intros H Hr <- <-.
  eapply find_none_elem in H; [|apply (list_elem_of_fmap_2' snd _ (id, row)); [|done];
    by apply elem_of_map_to_list].
  by rewrite !String.eqb_refl in H.
Qed.

Lemma platform_fresh d s pid phid :
  wf s -> simulates d s -> no_colon pid = true -> findHandoffRowByPlatformRef pid phid d = None ->
  map_get (platform_key pid phid) (platformIndex s) = None.
Proof.
  intros W S Hp Hn. destruct (map_get _ (platformIndex s)) as [id|] eqn:Hk; [|done]. exfalso.
  destruct (wf_index s W _ _ Hk) as (_ & h & Hh & Hkey).
  pose proof (sim_handoffs _ _ S id) as Hs. rewrite Hh in Hs.
  apply option_rel_some_r in Hs as (row & Hr & Hsim).
  destruct (handoff_sim_fields _ _ Hsim) as (_ & E1 & E2 & _).
  unfold key_of, platform_key in Hkey. rewrite E1, E2 in Hkey.
  apply split_at_sep in Hkey as [? ?]; [|exact (sim_platform _ _ S _ _ Hr) | exact Hp].
  by eapply find_platform_none.
Qed.

Lemma create_sim input now u snapshot d d' r s :
  wf s -> simulates d s -> pg_fresh d u -> no_colon (ci_platformId input) = true ->
  pg_create input now u snapshot d = Ok (d', r) ->
  exists s', rtc step s s' /\ simulates d' s'.
Proof.
  intros W S F Hp H. unfold pg_createHandoff in H. apply bind_ok in H as (intent & Hi & H).
  destruct (findHandoffRowByPlatformRef _ _ snapshot) as [ex|].
  { apply bind_ok in H as ([] & _ & H). apply bind_ok in H as (? & _ & [= <- _]). by exists s. }
  apply bind_ok in H as ([] & _ & H). apply throw_if_bind in H as [_ H].
  apply throw_if_bind in H as [Hn H]. apply bind_ok in H as (r' & Hr' & [= <- _]).
  assert (findHandoffRowByPlatformRef (ci_platformId input) (ci_platformHandoffId input) d = None) as Hnone.
  { apply bool_decide_eq_false in Hn. destruct (findHandoffRowByPlatformRef _ _ d); [|done].
    by destruct Hn. }
  pose proof (platform_fresh _ _ _ _ W S Hp Hnone) as Hk.
  eexists. split.
  - apply rtc_once. eapply (step_create s (stored_input input) now u); [by eapply fresh_sim|].
    unfold createHandoff. cbn [ci_displayCurrency ci_displayAmount ci_assetSymbol ci_assetAmount
      stored_input ci_platformId ci_platformHandoffId]. rewrite Hi. cbn. rewrite Hk. reflexivity.
  - destruct F as (_ & Fc & Fh & _ & _). destruct S as [S1 S2 S3 S4 S5 S6]. split; try done.
    + intros id. cbn. rewrite map_get_set_case. destruct (String.eqb_spec u id) as [<-|Hne].
      * rewrite lookup_insert_eq. constructor. by apply new_row_sim.
      * rewrite lookup_insert_ne by done. apply S1.
    + intros hid dk. cbn. destruct (decide (hid = u)) as [->|Hne].
      2: { rewrite lookup_insert_ne by done. apply S4. }
      intros _. pose proof (S1 u) as Hu. rewrite Fh in Hu. apply option_rel_none in Hu as Hno.
      rewrite (unknown_dedupe s u dk W Fc Hno).
      destruct (List.find _ _) as [e|] eqn:He; [|done]. exfalso.
      apply find_dedupe_bucket in He as (He & _).
      rewrite S3, (unknown_bucket s u W Hno) in He. by apply not_elem_of_nil in He.
    + intros id row. cbn. destruct (decide (id = u)) as [->|Hne].
      * rewrite lookup_insert_eq. by intros [= <-].
      * rewrite lookup_insert_ne by done. apply S5.
    + intros did x row Hx Hst. cbn. destruct (decide (dv_handoffId x = u)) as [->|Hne].
      * rewrite lookup_insert_eq. by intros [= <-].
      * rewrite lookup_insert_ne by done. by apply (S6 did).
Qed.

(** ** Recording *)

(** The event input as the database keeps it, and a plan that builds this body. *)
Definition stored_event (input : PersistSettlementExecutionEventInput)
    : PersistSettlementExecutionEventInput :=
  {| pi_handoffId := pi_handoffId input; pi_eventType := pi_eventType input;
     pi_executionStatus := pi_executionStatus input;
     pi_reconciliationStatus := pi_reconciliationStatus input;
     pi_providerStatus := pi_providerStatus input; pi_txHash := pi_txHash input;
     pi_detail := pi_detail input; pi_metadata := jsonb_fields (pi_metadata input);
     pi_observedAt := pi_observedAt input; pi_requestId := pi_requestId input;
     pi_sourceApiKeyId := pi_sourceApiKeyId input; pi_dedupeKey := pi_dedupeKey input |}.

Definition plan_with_body (callback : SettlementCallbackPlan) (body : json) : SettlementCallbackPlan :=
  {| cp_targetUrl := cp_targetUrl callback; cp_requestId := cp_requestId callback;
     cp_enabled := cp_enabled callback; cp_nextAttemptAt := cp_nextAttemptAt callback;
     cp_buildRequestBody := fun _ _ => Ok body |}.

Lemma pg_getHandoff_sim d s id row :
  simulates d s -> settlement_handoffs d !! id = Some row ->
  exists r h, pg_getHandoff id d = Ok (Some r) /\ mapHandoffRow row = Ok r /\
    map_get id (handoffs s) = Some h /\ handoff_sim row h.
Proof.
  intros S Hr. pose proof (sim_handoffs _ _ S id) as H. rewrite Hr in H.
  apply option_rel_some in H as (h & Hh & r & Hm & Hsame). exists r, h.
  unfold pg_getHandoff. rewrite Hr. cbn. rewrite Hm. split_and!; try done. by exists r.
Qed.

(** An event the database knows has its delivery there. *)
Lemma first_delivery_some d s id e :
  wf s -> simulates d s -> e ∈ pg_bucket d id -> exists row, first_delivery (ev_eventId e) d = Some row.
Proof.
  intros W S He. rewrite (sim_events _ _ S) in He.
  destruct (wf_has_delivery s W id e He) as (did & x & Hx & Hxe).
  pose proof (sim_deliveries _ _ S did) as H. rewrite Hx in H.
  apply option_rel_some_r in H as (row & Hr & _ & Hs).
  assert (row ∈ js_sort (fun a b => dv_createdAt a <=? dv_createdAt b)
    (List.filter (fun r => String.eqb (dv_eventId r) (ev_eventId e)) (delivery_rows d))) as Hin.
  { rewrite js_sort_Permutation. apply list_elem_of_In, filter_In. split.
    - apply list_elem_of_In, (list_elem_of_fmap_2' snd _ (did, row)); [|done].
      by apply elem_of_map_to_list.
    - apply String.eqb_eq. rewrite <- Hxe. unfold same_delivery, delivery_core in Hs. congruence. }
  unfold first_delivery. change (map snd _) with (delivery_rows d).
  destruct (js_sort _ _) as [|x0 l]; [by apply not_elem_of_nil in Hin | by exists x0].
Qed.

(** The transaction either finds the event and changes nothing, or adds it. *)
Lemma pg_record_cases input cb now u1 u2 d d' r s :
  wf s -> simulates d s -> pg_fresh d u1 -> pg_fresh d u2 ->
  pg_record input cb now u1 u2 d = Ok (d', r) ->
  d' = d \/
  exists row body, settlement_handoffs d !! pi_handoffId input = Some row /\
    List.find (same_dedupe (pi_handoffId input) (pi_dedupeKey input))
      (settlement_execution_events d) = None /\
    validateExecutionTransition (h_executionStatus row) (pi_executionStatus input)
      (pi_eventType input) = Ok tt /\
    let x := new_delivery (pi_handoffId input) u1 cb (jsonb body) now u2 in
    readable x /\
    d' = {| settlement_handoffs :=
              <[pi_handoffId input :=
                  let r := apply_event row input u1 now in
                  if cp_enabled cb then r
                  else with_callback r cb_disabled (h_callbackDeliveredAt r) now]>
                (settlement_handoffs d);
            settlement_execution_events :=
              event_row jsonb_fields input now u1 :: settlement_execution_events d;
            settlement_callback_deliveries := <[u2 := x]> (settlement_callback_deliveries d) |}.
Proof.
  intros W S F1 F2 H. unfold pg_recordExecutionEvent in H. apply bind_ok in H as (locked & Hl & H).
  destruct (settlement_handoffs d !! pi_handoffId input) as [row|] eqn:Hr.
  2: { unfold pg_getHandoff in Hl. rewrite Hr in Hl. injection Hl as <-. done. }
  destruct (pg_getHandoff_sim d s _ _ S Hr) as (lr & h & Hg & Hm & Hh & Hsim).
  rewrite Hg in Hl. injection Hl as <-.
  destruct (List.find _ _) as [ex|] eqn:Hf.
  - left. apply find_dedupe_bucket in Hf as (He & _).
    destruct (first_delivery_some d s _ _ W S He) as [dr Hd]. rewrite Hd in H.
    apply bind_ok in H as ([d1 x] & Hx & H). apply bind_ok in Hx as (y & _ & [= <- _]).
    apply bind_ok in H as (c & _ & [= <- _]). done.
  - right. destruct (mapHandoffRow_fields _ _ Hm) as (a & b & ->).
    apply bind_ok in H as ([] & Hv & H). apply bind_ok in H as ([d1 e] & He & H).
    unfold createEventWithClient in He. apply throw_if_bind in He as [_ He].
    apply throw_if_bind in He as [_ He]. rewrite update_handoff_ok in He by done. cbn in He.
    rewrite Hr in He. injection He as <- <-. cbn [fst snd] in H.
    apply bind_ok in H as (upd & Hu & H). unfold pg_getHandoff in Hu. cbn in Hu.
    rewrite lookup_insert_eq in Hu. cbn in Hu. rewrite (map_apply_event _ _ _ _ _ Hm) in Hu.
    injection Hu as <-. apply bind_ok in H as (body & _ & H).
    apply bind_ok in H as ([d2 x] & Hx & H). cbn [fst snd] in H.
    apply bind_ok in H as (fin & _ & [= <- _]).
    unfold createCallbackDeliveryWithClient in Hx. apply throw_if_bind in Hx as [_ Hx].
    apply bind_ok in Hx as (d3 & Hd3 & Hx). apply bind_ok in Hx as (y & Hy & [= <- _]).
    destruct (handoff_sim_fields _ _ Hsim) as (Hid & _).
    destruct (wf_handoffs s W _ _ Hh) as (Hid' & _).
    assert (h_handoffId row = pi_handoffId input) as Hrow by congruence.
    exists row, body. cbv zeta. split_and!; [done..| |].
    + cbn in Hy. rewrite Hrow in Hy. unfold readable, mapSettlementCallbackDeliveryRow in *.
      apply bind_ok in Hy as (? & Hb & _). cbn in Hb |- *. by rewrite Hb.
    + cbn in Hd3. rewrite Hrow in Hd3. destruct (cp_enabled cb).
      * injection Hd3 as <-. done.
      * rewrite update_handoff_ok in Hd3 by done. cbn in Hd3. rewrite lookup_insert_eq in Hd3.
        injection Hd3 as <-. unfold with_handoffs, with_deliveries. cbn. by rewrite insert_insert_eq.
Qed.

Lemma mem_record input cb body now u1 u2 s h :
  map_get (pi_handoffId input) (handoffs s) = Some h ->
  map_get (dedupe_key (pi_handoffId input) (pi_dedupeKey input)) (eventDedupeIndex s) = None ->
  validateExecutionTransition (h_executionStatus h) (pi_executionStatus input)
    (pi_eventType input) = Ok tt ->
  exists r, recordExecutionEvent (stored_event input) (plan_with_body cb (jsonb body)) now u1 u2 s =
    Ok (add_event s (pi_handoffId input) (dedupe_key (pi_handoffId input) (pi_dedupeKey input))
          (let uh := apply_event h input u1 now in
           if cp_enabled cb then uh
           else with_callback uh cb_disabled (h_callbackDeliveredAt uh) now)
          (er_event (event_row jsonb_fields input now u1))
          (new_delivery (pi_handoffId input) u1 cb (jsonb body) now u2), r).
Proof.
  intros Hh Hk Hv. unfold recordExecutionEvent.
  cbn [stored_event pi_handoffId pi_dedupeKey pi_executionStatus pi_eventType].
  rewrite Hh, Hk. cbn [mbind option_bind]. rewrite Hv. eexists. reflexivity.
Qed.

(** What recording adds is the same on both sides. *)
Lemma record_simulates d s hid row h input cb body now u1 u2 :
  wf s -> simulates d s -> pg_fresh d u1 -> pg_fresh d u2 -> pi_handoffId input = hid ->
  settlement_handoffs d !! hid = Some row -> map_get hid (handoffs s) = Some h ->
  handoff_sim row h ->
  let x := new_delivery hid u1 cb (jsonb body) now u2 in
  let final r := if cp_enabled cb then apply_event r input u1 now
                 else with_callback (apply_event r input u1 now) cb_disabled
                        (h_callbackDeliveredAt r) now in
  readable x ->
  simulates
    {| settlement_handoffs := <[hid := final row]> (settlement_handoffs d);
       settlement_execution_events :=
         event_row jsonb_fields input now u1 :: settlement_execution_events d;
       settlement_callback_deliveries := <[u2 := x]> (settlement_callback_deliveries d) |}
    (add_event s hid (dedupe_key hid (pi_dedupeKey input)) (final h)
       (er_event (event_row jsonb_fields input now u1)) x).
Proof.
  intros W S F1 F2 Hin Hr Hh Hsim x final Hread.
  destruct (handoff_sim_fields _ _ Hsim) as (_ & _ & _ & _ & _ & Hda & _).
  destruct (wf_handoffs s W _ _ Hh) as (_ & Hcol & _).
  assert (handoff_sim (final row) (final h)) as Hfinal.
  { unfold final. rewrite Hda. destruct (cp_enabled cb); [by apply handoff_sim_apply|].
    by apply handoff_sim_callback, handoff_sim_apply. }
  destruct S as [S1 S2 S3 S4 S5 S6]. split.
  - intros id. cbn. rewrite map_get_set_case. destruct (String.eqb_spec hid id) as [<-|Hne].
    + rewrite lookup_insert_eq. by constructor.
    + rewrite lookup_insert_ne by done. apply S1.
  - intros id. cbn. rewrite map_get_set_case. destruct (String.eqb_spec u2 id) as [<-|Hne].
    + rewrite lookup_insert_eq. constructor. by split.
    + rewrite lookup_insert_ne by done. apply S2.
  - intros id. rewrite bucket_add_event, <- !S3. unfold pg_bucket. cbn. rewrite Hin.
    by destruct (String.eqb_spec hid id) as [<-|].
  - intros hid' dk'. cbn. rewrite map_get_set_case. unfold same_dedupe at 1. cbn. rewrite Hin.
    destruct (String.eqb_spec (dedupe_key hid (pi_dedupeKey input)) (dedupe_key hid' dk')) as [He|He].
    + intros Hsome. assert (no_colon hid' = true) as Hc'.
      { destruct (decide (hid' = hid)) as [->|Hne]; [done|].
        rewrite lookup_insert_ne in Hsome by done. destruct Hsome as [row' Hr'].
        pose proof (S1 hid') as Hs. rewrite Hr' in Hs. apply option_rel_some in Hs as (h' & Hh' & _).
        apply (wf_handoffs s W _ _ Hh'). }
      apply dedupe_key_inj in He as [-> ->]; [|done..]. by rewrite !String.eqb_refl.
    + intros Hsome. destruct (String.eqb_spec hid hid') as [<-|Hne]; cbn [andb].
      * destruct (String.eqb_spec (pi_dedupeKey input) dk') as [<-|]; [done|]. by apply S4.
      * rewrite lookup_insert_ne in Hsome by done. by apply S4.
  - intros id row'. cbn. destruct (decide (id = hid)) as [->|Hne].
    + rewrite lookup_insert_eq. intros [= <-]. unfold final.
      by destruct (cp_enabled cb); apply (S5 hid row Hr).
    + rewrite lookup_insert_ne by done. apply S5.
  - intros did y row' Hy Hst Hrow Hlat. cbn in Hy, Hrow.
    destruct (decide (did = u2)) as [->|Hne].
    { rewrite lookup_insert_eq in Hy. injection Hy as <-. cbn in Hst. by destruct (cp_enabled cb). }
    rewrite lookup_insert_ne in Hy by done.
    destruct (decide (dv_handoffId y = hid)) as [He|He].
    2: { rewrite lookup_insert_ne in Hrow by done. by eapply (S6 did). }
    rewrite He, lookup_insert_eq in Hrow. injection Hrow as <-. exfalso.
    assert (dv_eventId y = u1) as Hev.
    { unfold final in Hlat. destruct (cp_enabled cb); cbn in Hlat; congruence. }
    pose proof (S2 did) as Hs. rewrite Hy in Hs. apply option_rel_some in Hs as (z & Hz & _ & Hyz).
    destruct (wf_deliveries s W _ _ Hz) as (_ & _ & e & Hin' & He').
    rewrite <- S3 in Hin'. apply list_elem_of_In, filter_In in Hin' as [Hin' _].
    apply list_elem_of_In, list_elem_of_fmap in Hin' as (er & -> & Her).
    destruct F1 as (_ & _ & _ & _ & F1). apply (F1 er Her).
    unfold same_delivery, delivery_core in Hyz. congruence.
Qed.

Lemma record_sim input cb now u1 u2 d d' r s :
  wf s -> simulates d s -> pg_fresh d u1 -> pg_fresh d u2 ->
  pg_record input cb now u1 u2 d = Ok (d', r) ->
  exists s', rtc step s s' /\ simulates d' s'.
Proof.
  intros W S F1 F2 H.
  destruct (pg_record_cases _ _ _ _ _ _ _ _ _ W S F1 F2 H)
    as [->|(row & body & Hr & Hf & Hv & Hread & ->)]; [by exists s|].
  destruct (pg_getHandoff_sim d s _ _ S Hr) as (lr & h & _ & _ & Hh & Hsim).
  destruct (handoff_sim_fields _ _ Hsim) as (_ & _ & _ & Hst & _).
  destruct (mem_record input cb body now u1 u2 s h Hh) as [rr Hm].
  - rewrite (sim_dedupe _ _ S) by eauto. by rewrite Hf.
  - by rewrite Hst.
  - eexists. split.
    + apply rtc_once.
      eapply (step_record s _ _ now u1 u2); [by apply (fresh_sim d) | by apply (fresh_sim d) | exact Hm].
    + by apply (record_simulates d s (pi_handoffId input) row h input cb body now u1 u2).
Qed.

(** ** Deliveries *)

Lemma delivery_found d s did r :
  simulates d s -> settlement_callback_deliveries d !! did = Some r ->
  exists x, map_get did (deliveries s) = Some x /\ delivery_sim r x.
Proof.
  intros S Hr. pose proof (sim_deliveries _ _ S did) as H. rewrite Hr in H.
  by apply option_rel_some in H.
Qed.

Lemma delivery_absent d s did :
  simulates d s -> settlement_callback_deliveries d !! did = None -> map_get did (deliveries s) = None.
Proof. intros S Hr. eapply option_rel_none. rewrite <- Hr. apply S. Qed.

Lemma delivery_sim_guards r x now owner :
  delivery_sim r x ->
  delivery_ready now x = delivery_ready now r /\ holds_lease owner x = holds_lease owner r /\
  dv_status x = dv_status r /\ dv_handoffId x = dv_handoffId r /\ dv_eventId x = dv_eventId r.
Proof.
  intros [_ H]. unfold same_delivery, delivery_core in H.
  injection H as _ -> -> _ _ Hst _ Hn _ _ _ Ho Hx _ _.
  unfold delivery_ready, holds_lease. by rewrite Hst, Hn, Ho, Hx.
Qed.

(** The same change keeps two deliveries the same. *)
Lemma delivery_sim_update r x r' x' :
  delivery_sim r x -> dv_requestBody r' = dv_requestBody r ->
  (delivery_core x = delivery_core r -> delivery_core x' = delivery_core r') -> delivery_sim r' x'.
Proof.
  intros [Hr Hs] Hb H. split; [|by apply H]. unfold readable, mapSettlementCallbackDeliveryRow in *.
  rewrite Hb. apply bind_ok in Hr as (y & -> & _). done.
Qed.

(** One delivery of the latest event per handoff: the others are of other events. *)
Lemma mirror_other d s did did' r y :
  wf s -> simulates d s -> settlement_callback_deliveries d !! did = Some r ->
  settlement_callback_deliveries d !! did' = Some y -> did' <> did -> dv_eventId y <> dv_eventId r.
Proof.
  intros W S Hr Hy Hne He. destruct (delivery_found _ _ _ _ S Hr) as (x & Hx & _ & Hrx).
  destruct (delivery_found _ _ _ _ S Hy) as (z & Hz & _ & Hyz).
  apply Hne, (wf_one_delivery s W did' did z x Hz Hx). unfold same_delivery, delivery_core in *. congruence.
Qed.

Lemma delivery_simulates d s did r r' x' :
  wf s -> simulates d s -> settlement_callback_deliveries d !! did = Some r ->
  delivery_sim r' x' -> dv_status r' <> dl_dead_letter ->
  simulates (with_deliveries (<[did := r']> (settlement_callback_deliveries d)) d)
    (set_delivery x' did s).
Proof.
  intros W S Hr Hsim Hst. destruct S as [S1 S2 S3 S4 S5 S6]. split; try done.
  - intros id. cbn. rewrite map_get_set_case. destruct (String.eqb_spec did id) as [<-|Hne].
    + rewrite lookup_insert_eq. by constructor.
    + rewrite lookup_insert_ne by done. apply S2.
  - intros did' y row. cbn. destruct (decide (did' = did)) as [->|Hne].
    + rewrite lookup_insert_eq. by intros [= <-].
    + rewrite lookup_insert_ne by done. apply S6.
Qed.

(** The statement that settles a delivery, against the two writes of the reference. *)
Lemma settle_simulates d s did r x r' x' hf mf :
  wf s -> simulates d s -> settlement_callback_deliveries d !! did = Some r ->
  delivery_sim r x -> delivery_sim r' x' ->
  dv_handoffId r' = dv_handoffId r -> dv_eventId r' = dv_eventId r ->
  (forall row, h_platformId (hf row) = h_platformId row /\ h_latestEventId (hf row) = h_latestEventId row) ->
  (forall row h, settlement_handoffs d !! dv_handoffId r = Some row ->
     h_latestEventId row = Some (dv_eventId r) -> handoff_sim row h -> handoff_sim (hf row) (mf h)) ->
  (dv_status r' = dl_dead_letter -> forall row, h_callbackStatus (hf row) = cb_dead_letter) ->
  simulates
    (match settlement_handoffs d !! dv_handoffId r with
     | Some row =>
         {| settlement_handoffs :=
              <[dv_handoffId r :=
                  if bool_decide (h_latestEventId row = Some (dv_eventId r)) then hf row else row]>
                (settlement_handoffs d);
            settlement_execution_events := settlement_execution_events d;
            settlement_callback_deliveries := <[did := r']> (settlement_callback_deliveries d) |}
     | None => with_deliveries (<[did := r']> (settlement_callback_deliveries d)) d
     end)
    (reflect_on_handoff x mf (set_delivery x' did s)).
Proof.
  intros W S Hr Hx Hx' Hhid Heid Hkeep Hmf Hdead.
  destruct (delivery_sim_guards r x 0 "" Hx) as (_ & _ & _ & Exh & Exe).
  destruct (delivery_found _ _ _ _ S Hr) as (z & Hz & _ & Hrz).
  destruct (wf_deliveries s W _ _ Hz) as (_ & _ & e & Hin & _).
  assert (exists row h, settlement_handoffs d !! dv_handoffId r = Some row /\
    map_get (dv_handoffId r) (handoffs s) = Some h /\ handoff_sim row h) as (row & h & Hrow & Hh & Hsim).
  { destruct (wf_buckets s W (dv_handoffId z)) as (Hb & _). destruct Hb as [h Hh].
    { intros Hn. rewrite Hn in Hin. by apply not_elem_of_nil in Hin. }
    assert (dv_handoffId z = dv_handoffId r) as Ez
      by (unfold same_delivery, delivery_core in Hrz; congruence). rewrite Ez in Hh.
    pose proof (sim_handoffs _ _ S (dv_handoffId r)) as Hs. rewrite Hh in Hs.
    apply option_rel_some_r in Hs as (row & Hrow & Hsim). by exists row, h. }
  destruct (handoff_sim_fields _ _ Hsim) as (_ & _ & _ & _ & Hlat & _).
  rewrite Hrow. unfold reflect_on_handoff. rewrite Exh. cbn [handoffs set_delivery].
  rewrite Hh, Hlat, Exe. pose proof (mirror_other d s did) as Hother.
  destruct (bool_decide (h_latestEventId row = Some (dv_eventId r))) eqn:Hl.
  - apply bool_decide_eq_true in Hl. destruct S as [S1 S2 S3 S4 S5 S6] eqn:ES.
    split; try done.
    + intros id. cbn. rewrite map_get_set_case.
      destruct (String.eqb_spec (dv_handoffId r) id) as [<-|Hne].
      * rewrite lookup_insert_eq. constructor. by apply Hmf.
      * rewrite lookup_insert_ne by done. apply S1.
    + intros id. cbn. rewrite map_get_set_case. destruct (String.eqb_spec did id) as [<-|Hne].
      * rewrite lookup_insert_eq. by constructor.
      * rewrite lookup_insert_ne by done. apply S2.
    + intros hid dk. cbn. intros Hsome. apply S4.
      destruct (decide (hid = dv_handoffId r)) as [->|Hne]; [by eexists|].
      by rewrite lookup_insert_ne in Hsome.
    + intros id row'. cbn. destruct (decide (id = dv_handoffId r)) as [->|Hne].
      * rewrite lookup_insert_eq. intros [= <-]. rewrite (proj1 (Hkeep row)). by eapply S5.
      * rewrite lookup_insert_ne by done. apply S5.
    + intros did' y row' Hy Hst. cbn in Hy |- *. destruct (decide (did' = did)) as [->|Hne].
      * rewrite lookup_insert_eq in Hy. injection Hy as <-. rewrite Hhid, lookup_insert_eq.
        intros [= <-] _. by apply Hdead.
      * rewrite lookup_insert_ne in Hy by done.
        destruct (decide (dv_handoffId y = dv_handoffId r)) as [Ey|Ey].
        2: { rewrite lookup_insert_ne by done. by apply (S6 did'). }
        rewrite Ey, lookup_insert_eq. intros [= <-]. rewrite (proj2 (Hkeep row)), Hl.
        intros [= Ee]. by destruct (Hother did' r y W S Hr Hy Hne).
  - apply bool_decide_eq_false in Hl. rewrite insert_id by done.
    destruct S as [S1 S2 S3 S4 S5 S6]. split; try done.
    + intros id. cbn. rewrite map_get_set_case. destruct (String.eqb_spec did id) as [<-|Hne].
      * rewrite lookup_insert_eq. by constructor.
      * rewrite lookup_insert_ne by done. apply S2.
    + intros did' y row' Hy Hst. cbn in Hy |- *. destruct (decide (did' = did)) as [->|Hne].
      * rewrite lookup_insert_eq in Hy. injection Hy as <-. rewrite Hhid, Hrow, Heid.
        by intros [= <-] ?.
      * rewrite lookup_insert_ne in Hy by done. by apply (S6 did').
Qed.

Lemma settle_delivery_cases did owner f g d :
  (forall r, dv_handoffId (f r) = dv_handoffId r /\ dv_eventId (f r) = dv_eventId r) ->
  (forall h, terms_of (g h) = terms_of h) ->
  settle_delivery did owner f g d =
  match settlement_callback_deliveries d !! did with
  | Some r =>
      if holds_lease owner r then
        (match settlement_handoffs d !! dv_handoffId r with
         | Some row =>
             {| settlement_handoffs :=
                  <[dv_handoffId r :=
                      if bool_decide (h_latestEventId row = Some (dv_eventId r)) then g row else row]>
                    (settlement_handoffs d);
                settlement_execution_events := settlement_execution_events d;
                settlement_callback_deliveries :=
                  <[did := f r]> (settlement_callback_deliveries d) |}
         | None => with_deliveries (<[did := f r]> (settlement_callback_deliveries d)) d
         end, Ok true)
      else (d, Ok false)
  | None => (d, Ok false)
  end.
Proof.
  intros Hf Hg. unfold settle_delivery, update_delivery.
  destruct (settlement_callback_deliveries d !! did) as [r|]; [|done].
  destruct (holds_lease owner r); [|done]. unfold update_callback_status.
  destruct (Hf r) as [-> ->]. rewrite update_handoff_ok.
  - cbn. by destruct (settlement_handoffs d !! dv_handoffId r).
  - intros h. by destruct (bool_decide _).
Qed.

Lemma delivered_sim did owner at_ rs now d s :
  wf s -> simulates d s -> exists s', rtc step s s' /\
    simulates (pg_markCallbackDelivered did owner at_ rs now d).1 s'.
Proof.
  intros W S. exists (markCallbackDelivered did owner at_ rs now now s).1.
  split; [apply rtc_once, step_delivered|].
  unfold pg_markCallbackDelivered. rewrite settle_delivery_cases by done.
  unfold markCallbackDelivered.
  destruct (settlement_callback_deliveries d !! did) as [r|] eqn:Hr.
  2: { by rewrite (delivery_absent _ _ _ S Hr). }
  destruct (delivery_found _ _ _ _ S Hr) as (x & Hx & Hsim). rewrite Hx.
  destruct (delivery_sim_guards r x 0 owner Hsim) as (_ & -> & _).
  destruct (holds_lease owner r); [|done]. cbn [fst].
  apply (settle_simulates d s did r x); try done.
  - eapply delivery_sim_update; [exact Hsim | done | unfold delivery_core; cbn; congruence].
  - intros row h _ _ Hh. by apply handoff_sim_callback.
Qed.

Lemma failed_sim did owner upd now d s :
  wf s -> simulates d s -> exists s', rtc step s s' /\
    simulates (pg_markCallbackFailed did owner upd now d).1 s'.
Proof.
  intros W S. exists (markCallbackFailed did owner upd now now s).1.
  split; [apply rtc_once, step_failed|].
  unfold pg_markCallbackFailed. rewrite settle_delivery_cases by done.
  unfold markCallbackFailed.
  destruct (settlement_callback_deliveries d !! did) as [r|] eqn:Hr.
  2: { by rewrite (delivery_absent _ _ _ S Hr). }
  destruct (delivery_found _ _ _ _ S Hr) as (x & Hx & Hsim). rewrite Hx.
  destruct (delivery_sim_guards r x 0 owner Hsim) as (_ & -> & _).
  destruct (holds_lease owner r); [|done]. cbn [fst].
  apply (settle_simulates d s did r x); try done.
  - eapply delivery_sim_update; [exact Hsim | done | unfold delivery_core; cbn; congruence].
  - intros row h _ _ Hh. destruct (handoff_sim_fields _ _ Hh) as (_ & _ & _ & _ & _ & -> & _).
    by apply handoff_sim_callback.
  - cbn. by destruct (fu_deadLetter upd).
Qed.

Lemma requeue_sim did at_ now d s :
  wf s -> simulates d s -> exists s', rtc step s s' /\
    simulates (pg_requeueCallbackDelivery did at_ now d).1 s'.
Proof.
  intros W S. exists (requeueCallbackDelivery did at_ now now s).1.
  split; [apply rtc_once, step_requeue|].
  unfold pg_requeueCallbackDelivery, update_delivery, requeueCallbackDelivery.
  destruct (settlement_callback_deliveries d !! did) as [r|] eqn:Hr.
  2: { by rewrite (delivery_absent _ _ _ S Hr). }
  destruct (delivery_found _ _ _ _ S Hr) as (x & Hx & Hsim). rewrite Hx.
  destruct (delivery_sim_guards r x 0 "" Hsim) as (_ & _ & -> & _).
  destruct (bool_decide (dv_status r = dl_dead_letter)) eqn:Hst; [|done]. cbn [fst].
  apply bool_decide_eq_true in Hst.
  set (r' := delivery_update r dl_pending _ _ _ _ _ _ _ _ _).
  set (x' := delivery_update x dl_pending _ _ _ _ _ _ _ _ _).
  pose proof (settle_simulates d s did r x r' x' (fun row => row)
    (fun h => with_callback h cb_pending (h_callbackDeliveredAt h) now) W S Hr Hsim) as H.
  assert (match settlement_handoffs d !! dv_handoffId r with
     | Some row =>
         {| settlement_handoffs :=
              <[dv_handoffId r :=
                  if bool_decide (h_latestEventId row = Some (dv_eventId r)) then row else row]>
                (settlement_handoffs d);
            settlement_execution_events := settlement_execution_events d;
            settlement_callback_deliveries := <[did := r']> (settlement_callback_deliveries d) |}
     | None => with_deliveries (<[did := r']> (settlement_callback_deliveries d)) d
     end = with_deliveries (<[did := r']> (settlement_callback_deliveries d)) d) as Heq.
  { destruct (settlement_handoffs d !! dv_handoffId r) as [row|] eqn:Hrow; [|done].
    destruct (bool_decide _); by rewrite insert_id. }
  cbv beta in H. rewrite Heq in H. apply H; try done.
  - eapply delivery_sim_update; [exact Hsim | done | unfold delivery_core; cbn; congruence].
  - intros row h Hrow Hlat (m & Hm & Hh & Hc). exists m. split; [done|]. split; [rewrite Hh; done|].
    right. split; [|done]. apply mapHandoffRow_fields in Hm as (a & b & ->). cbn.
    by eapply (sim_mirror _ _ S did).
Qed.

Lemma delivering_sim did owner att lease now d s :
  wf s -> simulates d s -> exists s', rtc step s s' /\
    simulates (pg_markCallbackDelivering did owner att lease now d).1 s'.
Proof.
  intros W S. exists (markCallbackDelivering did owner att lease now s).1.
  split; [apply rtc_once, step_delivering|].
  unfold pg_markCallbackDelivering, update_delivery, markCallbackDelivering.
  destruct (settlement_callback_deliveries d !! did) as [r|] eqn:Hr.
  2: { by rewrite (delivery_absent _ _ _ S Hr). }
  destruct (delivery_found _ _ _ _ S Hr) as (x & Hx & Hsim). rewrite Hx.
  destruct (delivery_sim_guards r x att "" Hsim) as (-> & _).
  destruct (delivery_ready att r); [|done]. cbn [fst].
  eapply delivery_simulates; [done | done | exact Hr | | done].
  eapply delivery_sim_update; [exact Hsim | done | unfold delivery_core; cbn; congruence].
Qed.

Lemma pg_step_sim d d' s :
  wf s -> simulates d s -> pg_step d d' -> exists s', rtc step s s' /\ simulates d' s'.
Proof.
  intros W S [input now u snapshot d1 r F Hp H|input cb now u1 u2 d1 r F1 F2 H| | | |];
    eauto using create_sim, record_sim, delivering_sim, delivered_sim, failed_sim, requeue_sim.
Qed.

Lemma empty_simulates : simulates empty_settlement_db (createInMemorySettlementStore []).
Proof.
  split; try done.
  - intros id. cbn. rewrite lookup_empty. constructor.
  - intros id. cbn. rewrite lookup_empty. constructor.
Qed.

Lemma pg_reachable_sim d : pg_reachable d -> exists s, reachable s /\ simulates d s.
Proof.
  intros H. unfold pg_reachable in H.
  cut (forall d0, rtc pg_step d0 d -> forall s0, reachable s0 -> simulates d0 s0 ->
    exists s, reachable s /\ simulates d s).
  { intros Hc. apply (Hc _ H (createInMemorySettlementStore [])); [constructor | apply empty_simulates]. }
  clear H. intros d0 H. induction H as [d|d1 d2 d3 Hs _ IH]; [eauto|]. intros s0 R S.
  destruct (pg_step_sim _ _ _ (reachable_wf _ R) S Hs) as (s' & Hs' & S').
  apply (IH s'); [unfold reachable in *; by etrans | done].
Qed.

(** What a client reads. *)
Lemma read_handoff d s id :
  simulates d s ->
  exists o, pg_getHandoff id d = Ok o /\ option_Forall2 same_handoff o (getHandoff id s).
Proof.
  intros S. pose proof (sim_handoffs _ _ S id) as H. unfold pg_getHandoff, getHandoff.
  destruct (settlement_handoffs d !! id) as [row|].
  - apply option_rel_some in H as (h & -> & r & Hm & Hs). cbn. rewrite Hm.
    exists (Some r). split; [done | by constructor].
  - rewrite (option_rel_none _ _ H). exists None. split; [done | constructor].
Qed.

Lemma read_delivery d s id :
  simulates d s ->
  exists o, pg_getCallbackDelivery id d = Ok o /\
    option_Forall2 same_delivery o (getCallbackDelivery id s).
Proof.
  intros S. pose proof (sim_deliveries _ _ S id) as H. unfold pg_getCallbackDelivery, getCallbackDelivery.
  destruct (settlement_callback_deliveries d !! id) as [r|].
  - apply option_rel_some in H as (x & -> & Hr & Hs). cbn. rewrite Hr.
    exists (Some r). split; [done | by constructor].
  - rewrite (option_rel_none _ _ H). exists None. split; [done | constructor].
Qed.

Lemma read_events d s id :
  simulates d s -> pg_listExecutionEvents id d ≡ₚ listExecutionEvents id s.
Proof.
  intros S. unfold pg_listExecutionEvents. rewrite js_sort_Permutation.
  change (listExecutionEvents id s) with (bucket s id). by rewrite <- (sim_events _ _ S id).
Qed.

(** With colons in platform ids the reference store takes two references for one. *)
Example colons_collide : platform_key "a:b" "c" = platform_key "a" "b:c".
Proof. reflexivity. Qed.

(** C3. The Postgres store is the reference store, as long as platform ids contain
    no colon (the reference store joins its keys with one, [colons_collide]) and
    random identifiers are new.  Whatever statements and transactions any number of
    gateway processes ran, in any order, there is a history of the in-memory store
    that shows every client the same: each handoff reads as the same record (but for
    its update time, and for a dead letter that was requeued, which the database
    still shows as dead until its next attempt ends), each delivery as the same
    record (but for the times of its last attempt and change), and each handoff has
    the same events.  No read fails: every stored amount and callback body is
    accepted. *)
Theorem pg_refines_reference d :
  pg_reachable d ->
  exists s, reachable s /\
    (forall id, exists o, pg_getHandoff id d = Ok o /\ option_Forall2 same_handoff o (getHandoff id s)) /\
    (forall id, exists o, pg_getCallbackDelivery id d = Ok o /\
       option_Forall2 same_delivery o (getCallbackDelivery id s)) /\
    (forall id, pg_listExecutionEvents id d ≡ₚ listExecutionEvents id s).
Proof.
  intros (s & R & S)%pg_reachable_sim. exists s. split; [done|].
  split_and!; intros id; [by apply read_handoff | by apply read_delivery | by apply read_events].
Qed.

(** C1. Event sourcing in production: in every database the gateway can reach with
    platform ids that contain no colon and random identifiers that are new, the
    status of a handoff is the result of running its stored events, in some order,
    through the state machine from [pending], its latest-event column names the
    last of them, and every event has exactly one delivery row. *)
Theorem pg_event_sourced d id r :
  pg_reachable d -> pg_getHandoff id d = Ok (Some r) ->
  exists evs, evs ≡ₚ pg_listExecutionEvents id d /\
    run x_pending (transitions_of evs) (h_executionStatus r) /\
    h_latestEventId r = ev_eventId <$> head evs /\ NoDup (map ev_eventId evs) /\
    forall e, e ∈ evs -> exists! did, exists x,
      pg_getCallbackDelivery did d = Ok (Some x) /\ dv_eventId x = ev_eventId e.
Proof.
  intros (s & R & S)%pg_reachable_sim Hr. pose proof (reachable_wf s R) as W.
  destruct (read_handoff d s id S) as (o & Ho & Hs). rewrite Hr in Ho. injection Ho as <-.
  apply option_rel_some in Hs as (h & Hh & Heq & _).
  destruct (wf_handoffs s W id h Hh) as (_ & _ & _ & Hexp & Hlast).
  assert (h_executionStatus h = h_executionStatus r /\ h_latestEventId h = h_latestEventId r)
    as [E1 E2] by (rewrite Heq; done).
  exists (bucket s id). split_and!.
  - symmetry. by apply read_events.
  - rewrite <- E1. by apply explains_run.
  - by rewrite <- E2.
  - apply (wf_buckets s W id).
  - assert (forall did x, pg_getCallbackDelivery did d = Ok (Some x) -> exists y,
      map_get did (deliveries s) = Some y /\ dv_eventId y = dv_eventId x) as Hback.
    { intros did x Hx. destruct (read_delivery d s did S) as (o & Ho & Hs). rewrite Hx in Ho.
      injection Ho as <-. apply option_rel_some in Hs as (y & Hy & Hs). exists y.
      split; [done|]. unfold same_delivery, delivery_core in Hs. congruence. }
    intros e He. destruct (wf_has_delivery s W id e He) as (did & y & Hy & Hye).
    destruct (read_delivery d s did S) as (o & Ho & Hs). unfold getCallbackDelivery in Hs.
    rewrite Hy in Hs. apply option_rel_some_r in Hs as (x & -> & Hs).
    exists did. split.
    + exists x. split; [done|]. unfold same_delivery, delivery_core in Hs. congruence.
    + intros did' (x' & Hx' & He'). destruct (Hback did' x' Hx') as (y' & Hy' & Ey').
      apply (wf_one_delivery s W did did' y y' Hy Hy'). congruence.
Qed.

End refinement.

(** ** Request nonces *)

(** What the processes do to the nonce table while the database clock is at most
    [bound]. *)
Inductive nonce_step (bound : Z) (t : nonces) : nonces -> Prop :=
| nonce_cleanup dbNow : dbNow <= bound -> nonce_step bound t (cleanupExpiredNonces dbNow t)
| nonce_insert apiKey nonce expires : nonce_step bound t (insert_nonce apiKey nonce expires t).1.

Lemma nonce_kept bound t t' k e :
  rtc (nonce_step bound) t t' -> t !! k = Some e -> bound <= e -> t' !! k = Some e.
Proof.
  intros H. induction H as [|t1 t2 t3 [dbNow Hd|apiKey nonce ex] _ IH]; [done|..]; intros Hk Hb.
  - apply IH; [|done]. apply map_lookup_filter_Some. split; [done|]. cbn. lia.
  - apply IH; [|done]. unfold insert_nonce.
    destruct (t1 !! (apiKey, nonce)) eqn:E; [done|]. cbn.
    rewrite lookup_insert_ne; [done|]. intros <-. congruence.
Qed.

(** A nonce authenticates once: after a request with a nonce was accepted, no
    other request with that key and nonce is accepted until the nonce has expired
    by the database's clock, whatever other requests do between its statements. *)
Theorem nonce_single_use apiKey nonce ttl dbNow appNow between t t1 t2
    ttl' dbNow' appNow' between' :
  consume apiKey nonce ttl dbNow appNow between t = (t1, true) ->
  rtc (nonce_step (appNow + ttl * 1000)) t1 t2 ->
  dbNow' <= appNow + ttl * 1000 ->
  (forall t, rtc (nonce_step (appNow + ttl * 1000)) t (between' t)) ->
  (consume apiKey nonce ttl' dbNow' appNow' between' t2).2 = false.
Proof.
  intros Hc Hs Hn Hb. unfold consume, insert_nonce in Hc.
  destruct (between _ !! (apiKey, nonce)); [done|]. injection Hc as <-.
  assert (between' (cleanupExpiredNonces dbNow' t2) !! (apiKey, nonce)
    = Some (appNow + ttl * 1000)) as Hk.
  { eapply (nonce_kept (appNow + ttl * 1000)); [|apply lookup_insert_eq | lia].
    etrans; [exact Hs|]. eapply rtc_l; [by apply nonce_cleanup | apply Hb]. }
  unfold consume, insert_nonce. by rewrite Hk.
Qed.

Lemma nonce_single_use_witness :
  (consume "svc" "n1" 30 20000 20001 (fun t => t)
     (consume "svc" "n1" 30 1000 1000 (fun t => t) ∅).1).2 = false.
Proof.
  apply (nonce_single_use "svc" "n1" 30 1000 1000 (fun t => t) ∅ (<[("svc", "n1") := 31000]> ∅));
    [vm_compute; reflexivity | constructor | lia | intros; constructor].
Defined.
