(* ===== verification/SettlementPgDispatch.v ===== *)
(** The callback dispatcher on the Postgres store: the callback half of
    gateway/src/core/settlementCallbackStore.ts discharges the interface
    [CallbackStore], so the dispatcher's theorems hold in production; and concrete
    histories of the database. *)
From stdpp Require Import base list gmap strings.
From S2P Require Import Prelude JsText JsMap SettlementTypes SettlementMachine SettlementAmount.
From S2P Require Import SettlementStore SettlementStoreInv CallbackDispatcher.
From S2P Require Import SettlementPg SettlementPgInv.

Open Scope string_scope.
Open Scope Z_scope.

(** ** The dispatcher on Postgres *)

(** Databases whose callback bodies can be read; the reachable ones are. *)
Definition readable_db (d : settlement_db) : Prop :=
  map_Forall (fun _ r => is_ok (parseStoredCallbackBody (dv_requestBody r)) = true)
    (settlement_callback_deliveries d).

#[export] Instance readable_db_dec d : Decision (readable_db d).
Proof. unfold readable_db. apply _. Defined.

Definition pg_store : Type := dsig readable_db.

Lemma readable_row d id r :
  readable_db d -> settlement_callback_deliveries d !! id = Some r ->
  mapSettlementCallbackDeliveryRow r = Ok r.
Proof.
  intros Hd Hr. specialize (Hd id r Hr). cbn in Hd. unfold mapSettlementCallbackDeliveryRow.
  by destruct (parseStoredCallbackBody (dv_requestBody r)).
Qed.

Lemma readable_insert d id r r' :
  readable_db d -> settlement_callback_deliveries d !! id = Some r ->
  dv_requestBody r' = dv_requestBody r ->
  map_Forall (fun _ r => is_ok (parseStoredCallbackBody (dv_requestBody r)) = true)
    (<[id := r']> (settlement_callback_deliveries d)).
Proof.
  intros Hd Hr Hb. apply map_Forall_insert_2; [|done]. rewrite Hb. exact (Hd id r Hr).
Qed.

Lemma update_delivery_readable id guard f d :
  (forall r, dv_requestBody (f r) = dv_requestBody r) ->
  readable_db d -> readable_db (update_delivery id guard f d).1.
Proof.
  intros Hf Hd. unfold update_delivery.
  destruct (settlement_callback_deliveries d !! id) as [r|] eqn:Hr; [|done].
  destruct (guard r); [|done]. by eapply readable_insert.
Qed.

Lemma settle_readable id owner f g d :
  (forall r, dv_handoffId (f r) = dv_handoffId r /\ dv_eventId (f r) = dv_eventId r) ->
  (forall h, terms_of (g h) = terms_of h) ->
  (forall r, dv_requestBody (f r) = dv_requestBody r) ->
  readable_db d -> readable_db (settle_delivery id owner f g d).1.
Proof.
  intros Hf Hg Hb Hd. rewrite settle_delivery_cases by done.
  destruct (settlement_callback_deliveries d !! id) as [r|] eqn:Hr; [|done].
  destruct (holds_lease owner r); [|done].
  destruct (settlement_handoffs d !! dv_handoffId r); by eapply readable_insert.
Qed.

(** The answer of an operation; a failed read is no row. *)
Definition answer {A} (default : A) (r : result GatewayError A) : A :=
  match r with Ok a => a | Err _ => default end.

Program Definition pg_claim (id w : string) (att lease : Z) (s : pg_store)
    : pg_store * option SettlementCallbackDeliveryRecord :=
  let r := pg_markCallbackDelivering id w att lease att (`s) in
  (dexist r.1 _, answer None r.2).
Next Obligation. intros. apply update_delivery_readable; [done|]. apply proj2_dsig. Qed.

Program Definition pg_delivered (id w : string) (at_ rs : Z) (s : pg_store) : pg_store * bool :=
  let r := pg_markCallbackDelivered id w at_ rs at_ (`s) in
  (dexist r.1 _, answer false r.2).
Next Obligation. intros. apply settle_readable; try done. apply proj2_dsig. Qed.

Program Definition pg_failed (id w : string) (upd : FailedUpdate) (s : pg_store) : pg_store * bool :=
  let r := pg_markCallbackFailed id w upd (fu_attemptedAt upd) (`s) in
  (dexist r.1 _, answer false r.2).
Next Obligation. intros. apply settle_readable; try done. apply proj2_dsig. Qed.

Program Definition pg_requeue (id : string) (at_ : Z) (s : pg_store)
    : pg_store * option SettlementCallbackDeliveryRecord :=
  let r := pg_requeueCallbackDelivery id at_ at_ (`s) in
  (dexist r.1 _, answer None r.2).
Next Obligation. intros. apply update_delivery_readable; [done|]. apply proj2_dsig. Qed.

#[export] Instance pg_callbacks : CallbackStore pg_store := {|
  cs_get := fun id s => answer None (pg_getCallbackDelivery id (`s));
  cs_due := fun limit now s => answer [] (pg_getDueCallbackDeliveries limit now (`s));
  cs_claim := pg_claim;
  cs_delivered := pg_delivered;
  cs_failed := pg_failed;
  cs_requeue := pg_requeue |}.

Lemma pg_get id (s : pg_store) : cs_get id s = settlement_callback_deliveries (`s) !! id.
Proof.
  cbn. unfold pg_getCallbackDelivery.
  destruct (settlement_callback_deliveries (`s) !! id) as [r|] eqn:Hr; [|done]. cbn.
  by rewrite (readable_row _ _ _ (proj2_dsig s) Hr).
Qed.

(** A new state whose delivery table differs in one row. *)
Lemma pg_row_updated id (s : pg_store) d' H r r' :
  settlement_callback_deliveries (`s) !! id = Some r ->
  settlement_callback_deliveries d' = <[id := r']> (settlement_callback_deliveries (`s)) ->
  dv_deliveryId r' = dv_deliveryId r -> row_updated id s (dexist d' H) r'.
Proof.
  intros Hr Hd Hi. unfold row_updated. rewrite !pg_get. cbn [proj1_sig dexist]. rewrite Hd.
  split_and!; [apply lookup_insert_eq | | ].
  - intros d0. rewrite Hr. by intros [= <-].
  - intros id' Hne. rewrite !pg_get. cbn [proj1_sig dexist]. rewrite Hd. by apply lookup_insert_ne.
Qed.

Lemma pg_unchanged (s : pg_store) d H : d = `s -> dexist d H = s.
Proof. intros ->. by apply dsig_eq. Qed.

(** The answer of an update that wrote the row [r']. *)
Lemma answer_row id (s : pg_store) r r' :
  settlement_callback_deliveries (`s) !! id = Some r -> dv_requestBody r' = dv_requestBody r ->
  answer None (map_row mapSettlementCallbackDeliveryRow (Some r')) = Some r'.
Proof.
  intros Hr Hb. cbn. unfold mapSettlementCallbackDeliveryRow. rewrite Hb.
  pose proof (readable_row _ _ _ (proj2_dsig s) Hr) as H.
  unfold mapSettlementCallbackDeliveryRow in H. by apply bind_ok in H as (y & -> & _).
Qed.

Lemma pg_update_law id guard f (s : pg_store) H r :
  settlement_callback_deliveries (`s) !! id = Some r -> guard r = true ->
  dv_requestBody (f r) = dv_requestBody r -> dv_deliveryId (f r) = dv_deliveryId r ->
  (dexist (update_delivery id guard f (`s)).1 H : pg_store,
   answer None (map_row mapSettlementCallbackDeliveryRow (update_delivery id guard f (`s)).2)) =
  (dexist (update_delivery id guard f (`s)).1 H, Some (f r)) /\
  row_updated id s (dexist (update_delivery id guard f (`s)).1 H) (f r).
Proof.
  intros Hr Hg Hb Hi. assert (update_delivery id guard f (`s) =
    (with_deliveries (<[id := f r]> (settlement_callback_deliveries (`s))) (`s), Some (f r))) as E.
  { unfold update_delivery. by rewrite Hr, Hg. }
  split.
  - f_equal. rewrite E. by apply (answer_row id s r).
  - eapply pg_row_updated; [exact Hr | by rewrite E | done].
Qed.

Lemma pg_update_none id guard f (s : pg_store) H :
  (forall r, settlement_callback_deliveries (`s) !! id = Some r -> guard r = false) ->
  (dexist (update_delivery id guard f (`s)).1 H : pg_store,
   answer None (map_row mapSettlementCallbackDeliveryRow (update_delivery id guard f (`s)).2)) =
  (s, None).
Proof.
  intros Hg. assert (update_delivery id guard f (`s) = (`s, None)) as E.
  { unfold update_delivery. destruct (settlement_callback_deliveries (`s) !! id) as [r|] eqn:Hr; [|done].
    by rewrite (Hg r). }
  f_equal; [apply pg_unchanged|]; by rewrite E.
Qed.

Lemma pg_settle_law id owner f g (s : pg_store) H r :
  (forall r, dv_handoffId (f r) = dv_handoffId r /\ dv_eventId (f r) = dv_eventId r) ->
  (forall h, terms_of (g h) = terms_of h) ->
  settlement_callback_deliveries (`s) !! id = Some r -> holds_lease owner r = true ->
  dv_deliveryId (f r) = dv_deliveryId r ->
  answer false (settle_delivery id owner f g (`s)).2 = true /\
  row_updated id s (dexist (settle_delivery id owner f g (`s)).1 H) (f r).
Proof.
  intros Hf Hg Hr Hl Hi. pose proof (settle_delivery_cases id owner f g (`s) Hf Hg) as E.
  rewrite Hr, Hl in E. split; [by rewrite E|].
  eapply pg_row_updated; [exact Hr | | done]. rewrite E. cbn [fst].
  by destruct (settlement_handoffs (`s) !! dv_handoffId r).
Qed.

Lemma pg_settle_none id owner f g (s : pg_store) H :
  (forall r, settlement_callback_deliveries (`s) !! id = Some r -> holds_lease owner r = false) ->
  (dexist (settle_delivery id owner f g (`s)).1 H : pg_store,
   answer false (settle_delivery id owner f g (`s)).2) = (s, false).
Proof.
  intros Hg. assert (settle_delivery id owner f g (`s) = (`s, Ok false)) as E.
  { unfold settle_delivery, update_delivery.
    destruct (settlement_callback_deliveries (`s) !! id) as [r|] eqn:Hr; [|done]. by rewrite (Hg r). }
  f_equal; [apply pg_unchanged|]; by rewrite E.
Qed.

Lemma map_rows_elem l out r :
  map_rows mapSettlementCallbackDeliveryRow l = Ok out -> r ∈ out -> r ∈ l.
Proof.
  revert out. induction l as [|x l IH]; intros out; cbn; [by intros [= <-]|].
  intros H Hin. apply bind_ok in H as (y & Hy & H). apply bind_ok in H as (o & Ho & [= <-]).
  unfold mapSettlementCallbackDeliveryRow in Hy. apply bind_ok in Hy as (? & _ & [= ->]).
  apply elem_of_cons in Hin as [->|Hin]; [left | right; by eapply IH].
Qed.

(** The callback half of the Postgres store keeps the promises the dispatcher's
    theorems rely on. *)
#[export] Instance pg_callback_laws : CallbackStoreLaws pg_store.
Proof.
  split.
  - intros id w att lease s. rewrite pg_get.
    destruct (settlement_callback_deliveries (`s) !! id) as [r|] eqn:Hr;
      [destruct (delivery_ready att r) eqn:Hg|].
    + cbn [cs_claim pg_callbacks]. unfold pg_claim, pg_markCallbackDelivering. cbn [fst snd].
      match goal with |- context [dexist (update_delivery _ ?g ?f _).1 ?H] =>
        destruct (pg_update_law id g f s H r Hr Hg) as [E1 E2]; [done | done |] end.
      do 2 eexists. split; [exact E1|]. by split.
    + apply pg_update_none. intros r0. rewrite Hr. by intros [= <-].
    + apply pg_update_none. intros r0. by rewrite Hr.
  - intros id w at_ rs s. rewrite pg_get.
    destruct (settlement_callback_deliveries (`s) !! id) as [r|] eqn:Hr;
      [destruct (holds_lease w r) eqn:Hg|].
    + cbn [cs_delivered pg_callbacks]. unfold pg_delivered, pg_markCallbackDelivered.
      match goal with |- context [dexist (settle_delivery _ _ ?f ?g _).1 ?H] =>
        destruct (pg_settle_law id w f g s H r) as [E1 E2]; try done end.
      do 2 eexists. split; [f_equal; exact E1|]. by split.
    + apply pg_settle_none. intros r0. rewrite Hr. by intros [= <-].
    + apply pg_settle_none. intros r0. by rewrite Hr.
  - intros id w upd s. rewrite pg_get.
    destruct (settlement_callback_deliveries (`s) !! id) as [r|] eqn:Hr;
      [destruct (holds_lease w r) eqn:Hg|].
    + cbn [cs_failed pg_callbacks]. unfold pg_failed, pg_markCallbackFailed.
      match goal with |- context [dexist (settle_delivery _ _ ?f ?g _).1 ?H] =>
        destruct (pg_settle_law id w f g s H r) as [E1 E2]; try done end.
      do 2 eexists. split; [f_equal; exact E1|]. by split.
    + apply pg_settle_none. intros r0. rewrite Hr. by intros [= <-].
    + apply pg_settle_none. intros r0. by rewrite Hr.
  - intros id at_ s. rewrite pg_get.
    destruct (settlement_callback_deliveries (`s) !! id) as [r|] eqn:Hr;
      [destruct (bool_decide (dv_status r = dl_dead_letter)) eqn:Hg|].
    + cbn [cs_requeue pg_callbacks]. unfold pg_requeue, pg_requeueCallbackDelivery. cbn [fst snd].
      match goal with |- context [dexist (update_delivery _ ?g ?f _).1 ?H] =>
        destruct (pg_update_law id g f s H r Hr Hg) as [E1 E2]; [done | done |] end.
      do 2 eexists. split; [exact E1|]. by split.
    + apply pg_update_none. intros r0. rewrite Hr. by intros [= <-].
    + apply pg_update_none. intros r0. by rewrite Hr.
  - intros limit now s r. cbn [cs_due pg_callbacks]. unfold pg_getDueCallbackDeliveries.
    destruct (map_rows _ _) as [out|] eqn:E; cbn [answer]; [|by intros ?%not_elem_of_nil].
    intros Hin. apply (map_rows_elem _ _ _ E) in Hin. unfold slice in Hin.
    apply elem_of_take in Hin as (i & Hin & _). rewrite drop_0 in Hin.
    apply list_elem_of_lookup_2 in Hin. rewrite js_sort_Permutation in Hin.
    apply list_elem_of_In, filter_In in Hin as [_ ?]. done.
Qed.

(** ** Concrete histories *)

Definition id_json (j : json) : json := j.
Definition id_fields (f : list (string * json)) : list (string * json) := f.
Definition no_text (_ : json) : string := "".
Notation sample_step := (pg_step id_json id_fields no_text).

Definition pg_fresh_check (d : settlement_db) (u : string) : bool :=
  truthy u && no_colon u && negb (bool_decide (is_Some (settlement_handoffs d !! u)))
  && negb (bool_decide (is_Some (settlement_callback_deliveries d !! u)))
  && forallb (fun e => negb (String.eqb (ev_eventId (er_event e)) u)) (settlement_execution_events d).

Lemma pg_fresh_check_sound d u : pg_fresh_check d u = true -> pg_fresh d u.
Proof.
  unfold pg_fresh_check. intros H. reflect_bools. split_and!; try done.
  - destruct (settlement_handoffs d !! u); [|done]. by match goal with H : ~ is_Some (Some _) |- _ => destruct H end.
  - destruct (settlement_callback_deliveries d !! u); [|done].
    by match goal with H : ~ is_Some (Some _) |- _ => destruct H end.
  - intros e He. match goal with H : forallb _ _ = true |- _ => apply forallb_true in H;
      rewrite Forall_forall in H; specialize (H e He) end. by reflect_bools.
Qed.

Definition pg_plan : SettlementCallbackPlan :=
  {| cp_targetUrl := "https://platform/callback"; cp_requestId := "req-2"; cp_enabled := true;
     cp_nextAttemptAt := 10;
     cp_buildRequestBody := fun h _ => Ok (JObj [("displayAmount", JStr (h_displayAmount h))]) |}.

Definition db_of {A} (r : result GatewayError (settlement_db * A)) : settlement_db :=
  match r with Ok (d, _) => d | Err _ => empty_settlement_db end.

Definition pdb1 : settlement_db :=
  db_of (pg_createHandoff id_json id_fields no_text sample_create 1 "h1" empty_settlement_db
           empty_settlement_db).
Definition pdb2 : settlement_db :=
  db_of (pg_recordExecutionEvent id_json id_fields (sample_event e_submitted x_submitted "k1") pg_plan
           6 "e1" "d1" pdb1).
Definition pdb3 : settlement_db := (pg_markCallbackDelivering "d1" "w1" 10 40 10 pdb2).1.
Definition pdb4 : settlement_db :=
  (pg_markCallbackFailed "d1" "w1"
     {| fu_attemptedAt := 12; fu_responseStatus := None; fu_errorMessage := "HTTP 500";
        fu_nextAttemptAt := 20; fu_deadLetter := true |} 12 pdb3).1.
Definition pdb5 : settlement_db := (pg_requeueCallbackDelivery "d1" 30 13 pdb4).1.

Lemma db_result {A} (r : result GatewayError (settlement_db * A)) :
  is_ok r = true -> exists x, r = Ok (db_of r, x).
Proof. destruct r as [[d x]|]; [|done]. by exists x. Qed.

Lemma pdb2_reachable : pg_reachable id_json id_fields no_text pdb2.
Proof.
  eapply rtc_l; [|apply rtc_once].
  - destruct (db_result (pg_createHandoff id_json id_fields no_text sample_create 1 "h1"
      empty_settlement_db empty_settlement_db)) as [r Hr]; [vm_compute; reflexivity|].
    eapply pg_step_create; [| |exact Hr]; [by apply pg_fresh_check_sound | done].
  - destruct (db_result (pg_recordExecutionEvent id_json id_fields
      (sample_event e_submitted x_submitted "k1") pg_plan 6 "e1" "d1" pdb1)) as [r Hr];
      [vm_compute; reflexivity|].
    eapply pg_step_record; [| |exact Hr]; apply pg_fresh_check_sound; vm_compute; reflexivity.
Qed.

Lemma pdb5_reachable : pg_reachable id_json id_fields no_text pdb5.
Proof.
  eapply rtc_r; [eapply rtc_r; [eapply rtc_r; [apply pdb2_reachable|]|]|].
  - apply (pg_step_delivering _ _ _ _ "d1" "w1" 10 40 10).
  - apply pg_step_failed.
  - apply (pg_step_requeue _ _ _ _ "d1" 30 13).
Qed.

(** After an operator requeued a dead letter the database's handoff still shows the
    dead letter, where the reference store shows a pending callback. *)
Example requeued_handoff_still_dead :
  (dv_status <$> (settlement_callback_deliveries pdb5 !! "d1")) = Some dl_pending /\
  (h_callbackStatus <$> (settlement_handoffs pdb5 !! "h1")) = Some cb_dead_letter.
Proof. vm_compute. done. Qed.

(** A body whose amount is not a decimal is refused before it is committed. *)
Example invalid_body_rolls_back :
  is_ok (pg_recordExecutionEvent id_json id_fields (sample_event e_submitted x_submitted "k1")
    (plan_with_body pg_plan (JObj [("displayAmount", JStr "1e3")])) 6 "e1" "d1" pdb1) = false.
Proof. vm_compute. reflexivity. Qed.

Lemma pg_refines_reference_witness :
  exists s, reachable s /\ pg_listExecutionEvents "h1" pdb5 ≡ₚ listExecutionEvents "h1" s.
Proof.
  destruct (pg_refines_reference id_json id_fields no_text pdb5 pdb5_reachable)
    as (s & Hs & _ & _ & He).
  exists s. split; [exact Hs | exact (He "h1")].
Defined.

Lemma pg_event_sourced_witness :
  exists evs, evs ≡ₚ pg_listExecutionEvents "h1" pdb2 /\
    run x_pending (transitions_of evs) x_submitted.
Proof.
  assert (exists r, pg_getHandoff "h1" pdb2 = Ok (Some r) /\ h_executionStatus r = x_submitted)
    as (r & Hr & Hst) by (vm_compute; eauto).
  destruct (pg_event_sourced id_json id_fields no_text pdb2 "h1" r pdb2_reachable Hr)
    as (evs & Hp & Hrun & _).
  exists evs. rewrite Hst in Hrun. split; [exact Hp | exact Hrun].
Defined.
