(* ===== verification/TreasuryAmount.v ===== *)
(** Canonical treasury amounts: treasury/src/core/canonicalAmount.ts and
    sweepBatchAmounts.ts.

    A treasury amount is the decimal spelling of the uint256 the escrow emitted.
    Values of unknown type are [json]; [bigint] is [Z]. *)
From stdpp Require Import base list strings.
From S2P Require Import Prelude JsText SettlementAmount.

Open Scope string_scope.
Open Scope Z_scope.
#[local] Arguments String.append !_ _ / : simpl nomatch.

(** The errors the treasury code throws. *)
Inductive TreasuryError :=
| NonCanonicalAmountError (field reason : string)
| CallerSafeError (message : string)
| HttpError (status : Z) (code message : string)
| SweepCanonicalityError (entryIds : list Z)
| TreasuryConcurrentTransitionError (message : string)
| PlainError (message : string).

Definition MAX_RAW_AMOUNT : Z := 2 ^ 256 - 1.
Definition MAX_RAW_AMOUNT_DIGITS : nat := 78.
Definition CANONICAL_RAW_AMOUNT_PATTERN (s : string) : bool := canonical_digits s.

(** [typeof value] *)
Definition js_typeof (v : json) : string :=
  match v with
  | JStr _ => "string"
  | JNum _ | JDec _ => "number"
  | JBool _ => "boolean"
  | _ => "object"
  end.

Definition assertCanonicalRawAmount (value : json) (field : string) : result TreasuryError string :=
  match value with
  | JStr s =>
      _ ← throw_if (String.length s =? 0)%nat (NonCanonicalAmountError field "value is empty");
      _ ← throw_if (MAX_RAW_AMOUNT_DIGITS <? String.length s)%nat
            (NonCanonicalAmountError field
               ("value has " ++ print_N (N.of_nat (String.length s))
                  ++ " digits, exceeding the 78-digit uint256 range"));
      _ ← throw_if (negb (CANONICAL_RAW_AMOUNT_PATTERN s))
            (NonCanonicalAmountError field
               "value must be unsigned decimal digits with no sign, separator, exponent, whitespace or leading zero");
      _ ← throw_if (MAX_RAW_AMOUNT <? Z.of_N (digits_value s))
            (NonCanonicalAmountError field "value exceeds the uint256 range");
      Ok s
  | v => Err (NonCanonicalAmountError field ("expected a string, received " ++ js_typeof v))
  end.

Definition MAX_FIAT_AMOUNT_LENGTH : nat := 40.

(** The unsigned decimal with up to eight fractional digits. *)
Definition CANONICAL_FIAT_AMOUNT_PATTERN (s : string) : bool :=
  match split_dot s with
  | None => canonical_digits s
  | Some (i, f) =>
      canonical_digits i && digits_only f && (String.length f <=? 8)%nat
  end.

Definition assertCanonicalFiatAmount (value : json) (field : string) : result TreasuryError string :=
  match value with
  | JStr s =>
      _ ← throw_if (String.length s =? 0)%nat (NonCanonicalAmountError field "value is empty");
      _ ← throw_if (MAX_FIAT_AMOUNT_LENGTH <? String.length s)%nat
            (NonCanonicalAmountError field "value is longer than 40 characters");
      _ ← throw_if (negb (CANONICAL_FIAT_AMOUNT_PATTERN s))
            (NonCanonicalAmountError field
               "value must be an unsigned decimal with at most 8 fractional digits and no sign, separator, exponent, whitespace or leading zero");
      Ok s
  | v => Err (NonCanonicalAmountError field ("expected a string, received " ++ js_typeof v))
  end.

Definition isCanonicalRawAmount (value : json) : bool :=
  is_ok (assertCanonicalRawAmount value "amount").

Definition parseRawAmount (value : json) (field : string) : result TreasuryError Z :=
  s ← assertCanonicalRawAmount value field; Ok (Z.of_N (digits_value s)).

Definition formatRawAmount (value : Z) (field : string) : result TreasuryError string :=
  _ ← throw_if (value <? 0) (NonCanonicalAmountError field "value is negative");
  _ ← throw_if (MAX_RAW_AMOUNT <? value)
        (NonCanonicalAmountError field "value exceeds the uint256 range");
  Ok (print_Z value).

(** [values.reduce((total, value) => total + parseRawAmount(value, field), 0n)] *)
Fixpoint sum_parsed (values : list string) (field : string) (total : Z) : result TreasuryError Z :=
  match values with
  | [] => Ok total
  | v :: rest => n ← parseRawAmount (JStr v) field; sum_parsed rest field (total + n)
  end.

Definition sumRawAmounts (values : list string) (field : string) : result TreasuryError string :=
  total ← sum_parsed values field 0;
  formatRawAmount total field.

Definition assertAllocationWithinLedgerAmount
    (entryAmountRaw ledgerAmountRaw : string) (ledgerEntryId : Z) : result TreasuryError unit :=
  allocated ← parseRawAmount (JStr entryAmountRaw) "entryAmountRaw";
  available ← parseRawAmount (JStr ledgerAmountRaw) "ledgerAmountRaw";
  _ ← throw_if (allocated =? 0)
        (CallerSafeError ("Sweep allocation for ledger entry " ++ print_Z ledgerEntryId
           ++ " must be greater than zero"));
  throw_if (available <? allocated)
    (CallerSafeError ("Sweep allocation " ++ entryAmountRaw ++ " exceeds the eligible ledger amount "
       ++ ledgerAmountRaw ++ " for entry " ++ print_Z ledgerEntryId)).

Definition assertAllocationTotalMatchesExpected
    (expectedTotalRaw : string) (allocatedEntryAmountsRaw : list string) : result TreasuryError unit :=
  expected ← parseRawAmount (JStr expectedTotalRaw) "expectedTotalRaw";
  s ← sumRawAmounts allocatedEntryAmountsRaw "entryAmountRaw";
  allocated ← parseRawAmount (JStr s) "allocatedTotalRaw";
  throw_if (negb (expected =? allocated))
    (CallerSafeError ("Sweep batch expected total " ++ expectedTotalRaw
       ++ " does not equal the allocated total " ++ print_Z allocated)).

(** ** Lemmas *)

Lemma canonical_digits_lower_bound c s :
  canonical_digits (String c s) = true -> s <> "" ->
  (10 ^ N.of_nat (String.length s) <= digits_value (String c s))%N.
Proof.
  intros H Hs. change (String c s) with (String c "" ++ s). rewrite digits_value_app.
  assert (1 <= digits_value (String c ""))%N; [|nia].
  cbn [canonical_digits] in H. destruct (N.eqb_spec (code c) 48) as [E|E].
  - by apply String.eqb_eq in H.
  - reflect_bools. unfold digits_value. cbn [digits_acc]. unfold digit_value.
    match goal with H : is_digit c = true |- _ =>
      unfold is_digit, char_between in H; apply andb_true_iff in H as [H _];
      apply N.leb_le in H end.
    lia.
Qed.

(** A canonical numeral below 10^k has at most k digits. *)
Lemma canonical_length s k :
  canonical_digits s = true -> (digits_value s < 10 ^ N.of_nat k)%N -> (1 <= k)%nat ->
  (String.length s <= k)%nat.
Proof.
  intros Hc Hv Hk. destruct s as [|c s]; [done|].
  destruct (decide (s = "")) as [->|Hs]; [simpl; lia|].
  pose proof (canonical_digits_lower_bound c s Hc Hs) as Hb.
  destruct (Nat.le_gt_cases (String.length (String c s)) k) as [?|Hgt]; [done|]. exfalso.
  simpl in Hgt. assert (10 ^ N.of_nat k <= 10 ^ N.of_nat (String.length s))%N; [|lia].
  apply N.pow_le_mono_r; lia.
Qed.

Lemma max_raw_digits : (Z.to_N MAX_RAW_AMOUNT < 10 ^ 78)%N.
Proof. vm_compute. reflexivity. Qed.

Definition raw_amount_ok (n : Z) : Prop := 0 <= n <= MAX_RAW_AMOUNT.

Lemma print_Z_nonneg n : 0 <= n -> print_Z n = print_N (Z.to_N n).
Proof. intros H. destruct n; done || lia. Qed.

Lemma parseRawAmount_ok v field n :
  parseRawAmount v field = Ok n <-> raw_amount_ok n /\ v = JStr (print_Z n).
Proof.
  unfold parseRawAmount, raw_amount_ok. split.
  - intros H. inv_ok. unfold assertCanonicalRawAmount in *. destruct v; inv_ok. reflect_bools.
    match goal with H : CANONICAL_RAW_AMOUNT_PATTERN _ = true |- _ =>
      unfold CANONICAL_RAW_AMOUNT_PATTERN in H end.
    rewrite print_Z_nonneg by lia. rewrite N2Z.id, print_digits_value by done.
    split; [lia|done].
  - intros [Hn ->]. rewrite print_Z_nonneg by lia. unfold assertCanonicalRawAmount.
    pose proof (canonical_digits_print (Z.to_N n)) as Hc.
    pose proof (digits_value_print (Z.to_N n)) as Hv.
    assert (Hl : (String.length (print_N (Z.to_N n)) <= 78)%nat).
    { apply canonical_length; [done| |lia]. rewrite Hv.
      eapply N.le_lt_trans; [|apply max_raw_digits]. lia. }
    set (s := print_N (Z.to_N n)) in *.
    destruct (String.length s =? 0)%nat eqn:E0; [by destruct s|].
    destruct (Nat.ltb_spec MAX_RAW_AMOUNT_DIGITS (String.length s)); [unfold MAX_RAW_AMOUNT_DIGITS in *; lia|].
    unfold CANONICAL_RAW_AMOUNT_PATTERN. rewrite Hc, Hv, Z2N.id by lia. simpl.
    destruct (Z.ltb_spec MAX_RAW_AMOUNT n); [lia|]. simpl. by rewrite Hv, Z2N.id by lia.
Qed.

Lemma formatRawAmount_ok n field s :
  formatRawAmount n field = Ok s <-> raw_amount_ok n /\ s = print_Z n.
Proof.
  unfold formatRawAmount, raw_amount_ok. split.
  - intros H. inv_ok. reflect_bools. split; [lia|done].
  - intros [Hn ->]. destruct (Z.ltb_spec n 0); [lia|]. destruct (Z.ltb_spec MAX_RAW_AMOUNT n); [lia|].
    done.
Qed.

Lemma sum_parsed_ok values field t n :
  sum_parsed values field t = Ok n <->
  exists ns, Forall2 (fun v m => raw_amount_ok m /\ v = print_Z m) values ns /\
    n = t + foldr Z.add 0 ns.
Proof.
  revert t. induction values as [|v vs IH]; intros t; simpl.
  - split; [intros [= <-]; exists []; split; [constructor|simpl; lia]|].
    intros (ns & H & ->). inversion H; subst. simpl. f_equal. lia.
  - rewrite bind_ok. split.
    + intros (m & Hm & H). apply parseRawAmount_ok in Hm as [Hm [= ->]].
      apply IH in H as (ns & HF & ->). exists (m :: ns). split; [by constructor|]. simpl. lia.
    + intros (ns & H & ->). inversion H as [|? m ? ms [Hm ->] HF]; subst. exists m. split.
      * by apply parseRawAmount_ok.
      * apply IH. exists ms. split; [done|]. simpl. lia.
Qed.

Lemma sumRawAmounts_ok values field s :
  sumRawAmounts values field = Ok s <->
  exists ns, Forall2 (fun v m => raw_amount_ok m /\ v = print_Z m) values ns /\
    foldr Z.add 0 ns <= MAX_RAW_AMOUNT /\ s = print_Z (foldr Z.add 0 ns).
Proof.
  unfold sumRawAmounts. rewrite bind_ok. split.
  - intros (t & Ht & Hs). apply sum_parsed_ok in Ht as (ns & HF & ->).
    apply formatRawAmount_ok in Hs as [[? ?] ->]. exists ns. split_and!; [done|lia|done].
  - intros (ns & HF & Hm & ->). exists (foldr Z.add 0 ns). split.
    + apply sum_parsed_ok. exists ns. split; [done|lia].
    + apply formatRawAmount_ok. split; [|done]. split; [|done].
      clear -HF. induction HF as [|? m ? ms [[? ?] _] _ IH]; simpl; lia.
Qed.

(** C37. The raw-amount parser accepts exactly one spelling of each uint256 and
    nothing else: parsing and formatting are inverse bijections between the
    integers 0 .. 2^256-1 and the accepted texts, so comparing texts is comparing
    amounts. *)
Theorem raw_amount_bijection v n field :
  (parseRawAmount v field = Ok n <-> 0 <= n <= 2 ^ 256 - 1 /\ v = JStr (print_Z n)) /\
  (forall s, formatRawAmount n field = Ok s <-> parseRawAmount (JStr s) field = Ok n).
Proof.
  split; [apply parseRawAmount_ok|]. intros s. rewrite parseRawAmount_ok, formatRawAmount_ok.
  split; intros [? ?]; (split; [done|]); congruence.
Qed.

(** The batch total check passes exactly when every allocated amount is a
    canonical uint256 and they add up, without overflow, to the expected total;
    the allocation check passes exactly when the amount is positive and at most
    the ledger amount it draws from. *)
Theorem allocation_checks_exact :
  (forall expected values,
     is_ok (assertAllocationTotalMatchesExpected expected values) = true <->
     exists ns, Forall2 (fun v m => 0 <= m <= 2 ^ 256 - 1 /\ v = print_Z m) values ns /\
       foldr Z.add 0 ns <= 2 ^ 256 - 1 /\ expected = print_Z (foldr Z.add 0 ns)) /\
  (forall entry ledger id,
     is_ok (assertAllocationWithinLedgerAmount entry ledger id) = true <->
     exists a b, entry = print_Z a /\ ledger = print_Z b /\ 0 < a <= b /\ b <= 2 ^ 256 - 1).
Proof.
  split.
  - intros expected values. unfold assertAllocationTotalMatchesExpected. split.
    + destruct (_ : result TreasuryError unit) as [u|] eqn:H in |- *; [|done]. intros _. inv_ok.
      reflect_bools. subst.
      match goal with H : sumRawAmounts _ _ = Ok _ |- _ => apply sumRawAmounts_ok in H as (ns & HF & Hm & ->) end.
      repeat match goal with H : parseRawAmount _ _ = Ok _ |- _ => apply parseRawAmount_ok in H as [? H] end.
      exists ns. split_and!; [done|done|]. simplify_eq.
      match goal with H : print_Z _ = print_Z _ |- _ => apply print_Z_inj in H end. congruence.
    + intros (ns & HF & Hm & ->).
      assert (Ht : raw_amount_ok (foldr Z.add 0 ns)).
      { split; [|done]. clear -HF. induction HF as [|? m ? ms [[? ?] _] _ IH]; simpl; lia. }
      erewrite (proj2 (parseRawAmount_ok _ _ _)) by done. simpl.
      erewrite (proj2 (sumRawAmounts_ok values _ _)) by eauto. simpl.
      erewrite (proj2 (parseRawAmount_ok _ _ _)) by done. simpl. by rewrite Z.eqb_refl.
  - intros entry ledger id. unfold assertAllocationWithinLedgerAmount. split.
    + destruct (_ : result TreasuryError unit) as [u|] eqn:H in |- *; [|done]. intros _. inv_ok.
      reflect_bools.
      repeat match goal with H : parseRawAmount _ _ = Ok _ |- _ =>
        apply parseRawAmount_ok in H as [[? ?] [= ->]] end.
      do 2 eexists. split_and!; try done; lia.
    + intros (a & b & -> & -> & Ha & Hb).
      erewrite (proj2 (parseRawAmount_ok (JStr (print_Z a)) _ a)) by (split; [split; unfold MAX_RAW_AMOUNT; lia|done]).
      simpl.
      erewrite (proj2 (parseRawAmount_ok (JStr (print_Z b)) _ b)) by (split; [split; unfold MAX_RAW_AMOUNT; lia|done]).
      simpl. destruct (Z.eqb_spec a 0); [lia|]. destruct (Z.ltb_spec b a); [lia|]. done.
Qed.
