(* ===== verification/TreasuryPolicy.v ===== *)
(** Treasury policy: treasury/src/core/accountingPolicy.ts, actorIdentity.ts,
    payout.ts, bankPayout.ts (the transition check), sweepCanonicality.ts,
    sweepFinalityProgression.ts and the evidence check of finalizedTransaction.ts.

    Dates are milliseconds since the epoch; [Date.parse] of an invalid date is
    [None]. *)
From stdpp Require Import base list gmap strings.
From S2P Require Import Prelude JsText TreasuryAmount.

Open Scope string_scope.
Open Scope Z_scope.

(** ** Vocabulary (treasury/src/types.ts) *)

Inductive AccountingPeriodStatus := OPEN | PENDING_CLOSE | PERIOD_CLOSED.
Inductive SweepBatchStatus :=
| DRAFT | PENDING_APPROVAL | APPROVED | EXECUTED | HANDED_OFF | CLOSED | VOID.
Inductive PayoutState :=
| PENDING_REVIEW | READY_FOR_EXTERNAL_HANDOFF | AWAITING_EXTERNAL_CONFIRMATION
| EXTERNAL_EXECUTION_CONFIRMED | CANCELLED.
Inductive BankPayoutState := BANK_PENDING | BANK_CONFIRMED | BANK_REJECTED.
Inductive RevenueRealizationStatus := REALIZED | REVERSED.
Inductive ChainCanonicalityState := UNVERIFIED | CANONICAL | ORPHANED.
Inductive TransitionActorRole := MAKER | CHECKER | EXECUTOR | CLOSER.

#[export] Instance AccountingPeriodStatus_eq_dec : EqDecision AccountingPeriodStatus.
Proof. solve_decision. Defined.
#[export] Instance SweepBatchStatus_eq_dec : EqDecision SweepBatchStatus.
Proof. solve_decision. Defined.
#[export] Instance PayoutState_eq_dec : EqDecision PayoutState.
Proof. solve_decision. Defined.
#[export] Instance BankPayoutState_eq_dec : EqDecision BankPayoutState.
Proof. solve_decision. Defined.
#[export] Instance RevenueRealizationStatus_eq_dec : EqDecision RevenueRealizationStatus.
Proof. solve_decision. Defined.
#[export] Instance ChainCanonicalityState_eq_dec : EqDecision ChainCanonicalityState.
Proof. solve_decision. Defined.
#[export] Instance TransitionActorRole_eq_dec : EqDecision TransitionActorRole.
Proof. solve_decision. Defined.

Definition period_name (s : AccountingPeriodStatus) : string :=
  match s with OPEN => "OPEN" | PENDING_CLOSE => "PENDING_CLOSE" | PERIOD_CLOSED => "CLOSED" end.

Definition batch_name (s : SweepBatchStatus) : string :=
  match s with
  | DRAFT => "DRAFT" | PENDING_APPROVAL => "PENDING_APPROVAL" | APPROVED => "APPROVED"
  | EXECUTED => "EXECUTED" | HANDED_OFF => "HANDED_OFF" | CLOSED => "CLOSED" | VOID => "VOID"
  end.

Definition payout_name (s : PayoutState) : string :=
  match s with
  | PENDING_REVIEW => "PENDING_REVIEW"
  | READY_FOR_EXTERNAL_HANDOFF => "READY_FOR_EXTERNAL_HANDOFF"
  | AWAITING_EXTERNAL_CONFIRMATION => "AWAITING_EXTERNAL_CONFIRMATION"
  | EXTERNAL_EXECUTION_CONFIRMED => "EXTERNAL_EXECUTION_CONFIRMED"
  | CANCELLED => "CANCELLED"
  end.

(** ** Transitions (accountingPolicy.ts) *)

Definition ACCOUNTING_PERIOD_TRANSITIONS (s : AccountingPeriodStatus) : list AccountingPeriodStatus :=
  match s with
  | OPEN => [PENDING_CLOSE]
  | PENDING_CLOSE => [OPEN; PERIOD_CLOSED]
  | PERIOD_CLOSED => []
  end.

Definition SWEEP_BATCH_TRANSITIONS (s : SweepBatchStatus) : list SweepBatchStatus :=
  match s with
  | DRAFT => [PENDING_APPROVAL; VOID]
  | PENDING_APPROVAL => [DRAFT; APPROVED; VOID]
  | APPROVED => [EXECUTED; VOID]
  | EXECUTED => [HANDED_OFF; CLOSED]
  | HANDED_OFF => [CLOSED]
  | CLOSED => []
  | VOID => []
  end.

Definition assertAccountingPeriodTransition (current next : AccountingPeriodStatus)
    : result TreasuryError unit :=
  throw_if (negb (includes (ACCOUNTING_PERIOD_TRANSITIONS current) next))
    (CallerSafeError ("Invalid accounting period transition: " ++ period_name current ++ " -> "
       ++ period_name next)).

Definition assertSweepBatchTransition (current next : SweepBatchStatus) : result TreasuryError unit :=
  throw_if (negb (includes (SWEEP_BATCH_TRANSITIONS current) next))
    (CallerSafeError ("Invalid sweep batch transition: " ++ batch_name current ++ " -> "
       ++ batch_name next)).

Definition assertBatchAllocationAllowed (periodStatus : AccountingPeriodStatus)
    (batchStatus : SweepBatchStatus) : result TreasuryError unit :=
  _ ← throw_if (negb (bool_decide (periodStatus = OPEN)))
        (CallerSafeError ("Sweep allocation requires an OPEN accounting period; received "
           ++ period_name periodStatus));
  throw_if (negb (bool_decide (batchStatus = DRAFT)))
    (CallerSafeError ("Sweep allocation requires a DRAFT batch; received " ++ batch_name batchStatus)).

Record BatchExecutionParams := {
  bx_batchStatus : SweepBatchStatus;
  bx_payoutReceiverAddress : option string;
  bx_assetSymbol : string;
  bx_expectedTotalRaw : string;
  bx_allocatedTotalRaw : string;
  bx_observedTxHash : string;
  bx_observedPayoutReceiver : string;
  bx_observedAmountRaw : string;
  bx_verificationOnly : bool }.

Definition assertBatchExecutionMatchable (p : BatchExecutionParams) : result TreasuryError unit :=
  _ ← throw_if (negb (bool_decide (bx_batchStatus p = APPROVED))
                && negb (bx_verificationOnly p
                         && includes [EXECUTED; HANDED_OFF; CLOSED] (bx_batchStatus p)))
        (CallerSafeError ("Matched sweep execution requires batch status APPROVED; received "
           ++ batch_name (bx_batchStatus p)));
  receiver ← match bx_payoutReceiverAddress p with
             | Some r => if truthy r then Ok r else
                 Err (CallerSafeError "Matched sweep execution requires a recorded payout receiver address")
             | None =>
                 Err (CallerSafeError "Matched sweep execution requires a recorded payout receiver address")
             end;
  _ ← throw_if (negb (String.eqb (toUpperCase (trim (bx_assetSymbol p))) "USDC"))
        (CallerSafeError ("Matched sweep execution only supports the escrow USDC asset; received "
           ++ bx_assetSymbol p));
  _ ← throw_if (negb (String.eqb (bx_expectedTotalRaw p) (bx_allocatedTotalRaw p)))
        (CallerSafeError "Sweep batch expected total does not match allocated amount total");
  _ ← throw_if (negb (String.eqb (bx_observedAmountRaw p) (bx_allocatedTotalRaw p)))
        (CallerSafeError "Observed treasury claim amount does not match allocated amount total");
  _ ← throw_if (negb (String.eqb (toLowerCase (trim (bx_observedPayoutReceiver p)))
                        (toLowerCase (trim receiver))))
        (CallerSafeError "Observed treasury claim destination does not match the batch payout receiver");
  throw_if (negb (truthy (trim (bx_observedTxHash p))))
    (CallerSafeError "Matched sweep execution requires an observed treasury claim tx hash").

(** ** Separation of duty *)

Record TransitionActorRecord := { ta_actor : string; ta_actor_role : TransitionActorRole }.

Definition sweepBatchActorRole (status : SweepBatchStatus) : option TransitionActorRole :=
  match status with
  | PENDING_APPROVAL => Some MAKER
  | APPROVED => Some CHECKER
  | EXECUTED => Some EXECUTOR
  | HANDED_OFF => Some EXECUTOR
  | CLOSED => Some CLOSER
  | _ => None
  end.

Definition accountingPeriodActorRole (status : AccountingPeriodStatus) : option TransitionActorRole :=
  match status with
  | PENDING_CLOSE => Some MAKER
  | PERIOD_CLOSED => Some CHECKER
  | OPEN => None
  end.

(** [heldRoles(chain, actor).has(role)] *)
Definition holds_role (chain : list TransitionActorRecord) (actor : string)
    (role : TransitionActorRole) : bool :=
  existsb (fun r => String.eqb (ta_actor r) actor && bool_decide (ta_actor_role r = role)) chain.

Definition is_actor (column : option string) (actor : string) : bool :=
  match column with Some a => String.eqb a actor | None => false end.

Definition assertSweepBatchRoleSeparation (nextStatus : SweepBatchStatus) (actor createdBy : string)
    (approvalRequestedBy approvedBy executedBy : option string)
    (transitionChain : list TransitionActorRecord) : result TreasuryError unit :=
  let held := holds_role transitionChain actor in
  _ ← throw_if (bool_decide (nextStatus = APPROVED)
                && (String.eqb createdBy actor || is_actor approvalRequestedBy actor || held MAKER))
        (CallerSafeError "Sweep batch approval requires a different actor than preparation");
  _ ← throw_if (bool_decide (nextStatus = EXECUTED) && (is_actor approvedBy actor || held CHECKER))
        (CallerSafeError "Sweep batch execution requires a different actor than approval");
  throw_if (bool_decide (nextStatus = CLOSED)
            && (is_actor approvedBy actor || is_actor executedBy actor || held CHECKER
                || held EXECUTOR))
    (CallerSafeError "Sweep batch close requires a different actor than approval or execution").

Definition assertAccountingPeriodRoleSeparation (nextStatus : AccountingPeriodStatus)
    (actor createdBy : string) (transitionChain : list TransitionActorRecord)
    : result TreasuryError unit :=
  if negb (bool_decide (nextStatus = PERIOD_CLOSED)) then Ok tt
  else throw_if (holds_role transitionChain actor MAKER || String.eqb createdBy actor)
         (CallerSafeError "Accounting period close requires a different actor than the close request or period creation").

(** ** Revenue realization *)

(** The handoff statuses of a sweep partner; only COMPLETED matters here. *)
Inductive PartnerHandoffStatus := HANDOFF_COMPLETED | HANDOFF_OTHER (name : string).

Record RealizationReconciliationBinding := {
  rb_runKey : string;
  rb_coverageToBlock : Z;
  rb_entryBlockNumber : Z }.

Definition assertRealizationAllowed (batchStatus : option SweepBatchStatus)
    (partnerHandoffStatus : option PartnerHandoffStatus) (bankPayoutState : option BankPayoutState)
    (revenueRealizationStatus : option RevenueRealizationStatus)
    (reconciliationBinding : option RealizationReconciliationBinding) : result TreasuryError unit :=
  _ ← throw_if (negb (match batchStatus with
                      | Some s => includes [HANDED_OFF; CLOSED] s | None => false end))
        (CallerSafeError "Revenue realization requires a handed-off or closed sweep batch");
  _ ← throw_if (match partnerHandoffStatus with Some HANDOFF_COMPLETED => false | _ => true end)
        (CallerSafeError "Revenue realization requires completed external handoff evidence");
  _ ← throw_if (negb (bool_decide (bankPayoutState = Some BANK_CONFIRMED)))
        (CallerSafeError "Revenue realization requires confirmed bank settlement evidence");
  _ ← throw_if (bool_decide (revenueRealizationStatus = Some REALIZED))
        (CallerSafeError "Ledger entry is already realized");
  _ ← throw_if (bool_decide (revenueRealizationStatus = Some REVERSED))
        (CallerSafeError "Ledger entry has a reversed realization and needs controlled remediation");
  match reconciliationBinding with
  | None => Err (CallerSafeError "Revenue realization requires an accepted reconciliation run bound to the entry block")
  | Some b =>
      throw_if (rb_coverageToBlock b <? rb_entryBlockNumber b)
        (CallerSafeError ("Revenue realization requires reconciliation coverage through block "
           ++ print_Z (rb_entryBlockNumber b) ++ "; run " ++ rb_runKey b ++ " reached only "
           ++ print_Z (rb_coverageToBlock b)))
  end.

(** ** Payout lifecycle (payout.ts, bankPayout.ts) *)

Definition ALLOWED_TRANSITIONS (s : PayoutState) : list PayoutState :=
  match s with
  | PENDING_REVIEW => [READY_FOR_EXTERNAL_HANDOFF; CANCELLED]
  | READY_FOR_EXTERNAL_HANDOFF => [AWAITING_EXTERNAL_CONFIRMATION; CANCELLED]
  | AWAITING_EXTERNAL_CONFIRMATION => [EXTERNAL_EXECUTION_CONFIRMED; CANCELLED]
  | EXTERNAL_EXECUTION_CONFIRMED => []
  | CANCELLED => []
  end.

Definition assertValidTransition (current next : PayoutState) : result TreasuryError unit :=
  throw_if (negb (includes (ALLOWED_TRANSITIONS current) next))
    (CallerSafeError ("Invalid payout state transition: " ++ payout_name current ++ " -> "
       ++ payout_name next)).

Definition canTransition (current : option PayoutState) (next : PayoutState) : bool :=
  match current with Some c => includes (ALLOWED_TRANSITIONS c) next | None => false end.

Definition assertBankPayoutTransition (currentPayoutState : PayoutState) (bankState : BankPayoutState)
    : result TreasuryError unit :=
  _ ← throw_if (bool_decide (currentPayoutState = PENDING_REVIEW)
                || bool_decide (currentPayoutState = READY_FOR_EXTERNAL_HANDOFF))
        (CallerSafeError ("External execution evidence is not valid while payout state is "
           ++ payout_name currentPayoutState));
  _ ← throw_if (bool_decide (currentPayoutState = CANCELLED))
        (CallerSafeError "External execution evidence is not valid for cancelled payout entries");
  throw_if (bool_decide (bankState = BANK_PENDING)
            && negb (bool_decide (currentPayoutState = AWAITING_EXTERNAL_CONFIRMATION)))
    (CallerSafeError "Pending external execution evidence requires state AWAITING_EXTERNAL_CONFIRMATION").

(** ** Canonical entries (sweepCanonicality.ts) *)

Definition sweepTransitionRequiresCanonicalEntries (status : SweepBatchStatus) : bool :=
  includes [PENDING_APPROVAL; APPROVED; CLOSED] status.

Definition assertSweepEntriesCanonical (entries : list (Z * ChainCanonicalityState))
    : result TreasuryError unit :=
  let blocked := List.filter (fun e => negb (bool_decide (e.2 = CANONICAL))) entries in
  match blocked with
  | [] => Ok tt
  | _ => Err (SweepCanonicalityError (map fst blocked))
  end.

(** ** Finalized evidence (finalizedTransaction.ts, sweepFinalityProgression.ts) *)

Record TreasuryFinalizedEvidence := {
  fe_policyVersion : string;
  fe_chainId : string;
  fe_transactionHash : string;
  fe_blockNumber : string;
  fe_blockHash : string;
  fe_rpcWitnesses : list string;
  fe_finalizedHeads : list (string * string);
  fe_verifiedAt : option Z }.

Definition lower_hex_text (n : nat) (s : string) : bool :=
  (String.length s =? n)%nat && all_chars is_lower_hex s.

(** Everything the evidence must satisfy; a [BigInt] of a malformed block number
    throws as well. *)
Definition evidence_fresh (evidence : TreasuryFinalizedEvidence)
    (transactionHash blockNumber : string) (now : Z) : bool :=
  String.eqb (fe_policyVersion evidence) "treasury_dual_rpc_finalized_v1"
  && String.eqb (fe_transactionHash evidence) (toLowerCase transactionHash)
  && String.eqb (fe_blockNumber evidence) blockNumber
  && lower_hex_word 64 (fe_blockHash evidence)
  && (canonical_digits (fe_chainId evidence) && negb (String.eqb (fe_chainId evidence) "0"))
  && match fe_verifiedAt evidence with
     | Some t => (t <=? now) && (now - t <=? 10000)
     | None => false
     end
  && (length (fe_rpcWitnesses evidence) =? 2)%nat
  && (length (remove_dups (fe_rpcWitnesses evidence)) =? 2)%nat
  && forallb (lower_hex_text 64) (fe_rpcWitnesses evidence)
  && (length (fe_finalizedHeads evidence) =? 2)%nat
  && forallb (fun head =>
        lower_hex_word 64 head.2 && canonical_digits head.1
        && match js_BigInt head.1, js_BigInt blockNumber with
           | Some h, Some b => b <=? h
           | _, _ => false
           end) (fe_finalizedHeads evidence).

Definition assertFreshTreasuryFinalizedEvidence (evidence : option TreasuryFinalizedEvidence)
    (transactionHash blockNumber : string) (now : Z) : result TreasuryError unit :=
  throw_if (negb (match evidence with
                  | Some e => evidence_fresh e transactionHash blockNumber now
                  | None => false
                  end))
    (PlainError "Fresh independent finalized treasury evidence is required to commit sweep accounting").

(** The five fields that identify the sweep a piece of evidence is about. *)
Definition same_evidence (a b : TreasuryFinalizedEvidence) : bool :=
  String.eqb (fe_policyVersion a) (fe_policyVersion b)
  && String.eqb (fe_chainId a) (fe_chainId b)
  && String.eqb (fe_transactionHash a) (fe_transactionHash b)
  && String.eqb (fe_blockHash a) (fe_blockHash b)
  && String.eqb (fe_blockNumber a) (fe_blockNumber b).

(** [truthy] on a nullable text column. *)
Definition present (s : option string) : option string :=
  match s with Some t => if truthy t then Some t else None | None => None end.

Definition assertSweepFinalityForProgression (original : option TreasuryFinalizedEvidence)
    (matchedTxHash matchedBlockNumber : option string)
    (evidence : option TreasuryFinalizedEvidence) (now : Z) : result TreasuryError unit :=
  match evidence, original, present matchedTxHash, present matchedBlockNumber with
  | Some e, Some o, Some tx, Some bn =>
      _ ← assertFreshTreasuryFinalizedEvidence (Some e) tx bn now;
      throw_if (negb (same_evidence o e))
        (PlainError "Original sweep evidence changed; financial progression is blocked")
  | _, _, _, _ =>
      Err (PlainError "Original finalized sweep evidence is required for financial progression")
  end.

(** ** Actor identity (actorIdentity.ts) *)

Record TreasuryAuthPrincipal := {
  apiKeyId : string;
  humanPrincipalId : option string }.

Record ActorResolutionOptions := {
  authEnabled : bool;
  delegationApiKeyIds : list string;
  actor_field : string }.

Definition ACTOR_MAX_LENGTH : nat := 255.
Definition DELEGATION_SEPARATOR : string := "::".

Definition principalActor (principal : TreasuryAuthPrincipal) : string :=
  match present (humanPrincipalId principal) with
  | Some h => h
  | None => "service:" ++ apiKeyId principal
  end.

Definition resolveAuthenticatedActor (serviceAuth : option TreasuryAuthPrincipal)
    (claimedActor : option string) (options : ActorResolutionOptions)
    : result TreasuryError string :=
  let claimed := trimmed_or_null claimedActor in
  if negb (authEnabled options) then
    match claimed with
    | Some c => Ok c
    | None => Err (HttpError 400 "ValidationError"
                (actor_field options ++ " is required while service authentication is disabled"))
    end
  else
    match serviceAuth with
    | Some principal =>
        if truthy (apiKeyId principal) then
          let authenticatedActor := principalActor principal in
          match claimed with
          | None => Ok authenticatedActor
          | Some c =>
              if String.eqb c authenticatedActor then Ok authenticatedActor
              else
                _ ← throw_if (negb (includes (delegationApiKeyIds options) (apiKeyId principal)))
                      (HttpError 403 "ActorMismatch"
                         (actor_field options ++ " does not match the authenticated principal"));
                let delegatedActor := authenticatedActor ++ DELEGATION_SEPARATOR ++ c in
                _ ← throw_if (ACTOR_MAX_LENGTH <? String.length delegatedActor)%nat
                      (HttpError 400 "ValidationError"
                         (actor_field options ++ " is too long to record as a delegated treasury actor"));
                Ok delegatedActor
          end
        else Err (HttpError 401 "ActorUnauthenticated"
                    "Treasury transitions require an authenticated principal")
    | None => Err (HttpError 401 "ActorUnauthenticated"
                     "Treasury transitions require an authenticated principal")
    end.

Definition resolveOptionalAuthenticatedActor (serviceAuth : option TreasuryAuthPrincipal)
    (claimedActor : option string) (options : ActorResolutionOptions)
    : result TreasuryError (option string) :=
  if negb (authEnabled options) then Ok (trimmed_or_null claimedActor)
  else a ← resolveAuthenticatedActor serviceAuth claimedActor options; Ok (Some a).

(** ** Lemmas *)

Lemma holds_role_true chain actor role :
  holds_role chain actor role = true <->
  exists r, r ∈ chain /\ ta_actor r = actor /\ ta_actor_role r = role.
Proof.
  unfold holds_role. rewrite existsb_exists. split.
  - intros (r & Hin%list_elem_of_In & H). reflect_bools. eauto.
  - intros (r & Hin & <- & <-). exists r. split; [by apply list_elem_of_In|].
    by rewrite String.eqb_refl, bool_decide_eq_true_2.
Qed.

Lemma is_actor_true c a : is_actor c a = true <-> c = Some a.
Proof.
  destruct c as [x|]; simpl; [rewrite String.eqb_eq|]; split; congruence.
Qed.

Lemma assertSweepEntriesCanonical_ok entries u :
  assertSweepEntriesCanonical entries = Ok u <-> Forall (fun e => e.2 = CANONICAL) entries.
Proof.
  destruct u. unfold assertSweepEntriesCanonical.
  induction entries as [|[i s] l IH]; simpl; [split; [constructor|done]|].
  rewrite Forall_cons. simpl. destruct (bool_decide_reflect (s = CANONICAL)); simpl.
  - rewrite IH. naive_solver.
  - split; [done|]. naive_solver.
Qed.

(** With authentication on, a resolved actor always names the authenticated
    principal: it is the principal's own identity, or, only for an API key on the
    delegation allowlist, that identity followed by the operator it claims, which
    fits the actor column.  A caller outside the allowlist cannot act under any
    other name. *)
Theorem resolved_actor_is_authenticated auth claimed options actor :
  authEnabled options = true ->
  resolveAuthenticatedActor auth claimed options = Ok actor ->
  exists p, auth = Some p /\ apiKeyId p <> "" /\
    (actor = principalActor p \/
     (apiKeyId p ∈ delegationApiKeyIds options /\
      exists c, trimmed_or_null claimed = Some c /\ c <> principalActor p /\
        actor = principalActor p ++ "::" ++ c /\ (String.length actor <= 255)%nat)).
Proof.
  unfold resolveAuthenticatedActor. intros -> H. simpl in H.
  destruct auth as [p|]; [|done]. destruct (truthy (apiKeyId p)) eqn:Ht; [|done].
  exists p. split; [done|]. unfold truthy in Ht. reflect_bools. split; [done|].
  destruct (trimmed_or_null claimed) as [c|]; [|injection H as <-; by left].
  destruct (String.eqb c (principalActor p)) eqn:Hne; [injection H as <-; by left|].
  apply String.eqb_neq in Hne. right. apply throw_if_bind in H as [Hd H]. apply throw_if_bind in H as [Hl H]. injection H as <-.
  reflect_bools. apply includes_true in Hd. apply Nat.ltb_ge in Hl. split; [done|].
  exists c. split_and!; done.
Qed.

Lemma resolved_actor_is_authenticated_witness :
  resolveAuthenticatedActor (Some {| apiKeyId := "gw"; humanPrincipalId := None |}) (Some " bob ")
    {| authEnabled := true; delegationApiKeyIds := ["gw"]; actor_field := "actor" |}
    = Ok "service:gw::bob" /\
  exists p, Some {| apiKeyId := "gw"; humanPrincipalId := None |} = Some p /\ apiKeyId p <> "".
Proof.
  assert (H : resolveAuthenticatedActor (Some {| apiKeyId := "gw"; humanPrincipalId := None |})
    (Some " bob ") {| authEnabled := true; delegationApiKeyIds := ["gw"]; actor_field := "actor" |}
    = Ok "service:gw::bob") by (vm_compute; reflexivity).
  split; [exact H|].
  destruct (resolved_actor_is_authenticated _ _
    {| authEnabled := true; delegationApiKeyIds := ["gw"]; actor_field := "actor" |} _ eq_refl H) as (p & Hp & Hk & _).
  exists p. split; [exact Hp|exact Hk].
Defined.

(** Progression evidence: a sweep may only be handed off, closed or realized
    on evidence no older than ten seconds, from two distinct witnesses whose
    finalized heads are at or above the matched block, about the very
    transaction, block and chain the execution was recorded with. *)
Theorem progression_needs_fresh_evidence original tx bn evidence now :
  assertSweepFinalityForProgression original tx bn evidence now = Ok tt ->
  exists o e t b v w1 w2, original = Some o /\ evidence = Some e /\ tx = Some t /\ bn = Some b /\
    fe_transactionHash e = toLowerCase t /\ fe_blockNumber e = b /\
    fe_transactionHash o = fe_transactionHash e /\ fe_blockNumber o = fe_blockNumber e /\
    fe_blockHash o = fe_blockHash e /\ fe_chainId o = fe_chainId e /\
    fe_verifiedAt e = Some v /\ v <= now <= v + 10000 /\
    fe_rpcWitnesses e = [w1; w2] /\ w1 <> w2 /\
    Forall (fun head => exists h n, js_BigInt head.1 = Some h /\ js_BigInt b = Some n /\ n <= h)
      (fe_finalizedHeads e) /\ length (fe_finalizedHeads e) = 2%nat.
Proof.
  unfold assertSweepFinalityForProgression. intros H.
  destruct evidence as [e|], original as [o|]; try done.
  destruct tx as [t|]; [|done]. unfold present in H. destruct (truthy t); [|done].
  destruct bn as [b|]; [|done]. destruct (truthy b); [|done].
  inv_ok. unfold assertFreshTreasuryFinalizedEvidence, evidence_fresh, same_evidence in *.
  inv_ok. reflect_bools.
  destruct (fe_verifiedAt e) as [v|] eqn:Ev; [|done]. reflect_bools.
  repeat match goal with H : (_ =? _)%nat = true |- _ => apply Nat.eqb_eq in H end.
  destruct (fe_rpcWitnesses e) as [|w1 [|w2 [|? ?]]] eqn:Ew; try done.
  exists o, e, t, b, v, w1, w2. split_and!; try done; try lia.
  - intros ->. match goal with H : length (remove_dups [w2; w2]) = 2%nat |- _ => revert H end.
    simpl. destruct (decide_rel _ _ _) as [|Hn]; simpl; [done|]. exfalso. apply Hn. left.
  - match goal with H : forallb _ (fe_finalizedHeads e) = true |- _ => apply forallb_true in H;
      eapply Forall_impl; [exact H|] end.
    intros head Hh. simpl in Hh. reflect_bools.
    destruct (js_BigInt head.1) as [h|]; [|done]. destruct (js_BigInt b) as [n|]; [|done].
    reflect_bools. exists h, n. done.
Qed.

Definition sample_evidence : TreasuryFinalizedEvidence :=
  {| fe_policyVersion := "treasury_dual_rpc_finalized_v1"; fe_chainId := "8453";
     fe_transactionHash := "0x" ++ repeat_char 64 "a"%char; fe_blockNumber := "100";
     fe_blockHash := "0x" ++ repeat_char 64 "b"%char;
     fe_rpcWitnesses := [repeat_char 64 "1"%char; repeat_char 64 "2"%char];
     fe_finalizedHeads := [("120", "0x" ++ repeat_char 64 "c"%char);
                           ("121", "0x" ++ repeat_char 64 "d"%char)];
     fe_verifiedAt := Some 5000 |}.

Lemma progression_needs_fresh_evidence_witness :
  exists v, fe_verifiedAt sample_evidence = Some v /\ v <= 6000 <= v + 10000.
Proof.
  destruct (progression_needs_fresh_evidence (Some sample_evidence)
    (Some ("0x" ++ repeat_char 64 "A"%char)) (Some "100") (Some sample_evidence) 6000)
    as (o & e & t & b & v & w1 & w2 & H1 & H2 & H3 & H4 & H5 & H6 & H7 & H8 & H9 & H10 & H11 & H12 & _).
  - vm_compute. reflexivity.
  - injection H2 as <-. exists v. split; [exact H11|exact H12].
Defined.
