(* ===== verification/TreasuryChain.v ===== *)
(** Chain canonicality of ledger entries: the pure part of
    [treasury/src/core/chainCanonicality.ts].

    A stored entry names a log by transaction, block, position, emitter and a
    digest of the log's contents; [verify] compares it with the receipt the
    settlement RPC answers.  SHA-256 is a parameter.  Diagnostic [detail] texts are
    left out. *)
From stdpp Require Import base list strings.
From S2P Require Import Prelude JsText JsJson TreasuryPolicy.

Open Scope string_scope.
Open Scope Z_scope.

(** ** Logs and receipts *)

Record SettlementLog := {
  sl_index : Z;
  sl_address : option string;
  sl_topics : option (list string);
  sl_data : option string
}.

Record SettlementReceipt := {
  rc_blockNumber : Z;
  rc_blockHash : option string;
  rc_status : option Z;
  rc_logs : option (list SettlementLog)
}.

(** What [computeLogIdentityHash] hashes: emitter, topics, data in lower case. *)
Definition normal (s : string) : string := toLowerCase (trim s).

Definition log_content (log : SettlementLog) : string * list string * string :=
  (normal (default "" (sl_address log)), normal <$> default [] (sl_topics log),
   normal (default "" (sl_data log))).

Definition content_text (c : string * list string * string) : string :=
  let '(address, topics, data) := c in
  "{" ++ js_quoted "address" ++ ":" ++ js_quoted address ++ "," ++ js_quoted "topics" ++ ":[" ++
  js_elements topics ++ "]," ++ js_quoted "data" ++ ":" ++ js_quoted data ++ "}".

Definition normalizeLogAddress (value : option string) : option string :=
  match value with
  | Some s => let n := toLowerCase (trim s) in if lower_hex_word 40 n then Some n else None
  | None => None
  end.

Definition normalizeBlockHash (value : option string) : option string :=
  match value with
  | Some s => let n := toLowerCase (trim s) in if lower_hex_word 64 n then Some n else None
  | None => None
  end.

(** ** Verdicts *)

Inductive ChainMismatchReason :=
| RECEIPT_MISSING | RECEIPT_REVERTED | BLOCK_HASH_MISMATCH | BLOCK_NUMBER_MISMATCH
| LOG_IDENTITY_MISMATCH | LOG_CONTENT_MISMATCH.

Record ChainLogIdentity := {
  li_txHash : string;
  li_blockNumber : Z;
  li_blockHash : option string;
  li_logIndex : option Z;
  li_logAddress : option string;
  li_logIdentityHash : option string
}.

Inductive ChainCanonicalityVerdict :=
| CanonicalVerdict (blockHash : string) (stableBlockNumber : Z)
| OrphanedVerdict (reason : ChainMismatchReason) (expectedBlockHash observedBlockHash : option string)
    (observedBlockNumber observedLogIndex : option Z) (depth stableBlockNumber : Z)
| UnverifiedVerdict (stableBlockNumber : option Z).

Section chain.
Context (sha256 : string -> string).

Definition computeLogIdentityHash (log : SettlementLog) : string := sha256 (content_text (log_content log)).

(** [resolveLogIdentity], from the receipt of the transaction. *)
Definition resolveLogIdentity (receipt : option SettlementReceipt) (logIndex : Z)
    : option (string * string) :=
  match receipt with
  | None => None
  | Some r =>
      if bool_decide (rc_status r = Some 0) then None
      else
        match rc_logs r with
        | None => None
        | Some logs =>
            match List.find (fun l => sl_index l =? logIndex) logs with
            | None => None
            | Some log =>
                match normalizeLogAddress (sl_address log) with
                | Some address => Some (address, computeLogIdentityHash log)
                | None => None
                end
            end
        end
  end.

(** [verify]: [answer] is what the receipt lookup answers or throws. *)
Definition verify (configured : bool) (entry : ChainLogIdentity)
    (answer : result string (option SettlementReceipt)) (stableBlockNumber : Z)
    : ChainCanonicalityVerdict :=
  if negb configured then UnverifiedVerdict None
  else
    match normalizeBlockHash (li_blockHash entry), li_logIndex entry,
          normalizeLogAddress (li_logAddress entry), li_logIdentityHash entry with
    | Some expectedBlockHash, Some logIndex, Some expectedLogAddress, Some logIdentityHash =>
        if negb (truthy logIdentityHash) then UnverifiedVerdict (Some stableBlockNumber)
        else
          match answer with
          | Err _ => UnverifiedVerdict (Some stableBlockNumber)
          | Ok receipt =>
              let orphaned reason hash number index :=
                OrphanedVerdict reason (Some expectedBlockHash) hash number index
                  (Z.max 0 (stableBlockNumber - li_blockNumber entry)) stableBlockNumber in
              match receipt with
              | None => orphaned RECEIPT_MISSING None None None
              | Some r =>
                  let observedBlockNumber := rc_blockNumber r in
                  let observedBlockHash := normalizeBlockHash (rc_blockHash r) in
                  let moved reason := orphaned reason observedBlockHash (Some observedBlockNumber) None in
                  if match rc_status r with Some s => negb (s =? 1) | None => false end
                  then moved RECEIPT_REVERTED
                  else if negb (observedBlockNumber =? li_blockNumber entry)
                  then moved BLOCK_NUMBER_MISMATCH
                  else if negb (bool_decide (observedBlockHash = Some expectedBlockHash))
                  then moved BLOCK_HASH_MISMATCH
                  else
                    match rc_logs r with
                    | None => UnverifiedVerdict (Some stableBlockNumber)
                    | Some logs =>
                        match List.find (fun l => sl_index l =? logIndex) logs with
                        | None =>
                            orphaned LOG_IDENTITY_MISMATCH observedBlockHash
                              (Some observedBlockNumber) (sl_index <$> head logs)
                        | Some log =>
                            if negb (bool_decide (normalizeLogAddress (sl_address log)
                                                  = Some expectedLogAddress))
                               || negb (String.eqb (computeLogIdentityHash log) logIdentityHash)
                            then orphaned LOG_CONTENT_MISMATCH observedBlockHash
                                   (Some observedBlockNumber) (Some (sl_index log))
                            else CanonicalVerdict expectedBlockHash stableBlockNumber
                        end
                    end
              end
          end
    | _, _, _, _ => UnverifiedVerdict (Some stableBlockNumber)
    end.

End chain.

(** ** The hashed text determines the contents *)

Lemma content_text_inj c c' : content_text c = content_text c' -> c = c'.
Proof.
  destruct c as [[a ts] d], c' as [[a' ts'] d']. unfold content_text. intros H.
  do 3 apply text_app_inj in H. apply js_quoted_inj in H as [-> H]. do 3 apply text_app_inj in H.
  apply (js_elements_inj ts ts' (String _ _) (String _ _)) in H as [-> H]. injection H as H.
  rewrite !text_assoc in H. by apply js_escaped_inj in H as [-> _].
Qed.

(** ** The verdict *)

(** What the answered receipt has to say for an entry to be canonical. *)
Definition receipt_confirms (sha256 : string -> string) (entry : ChainLogIdentity) (r : SettlementReceipt)
    (h : string) (log : SettlementLog) : Prop :=
  rc_status r ∈ [None; Some 1] /\ rc_blockNumber r = li_blockNumber entry /\
  normalizeBlockHash (li_blockHash entry) = Some h /\ normalizeBlockHash (rc_blockHash r) = Some h /\
  is_Some (normalizeLogAddress (li_logAddress entry)) /\
  normalizeLogAddress (sl_address log) = normalizeLogAddress (li_logAddress entry) /\
  li_logIdentityHash entry = Some (computeLogIdentityHash sha256 log) /\
  exists i logs, li_logIndex entry = Some i /\ rc_logs r = Some logs /\
    List.find (fun l => sl_index l =? i) logs = Some log.

Lemma verify_canonical sha256 entry answer stable h s :
  verify sha256 true entry answer stable = CanonicalVerdict h s ->
  s = stable /\ exists r log, answer = Ok (Some r) /\ receipt_confirms sha256 entry r h log.
Proof.
  unfold verify. cbn [negb]. intros H.
  destruct (normalizeBlockHash (li_blockHash entry)) as [eh|] eqn:Eh; [|done].
  destruct (li_logIndex entry) as [i|] eqn:Ei; [|done].
  destruct (normalizeLogAddress (li_logAddress entry)) as [ea|] eqn:Ea; [|done].
  destruct (li_logIdentityHash entry) as [ed|] eqn:Ed; [|done].
  destruct (truthy ed); [|done]. cbn [negb] in H.
  destruct answer as [[r|]|]; [|done|done].
  destruct (match rc_status r with Some s => _ | None => _ end) eqn:Es; [done|].
  destruct (rc_blockNumber r =? li_blockNumber entry) eqn:En; [|done].
  destruct (bool_decide_reflect (normalizeBlockHash (rc_blockHash r) = Some eh)) as [Hh|]; [|done].
  destruct (rc_logs r) as [logs|] eqn:El; [|done].
  destruct (List.find _ logs) as [log|] eqn:Ef; [|done]. cbn [negb] in H.
  destruct (bool_decide_reflect (normalizeLogAddress (sl_address log) = Some ea)) as [Hl|]; [|done].
  destruct (String.eqb_spec (computeLogIdentityHash sha256 log) ed) as [Hd|]; [|done].
  injection H as <- <-. split; [done|]. exists r, log. split; [done|].
  assert (Hs : rc_status r ∈ [None; Some 1]).
  { destruct (rc_status r) as [st|]; [|left]. apply negb_false_iff, Z.eqb_eq in Es as ->. right. left. }
  apply Z.eqb_eq in En. split_and!; try congruence; eauto.
Qed.

Lemma verify_confirmed sha256 entry r h log stable :
  receipt_confirms sha256 entry r h log -> computeLogIdentityHash sha256 log <> "" ->
  verify sha256 true entry (Ok (Some r)) stable = CanonicalVerdict h stable.
Proof.
  intros (Hs & Hn & Hb & Hrb & [a Ha] & Hl & Hd & i & logs & Hi & Hlogs & Hf) Hne.
  unfold verify. cbn [negb]. rewrite Hb, Hi, Ha, Hd.
  assert (truthy (computeLogIdentityHash sha256 log) = true) as ->
    by (by destruct (computeLogIdentityHash sha256 log)). cbn [negb].
  assert (match rc_status r with Some s => negb (s =? 1) | None => false end = false) as ->.
  { apply elem_of_cons in Hs as [-> |Hs%list_elem_of_singleton]; [done|by rewrite Hs]. }
  rewrite Hn, Z.eqb_refl. cbn [negb]. rewrite Hrb, bool_decide_eq_true_2 by done. cbn [negb].
  rewrite Hlogs, Hf, Hl, Ha, bool_decide_eq_true_2, String.eqb_refl by done. done.
Qed.

Lemma verify_unverified sha256 entry answer stable s :
  verify sha256 true entry answer stable = UnverifiedVerdict s ->
  normalizeBlockHash (li_blockHash entry) = None \/ li_logIndex entry = None \/
  normalizeLogAddress (li_logAddress entry) = None \/
  match li_logIdentityHash entry with Some d => truthy d = false | None => True end \/
  (exists e, answer = Err e) \/ (exists r, answer = Ok (Some r) /\ rc_logs r = None).
Proof.
  unfold verify. cbn [negb]. intros H.
  destruct (normalizeBlockHash (li_blockHash entry)); [|tauto].
  destruct (li_logIndex entry); [|tauto]. destruct (normalizeLogAddress (li_logAddress entry)); [|tauto].
  destruct (li_logIdentityHash entry) as [d|]; [|tauto]. destruct (truthy d); [|tauto].
  destruct answer as [[r|]|]; [|done|eauto 9]. cbn [negb] in H.
  destruct (match rc_status r with Some s => _ | None => _ end); [done|].
  destruct (rc_blockNumber r =? li_blockNumber entry); [|done]. cbn [negb] in H.
  destruct (bool_decide _); [|done]. cbn [negb] in H.
  destruct (rc_logs r) as [logs|] eqn:E; [|eauto 9].
  destruct (List.find _ logs) as [log|]; [|done]. by destruct (_ || _).
Qed.

(** The identity ingestion recorded of a log: its block, position, emitter and
    digest. *)
Definition full_identity (entry : ChainLogIdentity) (h : string) (i : Z) (a d : string) : Prop :=
  normalizeBlockHash (li_blockHash entry) = Some h /\ li_logIndex entry = Some i /\
  normalizeLogAddress (li_logAddress entry) = Some a /\ li_logIdentityHash entry = Some d /\ d <> "".

(** How an answered receipt contradicts that identity. *)
Definition contradicts (sha256 : string -> string) (entry : ChainLogIdentity) (h : string) (i : Z)
    (a d : string) (receipt : option SettlementReceipt) (reason : ChainMismatchReason) : Prop :=
  match reason, receipt with
  | RECEIPT_MISSING, None => True
  | RECEIPT_REVERTED, Some r => exists s, rc_status r = Some s /\ s <> 1
  | BLOCK_NUMBER_MISMATCH, Some r => rc_blockNumber r <> li_blockNumber entry
  | BLOCK_HASH_MISMATCH, Some r => normalizeBlockHash (rc_blockHash r) <> Some h
  | LOG_IDENTITY_MISMATCH, Some r =>
      exists logs, rc_logs r = Some logs /\ Forall (fun l => sl_index l <> i) logs
  | LOG_CONTENT_MISMATCH, Some r =>
      exists logs log, rc_logs r = Some logs /\ List.find (fun l => sl_index l =? i) logs = Some log /\
        (normalizeLogAddress (sl_address log) <> Some a \/ computeLogIdentityHash sha256 log <> d)
  | _, _ => False
  end.

Lemma verify_orphaned sha256 entry answer stable reason eh oh on oi depth s :
  verify sha256 true entry answer stable = OrphanedVerdict reason eh oh on oi depth s ->
  s = stable /\ exists h i a d receipt, full_identity entry h i a d /\ eh = Some h /\
    answer = Ok receipt /\ contradicts sha256 entry h i a d receipt reason.
Proof.
  unfold verify. cbn [negb]. intros H.
  destruct (normalizeBlockHash (li_blockHash entry)) as [h|] eqn:Eh; [|done].
  destruct (li_logIndex entry) as [i|] eqn:Ei; [|done].
  destruct (normalizeLogAddress (li_logAddress entry)) as [a|] eqn:Ea; [|done].
  destruct (li_logIdentityHash entry) as [d|] eqn:Ed; [|done].
  destruct (negb (truthy d)) eqn:Et; [done|].
  assert (Hid : full_identity entry h i a d) by (split_and!; [done..|by destruct d]).
  destruct answer as [receipt|]; [|done].
  enough (s = stable /\ eh = Some h /\ contradicts sha256 entry h i a d receipt reason)
    as (-> & -> & Hc) by (split; [done|]; by exists h, i, a, d, receipt).
  destruct receipt as [r|]; [|by injection H as <- <- <- <- <- <- <-].
  destruct (match rc_status r with Some _ => _ | None => _ end) eqn:Es.
  { injection H as <- <- <- <- <- <- <-. split_and!; [done..|]. simpl.
    destruct (rc_status r) as [st|]; [|done]. exists st. by apply negb_true_iff, Z.eqb_neq in Es. }
  destruct (negb (rc_blockNumber r =? li_blockNumber entry)) eqn:En.
  { injection H as <- <- <- <- <- <- <-. split_and!; [done..|]. by apply negb_true_iff, Z.eqb_neq in En. }
  destruct (bool_decide_reflect (normalizeBlockHash (rc_blockHash r) = Some h)) as [|Hn]; cbn [negb] in H.
  2: { by injection H as <- <- <- <- <- <- <-. }
  destruct (rc_logs r) as [logs|] eqn:El; [|done].
  destruct (List.find _ logs) as [log|] eqn:Ef.
  - destruct (_ || _) eqn:Ec; [|done]. injection H as <- <- <- <- <- <- <-. split_and!; [done..|].
    exists logs, log. split_and!; [done..|]. apply orb_true_iff in Ec as [Ec|Ec].
    + left. by apply negb_true_iff, bool_decide_eq_false in Ec.
    + right. by apply negb_true_iff, String.eqb_neq in Ec.
  - injection H as <- <- <- <- <- <- <-. split_and!; [done..|]. exists logs. split; [done|].
    apply Forall_forall. intros l Hl Hi. apply list_elem_of_In in Hl.
    apply (List.find_none _ _ Ef) in Hl. simpl in Hl. by apply Z.eqb_neq in Hl.
Qed.

(** C32. The chain's verdict on a ledger entry, in both directions.  CANONICAL is
    returned exactly when a settlement RPC is configured and answered a receipt that
    is not reverted, sits in the ingested block by number and by hash, and holds, at
    the ingested position, a log of the ingested emitter whose digest is the ingested
    one; then its emitter, topics and data are those of the log read at ingestion,
    unless two different texts have the same SHA-256.  ORPHANED is returned only for
    an entry with a full identity, on an answered receipt that contradicts it in the
    way the reason says: no receipt, one that reverted or is in another block by
    number or hash, one whose logs have none at the position, or one of another
    emitter or digest there.  Everything else is UNVERIFIED: an RPC that is not
    configured or fails, a receipt without logs or an entry without a full identity
    never revokes anything. *)
Theorem canonical_verdict_exact sha256 configured entry answer stable :
  match verify sha256 configured entry answer stable with
  | CanonicalVerdict h s =>
      configured = true /\ s = stable /\
      exists r log, answer = Ok (Some r) /\ receipt_confirms sha256 entry r h log /\
        forall log0, li_logIdentityHash entry = Some (computeLogIdentityHash sha256 log0) ->
          log_content log = log_content log0 \/
          exists t t0, t <> t0 /\ sha256 t = sha256 t0
  | OrphanedVerdict reason eh _ _ _ _ s =>
      configured = true /\ s = stable /\
      exists h i a d receipt, full_identity entry h i a d /\ eh = Some h /\ answer = Ok receipt /\
        contradicts sha256 entry h i a d receipt reason /\
        forall r h log, receipt = Some r -> computeLogIdentityHash sha256 log <> "" ->
          ~ receipt_confirms sha256 entry r h log
  | UnverifiedVerdict _ =>
      configured = false \/
      (forall r h log, answer = Ok (Some r) -> computeLogIdentityHash sha256 log <> "" ->
         ~ receipt_confirms sha256 entry r h log) /\
      (normalizeBlockHash (li_blockHash entry) = None \/ li_logIndex entry = None \/
       normalizeLogAddress (li_logAddress entry) = None \/
       match li_logIdentityHash entry with Some d => truthy d = false | None => True end \/
       (exists e, answer = Err e) \/ (exists r, answer = Ok (Some r) /\ rc_logs r = None))
  end.
Proof.
  destruct configured; [|by left].
  destruct (verify sha256 true entry answer stable) as [h s|reason eh oh on oi depth s|s] eqn:E.
  - pose proof (verify_canonical _ _ _ _ _ _ E) as [-> (r & log & -> & Hc)]. split_and!; [done..|].
    exists r, log. split_and!; [done|done|]. intros log0 Hd.
    destruct Hc as (_ & _ & _ & _ & _ & _ & Hd' & _). rewrite Hd' in Hd. injection Hd as Hd.
    unfold computeLogIdentityHash in Hd.
    destruct (decide (content_text (log_content log) = content_text (log_content log0))) as [Ht|Hn];
      [left; by apply content_text_inj|right; eauto].
  - destruct (verify_orphaned _ _ _ _ _ _ _ _ _ _ _ E) as [-> (h & i & a & d & receipt & ? & ? & -> & ?)].
    split_and!; [done..|]. exists h, i, a, d, receipt. split_and!; [done..|].
    intros r h' log -> Hne Hc. by rewrite (verify_confirmed _ _ _ _ _ _ Hc Hne) in E.
  - right. split; [|by eapply verify_unverified]. intros r h log -> Hne Hc.
    by rewrite (verify_confirmed _ _ _ _ _ _ Hc Hne) in E.
Qed.
