(* ===== verification/TreasuryDb.v ===== *)
(** The treasury maker-checker store: treasury/src/database/queries
    (accountingPeriods.ts, sweepBatches.ts, sweepBatchTransitions.ts,
    transitionActors.ts, the claim upsert of treasuryClaims.ts and
    chainCanonicality.ts).

    The tables are the fields of [db].  Every operation runs in one transaction
    on rows locked [FOR UPDATE], so concurrent operations on the same rows are
    serialized: the model is a step relation on whole operations, and the
    expected-state predicate of each [UPDATE] holds for the row just read.  A
    thrown error rolls back: [Err] carries no new database.  Serial identifiers
    and clock readings are arguments. *)
From stdpp Require Import base list gmap strings.
From S2P Require Import Prelude JsText TreasuryAmount TreasuryPolicy TreasuryChain.

Open Scope string_scope.
Open Scope Z_scope.

Record AccountingPeriod := {
  ap_period_key : string;
  ap_starts_at : Z;
  ap_ends_at : Z;
  ap_status : AccountingPeriodStatus;
  ap_created_by : string;
  ap_close_reason : option string;
  ap_pending_close_at : option Z;
  ap_closed_at : option Z;
  ap_closed_by : option string }.

(** Of the [metadata] column only [settlementFinalizedEvidence] is read back. *)
Record SweepBatch := {
  sb_batch_key : string;
  sb_accounting_period_id : Z;
  sb_asset_symbol : string;
  sb_status : SweepBatchStatus;
  sb_expected_total_raw : string;
  sb_payout_receiver_address : option string;
  sb_approval_requested_at : option Z;
  sb_approval_requested_by : option string;
  sb_approved_at : option Z;
  sb_approved_by : option string;
  sb_matched_sweep_tx_hash : option string;
  sb_matched_sweep_block_number : option string;
  sb_matched_swept_at : option Z;
  sb_executed_by : option string;
  sb_closed_at : option Z;
  sb_closed_by : option string;
  sb_created_by : string;
  sb_finalized_evidence : option TreasuryFinalizedEvidence }.

Inductive TreasuryComponent := LOGISTICS | PLATFORM_FEE | SETTLEMENT_SUPPORT_FEE.

#[export] Instance TreasuryComponent_eq_dec : EqDecision TreasuryComponent.
Proof. solve_decision. Defined.

(** The columns [metadata] and [created_at] are left out. *)
Record LedgerEntry := {
  le_entry_key : string;
  le_trade_id : string;
  le_tx_hash : string;
  le_block_number : Z;
  le_block_hash : option string;
  le_log_index : option Z;
  le_log_address : option string;
  le_log_identity_hash : option string;
  le_event_name : string;
  le_component_type : TreasuryComponent;
  le_amount_raw : string;
  le_source_timestamp : Z;
  le_canonicality_state : ChainCanonicalityState;
  le_canonicality_verified_at : option Z;
  le_observed_block_hash : option string;
  le_canonicality_depth : option Z;
  le_stable_block_number : option Z }.

Record PayoutLifecycleEvent := {
  pl_ledger_entry_id : Z;
  pl_state : PayoutState;
  pl_actor : option string }.

(** A row of [treasury_chain_reorg_events]; the text [detail] is left out. *)
Record LedgerChainReorgEvent := {
  re_ledger_entry_id : Z;
  re_entry_key : string;
  re_trade_id : string;
  re_tx_hash : string;
  re_block_number : Z;
  re_expected_block_hash : option string;
  re_observed_block_hash : option string;
  re_observed_block_number : option Z;
  re_observed_log_index : option Z;
  re_reorg_depth : Z;
  re_stable_block_number : Z;
  re_mismatch_reason : ChainMismatchReason }.

(** A row of [treasury_ingestion_state]. *)
Record IngestionCursorState := {
  ic_nextBlockNumber : Z;
  ic_lastIngestedThroughBlockNumber : option Z;
  ic_lastAttemptAt : option Z;
  ic_lastSuccessAt : option Z;
  ic_lastBlockedReason : option string;
  ic_lastPartialReason : option string;
  ic_consecutiveFailureCount : Z }.

Record SweepBatchEntry := {
  se_sweep_batch_id : Z;
  se_ledger_entry_id : Z;
  se_allocated : bool;
  se_entry_amount_raw : string;
  se_allocated_by : string }.

Record TreasuryClaimEvent := {
  tc_source_event_id : string;
  tc_matched_sweep_batch_id : option Z;
  tc_tx_hash : string;
  tc_block_number : Z;
  tc_observed_at : Z;
  tc_payout_receiver : string;
  tc_amount_raw : string }.

Inductive TransitionSubject := SWEEP_BATCH (id : Z) | ACCOUNTING_PERIOD (id : Z).

#[export] Instance TransitionSubject_eq_dec : EqDecision TransitionSubject.
Proof. solve_decision. Defined.

(** The tables of the ledger: entries with their serial, payout lifecycle events,
    reorganization evidence, ingestion cursors. *)
Record Ledger := {
  ledger_rows : gmap Z LedgerEntry;
  ledger_seq : Z;
  payout_events : list PayoutLifecycleEvent;
  reorg_events : list LedgerChainReorgEvent;
  ingestion_state : gmap string IngestionCursorState }.

Record db := {
  accounting_periods : gmap Z AccountingPeriod;
  sweep_batches : gmap Z SweepBatch;
  ledger : Ledger;
  sweep_batch_entries : list SweepBatchEntry;
  transition_actors : list (TransitionSubject * TransitionActorRecord);
  claim_events : list TreasuryClaimEvent }.

Definition ledger_entries (d : db) : gmap Z LedgerEntry := ledger_rows (ledger d).

(** ** Transition actors (transitionActors.ts) *)

Definition listTransitionActors (s : TransitionSubject) (d : db) : list TransitionActorRecord :=
  map snd (List.filter (fun r => bool_decide (r.1 = s)) (transition_actors d)).

Definition recordTransitionActor (s : TransitionSubject) (actor : string)
    (role : TransitionActorRole) (d : db) : db :=
  {| accounting_periods := accounting_periods d; sweep_batches := sweep_batches d;
     ledger := ledger d; sweep_batch_entries := sweep_batch_entries d;
     transition_actors :=
       (transition_actors d ++ [(s, {| ta_actor := actor; ta_actor_role := role |})])%list;
     claim_events := claim_events d |}.

Definition set_batch (id : Z) (b : SweepBatch) (d : db) : db :=
  {| accounting_periods := accounting_periods d; sweep_batches := <[id := b]> (sweep_batches d);
     ledger := ledger d; sweep_batch_entries := sweep_batch_entries d;
     transition_actors := transition_actors d; claim_events := claim_events d |}.

Definition set_period (id : Z) (p : AccountingPeriod) (d : db) : db :=
  {| accounting_periods := <[id := p]> (accounting_periods d); sweep_batches := sweep_batches d;
     ledger := ledger d; sweep_batch_entries := sweep_batch_entries d;
     transition_actors := transition_actors d; claim_events := claim_events d |}.

Definition set_ledger (l : Ledger) (d : db) : db :=
  {| accounting_periods := accounting_periods d; sweep_batches := sweep_batches d;
     ledger := l; sweep_batch_entries := sweep_batch_entries d;
     transition_actors := transition_actors d; claim_events := claim_events d |}.

Definition add_entry (e : SweepBatchEntry) (d : db) : db :=
  {| accounting_periods := accounting_periods d; sweep_batches := sweep_batches d;
     ledger := ledger d;
     sweep_batch_entries := (sweep_batch_entries d ++ [e])%list;
     transition_actors := transition_actors d; claim_events := claim_events d |}.

Definition set_claims (c : list TreasuryClaimEvent) (d : db) : db :=
  {| accounting_periods := accounting_periods d; sweep_batches := sweep_batches d;
     ledger := ledger d; sweep_batch_entries := sweep_batch_entries d;
     transition_actors := transition_actors d; claim_events := c |}.

(** ** Accounting periods (accountingPeriods.ts) *)

Definition createAccountingPeriod (id : Z) (periodKey : string) (startsAt endsAt : Z)
    (createdBy : string) (d : db) : db :=
  set_period id
    {| ap_period_key := periodKey; ap_starts_at := startsAt; ap_ends_at := endsAt; ap_status := OPEN;
       ap_created_by := createdBy; ap_close_reason := None; ap_pending_close_at := None;
       ap_closed_at := None; ap_closed_by := None |} d.

Definition period_after (existing : AccountingPeriod) (status : AccountingPeriodStatus)
    (actor : string) (closeReason : option string) (now : Z) : AccountingPeriod :=
  {| ap_period_key := ap_period_key existing; ap_starts_at := ap_starts_at existing;
     ap_ends_at := ap_ends_at existing; ap_status := status;
     ap_created_by := ap_created_by existing;
     ap_close_reason := match closeReason with Some r => Some r | None => ap_close_reason existing end;
     ap_pending_close_at := if bool_decide (status = PENDING_CLOSE) then Some now
                            else ap_pending_close_at existing;
     ap_closed_at := if bool_decide (status = PERIOD_CLOSED) then Some now else ap_closed_at existing;
     ap_closed_by := if bool_decide (status = PERIOD_CLOSED) then Some actor
                     else ap_closed_by existing |}.

Definition record_role (s : TransitionSubject) (actor : string) (role : option TransitionActorRole)
    (d : db) : db :=
  match role with Some r => recordTransitionActor s actor r d | None => d end.

Definition updateAccountingPeriodStatus (periodId : Z) (status : AccountingPeriodStatus)
    (actor : string) (closeReason : option string) (now : Z) (d : db)
    : result TreasuryError (db * AccountingPeriod) :=
  match accounting_periods d !! periodId with
  | None => Err (CallerSafeError "Accounting period not found")
  | Some existing =>
      let transitionChain := listTransitionActors (ACCOUNTING_PERIOD periodId) d in
      _ ← assertAccountingPeriodTransition (ap_status existing) status;
      _ ← assertAccountingPeriodRoleSeparation status actor (ap_created_by existing) transitionChain;
      let p := period_after existing status actor closeReason now in
      Ok (record_role (ACCOUNTING_PERIOD periodId) actor (accountingPeriodActorRole status)
            (set_period periodId p d), p)
  end.

(** ** Sweep batches (sweepBatches.ts) *)

Definition createSweepBatch (id : Z) (batchKey : string) (accountingPeriodId : Z)
    (assetSymbol expectedTotalRaw : string) (payoutReceiverAddress : option string)
    (createdBy : string) (d : db) : result TreasuryError (db * SweepBatch) :=
  _ ← assertCanonicalRawAmount (JStr expectedTotalRaw) "expectedTotalRaw";
  match accounting_periods d !! accountingPeriodId with
  | None => Err (CallerSafeError "Accounting period not found")
  | Some period =>
      _ ← throw_if (negb (bool_decide (ap_status period = OPEN)))
            (CallerSafeError ("Sweep batch creation requires an OPEN accounting period; received "
               ++ period_name (ap_status period)));
      let b :=
        {| sb_batch_key := batchKey; sb_accounting_period_id := accountingPeriodId;
           sb_asset_symbol := assetSymbol; sb_status := DRAFT;
           sb_expected_total_raw := expectedTotalRaw;
           sb_payout_receiver_address := payoutReceiverAddress;
           sb_approval_requested_at := None; sb_approval_requested_by := None;
           sb_approved_at := None; sb_approved_by := None; sb_matched_sweep_tx_hash := None;
           sb_matched_sweep_block_number := None; sb_matched_swept_at := None;
           sb_executed_by := None; sb_closed_at := None; sb_closed_by := None;
           sb_created_by := createdBy; sb_finalized_evidence := None |} in
      Ok (set_batch id b d, b)
  end.

Definition allocated_to (ledgerEntryId : Z) (e : SweepBatchEntry) : bool :=
  (se_ledger_entry_id e =? ledgerEntryId) && se_allocated e.

Definition assertLedgerEntryCanonical (ledgerEntryId : Z) (d : db) : result TreasuryError unit :=
  assertSweepEntriesCanonical
    (match ledger_entries d !! ledgerEntryId with
     | Some e => [(ledgerEntryId, le_canonicality_state e)]
     | None => []
     end).

Definition addSweepBatchEntry (sweepBatchId ledgerEntryId : Z) (allocatedBy : string)
    (entryAmountRaw : option string) (d : db) : result TreasuryError (db * SweepBatchEntry) :=
  match sweep_batches d !! sweepBatchId with
  | None => Err (CallerSafeError "Sweep batch not found")
  | Some batch =>
      match accounting_periods d !! sb_accounting_period_id batch with
      | None => Err (CallerSafeError "Sweep batch not found")
      | Some period =>
          _ ← assertBatchAllocationAllowed (ap_status period) (sb_status batch);
          match ledger_entries d !! ledgerEntryId with
          | None => Err (CallerSafeError "Ledger entry not found")
          | Some ledgerEntry =>
              _ ← assertLedgerEntryCanonical ledgerEntryId d;
              _ ← throw_if (existsb (allocated_to ledgerEntryId) (sweep_batch_entries d))
                    (CallerSafeError "Ledger entry is already allocated to an active sweep batch");
              let amount := default (le_amount_raw ledgerEntry) entryAmountRaw in
              _ ← assertAllocationWithinLedgerAmount amount (le_amount_raw ledgerEntry) ledgerEntryId;
              let e := {| se_sweep_batch_id := sweepBatchId; se_ledger_entry_id := ledgerEntryId;
                          se_allocated := true; se_entry_amount_raw := amount;
                          se_allocated_by := allocatedBy |} in
              Ok (add_entry e d, e)
          end
      end
  end.

(** ** Batch transitions (sweepBatchTransitions.ts) *)

Record SweepBatchStatusUpdate := {
  su_finalizedSweepEvidence : option TreasuryFinalizedEvidence;
  su_batchId : Z;
  su_status : SweepBatchStatus;
  su_actor : string;
  su_matchedSweepTxHash : option string;
  su_matchedSweepBlockNumber : option string;
  su_matchedSweptAt : option Z;
  su_metadataEvidence : option TreasuryFinalizedEvidence }.

(** The entries actively allocated to a batch, joined with their ledger rows. *)
Definition batch_entry_states (sweepBatchId : Z) (d : db) : list (Z * ChainCanonicalityState) :=
  omap (fun e => if (se_sweep_batch_id e =? sweepBatchId) && se_allocated e
                 then (fun l => (se_ledger_entry_id e, le_canonicality_state l))
                        <$> ledger_entries d !! se_ledger_entry_id e
                 else None) (sweep_batch_entries d).

Definition assertSweepBatchEntriesCanonical (sweepBatchId : Z) (d : db) : result TreasuryError unit :=
  assertSweepEntriesCanonical (batch_entry_states sweepBatchId d).

(** [COALESCE($n, column)] *)
Definition coalesce {A} (v column : option A) : option A :=
  match v with Some x => Some x | None => column end.

(** The row the [UPDATE] writes. *)
Definition batch_after (existing : SweepBatch) (data : SweepBatchStatusUpdate) (now : Z) : SweepBatch :=
  let st := su_status data in
  {| sb_batch_key := sb_batch_key existing;
     sb_accounting_period_id := sb_accounting_period_id existing;
     sb_asset_symbol := sb_asset_symbol existing;
     sb_status := st;
     sb_expected_total_raw := sb_expected_total_raw existing;
     sb_payout_receiver_address := sb_payout_receiver_address existing;
     sb_approval_requested_at :=
       if bool_decide (st = PENDING_APPROVAL) then Some now else sb_approval_requested_at existing;
     sb_approval_requested_by :=
       if bool_decide (st = PENDING_APPROVAL) then Some (su_actor data)
       else sb_approval_requested_by existing;
     sb_approved_at := if bool_decide (st = APPROVED) then Some now else sb_approved_at existing;
     sb_approved_by :=
       if bool_decide (st = APPROVED) then Some (su_actor data) else sb_approved_by existing;
     sb_matched_sweep_tx_hash :=
       coalesce (su_matchedSweepTxHash data) (sb_matched_sweep_tx_hash existing);
     sb_matched_sweep_block_number :=
       coalesce (su_matchedSweepBlockNumber data) (sb_matched_sweep_block_number existing);
     sb_matched_swept_at := coalesce (su_matchedSweptAt data) (sb_matched_swept_at existing);
     sb_executed_by :=
       if bool_decide (st = EXECUTED) then Some (su_actor data) else sb_executed_by existing;
     sb_closed_at := if bool_decide (st = CLOSED) then Some now else sb_closed_at existing;
     sb_closed_by := if bool_decide (st = CLOSED) then Some (su_actor data) else sb_closed_by existing;
     sb_created_by := sb_created_by existing;
     sb_finalized_evidence := coalesce (su_metadataEvidence data) (sb_finalized_evidence existing) |}.

Definition applySweepBatchStatusUpdate (data : SweepBatchStatusUpdate) (now : Z) (d : db)
    : result TreasuryError (db * SweepBatch) :=
  match sweep_batches d !! su_batchId data with
  | None => Err (CallerSafeError "Sweep batch not found")
  | Some existing =>
      let transitionChain := listTransitionActors (SWEEP_BATCH (su_batchId data)) d in
      _ ← assertSweepBatchTransition (sb_status existing) (su_status data);
      _ ← assertSweepBatchRoleSeparation (su_status data) (su_actor data) (sb_created_by existing)
            (sb_approval_requested_by existing) (sb_approved_by existing) (sb_executed_by existing)
            transitionChain;
      _ ← (if sweepTransitionRequiresCanonicalEntries (su_status data)
           then assertSweepBatchEntriesCanonical (su_batchId data) d else Ok tt);
      _ ← (if bool_decide (su_status data = HANDED_OFF) || bool_decide (su_status data = CLOSED)
           then assertSweepFinalityForProgression (sb_finalized_evidence existing)
                  (sb_matched_sweep_tx_hash existing) (sb_matched_sweep_block_number existing)
                  (su_finalizedSweepEvidence data) now
           else Ok tt);
      let b := batch_after existing data now in
      Ok (record_role (SWEEP_BATCH (su_batchId data)) (su_actor data)
            (sweepBatchActorRole (su_status data))
            (set_batch (su_batchId data) b d), b)
  end.

Definition updateSweepBatchStatus := applySweepBatchStatusUpdate.

(** ** Claims (treasuryClaims.ts) and the execution match *)

Definition claim_matches (c n : TreasuryClaimEvent) : bool :=
  String.eqb (tc_tx_hash c) (tc_tx_hash n)
  || String.eqb (tc_source_event_id c) (tc_source_event_id n).

(** The unique indexes of treasury_claim_events. *)
Definition claims_unique (cs : list TreasuryClaimEvent) : bool :=
  bool_decide (NoDup (map tc_source_event_id cs)) && bool_decide (NoDup (map tc_tx_hash cs))
  && bool_decide (NoDup (omap tc_matched_sweep_batch_id cs)).

Fixpoint replace_first (p : TreasuryClaimEvent -> bool) (f : TreasuryClaimEvent -> TreasuryClaimEvent)
    (cs : list TreasuryClaimEvent) : list TreasuryClaimEvent :=
  match cs with
  | [] => []
  | c :: r => if p c then f c :: r else c :: replace_first p f r
  end.

Definition upsertTreasuryClaimEventWith (data : TreasuryClaimEvent) (d : db)
    : result TreasuryError (db * TreasuryClaimEvent) :=
  let existing := List.find (fun c => claim_matches c data) (claim_events d) in
  _ ← throw_if (match existing with
                | Some c =>
                    match tc_matched_sweep_batch_id c, tc_matched_sweep_batch_id data with
                    | Some m, Some m' => negb (m =? m')
                    | _, _ => false
                    end
                | None => false
                end)
        (CallerSafeError "Treasury claim event is already matched to a different sweep batch");
  let matched := coalesce (tc_matched_sweep_batch_id data)
                   (match existing with Some c => tc_matched_sweep_batch_id c | None => None end) in
  let row := {| tc_source_event_id := tc_source_event_id data; tc_matched_sweep_batch_id := matched;
                tc_tx_hash := tc_tx_hash data; tc_block_number := tc_block_number data;
                tc_observed_at := tc_observed_at data; tc_payout_receiver := tc_payout_receiver data;
                tc_amount_raw := tc_amount_raw data |} in
  let cs := match existing with
            | Some _ => replace_first (fun c => claim_matches c data) (fun _ => row) (claim_events d)
            | None => (claim_events d ++ [row])%list
            end in
  _ ← throw_if (negb (claims_unique cs)) (PlainError "duplicate key value violates unique constraint");
  Ok (set_claims cs d, row).

Definition recordSweepBatchExecution (finalizedEvidence : TreasuryFinalizedEvidence)
    (claim : TreasuryClaimEvent) (matchedSweepBatchId : Z) (actor : string) (now : Z) (d : db)
    : result TreasuryError (db * SweepBatch) :=
  match sweep_batches d !! matchedSweepBatchId with
  | None => Err (PlainError "Sweep batch not found")
  | Some lockedBatch =>
      _ ← assertFreshTreasuryFinalizedEvidence (Some finalizedEvidence) (tc_tx_hash claim)
            (print_Z (tc_block_number claim)) now;
      let recorded := sb_finalized_evidence lockedBatch in
      _ ← throw_if (match recorded with
                    | Some r => negb (same_evidence r finalizedEvidence)
                    | None => false
                    end)
            (PlainError "Original finalized sweep evidence requires governed reconciliation");
      claimed ← upsertTreasuryClaimEventWith
                  {| tc_source_event_id := tc_source_event_id claim;
                     tc_matched_sweep_batch_id := Some matchedSweepBatchId;
                     tc_tx_hash := tc_tx_hash claim; tc_block_number := tc_block_number claim;
                     tc_observed_at := tc_observed_at claim;
                     tc_payout_receiver := tc_payout_receiver claim;
                     tc_amount_raw := tc_amount_raw claim |} d;
      applySweepBatchStatusUpdate
        {| su_finalizedSweepEvidence := None; su_batchId := matchedSweepBatchId;
           su_status := EXECUTED; su_actor := actor;
           su_matchedSweepTxHash := Some (tc_tx_hash claimed.2);
           su_matchedSweepBlockNumber := Some (print_Z (tc_block_number claimed.2));
           su_matchedSweptAt := Some (tc_observed_at claimed.2);
           su_metadataEvidence := Some (default finalizedEvidence recorded) |} now claimed.1
  end.
