(* ===== verification/TreasuryLedger.v ===== *)
(** The treasury ledger: [treasury/src/database/queries/ledger.ts] (ingress and
    payout events), [chainCanonicality.ts] (verdicts) and [ingestion.ts] (cursors).

    Each operation is one transaction or statement on the tables of [Ledger].  The
    ledger's serial is [ledger_seq]; [INSERT ... ON CONFLICT] draws from it whether
    or not it inserts.  Width and format constraints of columns are left out. *)
From stdpp Require Import base list gmap strings.
From S2P Require Import Prelude JsText TreasuryAmount TreasuryPolicy TreasuryChain TreasuryDb.

Open Scope string_scope.
Open Scope Z_scope.

Definition set_rows (rows : gmap Z LedgerEntry) (l : Ledger) : Ledger :=
  {| ledger_rows := rows; ledger_seq := ledger_seq l; payout_events := payout_events l;
     reorg_events := reorg_events l; ingestion_state := ingestion_state l |}.

Definition set_cursors (c : gmap string IngestionCursorState) (l : Ledger) : Ledger :=
  {| ledger_rows := ledger_rows l; ledger_seq := ledger_seq l; payout_events := payout_events l;
     reorg_events := reorg_events l; ingestion_state := c |}.

Definition add_payout_event (p : PayoutLifecycleEvent) (l : Ledger) : Ledger :=
  {| ledger_rows := ledger_rows l; ledger_seq := ledger_seq l;
     payout_events := (payout_events l ++ [p])%list;
     reorg_events := reorg_events l; ingestion_state := ingestion_state l |}.

Definition add_reorg_event (r : LedgerChainReorgEvent) (l : Ledger) : Ledger :=
  {| ledger_rows := ledger_rows l; ledger_seq := ledger_seq l; payout_events := payout_events l;
     reorg_events := (reorg_events l ++ [r])%list; ingestion_state := ingestion_state l |}.

(** [nextval] of the entries' serial. *)
Definition next_serial (l : Ledger) : Ledger :=
  {| ledger_rows := ledger_rows l; ledger_seq := ledger_seq l + 1; payout_events := payout_events l;
     reorg_events := reorg_events l; ingestion_state := ingestion_state l |}.

(** The row with this [entry_key], of which the unique index admits one. *)
Definition find_entry (key : string) (l : Ledger) : option (Z * LedgerEntry) :=
  List.find (fun p => String.eqb (le_entry_key p.2) key) (map_to_list (ledger_rows l)).

(** ** Ingress (ledger.ts) *)

Record LedgerUpsert := {
  ld_entryKey : string;
  ld_tradeId : string;
  ld_txHash : string;
  ld_blockNumber : Z;
  ld_blockHash : string;
  ld_logIndex : Z;
  ld_logAddress : option string;
  ld_logIdentityHash : option string;
  ld_eventName : string;
  ld_componentType : TreasuryComponent;
  ld_amountRaw : string;
  ld_sourceTimestamp : Z }.

(** The columns [EXCLUDED] carries. *)
Definition excluded_row (data : LedgerUpsert) (blockHash : string) (logAddress : option string)
    : LedgerEntry :=
  {| le_entry_key := ld_entryKey data; le_trade_id := ld_tradeId data; le_tx_hash := ld_txHash data;
     le_block_number := ld_blockNumber data; le_block_hash := Some blockHash;
     le_log_index := Some (ld_logIndex data); le_log_address := logAddress;
     le_log_identity_hash := ld_logIdentityHash data; le_event_name := ld_eventName data;
     le_component_type := ld_componentType data; le_amount_raw := ld_amountRaw data;
     le_source_timestamp := ld_sourceTimestamp data; le_canonicality_state := UNVERIFIED;
     le_canonicality_verified_at := None; le_observed_block_hash := None;
     le_canonicality_depth := None; le_stable_block_number := None |}.

(** The fields a verdict is about. *)
Definition PROOF_UNCHANGED (e excluded : LedgerEntry) : bool :=
  bool_decide (le_trade_id e = le_trade_id excluded)
  && bool_decide (le_tx_hash e = le_tx_hash excluded)
  && bool_decide (le_block_number e = le_block_number excluded)
  && bool_decide (le_block_hash e = le_block_hash excluded)
  && bool_decide (le_log_index e = le_log_index excluded)
  && bool_decide (le_event_name e = le_event_name excluded)
  && bool_decide (le_component_type e = le_component_type excluded)
  && bool_decide (le_amount_raw e = le_amount_raw excluded)
  && bool_decide (le_log_address e = le_log_address excluded)
  && bool_decide (le_log_identity_hash e = le_log_identity_hash excluded).

(** [ON CONFLICT (entry_key) DO UPDATE SET ...] *)
Definition conflict_row (e excluded : LedgerEntry) : LedgerEntry :=
  {| le_entry_key := le_entry_key e; le_trade_id := le_trade_id excluded;
     le_tx_hash := le_tx_hash excluded; le_block_number := le_block_number excluded;
     le_block_hash := le_block_hash excluded; le_log_index := le_log_index excluded;
     le_log_address := le_log_address excluded;
     le_log_identity_hash := le_log_identity_hash excluded;
     le_event_name := le_event_name excluded; le_component_type := le_component_type excluded;
     le_amount_raw := le_amount_raw excluded; le_source_timestamp := le_source_timestamp excluded;
     le_canonicality_state :=
       if PROOF_UNCHANGED e excluded then le_canonicality_state e else UNVERIFIED;
     le_canonicality_verified_at :=
       if PROOF_UNCHANGED e excluded then le_canonicality_verified_at e else None;
     le_observed_block_hash := le_observed_block_hash e;
     le_canonicality_depth := le_canonicality_depth e;
     le_stable_block_number := le_stable_block_number e |}.

Definition upsert_entry (excluded : LedgerEntry) (l : Ledger) : Ledger * (Z * LedgerEntry) :=
  let l1 := next_serial l in
  match find_entry (le_entry_key excluded) l with
  | None => let id := ledger_seq l in (set_rows (<[id := excluded]> (ledger_rows l)) l1, (id, excluded))
  | Some (id, e) =>
      if bool_decide (le_canonicality_state e = ORPHANED) then (l1, (id, e))
      else let row := conflict_row e excluded in
           (set_rows (<[id := row]> (ledger_rows l)) l1, (id, row))
  end.

Definition has_payout_event (id : Z) (l : Ledger) : bool :=
  existsb (fun p => pl_ledger_entry_id p =? id) (payout_events l).

(** [initialStateCreated] is the last component. *)
Definition upsertLedgerEntryWithInitialState (data : LedgerUpsert) (l : Ledger)
    : result TreasuryError (Ledger * (Z * LedgerEntry) * bool) :=
  _ ← assertCanonicalRawAmount (JStr (ld_amountRaw data)) "amountRaw";
  match normalizeBlockHash (Some (ld_blockHash data)) with
  | None => Err (PlainError ("blockHash is not a canonical block hash: " ++ ld_blockHash data))
  | Some blockHash =>
      _ ← throw_if (ld_logIndex data <? 0)
            (PlainError ("logIndex must be a non-negative integer, received "
               ++ print_Z (ld_logIndex data)));
      let logAddress := normalizeLogAddress (ld_logAddress data) in
      _ ← throw_if (bool_decide (ld_logAddress data <> None) && bool_decide (logAddress = None))
            (PlainError "logAddress is not a canonical contract address");
      let '(l1, entry) := upsert_entry (excluded_row data blockHash logAddress) l in
      let initial := negb (has_payout_event entry.1 l) in
      let p := {| pl_ledger_entry_id := entry.1; pl_state := PENDING_REVIEW;
                  pl_actor := Some "system:indexer-ingest" |} in
      Ok (if initial then add_payout_event p l1 else l1, entry, initial)
  end.

Definition foreign_key : TreasuryError := PlainError "violates foreign key constraint".

Definition appendPayoutState (id : Z) (state : PayoutState) (actor : option string) (l : Ledger)
    : result TreasuryError Ledger :=
  match ledger_rows l !! id with
  | None => Err foreign_key
  | Some _ =>
      Ok (add_payout_event {| pl_ledger_entry_id := id; pl_state := state; pl_actor := actor |} l)
  end.

(** ** Verdicts (chainCanonicality.ts) *)

Record CanonicalMark := {
  cm_ledgerEntryId : Z;
  cm_blockHash : string;
  cm_logIndex : Z;
  cm_logAddress : string;
  cm_logIdentityHash : string;
  cm_stableBlockNumber : Z }.

Definition canonical_row (e : LedgerEntry) (m : CanonicalMark) (now : Z) : LedgerEntry :=
  {| le_entry_key := le_entry_key e; le_trade_id := le_trade_id e; le_tx_hash := le_tx_hash e;
     le_block_number := le_block_number e; le_block_hash := Some (cm_blockHash m);
     le_log_index := Some (cm_logIndex m); le_log_address := Some (cm_logAddress m);
     le_log_identity_hash := Some (cm_logIdentityHash m); le_event_name := le_event_name e;
     le_component_type := le_component_type e; le_amount_raw := le_amount_raw e;
     le_source_timestamp := le_source_timestamp e; le_canonicality_state := CANONICAL;
     le_canonicality_verified_at := Some now; le_observed_block_hash := Some (cm_blockHash m);
     le_canonicality_depth := None; le_stable_block_number := Some (cm_stableBlockNumber m) |}.

Definition markLedgerEntryCanonical (m : CanonicalMark) (now : Z) (l : Ledger)
    : Ledger * ChainCanonicalityState :=
  match ledger_rows l !! cm_ledgerEntryId m with
  | None => (l, UNVERIFIED)
  | Some e =>
      if bool_decide (le_canonicality_state e = ORPHANED) then (l, ORPHANED)
      else (set_rows (<[cm_ledgerEntryId m := canonical_row e m now]> (ledger_rows l)) l, CANONICAL)
  end.

Definition orphaned_row (e : LedgerEntry) (r : LedgerChainReorgEvent) (now : Z) : LedgerEntry :=
  {| le_entry_key := le_entry_key e; le_trade_id := le_trade_id e; le_tx_hash := le_tx_hash e;
     le_block_number := le_block_number e; le_block_hash := le_block_hash e;
     le_log_index := le_log_index e; le_log_address := le_log_address e;
     le_log_identity_hash := le_log_identity_hash e; le_event_name := le_event_name e;
     le_component_type := le_component_type e; le_amount_raw := le_amount_raw e;
     le_source_timestamp := le_source_timestamp e; le_canonicality_state := ORPHANED;
     le_canonicality_verified_at := Some now; le_observed_block_hash := re_observed_block_hash r;
     le_canonicality_depth := Some (re_reorg_depth r);
     le_stable_block_number := Some (re_stable_block_number r) |}.

Definition with_next_block (c : IngestionCursorState) (next : Z) : IngestionCursorState :=
  {| ic_nextBlockNumber := next;
     ic_lastIngestedThroughBlockNumber := ic_lastIngestedThroughBlockNumber c;
     ic_lastAttemptAt := ic_lastAttemptAt c; ic_lastSuccessAt := ic_lastSuccessAt c;
     ic_lastBlockedReason := ic_lastBlockedReason c; ic_lastPartialReason := ic_lastPartialReason c;
     ic_consecutiveFailureCount := ic_consecutiveFailureCount c |}.

(** [LEAST(next_block_number, $1) ... WHERE next_block_number > $1] *)
Definition rewind_cursor (block : Z) (c : IngestionCursorState) : IngestionCursorState :=
  if block <? ic_nextBlockNumber c
  then with_next_block c (Z.min (ic_nextBlockNumber c) block) else c.

(** [r] is the evidence row; the result tells whether a payout was cancelled. *)
Definition recordLedgerEntryOrphaned (r : LedgerChainReorgEvent) (cancelFromState : option PayoutState)
    (actor : string) (now : Z) (l : Ledger) : result TreasuryError (Ledger * bool) :=
  match ledger_rows l !! re_ledger_entry_id r with
  | None => Err foreign_key
  | Some e =>
      let l1 := add_reorg_event r l in
      let l2 := set_rows (<[re_ledger_entry_id r := orphaned_row e r now]> (ledger_rows l1)) l1 in
      let cancel := bool_decide (cancelFromState <> None) in
      let l3 := if cancel
                then add_payout_event {| pl_ledger_entry_id := re_ledger_entry_id r;
                                         pl_state := CANCELLED; pl_actor := Some actor |} l2
                else l2 in
      Ok (set_cursors (rewind_cursor (re_block_number r) <$> ingestion_state l3) l3, cancel)
  end.

(** ** Cursors (ingestion.ts) *)

Definition new_cursor (next : Z) : IngestionCursorState :=
  {| ic_nextBlockNumber := next; ic_lastIngestedThroughBlockNumber := None;
     ic_lastAttemptAt := None; ic_lastSuccessAt := None; ic_lastBlockedReason := None;
     ic_lastPartialReason := None; ic_consecutiveFailureCount := 0 |}.

Definition set_cursor (name : string) (c : IngestionCursorState) (l : Ledger) : Ledger :=
  set_cursors (<[name := c]> (ingestion_state l)) l.

Definition getIngestionWatermark (cursorName : string) (l : Ledger) : Ledger * Z :=
  match ingestion_state l !! cursorName with
  | Some c => (l, ic_nextBlockNumber c)
  | None => (set_cursor cursorName (new_cursor 0) l, 0)
  end.

Definition setIngestionWatermark (nextBlockNumber : Z) (cursorName : string)
    (lastIngestedThroughBlockNumber : option Z) (l : Ledger) : Ledger :=
  let c := default (new_cursor nextBlockNumber) (ingestion_state l !! cursorName) in
  set_cursor cursorName
    {| ic_nextBlockNumber := Z.max (ic_nextBlockNumber c) nextBlockNumber;
       ic_lastIngestedThroughBlockNumber :=
         coalesce lastIngestedThroughBlockNumber (ic_lastIngestedThroughBlockNumber c);
       ic_lastAttemptAt := ic_lastAttemptAt c; ic_lastSuccessAt := ic_lastSuccessAt c;
       ic_lastBlockedReason := ic_lastBlockedReason c; ic_lastPartialReason := ic_lastPartialReason c;
       ic_consecutiveFailureCount := ic_consecutiveFailureCount c |} l.

Definition attempt_started (now : Z) (l : Ledger) (name : string) : Ledger :=
  let c := default (new_cursor 0) (ingestion_state l !! name) in
  set_cursor name
    {| ic_nextBlockNumber := ic_nextBlockNumber c;
       ic_lastIngestedThroughBlockNumber := ic_lastIngestedThroughBlockNumber c;
       ic_lastAttemptAt := Some now; ic_lastSuccessAt := ic_lastSuccessAt c;
       ic_lastBlockedReason := ic_lastBlockedReason c;
       ic_lastPartialReason := ic_lastPartialReason c;
       ic_consecutiveFailureCount := ic_consecutiveFailureCount c |} l.

Definition markIngestionAttemptStarted (cursorNames : list string) (now : Z) (l : Ledger) : Ledger :=
  foldl (attempt_started now) l cursorNames.

(** [UPDATE ... WHERE cursor_name = ANY($1)] *)
Definition update_cursors (cursorNames : list string)
    (f : IngestionCursorState -> IngestionCursorState) (l : Ledger) : Ledger :=
  set_cursors (map_imap (fun name c => Some (if includes cursorNames name then f c else c))
                 (ingestion_state l)) l.

Definition markIngestionRunCompleted (cursorNames : list string) (now : Z) (l : Ledger) : Ledger :=
  update_cursors cursorNames (fun c =>
    {| ic_nextBlockNumber := ic_nextBlockNumber c;
       ic_lastIngestedThroughBlockNumber := ic_lastIngestedThroughBlockNumber c;
       ic_lastAttemptAt := ic_lastAttemptAt c; ic_lastSuccessAt := Some now;
       ic_lastBlockedReason := None; ic_lastPartialReason := None;
       ic_consecutiveFailureCount := 0 |}) l.

Definition markIngestionRunPartial (cursorNames : list string) (partialReason : string)
    (l : Ledger) : Ledger :=
  update_cursors cursorNames (fun c =>
    {| ic_nextBlockNumber := ic_nextBlockNumber c;
       ic_lastIngestedThroughBlockNumber := ic_lastIngestedThroughBlockNumber c;
       ic_lastAttemptAt := ic_lastAttemptAt c; ic_lastSuccessAt := ic_lastSuccessAt c;
       ic_lastBlockedReason := None; ic_lastPartialReason := Some partialReason;
       ic_consecutiveFailureCount := ic_consecutiveFailureCount c |}) l.

Definition attempt_unsuccessful (blockedReason : string) (now : Z) (l : Ledger) (name : string)
    : Ledger :=
  set_cursor name
    match ingestion_state l !! name with
    | Some c =>
        {| ic_nextBlockNumber := ic_nextBlockNumber c;
           ic_lastIngestedThroughBlockNumber := ic_lastIngestedThroughBlockNumber c;
           ic_lastAttemptAt := ic_lastAttemptAt c; ic_lastSuccessAt := ic_lastSuccessAt c;
           ic_lastBlockedReason := Some blockedReason;
           ic_lastPartialReason := ic_lastPartialReason c;
           ic_consecutiveFailureCount := ic_consecutiveFailureCount c + 1 |}
    | None =>
        {| ic_nextBlockNumber := 0; ic_lastIngestedThroughBlockNumber := None;
           ic_lastAttemptAt := Some now; ic_lastSuccessAt := None;
           ic_lastBlockedReason := Some blockedReason; ic_lastPartialReason := None;
           ic_consecutiveFailureCount := 1 |}
    end l.

Definition markIngestionRunUnsuccessful (cursorNames : list string) (blockedReason : string)
    (now : Z) (l : Ledger) : Ledger :=
  foldl (attempt_unsuccessful blockedReason now) l cursorNames.

(** ** Steps of the ledger *)

(** Steps that any process takes at any time: payouts, verdicts, the worker's
    marks. *)
Inductive review_step (l : Ledger) : Ledger -> Prop :=
| rv_payout id state actor l' : appendPayoutState id state actor l = Ok l' -> review_step l l'
| rv_canonical m now : review_step l (markLedgerEntryCanonical m now l).1
| rv_orphaned r cancelFromState actor now l' cancelled :
    recordLedgerEntryOrphaned r cancelFromState actor now l = Ok (l', cancelled) -> review_step l l'
| rv_started names now : review_step l (markIngestionAttemptStarted names now l)
| rv_completed names now : review_step l (markIngestionRunCompleted names now l)
| rv_partial names reason : review_step l (markIngestionRunPartial names reason l)
| rv_unsuccessful names reason now : review_step l (markIngestionRunUnsuccessful names reason now l).

(** With the steps of an ingestion run. *)
Inductive ledger_step (l : Ledger) : Ledger -> Prop :=
| ls_review l' : review_step l l' -> ledger_step l l'
| ls_upsert data l' entry initial :
    upsertLedgerEntryWithInitialState data l = Ok (l', entry, initial) -> ledger_step l l'
| ls_get_watermark name : ledger_step l (getIngestionWatermark name l).1
| ls_set_watermark next name last : ledger_step l (setIngestionWatermark next name last l).

(** ** Invariant: serials are new, keys are unique *)

Record ledger_ok (l : Ledger) : Prop := {
  lo_serial : forall id e, ledger_rows l !! id = Some e -> id < ledger_seq l;
  lo_key : forall id1 id2 e1 e2, ledger_rows l !! id1 = Some e1 -> ledger_rows l !! id2 = Some e2 ->
    le_entry_key e1 = le_entry_key e2 -> id1 = id2
}.

Lemma find_entry_some key l id e :
  find_entry key l = Some (id, e) -> ledger_rows l !! id = Some e /\ le_entry_key e = key.
Proof.
  intros [Hin Hk]%List.find_some. simpl in Hk. apply String.eqb_eq in Hk. split; [|done].
  by apply elem_of_map_to_list, list_elem_of_In.
Qed.

Lemma find_entry_none key l id e :
  find_entry key l = None -> ledger_rows l !! id = Some e -> le_entry_key e <> key.
Proof.
  intros H Hl%elem_of_map_to_list%list_elem_of_In Hk.
  apply (List.find_none _ _ H) in Hl. simpl in Hl. by rewrite Hk, String.eqb_refl in Hl.
Qed.

Lemma find_entry_spec key l id e :
  ledger_ok l -> find_entry key l = Some (id, e) <-> ledger_rows l !! id = Some e /\ le_entry_key e = key.
Proof.
  intros Hok. split; [apply find_entry_some|]. intros [Hl Hk].
  destruct (find_entry key l) as [[id' e']|] eqn:E.
  - apply find_entry_some in E as [Hl' Hk'].
    assert (id' = id) as -> by (eapply (lo_key l); [done..|congruence]). congruence.
  - by destruct (find_entry_none _ _ _ _ E Hl).
Qed.

(** What any step does to an entry: its key stays, a revocation stays. *)
Definition entry_later (e e' : LedgerEntry) : Prop :=
  le_entry_key e' = le_entry_key e /\
  (le_canonicality_state e = ORPHANED ->
     le_canonicality_state e' = ORPHANED /\ le_amount_raw e' = le_amount_raw e).

Definition rows_later (l l' : Ledger) : Prop :=
  ledger_seq l <= ledger_seq l' /\
  forall id e, ledger_rows l !! id = Some e ->
    exists e', ledger_rows l' !! id = Some e' /\ entry_later e e'.

#[export] Instance entry_later_refl : Reflexive entry_later.
Proof. intros e. by split. Qed.
#[export] Instance entry_later_trans : Transitive entry_later.
Proof.
  intros e1 e2 e3 [? H12] [? H23]. split; [congruence|]. intros Ho.
  destruct (H12 Ho) as [H2 ?]. destruct (H23 H2) as [? ?]. split; [done|congruence].
Qed.
#[export] Instance rows_later_refl : Reflexive rows_later.
Proof. split; [lia|]. eauto using entry_later_refl. Qed.
#[export] Instance rows_later_trans : Transitive rows_later.
Proof.
  intros l1 l2 l3 [? H12] [? H23]. split; [lia|]. intros id e (e2 & H2 & ?)%H12.
  apply H23 in H2 as (e3 & ? & ?). exists e3. split; [done|]. by etrans.
Qed.

Lemma entry_rows_insert (l l' : Ledger) id e e' :
  ledger_seq l <= ledger_seq l' -> ledger_rows l' = <[id := e']> (ledger_rows l) ->
  ledger_rows l !! id = Some e -> entry_later e e' -> rows_later l l'.
Proof.
  intros Hs Hr He Hl. split; [done|]. intros id0 e0 H0. rewrite Hr.
  destruct (decide (id = id0)) as [<-|Hn].
  - rewrite lookup_insert_eq. simplify_eq. eauto.
  - rewrite lookup_insert_ne by done. exists e0. by split.
Qed.

Lemma ok_insert (l l' : Ledger) id e e' :
  ledger_ok l -> ledger_seq l <= ledger_seq l' -> ledger_rows l' = <[id := e']> (ledger_rows l) ->
  ledger_rows l !! id = Some e -> le_entry_key e' = le_entry_key e -> ledger_ok l'.
Proof.
  intros [Ho Hk] Hs Hr He Hkey. split; rewrite Hr.
  - intros id0 e0 [[<- <-]|[? H0]]%lookup_insert_Some; [apply Ho in He|apply Ho in H0]; lia.
  - intros id1 id2 e1 e2 [[<- <-]|[? H1]]%lookup_insert_Some [[<- <-]|[? H2]]%lookup_insert_Some E;
      [done| | |]; eapply Hk; eauto; congruence.
Qed.

Lemma ok_frame (l l' : Ledger) :
  ledger_ok l -> ledger_rows l' = ledger_rows l -> ledger_seq l <= ledger_seq l' -> ledger_ok l'.
Proof. intros [Ho Hk] Hr Hs. split; rewrite Hr; [intros id e H%Ho; lia|exact Hk]. Qed.

Lemma later_frame (l l' : Ledger) :
  ledger_rows l' = ledger_rows l -> ledger_seq l <= ledger_seq l' -> rows_later l l'.
Proof. intros Hr Hs. split; [done|]. rewrite Hr. eauto using entry_later_refl. Qed.

(** An ingress leaves the given columns under the key, unless the entry was
    revoked, and touches no other entry. *)
Lemma upsert_entry_spec x l l' id e :
  ledger_ok l -> upsert_entry x l = (l', (id, e)) -> le_canonicality_state x <> ORPHANED ->
  ledger_ok l' /\ rows_later l l' /\ ledger_rows l' !! id = Some e /\
  le_entry_key e = le_entry_key x /\
  (forall id0, id0 <> id -> ledger_rows l' !! id0 = ledger_rows l !! id0) /\
  match ledger_rows l !! id with
  | None => e = x
  | Some e0 => le_entry_key e0 = le_entry_key x /\
      if bool_decide (le_canonicality_state e0 = ORPHANED) then e = e0 else e = conflict_row e0 x
  end.
Proof.
  intros Hok H Hx. unfold upsert_entry in H.
  destruct (find_entry (le_entry_key x) l) as [[id0 e0]|] eqn:E.
  - pose proof (find_entry_some _ _ _ _ E) as [Hl Hk].
    destruct (bool_decide_reflect (le_canonicality_state e0 = ORPHANED)) as [Ho|Ho]; simplify_eq.
    + split_and!; [apply (ok_frame l); simpl; [done..|lia]|apply later_frame; simpl; [done|lia]|done..|].
      rewrite Hl. by rewrite bool_decide_eq_true_2.
    + split_and!.
      * eapply ok_insert; [done| |done|done|done]. simpl. lia.
      * eapply entry_rows_insert; [|done|done|]; [simpl; lia|]. by split.
      * simpl. by rewrite lookup_insert_eq.
      * done.
      * intros id1 Hn. simpl. by rewrite lookup_insert_ne.
      * rewrite Hl. by rewrite bool_decide_eq_false_2.
  - simplify_eq. assert (Hnew : ledger_rows l !! ledger_seq l = None).
    { destruct (_ !! _) as [e0|] eqn:H0; [|done]. apply (lo_serial l Hok) in H0. lia. }
    split_and!.
    + split; simpl.
      * intros id0 e0 [[<- <-]|[? H0]]%lookup_insert_Some; [lia|]. apply (lo_serial l Hok) in H0. lia.
      * intros id1 id2 e1 e2 [[<- <-]|[? H1]]%lookup_insert_Some [[<- <-]|[? H2]]%lookup_insert_Some Ek.
        -- done.
        -- by destruct (find_entry_none _ _ _ _ E H2).
        -- by destruct (find_entry_none _ _ _ _ E H1).
        -- by eapply (lo_key l).
    + split; simpl; [lia|]. intros id0 e0 H0. exists e0. split; [|done].
      rewrite lookup_insert_ne; [done|]. intros <-. congruence.
    + simpl. by rewrite lookup_insert_eq.
    + done.
    + intros id1 Hn. simpl. by rewrite lookup_insert_ne.
    + by rewrite Hnew.
Qed.

(** What a committed ingress checked and wrote. *)
Lemma upsert_ok data l l' entry initial :
  upsertLedgerEntryWithInitialState data l = Ok (l', entry, initial) ->
  exists blockHash l1,
    (exists n, assertCanonicalRawAmount (JStr (ld_amountRaw data)) "amountRaw" = Ok n) /\
    normalizeBlockHash (Some (ld_blockHash data)) = Some blockHash /\ 0 <= ld_logIndex data /\
    upsert_entry (excluded_row data blockHash (normalizeLogAddress (ld_logAddress data))) l = (l1, entry) /\
    ledger_rows l' = ledger_rows l1 /\ ledger_seq l' = ledger_seq l1 /\
    ingestion_state l' = ingestion_state l /\ reorg_events l' = reorg_events l.
Proof.
  unfold upsertLedgerEntryWithInitialState. intros H. apply bind_ok in H as (n & Ha & H).
  destruct (normalizeBlockHash _) as [h|] eqn:Eh; [|done]. apply throw_if_bind in H as [Hi H].
  apply throw_if_bind in H as [_ H]. apply Z.ltb_ge in Hi.
  destruct (upsert_entry _ l) as [l1 en] eqn:E. injection H as <- <- <-.
  assert (ingestion_state l1 = ingestion_state l /\ reorg_events l1 = reorg_events l) as [Hs Hr].
  { unfold upsert_entry in E. destruct (find_entry _ _) as [[id0 e0]|]; [destruct (bool_decide _)|];
      by simplify_eq. }
  exists h, l1. split_and!; eauto; by destruct (negb _).
Qed.

Lemma rows_set_cursors c l : ledger_rows (set_cursors c l) = ledger_rows l.
Proof. done. Qed.

Lemma fold_cursor_frame (f : Ledger -> string -> Ledger) names l :
  (forall l name, exists c, f l name = set_cursors c l) ->
  ledger_rows (foldl f l names) = ledger_rows l /\ ledger_seq (foldl f l names) = ledger_seq l.
Proof.
  intros Hf. revert l. induction names as [|n names IH]; intros l; simpl; [done|].
  destruct (Hf l n) as [c Hc]. destruct (IH (f l n)) as [-> ->]. by rewrite Hc.
Qed.

(** The height ingestion resumes from; a cursor without a row resumes from 0. *)
Definition watermark (name : string) (l : Ledger) : Z :=
  default 0 (ic_nextBlockNumber <$> ingestion_state l !! name).

Lemma watermark_set_cursor n c name l :
  watermark name (set_cursor n c l) = if decide (n = name) then ic_nextBlockNumber c else watermark name l.
Proof.
  unfold watermark. simpl. destruct (decide (n = name)) as [->|Hn];
    [by rewrite lookup_insert_eq|by rewrite lookup_insert_ne].
Qed.

Lemma fold_cursor_watermark (f : Ledger -> string -> Ledger) names l name :
  (forall l n, watermark name (f l n) = watermark name l) ->
  watermark name (foldl f l names) = watermark name l.
Proof.
  intros Hf. revert l. induction names as [|n names IH]; intros l; simpl; [done|]. by rewrite IH.
Qed.

(** What a committed orphaning wrote. *)
Lemma orphaned_ok r cancelFromState actor now l l' cancelled :
  recordLedgerEntryOrphaned r cancelFromState actor now l = Ok (l', cancelled) ->
  exists e, ledger_rows l !! re_ledger_entry_id r = Some e /\
    ledger_rows l' = <[re_ledger_entry_id r := orphaned_row e r now]> (ledger_rows l) /\
    ledger_seq l' = ledger_seq l /\ reorg_events l' = (reorg_events l ++ [r])%list /\
    ingestion_state l' = rewind_cursor (re_block_number r) <$> ingestion_state l.
Proof.
  unfold recordLedgerEntryOrphaned. destruct (_ !! _) as [e|]; [|done]. intros [= <- <-].
  exists e. split; [done|]. by case_bool_decide.
Qed.

Lemma review_step_ok l l' : ledger_ok l -> review_step l l' -> ledger_ok l' /\ rows_later l l'.
Proof.
  intros Hok Hs. destruct Hs as [id st actor l' H|m now
    |r c actor now l' cancelled H|names now|names now|names reason|names reason now].
  - unfold appendPayoutState in H. destruct (ledger_rows l !! id); [|done]. simplify_eq.
    split; [apply (ok_frame l)|apply later_frame]; simpl; solve [done|lia].
  - unfold markLedgerEntryCanonical. destruct (_ !! _) as [e|] eqn:E; [|done].
    destruct (bool_decide_reflect (le_canonicality_state e = ORPHANED)) as [Ho|Ho]; [done|].
    split; [eapply ok_insert|eapply entry_rows_insert]; try done; simpl; lia.
  - apply orphaned_ok in H as (e & E & Hr & Hq & _).
    split; [eapply ok_insert|eapply entry_rows_insert]; try done; by rewrite Hq.
  - destruct (fold_cursor_frame (attempt_started now) names l) as [Hr Hq]; [by intros; eexists|].
    split; [apply (ok_frame l)|apply later_frame];
      solve [exact Hok|exact Hr|unfold markIngestionAttemptStarted; lia].
  - split; [by apply (ok_frame l)|by apply later_frame].
  - split; [by apply (ok_frame l)|by apply later_frame].
  - destruct (fold_cursor_frame (attempt_unsuccessful reason now) names l) as [Hr Hq];
      [by intros; eexists|].
    split; [apply (ok_frame l)|apply later_frame];
      solve [exact Hok|exact Hr|unfold markIngestionRunUnsuccessful; lia].
Qed.

Lemma ledger_step_ok l l' : ledger_ok l -> ledger_step l l' -> ledger_ok l' /\ rows_later l l'.
Proof.
  intros Hok Hs. destruct Hs as [l' H|data l' [id e] initial H|name|next name last].
  - by apply review_step_ok.
  - apply upsert_ok in H as (h & l1 & _ & _ & _ & Hu & Hr & Hq & _).
    destruct (upsert_entry_spec _ _ _ _ _ Hok Hu) as (Hok1 & Hl1 & _); [done|].
    split; [apply (ok_frame l1); [done..|lia]|]. etrans; [exact Hl1|apply later_frame; [done|lia]].
  - unfold getIngestionWatermark. destruct (_ !! _); [done|].
    split; [by apply (ok_frame l)|by apply later_frame].
  - split; [by apply (ok_frame l)|by apply later_frame].
Qed.

(** A review keeps what an entry says; only its verdict and, for a promotion, the
    log identity the verdict was about change. *)
Definition entry_reviewed (e e' : LedgerEntry) : Prop :=
  le_entry_key e' = le_entry_key e /\ le_trade_id e' = le_trade_id e /\
  le_tx_hash e' = le_tx_hash e /\ le_block_number e' = le_block_number e /\
  le_event_name e' = le_event_name e /\ le_component_type e' = le_component_type e /\
  le_amount_raw e' = le_amount_raw e.

Lemma review_step_rows l l' :
  review_step l l' -> forall id,
    match ledger_rows l !! id, ledger_rows l' !! id with
    | Some e, Some e' => entry_reviewed e e'
    | None, None => True
    | _, _ => False
    end.
Proof.
  intros Hs id. destruct Hs as [id0 st actor l' H|m now
    |r c actor now l' cancelled H|names now|names now|names reason|names reason now].
  - unfold appendPayoutState in H. destruct (ledger_rows l !! id0); [|done]. simplify_eq. simpl.
    by destruct (ledger_rows l !! id).
  - unfold markLedgerEntryCanonical.
    destruct (ledger_rows l !! cm_ledgerEntryId m) as [e0|] eqn:E; simpl;
      [|by destruct (ledger_rows l !! id)].
    destruct (bool_decide _); simpl; [by destruct (ledger_rows l !! id)|].
    destruct (decide (cm_ledgerEntryId m = id)) as [<-|Hn].
    + by rewrite lookup_insert_eq, E.
    + rewrite lookup_insert_ne by done. by destruct (ledger_rows l !! id).
  - apply orphaned_ok in H as (e & E & -> & _).
    destruct (decide (re_ledger_entry_id r = id)) as [<-|Hn].
    + by rewrite lookup_insert_eq, E.
    + rewrite lookup_insert_ne by done. by destruct (ledger_rows l !! id).
  - destruct (fold_cursor_frame (attempt_started now) names l) as [Hr Hq]; [by intros; eexists|].
    unfold markIngestionAttemptStarted. rewrite Hr. by destruct (ledger_rows l !! id).
  - simpl. by destruct (ledger_rows l !! id).
  - simpl. by destruct (ledger_rows l !! id).
  - destruct (fold_cursor_frame (attempt_unsuccessful reason now) names l) as [Hr Hq];
      [by intros; eexists|].
    unfold markIngestionRunUnsuccessful. rewrite Hr. by destruct (ledger_rows l !! id).
Qed.

Lemma watermark_update_cursors names f name l :
  (forall c, ic_nextBlockNumber (f c) = ic_nextBlockNumber c) ->
  watermark name (update_cursors names f l) = watermark name l.
Proof.
  intros Hf. unfold watermark. simpl. rewrite map_lookup_imap.
  destruct (ingestion_state l !! name) as [c|]; [|done]. simpl. destruct (includes names name); [|done].
  simpl. by rewrite Hf.
Qed.

(** A review never moves a cursor forward. *)
Lemma review_step_watermark l l' name : review_step l l' -> watermark name l' <= watermark name l.
Proof.
  intros Hs. destruct Hs as [id0 st actor l' H|m now
    |r c actor now l' cancelled H|names now|names now|names reason|names reason now].
  - unfold appendPayoutState in H. destruct (ledger_rows l !! id0); [|done]. by simplify_eq.
  - unfold markLedgerEntryCanonical. by repeat case_match.
  - apply orphaned_ok in H as (e & _ & _ & _ & _ & E). unfold watermark. rewrite E, lookup_fmap.
    destruct (ingestion_state l !! name) as [c0|]; [|done]. simpl.
    unfold rewind_cursor. destruct (_ <? _); simpl; lia.
  - unfold markIngestionAttemptStarted. rewrite fold_cursor_watermark; [done|]. intros l0 n.
    unfold attempt_started. rewrite watermark_set_cursor. destruct (decide (n = name)) as [->|]; [|done].
    unfold watermark. by destruct (ingestion_state l0 !! name).
  - apply Z.eq_le_incl. by apply watermark_update_cursors.
  - apply Z.eq_le_incl. by apply watermark_update_cursors.
  - unfold markIngestionRunUnsuccessful. rewrite fold_cursor_watermark; [done|]. intros l0 n.
    unfold attempt_unsuccessful. rewrite watermark_set_cursor. destruct (decide (n = name)) as [->|]; [|done].
    unfold watermark. by destruct (ingestion_state l0 !! name).
Qed.

Lemma watermark_set next name last name' l :
  watermark name' (setIngestionWatermark next name last l) <=
  if decide (name = name') then Z.max (watermark name' l) next else watermark name' l.
Proof.
  unfold setIngestionWatermark. rewrite watermark_set_cursor. destruct (decide (name = name')) as [->|]; [|done].
  unfold watermark. destruct (ingestion_state l !! name'); simpl; lia.
Qed.

Lemma watermark_get name name' l :
  (getIngestionWatermark name l).2 = watermark name l /\
  watermark name' (getIngestionWatermark name l).1 = watermark name' l.
Proof.
  unfold getIngestionWatermark, watermark. destruct (ingestion_state l !! name) as [c|] eqn:E; [done|].
  split; [done|]. simpl. destruct (decide (name = name')) as [->|Hn];
    [by rewrite lookup_insert_eq, E|by rewrite lookup_insert_ne].
Qed.
