(* ===== verification/TreasuryDbInv.v ===== *)
(** Correctness of the treasury maker-checker store: separation of duty over
    whole histories, allocation safety, canonicality. *)
From stdpp Require Import base list gmap strings.
From S2P Require Import Prelude JsText TreasuryAmount TreasuryPolicy TreasuryChain TreasuryDb TreasuryLedger.

Open Scope string_scope.
Open Scope Z_scope.

(** ** Steps

    One committed operation.  Serial identifiers are new. *)
Inductive treasury_step (d : db) : db -> Prop :=
| ts_period id key s e by_ :
    accounting_periods d !! id = None ->
    listTransitionActors (ACCOUNTING_PERIOD id) d = [] ->
    treasury_step d (createAccountingPeriod id key s e by_ d)
| ts_period_status id st actor reason now d' p :
    updateAccountingPeriodStatus id st actor reason now d = Ok (d', p) -> treasury_step d d'
| ts_batch id key pid asset total recv by_ d' b :
    sweep_batches d !! id = None -> listTransitionActors (SWEEP_BATCH id) d = [] ->
    createSweepBatch id key pid asset total recv by_ d = Ok (d', b) -> treasury_step d d'
| ts_allocate bid lid by_ amount d' e :
    addSweepBatchEntry bid lid by_ amount d = Ok (d', e) -> treasury_step d d'
| ts_batch_status data now d' b :
    updateSweepBatchStatus data now d = Ok (d', b) -> treasury_step d d'
| ts_execution ev claim bid actor now d' b :
    recordSweepBatchExecution ev claim bid actor now d = Ok (d', b) -> treasury_step d d'
| ts_claim data d' c :
    upsertTreasuryClaimEventWith data d = Ok (d', c) -> treasury_step d d'
| ts_ledger l' : ledger_step (ledger d) l' -> treasury_step d (set_ledger l' d).

(** The migrations create the rows of both cursors. *)
Definition empty_ledger : Ledger :=
  {| ledger_rows := ∅; ledger_seq := 1; payout_events := []; reorg_events := [];
     ingestion_state := {[ "trade_events" := new_cursor 0; "claim_events" := new_cursor 0 ]} |}.

Definition empty_db : db :=
  {| accounting_periods := ∅; sweep_batches := ∅; ledger := empty_ledger; sweep_batch_entries := [];
     transition_actors := []; claim_events := [] |}.

Definition treasury_reachable (d : db) : Prop := rtc treasury_step empty_db d.

(** ** The invariant of one batch and its actor chain *)

Definition batch_chain (id : Z) (d : db) := listTransitionActors (SWEEP_BATCH id) d.

Definition holds (chain : list TransitionActorRecord) (a : string) (r : TransitionActorRole) : Prop :=
  {| ta_actor := a; ta_actor_role := r |} ∈ chain.

Definition settled_status (s : SweepBatchStatus) : bool :=
  match s with APPROVED | EXECUTED | HANDED_OFF | CLOSED => true | _ => false end.

Definition executed_status (s : SweepBatchStatus) : bool :=
  match s with EXECUTED | HANDED_OFF | CLOSED => true | _ => false end.

Record duties_separate (b : SweepBatch) (chain : list TransitionActorRecord) : Prop := {
  ds_preparing : sb_status b = DRAFT \/ sb_status b = PENDING_APPROVAL ->
    sb_approved_by b = None /\ sb_executed_by b = None /\ sb_closed_by b = None /\
    forall a, ~ holds chain a CHECKER /\ ~ holds chain a EXECUTOR;
  ds_checker : forall a, holds chain a CHECKER ->
    sb_approved_by b = Some a /\ a <> sb_created_by b /\ ~ holds chain a MAKER;
  ds_approved : forall a, sb_approved_by b = Some a -> holds chain a CHECKER;
  ds_requested : forall a, sb_approval_requested_by b = Some a -> holds chain a MAKER;
  ds_executed : forall a, sb_executed_by b = Some a ->
    holds chain a EXECUTOR /\ ~ holds chain a CHECKER;
  ds_closed : forall a, sb_closed_by b = Some a ->
    sb_status b = CLOSED /\ ~ holds chain a CHECKER /\ ~ holds chain a EXECUTOR;
  ds_has_approver : settled_status (sb_status b) = true -> is_Some (sb_approved_by b);
  ds_has_executor : executed_status (sb_status b) = true -> is_Some (sb_executed_by b);
  ds_has_closer : sb_status b = CLOSED -> is_Some (sb_closed_by b) }.

Lemma holds_cases chain a r :
  holds_role chain a r = false -> ~ holds chain a r.
Proof.
  intros H Hin. apply not_true_iff_false in H. apply H. apply holds_role_true.
  eexists. split; [exact Hin|]. done.
Qed.

Lemma holds_snoc chain a r a' r' :
  holds (chain ++ [{| ta_actor := a'; ta_actor_role := r' |}]) a r <->
  holds chain a r \/ (a = a' /\ r = r').
Proof.
  unfold holds. rewrite elem_of_app, list_elem_of_singleton. naive_solver.
Qed.

Lemma batch_chain_record d s actor r id :
  batch_chain id (recordTransitionActor s actor r d) =
  if decide (s = SWEEP_BATCH id)
  then (batch_chain id d ++ [{| ta_actor := actor; ta_actor_role := r |}])%list
  else batch_chain id d.
Proof.
  unfold batch_chain, listTransitionActors. simpl.
  rewrite List.filter_app, map_app. simpl.
  destruct (decide (s = SWEEP_BATCH id)) as [->|Hn].
  - by rewrite bool_decide_eq_true_2.
  - rewrite bool_decide_eq_false_2 by done. simpl. by rewrite app_nil_r.
Qed.

(** What a transition to [st] by [actor] does to a chain. *)
Definition chain_after (chain : list TransitionActorRecord) (st : SweepBatchStatus) (actor : string) :=
  match sweepBatchActorRole st with
  | Some r => (chain ++ [{| ta_actor := actor; ta_actor_role := r |}])%list
  | None => chain
  end.

(** The checks a committed transition passed. *)
Lemma apply_update_ok data now d d' b :
  applySweepBatchStatusUpdate data now d = Ok (d', b) ->
  exists existing, sweep_batches d !! su_batchId data = Some existing /\
    su_status data ∈ SWEEP_BATCH_TRANSITIONS (sb_status existing) /\
    assertSweepBatchRoleSeparation (su_status data) (su_actor data) (sb_created_by existing)
      (sb_approval_requested_by existing) (sb_approved_by existing) (sb_executed_by existing)
      (batch_chain (su_batchId data) d) = Ok tt /\
    (sweepTransitionRequiresCanonicalEntries (su_status data) = true ->
       Forall (fun e => e.2 = CANONICAL) (batch_entry_states (su_batchId data) d)) /\
    (su_status data = HANDED_OFF \/ su_status data = CLOSED ->
       assertSweepFinalityForProgression (sb_finalized_evidence existing)
         (sb_matched_sweep_tx_hash existing) (sb_matched_sweep_block_number existing)
         (su_finalizedSweepEvidence data) now = Ok tt) /\
    b = batch_after existing data now /\
    d' = record_role (SWEEP_BATCH (su_batchId data)) (su_actor data)
           (sweepBatchActorRole (su_status data)) (set_batch (su_batchId data) b d).
Proof.
  unfold applySweepBatchStatusUpdate.
  destruct (sweep_batches d !! su_batchId data) as [existing|] eqn:E; [|done].
  intros H. exists existing. split; [done|].
  apply bind_ok in H as (u1 & H1 & H). apply bind_ok in H as ([] & H2 & H).
  apply bind_ok in H as (u3 & H3 & H). apply bind_ok in H as ([] & H4 & H). injection H as <- <-.
  split_and!; try done.
  - unfold assertSweepBatchTransition in H1. inv_ok. reflect_bools. by apply includes_true.
  - intros Hr. rewrite Hr in H3. by apply assertSweepEntriesCanonical_ok in H3.
  - intros Hs. destruct Hs as [Hs|Hs]; rewrite Hs in H4; done.
Qed.

Lemma role_separation_ok st actor created req appr exec chain :
  assertSweepBatchRoleSeparation st actor created req appr exec chain = Ok tt ->
  (st = APPROVED -> created <> actor /\ ~ holds chain actor MAKER) /\
  (st = EXECUTED -> ~ holds chain actor CHECKER) /\
  (st = CLOSED -> ~ holds chain actor CHECKER /\ ~ holds chain actor EXECUTOR).
Proof.
  unfold assertSweepBatchRoleSeparation. intros H. inv_ok.
  split_and!; intros ->; simpl in *; reflect_bools; split_and?; eauto using holds_cases.
Qed.

Lemma duties_after b data now chain :
  duties_separate b chain ->
  su_status data ∈ SWEEP_BATCH_TRANSITIONS (sb_status b) ->
  assertSweepBatchRoleSeparation (su_status data) (su_actor data) (sb_created_by b)
    (sb_approval_requested_by b) (sb_approved_by b) (sb_executed_by b) chain = Ok tt ->
  duties_separate (batch_after b data now) (chain_after chain (su_status data) (su_actor data)).
Proof.
  intros [P1 P2 P3 P4 P5 P6 P7 P8 P9] Ht (S1 & S2 & S3)%role_separation_ok.
  unfold chain_after, batch_after.
  destruct (sb_status b) eqn:Eb; simpl in Ht;
    repeat match goal with H : _ ∈ _ :: _ |- _ => apply elem_of_cons in H as [H|H] end;
    try (by apply not_elem_of_nil in Ht); rewrite Ht in *; simpl in *.
  all: split; cbn; setoid_rewrite holds_snoc || idtac; try (by intros [|]); naive_solver.
Qed.

(** ** What a step does to a batch *)

Lemma upsert_claim_ok data d d' c :
  upsertTreasuryClaimEventWith data d = Ok (d', c) -> exists cs, d' = set_claims cs d.
Proof. unfold upsertTreasuryClaimEventWith. intros H. inv_ok. simplify_eq. eauto. Qed.

Lemma batch_chain_record_role id' actor role id d :
  batch_chain id (record_role (SWEEP_BATCH id') actor role d) =
  if decide (id' = id) then
    match role with
    | Some r => (batch_chain id d ++ [{| ta_actor := actor; ta_actor_role := r |}])%list
    | None => batch_chain id d
    end
  else batch_chain id d.
Proof.
  destruct role as [r|]; simpl; [|by destruct (decide _)].
  rewrite batch_chain_record. destruct (decide (id' = id)) as [->|Hn].
  - by rewrite decide_True.
  - rewrite decide_False; congruence.
Qed.

Lemma record_role_fields s actor role d :
  sweep_batches (record_role s actor role d) = sweep_batches d /\
  ledger (record_role s actor role d) = ledger d /\
  sweep_batch_entries (record_role s actor role d) = sweep_batch_entries d /\
  accounting_periods (record_role s actor role d) = accounting_periods d.
Proof. by destruct role. Qed.

Lemma batch_chain_record_period id' actor role id d :
  batch_chain id (record_role (ACCOUNTING_PERIOD id') actor role d) = batch_chain id d.
Proof. destruct role as [r|]; simpl; [|done]. by rewrite batch_chain_record. Qed.

(** An execution match is a claim upsert followed by a transition to EXECUTED. *)
Lemma execution_ok ev claim bid actor now d d' b :
  recordSweepBatchExecution ev claim bid actor now d = Ok (d', b) ->
  exists cs data, applySweepBatchStatusUpdate data now (set_claims cs d) = Ok (d', b).
Proof.
  unfold recordSweepBatchExecution. destruct (sweep_batches d !! bid); [|done]. intros H.
  apply bind_ok in H as (u & _ & H). apply throw_if_bind in H as [_ H].
  apply bind_ok in H as ([d1 c] & Hc & H). apply upsert_claim_ok in Hc as [cs ->]. eauto.
Qed.

(** The checks a committed allocation passed. *)
Lemma add_entry_ok bid lid by_ amount d d' e :
  addSweepBatchEntry bid lid by_ amount d = Ok (d', e) ->
  exists batch period l,
    sweep_batches d !! bid = Some batch /\
    accounting_periods d !! sb_accounting_period_id batch = Some period /\
    ap_status period = OPEN /\ sb_status batch = DRAFT /\
    ledger_entries d !! lid = Some l /\ le_canonicality_state l = CANONICAL /\
    existsb (allocated_to lid) (sweep_batch_entries d) = false /\
    assertAllocationWithinLedgerAmount (se_entry_amount_raw e) (le_amount_raw l) lid = Ok tt /\
    (se_sweep_batch_id e = bid /\ se_ledger_entry_id e = lid /\ se_allocated e = true) /\
    d' = add_entry e d.
Proof.
  unfold addSweepBatchEntry. destruct (sweep_batches d !! bid) as [b|] eqn:Hb; [|done].
  destruct (accounting_periods d !! sb_accounting_period_id b) as [p|] eqn:Hp; [|done].
  intros H. apply bind_ok in H as (u & Ha & H).
  destruct (ledger_entries d !! lid) as [l|] eqn:Hl; [|done].
  unfold assertLedgerEntryCanonical in H. rewrite Hl in H.
  apply bind_ok in H as (u1 & Hc & H). apply throw_if_bind in H as [Hx H].
  apply bind_ok in H as ([] & Hw & H). injection H as <- <-.
  apply assertSweepEntriesCanonical_ok in Hc. apply Forall_cons in Hc as [Hc _].
  unfold assertBatchAllocationAllowed in Ha. inv_ok. reflect_bools.
  exists b, p, l. split_and!; done.
Qed.

(** A batch row after a step: untouched, moved by one committed transition, or new. *)
Inductive batch_evolves (d d' : db) (id : Z) (b' : SweepBatch) : Prop :=
| be_same : sweep_batches d !! id = Some b' -> batch_chain id d' = batch_chain id d ->
    batch_evolves d d' id b'
| be_moved b data now :
    sweep_batches d !! id = Some b -> su_batchId data = id ->
    su_status data ∈ SWEEP_BATCH_TRANSITIONS (sb_status b) ->
    assertSweepBatchRoleSeparation (su_status data) (su_actor data) (sb_created_by b)
      (sb_approval_requested_by b) (sb_approved_by b) (sb_executed_by b) (batch_chain id d) = Ok tt ->
    (sweepTransitionRequiresCanonicalEntries (su_status data) = true ->
       Forall (fun e => e.2 = CANONICAL) (batch_entry_states id d)) ->
    b' = batch_after b data now ->
    batch_chain id d' = chain_after (batch_chain id d) (su_status data) (su_actor data) ->
    batch_evolves d d' id b'
| be_new : sweep_batches d !! id = None -> sb_status b' = DRAFT ->
    sb_approved_by b' = None -> sb_executed_by b' = None -> sb_closed_by b' = None ->
    sb_approval_requested_by b' = None -> batch_chain id d' = [] -> batch_evolves d d' id b'.

Lemma apply_update_evolves data now d d' b id b' :
  applySweepBatchStatusUpdate data now d = Ok (d', b) ->
  sweep_batches d' !! id = Some b' -> batch_evolves d d' id b'.
Proof.
  intros H Hb. destruct (apply_update_ok _ _ _ _ _ H) as (e & He & Ht & Hs & Hc & _ & -> & ->).
  destruct (record_role_fields (SWEEP_BATCH (su_batchId data)) (su_actor data)
    (sweepBatchActorRole (su_status data)) (set_batch (su_batchId data) (batch_after e data now) d))
    as (Hf & _). rewrite Hf in Hb. simpl in Hb.
  destruct (decide (su_batchId data = id)) as [<-|Hn].
  - rewrite lookup_insert_eq in Hb. injection Hb as <-.
    eapply be_moved; try done. rewrite batch_chain_record_role, decide_True by done. done.
  - rewrite lookup_insert_ne in Hb by done. apply be_same; [done|].
    by rewrite batch_chain_record_role, decide_False by done.
Qed.

Lemma step_evolves d d' id b' :
  treasury_step d d' -> sweep_batches d' !! id = Some b' -> batch_evolves d d' id b'.
Proof.
  intros Hs Hb. destruct Hs as [pid key st e by_ Hn Hc|pid st actor reason now d' p H
    |bid key pid asset total recv by_ d' b Hn Hc H|bid lid by_ amount d' e H|data now d' b H
    |ev claim bid actor now d' b H|data d' c H|l1 H].
  - by apply be_same.
  - unfold updateAccountingPeriodStatus in H. destruct (accounting_periods d !! pid); [|done].
    inv_ok. simplify_eq. destruct (record_role_fields (ACCOUNTING_PERIOD pid) actor
      (accountingPeriodActorRole st) (set_period pid (period_after a st actor reason now) d)) as (Hf & _).
    rewrite Hf in Hb. apply be_same; [done|]. by rewrite batch_chain_record_period.
  - unfold createSweepBatch in H. inv_ok. destruct (accounting_periods d !! pid); [|done].
    inv_ok. simplify_eq. simpl in Hb. destruct (decide (bid = id)) as [<-|Hne].
    + rewrite lookup_insert_eq in Hb. injection Hb as <-. by apply be_new.
    + rewrite lookup_insert_ne in Hb by done. by apply be_same.
  - apply add_entry_ok in H as (? & ? & ? & _ & _ & _ & _ & _ & _ & _ & _ & _ & ->). by apply be_same.
  - by eapply apply_update_evolves.
  - apply execution_ok in H as (cs & data & H).
    destruct (apply_update_evolves _ _ _ _ _ id b' H Hb) as [|b1 dt n|].
    + by apply be_same.
    + by eapply be_moved.
    + by apply be_new.
  - apply upsert_claim_ok in H as [cs ->]. by apply be_same.
  - by apply be_same.
Qed.

Definition batches_ok (d : db) : Prop :=
  forall id b, sweep_batches d !! id = Some b -> duties_separate b (batch_chain id d).

Lemma duties_new b :
  sb_status b = DRAFT -> sb_approved_by b = None -> sb_executed_by b = None ->
  sb_closed_by b = None -> sb_approval_requested_by b = None -> duties_separate b [].
Proof.
  intros Hs Ha He Hc Hr. assert (Hn : forall a r, ~ holds [] a r)
    by (intros a r H; by apply not_elem_of_nil in H).
  split; rewrite ?Hs, ?Ha, ?He, ?Hc, ?Hr; naive_solver.
Qed.

Lemma batches_ok_step d d' : batches_ok d -> treasury_step d d' -> batches_ok d'.
Proof.
  intros HI Hs id b' Hb.
  destruct (step_evolves d d' id b' Hs Hb) as [Hb0 Hc|b data now Hb0 Hid Ht Hsep Hcan -> Hc|Hn Hst ? ? ? ? Hc];
    rewrite Hc.
  - by apply HI.
  - apply duties_after; [by apply HI|done|done].
  - by apply duties_new.
Qed.

Lemma treasury_reachable_ind (P : db -> Prop) :
  P empty_db -> (forall d d', P d -> treasury_step d d' -> P d') ->
  forall d, treasury_reachable d -> P d.
Proof.
  intros H0 Hstep d Hr. unfold treasury_reachable in Hr.
  revert H0. induction Hr as [|x y z Hxy _ IH]; [done|]. intros Hx. eauto.
Qed.

Lemma batches_ok_reachable d : treasury_reachable d -> batches_ok d.
Proof. apply treasury_reachable_ind; [intros id b [=] | exact batches_ok_step]. Qed.

(** C2. Separation of duty over the whole history of a sweep batch, however often
    it was sent back and prepared again: the approver is neither the creator nor
    anyone who ever submitted it for approval; whoever executed it did not
    approve it; and a closed batch was approved, executed and closed by three
    different actors, the closer never having handed it off either. *)
Theorem sweep_batch_four_eyes d id b :
  treasury_reachable d -> sweep_batches d !! id = Some b ->
  (forall a, sb_approved_by b = Some a ->
     a <> sb_created_by b /\ sb_approval_requested_by b <> Some a /\
     ~ holds (batch_chain id d) a MAKER /\ sb_executed_by b <> Some a) /\
  (executed_status (sb_status b) = true ->
     exists a e, sb_approved_by b = Some a /\ sb_executed_by b = Some e /\ a <> e) /\
  (sb_status b = CLOSED ->
     exists a e c, sb_approved_by b = Some a /\ sb_executed_by b = Some e /\
       sb_closed_by b = Some c /\ a <> e /\ c <> a /\ c <> e /\
       ~ holds (batch_chain id d) c EXECUTOR).
Proof.
  intros Hr Hb. destruct (batches_ok_reachable d Hr id b Hb) as [P1 P2 P3 P4 P5 P6 P7 P8 P9].
  assert (Hae : forall a, sb_approved_by b = Some a -> sb_executed_by b <> Some a).
  { intros a Ha%P3 He%P5. tauto. }
  assert (Hex : executed_status (sb_status b) = true ->
     exists a e, sb_approved_by b = Some a /\ sb_executed_by b = Some e /\ a <> e).
  { intros Hs. destruct (P8 Hs) as [e He]. destruct P7 as [a Ha]; [by destruct (sb_status b)|].
    exists a, e. split_and!; [done..|]. intros ->. by apply (Hae e). }
  split_and!; [|exact Hex|].
  - intros a Ha. destruct (P2 a (P3 a Ha)) as (_ & Hc & Hm). split_and!; auto.
  - intros Hs. destruct Hex as (a & e & Ha & He & Hne); [by rewrite Hs|].
    destruct (P9 Hs) as [c Hc]. destruct (P6 c Hc) as (_ & Hcc & Hce).
    exists a, e, c. split_and!; try done; intros ->; [by apply Hcc, P3 | by apply Hce, P5].
Qed.

(** ** Allocations *)

(** An allocated row draws a positive amount, at most the ledger's, from a known
    ledger entry. *)
Definition within_ledger (d : db) (e : SweepBatchEntry) : Prop :=
  exists l, ledger_entries d !! se_ledger_entry_id e = Some l /\
    assertAllocationWithinLedgerAmount (se_entry_amount_raw e) (le_amount_raw l)
      (se_ledger_entry_id e) = Ok tt.

(** No entry twice, and only entries the ledger has. *)
Definition allocations_ok (d : db) : Prop :=
  NoDup (map se_ledger_entry_id (sweep_batch_entries d)) /\
  Forall (fun e => se_allocated e = true /\ is_Some (ledger_entries d !! se_ledger_entry_id e))
    (sweep_batch_entries d).

(** A step in which no ingress changes the amount of an entry it already has. *)
Definition steady_step (d d' : db) : Prop :=
  treasury_step d d' /\
  forall id e e', ledger_entries d !! id = Some e -> ledger_entries d' !! id = Some e' ->
    le_amount_raw e' = le_amount_raw e.

Definition steadily_reachable (d : db) : Prop := rtc steady_step empty_db d.

(** A step leaves the ledger alone or is a step of the ledger. *)
Lemma step_ledger d d' :
  treasury_step d d' -> ledger d' = ledger d \/ ledger_step (ledger d) (ledger d').
Proof.
  intros Hs. destruct Hs as [pid key st e by_ Hn Hc|pid st actor reason now d' p H
    |bid key pid asset total recv by_ d' b Hn Hc H|bid lid by_ amount d' e H|data now d' b H
    |ev claim bid actor now d' b H|data d' c H|l1 H]; simpl; [by left|left..|by right].
  - unfold updateAccountingPeriodStatus in H. destruct (accounting_periods d !! pid); [|done].
    inv_ok. simplify_eq. by destruct (accountingPeriodActorRole st).
  - unfold createSweepBatch in H. inv_ok. destruct (accounting_periods d !! pid); [|done].
    inv_ok. by simplify_eq.
  - by apply add_entry_ok in H as (? & ? & ? & _ & _ & _ & _ & _ & _ & _ & _ & _ & ->).
  - apply apply_update_ok in H as (? & _ & _ & _ & _ & _ & -> & ->).
    by destruct (sweepBatchActorRole (su_status data)).
  - apply execution_ok in H as (cs & data & H).
    apply apply_update_ok in H as (? & _ & _ & _ & _ & _ & -> & ->).
    by destruct (sweepBatchActorRole (su_status data)).
  - by apply upsert_claim_ok in H as [cs ->].
Qed.

Lemma empty_ledger_ok : ledger_ok empty_ledger.
Proof. split; intros id *; simpl; by rewrite lookup_empty. Qed.

Lemma treasury_ledger_ok d : treasury_reachable d -> ledger_ok (ledger d).
Proof.
  apply (treasury_reachable_ind (fun d => ledger_ok (ledger d))); [apply empty_ledger_ok|].
  intros d1 d2 Hok Hs.
  destruct (step_ledger _ _ Hs) as [->|H]; [done|]. by apply ledger_step_ok in H as [? _].
Qed.

Lemma treasury_step_rows d d' : ledger_ok (ledger d) -> treasury_step d d' -> rows_later (ledger d) (ledger d').
Proof.
  intros Hok Hs. destruct (step_ledger _ _ Hs) as [->|H]; [done|].
  by apply ledger_step_ok in H as [_ ?].
Qed.

Lemma steps_rows d d' :
  treasury_reachable d -> rtc treasury_step d d' -> rows_later (ledger d) (ledger d').
Proof.
  intros Hr Hs. induction Hs as [x|x y z Hxy Hyz IH]; [done|].
  etrans; [by apply treasury_step_rows; [apply treasury_ledger_ok|]|]. apply IH.
  unfold treasury_reachable in *. by eapply rtc_r.
Qed.

(** A step adds at most one allocation, made by [addSweepBatchEntry]. *)
Lemma step_entries d d' :
  treasury_step d d' ->
  sweep_batch_entries d' = sweep_batch_entries d \/
  exists bid lid by_ amount e, addSweepBatchEntry bid lid by_ amount d = Ok (d', e) /\
    sweep_batch_entries d' = (sweep_batch_entries d ++ [e])%list.
Proof.
  intros Hs. destruct Hs as [pid key st e by_ Hn Hc|pid st actor reason now d' p H
    |bid key pid asset total recv by_ d' b Hn Hc H|bid lid by_ amount d' e H|data now d' b H
    |ev claim bid actor now d' b H|data d' c H|l1 H]; simpl; auto.
  - unfold updateAccountingPeriodStatus in H. destruct (accounting_periods d !! pid); [|done].
    inv_ok. simplify_eq. left. by destruct (accountingPeriodActorRole st).
  - unfold createSweepBatch in H. inv_ok. destruct (accounting_periods d !! pid); [|done].
    inv_ok. simplify_eq. by left.
  - right. exists bid, lid, by_, amount, e. split; [done|].
    by apply add_entry_ok in H as (? & ? & ? & _ & _ & _ & _ & _ & _ & _ & _ & _ & ->).
  - left. apply apply_update_ok in H as (? & _ & _ & _ & _ & _ & -> & ->).
    by destruct (sweepBatchActorRole (su_status data)).
  - left. apply execution_ok in H as (cs & data & H).
    apply apply_update_ok in H as (? & _ & _ & _ & _ & _ & -> & ->).
    by destruct (sweepBatchActorRole (su_status data)).
  - left. by apply upsert_claim_ok in H as [cs ->].
Qed.

Lemma allocations_ok_step d d' :
  ledger_ok (ledger d) -> allocations_ok d -> treasury_step d d' -> allocations_ok d'.
Proof.
  intros Hok [Hnd Hall] Hs. destruct (treasury_step_rows d d' Hok Hs) as [_ Hlater].
  assert (Hold : Forall (fun e => se_allocated e = true /\
    is_Some (ledger_entries d' !! se_ledger_entry_id e)) (sweep_batch_entries d)).
  { eapply Forall_impl; [exact Hall|]. intros e [? [l Hl]]. split; [done|].
    apply Hlater in Hl as (l' & Hl' & _). by exists l'. }
  destruct (step_entries d d' Hs) as [He|(bid & lid & by_ & amount & e & H & He)];
    unfold allocations_ok; rewrite He; [done|].
  destruct (add_entry_ok _ _ _ _ _ _ _ H)
    as (b & p & l & _ & _ & _ & _ & Hl & _ & Hx & _ & (_ & Hid & Hal) & ->).
  split.
  - rewrite map_app. apply NoDup_app. split_and!; [done| |apply NoDup_singleton].
    intros x (e0 & -> & Hin)%list_elem_of_fmap Hx'%list_elem_of_singleton.
    apply existsb_false in Hx. rewrite Forall_forall in Hx. specialize (Hx e0 Hin).
    rewrite Forall_forall in Hall. destruct (Hall e0 Hin) as [Ha _].
    unfold allocated_to in Hx. rewrite Ha, Hx', Hid, Z.eqb_refl in Hx. done.
  - apply Forall_app. split; [done|]. constructor; [|constructor]. split; [done|].
    exists l. by rewrite Hid.
Qed.

Lemma allocations_ok_reachable d : treasury_reachable d -> allocations_ok d.
Proof.
  intros Hr. cut (allocations_ok d /\ ledger_ok (ledger d)); [tauto|].
  revert Hr. apply (treasury_reachable_ind (fun d => allocations_ok d /\ ledger_ok (ledger d)));
    [split; [split; constructor|apply empty_ledger_ok]|].
  intros d1 d2 [Ha Hok] Hs. split; [by eapply allocations_ok_step|].
  destruct (step_ledger _ _ Hs) as [->|H]; [done|]. by apply ledger_step_ok in H as [? _].
Qed.

Lemma steadily_reachable_reachable d : steadily_reachable d -> treasury_reachable d.
Proof. apply rtc_subrel. by intros x y [? _]. Qed.

Lemma within_ledger_steady d :
  steadily_reachable d -> Forall (within_ledger d) (sweep_batch_entries d).
Proof.
  intros Hr. unfold steadily_reachable in Hr.
  assert (H0 : treasury_reachable empty_db /\ Forall (within_ledger empty_db) (sweep_batch_entries empty_db))
    by (split; [apply rtc_refl|constructor]).
  revert H0. induction Hr as [x|x y z [Hxy Hsteady] _ IH]; [tauto|]. intros [Hx Hall]. apply IH.
  split; [unfold treasury_reachable in *; by eapply rtc_r|].
  destruct (treasury_step_rows x y (treasury_ledger_ok x Hx) Hxy) as [_ Hlater].
  assert (Hold : Forall (within_ledger y) (sweep_batch_entries x)).
  { eapply Forall_impl; [exact Hall|]. intros e (l & Hl & Hw).
    destruct (Hlater _ _ Hl) as (l' & Hl' & _). exists l'. split; [done|].
    by rewrite (Hsteady _ _ _ Hl Hl'). }
  destruct (step_entries x y Hxy) as [->|(bid & lid & by_ & amount & e & H & ->)]; [done|].
  apply Forall_app. split; [done|]. constructor; [|constructor].
  destruct (add_entry_ok _ _ _ _ _ _ _ H)
    as (b & p & l & _ & _ & _ & _ & Hl & _ & _ & Hw & (_ & Hid & _) & ->).
  exists l. by rewrite Hid.
Qed.

(** C31. Allocation safety: across all batches no ledger entry is ever allocated
    twice; and in histories in which no later ingestion changes the amount of an
    entry already in the ledger, every allocation draws a positive amount no larger
    than its entry's, so the batches together never claim more of an entry than the
    escrow released.  (A re-ingested entry whose amount falls keeps its allocation:
    [lowered_amount_keeps_allocation].) *)
Theorem allocations_never_exceed_ledger d :
  treasury_reachable d ->
  NoDup (map se_ledger_entry_id (sweep_batch_entries d)) /\
  (steadily_reachable d ->
   Forall (fun e => exists l a m,
     ledger_entries d !! se_ledger_entry_id e = Some l /\
     se_entry_amount_raw e = print_Z a /\ le_amount_raw l = print_Z m /\ 0 < a <= m)
     (sweep_batch_entries d)).
Proof.
  intros [Hnd _]%allocations_ok_reachable. split; [done|]. intros Hr%within_ledger_steady.
  eapply Forall_impl; [exact Hr|]. intros e (l & Hl & Hw).
  unfold assertAllocationWithinLedgerAmount in Hw. inv_ok. reflect_bools.
  repeat match goal with H : parseRawAmount _ _ = Ok _ |- _ =>
    apply parseRawAmount_ok in H as [[? ?] [= ?]] end.
  exists l. do 2 eexists. split_and!; [done|done|done|lia|lia].
Qed.

(** Revocation is permanent and blocks value: once a ledger entry is marked
    orphaned no operation restores it, and while a batch contains such an entry
    it can be neither submitted for approval, approved nor closed. *)
Theorem orphaned_entry_blocks_batch d d' lid l e :
  treasury_reachable d -> rtc treasury_step d d' ->
  ledger_entries d !! lid = Some l -> le_canonicality_state l = ORPHANED ->
  e ∈ sweep_batch_entries d' -> se_ledger_entry_id e = lid ->
  forall data now,
    su_batchId data = se_sweep_batch_id e ->
    su_status data ∈ [PENDING_APPROVAL; APPROVED; CLOSED] ->
    is_ok (updateSweepBatchStatus data now d') = false.
Proof.
  intros Hr Hs Hl Ho Hin Hlid data now Hid Hst.
  assert (Hr' : treasury_reachable d') by (unfold treasury_reachable in *; by etrans).
  destruct (steps_rows d d' Hr Hs) as [_ Hlater].
  destruct (Hlater lid l Hl) as (l' & Hl' & _ & [Ho' _]%(fun H => H Ho)).
  destruct (updateSweepBatchStatus data now d') as [[d2 b]|] eqn:E; [|done]. exfalso.
  apply apply_update_ok in E as (ex & _ & _ & _ & Hcan & _).
  assert (Hreq : sweepTransitionRequiresCanonicalEntries (su_status data) = true)
    by (by apply includes_true).
  specialize (Hcan Hreq). rewrite Forall_forall in Hcan.
  destruct (allocations_ok_reachable d' Hr') as [_ Hall]. rewrite Forall_forall in Hall.
  destruct (Hall e Hin) as [Hal _].
  specialize (Hcan (lid, ORPHANED)). simpl in Hcan.
  assert ((lid, ORPHANED) ∈ batch_entry_states (su_batchId data) d') as Hmem; [|by apply Hcan in Hmem].
  unfold batch_entry_states. apply list_elem_of_omap. exists e. split; [done|].
  rewrite Hid, Z.eqb_refl, Hal. simpl. unfold ledger_entries. rewrite Hlid, Hl'. simpl. by rewrite Ho'.
Qed.

(** Voiding a batch strands its entries: a ledger entry once allocated stays
    allocated through every further operation, the voiding of its batch
    included, and every later attempt to allocate it is refused. *)
Theorem allocation_is_permanent d d' e :
  treasury_reachable d -> rtc treasury_step d d' -> e ∈ sweep_batch_entries d ->
  e ∈ sweep_batch_entries d' /\
  forall bid by_ amount, is_ok (addSweepBatchEntry bid (se_ledger_entry_id e) by_ amount d') = false.
Proof.
  intros Hr Hs Hin.
  assert (Hr' : treasury_reachable d') by (unfold treasury_reachable in *; by etrans).
  assert (Hin' : e ∈ sweep_batch_entries d').
  { clear Hr Hr'. induction Hs as [x|x y z Hxy Hyz IH]; [done|]. apply IH.
    destruct (step_entries x y Hxy) as [-> |(? & ? & ? & ? & ? & _ & ->)]; [done|].
    apply elem_of_app. by left. }
  split; [done|]. intros bid by_ amount.
  destruct (addSweepBatchEntry _ _ _ _ d') as [[d2 e2]|] eqn:E; [|done]. exfalso.
  apply add_entry_ok in E as (b & p & l & _ & _ & _ & _ & _ & _ & Hx & _).
  apply existsb_false in Hx. rewrite Forall_forall in Hx. specialize (Hx e Hin').
  destruct (allocations_ok_reachable d' Hr') as [_ Hall]. rewrite Forall_forall in Hall.
  destruct (Hall e Hin') as [Hal _]. unfold allocated_to in Hx. by rewrite Hal, Z.eqb_refl in Hx.
Qed.

(** ** Accounting periods *)

Definition period_chain (id : Z) (d : db) := listTransitionActors (ACCOUNTING_PERIOD id) d.

Lemma period_chain_record id' actor role id d :
  period_chain id (record_role (ACCOUNTING_PERIOD id') actor role d) =
  if decide (id' = id) then
    match role with
    | Some r => (period_chain id d ++ [{| ta_actor := actor; ta_actor_role := r |}])%list
    | None => period_chain id d
    end
  else period_chain id d.
Proof.
  unfold period_chain, listTransitionActors. destruct role as [r|]; simpl; [|by destruct (decide _)].
  rewrite List.filter_app, map_app. simpl. destruct (decide (id' = id)) as [->|Hn].
  - by rewrite bool_decide_eq_true_2.
  - rewrite bool_decide_eq_false_2 by congruence. simpl. by rewrite app_nil_r.
Qed.

Lemma period_chain_record_batch id' actor role id d :
  period_chain id (record_role (SWEEP_BATCH id') actor role d) = period_chain id d.
Proof.
  unfold period_chain, listTransitionActors. destruct role as [r|]; simpl; [|done].
  rewrite List.filter_app, map_app. simpl. by rewrite app_nil_r.
Qed.

(** A closed period was closed by someone who neither created it nor ever asked
    for its close. *)
Definition period_ok (p : AccountingPeriod) (chain : list TransitionActorRecord) : Prop :=
  ap_status p = PERIOD_CLOSED ->
  exists c, ap_closed_by p = Some c /\ c <> ap_created_by p /\ ~ holds chain c MAKER.

Definition periods_ok (d : db) : Prop :=
  forall id p, accounting_periods d !! id = Some p -> period_ok p (period_chain id d).

Lemma period_update_ok id st actor reason now d d' p :
  periods_ok d -> updateAccountingPeriodStatus id st actor reason now d = Ok (d', p) -> periods_ok d'.
Proof.
  intros HI H. unfold updateAccountingPeriodStatus in H.
  destruct (accounting_periods d !! id) as [ex|] eqn:E; [|done].
  apply bind_ok in H as (u & Ht & H). apply bind_ok in H as (u' & Hsep & H). injection H as <- <-.
  intros id' p'. destruct (record_role_fields (ACCOUNTING_PERIOD id) actor
    (accountingPeriodActorRole st) (set_period id (period_after ex st actor reason now) d))
    as (_ & _ & _ & Hf). rewrite Hf, period_chain_record. simpl.
  destruct (decide (id = id')) as [<-|Hn]; [|rewrite lookup_insert_ne by done; apply HI].
  rewrite lookup_insert_eq. intros [= <-] Hst. simpl in Hst. subst st. simpl.
  unfold assertAccountingPeriodRoleSeparation in Hsep. simpl in Hsep. inv_ok. reflect_bools.
  exists actor. split_and!; [done|done|]. rewrite holds_snoc. intros [Hm|[_ ?]]; [|done].
  by apply (holds_cases _ _ _ H) in Hm.
Qed.

Lemma periods_ok_frame d d' :
  accounting_periods d' = accounting_periods d ->
  (forall id, period_chain id d' = period_chain id d) -> periods_ok d -> periods_ok d'.
Proof. intros Hp Hc HI id p. rewrite Hp, Hc. apply HI. Qed.

Lemma periods_ok_step d d' : periods_ok d -> treasury_step d d' -> periods_ok d'.
Proof.
  intros HI Hs. destruct Hs as [pid key st e by_ Hn Hc|pid st actor reason now d' p H
    |bid key pid asset total recv by_ d' b Hn Hc H|bid lid by_ amount d' e H|data now d' b H
    |ev claim bid actor now d' b H|data d' c H|l1 H].
  - intros id p. simpl. change (period_chain id _) with (period_chain id d).
    destruct (decide (pid = id)) as [<-|Hne]; [|rewrite lookup_insert_ne by done; apply HI].
    rewrite lookup_insert_eq. by intros [= <-] [=].
  - by eapply period_update_ok.
  - unfold createSweepBatch in H. inv_ok. destruct (accounting_periods d !! pid); [|done].
    inv_ok. simplify_eq. by apply (periods_ok_frame d).
  - apply add_entry_ok in H as (? & ? & ? & _ & _ & _ & _ & _ & _ & _ & _ & _ & ->).
    by apply (periods_ok_frame d).
  - apply apply_update_ok in H as (? & _ & _ & _ & _ & _ & -> & ->).
    apply (periods_ok_frame d);
      [by destruct (sweepBatchActorRole (su_status data))|intros id; by rewrite period_chain_record_batch|done].
  - apply execution_ok in H as (cs & data & H).
    apply apply_update_ok in H as (? & _ & _ & _ & _ & _ & -> & ->).
    apply (periods_ok_frame d);
      [by destruct (sweepBatchActorRole (su_status data))|intros id; by rewrite period_chain_record_batch|done].
  - apply upsert_claim_ok in H as [cs ->]. by apply (periods_ok_frame d).
  - by apply (periods_ok_frame d).
Qed.

(** Closing an accounting period takes two people: whoever closed it neither
    created the period nor ever requested its close, reopened and requested
    again included; and a closed period is never changed again. *)
Theorem period_close_two_person d id p :
  treasury_reachable d -> accounting_periods d !! id = Some p -> ap_status p = PERIOD_CLOSED ->
  (exists c, ap_closed_by p = Some c /\ c <> ap_created_by p /\ ~ holds (period_chain id d) c MAKER) /\
  forall st actor reason now, is_ok (updateAccountingPeriodStatus id st actor reason now d) = false.
Proof.
  intros Hr Hp Hc. split.
  - assert (HI : periods_ok d).
    { revert Hr. apply treasury_reachable_ind; [intros i q [=] | exact periods_ok_step]. }
    by apply HI.
  - intros st actor reason now. unfold updateAccountingPeriodStatus. rewrite Hp.
    unfold assertAccountingPeriodTransition. rewrite Hc. by destruct st.
Qed.

(** ** A concrete history *)

Definition db_of {A} (r : result TreasuryError (db * A)) : db :=
  match r with Ok (d, _) => d | Err _ => empty_db end.

Definition move (st : SweepBatchStatus) (actor : string) (ev : option TreasuryFinalizedEvidence)
    : SweepBatchStatusUpdate :=
  {| su_finalizedSweepEvidence := ev; su_batchId := 10; su_status := st; su_actor := actor;
     su_matchedSweepTxHash := None; su_matchedSweepBlockNumber := None; su_matchedSweptAt := None;
     su_metadataEvidence := None |}.

Definition sample_claim : TreasuryClaimEvent :=
  {| tc_source_event_id := "claim-1"; tc_matched_sweep_batch_id := None;
     tc_tx_hash := fe_transactionHash sample_evidence; tc_block_number := 100; tc_observed_at := 4000;
     tc_payout_receiver := "0xreceiver"; tc_amount_raw := "500" |}.

Definition tdb1 : db := createAccountingPeriod 1 "2026-01" 0 1000 "carol" empty_db.
Definition sample_upsert : LedgerUpsert :=
  {| ld_entryKey := "1-abc-3:platform_fee"; ld_tradeId := "7"; ld_txHash := "0xabc";
     ld_blockNumber := 90; ld_blockHash := "0x" ++ repeat_char 64 "a"%char; ld_logIndex := 3;
     ld_logAddress := Some ("0x" ++ repeat_char 40 "b"%char);
     ld_logIdentityHash := Some (repeat_char 64 "c"%char); ld_eventName := "PlatformFeesPaidStage1";
     ld_componentType := PLATFORM_FEE; ld_amountRaw := "500"; ld_sourceTimestamp := 4000 |}.

Definition sample_mark : CanonicalMark :=
  {| cm_ledgerEntryId := 1; cm_blockHash := ld_blockHash sample_upsert; cm_logIndex := 3;
     cm_logAddress := "0x" ++ repeat_char 40 "b"%char;
     cm_logIdentityHash := repeat_char 64 "c"%char; cm_stableBlockNumber := 100 |}.

Definition ledger_of {A} (r : result TreasuryError (Ledger * A)) : Ledger :=
  match r with Ok (l, _) => l | Err _ => empty_ledger end.

Definition ledger_with (data : LedgerUpsert) (l : Ledger) : Ledger :=
  match upsertLedgerEntryWithInitialState data l with Ok (l, _, _) => l | Err _ => empty_ledger end.

Definition sample_ledger : Ledger := ledger_with sample_upsert empty_ledger.

Definition tdb2 : db :=
  set_ledger (markLedgerEntryCanonical sample_mark 50 sample_ledger).1 (set_ledger sample_ledger tdb1).
Definition tdb3 : db := db_of (createSweepBatch 10 "b-10" 1 "USDC" "500" None "alice" tdb2).
Definition tdb4 : db := db_of (addSweepBatchEntry 10 1 "alice" None tdb3).
Definition tdb5 : db := db_of (updateSweepBatchStatus (move PENDING_APPROVAL "alice" None) 100 tdb4).
Definition tdb6 : db := db_of (updateSweepBatchStatus (move APPROVED "bob" None) 200 tdb5).
Definition tdb7 : db := db_of (recordSweepBatchExecution sample_evidence sample_claim 10 "erin" 6000 tdb6).
Definition tdb8 : db :=
  db_of (updateSweepBatchStatus (move HANDED_OFF "bob" (Some sample_evidence)) 7000 tdb7).
Definition tdb9 : db :=
  db_of (updateSweepBatchStatus (move CLOSED "dave" (Some sample_evidence)) 8000 tdb8).

Lemma db_of_ok {A} (r : result TreasuryError (db * A)) :
  is_ok r = true -> exists b, r = Ok (db_of r, b).
Proof. destruct r as [[d b]|]; [eauto|done]. Qed.

Lemma ledger_with_step data l :
  is_ok (upsertLedgerEntryWithInitialState data l) = true -> ledger_step l (ledger_with data l).
Proof.
  unfold ledger_with. intros H.
  destruct (upsertLedgerEntryWithInitialState data l) as [[[l' e] i]|] eqn:E; [|done].
  by eapply ls_upsert.
Qed.

Lemma steady_same d d' : treasury_step d d' -> ledger d' = ledger d -> steady_step d d'.
Proof. intros Hs He. split; [done|]. intros id e e'. unfold ledger_entries. rewrite He. congruence. Qed.

Lemma sample_ingress : steady_step tdb1 (set_ledger sample_ledger tdb1).
Proof.
  split; [apply ts_ledger, ledger_with_step; vm_compute; reflexivity|].
  intros id e e' H. change (ledger_entries tdb1) with (∅ : gmap Z LedgerEntry) in H.
  by rewrite lookup_empty in H.
Qed.

Lemma sample_promotion : steady_step (set_ledger sample_ledger tdb1) tdb2.
Proof.
  split; [apply (ts_ledger (set_ledger sample_ledger tdb1)), ls_review, (rv_canonical sample_ledger)|].
  intros id e e'. unfold tdb2. change (ledger_entries (set_ledger sample_ledger tdb1)) with (ledger_rows sample_ledger).
  change (ledger_entries (set_ledger ?l _)) with (ledger_rows l).
  unfold markLedgerEntryCanonical.
  destruct (ledger_rows sample_ledger !! cm_ledgerEntryId sample_mark) as [e0|] eqn:E0; [|cbn [fst]; congruence].
  destruct (bool_decide _); cbn [fst]; [congruence|]. cbn [ledger_rows set_rows]. intros He.
  destruct (decide (1 = id)) as [<-|Hn];
    [|rewrite lookup_insert_ne by exact Hn; rewrite He; by intros [= ->]].
  change (ledger_rows sample_ledger !! 1 = Some e0) in E0. rewrite lookup_insert_eq.
  intros [= <-]. rewrite He in E0. by injection E0 as ->.
Qed.

Lemma tdb4_steady : steadily_reachable tdb4.
Proof.
  eapply rtc_l; [apply steady_same; [by apply (ts_period empty_db 1 "2026-01" 0 1000 "carol")|done]|].
  eapply rtc_l; [apply sample_ingress|]. eapply rtc_l; [apply sample_promotion|].
  eapply (rtc_l _ _ tdb3).
  { destruct (db_of_ok (createSweepBatch 10 "b-10" 1 "USDC" "500" None "alice" tdb2)) as [b H];
      [vm_compute; reflexivity|].
    apply steady_same; [by eapply ts_batch|vm_compute; reflexivity]. }
  apply rtc_once.
  destruct (db_of_ok (addSweepBatchEntry 10 1 "alice" None tdb3)) as [b H];
    [vm_compute; reflexivity|].
  apply steady_same; [by eapply ts_allocate|vm_compute; reflexivity].
Qed.

Lemma tdb4_reachable : treasury_reachable tdb4.
Proof. apply steadily_reachable_reachable, tdb4_steady. Qed.

Lemma tdb_step_status data now d :
  is_ok (updateSweepBatchStatus data now d) = true ->
  treasury_step d (db_of (updateSweepBatchStatus data now d)).
Proof. intros H. destruct (db_of_ok _ H) as [b Hb]. by eapply ts_batch_status. Qed.

Lemma tdb9_steps : rtc treasury_step tdb4 tdb9.
Proof.
  eapply rtc_l; [apply (tdb_step_status (move PENDING_APPROVAL "alice" None) 100); vm_compute; reflexivity|].
  eapply rtc_l; [apply (tdb_step_status (move APPROVED "bob" None) 200); vm_compute; reflexivity|].
  eapply rtc_l.
  { destruct (db_of_ok (recordSweepBatchExecution sample_evidence sample_claim 10 "erin" 6000 tdb6))
      as [b H]; [vm_compute; reflexivity|]. eapply ts_execution. exact H. }
  eapply rtc_l; [apply (tdb_step_status (move HANDED_OFF "bob" (Some sample_evidence)) 7000);
    vm_compute; reflexivity|].
  apply rtc_once. apply (tdb_step_status (move CLOSED "dave" (Some sample_evidence)) 8000).
  vm_compute. reflexivity.
Qed.

Lemma tdb9_reachable : treasury_reachable tdb9.
Proof. unfold treasury_reachable. etrans; [apply tdb4_reachable|apply tdb9_steps]. Qed.

Lemma sweep_batch_four_eyes_witness :
  exists b a e c, sweep_batches tdb9 !! 10 = Some b /\ sb_status b = CLOSED /\
    sb_approved_by b = Some a /\ sb_executed_by b = Some e /\ sb_closed_by b = Some c /\
    a <> e /\ c <> a /\ c <> e.
Proof.
  assert (Hb : exists b, sweep_batches tdb9 !! 10 = Some b /\ sb_status b = CLOSED).
  { eexists. split; vm_compute; reflexivity. }
  destruct Hb as (b & Hb & Hs).
  destruct (proj2 (proj2 (sweep_batch_four_eyes tdb9 10 b tdb9_reachable Hb)) Hs)
    as (a & e & c & Ha & He & Hc & H1 & H2 & H3 & _).
  exists b, a, e, c. repeat split; assumption.
Defined.

(** The approver may hand the batch off: the role-separation check does not
    cover that transition, although it is recorded with the EXECUTOR role. *)
Theorem approver_may_hold_executor_role :
  treasury_reachable tdb9 /\
  holds (batch_chain 10 tdb9) "bob" CHECKER /\ holds (batch_chain 10 tdb9) "bob" EXECUTOR.
Proof.
  split; [apply tdb9_reachable|].
  assert (Hc : batch_chain 10 tdb9 =
    [{| ta_actor := "alice"; ta_actor_role := MAKER |}; {| ta_actor := "bob"; ta_actor_role := CHECKER |};
     {| ta_actor := "erin"; ta_actor_role := EXECUTOR |};
     {| ta_actor := "bob"; ta_actor_role := EXECUTOR |};
     {| ta_actor := "dave"; ta_actor_role := CLOSER |}]) by (vm_compute; reflexivity).
  rewrite Hc. unfold holds. split; [right; left | right; right; right; left].
Qed.

Definition sample_allocation : SweepBatchEntry :=
  {| se_sweep_batch_id := 10; se_ledger_entry_id := 1; se_allocated := true;
     se_entry_amount_raw := "500"; se_allocated_by := "alice" |}.

Lemma tdb4_allocations : sweep_batch_entries tdb4 = [sample_allocation].
Proof. vm_compute. reflexivity. Qed.

Lemma allocations_never_exceed_ledger_witness :
  exists l, ledger_entries tdb4 !! 1 = Some l /\ le_amount_raw l = "500".
Proof.
  pose proof (proj2 (allocations_never_exceed_ledger tdb4 tdb4_reachable) tdb4_steady) as H.
  rewrite tdb4_allocations in H. apply Forall_cons in H as [(l & a & m & Hl & Ha & Hm & Hle) _].
  exists l. split; [exact Hl|]. vm_compute in Hl. injection Hl as <-. reflexivity.
Defined.

Definition sample_reorg : LedgerChainReorgEvent :=
  {| re_ledger_entry_id := 1; re_entry_key := ld_entryKey sample_upsert; re_trade_id := "7";
     re_tx_hash := "0xabc"; re_block_number := 90;
     re_expected_block_hash := Some (ld_blockHash sample_upsert); re_observed_block_hash := None;
     re_observed_block_number := None; re_observed_log_index := None; re_reorg_depth := 10;
     re_stable_block_number := 100; re_mismatch_reason := RECEIPT_MISSING |}.

Definition orphaned_with (r : LedgerChainReorgEvent) (l : Ledger) : Ledger :=
  ledger_of (recordLedgerEntryOrphaned r (Some PENDING_REVIEW) "system:chain-canonicality" 60 l).

Definition tdb_orphaned : db := set_ledger (orphaned_with sample_reorg (ledger tdb4)) tdb4.
Definition tdb_restored : db :=
  set_ledger (markLedgerEntryCanonical sample_mark 70 (ledger tdb_orphaned)).1 tdb_orphaned.

Lemma orphaned_with_step r l :
  is_ok (recordLedgerEntryOrphaned r (Some PENDING_REVIEW) "system:chain-canonicality" 60 l) = true ->
  ledger_step l (orphaned_with r l).
Proof.
  unfold orphaned_with. intros H.
  destruct (recordLedgerEntryOrphaned _ _ _ _ l) as [[l' c]|] eqn:E; [|done]. by eapply ls_review, rv_orphaned.
Qed.

Lemma tdb_orphaned_reachable : treasury_reachable tdb_orphaned.
Proof.
  eapply rtc_r; [apply tdb4_reachable|].
  apply ts_ledger, orphaned_with_step. vm_compute. reflexivity.
Qed.

Lemma orphaned_entry_blocks_batch_witness :
  is_ok (updateSweepBatchStatus (move PENDING_APPROVAL "alice" None) 100 tdb_restored) = false.
Proof.
  assert (Hl : exists l, ledger_entries tdb_orphaned !! 1 = Some l /\ le_canonicality_state l = ORPHANED)
    by (eexists; split; vm_compute; reflexivity).
  destruct Hl as (l & Hl & Ho).
  apply (orphaned_entry_blocks_batch tdb_orphaned tdb_restored 1 l sample_allocation
           tdb_orphaned_reachable).
  - apply rtc_once, ts_ledger, ls_review, rv_canonical.
  - exact Hl.
  - exact Ho.
  - replace (sweep_batch_entries tdb_restored) with [sample_allocation] by (vm_compute; reflexivity).
    left.
  - reflexivity.
  - reflexivity.
  - simpl. left.
Defined.

Lemma allocation_is_permanent_witness :
  let voided := db_of (updateSweepBatchStatus (move VOID "alice" None) 100 tdb4) in
  sb_status <$> sweep_batches voided !! 10 = Some VOID /\
  is_ok (addSweepBatchEntry 11 1 "zoe" None voided) = false.
Proof.
  split; [vm_compute; reflexivity|].
  refine (proj2 (allocation_is_permanent tdb4 _ sample_allocation tdb4_reachable _ _) 11 "zoe" None).
  - apply rtc_once. apply tdb_step_status. vm_compute. reflexivity.
  - replace (sweep_batch_entries tdb4) with [sample_allocation] by (vm_compute; reflexivity). left.
Defined.

Definition tdb_close1 : db := db_of (updateAccountingPeriodStatus 1 PENDING_CLOSE "alice" None 10 tdb1).
Definition tdb_close2 : db := db_of (updateAccountingPeriodStatus 1 PERIOD_CLOSED "dave" None 20 tdb_close1).

Lemma tdb_close2_reachable : treasury_reachable tdb_close2.
Proof.
  eapply rtc_r; [eapply rtc_r; [apply rtc_once|]|].
  - by apply (ts_period empty_db 1 "2026-01" 0 1000 "carol").
  - destruct (db_of_ok (updateAccountingPeriodStatus 1 PENDING_CLOSE "alice" None 10 tdb1)) as [b H];
      [vm_compute; reflexivity|]. eapply ts_period_status. exact H.
  - destruct (db_of_ok (updateAccountingPeriodStatus 1 PERIOD_CLOSED "dave" None 20 tdb_close1))
      as [b H]; [vm_compute; reflexivity|]. eapply ts_period_status. exact H.
Qed.

Lemma period_close_two_person_witness :
  exists p c, accounting_periods tdb_close2 !! 1 = Some p /\ ap_closed_by p = Some c /\
    c <> ap_created_by p.
Proof.
  assert (Hp : exists p, accounting_periods tdb_close2 !! 1 = Some p /\ ap_status p = PERIOD_CLOSED).
  { eexists. split; vm_compute; reflexivity. }
  destruct Hp as (p & Hp & Hs).
  destruct (proj1 (period_close_two_person tdb_close2 1 p tdb_close2_reachable Hp Hs))
    as (c & Hc & Hn & _).
  exists p, c. repeat split; assumption.
Defined.
