(* ===== verification/TreasuryIngest.v ===== *)
(** Treasury ingestion: [treasury/src/core/ingestion.ts], the run of
    [ingestionWorker.ts], [sdk/src/utils/feeSplit.ts] and the chain reads of
    [chainCanonicality.ts].

    A run is a sequence of effects: questions to the settlement RPC and the
    indexer, and statements on the treasury's tables.  The [World] answers each
    question as it likes and says what other transactions commit before each
    statement; effects are numbered by [run_tick].  A failed statement or answer
    throws, leaving what was committed before it.  The page loops carry fuel; the
    loop that runs out is not an error of the code but [OutOfFuel]. *)
From stdpp Require Import base list gmap strings.
From S2P Require Import Prelude JsText TreasuryAmount TreasuryPolicy TreasuryChain TreasuryDb.
From S2P Require Import TreasuryLedger.

Open Scope string_scope.
Open Scope Z_scope.

(** ** Fee components (feeSplit.ts) *)

Definition SETTLEMENT_SUPPORT_FEE_BASE_UNITS : Z := 4000000.

(** Net fee and support fee. *)
Definition splitPlatformFeeComponents (platformFeesAmount : Z) : result TreasuryError (Z * Z) :=
  _ ← throw_if (platformFeesAmount <? 0) (PlainError "platformFeesAmount cannot be negative");
  let settlementSupportFeeAmount :=
    if platformFeesAmount <? SETTLEMENT_SUPPORT_FEE_BASE_UNITS then platformFeesAmount
    else SETTLEMENT_SUPPORT_FEE_BASE_UNITS in
  Ok (platformFeesAmount - settlementSupportFeeAmount, settlementSupportFeeAmount).

(** ** What the indexer answers (indexer/types.ts) *)

Record IndexerTradeEvent := {
  te_id : string;
  te_tradeId : string;
  te_eventName : string;
  te_txHash : option string;
  te_blockNumber : Z;
  te_logIndex : Z;
  te_timestamp : Z;
  te_releasedLogisticsAmount : option string;
  te_paidPlatformFees : option string;
  te_paidPlatformFeeNet : option string;
  te_paidSettlementSupportFee : option string
}.

(** A [systemEvents] row of a [TreasuryClaimed] event, as the query answers it. *)
Record SystemEventRow := {
  sr_id : string;
  sr_txHash : string;
  sr_blockNumber : Z;
  sr_timestamp : Z;
  sr_claimAmount : option string;
  sr_treasuryIdentity : option string;
  sr_payoutReceiver : option string
}.

Record IndexerBlockWindow := { bw_limit : Z; bw_offset : Z; bw_fromBlock : Z; bw_toBlock : Z }.

(** ** The world and the run *)

Record World := {
  w_other : nat -> db -> db;
  w_configured : bool;
  w_finalized : nat -> result TreasuryError (option (Z * option string));
  w_processed : nat -> result TreasuryError (option Z);
  w_tradePage : nat -> IndexerBlockWindow -> result TreasuryError (list IndexerTradeEvent);
  w_claimPage : nat -> IndexerBlockWindow -> result TreasuryError (list SystemEventRow);
  w_getBlock : nat -> Z -> result TreasuryError (option (option string));
  w_getReceipt : nat -> string -> result TreasuryError (option SettlementReceipt);
  w_lock : nat -> result TreasuryError bool;
  w_now : nat -> Z
}.

(** [run_blocks] and [run_receipts] are the verifier's caches. *)
Record Run := {
  run_db : db;
  run_tick : nat;
  run_blocks : gmap Z (option string);
  run_receipts : gmap string (option SettlementReceipt)
}.

Definition start (d : db) : Run :=
  {| run_db := d; run_tick := 0; run_blocks := ∅; run_receipts := ∅ |}.

Definition with_db (d : db) (r : Run) : Run :=
  {| run_db := d; run_tick := S (run_tick r); run_blocks := run_blocks r;
     run_receipts := run_receipts r |}.
Definition with_blocks (c : gmap Z (option string)) (r : Run) : Run :=
  {| run_db := run_db r; run_tick := run_tick r; run_blocks := c; run_receipts := run_receipts r |}.
Definition with_receipts (c : gmap string (option SettlementReceipt)) (r : Run) : Run :=
  {| run_db := run_db r; run_tick := run_tick r; run_blocks := run_blocks r; run_receipts := c |}.

Inductive IngestError := Thrown (e : TreasuryError) | OutOfFuel.

Definition ingest (A : Type) : Type := Run -> result IngestError A * Run.

#[export] Instance ingest_ret : MRet ingest := fun A x r => (Ok x, r).
#[export] Instance ingest_bind : MBind ingest := fun A B f m r =>
  match m r with
  | (Ok x, r') => f x r'
  | (Err e, r') => (Err e, r')
  end.

Definition throw {A} (e : IngestError) : ingest A := fun r => (Err e, r).

Definition lift {A} (m : result TreasuryError A) : ingest A := fun r =>
  match m with Ok x => (Ok x, r) | Err e => (Err (Thrown e), r) end.

Definition get_run : ingest Run := fun r => (Ok r, r).
Definition modify (f : Run -> Run) : ingest unit := fun r => (Ok tt, f r).

(** A question: other transactions go on while it is answered. *)
Definition ask {A} (w : World) (q : nat -> result TreasuryError A) : ingest A := fun r =>
  lift (q (run_tick r)) (with_db (w_other w (run_tick r) (run_db r)) r).

(** A transaction on the tables. *)
Definition statement {A} (w : World) (f : db -> result TreasuryError (db * A)) : ingest A := fun r =>
  let d := w_other w (run_tick r) (run_db r) in
  match f d with
  | Ok (d', x) => (Ok x, with_db d' r)
  | Err e => (Err (Thrown e), with_db d r)
  end.

Definition on_ledger {A} (f : Ledger -> result TreasuryError (Ledger * A)) (d : db)
    : result TreasuryError (db * A) :=
  match f (ledger d) with Ok (l, x) => Ok (set_ledger l d, x) | Err e => Err e end.

(** ** The run (ingestion.ts) *)

Record Config := { ingestBatchSize : Z; ingestMaxEvents : Z }.

Definition component_text (c : TreasuryComponent) : string :=
  match c with
  | LOGISTICS => "logistics"
  | PLATFORM_FEE => "platform_fee"
  | SETTLEMENT_SUPPORT_FEE => "settlement_support_fee"
  end.

Definition buildEntryKey (eventId : string) (component : TreasuryComponent) : string :=
  eventId ++ ":" ++ component_text component.

(** [BigInt(text)] throws a SyntaxError. *)
Definition to_bigint (s : string) : result TreasuryError Z :=
  match js_BigInt s with Some z => Ok z | None => Err (PlainError "Cannot convert to a BigInt") end.

Definition truthy_text (s : option string) : option string :=
  match s with Some t => if truthy t then Some t else None | None => None end.

Definition resolvePlatformFeeSplit (event : IndexerTradeEvent) (paidPlatformFees : string)
    : result TreasuryError (Z * Z) :=
  match truthy_text (te_paidPlatformFeeNet event), truthy_text (te_paidSettlementSupportFee event) with
  | Some net, Some support => n ← to_bigint net; s ← to_bigint support; Ok (n, s)
  | _, _ => fees ← to_bigint paidPlatformFees; splitPlatformFeeComponents fees
  end.

Definition TRADE_EVENT_CURSOR : string := "trade_events".
Definition CLAIM_EVENT_CURSOR : string := "claim_events".
Definition INGESTION_CURSORS : list string := [TRADE_EVENT_CURSOR; CLAIM_EVENT_CURSOR].

Record TreasuryIngestionResult := {
  ir_fetched : Z;
  ir_inserted : Z;
  ir_stableBlockNumber : option Z;
  ir_indexerProcessedBlockNumber : option Z;
  ir_ingestedThroughBlockNumber : option Z;
  ir_windowExhausted : bool;
  ir_nextTradeBlockNumber : Z;
  ir_nextClaimBlockNumber : Z;
  ir_blockedReason : option string
}.

Definition provenCoverage (nextBlockNumber : Z) : option Z :=
  if 0 <? nextBlockNumber then Some (nextBlockNumber - 1) else None.

Definition lowestCoverage (first second : option Z) : option Z :=
  match first, second with Some a, Some b => Some (Z.min a b) | _, _ => None end.

(** The loop variables of a window. *)
Record Window := {
  wd_fetched : Z;
  wd_inserted : Z;
  wd_offset : Z;
  wd_lastBlockNumber : option Z;
  wd_exhausted : bool;
  wd_stoppedAtBlock : option Z
}.

Definition new_window : Window :=
  {| wd_fetched := 0; wd_inserted := 0; wd_offset := 0; wd_lastBlockNumber := None;
     wd_exhausted := false; wd_stoppedAtBlock := None |}.

Definition window_exhausted (v : Window) : Window :=
  {| wd_fetched := wd_fetched v; wd_inserted := wd_inserted v; wd_offset := wd_offset v;
     wd_lastBlockNumber := wd_lastBlockNumber v; wd_exhausted := true;
     wd_stoppedAtBlock := wd_stoppedAtBlock v |}.
Definition window_stopped (block : Z) (v : Window) : Window :=
  {| wd_fetched := wd_fetched v; wd_inserted := wd_inserted v; wd_offset := wd_offset v;
     wd_lastBlockNumber := wd_lastBlockNumber v; wd_exhausted := wd_exhausted v;
     wd_stoppedAtBlock := Some block |}.
Definition window_event (block inserted : Z) (v : Window) : Window :=
  {| wd_fetched := wd_fetched v + 1; wd_inserted := wd_inserted v + inserted;
     wd_offset := wd_offset v; wd_lastBlockNumber := Some block; wd_exhausted := wd_exhausted v;
     wd_stoppedAtBlock := wd_stoppedAtBlock v |}.
Definition window_page (n : Z) (v : Window) : Window :=
  {| wd_fetched := wd_fetched v; wd_inserted := wd_inserted v; wd_offset := wd_offset v + n;
     wd_lastBlockNumber := wd_lastBlockNumber v; wd_exhausted := wd_exhausted v;
     wd_stoppedAtBlock := wd_stoppedAtBlock v |}.

Definition resolveNextBlock (fromBlock toBlock : Z) (v : Window) : Z :=
  match wd_stoppedAtBlock v with
  | Some b => b
  | None => if wd_exhausted v then Z.max fromBlock (toBlock + 1)
            else default fromBlock (wd_lastBlockNumber v)
  end.

(** The cap of a run never splits a block. *)
Definition capped (cfg : Config) (fromBlock : Z) (v : Window) : bool :=
  (ingestMaxEvents cfg <=? wd_fetched v)
  && negb (bool_decide (wd_lastBlockNumber v = Some fromBlock)).

Section run.
Context (sha256 : string -> string) (cfg : Config) (w : World).

Definition resolveStableHead : ingest (option (Z * option string)) :=
  if w_configured w
  then head ← ask w (w_finalized w);
       mret ((fun h : Z * option string => (h.1, normalizeBlockHash h.2)) <$> head)
  else mret None.

Definition resolveBlockHash (blockNumber : Z) : ingest (option string) :=
  run ← get_run;
  match run_blocks run !! blockNumber with
  | Some cached => mret cached
  | None =>
      if w_configured w
      then
        block ← ask w (fun n => w_getBlock w n blockNumber);
        let hash := match block with Some h => normalizeBlockHash h | None => None end in
        _ ← modify (fun r => with_blocks (<[blockNumber := hash]> (run_blocks r)) r);
        mret hash
      else mret None
  end.

(** [resolveLogIdentity] with its cache of receipts. *)
Definition readLogIdentity (txHash : string) (logIndex : Z) : ingest (option (string * string)) :=
  if w_configured w
  then
    run ← get_run;
    receipt ← match run_receipts run !! txHash with
              | Some receipt => mret receipt
              | None =>
                  receipt ← ask w (fun n => w_getReceipt w n txHash);
                  _ ← modify (fun r => with_receipts (<[txHash := receipt]> (run_receipts r)) r);
                  mret receipt
              end;
    mret (resolveLogIdentity sha256 receipt logIndex)
  else mret None.

Definition ledger_upsert (event : IndexerTradeEvent) (txHash blockHash : string)
    (logIdentity : option (string * string)) (component : TreasuryComponent) (amountRaw : string)
    : LedgerUpsert :=
  {| ld_entryKey := buildEntryKey (te_id event) component; ld_tradeId := te_tradeId event;
     ld_txHash := txHash; ld_blockNumber := te_blockNumber event; ld_blockHash := blockHash;
     ld_logIndex := te_logIndex event; ld_logAddress := fst <$> logIdentity;
     ld_logIdentityHash := snd <$> logIdentity; ld_eventName := te_eventName event;
     ld_componentType := component; ld_amountRaw := amountRaw;
     ld_sourceTimestamp := te_timestamp event |}.

(** 1 when the upsert created the entry's first payout state. *)
Definition upsert_line (data : LedgerUpsert) : ingest Z :=
  initialStateCreated ← statement w (on_ledger (fun l =>
    match upsertLedgerEntryWithInitialState data l with
    | Ok (l', _, initial) => Ok (l', initial)
    | Err e => Err e
    end));
  mret (if (initialStateCreated : bool) then 1 else 0).

(** The [for] over the entries of a platform fee. *)
Fixpoint upsert_platform (event : IndexerTradeEvent) (txHash blockHash : string)
    (logIdentity : option (string * string)) (entries : list (TreasuryComponent * Z)) (inserted : Z)
    : ingest Z :=
  match entries with
  | [] => mret inserted
  | (component, amount) :: entries =>
      if amount <=? 0 then upsert_platform event txHash blockHash logIdentity entries inserted
      else
        n ← upsert_line (ledger_upsert event txHash blockHash logIdentity component (print_Z amount));
        upsert_platform event txHash blockHash logIdentity entries (inserted + n)
  end.

Definition ingestTradeEvent (event : IndexerTradeEvent) (blockHash : string)
    (logIdentity : option (string * string)) : ingest Z :=
  let platform (inserted : Z) : ingest Z :=
    match truthy_text (te_paidPlatformFees event) with
    | Some fees =>
        if String.eqb (te_eventName event) "PlatformFeesPaidStage1"
        then
          match truthy_text (te_txHash event) with
          | None => mret inserted
          | Some txHash =>
              split ← lift (resolvePlatformFeeSplit event fees);
              _ ← lift (to_bigint fees);
              upsert_platform event txHash blockHash logIdentity
                [(PLATFORM_FEE, split.1); (SETTLEMENT_SUPPORT_FEE, split.2)] inserted
          end
        else mret inserted
    | None => mret inserted
    end in
  match truthy_text (te_releasedLogisticsAmount event) with
  | Some amount =>
      if String.eqb (te_eventName event) "FundsReleasedStage1"
      then
        match truthy_text (te_txHash event) with
        | None => mret 0
        | Some txHash =>
            n ← upsert_line (ledger_upsert event txHash blockHash logIdentity LOGISTICS amount);
            platform n
        end
      else platform 0
  | None => platform 0
  end.

(** The [for] over the events of a page. *)
Fixpoint trade_page (events : list IndexerTradeEvent) (v : Window) : ingest Window :=
  match events with
  | [] => mret v
  | event :: events =>
      blockHash ← resolveBlockHash (te_blockNumber event);
      match truthy_text blockHash with
      | None => mret (window_stopped (te_blockNumber event) v)
      | Some blockHash =>
          logIdentity ← match truthy_text (te_txHash event) with
                        | Some txHash => readLogIdentity txHash (te_logIndex event)
                        | None => mret None
                        end;
          n ← ingestTradeEvent event blockHash logIdentity;
          trade_page events (window_event (te_blockNumber event) n v)
      end
  end.

Fixpoint trade_window (fuel : nat) (fromBlock toBlock : Z) (v : Window) : ingest Window :=
  if negb (fromBlock <=? toBlock) then mret v
  else
    match fuel with
    | O => throw OutOfFuel
    | S fuel =>
        events ← ask w (fun n => w_tradePage w n
          {| bw_limit := ingestBatchSize cfg; bw_offset := wd_offset v;
             bw_fromBlock := fromBlock; bw_toBlock := toBlock |});
        let count := Z.of_nat (length (events : list IndexerTradeEvent)) in
        if count =? 0 then mret (window_exhausted v)
        else
          v ← trade_page events v;
          if bool_decide (wd_stoppedAtBlock v <> None) then mret v
          else
            let v := window_page count v in
            if count <? ingestBatchSize cfg then mret (window_exhausted v)
            else if capped cfg fromBlock v then mret v
            else trade_window fuel fromBlock toBlock v
    end.

Definition ingestTradeEvents (fuel : nat) (fromBlock toBlock : Z) : ingest (Window * Z) :=
  v ← trade_window fuel fromBlock toBlock new_window;
  mret (v, resolveNextBlock fromBlock toBlock v).

(** The filter and projection of [fetchTreasuryClaimEvents] (indexer/client.ts). *)
Definition toTreasuryClaimEvent (row : SystemEventRow) : option TreasuryClaimEvent :=
  match truthy_text (sr_claimAmount row), truthy_text (sr_treasuryIdentity row),
        truthy_text (sr_payoutReceiver row) with
  | Some amount, Some _, Some receiver =>
      Some {| tc_source_event_id := sr_id row; tc_matched_sweep_batch_id := None;
              tc_tx_hash := sr_txHash row; tc_block_number := sr_blockNumber row;
              tc_observed_at := sr_timestamp row; tc_payout_receiver := toLowerCase receiver;
              tc_amount_raw := amount |}
  | _, _, _ => None
  end.

Definition fetchTreasuryClaimEvents (window : IndexerBlockWindow) : ingest (list TreasuryClaimEvent) :=
  rows ← ask w (fun n => w_claimPage w n window);
  mret (omap toTreasuryClaimEvent rows).

Fixpoint claim_page (events : list TreasuryClaimEvent) (v : Window) : ingest Window :=
  match events with
  | [] => mret v
  | event :: events =>
      _ ← statement w (upsertTreasuryClaimEventWith
            {| tc_source_event_id := tc_source_event_id event; tc_matched_sweep_batch_id := None;
               tc_tx_hash := tc_tx_hash event; tc_block_number := tc_block_number event;
               tc_observed_at := tc_observed_at event; tc_payout_receiver := tc_payout_receiver event;
               tc_amount_raw := tc_amount_raw event |});
      claim_page events (window_event (tc_block_number event) 0 v)
  end.

Fixpoint claim_window (fuel : nat) (fromBlock toBlock : Z) (v : Window) : ingest Window :=
  if negb (fromBlock <=? toBlock) then mret v
  else
    match fuel with
    | O => throw OutOfFuel
    | S fuel =>
        claimEvents ← fetchTreasuryClaimEvents
          {| bw_limit := ingestBatchSize cfg; bw_offset := wd_offset v;
             bw_fromBlock := fromBlock; bw_toBlock := toBlock |};
        let count := Z.of_nat (length claimEvents) in
        if count =? 0 then mret (window_exhausted v)
        else
          v ← claim_page claimEvents v;
          let v := window_page count v in
          if count <? ingestBatchSize cfg then mret (window_exhausted v)
          else if capped cfg fromBlock v then mret v
          else claim_window fuel fromBlock toBlock v
    end.

Definition ingestClaimEvents (fuel : nat) (fromBlock toBlock : Z) : ingest (Window * Z) :=
  v ← claim_window fuel fromBlock toBlock new_window;
  mret (v, resolveNextBlock fromBlock toBlock v).

Definition blocked (reason : string) (tradeWatermark claimWatermark : Z)
    (stableBlockNumber indexerProcessed : option Z) : TreasuryIngestionResult :=
  {| ir_fetched := 0; ir_inserted := 0; ir_stableBlockNumber := stableBlockNumber;
     ir_indexerProcessedBlockNumber := indexerProcessed; ir_ingestedThroughBlockNumber := None;
     ir_windowExhausted := false; ir_nextTradeBlockNumber := tradeWatermark;
     ir_nextClaimBlockNumber := claimWatermark; ir_blockedReason := Some reason |}.

Definition read_watermark (name : string) : ingest Z :=
  statement w (on_ledger (fun l => Ok (getIngestionWatermark name l))).

Definition write_watermark (next : Z) (name : string) (coverage : option Z) : ingest unit :=
  statement w (on_ledger (fun l => Ok (setIngestionWatermark next name coverage l, tt))).

Definition ingestOnce (fuel : nat) : ingest TreasuryIngestionResult :=
  _ ← modify (fun r => with_receipts ∅ (with_blocks ∅ r));
  tradeWatermark ← read_watermark TRADE_EVENT_CURSOR;
  claimWatermark ← read_watermark CLAIM_EVENT_CURSOR;
  head ← resolveStableHead;
  match head with
  | None =>
      mret (blocked "Settlement RPC did not report a finalized head; ingestion is bounded by finality and will not run unbounded"
              tradeWatermark claimWatermark None None)
  | Some (finalizedBlockNumber, _) =>
      indexerProcessed ← ask w (w_processed w);
      match indexerProcessed with
      | None =>
          mret (blocked "Indexer did not report a processed block height; an empty page cannot be distinguished from an unindexed range"
                  tradeWatermark claimWatermark (Some finalizedBlockNumber) None)
      | Some indexerProcessed =>
          let toBlock := Z.min finalizedBlockNumber indexerProcessed in
          trades ← ingestTradeEvents fuel tradeWatermark toBlock;
          claims ← ingestClaimEvents fuel claimWatermark toBlock;
          let tradeCoverage := provenCoverage trades.2 in
          let claimCoverage := provenCoverage claims.2 in
          _ ← write_watermark trades.2 TRADE_EVENT_CURSOR tradeCoverage;
          _ ← write_watermark claims.2 CLAIM_EVENT_CURSOR claimCoverage;
          mret {| ir_fetched := wd_fetched trades.1 + wd_fetched claims.1;
                  ir_inserted := wd_inserted trades.1 + wd_inserted claims.1;
                  ir_stableBlockNumber := Some finalizedBlockNumber;
                  ir_indexerProcessedBlockNumber := Some indexerProcessed;
                  ir_ingestedThroughBlockNumber := lowestCoverage tradeCoverage claimCoverage;
                  ir_windowExhausted := (toBlock <? trades.2) && (toBlock <? claims.2);
                  ir_nextTradeBlockNumber := trades.2;
                  ir_nextClaimBlockNumber := claims.2;
                  ir_blockedReason := None |}
      end
  end.

(** ** The worker (ingestionWorker.ts)

    The evidence row of [treasury_ingestion_runs], metrics and logs are left out. *)
Inductive IngestionRunOutcome := COMPLETED | PARTIAL | BLOCKED | FAILED | NOT_OWNER.

Definition mark (f : Z -> Ledger -> Ledger) : ingest unit :=
  run ← get_run;
  statement w (on_ledger (fun l => Ok (f (w_now w (run_tick run)) l, tt))).

(** The body of the [try]. *)
Definition run_owned (fuel : nat) : ingest (IngestionRunOutcome * option TreasuryIngestionResult) :=
  acquired ← ask w (w_lock w);
  if negb acquired then mret (NOT_OWNER, None)
  else
    _ ← mark (markIngestionAttemptStarted INGESTION_CURSORS);
    result ← ingestOnce fuel;
    match ir_blockedReason result with
    | Some reason =>
        _ ← mark (markIngestionRunUnsuccessful INGESTION_CURSORS reason);
        mret (BLOCKED, Some result)
    | None =>
        if negb (ir_windowExhausted result) then
          _ ← mark (fun _ => markIngestionRunPartial INGESTION_CURSORS
                "Ingestion stopped at the event cap");
          mret (PARTIAL, Some result)
        else
          _ ← mark (markIngestionRunCompleted INGESTION_CURSORS);
          mret (COMPLETED, Some result)
    end.

Definition executeRun (fuel : nat) : ingest (IngestionRunOutcome * option TreasuryIngestionResult) := fun r =>
  match run_owned fuel r with
  | (Err (Thrown _), r') =>
      let '(_, r'') := mark (markIngestionRunUnsuccessful INGESTION_CURSORS "Ingestion run failed") r' in
      (Ok (FAILED, None), r'')
  | out => out
  end.

End run.

(** ** Lemmas: amounts as the columns hold them *)

Lemma print_N_truthy n : truthy (print_N n) = true.
Proof. pose proof (canonical_digits_print n). by destruct (print_N n). Qed.

Lemma print_Z_truthy z : truthy (print_Z z) = true.
Proof. destruct z as [|p|p]; try done. apply print_N_truthy. Qed.

Lemma print_Z_text z : truthy_text (Some (print_Z z)) = Some (print_Z z).
Proof. unfold truthy_text. by rewrite print_Z_truthy. Qed.

Lemma to_bigint_print z : 0 <= z -> to_bigint (print_Z z) = Ok z.
Proof.
  intros H. unfold to_bigint. rewrite js_BigInt_digits
    by (destruct z; [done|unfold digits_only; cbn [print_Z]; by rewrite print_N_truthy, print_N_digits|lia]).
  destruct z as [|p|p]; [done| |lia]. cbn [print_Z]. by rewrite digits_value_print.
Qed.
