(* ===== verification/TreasuryCover.v ===== *)
(** What ingestion guarantees: every fee event below the watermark is in the ledger
    with its exact amounts, over every history of runs, reviews and batch
    operations; and a run over answering services makes progress. *)
From stdpp Require Import base list gmap strings sorting.
From S2P Require Import Prelude JsText TreasuryAmount TreasuryPolicy TreasuryChain TreasuryDb.
From S2P Require Import TreasuryLedger TreasuryDbInv TreasuryIngest.

Open Scope string_scope.
Open Scope Z_scope.

(** ** What an event is worth

    The components a fee event pays and the text of each amount. *)
Definition platform_lines (split : Z * Z) : list (TreasuryComponent * string) :=
  omap (fun p : TreasuryComponent * Z => if p.2 <=? 0 then None else Some (p.1, print_Z p.2))
    [(PLATFORM_FEE, split.1); (SETTLEMENT_SUPPORT_FEE, split.2)].

Definition logistics_lines (ev : IndexerTradeEvent) : list (TreasuryComponent * string) :=
  match truthy_text (te_releasedLogisticsAmount ev) with
  | Some amount => if String.eqb (te_eventName ev) "FundsReleasedStage1" then [(LOGISTICS, amount)] else []
  | None => []
  end.

Definition fee_lines (ev : IndexerTradeEvent) : list (TreasuryComponent * string) :=
  match truthy_text (te_txHash ev) with
  | None => []
  | Some _ =>
      (logistics_lines ev ++
       match truthy_text (te_paidPlatformFees ev) with
       | Some fees =>
           if String.eqb (te_eventName ev) "PlatformFeesPaidStage1"
           then match resolvePlatformFeeSplit ev fees with Ok split => platform_lines split | Err _ => [] end
           else []
       | None => []
       end)%list
  end.

(** A row that is this line of this event. *)
Definition row_of (ev : IndexerTradeEvent) (line : TreasuryComponent * string) (e : LedgerEntry) : Prop :=
  le_entry_key e = buildEntryKey (te_id ev) line.1 /\ le_component_type e = line.1 /\
  le_amount_raw e = line.2 /\ le_trade_id e = te_tradeId ev /\ le_block_number e = te_blockNumber ev /\
  le_event_name e = te_eventName ev.

Definition line_recorded (d : db) (ev : IndexerTradeEvent) (line : TreasuryComponent * string) : Prop :=
  exists id e, ledger_entries d !! id = Some e /\ row_of ev line e.

Definition recorded (d : db) (ev : IndexerTradeEvent) : Prop :=
  forall line, line ∈ fee_lines ev -> line_recorded d ev line.

(** ** Entry keys determine the event and the component *)

Fixpoint text_chars (s : string) : list Ascii.ascii :=
  match s with EmptyString => [] | String c s => c :: text_chars s end.

Lemma text_chars_inj s t : text_chars s = text_chars t -> s = t.
Proof. revert t. induction s as [|c s IH]; intros [|d t]; simpl; try done. intros [= -> ?%IH]. by subst. Qed.

Lemma text_chars_app s t : text_chars (s ++ t) = (text_chars s ++ text_chars t)%list.
Proof. induction s as [|c s IH]; [done|]. exact (f_equal (cons c) IH). Qed.

Lemma buildEntryKey_inj id id' c c' : buildEntryKey id c = buildEntryKey id' c' -> id = id' /\ c = c'.
Proof.
  unfold buildEntryKey. intros H. apply (f_equal (fun s => reverse (text_chars s))) in H.
  rewrite !text_chars_app, !reverse_app in H.
  destruct c, c'; vm_compute in H; try discriminate H; injection H as H;
    change (reverse (text_chars id) = reverse (text_chars id')) in H;
    apply (inj reverse), text_chars_inj in H; done.
Qed.

(** ** Histories *)

(** A step of the treasury in which the ledger is at most reviewed: everything but
    ingestion. *)
Definition concurrent (d d' : db) : Prop :=
  treasury_step d d' /\ (ledger d' = ledger d \/ review_step (ledger d) (ledger d')).

Definition in_window (win : IndexerBlockWindow) (ev : IndexerTradeEvent) : Prop :=
  bw_fromBlock win <= te_blockNumber ev <= bw_toBlock win.

#[export] Instance in_window_dec win ev : Decision (in_window win ev).
Proof. unfold in_window. apply _. Defined.

(** The page a query answers. *)
Definition trade_slice (events : list IndexerTradeEvent) (win : IndexerBlockWindow)
    : list IndexerTradeEvent :=
  take (Z.to_nat (bw_limit win)) (drop (Z.to_nat (bw_offset win)) (filter (in_window win) events)).

(** ** Effects are numbered in order *)

Definition ticks {A} (m : ingest A) : Prop := forall r, (run_tick r <= run_tick (m r).2)%nat.

Lemma ticks_bind {A B} (m : ingest A) (f : A -> ingest B) :
  ticks m -> (forall a, ticks (f a)) -> ticks (m ≫= f).
Proof.
  intros Hm Hf r. unfold mbind, ingest_bind. specialize (Hm r).
  destruct (m r) as [[a|e] r']; simpl in *; [|done]. etrans; [done|apply Hf].
Qed.

Lemma ticks_pure {A} (m : ingest A) : (forall r, run_tick (m r).2 = run_tick r) -> ticks m.
Proof. intros H r. by rewrite H. Qed.

Lemma ticks_lift {A} (m : result TreasuryError A) : ticks (lift m).
Proof. apply ticks_pure. intros r. unfold lift. by destruct m. Qed.

Lemma ticks_ask {A} w (q : nat -> result TreasuryError A) : ticks (ask w q).
Proof. intros r. etrans; [|apply ticks_lift]. simpl. lia. Qed.

Lemma ticks_statement {A} w (f : db -> result TreasuryError (db * A)) : ticks (statement w f).
Proof. intros r. unfold statement. destruct (f _) as [[d a]|]; simpl; lia. Qed.

#[local] Hint Resolve ticks_lift ticks_ask ticks_statement : ticks.
#[local] Hint Extern 1 (ticks (mret _)) => apply ticks_pure; done : ticks.
#[local] Hint Extern 1 (ticks (throw _)) => apply ticks_pure; done : ticks.
#[local] Hint Extern 1 (ticks get_run) => apply ticks_pure; done : ticks.
#[local] Hint Extern 1 (ticks (modify _)) => apply ticks_pure; done : ticks.

Ltac ticks :=
  repeat first
    [ solve [auto with ticks]
    | apply ticks_bind; [|intros ?]
    | case_match ].

Lemma ticks_block_hash w n : ticks (resolveBlockHash w n).
Proof. unfold resolveBlockHash. ticks. Qed.

Lemma ticks_log_identity sha256 w tx i : ticks (readLogIdentity sha256 w tx i).
Proof. unfold readLogIdentity. ticks. Qed.

Lemma ticks_upsert_line w data : ticks (upsert_line w data).
Proof. unfold upsert_line. ticks. Qed.

Lemma ticks_platform w ev tx h i entries n : ticks (upsert_platform w ev tx h i entries n).
Proof.
  revert n. induction entries as [|[c a] entries IH]; intros n; simpl; [ticks|].
  destruct (a <=? 0); [apply IH|]. apply ticks_bind; [apply ticks_upsert_line|intros; apply IH].
Qed.

#[local] Hint Resolve ticks_block_hash ticks_log_identity ticks_upsert_line ticks_platform : ticks.

Lemma ticks_trade_event w ev h i : ticks (ingestTradeEvent w ev h i).
Proof. unfold ingestTradeEvent. ticks. Qed.

#[local] Hint Resolve ticks_trade_event : ticks.

Lemma ticks_trade_page sha256 w page v : ticks (trade_page sha256 w page v).
Proof.
  revert v. induction page as [|ev page IH]; intros v; simpl; [ticks|].
  apply ticks_bind; [auto with ticks|]. intros h. destruct (truthy_text h); [|ticks].
  apply ticks_bind; [ticks|]. intros i. apply ticks_bind; [auto with ticks|]. intros n. apply IH.
Qed.

Lemma sorted_filter {A} (P : A -> Prop) `{forall x, Decision (P x)} R (l : list A) :
  StronglySorted R l -> StronglySorted R (filter P l).
Proof.
  induction 1 as [|x l Hl IH Hx]; [constructor|]. rewrite filter_cons. destruct (decide (P x)); [|done].
  constructor; [done|]. rewrite Forall_forall in *. intros y Hy. apply list_elem_of_filter in Hy as [_ ?]. auto.
Qed.

Section cover.
Context (sha256 : string -> string) (cfg : Config) (events : list IndexerTradeEvent).

(** The indexer's fee events in the order of the query; an id names one event. *)
Record events_ordered : Prop := {
  eo_heights : forall a, a ∈ events -> 0 <= te_blockNumber a;
  eo_sorted : StronglySorted (fun a b => te_blockNumber a <= te_blockNumber b) events;
  eo_ids : forall a b, a ∈ events -> b ∈ events -> te_id a = te_id b -> a = b
}.

(** A world in which other processes do not ingest, and the indexer, once it has
    reported a height, answers windows below it from [events], or fails. *)
Record faithful (w : World) : Prop := {
  fw_other : forall n d, rtc concurrent d (w_other w n d);
  fw_pages : forall m n p win page,
    w_processed w m = Ok (Some p) -> (m < n)%nat -> bw_toBlock win <= p ->
    w_tradePage w n win = Ok page -> page = trade_slice events win
}.

(** Runs in such worlds, and the other processes between them. *)
Inductive ingest_history (world : World -> Prop) : db -> Prop :=
| ih_start : ingest_history world empty_db
| ih_other d d' : ingest_history world d -> concurrent d d' -> ingest_history world d'
| ih_run d w fuel : ingest_history world d -> world w ->
    ingest_history world (run_db (executeRun sha256 cfg w fuel (start d)).2).

Lemma ingest_history_weaken (P Q : World -> Prop) d :
  (forall w, P w -> Q w) -> ingest_history P d -> ingest_history Q d.
Proof. intros H. induction 1; [constructor|by eapply ih_other|apply ih_run; auto]. Qed.

(** ** The invariant: rows are lines of events *)

Definition sourced (d : db) : Prop :=
  forall id e, ledger_entries d !! id = Some e ->
    exists ev line, ev ∈ events /\ line ∈ fee_lines ev /\ row_of ev line e.

Definition ingest_inv (d : db) : Prop := ledger_ok (ledger d) /\ sourced d.

Definition sourced_step (d d' : db) : Prop := treasury_step d d' /\ ingest_inv d /\ ingest_inv d'.

Definition later (d d' : db) : Prop :=
  rtc sourced_step d d' /\
  forall name, watermark name (ledger d') <= watermark name (ledger d).

#[local] Instance later_refl : Reflexive later.
Proof. intros d. by split. Qed.
#[local] Instance later_trans : Transitive later.
Proof. intros d1 d2 d3 [? H12] [? H23]. split; [by etrans|]. intros name. etrans; eauto. Qed.

Lemma row_of_reviewed ev line e e' : entry_reviewed e e' -> row_of ev line e -> row_of ev line e'.
Proof. intros (E1 & E2 & E3 & E4 & E5 & E6 & E7) (R1 & R2 & R3 & R4 & R5 & R6). split_and!; congruence. Qed.

Lemma concurrent_later d d' : ingest_inv d -> concurrent d d' -> ingest_inv d' /\ later d d'.
Proof.
  intros [Hok Hs] [Hstep Hl].
  assert (Hinv : ingest_inv d').
  { destruct Hl as [E|Hr]; [unfold ingest_inv, sourced, ledger_entries in *; by rewrite E|].
    destruct (review_step_ok _ _ Hok Hr) as [Hok' _]. split; [done|]. intros id e' He'.
    pose proof (review_step_rows _ _ Hr id) as H. unfold ledger_entries in He'. rewrite He' in H.
    destruct (ledger_rows (ledger d) !! id) as [e|] eqn:E; [|done].
    destruct (Hs id e E) as (ev & line & ? & ? & Hrow). exists ev, line. split_and!; [done..|].
    by eapply row_of_reviewed. }
  split; [done|]. split; [by apply rtc_once|]. intros name.
  destruct Hl as [->|Hr]; [done|]. by apply review_step_watermark.
Qed.

Lemma concurrents_later d d' : ingest_inv d -> rtc concurrent d d' -> ingest_inv d' /\ later d d'.
Proof.
  intros Hi Hs. induction Hs as [x|x y z Hxy _ IH]; [by split|].
  destruct (concurrent_later x y Hi Hxy) as [Hy ?]. destruct (IH Hy) as [? ?].
  split; [done|]. by etrans.
Qed.

Context (Hev : events_ordered).

(** Under the invariant the amount of an entry follows from its key. *)
Lemma row_unique ev ev' line line' e e' :
  ev ∈ events -> ev' ∈ events -> row_of ev line e -> row_of ev' line' e' ->
  le_entry_key e' = le_entry_key e -> ev' = ev /\ line'.1 = line.1.
Proof.
  intros Hin Hin' (Hk & _) (Hk' & _) E. rewrite Hk, Hk' in E.
  apply buildEntryKey_inj in E as [Hid ?]. split; [|done]. by apply (eo_ids Hev).
Qed.

(** The lines of an event have different components. *)
Lemma fee_lines_component ev l1 l2 :
  l1 ∈ fee_lines ev -> l2 ∈ fee_lines ev -> l1.1 = l2.1 -> l1 = l2.
Proof.
  unfold fee_lines. destruct (truthy_text (te_txHash ev)); [|by intros ?%elem_of_nil].
  unfold logistics_lines.
  assert (Hp : forall fees, let pl := match resolvePlatformFeeSplit ev fees with
      Ok split => platform_lines split | Err _ => [] end in
    (forall l, l ∈ pl -> l.1 <> LOGISTICS) /\
    (forall l1 l2, l1 ∈ pl -> l2 ∈ pl -> l1.1 = l2.1 -> l1 = l2)).
  { intros fees. destruct (resolvePlatformFeeSplit ev fees) as [[a b]|]; simpl;
      [|split; intros * ?%elem_of_nil; done].
    unfold platform_lines. simpl. destruct (a <=? 0), (b <=? 0); simpl;
      (split; [intros l Hl|intros m1 m2 Hl1 Hl2 E]); set_solver. }
  destruct (truthy_text (te_paidPlatformFees ev)) as [fees|].
  - destruct (Hp fees) as [Hp1 Hp2]. destruct (String.eqb _ "PlatformFeesPaidStage1").
    + destruct (truthy_text (te_releasedLogisticsAmount ev)) as [amt|];
        [destruct (String.eqb _ _)|]; rewrite ?app_nil_l; eauto.
      intros H1 H2 E. apply elem_of_app in H1, H2.
      destruct H1 as [H1|H1], H2 as [H2|H2]; eauto.
      * apply list_elem_of_singleton in H1, H2. congruence.
      * apply list_elem_of_singleton in H1. subst l1. simpl in E. by apply Hp1 in H2.
      * apply list_elem_of_singleton in H2. subst l2. simpl in E. by apply Hp1 in H1.
    + rewrite app_nil_r. destruct (truthy_text (te_releasedLogisticsAmount ev)) as [amt|];
        [destruct (String.eqb _ _)|]; try (by intros ?%elem_of_nil).
      intros ?%list_elem_of_singleton ?%list_elem_of_singleton. congruence.
  - rewrite app_nil_r. destruct (truthy_text (te_releasedLogisticsAmount ev)) as [amt|];
      [destruct (String.eqb _ _)|]; try (by intros ?%elem_of_nil).
    intros ?%list_elem_of_singleton ?%list_elem_of_singleton. congruence.
Qed.

Lemma row_determined ev ev' line line' e e' :
  ev ∈ events -> ev' ∈ events -> line ∈ fee_lines ev -> line' ∈ fee_lines ev' ->
  row_of ev line e -> row_of ev' line' e' -> le_entry_key e' = le_entry_key e ->
  row_of ev line e'.
Proof.
  intros Hin Hin' Hl Hl' Hr Hr' E.
  destruct (row_unique _ _ _ _ _ _ Hin Hin' Hr Hr' E) as [-> Hc].
  by rewrite (fee_lines_component ev line line').
Qed.

Lemma sourced_row_later d d' id e ev line :
  sourced_step d d' -> ev ∈ events -> line ∈ fee_lines ev ->
  ledger_entries d !! id = Some e -> row_of ev line e ->
  exists e', ledger_entries d' !! id = Some e' /\ row_of ev line e'.
Proof.
  intros (Hs & [Hok _] & [_ Hs']) Hin Hl He Hr.
  destruct (treasury_step_rows d d' Hok Hs) as [_ Hlater]. destruct (Hlater id e He) as (e' & He' & Hk & _).
  exists e'. split; [done|]. destruct (Hs' id e' He') as (ev' & line' & Hin' & Hl' & Hr').
  by eapply row_determined.
Qed.

Lemma line_later d d' ev line :
  ev ∈ events -> line ∈ fee_lines ev -> rtc sourced_step d d' ->
  line_recorded d ev line -> line_recorded d' ev line.
Proof.
  intros Hin Hl Hs (id & e & He & Hrow). exists id.
  revert e He Hrow. induction Hs as [x|x y z Hxy _ IH]; [by eauto|]. intros e He Hrow.
  destruct (sourced_row_later _ _ _ _ _ _ Hxy Hin Hl He Hrow) as (e' & ? & ?). eauto.
Qed.

Lemma recorded_later d d' ev : ev ∈ events -> rtc sourced_step d d' -> recorded d ev -> recorded d' ev.
Proof. intros Hin Hs Hr line Hl. eapply line_later; eauto. Qed.

Lemma sourced_steady d d' : rtc sourced_step d d' -> rtc steady_step d d'.
Proof.
  apply rtc_subrel. intros x y Hxy. split; [apply Hxy|]. intros id e e' He He'.
  destruct (proj2 (proj1 (proj2 Hxy)) id e He) as (ev & line & Hin & Hl & Hr).
  destruct (sourced_row_later _ _ _ _ _ _ Hxy Hin Hl He Hr) as (e2 & He2 & Hr2).
  rewrite He' in He2. injection He2 as <-. destruct Hr as (_ & _ & Ha & _), Hr2 as (_ & _ & Ha2 & _).
  congruence.
Qed.

(** ** Runs

    [post m r Q]: from a good database [m] keeps the tables good and only moves
    them on, whether it throws or not, and an answer satisfies [Q]. *)
Definition post {A} (m : ingest A) (r : Run) (Q : A -> Run -> Prop) : Prop :=
  ingest_inv (run_db r) ->
  ingest_inv (run_db (m r).2) /\ later (run_db r) (run_db (m r).2) /\
  match (m r).1 with Ok a => Q a (m r).2 | Err _ => True end.

Lemma post_bind {A B} (m : ingest A) (f : A -> ingest B) r Q :
  post m r (fun a r' => later (run_db r) (run_db r') -> post (f a) r' Q) -> post (m ≫= f) r Q.
Proof.
  intros H Hi. destruct (H Hi) as (Hi1 & Hl1 & Hq). unfold mbind, ingest_bind in *.
  destruct (m r) as [[a|e] r1]; simpl in *; [|done].
  destruct (Hq Hl1 Hi1) as (Hi2 & Hl2 & Hq2). destruct (f a r1) as [[b|e] r2]; simpl in *;
    (split_and!; [done|by etrans|done]).
Qed.

Lemma post_ret {A} (a : A) r Q : Q a r -> post (mret a) r Q.
Proof. intros H Hi. by split_and!. Qed.

Lemma post_throw {A} e r (Q : A -> Run -> Prop) : post (throw e) r Q.
Proof. intros Hi. by split_and!. Qed.

Lemma post_lift {A} (m : result TreasuryError A) r Q :
  (forall a, m = Ok a -> Q a r) -> post (lift m) r Q.
Proof. intros H Hi. unfold lift. destruct m; simpl; split_and!; eauto using later_refl. Qed.

Lemma post_mono {A} (m : ingest A) r (Q Q' : A -> Run -> Prop) :
  post m r Q -> (forall a r', later (run_db r) (run_db r') -> Q a r' -> Q' a r') -> post m r Q'.
Proof.
  intros H HQ Hi. destruct (H Hi) as (? & ? & Hq). split_and!; [done..|]. destruct (m r) as [[a|] r'];
    simpl in *; eauto.
Qed.

Lemma post_frame {A} (m : ingest A) r Q :
  run_db (m r).2 = run_db r -> (forall a, (m r).1 = Ok a -> Q a (m r).2) -> post m r Q.
Proof.
  intros E H Hi. rewrite E. split_and!; [done..|]. destruct (m r) as [[a|] r']; simpl in *; eauto.
Qed.

Context (w : World) (Hw : faithful w).

Lemma post_ticks {A} (m : ingest A) r Q :
  ticks m -> post m r Q -> post m r (fun a r' => Q a r' /\ (run_tick r <= run_tick r')%nat).
Proof.
  intros Ht H Hi. destruct (H Hi) as (? & ? & Hq). split_and!; [done..|]. specialize (Ht r).
  destruct (m r) as [[a|] r']; simpl in *; auto.
Qed.

Lemma post_ask_next {A} (q : nat -> result TreasuryError A) r :
  post (ask w q) r (fun a r' => q (run_tick r) = Ok a /\ run_tick r' = S (run_tick r)).
Proof.
  intros Hi. unfold ask, lift.
  destruct (concurrents_later _ _ Hi (fw_other _ Hw (run_tick r) (run_db r))) as [Hi' Hl'].
  destruct (q (run_tick r)) as [a|e] eqn:E; simpl; by split_and!.
Qed.

Lemma post_ask {A} (q : nat -> result TreasuryError A) r Q :
  (forall a r', later (run_db r) (run_db r') -> q (run_tick r) = Ok a -> Q a r') -> post (ask w q) r Q.
Proof.
  intros H Hi. unfold ask, lift.
  destruct (concurrents_later _ _ Hi (fw_other _ Hw (run_tick r) (run_db r))) as [Hi' Hl'].
  destruct (q (run_tick r)) as [a|e] eqn:E; simpl; split_and!; eauto.
Qed.

(** A statement that leaves the ledger alone. *)
Lemma post_statement {A} (f : db -> result TreasuryError (db * A)) r Q :
  (forall d, ingest_inv d -> later (run_db r) d ->
     match f d with
     | Ok (d', a) => ingest_inv d' /\ later d d' /\ forall r', run_db r' = d' -> Q a r'
     | Err _ => True
     end) -> post (statement w f) r Q.
Proof.
  intros H Hi. unfold statement.
  destruct (concurrents_later _ _ Hi (fw_other _ Hw (run_tick r) (run_db r))) as [Hi' Hl'].
  specialize (H _ Hi' Hl'). destruct (f _) as [[d' a]|e]; simpl; [|by split_and!].
  destruct H as (? & ? & HQ). split_and!; [done|by etrans|by apply HQ].
Qed.

Lemma sourced_same d d' :
  treasury_step d d' -> ledger d' = ledger d -> ingest_inv d -> ingest_inv d' /\ later d d'.
Proof.
  intros Hs E Hi.
  assert (ingest_inv d') by (unfold ingest_inv, sourced, ledger_entries in *; by rewrite E).
  split; [done|]. split; [by apply rtc_once|]. intros name. by rewrite E.
Qed.

(** One line of one event. *)
Lemma post_upsert_line ev txHash h identity c a r (Q : Z -> Run -> Prop) :
  ev ∈ events -> (c, a) ∈ fee_lines ev ->
  (forall n r', line_recorded (run_db r') ev (c, a) -> Q n r') ->
  post (upsert_line w (ledger_upsert ev txHash h identity c a)) r Q.
Proof.
  intros Hin Hl HQ. unfold upsert_line. apply post_bind, post_statement. intros d Hi Hlat.
  unfold on_ledger. destruct (upsertLedgerEntryWithInitialState _ _) as [[[l' [id e]] initial]|] eqn:E;
    [|done].
  pose proof (ls_upsert _ _ _ _ _ E) as Hstep.
  pose proof (upsert_ok _ _ _ _ _ E) as (bh & l1 & _ & _ & _ & Hu & Hr & Hq & Hc & _).
  destruct Hi as [Hok Hs].
  destruct (upsert_entry_spec _ _ _ _ _ Hok Hu) as (Hok1 & Hlat1 & He & Hk & Hother & Hwas); [done|].
  set (x := excluded_row _ _ _) in *. assert (Hx : row_of ev (c, a) x) by done.
  assert (Hrow : row_of ev (c, a) e).
  { destruct (ledger_rows (ledger d) !! id) as [e0|] eqn:E0; [|by subst e].
    destruct Hwas as [Hk0 Hwas]. destruct (bool_decide _); [subst e|by subst e].
    destruct (Hs id e0 E0) as (ev' & line' & Hin' & Hl' & Hr'). by eapply (row_determined ev ev'). }
  assert (Hi' : ingest_inv (set_ledger l' d)).
  { split; [by destruct (ledger_step_ok _ _ Hok Hstep)|]. intros id0 e1. unfold ledger_entries. simpl.
    rewrite Hr. destruct (decide (id0 = id)) as [->|Hn].
    - rewrite He. intros [= <-]. by exists ev, (c, a).
    - rewrite Hother by done. apply Hs. }
  split_and!; [done| |].
  - split; [apply rtc_once; split_and!; [by apply ts_ledger|by split|done]|].
    intros name. unfold watermark. simpl. by rewrite Hc.
  - intros r' Er. intros _. apply post_ret, HQ. rewrite Er. exists id, e.
    split; [|done]. unfold ledger_entries. simpl. by rewrite Hr.
Qed.

Lemma post_platform ev txHash h identity entries inserted r (Q : Z -> Run -> Prop) :
  ev ∈ events -> (forall p, p ∈ entries -> 0 < p.2 -> (p.1, print_Z p.2) ∈ fee_lines ev) ->
  (forall n r', later (run_db r) (run_db r') ->
     (forall p, p ∈ entries -> 0 < p.2 -> line_recorded (run_db r') ev (p.1, print_Z p.2)) -> Q n r') ->
  post (upsert_platform w ev txHash h identity entries inserted) r Q.
Proof.
  intros Hin. revert inserted r Q. induction entries as [|[c a] entries IH]; intros inserted r Q Hl HQ; simpl.
  - apply post_ret, HQ; [done|]. by intros p ?%elem_of_nil.
  - destruct (Z.leb_spec a 0) as [Hle|Hgt].
    + apply IH; [intros p Hp; apply Hl; by right|]. intros n r' Hlat Hp. apply HQ; [done|].
      intros p [-> |H]%elem_of_cons; [simpl; lia|by apply Hp].
    + apply post_bind, post_upsert_line; [done|apply (Hl (c, a)); [left|done]|].
      intros n r1 Hr Hlat1. apply IH; [intros p Hp; apply Hl; by right|]. intros n' r' Hlat Hp.
      apply HQ; [by etrans|]. intros p [-> |H]%elem_of_cons Hpos; [|by apply Hp].
      eapply line_later; [done|apply (Hl (c, a)); [left|done]|apply Hlat|done].
Qed.

Lemma post_trade_event ev h identity r :
  ev ∈ events -> post (ingestTradeEvent w ev h identity) r (fun _ r' => recorded (run_db r') ev).
Proof.
  intros Hin. unfold ingestTradeEvent, recorded.
  destruct (truthy_text (te_txHash ev)) as [tx|] eqn:Et.
  2: { assert (fee_lines ev = []) as -> by (unfold fee_lines; by rewrite Et).
       repeat case_match; try discriminate; apply post_ret; intros line []%elem_of_nil. }
  assert (Hplat : forall n r1,
    (forall line, line ∈ logistics_lines ev -> line_recorded (run_db r1) ev line) ->
    post match truthy_text (te_paidPlatformFees ev) with
         | Some fees =>
             if String.eqb (te_eventName ev) "PlatformFeesPaidStage1"
             then split ← lift (resolvePlatformFeeSplit ev fees);
                  _ ← lift (to_bigint fees);
                  upsert_platform w ev tx h identity
                    [(PLATFORM_FEE, split.1); (SETTLEMENT_SUPPORT_FEE, split.2)] n
             else mret n
         | None => mret n
         end r1 (fun _ r' => forall line, line ∈ fee_lines ev -> line_recorded (run_db r') ev line)).
  { intros n r1 Hlog. assert (Hll : forall line, line ∈ logistics_lines ev -> line ∈ fee_lines ev).
    { intros line H. unfold fee_lines. rewrite Et. apply elem_of_app. by left. }
    destruct (truthy_text (te_paidPlatformFees ev)) as [fees|] eqn:Ef.
    2: { apply post_ret. intros line. unfold fee_lines. rewrite Et, Ef, app_nil_r. apply Hlog. }
    destruct (String.eqb (te_eventName ev) "PlatformFeesPaidStage1") eqn:En.
    2: { apply post_ret. intros line. unfold fee_lines. rewrite Et, Ef, En, app_nil_r. apply Hlog. }
    apply post_bind, post_lift. intros split Hsplit _. apply post_bind, post_lift. intros _ _ _.
    assert (Hf : fee_lines ev = (logistics_lines ev ++ platform_lines split)%list)
      by (unfold fee_lines; by rewrite Et, Ef, En, Hsplit).
    apply post_platform; [done| |].
    - intros p Hp Hpos. rewrite Hf. apply elem_of_app. right. unfold platform_lines.
      apply list_elem_of_omap. exists p. split; [done|]. destruct (Z.leb_spec p.2 0); [lia|done].
    - intros _ r' Hlat Hp line Hline. rewrite Hf in Hline. apply elem_of_app in Hline as [Hline|Hline].
      + eapply line_later; [done|by apply Hll|apply Hlat|by apply Hlog].
      + unfold platform_lines in Hline. apply list_elem_of_omap in Hline as (p & Hp1 & Hp2).
        destruct (Z.leb_spec p.2 0); [done|]. injection Hp2 as <-. by apply Hp. }
  destruct (truthy_text (te_releasedLogisticsAmount ev)) as [amount|] eqn:Ea.
  2: { apply Hplat. intros line. unfold logistics_lines. by rewrite Ea, elem_of_nil. }
  destruct (String.eqb (te_eventName ev) "FundsReleasedStage1") eqn:En.
  2: { apply Hplat. intros line. unfold logistics_lines. by rewrite Ea, En, elem_of_nil. }
  assert (Hl : logistics_lines ev = [(LOGISTICS, amount)]) by (unfold logistics_lines; by rewrite Ea, En).
  apply post_bind, post_upsert_line; [done| |].
  - unfold fee_lines. rewrite Et, Hl. left.
  - intros n r1 Hr Hlat. apply Hplat. intros line. rewrite Hl. by intros ->%list_elem_of_singleton.
Qed.

Definition last_block (l : list IndexerTradeEvent) : option Z := te_blockNumber <$> last l.

(** What a page left: the events before the one it stopped at are in the ledger. *)
Record page_done (page : list IndexerTradeEvent) (v v' : Window) (d : db) : Prop := {
  pd_split : exists taken rest, page = (taken ++ rest)%list /\
    Forall (recorded d) taken /\
    wd_fetched v' = wd_fetched v + Z.of_nat (length taken) /\
    wd_lastBlockNumber v' = match last_block taken with Some b => Some b | None => wd_lastBlockNumber v end /\
    wd_stoppedAtBlock v' = match rest with ev :: _ => Some (te_blockNumber ev) | [] => wd_stoppedAtBlock v end;
  pd_offset : wd_offset v' = wd_offset v;
  pd_exhausted : wd_exhausted v' = wd_exhausted v
}.

Lemma post_any {A} (m : ingest A) r (Q : A -> Run -> Prop) (P : Run -> Prop) :
  (forall a r', Q a r') -> post m r (fun _ _ => True) -> post m r Q.
Proof. intros HQ H. eapply post_mono; [exact H|]. eauto. Qed.

Lemma post_block_hash n r : post (resolveBlockHash w n) r (fun _ _ => True).
Proof.
  unfold resolveBlockHash. apply post_bind, post_frame; [done|]. intros a _ _.
  destruct (run_blocks a !! n); [by apply post_ret|]. destruct (w_configured w); [|by apply post_ret].
  apply post_bind, post_ask. intros b r' _ _ _. apply post_bind, post_frame; [done|]. intros _ _ _.
  by apply post_ret.
Qed.

Lemma post_log_identity tx i r : post (readLogIdentity sha256 w tx i) r (fun _ _ => True).
Proof.
  unfold readLogIdentity. destruct (w_configured w); [|by apply post_ret].
  apply post_bind, post_frame; [done|]. intros a _ _. apply post_bind.
  destruct (run_receipts a !! tx); [apply post_ret; intros _; by apply post_ret|].
  apply post_bind, post_ask. intros b r' _ _ _. apply post_bind, post_frame; [done|]. intros _ _ _.
  apply post_ret. intros _. by apply post_ret.
Qed.

Lemma post_trade_page page v r :
  (forall ev, ev ∈ page -> ev ∈ events) ->
  post (trade_page sha256 w page v) r (fun v' r' => page_done page v v' (run_db r')).
Proof.
  revert v r. induction page as [|ev page IH]; intros v r Hin; simpl.
  - apply post_ret. split; [|done..]. exists [], []. split_and!; [done|constructor|simpl; lia|done..].
  - apply post_bind. eapply post_mono; [apply post_block_hash|]. intros h r1 Hl1 _ _.
    destruct (truthy_text h) as [h'|].
    2: { apply post_ret. split; [|done..]. exists [], (ev :: page).
         split_and!; [done|constructor|simpl; lia|done..]. }
    apply post_bind.
    eapply (post_mono _ _ (fun _ _ => True)).
    { destruct (truthy_text (te_txHash ev)); [apply post_log_identity|by apply post_ret]. }
    intros identity r2 Hl2 _ _. apply post_bind.
    eapply post_mono; [apply post_trade_event, Hin; by left|]. intros n r3 Hl3 Hrec _.
    eapply post_mono; [apply IH; intros e He; apply Hin; by right|].
    intros v' r' Hlat [(taken & rest & -> & Hf & Hn & Hlast & Hstop) Ho Hx].
    split; [|done..]. exists (ev :: taken), rest. split_and!.
    + done.
    + constructor; [|done]. eapply recorded_later; [apply Hin; by left|apply Hlat|done].
    + simpl. simpl in Hn. lia.
    + rewrite Hlast. unfold last_block. rewrite last_cons. simpl. by destruct (last taken).
    + done.
Qed.

(** What a window left of the events [all] in it. *)
Record window_read (all : list IndexerTradeEvent) (v : Window) (d : db) : Prop := {
  wr_split : exists taken rest, all = (taken ++ rest)%list /\ Forall (recorded d) taken /\
    match wd_stoppedAtBlock v with
    | Some b => exists ev rest', rest = ev :: rest' /\ te_blockNumber ev = b
    | None => if wd_exhausted v then rest = [] else wd_lastBlockNumber v = last_block taken
    end
}.

Lemma trade_slice_rest from to limit taken rest :
  filter (in_window {| bw_limit := limit; bw_offset := Z.of_nat (length taken);
                       bw_fromBlock := from; bw_toBlock := to |}) events = (taken ++ rest)%list ->
  trade_slice events {| bw_limit := limit; bw_offset := Z.of_nat (length taken);
                        bw_fromBlock := from; bw_toBlock := to |} = take (Z.to_nat limit) rest.
Proof.
  unfold trade_slice. intros ->. simpl. by rewrite Nat2Z.id, drop_app_length.
Qed.

Definition window_events (from to : Z) : list IndexerTradeEvent :=
  filter (fun ev => from <= te_blockNumber ev <= to) events.

Context (Hlimit : 0 < ingestBatchSize cfg).

Lemma forall_recorded_later d d' l :
  (forall ev, ev ∈ l -> ev ∈ events) -> later d d' -> Forall (recorded d) l -> Forall (recorded d') l.
Proof.
  intros Hin Hl Hf. rewrite !Forall_forall in *. intros ev Hev'.
  eapply recorded_later; [by apply Hin|apply Hl|by apply Hf].
Qed.

Lemma post_trade_window fuel from to v r taken rest n0 :
  (forall n win page, (n0 <= n)%nat -> bw_toBlock win <= to -> w_tradePage w n win = Ok page ->
     page = trade_slice events win) ->
  (n0 <= run_tick r)%nat ->
  window_events from to = (taken ++ rest)%list -> Forall (recorded (run_db r)) taken ->
  wd_offset v = Z.of_nat (length taken) -> wd_lastBlockNumber v = last_block taken ->
  wd_exhausted v = false -> wd_stoppedAtBlock v = None ->
  post (trade_window sha256 cfg w fuel from to v) r
    (fun v' r' => window_read (window_events from to) v' (run_db r')).
Proof.
  intros Hpage. revert v r taken rest.
  induction fuel as [|fuel IH]; intros v r taken rest Hn0 Hall Hrec Ho Hlast Hx Hst;
    simpl; (destruct (negb (from <=? to)) eqn:E; simpl).
  1, 3: apply post_ret; split; exists taken, rest; rewrite Hst, Hx; by split_and!.
  { apply post_throw. }
  assert (Hsub : forall ev, ev ∈ (taken ++ rest)%list -> ev ∈ events).
  { intros ev H. rewrite <- Hall in H. unfold window_events in H.
    by apply list_elem_of_filter in H as [_ H]. }
  apply post_bind. eapply post_mono; [apply post_ask_next|]. intros page r1 Hl1 [Hp Ht1] Hl1'.
  apply Hpage in Hp; [|lia|simpl; lia]. rewrite Ho, (trade_slice_rest from to _ taken rest) in Hp by exact Hall.
  assert (Hrec1 : Forall (recorded (run_db r1)) taken).
  { eapply forall_recorded_later; [|exact Hl1|exact Hrec]. intros ev H. apply Hsub. set_solver. }
  destruct (Z.eqb_spec (Z.of_nat (length page)) 0) as [E0|E0].
  { apply post_ret. split. exists taken, rest. simpl. rewrite Hst. split_and!; [done..|].
    subst page. destruct rest as [|ev rest]; [done|]. destruct (Z.to_nat (ingestBatchSize cfg)) eqn:El;
      [lia|done]. }
  apply post_bind. eapply post_mono.
  { apply post_ticks; [apply ticks_trade_page|]. apply post_trade_page. intros ev H. apply Hsub, elem_of_app. right. subst page.
    eapply (subseteq_take _ rest), H. }
  intros v' r2 Hl2 [[(got & left & Hpg & Hgot & Hn & Hlb & Hstop) Ho' Hx'] Ht2] _.
  assert (Hrest : rest = (got ++ left ++ drop (Z.to_nat (ingestBatchSize cfg)) rest)%list).
  { rewrite app_assoc, <- Hpg, Hp. by rewrite take_drop. }
  assert (Hrec2 : Forall (recorded (run_db r2)) (taken ++ got)).
  { apply Forall_app. split; [|done]. eapply forall_recorded_later; [|exact Hl2|exact Hrec1].
    intros ev H. apply Hsub. set_solver. }
  assert (Hall2 : window_events from to =
    ((taken ++ got) ++ left ++ drop (Z.to_nat (ingestBatchSize cfg)) rest)%list).
  { by rewrite Hall, Hrest at 1; rewrite <- app_assoc. }
  rewrite Hst in Hstop. destruct left as [|ev left].
  2: { rewrite bool_decide_eq_true_2 by (by rewrite Hstop). apply post_ret. split.
       exists (taken ++ got)%list, ((ev :: left) ++ drop (Z.to_nat (ingestBatchSize cfg)) rest)%list.
       rewrite Hstop. split_and!; [done..|]. by eexists ev, _. }
  rewrite bool_decide_eq_false_2 by (by rewrite Hstop; intros []).
  rewrite app_nil_r in Hpg. subst got. rewrite app_nil_l in Hall2.
  assert (Hgotlast : wd_lastBlockNumber v' = last_block (taken ++ page)).
  { rewrite Hlb. unfold last_block. rewrite last_app. destruct (last page) eqn:El; [done|].
    apply last_None in El. by subst page. }
  destruct (Z.ltb_spec (Z.of_nat (length page)) (ingestBatchSize cfg)) as [Hlt|Hge].
  { apply post_ret. split. exists (taken ++ page)%list, (drop (Z.to_nat (ingestBatchSize cfg)) rest).
    simpl. rewrite Hstop. split_and!; [done..|]. apply drop_ge.
    rewrite Hp, length_take in Hlt. lia. }
  destruct (capped cfg from _).
  { apply post_ret. split. exists (taken ++ page)%list, (drop (Z.to_nat (ingestBatchSize cfg)) rest).
    simpl. rewrite Hstop, Hx', Hx. by split_and!. }
  eapply IH; try done; simpl; [lia|rewrite length_app, Ho', Ho; lia|by rewrite Hx'].
Qed.

Lemma next_block_covers from to v d ev :
  window_read (window_events from to) v d -> ev ∈ events -> te_blockNumber ev < resolveNextBlock from to v ->
  te_blockNumber ev < from \/ recorded d ev.
Proof.
  intros [(taken & rest & Hall & Hrec & Hcase)] Hin Hlt.
  destruct (Z.lt_ge_cases (te_blockNumber ev) from) as [|Hge]; [by left|right].
  rewrite Forall_forall in Hrec. apply Hrec.
  assert (Hmem : te_blockNumber ev <= to -> ev ∈ (taken ++ rest)%list).
  { intros Hle. rewrite <- Hall. apply list_elem_of_filter. split; [lia|done]. }
  assert (Hsorted : StronglySorted (fun a b => te_blockNumber a <= te_blockNumber b) (taken ++ rest)).
  { rewrite <- Hall. apply sorted_filter, Hev. }
  assert (Hto : forall a, a ∈ (taken ++ rest)%list -> te_blockNumber a <= to).
  { intros a Ha. rewrite <- Hall in Ha. apply list_elem_of_filter in Ha. lia. }
  unfold resolveNextBlock in Hlt. destruct (wd_stoppedAtBlock v) as [b|].
  - destruct Hcase as (e & rest' & -> & <-). assert (te_blockNumber e <= to) by (apply Hto; set_solver).
    specialize (Hmem ltac:(lia)). apply elem_of_app in Hmem as [|Hr]; [done|].
    apply StronglySorted_app_1_r, StronglySorted_cons in Hsorted as [Hf _].
    apply elem_of_cons in Hr as [-> |Hr]; [lia|]. rewrite Forall_forall in Hf. apply Hf in Hr. lia.
  - destruct (wd_exhausted v).
    + subst rest. rewrite app_nil_r in Hmem. apply Hmem. lia.
    + rewrite Hcase in Hlt. unfold last_block in Hlt.
      destruct (last taken) as [x|] eqn:El; simpl in Hlt; [|lia].
      apply last_Some in El as [init ->].
      assert (Hx : x ∈ (init ++ [x])%list) by set_solver.
      assert (te_blockNumber x <= to) by (apply Hto; set_solver).
      specialize (Hmem ltac:(lia)). apply elem_of_app in Hmem as [|Hr]; [done|].
      pose proof (StronglySorted_app_1_elem_of _ _ _ _ _ Hsorted Hx Hr) as Hle. simpl in Hle. lia.
Qed.

(** ** Coverage *)

Definition covered (d : db) : Prop :=
  forall ev, ev ∈ events -> te_blockNumber ev < watermark TRADE_EVENT_CURSOR (ledger d) -> recorded d ev.

Definition read_below (n : Z) (d : db) : Prop :=
  forall ev, ev ∈ events -> te_blockNumber ev < n -> recorded d ev.

Lemma read_below_later n d d' : rtc sourced_step d d' -> read_below n d -> read_below n d'.
Proof. intros Hs Hr ev Hin Hlt. eapply recorded_later; [done|done|by apply Hr]. Qed.

Lemma covered_later d d' : later d d' -> covered d -> covered d'.
Proof.
  intros [Hs Hwm] Hc ev Hin Hlt. eapply recorded_later; [done|exact Hs|]. apply Hc; [done|].
  specialize (Hwm TRADE_EVENT_CURSOR). lia.
Qed.

(** As [post], for effects that may move the watermark on. *)
Definition keeps {A} (m : ingest A) (r : Run) (Q : A -> Run -> Prop) : Prop :=
  ingest_inv (run_db r) -> covered (run_db r) ->
  ingest_inv (run_db (m r).2) /\ covered (run_db (m r).2) /\ rtc sourced_step (run_db r) (run_db (m r).2) /\
  match (m r).1 with Ok a => Q a (m r).2 | Err _ => True end.

Lemma post_keeps {A} (m : ingest A) r Q : post m r Q -> keeps m r Q.
Proof.
  intros H Hi Hc. destruct (H Hi) as (? & Hl & ?). split_and!; [done|by eapply covered_later|apply Hl|done].
Qed.

Lemma keeps_run_bind {A B} (m : ingest A) (f : A -> ingest B) r Q :
  keeps m r (fun a r' => covered (run_db r') -> rtc sourced_step (run_db r) (run_db r') -> keeps (f a) r' Q) ->
  keeps (m ≫= f) r Q.
Proof.
  intros H Hi Hc. destruct (H Hi Hc) as (Hi1 & Hc1 & Hl1 & Hq). unfold mbind, ingest_bind in *.
  destruct (m r) as [[a|e] r1]; simpl in *; [|done].
  destruct (Hq Hc1 Hl1 Hi1 Hc1) as (Hi2 & Hc2 & Hl2 & Hq2). destruct (f a r1) as [[b|e] r2]; simpl in *;
    (split_and!; [done|done|by etrans|done]).
Qed.

Lemma keeps_mono {A} (m : ingest A) r (Q Q' : A -> Run -> Prop) :
  keeps m r Q -> (forall a r', Q a r' -> Q' a r') -> keeps m r Q'.
Proof.
  intros H HQ Hi Hc. destruct (H Hi Hc) as (? & ? & ? & Hq). split_and!; [done..|].
  destruct (m r) as [[a|] r']; simpl in *; eauto.
Qed.

(** A statement on the ledger that leaves its rows and does not move the watermark
    beyond what was read. *)
Lemma keeps_ledger {A} (f : Ledger -> result TreasuryError (Ledger * A)) r Q n :
  (forall l l' a, f l = Ok (l', a) -> ledger_step l l' /\ ledger_rows l' = ledger_rows l /\
     watermark TRADE_EVENT_CURSOR l' <= Z.max (watermark TRADE_EVENT_CURSOR l) n) ->
  (covered (run_db r) -> read_below n (run_db r)) ->
  (forall l l' a r', f l = Ok (l', a) -> ledger (run_db r') = l' -> Q a r') ->
  keeps (statement w (on_ledger f)) r Q.
Proof.
  intros Hf Hread HQ Hi Hc. unfold statement.
  destruct (concurrents_later _ _ Hi (fw_other _ Hw (run_tick r) (run_db r))) as [Hi' Hl'].
  set (d := w_other w (run_tick r) (run_db r)) in *. unfold on_ledger.
  assert (Hc' : covered d) by (by eapply covered_later).
  destruct (f (ledger d)) as [[l' a]|] eqn:E; simpl; [|split_and!; [done|done|apply Hl'|done]].
  destruct (Hf _ _ _ E) as (Hstep & Hrows & Hwm). destruct Hi' as [Hok Hs].
  assert (Hi2 : ingest_inv (set_ledger l' d)).
  { split; [by destruct (ledger_step_ok _ _ Hok Hstep)|]. intros id e. unfold ledger_entries. simpl.
    rewrite Hrows. apply Hs. }
  assert (Hrtc : rtc sourced_step d (set_ledger l' d))
    by (apply rtc_once; split_and!; [by apply ts_ledger|by split|done]).
  split_and!; [done| |by etrans; [apply Hl'|]|by eapply HQ].
  intros ev Hin Hlt. simpl in Hlt. eapply recorded_later; [done|exact Hrtc|].
  destruct (Z.lt_ge_cases (te_blockNumber ev) (watermark TRADE_EVENT_CURSOR (ledger d))) as [Hlt'|Hge];
    [by apply Hc'|]. eapply recorded_later; [done|apply Hl'|]. apply Hread; [done..|lia].
Qed.

Lemma post_claim_page rows v r : post (claim_page w rows v) r (fun _ _ => True).
Proof.
  revert v r. induction rows as [|row rows IH]; intros v r; simpl; [by apply post_ret|].
  apply post_bind, post_statement. intros d Hi _. destruct (upsertTreasuryClaimEventWith _ d) as [[d' c]|] eqn:E;
    [|done].
  assert (El : ledger d' = ledger d) by (by apply upsert_claim_ok in E as [cs ->]).
  destruct (sourced_same d d' ltac:(by eapply ts_claim) El Hi) as [? ?].
  split_and!; [done..|]. intros r' _ _. apply IH.
Qed.

Lemma post_claim_window fuel from to v r : post (claim_window cfg w fuel from to v) r (fun _ _ => True).
Proof.
  revert v r. induction fuel as [|fuel IH]; intros v r; simpl; (destruct (negb (from <=? to)); [by apply post_ret|]).
  - apply post_throw.
  - apply post_bind. unfold fetchTreasuryClaimEvents. apply post_bind, post_ask. intros rows r1 _ _ _.
    apply post_ret. intros _. destruct (_ =? 0); [by apply post_ret|]. apply post_bind.
    eapply post_mono; [apply post_claim_page|]. intros v' r2 _ _ _.
    destruct (_ <? _); [by apply post_ret|]. destruct (capped _ _ _); [by apply post_ret|]. apply IH.
Qed.

Lemma keeps_read_watermark name r (Q : Z -> Run -> Prop) :
  (forall n r', (name = TRADE_EVENT_CURSOR -> read_below n (run_db r')) -> Q n r') ->
  keeps (read_watermark w name) r Q.
Proof.
  intros HQ. unfold read_watermark. intros Hi Hc.
  pose proof (keeps_ledger (fun l => Ok (getIngestionWatermark name l)) r
    (fun n r' => n = watermark name (ledger (run_db r')))
    (watermark TRADE_EVENT_CURSOR (ledger (run_db r)))) as H.
  destruct H as (Hi1 & Hc1 & Hs1 & Hq); [|done| |done|done|].
  - intros l l' a [= Hg]. pose proof (watermark_get name TRADE_EVENT_CURSOR l) as [_ Hwm].
    replace l' with (getIngestionWatermark name l).1 by (by rewrite Hg).
    split_and!; [apply ls_get_watermark| |lia].
    unfold getIngestionWatermark. by destruct (_ !! _).
  - intros l l' a r' [= Hg] ->. pose proof (watermark_get name name l) as [Hn Hwm].
    rewrite Hg in Hn, Hwm. simpl in *. congruence.
  - split_and!; [done..|]. destruct (statement w _ r) as [[n|] r']; simpl in *; [|done].
    apply HQ. intros -> ev Hin Hlt. apply Hc1; [done|]. by subst n.
Qed.

Lemma keeps_write_watermark next name coverage r (Q : unit -> Run -> Prop) :
  (name = TRADE_EVENT_CURSOR -> read_below next (run_db r)) ->
  (forall r', Q tt r') -> keeps (write_watermark w next name coverage) r Q.
Proof.
  intros Hread HQ.
  apply (keeps_ledger _ _ _ (if decide (name = TRADE_EVENT_CURSOR) then next
                             else watermark TRADE_EVENT_CURSOR (ledger (run_db r)))).
  - intros l l' a [= <- <-]. split_and!; [apply ls_set_watermark|done|].
    pose proof (watermark_set next name coverage TRADE_EVENT_CURSOR l). destruct (decide _); lia.
  - destruct (decide _) as [E|]; [intros _; by apply Hread|done].
  - intros l l' [] r' _ _. apply HQ.
Qed.

Lemma keeps_ret {A} (a : A) r (Q : A -> Run -> Prop) : Q a r -> keeps (mret a) r Q.
Proof. intros HQ. by apply post_keeps, post_ret. Qed.

Lemma keeps_bind_post {A B} (m : ingest A) (f : A -> ingest B) r P Q :
  post m r P ->
  (forall a r', P a r' -> rtc sourced_step (run_db r) (run_db r') -> keeps (f a) r' Q) ->
  keeps (m ≫= f) r Q.
Proof.
  intros Hm Hf. apply keeps_run_bind, post_keeps. eapply post_mono; [exact Hm|].
  intros a r' _ HP _ Hs. by apply Hf.
Qed.

Lemma post_stable_head r : post (resolveStableHead w) r (fun _ _ => True).
Proof.
  unfold resolveStableHead. destruct (w_configured w); [|by apply post_ret].
  apply post_bind, post_ask. intros h r' _ _ _. by apply post_ret.
Qed.

Lemma post_trade_events fuel from to r :
  (forall n win page, (run_tick r <= n)%nat -> bw_toBlock win <= to -> w_tradePage w n win = Ok page ->
     page = trade_slice events win) ->
  read_below from (run_db r) ->
  post (ingestTradeEvents sha256 cfg w fuel from to) r (fun out r' => read_below out.2 (run_db r')).
Proof.
  intros Hpage Hread. unfold ingestTradeEvents. apply post_bind. eapply post_mono.
  { eapply (post_trade_window fuel from to new_window r [] (window_events from to) (run_tick r));
      try done; constructor. }
  intros v r' Hl Hwr _. apply post_ret. intros ev Hin Hlt. simpl in Hlt.
  destruct (next_block_covers _ _ _ _ _ Hwr Hin Hlt) as [Hb|]; [|done].
  eapply recorded_later; [done|apply Hl|by apply Hread].
Qed.

Lemma post_claim_events fuel from to r : post (ingestClaimEvents cfg w fuel from to) r (fun _ _ => True).
Proof.
  unfold ingestClaimEvents. apply post_bind. eapply post_mono; [apply post_claim_window|].
  intros v r' _ _ _. by apply post_ret.
Qed.

Lemma keeps_ingestOnce fuel r : keeps (ingestOnce sha256 cfg w fuel) r (fun _ _ => True).
Proof.
  unfold ingestOnce. apply (keeps_bind_post _ _ _ (fun _ _ => True)); [by apply post_frame|].
  intros _ r0 _ _. apply keeps_run_bind, keeps_read_watermark. intros from r1 Hfrom _ _.
  specialize (Hfrom eq_refl). apply keeps_run_bind, keeps_read_watermark. intros cfrom r2 _ _ Hs2.
  apply (read_below_later _ _ _ Hs2) in Hfrom.
  eapply keeps_bind_post; [apply post_stable_head|]. intros head r3 _ Hs3.
  apply (read_below_later _ _ _ Hs3) in Hfrom.
  destruct head as [[fin fh]|]; [|by apply keeps_ret].
  eapply keeps_bind_post; [apply post_ask_next|]. intros proc r4 [Hp Ht] Hs4. apply (read_below_later _ _ _ Hs4) in Hfrom.
  destruct proc as [p|]; [|by apply keeps_ret].
  eapply keeps_bind_post; [apply post_trade_events; [|exact Hfrom]|].
  { intros n win page Hn Hle. eapply (fw_pages _ Hw); [exact Hp|lia|lia]. }
  intros trades r5 Htr Hs5. eapply keeps_bind_post; [apply post_claim_events|].
  intros claims r6 _ Hs6. apply (read_below_later _ _ _ Hs6) in Htr.
  apply keeps_run_bind, keeps_write_watermark; [done|]. intros r7 _ _.
  apply keeps_run_bind, keeps_write_watermark; [done|]. intros r8 _ _. by apply keeps_ret.
Qed.

Lemma keeps_mark f r :
  (forall now l, review_step l (f now l)) -> (forall now l, ledger_rows (f now l) = ledger_rows l) ->
  keeps (mark w f) r (fun _ _ => True).
Proof.
  intros Hf Hr. unfold mark. eapply (keeps_bind_post _ _ _ (fun _ _ => True)); [by apply post_frame|].
  intros run r1 _ _.
  apply (keeps_ledger _ _ _ (watermark TRADE_EVENT_CURSOR (ledger (run_db r1)))); [|done|done].
  intros l l' a [= <- <-]. split_and!; [apply ls_review, Hf|apply Hr|].
  pose proof (review_step_watermark _ _ TRADE_EVENT_CURSOR (Hf (w_now w (run_tick run)) l)). lia.
Qed.

Lemma keeps_mark_started r : keeps (mark w (markIngestionAttemptStarted INGESTION_CURSORS)) r (fun _ _ => True).
Proof. apply keeps_mark; [intros; apply rv_started|done]. Qed.
Lemma keeps_mark_completed r : keeps (mark w (markIngestionRunCompleted INGESTION_CURSORS)) r (fun _ _ => True).
Proof. apply keeps_mark; [intros; apply rv_completed|done]. Qed.
Lemma keeps_mark_partial reason r :
  keeps (mark w (fun _ => markIngestionRunPartial INGESTION_CURSORS reason)) r (fun _ _ => True).
Proof. apply keeps_mark; [intros; apply rv_partial|done]. Qed.
Lemma keeps_mark_unsuccessful reason r :
  keeps (mark w (markIngestionRunUnsuccessful INGESTION_CURSORS reason)) r (fun _ _ => True).
Proof. apply keeps_mark; [intros; apply rv_unsuccessful|done]. Qed.

Lemma keeps_run_owned fuel r : keeps (run_owned sha256 cfg w fuel) r (fun _ _ => True).
Proof.
  unfold run_owned. eapply (keeps_bind_post _ _ _ (fun _ _ => True)); [by apply post_ask|].
  intros acquired r1 _ _. destruct (negb acquired); [by apply keeps_ret|].
  apply keeps_run_bind. eapply keeps_mono; [apply keeps_mark_started|]. intros _ r2 _ _ _.
  apply keeps_run_bind. eapply keeps_mono; [apply keeps_ingestOnce|]. intros res r3 _ _ _.
  destruct (ir_blockedReason res) as [reason|].
  { apply keeps_run_bind. eapply keeps_mono; [apply keeps_mark_unsuccessful|]. intros. by apply keeps_ret. }
  destruct (negb (ir_windowExhausted res)); apply keeps_run_bind.
  - eapply keeps_mono; [apply keeps_mark_partial|]. intros. by apply keeps_ret.
  - eapply keeps_mono; [apply keeps_mark_completed|]. intros. by apply keeps_ret.
Qed.

Lemma keeps_executeRun fuel r : keeps (executeRun sha256 cfg w fuel) r (fun _ _ => True).
Proof.
  intros Hi Hc. destruct (keeps_run_owned fuel r Hi Hc) as (Hi1 & Hc1 & Hs1 & _). unfold executeRun.
  destruct (run_owned sha256 cfg w fuel r) as [[out|[e|]] r1]; cbn [fst snd] in *; [by split_and!| |by split_and!].
  destruct (keeps_mark_unsuccessful "Ingestion run failed" r1 Hi1 Hc1) as (Hi2 & Hc2 & Hs2 & _).
  destruct (mark w _ r1) as [x r2]. cbn [fst snd] in *. split_and!; [exact Hi2|exact Hc2|by etrans|exact I].
Qed.

End cover.

(** ** The guarantee *)

Lemma ingest_history_inv sha256 cfg events d :
  events_ordered events -> 0 < ingestBatchSize cfg -> ingest_history sha256 cfg (faithful events) d ->
  ingest_inv events d /\ covered events d /\ rtc (sourced_step events) empty_db d.
Proof.
  intros Hev Hlimit. induction 1 as [|d d' _ (Hi & Hc & Hs) Hstep|d w fuel _ (Hi & Hc & Hs) Hw].
  - split_and!; [split; [apply empty_ledger_ok|]| |done].
    + intros id e H. unfold ledger_entries in H. simpl in H. by rewrite lookup_empty in H.
    + intros ev Hin Hlt. apply (eo_heights _ Hev) in Hin.
      change (watermark TRADE_EVENT_CURSOR (ledger empty_db)) with 0 in Hlt. lia.
  - destruct (concurrent_later events d d' Hi Hstep) as [Hi' Hl]. split_and!; [done| |].
    + by eapply covered_later.
    + etrans; [exact Hs|apply Hl].
  - destruct (keeps_executeRun sha256 cfg events Hev w Hw Hlimit fuel (start d) Hi Hc)
      as (Hi' & Hc' & Hs' & _). split_and!; [done..|]. etrans; [exact Hs|exact Hs'].
Qed.

(** C12. No fee is missed and none is invented.  Over every history in which runs
    of the ingestion worker (completed, capped, failed half-way or cut off), chain
    re-verifications, orphanings with their rewinds, payouts and sweep batches
    interleave: every fee event of the indexer below the stored watermark has its
    ledger entries, one per component with its exact amount, trade and block;
    every ledger entry is such a component of such an event; and no entry's amount
    ever changes, so allocations stay within the ledger. *)
Theorem ingestion_misses_no_fee sha256 cfg events d :
  events_ordered events -> 0 < ingestBatchSize cfg -> ingest_history sha256 cfg (faithful events) d ->
  (forall ev, ev ∈ events -> te_blockNumber ev < watermark TRADE_EVENT_CURSOR (ledger d) ->
     forall line, line ∈ fee_lines ev ->
       exists id e, ledger_entries d !! id = Some e /\ row_of ev line e /\
         forall id' e', ledger_entries d !! id' = Some e' -> row_of ev line e' -> id' = id) /\
  (forall id e, ledger_entries d !! id = Some e ->
     exists ev line, ev ∈ events /\ line ∈ fee_lines ev /\ row_of ev line e) /\
  steadily_reachable d.
Proof.
  intros Hev Hlimit Hh. destruct (ingest_history_inv _ _ _ _ Hev Hlimit Hh) as ([Hok Hs] & Hc & Hr).
  split_and!; [|exact Hs|by eapply sourced_steady].
  intros ev Hin Hlt line Hl. destruct (Hc ev Hin Hlt line Hl) as (id & e & He & Hrow).
  exists id, e. split_and!; [done..|]. intros id' e' He' Hrow'.
  eapply (lo_key _ Hok); [done..|]. destruct Hrow as [-> _], Hrow' as [-> _]. done.
Qed.
