(* ===== verification/TreasuryProgress.v ===== *)
(** Ingestion runs end, and move their cursor on. *)
From stdpp Require Import base list gmap strings.
From S2P Require Import Prelude JsText TreasuryAmount TreasuryPolicy TreasuryChain TreasuryDb.
From S2P Require Import TreasuryLedger TreasuryDbInv TreasuryIngest TreasuryCover.

Open Scope string_scope.
Open Scope Z_scope.

(** The page of a claim query over the indexer's rows. *)
Definition claim_slice (rows : list SystemEventRow) (win : IndexerBlockWindow) : list SystemEventRow :=
  take (Z.to_nat (bw_limit win)) (drop (Z.to_nat (bw_offset win))
    (filter (fun r => bw_fromBlock win <= sr_blockNumber r <= bw_toBlock win) rows)).

(** [ends m r Q]: [m] does not run out of fuel, and an answer satisfies [Q]. *)
Definition ends {A} (m : ingest A) (r : Run) (Q : A -> Prop) : Prop :=
  match (m r).1 with
  | Ok a => Q a
  | Err OutOfFuel => False
  | Err (Thrown _) => True
  end.

Lemma ends_bind_next {A B} (m : ingest A) (f : A -> ingest B) r P Q :
  ends m r P -> (forall a, P a -> ends (f a) (m r).2 Q) -> ends (m ≫= f) r Q.
Proof.
  unfold ends, mbind, ingest_bind. intros Hm Hf. destruct (m r) as [[a|e] r']; simpl in *; [|done].
  by apply Hf.
Qed.

Lemma ends_bind {A B} (m : ingest A) (f : A -> ingest B) r P Q :
  ends m r P -> (forall a r', P a -> ends (f a) r' Q) -> ends (m ≫= f) r Q.
Proof. intros Hm Hf. eapply ends_bind_next; eauto. Qed.

Lemma ends_bind_ticks {A B} (m : ingest A) (f : A -> ingest B) r P Q :
  ticks m -> ends m r P ->
  (forall a r', P a -> (run_tick r <= run_tick r')%nat -> ends (f a) r' Q) -> ends (m ≫= f) r Q.
Proof. intros Ht Hm Hf. eapply ends_bind_next; eauto. Qed.

Lemma ends_ret {A} (a : A) r (Q : A -> Prop) : Q a -> ends (mret a) r Q.
Proof. done. Qed.

Lemma ends_lift {A} (m : result TreasuryError A) r (Q : A -> Prop) :
  (forall a, m = Ok a -> Q a) -> ends (lift m) r Q.
Proof. unfold ends, lift. destruct m; simpl; auto. Qed.

Lemma ends_ask {A} w (q : nat -> result TreasuryError A) r (Q : A -> Prop) :
  (forall a, q (run_tick r) = Ok a -> Q a) -> ends (ask w q) r Q.
Proof. intros H. by apply ends_lift. Qed.

Lemma ends_statement {A} w (f : db -> result TreasuryError (db * A)) r : ends (statement w f) r (fun _ => True).
Proof. unfold ends, statement. by destruct (f _) as [[d a]|]. Qed.

Lemma ends_any {A} (m : ingest A) r (P Q : A -> Prop) : ends m r P -> (forall a, P a -> Q a) -> ends m r Q.
Proof. unfold ends. destruct (m r) as [[a|[]] r']; simpl; eauto. Qed.

Section progress.
Context (sha256 : string -> string) (cfg : Config) (events : list IndexerTradeEvent)
  (rows : list SystemEventRow) (w : World).
Context (Hlimit : 0 < ingestBatchSize cfg).

Lemma ends_block_hash n r : ends (resolveBlockHash w n) r (fun _ => True).
Proof.
  unfold resolveBlockHash. eapply (ends_bind _ _ _ (fun _ => True)); [done|]. intros run r1 _.
  destruct (run_blocks run !! n); [done|]. destruct (w_configured w); [|done].
  eapply ends_bind; [by apply (ends_ask _ _ _ (fun _ => True))|]. intros b r2 _. done.
Qed.

Lemma ends_log_identity tx i r : ends (readLogIdentity sha256 w tx i) r (fun _ => True).
Proof.
  unfold readLogIdentity. destruct (w_configured w); [|done].
  eapply (ends_bind _ _ _ (fun _ => True)); [done|]. intros run r1 _.
  eapply (ends_bind _ _ _ (fun _ => True)); [|done]. destruct (run_receipts run !! tx); [done|].
  eapply ends_bind; [by apply (ends_ask _ _ _ (fun _ => True))|]. intros b r2 _. done.
Qed.

Lemma ends_upsert_line data r : ends (upsert_line w data) r (fun _ => True).
Proof. unfold upsert_line. eapply ends_bind; [apply ends_statement|]. by intros [] ? _. Qed.

Lemma ends_platform ev tx h i entries n r : ends (upsert_platform w ev tx h i entries n) r (fun _ => True).
Proof.
  revert n r. induction entries as [|[c a] entries IH]; intros n r; simpl; [done|].
  destruct (a <=? 0); [apply IH|]. eapply ends_bind; [apply ends_upsert_line|]. intros m r' _. apply IH.
Qed.

Lemma ends_trade_event ev h i r : ends (ingestTradeEvent w ev h i) r (fun _ => True).
Proof.
  unfold ingestTradeEvent.
  assert (Hp : forall n r, ends match truthy_text (te_paidPlatformFees ev) with
         | Some fees =>
             if String.eqb (te_eventName ev) "PlatformFeesPaidStage1"
             then match truthy_text (te_txHash ev) with
                  | None => mret n
                  | Some txHash =>
                      split ← lift (resolvePlatformFeeSplit ev fees);
                      _ ← lift (to_bigint fees);
                      upsert_platform w ev txHash h i
                        [(PLATFORM_FEE, split.1); (SETTLEMENT_SUPPORT_FEE, split.2)] n
                  end
             else mret n
         | None => mret n
         end r (fun _ => True)).
  { intros n r0. destruct (truthy_text (te_paidPlatformFees ev)) as [fees|]; [|done].
    destruct (String.eqb _ _); [|done]. destruct (truthy_text (te_txHash ev)); [|done].
    eapply ends_bind; [by apply (ends_lift _ _ (fun _ => True))|]. intros split r1 _.
    eapply ends_bind; [by apply (ends_lift _ _ (fun _ => True))|]. intros z r2 _. apply ends_platform. }
  destruct (truthy_text (te_releasedLogisticsAmount ev)); [|apply Hp].
  destruct (String.eqb (te_eventName ev) "FundsReleasedStage1"); [|apply Hp].
  destruct (truthy_text (te_txHash ev)) as [tx|] eqn:E; [|done].
  eapply ends_bind; [apply ends_upsert_line|]. intros n r1 _. apply Hp.
Qed.

(** What a page does to the loop variables. *)
Definition page_moves (page : list IndexerTradeEvent) (v v' : Window) : Prop :=
  wd_offset v' = wd_offset v /\ wd_exhausted v' = wd_exhausted v /\
  (wd_stoppedAtBlock v' = wd_stoppedAtBlock v \/
     exists ev, ev ∈ page /\ wd_stoppedAtBlock v' = Some (te_blockNumber ev)) /\
  (wd_lastBlockNumber v' = wd_lastBlockNumber v /\ (page = [] \/ wd_stoppedAtBlock v' <> None) \/
     exists ev, ev ∈ page /\ wd_lastBlockNumber v' = Some (te_blockNumber ev)).

Lemma ends_trade_page page v r : ends (trade_page sha256 w page v) r (page_moves page v).
Proof.
  revert v r. induction page as [|ev page IH]; intros v r; simpl.
  - apply ends_ret. split_and!; auto.
  - eapply ends_bind; [apply ends_block_hash|]. intros h r1 _. destruct (truthy_text h) as [h'|].
    2: { apply ends_ret. split_and!; [done|done| |left; by split; [|right]].
         right. exists ev. split; [left|done]. }
    eapply (ends_bind _ _ _ (fun _ => True));
      [destruct (truthy_text (te_txHash ev)); [apply ends_log_identity|done]|].
    intros i r2 _. eapply ends_bind; [apply ends_trade_event|]. intros n r3 _.
    eapply ends_any; [apply IH|]. intros v' (Ho & Hx & Hs & Hl). split_and!; [done|done| |].
    + destruct Hs as [Hs|(e & ? & ?)]; [by left|right]. exists e. split; [by right|done].
    + destruct Hl as [[Hl _]|(e & ? & ?)]; right; [exists ev|exists e]; (split; [|done]); [left|by right].
Qed.

(** Where a window can end. *)
Definition window_ends (from to : Z) (v : Window) : Prop :=
  match wd_stoppedAtBlock v with
  | Some b => from <= b <= to
  | None => wd_exhausted v = true \/ (exists b, wd_lastBlockNumber v = Some b /\ from < b <= to) \/
            (to < from /\ wd_lastBlockNumber v = None)
  end.

Lemma ends_trade_window fuel from to v r k n0 :
  (forall n win page, (n0 <= n)%nat -> bw_toBlock win <= to -> w_tradePage w n win = Ok page ->
     page = trade_slice events win) ->
  (n0 <= run_tick r)%nat ->
  wd_offset v = Z.of_nat k -> (length (window_events events from to) - k < fuel)%nat ->
  wd_stoppedAtBlock v = None -> (to < from -> wd_lastBlockNumber v = None) ->
  ends (trade_window sha256 cfg w fuel from to v) r (window_ends from to).
Proof.
  intros Hpage. revert v r k. induction fuel as [|fuel IH]; intros v r k Hn0 Ho Hk Hst Hl; [lia|]. simpl.
  destruct (Z.leb_spec from to) as [Hle|Hgt]; simpl.
  2: { apply ends_ret. unfold window_ends. rewrite Hst. auto. }
  eapply ends_bind_ticks; [apply ticks_ask|apply (ends_ask _ _ _ (fun page => page =
    take (Z.to_nat (ingestBatchSize cfg)) (drop k (window_events events from to))))|].
  { intros page Hp. apply Hpage in Hp; [|lia|simpl; lia]. subst page. unfold trade_slice. simpl.
    by rewrite Ho, Nat2Z.id. }
  intros page r1 Hp Ht1. cbv beta in Hp. destruct (Z.eqb_spec (Z.of_nat (length page)) 0) as [E0|E0].
  { apply ends_ret. unfold window_ends. simpl. rewrite Hst. by left. }
  eapply ends_bind_ticks; [apply ticks_trade_page|apply ends_trade_page|].
  intros v' r2 (Ho' & Hx' & Hs & Hlast) Ht2.
  assert (Hin : forall ev, ev ∈ page -> from <= te_blockNumber ev <= to).
  { intros ev H. assert (ev ∈ window_events events from to) as H'.
    { rewrite Hp in H. eapply (subseteq_drop k), (subseteq_take _ (drop k _)), H. }
    by apply list_elem_of_filter in H' as [? _]. }
  destruct (wd_stoppedAtBlock v') as [b|] eqn:Eb.
  { rewrite bool_decide_eq_true_2 by done. apply ends_ret. unfold window_ends. rewrite Eb.
    destruct Hs as [Hs|(e & He & [= ->])]; [congruence|by apply Hin]. }
  rewrite bool_decide_eq_false_2 by (by intros []).
  destruct (Z.of_nat (length page) <? ingestBatchSize cfg).
  { apply ends_ret. unfold window_ends. simpl. rewrite Eb. by left. }
  destruct (capped cfg from _) eqn:Ec.
  { apply ends_ret. unfold window_ends. simpl. rewrite Eb. right. left.
    unfold capped in Ec. apply andb_true_iff in Ec as [_ Ec]. apply negb_true_iff, bool_decide_eq_false in Ec.
    simpl in Ec. destruct Hlast as [[_ [->|?]]|(e & He & Hle')]; [done|done|].
    exists (te_blockNumber e). split; [done|]. rewrite Hle' in Ec. pose proof (Hin e He).
    assert (te_blockNumber e <> from) by congruence. lia. }
  apply (IH _ _ (k + length page)%nat); simpl; [lia|rewrite Ho', Ho; lia| |done|lia].
  assert (length page <= length (window_events events from to) - k)%nat.
  { rewrite Hp, length_take, length_drop. lia. }
  lia.
Qed.

Lemma ends_claim_page l v r : ends (claim_page w l v) r (fun v' => wd_offset v' = wd_offset v).
Proof.
  revert v r. induction l as [|c l IH]; intros v r; simpl; [done|].
  eapply ends_bind; [apply ends_statement|]. intros x r1 _. eapply ends_any; [apply IH|]. by intros v' ->.
Qed.

Lemma length_omap_le {A B} (f : A -> option B) l : (length (omap f l) <= length l)%nat.
Proof. induction l as [|x l IH]; csimpl; [lia|]. destruct (f x); csimpl; lia. Qed.

Lemma ends_claim_window fuel from to v r k :
  (forall n win page, w_claimPage w n win = Ok page -> page = claim_slice rows win) ->
  wd_offset v = Z.of_nat k -> (length rows - k < fuel)%nat ->
  ends (claim_window cfg w fuel from to v) r (fun _ => True).
Proof.
  intros Hpage. revert v r k. induction fuel as [|fuel IH]; intros v r k Ho Hk; [lia|]. simpl.
  destruct (from <=? to); simpl; [|done].
  eapply ends_bind.
  { unfold fetchTreasuryClaimEvents. eapply ends_bind; [apply (ends_ask _ _ _ (fun page => page =
      take (Z.to_nat (ingestBatchSize cfg)) (drop k
        (filter (fun r => from <= sr_blockNumber r <= to) rows))))|].
    { intros page Hp. apply Hpage in Hp. subst page. unfold claim_slice. simpl. by rewrite Ho, Nat2Z.id. }
    intros page r1 Hp. cbv beta in Hp. apply (ends_ret _ _ (fun l => (length l <= length rows - k)%nat)).
    etrans; [apply length_omap_le|]. rewrite Hp, length_take, length_drop.
    pose proof (length_filter (fun r => from <= sr_blockNumber r <= to) rows). lia. }
  intros l r1 Hl. cbv beta in Hl. destruct (Z.eqb_spec (Z.of_nat (length l)) 0); [done|].
  eapply ends_bind; [apply ends_claim_page|]. intros v' r2 Ho'. cbv beta in Ho'.
  destruct (_ <? _); [done|]. destruct (capped _ _ _); [done|].
  apply (IH _ _ (k + length l)%nat); simpl; [rewrite Ho', Ho; lia|lia].
Qed.

Lemma ends_mark f r : ends (mark w f) r (fun _ => True).
Proof. unfold mark. eapply (ends_bind _ _ _ (fun _ => True)); [done|]. intros run r1 _. apply ends_statement. Qed.

Context (Hw : faithful events w).
Context (Hclaims : forall n win page, w_claimPage w n win = Ok page -> page = claim_slice rows win).

Lemma ends_trade_events fuel from to r :
  (forall n win page, (run_tick r <= n)%nat -> bw_toBlock win <= to -> w_tradePage w n win = Ok page ->
     page = trade_slice events win) ->
  (length events < fuel)%nat ->
  ends (ingestTradeEvents sha256 cfg w fuel from to) r
    (fun out => from <= out.2 /\ (out.2 <= to + 1 \/ out.2 = from) /\
       (wd_stoppedAtBlock out.1 = None -> to < out.2 \/ from < out.2)).
Proof.
  intros Hpage Hfuel. unfold ingestTradeEvents. eapply ends_bind.
  { eapply (ends_trade_window _ from to new_window r 0%nat (run_tick r)); try done.
    pose proof (length_filter (fun ev => from <= te_blockNumber ev <= to) events).
    unfold window_events. lia. }
  intros v r1 Hv. apply ends_ret. unfold window_ends in Hv. unfold resolveNextBlock. simpl.
  destruct (wd_stoppedAtBlock v) as [b|]; [split_and!; [lia|lia|done]|].
  destruct (wd_exhausted v); [split_and!; lia|].
  destruct Hv as [?|[(b & -> & ?)|[? ->]]]; [done|simpl; split_and!; lia|simpl; split_and!; lia].
Qed.

Lemma ends_ingestOnce fuel r :
  (length events < fuel)%nat -> (length rows < fuel)%nat ->
  ends (ingestOnce sha256 cfg w fuel) r (fun _ => True).
Proof.
  intros He Hr. unfold ingestOnce.
  eapply (ends_bind _ _ _ (fun _ => True)); [done|]. intros _ r0 _.
  eapply ends_bind; [apply ends_statement|]. intros from r1 _.
  eapply ends_bind; [apply ends_statement|]. intros cfrom r2 _.
  eapply (ends_bind _ _ _ (fun _ => True)).
  { unfold resolveStableHead. destruct (w_configured w); [|done].
    eapply ends_bind; [by apply (ends_ask _ _ _ (fun _ => True))|]. done. }
  intros head r3 _. destruct head as [[fin fh]|]; [|done].
  eapply ends_bind_next; [apply (ends_ask _ _ _ (fun a => w_processed w (run_tick r3) = Ok a)); done|].
  intros proc Hp. destruct proc as [p|]; [|done].
  eapply ends_bind; [apply ends_trade_events; [|done]|].
  { intros n win page Hn Hle. eapply (fw_pages _ _ Hw); [exact Hp| |lia].
    unfold ask, lift in Hn. rewrite Hp in Hn. exact Hn. }
  intros trades r5 _. eapply (ends_bind _ _ _ (fun _ => True)).
  { unfold ingestClaimEvents. eapply ends_bind; [|done].
    apply (ends_claim_window _ _ _ _ _ 0%nat); [done|done|lia]. }
  intros claims r6 _. eapply ends_bind; [apply ends_statement|]. intros [] r7 _.
  eapply ends_bind; [apply ends_statement|]. by intros [] r8 _.
Qed.

Lemma ends_run_owned fuel r :
  (length events < fuel)%nat -> (length rows < fuel)%nat ->
  ends (run_owned sha256 cfg w fuel) r (fun _ => True).
Proof.
  intros He Hr. unfold run_owned. eapply ends_bind; [by apply (ends_ask _ _ _ (fun _ => True))|].
  intros acquired r1 _. destruct (negb acquired); [done|].
  eapply ends_bind; [apply ends_mark|]. intros _ r2 _.
  eapply ends_bind; [by apply ends_ingestOnce|]. intros res r3 _.
  destruct (ir_blockedReason res); [|destruct (negb _)]; (eapply ends_bind; [apply ends_mark|done]).
Qed.


End progress.
