(* ===== verification/ReconTypes.v ===== *)
(** Reconciliation data: the chain trade as the SDK reads it, the indexer's
    record of a trade, drift findings, the boundary a run is pinned to and its
    coverage window ([reconciliation/src/types.ts], [sdk/src/types/trade.ts]).

    A finding's [details] object is diagnostic text for operators and is left
    out.  Dates are time values ([js_date]), amounts [bigint]s are integers. *)
From stdpp Require Import base list strings.
From S2P Require Import Prelude JsText JsDate.

Open Scope string_scope.
Open Scope Z_scope.

Inductive DriftSeverity := CRITICAL | HIGH | MEDIUM | LOW.

Inductive DriftCode :=
| ONCHAIN_READ_ERROR
| ONCHAIN_TRADE_MISSING
| STATUS_MISMATCH
| PARTICIPANT_MISMATCH
| AMOUNT_MISMATCH
| FEE_COMPONENT_MISMATCH
| HASH_MISMATCH
| ARRIVAL_TIMESTAMP_MISMATCH
| INDEXED_INVALID_ADDRESS
| ONCHAIN_INVALID_ADDRESS
| INDEXER_TRADE_MISSING
| INDEXER_DUPLICATE_TRADE
| INDEXER_SURPLUS_RECORDS.

#[export] Instance DriftSeverity_eq_dec : EqDecision DriftSeverity.
Proof. solve_decision. Defined.
#[export] Instance DriftCode_eq_dec : EqDecision DriftCode.
Proof. solve_decision. Defined.

(** [TradeStatus]: the enum's number, as the contract returns it. *)
Definition TradeStatus : Type := Z.
Definition LOCKED : TradeStatus := 0.
Definition IN_TRANSIT : TradeStatus := 1.
Definition ARRIVAL_CONFIRMED : TradeStatus := 2.
Definition FROZEN : TradeStatus := 3.
Definition STATUS_CLOSED : TradeStatus := 4.

Record Trade := {
  t_tradeId : string;
  t_buyer : string;
  t_supplier : string;
  t_status : TradeStatus;
  t_totalAmountLocked : Z;
  t_logisticsAmount : Z;
  t_platformFeesAmount : Z;
  t_supplierFirstTranche : Z;
  t_supplierSecondTranche : Z;
  t_ricardianHash : string;
  t_createdAt : js_date;
  t_arrivalTimestamp : option js_date
}.

(** [/^0x0{40}$/i] *)
Definition zero_address_text (s : string) : bool :=
  String.eqb (toLowerCase s) ("0x" ++ repeat_char 40 "0").

(** [trades(id)] answers a zero-filled struct for an id never allocated. *)
Definition isAbsentChainTrade (trade : Trade) : bool :=
  zero_address_text (trim (t_buyer trade)) ||
  match t_createdAt trade with None => true | Some ms => ms =? 0 end.

Record IndexedTradeRecord := {
  ix_tradeId : string;
  ix_buyer : string;
  ix_supplier : string;
  ix_status : string;
  ix_totalAmountLocked : Z;
  ix_logisticsAmount : Z;
  ix_platformFeesAmount : Z;
  ix_platformFeeNetAmount : Z;
  ix_settlementSupportFeeAmount : Z;
  ix_supplierFirstTranche : Z;
  ix_supplierSecondTranche : Z;
  ix_ricardianHash : string;
  ix_createdAt : js_date;
  ix_arrivalTimestamp : option js_date
}.

Record DriftFinding := {
  df_tradeId : string;
  df_severity : DriftSeverity;
  df_mismatchCode : DriftCode;
  df_comparedField : string;
  df_onchainValue : option string;
  df_indexedValue : option string
}.

Inductive BoundaryTag := tag_finalized | tag_safe.

#[export] Instance BoundaryTag_eq_dec : EqDecision BoundaryTag.
Proof. solve_decision. Defined.

Record CoverageBoundary := {
  cb_blockNumber : Z;
  cb_blockHash : string;
  cb_tag : BoundaryTag;
  cb_chainTradeCounter : Z;
  cb_indexerProcessedBlock : Z;
  cb_finalityBlockNumber : Z;
  cb_indexerAhead : bool
}.

Record CoverageWindow := {
  cw_fromTradeId : Z;
  cw_toTradeId : Z;
  cw_nextCursor : Z;
  cw_uncoveredTail : Z;
  cw_complete : bool
}.

Record CoverageSlaVerdict := {
  sla_breached : bool;
  sla_uncoveredTail : Z;
  sla_oldestUncoveredAgeMs : option Z;
  sla_reason : option string
}.
