(* ===== verification/ReconCoverage.v ===== *)
(** Coverage planning and presence comparison
    ([reconciliation/src/core/coverage.ts], [duplicateCoverage.ts]).

    A run sweeps a window of chain-allocated trade ids, compares chain and
    indexer in both directions, and moves its cursor only past ids it could
    decide.  The theorems: unheld runs tile the whole id space and then start
    over ([sweep_covers_all_ids]); the comparison of a window misses no record
    in either direction ([compareCoverage_exhaustive]); the enumeration checks
    report exactly the ids the chain never allocated ([indexer_only_exact]). *)
From stdpp Require Import base list strings.
From S2P Require Import Prelude JsText JsDate JsMap ReconTypes.

Open Scope string_scope.
Open Scope Z_scope.

(** ** Which findings hold the cursor *)

Definition CURSOR_HOLDING_CODES : list DriftCode :=
  [INDEXER_TRADE_MISSING; INDEXER_DUPLICATE_TRADE; INDEXER_SURPLUS_RECORDS;
   ONCHAIN_TRADE_MISSING; ONCHAIN_READ_ERROR].

Definition holdsCursor (code : DriftCode) : bool := includes CURSOR_HOLDING_CODES code.

Record CursorHoldVerdict := { held : bool; reasons : list string }.

Definition evaluateCursorHold (holdingFindingCount : Z) (enumerationTruncated : bool)
    : CursorHoldVerdict :=
  let reasons1 :=
    if 0 <? holdingFindingCount
    then [print_Z holdingFindingCount ++ " unreconciled finding(s)"] else [] in
  let reasons2 :=
    (reasons1 ++ if enumerationTruncated
                 then ["indexer id enumeration truncated before completing"] else [])%list in
  {| held := 0 <? Z.of_nat (length reasons2); reasons := reasons2 |}.

(** ** Anchoring *)

Inductive IndexerAnchorVerdict :=
| Usable (anchorBlock : Z)
| Unusable (reason : string).

Definition evaluateIndexerAnchor (indexerProcessedBlock : option Z) : IndexerAnchorVerdict :=
  match indexerProcessedBlock with
  | None => Unusable "indexer processed block unavailable; nothing to anchor the chain reads to"
  | Some b => Usable b
  end.

Record IndexerSnapshotVerdict := { stable : bool; snapshot_reason : option string }.

Definition evaluateIndexerSnapshot (anchorBlock endBlock : option Z) : IndexerSnapshotVerdict :=
  match anchorBlock, endBlock with
  | Some a, Some e =>
      if negb (a =? e) then
        {| stable := false;
           snapshot_reason := Some ("indexer advanced from block " ++ print_Z a ++ " to " ++
                                    print_Z e ++ " during the run") |}
      else {| stable := true; snapshot_reason := None |}
  | _, _ =>
      {| stable := false;
         snapshot_reason :=
           Some "indexer processed block unavailable; nothing to anchor the chain reads to" |}
  end.

Definition isCoverageComplete (windowComplete enumerationTruncated : bool) : bool :=
  windowComplete && negb enumerationTruncated.

Definition anchorBoundaryBlock (finalityBlockNumber indexerProcessedBlock : Z) : Z * bool :=
  (indexerProcessedBlock, finalityBlockNumber <? indexerProcessedBlock).

(** ** Windows *)

Definition planNextCursor (window : CoverageWindow) (cursorHeld : bool) (previousCursor : Z) : Z :=
  if cursorHeld then previousCursor
  else if cw_complete window then 0 else cw_nextCursor window.

Definition planCoverageWindow (cursor0 chainTradeCounter budget0 : Z)
    : result string CoverageWindow :=
  if budget0 <=? 0 then Err "Coverage budget must be greater than zero"
  else
    let cursor := if cursor0 <? 0 then 0 else cursor0 in
    let counter := chainTradeCounter in
    if counter <=? cursor then
      Ok {| cw_fromTradeId := counter + 1; cw_toTradeId := counter; cw_nextCursor := counter;
            cw_uncoveredTail := 0; cw_complete := true |}
    else
      let fromTradeId := cursor in
      let budget := budget0 in
      let remaining := counter - cursor in
      let covered := if remaining <? budget then remaining else budget in
      let toTradeId := cursor + covered - 1 in
      Ok {| cw_fromTradeId := fromTradeId; cw_toTradeId := toTradeId;
            cw_nextCursor := cursor + covered;
            cw_uncoveredTail := counter - cursor - covered;
            cw_complete := cursor + covered =? counter |}.

(** The [for] loop of [tradeIdsInWindow]; [fuel] bounds its iterations. *)
Fixpoint trade_ids_loop (fuel : nat) (id to : Z) : list string :=
  match fuel with
  | O => []
  | S fuel => if id <=? to then print_Z id :: trade_ids_loop fuel (id + 1) to else []
  end.

Definition tradeIdsInWindow (window : CoverageWindow) : list string :=
  trade_ids_loop (Z.to_nat (cw_toTradeId window - cw_fromTradeId window + 1))
    (cw_fromTradeId window) (cw_toTradeId window).

(** The [for] loop of [batchTradeIds]. *)
Fixpoint batch_loop (fuel : nat) (index batchSize : Z) (tradeIds : list string)
    : list (list string) :=
  match fuel with
  | O => []
  | S fuel =>
      if index <? Z.of_nat (length tradeIds)
      then slice index (index + batchSize) tradeIds ::
           batch_loop fuel (index + batchSize) batchSize tradeIds
      else []
  end.

Definition batchTradeIds (tradeIds : list string) (batchSize : Z)
    : result string (list (list string)) :=
  if batchSize <=? 0 then Err "Batch size must be greater than zero"
  else Ok (batch_loop (length tradeIds) 0 batchSize tradeIds).

(** ** Presence comparison *)

Record ChainTradeRecord := {
  cr_tradeId : string;
  cr_trade : option Trade;
  cr_readError : option string
}.

(** [if (readError)]: an empty message is falsy. *)
Definition has_error (readError : option string) : bool :=
  match readError with Some e => truthy e | None => false end.

Record PairedTrade := {
  pt_indexed : IndexedTradeRecord;
  pt_onchain : option Trade;
  pt_readError : option string
}.

Record CoverageComparison := {
  missingFromIndexer : list DriftFinding;
  paired : list PairedTrade;
  indexerOnly : list IndexedTradeRecord;
  chainTradeCount : Z
}.

Definition existsOnChain (record : ChainTradeRecord) : bool :=
  match cr_trade record with Some t => negb (isAbsentChainTrade t) | None => false end.

Definition read_error_finding (tradeId : string) : DriftFinding :=
  {| df_tradeId := tradeId; df_severity := HIGH; df_mismatchCode := ONCHAIN_READ_ERROR;
     df_comparedField := "tradePresence"; df_onchainValue := None; df_indexedValue := None |}.

Definition missing_finding (tradeId : string) : DriftFinding :=
  {| df_tradeId := tradeId; df_severity := CRITICAL; df_mismatchCode := INDEXER_TRADE_MISSING;
     df_comparedField := "tradePresence"; df_onchainValue := Some tradeId;
     df_indexedValue := None |}.

(** [new Map(trades.map((trade) => [trade.tradeId, trade]))]: a later record of
    the same id replaces an earlier one. *)
Definition indexed_by_id (indexedTrades : list IndexedTradeRecord) : jsmap IndexedTradeRecord :=
  foldl (fun m trade => map_set (ix_tradeId trade) trade m) [] indexedTrades.

(** One iteration of the comparison loop on the accumulated result. *)
Definition compare_record (indexedById : jsmap IndexedTradeRecord)
    (acc : list DriftFinding * list PairedTrade * Z) (record : ChainTradeRecord)
    : list DriftFinding * list PairedTrade * Z :=
  let '(missing, pairs, count) := acc in
  let count := if existsOnChain record then count + 1 else count in
  match map_get (cr_tradeId record) indexedById with
  | Some indexed =>
      (missing,
       (pairs ++ [{| pt_indexed := indexed; pt_onchain := cr_trade record;
                     pt_readError := cr_readError record |}])%list, count)
  | None =>
      if has_error (cr_readError record) then
        ((missing ++ [read_error_finding (cr_tradeId record)])%list, pairs, count)
      else if negb (existsOnChain record) then (missing, pairs, count)
      else ((missing ++ [missing_finding (cr_tradeId record)])%list, pairs, count)
  end.

Definition compareCoverage (chainTrades : list ChainTradeRecord)
    (indexedTrades : list IndexedTradeRecord) : CoverageComparison :=
  let indexedById := indexed_by_id indexedTrades in
  let requestedIds := map cr_tradeId chainTrades in
  let '(missing, pairs, count) := foldl (compare_record indexedById) ([], [], 0) chainTrades in
  {| missingFromIndexer := missing;
     paired := pairs;
     indexerOnly :=
       List.filter (fun trade => negb (includes requestedIds (ix_tradeId trade))) indexedTrades;
     chainTradeCount := count |}.

(** ** Whole-projection checks *)

Definition checkIndexerSurplus (indexerTradeCount : option Z) (boundary : CoverageBoundary)
    : option DriftFinding :=
  match indexerTradeCount with
  | None => None
  | Some n =>
      let chainCounter := cb_chainTradeCounter boundary in
      if n <=? chainCounter then None
      else Some {| df_tradeId := "coverage"; df_severity := CRITICAL;
                   df_mismatchCode := INDEXER_SURPLUS_RECORDS; df_comparedField := "tradeCount";
                   df_onchainValue := Some (print_Z chainCounter);
                   df_indexedValue := Some (print_Z n) |}
  end.

Definition indexerOnlyFinding (tradeId : string) : DriftFinding :=
  {| df_tradeId := tradeId; df_severity := CRITICAL; df_mismatchCode := ONCHAIN_TRADE_MISSING;
     df_comparedField := "tradePresence"; df_onchainValue := None;
     df_indexedValue := Some tradeId |}.

Fixpoint detectIndexerOnlyTradeIds (indexerTradeIds : list string) (boundary : CoverageBoundary)
    : list DriftFinding :=
  match indexerTradeIds with
  | [] => []
  | rawId :: rest =>
      let findings := detectIndexerOnlyTradeIds rest boundary in
      match js_BigInt rawId with
      | None => indexerOnlyFinding rawId :: findings
      | Some numericId =>
          if (numericId <? 0) || (cb_chainTradeCounter boundary <=? numericId)
          then indexerOnlyFinding rawId :: findings
          else findings
      end
  end.

Definition count_ids (counts : jsmap Z) (ids : list string) : jsmap Z :=
  foldl (fun m id => map_set id (default 0 (map_get id m) + 1) m) counts ids.

Definition duplicate_finding (tradeId : string) (count : Z) : DriftFinding :=
  {| df_tradeId := tradeId; df_severity := CRITICAL; df_mismatchCode := INDEXER_DUPLICATE_TRADE;
     df_comparedField := "tradePresence"; df_onchainValue := None;
     df_indexedValue := Some (print_Z count) |}.

Definition detectDuplicateIndexerTradeIds (indexerTradeIds : list string) : list DriftFinding :=
  map (fun e => duplicate_finding e.1 e.2)
    (List.filter (fun e => 1 <? e.2) (count_ids [] indexerTradeIds)).

(** ** Age of the uncovered tail *)

Definition evaluateCoverageSla (uncoveredTail : Z) (tailFirstSeenAt : option Z) (now maxAgeMs : Z)
    : CoverageSlaVerdict :=
  if uncoveredTail =? 0 then
    {| sla_breached := false; sla_uncoveredTail := 0; sla_oldestUncoveredAgeMs := None;
       sla_reason := None |}
  else match tailFirstSeenAt with
  | None =>
      {| sla_breached := false; sla_uncoveredTail := uncoveredTail;
         sla_oldestUncoveredAgeMs := Some 0; sla_reason := None |}
  | Some seen =>
      let ageMs := now - seen in
      if ageMs <? maxAgeMs then
        {| sla_breached := false; sla_uncoveredTail := uncoveredTail;
           sla_oldestUncoveredAgeMs := Some ageMs; sla_reason := None |}
      else
        {| sla_breached := true; sla_uncoveredTail := uncoveredTail;
           sla_oldestUncoveredAgeMs := Some ageMs;
           sla_reason := Some ("uncovered tail of " ++ print_Z uncoveredTail ++
             " trade(s) has exceeded the " ++ print_Z maxAgeMs ++ "ms coverage SLA") |}
  end.

(** ** Lemmas: windows *)

(** The ids [from .. from+n-1], printed. *)
Definition id_range (from n : Z) : list string := map print_Z (seqZ from n).

Lemma trade_ids_loop_range fuel id to :
  to - id + 1 <= Z.of_nat fuel -> trade_ids_loop fuel id to = id_range id (to - id + 1).
Proof.
  unfold id_range. revert id. induction fuel as [|fuel IH]; intros id H; simpl.
  - by rewrite seqZ_nil by lia.
  - destruct (Z.leb_spec id to).
    + rewrite IH by lia. rewrite (seqZ_cons id) by lia. simpl.
      rewrite <- Z.add_1_r. do 3 f_equal. lia.
    + by rewrite seqZ_nil by lia.
Qed.

Lemma tradeIdsInWindow_range w :
  tradeIdsInWindow w = id_range (cw_fromTradeId w) (cw_toTradeId w - cw_fromTradeId w + 1).
Proof. apply trade_ids_loop_range. lia. Qed.

Lemma id_range_app a n m : 0 <= n -> 0 <= m -> (id_range a n ++ id_range (a + n) m)%list = id_range a (n + m).
Proof. intros. unfold id_range. rewrite <- map_app. by rewrite seqZ_app. Qed.

Lemma id_range_elem s a n : s ∈ id_range a n <-> exists i, s = print_Z i /\ a <= i < a + n.
Proof.
  unfold id_range. rewrite list_elem_of_fmap. split.
  - intros (i & -> & Hi%elem_of_seqZ). eauto.
  - intros (i & -> & Hi). exists i. by rewrite elem_of_seqZ.
Qed.

Lemma id_range_NoDup a n : NoDup (id_range a n).
Proof. apply NoDup_fmap_2; [exact print_Z_inj | apply NoDup_seqZ]. Qed.

(** What a planned window is, on both branches. *)
Lemma planCoverageWindow_ok cursor counter budget w :
  0 <= cursor -> planCoverageWindow cursor counter budget = Ok w ->
  0 < budget /\
  ((counter <= cursor /\ tradeIdsInWindow w = [] /\ cw_nextCursor w = counter /\
    cw_uncoveredTail w = 0 /\ cw_complete w = true) \/
   (cursor < counter /\ cw_nextCursor w = Z.min counter (cursor + budget) /\
    tradeIdsInWindow w = id_range cursor (cw_nextCursor w - cursor) /\
    cw_fromTradeId w = cursor /\ cw_toTradeId w = cw_nextCursor w - 1 /\
    cw_uncoveredTail w = counter - cw_nextCursor w /\
    cw_complete w = (cw_nextCursor w =? counter))).
Proof.
  intros Hc. unfold planCoverageWindow. destruct (Z.leb_spec budget 0); [done|].
  destruct (Z.ltb_spec cursor 0); [lia|]. destruct (Z.leb_spec counter cursor); intros [= <-].
  - split; [done|]. left. rewrite tradeIdsInWindow_range. unfold id_range. cbn.
    by rewrite seqZ_nil by lia.
  - split; [done|]. right. rewrite tradeIdsInWindow_range. cbn.
    destruct (Z.ltb_spec (counter - cursor) budget); split_and!; try lia; try done;
      f_equal; lia.
Qed.

Lemma planCoverageWindow_total cursor counter budget :
  0 < budget -> exists w, planCoverageWindow cursor counter budget = Ok w.
Proof.
  intros H. unfold planCoverageWindow. destruct (Z.leb_spec budget 0); [lia|].
  destruct (_ <=? _); eauto.
Qed.

(** ** Sweeps

    Consecutive runs over a fixed chain counter whose cursor is not held, each
    resuming where [planNextCursor] left off, until one completes the sweep. *)
Fixpoint sweep (runs : nat) (cursor counter budget : Z) : result string (list (list string) * Z * bool) :=
  match runs with
  | O => Ok ([], cursor, false)
  | S runs =>
      w ← planCoverageWindow cursor counter budget;
      let next := planNextCursor w false cursor in
      if cw_complete w then Ok ([tradeIdsInWindow w], next, true)
      else r ← sweep runs next counter budget;
           let '(windows, last, done_) := r in
           Ok (tradeIdsInWindow w :: windows, last, done_)
  end.

Lemma sweep_from runs cursor counter budget :
  0 < budget -> 0 <= cursor <= counter ->
  counter - cursor <= budget * Z.of_nat runs -> (0 < runs)%nat ->
  exists windows, sweep runs cursor counter budget = Ok (windows, 0, true) /\
    concat windows = id_range cursor (counter - cursor).
Proof.
  intros Hb. revert cursor. induction runs as [|runs IH]; intros cursor Hc Hr Hpos; [lia|].
  simpl. destruct (planCoverageWindow_total cursor counter budget Hb) as [w Hw].
  rewrite Hw. simpl.
  destruct (planCoverageWindow_ok cursor counter budget w) as [_ H]; [lia|done|].
  destruct H as [(Hge & Hids & Hn & _ & Hcomp)|(Hlt & Hn & Hids & _ & _ & _ & Hcomp)].
  - unfold planNextCursor. rewrite Hcomp, Hids.
    eexists. split; [done|]. simpl. unfold id_range. by rewrite seqZ_nil by lia.
  - unfold planNextCursor. rewrite Hcomp.
    destruct (Z.eqb_spec (cw_nextCursor w) counter) as [He|Hne].
    + eexists. split; [done|]. simpl. rewrite app_nil_r, Hids, He. done.
    + destruct (IH (cw_nextCursor w)) as (ws & Hs & Hcat); [lia|nia|nia|].
      rewrite Hs. simpl. eexists. split; [done|]. simpl.
      rewrite Hids, Hcat. assert (cw_nextCursor w = cursor + budget) as -> by lia.
      replace (cursor + budget - cursor) with budget by lia.
      rewrite id_range_app by lia. f_equal. lia.
Qed.

(** A sweep misses nothing: starting from the first id, as many unheld runs
    as the budget needs (at least one, to see an empty chain) visit every
    allocated id exactly once and in order, end with a complete window and put
    the cursor back to 0 for the next sweep. *)
Theorem sweep_covers_all_ids (runs : nat) (counter budget : Z) :
  0 < budget -> 0 <= counter <= budget * Z.of_nat runs -> (0 < runs)%nat ->
  exists windows, sweep runs 0 counter budget = Ok (windows, 0, true) /\
    concat windows = map print_Z (seqZ 0 counter).
Proof.
  intros Hb Hc Hr. destruct (sweep_from runs 0 counter budget) as (ws & Hs & Hcat); [lia..|].
  exists ws. split; [done|]. by rewrite Hcat, Z.sub_0_r.
Qed.

Lemma sweep_covers_all_ids_witness :
  exists windows, sweep 3 0 5 2 = Ok (windows, 0, true) /\
    concat windows = map print_Z (seqZ 0 5).
Proof. apply (sweep_covers_all_ids 3 5 2); lia. Defined.

(** Batching loses nothing: the batches concatenate back to the ids. *)
Lemma batch_loop_concat fuel index size ids :
  0 < size -> 0 <= index -> Z.of_nat (length ids) - index <= Z.of_nat fuel ->
  concat (batch_loop fuel index size ids) = drop (Z.to_nat index) ids /\
  Forall (fun b => b <> [] /\ Z.of_nat (length b) <= size) (batch_loop fuel index size ids).
Proof.
  intros Hs. revert index. induction fuel as [|fuel IH]; intros index Hi Hf; simpl.
  - rewrite drop_ge by lia. done.
  - destruct (Z.ltb_spec index (Z.of_nat (length ids))).
    + destruct (IH (index + size)) as [Hc Hall]; [lia|lia|]. simpl. rewrite Hc.
      unfold slice. replace (index + size - index) with size by lia.
      replace (Z.to_nat (index + size)) with (Z.to_nat index + Z.to_nat size)%nat by lia.
      rewrite <- drop_drop. rewrite take_drop. split; [done|].
      constructor; [|done]. split.
      * intros E. apply (f_equal length) in E.
        rewrite length_take, length_drop in E. simpl in E. lia.
      * rewrite length_take. lia.
    + rewrite drop_ge by lia. done.
Qed.

Lemma batchTradeIds_concat ids size batches :
  batchTradeIds ids size = Ok batches ->
  concat batches = ids /\ Forall (fun b => b <> [] /\ Z.of_nat (length b) <= size) batches.
Proof.
  unfold batchTradeIds. destruct (Z.leb_spec size 0); [done|]. intros [= <-].
  apply batch_loop_concat; lia.
Qed.

(** ** Lemmas: presence comparison *)

Lemma indexed_by_id_from l m id x :
  map_get id (foldl (fun m trade => map_set (ix_tradeId trade) trade m) m l) = Some x ->
  map_get id m = Some x \/ (x ∈ l /\ ix_tradeId x = id).
Proof.
  revert m. induction l as [|y l IH]; intros m; simpl; [by left|].
  intros [H|[H ?]]%IH; [|right; split; [by right|done]].
  rewrite map_get_set_case in H. destruct (String.eqb_spec (ix_tradeId y) id) as [He|He].
  - right. injection H as ->. split; [left|done].
  - by left.
Qed.

Lemma indexed_by_id_none l m id :
  map_get id (foldl (fun m trade => map_set (ix_tradeId trade) trade m) m l) = None <->
  map_get id m = None /\ id ∉ map ix_tradeId l.
Proof.
  revert m. induction l as [|y l IH]; intros m; simpl.
  - split; [intros; split; [done | apply not_elem_of_nil] | tauto].
  - rewrite IH, map_get_set_case, not_elem_of_cons.
    destruct (String.eqb_spec (ix_tradeId y) id) as [->|He]; naive_solver.
Qed.

Lemma indexed_by_id_some l id x :
  map_get id (indexed_by_id l) = Some x -> x ∈ l /\ ix_tradeId x = id.
Proof. by intros [H|H]%indexed_by_id_from. Qed.

Lemma indexed_by_id_absent l id :
  map_get id (indexed_by_id l) = None <-> id ∉ map ix_tradeId l.
Proof. unfold indexed_by_id. rewrite indexed_by_id_none. naive_solver. Qed.

(** The contributions of one chain record. *)
Definition record_finding (idx : jsmap IndexedTradeRecord) (r : ChainTradeRecord)
    : option DriftFinding :=
  match map_get (cr_tradeId r) idx with
  | Some _ => None
  | None => if has_error (cr_readError r) then Some (read_error_finding (cr_tradeId r))
            else if existsOnChain r then Some (missing_finding (cr_tradeId r)) else None
  end.

Definition record_pair (idx : jsmap IndexedTradeRecord) (r : ChainTradeRecord)
    : option PairedTrade :=
  ix ← map_get (cr_tradeId r) idx;
  Some {| pt_indexed := ix; pt_onchain := cr_trade r; pt_readError := cr_readError r |}.

Lemma compare_fold idx l m p c :
  foldl (compare_record idx) (m, p, c) l =
  ((m ++ omap (record_finding idx) l)%list, (p ++ omap (record_pair idx) l)%list,
   c + Z.of_nat (length (List.filter existsOnChain l))).
Proof.
  revert m p c. induction l as [|r l IH]; intros m p c; cbn [foldl].
  - by rewrite !app_nil_r, Z.add_0_r.
  - assert (omap (record_finding idx) (r :: l) =
      (option_list (record_finding idx r) ++ omap (record_finding idx) l)%list) as ->
      by (cbn; by destruct (record_finding idx r)).
    assert (omap (record_pair idx) (r :: l) =
      (option_list (record_pair idx r) ++ omap (record_pair idx) l)%list) as ->
      by (cbn; by destruct (record_pair idx r)).
    unfold compare_record at 2, record_finding at 1, record_pair at 1.
    destruct (map_get (cr_tradeId r) idx); [|destruct (has_error (cr_readError r))];
      destruct (existsOnChain r) eqn:E; cbn [negb List.filter option_list mbind option_bind];
      rewrite IH, E, <- ?app_assoc; cbn [app length]; f_equal; lia.
Qed.

Lemma compareCoverage_parts chain indexed :
  let c := compareCoverage chain indexed in
  missingFromIndexer c = omap (record_finding (indexed_by_id indexed)) chain /\
  paired c = omap (record_pair (indexed_by_id indexed)) chain /\
  chainTradeCount c = Z.of_nat (length (List.filter existsOnChain chain)).
Proof. unfold compareCoverage. rewrite compare_fold. done. Qed.

(** The verdict the comparison of a window owes to one chain record. *)
Inductive accounted (indexed : list IndexedTradeRecord) (c : CoverageComparison)
    (r : ChainTradeRecord) : Prop :=
| accounted_paired x :
    x ∈ indexed -> ix_tradeId x = cr_tradeId r ->
    {| pt_indexed := x; pt_onchain := cr_trade r; pt_readError := cr_readError r |} ∈ paired c ->
    accounted indexed c r
| accounted_read_error :
    cr_tradeId r ∉ map ix_tradeId indexed -> has_error (cr_readError r) = true ->
    read_error_finding (cr_tradeId r) ∈ missingFromIndexer c -> accounted indexed c r
| accounted_missing :
    cr_tradeId r ∉ map ix_tradeId indexed -> existsOnChain r = true ->
    has_error (cr_readError r) = false ->
    missing_finding (cr_tradeId r) ∈ missingFromIndexer c -> accounted indexed c r
| accounted_absent :
    cr_tradeId r ∉ map ix_tradeId indexed -> existsOnChain r = false ->
    has_error (cr_readError r) = false -> accounted indexed c r.

(** The comparison of a window is exhaustive in both directions: every chain
    record is paired with an indexed record of its id, or reported as missing or
    unreadable, or is absent on both sides; every report is about such a record;
    and exactly the indexed records outside the requested ids are returned as
    indexer-only. *)
Theorem compareCoverage_exhaustive chain indexed :
  let c := compareCoverage chain indexed in
  (forall r, r ∈ chain -> accounted indexed c r) /\
  (forall f, f ∈ missingFromIndexer c -> exists r, r ∈ chain /\
     cr_tradeId r ∉ map ix_tradeId indexed /\
     ((has_error (cr_readError r) = true /\ f = read_error_finding (cr_tradeId r)) \/
      (has_error (cr_readError r) = false /\ existsOnChain r = true /\
       f = missing_finding (cr_tradeId r)))) /\
  (forall p, p ∈ paired c -> exists r, r ∈ chain /\ pt_indexed p ∈ indexed /\
     ix_tradeId (pt_indexed p) = cr_tradeId r /\ pt_onchain p = cr_trade r /\
     pt_readError p = cr_readError r) /\
  (forall x, x ∈ indexerOnly c <-> x ∈ indexed /\ ix_tradeId x ∉ map cr_tradeId chain) /\
  chainTradeCount c = Z.of_nat (length (List.filter existsOnChain chain)).
Proof.
  intros c. destruct (compareCoverage_parts chain indexed) as (Hm & Hp & Hc).
  fold c in Hm, Hp, Hc. split_and!; [| | | |exact Hc].
  - intros r Hr. destruct (map_get (cr_tradeId r) (indexed_by_id indexed)) as [x|] eqn:Hx.
    + destruct (indexed_by_id_some _ _ _ Hx). eapply accounted_paired; [done..|].
      rewrite Hp. apply list_elem_of_omap. exists r. split; [done|]. unfold record_pair. by rewrite Hx.
    + assert (forall f, record_finding (indexed_by_id indexed) r = Some f ->
        f ∈ missingFromIndexer c) as Hin.
      { intros f Hf. rewrite Hm. apply list_elem_of_omap. eauto. }
      unfold record_finding in Hin. rewrite Hx in Hin. apply indexed_by_id_absent in Hx.
      destruct (has_error (cr_readError r)) eqn:He; [apply accounted_read_error; auto|].
      destruct (existsOnChain r) eqn:Ho; [apply accounted_missing; auto | by apply accounted_absent].
  - intros f. rewrite Hm, list_elem_of_omap. intros (r & Hr & Hf). exists r. split; [done|].
    unfold record_finding in Hf.
    destruct (map_get (cr_tradeId r) (indexed_by_id indexed)) eqn:Hx; [done|].
    apply indexed_by_id_absent in Hx. split; [done|].
    destruct (has_error _); [left | destruct (existsOnChain r); [right|done]]; by simplify_eq.
  - intros p. rewrite Hp, list_elem_of_omap. intros (r & Hr & Hf). exists r. split; [done|].
    unfold record_pair in Hf.
    destruct (map_get (cr_tradeId r) (indexed_by_id indexed)) eqn:Hx; [|done].
    destruct (indexed_by_id_some _ _ _ Hx). simplify_eq/=. by simplify_eq.
  - intros x. unfold c, compareCoverage. rewrite compare_fold. cbn.
    rewrite list_elem_of_In, filter_In, <- list_elem_of_In, negb_true_iff, includes_false. done.
Qed.

(** ** Lemmas: the indexer's own ids *)

(** An id that [BigInt] does not read as an allocated number. *)
Definition unallocated (counter : Z) (id : string) : bool :=
  match js_BigInt id with
  | None => true
  | Some n => (n <? 0) || (counter <=? n)
  end.

Lemma detectIndexerOnly_filter ids b :
  detectIndexerOnlyTradeIds ids b =
  map indexerOnlyFinding (List.filter (unallocated (cb_chainTradeCounter b)) ids).
Proof.
  induction ids as [|id ids IH]; simpl; [done|]. rewrite IH.
  assert (unallocated (cb_chainTradeCounter b) id = match js_BigInt id with
    | None => true | Some n => (n <? 0) || (cb_chainTradeCounter b <=? n) end) as -> by done.
  destruct (js_BigInt id); [|done]. by destruct (_ || _).
Qed.

Lemma js_BigInt_canonical id : canonical_digits id = true ->
  js_BigInt id = Some (Z.of_N (digits_value id)) /\ id = print_Z (Z.of_N (digits_value id)).
Proof.
  intros H. split.
  - apply js_BigInt_digits. unfold digits_only.
    rewrite (canonical_digits_all _ H). destruct id; done.
  - rewrite <- (print_digits_value _ H) at 1. by destruct (digits_value id).
Qed.

Lemma allocated_canonical counter id :
  canonical_digits id = true -> unallocated counter id = false -> id ∈ id_range 0 counter.
Proof.
  intros [Hb He]%js_BigInt_canonical. unfold unallocated. rewrite Hb. intros H.
  apply orb_false_iff in H as [_ H]. apply Z.leb_gt in H.
  apply id_range_elem. eexists. split; [exact He | lia].
Qed.

Definition occurrences (id : string) (ids : list string) : Z :=
  Z.of_nat (length (List.filter (String.eqb id) ids)).

Lemma count_ids_get ids m id :
  map_get id (count_ids m ids) =
  if (0 <? occurrences id ids) then Some (default 0 (map_get id m) + occurrences id ids)
  else map_get id m.
Proof.
  revert m. induction ids as [|x ids IH]; intros m; [done|].
  cbn [count_ids foldl]. fold (count_ids (map_set x (default 0 (map_get x m) + 1) m) ids).
  rewrite IH, map_get_set_case. unfold occurrences in *. cbn [List.filter].
  rewrite (String.eqb_sym id x). destruct (String.eqb_spec x id) as [->|]; [|done].
  cbn [length from_option Datatypes.id]. rewrite Nat2Z.inj_succ.
  destruct (Z.ltb_spec 0 (Z.of_nat (length (List.filter (String.eqb id) ids)))).
  - destruct (Z.ltb_spec 0 (Z.succ (Z.of_nat (length (List.filter (String.eqb id) ids))))); [|lia].
    f_equal. lia.
  - destruct (Z.ltb_spec 0 (Z.succ (Z.of_nat (length (List.filter (String.eqb id) ids))))); [|lia].
    f_equal. lia.
Qed.

Lemma count_ids_NoDup ids m : NoDup (map_keys m) -> NoDup (map_keys (count_ids m ids)).
Proof. revert m. induction ids; intros m H; simpl; [done|]. by apply IHids, map_set_NoDup. Qed.

Lemma occurrences_NoDup ids : (forall id, occurrences id ids <= 1) -> NoDup ids.
Proof.
  induction ids as [|x ids IH]; intros H; [constructor|]. constructor.
  - intros Hx. specialize (H x). unfold occurrences in H. simpl in H.
    rewrite String.eqb_refl in H. simpl in H.
    assert (In x (List.filter (String.eqb x) ids)) as Hin.
    { apply filter_In. rewrite String.eqb_refl. split; [by apply list_elem_of_In|done]. }
    destruct (List.filter (String.eqb x) ids); simpl in *; [done|lia].
  - apply IH. intros id. specialize (H id). unfold occurrences in *. simpl in H.
    destruct (String.eqb id x); simpl in H; lia.
Qed.

Lemma detectDuplicate_elem ids f :
  f ∈ detectDuplicateIndexerTradeIds ids <->
  exists id, 1 < occurrences id ids /\ f = duplicate_finding id (occurrences id ids).
Proof.
  unfold detectDuplicateIndexerTradeIds. rewrite list_elem_of_fmap.
  assert (forall id n, (id, n) ∈ count_ids [] ids <-> 0 < occurrences id ids /\ n = occurrences id ids) as Hc.
  { intros id n. pose proof (count_ids_get ids [] id) as Hg. cbn [map_get default] in Hg.
    assert (NoDup (map_keys (count_ids [] ids))) as Hn by (apply count_ids_NoDup; constructor).
    split.
    - intros H. apply map_In_get in H; [|done]. rewrite H in Hg.
      destruct (Z.ltb_spec 0 (occurrences id ids)); [|done]. split; [done|]. simplify_eq. lia.
    - intros [Hp ->]. apply map_get_In. rewrite Hg.
      destruct (Z.ltb_spec 0 (occurrences id ids)); [|lia]. f_equal; lia. }
  split.
  - intros ([id n] & -> & Hin). exists id. cbn.
    rewrite list_elem_of_In, filter_In, <- list_elem_of_In, Hc in Hin.
    destruct Hin as [[? ->] H]. apply Z.ltb_lt in H. done.
  - intros (id & Hn & ->). exists (id, occurrences id ids). split; [done|].
    rewrite list_elem_of_In, filter_In, <- list_elem_of_In, Hc. cbn. split; [lia|]. by apply Z.ltb_lt.
Qed.

(** The enumeration checks decide the indexer's id set: an id is reported
    exactly when [BigInt] does not read it as a number below the chain counter,
    or when it occurs more than once.  When nothing is reported and the ids are
    canonical decimals, they are distinct allocated ids; then the projection
    holds no more trades than the chain allocated, and if it holds as many it
    holds exactly the allocated ones. *)
Theorem indexer_only_exact (ids : list string) (b : CoverageBoundary) :
  (forall f, f ∈ detectIndexerOnlyTradeIds ids b <->
     exists id, id ∈ ids /\ unallocated (cb_chainTradeCounter b) id = true /\
       f = indexerOnlyFinding id) /\
  (forall f, f ∈ detectDuplicateIndexerTradeIds ids <->
     exists id, 1 < occurrences id ids /\ f = duplicate_finding id (occurrences id ids)) /\
  (detectIndexerOnlyTradeIds ids b = [] -> detectDuplicateIndexerTradeIds ids = [] ->
   Forall (fun id => canonical_digits id = true) ids -> 0 <= cb_chainTradeCounter b ->
   NoDup ids /\ Forall (fun id => id ∈ map print_Z (seqZ 0 (cb_chainTradeCounter b))) ids /\
   Z.of_nat (length ids) <= cb_chainTradeCounter b /\
   (Z.of_nat (length ids) = cb_chainTradeCounter b ->
    ids ≡ₚ map print_Z (seqZ 0 (cb_chainTradeCounter b)))).
Proof.
  split_and!.
  - intros f. rewrite detectIndexerOnly_filter, list_elem_of_fmap.
    setoid_rewrite list_elem_of_In. setoid_rewrite filter_In. naive_solver.
  - apply detectDuplicate_elem.
  - intros Ho Hd Hcan Hpos.
    assert (NoDup ids) as Hnd.
    { apply occurrences_NoDup. intros id. destruct (Z_le_gt_dec (occurrences id ids) 1); [done|].
      exfalso. apply (not_elem_of_nil (duplicate_finding id (occurrences id ids))).
      rewrite <- Hd. apply detectDuplicate_elem. exists id. split; [lia|done]. }
    assert (Forall (fun id => id ∈ id_range 0 (cb_chainTradeCounter b)) ids) as Hin.
    { rewrite Forall_forall. intros id Hid. rewrite Forall_forall in Hcan.
      apply allocated_canonical; [by apply Hcan|].
      destruct (unallocated (cb_chainTradeCounter b) id) eqn:E; [|done]. exfalso.
      rewrite detectIndexerOnly_filter in Ho. apply map_eq_nil in Ho.
      assert (In id (List.filter (unallocated (cb_chainTradeCounter b)) ids)) as Hf.
      { apply filter_In. split; [by apply list_elem_of_In|done]. }
      by rewrite Ho in Hf. }
    assert (ids ⊆ id_range 0 (cb_chainTradeCounter b)) as Hsub.
    { intros x Hx. rewrite Forall_forall in Hin. by apply Hin. }
    apply NoDup_submseteq in Hsub; [|done]. pose proof (submseteq_length _ _ Hsub) as Hlen.
    unfold id_range in *. rewrite length_fmap, length_seqZ in Hlen.
    split_and!; [done|done|lia|]. intros He. apply submseteq_length_Permutation; [done|].
    rewrite length_fmap, length_seqZ. lia.
Qed.

(** The check reads ids as numbers, so a second spelling of an allocated id (or
    the empty id, which [BigInt] reads as 0) passes it although the chain never
    allocated an id of that text. *)
Theorem noncanonical_ids_undetected b :
  1 < cb_chainTradeCounter b ->
  detectIndexerOnlyTradeIds [""; "1"; "01"; "0x1"; " 1 "] b = [] /\
  detectDuplicateIndexerTradeIds [""; "1"; "01"; "0x1"; " 1 "] = [].
Proof.
  intros H. split; [|reflexivity]. rewrite detectIndexerOnly_filter.
  assert (forall id n, js_BigInt id = Some n -> 0 <= n <= 1 ->
    unallocated (cb_chainTradeCounter b) id = false) as Hn.
  { intros id n Hid ?. unfold unallocated. rewrite Hid.
    apply orb_false_iff. rewrite Z.ltb_ge, Z.leb_gt. lia. }
  cbn [List.filter].
  rewrite (Hn "" 0), (Hn "1" 1), (Hn "01" 1), (Hn "0x1" 1), (Hn " 1 " 1) by (reflexivity || lia).
  done.
Qed.

Lemma indexer_only_exact_witness :
  let b := {| cb_blockNumber := 10; cb_blockHash := "0xab"; cb_tag := tag_finalized;
              cb_chainTradeCounter := 3; cb_indexerProcessedBlock := 10;
              cb_finalityBlockNumber := 12; cb_indexerAhead := false |} in
  ["2"; "0"; "1"] ≡ₚ map print_Z (seqZ 0 3).
Proof.
  intros b. destruct (indexer_only_exact ["2"; "0"; "1"] b) as (_ & _ & H).
  apply H; [reflexivity | reflexivity | repeat constructor | cbn; lia | reflexivity].
Defined.

(** A chain read that failed with an empty message is indistinguishable from an
    id without a trade: the comparison reports nothing about it. *)
Theorem empty_read_error_unreported id :
  let c := compareCoverage [{| cr_tradeId := id; cr_trade := None; cr_readError := Some "" |}] [] in
  missingFromIndexer c = [] /\ paired c = [] /\ indexerOnly c = [].
Proof. done. Qed.
