(* ===== verification/ReconClassifier.v ===== *)
(** Field-level drift classification and scoped containment
    ([reconciliation/src/core/classifier.ts], [containment.ts],
    [utils/address.ts], [sdk/src/utils/feeSplit.ts]).

    [ethers] is not part of the sources: address validity and checksumming are
    the parameters [isAddress] and [getAddress].  The theorems characterise the
    classifier: it is silent exactly when the indexed record agrees with the
    chain in every compared field ([classify_silent_iff_agrees]), and every
    disagreement about money, parties or contract text puts its trade under
    containment and out of the clean set ([financial_drift_is_contained]). *)
From stdpp Require Import base list strings.
From S2P Require Import Prelude JsText JsDate JsMap ReconTypes ReconCoverage.

Open Scope string_scope.
Open Scope Z_scope.

(** ** Platform fee split *)

Definition SETTLEMENT_SUPPORT_FEE_BASE_UNITS : Z := 4000000.

Record PlatformFeeSplit := { fs_platformFeeNetAmount : Z; fs_settlementSupportFeeAmount : Z }.

Definition splitPlatformFeeComponents (platformFeesAmount : Z) : result string PlatformFeeSplit :=
  if platformFeesAmount <? 0 then Err "platformFeesAmount cannot be negative"
  else
    let settlementSupportFeeAmount :=
      if platformFeesAmount <? SETTLEMENT_SUPPORT_FEE_BASE_UNITS
      then platformFeesAmount else SETTLEMENT_SUPPORT_FEE_BASE_UNITS in
    Ok {| fs_platformFeeNetAmount := platformFeesAmount - settlementSupportFeeAmount;
          fs_settlementSupportFeeAmount := settlementSupportFeeAmount |}.

(** ** Status labels *)

Definition statusLabel (status : TradeStatus) : string :=
  if status =? LOCKED then "LOCKED"
  else if status =? IN_TRANSIT then "IN_TRANSIT"
  else if status =? ARRIVAL_CONFIRMED then "ARRIVAL_CONFIRMED"
  else if status =? FROZEN then "FROZEN"
  else if status =? STATUS_CLOSED then "CLOSED"
  else "UNKNOWN_" ++ print_Z status.

(** ** Amounts *)

Definition amount_finding (tradeId field : string) (onchain indexed : Z) : DriftFinding :=
  {| df_tradeId := tradeId; df_severity := CRITICAL; df_mismatchCode := AMOUNT_MISMATCH;
     df_comparedField := field; df_onchainValue := Some (print_Z onchain);
     df_indexedValue := Some (print_Z indexed) |}.

(** The compared fields, in the order of the source's table: name, chain value,
    indexed value. *)
Definition amountFields (indexed : IndexedTradeRecord) (onchain : Trade)
    : list (string * Z * Z) :=
  [("totalAmountLocked", t_totalAmountLocked onchain, ix_totalAmountLocked indexed);
   ("logisticsAmount", t_logisticsAmount onchain, ix_logisticsAmount indexed);
   ("platformFeesAmount", t_platformFeesAmount onchain, ix_platformFeesAmount indexed);
   ("supplierFirstTranche", t_supplierFirstTranche onchain, ix_supplierFirstTranche indexed);
   ("supplierSecondTranche", t_supplierSecondTranche onchain, ix_supplierSecondTranche indexed)].

Definition compareAmounts (indexed : IndexedTradeRecord) (onchain : Trade) : list DriftFinding :=
  omap (fun '(field, onchainValue, indexedValue) =>
          if negb (onchainValue =? indexedValue)
          then Some (amount_finding (ix_tradeId indexed) field onchainValue indexedValue)
          else None)
    (amountFields indexed onchain).

(** [JSON.stringify] of the two fee components, both decimal texts. *)
Definition dquote : string := String (ascii_of_N 34) EmptyString.

Definition quoted (s : string) : string := dquote ++ s ++ dquote.

Definition fee_components_json (indexed : IndexedTradeRecord) : string :=
  "{" ++ quoted "platformFeeNetAmount" ++ ":" ++ quoted (print_Z (ix_platformFeeNetAmount indexed)) ++
  "," ++ quoted "settlementSupportFeeAmount" ++ ":" ++
  quoted (print_Z (ix_settlementSupportFeeAmount indexed)) ++ "}".

Definition compareFeeComponents (indexed : IndexedTradeRecord)
    : result string (list DriftFinding) :=
  expected ← splitPlatformFeeComponents (ix_platformFeesAmount indexed);
  if (ix_platformFeeNetAmount indexed =? fs_platformFeeNetAmount expected) &&
     (ix_settlementSupportFeeAmount indexed =? fs_settlementSupportFeeAmount expected)
  then Ok []
  else Ok [{| df_tradeId := ix_tradeId indexed; df_severity := HIGH;
              df_mismatchCode := FEE_COMPONENT_MISMATCH;
              df_comparedField := "platformFeeComponents";
              df_onchainValue := Some (print_Z (ix_platformFeesAmount indexed));
              df_indexedValue := Some (fee_components_json indexed) |}].

(** ** Addresses *)

Inductive Source := src_indexed | src_onchain.

Definition invalidAddressFinding (tradeId : string) (source : Source) (field value : string)
    : DriftFinding :=
  {| df_tradeId := tradeId; df_severity := CRITICAL;
     df_mismatchCode := match source with
                        | src_indexed => INDEXED_INVALID_ADDRESS
                        | src_onchain => ONCHAIN_INVALID_ADDRESS
                        end;
     df_comparedField := field;
     df_onchainValue := match source with src_onchain => Some value | src_indexed => None end;
     df_indexedValue := match source with src_indexed => Some value | src_onchain => None end |}.

Definition ZERO_ADDRESS : string := "0x0000000000000000000000000000000000000000".

(** [date ? date.toISOString() : null] *)
Definition iso_or_null (d : option js_date) : result string (option string) :=
  match d with
  | Some d => s ← toISOString d; Ok (Some s)
  | None => Ok None
  end.

Definition finding (tradeId : string) (severity : DriftSeverity) (code : DriftCode)
    (field : string) (onchain indexed : option string) : DriftFinding :=
  {| df_tradeId := tradeId; df_severity := severity; df_mismatchCode := code;
     df_comparedField := field; df_onchainValue := onchain; df_indexedValue := indexed |}.

(** [if (c) findings.push(f)] *)
Definition push_if (c : bool) (f : DriftFinding) : list DriftFinding := if c then [f] else [].

Section classifier.
Context (isAddress : string -> bool) (getAddress : string -> string).

Definition normalizeAddressOrNull (value : string) : option string :=
  if negb (isAddress value) then None else Some (getAddress value).

Definition isZeroAddress (value : string) : bool :=
  match normalizeAddressOrNull value with
  | Some normalized => String.eqb normalized ZERO_ADDRESS
  | None => false
  end.

(** A truthy normalised address. *)
Definition usable (a : option string) : bool :=
  match a with Some s => truthy s | None => false end.

(** [a && b && b !== a] *)
Definition participants_differ (indexed onchain : option string) : bool :=
  match indexed, onchain with
  | Some i, Some o => truthy i && truthy o && negb (String.eqb o i)
  | _, _ => false
  end.

Definition classifyDrifts (indexedTrade : IndexedTradeRecord) (onchainTrade : option Trade)
    (onchainReadError : option string) : result string (list DriftFinding) :=
  let id := ix_tradeId indexedTrade in
  if has_error onchainReadError then
    Ok [finding id CRITICAL ONCHAIN_READ_ERROR "tradeLookup" None (Some (ix_status indexedTrade))]
  else
    let missing :=
      Ok [finding id CRITICAL ONCHAIN_TRADE_MISSING "tradePresence" None (Some id)] in
    match onchainTrade with
    | None => missing
    | Some onchain =>
        if isZeroAddress (t_buyer onchain) then missing
        else
          let onchainStatus := statusLabel (t_status onchain) in
          let status :=
            push_if (negb (String.eqb onchainStatus (ix_status indexedTrade)))
              (finding id HIGH STATUS_MISMATCH "status" (Some onchainStatus)
                 (Some (ix_status indexedTrade))) in
          let indexedBuyer := normalizeAddressOrNull (ix_buyer indexedTrade) in
          let indexedSupplier := normalizeAddressOrNull (ix_supplier indexedTrade) in
          let onchainBuyer := normalizeAddressOrNull (t_buyer onchain) in
          let onchainSupplier := normalizeAddressOrNull (t_supplier onchain) in
          let addresses :=
            (push_if (negb (usable indexedBuyer))
               (invalidAddressFinding id src_indexed "buyer" (ix_buyer indexedTrade)) ++
             push_if (negb (usable indexedSupplier))
               (invalidAddressFinding id src_indexed "supplier" (ix_supplier indexedTrade)) ++
             push_if (negb (usable onchainBuyer))
               (invalidAddressFinding id src_onchain "buyer" (t_buyer onchain)) ++
             push_if (negb (usable onchainSupplier))
               (invalidAddressFinding id src_onchain "supplier" (t_supplier onchain)))%list in
          let participants :=
            (push_if (participants_differ indexedBuyer onchainBuyer)
               (finding id CRITICAL PARTICIPANT_MISMATCH "buyer" (Some (t_buyer onchain))
                  (Some (ix_buyer indexedTrade))) ++
             push_if (participants_differ indexedSupplier onchainSupplier)
               (finding id CRITICAL PARTICIPANT_MISMATCH "supplier" (Some (t_supplier onchain))
                  (Some (ix_supplier indexedTrade))))%list in
          let amounts := compareAmounts indexedTrade onchain in
          fees ← compareFeeComponents indexedTrade;
          let hash :=
            push_if (negb (String.eqb (toLowerCase (t_ricardianHash onchain))
                                      (toLowerCase (ix_ricardianHash indexedTrade))))
              (finding id CRITICAL HASH_MISMATCH "ricardianHash" (Some (t_ricardianHash onchain))
                 (Some (ix_ricardianHash indexedTrade))) in
          onchainArrivalIso ← iso_or_null (t_arrivalTimestamp onchain);
          indexedArrivalIso ← iso_or_null (ix_arrivalTimestamp indexedTrade);
          let arrival :=
            push_if (negb (bool_decide (onchainArrivalIso = indexedArrivalIso)))
              (finding id MEDIUM ARRIVAL_TIMESTAMP_MISMATCH "arrivalTimestamp" onchainArrivalIso
                 indexedArrivalIso) in
          Ok (status ++ addresses ++ participants ++ amounts ++ fees ++ hash ++ arrival)%list
    end.

End classifier.

(** ** Containment *)

Definition QUALIFYING_DISCREPANCY_CODES : list DriftCode :=
  [AMOUNT_MISMATCH; FEE_COMPONENT_MISMATCH; PARTICIPANT_MISMATCH; HASH_MISMATCH;
   ONCHAIN_TRADE_MISSING; INDEXER_TRADE_MISSING].

Definition isQualifyingDiscrepancy (f : DriftFinding) : bool :=
  includes QUALIFYING_DISCREPANCY_CODES (df_mismatchCode f).

Record QualifiedDiscrepancy := {
  qd_tradeId : string;
  qd_codes : list DriftCode;
  qd_findings : list DriftFinding
}.

Definition qualify_step (byTrade : jsmap QualifiedDiscrepancy) (f : DriftFinding)
    : jsmap QualifiedDiscrepancy :=
  if negb (isQualifyingDiscrepancy f) then byTrade
  else
    match map_get (df_tradeId f) byTrade with
    | Some existing =>
        map_set (df_tradeId f)
          {| qd_tradeId := qd_tradeId existing;
             qd_codes := if includes (qd_codes existing) (df_mismatchCode f)
                         then qd_codes existing
                         else (qd_codes existing ++ [df_mismatchCode f])%list;
             qd_findings := (qd_findings existing ++ [f])%list |} byTrade
    | None =>
        map_set (df_tradeId f)
          {| qd_tradeId := df_tradeId f; qd_codes := [df_mismatchCode f]; qd_findings := [f] |}
          byTrade
    end.

Definition qualifyDiscrepancies (findings : list DriftFinding) : list QualifiedDiscrepancy :=
  map_values (foldl qualify_step [] findings).

(** The set of clean ids, in insertion order. *)
Definition cleanlyReconciledTradeIds (comparedTradeIds : list string)
    (findings : list DriftFinding) : list string :=
  let withFindings := map df_tradeId findings in
  foldl (fun clean tradeId =>
           if includes withFindings tradeId then clean
           else if includes clean tradeId then clean else (clean ++ [tradeId])%list)
    [] comparedTradeIds.

(** ** Lemmas *)

Lemma push_if_nil c f : push_if c f = [] <-> c = false.
Proof. destruct c; simpl; split; congruence. Qed.

Lemma push_if_elem c f g : g ∈ push_if c f <-> c = true /\ g = f.
Proof.
  destruct c; simpl; [rewrite list_elem_of_singleton; naive_solver|].
  split; [by intros ?%not_elem_of_nil | naive_solver].
Qed.

Definition amounts_agree (ix : IndexedTradeRecord) (t : Trade) : Prop :=
  ix_totalAmountLocked ix = t_totalAmountLocked t /\
  ix_logisticsAmount ix = t_logisticsAmount t /\
  ix_platformFeesAmount ix = t_platformFeesAmount t /\
  ix_supplierFirstTranche ix = t_supplierFirstTranche t /\
  ix_supplierSecondTranche ix = t_supplierSecondTranche t.

Lemma compareAmounts_nil ix t : compareAmounts ix t = [] <-> amounts_agree ix t.
Proof.
  unfold compareAmounts, amountFields, amounts_agree. cbn.
  destruct (Z.eqb_spec (t_totalAmountLocked t) (ix_totalAmountLocked ix)); cbn; [|naive_solver].
  destruct (Z.eqb_spec (t_logisticsAmount t) (ix_logisticsAmount ix)); cbn; [|naive_solver].
  destruct (Z.eqb_spec (t_platformFeesAmount t) (ix_platformFeesAmount ix)); cbn; [|naive_solver].
  destruct (Z.eqb_spec (t_supplierFirstTranche t) (ix_supplierFirstTranche ix)); cbn; [|naive_solver].
  destruct (Z.eqb_spec (t_supplierSecondTranche t) (ix_supplierSecondTranche ix)); cbn; naive_solver.
Qed.

(** The fee components add up to the gross fee, support fee first. *)
Definition fees_split (ix : IndexedTradeRecord) : Prop :=
  0 <= ix_platformFeesAmount ix /\
  ix_settlementSupportFeeAmount ix =
    Z.min (ix_platformFeesAmount ix) SETTLEMENT_SUPPORT_FEE_BASE_UNITS /\
  ix_platformFeeNetAmount ix + ix_settlementSupportFeeAmount ix = ix_platformFeesAmount ix.

Lemma compareFeeComponents_nil ix : compareFeeComponents ix = Ok [] <-> fees_split ix.
Proof.
  unfold compareFeeComponents, splitPlatformFeeComponents, fees_split.
  destruct (Z.ltb_spec (ix_platformFeesAmount ix) 0); cbn; [split; [done | lia]|].
  destruct (Z.ltb_spec (ix_platformFeesAmount ix) SETTLEMENT_SUPPORT_FEE_BASE_UNITS);
    match goal with |- context [if ?c then _ else _] => destruct c eqn:E end.
  all: split; [intros ?; try done; reflect_bools; lia | intros ?; try done].
  all: exfalso; apply andb_false_iff in E as [E|E]; reflect_bools; lia.
Qed.

Lemma iso_or_null_inj d e s t :
  iso_or_null d = Ok s -> iso_or_null e = Ok t -> s = t <-> d = e.
Proof.
  destruct d as [[d|]|], e as [[e|]|]; cbn; intros; simplify_eq; try naive_solver.
  split; [intros [= ->%iso_text_inj]; done | congruence].
Qed.

Section classifier_lemmas.
Context (isAddress : string -> bool) (getAddress : string -> string).
Notation normalize := (normalizeAddressOrNull isAddress getAddress).
Notation classify := (classifyDrifts isAddress getAddress).

(** Both texts normalise to one and the same address. *)
Definition same_party (a b : string) : Prop :=
  exists n, truthy n = true /\ normalize a = Some n /\ normalize b = Some n.

Lemma same_party_checks a b :
  same_party a b <->
  usable (normalize a) = true /\ usable (normalize b) = true /\
  participants_differ (normalize a) (normalize b) = false.
Proof.
  unfold same_party. destruct (normalize a) as [x|], (normalize b) as [y|]; cbn.
  2-4: split; [intros (n & ? & ? & ?); congruence | intros (? & ? & ?); congruence].
  split.
  - intros (n & Hn & [= ->] & [= ->]). rewrite Hn. by rewrite String.eqb_refl.
  - intros (Hx & Hy & H). rewrite Hx, Hy in H. cbn in H.
    apply negb_false_iff, String.eqb_eq in H as ->. by exists x.
Qed.

Record agrees (ix : IndexedTradeRecord) (t : Trade) : Prop := {
  ag_status : ix_status ix = statusLabel (t_status t);
  ag_buyer : same_party (ix_buyer ix) (t_buyer t);
  ag_supplier : same_party (ix_supplier ix) (t_supplier t);
  ag_amounts : amounts_agree ix t;
  ag_fees : fees_split ix;
  ag_hash : toLowerCase (ix_ricardianHash ix) = toLowerCase (t_ricardianHash t);
  ag_arrival : ix_arrivalTimestamp ix = t_arrivalTimestamp t;
  ag_arrival_valid : t_arrivalTimestamp t <> Some None
}.

Lemma iso_or_null_ok d : (exists s, iso_or_null d = Ok s) <-> d <> Some None.
Proof. destruct d as [[d|]|]; cbn; naive_solver. Qed.

(** A successful classification of a trade that was read, piece by piece. *)
Lemma classify_read ix t err fs :
  has_error err = false -> isZeroAddress isAddress getAddress (t_buyer t) = false ->
  classify ix (Some t) err = Ok fs <->
  exists fees o i, compareFeeComponents ix = Ok fees /\
    iso_or_null (t_arrivalTimestamp t) = Ok o /\ iso_or_null (ix_arrivalTimestamp ix) = Ok i /\
    fs = (push_if (negb (String.eqb (statusLabel (t_status t)) (ix_status ix)))
            (finding (ix_tradeId ix) HIGH STATUS_MISMATCH "status" (Some (statusLabel (t_status t)))
               (Some (ix_status ix))) ++
          (push_if (negb (usable (normalize (ix_buyer ix))))
             (invalidAddressFinding (ix_tradeId ix) src_indexed "buyer" (ix_buyer ix)) ++
           push_if (negb (usable (normalize (ix_supplier ix))))
             (invalidAddressFinding (ix_tradeId ix) src_indexed "supplier" (ix_supplier ix)) ++
           push_if (negb (usable (normalize (t_buyer t))))
             (invalidAddressFinding (ix_tradeId ix) src_onchain "buyer" (t_buyer t)) ++
           push_if (negb (usable (normalize (t_supplier t))))
             (invalidAddressFinding (ix_tradeId ix) src_onchain "supplier" (t_supplier t))) ++
          (push_if (participants_differ (normalize (ix_buyer ix)) (normalize (t_buyer t)))
             (finding (ix_tradeId ix) CRITICAL PARTICIPANT_MISMATCH "buyer" (Some (t_buyer t))
                (Some (ix_buyer ix))) ++
           push_if (participants_differ (normalize (ix_supplier ix)) (normalize (t_supplier t)))
             (finding (ix_tradeId ix) CRITICAL PARTICIPANT_MISMATCH "supplier"
                (Some (t_supplier t)) (Some (ix_supplier ix)))) ++
          compareAmounts ix t ++ fees ++
          push_if (negb (String.eqb (toLowerCase (t_ricardianHash t))
                           (toLowerCase (ix_ricardianHash ix))))
            (finding (ix_tradeId ix) CRITICAL HASH_MISMATCH "ricardianHash"
               (Some (t_ricardianHash t)) (Some (ix_ricardianHash ix))) ++
          push_if (negb (bool_decide (o = i)))
            (finding (ix_tradeId ix) MEDIUM ARRIVAL_TIMESTAMP_MISMATCH "arrivalTimestamp" o i))%list.
Proof.
  intros He Hz. unfold classifyDrifts. rewrite He, Hz. split.
  - intros H. apply bind_ok in H as (fees & Hf & H). apply bind_ok in H as (o & Ho & H).
    apply bind_ok in H as (i & Hi & H). injection H as <-. by exists fees, o, i.
  - intros (fees & o & i & -> & -> & -> & ->). done.
Qed.

(** The read side of the classifier, with nothing found. *)
Lemma classify_silent_spec ix onchain err :
  classify ix onchain err = Ok [] <->
  has_error err = false /\ exists t, onchain = Some t /\
    isZeroAddress isAddress getAddress (t_buyer t) = false /\ agrees ix t.
Proof.
  destruct (has_error err) eqn:He.
  { unfold classifyDrifts. rewrite He. split; [done | by intros [? _]]. }
  destruct onchain as [t|].
  2: { unfold classifyDrifts. rewrite He. split; [done | by intros (_ & ? & ? & _)]. }
  destruct (isZeroAddress isAddress getAddress (t_buyer t)) eqn:Hz.
  { unfold classifyDrifts. rewrite He, Hz. split; [done | intros (_ & ? & [= <-] & ? & _); congruence]. }
  rewrite classify_read by done. split.
  - intros (fees & o & i & Hf & Ho & Hi & Hnil). split; [done|]. exists t. split_and!; [done..|].
    symmetry in Hnil. rewrite !app_nil in Hnil. rewrite !push_if_nil, compareAmounts_nil in Hnil.
    destruct Hnil as (Hst & (Hb & Hs & Hb' & Hs') & (Hpb & Hps) & Ham & -> & Hh & Har).
    reflect_bools. apply compareFeeComponents_nil in Hf. split; try done.
    + by apply same_party_checks.
    + by apply same_party_checks.
    + symmetry. by eapply (iso_or_null_inj _ _ _ _ Ho Hi).
    + apply iso_or_null_ok. eauto.
  - intros (_ & t' & [= <-] & _ & [Hst Hb Hs Ham Hf Hh Har Hv]).
    apply iso_or_null_ok in Hv as [o Ho]. rewrite Har. exists [], o, o.
    split_and!; [by apply compareFeeComponents_nil | done | done |].
    apply same_party_checks in Hb as (-> & -> & ->). apply same_party_checks in Hs as (-> & -> & ->).
    apply compareAmounts_nil in Ham as ->. rewrite Hst, Hh, !String.eqb_refl.
    by rewrite bool_decide_true.
Qed.

(** The classifier is silent exactly on agreement: it reports nothing if and
    only if the chain read succeeded, the trade exists, and the indexed record
    agrees with it in status, both parties (as addresses), all five amounts, the
    split of the platform fee, the agreement hash and the arrival time. *)
Theorem classify_silent_iff_agrees ix onchain err :
  classify ix onchain err = Ok [] <->
  has_error err = false /\ exists t, onchain = Some t /\
    isZeroAddress isAddress getAddress (t_buyer t) = false /\ agrees ix t.
Proof. exact (classify_silent_spec ix onchain err). Qed.

End classifier_lemmas.

(** ** Lemmas: containment *)

(** The qualifying findings about one trade, and their codes in first-seen order. *)
Definition qualifying_of (id : string) (fs : list DriftFinding) : list DriftFinding :=
  List.filter (fun f => isQualifyingDiscrepancy f && String.eqb (df_tradeId f) id) fs.

Definition add_code (codes : list DriftCode) (f : DriftFinding) : list DriftCode :=
  if includes codes (df_mismatchCode f) then codes else (codes ++ [df_mismatchCode f])%list.

Definition discrepancy_of (id : string) (fs : list DriftFinding) : option QualifiedDiscrepancy :=
  match qualifying_of id fs with
  | [] => None
  | q => Some {| qd_tradeId := id; qd_codes := foldl add_code [] q; qd_findings := q |}
  end.

Lemma qualifying_of_snoc id fs f :
  qualifying_of id (fs ++ [f]) =
  (qualifying_of id fs ++
   if isQualifyingDiscrepancy f && String.eqb (df_tradeId f) id then [f] else [])%list.
Proof. unfold qualifying_of. rewrite List.filter_app. simpl. by destruct (_ && _). Qed.

Lemma qualify_fold fs :
  NoDup (map_keys (foldl qualify_step [] fs)) /\
  forall id, map_get id (foldl qualify_step [] fs) = discrepancy_of id fs.
Proof.
  induction fs as [|f fs [Hn Hg]] using rev_ind; [by split; [constructor|]|].
  rewrite foldl_snoc. unfold qualify_step at 1 3.
  destruct (isQualifyingDiscrepancy f) eqn:Hq; cbn [negb].
  2: { split; [done|]. intros id. rewrite Hg. unfold discrepancy_of.
       rewrite qualifying_of_snoc, Hq. cbn. by rewrite app_nil_r. }
  split.
  - destruct (map_get _ _); by apply map_set_NoDup.
  - intros id. rewrite Hg. unfold discrepancy_of at 2. rewrite qualifying_of_snoc, Hq. cbn [andb].
    unfold discrepancy_of at 1.
    destruct (String.eqb (df_tradeId f) id) eqn:E.
    + apply String.eqb_eq in E as ->.
      destruct (qualifying_of id fs) as [|g q] eqn:Hfs; cbn [app]; rewrite map_get_set; [done|].
      cbn [qd_tradeId qd_codes qd_findings]. f_equal. f_equal.
      change (g :: q ++ [f])%list with ((g :: q) ++ [f])%list. by rewrite foldl_snoc.
    + rewrite app_nil_r. apply String.eqb_neq in E.
      destruct (qualifying_of (df_tradeId f) fs); rewrite map_get_set_ne by done; apply Hg.
Qed.

Lemma qualifyDiscrepancies_elem q fs :
  q ∈ qualifyDiscrepancies fs <-> exists id, discrepancy_of id fs = Some q.
Proof.
  unfold qualifyDiscrepancies. destruct (qualify_fold fs) as [Hn Hg].
  rewrite map_values_elem by done. by setoid_rewrite Hg.
Qed.

Lemma add_codes_elem c q codes :
  c ∈ foldl add_code codes q <-> c ∈ codes \/ exists f, f ∈ q /\ df_mismatchCode f = c.
Proof.
  revert codes. induction q as [|f q IH]; intros codes; simpl.
  - split; [by left|]. intros [?|(f & ?%not_elem_of_nil & _)]; done.
  - rewrite IH. setoid_rewrite elem_of_cons. unfold add_code.
    destruct (includes codes (df_mismatchCode f)) eqn:E.
    + apply includes_true in E. naive_solver.
    + rewrite elem_of_app, list_elem_of_singleton. naive_solver.
Qed.

Lemma discrepancy_spec id fs q :
  discrepancy_of id fs = Some q ->
  qd_tradeId q = id /\ qd_findings q = qualifying_of id fs /\ qd_findings q <> [] /\
  forall c, c ∈ qd_codes q <-> exists f, f ∈ qd_findings q /\ df_mismatchCode f = c.
Proof.
  unfold discrepancy_of. destruct (qualifying_of id fs) as [|f l] eqn:E; [done|].
  intros [= <-]. cbn [qd_tradeId qd_codes qd_findings]. split_and!; [done..|].
  intros c. pose proof (add_codes_elem c (f :: l) []) as Hc. rewrite Hc.
  split; [intros [?%not_elem_of_nil|?]; done | by right].
Qed.

Lemma discrepancy_some fs f :
  f ∈ fs -> isQualifyingDiscrepancy f = true ->
  exists q, discrepancy_of (df_tradeId f) fs = Some q.
Proof.
  intros Hf Hq. unfold discrepancy_of.
  assert (In f (qualifying_of (df_tradeId f) fs)) as Hin.
  { apply filter_In. rewrite Hq, String.eqb_refl. split; [by apply list_elem_of_In|done]. }
  destruct (qualifying_of _ fs); [done | eauto].
Qed.

Lemma clean_ids_elem ids fs id :
  id ∈ cleanlyReconciledTradeIds ids fs <-> id ∈ ids /\ id ∉ map df_tradeId fs.
Proof.
  unfold cleanlyReconciledTradeIds.
  assert (forall acc, id ∈ foldl (fun clean tradeId =>
           if includes (map df_tradeId fs) tradeId then clean
           else if includes clean tradeId then clean else (clean ++ [tradeId])%list) acc ids <->
         id ∈ acc \/ (id ∈ ids /\ id ∉ map df_tradeId fs)) as H.
  { induction ids as [|x ids IH]; intros acc; cbn [foldl].
    - split; [by left|]. intros [?|[?%not_elem_of_nil _]]; done.
    - rewrite IH, elem_of_cons. destruct (includes (map df_tradeId fs) x) eqn:E1.
      + apply includes_true in E1. naive_solver.
      + apply includes_false in E1. destruct (includes acc x) eqn:E2.
        * apply includes_true in E2. naive_solver.
        * rewrite elem_of_app, list_elem_of_singleton. naive_solver. }
  rewrite H. split; [intros [?%not_elem_of_nil|?]; done | by right].
Qed.

(** A disagreement about money, parties or contract text. *)
Inductive financial_drift (isAddress : string -> bool) (getAddress : string -> string)
    (ix : IndexedTradeRecord) (t : Trade) : Prop :=
| drift_absent : isZeroAddress isAddress getAddress (t_buyer t) = true ->
    financial_drift isAddress getAddress ix t
| drift_amount : ~ amounts_agree ix t -> financial_drift isAddress getAddress ix t
| drift_fees : ~ fees_split ix -> financial_drift isAddress getAddress ix t
| drift_hash : toLowerCase (ix_ricardianHash ix) <> toLowerCase (t_ricardianHash t) ->
    financial_drift isAddress getAddress ix t
| drift_party a b n m :
    (a, b) = (ix_buyer ix, t_buyer t) \/ (a, b) = (ix_supplier ix, t_supplier t) ->
    normalizeAddressOrNull isAddress getAddress a = Some n ->
    normalizeAddressOrNull isAddress getAddress b = Some m ->
    truthy n = true -> truthy m = true -> n <> m -> financial_drift isAddress getAddress ix t.

Lemma compareAmounts_codes ix t f :
  f ∈ compareAmounts ix t -> df_mismatchCode f = AMOUNT_MISMATCH /\ df_tradeId f = ix_tradeId ix.
Proof.
  unfold compareAmounts. rewrite list_elem_of_omap. intros ([[field o] i] & _ & H).
  destruct (negb (o =? i)); [|done]. by injection H as <-.
Qed.

Lemma compareFee_codes ix fs f :
  compareFeeComponents ix = Ok fs -> f ∈ fs ->
  df_mismatchCode f = FEE_COMPONENT_MISMATCH /\ df_tradeId f = ix_tradeId ix.
Proof.
  unfold compareFeeComponents. intros H. apply bind_ok in H as (e & _ & H).
  destruct (_ && _); injection H as <-; [by intros ?%not_elem_of_nil|].
  by intros ->%list_elem_of_singleton.
Qed.

Lemma Forall_push_if P c f : P f -> Forall P (push_if c f).
Proof. intros H. destruct c; [by apply Forall_singleton | by apply Forall_nil]. Qed.

(** Every finding of a comparison is about the compared trade. *)
Lemma classify_about isAddress getAddress ix o err fs f :
  classifyDrifts isAddress getAddress ix o err = Ok fs -> f ∈ fs -> df_tradeId f = ix_tradeId ix.
Proof.
  intros H. revert f. apply Forall_forall.
  assert (forall x, Ok (E:=string) [finding (ix_tradeId ix) CRITICAL ONCHAIN_TRADE_MISSING "tradePresence" None x]
    = Ok fs -> Forall (fun f => df_tradeId f = ix_tradeId ix) fs) as Hmiss
    by (intros ? [= <-]; by apply Forall_singleton).
  destruct (has_error err) eqn:He.
  { unfold classifyDrifts in H. rewrite He in H. injection H as <-. by apply Forall_singleton. }
  destruct o as [t|]; [|unfold classifyDrifts in H; rewrite He in H; by eapply Hmiss].
  destruct (isZeroAddress isAddress getAddress (t_buyer t)) eqn:Hz;
    [unfold classifyDrifts in H; rewrite He, Hz in H; by eapply Hmiss|].
  apply classify_read in H as (fees & o & i & Hf & _ & _ & ->); [|done..].
  repeat first [apply Forall_app_2 | by apply Forall_push_if].
  - apply Forall_forall. by intros f [_ ?]%compareAmounts_codes.
  - apply Forall_forall. by intros f [_ ?]%(compareFee_codes _ _ _ Hf).
Qed.

(** Some finding of the classification qualifies. *)
Lemma financial_drift_finding isAddress getAddress ix t err fs :
  has_error err = false -> classifyDrifts isAddress getAddress ix (Some t) err = Ok fs ->
  financial_drift isAddress getAddress ix t ->
  exists f, f ∈ fs /\ isQualifyingDiscrepancy f = true /\ df_tradeId f = ix_tradeId ix.
Proof.
  intros He Hc Hd. destruct (isZeroAddress isAddress getAddress (t_buyer t)) eqn:Hz.
  { unfold classifyDrifts in Hc. rewrite He, Hz in Hc. injection Hc as <-.
    eexists. split; [left|]. done. }
  apply classify_read in Hc as (fees & o & i & Hf & _ & _ & ->); [|done..].
  destruct Hd as [?|Ha|Hfee|Hh|a b n m Hab Hn Hm Htn Htm Hne]; [congruence|..].
  - destruct (compareAmounts ix t) as [|f l] eqn:E; [by apply compareAmounts_nil in E|].
    destruct (compareAmounts_codes ix t f) as [Hcode Hid]; [rewrite E; left|].
    exists f. split_and!; [|unfold isQualifyingDiscrepancy; by rewrite Hcode|done].
    rewrite !elem_of_app. do 3 right. left. left.
  - destruct fees as [|f l]; [by apply compareFeeComponents_nil in Hf|].
    destruct (compareFee_codes _ _ f Hf) as [Hcode Hid]; [left|].
    exists f. split_and!; [|unfold isQualifyingDiscrepancy; by rewrite Hcode|done].
    rewrite !elem_of_app. do 4 right. left. left.
  - eexists. split; [rewrite !elem_of_app; do 5 right; left; apply push_if_elem; split;
      [|reflexivity] | done].
    apply negb_true_iff, String.eqb_neq. congruence.
  - assert (participants_differ (normalizeAddressOrNull isAddress getAddress a)
              (normalizeAddressOrNull isAddress getAddress b) = true) as Hp.
    { rewrite Hn, Hm. cbn. rewrite Htn, Htm. cbn. apply negb_true_iff, String.eqb_neq. congruence. }
    destruct Hab as [[= -> ->]|[= -> ->]]; eexists;
      (split; [rewrite !elem_of_app; do 2 right; left; [left + right; apply push_if_elem; split;
      [exact Hp|reflexivity]] | done]).
Qed.

(** Containment is complete: when a run compared a trade and any of its
    amounts, its fee split, its parties or its agreement hash disagree (or the
    trade does not exist on chain), then in the run's published findings that
    trade is qualified for containment exactly once, carrying all of its
    qualifying findings, and it is not among the trades the run vouches for. *)
Theorem financial_drift_is_contained isAddress getAddress ix t err fs all compared :
  has_error err = false ->
  classifyDrifts isAddress getAddress ix (Some t) err = Ok fs ->
  financial_drift isAddress getAddress ix t ->
  (forall f, f ∈ fs -> f ∈ all) ->
  (exists q, q ∈ qualifyDiscrepancies all /\ qd_tradeId q = ix_tradeId ix /\
     qd_findings q = List.filter (fun f => isQualifyingDiscrepancy f &&
                                    String.eqb (df_tradeId f) (ix_tradeId ix)) all /\
     (forall c, c ∈ qd_codes q <-> exists f, f ∈ qd_findings q /\ df_mismatchCode f = c) /\
     forall q', q' ∈ qualifyDiscrepancies all -> qd_tradeId q' = ix_tradeId ix -> q' = q) /\
  ix_tradeId ix ∉ cleanlyReconciledTradeIds compared all.
Proof.
  intros He Hc Hd Hall.
  destruct (financial_drift_finding _ _ _ _ _ _ He Hc Hd) as (f & Hf & Hq & Hid).
  apply Hall in Hf. split.
  - destruct (discrepancy_some _ _ Hf Hq) as [q Hqs]. rewrite Hid in Hqs. exists q.
    destruct (discrepancy_spec _ _ _ Hqs) as (H1 & H2 & _ & H3).
    split_and!; [apply qualifyDiscrepancies_elem; eauto | done | done | done |].
    intros q' [id' Hq']%qualifyDiscrepancies_elem Ht.
    destruct (discrepancy_spec _ _ _ Hq') as (H1' & _). congruence.
  - rewrite clean_ids_elem. intros [_ H]. apply H. rewrite <- Hid. by apply list_elem_of_fmap_2.
Qed.

(** ** A sample trade *)

Definition sample_address (c : ascii) : string := "0x" ++ repeat_char 40 c.

Definition sample_trade (amount : Z) : Trade :=
  {| t_tradeId := "7"; t_buyer := sample_address "a"; t_supplier := sample_address "b";
     t_status := IN_TRANSIT; t_totalAmountLocked := amount; t_logisticsAmount := 10;
     t_platformFeesAmount := 5000000; t_supplierFirstTranche := 20; t_supplierSecondTranche := 30;
     t_ricardianHash := "0xff"; t_createdAt := Some 1700000000000;
     t_arrivalTimestamp := Some (Some 1700000500000) |}.

Definition sample_indexed : IndexedTradeRecord :=
  {| ix_tradeId := "7"; ix_buyer := sample_address "A"; ix_supplier := sample_address "b";
     ix_status := "IN_TRANSIT"; ix_totalAmountLocked := 100; ix_logisticsAmount := 10;
     ix_platformFeesAmount := 5000000; ix_platformFeeNetAmount := 1000000;
     ix_settlementSupportFeeAmount := 4000000; ix_supplierFirstTranche := 20;
     ix_supplierSecondTranche := 30; ix_ricardianHash := "0xFF";
     ix_createdAt := Some 1700000000000; ix_arrivalTimestamp := Some (Some 1700000500000) |}.

(** Addresses as [ethers] accepts them when all letters have one case. *)
Definition sample_isAddress (s : string) : bool := hex_word 40 s.
Definition sample_getAddress (s : string) : string := toLowerCase s.

Example sample_agrees :
  classifyDrifts sample_isAddress sample_getAddress sample_indexed (Some (sample_trade 100)) None
  = Ok [].
Proof. reflexivity. Qed.

Lemma financial_drift_is_contained_witness :
  exists fs,
    classifyDrifts sample_isAddress sample_getAddress sample_indexed (Some (sample_trade 101)) None
      = Ok fs /\
    (exists q, q ∈ qualifyDiscrepancies fs /\ qd_tradeId q = "7") /\
    "7" ∉ cleanlyReconciledTradeIds ["7"; "8"] fs.
Proof.
  eexists. split; [vm_compute; reflexivity|].
  edestruct (financial_drift_is_contained sample_isAddress sample_getAddress sample_indexed
    (sample_trade 101) None) with (all := [amount_finding "7" "totalAmountLocked" 101 100])
    (compared := ["7"; "8"]) as [(q & Hq & Hid & _) Hclean].
  - reflexivity.
  - vm_compute. reflexivity.
  - apply drift_amount. intros (H & _). vm_compute in H. discriminate.
  - intros f Hf. exact Hf.
  - split; [exists q; split; [exact Hq | exact Hid] | exact Hclean].
Defined.
