(* ===== verification/ReconDb.v ===== *)
(** The reconciliation store: run rows with their leases
    ([reconciliation/src/database/leases.ts]), enumeration cycles
    ([enumerationCycles.ts]), published drift and the coverage cursor
    ([queries.ts]).

    Every SQL statement is a function on the tables; a statement inside a
    transaction that throws leaves no trace, so a transaction is a function into
    [result].  [NOW()] is the argument [now].  Numeric columns read back as text
    are integers here.  Lease audit events, alert outbox rows and containment
    rows are separate tables nothing below reads. *)
From stdpp Require Import base list strings gmap.
From S2P Require Import Prelude JsText JsDate JsMap ReconTypes ReconCoverage.

Open Scope string_scope.
Open Scope Z_scope.

Inductive ReconcileMode := ONCE | DAEMON.

Inductive ReconcileRunStatus := RUNNING | COMPLETED | FAILED | SKIPPED | ABANDONED.

#[export] Instance ReconcileRunStatus_eq_dec : EqDecision ReconcileRunStatus.
Proof. solve_decision. Defined.

Record SeverityCounts := { n_critical : Z; n_high : Z; n_medium : Z; n_low : Z }.

Definition DEFAULT_SEVERITY_COUNTS : SeverityCounts :=
  {| n_critical := 0; n_high := 0; n_medium := 0; n_low := 0 |}.

Definition count_severity (s : DriftSeverity) (c : SeverityCounts) : SeverityCounts :=
  match s with
  | CRITICAL => {| n_critical := n_critical c + 1; n_high := n_high c;
                   n_medium := n_medium c; n_low := n_low c |}
  | HIGH => {| n_critical := n_critical c; n_high := n_high c + 1;
               n_medium := n_medium c; n_low := n_low c |}
  | MEDIUM => {| n_critical := n_critical c; n_high := n_high c;
                 n_medium := n_medium c + 1; n_low := n_low c |}
  | LOW => {| n_critical := n_critical c; n_high := n_high c;
              n_medium := n_medium c; n_low := n_low c + 1 |}
  end.

(** The coverage part of a run's statistics. *)
Record RunCoverage := {
  rc_boundary : CoverageBoundary;
  rc_window : CoverageWindow;
  rc_fromBlock : Z;
  rc_indexerTradeCount : option Z;
  rc_sla : CoverageSlaVerdict;
  rc_cursorAdvanced : bool;
  rc_nextCursor : Z;
  rc_sweepReset : bool;
  rc_indexerEnumerationTruncated : bool;
  rc_indexerEnumerationWalked : Z;
  rc_enumerationCycleId : string;
  rc_indexerSourceCoherent : bool;
  rc_indexerEnumerationExpected : Z;
  rc_complete : bool
}.

Record RunStats := {
  st_status : ReconcileRunStatus;
  st_totalTrades : Z;
  st_driftCount : Z;
  st_severityCounts : SeverityCounts;
  st_coverage : option RunCoverage
}.

Record ReconcileRunRow := {
  rr_id : Z;
  rr_mode : ReconcileMode;
  rr_status : ReconcileRunStatus;
  rr_started_at : Z;
  rr_completed_at : option Z;
  rr_error_message : option string;
  rr_lease_owner : option string;
  rr_lease_epoch : Z;
  rr_lease_acquired_at : option Z;
  rr_lease_heartbeat_at : option Z;
  rr_lease_expires_at : option Z;
  rr_abandoned_at : option Z;
  rr_abandoned_owner : option string;
  rr_takeover_count : Z;
  rr_stats : option RunStats;
  rr_coverage_cycle_id : option string
}.

Record EnumerationCycle := {
  ec_id : string;
  ec_source_identity : string;
  ec_anchor_block : Z;
  ec_anchor_hash : string;
  ec_chain_counter : Z;
  ec_chain_cursor : Z;
  ec_expected_count : Z;
  ec_upper_id : option string;
  ec_after_id : option string;
  ec_walked : Z;
  ec_generation : Z;
  ec_exhausted : bool;
  ec_coherent : bool;
  ec_finished : bool
}.

Record IdentityRecord := { ir_id : string; ir_tradeId : string }.

Record IdentityPage := {
  ip_records : list IdentityRecord;
  ip_nextId : option string;
  ip_exhausted : bool
}.

(** Rows of [reconcile_enumeration_members], [reconcile_run_trades],
    [reconcile_drifts] and [reconcile_cursors]. *)
Record MemberRow := { mb_cycle_id : string; mb_physical_id : string; mb_trade_id : string }.
Record ScopeRow := { sc_run_key : string; sc_trade_id : string }.
Record DriftRow := { dr_run_key : string; dr_finding : DriftFinding; dr_occurrences : Z }.

Record CursorRow := {
  cu_last_trade_id : Z;
  cu_boundary_block_number : Z;
  cu_boundary_block_hash : string;
  cu_tail_first_seen_at : option Z
}.

Record recon_db := {
  reconcile_runs : gmap string ReconcileRunRow;
  enumeration_cycles : list EnumerationCycle;
  enumeration_members : list MemberRow;
  reconcile_run_trades : list ScopeRow;
  reconcile_drifts : list DriftRow;
  reconcile_cursor : option CursorRow
}.

Definition empty_recon_db : recon_db :=
  {| reconcile_runs := ∅; enumeration_cycles := []; enumeration_members := [];
     reconcile_run_trades := []; reconcile_drifts := []; reconcile_cursor := None |}.

Definition with_runs (runs : gmap string ReconcileRunRow) (d : recon_db) : recon_db :=
  {| reconcile_runs := runs; enumeration_cycles := enumeration_cycles d;
     enumeration_members := enumeration_members d;
     reconcile_run_trades := reconcile_run_trades d; reconcile_drifts := reconcile_drifts d;
     reconcile_cursor := reconcile_cursor d |}.

Definition with_cycles (cycles : list EnumerationCycle) (d : recon_db) : recon_db :=
  {| reconcile_runs := reconcile_runs d; enumeration_cycles := cycles;
     enumeration_members := enumeration_members d;
     reconcile_run_trades := reconcile_run_trades d; reconcile_drifts := reconcile_drifts d;
     reconcile_cursor := reconcile_cursor d |}.

Definition with_members (members : list MemberRow) (d : recon_db) : recon_db :=
  {| reconcile_runs := reconcile_runs d; enumeration_cycles := enumeration_cycles d;
     enumeration_members := members;
     reconcile_run_trades := reconcile_run_trades d; reconcile_drifts := reconcile_drifts d;
     reconcile_cursor := reconcile_cursor d |}.

Definition with_scope (scope : list ScopeRow) (d : recon_db) : recon_db :=
  {| reconcile_runs := reconcile_runs d; enumeration_cycles := enumeration_cycles d;
     enumeration_members := enumeration_members d;
     reconcile_run_trades := scope; reconcile_drifts := reconcile_drifts d;
     reconcile_cursor := reconcile_cursor d |}.

Definition with_drifts (drifts : list DriftRow) (d : recon_db) : recon_db :=
  {| reconcile_runs := reconcile_runs d; enumeration_cycles := enumeration_cycles d;
     enumeration_members := enumeration_members d;
     reconcile_run_trades := reconcile_run_trades d; reconcile_drifts := drifts;
     reconcile_cursor := reconcile_cursor d |}.

Definition with_cursor (cursor : option CursorRow) (d : recon_db) : recon_db :=
  {| reconcile_runs := reconcile_runs d; enumeration_cycles := enumeration_cycles d;
     enumeration_members := enumeration_members d;
     reconcile_run_trades := reconcile_run_trades d; reconcile_drifts := reconcile_drifts d;
     reconcile_cursor := cursor |}.

(** ** Leases *)

Record RunLeaseIdentity := { ls_runKey : string; ls_owner : string; ls_epoch : Z }.

(** [COALESCE(lease_expires_at, started_at + ttl) <= NOW()] *)
Definition expiryPredicate (ttlMs now : Z) (row : ReconcileRunRow) : bool :=
  default (rr_started_at row + ttlMs) (rr_lease_expires_at row) <=? now.

Definition LIVE_LEASE_PREDICATE (now : Z) (row : ReconcileRunRow) : bool :=
  match rr_lease_expires_at row with Some e => now <? e | None => false end.

(** [lease_owner = $2 AND lease_epoch = $3] *)
Definition lease_matches (lease : RunLeaseIdentity) (row : ReconcileRunRow) : bool :=
  bool_decide (rr_lease_owner row = Some (ls_owner lease)) && (rr_lease_epoch row =? ls_epoch lease).

Inductive RunClaim :=
| Claimed (lease : RunLeaseIdentity) (takeoverFrom : option string)
| AlreadyCompleted
| LeaseHeld.

Definition fresh_run (id : Z) (mode : ReconcileMode) (owner : string) (ttlMs now : Z)
    : ReconcileRunRow :=
  {| rr_id := id; rr_mode := mode; rr_status := RUNNING; rr_started_at := now;
     rr_completed_at := None; rr_error_message := None; rr_lease_owner := Some owner;
     rr_lease_epoch := 1; rr_lease_acquired_at := Some now; rr_lease_heartbeat_at := Some now;
     rr_lease_expires_at := Some (now + ttlMs); rr_abandoned_at := None;
     rr_abandoned_owner := None; rr_takeover_count := 0; rr_stats := None;
     rr_coverage_cycle_id := None |}.

(** [COALESCE(lease_owner, abandoned_owner)] *)
Definition coalesce {A} (a b : option A) : option A := match a with Some _ => a | None => b end.

Definition taken_over (owner : string) (ttlMs now : Z) (row : ReconcileRunRow) : ReconcileRunRow :=
  {| rr_id := rr_id row; rr_mode := rr_mode row; rr_status := RUNNING;
     rr_started_at := rr_started_at row; rr_completed_at := None; rr_error_message := None;
     rr_lease_owner := Some owner; rr_lease_epoch := rr_lease_epoch row + 1;
     rr_lease_acquired_at := Some now; rr_lease_heartbeat_at := Some now;
     rr_lease_expires_at := Some (now + ttlMs);
     rr_abandoned_at := if bool_decide (rr_status row = RUNNING) then Some now
                        else rr_abandoned_at row;
     rr_abandoned_owner := coalesce (rr_lease_owner row) (rr_abandoned_owner row);
     rr_takeover_count := rr_takeover_count row + 1; rr_stats := rr_stats row;
     rr_coverage_cycle_id := rr_coverage_cycle_id row |}.

Definition claimable (ttlMs now : Z) (row : ReconcileRunRow) : bool :=
  negb (bool_decide (rr_status row = COMPLETED)) &&
  (negb (bool_decide (rr_status row = RUNNING)) || expiryPredicate ttlMs now row).

(** [id] is the serial of the inserted row. *)
Definition claimRun (runKey : string) (mode : ReconcileMode) (owner : string) (ttlMs now id : Z)
    (d : recon_db) : recon_db * RunClaim :=
  match reconcile_runs d !! runKey with
  | None =>
      (with_runs (<[runKey := fresh_run id mode owner ttlMs now]> (reconcile_runs d)) d,
       Claimed {| ls_runKey := runKey; ls_owner := owner; ls_epoch := 1 |} None)
  | Some row =>
      if claimable ttlMs now row then
        let taken := taken_over owner ttlMs now row in
        (with_runs (<[runKey := taken]> (reconcile_runs d)) d,
         Claimed {| ls_runKey := runKey; ls_owner := owner; ls_epoch := rr_lease_epoch taken |}
           (rr_abandoned_owner taken))
      else (d, if bool_decide (rr_status row = COMPLETED) then AlreadyCompleted else LeaseHeld)
  end.

Definition with_lease (owner : option string) (heartbeat expires : option Z)
    (status : ReconcileRunStatus) (abandoned_at : option Z) (abandoned_owner : option string)
    (row : ReconcileRunRow) : ReconcileRunRow :=
  {| rr_id := rr_id row; rr_mode := rr_mode row; rr_status := status;
     rr_started_at := rr_started_at row; rr_completed_at := rr_completed_at row;
     rr_error_message := rr_error_message row; rr_lease_owner := owner;
     rr_lease_epoch := rr_lease_epoch row; rr_lease_acquired_at := rr_lease_acquired_at row;
     rr_lease_heartbeat_at := heartbeat; rr_lease_expires_at := expires;
     rr_abandoned_at := abandoned_at; rr_abandoned_owner := abandoned_owner;
     rr_takeover_count := rr_takeover_count row; rr_stats := rr_stats row;
     rr_coverage_cycle_id := rr_coverage_cycle_id row |}.

(** [UPDATE reconcile_runs SET ... WHERE run_key = $1 AND guard]; reports
    whether a row matched. *)
Definition update_run (key : string) (guard : ReconcileRunRow -> bool)
    (f : ReconcileRunRow -> ReconcileRunRow) (d : recon_db) : recon_db * bool :=
  match reconcile_runs d !! key with
  | Some row => if guard row then (with_runs (<[key := f row]> (reconcile_runs d)) d, true)
                else (d, false)
  | None => (d, false)
  end.

Definition heartbeatLease (lease : RunLeaseIdentity) (ttlMs now : Z) (d : recon_db)
    : recon_db * bool :=
  update_run (ls_runKey lease)
    (fun row => lease_matches lease row && bool_decide (rr_status row = RUNNING) &&
                LIVE_LEASE_PREDICATE now row)
    (fun row => with_lease (rr_lease_owner row) (Some now) (Some (now + ttlMs)) (rr_status row)
                  (rr_abandoned_at row) (rr_abandoned_owner row) row) d.

(** The fence of the finalizing transaction. *)
Definition assertLeaseHeld (lease : RunLeaseIdentity) (now : Z) (d : recon_db)
    : result string unit :=
  match reconcile_runs d !! ls_runKey lease with
  | Some row => if lease_matches lease row && LIVE_LEASE_PREDICATE now row then Ok tt
                else Err "Reconciliation lease lost"
  | None => Err "Reconciliation lease lost"
  end.

Definition releaseLease (lease : RunLeaseIdentity) (d : recon_db) : recon_db * bool :=
  update_run (ls_runKey lease)
    (fun row => lease_matches lease row && negb (bool_decide (rr_status row = RUNNING)))
    (fun row => with_lease None (rr_lease_heartbeat_at row) None (rr_status row)
                  (rr_abandoned_at row) (rr_abandoned_owner row) row) d.

Definition markAbandonedRuns (ttlMs now : Z) (d : recon_db) : recon_db :=
  with_runs
    ((fun row =>
        if bool_decide (rr_status row = RUNNING) && expiryPredicate ttlMs now row
        then with_lease None (rr_lease_heartbeat_at row) (rr_lease_expires_at row) ABANDONED
               (Some now) (rr_lease_owner row) row
        else row) <$> reconcile_runs d) d.

Definition failRun (lease : RunLeaseIdentity) (errorMessage : string) (now : Z) (d : recon_db)
    : recon_db * bool :=
  update_run (ls_runKey lease)
    (fun row => lease_matches lease row && LIVE_LEASE_PREDICATE now row)
    (fun row =>
       {| rr_id := rr_id row; rr_mode := rr_mode row; rr_status := FAILED;
          rr_started_at := rr_started_at row; rr_completed_at := Some now;
          rr_error_message := Some errorMessage; rr_lease_owner := None;
          rr_lease_epoch := rr_lease_epoch row; rr_lease_acquired_at := rr_lease_acquired_at row;
          rr_lease_heartbeat_at := rr_lease_heartbeat_at row; rr_lease_expires_at := None;
          rr_abandoned_at := rr_abandoned_at row; rr_abandoned_owner := rr_abandoned_owner row;
          rr_takeover_count := rr_takeover_count row; rr_stats := rr_stats row;
          rr_coverage_cycle_id := rr_coverage_cycle_id row |}) d.

(** ** Run rows, drift and the cursor *)

Definition completeRun (runKey : string) (stats : RunStats) (now : Z) (d : recon_db) : recon_db :=
  (update_run runKey (fun _ => true)
    (fun row =>
       {| rr_id := rr_id row; rr_mode := rr_mode row; rr_status := st_status stats;
          rr_started_at := rr_started_at row; rr_completed_at := Some now;
          rr_error_message := rr_error_message row; rr_lease_owner := rr_lease_owner row;
          rr_lease_epoch := rr_lease_epoch row; rr_lease_acquired_at := rr_lease_acquired_at row;
          rr_lease_heartbeat_at := rr_lease_heartbeat_at row;
          rr_lease_expires_at := rr_lease_expires_at row; rr_abandoned_at := rr_abandoned_at row;
          rr_abandoned_owner := rr_abandoned_owner row;
          rr_takeover_count := rr_takeover_count row; rr_stats := Some stats;
          rr_coverage_cycle_id := rr_coverage_cycle_id row |}) d).1.

(** The conflict key of [reconcile_drifts]. *)
Definition same_drift (runKey : string) (f : DriftFinding) (row : DriftRow) : bool :=
  String.eqb (dr_run_key row) runKey &&
  String.eqb (df_tradeId (dr_finding row)) (df_tradeId f) &&
  bool_decide (df_mismatchCode (dr_finding row) = df_mismatchCode f) &&
  String.eqb (df_comparedField (dr_finding row)) (df_comparedField f).

Definition upsertDrift (runKey : string) (f : DriftFinding) (drifts : list DriftRow)
    : list DriftRow :=
  if existsb (same_drift runKey f) drifts then
    map (fun row => if same_drift runKey f row
                    then {| dr_run_key := runKey; dr_finding := f;
                            dr_occurrences := dr_occurrences row + 1 |}
                    else row) drifts
  else (drifts ++ [{| dr_run_key := runKey; dr_finding := f; dr_occurrences := 1 |}])%list.

(** [... ON CONFLICT DO NOTHING] *)
Definition insertDrift (runKey : string) (f : DriftFinding) (drifts : list DriftRow)
    : list DriftRow :=
  if existsb (same_drift runKey f) drifts then drifts
  else (drifts ++ [{| dr_run_key := runKey; dr_finding := f; dr_occurrences := 1 |}])%list.

Definition upsertRunTradeScope (runKey tradeId : string) (scope : list ScopeRow) : list ScopeRow :=
  if existsb (fun row => String.eqb (sc_run_key row) runKey && String.eqb (sc_trade_id row) tradeId)
       scope
  then scope else (scope ++ [{| sc_run_key := runKey; sc_trade_id := tradeId |}])%list.

Definition readCoverageCursor (d : recon_db) : CursorRow :=
  default {| cu_last_trade_id := 0; cu_boundary_block_number := 0; cu_boundary_block_hash := "";
             cu_tail_first_seen_at := None |} (reconcile_cursor d).

Definition advanceCoverageCursor (lastTradeId blockNumber : Z) (blockHash : string)
    (tailFirstSeenAt : option Z) (d : recon_db) : recon_db :=
  with_cursor (Some {| cu_last_trade_id := lastTradeId; cu_boundary_block_number := blockNumber;
                       cu_boundary_block_hash := blockHash;
                       cu_tail_first_seen_at := tailFirstSeenAt |}) d.

(** The inserted row takes the column defaults 0, 0 and the empty text. *)
Definition recordCoverageTailSighting (tailFirstSeenAt : option Z) (d : recon_db) : recon_db :=
  let row := readCoverageCursor d in
  with_cursor (Some {| cu_last_trade_id := cu_last_trade_id row;
                       cu_boundary_block_number := cu_boundary_block_number row;
                       cu_boundary_block_hash := cu_boundary_block_hash row;
                       cu_tail_first_seen_at := tailFirstSeenAt |}) d.

(** ** Enumeration cycles *)

Definition sameCycleSource (cycle : EnumerationCycle) (boundary : CoverageBoundary)
    (source : string) : bool :=
  ec_coherent cycle && String.eqb (ec_source_identity cycle) source &&
  (ec_anchor_block cycle =? cb_blockNumber boundary) &&
  String.eqb (ec_anchor_hash cycle) (toLowerCase (cb_blockHash boundary)) &&
  (ec_chain_counter cycle =? cb_chainTradeCounter boundary).

Definition readActiveEnumerationCycle (d : recon_db) : option EnumerationCycle :=
  List.find (fun c => negb (ec_finished c)) (enumeration_cycles d).

Definition hasEnumerationHistory (d : recon_db) : bool :=
  negb (bool_decide (length (enumeration_cycles d) = 0%nat)).

Definition createEnumerationCycle (boundary : CoverageBoundary) (source : string)
    (upperId : option string) (chainCursor expectedCount : Z) (coherent : bool) (uuid : string)
    (d : recon_db) : result string (recon_db * EnumerationCycle) :=
  match readActiveEnumerationCycle d with
  | Some cycle => Ok (d, cycle)
  | None =>
      let cycle :=
        {| ec_id := uuid; ec_source_identity := source;
           ec_anchor_block := cb_blockNumber boundary;
           ec_anchor_hash := toLowerCase (cb_blockHash boundary);
           ec_chain_counter := cb_chainTradeCounter boundary; ec_chain_cursor := chainCursor;
           ec_expected_count := expectedCount; ec_upper_id := upperId; ec_after_id := None;
           ec_walked := 0; ec_generation := 0; ec_exhausted := false; ec_coherent := coherent;
           ec_finished := false |} in
      Ok (with_cycles (enumeration_cycles d ++ [cycle])%list d, cycle)
  end.

(** [SELECT trade_id, count] over the members of a cycle with the given ids. *)
Definition previousIdentityCounts (cycleId : string) (ids : list string) (d : recon_db)
    : jsmap Z :=
  count_ids [] (map mb_trade_id
    (List.filter (fun m => String.eqb (mb_cycle_id m) cycleId && includes ids (mb_trade_id m))
       (enumeration_members d))).

(** A drift row of a completed run of the cycle. *)
Definition cycle_drift (cycleId : string) (d : recon_db) (row : DriftRow) : bool :=
  match reconcile_runs d !! dr_run_key row with
  | Some r => bool_decide (rr_coverage_cycle_id r = Some cycleId) &&
              bool_decide (rr_status r = COMPLETED)
  | None => false
  end.

Definition priorCycleHasHoldingFindings (cycleId : string) (d : recon_db) : bool :=
  existsb (fun row => holdsCursor (df_mismatchCode (dr_finding row)))
    (List.filter (cycle_drift cycleId d) (reconcile_drifts d)).

Definition advanced_cycle (page : IdentityPage) (coherent : bool) (nextChainCursor : Z)
    (finished : bool) (c : EnumerationCycle) : EnumerationCycle :=
  {| ec_id := ec_id c; ec_source_identity := ec_source_identity c;
     ec_anchor_block := ec_anchor_block c; ec_anchor_hash := ec_anchor_hash c;
     ec_chain_counter := ec_chain_counter c; ec_chain_cursor := nextChainCursor;
     ec_expected_count := ec_expected_count c; ec_upper_id := ec_upper_id c;
     ec_after_id := ip_nextId page; ec_walked := ec_walked c + Z.of_nat (length (ip_records page));
     ec_generation := ec_generation c + 1 + (if finished then 1 else 0);
     ec_exhausted := ip_exhausted page; ec_coherent := ec_coherent c && coherent;
     ec_finished := finished |}.

Definition cycle_matches (cycle c : EnumerationCycle) : bool :=
  String.eqb (ec_id c) (ec_id cycle) && (ec_generation c =? ec_generation cycle) &&
  negb (ec_finished c).

(** [coverage_cycle_id = $2] *)
Definition with_cycle_id (cycleId : string) (row : ReconcileRunRow) : ReconcileRunRow :=
  {| rr_id := rr_id row; rr_mode := rr_mode row; rr_status := rr_status row;
     rr_started_at := rr_started_at row; rr_completed_at := rr_completed_at row;
     rr_error_message := rr_error_message row; rr_lease_owner := rr_lease_owner row;
     rr_lease_epoch := rr_lease_epoch row; rr_lease_acquired_at := rr_lease_acquired_at row;
     rr_lease_heartbeat_at := rr_lease_heartbeat_at row;
     rr_lease_expires_at := rr_lease_expires_at row; rr_abandoned_at := rr_abandoned_at row;
     rr_abandoned_owner := rr_abandoned_owner row; rr_takeover_count := rr_takeover_count row;
     rr_stats := rr_stats row; rr_coverage_cycle_id := Some cycleId |}.

(** A repeated physical id violates the primary key of the members table. *)
Definition insert_members (cycleId : string) (records : list IdentityRecord) (d : recon_db)
    : result string recon_db :=
  let rows := map (fun r => {| mb_cycle_id := cycleId; mb_physical_id := ir_id r;
                               mb_trade_id := ir_tradeId r |}) records in
  let physical := (map mb_physical_id
    (List.filter (fun m => String.eqb (mb_cycle_id m) cycleId) (enumeration_members d)) ++
    map ir_id records)%list in
  if bool_decide (NoDup physical)
  then Ok (with_members (enumeration_members d ++ rows)%list d)
  else Err "duplicate key value violates unique constraint".

Definition publishEnumerationPage (cycle : EnumerationCycle) (page : IdentityPage)
    (coherent finished : bool) (nextChainCursor : Z) (runKey : string) (d : recon_db)
    : result string recon_db :=
  if existsb (cycle_matches cycle) (enumeration_cycles d) then
    let d1 := with_cycles
      (map (fun c => if cycle_matches cycle c
                     then advanced_cycle page coherent nextChainCursor finished c else c)
         (enumeration_cycles d)) d in
    let d2 := (update_run runKey (fun _ => true) (with_cycle_id (ec_id cycle)) d1).1 in
    insert_members (ec_id cycle) (ip_records page) d2
  else Err "Enumeration cycle advanced by another worker".

Definition publish_findings (runKey : string) (findings : list DriftFinding)
    (stats : RunStats) (d : recon_db) : recon_db * RunStats :=
  foldl (fun '(d, stats) f =>
           (with_drifts (upsertDrift runKey f (reconcile_drifts d)) d,
            {| st_status := st_status stats; st_totalTrades := st_totalTrades stats;
               st_driftCount := st_driftCount stats + 1;
               st_severityCounts := count_severity (df_severity f) (st_severityCounts stats);
               st_coverage := st_coverage stats |})) (d, stats) findings.

(** The scope and drift part of [publishRunOutcome]. *)
Definition publishRunOutcome (runKey : string) (scopedTradeIds : list string)
    (findings : list DriftFinding) (stats : RunStats) (d : recon_db) : recon_db * RunStats :=
  let d1 := with_scope
    (foldl (fun scope id => upsertRunTradeScope runKey id scope) (reconcile_run_trades d)
       scopedTradeIds) d in
  publish_findings runKey findings stats d1.

(** Runs of the cycle, newest first, as [ORDER BY r.id DESC] sees their drift. *)
Definition run_id_of (d : recon_db) (row : DriftRow) : Z :=
  match reconcile_runs d !! dr_run_key row with Some r => rr_id r | None => 0 end.

Definition severity_counts_of (rows : list DriftRow) : SeverityCounts :=
  foldl (fun c row => count_severity (df_severity (dr_finding row)) c) DEFAULT_SEVERITY_COUNTS rows.

Definition aggregateCycleEvidence (cycleId runKey : string) (stats : RunStats) (d : recon_db)
    : recon_db * RunStats :=
  let scope_of_cycle :=
    List.filter (fun s => match reconcile_runs d !! sc_run_key s with
                          | Some r => bool_decide (rr_coverage_cycle_id r = Some cycleId) &&
                                      bool_decide (rr_status r = COMPLETED)
                          | None => false
                          end) (reconcile_run_trades d) in
  let scope := foldl (fun acc s => upsertRunTradeScope runKey (sc_trade_id s) acc)
                 (reconcile_run_trades d) scope_of_cycle in
  let newest_first := js_sort (fun a b => run_id_of d b <=? run_id_of d a)
    (List.filter (cycle_drift cycleId d) (reconcile_drifts d)) in
  let drifts := foldl (fun acc row => insertDrift runKey (dr_finding row) acc)
                  (reconcile_drifts d) newest_first in
  let own := List.filter (fun row => String.eqb (dr_run_key row) runKey) drifts in
  (with_drifts drifts (with_scope scope d),
   {| st_status := st_status stats;
      st_totalTrades := Z.of_nat (length
        (List.filter (fun s => String.eqb (sc_run_key s) runKey) scope));
      st_driftCount := Z.of_nat (length own);
      st_severityCounts := severity_counts_of own;
      st_coverage := st_coverage stats |}).
