(* ===== verification/ReconRun.v ===== *)
(** One reconciliation run ([reconciliation/src/core/reconciler.ts],
    [enumeration.ts], [indexer/client.ts] [fetchTradeIdsPage]) and the
    interleavings of runs of several workers over the shared store.

    A run first reads (its boundary, the active cycle, chain and indexer) and at
    the end publishes in one fenced transaction.  What the chain node and the
    indexer answer during the run is the record [RunReads]; a [throw] anywhere
    makes the run publish nothing.  Between its reads and its transaction any
    number of other operations may commit: [recon_history] lets every run work
    from rows it read at some earlier point of the history. *)
From stdpp Require Import base list strings gmap.
From S2P Require Import Prelude JsText JsDate JsMap ReconTypes ReconCoverage ReconClassifier.
From S2P Require Import ReconDb.

Open Scope string_scope.
Open Scope Z_scope.

Record ReconConfig := {
  maxTradesPerRun : Z;
  batchSize : Z;
  indexerEnumerationLimit : Z;
  indexerEnumerationPageSize : Z;
  coverageMaxAgeMs : Z;
  leaseTtlMs : Z
}.

Record RunReads := {
  rd_boundary : CoverageBoundary;
  rd_getTrade : string -> result string Trade;
  rd_fetchTradesByIds : list string -> result string (list IndexedTradeRecord);
  rd_identityRows : option string -> string -> Z -> result string (list IdentityRecord);
  rd_tradeCount : option Z;
  rd_endBlock : option Z;
  rd_boundaryAgain : CoverageBoundary;
  rd_now : Z
}.

(** ** The chain boundary *)

(** What the node answers for the finality tag: block number, hash, tag. *)
Definition resolveBoundary (indexerProcessedBlock finalityNumber : Z) (finalityHash : string)
    (tag : BoundaryTag) (hash_at : Z -> string) (counter_at : Z -> Z) : CoverageBoundary :=
  let anchor := anchorBoundaryBlock finalityNumber indexerProcessedBlock in
  {| cb_blockNumber := anchor.1;
     cb_blockHash := if anchor.1 =? finalityNumber then finalityHash else hash_at anchor.1;
     cb_tag := tag; cb_chainTradeCounter := counter_at anchor.1;
     cb_indexerProcessedBlock := anchor.1; cb_finalityBlockNumber := finalityNumber;
     cb_indexerAhead := anchor.2 |}.

Definition verifyCycleBoundary (current boundary : CoverageBoundary) : result string unit :=
  throw_if (negb (cb_blockNumber current =? cb_blockNumber boundary) ||
            negb (String.eqb (toLowerCase (cb_blockHash current))
                             (toLowerCase (cb_blockHash boundary))) ||
            negb (cb_chainTradeCounter current =? cb_chainTradeCounter boundary))
    "Reconciliation chain anchor changed before publication".

(** ** Enumeration of the indexer's own ids *)

Definition null_to_empty (s : option string) : string := default "" s.

(** [a < b] on JS strings, by code units. *)
Definition text_lt (a b : string) : bool := String.ltb a b.

(** The row checks of the keyset page, in order. *)
Fixpoint check_page_rows (previous throughId : string) (rows : list IdentityRecord) : bool :=
  match rows with
  | [] => true
  | row :: rest =>
      truthy (ir_id row) && (Z.of_nat (String.length (ir_id row)) <=? 1024) &&
      text_lt previous (ir_id row) && negb (text_lt throughId (ir_id row)) &&
      truthy (ir_tradeId row) && (Z.of_nat (String.length (ir_tradeId row)) <=? 255) &&
      check_page_rows (ir_id row) throughId rest
  end.

Definition fetchTradeIdsPage (query : option string -> string -> Z -> result string (list IdentityRecord))
    (afterId throughId : option string) (limit : Z) : result string IdentityPage :=
  _ ← throw_if (negb (is_safe_integer limit) || (limit <? 1) || (100000 <? limit))
        "Invalid indexer keyset limit";
  match throughId with
  | None => Ok {| ip_records := []; ip_nextId := afterId; ip_exhausted := true |}
  | Some through =>
      rows ← query afterId through (limit + 1);
      _ ← throw_if (limit + 1 <? Z.of_nat (length rows)) "Invalid indexer keyset page";
      _ ← throw_if (negb (check_page_rows (null_to_empty afterId) through rows))
            "Invalid indexer keyset page";
      let records := slice 0 limit rows in
      Ok {| ip_records := records;
            ip_nextId := match last records with Some r => Some (ir_id r) | None => afterId end;
            ip_exhausted := Z.of_nat (length rows) <=? limit |}
  end.

(** The [while] loop of [enumerateIndexer]. *)
Fixpoint enumerate_loop (fuel : nat) (config : ReconConfig)
    (query : option string -> string -> Z -> result string (list IdentityRecord))
    (upperId : option string) (page : IdentityPage) : result string IdentityPage :=
  if ip_exhausted page || (indexerEnumerationLimit config <=? Z.of_nat (length (ip_records page)))
  then Ok page
  else match fuel with
  | O => Err "enumeration did not terminate"
  | S fuel =>
      next ← fetchTradeIdsPage query (ip_nextId page) upperId
               (Z.min (indexerEnumerationPageSize config)
                  (indexerEnumerationLimit config - Z.of_nat (length (ip_records page))));
      enumerate_loop fuel config query upperId
        {| ip_records := (ip_records page ++ ip_records next)%list;
           ip_nextId := ip_nextId next; ip_exhausted := ip_exhausted next |}
  end.

Record Enumeration := {
  en_page : IdentityPage;
  en_tradeIds : list string;
  en_truncated : bool;
  en_duplicates : list DriftFinding
}.

(** Counting each id into [counts]; ids seen more than once, in first-repeat order. *)
Definition count_repeated (counts : jsmap Z) (ids : list string) : jsmap Z * list string :=
  foldl (fun '(counts, repeated) id =>
           let count := default 0 (map_get id counts) + 1 in
           (map_set id count counts,
            if 1 <? count
            then if includes repeated id then repeated else (repeated ++ [id])%list
            else repeated)) (counts, []) ids.

(** Fuel: every page either is the last one or adds a record, so the limit
    bounds the number of pages. *)
Definition enumerateIndexer (config : ReconConfig)
    (query : option string -> string -> Z -> result string (list IdentityRecord))
    (cycle : EnumerationCycle) (previousCounts : list string -> jsmap Z)
    : result string Enumeration :=
  page ← enumerate_loop (Z.to_nat (indexerEnumerationLimit config)) config query (ec_upper_id cycle)
           {| ip_records := []; ip_nextId := ec_after_id cycle; ip_exhausted := ec_exhausted cycle |};
  let tradeIds := map ir_tradeId (ip_records page) in
  let '(counts, repeated) := count_repeated (previousCounts tradeIds) tradeIds in
  Ok {| en_page := page; en_tradeIds := tradeIds; en_truncated := negb (ip_exhausted page);
        en_duplicates :=
          map (fun id => duplicate_finding id (default 0 (map_get id counts))) repeated |}.

(** ** The comparison of one window *)

Record Scan := {
  sn_totalTrades : Z;
  sn_scope : list string;
  sn_findings : list DriftFinding;
  sn_compared : list string;
  sn_hold : Z
}.

Definition empty_scan : Scan :=
  {| sn_totalTrades := 0; sn_scope := []; sn_findings := []; sn_compared := []; sn_hold := 0 |}.

(** [stats.totalTrades += 1; pendingScope.push(id)] *)
Definition touch (id : string) (s : Scan) : Scan :=
  {| sn_totalTrades := sn_totalTrades s + 1; sn_scope := (sn_scope s ++ [id])%list;
     sn_findings := sn_findings s; sn_compared := sn_compared s; sn_hold := sn_hold s |}.

Definition record (f : DriftFinding) (s : Scan) : Scan :=
  {| sn_totalTrades := sn_totalTrades s; sn_scope := sn_scope s;
     sn_findings := (sn_findings s ++ [f])%list; sn_compared := sn_compared s;
     sn_hold := if holdsCursor (df_mismatchCode f) then sn_hold s + 1 else sn_hold s |}.

Definition compared (id : string) (s : Scan) : Scan :=
  {| sn_totalTrades := sn_totalTrades s; sn_scope := sn_scope s; sn_findings := sn_findings s;
     sn_compared := (sn_compared s ++ [id])%list; sn_hold := sn_hold s |}.

Definition record_all (fs : list DriftFinding) (s : Scan) : Scan :=
  foldl (fun s f => record f s) s fs.

(** The chain read of one id; a throw becomes its message. *)
Definition read_chain (reads : RunReads) (id : string) : ChainTradeRecord :=
  match rd_getTrade reads id with
  | Ok trade => {| cr_tradeId := id; cr_trade := Some trade; cr_readError := None |}
  | Err e => {| cr_tradeId := id; cr_trade := None; cr_readError := Some e |}
  end.

Section run.
Context (isAddress : string -> bool) (getAddress : string -> string).

Definition scan_pair (s : Scan) (pair : PairedTrade) : result string Scan :=
  let id := ix_tradeId (pt_indexed pair) in
  let s1 := touch id s in
  let s2 := if negb (has_error (pt_readError pair)) &&
               match pt_onchain pair with Some _ => true | None => false end
            then compared id s1 else s1 in
  fs ← classifyDrifts isAddress getAddress (pt_indexed pair) (pt_onchain pair) (pt_readError pair);
  Ok (record_all fs s2).

Fixpoint scan_pairs (pairs : list PairedTrade) (s : Scan) : result string Scan :=
  match pairs with
  | [] => Ok s
  | p :: rest => s' ← scan_pair s p; scan_pairs rest s'
  end.

Definition scan_batch (reads : RunReads) (idBatch : list string) (s : Scan) : result string Scan :=
  let chainTrades := map (read_chain reads) idBatch in
  indexedTrades ← rd_fetchTradesByIds reads idBatch;
  let comparison := compareCoverage chainTrades indexedTrades in
  let s1 := foldl (fun s f => record f (touch (df_tradeId f) s)) s (missingFromIndexer comparison) in
  s2 ← scan_pairs (paired comparison) s1;
  Ok (foldl (fun s ix => record (indexerOnlyFinding (ix_tradeId ix)) (touch (ix_tradeId ix) s)) s2
        (indexerOnly comparison)).

Fixpoint scan_batches (reads : RunReads) (batches : list (list string)) (s : Scan)
    : result string Scan :=
  match batches with
  | [] => Ok s
  | b :: rest => s' ← scan_batch reads b s; scan_batches reads rest s'
  end.

(** The findings of the enumeration; a duplicate is not a new trade. *)
Definition scan_enumeration (findings : list DriftFinding) (s : Scan) : Scan :=
  foldl (fun s f =>
           let s1 := touch (df_tradeId f) s in
           record f (if bool_decide (df_mismatchCode f = INDEXER_DUPLICATE_TRADE)
                     then {| sn_totalTrades := sn_totalTrades s; sn_scope := sn_scope s1;
                             sn_findings := sn_findings s1; sn_compared := sn_compared s1;
                             sn_hold := sn_hold s1 |}
                     else s1)) s findings.

(** ** The run's outcome *)

Record Discovery := { dc_cycle : EnumerationCycle; dc_chainCursor : Z; dc_coherent : bool }.

Definition discovery_of (cycle : EnumerationCycle) (boundary : CoverageBoundary) (source : string)
    : Discovery :=
  {| dc_cycle := cycle; dc_chainCursor := ec_chain_cursor cycle;
     dc_coherent := sameCycleSource cycle boundary source |}.

(** [active] and [history] are what the run read before creating a cycle. *)
Definition prepareEnumeration (active : option EnumerationCycle) (history : bool)
    (boundary : CoverageBoundary) (previousCursor : Z) (source : string) (upperId : option string)
    (expectedCount : Z) (uuid : string) (d : recon_db)
    : result string (recon_db * Discovery) :=
  match active with
  | Some cycle => Ok (d, discovery_of cycle boundary source)
  | None =>
      let chainCursor := if history then 0 else previousCursor in
      r ← createEnumerationCycle boundary source upperId chainCursor expectedCount
            (chainCursor =? 0) uuid d;
      Ok (r.1, discovery_of r.2 boundary source)
  end.

Record RunOutcome := {
  ro_window : CoverageWindow;
  ro_scan : Scan;
  ro_enumeration : Enumeration;
  ro_cursorHeld : bool;
  ro_coherent : bool;
  ro_cycleFinished : bool;
  ro_tailFirstSeenAt : option Z;
  ro_stats : RunStats
}.

Inductive RunResult :=
| Inconclusive (reason : string)
| Conclusive (outcome : RunOutcome).

(** Everything a run computes between preparing its cycle and publishing. *)
Definition run_body (config : ReconConfig) (reads : RunReads) (discovery : Discovery)
    (cursor : CursorRow) (previousCounts : list string -> jsmap Z) (priorHold : bool)
    : result string RunResult :=
  let boundary := rd_boundary reads in
  window ← planCoverageWindow (dc_chainCursor discovery) (cb_chainTradeCounter boundary)
             (maxTradesPerRun config);
  let windowIds := tradeIdsInWindow window in
  batches ← batchTradeIds windowIds (batchSize config);
  s1 ← scan_batches reads batches empty_scan;
  enumeration ← enumerateIndexer config (rd_identityRows reads) (dc_cycle discovery) previousCounts;
  let s2 := scan_enumeration
    (detectIndexerOnlyTradeIds (en_tradeIds enumeration) boundary ++ en_duplicates enumeration)%list
    s1 in
  let s3 := match checkIndexerSurplus (rd_tradeCount reads) boundary with
            | Some f => record f s2
            | None => s2
            end in
  let snapshot := evaluateIndexerSnapshot (Some (cb_indexerProcessedBlock boundary))
                    (rd_endBlock reads) in
  if negb (stable snapshot)
  then Ok (Inconclusive (default "indexer snapshot unstable" (snapshot_reason snapshot)))
  else
    _ ← verifyCycleBoundary (rd_boundaryAgain reads) boundary;
    let now := rd_now reads in
    let tailFirstSeenAt :=
      if cw_uncoveredTail window =? 0 then None
      else Some (default now (cu_tail_first_seen_at cursor)) in
    let sla := evaluateCoverageSla (cw_uncoveredTail window) (cu_tail_first_seen_at cursor) now
                 (coverageMaxAgeMs config) in
    let cursorHeld := held (evaluateCursorHold (sn_hold s3) (en_truncated enumeration)) in
    let nextCursor := planNextCursor window cursorHeld (dc_chainCursor discovery) in
    let cumulativeWalked :=
      ec_walked (dc_cycle discovery) + Z.of_nat (length (en_tradeIds enumeration)) in
    let coherent := dc_coherent discovery &&
      bool_decide (rd_tradeCount reads = Some (ec_expected_count (dc_cycle discovery))) in
    let cycleFinished := ip_exhausted (en_page enumeration) &&
      ((cw_complete window && negb cursorHeld) || negb coherent) in
    let coverageComplete := coherent && negb priorHold &&
      bool_decide (rd_tradeCount reads = Some cumulativeWalked) &&
      isCoverageComplete (cw_complete window && negb cursorHeld) (en_truncated enumeration) in
    Ok (Conclusive
      {| ro_window := window; ro_scan := s3; ro_enumeration := enumeration;
         ro_cursorHeld := cursorHeld; ro_coherent := coherent; ro_cycleFinished := cycleFinished;
         ro_tailFirstSeenAt := tailFirstSeenAt;
         ro_stats :=
           {| st_status := COMPLETED; st_totalTrades := sn_totalTrades s3; st_driftCount := 0;
              st_severityCounts := DEFAULT_SEVERITY_COUNTS;
              st_coverage := Some
                {| rc_boundary := boundary; rc_window := window;
                   rc_fromBlock := cu_boundary_block_number cursor;
                   rc_indexerTradeCount := rd_tradeCount reads; rc_sla := sla;
                   rc_cursorAdvanced := negb cursorHeld; rc_nextCursor := nextCursor;
                   rc_sweepReset := negb cursorHeld && cw_complete window;
                   rc_indexerEnumerationTruncated := en_truncated enumeration;
                   rc_indexerEnumerationWalked := cumulativeWalked;
                   rc_enumerationCycleId := ec_id (dc_cycle discovery);
                   rc_indexerSourceCoherent := coherent;
                   rc_indexerEnumerationExpected := ec_expected_count (dc_cycle discovery);
                   rc_complete := coverageComplete |} |} |}).

(** [stats.coverage.window = {...window, fromTradeId: 0n}; fromBlock = 0] *)
Definition whole_cycle_coverage (c : RunCoverage) : RunCoverage :=
  {| rc_boundary := rc_boundary c;
     rc_window := {| cw_fromTradeId := 0; cw_toTradeId := cw_toTradeId (rc_window c);
                     cw_nextCursor := cw_nextCursor (rc_window c);
                     cw_uncoveredTail := cw_uncoveredTail (rc_window c);
                     cw_complete := cw_complete (rc_window c) |};
     rc_fromBlock := 0; rc_indexerTradeCount := rc_indexerTradeCount c; rc_sla := rc_sla c;
     rc_cursorAdvanced := rc_cursorAdvanced c; rc_nextCursor := rc_nextCursor c;
     rc_sweepReset := rc_sweepReset c;
     rc_indexerEnumerationTruncated := rc_indexerEnumerationTruncated c;
     rc_indexerEnumerationWalked := rc_indexerEnumerationWalked c;
     rc_enumerationCycleId := rc_enumerationCycleId c;
     rc_indexerSourceCoherent := rc_indexerSourceCoherent c;
     rc_indexerEnumerationExpected := rc_indexerEnumerationExpected c;
     rc_complete := rc_complete c |}.

(** The [publish] callback of the finalizing transaction. *)
Definition publish (discovery : Discovery) (runKey : string) (o : RunOutcome) (d : recon_db)
    : result string (recon_db * RunStats) :=
  d1 ← publishEnumerationPage (dc_cycle discovery) (en_page (ro_enumeration o)) (ro_coherent o)
         (ro_cycleFinished o)
         (if ro_cursorHeld o then dc_chainCursor discovery else cw_nextCursor (ro_window o))
         runKey d;
  let '(d2, stats) := publishRunOutcome runKey (sn_scope (ro_scan o)) (sn_findings (ro_scan o))
                        (ro_stats o) d1 in
  if ro_cycleFinished o then
    let '(d3, stats) := aggregateCycleEvidence (ec_id (dc_cycle discovery)) runKey stats d2 in
    Ok (d3, {| st_status := st_status stats; st_totalTrades := st_totalTrades stats;
               st_driftCount := st_driftCount stats;
               st_severityCounts := st_severityCounts stats;
               st_coverage := if ro_coherent o then whole_cycle_coverage <$> st_coverage stats
                              else st_coverage stats |})
  else Ok (d2, stats).

(** [finalizeRun] for a conclusive run: fence, publish, complete, release, and
    move or hold the cursor, in one transaction. *)
Definition finalizeRun (lease : RunLeaseIdentity) (discovery : Discovery) (o : RunOutcome)
    (now : Z) (d : recon_db) : result string recon_db :=
  _ ← assertLeaseHeld lease now d;
  r ← publish discovery (ls_runKey lease) o d;
  let d2 := completeRun (ls_runKey lease) r.2 now r.1 in
  let d3 := (releaseLease lease d2).1 in
  match st_coverage (ro_stats o) with
  | Some c =>
      Ok (if ro_cursorHeld o then recordCoverageTailSighting (ro_tailFirstSeenAt o) d3
          else advanceCoverageCursor (rc_nextCursor c) (cb_blockNumber (rc_boundary c))
                 (cb_blockHash (rc_boundary c)) (ro_tailFirstSeenAt o) d3)
  | None => Ok d3
  end.

(** The inconclusive exit: no drift, cursor untouched, status [SKIPPED]. *)
Definition finalizeInconclusiveRun (lease : RunLeaseIdentity) (tailFirstSeenAt : option Z)
    (now : Z) (d : recon_db) : result string recon_db :=
  _ ← assertLeaseHeld lease now d;
  let stats := {| st_status := SKIPPED; st_totalTrades := 0; st_driftCount := 0;
                  st_severityCounts := DEFAULT_SEVERITY_COUNTS; st_coverage := None |} in
  let d2 := completeRun (ls_runKey lease) stats now d in
  let d3 := (releaseLease lease d2).1 in
  Ok (recordCoverageTailSighting tailFirstSeenAt d3).

End run.
