(* ===== verification/ReconRunInv.v ===== *)
(** Correctness of reconciliation runs, over every interleaving of workers:
    what an advancing cursor and a complete, drift-free run prove about the
    chain and the indexer, and the fencing of leases.

    First the facts about one run body (what it found is in its findings), then
    the interleavings ([recon_history]) and the invariants of the store. *)
From stdpp Require Import base list strings gmap.
From S2P Require Import Prelude JsText JsDate JsMap ReconTypes ReconCoverage ReconClassifier.
From S2P Require Import ReconDb ReconRun.

Open Scope string_scope.
Open Scope Z_scope.

(** ** One scan *)

(** Nothing a scan found is ever dropped, and the hold counter counts exactly the
    findings that hold the cursor. *)
Definition holding (fs : list DriftFinding) : Z :=
  Z.of_nat (length (List.filter (fun f => holdsCursor (df_mismatchCode f)) fs)).

Record scan_le (s s' : Scan) : Prop := {
  sl_findings : exists more, sn_findings s' = (sn_findings s ++ more)%list;
  sl_hold : sn_hold s = holding (sn_findings s) -> sn_hold s' = holding (sn_findings s')
}.

#[export] Instance scan_le_preorder : PreOrder scan_le.
Proof.
  split.
  - intros s. split; [exists []; by rewrite app_nil_r | done].
  - intros a b c [[l Hl] Ha] [[m Hm] Hb]. split; [|tauto].
    exists (l ++ m)%list. by rewrite Hm, Hl, app_assoc.
Qed.

Lemma scan_le_elem s s' f : scan_le s s' -> f ∈ sn_findings s -> f ∈ sn_findings s'.
Proof. intros [[l ->] _] ?. apply elem_of_app. by left. Qed.

Lemma scan_le_record f s : scan_le s (record f s) /\ f ∈ sn_findings (record f s).
Proof.
  split; [split|].
  - by exists [f].
  - cbn. intros ->. unfold holding. rewrite List.filter_app, length_app. cbn.
    destruct (holdsCursor (df_mismatchCode f)); cbn [length]; lia.
  - cbn. apply elem_of_app. right. left.
Qed.

Lemma scan_le_same s s' :
  sn_findings s' = sn_findings s -> sn_hold s' = sn_hold s -> scan_le s s'.
Proof. intros Hf Hh. split; [exists []; by rewrite app_nil_r | congruence]. Qed.

(** A fold that records one finding per element keeps them all. *)
Lemma scan_le_fold {A} (step : Scan -> A -> Scan) (f : A -> DriftFinding) l s :
  (forall s x, scan_le s (step s x) /\ f x ∈ sn_findings (step s x)) ->
  scan_le s (foldl step s l) /\ forall x, x ∈ l -> f x ∈ sn_findings (foldl step s l).
Proof.
  intros Hstep. revert s. induction l as [|y l IH]; intros s; cbn [foldl].
  - split; [done|]. by intros x ?%not_elem_of_nil.
  - destruct (Hstep s y) as [H1 H2], (IH (step s y)) as [H3 H4]. split; [by etrans|].
    intros x [->|Hx]%elem_of_cons; [by eapply scan_le_elem | by apply H4].
Qed.

Lemma scan_le_record_all fs s :
  scan_le s (record_all fs s) /\ forall f, f ∈ fs -> f ∈ sn_findings (record_all fs s).
Proof.
  apply (scan_le_fold (fun s f => record f s) (fun f => f)). intros. apply scan_le_record.
Qed.

Lemma scan_le_touch_record f id s :
  scan_le s (record f (touch id s)) /\ f ∈ sn_findings (record f (touch id s)).
Proof.
  destruct (scan_le_record f (touch id s)) as [H1 H2]. split; [|done].
  etrans; [|exact H1]. by apply scan_le_same.
Qed.

(** ** Fuel of the enumeration *)

Lemma fetchTradeIdsPage_progress query after through limit page :
  fetchTradeIdsPage query after through limit = Ok page ->
  ip_exhausted page = true \/ Z.of_nat (length (ip_records page)) = limit /\ 1 <= limit.
Proof.
  unfold fetchTradeIdsPage. intros [Hl H]%throw_if_bind. reflect_bools.
  destruct through as [t|]; [|injection H as <-; by left].
  apply bind_ok in H as (rows & _ & H). apply throw_if_bind in H as [Hlen H].
  apply throw_if_bind in H as [_ [= <-]]. cbn. reflect_bools.
  destruct (Z.leb_spec (Z.of_nat (length rows)) limit); [by left|]. right.
  unfold slice. rewrite length_take, length_drop. lia.
Qed.

(** The fuel [enumerateIndexer] passes is enough: more of it changes nothing. *)
Lemma enumerate_loop_fuel fuel extra config query upper page :
  indexerEnumerationLimit config - Z.of_nat (length (ip_records page)) <= Z.of_nat fuel ->
  enumerate_loop (fuel + extra) config query upper page = enumerate_loop fuel config query upper page.
Proof.
  revert page. induction fuel as [|fuel IH]; intros page Hf.
  - assert (forall n, enumerate_loop n config query upper page = Ok page) as H; [|by rewrite !H].
    intros n. assert (ip_exhausted page ||
      (indexerEnumerationLimit config <=? Z.of_nat (length (ip_records page))) = true) as Hc.
    { apply orb_true_iff. right. apply Z.leb_le. lia. }
    destruct n; cbn [enumerate_loop]; by rewrite Hc.
  - cbn [enumerate_loop Nat.add].
    destruct (ip_exhausted page ||
      (indexerEnumerationLimit config <=? Z.of_nat (length (ip_records page)))) eqn:Hc; [done|].
    destruct (fetchTradeIdsPage _ _ _ _) as [next|e] eqn:Hn; [|done]. cbn [mbind result_bind].
    apply fetchTradeIdsPage_progress in Hn as [He|[He ?]].
    + destruct fuel, extra; cbn [enumerate_loop Nat.add ip_exhausted]; by rewrite ?He.
    + apply IH. cbn [ip_records]. rewrite length_app. lia.
Qed.

Section scan.
Context (isAddress : string -> bool) (getAddress : string -> string).
Notation classify := (classifyDrifts isAddress getAddress).

Lemma scan_pair_le s p s' :
  scan_pair isAddress getAddress s p = Ok s' ->
  scan_le s s' /\ exists fs, classify (pt_indexed p) (pt_onchain p) (pt_readError p) = Ok fs /\
    forall f, f ∈ fs -> f ∈ sn_findings s'.
Proof.
  unfold scan_pair. intros H. apply bind_ok in H as (fs & Hfs & [= <-]).
  match goal with |- scan_le _ (record_all fs ?x) /\ _ =>
    destruct (scan_le_record_all fs x) as [H1 H2] end.
  split; [|eauto]. etrans; [|exact H1]. by destruct (_ && _); apply scan_le_same.
Qed.

Lemma scan_pairs_le ps s s' :
  scan_pairs isAddress getAddress ps s = Ok s' ->
  scan_le s s' /\ forall p, p ∈ ps -> exists fs,
    classify (pt_indexed p) (pt_onchain p) (pt_readError p) = Ok fs /\
    forall f, f ∈ fs -> f ∈ sn_findings s'.
Proof.
  revert s. induction ps as [|p ps IH]; intros s; cbn.
  - intros [= <-]. split; [done|]. by intros p ?%not_elem_of_nil.
  - intros H. apply bind_ok in H as (s1 & Hp & H). apply scan_pair_le in Hp as (H1 & fs & Hfs & Hin).
    apply IH in H as [H2 Hall]. split; [by etrans|].
    intros q [->|Hq]%elem_of_cons; [|by apply Hall].
    exists fs. split; [done|]. intros f Hf. eapply scan_le_elem; eauto.
Qed.

(** What a scan owes to one batch of ids. *)
Definition batch_reported (reads : RunReads) (s : Scan) (b : list string) : Prop :=
  exists ixs, rd_fetchTradesByIds reads b = Ok ixs /\
    let c := compareCoverage (map (read_chain reads) b) ixs in
    (forall f, f ∈ missingFromIndexer c -> f ∈ sn_findings s) /\
    (forall p, p ∈ paired c -> exists fs,
       classify (pt_indexed p) (pt_onchain p) (pt_readError p) = Ok fs /\
       forall f, f ∈ fs -> f ∈ sn_findings s).

Lemma batch_reported_le reads s s' b :
  scan_le s s' -> batch_reported reads s b -> batch_reported reads s' b.
Proof.
  intros Hle (ixs & Hix & Hm & Hp). exists ixs. split; [done|]. cbv zeta in *. split.
  - intros f Hf. eapply scan_le_elem; eauto.
  - intros p (fs & Hfs & Hin)%Hp. exists fs. split; [done|]. intros f Hf. eapply scan_le_elem; eauto.
Qed.

Lemma scan_batch_le reads b s s' :
  scan_batch isAddress getAddress reads b s = Ok s' -> scan_le s s' /\ batch_reported reads s' b.
Proof.
  unfold scan_batch. intros H. apply bind_ok in H as (ixs & Hix & H).
  apply bind_ok in H as (s2 & Hs2 & [= <-]). set (c := compareCoverage _ _) in *.
  destruct (scan_le_fold (fun s f => record f (touch (df_tradeId f) s)) (fun f => f)
    (missingFromIndexer c) s) as [H1 Hm]; [intros; apply scan_le_touch_record|].
  apply scan_pairs_le in Hs2 as [H2 Hp].
  destruct (scan_le_fold (fun s ix => record (indexerOnlyFinding (ix_tradeId ix))
    (touch (ix_tradeId ix) s)) (fun ix => indexerOnlyFinding (ix_tradeId ix))
    (indexerOnly c) s2) as [H3 _]; [intros; apply scan_le_touch_record|].
  split; [by etrans; [|etrans]|].
  eapply batch_reported_le; [exact H3|]. exists ixs. split; [done|]. fold c. split; [|done].
  intros f Hf. eapply scan_le_elem; [exact H2|]. by apply Hm.
Qed.

Lemma scan_batches_le reads bs s s' :
  scan_batches isAddress getAddress reads bs s = Ok s' ->
  scan_le s s' /\ Forall (batch_reported reads s') bs.
Proof.
  revert s. induction bs as [|b bs IH]; intros s; cbn; [by intros [= <-]|].
  intros H. apply bind_ok in H as (s1 & Hb & H). apply scan_batch_le in Hb as [H1 Hb].
  apply IH in H as [H2 Hall]. split; [by etrans|]. constructor; [|done].
  by eapply batch_reported_le.
Qed.

(** ** The whole body *)

Lemma scan_enumeration_le fs s :
  scan_le s (scan_enumeration fs s) /\ forall f, f ∈ fs -> f ∈ sn_findings (scan_enumeration fs s).
Proof.
  apply (scan_le_fold _ (fun f => f)). clear s. intros s f. cbv zeta.
  destruct (bool_decide _); [|apply scan_le_touch_record].
  match goal with |- context [record f ?x] => destruct (scan_le_record f x) as [H1 H2] end.
  split; [|done]. etrans; [|exact H1]. by apply scan_le_same.
Qed.

(** ** Verdicts on one id *)

(** The indexer's answer for a batch of ids that included [id]. *)
Definition indexer_answer (reads : RunReads) (id : string) (ixs : list IndexedTradeRecord) : Prop :=
  exists b, id ∈ b /\ rd_fetchTradesByIds reads b = Ok ixs.

(** The id has no trade on either side: the chain answered the zero-filled
    struct (or the read failed with an empty message), and the indexer has no
    record of it. *)
Definition absent_on_both (reads : RunReads) (id : string) : Prop :=
  (exists ixs, indexer_answer reads id ixs /\ id ∉ map ix_tradeId ixs) /\
  match rd_getTrade reads id with
  | Ok t => isAbsentChainTrade t = true
  | Err e => e = ""
  end.

(** The id was read on the chain and has an indexed record to compare with. *)
Definition present_on_both (reads : RunReads) (id : string) (t : Trade) (ix : IndexedTradeRecord)
    : Prop :=
  (exists ixs, indexer_answer reads id ixs /\ ix ∈ ixs /\ ix_tradeId ix = id) /\
  rd_getTrade reads id = Ok t /\ isZeroAddress isAddress getAddress (t_buyer t) = false.

(** A scan read every trade of its scope it has no finding about on the chain,
    and found the indexer in agreement. *)
Definition scope_agreed (reads : RunReads) (s : Scan) : Prop :=
  forall id, id ∈ sn_scope s -> id ∉ map df_tradeId (sn_findings s) -> exists t ix,
    present_on_both reads id t ix /\ agrees isAddress getAddress ix t.

Lemma scan_le_unreported s s' id :
  scan_le s s' -> id ∉ map df_tradeId (sn_findings s') -> id ∉ map df_tradeId (sn_findings s).
Proof. intros [[l ->] _]. rewrite map_app, not_elem_of_app. by intros [? _]. Qed.

(** A step that only adds findings, and to the scope at most the id it reports,
    keeps the scope agreed. *)
Lemma scope_agreed_report reads f s s' :
  (forall id, id ∈ sn_scope s' -> id ∈ sn_scope s \/ id = df_tradeId f) ->
  sn_findings s' = (sn_findings s ++ [f])%list -> scope_agreed reads s -> scope_agreed reads s'.
Proof.
  intros Hscope Hf Hs id Hid. rewrite Hf, map_app, not_elem_of_app. intros [Hn Hne].
  destruct (Hscope id Hid) as [?| ->]; [by apply Hs|]. destruct Hne. left.
Qed.

Lemma scope_agreed_touch_record reads f s :
  scope_agreed reads s -> scope_agreed reads (record f (touch (df_tradeId f) s)).
Proof.
  apply scope_agreed_report with (f := f); [|done]. cbn. intros id.
  rewrite elem_of_app, list_elem_of_singleton. done.
Qed.

Lemma scope_agreed_fold {A} reads (step : Scan -> A -> Scan) l s :
  (forall s x, scope_agreed reads s -> scope_agreed reads (step s x)) ->
  scope_agreed reads s -> scope_agreed reads (foldl step s l).
Proof. intros Hstep. revert s. induction l as [|x l IH]; intros s Hs; [done|]. by apply IH, Hstep. Qed.

Lemma record_all_scope fs s : sn_scope (record_all fs s) = sn_scope s.
Proof. revert s. induction fs as [|f fs IH]; intros s; [done|]. apply (IH (record f s)). Qed.

Lemma read_chain_agreed reads b ixs p fs :
  rd_fetchTradesByIds reads b = Ok ixs ->
  p ∈ paired (compareCoverage (map (read_chain reads) b) ixs) ->
  classify (pt_indexed p) (pt_onchain p) (pt_readError p) = Ok fs -> fs = [] ->
  exists t, present_on_both reads (ix_tradeId (pt_indexed p)) t (pt_indexed p) /\
    agrees isAddress getAddress (pt_indexed p) t.
Proof.
  intros Hix Hp Hc ->.
  destruct (compareCoverage_exhaustive (map (read_chain reads) b) ixs) as (_ & _ & Hpair & _).
  apply Hpair in Hp as (r & Hr & Hin & Hid & Ho & He).
  apply list_elem_of_fmap in Hr as (id & -> & Hb).
  assert (cr_tradeId (read_chain reads id) = id) as Hcr.
  { unfold read_chain. by destruct (rd_getTrade reads id). }
  rewrite Hcr in Hid. apply classify_silent_spec in Hc as (_ & t & Ht & Hz & Ha).
  exists t. split; [|done]. rewrite Hid. split; [exists ixs; split; [by exists b | by split]|].
  rewrite Ho in Ht. unfold read_chain in Ht. destruct (rd_getTrade reads id); [|done].
  injection Ht as ->. done.
Qed.

Lemma scan_pairs_scope reads b ixs ps s s' :
  rd_fetchTradesByIds reads b = Ok ixs ->
  (forall p, p ∈ ps -> p ∈ paired (compareCoverage (map (read_chain reads) b) ixs)) ->
  scan_pairs isAddress getAddress ps s = Ok s' -> scope_agreed reads s -> scope_agreed reads s'.
Proof.
  intros Hix. revert s. induction ps as [|p ps IH]; intros s Hps; cbn; [by intros [= <-]|].
  intros H Hs. apply bind_ok in H as (s1 & Hp & H). eapply IH; [|exact H|].
  { intros q Hq. apply Hps. by right. }
  intros id Hid Hn. pose proof (scan_pair_le _ _ _ Hp) as (Hle & fs & Hfs & Hin).
  assert (sn_scope s1 = (sn_scope s ++ [ix_tradeId (pt_indexed p)])%list) as Hsc.
  { unfold scan_pair in Hp. apply bind_ok in Hp as (fs' & _ & [= <-]). rewrite record_all_scope.
    by destruct (_ && _). }
  rewrite Hsc in Hid. apply elem_of_app in Hid as [Hid|Hid%list_elem_of_singleton].
  - apply Hs; [done | by eapply scan_le_unreported].
  - subst id. destruct (read_chain_agreed reads b ixs p fs Hix) as (t & ? & ?);
      [apply Hps; by left | done | | eauto].
    destruct fs as [|f fs]; [done|]. exfalso. apply Hn. apply list_elem_of_fmap.
    exists f. split; [symmetry; eapply classify_about; [exact Hfs | left] | apply Hin; left].
Qed.

Lemma scan_batch_scope reads b s s' :
  scan_batch isAddress getAddress reads b s = Ok s' -> scope_agreed reads s -> scope_agreed reads s'.
Proof.
  unfold scan_batch. intros H Hs. apply bind_ok in H as (ixs & Hix & H).
  apply bind_ok in H as (s2 & Hs2 & [= <-]).
  apply scope_agreed_fold.
  { intros s1 ix. apply (scope_agreed_touch_record reads (indexerOnlyFinding (ix_tradeId ix))). }
  eapply scan_pairs_scope; [exact Hix | | exact Hs2 |]; [done|].
  apply scope_agreed_fold; [|done]. intros s1 f. by apply scope_agreed_touch_record.
Qed.

Lemma scan_batches_scope reads bs s s' :
  scan_batches isAddress getAddress reads bs s = Ok s' ->
  scope_agreed reads s -> scope_agreed reads s'.
Proof.
  revert s. induction bs as [|b bs IH]; intros s; cbn; [by intros [= <-]|].
  intros H Hs. apply bind_ok in H as (s1 & Hb & H). eapply IH; [done|]. by eapply scan_batch_scope.
Qed.

Lemma scan_enumeration_scope reads fs s :
  scope_agreed reads s -> scope_agreed reads (scan_enumeration fs s).
Proof.
  apply scope_agreed_fold. clear s. intros s f. cbv zeta.
  destruct (bool_decide _); [|by apply scope_agreed_touch_record].
  apply scope_agreed_report with (f := f); [|done]. cbn. intros id.
  by rewrite elem_of_app, list_elem_of_singleton.
Qed.

(** ** The parts of a conclusive run *)

Record run_facts (config : ReconConfig) (reads : RunReads) (disc : Discovery)
    (previousCounts : list string -> jsmap Z) (priorHold : bool) (o : RunOutcome) : Prop := {
  rf_window : planCoverageWindow (dc_chainCursor disc) (cb_chainTradeCounter (rd_boundary reads))
                (maxTradesPerRun config) = Ok (ro_window o);
  rf_batches : exists batches, concat batches = tradeIdsInWindow (ro_window o) /\
                 Forall (batch_reported reads (ro_scan o)) batches;
  rf_enumeration : enumerateIndexer config (rd_identityRows reads) (dc_cycle disc) previousCounts
                     = Ok (ro_enumeration o);
  rf_indexer_only : forall f, f ∈ detectIndexerOnlyTradeIds (en_tradeIds (ro_enumeration o))
                      (rd_boundary reads) -> f ∈ sn_findings (ro_scan o);
  rf_duplicates : forall f, f ∈ en_duplicates (ro_enumeration o) -> f ∈ sn_findings (ro_scan o);
  rf_hold : sn_hold (ro_scan o) = holding (sn_findings (ro_scan o));
  rf_held : ro_cursorHeld o =
              held (evaluateCursorHold (sn_hold (ro_scan o)) (en_truncated (ro_enumeration o)));
  rf_coherent : ro_coherent o = dc_coherent disc &&
    bool_decide (rd_tradeCount reads = Some (ec_expected_count (dc_cycle disc)));
  rf_finished : ro_cycleFinished o = ip_exhausted (en_page (ro_enumeration o)) &&
    ((cw_complete (ro_window o) && negb (ro_cursorHeld o)) || negb (ro_coherent o));
  rf_scope : scope_agreed reads (ro_scan o);
  rf_status : st_status (ro_stats o) = COMPLETED;
  rf_drift : st_driftCount (ro_stats o) = 0;
  rf_coverage : exists cov, st_coverage (ro_stats o) = Some cov /\
    rc_boundary cov = rd_boundary reads /\ rc_indexerTradeCount cov = rd_tradeCount reads /\
    rc_enumerationCycleId cov = ec_id (dc_cycle disc) /\
    rc_complete cov = (ro_coherent o && negb priorHold &&
      bool_decide (rd_tradeCount reads = Some (ec_walked (dc_cycle disc) +
                     Z.of_nat (length (en_tradeIds (ro_enumeration o))))) &&
      isCoverageComplete (cw_complete (ro_window o) && negb (ro_cursorHeld o))
        (en_truncated (ro_enumeration o)))
}.

Lemma run_body_facts config reads disc cursor counts priorHold o :
  run_body isAddress getAddress config reads disc cursor counts priorHold = Ok (Conclusive o) ->
  run_facts config reads disc counts priorHold o.
Proof.
  unfold run_body. intros H. apply bind_ok in H as (w & Hw & H).
  apply bind_ok in H as (bs & Hbs & H). apply bind_ok in H as (s1 & Hs1 & H).
  apply bind_ok in H as (en & Hen & H).
  destruct (negb (stable _)); [done|]. apply bind_ok in H as ([] & _ & H). injection H as <-.
  pose proof (scan_batches_scope _ _ _ _ Hs1 ltac:(by intros ? ?%not_elem_of_nil)) as Hsc.
  apply scan_batches_le in Hs1 as [H1 Hb]. apply batchTradeIds_concat in Hbs as [Hcat _].
  set (fs := (detectIndexerOnlyTradeIds (en_tradeIds en) (rd_boundary reads) ++
               en_duplicates en)%list).
  destruct (scan_enumeration_le fs s1) as [H2 Hfs]. fold fs.
  set (s3 := match checkIndexerSurplus _ _ with Some f => _ | None => _ end).
  assert (scan_le (scan_enumeration fs s1) s3) as H3.
  { unfold s3. destruct (checkIndexerSurplus _ _); [apply scan_le_record | done]. }
  split; cbn; try done.
  - exists bs. split; [done|]. eapply Forall_impl; [exact Hb|]. intros b.
    apply batch_reported_le. by etrans.
  - intros f Hf. eapply scan_le_elem; [exact H3|]. apply Hfs, elem_of_app. by left.
  - intros f Hf. eapply scan_le_elem; [exact H3|]. apply Hfs, elem_of_app. by right.
  - apply H3, H2, H1. done.
  - intros id Hid Hn. apply (scan_enumeration_scope reads fs s1 Hsc); [|by eapply scan_le_unreported].
    unfold s3 in Hid. by destruct (checkIndexerSurplus _ _).
  - eexists. split; [done|]. done.
Qed.

(** ** What a run establishes about one id *)

Lemma has_error_false_read reads id :
  has_error (cr_readError (read_chain reads id)) = false ->
  match rd_getTrade reads id with Ok _ => True | Err e => e = "" end.
Proof.
  unfold read_chain. destruct (rd_getTrade reads id) as [t|e]; [done|]. cbn. unfold truthy.
  destruct (String.eqb_spec e ""); done.
Qed.

(** A scan that covers [id] has decided it, or says so in a finding that holds
    the cursor. *)
Lemma scan_decides reads s batches id :
  Forall (batch_reported reads s) batches -> id ∈ concat batches ->
  (exists f, f ∈ sn_findings s /\ holdsCursor (df_mismatchCode f) = true) \/
  absent_on_both reads id \/
  (exists t ix fs, present_on_both reads id t ix /\ classify ix (Some t) None = Ok fs /\
     forall f, f ∈ fs -> f ∈ sn_findings s).
Proof.
  intros Hall Hid. apply list_elem_of_In, in_concat in Hid as (b & Hb & Hid).
  apply list_elem_of_In in Hb, Hid. rewrite Forall_forall in Hall.
  destruct (Hall b Hb) as (ixs & Hix & Hm & Hp). cbv zeta in *.
  destruct (compareCoverage_exhaustive (map (read_chain reads) b) ixs) as [Hacc _].
  specialize (Hacc (read_chain reads id)). cbv zeta in Hacc.
  assert (cr_tradeId (read_chain reads id) = id) as Hcr.
  { unfold read_chain. by destruct (rd_getTrade reads id). }
  destruct Hacc as [x Hx1 Hx2 Hx3|_ He Hf|_ _ _ Hf|Hn Ho He]; [by apply list_elem_of_fmap_2|..].
  - apply Hp in Hx3 as (fs & Hc & Hfs). cbn [pt_indexed pt_onchain pt_readError] in Hc.
    rewrite Hcr in Hx2. unfold read_chain in Hc.
    destruct (rd_getTrade reads id) as [t|e] eqn:Hg; cbn [cr_trade cr_readError] in Hc.
    + destruct (isZeroAddress isAddress getAddress (t_buyer t)) eqn:Hz.
      * left. unfold classifyDrifts in Hc. cbn [has_error] in Hc. rewrite Hz in Hc.
        injection Hc as <-. eexists. split; [apply Hfs; left | done].
      * right. right. exists t, x, fs. split; [|by split]. split; [|by split].
        exists ixs. split; [by exists b | by split].
    + left. unfold classifyDrifts in Hc. destruct (has_error (Some e)).
      * injection Hc as <-. eexists. split; [apply Hfs; left | done].
      * injection Hc as <-. eexists. split; [apply Hfs; left | done].
  - left. eexists. split; [apply Hm, Hf | done].
  - left. eexists. split; [apply Hm, Hf | done].
  - right. left. rewrite Hcr in Hn. split; [exists ixs; split; [by exists b | done]|].
    apply has_error_false_read in He. unfold existsOnChain, read_chain in Ho.
    destruct (rd_getTrade reads id); [|done]. cbn in Ho. by apply negb_false_iff in Ho.
Qed.

Lemma not_held hold truncated :
  held (evaluateCursorHold hold truncated) = false <-> hold <= 0 /\ truncated = false.
Proof.
  unfold evaluateCursorHold. cbn.
  destruct (Z.ltb_spec 0 hold), truncated; cbn; split; try done; lia.
Qed.

Lemma holding_none fs f :
  holding fs <= 0 -> f ∈ fs -> holdsCursor (df_mismatchCode f) = false.
Proof.
  unfold holding. intros H Hf. destruct (holdsCursor (df_mismatchCode f)) eqn:E; [|done].
  assert (In f (List.filter (fun f => holdsCursor (df_mismatchCode f)) fs)) as Hin.
  { apply filter_In. split; [by apply list_elem_of_In | done]. }
  destruct (List.filter _ fs); [done|]. cbn in H. lia.
Qed.

(** The cursor only moves past decided ids: when a run ends without holding
    its cursor, every id of its window is either absent on both sides or was
    read on the chain and found in the indexer, the indexer's own enumeration
    was walked to its end, and every id on its pages is an allocated number.
    (An id whose chain read failed with an empty error message passes as
    absent: that is the one gap.) *)
Theorem cursor_moves_past_decided_ids config reads disc cursor counts priorHold o :
  run_body isAddress getAddress config reads disc cursor counts priorHold = Ok (Conclusive o) ->
  ro_cursorHeld o = false ->
  (forall id, id ∈ tradeIdsInWindow (ro_window o) ->
     absent_on_both reads id \/ exists t ix, present_on_both reads id t ix) /\
  en_truncated (ro_enumeration o) = false /\
  (forall id, id ∈ en_tradeIds (ro_enumeration o) ->
     unallocated (cb_chainTradeCounter (rd_boundary reads)) id = false).
Proof.
  intros Hrun Hheld. apply run_body_facts in Hrun. rewrite (rf_held _ _ _ _ _ _ Hrun) in Hheld.
  apply not_held in Hheld as [Hh Ht]. rewrite (rf_hold _ _ _ _ _ _ Hrun) in Hh.
  destruct (rf_batches _ _ _ _ _ _ Hrun) as (bs & Hcat & Hall). split_and!; [|done|].
  - intros id Hid. rewrite <- Hcat in Hid.
    destruct (scan_decides _ _ _ _ Hall Hid) as [(f & Hf & Hc)|[?|(t & ix & ? & ? & _)]].
    + by rewrite (holding_none _ _ Hh Hf) in Hc.
    + by left.
    + right. eauto.
  - intros id Hid. destruct (unallocated _ id) eqn:E; [|done].
    assert (indexerOnlyFinding id ∈ sn_findings (ro_scan o)) as Hf.
    { apply (rf_indexer_only _ _ _ _ _ _ Hrun). rewrite detectIndexerOnly_filter.
      apply list_elem_of_fmap. exists id. split; [done|].
      apply list_elem_of_In, filter_In. split; [by apply list_elem_of_In | done]. }
    by apply holding_none in Hf.
Qed.

(** ** Interleaved runs *)

(** One published run, kept beside the store as evidence. *)
Record Published := {
  pb_lease : RunLeaseIdentity;
  pb_reads : RunReads;
  pb_discovery : Discovery;
  pb_outcome : RunOutcome
}.

Record world := { w_db : recon_db; w_log : list Published }.

Definition with_db (d : recon_db) (w : world) : world := {| w_db := d; w_log := w_log w |}.

(** One operation of some worker.  [past] is the history so far, newest first
    and starting with the current world: a run works from rows it read at
    positions [i_cycle], then [i_counts], then [i_hold] of it. *)
Inductive recon_op (config : ReconConfig) (past : list world) (w : world) : world -> Prop :=
| op_claim key mode owner ttl now id :
    recon_op config past w (with_db (claimRun key mode owner ttl now id (w_db w)).1 w)
| op_heartbeat lease ttl now :
    recon_op config past w (with_db (heartbeatLease lease ttl now (w_db w)).1 w)
| op_release lease :
    recon_op config past w (with_db (releaseLease lease (w_db w)).1 w)
| op_abandon ttl now :
    recon_op config past w (with_db (markAbandonedRuns ttl now (w_db w)) w)
| op_fail lease message now :
    recon_op config past w (with_db (failRun lease message now (w_db w)).1 w)
| op_prepare w_active w_history w_cursor boundary source upperId expected uuid d disc :
    w_active ∈ past -> w_history ∈ past -> w_cursor ∈ past ->
    (forall c, c ∈ enumeration_cycles (w_db w) -> ec_id c <> uuid) ->
    prepareEnumeration (readActiveEnumerationCycle (w_db w_active))
      (hasEnumerationHistory (w_db w_history)) boundary
      (cu_last_trade_id (readCoverageCursor (w_db w_cursor))) source upperId expected uuid (w_db w)
      = Ok (d, disc) ->
    recon_op config past w (with_db d w)
| op_inconclusive lease tail now d :
    finalizeInconclusiveRun lease tail now (w_db w) = Ok d ->
    recon_op config past w (with_db d w)
| op_publish i_cycle i_counts i_hold w_cycle w_counts w_hold cycle reads source cursor lease now o d :
    past !! i_cycle = Some w_cycle -> past !! i_counts = Some w_counts ->
    past !! i_hold = Some w_hold -> (i_hold <= i_counts <= i_cycle)%nat ->
    cycle ∈ enumeration_cycles (w_db w_cycle) ->
    run_body isAddress getAddress config reads
      (discovery_of cycle (rd_boundary reads) source) cursor
      (fun ids => previousIdentityCounts (ec_id cycle) ids (w_db w_counts))
      (priorCycleHasHoldingFindings (ec_id cycle) (w_db w_hold)) = Ok (Conclusive o) ->
    finalizeRun lease (discovery_of cycle (rd_boundary reads) source) o now (w_db w) = Ok d ->
    recon_op config past w
      {| w_db := d;
         w_log := {| pb_lease := lease; pb_reads := reads;
                     pb_discovery := discovery_of cycle (rd_boundary reads) source;
                     pb_outcome := o |} :: w_log w |}.

(** Histories, newest world first. *)
Inductive recon_history (config : ReconConfig) : list world -> Prop :=
| history_init : recon_history config [{| w_db := empty_recon_db; w_log := [] |}]
| history_step past w w' :
    recon_history config (w :: past) -> recon_op config (w :: past) w w' ->
    recon_history config (w' :: w :: past).

End scan.

(** The facts of a run are read off its proof. *)
Arguments rf_window {_ _ _ _ _ _ _ _}.
Arguments rf_batches {_ _ _ _ _ _ _ _}.
Arguments rf_enumeration {_ _ _ _ _ _ _ _}.
Arguments rf_indexer_only {_ _ _ _ _ _ _ _}.
Arguments rf_duplicates {_ _ _ _ _ _ _ _}.
Arguments rf_hold {_ _ _ _ _ _ _ _}.
Arguments rf_held {_ _ _ _ _ _ _ _}.
Arguments rf_coherent {_ _ _ _ _ _ _ _}.
Arguments rf_finished {_ _ _ _ _ _ _ _}.
Arguments rf_scope {_ _ _ _ _ _ _ _}.
Arguments rf_status {_ _ _ _ _ _ _ _}.
Arguments rf_drift {_ _ _ _ _ _ _ _}.
Arguments rf_coverage {_ _ _ _ _ _ _ _}.
