(* ===== verification/ReconHistory.v ===== *)
(** Invariants of the reconciliation store over every history of interleaved
    workers: leases fence displaced workers ([lease_fencing]), completed
    evidence never changes ([completed_run_immutable]), and a complete
    drift-free run proves agreement of the whole id space
    ([complete_clean_run_sound]). *)
From stdpp Require Import base list strings gmap.
From S2P Require Import Prelude JsText JsDate JsMap ReconTypes ReconCoverage ReconClassifier.
From S2P Require Import ReconDb ReconRun ReconRunInv.

Open Scope string_scope.
Open Scope Z_scope.

(** ** Run rows *)

(** A completed run has released its lease. *)
Definition runs_ok (d : recon_db) : Prop :=
  map_Forall (fun _ row => rr_status row = COMPLETED -> rr_lease_owner row = None)
    (reconcile_runs d).

(** How one row may change: its epoch never decreases, a completed row never
    changes. *)
Definition row_evolves (row row' : ReconcileRunRow) : Prop :=
  rr_lease_epoch row <= rr_lease_epoch row' /\ (rr_status row = COMPLETED -> row' = row).

Definition runs_evolve (d d' : recon_db) : Prop :=
  forall key row, reconcile_runs d !! key = Some row ->
    exists row', reconcile_runs d' !! key = Some row' /\ row_evolves row row'.

#[export] Instance row_evolves_preorder : PreOrder row_evolves.
Proof.
  split; [by intros row; split|]. intros a b c [H1 H2] [H3 H4]. split; [lia|].
  intros H. assert (b = a) as -> by auto. auto.
Qed.

#[export] Instance runs_evolve_preorder : PreOrder runs_evolve.
Proof.
  split; [intros d key row H; exists row; by split|].
  intros a b c Hab Hbc key row H. apply Hab in H as (row1 & H1 & E1).
  apply Hbc in H1 as (row2 & H2 & E2). exists row2. split; [done | by etrans].
Qed.

(** Replacing one row by a row it may evolve to. *)
Lemma runs_insert d d' key row row' :
  reconcile_runs d !! key = Some row ->
  reconcile_runs d' = <[key := row']> (reconcile_runs d) -> row_evolves row row' ->
  runs_evolve d d'.
Proof.
  intros Hrow Hd Hev k r Hk. rewrite Hd. destruct (decide (k = key)) as [->|Hne].
  - rewrite lookup_insert_eq. exists row'. split; [done|]. congruence.
  - rewrite lookup_insert_ne by done. exists r. by split.
Qed.

Lemma runs_ok_insert d d' key row' :
  runs_ok d -> reconcile_runs d' = <[key := row']> (reconcile_runs d) ->
  (rr_status row' = COMPLETED -> rr_lease_owner row' = None) -> runs_ok d'.
Proof. intros Hok Hd Hr. unfold runs_ok. rewrite Hd. by apply map_Forall_insert_2. Qed.

Lemma update_run_cases key guard f d :
  update_run key guard f d = (d, false) \/
  exists row, reconcile_runs d !! key = Some row /\ guard row = true /\
    update_run key guard f d = (with_runs (<[key := f row]> (reconcile_runs d)) d, true).
Proof.
  unfold update_run. destruct (reconcile_runs d !! key) as [row|] eqn:E; [|by left].
  destruct (guard row) eqn:G; [right; eauto | by left].
Qed.

(** A conditional update whose guard excludes completed rows. *)
Lemma update_run_ok key guard f d :
  (forall row, reconcile_runs d !! key = Some row -> guard row = true ->
     rr_status row <> COMPLETED /\ rr_lease_epoch row <= rr_lease_epoch (f row) /\
     (rr_status (f row) = COMPLETED -> rr_lease_owner (f row) = None)) ->
  runs_ok d ->
  runs_ok (update_run key guard f d).1 /\ runs_evolve d (update_run key guard f d).1.
Proof.
  intros H Hok. destruct (update_run_cases key guard f d) as [->|(row & Hr & Hg & ->)]; [done|].
  destruct (H row Hr Hg) as (Hs & He & Ho). split.
  - by eapply runs_ok_insert.
  - eapply runs_insert; [done..|]. split; [done|]. intros ?. congruence.
Qed.

Lemma lease_matches_live d key row lease :
  runs_ok d -> reconcile_runs d !! key = Some row -> lease_matches lease row = true ->
  rr_status row <> COMPLETED.
Proof.
  intros Hok Hr Hm Hs. specialize (Hok _ _ Hr Hs). unfold lease_matches in Hm. reflect_bools.
  congruence.
Qed.

Lemma claimRun_runs key mode owner ttl now id d :
  runs_ok d ->
  runs_ok (claimRun key mode owner ttl now id d).1 /\
  runs_evolve d (claimRun key mode owner ttl now id d).1.
Proof.
  intros Hok. unfold claimRun. destruct (reconcile_runs d !! key) as [row|] eqn:E.
  - destruct (claimable ttl now row) eqn:G; [|done]. split.
    + by eapply runs_ok_insert.
    + eapply runs_insert; [done..|]. split; [cbn; lia|].
      intros Hs. unfold claimable in G. by rewrite bool_decide_true in G.
  - split; [by eapply runs_ok_insert|].
    intros k r Hk. cbn. rewrite lookup_insert_ne by congruence. exists r. by split.
Qed.

Lemma heartbeat_runs lease ttl now d :
  runs_ok d ->
  runs_ok (heartbeatLease lease ttl now d).1 /\ runs_evolve d (heartbeatLease lease ttl now d).1.
Proof.
  intros Hok. apply update_run_ok; [|done]. intros row Hr G. reflect_bools.
  cbn. split_and!; [congruence | lia | congruence].
Qed.

Lemma release_runs lease d :
  runs_ok d -> runs_ok (releaseLease lease d).1 /\ runs_evolve d (releaseLease lease d).1.
Proof.
  intros Hok. apply update_run_ok; [|done]. intros row Hr G.
  apply andb_true_iff in G as [G _]. split; [by eapply lease_matches_live|]. done.
Qed.

Lemma fail_runs lease msg now d :
  runs_ok d -> runs_ok (failRun lease msg now d).1 /\ runs_evolve d (failRun lease msg now d).1.
Proof.
  intros Hok. apply update_run_ok; [|done]. intros row Hr G.
  apply andb_true_iff in G as [G _]. split; [by eapply lease_matches_live|]. done.
Qed.

Lemma abandon_runs ttl now d :
  runs_ok d -> runs_ok (markAbandonedRuns ttl now d) /\ runs_evolve d (markAbandonedRuns ttl now d).
Proof.
  intros Hok. unfold markAbandonedRuns. split.
  - intros k row' Hk. cbn in Hk. apply lookup_fmap_Some in Hk as (row & <- & Hr).
    destruct (_ && _) eqn:G; [done|]. by apply (Hok k).
  - intros k row Hr. cbn. rewrite lookup_fmap, Hr. cbn. eexists. split; [done|].
    destruct (_ && _) eqn:G; [|done]. split; [done|]. reflect_bools. congruence.
Qed.

(** The tail of both finalizing transactions: complete the row under the held
    lease, then release it. *)
Lemma complete_release_runs lease stats now d row :
  reconcile_runs d !! ls_runKey lease = Some row -> lease_matches lease row = true ->
  st_status stats <> RUNNING ->
  exists row', reconcile_runs (releaseLease lease (completeRun (ls_runKey lease) stats now d)).1 =
    <[ls_runKey lease := row']> (reconcile_runs d) /\
    rr_lease_epoch row' = rr_lease_epoch row /\ rr_lease_owner row' = None /\
    rr_status row' = st_status stats /\ rr_stats row' = Some stats /\
    rr_coverage_cycle_id row' = rr_coverage_cycle_id row.
Proof.
  intros Hr Hm Hs. unfold completeRun, update_run. rewrite Hr. cbn [fst].
  unfold releaseLease, update_run. cbn [reconcile_runs with_runs]. rewrite lookup_insert_eq.
  unfold lease_matches in *. cbn [rr_lease_owner rr_lease_epoch rr_status]. rewrite Hm. cbn [andb].
  rewrite bool_decide_false by done. cbn [negb fst reconcile_runs with_runs].
  eexists. rewrite insert_insert_eq. split; [reflexivity|]. done.
Qed.

Lemma assertLeaseHeld_ok lease now d :
  assertLeaseHeld lease now d = Ok tt ->
  exists row, reconcile_runs d !! ls_runKey lease = Some row /\ lease_matches lease row = true.
Proof.
  unfold assertLeaseHeld. destruct (reconcile_runs d !! ls_runKey lease) as [row|]; [|done].
  destruct (_ && _) eqn:E; [|done]. intros _. exists row. by apply andb_true_iff in E as [? _].
Qed.

Lemma inconclusive_frame lease tail now d d' :
  finalizeInconclusiveRun lease tail now d = Ok d' ->
  exists row row', reconcile_runs d !! ls_runKey lease = Some row /\ lease_matches lease row = true /\
    reconcile_runs d' = <[ls_runKey lease := row']> (reconcile_runs d) /\
    rr_lease_epoch row' = rr_lease_epoch row /\ rr_status row' = SKIPPED /\
    enumeration_cycles d' = enumeration_cycles d /\ enumeration_members d' = enumeration_members d /\
    reconcile_drifts d' = reconcile_drifts d /\ reconcile_run_trades d' = reconcile_run_trades d.
Proof.
  unfold finalizeInconclusiveRun. intros H. apply bind_ok in H as ([] & Ha & [= <-]).
  apply assertLeaseHeld_ok in Ha as (row & Hr & Hm).
  match goal with |- context [completeRun _ ?st now d] =>
    destruct (complete_release_runs lease st now d row Hr Hm) as (row' & Hd & He & _ & Hst & _);
      [done|] end.
  exists row, row'. split_and!; try done.
  all: unfold completeRun, update_run; rewrite Hr; cbn [fst]; unfold releaseLease, update_run;
    cbn [reconcile_runs with_runs]; rewrite lookup_insert_eq; by destruct (_ && _).
Qed.

Lemma inconclusive_runs lease tail now d d' :
  runs_ok d -> finalizeInconclusiveRun lease tail now d = Ok d' -> runs_ok d' /\ runs_evolve d d'.
Proof.
  intros Hok H. apply inconclusive_frame in H as (row & row' & Hr & Hm & Hd & He & Hs & _).
  split.
  - eapply runs_ok_insert; [done..|]. congruence.
  - eapply runs_insert; [done..|]. split; [lia|]. intros ?.
    by destruct (lease_matches_live _ _ _ _ Hok Hr Hm).
Qed.

(** ** Drift rows *)

Definition drift_key (f : DriftFinding) : string * DriftCode * string :=
  (df_tradeId f, df_mismatchCode f, df_comparedField f).

Lemma same_drift_true key f row :
  same_drift key f row = true <->
  dr_run_key row = key /\ drift_key (dr_finding row) = drift_key f.
Proof.
  unfold same_drift, drift_key. split.
  - intros H. reflect_bools. by split; [|f_equal; [f_equal|]].
  - intros [-> [= -> -> ->]]. by rewrite !String.eqb_refl, bool_decide_true.
Qed.

(** The drift rows of a run, and those of all the others. *)
Definition drifts_of (key : string) (rows : list DriftRow) : list DriftRow :=
  List.filter (fun r => String.eqb (dr_run_key r) key) rows.

Definition drifts_of_others (key : string) (rows : list DriftRow) : list DriftRow :=
  List.filter (fun r => negb (String.eqb (dr_run_key r) key)) rows.

(** The run has a drift row for the finding. *)
Definition published_drift (key : string) (f : DriftFinding) (rows : list DriftRow) : Prop :=
  exists row, row ∈ rows /\ same_drift key f row = true.

Lemma existsb_elem {A} (p : A -> bool) l : existsb p l = true <-> exists x, x ∈ l /\ p x = true.
Proof. rewrite existsb_exists. by setoid_rewrite list_elem_of_In. Qed.

Lemma insertDrift_spec key f rows :
  drifts_of_others key (insertDrift key f rows) = drifts_of_others key rows /\
  published_drift key f (insertDrift key f rows) /\
  (forall g, published_drift key g rows -> published_drift key g (insertDrift key f rows)).
Proof.
  unfold insertDrift. destruct (existsb (same_drift key f) rows) eqn:E.
  - split_and!; [done | by apply existsb_elem in E | done].
  - split_and!.
    + unfold drifts_of_others. rewrite List.filter_app. cbn. rewrite String.eqb_refl. cbn.
      apply app_nil_r.
    + eexists. split; [apply elem_of_app; right; left|]. by apply same_drift_true.
    + intros g (row & Hr & Hs). exists row. split; [apply elem_of_app; by left | done].
Qed.

Lemma upsertDrift_spec key f rows :
  drifts_of_others key (upsertDrift key f rows) = drifts_of_others key rows /\
  published_drift key f (upsertDrift key f rows) /\
  (forall g, published_drift key g rows -> published_drift key g (upsertDrift key f rows)).
Proof.
  pose proof (insertDrift_spec key f rows) as Hins. unfold insertDrift in Hins.
  unfold upsertDrift. destruct (existsb (same_drift key f) rows) eqn:E; [clear Hins|exact Hins].
  set (upd := fun row => if same_drift key f row then _ else row).
  assert (forall g row, same_drift key g row = true -> same_drift key g (upd row) = true) as Hupd.
  { intros g row Hg. unfold upd. destruct (same_drift key f row) eqn:Hf; [|done].
    apply same_drift_true in Hg as [Hk Hg], Hf as [_ Hf]. apply same_drift_true. cbn. split; congruence. }
  assert (forall g, published_drift key g rows -> published_drift key g (map upd rows)) as Hkeep.
  { intros g (row & Hr & Hs). exists (upd row). split; [by apply list_elem_of_fmap_2 | by apply Hupd]. }
  split_and!; [|by apply Hkeep, existsb_elem|done].
  unfold drifts_of_others. clear E Hkeep Hupd. induction rows as [|r rows IH]; [done|].
  cbn [map List.filter]. rewrite IH. unfold upd at 1 2.
  destruct (same_drift key f r) eqn:Hf; [|done]. apply same_drift_true in Hf as [-> _]. cbn.
  by rewrite String.eqb_refl.
Qed.

Lemma fold_drifts_spec (step : DriftFinding -> list DriftRow -> list DriftRow) key fs rows :
  (forall f rows, drifts_of_others key (step f rows) = drifts_of_others key rows /\
     published_drift key f (step f rows) /\
     (forall g, published_drift key g rows -> published_drift key g (step f rows))) ->
  let rows' := foldl (fun acc f => step f acc) rows fs in
  drifts_of_others key rows' = drifts_of_others key rows /\
  (forall f, f ∈ fs -> published_drift key f rows') /\
  (forall g, published_drift key g rows -> published_drift key g rows').
Proof.
  intros Hstep. revert rows. induction fs as [|f fs IH]; intros rows; cbn [foldl].
  - split_and!; [done | by intros f ?%not_elem_of_nil | done].
  - destruct (Hstep f rows) as (H1 & H2 & H3), (IH (step f rows)) as (H4 & H5 & H6).
    cbv zeta in *. split_and!; [congruence | | auto].
    intros g [->|Hg]%elem_of_cons; auto.
Qed.

(** ** The publishing transaction *)

Lemma publish_findings_spec key fs stats d :
  let '(d', stats') := publish_findings key fs stats d in
  d' = with_drifts (foldl (fun acc f => upsertDrift key f acc) (reconcile_drifts d) fs) d /\
  st_status stats' = st_status stats /\ st_coverage stats' = st_coverage stats /\
  st_driftCount stats' = st_driftCount stats + Z.of_nat (length fs).
Proof.
  unfold publish_findings. revert stats d. induction fs as [|f fs IH]; intros stats d; cbn [foldl].
  - destruct d. cbn. split_and!; [done..|lia].
  - match goal with |- context [foldl _ (?d1, ?s1) fs] => specialize (IH s1 d1) end.
    destruct (foldl _ _ fs) as [d' stats']. destruct IH as (-> & H1 & H2 & H3).
    cbn in *. split_and!; [done..|]. rewrite H3. lia.
Qed.

(** The scope row belongs to a completed run of the cycle. *)
Definition cycle_scope (cycleId : string) (d : recon_db) (s : ScopeRow) : Prop :=
  exists r, reconcile_runs d !! sc_run_key s = Some r /\ rr_coverage_cycle_id r = Some cycleId /\
    rr_status r = COMPLETED.

(** Where the scope rows of a store come from, when the run [key] of a cycle is
    published over [d]: they were there, or name trades of the run's own scan, or
    repeat a row of another completed run of the cycle. *)
Definition scope_source (key cycleId : string) (own : list string) (d : recon_db) (s : ScopeRow)
    : Prop :=
  s ∈ reconcile_run_trades d \/
  (sc_run_key s = key /\
   (sc_trade_id s ∈ own \/
    exists s0, s0 ∈ reconcile_run_trades d /\ sc_trade_id s0 = sc_trade_id s /\
      (sc_run_key s0 = key \/ cycle_scope cycleId d s0))).

(** What a published run leaves in the store. *)
Record publish_frame (lease : RunLeaseIdentity) (disc : Discovery) (o : RunOutcome)
    (d d' : recon_db) : Prop := {
  pf_row : exists row row' stats, reconcile_runs d !! ls_runKey lease = Some row /\
    lease_matches lease row = true /\
    reconcile_runs d' = <[ls_runKey lease := row']> (reconcile_runs d) /\
    rr_lease_epoch row' = rr_lease_epoch row /\ rr_lease_owner row' = None /\
    rr_status row' = COMPLETED /\ rr_coverage_cycle_id row' = Some (ec_id (dc_cycle disc)) /\
    rr_stats row' = Some stats /\
    (ro_cycleFinished o = true ->
       st_driftCount stats = Z.of_nat (length (drifts_of (ls_runKey lease) (reconcile_drifts d')))) /\
    exists cov, st_coverage (ro_stats o) = Some cov /\
      (st_coverage stats = Some cov \/ st_coverage stats = Some (whole_cycle_coverage cov));
  pf_matched : existsb (cycle_matches (dc_cycle disc)) (enumeration_cycles d) = true;
  pf_cycles : enumeration_cycles d' =
    map (fun c => if cycle_matches (dc_cycle disc) c
                  then advanced_cycle (en_page (ro_enumeration o)) (ro_coherent o)
                         (if ro_cursorHeld o then dc_chainCursor disc
                          else cw_nextCursor (ro_window o)) (ro_cycleFinished o) c
                  else c) (enumeration_cycles d);
  pf_members : enumeration_members d' =
    (enumeration_members d ++
     map (fun r => {| mb_cycle_id := ec_id (dc_cycle disc); mb_physical_id := ir_id r;
                      mb_trade_id := ir_tradeId r |}) (ip_records (en_page (ro_enumeration o))))%list;
  pf_others : drifts_of_others (ls_runKey lease) (reconcile_drifts d') =
              drifts_of_others (ls_runKey lease) (reconcile_drifts d);
  pf_findings : forall f, f ∈ sn_findings (ro_scan o) ->
    published_drift (ls_runKey lease) f (reconcile_drifts d');
  pf_aggregate : ro_cycleFinished o = true -> forall row,
    row ∈ reconcile_drifts d -> cycle_drift (ec_id (dc_cycle disc)) d row = true ->
    dr_run_key row <> ls_runKey lease ->
    published_drift (ls_runKey lease) (dr_finding row) (reconcile_drifts d');
  pf_scope : List.filter (fun s => negb (String.eqb (sc_run_key s) (ls_runKey lease)))
               (reconcile_run_trades d') =
             List.filter (fun s => negb (String.eqb (sc_run_key s) (ls_runKey lease)))
               (reconcile_run_trades d);
  pf_scope_rows : forall s, s ∈ reconcile_run_trades d' ->
    scope_source (ls_runKey lease) (ec_id (dc_cycle disc)) (sn_scope (ro_scan o)) d s
}.

Lemma scope_fold_others {A} key (id : A -> string) l scope :
  List.filter (fun s => negb (String.eqb (sc_run_key s) key))
    (foldl (fun acc x => upsertRunTradeScope key (id x) acc) scope l) =
  List.filter (fun s => negb (String.eqb (sc_run_key s) key)) scope.
Proof.
  revert scope. induction l as [|x l IH]; intros scope; cbn [foldl]; [done|]. rewrite IH.
  unfold upsertRunTradeScope. destruct (existsb _ scope); [done|].
  rewrite List.filter_app. cbn. rewrite String.eqb_refl. cbn. apply app_nil_r.
Qed.

Lemma scope_fold_rows {A} key (id : A -> string) l scope s :
  s ∈ foldl (fun acc x => upsertRunTradeScope key (id x) acc) scope l ->
  s ∈ scope \/ (sc_run_key s = key /\ exists x, x ∈ l /\ sc_trade_id s = id x).
Proof.
  revert scope. induction l as [|x l IH]; intros scope; cbn [foldl]; [by left|].
  intros [H|(Hk & y & Hy & He)]%IH; [|right; split; [done|]; exists y; split; [by right | done]].
  unfold upsertRunTradeScope in H. destruct (existsb _ scope); [by left|].
  apply elem_of_app in H as [H| ->%list_elem_of_singleton]; [by left|].
  right. split; [done|]. exists x. split; [left | done].
Qed.

Lemma publishPage_spec cycle page coherent finished next key d d' row :
  reconcile_runs d !! key = Some row ->
  publishEnumerationPage cycle page coherent finished next key d = Ok d' ->
  existsb (cycle_matches cycle) (enumeration_cycles d) = true /\
  d' = with_members (enumeration_members d ++
         map (fun r => {| mb_cycle_id := ec_id cycle; mb_physical_id := ir_id r;
                          mb_trade_id := ir_tradeId r |}) (ip_records page))%list
       (with_runs (<[key := with_cycle_id (ec_id cycle) row]> (reconcile_runs d))
       (with_cycles (map (fun c => if cycle_matches cycle c
                     then advanced_cycle page coherent next finished c else c)
         (enumeration_cycles d)) d)).
Proof.
  intros Hr. unfold publishEnumerationPage.
  destruct (existsb (cycle_matches cycle) (enumeration_cycles d)); [|done].
  unfold update_run. cbn [reconcile_runs with_cycles]. rewrite Hr. cbn [fst].
  unfold insert_members. destruct (bool_decide _); [|done]. by intros [= <-].
Qed.

Lemma aggregate_spec cycleId key stats d :
  let '(d', stats') := aggregateCycleEvidence cycleId key stats d in
  exists rows scope, d' = with_drifts rows (with_scope scope d) /\
  st_status stats' = st_status stats /\ st_coverage stats' = st_coverage stats /\
  st_driftCount stats' = Z.of_nat (length (drifts_of key rows)) /\
  drifts_of_others key rows = drifts_of_others key (reconcile_drifts d) /\
  (forall g, published_drift key g (reconcile_drifts d) -> published_drift key g rows) /\
  (forall row, row ∈ reconcile_drifts d -> cycle_drift cycleId d row = true ->
     published_drift key (dr_finding row) rows) /\
  List.filter (fun s => negb (String.eqb (sc_run_key s) key)) scope =
  List.filter (fun s => negb (String.eqb (sc_run_key s) key)) (reconcile_run_trades d) /\
  (forall s, s ∈ scope -> s ∈ reconcile_run_trades d \/
     (sc_run_key s = key /\ exists s0, s0 ∈ reconcile_run_trades d /\
        sc_trade_id s0 = sc_trade_id s /\ cycle_scope cycleId d s0)).
Proof.
  unfold aggregateCycleEvidence.
  set (sorted := js_sort _ _).
  assert (foldl (fun acc row => insertDrift key (dr_finding row) acc) (reconcile_drifts d) sorted =
    foldl (fun acc f => insertDrift key f acc) (reconcile_drifts d) (map dr_finding sorted)) as ->.
  { generalize (reconcile_drifts d). induction sorted as [|r l IH]; intros rows; cbn; [done|].
    apply IH. }
  destruct (fold_drifts_spec (insertDrift key) key (map dr_finding sorted) (reconcile_drifts d))
    as (H1 & H2 & H3); [intros; apply insertDrift_spec|]. cbv zeta in *.
  eexists _, _. split_and!; [reflexivity | done | done | done | exact H1 | exact H3 | | |].
  - intros row Hr Hc. apply H2. apply list_elem_of_fmap_2. unfold sorted.
    rewrite js_sort_Permutation. apply list_elem_of_In, filter_In.
    split; [by apply list_elem_of_In | done].
  - apply scope_fold_others.
  - intros s [H|(Hk & s0 & Hs0 & He)]%scope_fold_rows; [by left|]. right. split; [done|].
    apply list_elem_of_In, filter_In in Hs0 as [Hs0 Hc]. exists s0. split_and!;
      [by apply list_elem_of_In | done |]. unfold cycle_scope.
    destruct (reconcile_runs d !! sc_run_key s0) as [r|]; [|done]. reflect_bools. eauto.
Qed.

(** The store and statistics the [publish] callback leaves, before the row is
    completed. *)
Record published_state (key : string) (disc : Discovery) (o : RunOutcome) (row : ReconcileRunRow)
    (d d3 : recon_db) (stats : RunStats) : Prop := {
  ps_runs : reconcile_runs d3 =
    <[key := with_cycle_id (ec_id (dc_cycle disc)) row]> (reconcile_runs d);
  ps_cycles : enumeration_cycles d3 =
    map (fun c => if cycle_matches (dc_cycle disc) c
                  then advanced_cycle (en_page (ro_enumeration o)) (ro_coherent o)
                         (if ro_cursorHeld o then dc_chainCursor disc
                          else cw_nextCursor (ro_window o)) (ro_cycleFinished o) c
                  else c) (enumeration_cycles d);
  ps_members : enumeration_members d3 =
    (enumeration_members d ++
     map (fun r => {| mb_cycle_id := ec_id (dc_cycle disc); mb_physical_id := ir_id r;
                      mb_trade_id := ir_tradeId r |}) (ip_records (en_page (ro_enumeration o))))%list;
  ps_status : st_status stats = st_status (ro_stats o);
  ps_coverage : forall cov, st_coverage (ro_stats o) = Some cov ->
    st_coverage stats = Some cov \/ st_coverage stats = Some (whole_cycle_coverage cov);
  ps_count : ro_cycleFinished o = true ->
    st_driftCount stats = Z.of_nat (length (drifts_of key (reconcile_drifts d3)));
  ps_others : drifts_of_others key (reconcile_drifts d3) = drifts_of_others key (reconcile_drifts d);
  ps_findings : forall f, f ∈ sn_findings (ro_scan o) -> published_drift key f (reconcile_drifts d3);
  ps_aggregate : ro_cycleFinished o = true -> forall r, r ∈ reconcile_drifts d ->
    cycle_drift (ec_id (dc_cycle disc)) d r = true -> dr_run_key r <> key ->
    published_drift key (dr_finding r) (reconcile_drifts d3);
  ps_scope : List.filter (fun s => negb (String.eqb (sc_run_key s) key)) (reconcile_run_trades d3) =
             List.filter (fun s => negb (String.eqb (sc_run_key s) key)) (reconcile_run_trades d);
  ps_scope_rows : forall s, s ∈ reconcile_run_trades d3 ->
    scope_source key (ec_id (dc_cycle disc)) (sn_scope (ro_scan o)) d s
}.

Lemma publish_spec key disc o row d d3 stats :
  reconcile_runs d !! key = Some row -> publish disc key o d = Ok (d3, stats) ->
  existsb (cycle_matches (dc_cycle disc)) (enumeration_cycles d) = true /\
  published_state key disc o row d d3 stats.
Proof.
  intros Hr Hp. unfold publish in Hp. apply bind_ok in Hp as (d1 & Hpage & Hp).
  apply (publishPage_spec _ _ _ _ _ _ _ _ row Hr) in Hpage as [Hmatch ->]. split; [done|].
  unfold publishRunOutcome in Hp. set (scope1 := foldl _ _ (sn_scope (ro_scan o))) in Hp.
  match type of Hp with context [publish_findings ?k ?fs ?st ?dd] =>
    pose proof (publish_findings_spec k fs st dd) as Hpf end.
  destruct (publish_findings _ _ _ _) as [d2 stats2].
  destruct Hpf as (-> & Hst2 & Hcov2 & _).
  cbn [reconcile_drifts with_scope with_members with_runs with_cycles] in *.
  destruct (fold_drifts_spec (upsertDrift key) key (sn_findings (ro_scan o)) (reconcile_drifts d))
    as (U1 & U2 & _); [intros; apply upsertDrift_spec|]. cbv zeta in U1, U2.
  set (rows2 := foldl _ (reconcile_drifts d) (sn_findings (ro_scan o))) in *.
  assert (List.filter (fun s => negb (String.eqb (sc_run_key s) key)) scope1 =
    List.filter (fun s => negb (String.eqb (sc_run_key s) key)) (reconcile_run_trades d))
    as Hscope1 by apply (scope_fold_others _ (fun x => x)).
  assert (forall s, s ∈ scope1 -> s ∈ reconcile_run_trades d \/
    (sc_run_key s = key /\ sc_trade_id s ∈ sn_scope (ro_scan o))) as Hrows1.
  { intros s [H|(Hk & x & Hx & He)]%(scope_fold_rows _ (fun x => x)); [by left|].
    right. split; [done|]. by rewrite He. }
  destruct (ro_cycleFinished o) eqn:Hfin.
  - match type of Hp with context [aggregateCycleEvidence ?c ?k ?st ?dd] =>
      pose proof (aggregate_spec c k st dd) as Hag end.
    destruct (aggregateCycleEvidence _ _ _ _) as [d4 stats4].
    destruct Hag as (rows & scope & -> & A1 & A2 & A3 & A4 & A5 & A6 & A7 & A8).
    injection Hp as <- <-. split; rewrite ?Hfin; try done; cbn.
    + by rewrite A1.
    + intros cov Hcov. rewrite A2, Hcov2, Hcov. destruct (ro_coherent o); cbn; auto.
    + etrans; [exact A4 | exact U1].
    + intros f Hf. apply A5. by apply U2.
    + intros _ r Hin Hc Hne. apply A6.
      * cbn. assert (r ∈ drifts_of_others key rows2) as Hr2.
        { rewrite U1. apply list_elem_of_In, filter_In. split; [by apply list_elem_of_In|].
          by apply negb_true_iff, String.eqb_neq. }
        apply list_elem_of_In, filter_In in Hr2 as [? _]. by apply list_elem_of_In.
      * unfold cycle_drift in *. cbn. by rewrite lookup_insert_ne.
    + etrans; [exact A7 | exact Hscope1].
    + intros s [Hs|(Hk & s0 & Hs0 & He & r & Hr0 & Hc0 & Hco)]%A8.
      * unfold scope_source. destruct (Hrows1 s Hs); naive_solver.
      * right. split; [done|]. cbn in Hr0.
        destruct (Hrows1 s0 Hs0) as [Hin|[_ Hown]]; [|left; by rewrite <- He].
        right. exists s0. split_and!; [done..|].
        destruct (decide (sc_run_key s0 = key)) as [?|Hne]; [by left|]. right. exists r.
        by rewrite lookup_insert_ne in Hr0.
  - injection Hp as <- <-. split; try done; rewrite ?Hfin; try done.
    + intros cov Hcov. left. congruence.
    + intros s Hs. unfold scope_source. destruct (Hrows1 s Hs); naive_solver.
Qed.

Lemma update_run_frame key guard f d :
  let d' := (update_run key guard f d).1 in
  enumeration_cycles d' = enumeration_cycles d /\ enumeration_members d' = enumeration_members d /\
  reconcile_drifts d' = reconcile_drifts d /\ reconcile_run_trades d' = reconcile_run_trades d.
Proof. by destruct (update_run_cases key guard f d) as [->|(row & _ & _ & ->)]. Qed.

Lemma finalizeRun_frame lease disc o now d d' :
  st_status (ro_stats o) = COMPLETED -> (exists cov, st_coverage (ro_stats o) = Some cov) ->
  finalizeRun lease disc o now d = Ok d' -> publish_frame lease disc o d d'.
Proof.
  intros Hst [cov Hcov]. unfold finalizeRun. intros H.
  apply bind_ok in H as ([] & Ha & H). apply assertLeaseHeld_ok in Ha as (row & Hr & Hm).
  apply bind_ok in H as ([d3 stats] & Hp & H). cbn [fst snd] in H.
  destruct (publish_spec _ _ _ _ _ _ _ Hr Hp) as [Hmatch Hps].
  destruct (complete_release_runs lease stats now d3 (with_cycle_id (ec_id (dc_cycle disc)) row))
    as (row' & Hd & He & Hown & Hs' & Hss & Hcy);
    [rewrite (ps_runs _ _ _ _ _ _ _ Hps); apply lookup_insert_eq | exact Hm |
     by rewrite (ps_status _ _ _ _ _ _ _ Hps), Hst |].
  set (d5 := (releaseLease lease (completeRun (ls_runKey lease) stats now d3)).1) in *.
  assert (enumeration_cycles d5 = enumeration_cycles d3 /\
    enumeration_members d5 = enumeration_members d3 /\ reconcile_drifts d5 = reconcile_drifts d3 /\
    reconcile_run_trades d5 = reconcile_run_trades d3) as (F1 & F2 & F3 & F4).
  { unfold d5, releaseLease, completeRun.
    match goal with |- context [(update_run _ ?g ?f (update_run _ ?g0 ?f0 d3).1).1] =>
      destruct (update_run_frame (ls_runKey lease) g f (update_run (ls_runKey lease) g0 f0 d3).1)
        as (-> & -> & -> & ->);
      destruct (update_run_frame (ls_runKey lease) g0 f0 d3) as (-> & -> & -> & ->) end. done. }
  rewrite Hcov in H. injection H as <-.
  assert (exists c, (if ro_cursorHeld o
            then recordCoverageTailSighting (ro_tailFirstSeenAt o) d5
            else advanceCoverageCursor (rc_nextCursor cov) (cb_blockNumber (rc_boundary cov))
                   (cb_blockHash (rc_boundary cov)) (ro_tailFirstSeenAt o) d5) = with_cursor c d5)
    as [c ->] by (destruct (ro_cursorHeld o); eexists; reflexivity).
  destruct Hps. split;
    cbn [reconcile_runs enumeration_cycles enumeration_members reconcile_drifts
         reconcile_run_trades with_cursor]; rewrite ?F1, ?F2, ?F3, ?F4; try done.
  exists row, row', stats. rewrite Hd, ps_runs0, insert_insert_eq.
  split_and!; try done; try congruence. exists cov. by split; [|apply ps_coverage0].
Qed.

Lemma publish_runs lease disc o now d d' :
  runs_ok d -> st_status (ro_stats o) = COMPLETED ->
  (exists cov, st_coverage (ro_stats o) = Some cov) ->
  finalizeRun lease disc o now d = Ok d' -> runs_ok d' /\ runs_evolve d d'.
Proof.
  intros Hok Hst Hcov H. apply finalizeRun_frame in H as [Hrow _ _ _ _ _ _ _]; [|done..].
  destruct Hrow as (row & row' & stats & Hr & Hm & Hd & He & Ho & _). split.
  - eapply runs_ok_insert; [done..|]. congruence.
  - eapply runs_insert; [done..|]. split; [lia|]. intros ?.
    by destruct (lease_matches_live _ _ _ _ Hok Hr Hm).
Qed.

(** ** Cycles and what they show *)

Definition members_of (id : string) (d : recon_db) : list MemberRow :=
  List.filter (fun m => String.eqb (mb_cycle_id m) id) (enumeration_members d).

(** What later reads of a cycle can see: its members and the drift of its
    completed runs. *)
Definition cycle_view (id : string) (d : recon_db) : list MemberRow * list DriftRow :=
  (members_of id d, List.filter (cycle_drift id d) (reconcile_drifts d)).

(** A cycle row changes only together with its generation, and never once
    finished; as long as it does not change, neither does its view. *)
Definition cycles_evolve (d d' : recon_db) : Prop :=
  forall c, c ∈ enumeration_cycles d -> exists c', c' ∈ enumeration_cycles d' /\
    ec_id c' = ec_id c /\ ec_generation c <= ec_generation c' /\
    (ec_generation c' = ec_generation c \/ ec_finished c = true ->
     c' = c /\ cycle_view (ec_id c) d' = cycle_view (ec_id c) d).

#[export] Instance cycles_evolve_preorder : PreOrder cycles_evolve.
Proof.
  split; [intros d c Hc; by exists c|].
  intros a b e Hab Hbe c Hc. apply Hab in Hc as (c1 & Hc1 & Hid1 & Hg1 & Hs1).
  apply Hbe in Hc1 as (c2 & Hc2 & Hid2 & Hg2 & Hs2). exists c2.
  split_and!; [done | congruence | lia |]. intros H.
  assert (c1 = c /\ cycle_view (ec_id c) b = cycle_view (ec_id c) a) as [-> Hv1].
  { apply Hs1. destruct H; [left; lia | by right]. }
  destruct (Hs2 H) as [-> Hv2]. split; [done | congruence].
Qed.

(** A step that touches no cycle, no member, no drift row, and only run rows
    that are not completed before nor after. *)
Lemma cycles_frame d d' :
  enumeration_cycles d' = enumeration_cycles d -> enumeration_members d' = enumeration_members d ->
  reconcile_drifts d' = reconcile_drifts d ->
  (forall id row, cycle_drift id d' row = cycle_drift id d row) -> cycles_evolve d d'.
Proof.
  intros Hc Hm Hd Hcd c Hin. exists c. rewrite Hc. split_and!; [done..|lia|]. intros _.
  split; [done|]. unfold cycle_view, members_of. rewrite Hm, Hd. f_equal.
  apply List.filter_ext. auto.
Qed.

Lemma cycle_drift_insert d d' key row' :
  reconcile_runs d' = <[key := row']> (reconcile_runs d) ->
  (forall row, reconcile_runs d !! key = Some row -> rr_status row <> COMPLETED) ->
  rr_status row' <> COMPLETED ->
  forall id r, cycle_drift id d' r = cycle_drift id d r.
Proof.
  intros Hd Hold Hnew id r. unfold cycle_drift. rewrite Hd.
  destruct (decide (dr_run_key r = key)) as [->|Hne]; [|by rewrite lookup_insert_ne].
  rewrite lookup_insert_eq, (bool_decide_false (rr_status row' = _)) by done. rewrite andb_false_r.
  destruct (reconcile_runs d !! key) as [row|] eqn:E; [|done].
  rewrite (bool_decide_false (rr_status row = _)) by (by apply Hold). by rewrite andb_false_r.
Qed.

Lemma update_run_cycles key guard f d :
  (forall row, reconcile_runs d !! key = Some row -> guard row = true ->
     rr_status row <> COMPLETED /\ rr_status (f row) <> COMPLETED) ->
  cycles_evolve d (update_run key guard f d).1.
Proof.
  intros H. destruct (update_run_cases key guard f d) as [->|(row & Hr & Hg & ->)]; [done|].
  destruct (H row Hr Hg) as [H1 H2]. apply cycles_frame; try done.
  eapply cycle_drift_insert; [reflexivity | | exact H2]. intros row0 Hr0. congruence.
Qed.

Lemma lease_ops_cycles d :
  runs_ok d ->
  (forall key mode owner ttl now id, cycles_evolve d (claimRun key mode owner ttl now id d).1) /\
  (forall lease ttl now, cycles_evolve d (heartbeatLease lease ttl now d).1) /\
  (forall lease, cycles_evolve d (releaseLease lease d).1) /\
  (forall lease m now, cycles_evolve d (failRun lease m now d).1) /\
  (forall ttl now, cycles_evolve d (markAbandonedRuns ttl now d)) /\
  (forall lease tail now d', finalizeInconclusiveRun lease tail now d = Ok d' -> cycles_evolve d d').
Proof.
  intros Hok. split_and!.
  - intros. unfold claimRun. destruct (reconcile_runs d !! key) as [row|] eqn:E.
    + destruct (claimable ttl now row) eqn:G; [|done]. apply cycles_frame; try done.
      eapply cycle_drift_insert; [reflexivity| |done]. intros row0 Hr Hs.
      unfold claimable in G. simplify_eq. by rewrite bool_decide_true in G.
    + apply cycles_frame; try done. eapply cycle_drift_insert; [reflexivity| |done]. congruence.
  - intros. apply update_run_cycles. intros row Hr G. cbn. reflect_bools. split; congruence.
  - intros. apply update_run_cycles. intros row Hr G. cbn. apply andb_true_iff in G as [G _].
    split; by eapply lease_matches_live.
  - intros. apply update_run_cycles. intros row Hr G. cbn. apply andb_true_iff in G as [G _].
    split; [by eapply lease_matches_live | done].
  - intros. apply cycles_frame; try done. intros id r. unfold cycle_drift. cbn.
    rewrite lookup_fmap. destruct (reconcile_runs d !! dr_run_key r) as [row|]; [|done]. cbn.
    destruct (bool_decide (rr_status row = RUNNING) && expiryPredicate ttl now row) eqn:G; [|done].
    cbn. reflect_bools.
    rewrite !(bool_decide_false (_ = COMPLETED)) by congruence. by rewrite !andb_false_r.
  - intros lease tail now d' H.
    apply inconclusive_frame in H as (row & row' & Hr & Hm & Hd & _ & Hs & H1 & H2 & H3 & _).
    apply cycles_frame; try done. eapply cycle_drift_insert; [exact Hd| |congruence].
    intros row0 Hr0. simplify_eq. by eapply lease_matches_live.
Qed.

Definition cycles_ok (d : recon_db) : Prop := NoDup (map ec_id (enumeration_cycles d)).

Lemma cycle_unique d c c' :
  cycles_ok d -> c ∈ enumeration_cycles d -> c' ∈ enumeration_cycles d -> ec_id c = ec_id c' -> c = c'.
Proof.
  unfold cycles_ok. induction (enumeration_cycles d) as [|x l IH]; [by intros _ ?%not_elem_of_nil|].
  cbn. intros [Hn Hd]%NoDup_cons Hc Hc' He.
  apply elem_of_cons in Hc as [->|Hc], Hc' as [->|Hc']; [done| | |by apply IH].
  - destruct Hn. rewrite He. by apply list_elem_of_fmap_2.
  - destruct Hn. rewrite <- He. by apply list_elem_of_fmap_2.
Qed.

Lemma cycle_matches_true cycle c :
  cycle_matches cycle c = true <->
  ec_id c = ec_id cycle /\ ec_generation c = ec_generation cycle /\ ec_finished c = false.
Proof.
  unfold cycle_matches. split.
  - intros H. by reflect_bools.
  - intros (-> & -> & ->). by rewrite String.eqb_refl, Z.eqb_refl.
Qed.

(** The matched row, and how the rows change. *)
Lemma publish_cycle_rows lease disc o d d' :
  cycles_ok d -> publish_frame lease disc o d d' ->
  cycles_ok d' /\
  exists c0, c0 ∈ enumeration_cycles d /\ cycle_matches (dc_cycle disc) c0 = true /\
    advanced_cycle (en_page (ro_enumeration o)) (ro_coherent o)
      (if ro_cursorHeld o then dc_chainCursor disc else cw_nextCursor (ro_window o))
      (ro_cycleFinished o) c0 ∈ enumeration_cycles d' /\
    (forall c, c ∈ enumeration_cycles d -> ec_id c <> ec_id c0 -> c ∈ enumeration_cycles d') /\
    (forall c, c ∈ enumeration_cycles d' -> ec_id c <> ec_id c0 -> c ∈ enumeration_cycles d).
Proof.
  intros Hok Hf. pose proof (pf_cycles _ _ _ _ _ Hf) as Hd.
  pose proof (pf_matched _ _ _ _ _ Hf) as Hm. apply existsb_elem in Hm as (c0 & Hc0 & Hm).
  set (upd := fun c => if cycle_matches (dc_cycle disc) c then _ else c) in Hd.
  assert (forall c, ec_id (upd c) = ec_id c) as Hid
    by (intros c; unfold upd; by destruct (cycle_matches _ c)).
  assert (forall c, c ∈ enumeration_cycles d -> ec_id c <> ec_id c0 -> upd c = c) as Hother.
  { intros c Hc Hne. unfold upd. destruct (cycle_matches (dc_cycle disc) c) eqn:E; [|done].
    apply cycle_matches_true in E as (E & _), Hm as (Hm & _). congruence. }
  split.
  - unfold cycles_ok. rewrite Hd, map_map. unfold cycles_ok in Hok.
    by rewrite (map_ext _ _ Hid).
  - exists c0. split_and!; [done | done | | |].
    + rewrite Hd. apply list_elem_of_fmap. exists c0. split; [|done]. unfold upd. by rewrite Hm.
    + intros c Hc Hne. rewrite Hd, <- (Hother c Hc Hne). by apply list_elem_of_fmap_2.
    + intros c Hc Hne. rewrite Hd in Hc. apply list_elem_of_fmap in Hc as (c1 & -> & Hc1).
      rewrite Hid in Hne. by rewrite Hother.
Qed.

Lemma cycle_drift_others d d' key row' id r :
  reconcile_runs d' = <[key := row']> (reconcile_runs d) -> dr_run_key r <> key ->
  cycle_drift id d' r = cycle_drift id d r.
Proof. intros Hd Hne. unfold cycle_drift. by rewrite Hd, lookup_insert_ne. Qed.

(** A filter that keeps nothing of one run sees only the others. *)
Lemma filter_others (p : DriftRow -> bool) key rows :
  (forall r, dr_run_key r = key -> p r = false) ->
  List.filter p rows = List.filter p (drifts_of_others key rows).
Proof.
  intros H. unfold drifts_of_others. induction rows as [|r rows IH]; [done|]. cbn.
  destruct (String.eqb_spec (dr_run_key r) key) as [He|He]; cbn; [by rewrite H|].
  destruct (p r); by rewrite IH.
Qed.

Lemma filter_map_none {A B} (p : B -> bool) (f : A -> B) l :
  (forall x, p (f x) = false) -> List.filter p (map f l) = [].
Proof. intros H. induction l as [|x l IH]; [done|]. cbn. by rewrite H. Qed.

Lemma publish_view lease disc o d d' id :
  runs_ok d -> publish_frame lease disc o d d' -> id <> ec_id (dc_cycle disc) ->
  cycle_view id d' = cycle_view id d.
Proof.
  intros Hok Hf Hne.
  destruct (pf_row _ _ _ _ _ Hf) as (row & row' & stats & Hr & Hm & Hd & _ & _ & Hs & Hc & _).
  pose proof (lease_matches_live _ _ _ _ Hok Hr Hm) as Hlive. unfold cycle_view. f_equal.
  - unfold members_of. rewrite (pf_members _ _ _ _ _ Hf), List.filter_app.
    rewrite filter_map_none, app_nil_r; [done|]. intros r. cbn. apply String.eqb_neq. congruence.
  - rewrite (filter_others _ (ls_runKey lease) (reconcile_drifts d')),
      (filter_others _ (ls_runKey lease) (reconcile_drifts d)), (pf_others _ _ _ _ _ Hf).
    + apply List.filter_ext_in. intros r Hin. apply filter_In in Hin as [_ Hin].
      apply negb_true_iff, String.eqb_neq in Hin. by eapply cycle_drift_others.
    + intros r Hk. unfold cycle_drift. rewrite Hk, Hr.
      rewrite (bool_decide_false (rr_status row = _)) by done. by rewrite andb_false_r.
    + intros r Hk. unfold cycle_drift. rewrite Hk, Hd, lookup_insert_eq, Hc.
      rewrite bool_decide_false; [done|]. congruence.
Qed.

Lemma publish_cycles lease disc o d d' :
  runs_ok d -> cycles_ok d -> publish_frame lease disc o d d' -> cycles_evolve d d'.
Proof.
  intros Hr Hok Hf. destruct (publish_cycle_rows _ _ _ _ _ Hok Hf) as (_ & c0 & Hc0 & Hm & Hadv & Hkeep & _).
  apply cycle_matches_true in Hm as (Hid & Hg & Hfin). intros c Hc.
  destruct (decide (ec_id c = ec_id c0)) as [He|He].
  - apply (cycle_unique d) in He as ->; [|done..]. eexists. split; [exact Hadv|].
    cbn. split_and!; [done | destruct (ro_cycleFinished o); lia |].
    intros [H|H]; [destruct (ro_cycleFinished o); lia | congruence].
  - exists c. split_and!; [by apply Hkeep | done | lia |]. intros _. split; [done|].
    eapply publish_view; [done..|]. congruence.
Qed.

(** ** Histories *)

Section histories.
Context (isAddress : string -> bool) (getAddress : string -> string) (config : ReconConfig).
Notation recon_op := (recon_op isAddress getAddress config).
Notation recon_history := (recon_history isAddress getAddress config).

Definition base_ok (w : world) : Prop := runs_ok (w_db w) /\ cycles_ok (w_db w).

Definition scope_of (key : string) (d : recon_db) : list ScopeRow :=
  List.filter (fun s => String.eqb (sc_run_key s) key) (reconcile_run_trades d).

(** The drift and scope rows of completed runs stay as they are. *)
Definition evidence_kept (d d' : recon_db) : Prop :=
  forall key row, reconcile_runs d !! key = Some row -> rr_status row = COMPLETED ->
    drifts_of key (reconcile_drifts d') = drifts_of key (reconcile_drifts d) /\
    scope_of key d' = scope_of key d.

(** What holds between an earlier and a later world of a history. *)
Record later (w w' : world) : Prop := {
  lt_runs : runs_evolve (w_db w) (w_db w');
  lt_evidence : evidence_kept (w_db w) (w_db w');
  lt_cycles : cycles_evolve (w_db w) (w_db w');
  lt_log : exists newer, w_log w' = (newer ++ w_log w)%list
}.

#[export] Instance later_preorder : PreOrder later.
Proof.
  split.
  - intros w. split; [done | by intros ? ? | done | by exists []].
  - intros a b c [H1 E1 H2 [l Hl]] [H3 E2 H4 [m Hm]].
    split; [by etrans | | by etrans |].
    + intros key row Hr Hs. destruct (H1 _ _ Hr) as (row' & Hr' & [_ He]).
      rewrite (He Hs) in Hr'.
      destruct (E1 _ _ Hr Hs), (E2 _ _ Hr' Hs). split; congruence.
    + exists (m ++ l)%list. by rewrite Hm, Hl, app_assoc.
Qed.

Lemma later_log w w' p : later w w' -> p ∈ w_log w -> p ∈ w_log w'.
Proof. intros [_ _ _ [l ->]] Hp. apply elem_of_app. by right. Qed.

Lemma prepare_frame active history boundary prev source upper expected uuid d d' disc :
  prepareEnumeration active history boundary prev source upper expected uuid d = Ok (d', disc) ->
  d' = d \/
  exists c, d' = with_cycles (enumeration_cycles d ++ [c])%list d /\ ec_id c = uuid /\
    (ec_coherent c = true -> ec_chain_cursor c = 0) /\ ec_walked c = 0.
Proof.
  unfold prepareEnumeration. destruct active as [c|]; [intros [= <- _]; by left|].
  intros H. apply bind_ok in H as ([d1 c] & Hc & [= <- _]). unfold createEnumerationCycle in Hc.
  destruct (readActiveEnumerationCycle d); injection Hc as <- <-; [by left|].
  right. eexists. split_and!; [reflexivity | done | | done]. cbn. by intros ?%Z.eqb_eq.
Qed.

Lemma new_cycle_ok d c uuid :
  cycles_ok d -> (forall c, c ∈ enumeration_cycles d -> ec_id c <> uuid) -> ec_id c = uuid ->
  cycles_ok (with_cycles (enumeration_cycles d ++ [c])%list d) /\
  cycles_evolve d (with_cycles (enumeration_cycles d ++ [c])%list d).
Proof.
  intros Hok Hfresh Hid. split.
  - unfold cycles_ok. cbn. rewrite map_app. apply NoDup_app. split_and!; [done| |apply NoDup_singleton].
    intros x Hx ->%list_elem_of_singleton. apply list_elem_of_fmap in Hx as (c1 & Hx & Hc1).
    destruct (Hfresh c1 Hc1). congruence.
  - intros c1 Hc1. exists c1. cbn. split_and!; [apply elem_of_app; by left | done | lia | done].
Qed.

Lemma scope_filter_others key other scope :
  key <> other ->
  List.filter (fun s => String.eqb (sc_run_key s) key) scope =
  List.filter (fun s => String.eqb (sc_run_key s) key)
    (List.filter (fun s => negb (String.eqb (sc_run_key s) other)) scope).
Proof.
  intros Hne. induction scope as [|s l IH]; [done|]. cbn.
  destruct (String.eqb_spec (sc_run_key s) other) as [->|]; cbn.
  - rewrite (proj2 (String.eqb_neq other key)); congruence.
  - destruct (String.eqb (sc_run_key s) key); congruence.
Qed.

Lemma publish_evidence lease disc o d d' :
  runs_ok d -> publish_frame lease disc o d d' -> evidence_kept d d'.
Proof.
  intros Hok Hf key row Hk Hs.
  destruct (pf_row _ _ _ _ _ Hf) as (r0 & _ & _ & Hr & Hm & _).
  assert (key <> ls_runKey lease) as Hne.
  { intros ->. rewrite Hr in Hk. injection Hk as ->.
    by destruct (lease_matches_live _ _ _ _ Hok Hr Hm). }
  split.
  - unfold drifts_of. rewrite (filter_others _ (ls_runKey lease) (reconcile_drifts d')),
      (filter_others _ (ls_runKey lease) (reconcile_drifts d)), (pf_others _ _ _ _ _ Hf); [done|..];
      intros r ->; by apply String.eqb_neq.
  - unfold scope_of. rewrite (scope_filter_others key (ls_runKey lease) (reconcile_run_trades d')),
      (scope_filter_others key (ls_runKey lease) (reconcile_run_trades d)) by done.
    by rewrite (pf_scope _ _ _ _ _ Hf).
Qed.

Lemma op_later past w w' :
  base_ok w -> recon_op past w w' -> base_ok w' /\ later w w'.
Proof.
  intros [Hr Hc] Hop.
  destruct (lease_ops_cycles (w_db w) Hr) as (L1 & L2 & L3 & L4 & L5 & L6).
  assert (forall d, runs_ok d /\ runs_evolve (w_db w) d -> cycles_evolve (w_db w) d ->
    enumeration_cycles d = enumeration_cycles (w_db w) /\
      enumeration_members d = enumeration_members (w_db w) /\
      reconcile_drifts d = reconcile_drifts (w_db w) /\
      reconcile_run_trades d = reconcile_run_trades (w_db w) ->
    base_ok (with_db d w) /\ later w (with_db d w)) as Hlift.
  { intros d [H1 H2] H3 (H4 & _ & H5 & H6).
    split; [split; [done|]; unfold cycles_ok; cbn; by rewrite H4|].
    split; [done | | done | by exists []].
    intros key row _ _. unfold scope_of. cbn. by rewrite H5, H6. }
  destruct Hop as [key mode owner ttl now id| | | | |? ? ? ? ? ? ? uuid ? ? ? ? ? Hfresh Hp|lease tail now d Hd|
    ? ? ? ? ? ? cycle reads source cursor lease now o d _ _ _ _ _ Hbody Hfin].
  - apply Hlift; [by apply claimRun_runs | apply L1 |]. unfold claimRun.
    destruct (_ !! key); [destruct (claimable ttl now _)|]; done.
  - apply Hlift; [by apply heartbeat_runs | apply L2 | apply update_run_frame].
  - apply Hlift; [by apply release_runs | apply L3 | apply update_run_frame].
  - apply Hlift; [by apply abandon_runs | apply L5 | done].
  - apply Hlift; [by apply fail_runs | apply L4 | apply update_run_frame].
  - apply prepare_frame in Hp as [->|(c & -> & Hid & _)].
    + split; [done|]. split; [done | by intros ? ? | done | by exists []].
    + destruct (new_cycle_ok (w_db w) c uuid Hc Hfresh Hid) as [Hn1 Hn2].
      split; [by split|].
      split; [intros k r ?; by exists r | by intros ? ? | done | by exists []].
  - apply Hlift; [by eapply inconclusive_runs | by eapply L6 |].
    by apply inconclusive_frame in Hd as (? & ? & _ & _ & _ & _ & _ & ? & ? & ? & ?).
  - apply run_body_facts in Hbody. destruct (rf_coverage Hbody) as (cov & Hcov & _).
    pose proof (rf_status Hbody) as Hst.
    assert (publish_frame lease (discovery_of cycle (rd_boundary reads) source) o (w_db w) d) as Hf
      by (eapply finalizeRun_frame; eauto).
    destruct (publish_runs _ _ _ _ _ _ Hr Hst ltac:(eauto) Hfin) as [H1 H2].
    split; [split; [done | by eapply publish_cycle_rows]|].
    split; [done | by eapply publish_evidence | by eapply publish_cycles |].
    eexists [_]. reflexivity.
Qed.

Lemma history_base h w : recon_history (w :: h) -> base_ok w.
Proof.
  remember (w :: h) as l eqn:E. intros H. revert w h E.
  induction H as [|past w w' Hh IH Hop]; intros w0 h0 [= <- <-].
  - split; [apply map_Forall_empty | constructor].
  - eapply op_later; [by eapply IH | exact Hop].
Qed.

Lemma history_later h i j wi wj :
  recon_history h -> h !! i = Some wi -> h !! j = Some wj -> (j <= i)%nat -> later wi wj.
Proof.
  intros Hh. revert i j wi wj. induction Hh as [|past w w' Hh IH Hop]; intros i j wi wj Hi Hj Hle.
  - destruct i as [|i]; [|done]. destruct j; [|lia]. by simplify_eq.
  - destruct (op_later _ _ _ (history_base _ _ Hh) Hop) as [_ Hs].
    destruct i as [|i], j as [|j]; [by simplify_eq | lia | |].
    + simplify_eq/=. etrans; [|exact Hs]. apply (IH i 0%nat); [done | done | lia].
    + simplify_eq/=. apply (IH i j); [done | done | lia].
Qed.

(** ** Leases *)

Lemma stale_lease_refused lease d row :
  reconcile_runs d !! ls_runKey lease = Some row -> rr_lease_epoch row <> ls_epoch lease ->
  (forall disc o now, is_ok (finalizeRun lease disc o now d) = false) /\
  (forall tail now, is_ok (finalizeInconclusiveRun lease tail now d) = false) /\
  (forall ttl now, heartbeatLease lease ttl now d = (d, false)) /\
  (forall m now, failRun lease m now d = (d, false)) /\
  releaseLease lease d = (d, false).
Proof.
  intros Hr He. assert (lease_matches lease row = false) as Hm.
  { unfold lease_matches. apply andb_false_iff. right. by apply Z.eqb_neq. }
  assert (forall now, assertLeaseHeld lease now d = Err "Reconciliation lease lost") as Ha.
  { intros now. unfold assertLeaseHeld. by rewrite Hr, Hm. }
  split_and!; intros.
  - unfold finalizeRun. by rewrite Ha.
  - unfold finalizeInconclusiveRun. by rewrite Ha.
  - unfold heartbeatLease, update_run. by rewrite Hr, Hm.
  - unfold failRun, update_run. by rewrite Hr, Hm.
  - unfold releaseLease, update_run. by rewrite Hr, Hm.
Qed.

Lemma claimRun_granted key mode owner ttl now id d d' lease from :
  claimRun key mode owner ttl now id d = (d', Claimed lease from) ->
  ls_runKey lease = key /\
  (exists row, reconcile_runs d' !! key = Some row /\ rr_lease_epoch row = ls_epoch lease) /\
  (forall row, reconcile_runs d !! key = Some row -> rr_lease_epoch row < ls_epoch lease).
Proof.
  unfold claimRun. destruct (reconcile_runs d !! key) as [row|] eqn:E.
  - destruct (claimable ttl now row).
    + intros [= <- <- _]. cbn. rewrite lookup_insert_eq. split_and!; [done | eauto |].
      intros ? [= <-]. lia.
    + by destruct (bool_decide _).
  - intros [= <- <- _]. cbn. rewrite lookup_insert_eq. split_and!; [done | eauto | done].
Qed.

(** C20. Fencing: when a run key is granted to a second worker, the first lease
    has a smaller epoch, and from then on, whatever else happens, the displaced
    worker can no longer publish, conclude, heartbeat, fail or release the run. *)
Theorem lease_fencing h i1 i2 j w1 w1' w2 w2' w key mode1 owner1 ttl1 now1 id1 lease1 from1
    mode2 owner2 ttl2 now2 id2 lease2 from2 :
  recon_history h ->
  h !! S i1 = Some w1 -> h !! i1 = Some w1' ->
  claimRun key mode1 owner1 ttl1 now1 id1 (w_db w1) = (w_db w1', Claimed lease1 from1) ->
  h !! S i2 = Some w2 -> h !! i2 = Some w2' -> (S i2 <= i1)%nat ->
  claimRun key mode2 owner2 ttl2 now2 id2 (w_db w2) = (w_db w2', Claimed lease2 from2) ->
  h !! j = Some w -> (j <= i2)%nat ->
  ls_epoch lease1 < ls_epoch lease2 /\
  (forall disc o now, is_ok (finalizeRun lease1 disc o now (w_db w)) = false) /\
  (forall tail now, is_ok (finalizeInconclusiveRun lease1 tail now (w_db w)) = false) /\
  (forall ttl now, heartbeatLease lease1 ttl now (w_db w) = (w_db w, false)) /\
  (forall m now, failRun lease1 m now (w_db w) = (w_db w, false)) /\
  releaseLease lease1 (w_db w) = (w_db w, false).
Proof.
  intros Hh H1 H1' C1 H2 H2' Hle C2 Hj Hji.
  apply claimRun_granted in C1 as (K1 & (r1 & R1 & E1) & _), C2 as (K2 & (r2 & R2 & E2) & Hlt).
  destruct (lt_runs _ _ (history_later _ _ _ _ _ Hh H1' H2 Hle) _ _ R1) as (r1' & R1' & [M1 _]).
  destruct (lt_runs _ _ (history_later _ _ _ _ _ Hh H2' Hj Hji) _ _ R2) as (r & R & [M2 _]).
  specialize (Hlt _ R1'). split; [lia|].
  apply (stale_lease_refused _ _ r); [congruence | lia].
Qed.

(** Completed evidence is immutable: once a run is recorded as completed, its
    row, its drift rows and the trades it vouches for are never changed again by
    any operation of any worker. *)
Theorem completed_run_immutable h i j w w' key row :
  recon_history h -> h !! i = Some w -> h !! j = Some w' -> (j <= i)%nat ->
  reconcile_runs (w_db w) !! key = Some row -> rr_status row = COMPLETED ->
  reconcile_runs (w_db w') !! key = Some row /\
  drifts_of key (reconcile_drifts (w_db w')) = drifts_of key (reconcile_drifts (w_db w)) /\
  scope_of key (w_db w') = scope_of key (w_db w).
Proof.
  intros Hh Hi Hj Hle Hr Hs. pose proof (history_later _ _ _ _ _ Hh Hi Hj Hle) as Hl.
  destruct (lt_runs _ _ Hl _ _ Hr) as (row' & Hr' & [_ He]). rewrite (He Hs) in Hr'.
  split; [done | by apply (lt_evidence _ _ Hl _ _ Hr)].
Qed.

End histories.
