(* ===== verification/ReconSound.v ===== *)
(** What a published reconciliation result is worth: a run recorded as complete
    and free of drift proves that, at one and the same chain point, every id the
    chain allocated agrees with the indexer in every compared field, and that
    the indexer's own ids are distinct allocated ids ([complete_clean_run_sound]).
    Proved as an invariant of every interleaved history. *)
From stdpp Require Import base list strings gmap.
From S2P Require Import Prelude JsText JsDate JsMap ReconTypes ReconCoverage ReconClassifier.
From S2P Require Import ReconDb ReconRun ReconRunInv ReconHistory.

Open Scope string_scope.
Open Scope Z_scope.

(** ** Windows, again, from an arbitrary cursor *)

Lemma plan_covers cursor counter budget w n :
  planCoverageWindow cursor counter budget = Ok w ->
  0 <= n -> cursor <= n < cw_nextCursor w -> print_Z n ∈ tradeIdsInWindow w.
Proof.
  intros Hw Hn Hr.
  assert (planCoverageWindow (Z.max 0 cursor) counter budget = Ok w) as Hw'.
  { unfold planCoverageWindow in *. destruct (budget <=? 0); [done|].
    destruct (Z.ltb_spec cursor 0), (Z.ltb_spec (Z.max 0 cursor) 0); try lia;
      by replace (Z.max 0 cursor) with (if cursor <? 0 then 0 else cursor)
        by (destruct (Z.ltb_spec cursor 0); lia);
      destruct (Z.ltb_spec cursor 0); try lia. }
  apply planCoverageWindow_ok in Hw' as [_ [(Hge & _ & He & _)|(Hlt & _ & Hids & _)]]; [lia| |lia].
  rewrite Hids. apply id_range_elem. exists n. split; [done | lia].
Qed.

Lemma plan_complete cursor counter budget w :
  planCoverageWindow cursor counter budget = Ok w -> cw_complete w = true ->
  cw_nextCursor w = counter.
Proof.
  unfold planCoverageWindow. destruct (budget <=? 0); [done|].
  destruct (counter <=? _); intros [= <-]; cbn; [done|]. by intros ?%Z.eqb_eq.
Qed.

(** ** Repeated identities across pages *)

Lemma count_repeated_grow ids m r :
  (forall id, 0 <= default 0 (map_get id m)) ->
  (foldl (fun '(counts, repeated) id =>
     let count := default 0 (map_get id counts) + 1 in
     (map_set id count counts,
      if 1 <? count then if includes repeated id then repeated else (repeated ++ [id])%list
      else repeated)) (m, r) ids).2 = [] ->
  r = [] /\ NoDup ids /\ forall id, id ∈ ids -> default 0 (map_get id m) <= 0.
Proof.
  revert m r. induction ids as [|x ids IH]; intros m r Hpos; cbn [foldl].
  - cbn. intros ->. split_and!; [done | constructor | by intros ? ?%not_elem_of_nil].
  - intros (Hr & Hnd & Hall)%IH.
    2: { intros id. rewrite map_get_set_case. specialize (Hpos x) as Hx. specialize (Hpos id).
         destruct (String.eqb x id); cbn in *; lia. }
    specialize (Hpos x).
    destruct (Z.ltb_spec 1 (default 0 (map_get x m) + 1)).
    + exfalso. destruct (includes r x) eqn:E; [|by destruct r].
      subst. by apply includes_true, not_elem_of_nil in E.
    + split_and!; [done| |].
      * constructor; [|done]. intros Hx. apply Hall in Hx. rewrite map_get_set in Hx. cbn in Hx. lia.
      * intros id [->|Hid]%elem_of_cons; [lia|]. apply Hall in Hid.
        rewrite map_get_set_case in Hid. destruct (String.eqb_spec x id) as [->|]; [|done]. lia.
Qed.

Lemma occurrences_pos id ids : id ∈ ids -> 0 < occurrences id ids.
Proof.
  intros H. unfold occurrences.
  assert (In id (List.filter (String.eqb id) ids)) as Hin.
  { apply filter_In. rewrite String.eqb_refl. split; [by apply list_elem_of_In | done]. }
  destruct (List.filter _ ids); [done|]. cbn. lia.
Qed.

(** No repeated identity: the page adds only new and distinct ids to the cycle. *)
Lemma enumeration_distinct config query cycle d en :
  enumerateIndexer config query cycle
    (fun ids => previousIdentityCounts (ec_id cycle) ids d) = Ok en ->
  en_duplicates en = [] ->
  NoDup (en_tradeIds en) /\
  forall m, m ∈ members_of (ec_id cycle) d -> mb_trade_id m ∉ en_tradeIds en.
Proof.
  unfold enumerateIndexer. intros H. apply bind_ok in H as (page & _ & H).
  set (ids := map ir_tradeId (ip_records page)) in *.
  set (prev := previousIdentityCounts _ ids d) in *.
  destruct (count_repeated prev ids) as [counts repeated] eqn:E. injection H as <-. cbn.
  intros Hnil. apply map_eq_nil in Hnil as ->.
  assert (forall id, default 0 (map_get id prev) =
    occurrences id (map mb_trade_id (List.filter
      (fun m => String.eqb (mb_cycle_id m) (ec_id cycle) && includes ids (mb_trade_id m))
      (enumeration_members d)))) as Hprev.
  { intros id. unfold prev, previousIdentityCounts. rewrite count_ids_get. cbn [map_get].
    destruct (Z.ltb_spec 0 (occurrences id (map mb_trade_id (List.filter
      (fun m => String.eqb (mb_cycle_id m) (ec_id cycle) && includes ids (mb_trade_id m))
      (enumeration_members d))))); cbn; [done|]. unfold occurrences in *. lia. }
  destruct (count_repeated_grow ids prev []) as (_ & Hnd & Hall).
  - intros id. rewrite Hprev. unfold occurrences. lia.
  - change ((count_repeated prev ids).2 = []). by rewrite E.
  - split; [done|]. intros m Hm Hin. specialize (Hall _ Hin). rewrite Hprev in Hall.
    enough (0 < occurrences (mb_trade_id m) (map mb_trade_id (List.filter
      (fun m => String.eqb (mb_cycle_id m) (ec_id cycle) && includes ids (mb_trade_id m))
      (enumeration_members d)))) by lia.
    apply occurrences_pos, list_elem_of_fmap_2, list_elem_of_In, filter_In.
    apply list_elem_of_In, filter_In in Hm as [Hm ->]. split; [done|]. by apply includes_true.
Qed.

Section soundness.
Context (isAddress : string -> bool) (getAddress : string -> string) (config : ReconConfig).
Notation recon_op := (recon_op isAddress getAddress config).
Notation recon_history := (recon_history isAddress getAddress config).
Notation run_facts := (run_facts isAddress getAddress).

Definition cycle_of (p : Published) : string := ec_id (dc_cycle (pb_discovery p)).
Definition findings_of (p : Published) : list DriftFinding := sn_findings (ro_scan (pb_outcome p)).

Definition anchored (c : EnumerationCycle) (b : CoverageBoundary) : Prop :=
  ec_anchor_block c = cb_blockNumber b /\ ec_anchor_hash c = toLowerCase (cb_blockHash b) /\
  ec_chain_counter c = cb_chainTradeCounter b.

(** Two boundaries name the same block of the chain, with the same counter. *)
Definition same_point (a b : CoverageBoundary) : Prop :=
  cb_blockNumber a = cb_blockNumber b /\
  toLowerCase (cb_blockHash a) = toLowerCase (cb_blockHash b) /\
  cb_chainTradeCounter a = cb_chainTradeCounter b.

(** The run proved the id: absent on both sides, or present on both and in
    agreement on every compared field. *)
Definition verified (reads : RunReads) (id : string) : Prop :=
  absent_on_both reads id \/
  exists t ix, present_on_both isAddress getAddress reads id t ix /\
    agrees isAddress getAddress ix t.

Record cycle_inv (w : world) (c : EnumerationCycle) : Prop := {
  ci_covered : ec_coherent c = true -> forall n, 0 <= n < ec_chain_cursor c ->
    exists p, p ∈ w_log w /\ cycle_of p = ec_id c /\
      print_Z n ∈ tradeIdsInWindow (ro_window (pb_outcome p));
  ci_anchor : ec_coherent c = true -> forall p, p ∈ w_log w -> cycle_of p = ec_id c ->
    anchored c (rd_boundary (pb_reads p));
  ci_members : forall m, m ∈ members_of (ec_id c) (w_db w) -> exists p, p ∈ w_log w /\
    cycle_of p = ec_id c /\ mb_trade_id m ∈ en_tradeIds (ro_enumeration (pb_outcome p));
  ci_distinct : (forall p, p ∈ w_log w -> cycle_of p = ec_id c -> findings_of p = []) ->
    NoDup (map mb_trade_id (members_of (ec_id c) (w_db w)));
  ci_walked : ec_walked c = Z.of_nat (length (members_of (ec_id c) (w_db w)))
}.

Record log_inv (w : world) (p : Published) : Prop := {
  li_row : exists row, reconcile_runs (w_db w) !! ls_runKey (pb_lease p) = Some row /\
    rr_status row = COMPLETED /\ rr_coverage_cycle_id row = Some (cycle_of p);
  li_drifts : forall f, f ∈ findings_of p ->
    published_drift (ls_runKey (pb_lease p)) f (reconcile_drifts (w_db w));
  li_cycle : exists c, c ∈ enumeration_cycles (w_db w) /\ ec_id c = cycle_of p;
  li_facts : exists counts hold,
    run_facts config (pb_reads p) (pb_discovery p) counts hold (pb_outcome p)
}.

Definition clean_conclusion (w : world) (cov : RunCoverage) : Prop :=
  (forall n, 0 <= n < cb_chainTradeCounter (rc_boundary cov) ->
     exists p, p ∈ w_log w /\ same_point (rd_boundary (pb_reads p)) (rc_boundary cov) /\
       verified (pb_reads p) (print_Z n)) /\
  (exists c, c ∈ enumeration_cycles (w_db w) /\ ec_id c = rc_enumerationCycleId cov /\
     ec_finished c = true) /\
  let ids := map mb_trade_id (members_of (rc_enumerationCycleId cov) (w_db w)) in
  NoDup ids /\
  Forall (fun id => unallocated (cb_chainTradeCounter (rc_boundary cov)) id = false) ids /\
  rc_indexerTradeCount cov = Some (Z.of_nat (length ids)).

(** The run read the trade on the chain and found the indexer in agreement. *)
Definition agreed (reads : RunReads) (id : string) : Prop :=
  exists t ix, present_on_both isAddress getAddress reads id t ix /\
    agrees isAddress getAddress ix t.

(** Every trade in the scope of run [key] was compared at the boundary of [cov]. *)
Definition scope_conclusion (w : world) (key : string) (cov : RunCoverage) : Prop :=
  forall s, s ∈ scope_of key (w_db w) -> exists p, p ∈ w_log w /\
    same_point (rd_boundary (pb_reads p)) (rc_boundary cov) /\ agreed (pb_reads p) (sc_trade_id s).

(** So was every trade in the scope of run [key] without a drift row of its own,
    whatever the run recorded about other trades. *)
Definition trade_conclusion (w : world) (key : string) (cov : RunCoverage) : Prop :=
  forall s, s ∈ scope_of key (w_db w) ->
    (forall r, r ∈ drifts_of key (reconcile_drifts (w_db w)) ->
       df_tradeId (dr_finding r) <> sc_trade_id s) ->
    exists p, p ∈ w_log w /\ same_point (rd_boundary (pb_reads p)) (rc_boundary cov) /\
      agreed (pb_reads p) (sc_trade_id s).

(** A scope row belongs to a completed run and names a trade in the scope of some
    published run of the same cycle. *)
Definition scope_row_inv (w : world) (s : ScopeRow) : Prop :=
  exists row p, reconcile_runs (w_db w) !! sc_run_key s = Some row /\ rr_status row = COMPLETED /\
    p ∈ w_log w /\ rr_coverage_cycle_id row = Some (cycle_of p) /\
    sc_trade_id s ∈ sn_scope (ro_scan (pb_outcome p)).

Definition clean_row (row : ReconcileRunRow) (cov : RunCoverage) : Prop :=
  rr_status row = COMPLETED /\ exists stats, rr_stats row = Some stats /\
    st_driftCount stats = 0 /\ st_coverage stats = Some cov /\ rc_complete cov = true.

(** A completed run with complete coverage. *)
Definition complete_row (row : ReconcileRunRow) (cov : RunCoverage) : Prop :=
  rr_status row = COMPLETED /\ exists stats, rr_stats row = Some stats /\
    st_coverage stats = Some cov /\ rc_complete cov = true.

Record world_inv (w : world) : Prop := {
  wi_base : base_ok w;
  wi_cycles : forall c, c ∈ enumeration_cycles (w_db w) -> cycle_inv w c;
  wi_log : forall p, p ∈ w_log w -> log_inv w p;
  wi_members : forall m, m ∈ enumeration_members (w_db w) ->
    exists c, c ∈ enumeration_cycles (w_db w) /\ ec_id c = mb_cycle_id m;
  wi_clean : forall key row cov, reconcile_runs (w_db w) !! key = Some row ->
    clean_row row cov -> clean_conclusion w cov /\ scope_conclusion w key cov;
  wi_scope : forall s, s ∈ reconcile_run_trades (w_db w) -> scope_row_inv w s;
  wi_trade : forall key row cov, reconcile_runs (w_db w) !! key = Some row ->
    complete_row row cov -> trade_conclusion w key cov
}.

(** ** Steps that publish nothing *)

Record quiet (w w' : world) : Prop := {
  q_later : later w w';
  q_log : w_log w' = w_log w;
  q_members : enumeration_members (w_db w') = enumeration_members (w_db w);
  q_scope : reconcile_run_trades (w_db w') = reconcile_run_trades (w_db w);
  q_drifts : reconcile_drifts (w_db w') = reconcile_drifts (w_db w);
  q_completed : forall key row, reconcile_runs (w_db w') !! key = Some row ->
    rr_status row = COMPLETED -> reconcile_runs (w_db w) !! key = Some row;
  q_cycles : forall c, c ∈ enumeration_cycles (w_db w') -> c ∈ enumeration_cycles (w_db w) \/
    ((forall c', c' ∈ enumeration_cycles (w_db w) -> ec_id c' <> ec_id c) /\
     (ec_coherent c = true -> ec_chain_cursor c = 0) /\ ec_walked c = 0)
}.

Lemma members_eq w w' id :
  enumeration_members (w_db w') = enumeration_members (w_db w) ->
  members_of id (w_db w') = members_of id (w_db w).
Proof. unfold members_of. by intros ->. Qed.

(** Rows that exist in one world exist in every later one, under the same id. *)
Lemma later_cycle w w' id :
  later w w' -> (exists c, c ∈ enumeration_cycles (w_db w) /\ ec_id c = id) ->
  exists c, c ∈ enumeration_cycles (w_db w') /\ ec_id c = id.
Proof.
  intros Hl (c & Hc & <-). destruct (lt_cycles _ _ Hl c Hc) as (c' & Hc' & Hid & _). eauto.
Qed.

Lemma clean_later w w' cov :
  later w w' -> clean_conclusion w cov -> clean_conclusion w' cov.
Proof.
  intros Hl (Hn & (c & Hc & Hid & Hfin) & Hids). split_and!.
  - intros n (p & Hp & Hs & Hv)%Hn. exists p. split; [by eapply later_log | done].
  - destruct (lt_cycles _ _ Hl c Hc) as (c' & Hc' & _ & _ & Hsame).
    destruct Hsame as [-> _]; [by right|]. eauto.
  - destruct (lt_cycles _ _ Hl c Hc) as (c' & _ & _ & _ & Hsame).
    destruct Hsame as [_ Hview]; [by right|]. unfold cycle_view in Hview. rewrite Hid in Hview.
    injection Hview as -> _. exact Hids.
Qed.

Lemma scope_later w w' key row cov :
  later w w' -> reconcile_runs (w_db w) !! key = Some row -> rr_status row = COMPLETED ->
  scope_conclusion w key cov -> scope_conclusion w' key cov.
Proof.
  intros Hl Hr Hs Hsc s. rewrite (proj2 (lt_evidence _ _ Hl _ _ Hr Hs)).
  intros (p & Hp & ?)%Hsc. exists p. split; [by eapply later_log | done].
Qed.

Lemma trade_later w w' key row cov :
  later w w' -> reconcile_runs (w_db w) !! key = Some row -> rr_status row = COMPLETED ->
  trade_conclusion w key cov -> trade_conclusion w' key cov.
Proof.
  intros Hl Hr Hs Htr s. destruct (lt_evidence _ _ Hl _ _ Hr Hs) as [-> ->].
  intros Hin Hno. destruct (Htr s Hin Hno) as (p & Hp & ?).
  exists p. split; [by eapply later_log | done].
Qed.

Lemma scope_row_later w w' s : later w w' -> scope_row_inv w s -> scope_row_inv w' s.
Proof.
  intros Hl (row & p & Hr & Hs & Hp & Hc & Hin).
  destruct (lt_runs _ _ Hl _ _ Hr) as (row' & Hr' & [_ He]). rewrite (He Hs) in Hr'.
  exists row, p. split_and!; try done. by eapply later_log.
Qed.

Lemma log_inv_later w w' p :
  later w w' -> reconcile_drifts (w_db w') = reconcile_drifts (w_db w) ->
  log_inv w p -> log_inv w' p.
Proof.
  intros Hl Hd [(row & Hr & Hs & Hc) Hdr Hcy Hfa]. split; [| |by eapply later_cycle | done].
  - destruct (lt_runs _ _ Hl _ _ Hr) as (row' & Hr' & [_ He]). rewrite (He Hs) in Hr'. eauto.
  - by rewrite Hd.
Qed.

Lemma quiet_inv w w' : base_ok w' -> quiet w w' -> world_inv w -> world_inv w'.
Proof.
  intros Hb [Hl Hlog Hm Hsc Hd Hco Hcy] [_ Hc Hp Hme Hcl Hsr Htr]. split; [done|..].
  - intros c Hin. destruct (Hcy c Hin) as [Hold|(Hfresh & Hcur & Hw)].
    + destruct (Hc c Hold) as [C1 C2 C3 C4 C5].
      split; rewrite ?Hlog, ?(members_eq w w' _ Hm); done.
    + assert (members_of (ec_id c) (w_db w') = []) as Hnone.
      { rewrite (members_eq w w' _ Hm). unfold members_of.
        destruct (List.filter _ _) as [|m l] eqn:E; [done|].
        assert (In m (m :: l)) as Hin' by (by left). rewrite <- E in Hin'.
        apply filter_In in Hin' as [Hin' He]. apply String.eqb_eq in He.
        apply list_elem_of_In, Hme in Hin' as (c' & Hc' & Hid). destruct (Hfresh c' Hc'). congruence. }
      assert (forall p, p ∈ w_log w -> cycle_of p <> ec_id c) as Hnolog.
      { intros p Hpin He. destruct (li_cycle _ _ (Hp p Hpin)) as (c' & Hc' & Hid).
        destruct (Hfresh c' Hc'). congruence. }
      split; rewrite ?Hlog, ?Hnone.
      * intros Hco1 n. rewrite (Hcur Hco1). lia.
      * intros _ p Hpin He. by destruct (Hnolog p Hpin).
      * by intros m ?%not_elem_of_nil.
      * intros _. constructor.
      * done.
  - rewrite Hlog. intros p Hpin. eapply log_inv_later; eauto.
  - rewrite Hm. intros m Hin. eapply later_cycle; eauto.
  - intros key row cov Hr Hrow. destruct (Hrow) as [Hs _].
    pose proof (Hco _ _ Hr Hs) as Hr0. destruct (Hcl _ _ _ Hr0 Hrow).
    split; [by eapply clean_later | by eapply scope_later].
  - rewrite Hsc. intros s Hin. eapply scope_row_later; [exact Hl | by apply Hsr].
  - intros key row cov Hr Hrow. pose proof (Hco _ _ Hr (proj1 Hrow)) as Hr0.
    eapply trade_later; [exact Hl | exact Hr0 | apply Hrow | by eapply Htr].
Qed.

Lemma update_run_back key guard f d :
  (forall row, reconcile_runs d !! key = Some row -> guard row = true ->
     rr_status (f row) <> COMPLETED) ->
  forall k row, reconcile_runs (update_run key guard f d).1 !! k = Some row ->
    rr_status row = COMPLETED -> reconcile_runs d !! k = Some row.
Proof.
  intros H k row. destruct (update_run_cases key guard f d) as [->|(r & Hr & Hg & ->)]; [done|].
  cbn. destruct (decide (k = key)) as [->|Hne]; [|by rewrite lookup_insert_ne].
  rewrite lookup_insert_eq. intros [= <-] Hs. by destruct (H r Hr Hg).
Qed.

(** A step either publishes nothing, or is one publishing transaction. *)
Lemma op_cases past w w' :
  base_ok w -> recon_op past w w' ->
  quiet w w' \/
  exists i_cycle i_counts i_hold w_cycle w_counts w_hold cycle reads source cursor lease now o,
    past !! i_cycle = Some w_cycle /\ past !! i_counts = Some w_counts /\
    past !! i_hold = Some w_hold /\ (i_hold <= i_counts <= i_cycle)%nat /\
    cycle ∈ enumeration_cycles (w_db w_cycle) /\
    run_body isAddress getAddress config reads
      (discovery_of cycle (rd_boundary reads) source) cursor
      (fun ids => previousIdentityCounts (ec_id cycle) ids (w_db w_counts))
      (priorCycleHasHoldingFindings (ec_id cycle) (w_db w_hold)) = Ok (Conclusive o) /\
    finalizeRun lease (discovery_of cycle (rd_boundary reads) source) o now (w_db w) = Ok (w_db w') /\
    w_log w' = {| pb_lease := lease; pb_reads := reads;
                  pb_discovery := discovery_of cycle (rd_boundary reads) source;
                  pb_outcome := o |} :: w_log w.
Proof.
  intros Hb Hop. destruct (op_later _ _ _ _ _ _ Hb Hop) as [Hb' Hl]. destruct Hb as [Hok _].
  assert (forall d, w' = with_db d w ->
    (enumeration_cycles d = enumeration_cycles (w_db w) /\
     enumeration_members d = enumeration_members (w_db w) /\
     reconcile_drifts d = reconcile_drifts (w_db w) /\
     reconcile_run_trades d = reconcile_run_trades (w_db w)) ->
    (forall key row, reconcile_runs d !! key = Some row -> rr_status row = COMPLETED ->
       reconcile_runs (w_db w) !! key = Some row) -> quiet w w') as Hlift.
  { intros d -> (F1 & F2 & F3 & F4) Hback. split; try done. intros c Hc. left. cbn in Hc.
    by rewrite F1 in Hc. }
  destruct Hop as [key mode owner ttl now id| | | | |? ? ? ? ? ? ? uuid d ? ? ? ? Hfresh Hp|
    lease tail now d Hd|
    i_cycle i_counts i_hold w_cycle w_counts w_hold cycle reads source cursor lease now o d].
  8: { right. by exists i_cycle, i_counts, i_hold, w_cycle, w_counts, w_hold, cycle, reads, source,
         cursor, lease, now, o. }
  all: left.
  - eapply Hlift; [reflexivity | |].
    + unfold claimRun. destruct (reconcile_runs (w_db w) !! key) as [row|];
        [destruct (claimable ttl now row)|]; done.
    + intros k row. unfold claimRun. destruct (reconcile_runs (w_db w) !! key) as [r|];
        [destruct (claimable ttl now r)|]; cbn; try done;
        (destruct (decide (k = key)) as [->|Hne]; [|by rewrite lookup_insert_ne]);
        rewrite lookup_insert_eq; by intros [= <-].
  - eapply Hlift; [reflexivity | apply update_run_frame |]. apply update_run_back.
    intros row _ G. reflect_bools. cbn. congruence.
  - eapply Hlift; [reflexivity | apply update_run_frame |]. apply update_run_back.
    intros row Hr G. apply andb_true_iff in G as [G _]. cbn. by eapply lease_matches_live.
  - eapply Hlift; [reflexivity | done |]. intros k row. cbn. rewrite lookup_fmap.
    destruct (reconcile_runs (w_db w) !! k) as [r|]; [|done]. cbn.
    destruct (bool_decide _ && _); intros [= <-]; done.
  - eapply Hlift; [reflexivity | apply update_run_frame |]. by apply update_run_back.
  - apply prepare_frame in Hp as [->|(c & -> & Hid & Hcoh & Hw)]; [by apply (Hlift (w_db w))|].
    split; try done. intros c1 [Hc1| ->%list_elem_of_singleton]%elem_of_app; [by left|].
    right. rewrite Hid. done.
  - apply inconclusive_frame in Hd as (r & r' & Hr & Hm & Hd & _ & Hs & F).
    eapply Hlift; [reflexivity | done |]. intros k row. rewrite Hd.
    destruct (decide (k = ls_runKey lease)) as [->|Hne]; [|by rewrite lookup_insert_ne].
    rewrite lookup_insert_eq. intros [= <-]. congruence.
Qed.

(** ** The publishing step *)

(** A run that passes the generation guard worked from the current cycle: its
    snapshot is the current row, and nothing it read about the cycle since has
    changed. *)
Lemma snapshot_current past w i w_i cycle :
  recon_history (w :: past) -> (w :: past) !! i = Some w_i ->
  cycle ∈ enumeration_cycles (w_db w_i) ->
  existsb (cycle_matches cycle) (enumeration_cycles (w_db w)) = true ->
  cycle ∈ enumeration_cycles (w_db w) /\ ec_finished cycle = false /\
  forall j w_j, (w :: past) !! j = Some w_j -> (j <= i)%nat ->
    cycle_view (ec_id cycle) (w_db w_j) = cycle_view (ec_id cycle) (w_db w).
Proof.
  intros Hh Hi Hc Hm. apply existsb_elem in Hm as (c0 & Hc0 & (Hid & Hg & Hf)%cycle_matches_true).
  destruct (history_base _ _ _ _ _ Hh) as [_ Hok].
  assert (forall k w_k, (w :: past) !! k = Some w_k -> later w_k w) as Hlater.
  { intros k w_k Hk. eapply (history_later _ _ _ (w :: past) k 0); [done | done | done | lia]. }
  assert (forall w_k c, later w_k w -> c ∈ enumeration_cycles (w_db w_k) -> ec_id c = ec_id cycle ->
    ec_generation cycle <= ec_generation c ->
    c0 = c /\ cycle_view (ec_id cycle) (w_db w) = cycle_view (ec_id cycle) (w_db w_k)) as Hsame.
  { intros w_k c Hl Hck Hidk Hgk. destruct (lt_cycles _ _ Hl c Hck) as (c' & Hc' & Hid' & Hg' & Hs).
    assert (c' = c0) as -> by (eapply cycle_unique; [exact Hok | done | done | congruence]).
    rewrite <- Hidk. apply Hs. left. lia. }
  destruct (Hsame w_i cycle (Hlater _ _ Hi) Hc eq_refl ltac:(lia)) as [-> _].
  split_and!; [done | done |]. intros j w_j Hj Hle.
  destruct (lt_cycles _ _ (history_later _ _ _ _ _ _ _ _ Hh Hi Hj Hle) cycle Hc)
    as (c & Hcj & Hidj & Hgj & _).
  by destruct (Hsame w_j c (Hlater _ _ Hj) Hcj Hidj Hgj) as [_ ->].
Qed.

Lemma enumerateIndexer_page cfg query cycle counts en :
  enumerateIndexer cfg query cycle counts = Ok en ->
  en_tradeIds en = map ir_tradeId (ip_records (en_page en)) /\
  en_truncated en = negb (ip_exhausted (en_page en)).
Proof.
  unfold enumerateIndexer. intros H. apply bind_ok in H as (page & _ & H).
  destruct (count_repeated _ _) as [? ?]. by injection H as <-.
Qed.

Lemma sameCycleSource_anchored cycle b source :
  sameCycleSource cycle b source = true -> ec_coherent cycle = true /\ anchored cycle b.
Proof. unfold sameCycleSource, anchored. intros H. by reflect_bools. Qed.

(** A run without findings verified every id of its window. *)
Lemma clean_run_verifies reads disc counts hold o id :
  run_facts config reads disc counts hold o -> sn_findings (ro_scan o) = [] ->
  id ∈ tradeIdsInWindow (ro_window o) -> verified reads id.
Proof.
  intros Hf Hnil Hid. destruct (rf_batches Hf) as (bs & Hcat & Hall). rewrite <- Hcat in Hid.
  destruct (scan_decides _ _ _ _ _ _ Hall Hid) as [(f & Hin & _)|[?|(t & ix & fs & Hp & Hc & Hfs)]].
  - rewrite Hnil in Hin. by apply not_elem_of_nil in Hin.
  - by left.
  - right. exists t, ix. split; [done|]. rewrite Hnil in Hfs.
    assert (fs = []) as ->.
    { destruct fs as [|f fs]; [done|]. exfalso. apply (not_elem_of_nil f), Hfs. left. }
    apply classify_silent_spec in Hc as (_ & t' & [= <-] & _ & ?). done.
Qed.

(** Without findings the indexer's page holds only new, distinct, allocated ids. *)
Lemma clean_run_ids reads disc counts hold o id :
  run_facts config reads disc counts hold o -> sn_findings (ro_scan o) = [] ->
  id ∈ en_tradeIds (ro_enumeration o) ->
  unallocated (cb_chainTradeCounter (rd_boundary reads)) id = false.
Proof.
  intros Hf Hnil Hid. destruct (unallocated _ id) eqn:E; [|done]. exfalso.
  apply (not_elem_of_nil (indexerOnlyFinding id)). rewrite <- Hnil.
  apply (rf_indexer_only Hf). rewrite detectIndexerOnly_filter. apply list_elem_of_fmap_2.
  apply list_elem_of_In, filter_In. split; [by apply list_elem_of_In | done].
Qed.

Lemma filter_map_all {A B} (p : B -> bool) (f : A -> B) l :
  (forall x, p (f x) = true) -> List.filter p (map f l) = map f l.
Proof. intros H. induction l as [|x l IH]; [done|]. cbn. by rewrite H, IH. Qed.

Section publish_step.
Context (w : world) (d' : recon_db) (lease : RunLeaseIdentity) (reads : RunReads)
  (cycle : EnumerationCycle) (source : string) (o : RunOutcome) (counts : list string -> jsmap Z)
  (hold : bool) (w_counts : world).
Let disc := discovery_of cycle (rd_boundary reads) source.
Let entry := {| pb_lease := lease; pb_reads := reads; pb_discovery := disc; pb_outcome := o |}.
Let w' := {| w_db := d'; w_log := entry :: w_log w |}.
Let next := if ro_cursorHeld o then ec_chain_cursor cycle else cw_nextCursor (ro_window o).
Let advanced := advanced_cycle (en_page (ro_enumeration o)) (ro_coherent o) next
                  (ro_cycleFinished o) cycle.
Context (Hinv : world_inv w) (Hframe : publish_frame lease disc o (w_db w) d')
  (Hfacts : run_facts config reads disc counts hold o)
  (Hcounts : counts = fun ids => previousIdentityCounts (ec_id cycle) ids (w_db w_counts))
  (Hview : members_of (ec_id cycle) (w_db w_counts) = members_of (ec_id cycle) (w_db w))
  (Hcycle : cycle ∈ enumeration_cycles (w_db w)) (Hopen : ec_finished cycle = false)
  (Hbase : base_ok w') (Hlater : later w w').

Lemma step_rows :
  advanced ∈ enumeration_cycles d' /\
  forall c, c ∈ enumeration_cycles d' -> c = advanced \/
    (ec_id c <> ec_id cycle /\ c ∈ enumeration_cycles (w_db w)).
Proof.
  destruct (publish_cycle_rows _ _ _ _ _ (proj2 (wi_base _ Hinv)) Hframe)
    as (Hok' & c0 & Hc0 & Hm & Hadv & _ & Hback).
  apply cycle_matches_true in Hm as (Hid & _).
  assert (c0 = cycle) as -> by (eapply cycle_unique; [apply (wi_base _ Hinv) | done..]).
  split; [done|]. intros c Hc. destruct (decide (ec_id c = ec_id cycle)) as [He|He].
  - left. eapply cycle_unique; [exact Hok' | done | exact Hadv | done].
  - right. split; [done | by apply Hback].
Qed.

Lemma step_members :
  members_of (ec_id cycle) d' = (members_of (ec_id cycle) (w_db w) ++
    map (fun r => {| mb_cycle_id := ec_id cycle; mb_physical_id := ir_id r;
                     mb_trade_id := ir_tradeId r |}) (ip_records (en_page (ro_enumeration o))))%list /\
  map mb_trade_id (members_of (ec_id cycle) d') =
    (map mb_trade_id (members_of (ec_id cycle) (w_db w)) ++ en_tradeIds (ro_enumeration o))%list.
Proof.
  destruct (enumerateIndexer_page _ _ _ _ _ (rf_enumeration Hfacts)) as [Hids _].
  assert (members_of (ec_id cycle) d' = (members_of (ec_id cycle) (w_db w) ++
    map (fun r => {| mb_cycle_id := ec_id cycle; mb_physical_id := ir_id r;
                     mb_trade_id := ir_tradeId r |})
      (ip_records (en_page (ro_enumeration o))))%list) as Hm.
  { unfold members_of. rewrite (pf_members _ _ _ _ _ Hframe), List.filter_app. f_equal.
    apply filter_map_all. intros r. apply String.eqb_refl. }
  split; [exact Hm|]. rewrite Hm, map_app, map_map, Hids. done.
Qed.

Lemma step_distinct :
  (forall p, p ∈ w_log w' -> cycle_of p = ec_id cycle -> findings_of p = []) ->
  NoDup (map mb_trade_id (members_of (ec_id cycle) d')).
Proof.
  intros Hnil. rewrite (proj2 step_members).
  assert (findings_of entry = []) as Hown by (apply Hnil; [left | done]).
  assert (en_duplicates (ro_enumeration o) = []) as Hdup.
  { destruct (en_duplicates (ro_enumeration o)) as [|f l] eqn:E; [done|]. exfalso.
    apply (not_elem_of_nil f). rewrite <- Hown. apply (rf_duplicates Hfacts). rewrite E. left. }
  pose proof (rf_enumeration Hfacts) as Hen. rewrite Hcounts in Hen.
  destruct (enumeration_distinct _ _ _ _ _ Hen Hdup) as [Hnd Hsep].
  apply NoDup_app. split_and!; [| |done].
  2: { intros x Hx. apply list_elem_of_fmap in Hx as (m & -> & Hm). apply Hsep. cbn.
       by rewrite Hview. }
  apply (ci_distinct _ _ (wi_cycles _ Hinv cycle Hcycle)). intros p Hp. apply Hnil. by right.
Qed.

Lemma step_cycle_inv : cycle_inv w' advanced.
Proof.
  destruct (wi_cycles _ Hinv cycle Hcycle) as [C1 C2 C3 _ C5]. split.
  - cbn. intros [Hco Hco']%andb_true_iff n Hn.
    destruct (Z.lt_ge_cases n (ec_chain_cursor cycle)) as [Hlt|Hge].
    + destruct (C1 Hco n ltac:(lia)) as (p & Hp & Hpc & Hin). exists p. split; [by right | done].
    + exists entry. split; [left|]. split; [done|]. unfold next in Hn.
      destruct (ro_cursorHeld o); [lia|].
      eapply plan_covers; [exact (rf_window Hfacts) | lia | cbn; lia].
  - cbn. intros [Hco Hco']%andb_true_iff p [->|Hp]%elem_of_cons Hpc; [|by apply C2].
    rewrite (rf_coherent Hfacts) in Hco'. apply andb_true_iff in Hco' as [Hco' _].
    by apply sameCycleSource_anchored in Hco' as [_ ?].
  - cbn [ec_id advanced advanced_cycle w_db w']. intros m Hm. rewrite (proj1 step_members) in Hm.
    apply elem_of_app in Hm as [Hm|Hm].
    + apply C3 in Hm as (p & Hp & ?). exists p. split; [by right | done].
    + exists entry. split; [left|]. split; [done|]. cbn.
      destruct (enumerateIndexer_page _ _ _ _ _ (rf_enumeration Hfacts)) as [-> _].
      apply list_elem_of_fmap in Hm as (r & -> & Hr). cbn. by apply list_elem_of_fmap_2.
  - apply step_distinct.
  - cbn. rewrite C5, (proj1 step_members), length_app, length_map. lia.
Qed.

Lemma step_log_old p : log_inv w p -> log_inv w' p.
Proof.
  intros [(row & Hr & Hs & Hc) Hdr Hcy Hfa].
  destruct (pf_row _ _ _ _ _ Hframe) as (r0 & _ & _ & Hr0 & Hm & _).
  assert (ls_runKey (pb_lease p) <> ls_runKey lease) as Hne.
  { intros He. rewrite He, Hr0 in Hr. injection Hr as ->.
    by destruct (lease_matches_live _ _ _ _ (proj1 (wi_base _ Hinv)) Hr0 Hm). }
  split; [| |by eapply later_cycle | done].
  - destruct (lt_runs _ _ Hlater _ _ Hr) as (row' & Hr' & [_ He]). rewrite (He Hs) in Hr'. eauto.
  - intros f (row1 & Hin & Hsame)%Hdr. exists row1. split; [|done].
    assert (row1 ∈ drifts_of_others (ls_runKey lease) (reconcile_drifts d')) as Hin'.
    { rewrite (pf_others _ _ _ _ _ Hframe). apply list_elem_of_In, filter_In.
      split; [by apply list_elem_of_In|]. apply same_drift_true in Hsame as [-> _].
      by apply negb_true_iff, String.eqb_neq. }
    apply list_elem_of_In, filter_In in Hin' as [Hin' _]. by apply list_elem_of_In.
Qed.

Lemma step_log_new : log_inv w' entry.
Proof.
  destruct (pf_row _ _ _ _ _ Hframe) as (r0 & row' & stats & _ & _ & Hd & _ & _ & Hs & Hc & _).
  split.
  - exists row'. cbn. rewrite Hd, lookup_insert_eq. done.
  - apply (pf_findings _ _ _ _ _ Hframe).
  - exists advanced. split; [apply step_rows | done].
  - by exists counts, hold.
Qed.

(** The run that finishes a cycle has a drift row for every finding of every run
    of the cycle. *)
Lemma step_reported p f :
  ro_cycleFinished o = true -> p ∈ w_log w' -> cycle_of p = ec_id cycle -> f ∈ findings_of p ->
  exists r, r ∈ drifts_of (ls_runKey lease) (reconcile_drifts d') /\
    drift_key (dr_finding r) = drift_key f.
Proof.
  intros Hfin Hp Hc Hf.
  assert (forall f', published_drift (ls_runKey lease) f' (reconcile_drifts d') ->
    drift_key f' = drift_key f -> exists r, r ∈ drifts_of (ls_runKey lease) (reconcile_drifts d') /\
      drift_key (dr_finding r) = drift_key f) as Hrow.
  { intros f' (r & Hr & [Hk Hd]%same_drift_true) He. exists r. split; [|congruence].
    apply list_elem_of_In, filter_In. split; [by apply list_elem_of_In | by apply String.eqb_eq]. }
  apply elem_of_cons in Hp as [->|Hp].
  - apply (Hrow f); [by apply (pf_findings _ _ _ _ _ Hframe) | done].
  - destruct (wi_log _ Hinv p Hp) as [(row & Hr & Hs & Hcid) Hdr _ _].
    destruct (Hdr f Hf) as (r & Hin & [Hk Hkey]%same_drift_true).
    destruct (pf_row _ _ _ _ _ Hframe) as (r0 & _ & _ & Hr0 & Hm & _).
    apply (Hrow (dr_finding r)); [|done]. apply (pf_aggregate _ _ _ _ _ Hframe Hfin); [done | |].
    + unfold cycle_drift. rewrite Hk, Hr, Hcid, Hs, Hc. by rewrite !bool_decide_true.
    + rewrite Hk. intros He. rewrite He, Hr0 in Hr. injection Hr as ->.
      by destruct (lease_matches_live _ _ _ _ (proj1 (wi_base _ Hinv)) Hr0 Hm).
Qed.

(** A finished cycle whose closing run counts no drift has no finding in any of
    its runs. *)
Lemma step_no_findings stats :
  ro_cycleFinished o = true ->
  st_driftCount stats = Z.of_nat (length (drifts_of (ls_runKey lease) (reconcile_drifts d'))) ->
  st_driftCount stats = 0 ->
  forall p, p ∈ w_log w' -> cycle_of p = ec_id cycle -> findings_of p = [].
Proof.
  intros Hfin Hcount Hzero p Hp Hc. destruct (findings_of p) as [|f l] eqn:E; [done|]. exfalso.
  destruct (step_reported p f Hfin Hp Hc) as (r & Hr & _); [rewrite E; left|].
  destruct (drifts_of _ _); [by apply not_elem_of_nil in Hr | cbn in Hcount; lia].
Qed.

Lemma complete_split cov :
  rc_complete cov = (ro_coherent o && negb hold &&
      bool_decide (rd_tradeCount reads = Some (ec_walked cycle +
                     Z.of_nat (length (en_tradeIds (ro_enumeration o))))) &&
      isCoverageComplete (cw_complete (ro_window o) && negb (ro_cursorHeld o))
        (en_truncated (ro_enumeration o))) ->
  rc_complete cov = true ->
  ro_coherent o = true /\ ro_cursorHeld o = false /\ cw_complete (ro_window o) = true /\
  ro_cycleFinished o = true /\
  rd_tradeCount reads = Some (ec_walked cycle + Z.of_nat (length (en_tradeIds (ro_enumeration o)))).
Proof.
  intros -> H. unfold isCoverageComplete in H. reflect_bools.
  destruct (enumerateIndexer_page _ _ _ _ _ (rf_enumeration Hfacts)) as [_ Ht].
  split_and!; try done. rewrite (rf_finished Hfacts).
  assert (ip_exhausted (en_page (ro_enumeration o)) = true) as ->.
  { apply negb_false_iff. congruence. }
  match goal with Hw : cw_complete _ = true, Hh : ro_cursorHeld _ = false |- _ =>
    by rewrite Hw, Hh end.
Qed.

(** The published run is recorded as completed in its cycle. *)
Lemma step_row : exists row, reconcile_runs d' !! ls_runKey lease = Some row /\
  rr_status row = COMPLETED /\ rr_coverage_cycle_id row = Some (ec_id cycle).
Proof.
  destruct (pf_row _ _ _ _ _ Hframe) as (r0 & row' & stats & _ & _ & Hd & _ & _ & Hs & Hc & _).
  exists row'. by rewrite Hd, lookup_insert_eq.
Qed.

(** No scope row is written for a run before it is published. *)
Lemma step_scope_fresh s : s ∈ reconcile_run_trades (w_db w) -> sc_run_key s <> ls_runKey lease.
Proof.
  intros (row & p & Hr & Hs & _)%(wi_scope _ Hinv) He. rewrite He in Hr.
  destruct (pf_row _ _ _ _ _ Hframe) as (r0 & _ & _ & Hr0 & Hm & _).
  rewrite Hr0 in Hr. injection Hr as ->.
  by destruct (lease_matches_live _ _ _ _ (proj1 (wi_base _ Hinv)) Hr0 Hm).
Qed.

(** The scope of the published run consists of trades scanned in its cycle. *)
Lemma step_scope s : s ∈ reconcile_run_trades d' -> sc_run_key s = ls_runKey lease ->
  exists p, p ∈ w_log w' /\ cycle_of p = ec_id cycle /\
    sc_trade_id s ∈ sn_scope (ro_scan (pb_outcome p)).
Proof.
  intros Hs Hk. destruct (pf_scope_rows _ _ _ _ _ Hframe s Hs)
    as [Hold|[_ [Hown|(s0 & Hs0 & He & [Hk0|(r & Hr & Hc & Hco)])]]].
  - by destruct (step_scope_fresh s Hold).
  - exists entry. split_and!; [left | done | done].
  - by destruct (step_scope_fresh s0 Hs0).
  - destruct (wi_scope _ Hinv s0 Hs0) as (r1 & p & Hr1 & _ & Hp & Hc1 & Hin).
    exists p. split_and!; [by right | | by rewrite <- He].
    rewrite Hr1 in Hr. injection Hr as ->. rewrite Hc1 in Hc. by injection Hc.
Qed.

Lemma step_scope_rows s : s ∈ reconcile_run_trades d' -> scope_row_inv w' s.
Proof.
  intros Hs. destruct (decide (sc_run_key s = ls_runKey lease)) as [Hk|Hk].
  - destruct (step_scope s Hs Hk) as (p & Hp & Hc & Hin), step_row as (row & Hr & Hst & Hcy).
    exists row, p. rewrite Hk. cbn [w_db w']. split_and!; try done. congruence.
  - destruct (pf_scope_rows _ _ _ _ _ Hframe s Hs) as [Hold|[? _]]; [|done].
    eapply scope_row_later; [exact Hlater | by apply (wi_scope _ Hinv)].
Qed.

(** A coherent cycle is read at one point of the chain. *)
Lemma step_point p :
  ro_coherent o = true -> p ∈ w_log w' -> cycle_of p = ec_id cycle ->
  same_point (rd_boundary (pb_reads p)) (rd_boundary reads).
Proof.
  intros Hco Hp Hpc. pose proof Hco as Hsrc. rewrite (rf_coherent Hfacts) in Hsrc.
  apply andb_true_iff in Hsrc as [[Hcoh (B1 & B2 & B3)]%sameCycleSource_anchored _].
  destruct (ci_anchor _ _ step_cycle_inv) with p as (A1 & A2 & A3); [cbn; by rewrite Hcoh, Hco|done..|].
  cbn in A1, A2, A3. unfold same_point. split_and!; congruence.
Qed.

Lemma step_facts p :
  p ∈ w_log w' -> exists cs hd, run_facts config (pb_reads p) (pb_discovery p) cs hd (pb_outcome p).
Proof.
  intros [->|Hp]%elem_of_cons; [by exists counts, hold | apply (li_facts _ _ (wi_log _ Hinv p Hp))].
Qed.

Lemma step_trade cov :
  rc_boundary cov = rd_boundary reads -> ro_coherent o = true -> ro_cycleFinished o = true ->
  trade_conclusion w' (ls_runKey lease) cov.
Proof.
  intros Hb Hco Hfin s [Hin Hk%String.eqb_eq]%list_elem_of_In%filter_In Hno.
  destruct (step_scope s) as (p & Hp & Hpc & Hsc); [by apply list_elem_of_In | done |].
  destruct (step_facts p Hp) as (cs & hd & Hf). exists p. rewrite Hb.
  split_and!; [done | by apply step_point |]. apply (rf_scope Hf); [done|].
  intros (f & He & Hff)%list_elem_of_fmap. destruct (step_reported p f Hfin Hp Hpc Hff) as (r & Hr & Hkey).
  apply (Hno r Hr). injection Hkey as -> _ _. done.
Qed.

Lemma step_clean cov :
  rc_boundary cov = rd_boundary reads -> rc_indexerTradeCount cov = rd_tradeCount reads ->
  rc_enumerationCycleId cov = ec_id cycle ->
  ro_coherent o = true -> ro_cursorHeld o = false -> cw_complete (ro_window o) = true ->
  ro_cycleFinished o = true ->
  rd_tradeCount reads = Some (ec_walked cycle + Z.of_nat (length (en_tradeIds (ro_enumeration o)))) ->
  (forall p, p ∈ w_log w' -> cycle_of p = ec_id cycle -> findings_of p = []) ->
  clean_conclusion w' cov /\ scope_conclusion w' (ls_runKey lease) cov.
Proof.
  intros Hb Hcnt Hcid Hco Hheld Hcomp Hfin Hcount Hnil.
  destruct step_cycle_inv as [C1 C2 C3 C4 C5].
  pose proof Hco as Hsrc. rewrite (rf_coherent Hfacts) in Hsrc.
  apply andb_true_iff in Hsrc as [[Hcoh _]%sameCycleSource_anchored _].
  assert (ec_coherent advanced = true) as Hadv by (cbn; by rewrite Hcoh, Hco).
  unfold clean_conclusion. cbv zeta. split_and!.
  - rewrite Hb. intros n Hn. destruct (C1 Hadv n) as (p & Hp & Hpc & Hin).
    { cbn. unfold next. rewrite Hheld, (plan_complete _ _ _ _ (rf_window Hfacts) Hcomp). done. }
    exists p. split_and!; [done | by apply step_point |].
    destruct (step_facts p Hp) as (cs & hd & Hf). eapply clean_run_verifies; [exact Hf | | done].
    by apply Hnil.
  - exists advanced. rewrite Hcid. split_and!; [apply step_rows | done | done].
  - rewrite Hcid. exact (C4 Hnil).
  - rewrite Hcid, Hb. apply Forall_forall. intros id (m & -> & Hm)%list_elem_of_fmap.
    destruct (C3 m Hm) as (p & Hp & Hpc & Hin). destruct (step_facts p Hp) as (cs & hd & Hf).
    destruct (step_point p Hco Hp Hpc) as (_ & _ & <-).
    eapply clean_run_ids; [exact Hf | by apply Hnil | done].
  - rewrite Hcid, Hcnt, Hcount. f_equal. cbn [ec_walked advanced advanced_cycle ec_id w_db w'] in C5.
    rewrite length_map. destruct (enumerateIndexer_page _ _ _ _ _ (rf_enumeration Hfacts)) as [-> _].
    rewrite length_map. done.
  - intros s [Hin Hk%String.eqb_eq]%list_elem_of_In%filter_In.
    destruct (step_scope s) as (p & Hp & Hpc & Hsc); [by apply list_elem_of_In | done |].
    destruct (step_facts p Hp) as (cs & hd & Hf). exists p. rewrite Hb.
    split_and!; [done | by apply step_point |]. apply (rf_scope Hf); [done|].
    change (sn_findings _) with (findings_of p). rewrite Hnil by done. by apply not_elem_of_nil.
Qed.

(** What the recorded coverage shares with the run's. *)
Lemma step_coverage row' stats cov2 :
  reconcile_runs d' !! ls_runKey lease = Some row' -> rr_stats row' = Some stats ->
  st_coverage stats = Some cov2 -> rc_complete cov2 = true ->
  rc_boundary cov2 = rd_boundary reads /\ rc_indexerTradeCount cov2 = rd_tradeCount reads /\
  rc_enumerationCycleId cov2 = ec_id cycle /\
  ro_coherent o = true /\ ro_cursorHeld o = false /\ cw_complete (ro_window o) = true /\
  ro_cycleFinished o = true /\
  rd_tradeCount reads = Some (ec_walked cycle + Z.of_nat (length (en_tradeIds (ro_enumeration o)))) /\
  st_driftCount stats = Z.of_nat (length (drifts_of (ls_runKey lease) (reconcile_drifts d'))).
Proof.
  destruct (pf_row _ _ _ _ _ Hframe) as
    (r0 & row1 & stats1 & _ & _ & Hd & _ & _ & _ & _ & Hst & Hcnt & cov & Hcov & Hcov').
  destruct (rf_coverage Hfacts) as (cov1 & Hcov1 & B1 & B2 & B3 & B4).
  rewrite Hcov in Hcov1. injection Hcov1 as <-. rewrite Hd, lookup_insert_eq. intros [= <-] Hst2.
  rewrite Hst in Hst2. injection Hst2 as <-. intros Hc2 Hcomp.
  assert (rc_boundary cov2 = rc_boundary cov /\ rc_complete cov2 = rc_complete cov /\
    rc_indexerTradeCount cov2 = rc_indexerTradeCount cov /\
    rc_enumerationCycleId cov2 = rc_enumerationCycleId cov) as (E1 & E2 & E3 & E4).
  { destruct Hcov' as [H|H]; rewrite Hc2 in H; injection H as ->; done. }
  rewrite E2 in Hcomp. destruct (complete_split _ B4 Hcomp) as (F1 & F2 & F3 & F4 & F5).
  rewrite E1, E3, E4. split_and!; try done. by apply Hcnt.
Qed.

Lemma step_inv : world_inv w'.
Proof.
  destruct (pf_row _ _ _ _ _ Hframe) as (r0 & row' & stats & _ & _ & Hd & _).
  destruct step_rows as [Hadv Hrows]. split; [done|..].
  - intros c [->|[Hne Hold]]%Hrows; [exact step_cycle_inv|].
    destruct (wi_cycles _ Hinv c Hold) as [C1 C2 C3 C4 C5].
    assert (members_of (ec_id c) d' = members_of (ec_id c) (w_db w)) as Hmem.
    { pose proof (publish_view _ _ _ _ _ _ (proj1 (wi_base _ Hinv)) Hframe Hne) as Hv.
      by injection Hv. }
    split; cbn; rewrite ?Hmem; try done.
    + intros Hco n (p & Hp & ?)%C1; [|done]. exists p. split; [by right | done].
    + intros Hco p [->|Hp]%elem_of_cons Hpc; [by destruct Hne | by apply C2].
    + intros m (p & Hp & ?)%C3. exists p. split; [by right | done].
    + intros Hnil. apply C4. intros p Hp. apply Hnil. by right.
  - intros p [->|Hp]%elem_of_cons; [exact step_log_new | by apply step_log_old, (wi_log _ Hinv)].
  - cbn. rewrite (pf_members _ _ _ _ _ Hframe). intros m [Hin|Hin]%elem_of_app.
    + apply (later_cycle w w' _); [exact Hlater | by apply (wi_members _ Hinv)].
    + apply list_elem_of_fmap in Hin as (r & -> & _). by exists advanced.
  - intros key row cov Hr Hrow. destruct (decide (key = ls_runKey lease)) as [->|Hne].
    + destruct Hrow as (_ & st & Hst & Hz & Hc & Hcomp).
      destruct (step_coverage _ _ _ Hr Hst Hc Hcomp) as (? & ? & ? & ? & ? & ? & ? & ? & ?).
      apply step_clean; try done. by eapply step_no_findings.
    + cbn in Hr. rewrite Hd, lookup_insert_ne in Hr by done.
      destruct (wi_clean _ Hinv _ _ cov Hr Hrow) as [? ?].
      split; [by eapply clean_later | eapply scope_later; [done..| apply Hrow | done]].
  - exact step_scope_rows.
  - intros key row cov Hr Hrow. destruct (decide (key = ls_runKey lease)) as [->|Hne].
    + destruct Hrow as (_ & st & Hst & Hc & Hcomp).
      destruct (step_coverage _ _ _ Hr Hst Hc Hcomp) as (? & _ & _ & ? & _ & _ & ? & _).
      by apply step_trade.
    + cbn in Hr. rewrite Hd, lookup_insert_ne in Hr by done.
      eapply trade_later; [done..| apply Hrow | by eapply (wi_trade _ Hinv)].
Qed.

End publish_step.

Lemma history_inv past w : recon_history (w :: past) -> world_inv w.
Proof.
  remember (w :: past) as h eqn:E. intros Hh. revert w past E.
  induction Hh as [|past w w' Hh IH Hop]; intros w0 past0 [= <- <-].
  - split; try by intros ? ?%not_elem_of_nil.
    + split; [apply map_Forall_empty | constructor].
    + intros key row cov Hr. cbn in Hr. by rewrite lookup_empty in Hr.
    + intros key row cov Hr. cbn in Hr. by rewrite lookup_empty in Hr.
  - specialize (IH _ _ eq_refl). pose proof (history_base _ _ _ _ _ Hh) as Hb.
    destruct (op_later _ _ _ _ _ _ Hb Hop) as [Hb' Hl].
    destruct (op_cases _ _ _ Hb Hop) as [Hq|Hpub]; [by eapply quiet_inv|].
    destruct Hpub as (ic & ik & ih & wc & wk & wh & cycle & reads & source & cursor & lease & now &
      o & Hic & Hik & Hih & Hle & Hcy & Hbody & Hfin & Hlog).
    apply run_body_facts in Hbody. destruct (rf_coverage Hbody) as (cov & Hcov & _).
    assert (publish_frame lease (discovery_of cycle (rd_boundary reads) source) o (w_db w) (w_db w'))
      as Hf by (eapply finalizeRun_frame; [exact (rf_status Hbody) | eauto | exact Hfin]).
    destruct (snapshot_current _ _ _ _ _ Hh Hic Hcy (pf_matched _ _ _ _ _ Hf)) as (Hcur & Hopen & Hview).
    destruct w' as [d' log']. cbn in Hlog. subst log'.
    eapply step_inv; try done.
    specialize (Hview ik wk Hik ltac:(lia)). by injection Hview.
Qed.

(** Every failed chain read of a published run has an error message, as those of
    ethers do; without one the source takes the trade for absent. *)
Definition errors_have_messages (w : world) : Prop :=
  forall p id, p ∈ w_log w -> rd_getTrade (pb_reads p) id <> Err "".

(** The id was read on the chain: no trade there and no record of it in the
    indexer, or a trade with which the indexer's record agrees on every compared
    field. *)
Definition proved (reads : RunReads) (id : string) : Prop :=
  exists t, rd_getTrade reads id = Ok t /\
    ((isAbsentChainTrade t = true /\
      exists ixs, indexer_answer reads id ixs /\ id ∉ map ix_tradeId ixs) \/
     exists ix, present_on_both isAddress getAddress reads id t ix /\
       agrees isAddress getAddress ix t).

Lemma verified_proved reads id :
  rd_getTrade reads id <> Err "" -> verified reads id -> proved reads id.
Proof.
  intros Hne [[Hix Hc]|(t & ix & Hp & Ha)].
  - destruct (rd_getTrade reads id) as [t|e] eqn:E; [|by subst]. exists t. split; [done|]. by left.
  - exists t. split; [apply Hp|]. right. eauto.
Qed.

(** C13. A complete and drift-free result is worth what it says, when failed chain
    reads carry an error message.  In every history of interleaved workers: if a run
    is recorded as completed with complete coverage and no drift, then for every id
    the chain had allocated at the recorded boundary some published run, pinned to
    that very block, read it on the chain and either found no trade there and no
    record in the indexer, or found the indexer in agreement on every compared
    field; every trade in the run's recorded scope was there on both sides and
    agreed; and the identities the indexer enumerated for that result are pairwise
    distinct texts, each read as an allocated number, and as many as the indexer
    counts.  (Two spellings of one number are distinct texts.) *)
Theorem complete_clean_run_sound past w key row stats cov :
  recon_history (w :: past) -> errors_have_messages w ->
  reconcile_runs (w_db w) !! key = Some row -> rr_status row = COMPLETED ->
  rr_stats row = Some stats -> st_driftCount stats = 0 ->
  st_coverage stats = Some cov -> rc_complete cov = true ->
  (forall n, 0 <= n < cb_chainTradeCounter (rc_boundary cov) ->
     exists p, p ∈ w_log w /\ same_point (rd_boundary (pb_reads p)) (rc_boundary cov) /\
       proved (pb_reads p) (print_Z n)) /\
  (forall s, s ∈ scope_of key (w_db w) -> exists p, p ∈ w_log w /\
     same_point (rd_boundary (pb_reads p)) (rc_boundary cov) /\
     agreed (pb_reads p) (sc_trade_id s)) /\
  let ids := map mb_trade_id (members_of (rc_enumerationCycleId cov) (w_db w)) in
  NoDup ids /\
  Forall (fun id => unallocated (cb_chainTradeCounter (rc_boundary cov)) id = false) ids /\
  rc_indexerTradeCount cov = Some (Z.of_nat (length ids)).
Proof.
  intros Hh Hm Hr Hs Hst Hz Hcov Hcomp.
  destruct (wi_clean _ (history_inv _ _ Hh) key row cov Hr) as [(H1 & _ & H2) H3];
    [split; [done|]; by exists stats|].
  split; [|done]. intros n Hn. destruct (H1 n Hn) as (p & Hp & Hpt & Hv).
  exists p. split_and!; [done..|]. apply verified_proved; [by apply Hm|done].
Qed.

End soundness.

(** ** A sample history

    A sample reconciliation history: two runs of one enumeration cycle sweep
    three trades, the second completes the sweep; a third key is taken over from
    a stalled worker.  It instantiates the history theorems. *)

Open Scope string_scope.
Open Scope Z_scope.

Definition sample_config : ReconConfig :=
  {| maxTradesPerRun := 2; batchSize := 1; indexerEnumerationLimit := 10;
     indexerEnumerationPageSize := 2; coverageMaxAgeMs := 1000; leaseTtlMs := 100 |}.

Definition sample_boundary : CoverageBoundary :=
  {| cb_blockNumber := 40; cb_blockHash := "0xAB"; cb_tag := tag_finalized;
     cb_chainTradeCounter := 3; cb_indexerProcessedBlock := 40; cb_finalityBlockNumber := 50;
     cb_indexerAhead := false |}.

Definition chain_trade (id : string) : Trade :=
  {| t_tradeId := id; t_buyer := sample_address "a"; t_supplier := sample_address "b";
     t_status := IN_TRANSIT; t_totalAmountLocked := 100; t_logisticsAmount := 10;
     t_platformFeesAmount := 5000000; t_supplierFirstTranche := 20; t_supplierSecondTranche := 30;
     t_ricardianHash := "0xff"; t_createdAt := Some 1700000000000; t_arrivalTimestamp := None |}.

Definition indexed_trade (id : string) : IndexedTradeRecord :=
  {| ix_tradeId := id; ix_buyer := sample_address "A"; ix_supplier := sample_address "b";
     ix_status := "IN_TRANSIT"; ix_totalAmountLocked := 100; ix_logisticsAmount := 10;
     ix_platformFeesAmount := 5000000; ix_platformFeeNetAmount := 1000000;
     ix_settlementSupportFeeAmount := 4000000; ix_supplierFirstTranche := 20;
     ix_supplierSecondTranche := 30; ix_ricardianHash := "0xFF";
     ix_createdAt := Some 1700000000000; ix_arrivalTimestamp := None |}.

Definition sample_rows : list IdentityRecord :=
  [{| ir_id := "p0"; ir_tradeId := "0" |}; {| ir_id := "p1"; ir_tradeId := "1" |};
   {| ir_id := "p2"; ir_tradeId := "2" |}].

Definition sample_reads (now : Z) : RunReads :=
  {| rd_boundary := sample_boundary;
     rd_getTrade := fun id => Ok (chain_trade id);
     rd_fetchTradesByIds := fun ids => Ok (map indexed_trade ids);
     rd_identityRows := fun after through limit =>
       Ok (take (Z.to_nat limit)
             (List.filter (fun r => text_lt (null_to_empty after) (ir_id r)) sample_rows));
     rd_tradeCount := Some 3; rd_endBlock := Some 40; rd_boundaryAgain := sample_boundary;
     rd_now := now |}.

(** A run that reads everything at the current world and publishes at once. *)
Definition publish_now (w : world) (cycle : EnumerationCycle) (reads : RunReads)
    (lease : RunLeaseIdentity) (now : Z) : option world :=
  let disc := discovery_of cycle (rd_boundary reads) "indexer" in
  match run_body sample_isAddress sample_getAddress sample_config reads disc
          (readCoverageCursor (w_db w))
          (fun ids => previousIdentityCounts (ec_id cycle) ids (w_db w))
          (priorCycleHasHoldingFindings (ec_id cycle) (w_db w)) with
  | Ok (Conclusive o) =>
      match finalizeRun lease disc o now (w_db w) with
      | Ok d => Some {| w_db := d;
                        w_log := {| pb_lease := lease; pb_reads := reads; pb_discovery := disc;
                                    pb_outcome := o |} :: w_log w |}
      | Err _ => None
      end
  | _ => None
  end.

Notation sample_history := (recon_history sample_isAddress sample_getAddress sample_config).

Lemma publish_now_step past w w' cycle reads lease now :
  sample_history (w :: past) -> cycle ∈ enumeration_cycles (w_db w) ->
  publish_now w cycle reads lease now = Some w' -> sample_history (w' :: w :: past).
Proof.
  intros Hh Hc Hp. constructor; [done|]. unfold publish_now in Hp.
  destruct (run_body _ _ _ _ _ _ _ _) as [[?|o]|] eqn:Hb; [done| |done].
  destruct (finalizeRun _ _ o now (w_db w)) as [d|] eqn:Hf; [|done]. injection Hp as <-.
  by apply (op_publish _ _ _ (w :: past) w 0 0 0 w w w cycle reads "indexer"
    (readCoverageCursor (w_db w)) lease now o d).
Qed.

Definition sw0 : world := {| w_db := empty_recon_db; w_log := [] |}.
Definition claim_in (key owner : string) (now id : Z) (w : world) : world :=
  with_db (claimRun key ONCE owner 100 now id (w_db w)).1 w.
Definition sw1 : world := claim_in "k1" "A" 0 1 sw0.

Definition prepared (w : world) : world :=
  match prepareEnumeration (readActiveEnumerationCycle (w_db w)) (hasEnumerationHistory (w_db w))
          sample_boundary (cu_last_trade_id (readCoverageCursor (w_db w))) "indexer" (Some "p2") 3
          "c1" (w_db w) with
  | Ok (d, _) => with_db d w
  | Err _ => w
  end.
Definition sw2 : world := prepared sw1.

Definition active_cycle (w : world) : EnumerationCycle :=
  default {| ec_id := ""; ec_source_identity := ""; ec_anchor_block := 0; ec_anchor_hash := "";
             ec_chain_counter := 0; ec_chain_cursor := 0; ec_expected_count := 0;
             ec_upper_id := None; ec_after_id := None; ec_walked := 0; ec_generation := 0;
             ec_exhausted := false; ec_coherent := false; ec_finished := false |}
    (readActiveEnumerationCycle (w_db w)).

Definition lease_k1 : RunLeaseIdentity := {| ls_runKey := "k1"; ls_owner := "A"; ls_epoch := 1 |}.
Definition lease_k2 : RunLeaseIdentity := {| ls_runKey := "k2"; ls_owner := "B"; ls_epoch := 1 |}.

Definition sw3 : world := default sw2 (publish_now sw2 (active_cycle sw2) (sample_reads 10) lease_k1 10).
Definition sw4 : world := claim_in "k2" "B" 20 2 sw3.
Definition sw5 : world := default sw4 (publish_now sw4 (active_cycle sw4) (sample_reads 30) lease_k2 30).

(** Worker C stalls on a third key; its lease lapses and D takes the key over. *)
Definition sw6 : world := claim_in "k3" "C" 40 3 sw5.
Definition sw7 : world := claim_in "k3" "D" 200 4 sw6.

Lemma sample_claim past w key owner now id :
  sample_history (w :: past) -> sample_history (claim_in key owner now id w :: w :: past).
Proof. intros Hh. constructor; [done | apply op_claim]. Qed.

Lemma sw2_history : sample_history [sw2; sw1; sw0].
Proof.
  constructor; [apply sample_claim; constructor|].
  destruct (prepareEnumeration (readActiveEnumerationCycle (w_db sw1))
    (hasEnumerationHistory (w_db sw1)) sample_boundary
    (cu_last_trade_id (readCoverageCursor (w_db sw1))) "indexer" (Some "p2") 3 "c1" (w_db sw1))
    as [[d disc]|] eqn:E; [|by vm_compute in E].
  unfold sw2, prepared. rewrite E.
  eapply (op_prepare _ _ _ _ sw1 sw1 sw1 sw1); [left | left | left | | exact E].
  by intros c ?%not_elem_of_nil.
Qed.

Lemma publish_now_sample past w cycle reads lease now :
  sample_history (w :: past) -> cycle ∈ enumeration_cycles (w_db w) ->
  is_Some (publish_now w cycle reads lease now) ->
  sample_history (default w (publish_now w cycle reads lease now) :: w :: past).
Proof. intros Hh Hc [w' Hw]. rewrite Hw. by eapply publish_now_step. Qed.

Lemma sw5_history : sample_history [sw5; sw4; sw3; sw2; sw1; sw0].
Proof.
  apply publish_now_sample.
  - apply sample_claim, publish_now_sample; [exact sw2_history | left |].
    vm_compute. eauto.
  - vm_compute. left.
  - vm_compute. eauto.
Qed.

Lemma sw7_history : sample_history [sw7; sw6; sw5; sw4; sw3; sw2; sw1; sw0].
Proof. do 2 apply sample_claim. exact sw5_history. Qed.

(** ** Witnesses *)

(** The row is recorded as complete over [counter] ids, without drift. *)
Definition clean_check (row : option ReconcileRunRow) (counter : Z) : bool :=
  match row with
  | Some r =>
      match rr_status r, rr_stats r with
      | COMPLETED, Some st =>
          match st_coverage st with
          | Some cov => (st_driftCount st =? 0) && rc_complete cov &&
                        (cb_chainTradeCounter (rc_boundary cov) =? counter)
          | None => false
          end
      | _, _ => false
      end
  | None => false
  end.

Lemma clean_check_sound row counter :
  clean_check row counter = true ->
  exists r st cov, row = Some r /\ rr_status r = COMPLETED /\ rr_stats r = Some st /\
    st_driftCount st = 0 /\ st_coverage st = Some cov /\ rc_complete cov = true /\
    cb_chainTradeCounter (rc_boundary cov) = counter.
Proof.
  unfold clean_check. destruct row as [r|]; [|done]. destruct (rr_status r) eqn:Hs; try done.
  destruct (rr_stats r) as [st|] eqn:Hst; [|done]. destruct (st_coverage st) as [cov|] eqn:Hc; [|done].
  intros H. reflect_bools. by exists r, st, cov.
Qed.

Lemma sample_clean : clean_check (reconcile_runs (w_db sw5) !! "k2") 3 = true.
Proof. vm_compute. reflexivity. Qed.

Lemma publish_now_messages w cycle now lease : errors_have_messages w ->
  errors_have_messages (default w (publish_now w cycle (sample_reads now) lease now)).
Proof.
  intros Hw. unfold publish_now. destruct (run_body _ _ _ _ _ _ _ _) as [[|o]|]; [done| |done].
  destruct (finalizeRun _ _ _ _ _); [|done]. intros p id [->|Hp]%elem_of_cons; [done|by apply Hw].
Qed.

Lemma claim_in_messages key owner now id w :
  errors_have_messages w -> errors_have_messages (claim_in key owner now id w).
Proof. done. Qed.

Lemma sw5_messages : errors_have_messages sw5.
Proof.
  unfold sw5. apply publish_now_messages. unfold sw4. apply claim_in_messages.
  unfold sw3. apply publish_now_messages. intros p id Hp.
  assert (Hlog : w_log sw2 = []) by (vm_compute; reflexivity). rewrite Hlog in Hp. inversion Hp.
Qed.

Lemma complete_clean_run_sound_witness :
  exists p, p ∈ w_log sw5 /\ proved sample_isAddress sample_getAddress (pb_reads p) (print_Z 2).
Proof.
  destruct (clean_check_sound _ _ sample_clean)
    as (row & stats & cov & Hr & Hs & Hst & Hz & Hcov & Hc & Hcnt).
  destruct (complete_clean_run_sound sample_isAddress sample_getAddress sample_config
    [sw4; sw3; sw2; sw1; sw0] sw5 "k2" row stats cov sw5_history sw5_messages Hr Hs Hst Hz Hcov Hc)
    as [Hn _].
  destruct (Hn 2) as (p & Hp & _ & Hv); [rewrite Hcnt; lia|].
  exists p. split; [exact Hp | exact Hv].
Defined.

Definition completed_check (row : option ReconcileRunRow) : bool :=
  match row with Some r => bool_decide (rr_status r = COMPLETED) | None => false end.

Lemma completed_check_sound row :
  completed_check row = true -> exists r, row = Some r /\ rr_status r = COMPLETED.
Proof. destruct row as [r|]; [|done]. cbn. intros ?%bool_decide_eq_true. eauto. Qed.

Lemma sample_completed : completed_check (reconcile_runs (w_db sw3) !! "k1") = true.
Proof. vm_compute. reflexivity. Qed.

Lemma completed_run_immutable_witness :
  exists row, reconcile_runs (w_db sw7) !! "k1" = Some row /\
    drifts_of "k1" (reconcile_drifts (w_db sw7)) = drifts_of "k1" (reconcile_drifts (w_db sw3)).
Proof.
  destruct (completed_check_sound _ sample_completed) as (row & Hr & Hs). exists row.
  destruct (completed_run_immutable sample_isAddress sample_getAddress sample_config
    [sw7; sw6; sw5; sw4; sw3; sw2; sw1; sw0] 4 0 sw3 sw7 "k1" row sw7_history eq_refl eq_refl
    ltac:(lia) Hr Hs) as (H1 & H2 & _). split; [exact H1 | exact H2].
Defined.

Definition lease_k3 (owner : string) (epoch : Z) : RunLeaseIdentity :=
  {| ls_runKey := "k3"; ls_owner := owner; ls_epoch := epoch |}.

Lemma lease_fencing_witness :
  releaseLease (lease_k3 "C" 1) (w_db sw7) = (w_db sw7, false).
Proof.
  assert (claimRun "k3" ONCE "C" 100 40 3 (w_db sw5) = (w_db sw6, Claimed (lease_k3 "C" 1) None))
    as C1 by (vm_compute; reflexivity).
  assert (claimRun "k3" ONCE "D" 100 200 4 (w_db sw6) =
    (w_db sw7, Claimed (lease_k3 "D" 2) (Some "C"))) as C2 by (vm_compute; reflexivity).
  apply (lease_fencing sample_isAddress sample_getAddress sample_config
    [sw7; sw6; sw5; sw4; sw3; sw2; sw1; sw0] 1 0 0 sw5 sw6 sw6 sw7 sw7 "k3" ONCE "C" 100 40 3
    (lease_k3 "C" 1) None ONCE "D" 100 200 4 (lease_k3 "D" 2) (Some "C") sw7_history eq_refl eq_refl
    C1 eq_refl eq_refl ltac:(lia) C2 eq_refl ltac:(lia)).
Defined.

(** A run over the first window that does not hold its cursor: the identities
    fit one page budget, so the enumeration is walked to its end. *)
Lemma cursor_moves_past_decided_ids_witness :
  exists o, run_body sample_isAddress sample_getAddress sample_config (sample_reads 10)
      (discovery_of (active_cycle sw2) sample_boundary "indexer") (readCoverageCursor (w_db sw2))
      (fun ids => previousIdentityCounts "c1" ids (w_db sw2)) false = Ok (Conclusive o) /\
    ro_cursorHeld o = false /\
    (absent_on_both (sample_reads 10) "1" \/ exists t ix,
       present_on_both sample_isAddress sample_getAddress (sample_reads 10) "1" t ix).
Proof.
  destruct (run_body sample_isAddress sample_getAddress sample_config (sample_reads 10)
    (discovery_of (active_cycle sw2) sample_boundary "indexer") (readCoverageCursor (w_db sw2))
    (fun ids => previousIdentityCounts "c1" ids (w_db sw2)) false) as [[r|o]|e] eqn:E;
    [by vm_compute in E | | by vm_compute in E].
  assert (ro_cursorHeld o = false /\ includes (tradeIdsInWindow (ro_window o)) "1" = true)
    as [Hh Hin] by (vm_compute in E; injection E as <-; vm_compute; split; reflexivity).
  exists o. split; [reflexivity|]. split; [exact Hh|].
  destruct (cursor_moves_past_decided_ids sample_isAddress sample_getAddress sample_config
    (sample_reads 10) _ _ _ _ o E Hh) as [Hd _].
  apply Hd. by apply includes_true.
Defined.
