(* ===== verification/FundedBinding.v ===== *)
(** The immutable funded settlement binding: sdk/src/settlementFundedBinding.ts
    and oracle/src/core/funded-settlement-instruction.ts.

    [parseSettlementFundedBinding] admits a JSON object as a binding,
    [assertFundedTradeMatchesBinding] compares it with the chain trade and
    [requireFundedBinding] ties it to the trade and the trigger type of an
    oracle request.  [getAddress] of ethers is a parameter ([None]: it throws). *)
From stdpp Require Import base list strings.
From S2P Require Import Prelude JsText ReconTypes.

Open Scope string_scope.
Open Scope Z_scope.

(** ** Data *)

Definition PHASE_INITIAL : string := "initial_release_after_custody_and_documents".
Definition PHASE_STANDARD : string := "inspection_available_standard".
Definition PHASE_PACKAGED : string := "inspection_available_packaged_local".
Definition PHASE_ACCEPTANCE : string := "final_release_after_inspection_acceptance".
Definition PHASE_DEADLINE : string := "final_release_after_notice_deadline".
Definition PHASE_DISPUTE : string := "dispute_resolution".

Definition FUNDED_SETTLEMENT_PHASES : list string :=
  [PHASE_INITIAL; PHASE_STANDARD; PHASE_PACKAGED; PHASE_ACCEPTANCE; PHASE_DEADLINE; PHASE_DISPUTE].

Record SettlementFundedBinding := {
  b_scopeVersion : string;
  b_ownerServiceId : string;
  b_sourceOperationId : string;
  b_phase : string;
  b_chainId : string;
  b_escrowAddress : string;
  b_tokenAddress : string;
  b_tradeId : string;
  b_buyerAddress : string;
  b_supplierAddress : string;
  b_ricardianHash : string;
  b_totalAmount : string;
  b_logisticsAmount : string;
  b_platformFeesAmount : string;
  b_supplierFirstTranche : string;
  b_supplierSecondTranche : string;
  b_supplierPayoutAmount : string;
  b_treasuryAccrualAmount : string;
  b_buyerRefundAmount : string;
  b_fundingTransactionHash : string;
  b_fundingBlockNumber : string;
  b_fundingBlockHash : string;
  b_originalFundingFingerprint : string
}.

#[export] Instance SettlementFundedBinding_eq_dec : EqDecision SettlementFundedBinding.
Proof. solve_decision. Defined.

Definition fields : list string :=
  ["scopeVersion"; "ownerServiceId"; "sourceOperationId"; "phase"; "chainId"; "escrowAddress";
   "tokenAddress"; "tradeId"; "buyerAddress"; "supplierAddress"; "ricardianHash"; "totalAmount";
   "logisticsAmount"; "platformFeesAmount"; "supplierFirstTranche"; "supplierSecondTranche";
   "supplierPayoutAmount"; "treasuryAccrualAmount"; "buyerRefundAmount";
   "fundingTransactionHash"; "fundingBlockNumber"; "fundingBlockHash";
   "originalFundingFingerprint"].

(** The members of a binding in the order of [fields]. *)
Definition members (b : SettlementFundedBinding) : list string :=
  [b_scopeVersion b; b_ownerServiceId b; b_sourceOperationId b; b_phase b; b_chainId b;
   b_escrowAddress b; b_tokenAddress b; b_tradeId b; b_buyerAddress b; b_supplierAddress b;
   b_ricardianHash b; b_totalAmount b; b_logisticsAmount b; b_platformFeesAmount b;
   b_supplierFirstTranche b; b_supplierSecondTranche b; b_supplierPayoutAmount b;
   b_treasuryAccrualAmount b; b_buyerRefundAmount b; b_fundingTransactionHash b;
   b_fundingBlockNumber b; b_fundingBlockHash b; b_originalFundingFingerprint b].

(** A binding as the JS object it is. *)
Definition binding_json (b : SettlementFundedBinding) : json :=
  JObj (zip fields (JStr <$> members b)).

Definition INVALID_BINDING : string := "A complete immutable funded settlement binding is required".

(** ** Parsing *)

(** [typeof row[key] === 'string'] *)
Definition string_member (row : list (string * json)) (key : string) : option string :=
  match json_assoc key row with Some (JStr s) => Some s | _ => None end.

(** [Object.fromEntries(fields.map((key) => [key, row[key]]))] on checked rows. *)
Definition from_members (l : list string) : option SettlementFundedBinding :=
  match l with
  | [a1; a2; a3; a4; a5; a6; a7; a8; a9; a10; a11; a12; a13; a14; a15; a16; a17; a18; a19; a20;
     a21; a22; a23] =>
      Some {| b_scopeVersion := a1; b_ownerServiceId := a2; b_sourceOperationId := a3;
              b_phase := a4; b_chainId := a5; b_escrowAddress := a6; b_tokenAddress := a7;
              b_tradeId := a8; b_buyerAddress := a9; b_supplierAddress := a10;
              b_ricardianHash := a11; b_totalAmount := a12; b_logisticsAmount := a13;
              b_platformFeesAmount := a14; b_supplierFirstTranche := a15;
              b_supplierSecondTranche := a16; b_supplierPayoutAmount := a17;
              b_treasuryAccrualAmount := a18; b_buyerRefundAmount := a19;
              b_fundingTransactionHash := a20; b_fundingBlockNumber := a21;
              b_fundingBlockHash := a22; b_originalFundingFingerprint := a23 |}
  | _ => None
  end.

Definition read_row (row : list (string * json)) : option SettlementFundedBinding :=
  if negb (length row =? length fields)%nat || existsb (fun kv => negb (includes fields kv.1)) row
  then None
  else mapM (string_member row) fields ≫= from_members.

(** [!value || value.trim() !== value || value.length > 128] *)
Definition bad_identifier (s : string) : bool :=
  negb (truthy s) || negb (String.eqb (trim s) s) || (128 <? String.length s)%nat.

(** [/^(0|[1-9]\d{0,77})$/.test(value)] and [BigInt(value) <= (1n << 256n) - 1n] *)
Definition uint256_text (s : string) : bool :=
  canonical_digits s && (String.length s <=? 78)%nat
  && (Z.of_N (digits_value s) <=? Z.shiftl 1 256 - 1).

(** [BigInt(value)] of a checked member. *)
Definition amount (s : string) : Z := Z.of_N (digits_value s).

(** [/^0x[0-9a-f]{n}$/i] *)
Definition hex_word_i (n : nat) (s : string) : bool :=
  match s with
  | String "0" (String c rest) =>
      (Ascii.eqb c "x" || Ascii.eqb c "X") && (String.length rest =? n)%nat
      && all_chars is_hex rest
  | _ => false
  end.

(** [/^[0-9a-f]{64}$/] *)
Definition lower_hex_64 (s : string) : bool :=
  (String.length s =? 64)%nat && all_chars is_lower_hex s.

Definition numeric_members (b : SettlementFundedBinding) : list string :=
  [b_chainId b; b_tradeId b; b_totalAmount b; b_logisticsAmount b; b_platformFeesAmount b;
   b_supplierFirstTranche b; b_supplierSecondTranche b; b_supplierPayoutAmount b;
   b_treasuryAccrualAmount b; b_buyerRefundAmount b; b_fundingBlockNumber b].

(** The accounting rules at the end of the parser: [true] when it refuses. *)
Definition bad_amounts (b : SettlementFundedBinding) : bool :=
  let a0 := amount (b_supplierPayoutAmount b) in
  let a1 := amount (b_treasuryAccrualAmount b) in
  let a2 := amount (b_buyerRefundAmount b) in
  let first := String.eqb (b_phase b) PHASE_INITIAL in
  let final := String.eqb (b_phase b) PHASE_ACCEPTANCE || String.eqb (b_phase b) PHASE_DEADLINE in
  let inspection := String.prefix "inspection_available_" (b_phase b) in
  (first &&
    (negb (a0 =? amount (b_supplierFirstTranche b))
     || negb (a1 =? amount (b_logisticsAmount b) + amount (b_platformFeesAmount b))
     || negb (a2 =? 0)))
  || (final &&
    (negb (a0 =? amount (b_supplierSecondTranche b)) || negb (a1 =? 0) || negb (a2 =? 0)))
  || (inspection && existsb (fun a => negb (a =? 0)) [a0; a1; a2])
  || (String.eqb (b_phase b) PHASE_DISPUTE &&
    (negb (a1 =? 0) || negb (a0 + a2 =? amount (b_supplierSecondTranche b)))).

Section Binding.
Context (getAddress : string -> option string).

(** One round of the address loop: [getAddress(value).toLowerCase()], the zero
    address refused ([/^0x0{40}$/]). *)
Definition normalize_address (s : string) : option string :=
  a ← getAddress s;
  let l := toLowerCase a in
  if String.eqb l ("0x" ++ repeat_char 40 "0") then None else Some l.

(** One round of the hash loop. *)
Definition normalize_hash (s : string) : option string :=
  if hex_word_i 64 s then Some (toLowerCase s) else None.

(** The loops that rewrite the addresses and the hashes of the result. *)
Definition normalize_binding (b : SettlementFundedBinding) : option SettlementFundedBinding :=
  escrow ← normalize_address (b_escrowAddress b);
  token ← normalize_address (b_tokenAddress b);
  buyer ← normalize_address (b_buyerAddress b);
  supplier ← normalize_address (b_supplierAddress b);
  ricardian ← normalize_hash (b_ricardianHash b);
  ftx ← normalize_hash (b_fundingTransactionHash b);
  fbh ← normalize_hash (b_fundingBlockHash b);
  Some {| b_scopeVersion := b_scopeVersion b; b_ownerServiceId := b_ownerServiceId b;
     b_sourceOperationId := b_sourceOperationId b; b_phase := b_phase b;
     b_chainId := b_chainId b; b_escrowAddress := escrow; b_tokenAddress := token;
     b_tradeId := b_tradeId b; b_buyerAddress := buyer; b_supplierAddress := supplier;
     b_ricardianHash := ricardian; b_totalAmount := b_totalAmount b;
     b_logisticsAmount := b_logisticsAmount b; b_platformFeesAmount := b_platformFeesAmount b;
     b_supplierFirstTranche := b_supplierFirstTranche b;
     b_supplierSecondTranche := b_supplierSecondTranche b;
     b_supplierPayoutAmount := b_supplierPayoutAmount b;
     b_treasuryAccrualAmount := b_treasuryAccrualAmount b;
     b_buyerRefundAmount := b_buyerRefundAmount b; b_fundingTransactionHash := ftx;
     b_fundingBlockNumber := b_fundingBlockNumber b; b_fundingBlockHash := fbh;
     b_originalFundingFingerprint := b_originalFundingFingerprint b |}.

Definition parseSettlementFundedBinding (value : json)
    : result string SettlementFundedBinding :=
  match value with
  | JObj row =>
      match read_row row with
      | None => Err INVALID_BINDING
      | Some b =>
          _ ← throw_if (negb (String.eqb (b_scopeVersion b) "agroasys.funded-settlement-binding.v1")
                        || negb (includes FUNDED_SETTLEMENT_PHASES (b_phase b))) INVALID_BINDING;
          _ ← throw_if (existsb bad_identifier [b_ownerServiceId b; b_sourceOperationId b])
                INVALID_BINDING;
          _ ← throw_if (existsb (fun s => negb (uint256_text s)) (numeric_members b))
                INVALID_BINDING;
          _ ← throw_if ((amount (b_chainId b) <=? 0) || (MAX_SAFE_INTEGER <? amount (b_chainId b))
                        || (amount (b_totalAmount b) <=? 0)) INVALID_BINDING;
          match normalize_binding b with
          | None => Err INVALID_BINDING
          | Some r =>
              _ ← throw_if (negb (lower_hex_64 (b_originalFundingFingerprint r))
                     || negb (amount (b_totalAmount r) =?
                          amount (b_logisticsAmount r) + amount (b_platformFeesAmount r)
                          + amount (b_supplierFirstTranche r)
                          + amount (b_supplierSecondTranche r))) INVALID_BINDING;
              _ ← throw_if (bad_amounts r) INVALID_BINDING;
              Ok r
          end
      end
  | _ => Err INVALID_BINDING
  end.

(** Whether the chain trade is the one the binding was funded for. *)
Definition assertFundedTradeMatchesBinding (trade : Trade) (value : SettlementFundedBinding)
    : result string unit :=
  binding ← parseSettlementFundedBinding (binding_json value);
  throw_if
    (negb (String.eqb (t_tradeId trade) (b_tradeId binding))
     || negb (String.eqb (toLowerCase (t_buyer trade)) (b_buyerAddress binding))
     || negb (String.eqb (toLowerCase (t_supplier trade)) (b_supplierAddress binding))
     || negb (String.eqb (toLowerCase (t_ricardianHash trade)) (b_ricardianHash binding))
     || negb (String.eqb (print_Z (t_totalAmountLocked trade)) (b_totalAmount binding))
     || negb (String.eqb (print_Z (t_logisticsAmount trade)) (b_logisticsAmount binding))
     || negb (String.eqb (print_Z (t_platformFeesAmount trade)) (b_platformFeesAmount binding))
     || negb (String.eqb (print_Z (t_supplierFirstTranche trade)) (b_supplierFirstTranche binding))
     || negb (String.eqb (print_Z (t_supplierSecondTranche trade)) (b_supplierSecondTranche binding)))
    "The on-chain trade differs from its immutable original funding binding".

End Binding.

(** ** Lemmas: reading a binding back *)

Lemma from_members_members b : from_members (members b) = Some b.
Proof. by destruct b. Qed.

Lemma json_assoc_zip_fields (b : SettlementFundedBinding) :
  mapM (string_member (zip fields (JStr <$> members b))) fields = Some (members b).
Proof. reflexivity. Qed.

Lemma read_row_binding b : read_row (zip fields (JStr <$> members b)) = Some b.
Proof.
  unfold read_row. rewrite json_assoc_zip_fields. destruct b. reflexivity.
Qed.

Lemma hex_word_i_lower n s : hex_word_i n s = true -> hex_word_i n (toLowerCase s) = true.
Proof.
  destruct s as [|c s]; [done|].
  destruct c as [[] [] [] [] [] [] [] []]; try discriminate.
  destruct s as [|c s]; [discriminate|]. unfold hex_word_i at 1.
  intros [[Hx Hl]%andb_true_iff Hh]%andb_true_iff.
  assert (Hc : lower_char c = "x"%char)
    by (apply orb_true_iff in Hx as [->%Ascii.eqb_eq| ->%Ascii.eqb_eq]; reflexivity).
  assert (Hs : all_chars is_hex (toLowerCase s) = true).
  { clear -Hh. induction s as [|d s IH]; [done|]. cbn in *.
    apply andb_true_iff in Hh as [Hd Hs]. rewrite (is_lower_hex_hex _ (is_hex_lower _ Hd)).
    apply (IH Hs). }
  change (hex_word_i n (String "0" (String (lower_char c) (toLowerCase s))) = true).
  rewrite Hc. unfold hex_word_i. rewrite Hs.
  replace (String.length (toLowerCase s)) with (String.length s)
    by (symmetry; apply map_chars_length).
  by rewrite Hl.
Qed.

Lemma normalize_hash_idem s t : normalize_hash s = Some t -> normalize_hash t = Some t.
Proof.
  unfold normalize_hash. destruct (hex_word_i 64 s) eqn:E; [|done]. intros [= <-].
  by rewrite (hex_word_i_lower _ _ E), toLowerCase_idem.
Qed.

Section BindingLemmas.
Context (getAddress : string -> option string).
(** ethers accepts the lower-case form of an address and answers its checksum form. *)
Context (getAddress_lower : forall s a, getAddress s = Some a -> getAddress (toLowerCase a) = Some a).

Notation parse := (parseSettlementFundedBinding getAddress).
Notation normalize := (normalize_binding getAddress).

Lemma normalize_address_idem s t :
  normalize_address getAddress s = Some t -> normalize_address getAddress t = Some t.
Proof using getAddress_lower.
  unfold normalize_address. destruct (getAddress s) as [a|] eqn:E; [|done]. simpl.
  destruct (String.eqb (toLowerCase a) _) eqn:Z; [done|]. intros [= <-].
  rewrite (getAddress_lower _ _ E). simpl. by rewrite Z.
Qed.

Lemma normalize_binding_idem b r : normalize b = Some r -> normalize r = Some r.
Proof using getAddress_lower.
  unfold normalize_binding.
  repeat (match goal with |- context [mbind _ ?m] => destruct m eqn:?; [|done]; simpl end).
  intros [= <-]. simpl.
  repeat match goal with
  | H : normalize_address _ _ = Some _ |- _ => rewrite (normalize_address_idem _ _ H); clear H
  | H : normalize_hash _ = Some _ |- _ => rewrite (normalize_hash_idem _ _ H); clear H
  end. reflexivity.
Qed.

(** The members the normalisation leaves alone. *)
Lemma normalize_binding_keeps b r : normalize b = Some r ->
  b_scopeVersion r = b_scopeVersion b /\ b_phase r = b_phase b /\
  b_ownerServiceId r = b_ownerServiceId b /\ b_sourceOperationId r = b_sourceOperationId b /\
  numeric_members r = numeric_members b /\
  b_chainId r = b_chainId b /\ b_totalAmount r = b_totalAmount b.
Proof.
  unfold normalize_binding.
  repeat (match goal with |- context [mbind _ ?m] => destruct m eqn:?; [|done]; simpl end).
  intros [= <-]. done.
Qed.

(** What an accepted binding satisfies. *)
Definition binding_ok (b : SettlementFundedBinding) : Prop :=
  b_scopeVersion b = "agroasys.funded-settlement-binding.v1" /\
  b_phase b ∈ FUNDED_SETTLEMENT_PHASES /\
  existsb bad_identifier [b_ownerServiceId b; b_sourceOperationId b] = false /\
  existsb (fun s => negb (uint256_text s)) (numeric_members b) = false /\
  0 < amount (b_chainId b) <= MAX_SAFE_INTEGER /\ 0 < amount (b_totalAmount b) /\
  normalize b = Some b /\
  lower_hex_64 (b_originalFundingFingerprint b) = true /\
  amount (b_totalAmount b) = amount (b_logisticsAmount b) + amount (b_platformFeesAmount b)
    + amount (b_supplierFirstTranche b) + amount (b_supplierSecondTranche b) /\
  bad_amounts b = false.

Lemma binding_parse_ok v b : parse v = Ok b -> binding_ok b.
Proof using getAddress_lower.
  destruct v as [| | | | | |row]; try done. cbn [parseSettlementFundedBinding].
  destruct (read_row row) as [b0|]; [|done]. rewrite !throw_if_bind.
  intros (H1 & H2 & H3 & H4 & H). destruct (normalize b0) as [r|] eqn:N; [|done].
  rewrite !throw_if_bind in H. destruct H as (H5 & H6 & [= <-]).
  pose proof (normalize_binding_idem _ _ N) as N'.
  destruct (normalize_binding_keeps _ _ N) as (E1 & E2 & E3 & E4 & E5 & E6 & E7).
  unfold binding_ok. rewrite E1, E2, E3, E4, E5, E6.
  apply orb_false_iff in H1 as [H1 H1']. apply orb_false_iff in H4 as [[H4 H4']%orb_false_iff H4''].
  apply orb_false_iff in H5 as [H5 H5'].
  apply negb_false_iff in H1, H1', H5, H5'. apply String.eqb_eq in H1.
  apply includes_true in H1'. apply Z.leb_gt in H4, H4''. apply Z.ltb_ge in H4'.
  apply Z.eqb_eq in H5'. rewrite E7 in H5' |- *.
  repeat split; done.
Qed.

Lemma parse_binding_json b : binding_ok b -> parse (binding_json b) = Ok b.
Proof.
  intros (H1 & H2 & H3 & H4 & H5 & H6 & H7 & H8 & H9 & H10).
  cbn [parseSettlementFundedBinding binding_json]. rewrite read_row_binding, !throw_if_bind.
  rewrite H7, !throw_if_bind. rewrite H1, H3, H4, H8, H10.
  repeat split; try done.
  - apply includes_true in H2. by rewrite H2.
  - repeat rewrite orb_false_iff. rewrite !Z.leb_gt, Z.ltb_ge. lia.
  - apply orb_false_iff. split; [done|]. apply negb_false_iff, Z.eqb_eq. lia.
Qed.

End BindingLemmas.

(** Everything a progression moves out of escrow. *)
Definition disbursed (b : SettlementFundedBinding) : Z :=
  amount (b_supplierPayoutAmount b) + amount (b_treasuryAccrualAmount b)
  + amount (b_buyerRefundAmount b).

(** Two bindings over the same original funding terms. *)
Definition same_terms (a b : SettlementFundedBinding) : Prop :=
  b_logisticsAmount a = b_logisticsAmount b /\ b_platformFeesAmount a = b_platformFeesAmount b /\
  b_supplierFirstTranche a = b_supplierFirstTranche b /\
  b_supplierSecondTranche a = b_supplierSecondTranche b.

(** What the accounting rules leave of the three amounts, phase by phase. *)
Lemma bad_amounts_disbursed b : bad_amounts b = false ->
  (b_phase b = PHASE_INITIAL -> disbursed b = amount (b_supplierFirstTranche b)
     + amount (b_logisticsAmount b) + amount (b_platformFeesAmount b)) /\
  (b_phase b ∈ [PHASE_ACCEPTANCE; PHASE_DEADLINE; PHASE_DISPUTE] ->
     disbursed b = amount (b_supplierSecondTranche b)) /\
  (b_phase b ∈ [PHASE_STANDARD; PHASE_PACKAGED] -> disbursed b = 0).
Proof.
  unfold bad_amounts, disbursed. intros H.
  repeat split; intros E;
    [|repeat (apply elem_of_cons in E as [E|E]); try by apply elem_of_nil in E..];
    rewrite E in H; cbn -[amount Z.add Z.eqb] in H;
    repeat rewrite ?orb_false_iff, ?negb_false_iff, ?Z.eqb_eq in H; lia.
Qed.

Lemma binding_amount_bounds b s :
  existsb (fun s => negb (uint256_text s)) (numeric_members b) = false ->
  s ∈ numeric_members b -> 0 <= amount s <= 2 ^ 256 - 1 /\ print_Z (amount s) = s.
Proof.
  intros H Hs. rewrite existsb_false, Forall_forall in H.
  specialize (H s Hs). apply negb_false_iff in H. unfold uint256_text in H.
  apply andb_true_iff in H as [[Hc _]%andb_true_iff Hb]. apply Z.leb_le in Hb.
  rewrite Z.shiftl_mul_pow2, Z.mul_1_l in Hb by lia. unfold amount in *.
  split; [split; [apply N2Z.is_nonneg | exact Hb]|].
  rewrite <- (print_digits_value s Hc) at 2.
  unfold print_Z. by destruct (digits_value s).
Qed.

(** funded bindings account for the whole escrow.  Take any two accepted
    bindings over the same funding terms, one for the initial release and one
    for the closing progression (buyer acceptance, notice deadline or dispute
    resolution).  What they move out of escrow together (supplier payouts,
    treasury accrual and buyer refund) is exactly the funded total, the total is
    a positive uint256, and parsing an accepted binding again (as every retry
    and every stored row does) returns the same binding. *)
Theorem funded_releases_pay_total (getAddress : string -> option string)
    (getAddress_lower : forall s a, getAddress s = Some a -> getAddress (toLowerCase a) = Some a)
    v1 b1 v2 b2 :
  parseSettlementFundedBinding getAddress v1 = Ok b1 ->
  parseSettlementFundedBinding getAddress v2 = Ok b2 ->
  same_terms b1 b2 -> b_phase b1 = PHASE_INITIAL ->
  b_phase b2 ∈ [PHASE_ACCEPTANCE; PHASE_DEADLINE; PHASE_DISPUTE] ->
  disbursed b1 + disbursed b2 = amount (b_totalAmount b1) /\
  b_totalAmount b1 = b_totalAmount b2 /\
  0 < amount (b_totalAmount b1) <= 2 ^ 256 - 1 /\
  parseSettlementFundedBinding getAddress (binding_json b1) = Ok b1 /\
  parseSettlementFundedBinding getAddress (binding_json b2) = Ok b2.
Proof.
  intros P1 P2 (T1 & T2 & T3 & T4) I F.
  pose proof (binding_parse_ok _ getAddress_lower _ _ P1) as O1.
  pose proof (binding_parse_ok _ getAddress_lower _ _ P2) as O2.
  split_and!; [| | | |by apply parse_binding_json..];
    destruct O1 as (_ & _ & _ & N1 & _ & A1 & _ & _ & S1 & B1),
      O2 as (_ & _ & _ & N2 & _ & A2 & _ & _ & S2 & B2).
  - apply bad_amounts_disbursed in B1 as (B1 & _ & _), B2 as (_ & B2 & _).
    rewrite (B1 I), (B2 F), S1, T4. lia.
  - apply (binding_amount_bounds _ (b_totalAmount b1)) in N1 as [_ <-]; [|repeat constructor].
    apply (binding_amount_bounds _ (b_totalAmount b2)) in N2 as [_ <-]; [|repeat constructor].
    f_equal. rewrite S1, S2, T1, T2, T3, T4. reflexivity.
  - exact A1.
  - apply (binding_amount_bounds _ (b_totalAmount b1)) in N1 as [[_ ?] _]; [done|].
    repeat constructor.
Qed.

(** ** Sample bindings *)

(** A stand-in for ethers that answers the lower-case form of an address. *)
Definition lower_getAddress (s : string) : option string :=
  if hex_word 40 s then Some (toLowerCase s) else None.

Lemma lower_getAddress_lower s a :
  lower_getAddress s = Some a -> lower_getAddress (toLowerCase a) = Some a.
Proof.
  unfold lower_getAddress. destruct (hex_word 40 s) eqn:E; [|done]. intros [= <-].
  rewrite toLowerCase_idem, (lower_hex_word_hex _ _ (hex_word_lower _ _ E)).
  by rewrite toLowerCase_idem.
Qed.

Definition sample_address (c : ascii) : string := "0x" ++ repeat_char 40 c.

Definition sample_binding (phase payout accrual refund : string) : SettlementFundedBinding :=
  {| b_scopeVersion := "agroasys.funded-settlement-binding.v1"; b_ownerServiceId := "agroasys";
     b_sourceOperationId := "op-1"; b_phase := phase; b_chainId := "84532";
     b_escrowAddress := sample_address "1"; b_tokenAddress := sample_address "2";
     b_tradeId := "7"; b_buyerAddress := sample_address "3";
     b_supplierAddress := sample_address "4"; b_ricardianHash := "0x" ++ repeat_char 64 "a";
     b_totalAmount := "1000"; b_logisticsAmount := "100"; b_platformFeesAmount := "50";
     b_supplierFirstTranche := "340"; b_supplierSecondTranche := "510";
     b_supplierPayoutAmount := payout; b_treasuryAccrualAmount := accrual;
     b_buyerRefundAmount := refund; b_fundingTransactionHash := "0x" ++ repeat_char 64 "b";
     b_fundingBlockNumber := "12"; b_fundingBlockHash := "0x" ++ repeat_char 64 "c";
     b_originalFundingFingerprint := repeat_char 64 "d" |}.

Lemma funded_releases_pay_total_witness :
  let b1 := sample_binding PHASE_INITIAL "340" "150" "0" in
  let b2 := sample_binding PHASE_DISPUTE "500" "0" "10" in
  disbursed b1 + disbursed b2 = 1000 /\ b_totalAmount b1 = b_totalAmount b2.
Proof.
  intros b1 b2.
  destruct (funded_releases_pay_total lower_getAddress lower_getAddress_lower
    (binding_json b1) b1 (binding_json b2) b2) as (H & H' & _).
  - vm_compute. reflexivity.
  - vm_compute. reflexivity.
  - repeat split.
  - reflexivity.
  - right. right. left.
  - split; [exact H | exact H'].
Defined.
