(* ===== verification/OracleTypes.v ===== *)
(** Oracle vocabulary and pure policy: oracle/src/types/trigger.ts,
    utils/errors.ts, utils/crypto.ts (keys and backoff), core/state-validator.ts,
    core/trigger-finality.ts and core/funded-settlement-instruction.ts.

    A thrown value is an [OracleError] of the service or any other error with a
    message and, for database and RPC errors, a [code]. *)
From stdpp Require Import base list strings.
From S2P Require Import Prelude JsText JsDate Finality ReconTypes FundedBinding.

Open Scope string_scope.
Open Scope Z_scope.

(** ** Triggers (types/trigger.ts) *)

Inductive TriggerStatus :=
| PENDING | EXECUTING | SUBMITTED | CONFIRMED | FAILED | EXHAUSTED_NEEDS_REDRIVE
| TERMINAL_FAILURE | PENDING_APPROVAL | REJECTED.

Inductive TriggerType :=
| RELEASE_STAGE_1 | CONFIRM_ARRIVAL | CONFIRM_INSPECTION_AVAILABLE_STANDARD
| CONFIRM_INSPECTION_AVAILABLE_PACKAGED_LOCAL | FINALIZE_AFTER_INSPECTION_ACCEPTANCE
| FINALIZE_TRADE.

Inductive ErrorType := VALIDATION | NETWORK | CONTRACT | TERMINAL | INDEXER_LAG.

#[export] Instance TriggerStatus_eq_dec : EqDecision TriggerStatus.
Proof. solve_decision. Defined.
#[export] Instance TriggerType_eq_dec : EqDecision TriggerType.
Proof. solve_decision. Defined.

(** [OracleDispatchFinality] of blockchain/dispatch-finality.ts; [verifiedAt] is
    the time value its ISO text parses to. *)
Record OracleDispatchFinality := {
  ev_policy : string;
  ev_signerScope : string;
  ev_transactionHash : string;
  ev_blockNumber : Z;
  ev_blockHash : string;
  ev_receiptStatus : Z;
  ev_witnessIds : list string;
  ev_verifiedAt : js_date
}.

(** A row of [oracle_triggers], as [SELECT *] returns it. *)
Record Trigger := {
  tr_id : Z;
  tr_action_key : string;
  tr_request_id : string;
  tr_idempotency_key : string;
  tr_trade_id : string;
  tr_trigger_type : TriggerType;
  tr_request_hash : option string;
  tr_attempt_count : Z;
  tr_status : TriggerStatus;
  tr_tx_hash : option string;
  tr_block_number : option Z;
  tr_confirmation_stage : option SettlementConfirmationStage;
  tr_confirmation_stage_at : option Z;
  tr_indexer_confirmed : bool;
  tr_indexer_confirmed_at : option Z;
  tr_indexer_event_id : option string;
  tr_last_error : option string;
  tr_error_type : option ErrorType;
  tr_on_chain_verified : bool;
  tr_on_chain_verified_at : option Z;
  tr_approved_by : option string;
  tr_approved_at : option Z;
  tr_rejected_by : option string;
  tr_rejected_at : option Z;
  tr_rejection_reason : option string;
  tr_created_at : Z;
  tr_submitted_at : option Z;
  tr_confirmed_at : option Z;
  tr_updated_at : Z;
  tr_funded_binding : option json;
  tr_dispatch_started_at : option Z;
  tr_dispatch_signer_scope : option string;
  tr_dispatch_finality_evidence : option OracleDispatchFinality
}.

(** ** Errors (utils/errors.ts) *)

Record OracleError := {
  oe_message : string;
  oe_errorType : ErrorType;
  oe_isTerminal : bool;
  oe_callerSafe : bool
}.

Inductive thrown :=
| Oracle (e : OracleError)
| Raw (message : string) (errcode : option string).

Definition ValidationError (message : string) : thrown :=
  Oracle {| oe_message := message; oe_errorType := VALIDATION; oe_isTerminal := true;
            oe_callerSafe := true |}.

(** Also a [VALIDATION] error, but not terminal. *)
Definition TradeContainedError (message : string) : thrown :=
  Oracle {| oe_message := message; oe_errorType := VALIDATION; oe_isTerminal := false;
            oe_callerSafe := true |}.

(** [fromRawFailure(new NetworkError(message))] and its siblings. *)
Definition fromRawFailure (message : string) (t : ErrorType) (isTerminal : bool) : OracleError :=
  {| oe_message := message; oe_errorType := t; oe_isTerminal := isTerminal;
     oe_callerSafe := false |}.

Definition getErrorMessage (e : thrown) : string :=
  match e with Oracle o => oe_message o | Raw m _ => m end.

Definition error_code (e : thrown) : option string :=
  match e with Oracle _ => None | Raw _ c => c end.

Definition errorTypeText (t : option ErrorType) : string :=
  match t with
  | Some VALIDATION => "validation" | Some NETWORK => "network" | Some CONTRACT => "contract"
  | Some TERMINAL => "terminal" | Some INDEXER_LAG => "indexer_lag" | None => "unknown"
  end.

Definition storedFailureMessage (t : option ErrorType) : string :=
  "Oracle " ++ errorTypeText t ++ " failure; detail is recorded on the trigger".

Definition publicFailureMessage (e : OracleError) : string :=
  if oe_callerSafe e then oe_message e else storedFailureMessage (Some (oe_errorType e)).

Definition includes_any (needles : list string) (s : string) : bool :=
  existsb (fun n => text_includes n s) needles.

Definition classifyError (error : thrown) : OracleError :=
  let message := getErrorMessage error in
  let lowerMessage := toLowerCase message in
  match error with
  | Oracle o => o
  | Raw _ _ =>
      if includes_any ["Cannot release stage 1"; "Cannot confirm arrival"; "Cannot finalize";
           "Invalid trade ID"; "Dispute window"; "expected LOCKED"; "expected IN_TRANSIT";
           "expected ARRIVAL_CONFIRMED"] message
      then fromRawFailure message VALIDATION true
      else if includes_any ["network"; "timeout"; "ECONNREFUSED"; "ETIMEDOUT"; "ENOTFOUND";
           "fetch failed"; "connection"] message
      then fromRawFailure message NETWORK false
      else if includes_any ["execution reverted"; "revert"; "require"] message
      then fromRawFailure message CONTRACT
             (includes_any ["invalid state"; "not authorized"; "trade does not exist";
                "already executed"; "paused"; "oracle disabled"; "only oracle";
                "proposal expired"; "timelock not elapsed"] lowerMessage)
      else fromRawFailure message NETWORK false
  end.

Definition determineNextStatus (error : OracleError) (attemptCount maxAttempts : Z)
    : TriggerStatus :=
  if oe_isTerminal error then TERMINAL_FAILURE
  else if maxAttempts <=? attemptCount then EXHAUSTED_NEEDS_REDRIVE
  else FAILED.

(** ** Keys (utils/crypto.ts) *)

Definition triggerTypeText (t : TriggerType) : string :=
  match t with
  | RELEASE_STAGE_1 => "RELEASE_STAGE_1"
  | CONFIRM_ARRIVAL => "CONFIRM_ARRIVAL"
  | CONFIRM_INSPECTION_AVAILABLE_STANDARD => "CONFIRM_INSPECTION_AVAILABLE_STANDARD"
  | CONFIRM_INSPECTION_AVAILABLE_PACKAGED_LOCAL => "CONFIRM_INSPECTION_AVAILABLE_PACKAGED_LOCAL"
  | FINALIZE_AFTER_INSPECTION_ACCEPTANCE => "FINALIZE_AFTER_INSPECTION_ACCEPTANCE"
  | FINALIZE_TRADE => "FINALIZE_TRADE"
  end.

Definition generateActionKey (operation : TriggerType) (tradeId : string) : string :=
  match operation with
  | FINALIZE_AFTER_INSPECTION_ACCEPTANCE | FINALIZE_TRADE => "FINAL_RELEASE" ++ ":" ++ tradeId
  | _ => triggerTypeText operation ++ ":" ++ tradeId
  end.

(** ** Trade state (core/state-validator.ts) *)

(** [TradeStatus[trade.status]] *)
Definition tradeStatusText (s : TradeStatus) : string :=
  if s =? LOCKED then "LOCKED" else if s =? IN_TRANSIT then "IN_TRANSIT"
  else if s =? ARRIVAL_CONFIRMED then "ARRIVAL_CONFIRMED" else if s =? FROZEN then "FROZEN"
  else if s =? STATUS_CLOSED then "CLOSED" else "undefined".

Definition validateReleaseStage1 (trade : Trade) : result thrown unit :=
  throw_if (negb (t_status trade =? LOCKED))
    (ValidationError ("Cannot release stage 1: Trade " ++ t_tradeId trade ++ " is in status "
       ++ tradeStatusText (t_status trade) ++ ", expected LOCKED")).

Definition validateConfirmArrival (trade : Trade) : result thrown unit :=
  throw_if (negb (t_status trade =? IN_TRANSIT))
    (ValidationError ("Cannot confirm arrival: Trade " ++ t_tradeId trade ++ " is in status "
       ++ tradeStatusText (t_status trade) ++ ", expected IN_TRANSIT")).

Definition validateFinalizeTrade (trade : Trade) : result thrown unit :=
  _ ← throw_if (negb (t_status trade =? ARRIVAL_CONFIRMED))
    (ValidationError ("Cannot finalize: Trade " ++ t_tradeId trade ++ " is in status "
       ++ tradeStatusText (t_status trade) ++ ", expected ARRIVAL_CONFIRMED"));
  throw_if (bool_decide (t_arrivalTimestamp trade = None))
    (ValidationError ("Cannot finalize: Trade " ++ t_tradeId trade ++ " has no arrival timestamp")).

Definition validateTradeState (trade : Trade) (triggerType : TriggerType) : result thrown unit :=
  match triggerType with
  | RELEASE_STAGE_1 => validateReleaseStage1 trade
  | CONFIRM_ARRIVAL | CONFIRM_INSPECTION_AVAILABLE_STANDARD
  | CONFIRM_INSPECTION_AVAILABLE_PACKAGED_LOCAL => validateConfirmArrival trade
  | FINALIZE_AFTER_INSPECTION_ACCEPTANCE | FINALIZE_TRADE => validateFinalizeTrade trade
  end.

Definition validateTradeId (tradeId : string) : result thrown unit :=
  throw_if (negb (digits_only tradeId))
    (ValidationError ("Invalid trade ID format: " ++ tradeId)).

(** ** The funded instruction of a trigger (core/funded-settlement-instruction.ts) *)

Definition phase_of (t : TriggerType) : string :=
  match t with
  | RELEASE_STAGE_1 => PHASE_INITIAL
  | CONFIRM_ARRIVAL | CONFIRM_INSPECTION_AVAILABLE_STANDARD => PHASE_STANDARD
  | CONFIRM_INSPECTION_AVAILABLE_PACKAGED_LOCAL => PHASE_PACKAGED
  | FINALIZE_AFTER_INSPECTION_ACCEPTANCE => PHASE_ACCEPTANCE
  | FINALIZE_TRADE => PHASE_DEADLINE
  end.

Definition requireFundedBinding (getAddress : string -> option string)
    (value : option json) (tradeId : string) (triggerType : TriggerType)
    : result thrown SettlementFundedBinding :=
  match parseSettlementFundedBinding getAddress (default JNull value) with
  | Err _ => Err (ValidationError
      "An immutable original funded binding is required for financial execution")
  | Ok binding =>
      _ ← throw_if (negb (String.eqb (b_tradeId binding) tradeId)
                    || negb (includes [phase_of triggerType] (b_phase binding)))
        (ValidationError
           "The progression phase or trade differs from the original funded instruction");
      Ok binding
  end.

(** ** Finality of a trigger (core/trigger-finality.ts) *)

Definition truthy_opt (s : option string) : bool :=
  match s with Some t => truthy t | None => false end.

Definition FINALITY_UNKNOWN : TransactionFinalityPosition :=
  {| pos_state := fs_unknown; pos_final := false |}.

Definition triggerFinality (status : TriggerStatus) (tx_hash : option string)
    (confirmation_stage : option SettlementConfirmationStage) (dispatch_started_at : option Z)
    : option TransactionFinalityPosition :=
  match status with
  | CONFIRMED =>
      match truthy_opt tx_hash, confirmation_stage with
      | true, Some s => Some (finalityFromConfirmationStage s)
      | _, _ => Some FINALITY_UNKNOWN
      end
  | SUBMITTED =>
      if truthy_opt tx_hash then Some {| pos_state := fs_submitted; pos_final := false |}
      else Some FINALITY_UNKNOWN
  | _ =>
      if truthy_opt tx_hash || bool_decide (is_Some dispatch_started_at)
      then Some FINALITY_UNKNOWN else None
  end.

(** ** Waits

    The waits of the oracle's retry loop: [generateJitter] and
    [calculateBackoff] of oracle/src/utils/crypto.ts, with the parameters
    trigger-execution.ts passes.

    [Math.random()] is [draw / 2^53] for an integer draw below [2^53]; delays are
    whole milliseconds.  Exact integers agree with the doubles of the service:
    every power of two that is no longer exact lies far above the cap. *)

Open Scope Z_scope.

Definition generateJitter (maxJitterMs draw : Z) : Z :=
  if maxJitterMs <=? 0 then 0 else draw * maxJitterMs / 2 ^ 53.

Definition calculateBackoff (attempt baseDelay maxDelayMs maxJitterMs draw : Z) : Z :=
  let exponentialDelay := baseDelay * 2 ^ (attempt - 1) in
  let cappedExponentialDelay := Z.min exponentialDelay maxDelayMs in
  let availableJitterWindow := Z.max 0 (maxDelayMs - cappedExponentialDelay) in
  let jitter := generateJitter (Z.min maxJitterMs (availableJitterWindow + 1)) draw in
  cappedExponentialDelay + jitter.

(** The waits of one execution: after each failed attempt but the last. *)
Definition retry_waits (maxAttempts baseDelayMs : Z) (draws : list Z) : list Z :=
  imap (fun i draw => calculateBackoff (Z.of_nat i + 1) baseDelayMs 30000 1000 draw)
    (take (Z.to_nat (maxAttempts - 1)) draws).

Definition is_draw (k : Z) : Prop := 0 <= k < 2 ^ 53.

Lemma generateJitter_bounds m k : is_draw k -> 0 <= generateJitter m k <= Z.max 0 (m - 1).
Proof.
  unfold is_draw, generateJitter. intros Hk. destruct (Z.leb_spec m 0); [lia|].
  assert (0 <= k * m / 2 ^ 53) by (apply Z.div_pos; nia).
  assert (k * m / 2 ^ 53 < m) by (apply Z.div_lt_upper_bound; nia). lia.
Qed.

Lemma calculateBackoff_bounds attempt base maxDelay maxJitter k :
  1 <= attempt -> 0 <= base -> 0 <= maxDelay -> is_draw k ->
  Z.min (base * 2 ^ (attempt - 1)) maxDelay <= calculateBackoff attempt base maxDelay maxJitter k
    <= maxDelay.
Proof.
  intros Ha Hb Hm Hk. unfold calculateBackoff.
  assert (0 <= base * 2 ^ (attempt - 1)) by (apply Z.mul_nonneg_nonneg; [done | apply Z.pow_nonneg; lia]).
  set (cap := Z.min _ _). assert (0 <= cap <= maxDelay) by lia.
  assert (Hj := generateJitter_bounds (Z.min maxJitter (Z.max 0 (maxDelay - cap) + 1)) k Hk).
  lia.
Qed.

Lemma retry_waits_lookup maxAttempts base draws i w :
  retry_waits maxAttempts base draws !! i = Some w ->
  exists k, draws !! i = Some k /\ Z.of_nat i + 1 < maxAttempts /\
    w = calculateBackoff (Z.of_nat i + 1) base 30000 1000 k.
Proof.
  unfold retry_waits. rewrite list_lookup_imap, fmap_Some. intros (k & Hk & ->).
  apply lookup_take_Some in Hk as [Hk Hi]. exists k. split_and!; [done | lia | done].
Qed.

Lemma sum_bounded (l : list Z) b : 0 <= b -> Forall (fun w => w <= b) l ->
  foldr Z.add 0 l <= Z.of_nat (length l) * b.
Proof. intros Hb. induction 1; simpl; lia. Qed.

(** C39. Retries never wait longer than configured.  Whatever the random draws, the
    wait after attempt [n] is at least the exponential delay
    [baseDelayMs * 2^(n-1)] or the cap of thirty seconds, whichever is smaller,
    and never exceeds the cap; the jitter cannot push it past.  An execution
    therefore spends at most thirty seconds per retry waiting. *)
Theorem retry_waits_bounded maxAttempts base draws :
  1 <= maxAttempts -> 0 <= base -> Forall is_draw draws ->
  (forall i w, retry_waits maxAttempts base draws !! i = Some w ->
     Z.min (base * 2 ^ Z.of_nat i) 30000 <= w <= 30000) /\
  foldr Z.add 0 (retry_waits maxAttempts base draws) <= 30000 * (maxAttempts - 1).
Proof.
  intros Ha Hb Hd.
  assert (Hw : forall i w, retry_waits maxAttempts base draws !! i = Some w ->
     Z.min (base * 2 ^ Z.of_nat i) 30000 <= w <= 30000).
  { intros i w (k & Hk & _ & ->)%retry_waits_lookup.
    replace (Z.of_nat i) with (Z.of_nat i + 1 - 1) at 1 by lia.
    apply calculateBackoff_bounds; [lia | done | done | by eapply Forall_lookup_1]. }
  split; [exact Hw|].
  transitivity (Z.of_nat (length (retry_waits maxAttempts base draws)) * 30000).
  - apply sum_bounded; [lia|]. apply Forall_lookup. intros i w H%Hw. lia.
  - unfold retry_waits. rewrite length_imap, length_take. lia.
Qed.

Lemma retry_waits_bounded_witness :
  retry_waits 4 1000 [0; 2 ^ 52; 2 ^ 53 - 1] = [1000; 2500; 4999] /\
  foldr Z.add 0 (retry_waits 4 1000 [0; 2 ^ 52; 2 ^ 53 - 1]) <= 30000 * (4 - 1).
Proof.
  split; [reflexivity|].
  apply (retry_waits_bounded 4 1000 [0; 2 ^ 52; 2 ^ 53 - 1]); [lia | lia |].
  repeat (apply Forall_cons; split; [unfold is_draw; lia|]). constructor.
Defined.
