(* ===== verification/OracleDb.v ===== *)
(** The oracle's trigger table: oracle/src/database/queries.ts,
    database/oracle-dispatch-reservation.ts and the constraints, unique indexes
    and row triggers of database/schema.sql and schema/002 to 004.

    The table is the list of its rows in insertion order.  One operation is one
    statement (or one transaction, for the dispatch claim): it takes the value
    of [NOW()] and answers a result or the error the database raises, in which
    case the table is unchanged. *)
From stdpp Require Import base list strings.
From S2P Require Import Prelude JsText JsDate Finality ReconTypes FundedBinding OracleTypes.

Open Scope string_scope.
Open Scope Z_scope.

Record db := { rows : list Trigger; next_id : Z }.

Definition dbop (A : Type) : Type := Z -> db -> result thrown A * db.

(** ** Errors the database raises *)

Definition quoted (s : string) : string :=
  String (ascii_of_N 34) (s ++ String (ascii_of_N 34) "").

Definition unique_violation (index : string) : thrown :=
  Raw ("duplicate key value violates unique constraint " ++ quoted index) (Some "23505").
Definition raise_exception (message : string) : thrown := Raw message (Some "P0001").
Definition too_long (n : string) : thrown :=
  Raw ("value too long for type character varying(" ++ n ++ ")") (Some "22001").
Definition check_violation (name : string) : thrown :=
  Raw ("new row for relation " ++ quoted "oracle_triggers" ++ " violates check constraint "
       ++ quoted name) (Some "23514").

(** ** Recognisers shared with the SQL *)

(** [split_part(scope, ':', 1)], also [scope.split(':')[0]] *)
Fixpoint split_part1 (s : string) : string :=
  match s with
  | EmptyString => ""
  | String c rest => if Ascii.eqb c ":" then "" else String c (split_part1 rest)
  end.

(** The text after the first colon, if any. *)
Fixpoint after_colon (s : string) : option string :=
  match s with
  | EmptyString => None
  | String c rest => if Ascii.eqb c ":" then Some rest else after_colon rest
  end.

(** [/^[1-9][0-9]*:0x[0-9a-f]{40}$/] *)
Definition signer_scope_shape (s : string) : bool :=
  let chain := split_part1 s in
  match after_colon s with
  | Some address => canonical_digits chain && negb (String.eqb chain "0") && lower_hex_word 40 address
  | None => false
  end.

(** [/^[0-9a-f]{64}$/] on a witness id *)
Definition witness_id_shape (s : string) : bool := lower_hex_64 s.

(** [value->>key] of a JSON object member that is a string. *)
Definition json_text (v : option json) (key : string) : option string :=
  match v with Some (JObj row) => string_member row key | _ => None end.

(** ** Row constraints *)

(** The columns with a bounded text type. *)
Definition varchar_error (r : Trigger) : option thrown :=
  let long n (s : string) := (n <? String.length s)%nat in
  let long_opt n (s : option string) := match s with Some t => long n t | None => false end in
  if long 255%nat (tr_action_key r) || long 255%nat (tr_request_id r)
     || long 255%nat (tr_idempotency_key r) || long_opt 255%nat (tr_indexer_event_id r)
     || long_opt 255%nat (tr_approved_by r) || long_opt 255%nat (tr_rejected_by r)
  then Some (too_long "255")
  else if long 100%nat (tr_trade_id r) then Some (too_long "100")
  else if long_opt 66%nat (tr_request_hash r) || long_opt 66%nat (tr_tx_hash r)
  then Some (too_long "66") else None.

(** [preserve_oracle_funded_binding] on INSERT *)
Definition binding_insert_error (r : Trigger) : option thrown :=
  let complete :=
    match tr_funded_binding r with
    | Some (JObj row) =>
        bool_decide (json_text (tr_funded_binding r) "scopeVersion"
                     = Some "agroasys.funded-settlement-binding.v1")
        && bool_decide (json_text (tr_funded_binding r) "tradeId" = Some (tr_trade_id r))
        && forallb (fun k => bool_decide (is_Some (json_assoc k row))) fields
    | _ => false
    end in
  if complete then None else Some (raise_exception "complete_original_funded_binding_required").

#[export] Instance OracleDispatchFinality_eq_dec : EqDecision OracleDispatchFinality.
Proof. solve_decision. Defined.

(** The evidence a row may carry: the last check of [protect_oracle_dispatch_resolution]. *)
Definition evidence_shape (r : Trigger) (e : OracleDispatchFinality) : bool :=
  String.eqb (ev_policy e) "oracle_dispatch_nonce_finality_v1"
  && bool_decide (tr_dispatch_signer_scope r = Some (ev_signerScope e))
  && bool_decide (tr_tx_hash r = Some (ev_transactionHash e))
  && lower_hex_word 64 (ev_blockHash e) && (0 <=? ev_blockNumber e)
  && ((ev_receiptStatus e =? 0) || (ev_receiptStatus e =? 1))
  && match ev_witnessIds e with
     | [a; b] => witness_id_shape a && witness_id_shape b && negb (String.eqb a b)
     | _ => false
     end.

(** [preserve_oracle_dispatch_claim] and [protect_oracle_dispatch_resolution] on
    UPDATE, in the order the triggers fire; no statement of the service writes
    the columns [preserve_oracle_funded_binding] protects. *)
Definition update_trigger_error (old new : Trigger) : option thrown :=
  let had_dispatch := bool_decide (is_Some (tr_dispatch_started_at old)) in
  if had_dispatch
     && negb (bool_decide (tr_dispatch_started_at new = tr_dispatch_started_at old))
  then Some (raise_exception "oracle_dispatch_claim_is_immutable")
  else if bool_decide (is_Some (tr_tx_hash old))
          && negb (bool_decide (tr_tx_hash new = tr_tx_hash old))
  then Some (raise_exception "oracle_original_transaction_is_immutable")
  else if negb had_dispatch && bool_decide (is_Some (tr_dispatch_finality_evidence new))
  then Some (raise_exception "oracle_original_dispatch_evidence_required")
  else if had_dispatch
          && negb (bool_decide (tr_dispatch_signer_scope new = tr_dispatch_signer_scope old))
  then Some (raise_exception "oracle_dispatch_signer_is_immutable")
  else if bool_decide (is_Some (tr_dispatch_finality_evidence old))
          && negb (bool_decide (tr_dispatch_finality_evidence new
                                = tr_dispatch_finality_evidence old))
  then Some (raise_exception "oracle_dispatch_resolution_is_immutable")
  else if negb had_dispatch && bool_decide (is_Some (tr_dispatch_started_at new))
          && (bool_decide (tr_dispatch_signer_scope new = None)
              || negb (bool_decide (split_part1 <$> tr_dispatch_signer_scope new
                                    = json_text (tr_funded_binding new) "chainId")))
  then Some (raise_exception "oracle_dispatch_signer_scope_required")
  else match tr_dispatch_finality_evidence new with
       | Some e => if evidence_shape new e then None
                   else Some (raise_exception "oracle_original_dispatch_evidence_required")
       | None => None
       end.

(** ** Unique indexes *)

Definition active (r : Trigger) : bool :=
  match tr_status r with PENDING | EXECUTING | SUBMITTED | PENDING_APPROVAL => true | _ => false end.

Definition dispatched (r : Trigger) : bool := bool_decide (is_Some (tr_dispatch_started_at r)).

Definition unresolved (r : Trigger) : bool :=
  dispatched r && bool_decide (tr_dispatch_finality_evidence r = None).

(** [new] conflicts with another row of one of the partial unique indexes. *)
Definition index_error (others : list Trigger) (new : Trigger) : option thrown :=
  if active new && existsb (fun o => active o && String.eqb (tr_action_key o) (tr_action_key new)) others
  then Some (unique_violation "idx_active_action_key_unique")
  else if dispatched new
       && existsb (fun o => dispatched o && String.eqb (tr_action_key o) (tr_action_key new)) others
  then Some (unique_violation "one_original_oracle_dispatch_per_action")
  else if unresolved new
       && existsb (fun o => unresolved o && bool_decide (is_Some (tr_dispatch_signer_scope o))
                   && bool_decide (tr_dispatch_signer_scope o = tr_dispatch_signer_scope new)) others
  then Some (unique_violation "one_unresolved_oracle_dispatch_per_signer")
  else None.

Definition other_rows (key : string) (t : db) : list Trigger :=
  filter (fun o => tr_idempotency_key o <> key) (rows t).

(** Everything an UPDATE of one row goes through before it is stored. *)
Definition update_error (t : db) (old new : Trigger) : option thrown :=
  match varchar_error new with
  | Some e => Some e
  | None =>
      match update_trigger_error old new with
      | Some e => Some e
      | None =>
          if match tr_dispatch_signer_scope new with
             | Some s => negb (signer_scope_shape s) | None => false end
          then Some (check_violation "oracle_dispatch_signer_scope_shape")
          else index_error (other_rows (tr_idempotency_key old) t) new
      end
  end.

(** ** Statements *)

Definition find_key (key : string) (t : db) : option Trigger :=
  List.find (fun r => String.eqb (tr_idempotency_key r) key) (rows t).

Definition replace_row (new : Trigger) (t : db) : db :=
  {| rows := (fun r => if String.eqb (tr_idempotency_key r) (tr_idempotency_key new)
                       then new else r) <$> rows t;
     next_id := next_id t |}.

(** [UPDATE oracle_triggers SET .. WHERE idempotency_key = key AND cond RETURNING *] *)
Definition update_where (key : string) (cond : Trigger -> bool) (f : Trigger -> Trigger) (t : db)
    : result thrown (option Trigger) * db :=
  match find_key key t with
  | Some old =>
      if cond old then
        let new := f old in
        match update_error t old new with
        | Some e => (Err e, t)
        | None => (Ok (Some new), replace_row new t)
        end
      else (Ok None, t)
  | None => (Ok None, t)
  end.

Record CreateTriggerData := {
  ct_fundedBinding : SettlementFundedBinding;
  ct_actionKey : string;
  ct_requestId : string;
  ct_idempotencyKey : string;
  ct_tradeId : string;
  ct_triggerType : TriggerType;
  ct_requestHash : option string;
  ct_status : TriggerStatus
}.

(** The row an INSERT proposes, with the column defaults. *)
Definition new_row (data : CreateTriggerData) (id now : Z) : Trigger :=
  {| tr_id := id; tr_action_key := ct_actionKey data; tr_request_id := ct_requestId data;
     tr_idempotency_key := ct_idempotencyKey data; tr_trade_id := ct_tradeId data;
     tr_trigger_type := ct_triggerType data; tr_request_hash := ct_requestHash data;
     tr_attempt_count := 0; tr_status := ct_status data; tr_tx_hash := None;
     tr_block_number := None; tr_confirmation_stage := None; tr_confirmation_stage_at := None;
     tr_indexer_confirmed := false; tr_indexer_confirmed_at := None;
     tr_indexer_event_id := None; tr_last_error := None; tr_error_type := None;
     tr_on_chain_verified := false; tr_on_chain_verified_at := None; tr_approved_by := None;
     tr_approved_at := None; tr_rejected_by := None; tr_rejected_at := None;
     tr_rejection_reason := None; tr_created_at := now; tr_submitted_at := None;
     tr_confirmed_at := None; tr_updated_at := now;
     tr_funded_binding := Some (binding_json (ct_fundedBinding data));
     tr_dispatch_started_at := None; tr_dispatch_signer_scope := None;
     tr_dispatch_finality_evidence := None |}.

(** The INSERT of [createTrigger]; a failed INSERT still consumes the sequence value. *)
Definition insertTrigger (data : CreateTriggerData) : dbop Trigger := fun now t =>
  let r := new_row data (next_id t) now in
  let t' := {| rows := rows t; next_id := next_id t + 1 |} in
  match varchar_error r with
  | Some e => (Err e, t')
  | None =>
      match binding_insert_error r with
      | Some e => (Err e, t')
      | None =>
          if bool_decide (is_Some (find_key (ct_idempotencyKey data) t))
          then (Err (unique_violation "oracle_triggers_pkey"), t')
          else match index_error (rows t) r with
               | Some e => (Err e, t')
               | None => (Ok r, {| rows := rows t ++ [r]; next_id := next_id t + 1 |})
               end
      end
  end.

Definition getTriggerByIdempotencyKey (key : string) : dbop (option Trigger) := fun _ t =>
  (Ok (find_key key t), t).

(** [ORDER BY created_at DESC LIMIT 1]; of two rows created at one instant the
    later one. *)
Definition latest (best : option Trigger) (r : Trigger) : option Trigger :=
  match best with
  | Some b => if tr_created_at b <=? tr_created_at r then Some r else best
  | None => Some r
  end.

Definition getLatestTriggerByActionKey (actionKey : string) : dbop (option Trigger) := fun _ t =>
  (Ok (fold_left latest (filter (fun r => tr_action_key r = actionKey) (rows t)) None), t).

Definition getTriggersByStatus (status : TriggerStatus) (limit : nat) : dbop (list Trigger) :=
  fun _ t =>
  (Ok (take limit (js_sort (fun a b => tr_created_at a <=? tr_created_at b)
                     (filter (fun r => tr_status r = status) (rows t)))), t).

(** ** Column updates *)

(** The columns the service updates; no caller passes the review columns. *)
Record UpdateTriggerData := {
  up_status : option TriggerStatus;
  up_attempt_count : option Z;
  up_tx_hash : option string;
  up_block_number : option Z;
  up_confirmation_stage : option SettlementConfirmationStage;
  up_confirmation_stage_at : option Z;
  up_indexer_confirmed : option bool;
  up_indexer_confirmed_at : option Z;
  up_indexer_event_id : option string;
  up_last_error : option string;
  up_error_type : option ErrorType;
  up_submitted_at : option Z;
  up_confirmed_at : option Z;
  up_on_chain_verified : option bool;
  up_on_chain_verified_at : option Z
}.

(** [{ status }]: the other members are undefined. *)
Definition status_update (s : TriggerStatus) : UpdateTriggerData :=
  {| up_status := Some s; up_attempt_count := None; up_tx_hash := None; up_block_number := None;
     up_confirmation_stage := None; up_confirmation_stage_at := None;
     up_indexer_confirmed := None; up_indexer_confirmed_at := None;
     up_indexer_event_id := None; up_last_error := None; up_error_type := None;
     up_submitted_at := None; up_confirmed_at := None; up_on_chain_verified := None;
     up_on_chain_verified_at := None |}.

(** [{ status, attempt_count }] *)
Definition attempt_update (s : TriggerStatus) (attempt : Z) : UpdateTriggerData :=
  {| up_status := Some s; up_attempt_count := Some attempt; up_tx_hash := None;
     up_block_number := None; up_confirmation_stage := None; up_confirmation_stage_at := None;
     up_indexer_confirmed := None; up_indexer_confirmed_at := None;
     up_indexer_event_id := None; up_last_error := None; up_error_type := None;
     up_submitted_at := None; up_confirmed_at := None; up_on_chain_verified := None;
     up_on_chain_verified_at := None |}.

(** [{ status, attempt_count?, last_error, error_type }] *)
Definition failure_update (s : TriggerStatus) (attempt : option Z) (err : string) (t : ErrorType)
    : UpdateTriggerData :=
  {| up_status := Some s; up_attempt_count := attempt; up_tx_hash := None;
     up_block_number := None; up_confirmation_stage := None; up_confirmation_stage_at := None;
     up_indexer_confirmed := None; up_indexer_confirmed_at := None;
     up_indexer_event_id := None; up_last_error := Some err; up_error_type := Some t;
     up_submitted_at := None; up_confirmed_at := None; up_on_chain_verified := None;
     up_on_chain_verified_at := None |}.

(** [{ status: SUBMITTED, tx_hash, block_number?, submitted_at }] *)
Definition submitted_update (hash : string) (block : option Z) (at_ : Z) : UpdateTriggerData :=
  {| up_status := Some SUBMITTED; up_attempt_count := None; up_tx_hash := Some hash;
     up_block_number := block; up_confirmation_stage := None; up_confirmation_stage_at := None;
     up_indexer_confirmed := None; up_indexer_confirmed_at := None;
     up_indexer_event_id := None; up_last_error := None; up_error_type := None;
     up_submitted_at := Some at_; up_confirmed_at := None; up_on_chain_verified := None;
     up_on_chain_verified_at := None |}.

(** The update with which the confirmation worker closes a trigger. *)
Definition confirmed_update (block : Z) (event : string) (at_ : Z) : UpdateTriggerData :=
  {| up_status := Some CONFIRMED; up_attempt_count := None; up_tx_hash := None;
     up_block_number := Some block; up_confirmation_stage := Some FINALIZED;
     up_confirmation_stage_at := Some at_; up_indexer_confirmed := Some true;
     up_indexer_confirmed_at := Some at_; up_indexer_event_id := Some event;
     up_last_error := None; up_error_type := None; up_submitted_at := None;
     up_confirmed_at := Some at_; up_on_chain_verified := Some true;
     up_on_chain_verified_at := Some at_ |}.

Definition or_keep {A} (new : option A) (old : option A) : option A :=
  match new with Some _ => new | None => old end.

(** [SET column = $n, .., updated_at = NOW()] for the defined members; every
    member of [UpdateTriggerData] is a whitelisted column.  The review columns
    are written by [approveTrigger] and [rejectTrigger] only. *)
Definition apply_updates (now : Z) (u : UpdateTriggerData) (r : Trigger) : Trigger :=
  {| tr_id := tr_id r; tr_action_key := tr_action_key r; tr_request_id := tr_request_id r;
     tr_idempotency_key := tr_idempotency_key r; tr_trade_id := tr_trade_id r;
     tr_trigger_type := tr_trigger_type r; tr_request_hash := tr_request_hash r;
     tr_attempt_count := default (tr_attempt_count r) (up_attempt_count u);
     tr_status := default (tr_status r) (up_status u);
     tr_tx_hash := or_keep (up_tx_hash u) (tr_tx_hash r);
     tr_block_number := or_keep (up_block_number u) (tr_block_number r);
     tr_confirmation_stage := or_keep (up_confirmation_stage u) (tr_confirmation_stage r);
     tr_confirmation_stage_at := or_keep (up_confirmation_stage_at u) (tr_confirmation_stage_at r);
     tr_indexer_confirmed := default (tr_indexer_confirmed r) (up_indexer_confirmed u);
     tr_indexer_confirmed_at := or_keep (up_indexer_confirmed_at u) (tr_indexer_confirmed_at r);
     tr_indexer_event_id := or_keep (up_indexer_event_id u) (tr_indexer_event_id r);
     tr_last_error := or_keep (up_last_error u) (tr_last_error r);
     tr_error_type := or_keep (up_error_type u) (tr_error_type r);
     tr_on_chain_verified := default (tr_on_chain_verified r) (up_on_chain_verified u);
     tr_on_chain_verified_at := or_keep (up_on_chain_verified_at u) (tr_on_chain_verified_at r);
     tr_approved_by := tr_approved_by r; tr_approved_at := tr_approved_at r;
     tr_rejected_by := tr_rejected_by r; tr_rejected_at := tr_rejected_at r;
     tr_rejection_reason := tr_rejection_reason r; tr_created_at := tr_created_at r;
     tr_submitted_at := or_keep (up_submitted_at u) (tr_submitted_at r);
     tr_confirmed_at := or_keep (up_confirmed_at u) (tr_confirmed_at r);
     tr_updated_at := now; tr_funded_binding := tr_funded_binding r;
     tr_dispatch_started_at := tr_dispatch_started_at r;
     tr_dispatch_signer_scope := tr_dispatch_signer_scope r;
     tr_dispatch_finality_evidence := tr_dispatch_finality_evidence r |}.

(** The columns the dispatch protocol and the reviews write, one setter each. *)
Definition with_review (st : TriggerStatus) (approved : option (string * Z))
    (rejected : option (string * Z * option string)) (now : Z) (r : Trigger) : Trigger :=
  {| tr_id := tr_id r; tr_action_key := tr_action_key r; tr_request_id := tr_request_id r;
     tr_idempotency_key := tr_idempotency_key r; tr_trade_id := tr_trade_id r;
     tr_trigger_type := tr_trigger_type r; tr_request_hash := tr_request_hash r;
     tr_attempt_count := tr_attempt_count r; tr_status := st;
     tr_tx_hash := tr_tx_hash r; tr_block_number := tr_block_number r;
     tr_confirmation_stage := tr_confirmation_stage r;
     tr_confirmation_stage_at := tr_confirmation_stage_at r;
     tr_indexer_confirmed := tr_indexer_confirmed r;
     tr_indexer_confirmed_at := tr_indexer_confirmed_at r;
     tr_indexer_event_id := tr_indexer_event_id r;
     tr_last_error := tr_last_error r; tr_error_type := tr_error_type r;
     tr_on_chain_verified := tr_on_chain_verified r;
     tr_on_chain_verified_at := tr_on_chain_verified_at r;
     tr_approved_by := or_keep (fst <$> approved) (tr_approved_by r);
     tr_approved_at := or_keep (snd <$> approved) (tr_approved_at r);
     tr_rejected_by := or_keep ((fun x => x.1.1) <$> rejected) (tr_rejected_by r);
     tr_rejected_at := or_keep ((fun x => x.1.2) <$> rejected) (tr_rejected_at r);
     tr_rejection_reason :=
       match rejected with Some (_, _, why) => why | None => tr_rejection_reason r end;
     tr_created_at := tr_created_at r; tr_submitted_at := tr_submitted_at r;
     tr_confirmed_at := tr_confirmed_at r; tr_updated_at := now;
     tr_funded_binding := tr_funded_binding r;
     tr_dispatch_started_at := tr_dispatch_started_at r;
     tr_dispatch_signer_scope := tr_dispatch_signer_scope r;
     tr_dispatch_finality_evidence := tr_dispatch_finality_evidence r |}.

Definition with_dispatch (st : TriggerStatus) (started : option Z) (scope : option string)
    (ev : option OracleDispatchFinality) (now : Z) (r : Trigger) : Trigger :=
  {| tr_id := tr_id r; tr_action_key := tr_action_key r; tr_request_id := tr_request_id r;
     tr_idempotency_key := tr_idempotency_key r; tr_trade_id := tr_trade_id r;
     tr_trigger_type := tr_trigger_type r; tr_request_hash := tr_request_hash r;
     tr_attempt_count := tr_attempt_count r; tr_status := st;
     tr_tx_hash := tr_tx_hash r; tr_block_number := tr_block_number r;
     tr_confirmation_stage := tr_confirmation_stage r;
     tr_confirmation_stage_at := tr_confirmation_stage_at r;
     tr_indexer_confirmed := tr_indexer_confirmed r;
     tr_indexer_confirmed_at := tr_indexer_confirmed_at r;
     tr_indexer_event_id := tr_indexer_event_id r;
     tr_last_error := tr_last_error r; tr_error_type := tr_error_type r;
     tr_on_chain_verified := tr_on_chain_verified r;
     tr_on_chain_verified_at := tr_on_chain_verified_at r;
     tr_approved_by := tr_approved_by r; tr_approved_at := tr_approved_at r;
     tr_rejected_by := tr_rejected_by r; tr_rejected_at := tr_rejected_at r;
     tr_rejection_reason := tr_rejection_reason r; tr_created_at := tr_created_at r;
     tr_submitted_at := tr_submitted_at r; tr_confirmed_at := tr_confirmed_at r;
     tr_updated_at := now; tr_funded_binding := tr_funded_binding r;
     tr_dispatch_started_at := started; tr_dispatch_signer_scope := scope;
     tr_dispatch_finality_evidence := ev |}.

(** No member is defined: the service returns without a statement. *)
Definition nothing_to_update (u : UpdateTriggerData) : bool :=
  match u with
  | Build_UpdateTriggerData None None None None None None None None None None None None None None
      None => true
  | _ => false
  end.

Definition updateTrigger (key : string) (updates : UpdateTriggerData) : dbop unit := fun now t =>
  if nothing_to_update updates then (Ok tt, t) else
  match update_where key (fun _ => true) (apply_updates now updates) t with
  | (Err e, t') => (Err e, t')
  | (Ok _, t') => (Ok tt, t')
  end.

Definition approveTrigger (key actor : string) : dbop (option Trigger) := fun now t =>
  update_where key (fun r => bool_decide (tr_status r = PENDING_APPROVAL))
    (with_review PENDING (Some (actor, now)) None now) t.

Definition rejectTrigger (key actor : string) (reason : option string) : dbop (option Trigger) :=
  fun now t =>
  update_where key (fun r => bool_decide (tr_status r = PENDING_APPROVAL))
    (with_review REJECTED None (Some (actor, now, reason)) now) t.

(** ** The dispatch reservation (oracle-dispatch-reservation.ts) *)

(** [dispatch_signer_scope = scope OR dispatch_signer_scope IS NULL] *)
Definition in_scope (scope : string) (r : Trigger) : bool :=
  match tr_dispatch_signer_scope r with Some s => String.eqb s scope | None => true end.

Definition earlier_dispatch (a b : Trigger) : bool :=
  let ta := default 0 (tr_dispatch_started_at a) in
  let tb := default 0 (tr_dispatch_started_at b) in
  (ta <? tb) || ((ta =? tb) && (tr_id a <=? tr_id b)).

Definition getUnresolvedSignerDispatch (scope : string) : dbop (option Trigger) := fun _ t =>
  (Ok (head (js_sort earlier_dispatch
               (filter (fun r => unresolved r && in_scope scope r) (rows t)))), t).

(** The UPDATE of the claim transaction. *)
Definition dispatch_claimable (t : db) (scope : string) (r : Trigger) : bool :=
  negb (dispatched r) && bool_decide (is_Some (tr_funded_binding r))
  && bool_decide (json_text (tr_funded_binding r) "chainId" = Some (split_part1 scope))
  && match tr_status r with PENDING | EXECUTING | FAILED | PENDING_APPROVAL => true | _ => false end
  && negb (existsb (fun o => unresolved o && in_scope scope o) (rows t)).

Definition claimTriggerDispatch (key scope : string) : dbop bool := fun now t =>
  if negb (signer_scope_shape scope) then (Err (Raw "Invalid Oracle signer scope" None), t)
  else match update_where key (dispatch_claimable t scope)
               (fun r => with_dispatch EXECUTING (Some now) (Some scope)
                           (tr_dispatch_finality_evidence r) now r) t with
       | (Err e, t') => (Err e, t')
       | (Ok row, t') => (Ok (bool_decide (is_Some row)), t')
       end.

(** The checks of [resolveSignerDispatch] on the evidence; [now] and [now'] are
    its two readings of [Date.now()]. *)
Definition fresh_evidence (now now' : Z) (e : OracleDispatchFinality) : bool :=
  String.eqb (ev_policy e) "oracle_dispatch_nonce_finality_v1"
  && match ev_verifiedAt e with
     | Some at_ => negb (now <? at_) && negb (10000 <? now' - at_)
     | None => false
     end
  && is_safe_integer (ev_blockNumber e) && negb (ev_blockNumber e <? 0)
  && lower_hex_word 64 (ev_blockHash e) && lower_hex_word 64 (ev_transactionHash e)
  && ((ev_receiptStatus e =? 0) || (ev_receiptStatus e =? 1))
  && match ev_witnessIds e with
     | [a; b] => witness_id_shape a && witness_id_shape b && negb (String.eqb a b)
     | _ => false
     end.

(** The UPDATE of [resolveSignerDispatch]: whether a row was resolved. *)
Definition storeResolution (key : string) (e : OracleDispatchFinality) : dbop bool := fun now t =>
  match update_where key
          (fun r => bool_decide (tr_dispatch_signer_scope r = Some (ev_signerScope e))
                    && bool_decide (tr_tx_hash r = Some (ev_transactionHash e))
                    && unresolved r)
          (fun r => with_dispatch (tr_status r) (tr_dispatch_started_at r)
                      (tr_dispatch_signer_scope r) (Some e) now r) t with
  | (Err err, t') => (Err err, t')
  | (Ok row, t') => (Ok (bool_decide (is_Some row)), t')
  end.

(** The SELECT of the retained evidence. *)
Definition retainedResolution (key : string) (e : OracleDispatchFinality)
    : dbop (option OracleDispatchFinality) := fun _ t =>
  (Ok (match find_key key t with
       | Some r =>
           if bool_decide (tr_dispatch_signer_scope r = Some (ev_signerScope e))
              && bool_decide (tr_tx_hash r = Some (ev_transactionHash e))
           then tr_dispatch_finality_evidence r else None
       | None => None
       end), t).

(** The comparison of retained and offered evidence. *)
Definition same_resolution (a b : OracleDispatchFinality) : bool :=
  String.eqb (ev_policy a) (ev_policy b) && String.eqb (ev_signerScope a) (ev_signerScope b)
  && String.eqb (ev_transactionHash a) (ev_transactionHash b)
  && (ev_blockNumber a =? ev_blockNumber b) && String.eqb (ev_blockHash a) (ev_blockHash b)
  && (ev_receiptStatus a =? ev_receiptStatus b).
