(* ===== verification/OracleEvidence.v ===== *)
(** The evidence that releases a signer: [verifyOracleDispatchFinality] and
    [createOracleDispatchWitnesses] of
    oracle/src/blockchain/dispatch-finality.ts.

    A witness is asked for its network, the receipt, the finalized head and the
    block of the receipt; what it answers is data here ([None]: the call
    rejected or timed out).  [verify_agreed] says what the
    accepted evidence means; [OracleLive] shows that the table accepts it for the
    row it is about and releases the signer. *)
From stdpp Require Import base list strings.
From S2P Require Import Prelude JsText JsDate Finality ReconTypes FundedBinding OracleTypes.
From S2P Require Import OracleDb.

Open Scope string_scope.
Open Scope Z_scope.

(** ** Witnesses *)

Record DispatchReceipt := {
  dr_hash : string; dr_from : string; dr_status : option Z; dr_blockNumber : Z;
  dr_blockHash : string }.

Record DispatchBlock := { db_number : Z; db_hash : option string }.

(** One provider's answers about one transaction. *)
Record WitnessAnswers := {
  wa_network : option Z;
  wa_receipt : option (option DispatchReceipt);
  wa_finalized : option (option DispatchBlock);
  wa_block : Z -> option (option DispatchBlock)
}.

Record Witness := { w_id : string; w_answers : WitnessAnswers }.

(** The first two URLs with distinct host names; [hostname] is [new URL(url).hostname],
    [sha256] the hex digest. *)
Fixpoint pick_hosts (hostname : string -> string) (urls seen : list string) (n : nat)
    : list string :=
  match n, urls with
  | O, _ | _, [] => []
  | S n', url :: rest =>
      let host := toLowerCase (hostname url) in
      if includes seen host then pick_hosts hostname rest seen n
      else url :: pick_hosts hostname rest (host :: seen) n'
  end.

Definition createOracleDispatchWitnesses (hostname sha256 : string -> string)
    (provider : string -> WitnessAnswers) (urls : list string) : list Witness :=
  (fun url => {| w_id := sha256 url; w_answers := provider url |})
    <$> pick_hosts hostname urls [] 2.

(** ** One observation *)

Record Observation := { ob_blockNumber : Z; ob_blockHash : string; ob_receiptStatus : Z }.

#[export] Instance Observation_eq_dec : EqDecision Observation.
Proof. solve_decision. Defined.

Definition UNAVAILABLE : thrown := Raw "Independent Oracle dispatch witnesses are unavailable" None.
Definition UNRESOLVED : thrown := ValidationError "Original Oracle dispatch remains unresolved".
Definition NOT_CANONICAL : thrown := ValidationError "Original Oracle dispatch is not canonical".

(** An awaited provider call: a rejection is reported as unavailability. *)
Definition asked {A} (r : option A) : result thrown A :=
  match r with Some a => Ok a | None => Err UNAVAILABLE end.

(** The receipt must be the signer's own mined transaction under the finalized head. *)
Definition receipt_settled (chainId address hash : string) (network : Z) (r : DispatchReceipt)
    (finalized : option DispatchBlock) : bool :=
  String.eqb (print_Z network) chainId
  && String.eqb (toLowerCase (dr_hash r)) hash
  && String.eqb (toLowerCase (dr_from r)) address
  && (bool_decide (dr_status r = Some 0) || bool_decide (dr_status r = Some 1))
  && is_safe_integer (dr_blockNumber r) && negb (dr_blockNumber r <? 0)
  && hex_word 64 (dr_blockHash r)
  && match finalized with Some f => negb (db_number f <? dr_blockNumber r) | None => false end.

(** The block at the receipt's height is the receipt's block. *)
Definition receipt_canonical (r : DispatchReceipt) (block : option DispatchBlock) : bool :=
  match block with
  | Some b => (db_number b =? dr_blockNumber r)
              && bool_decide (toLowerCase <$> db_hash b = Some (toLowerCase (dr_blockHash r)))
  | None => false
  end.

Definition observe (chainId address hash : string) (w : Witness) : result thrown Observation :=
  let a := w_answers w in
  network ← asked (wa_network a);
  receipt ← asked (wa_receipt a);
  finalized ← asked (wa_finalized a);
  match receipt with
  | None => Err UNRESOLVED
  | Some r =>
      _ ← throw_if (negb (receipt_settled chainId address hash network r finalized)) UNRESOLVED;
      block ← asked (wa_block a (dr_blockNumber r));
      _ ← throw_if (negb (receipt_canonical r block)) NOT_CANONICAL;
      Ok {| ob_blockNumber := dr_blockNumber r; ob_blockHash := toLowerCase (dr_blockHash r);
            ob_receiptStatus := default 0 (dr_status r) |}
  end.

(** ** The verification *)

Section Verify.
Context (getAddress : string -> option string).

(** [signerScope.split(':')] has two parts: a chain id and a lower-case address. *)
Definition scope_parts (scope : string) : option (string * string) :=
  match after_colon scope with
  | None => None
  | Some rest =>
      match after_colon rest with
      | Some _ => None
      | None => Some (split_part1 scope, rest)
      end
  end.

(** When both witnesses fail the error of the first is reported; the service
    reports whichever rejects first. *)
Definition verifyOracleDispatchFinality (witnesses : list Witness) (signerScope hash : string)
    (now : Z) : result thrown OracleDispatchFinality :=
  let required := ValidationError "Independent Oracle signer evidence is required" in
  match scope_parts signerScope with
  | None => Err required
  | Some (chainId, address) =>
      if negb (canonical_digits chainId && negb (String.eqb chainId "0"))
         || negb (truthy address)
      then Err required
      else
        match getAddress address with
        | None => Err (Raw "invalid address" (Some "INVALID_ARGUMENT"))
        | Some checksum =>
            match witnesses with
            | [w1; w2] =>
                if negb (String.eqb (toLowerCase checksum) address)
                   || negb (lower_hex_word 64 hash) || String.eqb (w_id w1) (w_id w2)
                then Err required
                else
                  o1 ← observe chainId address hash w1;
                  o2 ← observe chainId address hash w2;
                  _ ← throw_if (negb (bool_decide (o1 = o2)))
                        (ValidationError "Oracle dispatch witnesses disagree");
                  Ok {| ev_policy := "oracle_dispatch_nonce_finality_v1";
                        ev_signerScope := signerScope; ev_transactionHash := hash;
                        ev_blockNumber := ob_blockNumber o1; ev_blockHash := ob_blockHash o1;
                        ev_receiptStatus := ob_receiptStatus o1;
                        ev_witnessIds := [w_id w1; w_id w2]; ev_verifiedAt := new_date now |}
            | _ => Err required
            end
        end
  end.

(** ** Acceptance *)

(** A provider reports the transaction as the scope's signer's own, with this
    receipt status, mined in its canonical block at this height, under its
    finalized head. *)
Record reports (scope hash : string) (height : Z) (blockHash : string) (status : Z) (w : Witness)
    : Prop := {
  rp_network : exists n, wa_network (w_answers w) = Some n /\ print_Z n = split_part1 scope;
  rp_receipt : exists r, wa_receipt (w_answers w) = Some (Some r) /\
    toLowerCase (dr_hash r) = hash /\ Some (toLowerCase (dr_from r)) = after_colon scope /\
    dr_status r = Some status /\ dr_blockNumber r = height /\
    hex_word 64 (dr_blockHash r) = true /\ toLowerCase (dr_blockHash r) = blockHash;
  rp_height : 0 <= height <= MAX_SAFE_INTEGER;
  rp_finalized : exists f, wa_finalized (w_answers w) = Some (Some f) /\ height <= db_number f;
  rp_canonical : exists b, wa_block (w_answers w) height = Some (Some b) /\ db_number b = height /\
    toLowerCase <$> db_hash b = Some blockHash
}.

Lemma observe_reported scope address hash height blockHash status w :
  after_colon scope = Some address -> status = 0 \/ status = 1 ->
  reports scope hash height blockHash status w ->
  observe (split_part1 scope) address hash w
    = Ok {| ob_blockNumber := height; ob_blockHash := blockHash; ob_receiptStatus := status |}.
Proof.
  intros Ha Hst [(n & Hn & Hc) (r & Hr & Hh & Hf & Hs & Hb & Hx & Hbh) Hpos (f & Hfin & Hle)
    (b & Hbl & Hbn & Hbb)].
  unfold observe. rewrite Hn, Hr, Hfin. simpl mbind. unfold receipt_settled.
  rewrite Hc, Hh, Hb, Hx, Hs, !String.eqb_refl. rewrite Ha in Hf. injection Hf as ->.
  rewrite String.eqb_refl.
  assert (Hst' : bool_decide (Some status = Some 0) || bool_decide (Some status = Some 1) = true)
    by by destruct Hst as [-> | ->].
  rewrite Hst'. unfold is_safe_integer.
  replace (_ && _) with true. 2: { symmetry. rewrite !andb_true_iff, !negb_true_iff, ?Z.leb_le, !Z.ltb_ge. lia. }
  simpl. rewrite Hbl. simpl mbind. unfold receipt_canonical. rewrite Hbn, Hb, Hbb, Hbh, Z.eqb_refl.
  rewrite bool_decide_eq_true_2 by done. simpl. done.
Qed.

Lemma after_colon_none s :
  all_chars (fun x => negb (Ascii.eqb x ":")) s = true -> after_colon s = None.
Proof.
  induction s as [|c s IH]; simpl; [done|]. intros [Hc Hs]%andb_true_iff.
  destruct (Ascii.eqb c ":"); [done|by apply IH].
Qed.

Lemma lower_hex_word_no_colon n s : lower_hex_word n s = true -> after_colon s = None.
Proof.
  intros Hs. apply after_colon_none. rewrite <- (lower_hex_lower _ _ Hs).
  by eapply lower_hash_no_colon, lower_hex_word_hex.
Qed.

(** What two independent providers report is accepted, whether the transaction
    succeeded or reverted. *)
Lemma verify_accepts w1 w2 scope hash height blockHash status now :
  (forall a, lower_hex_word 40 a = true -> exists c, getAddress a = Some c /\ toLowerCase c = a) ->
  signer_scope_shape scope = true -> lower_hex_word 64 hash = true -> w_id w1 <> w_id w2 ->
  status = 0 \/ status = 1 ->
  reports scope hash height blockHash status w1 -> reports scope hash height blockHash status w2 ->
  exists e, verifyOracleDispatchFinality [w1; w2] scope hash now = Ok e /\ ev_receiptStatus e = status.
Proof.
  intros Hres Hss Hh Hne Hst H1 H2. unfold signer_scope_shape in Hss.
  destruct (after_colon scope) as [address|] eqn:Ea; [|done].
  apply andb_true_iff in Hss as [Hchain Haddr]. destruct (Hres _ Haddr) as (c & Hc & Hl).
  unfold verifyOracleDispatchFinality, scope_parts.
  rewrite Ea, (lower_hex_word_no_colon _ _ Haddr), Hchain, Hc, Hl, String.eqb_refl, Hh.
  assert (Ht : truthy address = true) by by destruct address.
  apply String.eqb_neq in Hne. rewrite Ht, Hne. cbn [negb orb].
  rewrite (observe_reported _ _ _ _ _ _ _ Ea Hst H1), (observe_reported _ _ _ _ _ _ _ Ea Hst H2).
  simpl mbind. rewrite bool_decide_eq_true_2 by done. simpl. eexists. by split.
Qed.

(** ** Lemmas *)

(** ethers answers a 20-byte hex address. *)
Context (getAddress_hex : forall s a, getAddress s = Some a -> hex_word 40 a = true).

(** What two independent providers have both seen. *)
Record agreed (ws : list Witness) (scope hash : string) (now : Z) (e : OracleDispatchFinality)
    : Prop := {
  ag_scope : signer_scope_shape scope = true;
  ag_hash : lower_hex_word 64 hash = true;
  ag_witnesses : exists w1 w2, ws = [w1; w2] /\ w_id w1 <> w_id w2 /\
    ev_witnessIds e = [w_id w1; w_id w2];
  ag_about : ev_policy e = "oracle_dispatch_nonce_finality_v1" /\ ev_signerScope e = scope /\
    ev_transactionHash e = hash /\ ev_verifiedAt e = new_date now;
  ag_block : lower_hex_word 64 (ev_blockHash e) = true /\ is_safe_integer (ev_blockNumber e) = true /\
    0 <= ev_blockNumber e /\ (ev_receiptStatus e = 0 \/ ev_receiptStatus e = 1);
  ag_seen : Forall (fun w => observe (split_part1 scope) (default "" (after_colon scope)) hash w
    = Ok {| ob_blockNumber := ev_blockNumber e; ob_blockHash := ev_blockHash e;
            ob_receiptStatus := ev_receiptStatus e |}) ws
}.

Lemma observe_ok chainId address hash w o :
  observe chainId address hash w = Ok o ->
  lower_hex_word 64 (ob_blockHash o) = true /\ is_safe_integer (ob_blockNumber o) = true /\
  0 <= ob_blockNumber o /\ (ob_receiptStatus o = 0 \/ ob_receiptStatus o = 1).
Proof.
  unfold observe. destruct (wa_network _), (wa_receipt _) as [[r|]|], (wa_finalized _);
    try discriminate; simpl mbind.
  rewrite throw_if_bind, negb_false_iff. intros [Hs H].
  destruct (wa_block _ _) as [b|]; [|discriminate]. simpl mbind in H.
  rewrite throw_if_bind in H. destruct H as [_ [= <-]]. simpl.
  unfold receipt_settled in Hs. rewrite !andb_true_iff, orb_true_iff, !bool_decide_eq_true,
    negb_true_iff, Z.ltb_ge in Hs.
  destruct Hs as (((((((_ & _) & _) & Hst) & Hsafe) & Hpos) & Hh) & _).
  split_and!; [by apply hex_word_lower | done | done |]. destruct Hst as [-> | ->]; auto.
Qed.

Lemma verify_agreed ws scope hash now e :
  verifyOracleDispatchFinality ws scope hash now = Ok e -> agreed ws scope hash now e.
Proof using getAddress_hex.
  unfold verifyOracleDispatchFinality, scope_parts.
  destruct (after_colon scope) as [address|] eqn:Ea; [|done].
  destruct (after_colon address) eqn:Eb; [done|].
  destruct (_ || _) eqn:C1; [done|]. apply orb_false_iff in C1 as [C1 _].
  apply negb_false_iff in C1. destruct (getAddress address) as [cs|] eqn:G; [|done].
  destruct ws as [|w1 [|w2 [|? ?]]]; try done.
  destruct (_ || _ || _) eqn:C2; [done|].
  rewrite !orb_false_iff, !negb_false_iff in C2. destruct C2 as [[Hcs Hh] Hne].
  apply String.eqb_eq in Hcs. apply String.eqb_neq in Hne.
  destruct (observe _ _ _ w1) as [o1|] eqn:O1; [|done].
  destruct (observe _ _ _ w2) as [o2|] eqn:O2; [|done]. simpl mbind.
  rewrite throw_if_bind, negb_false_iff, bool_decide_eq_true. intros [<- [= <-]].
  split; simpl; try done.
  - unfold signer_scope_shape. rewrite Ea, C1. simpl. rewrite <- Hcs.
    by apply hex_word_lower, getAddress_hex with address.
  - by exists w1, w2.
  - by eapply observe_ok.
  - rewrite Ea. simpl. destruct o1. repeat constructor; done.
Qed.
End Verify.
