(* ===== verification/OracleProg.v ===== *)
(** The oracle's trigger execution: oracle/src/core/trigger-execution.ts,
    core/trigger-manager.ts, core/blockchain-actions.ts,
    core/containment-guard.ts, worker/confirmation-worker.ts, with the parts of
    blockchain/sdk-client.ts and sdk/src/modules/oracleSDK.ts they run.

    An asynchronous function is a program: a tree of database statements and
    external calls, each with a continuation on its answer or on the error it
    throws.  What the chain, the signer, the indexer, the reconciliation database
    and the clock answer is left to whoever runs the program.  Logging, metrics
    and the wait between two attempts change no state and are left out; so is
    the advisory action lock, which only removes interleavings. *)
From stdpp Require Import base list strings.
From S2P Require Import Prelude JsText JsDate Finality ReconTypes FundedBinding OracleTypes.
From S2P Require Import OracleDb.

Open Scope string_scope.
Open Scope Z_scope.

(** ** Effects *)

(** The escrow transactions the oracle signs. *)
Inductive escrow_call :=
| ReleaseFundsStage1 (tradeId : string)
| ConfirmInspectionAvailable (tradeId : string) (windowSeconds : Z)
| FinalizeAfterDisputeWindow (tradeId : string).

Record BlockchainResult := { br_txHash : string; br_blockNumber : Z }.

Record ConfirmationEvent := {
  ce_id : string; ce_txHash : string; ce_tradeId : string; ce_blockNumber : Z;
  ce_eventName : string }.

(** Calls that leave the process.  [Send] hands a transaction to the signer and
    the network on behalf of the trigger with the given idempotency key. *)
Inductive call :=
| SdkGetTrade (tradeId : string)
| IsTradePaused (tradeId : string)
| VerifyFunding (binding : SettlementFundedBinding)
| ReadContainment (tradeId : string)
| GetDispatchSignerScope
| VerifyDispatchFinality (scope hash : string)
| VerifyOracleProgressionReceipt (scope hash : string) (binding : SettlementFundedBinding)
| FindConfirmationEvent (hash tradeId eventName : string)
| AssertSigner (ec : escrow_call)
| Send (key : string) (ec : escrow_call)
| WaitReceipt (hash : string)
| Notify (type dedupKey : string)
| RandomId
| DateNow.

Definition answer (c : call) : Type :=
  match c with
  | SdkGetTrade _ => Trade
  | IsTradePaused _ => bool
  | VerifyFunding _ | AssertSigner _ | Notify _ _ => unit
  | ReadContainment _ => option (string * string)
  | GetDispatchSignerScope | RandomId => string
  | VerifyDispatchFinality _ _ | VerifyOracleProgressionReceipt _ _ _ => OracleDispatchFinality
  | FindConfirmationEvent _ _ _ => option ConfirmationEvent
  | Send _ _ => string
  | WaitReceipt _ => option BlockchainResult
  | DateNow => Z
  end.

(** The statements of the trigger table. *)
Inductive query :=
| QInsert (data : CreateTriggerData)
| QByKey (key : string)
| QLatest (actionKey : string)
| QByStatus (status : TriggerStatus) (limit : nat)
| QUpdate (key : string) (u : UpdateTriggerData)
| QApprove (key actor : string)
| QReject (key actor : string) (reason : option string)
| QUnresolved (scope : string)
| QClaim (key scope : string)
| QStoreResolution (key : string) (e : OracleDispatchFinality)
| QRetained (key : string) (e : OracleDispatchFinality).

Definition qanswer (q : query) : Type :=
  match q with
  | QInsert _ => Trigger
  | QByKey _ | QLatest _ | QApprove _ _ | QReject _ _ _ | QUnresolved _ => option Trigger
  | QByStatus _ _ => list Trigger
  | QUpdate _ _ => unit
  | QClaim _ _ | QStoreResolution _ _ => bool
  | QRetained _ _ => option OracleDispatchFinality
  end.

Definition exec_query (q : query) : dbop (qanswer q) :=
  match q with
  | QInsert d => insertTrigger d
  | QByKey k => getTriggerByIdempotencyKey k
  | QLatest k => getLatestTriggerByActionKey k
  | QByStatus s n => getTriggersByStatus s n
  | QUpdate k u => updateTrigger k u
  | QApprove k a => approveTrigger k a
  | QReject k a w => rejectTrigger k a w
  | QUnresolved s => getUnresolvedSignerDispatch s
  | QClaim k s => claimTriggerDispatch k s
  | QStoreResolution k e => storeResolution k e
  | QRetained k e => retainedResolution k e
  end.

Inductive prog (A : Type) : Type :=
| Ret (a : A)
| Db (q : query) (k : result thrown (qanswer q) -> prog A)
| Ext (c : call) (k : result thrown (answer c) -> prog A).
Arguments Ret {A} a.
Arguments Db {A} q k.
Arguments Ext {A} c k.

Fixpoint prog_bind {A B} (f : A -> prog B) (p : prog A) : prog B :=
  match p with
  | Ret a => f a
  | Db q k => Db q (fun r => prog_bind f (k r))
  | Ext c k => Ext c (fun r => prog_bind f (k r))
  end.

(** A promise: the program ends with a value or with a thrown error. *)
Definition io (A : Type) : Type := prog (result thrown A).

#[export] Instance io_ret : MRet io := fun A a => Ret (Ok a).
#[export] Instance io_bind : MBind io := fun A B f m =>
  prog_bind (fun r => match r with Ok a => f a | Err e => Ret (Err e) end) m.

Definition throw {A} (e : thrown) : io A := Ret (Err e).
Definition lift {A} (r : result thrown A) : io A := Ret r.
Definition db_ (q : query) : io (qanswer q) := Db q Ret.
Definition ext (c : call) : io (answer c) := Ext c Ret.

(** [try { m } catch (error) { h(error) }] *)
Definition try_catch {A} (m : io A) (h : thrown -> io A) : io A :=
  prog_bind (fun r => match r with Ok a => Ret (Ok a) | Err e => h e end) m.

(** A plain [Error] of another package. *)
Definition lift_raw {A} (r : result string A) : io A :=
  match r with Ok a => Ret (Ok a) | Err m => Ret (Err (Raw m None)) end.

(** ** Requests and responses *)

Record TriggerRequest := {
  rq_fundedBinding : option SettlementFundedBinding;
  rq_tradeId : string;
  rq_requestId : string;
  rq_triggerType : TriggerType;
  rq_requestHash : option string;
  rq_isRedrive : bool
}.

Record TriggerResponse := {
  rs_idempotencyKey : string;
  rs_actionKey : string;
  rs_requestId : string;
  rs_status : TriggerStatus;
  rs_txHash : option string;
  rs_blockNumber : option Z;
  rs_idempotent : bool;
  rs_message : string;
  rs_finality : option TransactionFinalityPosition
}.

Record config := {
  maxAttempts : Z;
  manualApprovalEnabled : bool;
  notifierConfigured : bool;
  containmentConfigured : bool
}.

Section Oracle.
Context (getAddress : string -> option string) (cfg : config).

(** ** blockchain/sdk-client.ts *)

Definition getTrade (tradeId : string) : io Trade :=
  trade ← ext (SdkGetTrade tradeId);
  if String.eqb (t_tradeId trade) "0"
     || String.eqb (t_buyer trade) "0x0000000000000000000000000000000000000000"
  then throw (ValidationError ("Trade " ++ tradeId ++ " does not exist on-chain"))
  else mret trade.

Definition assertFundedBinding (value : SettlementFundedBinding) : io unit :=
  binding ← lift_raw (parseSettlementFundedBinding getAddress (binding_json value));
  _ ← ext (VerifyFunding binding);
  trade ← getTrade (b_tradeId binding);
  lift_raw (assertFundedTradeMatchesBinding getAddress trade binding).

Definition verifyProgressionReceipt (scope hash : string) (binding : SettlementFundedBinding)
    : io OracleDispatchFinality :=
  _ ← assertFundedBinding binding;
  ext (VerifyOracleProgressionReceipt scope hash binding).

(** ** core/containment-guard.ts: the reconciliation guard, or none configured *)

Definition assertMayProgress (tradeId : string) : io unit :=
  if containmentConfigured cfg then
    row ← try_catch (ext (ReadContainment tradeId)) (fun _ =>
      throw (TradeContainedError
        ("Cannot confirm trade " ++ tradeId ++ " is clear of a reconciliation containment")));
    match (row : option (string * string)) with
    | None => mret tt
    | Some (incident, state) =>
        throw (TradeContainedError ("Trade " ++ tradeId ++ " is under reconciliation containment "
          ++ incident ++ " (" ++ state ++ ") and must not progress until it is released"))
    end
  else mret tt.

(** [assertTradeMayProgress] of the trigger manager *)
Definition assertTradeMayProgress (tradeId : string) : io unit :=
  paused ← ext (IsTradePaused tradeId);
  if (paused : bool)
  then throw (ValidationError ("Trade " ++ tradeId
         ++ " is paused; oracle actions are blocked until an admin resumes it"))
  else assertMayProgress tradeId.

(** ** database/queries.ts: [createTrigger], [resolveSignerDispatch] *)

Definition createTrigger (data : CreateTriggerData) : io Trigger :=
  try_catch (db_ (QInsert data)) (fun error =>
    if bool_decide (error_code error = Some "23505") then
      existing ← db_ (QLatest (ct_actionKey data));
      match existing with Some e => mret e | None => throw error end
    else throw error).

Definition resolveSignerDispatch (key : string) (evidence : OracleDispatchFinality) : io unit :=
  now ← ext DateNow;
  now' ← ext DateNow;
  if negb (fresh_evidence now now' evidence)
  then throw (Raw "Fresh independent original dispatch evidence is required" None)
  else
    stored ← db_ (QStoreResolution key evidence);
    if (stored : bool) then mret tt
    else
      retained ← db_ (QRetained key evidence);
      match retained with
      | Some r => if same_resolution r evidence then mret tt
                  else throw (Raw "Original Oracle dispatch evidence changed" None)
      | None => throw (Raw "Original Oracle dispatch evidence changed" None)
      end.

(** ** Responses built from a stored trigger *)

Definition finality_of (t : Trigger) : option TransactionFinalityPosition :=
  triggerFinality (tr_status t) (tr_tx_hash t) (tr_confirmation_stage t) (tr_dispatch_started_at t).

Definition isActionAlreadyCompleted (t : Trigger) : bool :=
  match tr_status t with CONFIRMED | SUBMITTED => true | _ => false end.

(** [tx_hash || undefined] *)
Definition hash_or_undefined (h : option string) : option string :=
  match h with Some s => if truthy s then Some s else None | None => None end.

Definition response (t : Trigger) (actionKey : string) (idempotent : bool) (message : string)
    (with_tx with_finality : bool) : TriggerResponse :=
  {| rs_idempotencyKey := tr_idempotency_key t; rs_actionKey := actionKey;
     rs_requestId := tr_request_id t; rs_status := tr_status t;
     rs_txHash := if with_tx then hash_or_undefined (tr_tx_hash t) else None;
     rs_blockNumber := if with_tx then tr_block_number t else None;
     rs_idempotent := idempotent; rs_message := message;
     rs_finality := if with_finality then finality_of t else None |}.

Definition handleExistingTrigger (t : Trigger) (actionKey : string) : TriggerResponse :=
  match tr_status t with
  | CONFIRMED | SUBMITTED =>
      response t actionKey true "Trigger already executed for this request (idempotent)" true true
  | TERMINAL_FAILURE =>
      response t actionKey false (storedFailureMessage (tr_error_type t)) false false
  | EXHAUSTED_NEEDS_REDRIVE =>
      response t actionKey false
        "Trigger exhausted retries. Use re-drive endpoint to retry with on-chain verification."
        false false
  | _ => response t actionKey false "Trigger in progress" false true
  end.

(** [tx_hash ?? undefined] *)
Definition buildResponseFromTrigger (t : Trigger) (message : string) : TriggerResponse :=
  {| rs_idempotencyKey := tr_idempotency_key t; rs_actionKey := tr_action_key t;
     rs_requestId := tr_request_id t; rs_status := tr_status t; rs_txHash := tr_tx_hash t;
     rs_blockNumber := tr_block_number t; rs_idempotent := isActionAlreadyCompleted t;
     rs_message := message; rs_finality := finality_of t |}.

End Oracle.
