(* ===== verification/OracleExec.v ===== *)
(** The oracle's operations: [executeTriggerWithRetry]
    (oracle/src/core/trigger-execution.ts), [submitTriggerAction]
    (core/blockchain-actions.ts), the [TriggerManager] (core/trigger-manager.ts)
    and the [ConfirmationWorker] (worker/confirmation-worker.ts), as programs
    over the effects of OracleProg.v.

    The retry loop's local variables [dispatchClaimed] and [observedHash] are
    assigned inside the try block and read by the catch clause, so the body runs
    in a state monad whose errors keep the state. *)
From stdpp Require Import base list strings.
From S2P Require Import Prelude JsText JsDate Finality ReconTypes FundedBinding OracleTypes.
From S2P Require Import OracleDb OracleProg.

Open Scope string_scope.
Open Scope Z_scope.

(** ** Local variables across try and catch *)

Record locals := { dispatchClaimed : bool; observedHash : option string }.

Definition M (A : Type) : Type := locals -> prog (result thrown A * locals).

#[export] Instance M_ret : MRet M := fun A a s => Ret (Ok a, s).
#[export] Instance M_bind : MBind M := fun A B f m s =>
  prog_bind (fun rs => match rs with
                       | (Ok a, s') => f a s'
                       | (Err e, s') => Ret (Err e, s')
                       end) (m s).

(** [await] of a program that leaves the locals alone. *)
Definition await {A} (m : io A) : M A := fun s => prog_bind (fun r => Ret (r, s)) m.

Definition set_locals (s' : locals) : M unit := fun _ => Ret (Ok tt, s').

(** The error of a block, rethrown as another error. *)
Definition rethrow_as {A} (f : thrown -> thrown) (m : M A) : M A := fun s =>
  prog_bind (fun rs => match rs with
                       | (Ok a, s') => Ret (Ok a, s')
                       | (Err e, s') => Ret (Err (f e), s')
                       end) (m s).

Section Exec.
Context (getAddress : string -> option string) (cfg : config).

Notation requireFundedBinding := (requireFundedBinding getAddress).
Notation assertFundedBinding := (assertFundedBinding getAddress).
Notation assertMayProgress := (assertMayProgress cfg).
Notation assertTradeMayProgress := (assertTradeMayProgress cfg).

(** ** core/blockchain-actions.ts over sdk/src/modules/oracleSDK.ts *)

(** One contract method of the SDK: check the signer, broadcast, report the
    hash, wait for the receipt. *)
Definition sdk_submit (key : string) (ec : escrow_call) (failure : string)
    (onSubmitted : string -> M unit) : M BlockchainResult :=
  _ ← await (ext (AssertSigner ec));
  rethrow_as (fun e => Raw (failure ++ getErrorMessage e) None)
    (hash ← await (ext (Send key ec));
     _ ← onSubmitted hash;
     receipt ← await (ext (WaitReceipt hash));
     match (receipt : option BlockchainResult) with
     | Some r => mret r
     | None => await (throw (Raw "Transaction receipt not available" None))
     end).

Definition BUYER_AUTHORIZATION_REQUIRED : thrown :=
  ValidationError "Buyer authorization is required; submit inspection acceptance through the gateway user-action route".

Definition submitTriggerAction (key : string) (triggerType : TriggerType) (tradeId : string)
    (onSubmitted : string -> M unit) : M BlockchainResult :=
  match triggerType with
  | RELEASE_STAGE_1 =>
      sdk_submit key (ReleaseFundsStage1 tradeId) "Failed to release stage 1 funds: " onSubmitted
  | CONFIRM_ARRIVAL | CONFIRM_INSPECTION_AVAILABLE_STANDARD =>
      sdk_submit key (ConfirmInspectionAvailable tradeId (72 * 60 * 60))
        "Failed to confirm inspection availability: " onSubmitted
  | CONFIRM_INSPECTION_AVAILABLE_PACKAGED_LOCAL =>
      sdk_submit key (ConfirmInspectionAvailable tradeId (48 * 60 * 60))
        "Failed to confirm inspection availability: " onSubmitted
  | FINALIZE_AFTER_INSPECTION_ACCEPTANCE => await (throw BUYER_AUTHORIZATION_REQUIRED)
  | FINALIZE_TRADE =>
      sdk_submit key (FinalizeAfterDisputeWindow tradeId) "Failed to finalize trade: " onSubmitted
  end.

(** ** core/trigger-execution.ts *)

(** The callback that records the hash as soon as the transaction is broadcast. *)
Definition record_broadcast (key : string) (hash : string) : M unit :=
  if negb (hex_word 64 hash)
  then await (throw (ValidationError "Oracle broadcast returned an invalid transaction identity"))
  else
    _ ← set_locals {| dispatchClaimed := true; observedHash := Some (toLowerCase hash) |};
    at_ ← await (ext DateNow);
    await (db_ (QUpdate key (submitted_update (toLowerCase hash) None at_))).

(** The signer's earlier dispatch must be resolved before a new one is claimed. *)
Definition settle_unresolved (trigger : Trigger) (scope : string) : io unit :=
  unresolved ← db_ (QUnresolved scope);
  match (unresolved : option Trigger) with
  | None => mret tt
  | Some u =>
      if String.eqb (tr_idempotency_key u) (tr_idempotency_key trigger) then mret tt
      else
        match tr_tx_hash u with
        | Some hash =>
            if truthy hash && bool_decide (tr_dispatch_signer_scope u = Some scope) then
              evidence ← ext (VerifyDispatchFinality scope hash);
              resolveSignerDispatch (tr_idempotency_key u) evidence
            else throw (ValidationError
              "Oracle signer has an unresolved original dispatch; new sends are blocked")
        | None => throw (ValidationError
            "Oracle signer has an unresolved original dispatch; new sends are blocked")
        end
  end.

(** The try block, up to the claim: [None] when the claim was granted,
    otherwise the response to return. *)
Definition prepare_dispatch (trigger : Trigger) (actionKey : string) (attempt : Z)
    : io (option TriggerResponse) :=
  let key := tr_idempotency_key trigger in
  trade ← getTrade (tr_trade_id trigger);
  _ ← lift (validateTradeState trade (tr_trigger_type trigger));
  _ ← db_ (QUpdate key (attempt_update EXECUTING attempt));
  _ ← (if bool_decide (tr_trigger_type trigger = FINALIZE_AFTER_INSPECTION_ACCEPTANCE)
       then throw BUYER_AUTHORIZATION_REQUIRED else mret tt);
  binding ← lift (requireFundedBinding (tr_funded_binding trigger) (tr_trade_id trigger)
                    (tr_trigger_type trigger));
  _ ← assertFundedBinding binding;
  _ ← assertMayProgress (tr_trade_id trigger);
  scope ← ext GetDispatchSignerScope;
  _ ← settle_unresolved trigger scope;
  claimed ← db_ (QClaim key scope);
  if (claimed : bool) then mret None
  else
    original ← db_ (QByKey key);
    match (original : option Trigger) with
    | Some o =>
        if bool_decide (is_Some (tr_dispatch_started_at o))
        then mret (Some (handleExistingTrigger o actionKey))
        else throw (ValidationError "Oracle signer dispatch is reserved; new sends are blocked")
    | None => throw (ValidationError "Oracle signer dispatch is reserved; new sends are blocked")
    end.

Definition submitted_response (trigger : Trigger) (actionKey : string) (r : BlockchainResult)
    : TriggerResponse :=
  {| rs_idempotencyKey := tr_idempotency_key trigger; rs_actionKey := actionKey;
     rs_requestId := tr_request_id trigger; rs_status := SUBMITTED;
     rs_txHash := Some (br_txHash r); rs_blockNumber := Some (br_blockNumber r);
     rs_idempotent := false; rs_message := "Transaction submitted, awaiting confirmation";
     rs_finality := triggerFinality SUBMITTED (Some (br_txHash r)) None None |}.

(** The try block of one attempt. *)
Definition attempt_body (trigger : Trigger) (actionKey : string) (attempt : Z)
    : M TriggerResponse :=
  let key := tr_idempotency_key trigger in
  refused ← await (prepare_dispatch trigger actionKey attempt);
  match refused with
  | Some r => mret r
  | None =>
      _ ← set_locals {| dispatchClaimed := true; observedHash := None |};
      result ← submitTriggerAction key (tr_trigger_type trigger) (tr_trade_id trigger)
                 (record_broadcast key);
      at_ ← await (ext DateNow);
      _ ← await (db_ (QUpdate key
             (submitted_update (br_txHash result) (Some (br_blockNumber result)) at_)));
      mret (submitted_response trigger actionKey result)
  end.

(** The catch clause after the claim: nothing is sent again. *)
Definition unresolved_outcome (trigger : Trigger) (actionKey : string) (hash : option string)
    : io TriggerResponse :=
  let status := if bool_decide (is_Some hash) then SUBMITTED else EXECUTING in
  _ ← db_ (QUpdate (tr_idempotency_key trigger)
        (failure_update status None
           "Original dispatch outcome requires independent reconciliation. Resubmission is blocked."
           NETWORK));
  started ← ext DateNow;
  mret {| rs_idempotencyKey := tr_idempotency_key trigger; rs_actionKey := actionKey;
          rs_requestId := tr_request_id trigger; rs_status := status; rs_txHash := hash;
          rs_blockNumber := None; rs_idempotent := false;
          rs_message :=
            "Original dispatch outcome is unresolved; observation continues without another submission.";
          rs_finality := triggerFinality status hash None (Some started) |}.

(** [notifyTerminalStatus] of the trigger manager *)
Definition notifyTerminalStatus (actionKey : string) (status : TriggerStatus) : io unit :=
  if notifierConfigured cfg then
    if bool_decide (status = TERMINAL_FAILURE)
    then ext (Notify "ORACLE_TRIGGER_TERMINAL_FAILURE" ("oracle:TERMINAL_FAILURE:" ++ actionKey))
    else ext (Notify "ORACLE_TRIGGER_EXHAUSTED_NEEDS_REDRIVE"
                ("oracle:EXHAUSTED_NEEDS_REDRIVE:" ++ actionKey))
  else mret tt.

Definition failure_response (trigger : Trigger) (actionKey : string) (status : TriggerStatus)
    (message : string) : TriggerResponse :=
  {| rs_idempotencyKey := tr_idempotency_key trigger; rs_actionKey := actionKey;
     rs_requestId := tr_request_id trigger; rs_status := status; rs_txHash := None;
     rs_blockNumber := None; rs_idempotent := false; rs_message := message;
     rs_finality := None |}.

(** [while (attempt <= maxAttempts)]; [fuel] is the number of attempts left. *)
Fixpoint retry_loop (fuel : nat) (trigger : Trigger) (actionKey : string) (attempt : Z)
    (s : locals) : io TriggerResponse :=
  match fuel with
  | O => throw (Raw ("Retry loop exited without terminal status for action " ++ actionKey
           ++ " after " ++ print_Z (maxAttempts cfg) ++ " attempts") None)
  | S fuel =>
      prog_bind (fun outcome =>
        match outcome return io TriggerResponse with
        | (Ok r, _) => mret r
        | (Err error, s') =>
            if dispatchClaimed s' then unresolved_outcome trigger actionKey (observedHash s')
            else
              let oracleError := classifyError error in
              let nextStatus := determineNextStatus oracleError attempt (maxAttempts cfg) in
              let message := publicFailureMessage oracleError in
              _ ← db_ (QUpdate (tr_idempotency_key trigger)
                     (failure_update nextStatus (Some attempt) message (oe_errorType oracleError)));
              match nextStatus with
              | TERMINAL_FAILURE =>
                  _ ← notifyTerminalStatus actionKey nextStatus;
                  mret (failure_response trigger actionKey nextStatus message)
              | EXHAUSTED_NEEDS_REDRIVE =>
                  _ ← notifyTerminalStatus actionKey nextStatus;
                  mret (failure_response trigger actionKey nextStatus
                    ("Exhausted " ++ print_Z (maxAttempts cfg) ++ " attempts: " ++ message
                       ++ ". Use re-drive endpoint to retry."))
              | _ =>
                  if (attempt <? maxAttempts cfg) && negb (oe_isTerminal oracleError)
                  then retry_loop fuel trigger actionKey (attempt + 1) s'
                  else throw error
              end
        end) (attempt_body trigger actionKey attempt s)
  end.

Definition executeTriggerWithRetry (trigger : Trigger) (actionKey : string)
    : io TriggerResponse :=
  retry_loop (Z.to_nat (maxAttempts cfg)) trigger actionKey 1
    {| dispatchClaimed := false; observedHash := None |}.

(** ** core/trigger-manager.ts *)

(** [createNewTrigger] *)
Definition createNewTrigger (request : TriggerRequest) (actionKey : string) : io Trigger :=
  binding ← lift (requireFundedBinding (binding_json <$> rq_fundedBinding request)
                    (rq_tradeId request) (rq_triggerType request));
  createTrigger
    {| ct_fundedBinding := binding; ct_actionKey := actionKey;
       ct_requestId := rq_requestId request;
       ct_idempotencyKey := actionKey ++ ":" ++ rq_requestId request;
       ct_tradeId := rq_tradeId request; ct_triggerType := rq_triggerType request;
       ct_requestHash := hash_or_undefined (rq_requestHash request); ct_status := PENDING |}.

Definition handleRedrive (exhausted : Trigger) (request : TriggerRequest) : io TriggerResponse :=
  let actionKey := tr_action_key exhausted in
  let required := requireFundedBinding (tr_funded_binding exhausted) (tr_trade_id exhausted)
                    (tr_trigger_type exhausted) in
  binding ← lift required;
  _ ← assertFundedBinding binding;
  _ ← assertTradeMayProgress (tr_trade_id exhausted);
  if bool_decide (is_Some (tr_dispatch_started_at exhausted)) || truthy_opt (tr_tx_hash exhausted)
     || bool_decide (is_Some (tr_submitted_at exhausted))
  then throw (ValidationError "Original execution requires independent reconciliation; re-drive cannot create another transaction")
  else
    trade ← getTrade (tr_trade_id exhausted);
    _ ← lift (validateTradeState trade (tr_trigger_type exhausted));
    newRequestId ← ext RandomId;
    keySuffix ← ext RandomId;
    binding ← lift required;
    newTrigger ← createTrigger
      {| ct_fundedBinding := binding; ct_actionKey := actionKey; ct_requestId := newRequestId;
         ct_idempotencyKey := actionKey ++ ":" ++ keySuffix;
         ct_tradeId := tr_trade_id exhausted; ct_triggerType := tr_trigger_type exhausted;
         ct_requestHash := hash_or_undefined (rq_requestHash request); ct_status := PENDING |};
    if negb (String.eqb (tr_request_id newTrigger) newRequestId)
    then mret (handleExistingTrigger newTrigger actionKey)
    else executeTriggerWithRetry newTrigger actionKey.

(** The block of [executeTriggerWithActionLock] that ends in an execution. *)
Definition accept_request (request : TriggerRequest) (actionKey : string) : io TriggerResponse :=
  trade ← getTrade (rq_tradeId request);
  _ ← lift (validateTradeState trade (rq_triggerType request));
  _ ← assertTradeMayProgress (rq_tradeId request);
  trigger ← createNewTrigger request actionKey;
  if negb (String.eqb (tr_request_id trigger) (rq_requestId request))
  then mret (handleExistingTrigger trigger actionKey)
  else if manualApprovalEnabled cfg && negb (rq_isRedrive request) then
    _ ← db_ (QUpdate (tr_idempotency_key trigger) (status_update PENDING_APPROVAL));
    mret {| rs_idempotencyKey := tr_idempotency_key trigger; rs_actionKey := actionKey;
            rs_requestId := rq_requestId request; rs_status := PENDING_APPROVAL;
            rs_txHash := None; rs_blockNumber := None; rs_idempotent := false;
            rs_message := "Trigger created and awaiting manual approval"; rs_finality := None |}
  else executeTriggerWithRetry trigger actionKey.

(** The catch clause around it: a refused trade lookup. *)
Definition refused_lookup (tradeId : string) (error : thrown) : thrown :=
  if bool_decide (error_code error = Some "CALL_EXCEPTION")
     || text_includes "trade not found" (getErrorMessage error)
     || text_includes "execution reverted" (getErrorMessage error)
  then ValidationError ("Trade " ++ tradeId ++ " does not exist on-chain")
  else error.

Definition executeTriggerWithActionLock (request : TriggerRequest) (actionKey : string)
    : io TriggerResponse :=
  latestTrigger ← db_ (QLatest actionKey);
  let latest : option Trigger := latestTrigger in
  _ ← match rq_fundedBinding request, latest with
      | Some fb, Some l =>
          given ← lift (requireFundedBinding (Some (binding_json fb)) (rq_tradeId request)
                          (rq_triggerType request));
          stored ← lift (requireFundedBinding (tr_funded_binding l) (tr_trade_id l)
                           (tr_trigger_type l));
          if bool_decide (given = stored) then mret tt
          else throw (ValidationError
            "The original funded progression instruction cannot be replaced")
      | _, _ => mret tt
      end;
  let fresh :=
    existing ← db_ (QByKey (actionKey ++ ":" ++ rq_requestId request));
    match (existing : option Trigger) with
    | Some e => mret (handleExistingTrigger e actionKey)
    | None =>
        binding ← lift (requireFundedBinding (binding_json <$> rq_fundedBinding request)
                          (rq_tradeId request) (rq_triggerType request));
        _ ← assertFundedBinding binding;
        try_catch (accept_request request actionKey)
          (fun error => throw (refused_lookup (rq_tradeId request) error))
    end in
  match latest with
  | None => fresh
  | Some l =>
      if bool_decide (is_Some (tr_dispatch_started_at l)) && negb (isActionAlreadyCompleted l)
      then mret (handleExistingTrigger l actionKey)
      else if isActionAlreadyCompleted l
      then mret (response l actionKey true "Action already completed (idempotent)" true true)
      else if rq_isRedrive request && bool_decide (tr_status l = EXHAUSTED_NEEDS_REDRIVE)
      then handleRedrive l request
      else fresh
  end.

Definition executeTrigger (request : TriggerRequest) : io TriggerResponse :=
  _ ← lift (validateTradeId (rq_tradeId request));
  executeTriggerWithActionLock request
    (generateActionKey (rq_triggerType request) (rq_tradeId request)).

(** The answer when a review finds no trigger awaiting it. *)
Definition already_processed (key : string) : io TriggerResponse :=
  existing ← db_ (QByKey key);
  match (existing : option Trigger) with
  | None => throw (ValidationError ("Trigger not found: " ++ key))
  | Some e => mret (buildResponseFromTrigger e "Trigger already processed")
  end.

Definition resumeAfterApproval (key actor : string) : io TriggerResponse :=
  updated ← db_ (QApprove key actor);
  match (updated : option Trigger) with
  | None => already_processed key
  | Some u =>
      current ← db_ (QByKey key);
      match (current : option Trigger) with
      | Some c =>
          if isActionAlreadyCompleted c then mret (handleExistingTrigger c (tr_action_key c))
          else _ ← assertTradeMayProgress (tr_trade_id u);
               executeTriggerWithRetry u (tr_action_key u)
      | None =>
          _ ← assertTradeMayProgress (tr_trade_id u);
          executeTriggerWithRetry u (tr_action_key u)
      end
  end.

Definition rejectPendingTrigger (key actor : string) (reason : option string)
    : io TriggerResponse :=
  updated ← db_ (QReject key actor reason);
  match (updated : option Trigger) with
  | None => already_processed key
  | Some u => mret (buildResponseFromTrigger u ("Trigger rejected by " ++ actor))
  end.

(** ** worker/confirmation-worker.ts *)

Definition CONFIRMATION_TIMEOUT_MS : Z := 30 * 60 * 1000.
Definition BATCH_SIZE : nat := 100.

Definition expectedEvent (phase : string) : string :=
  if String.eqb phase PHASE_INITIAL then "FundsReleasedStage1"
  else if String.prefix "inspection_available_" phase then "InspectionAvailable"
  else "FinalTrancheReleased".

(** The try block of [checkConfirmation]. *)
Definition confirm_original (trigger : Trigger) (hash scope : string) : io unit :=
  let key := tr_idempotency_key trigger in
  binding ← lift (requireFundedBinding (tr_funded_binding trigger) (tr_trade_id trigger)
                    (tr_trigger_type trigger));
  evidence ← verifyProgressionReceipt getAddress scope hash binding;
  let name := expectedEvent (b_phase binding) in
  event ← ext (FindConfirmationEvent hash (tr_trade_id trigger) name);
  match (event : option ConfirmationEvent) with
  | None => mret tt
  | Some ev =>
      if negb (String.eqb (toLowerCase (ce_txHash ev)) (toLowerCase hash))
         || negb (String.eqb (ce_tradeId ev) (tr_trade_id trigger))
         || negb (ce_blockNumber ev =? ev_blockNumber evidence)
         || negb (String.eqb (ce_eventName ev) name)
      then mret tt
      else
        _ ← resolveSignerDispatch key evidence;
        at_ ← ext DateNow;
        db_ (QUpdate key (confirmed_update (ev_blockNumber evidence) (ce_id ev) at_))
  end.

(** The catch clause: the outcome stays unresolved; an old one is paged. *)
Definition page_unresolved (trigger : Trigger) : io unit :=
  match tr_submitted_at trigger with
  | None => mret tt
  | Some at_ =>
      now ← ext DateNow;
      if (CONFIRMATION_TIMEOUT_MS <? now - at_) && notifierConfigured cfg
      then try_catch (ext (Notify "ORACLE_CONFIRMATION_TIMEOUT"
                             ("oracle:confirmation-timeout:" ++ tr_action_key trigger)))
             (fun _ => mret tt)
      else mret tt
  end.

Definition checkConfirmation (trigger : Trigger) : io unit :=
  match tr_tx_hash trigger, tr_submitted_at trigger, tr_dispatch_signer_scope trigger,
        tr_dispatch_started_at trigger with
  | Some hash, Some _, Some scope, Some _ =>
      if truthy hash && truthy scope
      then try_catch (confirm_original trigger hash scope) (fun _ => page_unresolved trigger)
      else mret tt
  | _, _, _, _ => mret tt
  end.

Fixpoint check_all (l : list Trigger) : io unit :=
  match l with
  | [] => mret tt
  | t :: rest => _ ← checkConfirmation t; check_all rest
  end.

(** One poll; [polling] only keeps one process from polling twice at a time. *)
Definition pollConfirmations : io unit :=
  try_catch (triggers ← db_ (QByStatus SUBMITTED BATCH_SIZE); check_all triggers)
    (fun _ => mret tt).

End Exec.
