(* ===== verification/OracleDbInv.v ===== *)
(** What the statements of the trigger table can do to it: the invariant
    [table_ok] every statement preserves, the order [db_le] in which rows only
    move forward, and the exact changes of the dispatch columns. *)
From stdpp Require Import base list strings.
From S2P Require Import Prelude JsText Finality ReconTypes FundedBinding OracleTypes OracleDb.
From S2P Require Import OracleProg.

Open Scope string_scope.
Open Scope Z_scope.

(** ** Rows *)

(** The columns no statement changes. *)
Definition same_identity (r r' : Trigger) : Prop :=
  tr_idempotency_key r' = tr_idempotency_key r /\ tr_action_key r' = tr_action_key r /\
  tr_trade_id r' = tr_trade_id r /\ tr_trigger_type r' = tr_trigger_type r /\
  tr_funded_binding r' = tr_funded_binding r.

(** A column that is written once. *)
Definition once {A} (old new : option A) : Prop := forall a, old = Some a -> new = Some a.

Definition row_le (r r' : Trigger) : Prop :=
  same_identity r r' /\
  once (tr_dispatch_started_at r) (tr_dispatch_started_at r') /\
  once (tr_tx_hash r) (tr_tx_hash r') /\
  once (tr_dispatch_finality_evidence r) (tr_dispatch_finality_evidence r') /\
  (dispatched r = true -> tr_dispatch_signer_scope r' = tr_dispatch_signer_scope r).

Lemma once_refl {A} (x : option A) : once x x.
Proof. by intros a. Qed.

Lemma row_le_refl r : row_le r r.
Proof. unfold row_le, same_identity. split_and!; auto using once_refl. Qed.

Lemma dispatched_once r r' :
  once (tr_dispatch_started_at r) (tr_dispatch_started_at r') ->
  dispatched r = true -> dispatched r' = true.
Proof.
  unfold dispatched. rewrite !bool_decide_eq_true. intros H [x Hx]. rewrite (H x Hx). eauto.
Qed.

#[export] Instance row_le_trans : Transitive row_le.
Proof.
  intros a b c (I1 & D1 & T1 & E1 & S1) (I2 & D2 & T2 & E2 & S2).
  unfold row_le, same_identity, once in *. destruct_and!. split_and!; try congruence; eauto.
  intros Hd. rewrite S2, S1; eauto using dispatched_once.
Qed.

(** ** Tables *)

Definition db_le (t t' : db) : Prop :=
  forall r, r ∈ rows t -> exists r', r' ∈ rows t' /\ row_le r r'.

#[export] Instance db_le_trans : Transitive db_le.
Proof.
  intros a b c H1 H2 r Hr. destruct (H1 r Hr) as (r' & Hr' & L1).
  destruct (H2 r' Hr') as (r'' & Hr'' & L2). exists r''. split; [done|]. by transitivity r'.
Qed.

Definition same_scope (r o : Trigger) : Prop :=
  is_Some (tr_dispatch_signer_scope o) /\ tr_dispatch_signer_scope o = tr_dispatch_signer_scope r.

(** The rows are keyed, an action is active and is dispatched in one row only, a signer has
    one unresolved dispatch only, and evidence is about the row's own
    transaction. *)
Record table_ok (t : db) : Prop := {
  ok_keys : NoDup (tr_idempotency_key <$> rows t);
  ok_action : forall r o, r ∈ rows t -> o ∈ rows t ->
    tr_idempotency_key o <> tr_idempotency_key r -> dispatched r = true -> dispatched o = true ->
    tr_action_key o <> tr_action_key r;
  ok_active : forall r o, r ∈ rows t -> o ∈ rows t ->
    tr_idempotency_key o <> tr_idempotency_key r -> active r = true -> active o = true ->
    tr_action_key o <> tr_action_key r;
  ok_signer : forall r o, r ∈ rows t -> o ∈ rows t ->
    tr_idempotency_key o <> tr_idempotency_key r -> unresolved r = true -> unresolved o = true ->
    ~ same_scope r o;
  ok_evidence : forall r e, r ∈ rows t -> tr_dispatch_finality_evidence r = Some e ->
    dispatched r = true /\ evidence_shape r e = true
}.

(** ** Lookups *)

Lemma find_key_some k t r : find_key k t = Some r -> r ∈ rows t /\ tr_idempotency_key r = k.
Proof.
  unfold find_key. intros [Hin Hk]%List.find_some. apply String.eqb_eq in Hk.
  split; [by apply list_elem_of_In | done].
Qed.

Lemma find_key_none k t r : find_key k t = None -> r ∈ rows t -> tr_idempotency_key r <> k.
Proof.
  unfold find_key. intros H Hr Hk. apply list_elem_of_In in Hr.
  pose proof (List.find_none _ _ H r Hr) as Hn. by apply String.eqb_neq in Hn.
Qed.

Lemma key_unique t r r' :
  NoDup (tr_idempotency_key <$> rows t) -> r ∈ rows t -> r' ∈ rows t ->
  tr_idempotency_key r = tr_idempotency_key r' -> r = r'.
Proof.
  generalize (rows t). induction l as [|x l IH]; simpl; intros Hnd Hr Hr' Hk;
    [by apply elem_of_nil in Hr|].
  apply NoDup_cons in Hnd as [Hx Hnd].
  apply elem_of_cons in Hr as [->|Hr], Hr' as [->|Hr']; [done| | |by apply IH].
  - destruct Hx. rewrite Hk. by apply list_elem_of_fmap_2.
  - destruct Hx. rewrite <- Hk. by apply list_elem_of_fmap_2.
Qed.

Lemma replace_row_elem new t r :
  r ∈ rows (replace_row new t) <->
  (r ∈ rows t /\ tr_idempotency_key r <> tr_idempotency_key new) \/
  (r = new /\ exists o, o ∈ rows t /\ tr_idempotency_key o = tr_idempotency_key new).
Proof.
  simpl. rewrite list_elem_of_fmap. split.
  - intros (o & -> & Ho). destruct (String.eqb _ _) eqn:E.
    + apply String.eqb_eq in E. right. eauto.
    + apply String.eqb_neq in E. left. eauto.
  - intros [[Hr Hk]|[-> (o & Ho & Hk)]].
    + exists r. apply String.eqb_neq in Hk. by rewrite Hk.
    + exists o. apply String.eqb_eq in Hk. by rewrite Hk.
Qed.

Lemma replace_row_keys new t :
  tr_idempotency_key <$> rows (replace_row new t) = tr_idempotency_key <$> rows t.
Proof.
  simpl. rewrite <- list_fmap_compose. apply list_fmap_ext. intros i r _. simpl.
  destruct (String.eqb _ _) eqn:E; [|done]. by apply String.eqb_eq in E.
Qed.

(** ** What the row triggers and indexes guarantee *)

Lemma guard_none {A} (c : bool) (e : A) (rest : option A) :
  (if c then Some e else rest) = None <-> c = false /\ rest = None.
Proof. destruct c; naive_solver. Qed.

(** A guard [old IS NOT NULL AND new IS DISTINCT FROM old] that did not fire. *)
Lemma distinct_guard {A} `{EqDecision A} (old new : option A) :
  bool_decide (is_Some old) && negb (bool_decide (new = old)) = false -> once old new.
Proof.
  rewrite andb_false_iff, negb_false_iff, bool_decide_eq_false, bool_decide_eq_true.
  intros [H|H] a Ha; [destruct H; eauto | congruence].
Qed.

Lemma update_trigger_error_le old new :
  same_identity old new -> update_trigger_error old new = None -> row_le old new.
Proof.
  intros Hid. unfold update_trigger_error. rewrite !guard_none.
  intros (H1 & H2 & H3 & H4 & H5 & H6 & _).
  unfold row_le. split_and!; [done | by apply distinct_guard..|].
  unfold dispatched. intros Hd. rewrite Hd in H4. simpl in H4.
  by apply negb_false_iff, bool_decide_eq_true in H4.
Qed.

(** Evidence on an updated row belongs to a row that was dispatched before, and
    passes the shape check. *)
Lemma update_trigger_error_evidence old new e :
  update_trigger_error old new = None -> tr_dispatch_finality_evidence new = Some e ->
  dispatched old = true /\ evidence_shape new e = true.
Proof.
  unfold update_trigger_error. rewrite !guard_none.
  intros (H1 & H2 & H3 & H4 & H5 & H6 & H7) He. rewrite He in H7.
  assert (Hd : dispatched old = true).
  { unfold dispatched. apply andb_false_iff in H3 as [H3|H3].
    - by apply negb_false_iff in H3.
    - rewrite He in H3. by apply bool_decide_eq_false in H3; destruct H3. }
  split; [done|]. by destruct (evidence_shape new e).
Qed.

Lemma index_error_none others new :
  index_error others new = None ->
  (active new = true -> forall o, o ∈ others -> active o = true ->
     tr_action_key o <> tr_action_key new) /\
  (dispatched new = true -> forall o, o ∈ others -> dispatched o = true ->
     tr_action_key o <> tr_action_key new) /\
  (unresolved new = true -> forall o, o ∈ others -> unresolved o = true -> ~ same_scope new o).
Proof.
  unfold index_error. rewrite !guard_none. intros (H1 & H2 & H3 & _). split_and!.
  - intros Hd o Ho Hdo Heq. rewrite Hd in H1. simpl in H1.
    rewrite existsb_false, Forall_forall in H1. specialize (H1 o Ho). simpl in H1.
    rewrite Hdo in H1. simpl in H1. by apply String.eqb_neq in H1.
  - intros Hd o Ho Hdo Heq. rewrite Hd in H2. simpl in H2.
    rewrite existsb_false, Forall_forall in H2. specialize (H2 o Ho). simpl in H2.
    rewrite Hdo in H2. simpl in H2. by apply String.eqb_neq in H2.
  - intros Hu o Ho Huo [Hs Heq]. rewrite Hu in H3. simpl in H3.
    rewrite existsb_false, Forall_forall in H3. specialize (H3 o Ho). simpl in H3.
    rewrite Huo in H3. simpl in H3.
    rewrite !bool_decide_eq_true_2 in H3 by done. done.
Qed.

(** ** The changes of one statement *)

(** The dispatch time is written by a granted claim only, the transaction hash
    by an update that names one only. *)
Definition writes (q : query) (old new : Trigger) : Prop :=
  (tr_dispatch_started_at new = tr_dispatch_started_at old \/
   exists scope, q = QClaim (tr_idempotency_key old) scope /\ dispatched old = false) /\
  (tr_tx_hash new = tr_tx_hash old \/
   exists u, q = QUpdate (tr_idempotency_key old) u /\ is_Some (up_tx_hash u)).

Inductive change (q : query) (t t' : db) : Prop :=
| change_none : rows t' = rows t -> change q t t'
| change_insert d id now :
    rows t' = (rows t ++ [new_row d id now])%list -> find_key (ct_idempotencyKey d) t = None ->
    index_error (rows t) (new_row d id now) = None -> change q t t'
| change_update old new :
    old ∈ rows t -> same_identity old new -> update_error t old new = None ->
    rows t' = rows (replace_row new t) -> writes q old new -> change q t t'.

Lemma update_where_change q k cond f t r t' :
  (forall old, same_identity old (f old)) ->
  (forall old, tr_idempotency_key old = k -> cond old = true -> writes q old (f old)) ->
  update_where k cond f t = (r, t') -> change q t t'.
Proof.
  intros Hid Hw. unfold update_where. destruct (find_key k t) as [old|] eqn:F;
    [|intros [= <- <-]; by apply change_none].
  destruct (cond old) eqn:C; [|intros [= <- <-]; by apply change_none].
  destruct (update_error t old (f old)) eqn:E; intros [= <- <-]; [by apply change_none|].
  apply find_key_some in F as [Hin Hk]. eapply change_update; eauto.
Qed.

(** [update_where] behind a projection of its answer. *)
Ltac by_update_where :=
  match goal with
  | |- context [update_where ?k ?c ?f ?t] =>
      let E := fresh "E" in let x := fresh "x" in let t1 := fresh "t" in
      destruct (update_where k c f t) as [x t1] eqn:E;
      intros; simplify_eq; destruct x; simplify_eq;
      (eapply update_where_change; [| |exact E]; [by intros|])
  end.

Lemma exec_change q now t r t' : exec_query q now t = (r, t') -> change q t t'.
Proof.
  destruct q; simpl; intros H; try (injection H as <- <-; by apply change_none).
  - unfold insertTrigger in H.
    repeat case_match; simplify_eq; try by apply change_none.
    eapply change_insert; [reflexivity | | done]. apply eq_None_not_Some. by eapply bool_decide_eq_false_1.
  - revert H. unfold updateTrigger. destruct (nothing_to_update u);
      [intros [= <- <-]; by apply change_none|]. by_update_where;
      intros old Hk _; (split; [by left|]); simpl;
      (destruct (up_tx_hash u) eqn:U; [right; exists u; rewrite Hk, U; eauto | by left]).
  - eapply update_where_change; [| |exact H]; [done|]. intros old _ _. split; by left.
  - eapply update_where_change; [| |exact H]; [done|]. intros old _ _. split; by left.
  - revert H. unfold claimTriggerDispatch.
    destruct (negb (signer_scope_shape scope)); [intros [= <- <-]; by apply change_none|].
    by_update_where; intros old Hk Hc; unfold dispatch_claimable in Hc;
      (split; [right; exists scope | by left]); rewrite Hk;
      (split; [done|]); repeat (apply andb_true_iff in Hc as [Hc _]); by apply negb_true_iff.
  - revert H. unfold storeResolution. by_update_where; intros old _ _; split; by left.
Qed.

Lemma change_update_le t old new :
  same_identity old new -> update_error t old new = None ->
  row_le old new /\ index_error (other_rows (tr_idempotency_key old) t) new = None /\
  update_trigger_error old new = None.
Proof.
  intros Hid. unfold update_error. destruct (varchar_error new); [done|].
  destruct (update_trigger_error old new) eqn:E; [done|].
  destruct (match tr_dispatch_signer_scope new with Some _ => _ | None => _ end); [done|].
  intros ->. auto using update_trigger_error_le.
Qed.

Lemma change_le q t t' : table_ok t -> change q t t' -> db_le t t'.
Proof.
  intros Hok [E|d id now E _ _|old new Hin Hid He E _] r Hr; rewrite E.
  - eauto using row_le_refl.
  - exists r. split; [apply elem_of_app; by left | apply row_le_refl].
  - destruct (change_update_le _ _ _ Hid He) as [Hle _].
    destruct (decide (tr_idempotency_key r = tr_idempotency_key new)) as [Hk|Hk].
    + assert (r = old) as -> by (eapply key_unique; [apply ok_keys, Hok|..]; eauto;
        destruct Hid as [Hid _]; congruence).
      exists new. split; [|done]. apply replace_row_elem. right. eauto.
    + exists r. split; [|apply row_le_refl]. apply replace_row_elem. by left.
Qed.

Lemma unresolved_dispatched r : unresolved r = true -> dispatched r = true.
Proof. unfold unresolved. by intros [? _]%andb_true_iff. Qed.

Lemma other_rows_elem k t o : o ∈ other_rows k t <-> o ∈ rows t /\ tr_idempotency_key o <> k.
Proof. unfold other_rows. rewrite list_elem_of_filter. tauto. Qed.

Lemma same_scope_sym a b : same_scope a b -> same_scope b a.
Proof. unfold same_scope. intros [[x Hx] H]. rewrite <- H, Hx. eauto. Qed.

Lemma change_ok q t t' : table_ok t -> change q t t' -> table_ok t'.
Proof.
  intros Hok [E|d id now E Hf Hi|old new Hin Hid He E _].
  - destruct Hok. split; rewrite E; done.
  - split; rewrite ?E.
    + rewrite fmap_app. apply NoDup_app. split_and!; [apply Hok| |apply NoDup_singleton].
      intros k (r & -> & Hr)%list_elem_of_fmap. simpl. rewrite list_elem_of_singleton.
      by apply find_key_none with t.
    + intros r o [Hr|Hr%list_elem_of_singleton]%elem_of_app
        [Ho|Ho%list_elem_of_singleton]%elem_of_app; subst; try done; by apply Hok.
    + apply index_error_none in Hi as [Hi _].
      intros r o [Hr|Hr%list_elem_of_singleton]%elem_of_app
        [Ho|Ho%list_elem_of_singleton]%elem_of_app Hne Ha Hb; subst; try done.
      * by apply (ok_active _ Hok).
      * intros Heq. by apply (Hi Hb r).
      * by apply Hi.
    + intros r o [Hr|Hr%list_elem_of_singleton]%elem_of_app
        [Ho|Ho%list_elem_of_singleton]%elem_of_app; subst; try done; by apply Hok.
    + intros r e [Hr|Hr%list_elem_of_singleton]%elem_of_app; subst; [by apply Hok | done].
  - destruct (change_update_le _ _ _ Hid He) as (Hle & Hix & Hte).
    pose proof Hid as [Hk _]. apply index_error_none in Hix as (Hx0 & Hx1 & Hx2).
    split; rewrite ?E.
    + rewrite replace_row_keys. apply Hok.
    + intros r o [[Hr Hkr]|[-> _]]%replace_row_elem [[Ho Hko]|[-> _]]%replace_row_elem Hne Hdr Hdo;
        try done.
      * by apply (ok_action _ Hok).
      * intros ?. apply (Hx1 Hdo r); [rewrite other_rows_elem, <- Hk; auto | done | congruence].
      * apply Hx1; [done | rewrite other_rows_elem, <- Hk; auto | done].
    + intros r o [[Hr Hkr]|[-> _]]%replace_row_elem [[Ho Hko]|[-> _]]%replace_row_elem Hne Hdr Hdo;
        try done.
      * by apply (ok_active _ Hok).
      * intros ?. apply (Hx0 Hdo r); [rewrite other_rows_elem, <- Hk; auto | done | congruence].
      * apply Hx0; [done | rewrite other_rows_elem, <- Hk; auto | done].
    + intros r o [[Hr Hkr]|[-> _]]%replace_row_elem [[Ho Hko]|[-> _]]%replace_row_elem Hne Hdr Hdo;
        try done.
      * by apply (ok_signer _ Hok).
      * intros Hs%same_scope_sym. apply (Hx2 Hdo r); [rewrite other_rows_elem, <- Hk; auto|done|done].
      * apply Hx2; [done | rewrite other_rows_elem, <- Hk; auto | done].
    + intros r e [[Hr Hkr]|[-> _]]%replace_row_elem Hev; [by apply Hok|].
      destruct (update_trigger_error_evidence _ _ _ Hte Hev) as [Hd Hs].
      split; [|done]. destruct Hle as (_ & Ho & _). eauto using dispatched_once.
Qed.

(** ** Where dispatches and transactions come from *)

Lemma change_dispatch q t t' r' :
  change q t t' -> r' ∈ rows t' -> dispatched r' = true ->
  (exists r, r ∈ rows t /\ tr_idempotency_key r = tr_idempotency_key r' /\ dispatched r = true) \/
  (exists scope r, q = QClaim (tr_idempotency_key r') scope /\ r ∈ rows t /\
     tr_idempotency_key r = tr_idempotency_key r' /\ dispatched r = false).
Proof.
  intros [E|d id now E _ _|old new Hin Hid He E [Hw _]]; rewrite E.
  - eauto.
  - intros [Hr|Hr%list_elem_of_singleton]%elem_of_app; [eauto | by subst].
  - intros [[Hr _]|[-> _]]%replace_row_elem Hd; [eauto|]. pose proof Hid as [Hk _].
    destruct Hw as [Hw|(scope & -> & Hf)].
    + left. exists old. unfold dispatched in *. rewrite <- Hw. eauto.
    + right. exists scope, old. rewrite Hk. eauto.
Qed.

Lemma change_tx q t t' r' h :
  change q t t' -> r' ∈ rows t' -> tr_tx_hash r' = Some h ->
  (exists r, r ∈ rows t /\ tr_idempotency_key r = tr_idempotency_key r' /\ tr_tx_hash r = Some h) \/
  (exists u, q = QUpdate (tr_idempotency_key r') u /\ is_Some (up_tx_hash u)).
Proof.
  intros [E|d id now E _ _|old new Hin Hid He E [_ Hw]]; rewrite E.
  - eauto.
  - intros [Hr|Hr%list_elem_of_singleton]%elem_of_app; [eauto | by subst].
  - intros [[Hr _]|[-> _]]%replace_row_elem Hh; [eauto|]. pose proof Hid as [Hk _].
    destruct Hw as [Hw|(u & -> & Hf)].
    + left. exists old. rewrite <- Hw. eauto.
    + right. exists u. by rewrite Hk.
Qed.

(** A granted claim dispatches a row that no claim had dispatched, under the
    signer that asked. *)
Lemma claim_granted k scope now t t' :
  claimTriggerDispatch k scope now t = (Ok true, t') ->
  exists old new, old ∈ rows t /\ tr_idempotency_key old = k /\ dispatched old = false /\
    new ∈ rows t' /\ tr_idempotency_key new = k /\ dispatched new = true /\
    tr_dispatch_signer_scope new = Some scope /\ tr_tx_hash new = tr_tx_hash old.
Proof.
  unfold claimTriggerDispatch, update_where. destruct (negb (signer_scope_shape scope)); [done|].
  destruct (find_key k t) as [old|] eqn:F; [|done].
  destruct (dispatch_claimable t scope old) eqn:C; [|done].
  destruct (update_error _ _ _) eqn:E; [done|]. intros [= <-].
  apply find_key_some in F as [Hin Hk].
  exists old, (with_dispatch EXECUTING (Some now) (Some scope)
                 (tr_dispatch_finality_evidence old) now old).
  split_and!; try done.
  - unfold dispatch_claimable in C. repeat (apply andb_true_iff in C as [C _]). by apply negb_true_iff.
  - apply replace_row_elem. right. eauto.
Qed.
