(* ===== verification/OracleWp.v ===== *)
(** A program logic for the oracle's programs.

    A program broadcasts under a protocol: it may send only for a trigger whose
    dispatch it has just been granted, it sends once, and it writes a
    transaction hash only on the trigger it sent for.  [wp] is the weakest
    precondition of a program under that protocol, whatever the database and the
    outside world answer; [executeTrigger_safe] and its siblings show that
    every operation of the service follows it. *)
From stdpp Require Import base list strings.
From S2P Require Import Prelude JsText Finality ReconTypes FundedBinding OracleTypes OracleDb.
From S2P Require Import OracleProg OracleExec.

Open Scope string_scope.
Open Scope Z_scope.

(** ** Weakest preconditions under a protocol *)

(** A protocol says in which state which effect is allowed and how the state
    moves with its answer. *)
Class protocol (St : Type) := {
  allowed_query : St -> query -> Prop;
  next_query : St -> forall q, result thrown (qanswer q) -> St;
  allowed_call : St -> call -> Prop;
  next_call : St -> forall c, result thrown (answer c) -> St
}.

Section Wp.
Context {St : Type} `{HSt : !protocol St}.

Fixpoint wp {A} (m : St) (p : prog A) (Q : St -> A -> Prop) : Prop :=
  match p with
  | Ret a => Q m a
  | Db q k => allowed_query m q /\ forall r, wp (next_query m q r) (k r) Q
  | Ext c k => allowed_call m c /\ forall r, wp (next_call m c r) (k r) Q
  end.

(** The program follows the protocol from mode [m] on. *)
Definition safe {A} (m : St) (p : prog A) : Prop := wp m p (fun _ _ => True).

Lemma wp_mono {A} m (p : prog A) (Q Q' : St -> A -> Prop) :
  (forall m a, Q m a -> Q' m a) -> wp m p Q -> wp m p Q'.
Proof.
  intros HQ. revert m. induction p as [a|q k IH|c k IH]; simpl; intros m; [apply HQ| |];
    intros [Ha Hk]; split; auto.
Qed.

Lemma wp_bind {A B} m (f : A -> prog B) p Q :
  wp m p (fun m' a => wp m' (f a) Q) -> wp m (prog_bind f p) Q.
Proof.
  revert m. induction p as [a|q k IH|c k IH]; simpl; intros m; [done| |];
    intros [Ha Hk]; split; auto.
Qed.

(** Sequencing of promises and of the loop body. *)
Lemma wp_io_bind {A B} m (p : io A) (f : A -> io B) Q :
  wp m p (fun m' r => match r with Ok a => wp m' (f a) Q | Err e => Q m' (Err e) end) ->
  wp m (p ≫= f) Q.
Proof.
  intros H. apply wp_bind. revert H. apply wp_mono. intros m' [a|e]; auto.
Qed.

Lemma wp_lift_bind {A B} m (r : result thrown A) (f : A -> io B) Q :
  match r with Ok a => wp m (f a) Q | Err e => Q m (Err e) end -> wp m (lift r ≫= f) Q.
Proof. intros H. apply wp_io_bind. by destruct r. Qed.

Lemma wp_try {A} m (p : io A) h Q :
  wp m p (fun m' r => match r with Ok a => Q m' (Ok a) | Err e => wp m' (h e) Q end) ->
  wp m (try_catch p h) Q.
Proof. intros H. apply wp_bind. revert H. apply wp_mono. intros m' [a|e]; auto. Qed.

Lemma wp_M_bind {A B} m (p : M A) (f : A -> M B) s Q :
  wp m (p s) (fun m' rs => match rs with
                           | (Ok a, s') => wp m' (f a s') Q
                           | (Err e, s') => Q m' (Err e, s') end) ->
  wp m ((p ≫= f) s) Q.
Proof. intros H. apply wp_bind. revert H. apply wp_mono. intros m' [[a|e] s']; auto. Qed.

Lemma wp_await {A} m (p : io A) s Q :
  wp m p (fun m' r => Q m' (r, s)) -> wp m (await p s) Q.
Proof. intros H. apply wp_bind. revert H. by apply wp_mono. Qed.

Lemma wp_await_ext m c s Q :
  allowed_call m c -> (forall r, Q (next_call m c r) (r, s)) -> wp m (await (ext c) s) Q.
Proof. intros Ha HQ. apply wp_await. simpl. auto. Qed.

Lemma wp_await_db m q s Q :
  allowed_query m q -> (forall r, Q (next_query m q r) (r, s)) -> wp m (await (db_ q) s) Q.
Proof. intros Ha HQ. apply wp_await. simpl. auto. Qed.

Lemma wp_rethrow {A} m f (p : M A) s Q :
  wp m (p s) (fun m' rs => match rs with
                           | (Ok a, s') => Q m' (Ok a, s')
                           | (Err e, s') => Q m' (Err (f e), s') end) ->
  wp m (rethrow_as f p s) Q.
Proof. intros H. apply wp_bind. revert H. apply wp_mono. intros m' [[a|e] s']; auto. Qed.

End Wp.

(** ** The broadcast protocol *)

Inductive mode :=
| Idle
| Claimed (key : string)
| Sent (key : string).

Definition next_mode (m : mode) (q : query) : result thrown (qanswer q) -> mode :=
  match q return result thrown (qanswer q) -> mode with
  | QClaim key _ => fun r => match r with Ok true => Claimed key | _ => m end
  | _ => fun _ => m
  end.

#[export] Instance broadcast_protocol : protocol mode := {
  allowed_query m q :=
    match q with
    | QClaim _ _ => m = Idle
    | QUpdate key u => is_Some (up_tx_hash u) -> m = Sent key
    | _ => True
    end;
  next_query := next_mode;
  allowed_call m c := match c with Send key _ => m = Claimed key | _ => True end;
  next_call m c _ := match c with Send key _ => Sent key | _ => m end
}.

(** ** Quiet programs: no claim, no broadcast, no transaction hash *)

Definition quiet_query (q : query) : bool :=
  match q with
  | QClaim _ _ => false
  | QUpdate _ u => match up_tx_hash u with Some _ => false | None => true end
  | _ => true
  end.

(** Also no column update: the program reads, inserts, reviews or resolves. *)
Definition reading_query (q : query) : bool :=
  match q with QClaim _ _ | QUpdate _ _ => false | _ => true end.

Definition quiet_call (c : call) : bool := match c with Send _ _ => false | _ => true end.

(** Every statement of the program is in the class, and it does not broadcast. *)
Fixpoint effects (okq : query -> bool) {A} (p : prog A) : Prop :=
  match p with
  | Ret _ => True
  | Db q k => okq q = true /\ forall r, effects okq (k r)
  | Ext c k => quiet_call c = true /\ forall r, effects okq (k r)
  end.

Notation quiet := (effects quiet_query).
Notation reading := (effects reading_query).

(** A protocol lets the effects of a class through, moving its state along [R]. *)
Class gentle {St} `{!protocol St} (okq : query -> bool) (R : relation St) := {
  gentle_preorder :: PreOrder R;
  gentle_query m q r : okq q = true -> allowed_query m q /\ R m (next_query m q r);
  gentle_call m c r : quiet_call c = true -> allowed_call m c /\ R m (next_call m c r)
}.

#[export] Instance broadcast_gentle : gentle (St := mode) quiet_query eq.
Proof.
  split; [apply _| |].
  - intros m q r Hq. destruct q; try done; simpl in *. destruct (up_tx_hash u); [done|].
    split; [by intros [? ?] | done].
  - intros m c r Hc. by destruct c.
Qed.

Create HintDb oracle.

Lemma wp_quiet {St} `{!protocol St} {okq} {R : relation St} `{!gentle okq R} {A} m (p : prog A) Q :
  effects okq p -> (forall m' a, R m m' -> Q m' a) -> wp m p Q.
Proof.
  revert m. induction p as [a|q k IH|c k IH]; simpl; intros m Hp HQ; [by apply HQ| |].
  - destruct Hp as [Hq Hk]. split; [|intros r].
    + by destruct (gentle_query m q (Err (Raw "" None)) Hq).
    + apply IH; [done|]. intros m' a Hm. apply HQ.
      destruct (gentle_query m q r Hq) as [_ Hr]. by transitivity (next_query m q r).
  - destruct Hp as [Hc Hk]. split; [|intros r].
    + by destruct (gentle_call m c (Err (Raw "" None)) Hc).
    + apply IH; [done|]. intros m' a Hm. apply HQ.
      destruct (gentle_call m c r Hc) as [_ Hr]. by transitivity (next_call m c r).
Qed.

Lemma wp_quiet_bind {St} `{!protocol St} {okq} {R : relation St} `{!gentle okq R} {A B} m (p : io A)
    (f : A -> io B) Q :
  effects okq p -> (forall m' a, R m m' -> wp m' (f a) Q) -> (forall m' e, R m m' -> Q m' (Err e)) ->
  wp m (p ≫= f) Q.
Proof. intros Hp Hf He. apply wp_io_bind, wp_quiet; [done|]. intros m' [a|e] Hm; auto. Qed.

Lemma effects_prog_bind okq {A B} (p : prog A) (f : A -> prog B) :
  effects okq p -> (forall a, effects okq (f a)) -> effects okq (prog_bind f p).
Proof.
  induction p as [a|q k IH|c k IH]; simpl; [auto| |]; intros [H1 H2] Hf; split; auto.
Qed.

Lemma effects_bind okq {A B} (p : io A) (f : A -> io B) :
  effects okq p -> (forall a, effects okq (f a)) -> effects okq (p ≫= f).
Proof. intros Hp Hf. apply effects_prog_bind; [done|]. by intros [a|e]. Qed.

Lemma effects_try okq {A} (p : io A) h :
  effects okq p -> (forall e, effects okq (h e)) -> effects okq (try_catch p h).
Proof. intros Hp Hh. apply effects_prog_bind; [done|]. by intros [a|e]. Qed.

Lemma effects_db okq q : okq q = true -> effects okq (db_ q).
Proof. done. Qed.

Lemma effects_ext okq c : quiet_call c = true -> effects okq (ext c).
Proof. done. Qed.

Lemma reading_quiet {A} (p : prog A) : reading p -> quiet p.
Proof.
  induction p as [a|q k IH|c k IH]; simpl; [done| |]; intros [H1 H2]; split; auto.
  by destruct q.
Qed.

#[export] Hint Extern 1 (effects ?o (db_ ?q)) => exact (effects_db o q eq_refl) : oracle.
#[export] Hint Extern 1 (effects ?o (ext ?c)) => exact (effects_ext o c eq_refl) : oracle.
#[export] Hint Extern 2 (effects _ (throw _)) => exact I : oracle.
#[export] Hint Extern 2 (effects _ (lift _)) => exact I : oracle.
#[export] Hint Extern 2 (effects _ (mret _)) => exact I : oracle.
#[export] Hint Extern 2 (effects _ (lift_raw ?r)) => destruct r; exact I : oracle.
#[export] Hint Extern 5 (effects quiet_query _) => apply reading_quiet : oracle.

(** Splits a program of a class at its binds and matches. *)
Ltac quiet_step :=
  match goal with
  | |- effects _ (_ ≫= _) => apply effects_bind; [|intros ?]
  | |- effects _ (try_catch _ _) => apply effects_try; [|intros ?]
  | |- effects _ (if ?b then _ else _) => destruct b
  | |- effects _ (match ?x with _ => _ end) => destruct x
  | |- effects _ _ => solve [auto with oracle nocore]
  end.
Ltac quiet_solve := repeat quiet_step.

Section Oracle.
Context (getAddress : string -> option string) (cfg : config).

Lemma reading_getTrade t : reading (getTrade t).
Proof. unfold getTrade. quiet_solve. Qed.
#[local] Hint Resolve reading_getTrade : oracle.

Lemma reading_assertFundedBinding b : reading (assertFundedBinding getAddress b).
Proof. unfold assertFundedBinding. quiet_solve. Qed.
#[local] Hint Resolve reading_assertFundedBinding : oracle.

Lemma reading_assertMayProgress t : reading (assertMayProgress cfg t).
Proof. unfold assertMayProgress. quiet_solve. Qed.
#[local] Hint Resolve reading_assertMayProgress : oracle.

Lemma reading_assertTradeMayProgress t : reading (assertTradeMayProgress cfg t).
Proof. unfold assertTradeMayProgress. quiet_solve. Qed.
#[local] Hint Resolve reading_assertTradeMayProgress : oracle.

Lemma reading_createTrigger d : reading (createTrigger d).
Proof. unfold createTrigger. quiet_solve. Qed.
#[local] Hint Resolve reading_createTrigger : oracle.

Lemma reading_resolveSignerDispatch k e : reading (resolveSignerDispatch k e).
Proof. unfold resolveSignerDispatch. quiet_solve. Qed.
#[local] Hint Resolve reading_resolveSignerDispatch : oracle.

Lemma reading_settle_unresolved t s : reading (settle_unresolved t s).
Proof. unfold settle_unresolved. quiet_solve. Qed.

Lemma reading_notify k s : reading (notifyTerminalStatus cfg k s).
Proof. unfold notifyTerminalStatus. quiet_solve. Qed.

Lemma reading_createNewTrigger r k : reading (createNewTrigger getAddress r k).
Proof. unfold createNewTrigger. quiet_solve. Qed.
#[local] Hint Resolve reading_settle_unresolved reading_notify reading_createNewTrigger : oracle.

Lemma quiet_unresolved_outcome t k h : quiet (unresolved_outcome t k h).
Proof. unfold unresolved_outcome. quiet_solve. Qed.

Lemma reading_already_processed k : reading (already_processed k).
Proof. unfold already_processed. quiet_solve. Qed.

#[local] Hint Resolve reading_already_processed : oracle.

Lemma reading_reject k a w : reading (rejectPendingTrigger k a w).
Proof. unfold rejectPendingTrigger. quiet_solve. Qed.

Lemma quiet_checkConfirmation t : quiet (checkConfirmation getAddress cfg t).
Proof.
  unfold checkConfirmation, confirm_original, page_unresolved, verifyProgressionReceipt.
  quiet_solve.
Qed.
#[local] Hint Resolve quiet_checkConfirmation : oracle.

Lemma quiet_poll : quiet (pollConfirmations getAddress cfg).
Proof.
  unfold pollConfirmations. quiet_solve.
  match goal with |- quiet (check_all _ _ ?l) => induction l as [|x l IH] end; [exact I|].
  cbn [check_all]. quiet_solve.
Qed.

(** ** The retry loop *)

(** The checks before the broadcast end with the dispatch claimed or in [Idle]. *)
Lemma wp_prepare_dispatch trigger actionKey attempt :
  wp Idle (prepare_dispatch getAddress cfg trigger actionKey attempt) (fun m r =>
    match r with
    | Ok None => m = Claimed (tr_idempotency_key trigger)
    | _ => m = Idle
    end).
Proof.
  unfold prepare_dispatch.
  do 9 (apply wp_quiet_bind; [quiet_solve | intros ? ? <- | by intros ? ? <-]).
  simpl. split; [done|]. intros [[|]|e]; simpl; [done| |done].
  split; [done|]. intros [[o|]|e]; simpl; [|done|done].
  by destruct (bool_decide _).
Qed.

(** What the locals say after an error of the try block. *)
Definition body_post (s : locals) (m : mode) (rs : result thrown TriggerResponse * locals) : Prop :=
  match rs with
  | (Ok _, _) => True
  | (Err _, s') => dispatchClaimed s' = true \/ (m = Idle /\ s' = s)
  end.

Lemma wp_record_broadcast key hash s :
  dispatchClaimed s = true ->
  wp (Sent key) (record_broadcast key hash s) (fun m rs =>
    m = Sent key /\ dispatchClaimed rs.2 = true).
Proof.
  intros Hs. unfold record_broadcast. destruct (negb _); [done|].
  apply wp_M_bind. cbn [set_locals wp]. apply wp_M_bind, wp_await_ext; [done|].
  intros [at_|e]; [|done].
  apply wp_await_db; [done|]. intros r. done.
Qed.

Lemma wp_sdk_submit key ec failure s Q :
  dispatchClaimed s = true ->
  (forall m rs, match rs with (Ok _, _) => m = Sent key | _ => True end ->
     dispatchClaimed rs.2 = true -> Q m rs) ->
  wp (Claimed key) (sdk_submit key ec failure (record_broadcast key) s) Q.
Proof.
  intros Hs HQ. unfold sdk_submit. apply wp_M_bind, wp_await_ext; [done|].
  intros [[]|e]; [|by apply HQ]. apply wp_rethrow, wp_M_bind, wp_await_ext; [done|].
  intros [hash|e]; [|by apply HQ]. apply wp_M_bind.
  eapply wp_mono; [|by apply wp_record_broadcast].
  intros m [[[]|e] s'] [-> Hs']; [|by apply HQ]. apply wp_M_bind, wp_await_ext; [done|].
  intros [[r|]|e]; by apply HQ.
Qed.

Lemma wp_submit key type trade s Q :
  dispatchClaimed s = true ->
  (forall m rs, match rs with (Ok _, _) => m = Sent key | _ => True end ->
     dispatchClaimed rs.2 = true -> Q m rs) ->
  wp (Claimed key) (submitTriggerAction key type trade (record_broadcast key) s) Q.
Proof.
  intros Hs HQ. destruct type; try by apply wp_sdk_submit. simpl. by apply HQ.
Qed.

Lemma wp_attempt_body trigger actionKey attempt s :
  wp Idle (attempt_body getAddress cfg trigger actionKey attempt s) (body_post s).
Proof.
  unfold attempt_body. apply wp_M_bind, wp_await.
  eapply wp_mono; [|apply wp_prepare_dispatch]. intros m [[r|]|e]; [done| |by right].
  intros ->. apply wp_M_bind. cbn [set_locals wp]. apply wp_M_bind, wp_submit; [done|].
  intros m [[r|e] s']; [intros -> Hs' | by left].
  apply wp_M_bind, wp_await_ext; [done|]. intros [at_|e]; [|by left].
  apply wp_M_bind, wp_await_db; [done|]. intros [[]|e]; [done | by left].
Qed.

Lemma safe_retry_loop fuel trigger actionKey attempt s :
  safe Idle (retry_loop getAddress cfg fuel trigger actionKey attempt s).
Proof.
  revert attempt s. induction fuel as [|fuel IH]; intros attempt s; [done|].
  cbn [retry_loop]. apply wp_bind. eapply wp_mono; [|apply wp_attempt_body].
  intros m [[r|e] s'] Hpost; [done|].
  destruct (dispatchClaimed s') eqn:D;
    [by apply wp_quiet; [apply quiet_unresolved_outcome|]|].
  destruct Hpost as [?|[-> _]]; [congruence|].
  apply wp_quiet_bind; [quiet_solve | intros ? ? <- | done].
  destruct (determineNextStatus _ _ _);
    try (destruct (_ && _); [apply IH | done]);
    (apply wp_quiet_bind; [apply reading_quiet, reading_notify | done | done]).
Qed.

Lemma safe_execute trigger actionKey :
  safe Idle (executeTriggerWithRetry getAddress cfg trigger actionKey).
Proof. apply safe_retry_loop. Qed.

(** ** The operations *)

(** Splits an [Idle] operation at its quiet prefix. *)
Ltac safe_step :=
  match goal with
  | |- wp Idle (executeTriggerWithRetry _ _ _ _) _ => apply safe_execute
  | |- wp _ (_ ≫= _) _ =>
      apply wp_quiet_bind; [solve [quiet_solve] | intros ? ? <- | done]
  | |- wp _ (if ?b then _ else _) _ => destruct b
  | |- wp _ (match ?x with _ => _ end) _ => destruct x
  | |- wp _ (mret _) _ => exact I
  | |- wp _ (throw _) _ => exact I
  end.

Lemma safe_handleRedrive t r : safe Idle (handleRedrive getAddress cfg t r).
Proof. unfold safe, handleRedrive. repeat safe_step. Qed.

Lemma safe_accept r k : safe Idle (accept_request getAddress cfg r k).
Proof. unfold safe, accept_request. repeat safe_step. Qed.

Lemma safe_executeTrigger r : safe Idle (executeTrigger getAddress cfg r).
Proof.
  unfold safe, executeTrigger, executeTriggerWithActionLock. repeat safe_step.
  all: first [apply safe_handleRedrive | idtac].
  all: apply wp_try; eapply wp_mono; [|apply safe_accept]; intros ? [] _; done.
Qed.

Lemma safe_resume k a : safe Idle (resumeAfterApproval getAddress cfg k a).
Proof.
  unfold safe, resumeAfterApproval. repeat safe_step. by apply wp_quiet; [apply reading_quiet, reading_already_processed|].
Qed.

End Oracle.

#[export] Hint Resolve reading_getTrade reading_assertFundedBinding reading_assertMayProgress
  reading_assertTradeMayProgress reading_createTrigger reading_resolveSignerDispatch
  reading_settle_unresolved reading_notify reading_createNewTrigger quiet_unresolved_outcome
  reading_already_processed reading_reject quiet_checkConfirmation quiet_poll : oracle.
