(* ===== verification/OracleSafe.v ===== *)
(** Broadcast safety of the oracle under every interleaving.

    A system is the trigger table, the log of broadcasts and the programs in
    flight, from any number of replicas and requests.  One step runs one
    statement or one external call of one program; a statement may fail before
    or after it took effect (a lost acknowledgement), an external call answers
    anything, a program may die at any point, and new operations arrive at any
    time.  No action lock is assumed. *)
From stdpp Require Import base list strings.
From S2P Require Import Prelude JsText Finality ReconTypes FundedBinding OracleTypes OracleDb.
From S2P Require Import OracleProg OracleExec OracleDbInv OracleWp.

Open Scope string_scope.
Open Scope Z_scope.
Open Scope list_scope.

(** What the service is asked to do. *)
Inductive operation :=
| OpTrigger (request : TriggerRequest)
| OpApprove (key actor : string)
| OpReject (key actor : string) (reason : option string)
| OpPoll.

Section System.
Context (getAddress : string -> option string) (cfg : config).

Definition run {A} (p : io A) : prog unit := prog_bind (fun _ => Ret tt) p.

Definition program_of (op : operation) : prog unit :=
  match op with
  | OpTrigger r => run (executeTrigger getAddress cfg r)
  | OpApprove k a => run (resumeAfterApproval getAddress cfg k a)
  | OpReject k a w => run (rejectPendingTrigger k a w)
  | OpPoll => run (pollConfirmations getAddress cfg)
  end.

Record system := {
  sys_db : db;
  sys_log : list string;
  sys_threads : list (prog unit)
}.

(** The broadcast an external call makes, newest first in the log. *)
Definition sent (c : call) : list string := match c with Send key _ => [key] | _ => [] end.

Inductive step : system -> system -> Prop :=
| step_start op t log ps :
    step {| sys_db := t; sys_log := log; sys_threads := ps |}
         {| sys_db := t; sys_log := log; sys_threads := program_of op :: ps |}
| step_query q k now r t t' log l1 l2 :
    exec_query q now t = (r, t') ->
    step {| sys_db := t; sys_log := log; sys_threads := l1 ++ Db q k :: l2 |}
         {| sys_db := t'; sys_log := log; sys_threads := l1 ++ k r :: l2 |}
| step_query_lost q k now r e t t' log l1 l2 :
    exec_query q now t = (r, t') ->
    step {| sys_db := t; sys_log := log; sys_threads := l1 ++ Db q k :: l2 |}
         {| sys_db := t'; sys_log := log; sys_threads := l1 ++ k (Err e) :: l2 |}
| step_query_failed q k e t log l1 l2 :
    step {| sys_db := t; sys_log := log; sys_threads := l1 ++ Db q k :: l2 |}
         {| sys_db := t; sys_log := log; sys_threads := l1 ++ k (Err e) :: l2 |}
| step_call c k r t log l1 l2 :
    step {| sys_db := t; sys_log := log; sys_threads := l1 ++ Ext c k :: l2 |}
         {| sys_db := t; sys_log := sent c ++ log; sys_threads := l1 ++ k r :: l2 |}
| step_crash p t log l1 l2 :
    step {| sys_db := t; sys_log := log; sys_threads := l1 ++ p :: l2 |}
         {| sys_db := t; sys_log := log; sys_threads := l1 ++ l2 |}.

Definition start (t : db) : system := {| sys_db := t; sys_log := []; sys_threads := [] |}.

Definition reachable (t0 : db) (s : system) : Prop := rtc step (start t0) s.

(** ** The invariant *)

Definition claimed_key (m : mode) : option string :=
  match m with Claimed k => Some k | _ => None end.

Definition claimed_keys (ms : list mode) : list string := omap claimed_key ms.

(** The row of a claim: it holds the signer and has no transaction yet. *)
Definition claim_row (t : db) (k : string) : Prop :=
  exists r, r ∈ rows t /\ tr_idempotency_key r = k /\ dispatched r = true /\
    is_Some (tr_dispatch_signer_scope r) /\ tr_tx_hash r = None.

Definition sent_row (t : db) (k : string) : Prop :=
  exists r, r ∈ rows t /\ tr_idempotency_key r = k /\ dispatched r = true /\
    is_Some (tr_dispatch_signer_scope r).

(** An older broadcast of the same signer is resolved. *)
Definition resolved_before (t : db) (x y : string) : Prop :=
  forall rx ry, rx ∈ rows t -> ry ∈ rows t -> tr_idempotency_key rx = x ->
    tr_idempotency_key ry = y -> tr_dispatch_signer_scope rx = tr_dispatch_signer_scope ry ->
    is_Some (tr_dispatch_finality_evidence ry).

Record sys_inv (t0 : db) (ms : list mode) (s : system) : Prop := {
  si_table : table_ok (sys_db s);
  si_threads : Forall2 safe ms (sys_threads s);
  si_once : NoDup (claimed_keys ms ++ sys_log s);
  si_claimed : forall k, k ∈ claimed_keys ms -> claim_row (sys_db s) k;
  si_sent : forall k, k ∈ sys_log s -> sent_row (sys_db s) k;
  si_modes : forall k, Sent k ∈ ms -> k ∈ sys_log s;
  si_tx : forall r, r ∈ rows (sys_db s) -> is_Some (tr_tx_hash r) -> dispatched r = true;
  si_order : forall newer x older y, sys_log s = newer ++ x :: older -> y ∈ older ->
    resolved_before (sys_db s) x y;
  si_fresh : forall k r, k ∈ claimed_keys ms ++ sys_log s -> r ∈ rows t0 ->
    tr_idempotency_key r = k -> dispatched r = false;
  si_past : db_le t0 (sys_db s)
}.

(** Broadcasting needs an unresolved row of one's own, so every other row of the
    signer is resolved. *)
Lemma claim_excludes t x y rx ry :
  table_ok t -> rx ∈ rows t -> ry ∈ rows t -> tr_idempotency_key rx = x ->
  tr_idempotency_key ry = y -> x <> y -> claim_row t x -> sent_row t y ->
  tr_dispatch_signer_scope rx = tr_dispatch_signer_scope ry ->
  is_Some (tr_dispatch_finality_evidence ry).
Proof.
  intros Hok Hx Hy Ex Ey Hne (rx' & Hx' & Ex' & Dx & Sx & Tx) (ry' & Hy' & Ey' & Dy & Sy) Hs.
  assert (rx' = rx) as -> by (eapply key_unique; [apply Hok|..]; eauto; congruence).
  assert (ry' = ry) as -> by (eapply key_unique; [apply Hok|..]; eauto; congruence).
  destruct (tr_dispatch_finality_evidence ry) as [e|] eqn:E; [eauto|]. exfalso.
  assert (Ux : unresolved rx = true).
  { unfold unresolved. rewrite Dx. apply bool_decide_eq_true.
    destruct (tr_dispatch_finality_evidence rx) as [e|] eqn:E'; [|done].
    apply Hok in E' as [_ Hshape]; [|done]. unfold evidence_shape in Hshape.
    rewrite !andb_true_iff, !bool_decide_eq_true in Hshape. naive_solver. }
  assert (Uy : unresolved ry = true) by (unfold unresolved; by rewrite Dy, E).
  eapply (ok_signer _ Hok rx ry); eauto; [congruence|]. unfold same_scope. by rewrite Hs.
Qed.

Lemma sent_row_le t t' k : db_le t t' -> sent_row t k -> sent_row t' k.
Proof.
  intros Hle (r & Hr & Hk & Hd & Hs). destruct (Hle r Hr) as (r' & Hr' & (I & D & _ & _ & S)).
  exists r'. destruct I as [I _]. rewrite (S Hd), I. eauto using dispatched_once.
Qed.

(** Rows of one key before and after a change. *)
Lemma db_le_row t t' k r' :
  table_ok t' -> db_le t t' -> sent_row t k -> r' ∈ rows t' -> tr_idempotency_key r' = k ->
  exists r, r ∈ rows t /\ tr_idempotency_key r = k /\ row_le r r' /\ dispatched r = true.
Proof.
  intros Hok Hle (r & Hr & Hk & Hd & _) Hr' Hk'. destruct (Hle r Hr) as (r2 & Hr2 & L).
  assert (r2 = r') as -> by (destruct L as [[L _] _]; eapply key_unique; [apply Hok|..]; eauto;
    congruence).
  exists r. split_and!; eauto; congruence.
Qed.

Lemma resolved_before_le t t' x y :
  table_ok t' -> db_le t t' -> sent_row t x -> sent_row t y ->
  resolved_before t x y -> resolved_before t' x y.
Proof.
  intros Hok Hle Sx Sy H rx ry Hx Hy Ex Ey Hs.
  destruct (db_le_row _ _ _ _ Hok Hle Sx Hx Ex) as (rx0 & Hx0 & Ex0 & (_ & _ & _ & _ & Lx) & Dx).
  destruct (db_le_row _ _ _ _ Hok Hle Sy Hy Ey) as (ry0 & Hy0 & Ey0 & (_ & _ & _ & Le & Ly) & Dy).
  destruct (H rx0 ry0 Hx0 Hy0 Ex0 Ey0) as [e He]; [by rewrite <- Lx, <- Ly|].
  exists e. by apply Le.
Qed.

(** ** Steps preserve the invariant *)

(** The table part, for a statement issued in a mode that allows it. *)
Lemma change_claim_row q t t' k (m : mode) (ms : list mode) :
  table_ok t -> change q t t' -> allowed_query m q -> m ∈ ms ->
  k ∈ claimed_keys ms -> claim_row t k ->
  (forall k, Sent k ∈ ms -> k ∉ claimed_keys ms) -> claim_row t' k.
Proof.
  intros Hok Hc Ha Hm Hk (r & Hr & Ek & Hd & Hs & Ht) Hsent.
  destruct (change_le _ _ _ Hok Hc r Hr) as (r' & Hr' & (I & D & _ & _ & S)).
  destruct I as [I _]. exists r'. rewrite (S Hd), I.
  split_and!; eauto using dispatched_once.
  destruct (tr_tx_hash r') as [h|] eqn:T; [|done]. exfalso.
  destruct (change_tx _ _ _ _ _ Hc Hr' T) as [(r2 & Hr2 & E2 & T2)|(u & -> & Hu)].
  - assert (r2 = r) as -> by (eapply key_unique; [apply Hok|..]; eauto; congruence). congruence.
  - simpl in Ha. specialize (Ha Hu). subst m. rewrite I, Ek in Hm. by destruct (Hsent _ Hm).
Qed.

Lemma change_tx_dispatched q t t' (m : mode) (ms : list mode) (log : list string) :
  table_ok t -> table_ok t' -> change q t t' -> allowed_query m q -> m ∈ ms ->
  (forall k, Sent k ∈ ms -> k ∈ log) -> (forall k, k ∈ log -> sent_row t k) ->
  (forall r, r ∈ rows t -> is_Some (tr_tx_hash r) -> dispatched r = true) ->
  forall r, r ∈ rows t' -> is_Some (tr_tx_hash r) -> dispatched r = true.
Proof.
  intros Hok Hok' Hc Ha Hm Hsent Hlog Htx r Hr [h Hh].
  assert (Hle := change_le _ _ _ Hok Hc).
  destruct (change_tx _ _ _ _ _ Hc Hr Hh) as [(r0 & Hr0 & E0 & T0)|(u & -> & Hu)].
  - destruct (Hle r0 Hr0) as (r2 & Hr2 & L).
    assert (r2 = r) as -> by (destruct L as [[L _] _]; eapply key_unique; [apply Hok'|..]; eauto;
      congruence).
    destruct L as (_ & D & _). eapply dispatched_once; [exact D|]. eauto.
  - simpl in Ha. specialize (Ha Hu). subst m. apply Hsent, Hlog in Hm.
    destruct (db_le_row _ _ _ _ Hok' Hle Hm Hr eq_refl) as (r0 & _ & _ & (_ & D & _) & Hd).
    eauto using dispatched_once.
Qed.

Lemma claimed_keys_app ms ms' : claimed_keys (ms ++ ms') = claimed_keys ms ++ claimed_keys ms'.
Proof. apply omap_app. Qed.

Lemma claimed_keys_elem k ms : k ∈ claimed_keys ms <-> Claimed k ∈ ms.
Proof.
  unfold claimed_keys. rewrite list_elem_of_omap. split.
  - intros (m & Hm & E). destruct m; by simplify_eq/=.
  - intros H. exists (Claimed k). done.
Qed.

Lemma elem_of_middle {A} (x : A) l1 l2 : x ∈ l1 ++ x :: l2.
Proof. apply elem_of_app. right. left. Qed.

(** Membership facts about the lists of a step, by [tauto] on the parts. *)
Ltac elem_tauto H :=
  clear - H; rewrite ?elem_of_app, ?elem_of_cons in H; rewrite ?elem_of_app, ?elem_of_cons; tauto.

(** A statement that leaves its program in the same mode. *)
Lemma inv_query_same t0 m m1 m2 q k (a : result thrown (qanswer q)) t t' log l1 l2 :
  sys_inv t0 (m1 ++ m :: m2) {| sys_db := t; sys_log := log; sys_threads := l1 ++ Db q k :: l2 |} ->
  length m1 = length l1 -> change q t t' -> next_query m q a = m ->
  sys_inv t0 (m1 ++ m :: m2) {| sys_db := t'; sys_log := log; sys_threads := l1 ++ k a :: l2 |}.
Proof.
  intros [I1 I2 I3 I4 I5 I6 I7 I8 I9 I10] Hl Hc Hn. simpl in *.
  assert (Hok := change_ok _ _ _ I1 Hc). assert (Hle := change_le _ _ _ I1 Hc).
  apply Forall2_app_inv in I2 as [F1 F2]; [|done].
  apply Forall2_cons in F2 as [[Ha Hk] F2].
  split; simpl; try done.
  - apply Forall2_app; [done|]. constructor; [|done]. specialize (Hk a). simpl in Hk. by rewrite Hn in Hk.
  - intros k' Hk'. eapply change_claim_row; [exact I1 | exact Hc | exact Ha | apply elem_of_middle
      | exact Hk' | by apply I4|].
    intros k2 Hs Hcl. apply I6 in Hs. apply NoDup_app in I3 as (_ & I3 & _). by apply (I3 k2).
  - intros k' Hk'. eapply sent_row_le; eauto.
  - eapply change_tx_dispatched; [exact I1 | exact Hok | exact Hc | exact Ha | apply elem_of_middle
      | exact I6 | exact I5 | exact I7].
  - intros newer x older y -> Hy. eapply resolved_before_le; [done | exact Hle
      | apply I5, elem_of_middle | apply I5; elem_tauto Hy | by eapply I8].
  - by transitivity t.
Qed.

(** A granted claim. *)
Lemma inv_query_claim t0 m1 m2 key scope now k t t' log l1 l2 :
  sys_inv t0 (m1 ++ Idle :: m2)
    {| sys_db := t; sys_log := log; sys_threads := l1 ++ Db (QClaim key scope) k :: l2 |} ->
  length m1 = length l1 -> claimTriggerDispatch key scope now t = (Ok true, t') ->
  sys_inv t0 (m1 ++ Claimed key :: m2)
    {| sys_db := t'; sys_log := log; sys_threads := l1 ++ k (Ok true) :: l2 |}.
Proof.
  intros Hinv Hl Hcl. pose proof (exec_change (QClaim key scope) now t _ _ Hcl) as Hc.
  assert (H := inv_query_same _ _ _ _ (QClaim key scope) _ (Ok false) _ _ _ _ _ Hinv Hl Hc eq_refl).
  destruct Hinv as [I1 I2 _ I4 I5 _ I7 _ _ I10]. simpl in *.
  destruct (claim_granted _ _ _ _ _ Hcl) as (old & new & Ho & Ko & Do & Hn & Kn & Dn & Sn & Tn).
  assert (Hnew : forall r, r ∈ rows t -> tr_idempotency_key r = key -> dispatched r = false).
  { intros r Hr Hk. assert (r = old) as -> by (eapply key_unique; [apply I1|..]; eauto; congruence).
    done. }
  assert (Hfree : key ∉ claimed_keys (m1 ++ Idle :: m2) ++ log).
  { intros [(r & Hr & Hk & Hd & _)%I4|(r & Hr & Hk & Hd & _)%I5]%elem_of_app;
      by rewrite (Hnew r Hr Hk) in Hd. }
  apply Forall2_app_inv in I2 as [F1 F2]; [|done]. apply Forall2_cons in F2 as [[Ha Hk] F2].
  destruct H as [J1 J2 J3 J4 J5 J6 J7 J8 J9 J10]. simpl in *.
  rewrite !claimed_keys_app in *. simpl in *.
  assert (Hrow : claim_row t' key).
  { exists new. split_and!; eauto. rewrite Tn. destruct (tr_tx_hash old) eqn:T; [|done].
    rewrite (I7 old) in Do; [done | done | by rewrite T]. }
  split; simpl; rewrite ?claimed_keys_app; simpl; try done.
  - apply Forall2_app; [done|]. constructor; [|done]. apply (Hk (Ok true)).
  - rewrite <- app_assoc. simpl. apply NoDup_Permutation_proper
      with (key :: (claimed_keys m1 ++ claimed_keys m2) ++ log).
    + rewrite <- app_assoc. symmetry. apply Permutation_middle.
    + by apply NoDup_cons.
  - intros k'. rewrite elem_of_app, elem_of_cons. intros [H|[->|H]]; [|done|];
      apply J4; apply elem_of_app; auto.
  - intros k' [Hk'|[[=]|Hk']%elem_of_cons]%elem_of_app; apply J6; elem_tauto Hk'.
  - intros k' r Hk' Hr E. destruct (decide (k' = key)) as [->|Hne].
    + destruct (I10 r Hr) as (r' & Hr' & (Ir & Dr & _)). destruct (dispatched r) eqn:D; [|done].
      destruct Ir as [Ir _]. rewrite <- (Hnew r' Hr'); [|congruence].
      symmetry. eauto using dispatched_once.
    + apply (J9 k'); [|done..]. clear - Hk' Hne.
      rewrite !elem_of_app, elem_of_cons in Hk'. rewrite !elem_of_app. tauto.
Qed.

(** A broadcast. *)
Lemma inv_send t0 m1 m2 key ec k r t log l1 l2 :
  sys_inv t0 (m1 ++ Claimed key :: m2)
    {| sys_db := t; sys_log := log; sys_threads := l1 ++ Ext (Send key ec) k :: l2 |} ->
  length m1 = length l1 ->
  sys_inv t0 (m1 ++ Sent key :: m2)
    {| sys_db := t; sys_log := key :: log; sys_threads := l1 ++ k r :: l2 |}.
Proof.
  intros [I1 I2 I3 I4 I5 I6 I7 I8 I9 I10] Hl. simpl in *.
  apply Forall2_app_inv in I2 as [F1 F2]; [|done]. apply Forall2_cons in F2 as [[Ha Hk] F2].
  rewrite claimed_keys_app in *. simpl in *.
  assert (Hclaim : claim_row t key) by (apply I4, elem_of_middle).
  assert (Hperm : (claimed_keys m1 ++ key :: claimed_keys m2) ++ log
                  ≡ₚ (claimed_keys m1 ++ claimed_keys m2) ++ key :: log).
  { rewrite <- !app_assoc. simpl. rewrite <- !Permutation_middle. by rewrite app_assoc. }
  assert (Hsent : sent_row t key) by (destruct Hclaim as (x & ? & ? & ? & ? & _); exists x; auto).
  split; simpl; rewrite ?claimed_keys_app; simpl; try done.
  - apply Forall2_app; [done|]. constructor; [apply Hk | done].
  - by rewrite <- Hperm.
  - intros k' Hk'. apply I4. elem_tauto Hk'.
  - intros k' [->|Hk']%elem_of_cons; auto.
  - intros k' [Hk'|[[= ->]|Hk']%elem_of_cons]%elem_of_app; [right|left|right];
      apply I6; elem_tauto Hk'.
  - intros newer x older y E Hy. destruct newer as [|n newer]; injection E as E1 E2;
      [subst x older | by eapply I8].
    intros rx ry Hx Hy' Ex Ey Hs. eapply (claim_excludes t key y rx ry); eauto.
    intros ->. rewrite Hperm in I3. apply NoDup_app in I3 as (_ & _ & I3).
    by apply NoDup_cons in I3 as [? _].
  - intros k' r' Hk' Hr'. apply (I9 k'); [|done]. by rewrite Hperm.
Qed.

(** A program that dies takes its permission with it. *)
Lemma inv_crash t0 m m1 m2 p t log l1 l2 :
  sys_inv t0 (m1 ++ m :: m2) {| sys_db := t; sys_log := log; sys_threads := l1 ++ p :: l2 |} ->
  length m1 = length l1 ->
  sys_inv t0 (m1 ++ m2) {| sys_db := t; sys_log := log; sys_threads := l1 ++ l2 |}.
Proof.
  intros [I1 I2 I3 I4 I5 I6 I7 I8 I9 I10] Hl. simpl in *.
  apply Forall2_app_inv in I2 as [F1 F2]; [|done]. apply Forall2_cons in F2 as [_ F2].
  assert (Hsub : claimed_keys (m1 ++ m2) `sublist_of` claimed_keys (m1 ++ m :: m2)).
  { rewrite !claimed_keys_app. apply sublist_app; [done|]. destruct m; simpl; [done| |done].
    by apply sublist_cons. }
  assert (Hin : forall k, k ∈ claimed_keys (m1 ++ m2) -> k ∈ claimed_keys (m1 ++ m :: m2))
    by (intros k Hk; by eapply elem_of_sublist).
  split; simpl; try done.
  - by apply Forall2_app.
  - eapply sublist_NoDup; [exact I3|]. by apply sublist_app.
  - intros k Hk. apply I4. auto.
  - intros k Hk. apply I6. elem_tauto Hk.
  - intros k r Hk. apply I9. rewrite elem_of_app in Hk |- *. destruct Hk; auto.
Qed.

Lemma program_of_safe op : safe Idle (program_of op).
Proof.
  unfold safe, program_of, run. destruct op; apply wp_bind, wp_mono with (Q := fun _ _ => True);
    try done.
  - apply safe_executeTrigger.
  - apply safe_resume.
  - by apply wp_quiet; [apply reading_quiet, reading_reject|].
  - by apply wp_quiet; [apply quiet_poll|].
Qed.

(** The mode of the program that moves. *)
Lemma thread_mode t0 ms t log l1 p l2 :
  sys_inv t0 ms {| sys_db := t; sys_log := log; sys_threads := l1 ++ p :: l2 |} ->
  exists m1 m m2, ms = m1 ++ m :: m2 /\ length m1 = length l1 /\ safe m p.
Proof.
  intros [_ I2 _ _ _ _ _ _ _ _]. simpl in I2.
  apply Forall2_app_inv_r in I2 as (m1 & ms' & F1 & F2 & ->).
  apply Forall2_cons_inv_r in F2 as (m & m2 & Hp & F2 & ->).
  exists m1, m, m2. split_and!; [done | by eapply Forall2_length | done].
Qed.

Lemma next_query_cases m q (r : result thrown (qanswer q)) :
  next_query m q r = m \/
  exists key scope (H : q = QClaim key scope), eq_rect _ (fun q => result thrown (qanswer q)) r _ H = Ok true.
Proof.
  destruct q; simpl; auto. destruct r as [[|]|]; auto. right. by exists key, scope, eq_refl.
Qed.

Lemma sys_step_inv t0 ms s s' : sys_inv t0 ms s -> step s s' -> exists ms', sys_inv t0 ms' s'.
Proof.
  intros Hinv Hstep. destruct Hstep as [op t log ps|q k now r t t' log l1 l2 He
    |q k now r e t t' log l1 l2 He|q k e t log l1 l2|c k r t log l1 l2|p t log l1 l2].
  - exists (Idle :: ms). destruct Hinv as [I1 I2 I3 I4 I5 I6 I7 I8 I9 I10].
    split; simpl in *; try done.
    + constructor; [apply program_of_safe | done].
    + intros k [[=]|Hk]%elem_of_cons. by apply I6.
  - destruct (thread_mode _ _ _ _ _ _ _ Hinv) as (m1 & m & m2 & -> & Hl & [Ha _]).
    destruct (next_query_cases m q r) as [Hn|(key & scope & -> & Hr)].
    + exists (m1 ++ m :: m2). eauto using inv_query_same, exec_change.
    + simpl in Hr, Ha. subst r m. exists (m1 ++ Claimed key :: m2).
      eapply inv_query_claim; eauto.
  - destruct (thread_mode _ _ _ _ _ _ _ Hinv) as (m1 & m & m2 & -> & Hl & _).
    exists (m1 ++ m :: m2). eapply inv_query_same; eauto using exec_change. by destruct q.
  - destruct (thread_mode _ _ _ _ _ _ _ Hinv) as (m1 & m & m2 & -> & Hl & _).
    exists (m1 ++ m :: m2). eapply inv_query_same; eauto; [by apply change_none | by destruct q].
  - destruct (thread_mode _ _ _ _ _ _ _ Hinv) as (m1 & m & m2 & -> & Hl & [Ha Hk]).
    destruct (quiet_call c) eqn:Q.
    + exists (m1 ++ m :: m2). assert (sent c = [] /\ next_call m c r = m) as [-> Hn] by (by destruct c).
      destruct Hinv as [I1 I2 I3 I4 I5 I6 I7 I8 I9 I10]. split; simpl in *; try done.
      apply Forall2_app_inv in I2 as [F1 F2]; [|done]. apply Forall2_cons in F2 as [_ F2].
      apply Forall2_app; [done|]. constructor; [|done]. rewrite <- Hn. apply Hk.
    + destruct c; try done. simpl in Ha. subst m. exists (m1 ++ Sent key :: m2).
      eapply inv_send; eauto.
  - destruct (thread_mode _ _ _ _ _ _ _ Hinv) as (m1 & m & m2 & -> & Hl & _).
    exists (m1 ++ m2). eauto using inv_crash.
Qed.

Lemma reachable_inv t0 s :
  table_ok t0 -> (forall r, r ∈ rows t0 -> is_Some (tr_tx_hash r) -> dispatched r = true) ->
  reachable t0 s -> exists ms, sys_inv t0 ms s.
Proof.
  intros Hok Htx. unfold reachable. intros H.
  assert (H0 : exists ms, sys_inv t0 ms (start t0)).
  { exists []. split; simpl; try done; try (intros; by match goal with H : _ ∈ [] |- _ =>
      apply elem_of_nil in H end).
    - constructor.
    - by intros [] x older y.
    - intros r Hr. eauto using row_le_refl. }
  revert H0. induction H as [|x y z Hxy _ IH]; [done|]. intros [ms Hinv]. apply IH.
  by eapply sys_step_inv.
Qed.

(** The stored triggers of a list of keys. *)
Lemma rows_of_keys t (ks : list string) :
  (forall k, k ∈ ks -> sent_row t k) ->
  exists rs, tr_idempotency_key <$> rs = ks /\
    Forall (fun r => r ∈ rows t /\ dispatched r = true) rs.
Proof.
  induction ks as [|k ks IH]; intros H; [by exists []|].
  destruct IH as (rs & <- & Hrs); [intros k' Hk'; apply H; by right|].
  destruct (H k) as (r & Hr & Hk & Hd & _); [left|].
  exists (r :: rs). simpl. rewrite Hk. split; [done|]. by constructor.
Qed.

Lemma NoDup_actions t (rs : list Trigger) :
  table_ok t -> Forall (fun r => r ∈ rows t /\ dispatched r = true) rs ->
  NoDup (tr_idempotency_key <$> rs) -> NoDup (tr_action_key <$> rs).
Proof.
  intros Hok Hrs. induction Hrs as [|r rs [Hr Hd] Hrs IH]; simpl; [constructor|].
  intros [Hn Hnd]%NoDup_cons. apply NoDup_cons. split; [|by apply IH].
  intros (o & Ho & Hino)%list_elem_of_fmap. rewrite Forall_forall in Hrs.
  destruct (Hrs o Hino) as [Hor Hod]. eapply (ok_action _ Hok r o); eauto.
  intros E. apply Hn. rewrite <- E. by apply list_elem_of_fmap_2.
Qed.

(** C4. the oracle never broadcasts an action twice.  Take any history of the
    service: any requests, approvals, rejections and confirmation polls on any
    number of replicas, interleaved statement by statement, with statements
    that fail or whose acknowledgement is lost, external calls that answer
    anything, and processes that die anywhere.  Then every broadcast is by a stored
    trigger that holds the durable claim of its dispatch, and the broadcasts are of
    distinct triggers with pairwise distinct actions, none of them an action
    dispatched before the history began; and whenever one signer broadcast more than
    once, every earlier broadcast had been resolved: its row holds finality evidence
    for its own signer and transaction, from two distinct witnesses. *)
Theorem one_broadcast_per_action t0 s :
  table_ok t0 -> (forall r, r ∈ rows t0 -> is_Some (tr_tx_hash r) -> dispatched r = true) ->
  reachable t0 s ->
  exists broadcasts : list Trigger,
    tr_idempotency_key <$> broadcasts = sys_log s /\
    Forall (fun r => r ∈ rows (sys_db s) /\ dispatched r = true) broadcasts /\
    NoDup (tr_action_key <$> broadcasts) /\
    (forall o, o ∈ rows t0 -> dispatched o = true -> tr_action_key o ∉ tr_action_key <$> broadcasts) /\
    (forall newer x older y, broadcasts = newer ++ x :: older -> y ∈ older ->
       tr_dispatch_signer_scope x = tr_dispatch_signer_scope y ->
       exists e, tr_dispatch_finality_evidence y = Some e /\ evidence_shape y e = true).
Proof.
  intros Hok Htx Hr. destruct (reachable_inv _ _ Hok Htx Hr) as [ms [I1 _ I3 _ I5 _ _ I8 I9 I10]].
  destruct (rows_of_keys _ _ I5) as (rs & Hks & Hrs). exists rs.
  apply NoDup_app in I3 as (_ & _ & I3). rewrite <- Hks in I3.
  split_and!; [done | exact Hrs | | |].
  - by eapply NoDup_actions.
  - intros o Ho Hd (r & Er & Hin)%list_elem_of_fmap. rewrite Forall_forall in Hrs.
    destruct (Hrs r Hin) as [Hrow Hrd]. destruct (I10 o Ho) as (o' & Ho' & (Io & Do & _)).
    destruct Io as (Ik & Ia & _). eapply (ok_action _ I1 r o'); eauto using dispatched_once;
      [|congruence].
    intros E. rewrite (I9 (tr_idempotency_key r) o) in Hd; [done | | done | congruence].
    rewrite <- Hks. apply elem_of_app. right. by apply list_elem_of_fmap_2.
  - intros newer x older y -> Hy Hs. rewrite fmap_app in Hks. simpl in Hks.
    assert (Hm : y ∈ newer ++ x :: older) by (apply elem_of_app; right; by right).
    rewrite Forall_forall in Hrs. destruct (Hrs y Hm) as [Hyr _].
    destruct (Hrs x (elem_of_middle _ _ _)) as [Hxr _].
    destruct (I8 _ _ _ (tr_idempotency_key y) (eq_sym Hks) (list_elem_of_fmap_2 _ _ _ Hy)
                x y Hxr Hyr eq_refl eq_refl Hs) as [e He].
    exists e. split; [done|]. by apply I1 in He as [_ ?].
Qed.
End System.
