(* ===== verification/OracleGuard.v ===== *)
(** What the oracle has checked before it broadcasts.

    The history of a program is the list of its effects with their answers,
    newest first.  [broadcast_is_guarded] shows that whatever is answered, a
    broadcast comes only after the answers that permit it, and once per
    operation. *)
From stdpp Require Import base list strings.
From S2P Require Import Prelude JsText Finality ReconTypes FundedBinding OracleTypes OracleDb.
From S2P Require Import OracleProg OracleExec OracleWp OracleSafe.

Open Scope string_scope.
Open Scope Z_scope.
Open Scope list_scope.

Inductive event :=
| EvDb (q : query) (r : result thrown (qanswer q))
| EvCall (c : call) (r : result thrown (answer c)).

(** [history p h p']: after the answered effects [h], [p'] is left of [p]. *)
Inductive history {A} (p : prog A) : list event -> prog A -> Prop :=
| history_start : history p [] p
| history_db h q k r : history p h (Db q k) -> history p (EvDb q r :: h) (k r)
| history_call h c k r : history p h (Ext c k) -> history p (EvCall c r :: h) (k r).

Definition is_send (ev : event) : bool :=
  match ev with EvCall (Send _ _) _ => true | _ => false end.

Definition no_send (h : list event) : Prop := existsb is_send h = false.

(** The escrow call a trigger type stands for; a buyer acceptance has none. *)
Definition escrow_call_of (type : TriggerType) (tradeId : string) : option escrow_call :=
  match type with
  | RELEASE_STAGE_1 => Some (ReleaseFundsStage1 tradeId)
  | CONFIRM_ARRIVAL | CONFIRM_INSPECTION_AVAILABLE_STANDARD =>
      Some (ConfirmInspectionAvailable tradeId 259200)
  | CONFIRM_INSPECTION_AVAILABLE_PACKAGED_LOCAL => Some (ConfirmInspectionAvailable tradeId 172800)
  | FINALIZE_AFTER_INSPECTION_ACCEPTANCE => None
  | FINALIZE_TRADE => Some (FinalizeAfterDisputeWindow tradeId)
  end.

(** ** Rows and their action keys *)

(** The action key of a row names its trade. *)
Definition keyed_row (r : Trigger) : Prop :=
  tr_action_key r = generateActionKey (tr_trigger_type r) (tr_trade_id r).

(** A statement that answers does so from a table whose rows have their action
    keys, some table at every statement; it may also fail. *)
Definition answered_by_table (ev : event) : Prop :=
  match ev with
  | EvDb q (Ok a) => exists now t, Forall keyed_row (rows t) /\ (exec_query q now t).1 = Ok a
  | _ => True
  end.

Definition honest (h : list event) : Prop := forall ev, ev ∈ h -> answered_by_table ev.

Lemma append_colon_inj a b x y :
  existsb (fun c => Ascii.eqb c ":") (String.list_ascii_of_string a) = false ->
  existsb (fun c => Ascii.eqb c ":") (String.list_ascii_of_string b) = false ->
  (a ++ ":" ++ x = b ++ ":" ++ y)%string -> x = y.
Proof.
  revert b. induction a as [|c a IH]; intros [|d b]; cbn -[Ascii.eqb]; intros Ha Hb H.
  - by injection H.
  - injection H as <- _. by rewrite Ascii.eqb_refl in Hb.
  - injection H as -> _. by rewrite Ascii.eqb_refl in Ha.
  - injection H as <- H. apply orb_false_iff in Ha as [_ Ha], Hb as [_ Hb]. by apply (IH b).
Qed.

Lemma generateActionKey_trade ty ty' t t' :
  generateActionKey ty t = generateActionKey ty' t' -> t = t'.
Proof. destruct ty, ty'; by apply append_colon_inj. Qed.

Lemma latest_in l best r : fold_left latest l best = Some r -> r ∈ l \/ best = Some r.
Proof.
  revert best. induction l as [|x l IH]; intros best; simpl; [by right|]. intros [H|H]%IH.
  - left. by right.
  - unfold latest in H. destruct best as [b|]; [destruct (Z.leb _ _)|];
      injection H as ->; auto using list_elem_of_here.
Qed.

(** What an answered insertion and an answered lookup say of the row. *)
Lemma honest_insert data r h : EvDb (QInsert data) (Ok r) ∈ h -> honest h ->
  tr_trade_id r = ct_tradeId data.
Proof.
  intros Hin Hh. destruct (Hh _ Hin) as (now & t & _ & H). simpl in H. unfold insertTrigger in H.
  cbv zeta in H. repeat (destruct (varchar_error _) || destruct (binding_insert_error _)
    || destruct (bool_decide _) || destruct (index_error _ _)); try done. by injection H as <-.
Qed.

Lemma honest_latest k r h : EvDb (QLatest k) (Ok (Some r)) ∈ h -> honest h ->
  tr_action_key r = k /\ keyed_row r.
Proof.
  intros Hin Hh. destruct (Hh _ Hin) as (now & t & Hk & H). simpl in H. injection H as H.
  apply latest_in in H as [H|H]; [|done]. apply list_elem_of_filter in H as [Ha Hr]. split; [done|].
  by rewrite Forall_forall in Hk; apply Hk.
Qed.

Section Guard.
Context (getAddress : string -> option string) (cfg : config).

(** The answers that permit a progression of the trade, all in the history:
    the chain trade was in the state the type requires; the funded binding
    names this trade and the phase of this type, its funding was verified and a
    chain trade matching it was read; reconciliation held no containment; the
    dispatch of the trigger was granted. *)
Definition permitted (h : list event) (key : string) (type : TriggerType) (tradeId : string)
    : Prop :=
  (exists trade, EvCall (SdkGetTrade tradeId) (Ok trade) ∈ h /\
     validateTradeState trade type = Ok tt) /\
  (exists binding trade, b_tradeId binding = tradeId /\ b_phase binding = phase_of type /\
     EvCall (VerifyFunding binding) (Ok tt) ∈ h /\
     EvCall (SdkGetTrade tradeId) (Ok trade) ∈ h /\
     assertFundedTradeMatchesBinding getAddress trade binding = Ok tt) /\
  (containmentConfigured cfg = true -> EvCall (ReadContainment tradeId) (Ok None) ∈ h) /\
  (exists scope, EvDb (QClaim key scope) (Ok true) ∈ h).

(** A pause check of the trade that answered no, as far as the database answers
    from its rows. *)
Definition pause_checked (h : list event) (tradeId : string) : Prop :=
  honest h -> EvCall (IsTradePaused tradeId) (Ok false) ∈ h.

(** A broadcast is the only one of its history and satisfies [X]; the section
    is used with two such demands. *)
Context (X : list event -> string -> escrow_call -> Prop).

Definition guarded (h : list event) (key : string) (ec : escrow_call) : Prop :=
  no_send h /\ X h key ec.

#[local] Instance history_protocol : protocol (list event) := {
  allowed_query _ _ := True;
  next_query h q r := EvDb q r :: h;
  allowed_call h c := match c with Send key ec => guarded h key ec | _ => True end;
  next_call h c r := EvCall c r :: h
}.

(** ** Programs that do not broadcast only extend the history *)

Definition grown (h h' : list event) : Prop := exists l, h' = l ++ h /\ no_send l.

Lemma grown_refl h : grown h h.
Proof. by exists []. Qed.

Lemma grown_trans a b c : grown a b -> grown b c -> grown a c.
Proof.
  intros (l & -> & Hl) (l' & -> & Hl'). exists (l' ++ l). rewrite app_assoc. split; [done|].
  unfold no_send in *. by rewrite existsb_app, Hl, Hl'.
Qed.

Lemma grown_elem h h' ev : grown h h' -> ev ∈ h -> ev ∈ h'.
Proof. intros (l & -> & _) ?. apply elem_of_app. by right. Qed.

Lemma grown_no_send h h' : grown h h' -> no_send h -> no_send h'.
Proof.
  unfold no_send. intros (l & -> & Hl) Hh. by rewrite existsb_app, Hl, Hh.
Qed.

Lemma grown_honest h h' : grown h h' -> honest h' -> honest h.
Proof. intros Hg Hh ev Hin. apply Hh. by eapply grown_elem. Qed.

Lemma grown_pause h h' t : grown h h' -> pause_checked h t -> pause_checked h' t.
Proof. intros Hg Hp Hh. eapply grown_elem; [exact Hg|]. apply Hp. by eapply grown_honest. Qed.

(** The trade that was checked is the trade of a row. *)
Lemma pause_checked_row h h' t t' : EvCall (IsTradePaused t) (Ok false) ∈ h -> grown h h' ->
  (honest h' -> t' = t) -> pause_checked h' t'.
Proof. intros Hin Hg Ht Hh. rewrite Ht by done. by eapply grown_elem. Qed.

Lemma permitted_grown h h' key type tradeId :
  grown h h' -> permitted h key type tradeId -> permitted h' key type tradeId.
Proof.
  intros Hg ((t & H1 & H2) & (b & t' & H3 & H4 & H5 & H6 & H7) & H8 & (sc & H9)).
  unfold permitted. split_and!; eauto 10 using grown_elem.
Qed.

#[local] Instance grown_preorder : PreOrder grown.
Proof. split; [exact grown_refl | exact grown_trans]. Qed.

#[local] Instance history_gentle : gentle quiet_query grown.
Proof.
  split; [apply _| |].
  - intros h q r _. split; [done|]. by exists [EvDb q r].
  - intros h c r Hc. split; [by destruct c|]. exists [EvCall c r]. split; [done|]. by destruct c.
Qed.


(** ** The answers each check leaves behind *)

(** One external call that is not a broadcast. *)
Lemma wp_call h c Q :
  quiet_call c = true ->
  (forall r, grown h (EvCall c r :: h) -> Q (EvCall c r :: h) r) -> wp h (ext c) Q.
Proof.
  intros Hc HQ. split; [by destruct c|]. intros r. apply HQ. exists [EvCall c r].
  split; [done|]. by destruct c.
Qed.

Lemma wp_getTrade h t Q :
  (forall h' r, grown h h' ->
     match r with Ok trade => EvCall (SdkGetTrade t) (Ok trade) ∈ h' | Err _ => True end ->
     Q h' r) ->
  wp h (getTrade t) Q.
Proof.
  intros HQ. unfold getTrade. apply wp_io_bind, wp_call; [done|]. intros [trade|e] Hg.
  - match goal with |- context [if ?b then _ else _] => destruct b end; apply HQ; try done. left.
  - by apply HQ.
Qed.

Lemma wp_assertFundedBinding h b Q :
  (forall h' r, grown h h' ->
     match r with
     | Ok _ => exists b' trade, parseSettlementFundedBinding getAddress (binding_json b) = Ok b' /\
         EvCall (VerifyFunding b') (Ok tt) ∈ h' /\
         EvCall (SdkGetTrade (b_tradeId b')) (Ok trade) ∈ h' /\
         assertFundedTradeMatchesBinding getAddress trade b' = Ok tt
     | Err _ => True
     end -> Q h' r) ->
  wp h (assertFundedBinding getAddress b) Q.
Proof.
  intros HQ. unfold assertFundedBinding. apply wp_io_bind.
  destruct (parseSettlementFundedBinding getAddress (binding_json b)) as [b'|e] eqn:P;
    simpl lift_raw; [|by apply HQ].
  apply wp_io_bind, wp_call; [done|]. intros [[]|e] Hg; [|by apply HQ].
  apply wp_io_bind, wp_getTrade. intros h' [trade|e] Hg' Ht;
    assert (Hgg : grown h h') by (by etransitivity); [|by apply HQ].
  destruct (assertFundedTradeMatchesBinding getAddress trade b') as [[]|e] eqn:A; apply HQ;
    try done. exists b', trade. split_and!; try done. eapply grown_elem; [exact Hg' | left].
Qed.

Lemma wp_assertMayProgress h t Q :
  (forall h' r, grown h h' ->
     match r with
     | Ok _ => containmentConfigured cfg = true -> EvCall (ReadContainment t) (Ok None) ∈ h'
     | Err _ => True
     end -> Q h' r) ->
  wp h (assertMayProgress cfg t) Q.
Proof.
  intros HQ. unfold assertMayProgress. destruct (containmentConfigured cfg); [|by apply HQ].
  apply wp_io_bind, wp_try, wp_call; [done|].
  intros [[[i st]|]|e] Hg; apply HQ; try done. left.
Qed.

Lemma wp_assertTradeMayProgress h t Q :
  (forall h' r, grown h h' ->
     match r with Ok _ => EvCall (IsTradePaused t) (Ok false) ∈ h' | Err _ => True end -> Q h' r) ->
  wp h (assertTradeMayProgress cfg t) Q.
Proof.
  intros HQ. unfold assertTradeMayProgress. apply wp_io_bind, wp_call; [done|].
  intros [[|]|e] Hg; try by apply HQ.
  apply (wp_quiet (R := grown)); [auto with oracle|]. intros h' r Hg'.
  apply HQ; [by etransitivity|]. destruct r; [|done]. eapply grown_elem; [exact Hg' | left].
Qed.

Lemma wp_latest h k Q :
  (forall h' r, grown h h' ->
     match r with
     | Ok (Some l) => honest h' -> tr_action_key l = k /\ keyed_row l
     | _ => True
     end -> Q h' r) ->
  wp h (db_ (QLatest k)) Q.
Proof.
  intros HQ. split; [done|]. intros r. apply HQ; [by exists [EvDb (QLatest k) r]|].
  destruct r as [[l|]|]; [|done..]. apply honest_latest. left.
Qed.

(** The row that was created, or found in its place, is of the same trade. *)
Lemma wp_createTrigger h data Q :
  (honest h -> ct_actionKey data = generateActionKey (ct_triggerType data) (ct_tradeId data)) ->
  (forall h' r, grown h h' ->
     match r with Ok t => honest h' -> tr_trade_id t = ct_tradeId data | Err _ => True end ->
     Q h' r) ->
  wp h (createTrigger data) Q.
Proof.
  intros Hk HQ. unfold createTrigger. apply wp_try. split; [done|]. intros r.
  assert (G : grown h (EvDb (QInsert data) r :: h)) by by exists [EvDb (QInsert data) r].
  destruct r as [t|e].
  { cbn [wp]. apply HQ; [done|]. apply honest_insert. left. }
  cbn [wp]. match goal with |- context [if ?b then _ else _] => destruct b end; [|by apply HQ].
  apply wp_io_bind, wp_latest. intros h' [[l|]|e'] G' Hl;
    (apply HQ; [by etransitivity|]); try done.
  intros Hh. destruct (Hl Hh) as [Ha Hr]. unfold keyed_row in Hr. rewrite Ha, Hk in Hr.
  - by apply generateActionKey_trade in Hr.
  - eapply grown_honest; [|exact Hh]. by etransitivity.
Qed.

Lemma wp_createNewTrigger h request Q :
  (forall h' r, grown h h' ->
     match r with Ok t => honest h' -> tr_trade_id t = rq_tradeId request | Err _ => True end ->
     Q h' r) ->
  wp h (createNewTrigger getAddress request
          (generateActionKey (rq_triggerType request) (rq_tradeId request))) Q.
Proof.
  intros HQ. unfold createNewTrigger. apply wp_lift_bind.
  destruct (requireFundedBinding _ _ _ _) as [b|e]; [|by apply HQ].
  by apply wp_createTrigger.
Qed.

Lemma requireFundedBinding_ok v trade type b :
  requireFundedBinding getAddress v trade type = Ok b ->
  b_tradeId b = trade /\ b_phase b = phase_of type.
Proof.
  unfold requireFundedBinding. destruct (parseSettlementFundedBinding _ _) as [b'|]; [|done].
  rewrite throw_if_bind. intros [[H1 H2]%orb_false_iff [= <-]].
  apply negb_false_iff in H1, H2. apply String.eqb_eq in H1. apply includes_true in H2.
  by apply list_elem_of_singleton in H2.
Qed.

(** The binding a trigger stores parses to itself. *)
Context (getAddress_lower : forall s a, getAddress s = Some a -> getAddress (toLowerCase a) = Some a).

Lemma requireFundedBinding_parse v trade type b :
  requireFundedBinding getAddress v trade type = Ok b ->
  parseSettlementFundedBinding getAddress (binding_json b) = Ok b.
Proof using getAddress_lower.
  unfold requireFundedBinding. destruct (parseSettlementFundedBinding _ _) as [b'|] eqn:P; [|done].
  rewrite throw_if_bind. intros [_ [= <-]].
  by eapply parse_binding_json, binding_parse_ok.
Qed.

(** ** Up to the claim *)

Lemma grown_db {h h'} q r : grown h h' -> grown h (EvDb q r :: h').
Proof. intros Hg. etransitivity; [exact Hg|]. by exists [EvDb q r]. Qed.

Lemma wp_prepare h trigger actionKey attempt :
  wp h (prepare_dispatch getAddress cfg trigger actionKey attempt) (fun h' r =>
    grown h h' /\
    match r with
    | Ok None => permitted h' (tr_idempotency_key trigger) (tr_trigger_type trigger)
                   (tr_trade_id trigger) /\
        tr_trigger_type trigger <> FINALIZE_AFTER_INSPECTION_ACCEPTANCE
    | _ => True
    end).
Proof using getAddress_lower.
  unfold prepare_dispatch. set (key := tr_idempotency_key trigger).
  set (tid := tr_trade_id trigger). set (ty := tr_trigger_type trigger).
  apply wp_io_bind, wp_getTrade. intros h1 [trade|e] G1 F1; [|done]. apply wp_lift_bind.
  destruct (validateTradeState trade ty) as [[]|e] eqn:V; [|by auto].
  apply wp_quiet_bind; [quiet_solve | intros h2 [] G2 | intros ? e ?; split; [by etransitivity|done]].
  apply wp_io_bind. destruct (bool_decide (ty = _)) eqn:T;
    [split; [by etransitivity|done]|].
  apply bool_decide_eq_false in T. apply wp_lift_bind. destruct (requireFundedBinding getAddress _ tid ty) as [b|e] eqn:B;
    [|split; [by etransitivity|done]].
  apply wp_io_bind, wp_assertFundedBinding. intros h3 [[]|e] G3 F;
    [|split; [by do 2 (etransitivity; [eassumption|]) | done]].
  destruct F as (b' & trade' & P' & F2 & F3 & F4).
  rewrite (requireFundedBinding_parse _ _ _ _ B) in P'. injection P' as <-.
  apply requireFundedBinding_ok in B as [B1 B2].
  apply wp_io_bind, wp_assertMayProgress. intros h4 [[]|e] G4 F5;
    [|split; [by do 3 (etransitivity; [eassumption|]) | done]].
  apply wp_quiet_bind; [quiet_solve | intros h5 scope G5 | intros ? e ?; split; [|done]];
    [|by do 4 (etransitivity; [eassumption|])].
  apply wp_quiet_bind; [auto with oracle | intros h6 [] G6 | intros ? e ?; split; [|done]];
    [|by do 5 (etransitivity; [eassumption|])].
  assert (Gall : grown h h6) by (by do 5 (etransitivity; [eassumption|])).
  assert (G36 : grown h3 h6) by (by do 2 (etransitivity; [eassumption|])).
  assert (G16 : grown h1 h6) by (by do 2 (etransitivity; [eassumption|])).
  assert (G46 : grown h4 h6) by (by etransitivity).
  apply wp_io_bind. split; [done|]. intros claimed.
  assert (G7 : grown h6 (EvDb (QClaim key scope) claimed :: h6)) by (by eexists [_]).
  assert (Gend : grown h (EvDb (QClaim key scope) claimed :: h6)) by (by etransitivity).
  destruct claimed as [[|]|e]; simpl.
  - split; [done|]. split; [|done]. rewrite B1 in F3. unfold permitted. split_and!.
    + exists trade. split; [|done]. eapply grown_elem; [exact G7|]. by eapply grown_elem; [exact G16|].
    + exists b, trade'. split_and!; try done; (eapply grown_elem; [exact G7|]; by eapply grown_elem; [exact G36|]).
    + intros C. eapply grown_elem; [exact G7|]. eapply grown_elem; [exact G46|]. by apply F5.
    + exists scope. left.
  - split; [done|]. intros original. assert (G8 := grown_db (QByKey key) original Gend).
    destruct original as [[o|]|e]; simpl; [destruct (bool_decide _)| |]; done.
  - split; [done|]. done.
Qed.

(** ** The broadcast and after *)

(** A loop body part that does not broadcast keeps [dispatchClaimed]. *)
Definition keeps_claim {A} (m : M A) : Prop :=
  forall h s, dispatchClaimed s = true -> wp h (m s) (fun _ rs => dispatchClaimed rs.2 = true).

Lemma keeps_await {A} (p : io A) : quiet p -> keeps_claim (await p).
Proof. intros Hp h s Hs. by apply wp_await, (wp_quiet (R := grown)). Qed.

Lemma keeps_update key u : keeps_claim (await (db_ (QUpdate key u))).
Proof. intros h s Hs. by apply wp_await_db. Qed.

Lemma keeps_bind {A B} (m : M A) (f : A -> M B) :
  keeps_claim m -> (forall a, keeps_claim (f a)) -> keeps_claim (m ≫= f).
Proof.
  intros Hm Hf h s Hs. apply wp_M_bind. eapply wp_mono; [|by apply Hm].
  intros h' [[a|e] s'] Hs'; [by apply Hf | done].
Qed.

Lemma keeps_record_broadcast key hash : keeps_claim (record_broadcast key hash).
Proof.
  unfold record_broadcast. destruct (negb _); [by apply keeps_await|].
  intros h s Hs. apply wp_M_bind. cbn [set_locals wp].
  apply keeps_bind; [by apply keeps_await | intros at_; apply keeps_update | done].
Qed.

(** The demand on broadcasts of one trigger, once they are permitted. *)
Definition meets (h : list event) (key : string) (ty : TriggerType) (tid : string) : Prop :=
  forall h' ec, grown h h' -> permitted h' key ty tid -> escrow_call_of ty tid = Some ec ->
    X h' key ec.

Lemma meets_grown h h' key ty tid : grown h h' -> meets h key ty tid -> meets h' key ty tid.
Proof. intros Hg H h2 ec Hg2. apply H. by etransitivity. Qed.

Lemma wp_submit_guarded h key ty tid :
  no_send h -> permitted h key ty tid -> meets h key ty tid ->
  ty <> FINALIZE_AFTER_INSPECTION_ACCEPTANCE -> forall s, dispatchClaimed s = true ->
  wp h (submitTriggerAction key ty tid (record_broadcast key) s)
    (fun _ rs => dispatchClaimed rs.2 = true).
Proof.
  intros Hn Hperm Hm Hty s Hs.
  assert (Hsub : forall ec failure, escrow_call_of ty tid = Some ec ->
    wp h (sdk_submit key ec failure (record_broadcast key) s)
      (fun _ rs => dispatchClaimed rs.2 = true)).
  { intros ec failure Hec. unfold sdk_submit. apply wp_M_bind, wp_await, wp_call; [done|].
    intros [[]|e] Hg; [|done]. apply wp_rethrow, wp_M_bind, wp_await_ext.
    - split; [by eapply grown_no_send|]. apply Hm; [done | | done].
      by apply (permitted_grown _ _ _ _ _ Hg).
    - intros [hash|e]; [|done]. apply wp_M_bind.
      eapply wp_mono; [|by apply keeps_record_broadcast].
      intros h' [[[]|e] s'] Hs'; [|done]. apply wp_M_bind, wp_await_ext; [done|].
      by intros [[r|]|e]. }
  destruct ty; try by apply Hsub. done.
Qed.

(** The history after an error of the try block: nothing was sent, or the
    claim is on record. *)
Definition guard_post (h : list event) (h' : list event)
    (rs : result thrown TriggerResponse * locals) : Prop :=
  match rs with
  | (Ok _, _) => True
  | (Err _, s') => dispatchClaimed s' = true \/ grown h h'
  end.

Lemma wp_attempt_guarded h trigger actionKey attempt s :
  no_send h -> meets h (tr_idempotency_key trigger) (tr_trigger_type trigger) (tr_trade_id trigger) ->
  wp h (attempt_body getAddress cfg trigger actionKey attempt s) (guard_post h).
Proof using getAddress_lower.
  intros Hn Hm. unfold attempt_body. apply wp_M_bind, wp_await.
  eapply wp_mono; [|apply wp_prepare]. intros h' [[r|]|e] [Hg HP]; [done| |by right].
  destruct HP as [HP Hty]. apply wp_M_bind. cbn [set_locals wp]. apply wp_M_bind.
  eapply wp_mono; [|apply wp_submit_guarded; eauto using grown_no_send, meets_grown].
  intros h2 [[r|e] s'] Hs'; [|by left].
  apply wp_M_bind, wp_await, wp_call; [done|]. intros [at_|e] _; [|by left].
  apply wp_M_bind, wp_await_db; [done|]. intros [[]|e]; [done | by left].
Qed.

End Guard.

(** ** Operations: paused or contained trades are not progressed, and one broadcast each *)

(** The trade a transaction progresses. *)
Definition trade_of (ec : escrow_call) : string :=
  match ec with
  | ReleaseFundsStage1 t | ConfirmInspectionAvailable t _ | FinalizeAfterDisputeWindow t => t
  end.

Lemma escrow_call_trade ty tid ec : escrow_call_of ty tid = Some ec -> trade_of ec = tid.
Proof. by destruct ty; intros [= <-]. Qed.

(** The call is that of a trigger type on its trade, everything that permits it was
    answered for this trade and this trigger, and the pause check of this trade
    answered no. *)
Definition cleared_to_send (getAddress : string -> option string) (cfg : config) (h : list event)
    (key : string) (ec : escrow_call) : Prop :=
  (exists type, escrow_call_of type (trade_of ec) = Some ec /\
     permitted getAddress cfg h key type (trade_of ec)) /\
  (honest h -> EvCall (IsTradePaused (trade_of ec)) (Ok false) ∈ h).

Section Operations.
Context (getAddress : string -> option string) (cfg : config).
Context (getAddress_lower : forall s a, getAddress s = Some a -> getAddress (toLowerCase a) = Some a).

Let demand : list event -> string -> escrow_call -> Prop := cleared_to_send getAddress cfg.

#[local] Instance cleared_protocol : protocol (list event) := history_protocol demand.
#[local] Instance cleared_gentle : gentle quiet_query grown := history_gentle demand.
#[local] Existing Instance grown_preorder.

Lemma guarded_retry_loop fuel trigger actionKey attempt s h :
  no_send h -> pause_checked h (tr_trade_id trigger) ->
  safe h (retry_loop getAddress cfg fuel trigger actionKey attempt s).
Proof using getAddress_lower.
  revert attempt s h. induction fuel as [|fuel IH]; intros attempt s h Hn Hp; [done|].
  cbn [retry_loop]. apply wp_bind. eapply wp_mono;
    [|apply wp_attempt_guarded; [done | done |]].
  2: { intros h' ec Hg Hperm Hec. pose proof (escrow_call_trade _ _ _ Hec) as Ht. split; rewrite Ht.
       - by exists (tr_trigger_type trigger).
       - by eapply grown_pause. }
  intros h' [[r|e] s'] Hpost; [done|].
  destruct (dispatchClaimed s') eqn:D;
    [by apply (wp_quiet (R := grown)); [auto with oracle|]|].
  destruct Hpost as [?|Hg]; [congruence|].
  apply wp_quiet_bind; [quiet_solve | intros h2 [] Hg2 | done].
  assert (grown h h2) by (by etransitivity).
  destruct (determineNextStatus _ _ _);
    try (destruct (_ && _); [apply IH; eauto using grown_no_send, grown_pause | done]);
    (apply wp_quiet_bind; [auto with oracle | done | done]).
Qed.

(** ** The operations *)

Ltac guard_step :=
  match goal with
  | |- wp _ (executeTriggerWithRetry _ _ _ _) _ => apply guarded_retry_loop
  | |- wp _ (assertTradeMayProgress _ _ ≫= _) _ =>
      apply wp_io_bind, wp_assertTradeMayProgress; intros ? [[]|?] ? ?; [|exact I]
  | |- wp _ (createNewTrigger _ _ _ ≫= _) _ =>
      apply wp_io_bind, wp_createNewTrigger; intros ? [?|?] ? ?; [|exact I]
  | |- wp _ (createTrigger _ ≫= _) _ =>
      apply wp_io_bind, wp_createTrigger; [|intros ? [?|?] ? ?; [|exact I]]
  | |- wp _ (db_ (QLatest _) ≫= _) _ =>
      apply wp_io_bind, wp_latest; intros ? [[?|]|?] ? ?; [| |exact I]
  | |- wp _ (_ ≫= _) _ =>
      apply wp_quiet_bind; [solve [quiet_solve] | intros ? ? ? | intros; exact I]
  | |- wp _ (if ?b then _ else _) _ => destruct b
  | |- wp _ (match ?x with _ => _ end) _ => destruct x
  | |- wp _ (mret _) _ => exact I
  | |- wp _ (throw _) _ => exact I
  end.

(** What the history contains is kept along the quiet parts. *)
Ltac grows := repeat first [eassumption | etransitivity; [eassumption|]].

Ltac keep_history :=
  lazymatch goal with
  | |- no_send _ => repeat first [eassumption | eapply grown_no_send; [eassumption|]]
  | |- pause_checked _ _ => eapply pause_checked_row;
      [eassumption|first [reflexivity|grows]|first [eassumption|done]]
  end.

Lemma guarded_redrive h t r : no_send h -> (honest h -> keyed_row t) ->
  safe h (handleRedrive getAddress cfg t r).
Proof using getAddress_lower.
  intros Hn Hk. unfold safe, handleRedrive. repeat guard_step; [|keep_history..].
  intros Hh. apply Hk. eapply grown_honest; [|exact Hh]. grows.
Qed.

Lemma guarded_accept h r : no_send h ->
  safe h (accept_request getAddress cfg r (generateActionKey (rq_triggerType r) (rq_tradeId r))).
Proof using getAddress_lower.
  intros Hn. unfold safe, accept_request. repeat guard_step; keep_history.
Qed.

Lemma guarded_executeTrigger r : safe [] (executeTrigger getAddress cfg r).
Proof using getAddress_lower.
  assert (Hn : no_send []) by done.
  unfold safe, executeTrigger, executeTriggerWithActionLock. repeat guard_step.
  all: first [apply guarded_redrive; [keep_history|] | apply wp_try].
  all: try (eapply wp_mono; [|apply guarded_accept; keep_history]; intros ? [] _; done).
  all: intros Hh; match goal with H : honest _ -> _ /\ keyed_row _ |- _ => apply H end.
  all: eapply grown_honest; [|exact Hh]; grows.
Qed.

Lemma guarded_resume k a : safe [] (resumeAfterApproval getAddress cfg k a).
Proof using getAddress_lower.
  assert (Hn : no_send []) by done.
  unfold safe, resumeAfterApproval. repeat guard_step; try keep_history.
  by apply (wp_quiet (R := grown)); [auto with oracle|].
Qed.

Lemma guarded_operation op : safe [] (program_of getAddress cfg op).
Proof using getAddress_lower.
  unfold safe, program_of, run. destruct op; apply wp_bind, wp_mono with (Q := fun _ _ => True);
    try done.
  - apply guarded_executeTrigger.
  - apply guarded_resume.
  - by apply (wp_quiet (R := grown)); [auto with oracle|].
  - by apply (wp_quiet (R := grown)); [auto with oracle|].
Qed.

End Operations.

(** ** Reading a guarantee off a history *)

Lemma history_safe X {A} (p : prog A) h p' :
  safe (HSt := history_protocol X) [] p -> history p h p' -> safe (HSt := history_protocol X) h p'.
Proof.
  intros Hp H. induction H as [|h q k r H IH|h c k r H IH]; [done| |]; by apply IH.
Qed.

Lemma history_at {A} (p : prog A) after before c a p' :
  history p (after ++ EvCall c a :: before) p' -> exists k, history p before (Ext c k).
Proof.
  remember (after ++ EvCall c a :: before) as h eqn:E. intros H. revert after E.
  induction H as [|h q k r H IH|h c' k r H IH]; intros [|ev after] E; try discriminate;
    injection E as E1 E2; try discriminate; try by eapply IH.
  subst. eauto.
Qed.

(** Every broadcast of a safe program's history is guarded, and is the only one. *)
Lemma history_guarded X {A} (p : prog A) h p' key ec a after before :
  safe (HSt := history_protocol X) [] p -> history p h p' ->
  h = after ++ EvCall (Send key ec) a :: before ->
  X before key ec /\ no_send before /\ no_send after.
Proof.
  intros Hp Hh ->. pose proof (history_at _ _ _ _ _ _ Hh) as [k Hk].
  apply (history_safe X) in Hk as [[Hn HX] _]; [|done]. split_and!; try done.
  unfold no_send. destruct (existsb is_send after) eqn:E; [|done]. exfalso.
  apply existsb_exists in E as (ev & Hin & Hs). apply list_elem_of_In, list_elem_of_split in Hin
    as (l1 & l2 & ->). destruct ev as [|c r]; [done|]. destruct c; try done.
  rewrite <- app_assoc in Hh. simpl in Hh. apply history_at in Hh as [k' Hk'].
  apply (history_safe X) in Hk' as [[Hn' _] _]; [|done]. unfold no_send in Hn'.
  rewrite existsb_app in Hn'. simpl in Hn'. by rewrite orb_true_r in Hn'.
Qed.

(** The demand on one attempt: its broadcast is its trigger's own call, and the
    answers that permit it were all given in this attempt. *)
Definition own_call (getAddress : string -> option string) (cfg : config) (trigger : Trigger)
    (h : list event) (key : string) (ec : escrow_call) : Prop :=
  key = tr_idempotency_key trigger /\
  escrow_call_of (tr_trigger_type trigger) (tr_trade_id trigger) = Some ec /\
  permitted getAddress cfg h key (tr_trigger_type trigger) (tr_trade_id trigger).

