(* ===== verification/OracleRetry.v ===== *)
(** The outcome of the oracle's retry loop: it ends within its attempts, and
    the response agrees with the last state written to the trigger. *)
From stdpp Require Import base list strings.
From S2P Require Import Prelude JsText Finality ReconTypes FundedBinding OracleTypes OracleDb.
From S2P Require Import OracleProg OracleExec OracleWp OracleSafe OracleGuard.

Open Scope string_scope.
Open Scope Z_scope.
Open Scope list_scope.

(** Every effect is allowed; the state is the history. *)
#[local] Instance record_protocol : protocol (list event) := {
  allowed_query _ _ := True;
  next_query h q r := EvDb q r :: h;
  allowed_call _ _ := True;
  next_call h c r := EvCall c r :: h
}.

(** The postcondition of a program holds of its complete histories. *)
Lemma history_post {A} (p : prog A) (Q : list event -> A -> Prop) h a :
  wp [] p Q -> history p h (Ret a) -> Q h a.
Proof.
  intros Hp Hh. assert (H : forall h p', history p h p' -> wp h p' Q).
  { intros h' p' H. induction H as [|h' q k r H IH|h' c k r H IH]; [done|apply IH|apply IH]. }
  exact (H _ _ Hh).
Qed.

(** ** What a history says about the trigger *)

Definition is_err {E A} (r : result E A) : bool := match r with Err _ => true | Ok _ => false end.

(** The writes to the trigger, the clock and the notifier answered. *)
Definition ev_answered (ev : event) : bool :=
  match ev with
  | EvDb (QUpdate _ _) r => negb (is_err r)
  | EvCall DateNow r => negb (is_err r)
  | EvCall (Notify _ _) r => negb (is_err r)
  | _ => true
  end.

Definition answered (h : list event) : Prop := forallb ev_answered h = true.

(** The record of a failed attempt. *)
Definition ev_failure (ev : event) : bool :=
  match ev with
  | EvDb (QUpdate _ u) _ =>
      match up_error_type u, up_attempt_count u with Some _, Some _ => true | _, _ => false end
  | _ => false
  end.

Definition failures (h : list event) : Z := Z.of_nat (length (List.filter ev_failure h)).

#[local] Arguments failures : simpl never.

(** The status of the newest write to a trigger. *)
Fixpoint last_status (key : string) (h : list event) : option TriggerStatus :=
  match h with
  | [] => None
  | EvDb (QUpdate k u) _ :: rest =>
      if String.eqb k key then
        match up_status u with Some s => Some s | None => last_status key rest end
      else last_status key rest
  | _ :: rest => last_status key rest
  end.

Definition is_update (ev : event) : bool :=
  match ev with EvDb (QUpdate _ _) _ => true | _ => false end.

(** The history grew without a write to a trigger. *)
Definition read_on (h h' : list event) : Prop :=
  exists l, h' = l ++ h /\ existsb is_update l = false.

#[local] Instance read_on_preorder : PreOrder read_on.
Proof.
  split.
  - intros h. by exists [].
  - intros a b c (l & -> & Hl) (l' & -> & Hl'). exists (l' ++ l). rewrite app_assoc.
    by rewrite existsb_app, Hl, Hl'.
Qed.

#[local] Instance record_gentle : gentle reading_query read_on.
Proof.
  split; [apply _| |].
  - intros h q r Hq. split; [done|]. exists [EvDb q r]. split; [done|]. by destruct q.
  - intros h c r _. split; [done|]. by exists [EvCall c r].
Qed.

Lemma failures_cons ev h : failures (ev :: h) = (if ev_failure ev then 1 else 0) + failures h.
Proof. unfold failures. simpl. destruct (ev_failure ev); simpl length; lia. Qed.

Lemma read_on_failures h h' : read_on h h' -> failures h' = failures h.
Proof.
  intros (l & -> & Hl). induction l as [|ev l IH]; [done|]. simpl in *.
  apply orb_false_iff in Hl as [Hev Hl]. rewrite failures_cons, (IH Hl).
  by destruct ev as [[] r|c r].
Qed.

Lemma read_on_status key h h' : read_on h h' -> last_status key h' = last_status key h.
Proof.
  intros (l & -> & Hl). induction l as [|ev l IH]; [done|]. simpl in *.
  apply orb_false_iff in Hl as [Hev Hl]. rewrite (IH Hl). by destruct ev as [[] r|c r].
Qed.

Lemma read_on_elem h h' ev : read_on h h' -> ev ∈ h -> ev ∈ h'.
Proof. intros (l & -> & _) ?. apply elem_of_app. by right. Qed.

Lemma read_on_call h c r : read_on h (next_call h c r).
Proof. by exists [EvCall c r]. Qed.

(** ** Parts of an attempt that record no failure *)

Definition keeps_failures {A} (m : M A) : Prop :=
  forall h s, wp h (m s) (fun h' _ => failures h' = failures h).

Lemma kf_reading {A} (p : io A) : reading p -> keeps_failures (await p).
Proof.
  intros Hp h s. apply wp_await, wp_quiet; [done|]. intros h' r. by apply read_on_failures.
Qed.

Lemma kf_call c : keeps_failures (await (ext c)).
Proof. intros h s. apply wp_await_ext; [done|]. intros r. simpl. by rewrite failures_cons. Qed.

Lemma kf_update key u :
  up_error_type u = None -> keeps_failures (await (db_ (QUpdate key u))).
Proof.
  intros Hu h s. apply wp_await_db; [done|]. intros r. simpl. rewrite failures_cons. simpl.
  by rewrite Hu.
Qed.

Lemma kf_bind {A B} (m : M A) (f : A -> M B) :
  keeps_failures m -> (forall a, keeps_failures (f a)) -> keeps_failures (m ≫= f).
Proof.
  intros Hm Hf h s. apply wp_M_bind. eapply wp_mono; [|apply Hm].
  intros h' [[a|e] s'] E; [|done]. eapply wp_mono; [|apply Hf]. intros h2 ? E2. simpl in *. congruence.
Qed.

Lemma kf_rethrow {A} f (m : M A) : keeps_failures m -> keeps_failures (rethrow_as f m).
Proof.
  intros Hm h s. apply wp_rethrow. eapply wp_mono; [|apply Hm]. by intros h' [[a|e] s'].
Qed.

Lemma kf_ret {A} (a : A) : keeps_failures (mret a).
Proof. by intros h s. Qed.

Lemma kf_set s' : keeps_failures (set_locals s').
Proof. by intros h s. Qed.

Lemma kf_record_broadcast key hash : keeps_failures (record_broadcast key hash).
Proof.
  unfold record_broadcast. destruct (negb _); [by apply kf_reading|].
  apply kf_bind; [apply kf_set | intros _]. apply kf_bind; [apply kf_call | intros at_].
  by apply kf_update.
Qed.

Lemma kf_submit key ty tid : keeps_failures (submitTriggerAction key ty tid (record_broadcast key)).
Proof.
  assert (H : forall ec failure, keeps_failures (sdk_submit key ec failure (record_broadcast key))).
  { intros ec failure. unfold sdk_submit. apply kf_bind; [apply kf_call | intros _].
    apply kf_rethrow, kf_bind; [apply kf_call | intros hash].
    apply kf_bind; [apply kf_record_broadcast | intros _]. apply kf_bind; [apply kf_call|].
    intros [r|]; [apply kf_ret | by apply kf_reading]. }
  destruct ty; first [apply H | by apply kf_reading].
Qed.

Section Retry.
Context (getAddress : string -> option string) (cfg : config).

(** The response repeats a stored, already dispatched trigger. *)
Definition existing_response (h : list event) (key actionKey : string) (r : TriggerResponse)
    : Prop :=
  exists o, EvDb (QByKey key) (Ok (Some o)) ∈ h /\ dispatched o = true /\
    r = handleExistingTrigger o actionKey.

Lemma wp_prepare_outcome h trigger actionKey attempt :
  wp h (prepare_dispatch getAddress cfg trigger actionKey attempt) (fun h' r =>
    failures h' = failures h /\
    match r with
    | Ok (Some resp) => existing_response h' (tr_idempotency_key trigger) actionKey resp
    | _ => True
    end).
Proof.
  unfold prepare_dispatch.
  do 2 (apply wp_quiet_bind; [quiet_solve | intros ? ? ?%read_on_failures
    | intros ? ? ?%read_on_failures; split; [congruence | done]]).
  apply wp_io_bind. split; [done|]. intros r.
  match goal with |- context [next_query ?h0 ?q r] =>
    assert (F : failures (next_query h0 q r) = failures h0)
      by (simpl; rewrite failures_cons; done) end.
  destruct r as [[]|e]; [|split; [congruence | done]].
  revert F. match goal with |- context [failures (next_query ?h0 ?q ?r)] =>
    generalize (next_query h0 q r) end. intros h3 F.
  do 6 (apply wp_quiet_bind; [quiet_solve | intros ? ? ?%read_on_failures
    | intros ? ? ?%read_on_failures; split; [congruence | done]]).
  match goal with |- wp ?h0 _ _ => assert (Fh : failures h0 = failures h) by congruence;
    revert Fh; generalize h0 end.
  clear. intros h1 F1. apply wp_io_bind. split; [done|].
  intros claimed. assert (F2 : forall k sc (r : result thrown bool),
    failures (EvDb (QClaim k sc) r :: h1) = failures h) by (intros; by rewrite failures_cons).
  destruct claimed as [[|]|e]; [by split | | by split].
  apply wp_io_bind. split; [done|]. intros original. simpl.
  assert (F3 : forall c r, failures (EvDb (QByKey (tr_idempotency_key trigger)) r ::
    EvDb (QClaim (tr_idempotency_key trigger) c) (Ok false) :: h1) = failures h)
    by (intros; by rewrite failures_cons).
  destruct original as [[o|]|e]; simpl; try by split.
  destruct (bool_decide _) eqn:D; simpl; [|by split]. split; [done|].
  exists o. split_and!; [left | exact D | done].
Qed.

(** The response agrees with the last write to the trigger. *)
Definition stored_response (h : list event) (key : string) (r : TriggerResponse) : Prop :=
  last_status key h = Some (rs_status r).

Definition outcome_ok (h : list event) (key actionKey : string) (r : TriggerResponse) : Prop :=
  existing_response h key actionKey r \/
  (stored_response h key r /\ rs_status r ∈ [SUBMITTED; EXECUTING; TERMINAL_FAILURE]) \/
  (stored_response h key r /\ rs_status r = EXHAUSTED_NEEDS_REDRIVE /\
   failures h = maxAttempts cfg).

Lemma last_status_update key u st (r : result thrown unit) h :
  up_status u = Some st -> last_status key (EvDb (QUpdate key u) r :: h) = Some st.
Proof. intros Hu. simpl. by rewrite String.eqb_refl, Hu. Qed.

Lemma wp_attempt_outcome h trigger actionKey attempt s :
  wp h (attempt_body getAddress cfg trigger actionKey attempt s) (fun h' rs =>
    failures h' = failures h /\
    match rs.1 with
    | Ok r => outcome_ok h' (tr_idempotency_key trigger) actionKey r
    | Err _ => True
    end).
Proof.
  unfold attempt_body. apply wp_M_bind, wp_await. eapply wp_mono; [|apply wp_prepare_outcome].
  intros h1 [[r|]|e] [F1 HP]; [by split; [|left] | | done].
  apply wp_M_bind. cbn [set_locals wp]. apply wp_M_bind.
  eapply wp_mono; [|apply kf_submit]. intros h2 [[r|e] s'] F2; simpl in F2; [|split; [congruence|done]].
  apply wp_M_bind. eapply wp_mono; [|apply kf_call].
  intros h3 [[at_|e] s3] F3; simpl in F3; [|split; [simpl; congruence|done]].
  apply wp_M_bind, wp_await_db; [done|]. intros up.
  assert (F4 : forall u, up_error_type u = None ->
    failures (EvDb (QUpdate (tr_idempotency_key trigger) u) up :: h3) = failures h)
    by (intros u Hu; rewrite failures_cons; simpl; rewrite Hu; lia).
  destruct up as [[]|e]; (split; [by apply F4|]); [|done]. right. left.
  split; [by apply last_status_update | left].
Qed.

Lemma wp_unresolved_outcome h trigger actionKey hash :
  wp h (unresolved_outcome trigger actionKey hash) (fun h' r =>
    answered h' -> failures h' = failures h /\
    exists resp, r = Ok resp /\ outcome_ok h' (tr_idempotency_key trigger) actionKey resp).
Proof.
  unfold unresolved_outcome. apply wp_io_bind. split; [done|].
  set (status := if bool_decide (is_Some hash) then SUBMITTED else EXECUTING).
  intros [[]|e]; [|done].
  apply wp_io_bind. split; [done|].
  intros [started|e]; [|done].
  intros _. split; [simpl; by rewrite !failures_cons|]. eexists. split; [done|]. right. left.
  split; [by unfold stored_response; simpl; rewrite String.eqb_refl|].
  simpl. unfold status. case_bool_decide; [left | right; left].
Qed.

(** The loop from attempt [attempt] on, with a failure recorded for each one
    before it. *)
Lemma wp_retry_outcome fuel trigger actionKey attempt s h :
  fuel = Z.to_nat (maxAttempts cfg - attempt + 1) -> 1 <= attempt <= maxAttempts cfg ->
  failures h = attempt - 1 ->
  wp h (retry_loop getAddress cfg fuel trigger actionKey attempt s) (fun h' r =>
    answered h' -> failures h' <= maxAttempts cfg /\
    exists resp, r = Ok resp /\ outcome_ok h' (tr_idempotency_key trigger) actionKey resp).
Proof.
  revert attempt s h. induction fuel as [|fuel IH]; intros attempt s h Hf Ha Hh; [lia|].
  cbn [retry_loop]. apply wp_bind. eapply wp_mono; [|apply wp_attempt_outcome].
  intros h1 [[r|e] s'] [F1 HP]; simpl in F1, HP.
  { intros _. split; [lia|]. exists r. done. }
  destruct (dispatchClaimed s').
  { eapply wp_mono; [|apply wp_unresolved_outcome]. intros h2 r2 H2 HA.
    destruct (H2 HA) as [F2 ?]. split; [lia | done]. }
  set (oe := classifyError e). set (next := determineNextStatus oe attempt (maxAttempts cfg)).
  apply wp_io_bind. split; [done|].
  intros [[]|e2]; [|done].
  set (h2 := next_query h1 _ _).
  assert (F2 : failures h2 = attempt) by (unfold h2; simpl; rewrite failures_cons; simpl; lia).
  assert (S2 : last_status (tr_idempotency_key trigger) h2 = Some next)
    by (by apply last_status_update).
  assert (Hend : forall message, (next = TERMINAL_FAILURE \/
      (next = EXHAUSTED_NEEDS_REDRIVE /\ maxAttempts cfg <= attempt)) ->
    wp h2 (_ ← notifyTerminalStatus cfg actionKey next;
           mret (failure_response trigger actionKey next message) : io TriggerResponse)
      (fun h' r => answered h' -> failures h' <= maxAttempts cfg /\
         exists resp, r = Ok resp /\ outcome_ok h' (tr_idempotency_key trigger) actionKey resp)).
  { clearbody h2. intros message Hnext. apply wp_io_bind. unfold notifyTerminalStatus.
    assert (Hdone : forall h3, read_on h2 h3 -> failures h3 <= maxAttempts cfg /\
      exists resp, Ok (E := thrown) (failure_response trigger actionKey next message) = Ok resp /\
        outcome_ok h3 (tr_idempotency_key trigger) actionKey resp).
    { intros h3 Hr. assert (Hst := read_on_status (tr_idempotency_key trigger) _ _ Hr).
      apply read_on_failures in Hr. split; [lia|]. eexists. split; [done|].
      right. unfold stored_response. rewrite Hst, S2. simpl. destruct Hnext as [->|[-> ?]].
      - left. split; [done|]. right; right; left.
      - right. split_and!; [done | done | lia]. }
    destruct (notifierConfigured cfg); [|intros _; by apply Hdone].
    destruct (bool_decide _); (split; [done|]); intros [[]|e3]; try done; intros _;
      apply Hdone, read_on_call. }
  destruct next eqn:En; try by apply Hend; auto.
  all: try (apply Hend; right; split; [done|]; revert En; unfold next, determineNextStatus;
    destruct (oe_isTerminal oe); [done|]; destruct (Z.leb_spec (maxAttempts cfg) attempt); done).
  all: revert En; unfold next, determineNextStatus; destruct (oe_isTerminal oe) eqn:T; [done|];
    destruct (Z.leb_spec (maxAttempts cfg) attempt); try done; intros _.
  destruct (Z.ltb_spec attempt (maxAttempts cfg)); [|lia]. simpl.
  apply IH; lia.
Qed.
End Retry.

(** C34. every execution of a trigger that is permitted an attempt ends with an
    answer the trigger row agrees with.  Whatever the chain, the signer and the
    reconciliation database answer, an execution with [maxAttempts] at least one,
    whose own writes, clock readings and notifications go through, returns a response
    (it never throws and never runs out of attempts silently), of one of five kinds:
    the stored trigger when another execution had already dispatched it, else the
    status of the last write to the row, which is SUBMITTED, EXECUTING (dispatched,
    outcome unknown), TERMINAL_FAILURE, or EXHAUSTED_NEEDS_REDRIVE after exactly
    [maxAttempts] recorded failures.  No more failures than attempts are ever
    recorded.  With no attempt permitted, which the configuration allows, it does
    nothing and throws. *)
Theorem retry_always_answers (getAddress : string -> option string) (cfg : config)
    trigger actionKey h r :
  history (executeTriggerWithRetry getAddress cfg trigger actionKey) h (Ret r) ->
  (1 <= maxAttempts cfg -> answered h ->
   failures h <= maxAttempts cfg /\
   exists resp, r = Ok resp /\ outcome_ok cfg h (tr_idempotency_key trigger) actionKey resp) /\
  (maxAttempts cfg <= 0 -> h = [] /\ is_err r = true).
Proof.
  intros Hh. split.
  - intros Hm Ha. revert Ha. pattern h, r.
    eapply history_post; [|exact Hh]. apply wp_retry_outcome; [f_equal; lia | lia | done].
  - intros Hm. unfold executeTriggerWithRetry in Hh. replace (Z.to_nat (maxAttempts cfg)) with 0%nat in Hh by lia.
    pattern h, r. by eapply history_post; [|exact Hh].
Qed.
