(* ===== verification/OracleLive.v ===== *)
(** A finalized dispatch releases its signer: the evidence two witnesses agree
    on is accepted by the table, and the next trigger of the signer can then be
    claimed. *)
From stdpp Require Import base list strings.
From S2P Require Import Prelude JsText JsDate Finality ReconTypes FundedBinding OracleTypes.
From S2P Require Import OracleDb OracleEvidence OracleProg OracleDbInv.

Open Scope string_scope.
Open Scope Z_scope.

Lemma find_key_unique t r :
  NoDup (tr_idempotency_key <$> rows t) -> r ∈ rows t ->
  find_key (tr_idempotency_key r) t = Some r.
Proof.
  intros Hnd Hr. destruct (find_key (tr_idempotency_key r) t) as [r'|] eqn:F.
  - apply find_key_some in F as [Hr' Hk]. f_equal. by eapply key_unique.
  - by eapply find_key_none in F.
Qed.

Lemma update_where_ok t r cond f :
  NoDup (tr_idempotency_key <$> rows t) -> r ∈ rows t -> cond r = true ->
  update_error t r (f r) = None ->
  update_where (tr_idempotency_key r) cond f t = (Ok (Some (f r)), replace_row (f r) t).
Proof.
  intros Hnd Hr Hc He. unfold update_where. by rewrite (find_key_unique _ _ Hnd Hr), Hc, He.
Qed.

(** The evidence is fresh for ten seconds. *)
Lemma agreed_fresh ws scope hash now e now' :
  agreed ws scope hash now e -> time_in_range now = true -> now <= now' <= now + 10000 ->
  Forall (fun w => witness_id_shape (w_id w) = true) ws -> fresh_evidence now' now' e = true.
Proof.
  intros [_ Hh (w1 & w2 & -> & Hne & Hids) (Hp & _ & Htx & Hat) (Hb & Hs & Hpos & Hst) _] Ht Hn
    [H1 [H2 _]%Forall_cons]%Forall_cons.
  unfold fresh_evidence, new_date in *. rewrite Hp, Hat, Ht, Hs, Hb, Htx, Hh, Hids, H1, H2. simpl.
  apply String.eqb_neq in Hne. rewrite Hne. simpl.
  destruct (Z.ltb_spec now' now), (Z.ltb_spec 10000 (now' - now)), (Z.ltb_spec (ev_blockNumber e) 0);
    lia.
Qed.

Lemma agreed_shape ws scope hash now e r :
  agreed ws scope hash now e -> Forall (fun w => witness_id_shape (w_id w) = true) ws ->
  tr_dispatch_signer_scope r = Some scope -> tr_tx_hash r = Some hash ->
  evidence_shape r e = true.
Proof.
  intros [_ Hh (w1 & w2 & -> & Hne & Hids) (Hp & Hsc & Htx & Hat) (Hb & Hs & Hpos & Hst) _]
    [H1 [H2 _]%Forall_cons]%Forall_cons Hscope Hhash.
  unfold evidence_shape. rewrite Hp, Hsc, Htx, Hscope, Hhash, Hb, Hids, H1, H2.
  rewrite !bool_decide_eq_true_2 by done. apply String.eqb_neq in Hne. rewrite Hne. simpl.
  destruct (Z.leb_spec 0 (ev_blockNumber e)); [|lia]. destruct Hst as [-> | ->]; done.
Qed.

(** An index check passes when no other row collides. *)
Lemma index_error_intro others new :
  (active new = true -> forall o, o ∈ others -> active o = true ->
     tr_action_key o <> tr_action_key new) ->
  (dispatched new = true -> forall o, o ∈ others -> dispatched o = true ->
     tr_action_key o <> tr_action_key new) ->
  (unresolved new = true -> forall o, o ∈ others -> unresolved o = true -> ~ same_scope new o) ->
  index_error others new = None.
Proof.
  intros H1 H2 H3. unfold index_error. rewrite !guard_none. split_and!; [| | |done].
  - destruct (active new); [|done]. rewrite andb_true_l, existsb_false, Forall_forall.
    intros o Ho. destruct (active o) eqn:A; [|done]. apply String.eqb_neq. auto.
  - destruct (dispatched new); [|done]. rewrite andb_true_l, existsb_false, Forall_forall.
    intros o Ho. destruct (dispatched o) eqn:A; [|done]. apply String.eqb_neq. auto.
  - destruct (unresolved new); [|done]. rewrite andb_true_l, existsb_false, Forall_forall.
    intros o Ho. destruct (unresolved o) eqn:A; [|done].
    destruct (bool_decide (is_Some _)) eqn:B; [|done]. simpl.
    apply bool_decide_eq_false. intros E. apply bool_decide_eq_true in B.
    by apply (H3 eq_refl o Ho A).
Qed.

(** ** Storing the evidence *)

Definition resolve_row (e : OracleDispatchFinality) (now : Z) (r : Trigger) : Trigger :=
  with_dispatch (tr_status r) (tr_dispatch_started_at r) (tr_dispatch_signer_scope r) (Some e) now r.

Lemma resolve_accepted t u e now :
  table_ok t -> u ∈ rows t -> unresolved u = true -> varchar_error u = None ->
  (exists s, tr_dispatch_signer_scope u = Some s /\ signer_scope_shape s = true) ->
  evidence_shape u e = true -> update_error t u (resolve_row e now u) = None.
Proof.
  intros Hok Hu Hun Hv (s & Hs & Hss) He.
  assert (Hd := unresolved_dispatched _ Hun).
  unfold unresolved in Hun. rewrite Hd in Hun. apply bool_decide_eq_true in Hun.
  unfold update_error. change (varchar_error (resolve_row e now u)) with (varchar_error u).
  rewrite Hv. assert (Ht : update_trigger_error u (resolve_row e now u) = None).
  { unfold update_trigger_error. unfold dispatched in Hd.
    rewrite Hd, Hun. simpl. rewrite !(bool_decide_eq_true_2 (_ = _)) by done. simpl.
    rewrite ?andb_false_r. simpl. change (evidence_shape (resolve_row e now u) e) with (evidence_shape u e).
    by rewrite He. }
  rewrite Ht. simpl. rewrite Hs, Hss. simpl. apply index_error_intro.
  - intros Ha o [Ho Hk]%other_rows_elem. by apply (ok_active _ Hok u o).
  - intros _ o [Ho Hk]%other_rows_elem. by apply (ok_action _ Hok u o).
  - unfold unresolved. simpl. by rewrite andb_false_r.
Qed.

(** ** Claiming afterwards *)

Definition claim_row_of (scope : string) (now : Z) (r : Trigger) : Trigger :=
  with_dispatch EXECUTING (Some now) (Some scope) (tr_dispatch_finality_evidence r) now r.

(** A trigger that waits for its dispatch under a signer. *)
Record waiting (t : db) (scope : string) (r : Trigger) : Prop := {
  wt_row : r ∈ rows t;
  wt_sized : varchar_error r = None;
  wt_undispatched : dispatched r = false;
  wt_status : tr_status r ∈ [PENDING; EXECUTING; PENDING_APPROVAL];
  wt_chain : json_text (tr_funded_binding r) "chainId" = Some (split_part1 scope);
  wt_action : forall o, o ∈ rows t -> dispatched o = true -> tr_action_key o <> tr_action_key r
}.

Lemma claim_accepted t scope r now :
  table_ok t -> signer_scope_shape scope = true -> waiting t scope r ->
  (forall o, o ∈ rows t -> unresolved o = true -> in_scope scope o = false) ->
  claimTriggerDispatch (tr_idempotency_key r) scope now t
    = (Ok true, replace_row (claim_row_of scope now r) t).
Proof.
  intros Hok Hss [Hr Hv Hud Hst Hch Hact] Hfree.
  assert (Hev : tr_dispatch_finality_evidence r = None).
  { destruct (tr_dispatch_finality_evidence r) as [e|] eqn:E; [|done].
    apply (ok_evidence _ Hok) in E as [Hd _]; [|done]. congruence. }
  assert (Hb : is_Some (tr_funded_binding r)) by (destruct (tr_funded_binding r); [eauto | done]).
  assert (Ha : active r = true).
  { unfold active. repeat (apply elem_of_cons in Hst as [->|Hst]; [done|]). by apply elem_of_nil in Hst. }
  assert (Hc : dispatch_claimable t scope r = true).
  { unfold dispatch_claimable. rewrite Hud, !bool_decide_eq_true_2 by done. simpl.
    replace (existsb _ (rows t)) with false;
      [repeat (apply elem_of_cons in Hst as [->|Hst]; [done|]); by apply elem_of_nil in Hst|].
    symmetry. rewrite existsb_false, Forall_forall. intros o Ho.
    destruct (unresolved o) eqn:U; [|done]. simpl. auto. }
  unfold claimTriggerDispatch. rewrite Hss. simpl.
  rewrite (update_where_ok t r _ (claim_row_of scope now)); [done | apply Hok | done | done |].
  unfold update_error. change (varchar_error (claim_row_of scope now r)) with (varchar_error r).
  rewrite Hv. assert (Ht : update_trigger_error r (claim_row_of scope now r) = None).
  { unfold update_trigger_error. unfold dispatched in Hud. rewrite Hud. simpl. rewrite Hev.
    rewrite (bool_decide_eq_true_2 (tr_tx_hash r = tr_tx_hash r)) by done. rewrite andb_false_r.
    simpl. by rewrite bool_decide_eq_true_2 by (by rewrite Hch). }
  rewrite Ht. simpl. rewrite Hss. simpl. apply index_error_intro.
  - intros _ o [Ho Hk]%other_rows_elem Hao. by apply (ok_active _ Hok r o).
  - intros _ o [Ho Hk]%other_rows_elem Hdo. by apply Hact.
  - intros _ o [Ho Hk]%other_rows_elem Huo [[s Hs] Heq]. specialize (Hfree o Ho Huo).
    unfold in_scope in Hfree. rewrite Heq in Hfree. simpl in Hfree.
    by rewrite String.eqb_refl in Hfree.
Qed.

(** A row outside the resolved one is still waiting afterwards. *)
Lemma waiting_resolved t scope u e now r :
  table_ok t -> u ∈ rows t -> dispatched u = true -> waiting t scope r ->
  waiting (replace_row (resolve_row e now u) t) scope r.
Proof.
  intros Hok Hu Hd [Hr Hv Hud Hst Hch Hact].
  assert (Hk : tr_idempotency_key r <> tr_idempotency_key u).
  { intros Hk. assert (r = u) by (eapply key_unique; [apply Hok|..]; eauto). congruence. }
  split; try done.
  - apply replace_row_elem. by left.
  - intros o [[Ho _]|[-> _]]%replace_row_elem Hdo; [by apply Hact|].
    change (tr_action_key u <> tr_action_key r). by apply Hact.
Qed.

(** C35. A finalized dispatch releases its signer.  Suppose a signer is held by a
    dispatch with a recorded transaction, and two providers with distinct ids
    both report that transaction as the signer's own, mined at one height in one
    canonical block under their finalized head, with one receipt status, whether it
    succeeded or reverted.  Then the verification accepts it, its evidence is fresh
    for ten seconds, the table stores it on the dispatch, and any trigger waiting for
    this signer can be claimed next.  (Rows of before the signer scope was recorded
    block every signer, so none may be left unresolved; the verification and the
    store each read the clock once.) *)
Theorem finalized_dispatch_releases_signer (getAddress : string -> option string)
    (getAddress_hex : forall s a, getAddress s = Some a -> hex_word 40 a = true)
    (getAddress_accepts : forall a, lower_hex_word 40 a = true ->
       exists c, getAddress a = Some c /\ toLowerCase c = a)
    w1 w2 scope hash height blockHash status now now' t u r :
  Forall (reports scope hash height blockHash status) [w1; w2] -> status = 0 \/ status = 1 ->
  w_id w1 <> w_id w2 -> Forall (fun w => witness_id_shape (w_id w) = true) [w1; w2] ->
  signer_scope_shape scope = true -> lower_hex_word 64 hash = true ->
  time_in_range now = true -> now <= now' <= now + 10000 ->
  table_ok t -> u ∈ rows t -> unresolved u = true -> varchar_error u = None ->
  tr_dispatch_signer_scope u = Some scope -> tr_tx_hash u = Some hash ->
  (forall o, o ∈ rows t -> unresolved o = true -> is_Some (tr_dispatch_signer_scope o)) ->
  waiting t scope r ->
  exists e t1 t2,
    verifyOracleDispatchFinality getAddress [w1; w2] scope hash now = Ok e /\
    ev_receiptStatus e = status /\
    fresh_evidence now' now' e = true /\
    storeResolution (tr_idempotency_key u) e now' t = (Ok true, t1) /\
    claimTriggerDispatch (tr_idempotency_key r) scope now' t1 = (Ok true, t2).
Proof.
  intros [H1 [H2 _]%Forall_cons]%Forall_cons Hst Hne Hids Hss Hhash Hrange Hnow Hok Hu Hun Hv Hsc Htx
    Hleg Hw.
  destruct (verify_accepts getAddress w1 w2 scope hash height blockHash status now)
    as (e & Hver & Hes); try done. exists e.
  apply (verify_agreed _ getAddress_hex) in Hver as Hag.
  assert (Hshape : evidence_shape u e = true) by (by eapply agreed_shape).
  assert (Hres := resolve_accepted t u e now' Hok Hu Hun Hv (ex_intro _ scope (conj Hsc Hss)) Hshape).
  assert (Hd := unresolved_dispatched _ Hun).
  assert (Hstore : storeResolution (tr_idempotency_key u) e now' t
                   = (Ok true, replace_row (resolve_row e now' u) t)).
  { unfold storeResolution.
    destruct (ag_about _ _ _ _ _ Hag) as (_ & He1 & He2 & _).
    rewrite (update_where_ok t u _ (resolve_row e now')); [done | apply Hok | done | | done].
    rewrite Hsc, Htx, He1, He2, Hun, !bool_decide_eq_true_2 by done. done. }
  assert (Hok1 : table_ok (replace_row (resolve_row e now' u) t)).
  { eapply (change_ok (QStoreResolution (tr_idempotency_key u) e)); [exact Hok|].
    eapply (exec_change (QStoreResolution (tr_idempotency_key u) e) now'). exact Hstore. }
  eexists _, _. split; [exact Hver|]. split; [exact Hes|]. split; [by eapply agreed_fresh|].
  split; [exact Hstore|].
  apply claim_accepted; [done | done | by apply waiting_resolved |].
  intros o [[Ho Hk]|[-> _]]%replace_row_elem Huo.
  - unfold in_scope. destruct (Hleg o Ho Huo) as [s Hs]. rewrite Hs.
    apply String.eqb_neq. intros ->. apply (ok_signer _ Hok u o Hu Ho Hk Hun Huo).
    unfold same_scope. rewrite Hs, Hsc. eauto.
  - unfold unresolved in Huo. simpl in Huo. by rewrite andb_false_r in Huo.
Qed.
