(* ===== verification/OracleSamples.v ===== *)
(** Concrete runs of the oracle: a driver that executes a program against the
    trigger table and a fixed environment, the witnesses of the oracle's
    theorems, and two behaviours worth knowing about: an approval refused by a
    pause or a containment strands its action, and the key of a re-driven
    trigger does not name its request. *)
From stdpp Require Import base list strings.
From S2P Require Import Prelude JsText JsDate Finality ReconTypes FundedBinding OracleTypes.
From S2P Require Import OracleDb OracleEvidence OracleProg OracleExec OracleDbInv OracleWp.
From S2P Require Import OracleSafe OracleGuard OracleRetry OracleLive.

Open Scope string_scope.
Open Scope Z_scope.
Open Scope list_scope.

(** ** A driver *)

Definition environment : Type := forall c, result thrown (answer c).

Fixpoint drive {A} (env : environment) (now : Z) (p : prog A) (t : db) (h : list event)
    : A * db * list event :=
  match p with
  | Ret a => (a, t, h)
  | Db q k => let (r, t') := exec_query q now t in drive env now (k r) t' (EvDb q r :: h)
  | Ext c k => drive env now (k (env c)) t (EvCall c (env c) :: h)
  end.

Lemma drive_history {A} env now (p0 p : prog A) t h a t' h' :
  history p0 h p -> drive env now p t h = (a, t', h') -> history p0 h' (Ret a).
Proof.
  revert t h. induction p as [x|q k IH|c k IH]; simpl; intros t h Hh.
  - by intros [= <- <- <-].
  - destruct (exec_query q now t) as [r t1]. apply IH. by constructor.
  - apply IH. by constructor.
Qed.

Lemma drive_history_all {A} env now (p : prog A) t :
  let d := drive env now p t [] in history p d.2 (Ret d.1.1).
Proof.
  intros d. destruct d as [[a t'] h] eqn:E. eapply drive_history; [constructor | exact E].
Qed.

(** The broadcasts of a history. *)
Definition sends (h : list event) : list string :=
  mjoin ((fun ev => match ev with EvCall c _ => sent c | _ => [] end) <$> h).

Lemma drive_steps ga cfg env now (p : prog unit) t h a t' h' :
  drive env now p t h = (a, t', h') ->
  rtc (step ga cfg) {| sys_db := t; sys_log := sends h; sys_threads := [p] |}
    {| sys_db := t'; sys_log := sends h'; sys_threads := [Ret a] |}.
Proof.
  revert t h. induction p as [x|q k IH|c k IH]; simpl; intros t h.
  - intros [= <- <- <-]. reflexivity.
  - destruct (exec_query q now t) as [r t1] eqn:E. intros H.
    eapply rtc_l; [apply (step_query _ _ q k now r t t1 _ [] []); exact E | exact (IH _ _ _ H)].
  - intros H. eapply rtc_l; [apply (step_call _ _ c k (env c) t _ [] []) | exact (IH _ _ _ H)].
Qed.

(** A driven operation, as a reachable system. *)
Lemma drive_reachable ga cfg env now op t :
  let d := drive env now (program_of ga cfg op) t [] in
  reachable ga cfg t {| sys_db := d.1.2; sys_log := sends d.2; sys_threads := [Ret d.1.1] |}.
Proof.
  intros d. eapply rtc_l; [apply (step_start _ _ op)|].
  apply (drive_steps _ _ env now _ t []). by destruct d as [[a t'] h'] eqn:E.
Qed.

(** ** A sample deployment *)

Definition sample_cfg (manual : bool) : config :=
  {| maxAttempts := 3; manualApprovalEnabled := manual; notifierConfigured := true;
     containmentConfigured := true |}.

Definition sample_trade : Trade :=
  {| t_tradeId := "7"; t_buyer := sample_address "3"; t_supplier := sample_address "4";
     t_status := LOCKED; t_totalAmountLocked := 1000; t_logisticsAmount := 100;
     t_platformFeesAmount := 50; t_supplierFirstTranche := 340; t_supplierSecondTranche := 510;
     t_ricardianHash := String.append "0x" (repeat_char 64 "a"); t_createdAt := Some 1;
     t_arrivalTimestamp := None |}.

Definition sample_hash_e : string := String.append "0x" (repeat_char 64 "e").

Definition sample_scope : string := String.append "84532:" (sample_address "5").

(** The chain, the signer and the reconciliation database of the sample. *)
Definition sample_env (paused : bool) (contained : option (string * string)) : environment :=
  fun c =>
  match c return result thrown (answer c) with
  | SdkGetTrade _ => Ok sample_trade
  | IsTradePaused _ => Ok paused
  | VerifyFunding _ | AssertSigner _ | Notify _ _ => Ok tt
  | ReadContainment _ => Ok contained
  | GetDispatchSignerScope => Ok sample_scope
  | RandomId => Ok "aa"
  | VerifyDispatchFinality _ _ | VerifyOracleProgressionReceipt _ _ _ => Err (Raw "timeout" None)
  | FindConfirmationEvent _ _ _ => Ok None
  | Send _ _ => Ok sample_hash_e
  | WaitReceipt h => Ok (Some {| br_txHash := h; br_blockNumber := 20 |})
  | DateNow => Ok 1000
  end.

Definition clear_env : environment := sample_env false None.

Definition sample_request (id : string) (redrive : bool) : TriggerRequest :=
  {| rq_fundedBinding :=
       if redrive then None else Some (sample_binding PHASE_INITIAL "340" "150" "0");
     rq_tradeId := "7"; rq_requestId := id; rq_triggerType := RELEASE_STAGE_1;
     rq_requestHash := None; rq_isRedrive := redrive |}.

Definition empty_db : db := {| rows := []; next_id := 1 |}.

Lemma empty_table_ok : table_ok empty_db.
Proof. split; simpl; try constructor; intros; by match goal with H : _ ∈ [] |- _ =>
  apply elem_of_nil in H end. Qed.

Lemma empty_no_tx : forall r, r ∈ rows empty_db -> is_Some (tr_tx_hash r) -> dispatched r = true.
Proof. intros r Hr. inversion Hr. Qed.

Definition sample_run : unit * db * list event :=
  drive clear_env 5 (program_of lower_getAddress (sample_cfg false) (OpTrigger (sample_request "r1" false)))
    empty_db [].

Definition sample_key : string := "RELEASE_STAGE_1:7:r1".

(** The witness of broadcast safety: a request that broadcasts once. *)
Lemma one_broadcast_per_action_witness :
  exists s, reachable lower_getAddress (sample_cfg false) empty_db s /\ sys_log s = [sample_key] /\
    exists broadcasts : list Trigger, tr_idempotency_key <$> broadcasts = [sample_key] /\
      NoDup (tr_action_key <$> broadcasts).
Proof.
  assert (Hs := drive_reachable lower_getAddress (sample_cfg false) clear_env 5
    (OpTrigger (sample_request "r1" false)) empty_db). cbv zeta in Hs.
  eexists. split; [exact Hs|].
  match type of Hs with reachable _ _ _ ?s => assert (Hlog : sys_log s = [sample_key]) end.
  { vm_compute. reflexivity. }
  split; [exact Hlog|].
  destruct (one_broadcast_per_action lower_getAddress (sample_cfg false) empty_db _ empty_table_ok
    empty_no_tx Hs) as (b & Hb & _ & Hnd & _).
  exists b. split; [transitivity (sends sample_run.2); [exact Hb | exact Hlog] | exact Hnd].
Defined.

(** ** The guard *)

Definition sample_trigger : Trigger :=
  match rows sample_run.1.2 with r :: _ => r | [] => new_row
    {| ct_fundedBinding := sample_binding PHASE_INITIAL "340" "150" "0"; ct_actionKey := "";
       ct_requestId := ""; ct_idempotencyKey := ""; ct_tradeId := ""; ct_triggerType := FINALIZE_TRADE;
       ct_requestHash := None; ct_status := PENDING |} 0 0 end.

(** Splits a history at its newest broadcast. *)
Fixpoint split_send (h : list event) : option (list event * call * list event) :=
  match h with
  | [] => None
  | EvCall (Send k e) r :: rest => Some ([], Send k e, rest)
  | ev :: rest =>
      match split_send rest with Some (a, c, b) => Some (ev :: a, c, b) | None => None end
  end.

Lemma split_send_spec h after c before :
  split_send h = Some (after, c, before) ->
  exists k e a, c = Send k e /\ h = after ++ EvCall (Send k e) a :: before.
Proof.
  revert after. induction h as [|ev h IH]; simpl; intros after; [done|].
  assert (Hrec : match split_send h with Some (a, c, b) => Some (ev :: a, c, b) | None => None end
                 = Some (after, c, before) ->
    exists k e a, c = Send k e /\ ev :: h = after ++ EvCall (Send k e) a :: before).
  { destruct (split_send h) as [[[a' c'] b']|]; [|done]. intros [= <- <- <-].
    destruct (IH a' eq_refl) as (k & e & a & -> & ->). by exists k, e, a. }
  destruct ev as [q r|[] r]; try exact Hrec. intros [= <- <- <-]. by exists key, ec, r.
Qed.

Definition send_of (h : list event) : option (string * escrow_call) :=
  match split_send h with Some (_, Send k e, _) => Some (k, e) | _ => None end.

(** Every table the run goes through has its action keys. *)
Fixpoint drive_keyed {A} (env : environment) (now : Z) (p : prog A) (t : db) : bool :=
  match p with
  | Ret _ => true
  | Db q k =>
      forallb (fun r => String.eqb (tr_action_key r)
                          (generateActionKey (tr_trigger_type r) (tr_trade_id r))) (rows t)
      && let (r, t') := exec_query q now t in drive_keyed env now (k r) t'
  | Ext c k => drive_keyed env now (k (env c)) t
  end.

Lemma drive_honest {A} env now (p : prog A) t h :
  drive_keyed env now p t = true -> honest h -> honest (drive env now p t h).2.
Proof.
  revert t h. induction p as [x|q k IH|c k IH]; simpl; intros t h; [done | |].
  - destruct (exec_query q now t) as [r t'] eqn:E. intros [Hk Hr]%andb_true_iff Hh.
    apply IH; [done|]. intros ev [->|Hin]%elem_of_cons; [|by apply Hh]. simpl.
    destruct r as [a|e]; [|done]. exists now, t. rewrite E. split; [|done].
    apply Forall_forall. intros r Hin. apply list_elem_of_In in Hin.
    rewrite forallb_forall in Hk. by apply String.eqb_eq, Hk.
  - intros Hk Hh. apply IH; [done|]. intros ev [->|Hin]%elem_of_cons; [done|by apply Hh].
Qed.


(** ** The retry loop: an RPC that is down for every attempt *)

Definition down_env : environment := fun c =>
  match c return result thrown (answer c) with
  | SdkGetTrade _ => Err (Raw "connection refused" None)
  | c => clear_env c
  end.

Definition down_run :=
  drive down_env 6 (executeTriggerWithRetry lower_getAddress (sample_cfg false) sample_trigger
    "RELEASE_STAGE_1:7") sample_run.1.2 [].

Lemma retry_always_answers_witness :
  1 <= maxAttempts (sample_cfg false) /\ answered down_run.2 /\ failures down_run.2 <= 3 /\
  exists resp, down_run.1.1 = Ok resp /\ rs_status resp = EXHAUSTED_NEEDS_REDRIVE.
Proof.
  split; [done|]. assert (Ha : answered down_run.2) by (vm_compute; reflexivity).
  split; [exact Ha|].
  destruct (retry_always_answers lower_getAddress (sample_cfg false) sample_trigger
    "RELEASE_STAGE_1:7" down_run.2 down_run.1.1) as [Hone _].
  { exact (drive_history_all down_env 6 _ sample_run.1.2). }
  destruct (Hone ltac:(done) Ha) as [Hf (resp & Hr & _)].
  split; [exact Hf|]. exists resp. split; [exact Hr|].
  assert (Hs : match down_run.1.1 with Ok x => rs_status x | Err _ => PENDING end
               = EXHAUSTED_NEEDS_REDRIVE) by (vm_compute; reflexivity).
  rewrite Hr in Hs. exact Hs.
Defined.

(** ** The signer is released *)

Lemma drive_table_ok {A} env now (p : prog A) t h :
  table_ok t -> table_ok (drive env now p t h).1.2.
Proof.
  revert t h. induction p as [x|q k IH|c k IH]; simpl; intros t h Hok; [done | | by apply IH].
  destruct (exec_query q now t) as [r t'] eqn:E. apply IH.
  by eapply change_ok, exec_change.
Qed.

(** Another trade's trigger, waiting behind the dispatch of the sample run. *)
Definition waiting_data : CreateTriggerData :=
  {| ct_fundedBinding :=
       (let b := sample_binding PHASE_INITIAL "340" "150" "0" in
        {| b_scopeVersion := b_scopeVersion b; b_ownerServiceId := b_ownerServiceId b;
           b_sourceOperationId := "op-2"; b_phase := b_phase b; b_chainId := b_chainId b;
           b_escrowAddress := b_escrowAddress b; b_tokenAddress := b_tokenAddress b;
           b_tradeId := "8"; b_buyerAddress := b_buyerAddress b;
           b_supplierAddress := b_supplierAddress b; b_ricardianHash := b_ricardianHash b;
           b_totalAmount := b_totalAmount b; b_logisticsAmount := b_logisticsAmount b;
           b_platformFeesAmount := b_platformFeesAmount b;
           b_supplierFirstTranche := b_supplierFirstTranche b;
           b_supplierSecondTranche := b_supplierSecondTranche b;
           b_supplierPayoutAmount := b_supplierPayoutAmount b;
           b_treasuryAccrualAmount := b_treasuryAccrualAmount b;
           b_buyerRefundAmount := b_buyerRefundAmount b;
           b_fundingTransactionHash := b_fundingTransactionHash b;
           b_fundingBlockNumber := b_fundingBlockNumber b;
           b_fundingBlockHash := b_fundingBlockHash b;
           b_originalFundingFingerprint := b_originalFundingFingerprint b |});
     ct_actionKey := "RELEASE_STAGE_1:8"; ct_requestId := "r2";
     ct_idempotencyKey := "RELEASE_STAGE_1:8:r2"; ct_tradeId := "8";
     ct_triggerType := RELEASE_STAGE_1; ct_requestHash := None; ct_status := PENDING |}.

Definition waiting_db : db := (exec_query (QInsert waiting_data) 6 sample_run.1.2).2.

Definition nth_row (i : nat) : Trigger := nth i (rows waiting_db) sample_trigger.

(** A provider that has the sample transaction, reverted, in a finalized block. *)
Definition sample_witness (id : ascii) : Witness :=
  {| w_id := repeat_char 64 id;
     w_answers :=
       {| wa_network := Some 84532;
          wa_receipt := Some (Some {| dr_hash := sample_hash_e; dr_from := sample_address "5";
             dr_status := Some 0; dr_blockNumber := 20; dr_blockHash := sample_hash_e |});
          wa_finalized := Some (Some {| db_number := 25; db_hash := None |});
          wa_block := fun n => Some (Some {| db_number := n; db_hash := Some sample_hash_e |}) |} |}.

Lemma sample_witness_reports id : reports sample_scope sample_hash_e 20 sample_hash_e 0 (sample_witness id).
Proof.
  split.
  - exists 84532. split; vm_compute; reflexivity.
  - eexists. split; [reflexivity|]. split_and!; vm_compute; reflexivity.
  - vm_compute. split; discriminate.
  - eexists. split; [reflexivity|]. vm_compute. discriminate.
  - eexists. split; [reflexivity|]. split; vm_compute; reflexivity.
Qed.

Lemma lower_getAddress_accepts a : lower_hex_word 40 a = true ->
  exists c, lower_getAddress a = Some c /\ toLowerCase c = a.
Proof.
  intros Ha. exists (toLowerCase a). unfold lower_getAddress.
  rewrite (lower_hex_word_hex _ _ Ha), toLowerCase_idem. split; [done|]. by eapply lower_hex_lower.
Qed.

Lemma lower_getAddress_hex s a : lower_getAddress s = Some a -> hex_word 40 a = true.
Proof.
  unfold lower_getAddress. destruct (hex_word 40 s) eqn:E; [|done]. intros [= <-].
  by apply lower_hex_word_hex, hex_word_lower.
Qed.

Lemma waiting_db_ok : table_ok waiting_db.
Proof.
  eapply change_ok; [|eapply exec_change, surjective_pairing].
  exact (drive_table_ok _ _ _ _ [] empty_table_ok).
Qed.

Lemma finalized_dispatch_releases_signer_witness :
  unresolved (nth_row 0) = true /\
  exists e t1 t2,
    verifyOracleDispatchFinality lower_getAddress [sample_witness "a"; sample_witness "b"]
      sample_scope sample_hash_e 1000 = Ok e /\
    ev_receiptStatus e = 0 /\ fresh_evidence 2000 2000 e = true /\
    storeResolution sample_key e 2000 waiting_db = (Ok true, t1) /\
    claimTriggerDispatch "RELEASE_STAGE_1:8:r2" sample_scope 2000 t1 = (Ok true, t2).
Proof.
  assert (Hrows : rows waiting_db = [nth_row 0; nth_row 1]) by (vm_compute; reflexivity).
  assert (Hu : unresolved (nth_row 0) = true) by (vm_compute; reflexivity).
  split; [exact Hu|].
  apply (finalized_dispatch_releases_signer lower_getAddress lower_getAddress_hex
    lower_getAddress_accepts (sample_witness "a") (sample_witness "b") sample_scope sample_hash_e 20
    sample_hash_e 0 1000 2000 waiting_db (nth_row 0) (nth_row 1)).
  - apply Forall_cons_2; [|apply Forall_singleton]; apply sample_witness_reports.
  - left. reflexivity.
  - discriminate.
  - repeat constructor.
  - vm_compute. reflexivity.
  - vm_compute. reflexivity.
  - reflexivity.
  - lia.
  - exact waiting_db_ok.
  - rewrite Hrows. left.
  - exact Hu.
  - vm_compute. reflexivity.
  - vm_compute. reflexivity.
  - vm_compute. reflexivity.
  - rewrite Hrows. intros o Ho.
    apply elem_of_cons in Ho as [-> | ->%list_elem_of_singleton]; vm_compute; [eauto | discriminate].
  - split.
    + rewrite Hrows. right. left.
    + vm_compute. reflexivity.
    + vm_compute. reflexivity.
    + left.
    + vm_compute. reflexivity.
    + rewrite Hrows. intros o Ho.
      apply elem_of_cons in Ho as [-> | ->%list_elem_of_singleton]; vm_compute; discriminate.
Defined.

(** ** A refused approval strands its action *)

Section Stranded.
Let cfg := sample_cfg true.
Let contained := sample_env false (Some ("RECON-1", "CONTAINED")).

(** A trigger awaiting approval. *)
Definition awaiting_run :=
  drive clear_env 5 (executeTrigger lower_getAddress cfg (sample_request "r1" false)) empty_db [].

(** It is approved while reconciliation holds the trade. *)
Definition refused_run :=
  drive contained 6 (resumeAfterApproval lower_getAddress cfg sample_key "ops") awaiting_run.1.2 [].

(** After the release of the containment, every way to ask again: a re-drive, a
    new request, the same request, another approval. *)
Definition ask_again (p : io TriggerResponse) : result thrown TriggerResponse * db * list event :=
  drive clear_env 7 p refused_run.1.2 [].

Definition status_of {A} (d : A * db * list event) : list TriggerStatus :=
  tr_status <$> rows d.1.2.

(** An approval that the pause or the containment check refuses leaves the
    trigger PENDING for good: no later request, re-drive or approval executes
    it, although the containment error is declared retryable. *)
Example approval_refused_strands :
  is_err refused_run.1.1 = true /\ status_of refused_run = [PENDING] /\
  forallb (fun p => bool_decide (status_of (ask_again p) = [PENDING])
                    && negb (existsb is_send (ask_again p).2))
    [executeTrigger lower_getAddress cfg (sample_request "r9" true);
     executeTrigger lower_getAddress cfg (sample_request "r2" false);
     executeTrigger lower_getAddress cfg (sample_request "r1" false);
     resumeAfterApproval lower_getAddress cfg sample_key "ops"] = true.
Proof. vm_compute. auto. Qed.
End Stranded.

(** ** Re-driven triggers *)

(** Runs a program in the clear environment with the given random draws. *)
Fixpoint answer_draws {A} (draws : list string) (p : prog A) (t : db) : db :=
  match p with
  | Ret _ => t
  | Db q k => let (r, t') := exec_query q 8 t in answer_draws draws (k r) t'
  | Ext RandomId k =>
      match draws with
      | d :: rest => answer_draws rest (k (Ok d)) t
      | [] => answer_draws [] (k (Ok "")) t
      end
  | Ext c k => answer_draws draws (k (clear_env c)) t
  end.

(** The idempotency key of a re-driven trigger does not name its request id. *)
Example redrive_key_names_another_request :
  let undispatched := with_dispatch EXHAUSTED_NEEDS_REDRIVE None None None 9
    (new_row {| ct_fundedBinding := sample_binding PHASE_INITIAL "340" "150" "0";
       ct_actionKey := "RELEASE_STAGE_1:7"; ct_requestId := "r1"; ct_idempotencyKey := sample_key;
       ct_tradeId := "7"; ct_triggerType := RELEASE_STAGE_1; ct_requestHash := None;
       ct_status := PENDING |} 1 5) in
  let t := answer_draws ["first"; "second"]
    (executeTrigger lower_getAddress (sample_cfg false) (sample_request "r9" true))
    {| rows := [undispatched]; next_id := 2 |} in
  (fun r => (tr_request_id r, tr_idempotency_key r)) <$> rows t
    = [("r1", sample_key); ("first", "RELEASE_STAGE_1:7:second")].
Proof. vm_compute. reflexivity. Qed.
