(* ===== verification/Containment.v ===== *)
(** Scoped containment of trades: reconciliation/src/database/containments.ts,
    database/alertOutbox.ts, core/containment.ts (references and evidence),
    core/runControls.ts ([resolveContainmentDecisions], [applyContainment] and
    the alert half of [publishRunOutcome]), core/governedApproval.ts,
    blockchain/escrowGovernance.ts and containment-cli.ts.

    A statement is a function on the containment tables; a transaction that
    throws leaves them unchanged, so it is a function into [result].  [NOW()] is
    the argument [now].  The approval columns of a row are written and cleared
    together, so they are one optional value; likewise the two columns of the
    pause observation. *)
From stdpp Require Import base list strings gmap.
From S2P Require Import Prelude JsText JsDate JsMap ReconTypes ReconCoverage ReconClassifier.

Open Scope string_scope.
Open Scope Z_scope.

(** ** Rows *)

Inductive ContainmentState := CONTAINED | RECONCILED_PENDING_APPROVAL | RELEASED.

#[export] Instance ContainmentState_eq_dec : EqDecision ContainmentState.
Proof. solve_decision. Defined.

Record GovernedUnpauseEvidence := {
  ge_txHash : string;
  ge_chainId : Z;
  ge_contractAddress : string;
  ge_tradeId : string;
  ge_blockNumber : Z;
  ge_blockHash : string;
  ge_logIndex : Z;
  ge_incidentRef : string;
  ge_approvers : list string;
  ge_approvalCount : Z;
  ge_requiredApprovals : Z;
  ge_executedAt : js_date
}.

(** [buildContainmentEvidence]: the findings as they stood. *)
Record ContainmentEvidence := {
  be_runKey : string;
  be_boundaryBlock : Z;
  be_boundaryBlockHash : string;
  be_findings : list DriftFinding
}.

Record TradeContainmentRow := {
  tc_id : Z;
  tc_trade_id : string;
  tc_incident_reference : string;
  tc_state : ContainmentState;
  tc_opened_run_key : string;
  tc_opened_at : Z;
  tc_qualifying_codes : list string;
  tc_evidence : ContainmentEvidence;
  tc_observation_count : Z;
  tc_last_observed_run_key : option string;
  tc_last_observed_at : option Z;
  tc_pause_observed : option (Z * Z);
  tc_pause_last_checked_at : option Z;
  tc_cleared : option (string * Z);
  tc_approval : option GovernedUnpauseEvidence;
  tc_released_at : option Z;
  tc_updated_at : Z
}.

(** [reconcile_spent_unpause_approvals]; [tx_hash] is its primary key. *)
Record SpentApproval := {
  sp_tx_hash : string;
  sp_trade_id : string;
  sp_incident_reference : string;
  sp_chain_id : Z;
  sp_block_number : Z;
  sp_log_index : Z;
  sp_spent_at : Z
}.

(** [RunAlertPayload] *)
Inductive RunAlertPayload :=
| CRITICAL_DRIFT (runKey : string) (finding : DriftFinding)
| COVERAGE_BACKLOG (runKey reason : string) (uncoveredTail chainTradeCounter boundaryBlock : Z)
| TRADE_CONTAINED (runKey tradeId incidentReference : string) (state : ContainmentState)
    (qualifyingCodes : list DriftCode) (openedRunKey : string) (openedAt observationCount : Z)
| TRADE_PAUSE_UNCONFIRMED (runKey tradeId incidentReference : string) (observedAtBlock : Z)
    (readError : option string).

Record AlertRow := {
  al_id : Z;
  al_run_id : Z;
  al_run_key : string;
  al_alert : RunAlertPayload;
  al_dispatched_at : option Z;
  al_dispatch_attempts : Z;
  al_last_error : option string
}.

Record containment_db := {
  containments : gmap string TradeContainmentRow;
  spent_approvals : list SpentApproval;
  alert_outbox : list AlertRow;
  next_containment_id : Z;
  next_alert_id : Z
}.

Definition empty_containment_db : containment_db :=
  {| containments := ∅; spent_approvals := []; alert_outbox := [];
     next_containment_id := 1; next_alert_id := 1 |}.

Definition with_containments (c : gmap string TradeContainmentRow) (d : containment_db)
    : containment_db :=
  {| containments := c; spent_approvals := spent_approvals d; alert_outbox := alert_outbox d;
     next_containment_id := next_containment_id d; next_alert_id := next_alert_id d |}.

(** ** Errors *)

(** Why [evaluateGovernedUnpause] refuses a transaction, in the order it checks. *)
Inductive refusal :=
| NoReceipt | Reverted | NotFinal | NoUnpauseOfTrade | NotTradeScope | OtherTrade | NotExecuted
| OtherIncident | NoApprovalLog | NoRequiredApprovals | QuorumNotReached | PredatesIncident.

Inductive containment_error :=
| GovernedApprovalError (why : refusal)
| InvalidTxHash (raw : string)
| WrongChain (chainId : Z)
| BlockUnreadable
| ReplayedApprovalError (txHash : string)
| NoContainment
| NotPending (state : ContainmentState)
| NeverPaused
| StateChanged
| Database (message : string).

(** ** database/containments.ts *)

(** [DriftCode] is a string in the service. *)
Definition driftCodeText (c : DriftCode) : string :=
  match c with
  | ONCHAIN_READ_ERROR => "ONCHAIN_READ_ERROR"
  | ONCHAIN_TRADE_MISSING => "ONCHAIN_TRADE_MISSING"
  | STATUS_MISMATCH => "STATUS_MISMATCH"
  | PARTICIPANT_MISMATCH => "PARTICIPANT_MISMATCH"
  | AMOUNT_MISMATCH => "AMOUNT_MISMATCH"
  | FEE_COMPONENT_MISMATCH => "FEE_COMPONENT_MISMATCH"
  | HASH_MISMATCH => "HASH_MISMATCH"
  | ARRIVAL_TIMESTAMP_MISMATCH => "ARRIVAL_TIMESTAMP_MISMATCH"
  | INDEXED_INVALID_ADDRESS => "INDEXED_INVALID_ADDRESS"
  | ONCHAIN_INVALID_ADDRESS => "ONCHAIN_INVALID_ADDRESS"
  | INDEXER_TRADE_MISSING => "INDEXER_TRADE_MISSING"
  | INDEXER_DUPLICATE_TRADE => "INDEXER_DUPLICATE_TRADE"
  | INDEXER_SURPLUS_RECORDS => "INDEXER_SURPLUS_RECORDS"
  end.

(** [SELECT DISTINCT unnest(..) ORDER BY 1] *)
Definition sorted_distinct (codes : list string) : list string :=
  js_sort String.leb (remove_dups codes).

Record OpenInput := {
  oi_tradeId : string;
  oi_incidentReference : string;
  oi_runKey : string;
  oi_qualifyingCodes : list DriftCode;
  oi_evidence : ContainmentEvidence
}.

Definition opened_row (i : OpenInput) (id now : Z) : TradeContainmentRow :=
  {| tc_id := id; tc_trade_id := oi_tradeId i; tc_incident_reference := oi_incidentReference i;
     tc_state := CONTAINED; tc_opened_run_key := oi_runKey i; tc_opened_at := now;
     tc_qualifying_codes := driftCodeText <$> oi_qualifyingCodes i; tc_evidence := oi_evidence i;
     tc_observation_count := 1; tc_last_observed_run_key := Some (oi_runKey i);
     tc_last_observed_at := Some now; tc_pause_observed := None;
     tc_pause_last_checked_at := None; tc_cleared := None; tc_approval := None;
     tc_released_at := None; tc_updated_at := now |}.

(** The [ON CONFLICT (trade_id) DO UPDATE] of a standing containment. *)
Definition reopened_row (i : OpenInput) (now : Z) (r : TradeContainmentRow)
    : TradeContainmentRow :=
  {| tc_id := tc_id r; tc_trade_id := tc_trade_id r;
     tc_incident_reference := tc_incident_reference r; tc_state := CONTAINED;
     tc_opened_run_key := tc_opened_run_key r; tc_opened_at := tc_opened_at r;
     tc_qualifying_codes :=
       sorted_distinct (tc_qualifying_codes r ++ (driftCodeText <$> oi_qualifyingCodes i))%list;
     tc_evidence := oi_evidence i; tc_observation_count := tc_observation_count r + 1;
     tc_last_observed_run_key := Some (oi_runKey i); tc_last_observed_at := Some now;
     tc_pause_observed := None; tc_pause_last_checked_at := tc_pause_last_checked_at r;
     tc_cleared := None; tc_approval := None; tc_released_at := None; tc_updated_at := now |}.

(** A fresh row must fit its columns and have a reference of its own. *)
Definition openContainment (i : OpenInput) (now : Z) (d : containment_db)
    : result containment_error (containment_db * TradeContainmentRow) :=
  let id := next_containment_id d in
  let stored r :=
    Ok ({| containments := <[oi_tradeId i := r]> (containments d);
           spent_approvals := spent_approvals d; alert_outbox := alert_outbox d;
           next_containment_id := id + 1; next_alert_id := next_alert_id d |}, r) in
  if (255 <? String.length (oi_tradeId i))%nat || (64 <? String.length (oi_incidentReference i))%nat
     || (255 <? String.length (oi_runKey i))%nat
  then Err (Database "value too long for type character varying")
  else
    match containments d !! oi_tradeId i with
    | Some r => stored (reopened_row i now r)
    | None =>
        if bool_decide (map_Exists (fun _ r => tc_incident_reference r = oi_incidentReference i)
                          (containments d))
        then Err (Database "duplicate key value violates unique constraint")
        else stored (opened_row i id now)
    end.

(** One guarded UPDATE of a trade's row. *)
Definition update_containment (tradeId : string) (guard : TradeContainmentRow -> bool)
    (f : TradeContainmentRow -> TradeContainmentRow) (d : containment_db) : containment_db :=
  match containments d !! tradeId with
  | Some r => if guard r then with_containments (<[tradeId := f r]> (containments d)) d else d
  | None => d
  end.

Definition cleared_row (runKey : string) (now : Z) (r : TradeContainmentRow)
    : TradeContainmentRow :=
  {| tc_id := tc_id r; tc_trade_id := tc_trade_id r;
     tc_incident_reference := tc_incident_reference r;
     tc_state := RECONCILED_PENDING_APPROVAL; tc_opened_run_key := tc_opened_run_key r;
     tc_opened_at := tc_opened_at r; tc_qualifying_codes := tc_qualifying_codes r;
     tc_evidence := tc_evidence r; tc_observation_count := tc_observation_count r;
     tc_last_observed_run_key := Some runKey; tc_last_observed_at := Some now;
     tc_pause_observed := tc_pause_observed r;
     tc_pause_last_checked_at := tc_pause_last_checked_at r; tc_cleared := Some (runKey, now);
     tc_approval := tc_approval r; tc_released_at := tc_released_at r; tc_updated_at := now |}.

Definition recordCleanReconciliation (tradeId runKey : string) (now : Z)
    : containment_db -> containment_db :=
  update_containment tradeId
    (fun r => bool_decide (tc_state r = CONTAINED)
              && negb (String.eqb (tc_opened_run_key r) runKey))
    (cleared_row runKey now).

Record TradePauseObservation := {
  po_tradeId : string;
  po_paused : bool;
  po_blockNumber : Z;
  po_readError : option string
}.

Definition observed_row (o : TradePauseObservation) (now : Z) (r : TradeContainmentRow)
    : TradeContainmentRow :=
  {| tc_id := tc_id r; tc_trade_id := tc_trade_id r;
     tc_incident_reference := tc_incident_reference r; tc_state := tc_state r;
     tc_opened_run_key := tc_opened_run_key r; tc_opened_at := tc_opened_at r;
     tc_qualifying_codes := tc_qualifying_codes r; tc_evidence := tc_evidence r;
     tc_observation_count := tc_observation_count r;
     tc_last_observed_run_key := tc_last_observed_run_key r;
     tc_last_observed_at := tc_last_observed_at r;
     tc_pause_observed := if po_paused o then Some (now, po_blockNumber o) else tc_pause_observed r;
     tc_pause_last_checked_at := Some now; tc_cleared := tc_cleared r;
     tc_approval := tc_approval r; tc_released_at := tc_released_at r; tc_updated_at := now |}.

Definition blocking (r : TradeContainmentRow) : bool := negb (bool_decide (tc_state r = RELEASED)).

Definition recordPauseObservation (o : TradePauseObservation) (now : Z)
    : containment_db -> containment_db :=
  update_containment (po_tradeId o) blocking (observed_row o now).

Definition released_row (e : GovernedUnpauseEvidence) (now : Z) (r : TradeContainmentRow)
    : TradeContainmentRow :=
  {| tc_id := tc_id r; tc_trade_id := tc_trade_id r;
     tc_incident_reference := tc_incident_reference r; tc_state := RELEASED;
     tc_opened_run_key := tc_opened_run_key r; tc_opened_at := tc_opened_at r;
     tc_qualifying_codes := tc_qualifying_codes r; tc_evidence := tc_evidence r;
     tc_observation_count := tc_observation_count r;
     tc_last_observed_run_key := tc_last_observed_run_key r;
     tc_last_observed_at := tc_last_observed_at r; tc_pause_observed := tc_pause_observed r;
     tc_pause_last_checked_at := tc_pause_last_checked_at r; tc_cleared := tc_cleared r;
     tc_approval := Some e; tc_released_at := Some now; tc_updated_at := now |}.

(** The [releasable] part of the statement reads the snapshot the statement
    started from. *)
Definition releasable (tradeId : string) (snapshot : containment_db) : option string :=
  match containments snapshot !! tradeId with
  | Some r => if bool_decide (tc_state r = RECONCILED_PENDING_APPROVAL)
                 && bool_decide (is_Some (tc_pause_observed r))
              then Some (tc_incident_reference r) else None
  | None => None
  end.

(** The statement of [releaseContainment].  Its UPDATE selects the row by
    [trade_id] alone and waits for a concurrent writer of that row, whose
    committed version it then overwrites: [snapshot] is what the guard saw, [d]
    what is updated.  A released row must have been seen paused. *)
Definition releaseContainment (tradeId : string) (e : GovernedUnpauseEvidence) (now : Z)
    (snapshot d : containment_db)
    : result containment_error (containment_db * option TradeContainmentRow) :=
  match ge_executedAt e with
  | None => Err (Database "invalid input syntax for type timestamp")
  | Some _ =>
      match releasable tradeId snapshot with
      | None => Ok (d, None)
      | Some incident =>
          if existsb (fun s => String.eqb (sp_tx_hash s) (ge_txHash e)) (spent_approvals d)
          then Err (ReplayedApprovalError (ge_txHash e))
          else
            match containments d !! tradeId with
            | None => Ok (d, None)
            | Some r =>
                if bool_decide (tc_pause_observed r = None)
                then Err (Database "violates check constraint ck_reconcile_trade_containments_release_evidence")
                else
                  Ok ({| containments := <[tradeId := released_row e now r]> (containments d);
                         spent_approvals := (spent_approvals d ++
                           [{| sp_tx_hash := ge_txHash e; sp_trade_id := tradeId;
                               sp_incident_reference := incident; sp_chain_id := ge_chainId e;
                               sp_block_number := ge_blockNumber e;
                               sp_log_index := ge_logIndex e; sp_spent_at := now |}])%list;
                         alert_outbox := alert_outbox d;
                         next_containment_id := next_containment_id d;
                         next_alert_id := next_alert_id d |}, Some (released_row e now r))
            end
      end
  end.

Definition getContainment (tradeId : string) (d : containment_db) : option TradeContainmentRow :=
  containments d !! tradeId.

Definition isTradeContained (tradeId : string) (d : containment_db) : option TradeContainmentRow :=
  match containments d !! tradeId with
  | Some r => if blocking r then Some r else None
  | None => None
  end.

(** [ORDER BY opened_at ASC]; rows opened at one instant in any order. *)
Definition listBlockingContainments (d : containment_db) : list TradeContainmentRow :=
  js_sort (fun a b => tc_opened_at a <=? tc_opened_at b)
    (List.filter blocking (map snd (map_to_list (containments d)))).

(** ** database/alertOutbox.ts *)

Definition enqueueRunAlert (runId : Z) (runKey : string) (a : RunAlertPayload)
    (d : containment_db) : containment_db :=
  {| containments := containments d; spent_approvals := spent_approvals d;
     alert_outbox := (alert_outbox d ++
       [{| al_id := next_alert_id d; al_run_id := runId; al_run_key := runKey; al_alert := a;
           al_dispatched_at := None; al_dispatch_attempts := 0; al_last_error := None |}])%list;
     next_containment_id := next_containment_id d; next_alert_id := next_alert_id d + 1 |}.

Definition with_outbox (o : list AlertRow) (d : containment_db) : containment_db :=
  {| containments := containments d; spent_approvals := spent_approvals d; alert_outbox := o;
     next_containment_id := next_containment_id d; next_alert_id := next_alert_id d |}.

Definition pending_alert (r : AlertRow) : bool := bool_decide (al_dispatched_at r = None).

Definition readPendingRunAlerts (limit : nat) (d : containment_db) : list AlertRow :=
  take limit (List.filter pending_alert (alert_outbox d)).

Definition update_alert (id : Z) (f : AlertRow -> AlertRow) (d : containment_db)
    : containment_db :=
  with_outbox (map (fun r => if (al_id r =? id) && pending_alert r then f r else r)
                 (alert_outbox d)) d.

Definition markRunAlertDispatched (id now : Z) : containment_db -> containment_db :=
  update_alert id (fun r =>
    {| al_id := al_id r; al_run_id := al_run_id r; al_run_key := al_run_key r;
       al_alert := al_alert r; al_dispatched_at := Some now;
       al_dispatch_attempts := al_dispatch_attempts r + 1; al_last_error := None |}).

Definition recordRunAlertFailure (id : Z) (error : string) : containment_db -> containment_db :=
  update_alert id (fun r =>
    {| al_id := al_id r; al_run_id := al_run_id r; al_run_key := al_run_key r;
       al_alert := al_alert r; al_dispatched_at := al_dispatched_at r;
       al_dispatch_attempts := al_dispatch_attempts r + 1; al_last_error := Some error |}).

(** ** core/alertDispatch.ts *)

Definition DISPATCH_BATCH : nat := 200.

(** One pass: [deliver] hands an alert to the notification outbox and answers
    the error it threw, if any. *)
Definition dispatchPendingAlerts (deliver : AlertRow -> option string) (now : Z)
    (limit : nat) (d : containment_db) : containment_db * Z :=
  foldl (fun '(d, recorded) row =>
           match deliver row with
           | None => (markRunAlertDispatched (al_id row) now d, recorded + 1)
           | Some message => (recordRunAlertFailure (al_id row) message d, recorded)
           end) (d, 0) (readPendingRunAlerts limit d).

(** ** core/containment.ts: references and evidence *)

(** [randomBytes(4).toString('hex')] is [draw]. *)
Definition generateIncidentReference (now : Z) (draw : string) : string :=
  let c := civil_from_days (now / MS_PER_DAY) in
  "RECON-" ++ print_Z (c_year c) ++ padded 2 (c_month c) ++ padded 2 (c_day c) ++ "-"
    ++ toUpperCase draw.

Definition buildContainmentEvidence (runKey : string) (boundaryBlock : Z)
    (boundaryBlockHash : string) (q : QualifiedDiscrepancy) : ContainmentEvidence :=
  {| be_runKey := runKey; be_boundaryBlock := boundaryBlock;
     be_boundaryBlockHash := boundaryBlockHash; be_findings := qd_findings q |}.

(** ** core/runControls.ts *)

(** [new Set(..)]: first occurrences, in order. *)
Definition js_set (l : list string) : list string :=
  foldl (fun acc x => if includes acc x then acc else (acc ++ [x])%list) [] l.

(** [isTradePaused] of the escrow at the boundary block: [Err] when it throws. *)
Definition observeTradePauses (isTradePaused : string -> result string bool)
    (tradeIds : list string) (blockNumber : Z) : jsmap TradePauseObservation :=
  foldl (fun observations tradeId =>
           map_set tradeId
             match isTradePaused tradeId with
             | Ok paused => {| po_tradeId := tradeId; po_paused := paused;
                               po_blockNumber := blockNumber; po_readError := None |}
             | Err m => {| po_tradeId := tradeId; po_paused := false;
                           po_blockNumber := blockNumber; po_readError := Some m |}
             end observations)
    [] (js_set tradeIds).

Record ContainmentDecisions := {
  cd_qualified : list QualifiedDiscrepancy;
  cd_cleanTradeIds : list string;
  cd_pauseObservations : jsmap TradePauseObservation
}.

(** [inherited] is what [listBlockingContainments()] answered before the transaction. *)
Definition resolveContainmentDecisions (isTradePaused : string -> result string bool)
    (findings : list DriftFinding) (comparedTradeIds : list string) (boundaryBlock : Z)
    (inherited : list TradeContainmentRow) : ContainmentDecisions :=
  let qualified := qualifyDiscrepancies findings in
  {| cd_qualified := qualified;
     cd_cleanTradeIds := cleanlyReconciledTradeIds comparedTradeIds findings;
     cd_pauseObservations :=
       observeTradePauses isTradePaused
         ((qd_tradeId <$> qualified) ++ (tc_trade_id <$> inherited))%list boundaryBlock |}.

(** What the finalizing transaction knows of its run: row id, key, boundary. *)
Record RunContext := {
  rx_runId : Z;
  rx_runKey : string;
  rx_boundary : CoverageBoundary;
  rx_now : Z
}.

(** The incident opened or folded for one discrepancy, and its alert. *)
Definition contain_one (rx : RunContext) (draw : string) (q : QualifiedDiscrepancy)
    (d : containment_db) : result containment_error containment_db :=
  r ← openContainment
        {| oi_tradeId := qd_tradeId q;
           oi_incidentReference := generateIncidentReference (rx_now rx) draw;
           oi_runKey := rx_runKey rx; oi_qualifyingCodes := qd_codes q;
           oi_evidence := buildContainmentEvidence (rx_runKey rx) (cb_blockNumber (rx_boundary rx))
                            (cb_blockHash (rx_boundary rx)) q |} (rx_now rx) d;
  Ok (enqueueRunAlert (rx_runId rx) (rx_runKey rx)
        (TRADE_CONTAINED (rx_runKey rx) (tc_trade_id r.2) (tc_incident_reference r.2)
           (tc_state r.2) (qd_codes q) (tc_opened_run_key r.2) (tc_opened_at r.2)
           (tc_observation_count r.2)) r.1).

(** The discrepancies in order, each with its own random draw. *)
Fixpoint contain_all (rx : RunContext) (draws : list string) (qs : list QualifiedDiscrepancy)
    (d : containment_db) : result containment_error containment_db :=
  match qs with
  | [] => Ok d
  | q :: rest =>
      d' ← contain_one rx (default "" (head draws)) q d;
      contain_all rx (tail draws) rest d'
  end.

(** The second pass, for one blocking containment as it was listed. *)
Definition review_one (rx : RunContext) (decisions : ContainmentDecisions)
    (divergingNow : list string) (d : containment_db) (c : TradeContainmentRow)
    : containment_db :=
  let tradeId := tc_trade_id c in
  let d1 := if negb (includes divergingNow tradeId)
               && includes (cd_cleanTradeIds decisions) tradeId
            then recordCleanReconciliation tradeId (rx_runKey rx) (rx_now rx) d else d in
  match map_get tradeId (cd_pauseObservations decisions) with
  | None => d1
  | Some o =>
      let d2 := recordPauseObservation o (rx_now rx) d1 in
      if po_paused o then d2
      else enqueueRunAlert (rx_runId rx) (rx_runKey rx)
             (TRADE_PAUSE_UNCONFIRMED (rx_runKey rx) tradeId (tc_incident_reference c)
                (po_blockNumber o) (po_readError o)) d2
  end.

(** Answers the trade ids contained by this run. *)
Definition applyContainment (rx : RunContext) (draws : list string)
    (decisions : ContainmentDecisions) (d : containment_db)
    : result containment_error (containment_db * list string) :=
  let divergingNow := qd_tradeId <$> cd_qualified decisions in
  d1 ← contain_all rx draws (cd_qualified decisions) d;
  Ok (foldl (review_one rx decisions divergingNow) d1 (listBlockingContainments d1),
      js_set divergingNow).

(** The containment and alert writes of [publishRunOutcome]. *)
Definition publish_containment (rx : RunContext) (draws : list string)
    (findings : list DriftFinding) (decisions : ContainmentDecisions) (window : CoverageWindow)
    (sla : CoverageSlaVerdict) (d : containment_db)
    : result containment_error (containment_db * list string) :=
  let d1 := foldl (fun d f =>
      if bool_decide (df_severity f = CRITICAL)
      then enqueueRunAlert (rx_runId rx) (rx_runKey rx) (CRITICAL_DRIFT (rx_runKey rx) f) d
      else d) d findings in
  r ← applyContainment rx draws decisions d1;
  let d3 := match sla_breached sla, sla_reason sla with
            | true, Some reason =>
                if truthy reason then
                  enqueueRunAlert (rx_runId rx) (rx_runKey rx)
                    (COVERAGE_BACKLOG (rx_runKey rx) reason (cw_uncoveredTail window)
                       (cb_chainTradeCounter (rx_boundary rx)) (cb_blockNumber (rx_boundary rx)))
                    r.1
                else r.1
            | _, _ => r.1
            end in
  Ok (d3, r.2).

(** ** core/governedApproval.ts *)

Definition PAUSE_SCOPE_TRADE : Z := 2.

Definition normalizeTxHash (raw : string) : result containment_error string :=
  let normalized := toLowerCase (trim raw) in
  if lower_hex_word 64 normalized then Ok normalized else Err (InvalidTxHash raw).

Record UnpauseLog := { ul_address : string; ul_tradeId : string; ul_logIndex : Z }.

Record ApprovalLog := {
  ag_address : string; ag_approver : string; ag_approvalCount : Z; ag_requiredApprovals : Z;
  ag_logIndex : Z }.

Record OnchainUnpauseProposal := {
  up_scope : Z; up_tradeId : string; up_incidentRef : string; up_approvalCount : Z;
  up_executed : bool }.

Record GovernedUnpauseFacts := {
  gf_txHash : string;
  gf_chainId : Z;
  gf_escrowAddress : string;
  gf_receiptStatus : option Z;
  gf_blockNumber : Z;
  gf_blockHash : string;
  gf_blockTimestamp : Z;
  gf_finalityBlockNumber : Z;
  gf_unpausedLogs : list UnpauseLog;
  gf_approvalLogs : list ApprovalLog;
  gf_proposal : OnchainUnpauseProposal
}.

Record ContainmentUnderRelease := {
  cr_tradeId : string; cr_incidentReference : string; cr_openedAt : Z }.

Definition sameAddress (left right : string) : bool :=
  String.eqb (toLowerCase left) (toLowerCase right).

(** ethers: [encodeBytes32String] throws on a text of more than 31 bytes;
    [keccak256(toUtf8Bytes(_))]; [getAddress] on an address of the ABI. *)
Section Governed.
Context (encodeBytes32String : string -> option string) (keccak256 getAddress : string -> string).

Definition incidentRefCandidates (incidentReference : string)
    : result containment_error (list string) :=
  match encodeBytes32String incidentReference with
  | Some b => Ok [toLowerCase b; toLowerCase (keccak256 incidentReference)]
  | None => Err (Database "bytes32 string must be less than 32 bytes")
  end.

Definition matchesIncidentReference (onchainRef incidentReference : string)
    : result containment_error bool :=
  candidates ← incidentRefCandidates incidentReference;
  Ok (includes candidates (toLowerCase onchainRef)).

Definition refuse_if (c : bool) (why : refusal) : result containment_error unit :=
  throw_if c (GovernedApprovalError why).

Definition evaluateGovernedUnpause (facts : GovernedUnpauseFacts) (c : ContainmentUnderRelease)
    : result containment_error GovernedUnpauseEvidence :=
  let proposal := gf_proposal facts in
  _ ← refuse_if (bool_decide (gf_receiptStatus facts = None)) NoReceipt;
  _ ← refuse_if (negb (bool_decide (gf_receiptStatus facts = Some 1))) Reverted;
  _ ← refuse_if (gf_finalityBlockNumber facts <? gf_blockNumber facts) NotFinal;
  match List.find (fun l => sameAddress (ul_address l) (gf_escrowAddress facts)
                            && String.eqb (ul_tradeId l) (cr_tradeId c)) (gf_unpausedLogs facts) with
  | None => Err (GovernedApprovalError NoUnpauseOfTrade)
  | Some unpaused =>
      _ ← refuse_if (negb (up_scope proposal =? PAUSE_SCOPE_TRADE)) NotTradeScope;
      _ ← refuse_if (negb (String.eqb (up_tradeId proposal) (cr_tradeId c))) OtherTrade;
      _ ← refuse_if (negb (up_executed proposal)) NotExecuted;
      matches ← matchesIncidentReference (up_incidentRef proposal) (cr_incidentReference c);
      _ ← refuse_if (negb matches) OtherIncident;
      let approvals := List.filter (fun l => sameAddress (ag_address l) (gf_escrowAddress facts))
                         (gf_approvalLogs facts) in
      match last approvals with
      | None => Err (GovernedApprovalError NoApprovalLog)
      | Some final =>
          _ ← refuse_if (ag_requiredApprovals final <? 1) NoRequiredApprovals;
          _ ← refuse_if (ag_approvalCount final <? ag_requiredApprovals final) QuorumNotReached;
          let executedAt := new_date (gf_blockTimestamp facts * 1000) in
          _ ← refuse_if match executedAt with Some t => t <=? cr_openedAt c | None => false end
                PredatesIncident;
          Ok {| ge_txHash := gf_txHash facts; ge_chainId := gf_chainId facts;
                ge_contractAddress := gf_escrowAddress facts; ge_tradeId := cr_tradeId c;
                ge_blockNumber := gf_blockNumber facts; ge_blockHash := gf_blockHash facts;
                ge_logIndex := ul_logIndex unpaused; ge_incidentRef := up_incidentRef proposal;
                ge_approvers := ag_approver <$> approvals;
                ge_approvalCount := ag_approvalCount final;
                ge_requiredApprovals := ag_requiredApprovals final;
                ge_executedAt := executedAt |}
      end
  end.

(** ** blockchain/escrowGovernance.ts *)

(** A log of the receipt, as the escrow's ABI parses it. *)
Inductive ParsedLog :=
| TradeUnpaused (address : string) (tradeId : Z) (index : Z)
| UnpauseApproved (address approver : string) (approvalCount requiredApprovals : Z) (index : Z)
| OtherLog.

Record Receipt := {
  rp_status : option Z; rp_blockNumber : Z; rp_blockHash : string; rp_logs : list ParsedLog }.

(** What the provider and the contract answer about one transaction. *)
Record GovernanceReads := {
  gr_chainId : Z;
  gr_receipt : option Receipt;
  gr_blockTimestamp : option Z;
  gr_finalityBlock : option Z;
  gr_proposal : OnchainUnpauseProposal
}.

Definition readGovernedUnpause (chainId : Z) (escrowAddress : string) (reads : GovernanceReads)
    (txHash : string) : result containment_error GovernedUnpauseFacts :=
  _ ← throw_if (negb (gr_chainId reads =? chainId)) (WrongChain (gr_chainId reads));
  match gr_receipt reads with
  | None =>
      Ok {| gf_txHash := txHash; gf_chainId := gr_chainId reads; gf_escrowAddress := escrowAddress;
            gf_receiptStatus := None; gf_blockNumber := 0; gf_blockHash := "";
            gf_blockTimestamp := 0; gf_finalityBlockNumber := 0; gf_unpausedLogs := [];
            gf_approvalLogs := [];
            gf_proposal := {| up_scope := -1; up_tradeId := ""; up_incidentRef := "";
                              up_approvalCount := 0; up_executed := false |} |}
  | Some r =>
      match gr_blockTimestamp reads with
      | None => Err BlockUnreadable
      | Some timestamp =>
          Ok {| gf_txHash := txHash; gf_chainId := gr_chainId reads;
                gf_escrowAddress := escrowAddress; gf_receiptStatus := rp_status r;
                gf_blockNumber := rp_blockNumber r; gf_blockHash := rp_blockHash r;
                gf_blockTimestamp := timestamp;
                gf_finalityBlockNumber := default 0 (gr_finalityBlock reads);
                gf_unpausedLogs := omap (fun l =>
                  match l with
                  | TradeUnpaused a t i =>
                      Some {| ul_address := a; ul_tradeId := print_Z t; ul_logIndex := i |}
                  | _ => None
                  end) (rp_logs r);
                gf_approvalLogs := omap (fun l =>
                  match l with
                  | UnpauseApproved a who n req i =>
                      Some {| ag_address := a; ag_approver := getAddress who;
                              ag_approvalCount := n; ag_requiredApprovals := req;
                              ag_logIndex := i |}
                  | _ => None
                  end) (rp_logs r);
                gf_proposal := gr_proposal reads |}
      end
  end.

(** ** containment-cli.ts *)

(** [current] is the row [getContainment] answered; [reads] what the chain
    answered afterwards. *)
Definition release_evidence (chainId : Z) (escrowAddress tradeId approvalTxHash : string)
    (current : option TradeContainmentRow) (reads : GovernanceReads)
    : result containment_error GovernedUnpauseEvidence :=
  match current with
  | None => Err NoContainment
  | Some c =>
      _ ← throw_if (negb (bool_decide (tc_state c = RECONCILED_PENDING_APPROVAL)))
            (NotPending (tc_state c));
      _ ← throw_if (bool_decide (tc_pause_observed c = None)) NeverPaused;
      facts ← readGovernedUnpause chainId escrowAddress reads approvalTxHash;
      evaluateGovernedUnpause facts
        {| cr_tradeId := tradeId; cr_incidentReference := tc_incident_reference c;
           cr_openedAt := tc_opened_at c |}
  end.

(** The whole command: the row is read in [d0], the statement starts from
    [snapshot] and its update lands on [d]. *)
Definition release (chainId : Z) (escrowAddress tradeId approvalTx : string)
    (reads : GovernanceReads) (now : Z) (d0 snapshot d : containment_db)
    : result containment_error containment_db :=
  hash ← normalizeTxHash approvalTx;
  evidence ← release_evidence chainId escrowAddress tradeId hash (getContainment tradeId d0) reads;
  r ← releaseContainment tradeId evidence now snapshot d;
  match r.2 with
  | Some _ => Ok r.1
  | None => Err StateChanged
  end.

End Governed.
