(* ===== verification/ContainmentInv.v ===== *)
(** Histories of containments: published runs, governed releases and alert
    dispatches in any order, each release working from rows and snapshots read
    earlier.  [release_is_governed] shows what a released row carries,
    [release_needs_recovery] what must have happened since the last divergence,
    and [blocking_until_released] that nothing but a release unblocks a trade. *)
From stdpp Require Import base list strings gmap relations.
From S2P Require Import Prelude JsText JsDate JsMap ReconTypes ReconCoverage ReconClassifier.
From S2P Require Import Containment.

Open Scope string_scope.
Open Scope Z_scope.
Open Scope list_scope.

(** ** Histories *)

(** What happened, newest first. *)
Inductive entry :=
| Published (runKey : string) (findings : list DriftFinding) (compared : list string)
    (observations : jsmap TradePauseObservation)
| Released (tradeId : string) (evidence : GovernedUnpauseEvidence).

Record cworld := { cw_db : containment_db; cw_log : list entry }.

Definition start_cworld : cworld := {| cw_db := empty_containment_db; cw_log := [] |}.

Section Histories.
Context (encodeBytes32String : string -> option string) (keccak256 getAddress : string -> string).
Context (chainId : Z) (escrowAddress : string).

(** Whether a release statement may overlap a concurrent writer of its row. *)
Context (overlap : bool).

Notation evaluate := (evaluateGovernedUnpause encodeBytes32String keccak256).
Notation read := (readGovernedUnpause getAddress chainId escrowAddress).
Notation release := (release encodeBytes32String keccak256 getAddress chainId escrowAddress).
Notation release_evidence :=
  (release_evidence encodeBytes32String keccak256 getAddress chainId escrowAddress).

Inductive containment_op (past : list cworld) (w : cworld) : cworld -> Prop :=
| op_publish rx draws findings compared pauses w0 window sla d ids :
    w0 ∈ w :: past ->
    let decisions := resolveContainmentDecisions pauses findings compared
      (cb_blockNumber (rx_boundary rx)) (listBlockingContainments (cw_db w0)) in
    publish_containment rx draws findings decisions window sla (cw_db w) = Ok (d, ids) ->
    containment_op past w
      {| cw_db := d;
         cw_log := Published (rx_runKey rx) findings compared (cd_pauseObservations decisions)
                   :: cw_log w |}
| op_release tradeId tx reads now w0 ws evidence hash d :
    w0 ∈ w :: past -> ws ∈ w :: past -> (overlap = false -> ws = w) ->
    release tradeId tx reads now (cw_db w0) (cw_db ws) (cw_db w) = Ok d ->
    normalizeTxHash tx = Ok hash ->
    release_evidence tradeId hash (getContainment tradeId (cw_db w0)) reads = Ok evidence ->
    containment_op past w {| cw_db := d; cw_log := Released tradeId evidence :: cw_log w |}
| op_dispatch deliver now limit :
    containment_op past w
      {| cw_db := (dispatchPendingAlerts deliver now limit (cw_db w)).1; cw_log := cw_log w |}.

Inductive containment_history : list cworld -> Prop :=
| containment_start : containment_history [start_cworld]
| containment_step past w w' :
    containment_history (w :: past) -> containment_op past w w' ->
    containment_history (w' :: w :: past).

(** ** Effects of the statements on the rows *)

Lemma enqueue_rows runId runKey a d :
  containments (enqueueRunAlert runId runKey a d) = containments d /\
  spent_approvals (enqueueRunAlert runId runKey a d) = spent_approvals d.
Proof. done. Qed.

Lemma update_containment_rows t guard f d :
  spent_approvals (update_containment t guard f d) = spent_approvals d /\
  (containments (update_containment t guard f d) = containments d \/
   exists r, containments d !! t = Some r /\ guard r = true /\
     containments (update_containment t guard f d) = <[t := f r]> (containments d)).
Proof.
  unfold update_containment. destruct (containments d !! t) as [r|] eqn:E; [|by split; [|left]].
  destruct (guard r) eqn:G; [|by split; [|left]]. split; [done|]. right. eauto.
Qed.

Lemma openContainment_rows i now d d' r :
  openContainment i now d = Ok (d', r) ->
  spent_approvals d' = spent_approvals d /\
  containments d' = <[oi_tradeId i := r]> (containments d) /\
  ((exists r0, containments d !! oi_tradeId i = Some r0 /\ r = reopened_row i now r0) \/
   (containments d !! oi_tradeId i = None /\ r = opened_row i (next_containment_id d) now /\
    forall t r0, containments d !! t = Some r0 -> tc_incident_reference r0 <> oi_incidentReference i)).
Proof.
  unfold openContainment. destruct (_ || _); [done|].
  destruct (containments d !! oi_tradeId i) as [r0|] eqn:E.
  - intros [= <- <-]. split_and!; [done | done | by left; exists r0].
  - destruct (bool_decide _) eqn:B; [done|]. intros [= <- <-]. split_and!; [done | done |].
    right. split_and!; [done..|]. intros t r0 Ht He. apply bool_decide_eq_false in B. apply B.
    by exists t, r0.
Qed.

(** A property of the tables that no statement of a publishing transaction
    breaks, given which trades it contains, clears and observes. *)
Record publish_stable (diverging : string -> Prop) (clean : string -> string -> Prop)
    (observed : TradePauseObservation -> Prop) (P : containment_db -> Prop) : Prop := {
  stable_same : forall d d', containments d' = containments d ->
    spent_approvals d' = spent_approvals d -> P d -> P d';
  stable_open : forall i now d d' r, diverging (oi_tradeId i) ->
    openContainment i now d = Ok (d', r) -> P d -> P d';
  stable_clean : forall t runKey now d, clean t runKey -> P d ->
    P (recordCleanReconciliation t runKey now d);
  stable_pause : forall o now d, observed o -> P d -> P (recordPauseObservation o now d)
}.

Lemma contain_all_stable rx draws qs d d' diverging clean observed P :
  publish_stable diverging clean observed P -> (forall q, q ∈ qs -> diverging (qd_tradeId q)) ->
  contain_all rx draws qs d = Ok d' -> P d -> P d'.
Proof.
  intros HP. revert draws d. induction qs as [|q qs IH]; intros draws d Hq; cbn [contain_all].
  - by intros [= <-].
  - intros H Hd. apply bind_ok in H as (d1 & H1 & H2). unfold contain_one in H1.
    apply bind_ok in H1 as ([d2 r] & H3 & [= <-]). eapply IH; [|exact H2|].
    + intros q' ?. apply Hq. by right.
    + apply (stable_same _ _ _ _ HP d2); [done | done |].
      eapply (stable_open _ _ _ _ HP); [|exact H3 | exact Hd]. apply Hq. left.
Qed.

Lemma review_all_stable rx dec div l d diverging clean observed P :
  publish_stable diverging clean observed P ->
  (forall t, t ∉ div -> t ∈ cd_cleanTradeIds dec -> clean t (rx_runKey rx)) ->
  (forall t o, map_get t (cd_pauseObservations dec) = Some o -> observed o) ->
  P d -> P (foldl (review_one rx dec div) d l).
Proof.
  intros HP Hc Ho. revert d. induction l as [|c l IH]; intros d Hd; cbn [foldl]; [done|].
  apply IH. clear IH. unfold review_one.
  match goal with |- P (match _ with Some o => _ | None => ?x end) => set (d1 := x) end.
  assert (H1 : P d1).
  { unfold d1. destruct (_ && _) eqn:E; [|done].
    apply andb_true_iff in E as [E1%negb_true_iff%includes_false E2%includes_true].
    by apply (stable_clean _ _ _ _ HP), Hd; apply Hc. }
  destruct (map_get _ _) as [o|] eqn:G; [|done]. apply Ho in G.
  assert (H2 : P (recordPauseObservation o (rx_now rx) d1)) by (by apply (stable_pause _ _ _ _ HP)).
  destruct (po_paused o); [done|]. by apply (stable_same _ _ _ _ HP (recordPauseObservation o (rx_now rx) d1)).
Qed.

(** The parts of a publishing transaction. *)
Lemma publish_parts rx draws fs dec window sla d d' ids :
  publish_containment rx draws fs dec window sla d = Ok (d', ids) ->
  exists d0 d1 d2, containments d0 = containments d /\ spent_approvals d0 = spent_approvals d /\
    contain_all rx draws (cd_qualified dec) d0 = Ok d1 /\
    d2 = foldl (review_one rx dec (qd_tradeId <$> cd_qualified dec)) d1 (listBlockingContainments d1) /\
    containments d' = containments d2 /\ spent_approvals d' = spent_approvals d2.
Proof.
  unfold publish_containment. set (d0 := foldl _ d fs).
  assert (H0 : containments d0 = containments d /\ spent_approvals d0 = spent_approvals d).
  { unfold d0. clear d0. revert d. induction fs as [|f fs IH]; intros d; cbn [foldl]; [done|].
    destruct (IH (if bool_decide (df_severity f = CRITICAL)
      then enqueueRunAlert (rx_runId rx) (rx_runKey rx) (CRITICAL_DRIFT (rx_runKey rx) f) d else d))
      as [-> ->]. by destruct (bool_decide _). }
  intros H. apply bind_ok in H as ([d2 l] & H1 & [= <- _]). unfold applyContainment in H1.
  apply bind_ok in H1 as (d1 & H2 & [= <- _]). exists d0, d1. eexists.
  split_and!; [apply H0 | apply H0 | exact H2 | reflexivity | |];
    destruct (sla_breached sla), (sla_reason sla) as [m|]; try done; by destruct (truthy m).
Qed.

Lemma publish_stable_ok rx draws fs dec window sla d d' ids clean observed P :
  publish_stable (fun t => t ∈ qd_tradeId <$> cd_qualified dec) clean observed P ->
  (forall t, t ∉ qd_tradeId <$> cd_qualified dec -> t ∈ cd_cleanTradeIds dec ->
     clean t (rx_runKey rx)) ->
  (forall t o, map_get t (cd_pauseObservations dec) = Some o -> observed o) ->
  publish_containment rx draws fs dec window sla d = Ok (d', ids) -> P d -> P d'.
Proof.
  intros HP Hc Ho H Hd. apply publish_parts in H as (d0 & d1 & d2 & E1 & E2 & H1 & -> & E3 & E4).
  eapply (stable_same _ _ _ _ HP _ _ E3 E4), review_all_stable; [exact HP | exact Hc | exact Ho |].
  eapply contain_all_stable; [exact HP | | exact H1 |].
  - intros q Hq. by apply list_elem_of_fmap_2.
  - by apply (stable_same _ _ _ _ HP d).
Qed.

Lemma dispatch_rows deliver now limit d :
  containments (dispatchPendingAlerts deliver now limit d).1 = containments d /\
  spent_approvals (dispatchPendingAlerts deliver now limit d).1 = spent_approvals d.
Proof.
  unfold dispatchPendingAlerts. generalize (readPendingRunAlerts limit d) 0. intros l.
  revert d. induction l as [|a l IH]; intros d n; cbn [foldl]; [done|].
  destruct (deliver a); [destruct (IH (recordRunAlertFailure (al_id a) s d) n) as [-> ->]
    | destruct (IH (markRunAlertDispatched (al_id a) now d) (n + 1)) as [-> ->]]; done.
Qed.

(** ** Incidents keep their identity *)

Definition same_incident (r r' : TradeContainmentRow) : Prop :=
  tc_trade_id r' = tc_trade_id r /\ tc_incident_reference r' = tc_incident_reference r /\
  tc_opened_at r' = tc_opened_at r /\ tc_opened_run_key r' = tc_opened_run_key r.

Definition rows_later (d d' : containment_db) : Prop :=
  forall t r, containments d !! t = Some r ->
    exists r', containments d' !! t = Some r' /\ same_incident r r'.

#[local] Instance rows_later_preorder : PreOrder rows_later.
Proof.
  split.
  - intros d t r Hr. by exists r.
  - intros a b c H1 H2 t r (r1 & Hr1 & E1)%H1. apply H2 in Hr1 as (r2 & Hr2 & E2).
    exists r2. unfold same_incident in *. intuition congruence.
Qed.

Lemma rows_later_insert d d' t r :
  containments d' = <[t := r]> (containments d) ->
  (forall r0, containments d !! t = Some r0 -> same_incident r0 r) -> rows_later d d'.
Proof.
  intros E Hr t' r0 Hr0. rewrite E. destruct (decide (t = t')) as [<-|Hne].
  - exists r. rewrite lookup_insert_eq. eauto.
  - exists r0. by rewrite lookup_insert_ne.
Qed.

Lemma update_containment_later t guard f d :
  (forall r, same_incident r (f r)) -> rows_later d (update_containment t guard f d).
Proof.
  intros Hf. destruct (update_containment_rows t guard f d) as [_ [E|(r & Hr & _ & E)]].
  - intros t' r Hr. rewrite E. by exists r.
  - eapply rows_later_insert; [exact E|]. intros r0 Hr0. rewrite Hr in Hr0. by injection Hr0 as <-.
Qed.

Lemma open_later i now d d' r : openContainment i now d = Ok (d', r) -> rows_later d d'.
Proof.
  intros (_ & E & H)%openContainment_rows. eapply rows_later_insert; [exact E|]. intros r0 Hr0.
  destruct H as [(r1 & Hr1 & ->)|[H _]]; [|congruence]. rewrite Hr0 in Hr1. by injection Hr1 as <-.
Qed.

Lemma publish_later rx draws fs dec window sla d d' ids :
  publish_containment rx draws fs dec window sla d = Ok (d', ids) -> rows_later d d'.
Proof.
  intros H. eapply (publish_stable_ok _ _ _ _ _ _ _ _ _ (fun _ _ => True) (fun _ => True)
    (rows_later d)); [|done..|exact H|reflexivity]. split.
  - intros d1 d2 E _ Hl t r Hr. rewrite E. eauto.
  - intros i now d1 d2 r _ Ho Hl. transitivity d1; [done | by eapply open_later].
  - intros t k now d1 _ Hl. transitivity d1; [done | by apply update_containment_later].
  - intros o now d1 _ Hl. transitivity d1; [done | by apply update_containment_later].
Qed.

(** What a successful release has read and written. *)
Record release_facts (tradeId : string) (now : Z) (e : GovernedUnpauseEvidence)
    (d0 ds d d' : containment_db) : Prop := {
  rf_read : exists r0 reads hash facts, containments d0 !! tradeId = Some r0 /\
    lower_hex_word 64 hash = true /\ read reads hash = Ok facts /\
    evaluate facts {| cr_tradeId := tradeId; cr_incidentReference := tc_incident_reference r0;
                      cr_openedAt := tc_opened_at r0 |} = Ok e;
  rf_snapshot : exists rs, containments ds !! tradeId = Some rs /\
    tc_state rs = RECONCILED_PENDING_APPROVAL /\ is_Some (tc_pause_observed rs) /\
    spent_approvals d' = spent_approvals d ++
      [{| sp_tx_hash := ge_txHash e; sp_trade_id := tradeId;
          sp_incident_reference := tc_incident_reference rs; sp_chain_id := ge_chainId e;
          sp_block_number := ge_blockNumber e; sp_log_index := ge_logIndex e;
          sp_spent_at := now |}];
  rf_updated : exists r, containments d !! tradeId = Some r /\ is_Some (tc_pause_observed r) /\
    containments d' = <[tradeId := released_row e now r]> (containments d);
  rf_unspent : ge_txHash e ∉ sp_tx_hash <$> spent_approvals d;
  rf_executed : is_Some (ge_executedAt e)
}.

Lemma releaseContainment_inv t e now ds d d' r :
  releaseContainment t e now ds d = Ok (d', Some r) ->
  (exists rs, containments ds !! t = Some rs /\
    tc_state rs = RECONCILED_PENDING_APPROVAL /\ is_Some (tc_pause_observed rs) /\
    spent_approvals d' = spent_approvals d ++
      [{| sp_tx_hash := ge_txHash e; sp_trade_id := t;
          sp_incident_reference := tc_incident_reference rs; sp_chain_id := ge_chainId e;
          sp_block_number := ge_blockNumber e; sp_log_index := ge_logIndex e;
          sp_spent_at := now |}]) /\
  (exists r0, containments d !! t = Some r0 /\ is_Some (tc_pause_observed r0) /\
    containments d' = <[t := released_row e now r0]> (containments d)) /\
  ge_txHash e ∉ sp_tx_hash <$> spent_approvals d /\ is_Some (ge_executedAt e).
Proof.
  unfold releaseContainment, releasable. destruct (ge_executedAt e); [|done].
  destruct (containments ds !! t) as [rs|]; [|done].
  destruct (_ && _) eqn:G; [|done]. reflect_bools.
  destruct (existsb _ _) eqn:X; [done|]. destruct (containments d !! t) as [r0|]; [|done].
  destruct (bool_decide (tc_pause_observed r0 = None)) eqn:P; [done|].
  apply bool_decide_eq_false, not_eq_None_Some in P. intros [= <- _].
  split_and!; [by exists rs | by exists r0 | | done].
  rewrite existsb_false, Forall_forall in X. intros (s & Hs & Hin)%list_elem_of_fmap.
  apply X in Hin. apply String.eqb_neq in Hin. congruence.
Qed.

Lemma release_inv tradeId tx reads now d0 ds d d' hash e :
  release tradeId tx reads now d0 ds d = Ok d' -> normalizeTxHash tx = Ok hash ->
  release_evidence tradeId hash (getContainment tradeId d0) reads = Ok e ->
  release_facts tradeId now e d0 ds d d'.
Proof.
  unfold release. intros H Hh He. rewrite Hh in H. cbn [mbind result_bind] in H.
  rewrite He in H. cbn [mbind result_bind] in H.
  apply bind_ok in H as ([d1 r] & Hr & H). cbn in H. destruct r as [r|]; [|done].
  injection H as <-. apply releaseContainment_inv in Hr as (H1 & H2 & H3 & H4).
  split; try done. unfold release_evidence, Containment.release_evidence, getContainment in He.
  destruct (containments d0 !! tradeId) as [r0|]; [|done]. rewrite !throw_if_bind in He.
  destruct He as (_ & _ & He). apply bind_ok in He as (facts & Hf & He).
  exists r0, reads, hash, facts. split_and!; try done. unfold normalizeTxHash in Hh.
  destruct (lower_hex_word 64 _) eqn:L; [|done]. by injection Hh as <-.
Qed.

Lemma release_later tradeId now e d0 ds d d' :
  release_facts tradeId now e d0 ds d d' -> rows_later d d'.
Proof.
  intros [_ _ (r & Hr & _ & E) _ _]. eapply rows_later_insert; [exact E|]. intros r0 Hr0.
  rewrite Hr in Hr0. by injection Hr0 as <-.
Qed.

Lemma op_rows_later past w w' : containment_op past w w' -> rows_later (cw_db w) (cw_db w').
Proof.
  intros [rx draws fs compared pauses w0 window sla d ids _ dec H
    |t tx reads now w0 ws e hash d _ _ _ H Hh He|deliver now limit].
  - by eapply publish_later.
  - by eapply release_later, release_inv.
  - intros t r Hr. cbn. destruct (dispatch_rows deliver now limit (cw_db w)) as [-> _]. by exists r.
Qed.

Lemma containment_history_later w past w0 :
  containment_history (w :: past) -> w0 ∈ w :: past -> rows_later (cw_db w0) (cw_db w).
Proof.
  remember (w :: past) as h eqn:E. intros H. revert w past E w0.
  induction H as [|past w w' Hh IH Hop]; intros w1 past1 [= <- <-] w0 Hin.
  - by apply list_elem_of_singleton in Hin as ->.
  - apply elem_of_cons in Hin as [->|Hin]; [done|]. transitivity (cw_db w); [by eapply IH|].
    by eapply op_rows_later.
Qed.

(** ** What released rows carry *)

(** The ledger of spent approvals backs the row. *)
Definition backed (d : containment_db) (t : string) (r : TradeContainmentRow)
    (e : GovernedUnpauseEvidence) : Prop :=
  exists s, s ∈ spent_approvals d /\ sp_tx_hash s = ge_txHash e /\ sp_trade_id s = t /\
    sp_incident_reference s = tc_incident_reference r.

Definition governed (r : TradeContainmentRow) (e : GovernedUnpauseEvidence) : Prop :=
  exists reads hash facts, lower_hex_word 64 hash = true /\ read reads hash = Ok facts /\
    evaluate facts {| cr_tradeId := tc_trade_id r;
      cr_incidentReference := tc_incident_reference r; cr_openedAt := tc_opened_at r |} = Ok e.

Record base_inv (d : containment_db) : Prop := {
  bi_key : forall t r, containments d !! t = Some r -> tc_trade_id r = t;
  bi_refs : forall t t' r r', containments d !! t = Some r -> containments d !! t' = Some r' ->
    tc_incident_reference r = tc_incident_reference r' -> t = t';
  bi_released : forall t r, containments d !! t = Some r -> tc_state r = RELEASED ->
    exists e, tc_approval r = Some e /\ governed r e /\ is_Some (tc_pause_observed r) /\
      is_Some (ge_executedAt e) /\ backed d t r e;
  bi_spent : NoDup (sp_tx_hash <$> spent_approvals d)
}.

Lemma base_inv_same d d' :
  containments d' = containments d -> spent_approvals d' = spent_approvals d ->
  base_inv d -> base_inv d'.
Proof.
  intros E1 E2 [B1 B2 B3 B4]. split; rewrite ?E1, ?E2; try done.
  intros t r Hr Hrel. destruct (B3 _ _ Hr Hrel) as (e & ? & ? & ? & ? & Hb).
  exists e. split_and!; try done. unfold backed in *. by rewrite E2.
Qed.

(** Replacing one row by a later version of itself that is not released. *)
Lemma base_inv_update d d' t r0 r :
  base_inv d -> containments d !! t = Some r0 -> same_incident r0 r -> tc_state r <> RELEASED ->
  containments d' = <[t := r]> (containments d) -> spent_approvals d' = spent_approvals d ->
  base_inv d'.
Proof.
  intros [B1 B2 B3 B4] Hr0 (I1 & I2 & I3 & I4) Hs E1 E2. split; rewrite ?E1, ?E2; [| | |done].
  - intros t' r'. rewrite lookup_insert_Some. intros [[<- <-]|[_ H]]; [|by apply B1].
    rewrite I1. by apply B1.
  - assert (Hin : forall t' r', <[t:=r]> (containments d) !! t' = Some r' ->
      exists r1, containments d !! t' = Some r1 /\ tc_incident_reference r1 = tc_incident_reference r').
    { intros t' r'. rewrite lookup_insert_Some. intros [[<- <-]|[_ H]]; eauto. }
    intros t1 t2 r1 r2 (r1' & H1 & E3)%Hin (r2' & H2 & E4)%Hin E. eapply B2; eauto. congruence.
  - intros t' r'. rewrite lookup_insert_Some. intros [[<- <-]|[_ H]] Hrel; [done|].
    destruct (B3 _ _ H Hrel) as (e & ? & ? & ? & ? & Hb). exists e. split_and!; try done.
    unfold backed in *. by rewrite E2.
Qed.

Lemma base_inv_update_containment d t guard f :
  (forall r, same_incident r (f r)) ->
  (forall r, guard r = true -> tc_state (f r) <> RELEASED) ->
  base_inv d -> base_inv (update_containment t guard f d).
Proof.
  intros Hf Hs Hd. destruct (update_containment_rows t guard f d) as [E2 [E|(r & Hr & Hg & E)]].
  - by eapply base_inv_same.
  - refine (base_inv_update _ _ _ _ _ Hd Hr _ _ E E2); auto.
Qed.

Lemma base_inv_open i now d d' r :
  openContainment i now d = Ok (d', r) -> base_inv d -> base_inv d'.
Proof.
  intros (E2 & E1 & [(r0 & Hr0 & ->)|(Hn & -> & Href)])%openContainment_rows Hd.
  - by refine (base_inv_update _ _ _ _ _ Hd Hr0 _ _ E1 E2).
  - destruct Hd as [B1 B2 B3 B4]. split; rewrite ?E1, ?E2; [| | |done].
    + intros t r. rewrite lookup_insert_Some. intros [[<- <-]|[_ H]]; [done | by apply B1].
    + intros t1 t2 r1 r2. rewrite !lookup_insert_Some.
      intros [[<- <-]|[_ H1]] [[<- <-]|[_ H2]] E; [done| | |by eapply B2].
      * by destruct (Href _ _ H2).
      * by destruct (Href _ _ H1).
    + intros t r. rewrite lookup_insert_Some. intros [[<- <-]|[_ H]] Hrel; [done|].
      destruct (B3 _ _ H Hrel) as (e & ? & ? & ? & ? & Hb). exists e. split_and!; try done.
      unfold backed in *. by rewrite E2.
Qed.

Lemma base_inv_publish rx draws fs dec window sla d d' ids :
  publish_containment rx draws fs dec window sla d = Ok (d', ids) -> base_inv d -> base_inv d'.
Proof.
  apply (publish_stable_ok _ _ _ _ _ _ _ _ _ (fun _ _ => True) (fun _ => True)); [|done..]. split.
  - intros d1 d2. apply base_inv_same.
  - intros i now d1 d2 r _. apply base_inv_open.
  - intros t k now d1 _. by apply base_inv_update_containment.
  - intros o now d1 _. apply base_inv_update_containment; [done|]. intros r Hb.
    unfold blocking in Hb. reflect_bools. done.
Qed.

Lemma base_inv_release t now e d0 ds d d' :
  release_facts t now e d0 ds d d' -> rows_later d0 d -> rows_later ds d ->
  base_inv d -> base_inv d'.
Proof.
  intros [(r0 & reads & hash & facts & Hr0 & Hhash & Hread & Hev) (rs & Hrs & _ & _ & E2) (r & Hr & Hp & E1) Hfresh Hx] L0 Ls
    [B1 B2 B3 B4].
  destruct (L0 _ _ Hr0) as (r1 & Hr1 & (_ & I2 & I3 & _)), (Ls _ _ Hrs) as (r2 & Hr2 & (_ & I2' & _)).
  rewrite Hr in Hr1, Hr2. injection Hr1 as <-. injection Hr2 as <-.
  split; rewrite ?E1, ?E2.
  - intros t' r'. rewrite lookup_insert_Some. intros [[<- <-]|[_ H]]; [exact (B1 _ _ Hr) | by apply B1].
  - assert (Hin : forall t' r', <[t:=released_row e now r]> (containments d) !! t' = Some r' ->
      exists r1, containments d !! t' = Some r1 /\ tc_incident_reference r1 = tc_incident_reference r').
    { intros t' r'. rewrite lookup_insert_Some. intros [[<- <-]|[_ H]]; eauto. }
    intros t1 t2 r1 r2' (r1' & H1 & E3)%Hin (r2'' & H2 & E4)%Hin E. eapply B2; eauto. congruence.
  - intros t' r'. rewrite lookup_insert_Some. intros [[<- <-]|[Hne H]] Hrel.
    + exists e. split_and!; try done.
      * exists reads, hash, facts. cbn. by rewrite (B1 _ _ Hr), I2, I3.
      * eexists. rewrite E2. split; [apply elem_of_app; right; left|]. by cbn.
    + destruct (B3 _ _ H Hrel) as (e' & ? & ? & ? & ? & s & Hs & ?). exists e'. split_and!; try done.
      exists s. rewrite E2. split; [apply elem_of_app; by left | done].
  - rewrite fmap_app. apply NoDup_app. split_and!; [done | | apply NoDup_singleton].
    intros x Hx1 ->%list_elem_of_singleton. done.
Qed.

(** The ledger lists the releases of the log, oldest first. *)
Definition released_hashes (log : list entry) : list string :=
  omap (fun en => match en with Released _ e => Some (ge_txHash e) | _ => None end) log.

Lemma history_base_inv w past :
  containment_history (w :: past) ->
  base_inv (cw_db w) /\ released_hashes (cw_log w) ≡ₚ sp_tx_hash <$> spent_approvals (cw_db w).
Proof.
  remember (w :: past) as h eqn:E. intros H. revert w past E.
  induction H as [|past w w' Hh IH Hop]; intros w1 past1 [= <- <-].
  - split; [|done]. split; [| | |constructor]; intros;
      by match goal with H : containments _ !! _ = Some _ |- _ => cbn in H; rewrite lookup_empty in H end.
  - destruct (IH _ _ eq_refl) as [Hb Hl].
    destruct Hop as [rx draws fs compared pauses w0 window sla d ids _ dec Hp
      |t tx reads now w0 ws e hash d H0 Hs _ Hp Hh' He|deliver now limit]; cbn.
    + split; [by eapply base_inv_publish|]. rewrite Hl.
      enough (spent_approvals d = spent_approvals (cw_db w)) as -> by done.
      eapply (publish_stable_ok _ _ _ _ _ _ _ _ _ (fun _ _ => True) (fun _ => True)
        (fun d => spent_approvals d = spent_approvals (cw_db w))); [|done..|exact Hp|reflexivity].
      split.
      * congruence.
      * intros i now d1 d2 r _ (-> & _)%openContainment_rows. done.
      * intros t k now d1 _ <-. apply update_containment_rows.
      * intros o now d1 _ <-. apply update_containment_rows.
    + eapply release_inv in Hp; [|exact Hh'|exact He]. split.
      * eapply base_inv_release; [exact Hp | by eapply containment_history_later.. | done].
      * destruct (rf_snapshot _ _ _ _ _ _ _ Hp) as (rs & _ & _ & _ & ->).
        rewrite fmap_app, Hl. by rewrite Permutation_app_comm.
    + destruct (dispatch_rows deliver now limit (cw_db w)) as [E1 E2]. rewrite E2.
      split; [|done]. by eapply base_inv_same.
Qed.

(** ** What the evidence proves *)

(** The transaction is a mined, final and governed unpause of this trade under
    this incident, executed after the incident was opened. *)
Record authorises (facts : GovernedUnpauseFacts) (r : TradeContainmentRow)
    (e : GovernedUnpauseEvidence) : Prop := {
  au_chain : gf_chainId facts = chainId /\ gf_escrowAddress facts = escrowAddress;
  au_tx : ge_txHash e = gf_txHash facts /\ lower_hex_word 64 (ge_txHash e) = true;
  au_mined : gf_receiptStatus facts = Some 1 /\
    gf_blockNumber facts <= gf_finalityBlockNumber facts;
  au_unpaused : exists l, l ∈ gf_unpausedLogs facts /\
    sameAddress (ul_address l) escrowAddress = true /\ ul_tradeId l = tc_trade_id r;
  au_proposal : up_scope (gf_proposal facts) = PAUSE_SCOPE_TRADE /\
    up_tradeId (gf_proposal facts) = tc_trade_id r /\ up_executed (gf_proposal facts) = true;
  au_incident : exists b, encodeBytes32String (tc_incident_reference r) = Some b /\
    toLowerCase (up_incidentRef (gf_proposal facts))
      ∈ [toLowerCase b; toLowerCase (keccak256 (tc_incident_reference r))];
  au_quorum : 1 <= ge_requiredApprovals e <= ge_approvalCount e;
  au_later : forall at_, ge_executedAt e = Some at_ ->
    at_ = gf_blockTimestamp facts * 1000 /\ tc_opened_at r < at_
}.

Lemma refuse_if_bind {A} c why (k : unit -> result containment_error A) a :
  (refuse_if c why ≫= k) = Ok a <-> c = false /\ k tt = Ok a.
Proof. apply throw_if_bind. Qed.

Lemma read_ok reads hash facts : read reads hash = Ok facts ->
  gf_chainId facts = chainId /\ gf_escrowAddress facts = escrowAddress /\ gf_txHash facts = hash.
Proof.
  unfold readGovernedUnpause. rewrite throw_if_bind. intros [Hc H].
  apply negb_false_iff, Z.eqb_eq in Hc.
  destruct (gr_receipt reads) as [r|]; [destruct (gr_blockTimestamp reads); [|done]|];
    injection H as <-; done.
Qed.

Lemma evaluate_ok facts r e :
  evaluate facts {| cr_tradeId := tc_trade_id r; cr_incidentReference := tc_incident_reference r;
    cr_openedAt := tc_opened_at r |} = Ok e ->
  gf_chainId facts = chainId -> gf_escrowAddress facts = escrowAddress ->
  lower_hex_word 64 (gf_txHash facts) = true -> authorises facts r e.
Proof.
  unfold evaluateGovernedUnpause. rewrite !refuse_if_bind. intros (_ & H1 & H2 & H) Hc He Hx.
  apply negb_false_iff, bool_decide_eq_true in H1. apply Z.ltb_ge in H2.
  destruct (List.find _ _) as [l|] eqn:F; [|done]. apply List.find_some in F as [Fl Fp].
  rewrite !refuse_if_bind in H. destruct H as (H3 & H4 & H5 & H).
  apply bind_ok in H as (matches & Hm & H). rewrite refuse_if_bind in H. destruct H as (H6 & H).
  apply negb_false_iff in H3, H4, H5, H6. subst matches.
  destruct (last _) as [final|]; [|done]. rewrite !refuse_if_bind in H.
  destruct H as (H7 & H8 & H9 & [= <-]). apply Z.ltb_ge in H7, H8. reflect_bools.
  unfold matchesIncidentReference, incidentRefCandidates in Hm. cbn in Hm.
  destruct (encodeBytes32String _) as [b|] eqn:B; [|done]. injection Hm as Hm.
  apply includes_true in Hm. rewrite He in *.
  split; cbn; try done.
  - exists l. split_and!; [by apply list_elem_of_In | done | done].
  - by exists b.
  - intros at_ Ht. cbn in H9. rewrite Ht in H9. unfold new_date in Ht.
    destruct (time_in_range _); [|done]. injection Ht as <-. apply Z.leb_gt in H9. done.
Qed.

Lemma governed_authorises r e : governed r e -> exists facts, authorises facts r e.
Proof.
  intros (reads & hash & facts & Hh & Hr & He). exists facts.
  apply read_ok in Hr as (H1 & H2 & H3). apply evaluate_ok; [done..|]. by rewrite H3.
Qed.

(** ** Order of events *)

(** The run found a qualifying discrepancy on the trade. *)
Definition diverges (t : string) (en : entry) : Prop :=
  match en with
  | Published _ findings _ _ =>
      exists f, f ∈ findings /\ isQualifyingDiscrepancy f = true /\ df_tradeId f = t
  | Released _ _ => False
  end.

(** The run compared the trade and has no finding about it. *)
Definition vouches (t runKey : string) (en : entry) : Prop :=
  match en with
  | Published k findings compared _ =>
      k = runKey /\ t ∈ compared /\ forall f, f ∈ findings -> df_tradeId f <> t
  | Released _ _ => False
  end.

(** The run read the trade as paused at its boundary block. *)
Definition saw_pause (t : string) (en : entry) : Prop :=
  match en with
  | Published _ _ _ observations =>
      exists o, map_get t observations = Some o /\ po_paused o = true
  | Released _ _ => False
  end.

(** [P] happened, and the trade has not diverged in a later run. *)
Definition since (t : string) (P : entry -> Prop) (log : list entry) : Prop :=
  exists newer en older, log = newer ++ en :: older /\ P en /\
    Forall (fun en' => ~ diverges t en') newer.

Lemma since_now t (P : entry -> Prop) en log : P en -> since t P (en :: log).
Proof. intros H. by exists [], en, log. Qed.

Lemma since_later t P en log : ~ diverges t en -> since t P log -> since t P (en :: log).
Proof.
  intros Hd (newer & e & older & -> & HP & HF). exists (en :: newer), e, older.
  split_and!; [done | done | by constructor].
Qed.

Lemma since_mono t (P Q : entry -> Prop) log :
  (forall en, P en -> Q en) -> since t P log -> since t Q log.
Proof. intros H (n & e & o & ? & ? & ?). exists n, e, o. auto. Qed.

Lemma qualified_diverges t findings :
  t ∈ qd_tradeId <$> qualifyDiscrepancies findings <->
  exists f, f ∈ findings /\ isQualifyingDiscrepancy f = true /\ df_tradeId f = t.
Proof.
  split.
  - intros (q & -> & (id & Hq)%qualifyDiscrepancies_elem)%list_elem_of_fmap.
    apply discrepancy_spec in Hq as (Hid & Hf & Hne & _).
    destruct (qd_findings q) as [|f l]; [done|].
    assert (Hin : f ∈ qualifying_of id findings) by (rewrite <- Hf; left).
    apply list_elem_of_In, filter_In in Hin as [Hin Hp]. apply andb_true_iff in Hp as [Hp1 Hp2].
    exists f. split_and!; [by apply list_elem_of_In | done|]. apply String.eqb_eq in Hp2. congruence.
  - intros (f & Hf & Hq & <-). destruct (discrepancy_some _ _ Hf Hq) as [q Hqs].
    destruct (discrepancy_spec _ _ _ Hqs) as (H1 & _). rewrite <- H1.
    apply list_elem_of_fmap_2, qualifyDiscrepancies_elem. eauto.
Qed.

(** An observation is filed under its own trade. *)
Lemma observations_own pauses ids block t o :
  map_get t (observeTradePauses pauses ids block) = Some o -> po_tradeId o = t.
Proof.
  unfold observeTradePauses. generalize (js_set ids) as l. intros l.
  enough (H : forall acc : jsmap TradePauseObservation,
    (forall t o, map_get t acc = Some o -> po_tradeId o = t) ->
    forall t o, map_get t (foldl (fun observations tradeId => map_set tradeId
      match pauses tradeId with
      | Ok paused => {| po_tradeId := tradeId; po_paused := paused; po_blockNumber := block;
                        po_readError := None |}
      | Err m => {| po_tradeId := tradeId; po_paused := false; po_blockNumber := block;
                    po_readError := Some m |}
      end observations) acc l) = Some o -> po_tradeId o = t) by (by apply (H [])).
  induction l as [|x l IH]; intros acc Hacc t' o'; cbn [foldl]; [apply Hacc|].
  apply IH. intros t2 o2. destruct (decide (x = t2)) as [->|Hne].
  - rewrite map_get_set. intros [= <-]. by destruct (pauses t2).
  - rewrite map_get_set_ne by done. apply Hacc.
Qed.

(** What the state and the pause column of a row stand for. *)
Definition row_recovery (log : list entry) (t : string) (r : TradeContainmentRow) : Prop :=
  (tc_state r = RECONCILED_PENDING_APPROVAL ->
     since t (fun en => exists k, k <> tc_opened_run_key r /\ vouches t k en) log) /\
  (is_Some (tc_pause_observed r) -> since t (saw_pause t) log).

Definition recovery_inv (log : list entry) (d : containment_db) : Prop :=
  forall t r, containments d !! t = Some r -> row_recovery log t r.

Lemma recovery_insert log d d' t r :
  recovery_inv log d -> containments d' = <[t := r]> (containments d) -> row_recovery log t r ->
  recovery_inv log d'.
Proof.
  intros Hd E Hr t' r'. rewrite E, lookup_insert_Some. intros [[<- <-]|[_ H]]; [done | by apply Hd].
Qed.

Lemma recovery_update log d t guard f :
  recovery_inv log d ->
  (forall r, containments d !! t = Some r -> guard r = true -> row_recovery log t r ->
     row_recovery log t (f r)) ->
  recovery_inv log (update_containment t guard f d).
Proof.
  intros Hd Hf. destruct (update_containment_rows t guard f d) as [_ [E|(r & Hr & Hg & E)]].
  - intros t' r. rewrite E. apply Hd.
  - eapply recovery_insert; [exact Hd | exact E | by apply Hf, Hd].
Qed.

(** The second pass of a published run keeps the rows' meaning. *)
Lemma recovery_review en log dec :
  (forall o, map_get (po_tradeId o) (cd_pauseObservations dec) = Some o -> po_paused o = true ->
     saw_pause (po_tradeId o) en) ->
  publish_stable (fun _ => False) (fun t k => vouches t k en)
    (fun o => map_get (po_tradeId o) (cd_pauseObservations dec) = Some o)
    (recovery_inv (en :: log)).
Proof.
  intros Hpause. split.
  - intros d d' E _ Hd t r. rewrite E. apply Hd.
  - done.
  - intros t k now d Hv Hd. apply recovery_update; [done|]. intros r _ Hg [_ Hp].
    split; [|exact Hp]. intros _. apply since_now. exists k. split; [|done].
    apply andb_true_iff in Hg as [_ Hg%negb_true_iff%String.eqb_neq]. cbn. congruence.
  - intros o now d Hget Hd. apply recovery_update; [done|]. intros r _ _ [Hp1 Hp2].
    split; [exact Hp1|]. cbn. destruct (po_paused o) eqn:P; [|exact Hp2].
    intros _. by apply since_now, Hpause.
Qed.

(** After the first pass a diverging trade has nothing to show; the others are
    as they were. *)
Lemma recovery_contain en log rx qs draws d d' :
  contain_all rx draws qs d = Ok d' ->
  (forall t r, containments d !! t = Some r -> row_recovery (en :: log) t r \/
     ~ diverges t en /\ row_recovery log t r \/ t ∈ qd_tradeId <$> qs) ->
  recovery_inv (en :: log) d'.
Proof.
  revert draws d. induction qs as [|q qs IH]; intros dr d; cbn [contain_all].
  - intros [= <-] Ha t r Hr. destruct (Ha t r Hr) as [?|[[Hnd [H1 H2]]|Hin]]; [done | |].
    + split; intros ?; apply since_later; auto.
    + by apply elem_of_nil in Hin.
  - intros Hc Ha. apply bind_ok in Hc as (d1 & Hc1 & Hc2). eapply IH; [exact Hc2|].
    unfold contain_one in Hc1. apply bind_ok in Hc1 as ([d2 r2] & Ho1 & [= <-]).
    apply openContainment_rows in Ho1 as (_ & E & Hrow). intros t r. cbn.
    rewrite E, lookup_insert_Some. intros [[<- <-]|[Hne Hr]].
    + left. destruct Hrow as [(r0 & _ & ->)|(_ & -> & _)]; split; cbn; try done; by intros [? ?].
    + destruct (Ha t r Hr) as [?|[?|Hin]]; [by left | by right; left |].
      apply elem_of_cons in Hin as [->|Hin]; [done | by right; right].
Qed.

Lemma recovery_publish rx draws fs compared dec window sla d d' ids log :
  cd_qualified dec = qualifyDiscrepancies fs ->
  cd_cleanTradeIds dec = cleanlyReconciledTradeIds compared fs ->
  (forall t o, map_get t (cd_pauseObservations dec) = Some o -> po_tradeId o = t) ->
  publish_containment rx draws fs dec window sla d = Ok (d', ids) ->
  recovery_inv log d ->
  recovery_inv (Published (rx_runKey rx) fs compared (cd_pauseObservations dec) :: log) d'.
Proof.
  intros Eq Ec Ho H Hd. set (en := Published _ _ _ _).
  apply publish_parts in H as (d0 & d1 & d2 & E1 & E2 & H1 & -> & E3 & E4).
  intros t r. rewrite E3. revert t r. eapply review_all_stable; [apply (recovery_review en log dec)| | |].
  - intros o Hg Hp. by exists o.
  - intros t Hn Hin. rewrite Ec, clean_ids_elem in Hin. destruct Hin as [Hin Hf].
    split_and!; [done | done|]. intros f Hff <-. by apply Hf, list_elem_of_fmap_2.
  - intros t o Hg. by destruct (Ho _ _ Hg).
  - eapply recovery_contain; [exact H1|]. rewrite Eq. intros t r Hr.
    destruct (decide (t ∈ qd_tradeId <$> qualifyDiscrepancies fs)) as [Hin|Hn];
      [by right; right|]. right. left. rewrite qualified_diverges in Hn. split; [exact Hn|].
    apply Hd. by rewrite <- E1.
Qed.

Lemma recovery_release log t now e d0 ds d d' :
  release_facts t now e d0 ds d d' -> recovery_inv log d -> recovery_inv (Released t e :: log) d'.
Proof.
  intros [_ _ (r & Hr & _ & E) _ _] Hd t' r'. rewrite E, lookup_insert_Some.
  intros [[<- <-]|[_ H]].
  - destruct (Hd _ _ Hr) as [_ Hp]. split; [done|]. intros ?. apply since_later; [by intros [] | auto].
  - destruct (Hd _ _ H) as [H1 H2]. split; intros ?; (apply since_later; [by intros [] | auto]).
Qed.

(** What a release entry of the log was granted on. *)
Definition recovered (d : containment_db) (t : string) (older : list entry) : Prop :=
  exists row, containments d !! t = Some row /\
    since t (fun en => exists k, k <> tc_opened_run_key row /\ vouches t k en) older /\
    since t (saw_pause t) older.

Lemma recovered_later d d' t older : rows_later d d' -> recovered d t older -> recovered d' t older.
Proof.
  intros Hl (row & Hr & H1 & H2). destruct (Hl _ _ Hr) as (row' & Hr' & (_ & _ & _ & Hk)).
  exists row'. by rewrite Hk.
Qed.

Lemma history_recovery w past :
  containment_history (w :: past) -> recovery_inv (cw_log w) (cw_db w) /\
  (overlap = false -> forall newer t e older, cw_log w = newer ++ Released t e :: older ->
     recovered (cw_db w) t older).
Proof.
  remember (w :: past) as h eqn:E. intros H. revert w past E.
  induction H as [|past w w' Hh IH Hop]; intros w1 past1 [= <- <-].
  - split; [intros t r Hr; cbn in Hr; by rewrite lookup_empty in Hr|]. intros _ [|? ?] ? ? ?; discriminate.
  - destruct (IH _ _ eq_refl) as [Hr Hrel]. pose proof (op_rows_later _ _ _ Hop) as Hl.
    split.
    + destruct Hop as [rx draws fs compared pauses w0 window sla d ids _ dec Hp
        |t tx reads now w0 ws e hash d H0 Hs _ Hp Hh' He|deliver now limit]; cbn.
      * apply (recovery_publish rx draws fs compared dec window sla (cw_db w) d ids);
          [done | done | | exact Hp | done]. intros t o. apply observations_own.
      * by eapply recovery_release; [eapply release_inv|].
      * intros t r. destruct (dispatch_rows deliver now limit (cw_db w)) as [-> _]. apply Hr.
    + intros Hov newer t e older Hlog.
      destruct Hop as [rx draws fs compared pauses w0 window sla d ids _ dec Hp
        |t' tx reads now w0 ws e' hash d H0 Hs Hiso Hp Hh' He|deliver now limit]; cbn in Hlog;
        [| |by eapply recovered_later, Hrel].
      * destruct newer as [|en newer]; [discriminate|]. injection Hlog as _ Hlog.
        by eapply recovered_later, Hrel.
      * destruct newer as [|en newer]; [injection Hlog as <- <- <-
          | injection Hlog as _ Hlog; by eapply recovered_later, Hrel].
        eapply release_inv in Hp; [|exact Hh'|exact He]. rewrite (Hiso Hov) in Hp.
        eapply recovered_later; [exact Hl|].
        destruct (rf_snapshot _ _ _ _ _ _ _ Hp) as (rs & Hrs & Hst & Hpa & _).
        exists rs. destruct (Hr _ _ Hrs). auto.
Qed.

(** ** Blocking *)

Definition blocks (d : containment_db) (t : string) : Prop :=
  exists r, containments d !! t = Some r /\ blocking r = true.

Lemma blocks_update d t t' guard f :
  (forall r, guard r = true -> blocking (f r) = true) ->
  blocks d t -> blocks (update_containment t' guard f d) t.
Proof.
  intros Hf (r & Hr & Hb). destruct (update_containment_rows t' guard f d) as [_ [E|(r' & _ & Hg & E)]].
  - exists r. by rewrite E.
  - unfold blocks. rewrite E. destruct (decide (t' = t)) as [->|Hne].
    + exists (f r'). rewrite lookup_insert_eq. auto.
    + exists r. by rewrite lookup_insert_ne.
Qed.

Lemma blocks_open i now d d' r t :
  openContainment i now d = Ok (d', r) -> (oi_tradeId i = t \/ blocks d t) -> blocks d' t.
Proof.
  intros (_ & E & Hrow)%openContainment_rows Ht. unfold blocks. rewrite E.
  destruct (decide (oi_tradeId i = t)) as [<-|Hne].
  - exists r. rewrite lookup_insert_eq. split; [done|]. destruct Hrow as [(? & _ & ->)|(_ & -> & _)]; done.
  - destruct Ht as [?|(r0 & Hr0 & Hb)]; [done|]. exists r0. by rewrite lookup_insert_ne.
Qed.

Lemma blocks_stable diverging clean observed t :
  publish_stable diverging clean observed (fun d => blocks d t).
Proof.
  split.
  - intros d d' E _. unfold blocks. by rewrite E.
  - intros i now d d' r _ Ho Hb. eapply blocks_open; eauto.
  - intros t' k now d _. by apply blocks_update.
  - intros o now d _. by apply blocks_update.
Qed.

(** Only a release of the trade itself unblocks it. *)
Lemma blocking_until_released past w w' t :
  containment_op past w w' -> blocks (cw_db w) t ->
  (exists e, cw_log w' = Released t e :: cw_log w) \/ blocks (cw_db w') t.
Proof.
  intros [rx draws fs compared pauses w0 window sla d ids _ dec H
    |t' tx reads now w0 ws e hash d _ _ _ H Hh He|deliver now limit] Hb.
  - right. eapply (publish_stable_ok _ _ _ _ _ _ _ _ _ (fun _ _ => True) (fun _ => True));
      [apply blocks_stable | done | done | exact H | exact Hb].
  - destruct (decide (t' = t)) as [->|Hne]; [left; by exists e|]. right.
    eapply release_inv in H; [|exact Hh|exact He].
    destruct (rf_updated _ _ _ _ _ _ _ H) as (r & _ & _ & E), Hb as (r0 & Hr0 & Hb).
    exists r0. cbn. by rewrite E, lookup_insert_ne.
  - right. unfold blocks. cbn. by destruct (dispatch_rows deliver now limit (cw_db w)) as [-> _].
Qed.

(** Publishing a qualifying discrepancy blocks its trade. *)
Lemma publish_blocks rx draws fs dec window sla d d' ids t :
  publish_containment rx draws fs dec window sla d = Ok (d', ids) ->
  t ∈ qd_tradeId <$> cd_qualified dec -> blocks d' t.
Proof.
  intros H Ht. apply publish_parts in H as (d0 & d1 & d2 & _ & _ & H1 & -> & E3 & _).
  unfold blocks. rewrite E3. apply (review_all_stable _ _ _ _ _ (fun _ => True) (fun _ _ => True)
    (fun _ => True) (fun d => blocks d t)); [apply blocks_stable | done | done |].
  clear E3. revert Ht H1. generalize (cd_qualified dec) as qs, d0, draws. clear.
  intros qs. induction qs as [|q qs IH]; intros d dr Ht; [by apply elem_of_nil in Ht|].
  cbn [contain_all]. intros H. apply bind_ok in H as (d2 & H2 & H3).
  unfold contain_one in H2. apply bind_ok in H2 as ([d3 r] & Ho & [= <-]).
  cbn in Ht. apply elem_of_cons in Ht as [->|Ht]; [|by eapply IH].
  eapply (contain_all_stable _ _ _ _ _ (fun _ => True) (fun _ _ => True) (fun _ => True)
    (fun d => blocks d (qd_tradeId q))); [apply blocks_stable | done | exact H3 |].
  eapply blocks_open in Ho; [exact Ho | by left].
Qed.

End Histories.

(** C29. Nothing is released without a governed decision.  In every history of
    published runs and releases, overlapping or not: a released containment
    carries the evidence of one unpause transaction on this deployment's chain
    and escrow, mined successfully at or below the finality boundary, emitting
    the unpause of this very trade, executing a trade-scoped proposal for this
    trade under this row's incident reference, with at least the required
    (positive) number of approvals, executed after the incident was opened; the
    trade had been seen paused; the transaction is in the ledger of spent
    approvals under this trade and incident, and no unpause transaction ever
    released twice. *)
Theorem release_is_governed encode keccak getAddress chainId escrow overlap past w t row :
  containment_history encode keccak getAddress chainId escrow overlap (w :: past) ->
  containments (cw_db w) !! t = Some row -> tc_state row = RELEASED ->
  tc_trade_id row = t /\ is_Some (tc_pause_observed row) /\
  (exists e facts, tc_approval row = Some e /\ is_Some (ge_executedAt e) /\
     authorises encode keccak chainId escrow facts row e /\
     exists s, s ∈ spent_approvals (cw_db w) /\ sp_tx_hash s = ge_txHash e /\ sp_trade_id s = t /\
       sp_incident_reference s = tc_incident_reference row) /\
  NoDup (released_hashes (cw_log w)).
Proof.
  intros Hh Hr Hs. destruct (history_base_inv _ _ _ _ _ _ _ _ Hh) as [Hb Hl].
  destruct (bi_released _ _ _ _ _ _ Hb _ _ Hr Hs) as (e & Ha & Hg & Hp & Hx & Hk).
  destruct (governed_authorises _ _ _ _ _ _ _ Hg) as [facts Hf].
  split_and!; [by eapply bi_key | done | by exists e, facts |].
  rewrite Hl. by eapply bi_spent.
Qed.

(** C30. A clean read is not enough, and neither is an approval.  When no release
    statement overlaps a run that is rewriting its row, every release in the
    history was preceded, after the last run in which the trade had a qualifying
    discrepancy, by a run other than the one that opened the incident that
    compared the trade and found nothing wrong with it, and by a run that read
    the trade as paused on chain. *)
Theorem release_needs_recovery encode keccak getAddress chainId escrow past w newer t e older :
  containment_history encode keccak getAddress chainId escrow false (w :: past) ->
  cw_log w = newer ++ Released t e :: older ->
  exists row, containments (cw_db w) !! t = Some row /\
    since t (fun en => exists k, k <> tc_opened_run_key row /\ vouches t k en) older /\
    since t (saw_pause t) older.
Proof. intros Hh Hl. by eapply history_recovery. Qed.

(** ** Sample histories

    Concrete containment histories: a contained trade that recovers and is
    released, and two releases that should give pause.  A release statement
    that overlaps a publishing run releases a trade the run has just contained
    again, and an unpause executed before a later divergence releases it. *)

Open Scope string_scope.
Open Scope Z_scope.
Open Scope list_scope.

(** ** A driver *)

(** Stand-ins for ethers. *)
Definition plain_encode (s : string) : option string :=
  if (String.length s <=? 31)%nat then Some (String.append "bytes32:" s) else None.
Definition plain_keccak (s : string) : string := String.append "keccak:" s.
Definition plain_address (s : string) : string := s.

Definition sample_escrow : string := sample_address "e".

Notation sample_op := (containment_op plain_encode plain_keccak plain_address 84532 sample_escrow).
Notation sample_history :=
  (containment_history plain_encode plain_keccak plain_address 84532 sample_escrow).
Notation sample_release :=
  (release plain_encode plain_keccak plain_address 84532 sample_escrow).
Notation sample_evidence :=
  (release_evidence plain_encode plain_keccak plain_address 84532 sample_escrow).

Definition sample_boundary (block : Z) : CoverageBoundary :=
  {| cb_blockNumber := block; cb_blockHash := "0xb"; cb_tag := tag_finalized;
     cb_chainTradeCounter := 9; cb_indexerProcessedBlock := block;
     cb_finalityBlockNumber := block; cb_indexerAhead := false |}.

Definition quiet_window : CoverageWindow :=
  {| cw_fromTradeId := 0; cw_toTradeId := 8; cw_nextCursor := 9; cw_uncoveredTail := 0;
     cw_complete := true |}.

Definition quiet_sla : CoverageSlaVerdict :=
  {| sla_breached := false; sla_uncoveredTail := 0; sla_oldestUncoveredAgeMs := None;
     sla_reason := None |}.

(** One run as it is published: key, time, findings, compared trades, and
    whether the trades read as paused. *)
Record sample_run_input := {
  si_key : string; si_now : Z; si_findings : list DriftFinding; si_compared : list string;
  si_paused : bool }.

Definition sample_rx (i : sample_run_input) : RunContext :=
  {| rx_runId := 1; rx_runKey := si_key i; rx_boundary := sample_boundary 20;
     rx_now := si_now i |}.

Definition publish_result (i : sample_run_input) (w : cworld)
    : result containment_error (containment_db * list string) * ContainmentDecisions :=
  let rx := sample_rx i in
  let dec := resolveContainmentDecisions (fun _ => Ok (si_paused i)) (si_findings i) (si_compared i)
               (cb_blockNumber (rx_boundary rx)) (listBlockingContainments (cw_db w)) in
  (publish_containment rx ["0a0b0c0d"] (si_findings i) dec quiet_window quiet_sla (cw_db w), dec).

Definition do_publish (i : sample_run_input) (w : cworld) : cworld :=
  match publish_result i w with
  | (Ok (d, _), dec) =>
      {| cw_db := d;
         cw_log := Published (si_key i) (si_findings i) (si_compared i) (cd_pauseObservations dec)
                   :: cw_log w |}
  | (Err _, _) => w
  end.

Lemma do_publish_op overlap i past w :
  is_ok (publish_result i w).1 = true -> sample_op overlap past w (do_publish i w).
Proof.
  intros H. unfold do_publish. destruct (publish_result i w) as [[[d ids]|e] dec] eqn:E; [|done].
  injection E as E <-.
  refine (op_publish _ _ _ _ _ _ _ _ _ _ (si_findings i) (si_compared i) (fun _ => Ok (si_paused i))
    w _ _ d ids (list_elem_of_here _ _) E).
Qed.

(** A release from a row read in [w0] with the snapshot of [ws]. *)
Definition do_release (t tx : string) (reads : GovernanceReads) (now : Z) (w0 ws w : cworld)
    : cworld :=
  match normalizeTxHash tx with
  | Ok hash =>
      match sample_evidence t hash (getContainment t (cw_db w0)) reads,
            sample_release t tx reads now (cw_db w0) (cw_db ws) (cw_db w) with
      | Ok e, Ok d => {| cw_db := d; cw_log := Released t e :: cw_log w |}
      | _, _ => w
      end
  | Err _ => w
  end.

Definition release_goes (t tx : string) (reads : GovernanceReads) (now : Z) (w0 ws w : cworld)
    : bool :=
  match normalizeTxHash tx with
  | Ok hash => is_ok (sample_evidence t hash (getContainment t (cw_db w0)) reads)
               && is_ok (sample_release t tx reads now (cw_db w0) (cw_db ws) (cw_db w))
  | Err _ => false
  end.

Lemma do_release_op overlap t tx reads now w0 ws past w :
  w0 ∈ w :: past -> ws ∈ w :: past -> (overlap = false -> ws = w) ->
  release_goes t tx reads now w0 ws w = true ->
  sample_op overlap past w (do_release t tx reads now w0 ws w).
Proof.
  intros H0 Hs Hov. unfold release_goes, do_release.
  destruct (normalizeTxHash tx) as [hash|] eqn:Hh; [|done].
  destruct (sample_evidence _ _ _ _) as [e|] eqn:He; [|done].
  destruct (sample_release _ _ _ _ _ _ _) as [d|] eqn:Hr; [|done]. intros _.
  by apply (op_release _ _ _ _ _ _ _ _ t tx reads now w0 ws e hash d).
Qed.

(** ** Recovery of a contained trade *)

Definition sample_tx (c : ascii) : string := String.append "0x" (repeat_char 64 c).

Definition drift_of_7 : DriftFinding :=
  {| df_tradeId := "7"; df_severity := CRITICAL; df_mismatchCode := AMOUNT_MISMATCH;
     df_comparedField := "totalAmountLocked"; df_onchainValue := Some "101";
     df_indexedValue := Some "100" |}.

Definition diverging_run (key : string) (now : Z) : sample_run_input :=
  {| si_key := key; si_now := now; si_findings := [drift_of_7]; si_compared := ["6"; "7"];
     si_paused := true |}.

Definition clean_run (key : string) (now : Z) : sample_run_input :=
  {| si_key := key; si_now := now; si_findings := []; si_compared := ["6"; "7"];
     si_paused := true |}.

Definition sample_day : Z := 20000 * MS_PER_DAY.

Definition sample_reference : string := generateIncidentReference sample_day "0a0b0c0d".

(** The governed unpause of trade 7 under that incident, executed at [at_] seconds. *)
Definition sample_reads (at_ : Z) : GovernanceReads :=
  {| gr_chainId := 84532;
     gr_receipt := Some
       {| rp_status := Some 1; rp_blockNumber := 30; rp_blockHash := "0xc";
          rp_logs := [UnpauseApproved sample_escrow "0xadmin" 2 2 4;
                      TradeUnpaused sample_escrow 7 5] |};
     gr_blockTimestamp := Some at_; gr_finalityBlock := Some 40;
     gr_proposal := {| up_scope := 2; up_tradeId := "7";
       up_incidentRef := String.append "bytes32:" sample_reference; up_approvalCount := 2;
       up_executed := true |} |}.

Definition w1 : cworld := do_publish (diverging_run "r1" sample_day) start_cworld.
Definition w2 : cworld := do_publish (clean_run "r2" (sample_day + 1000)) w1.
Definition w3 : cworld :=
  do_release "7" (sample_tx "a") (sample_reads (sample_day / 1000 + 2)) (sample_day + 5000) w2 w2 w2.

Lemma w3_history overlap : sample_history overlap [w3; w2; w1; start_cworld].
Proof.
  repeat (first [apply containment_start | eapply containment_step]).
  - apply do_publish_op. vm_compute. reflexivity.
  - apply do_publish_op. vm_compute. reflexivity.
  - apply do_release_op; [left | left | done | vm_compute; reflexivity].
Qed.

Definition row_of (w : cworld) (t : string) : TradeContainmentRow :=
  default (opened_row {| oi_tradeId := ""; oi_incidentReference := ""; oi_runKey := "";
    oi_qualifyingCodes := []; oi_evidence := buildContainmentEvidence "" 0 ""
      {| qd_tradeId := ""; qd_codes := []; qd_findings := [] |} |} 0 0) (containments (cw_db w) !! t).

Lemma release_is_governed_witness :
  tc_state (row_of w3 "7") = RELEASED /\ tc_trade_id (row_of w3 "7") = "7" /\
  NoDup (released_hashes (cw_log w3)) /\ released_hashes (cw_log w3) = [sample_tx "a"].
Proof.
  assert (Hs : tc_state (row_of w3 "7") = RELEASED) by (vm_compute; reflexivity).
  destruct (release_is_governed plain_encode plain_keccak plain_address 84532 sample_escrow false
    [w2; w1; start_cworld] w3 "7" (row_of w3 "7")) as (H1 & _ & _ & H2).
  - exact (w3_history false).
  - vm_compute. reflexivity.
  - exact Hs.
  - split; [exact Hs|]. split; [exact H1|]. split; [exact H2|]. vm_compute. reflexivity.
Defined.

Lemma release_needs_recovery_witness :
  exists e older, cw_log w3 = Released "7" e :: older /\ since "7" (saw_pause "7") older.
Proof.
  assert (Hl : exists e, cw_log w3 = [] ++ Released "7" e :: cw_log w2)
    by (eexists; vm_compute; reflexivity).
  destruct Hl as [e Hl]. exists e, (cw_log w2). split; [exact Hl|].
  destruct (release_needs_recovery plain_encode plain_keccak plain_address 84532 sample_escrow
    [w2; w1; start_cworld] w3 [] "7" e (cw_log w2) (w3_history false) Hl) as (row & _ & _ & H).
  exact H.
Defined.

(** ** Two releases that should give pause *)

(** The release statement starts while the trade awaits approval, waits for a
    run that contains it again, and then releases it. *)
Definition w3' : cworld := do_publish (diverging_run "r3" (sample_day + 3000)) w2.
Definition w4' : cworld :=
  do_release "7" (sample_tx "a") (sample_reads (sample_day / 1000 + 2)) (sample_day + 5000) w2 w2 w3'.

Example overlapping_release_frees_diverging_trade :
  sample_history true [w4'; w3'; w2; w1; start_cworld] /\
  tc_state (row_of w3' "7") = CONTAINED /\ tc_state (row_of w4' "7") = RELEASED /\
  match cw_log w4' with Released "7" _ :: en :: _ => diverges "7" en | _ => False end.
Proof.
  split; [|split; [vm_compute; reflexivity | split; [vm_compute; reflexivity|]]].
  - repeat (first [apply containment_start | eapply containment_step]).
    + apply do_publish_op. vm_compute. reflexivity.
    + apply do_publish_op. vm_compute. reflexivity.
    + apply do_publish_op. vm_compute. reflexivity.
    + apply do_release_op; [right; left | right; left | done | vm_compute; reflexivity].
  - vm_compute. exists drift_of_7. split; [left | split; reflexivity].
Qed.

(** The unpause is executed two seconds after the incident was opened; the trade
    diverges again a second later, is paused and found clean again; the earlier
    unpause still releases it. *)
Definition w4'' : cworld := do_publish (clean_run "r4" (sample_day + 4000)) w3'.
Definition w5'' : cworld :=
  do_release "7" (sample_tx "a") (sample_reads (sample_day / 1000 + 2)) (sample_day + 5000) w4'' w4'' w4''.

Example earlier_unpause_releases_later_divergence :
  sample_history false [w5''; w4''; w3'; w2; w1; start_cworld] /\
  tc_state (row_of w5'' "7") = RELEASED /\
  tc_last_observed_at (row_of w3' "7") = Some (sample_day + 3000) /\
  (tc_approval (row_of w5'' "7") ≫= ge_executedAt) = Some (sample_day + 2000).
Proof.
  split; [|vm_compute; auto].
  repeat (first [apply containment_start | eapply containment_step]).
  - apply do_publish_op. vm_compute. reflexivity.
  - apply do_publish_op. vm_compute. reflexivity.
  - apply do_publish_op. vm_compute. reflexivity.
  - apply do_publish_op. vm_compute. reflexivity.
  - apply do_release_op; [left | left | done | vm_compute; reflexivity].
Qed.
