(* ===== verification/FinancialCoverage.v ===== *)
(** The coverage proof the reconciliation service serves to the services that
    move money: [readFinancialCoverage] of
    reconciliation/src/core/financialCoverage.ts, over the reconciliation tables
    ([ReconDb]) and the containment table ([Containment]).

    The theorem composes the two halves of the service: a proof that is served
    rests on a published comparison of that very trade with the chain, at the
    block the proof names, however runs interleaved. *)
From stdpp Require Import base list strings gmap.
From S2P Require Import Prelude JsText JsDate JsMap ReconTypes ReconCoverage ReconClassifier.
From S2P Require Import ReconDb ReconRun ReconRunInv ReconHistory ReconSound.
From S2P Require Import FundedBinding Containment.

Open Scope string_scope.
Open Scope Z_scope.

(** ** The query *)

(** [/^(0|[1-9][0-9]{0,15})$/.test(value)] and [BigInt(value) <= MAX_SAFE_INTEGER] *)
Definition block_text (s : string) : bool :=
  canonical_digits s && (String.length s <=? 16)%nat
  && (Z.of_N (digits_value s) <=? MAX_SAFE_INTEGER).

(** [status = 'COMPLETED' AND drift_count = 0 AND error_message IS NULL AND
    coverage_complete IS TRUE AND indexer_enumeration_truncated IS FALSE AND
    chain_evidence IS NOT NULL], with the coverage the evidence was written from:
    [completeRun] writes the coverage columns and [chain_evidence] from one value,
    and all of them are null when there was none. *)
Definition clean_coverage (row : ReconcileRunRow) : option RunCoverage :=
  match rr_stats row with
  | Some stats =>
      match st_coverage stats with
      | Some cov =>
          if bool_decide (rr_status row = COMPLETED) && (st_driftCount stats =? 0)
             && negb (bool_decide (is_Some (rr_error_message row)))
             && rc_complete cov && negb (rc_indexerEnumerationTruncated cov)
          then Some cov else None
      | None => None
      end
  | None => None
  end.

(** [JOIN reconcile_run_trades ... WHERE trade_id = $1] *)
Definition run_covers (key tradeId : string) (d : recon_db) : bool :=
  existsb (fun s => String.eqb (sc_run_key s) key && String.eqb (sc_trade_id s) tradeId)
    (reconcile_run_trades d).

(** The first [NOT EXISTS]: a newer run over the trade that is not clean. *)
Definition newer_unclean (id : Z) (tradeId : string) (d : recon_db) : bool :=
  existsb (fun '(key, row) => run_covers key tradeId d && (id <? rr_id row)
                              && negb (bool_decide (is_Some (clean_coverage row))))
    (map_to_list (reconcile_runs d)).

(** One row of the result before [LIMIT]: run key, completion time, evidence. *)
Record CoverageRow := { cv_run_key : string; cv_id : Z; cv_completed_at : Z; cv_evidence : RunCoverage }.

Definition coverage_row (d : recon_db) (tradeId : string) (finalizedBlock from now : Z)
    (entry : string * ReconcileRunRow) : option CoverageRow :=
  let '(key, row) := entry in
  cov ← clean_coverage row;
  completed ← rr_completed_at row;
  if run_covers key tradeId d && (cb_blockNumber (rc_boundary cov) <=? finalizedBlock)
     && (from <=? completed) && (completed <=? now) && negb (newer_unclean (rr_id row) tradeId d)
  then Some {| cv_run_key := key; cv_id := rr_id row; cv_completed_at := completed;
               cv_evidence := cov |}
  else None.

(** The second [NOT EXISTS] is on the containment table; [ORDER BY r.id DESC LIMIT 1]. *)
Definition coverage_query (d : recon_db) (c : containment_db) (tradeId : string)
    (finalizedBlock from now : Z) : option CoverageRow :=
  if bool_decide (is_Some (isTradeContained tradeId c)) then None
  else head (js_sort (fun a b => cv_id b <=? cv_id a)
               (omap (coverage_row d tradeId finalizedBlock from now)
                  (map_to_list (reconcile_runs d)))).

Record FinancialCoverage := {
  fc_runKey : string;
  fc_tradeId : string;
  fc_verifiedAt : string;
  fc_evidence : RunCoverage
}.

(** [now] is a valid date.  A freshness limit before the range of dates is an
    invalid date, which the database refuses as a timestamp. *)
Definition readFinancialCoverage (d : recon_db) (c : containment_db)
    (tradeId finalizedBlockNumber : string) (maxAgeMs now : Z)
    : result string (option FinancialCoverage) :=
  if negb (uint256_text tradeId) || negb (block_text finalizedBlockNumber)
     || negb (is_safe_integer maxAgeMs) || (maxAgeMs <=? 0)
  then Ok None
  else
    match new_date (now - maxAgeMs) with
    | None => Err "invalid input syntax for type timestamp with time zone"
    | Some from =>
        match coverage_query d c tradeId (amount finalizedBlockNumber) from now with
        | None => Ok None
        | Some row =>
            if negb (time_in_range (cv_completed_at row)) || (now <? cv_completed_at row)
               || (maxAgeMs <? now - cv_completed_at row)
            then Ok None
            else
              verifiedAt ← toISOString (new_date (cv_completed_at row));
              Ok (Some {| fc_runKey := cv_run_key row; fc_tradeId := tradeId;
                          fc_verifiedAt := verifiedAt; fc_evidence := cv_evidence row |})
        end
    end.

(** ** What a served proof rests on *)

Lemma clean_coverage_row row cov :
  clean_coverage row = Some cov -> clean_row row cov /\ rr_error_message row = None /\
  rc_indexerEnumerationTruncated cov = false.
Proof.
  unfold clean_coverage, clean_row. destruct (rr_stats row) as [st|]; [|done].
  destruct (st_coverage st) as [c|] eqn:Hc; [|done].
  destruct (_ && _) eqn:H; [|done]. intros [= ->]. reflect_bools.
  split_and!; [done | by exists st | | done].
  destruct (rr_error_message row); [|done]. by match goal with H : ~ is_Some _ |- _ => destruct H end.
Qed.

Lemma run_covers_scope key tradeId d :
  run_covers key tradeId d = true ->
  exists s, s ∈ scope_of key d /\ sc_trade_id s = tradeId.
Proof.
  intros (s & Hs & H)%existsb_elem. apply andb_true_iff in H as [Hk Ht%String.eqb_eq].
  exists s. split; [|done]. apply list_elem_of_In, filter_In. split; [by apply list_elem_of_In | done].
Qed.

Lemma newer_unclean_false id tradeId d :
  newer_unclean id tradeId d = false -> forall key row, reconcile_runs d !! key = Some row ->
  id < rr_id row -> run_covers key tradeId d = true -> exists cov, clean_coverage row = Some cov.
Proof.
  unfold newer_unclean. rewrite existsb_false, Forall_forall. intros H key row Hr Hid Hc.
  specialize (H (key, row)). rewrite elem_of_map_to_list in H. specialize (H Hr). cbn in H.
  rewrite Hc in H. apply Z.ltb_lt in Hid. rewrite Hid in H. cbn in H.
  apply negb_false_iff, bool_decide_eq_true in H as [cov Hcov]. eauto.
Qed.

Lemma coverage_query_some d c tradeId fin from now r :
  coverage_query d c tradeId fin from now = Some r ->
  isTradeContained tradeId c = None /\ exists row,
    reconcile_runs d !! cv_run_key r = Some row /\ clean_coverage row = Some (cv_evidence r) /\
    rr_completed_at row = Some (cv_completed_at r) /\ cv_id r = rr_id row /\
    run_covers (cv_run_key r) tradeId d = true /\
    cb_blockNumber (rc_boundary (cv_evidence r)) <= fin /\
    from <= cv_completed_at r <= now /\ newer_unclean (rr_id row) tradeId d = false.
Proof.
  unfold coverage_query. case_bool_decide as Hc; [done|]. intros H. split.
  { destruct (isTradeContained tradeId c); [|done]. by destruct Hc. }
  apply head_Some_elem_of in H. rewrite js_sort_Permutation in H.
  apply list_elem_of_omap in H as ([key row] & Hin%elem_of_map_to_list & H).
  unfold coverage_row in H. destruct (clean_coverage row) as [cov|] eqn:Hcov; [|done].
  destruct (rr_completed_at row) as [t|] eqn:Ht; [|done]. cbn in H.
  destruct (_ && _) eqn:G; [|done]. injection H as <-. reflect_bools. cbn.
  exists row. split_and!; done || lia.
Qed.

Section served.
Context (isAddress : string -> bool) (getAddress : string -> string) (config : ReconConfig).
Notation recon_history := (recon_history isAddress getAddress config).

(** C22. A served coverage proof is sound.  In every history of interleaved
    reconciliation workers, whatever the containment table holds: if the service
    answers a trade with a proof, then some published run read that trade on the
    chain, at the block the evidence names, and found the indexer in agreement on
    every compared field; that block is covered by the finalized block the caller
    named; the run completed no longer ago than the allowed age and not in the
    future; no later run over the trade recorded drift, an error or incomplete
    coverage; and the trade is not contained. *)
Theorem served_coverage_sound past w c tradeId fin maxAge now proof :
  recon_history (w :: past) ->
  readFinancialCoverage (w_db w) c tradeId fin maxAge now = Ok (Some proof) ->
  exists row completed, reconcile_runs (w_db w) !! fc_runKey proof = Some row /\
    rr_status row = COMPLETED /\ rr_completed_at row = Some completed /\
    fc_verifiedAt proof = iso_text completed /\ 0 <= now - completed <= maxAge /\
    cb_blockNumber (rc_boundary (fc_evidence proof)) <= amount fin /\
    fc_tradeId proof = tradeId /\
    (exists p, p ∈ w_log w /\
       same_point (rd_boundary (pb_reads p)) (rc_boundary (fc_evidence proof)) /\
       agreed isAddress getAddress (pb_reads p) tradeId) /\
    (forall key newer, reconcile_runs (w_db w) !! key = Some newer -> rr_id row < rr_id newer ->
       run_covers key tradeId (w_db w) = true -> exists cov, clean_row newer cov) /\
    isTradeContained tradeId c = None.
Proof.
  intros Hh H. unfold readFinancialCoverage in H. destruct (_ || _ || _ || _); [done|].
  destruct (new_date (now - maxAge)) as [from|] eqn:Hfrom; [|done].
  destruct (coverage_query _ _ _ _ _ _) as [r|] eqn:Hq; [|done].
  destruct (_ || _ || _) eqn:Hg; [done|].
  apply coverage_query_some in Hq as (Hc & row & Hr & Hcl & Ht & _ & Hcov & Hb & Hft & Hn).
  apply orb_false_iff in Hg as [[Hin%negb_false_iff Hlo%Z.ltb_ge]%orb_false_iff Hhi%Z.ltb_ge].
  unfold new_date in H. rewrite Hin in H. cbn in H. injection H as <-. cbn.
  apply clean_coverage_row in Hcl as (Hclean & _ & _). pose proof Hclean as (Hs & _).
  destruct (wi_clean _ _ _ _ (history_inv _ _ _ _ _ Hh) _ _ _ Hr Hclean) as [_ Hsc].
  destruct (run_covers_scope _ _ _ Hcov) as (s & Hin' & <-).
  exists row, (cv_completed_at r). split_and!; try done; try lia; [by apply Hsc|].
  intros key newer Hk Hid Hc'. destruct (newer_unclean_false _ _ _ Hn key newer Hk Hid Hc') as [cov Hco].
  exists cov. by apply clean_coverage_row in Hco as [? _].
Qed.

End served.

(** ** A served proof *)

(** The answer for trade 2 after the sample sweep, fifty milliseconds in. *)
Definition served (c : containment_db) (fin : string) (now : Z) : option FinancialCoverage :=
  match readFinancialCoverage (w_db sw5) c "2" fin 60 now with
  | Ok p => p
  | Err _ => None
  end.

(** The proof names the run that completed the sweep, not the partial one before
    it; it goes away when the block is not final and when it is too old. *)
Example served_answers :
  (fun p => (fc_runKey p, fc_verifiedAt p)) <$> served empty_containment_db "41" 50
    = Some ("k2", "1970-01-01T00:00:00.030Z") /\
  served empty_containment_db "39" 50 = None /\
  served empty_containment_db "41" 91 = None.
Proof. vm_compute. done. Qed.

Lemma served_coverage_sound_witness :
  exists p, p ∈ w_log sw5 /\ agreed sample_isAddress sample_getAddress (pb_reads p) "2".
Proof.
  assert (exists proof, readFinancialCoverage (w_db sw5) empty_containment_db "2" "41" 60 50
    = Ok (Some proof)) as [proof Hp] by (vm_compute; eauto).
  destruct (served_coverage_sound sample_isAddress sample_getAddress sample_config
    [sw4; sw3; sw2; sw1; sw0] sw5 empty_containment_db "2" "41" 60 50 proof sw5_history Hp)
    as (row & t & _ & _ & _ & _ & _ & _ & _ & (p & Hin & _ & Ha) & _).
  exists p. split; [exact Hin | exact Ha].
Defined.
