(* ===== verification/OracleContainment.v ===== *)
(** Containment stops the oracle: an operation of the oracle runs while
    reconciliation publishes runs and operators release trades, and reads the
    containment table as it then stands (core/containment-guard.ts).

    [drift_stops_progression] follows a financial disagreement from its
    classification to the broadcasts that do not happen. *)
From stdpp Require Import base list strings gmap relations.
From S2P Require Import Prelude JsText JsDate JsMap Finality ReconTypes ReconCoverage.
From S2P Require Import ReconClassifier FundedBinding OracleTypes OracleDb OracleProg OracleExec OracleDbInv.
From S2P Require Import OracleWp OracleSafe OracleGuard OracleSamples Containment ContainmentInv.

Open Scope string_scope.
Open Scope Z_scope.
Open Scope list_scope.

Definition stateText (s : ContainmentState) : string :=
  match s with
  | CONTAINED => "CONTAINED"
  | RECONCILED_PENDING_APPROVAL => "RECONCILED_PENDING_APPROVAL"
  | RELEASED => "RELEASED"
  end.

(** The query of the guard: [trade_id = $1 AND state <> 'RELEASED']. *)
Definition guard_read (t : string) (d : containment_db) : option (string * string) :=
  (fun r => (tc_incident_reference r, stateText (tc_state r))) <$> isTradeContained t d.

(** A containment read answers from the table, or fails; anything else may
    answer anything. *)
Definition fits (d : containment_db) (c : call) (r : result thrown (answer c)) : Prop :=
  match c return result thrown (answer c) -> Prop with
  | ReadContainment t => fun r => r = Ok (guard_read t d) \/ exists e, r = Err e
  | _ => fun _ => True
  end r.

Section Together.
Context (encode : string -> option string) (keccak address : string -> string).
Context (chainId : Z) (escrow : string) (overlap : bool).

(** [together p past w h p' past' w']: while the containment world moves from
    [w] to [w'], the effects [h] of [p] are answered and [p'] is left. *)
Inductive together {A} (p : prog A) (past : list cworld) (w : cworld)
    : list event -> prog A -> list cworld -> cworld -> Prop :=
| together_start : together p past w [] p past w
| together_db h q k r past' w' :
    together p past w h (Db q k) past' w' -> together p past w (EvDb q r :: h) (k r) past' w'
| together_call h c k r past' w' :
    together p past w h (Ext c k) past' w' -> fits (cw_db w') c r ->
    together p past w (EvCall c r :: h) (k r) past' w'
| together_containment h p' past' w' w'' :
    together p past w h p' past' w' ->
    containment_op encode keccak address chainId escrow overlap past' w' w'' ->
    together p past w h p' (w' :: past') w''.

Lemma together_history {A} (p : prog A) past w h p' past' w' :
  together p past w h p' past' w' -> history p h p'.
Proof.
  induction 1; [apply history_start | by apply history_db | by apply history_call | done].
Qed.

(** No release of the trade between two worlds. *)
Definition not_released (t : string) (w w' : cworld) : Prop :=
  exists newer, cw_log w' = newer ++ cw_log w /\ forall e, Released t e ∉ newer.

Lemma op_log past w w' :
  containment_op encode keccak address chainId escrow overlap past w w' ->
  exists l, cw_log w' = l ++ cw_log w.
Proof. intros []; [by eexists [_] | by eexists [_] | by exists []]. Qed.

Lemma together_log {A} (p : prog A) past w h p' past' w' :
  together p past w h p' past' w' -> exists l, cw_log w' = l ++ cw_log w.
Proof.
  induction 1 as [|????????|?????????|h p1 past' w' w'' H [l IH] Hop]; [by exists [] | done | done|].
  apply op_log in Hop as [l' ->]. exists (l' ++ l). by rewrite IH, app_assoc.
Qed.

(** A read that found no containment of the trade. *)
Definition cleared_read (t : string) (ev : event) : bool :=
  match ev with
  | EvCall c r =>
      match c return result thrown (answer c) -> bool with
      | ReadContainment t' => fun r => String.eqb t' t
          && match r with Ok None => true | _ => false end
      | _ => fun _ => false
      end r
  | EvDb _ _ => false
  end.

Lemma fits_cleared t d c r : fits d c r -> cleared_read t (EvCall c r) = true -> guard_read t d = None.
Proof.
  destruct c; cbn; try done. intros [->|[e ->]] [->%String.eqb_eq H]%andb_true_iff; [|done].
  by destruct (guard_read t d).
Qed.

Lemma blocks_read t d : blocks d t -> guard_read t d <> None.
Proof.
  intros (r & Hr & Hb). unfold guard_read, isTradeContained. rewrite Hr, Hb. done.
Qed.

(** While a trade is blocked and not released, no containment read clears it. *)
Lemma together_blocked {A} (p : prog A) past w h p' past' w' t :
  together p past w h p' past' w' -> blocks (cw_db w) t -> not_released t w w' ->
  blocks (cw_db w') t /\ EvCall (ReadContainment t) (Ok None) ∉ h.
Proof.
  intros H Hb. induction H as [|h q k r past' w' H IH|h c k r past' w' H IH Hf
    |h p1 past' w' w'' H IH Hop]; intros Hn.
  - split; [done | by intros ?%elem_of_nil].
  - destruct (IH Hn) as [H1 H2]. split; [done|]. by intros [?|?]%elem_of_cons.
  - destruct (IH Hn) as [H1 H2]. split; [done|]. intros [E|?]%elem_of_cons; [|done].
    apply (f_equal (cleared_read t)) in E. cbn [cleared_read] in E. rewrite String.eqb_refl in E.
    symmetry in E. apply (fits_cleared t (cw_db w')) in E; [|done]. by apply blocks_read in H1.
  - destruct (together_log _ _ _ _ _ _ _ H) as [l Hl], Hn as (newer & E & Hn).
    destruct (op_log _ _ _ Hop) as [l' Hl'].
    assert (newer = l' ++ l) as ->.
    { apply (app_inv_tail (cw_log w)). rewrite <- E, Hl', Hl. by rewrite app_assoc. }
    destruct IH as [H1 H2].
    { exists l. split; [done|]. intros e He. apply (Hn e), elem_of_app. by right. }
    split; [|done]. destruct (blocking_until_released _ _ _ _ _ _ _ _ _ _ Hop H1) as [[e He]|?]; [|done].
    rewrite Hl' in He. destruct (Hn e). apply elem_of_app. left.
    change (Released t e :: cw_log w') with ([Released t e] ++ cw_log w') in He.
    apply app_inv_tail in He as ->. left.
Qed.

End Together.

Lemma send_split key ec a h :
  EvCall (Send key ec) a ∈ h -> exists after before, h = after ++ EvCall (Send key ec) a :: before.
Proof. intros H. by apply list_elem_of_split in H. Qed.

(** C21. A financial disagreement stops the trade, for an oracle that is configured
    with the reconciliation database (without it the guard permits everything).
    Suppose a run read a trade on chain and its comparison with the indexed record
    disagrees about amounts, fees, parties or the agreement hash, and publishes its
    findings.  Then from that transaction on, for as long as no release of this trade
    is recorded, the trade stays contained, and no request, re-drive, approval or
    confirmation poll that the oracle starts, whatever else happens meanwhile in
    reconciliation and whatever the chain, the signer and the database answer, ever
    broadcasts a transaction of this trade. *)
Theorem drift_stops_progression encode keccak address chainId escrow overlap
    (getAddress : string -> option string) cfg
    (getAddress_lower : forall s a, getAddress s = Some a -> getAddress (toLowerCase a) = Some a)
    isAddress checksum ix trade err fs
    rx draws findings compared pauses block inherited window sla d d' ids
    op past w h p' past' w' :
  containmentConfigured cfg = true ->
  has_error err = false -> classifyDrifts isAddress checksum ix (Some trade) err = Ok fs ->
  financial_drift isAddress checksum ix trade -> (forall f, f ∈ fs -> f ∈ findings) ->
  publish_containment rx draws findings
    (resolveContainmentDecisions pauses findings compared block inherited) window sla d
    = Ok (d', ids) ->
  cw_db w = d' ->
  together encode keccak address chainId escrow overlap (program_of getAddress cfg op) past w
    h p' past' w' ->
  not_released (ix_tradeId ix) w w' ->
  blocks (cw_db w') (ix_tradeId ix) /\
  forall key ec a, EvCall (Send key ec) a ∈ h -> trade_of ec <> ix_tradeId ix.
Proof.
  intros Hcfg Herr Hcl Hdrift Hin Hpub <- Hrun Hnot.
  destruct (financial_drift_finding _ _ _ _ _ _ Herr Hcl Hdrift) as (f & Hf & Hq & Hid).
  assert (Hb : blocks (cw_db w) (ix_tradeId ix)).
  { eapply publish_blocks; [exact Hpub|]. apply qualified_diverges. exists f. auto. }
  destruct (together_blocked _ _ _ _ _ _ _ _ _ _ _ _ _ _ Hrun Hb Hnot) as [Hb' Hread].
  split; [exact Hb'|]. intros key ec a Hs Ht. apply Hread. rewrite <- Ht.
  destruct (send_split _ _ _ _ Hs) as (after & before & ->).
  destruct (history_guarded (cleared_to_send getAddress cfg) (program_of getAddress cfg op)
    (after ++ EvCall (Send key ec) a :: before) p' key ec a after before)
    as [[(ty & _ & _ & _ & Hc & _) _] _];
    [by apply guarded_operation | by eapply together_history | done |].
  apply elem_of_app. right. right. auto.
Qed.

(** ** A sample request

    A request for a trade that reconciliation has just contained: the witness
    of [drift_stops_progression]. *)

Open Scope string_scope.
Open Scope Z_scope.
Open Scope list_scope.

(** The sample deployment, with the containment table answering the guard. *)
Definition contained_env (w : cworld) : environment := fun c =>
  match c return result thrown (answer c) with
  | ReadContainment t => Ok (guard_read t (cw_db w))
  | c => clear_env c
  end.

Lemma contained_env_fits w c : fits (cw_db w) c (contained_env w c).
Proof. destruct c; cbn; auto. Qed.

Lemma drive_together {A} encode keccak address chainId escrow overlap past w now (p0 p : prog A)
    t h a t' h' :
  together encode keccak address chainId escrow overlap p0 past w h p past w ->
  drive (contained_env w) now p t h = (a, t', h') ->
  together encode keccak address chainId escrow overlap p0 past w h' (Ret a) past w.
Proof.
  revert t h. induction p as [x|q k IH|c k IH]; simpl; intros t h Hh.
  - by intros [= <- <- <-].
  - destruct (exec_query q now t) as [r t1]. apply IH. by apply together_db.
  - apply IH. apply together_call; [done | apply contained_env_fits].
Qed.

(** The run that read trade 7 with another amount than the indexer has. *)
Definition drifting : sample_run_input :=
  {| si_key := "r1"; si_now := sample_day;
     si_findings := [amount_finding "7" "totalAmountLocked" 101 100]; si_compared := ["6"; "7"];
     si_paused := false |}.

Definition contained_world : cworld := do_publish drifting start_cworld.

Definition contained_run :=
  drive (contained_env contained_world) 5
    (program_of lower_getAddress (sample_cfg false) (OpTrigger (sample_request "r1" false)))
    empty_db [].

Lemma drift_stops_progression_witness :
  blocks (cw_db contained_world) "7" /\ contained_run.2 <> [] /\
  forall key ec a, EvCall (Send key ec) a ∈ contained_run.2 -> trade_of ec <> "7".
Proof.
  assert (Hd : exists d', (publish_result drifting start_cworld).1 = Ok d' /\
    cw_db contained_world = d'.1) by (eexists; split; vm_compute; reflexivity).
  destruct Hd as ([d' ids] & Hp & Hw).
  assert (Hrun : together plain_encode plain_keccak plain_address 84532 sample_escrow false
    (program_of lower_getAddress (sample_cfg false) (OpTrigger (sample_request "r1" false)))
    [start_cworld] contained_world contained_run.2 (Ret contained_run.1.1) [start_cworld]
    contained_world).
  { apply (drive_together _ _ _ _ _ _ _ _ 5 _ (program_of lower_getAddress (sample_cfg false)
      (OpTrigger (sample_request "r1" false))) empty_db [] contained_run.1.1 contained_run.1.2);
      [apply together_start|].
    transitivity contained_run; [reflexivity | by destruct contained_run as [[? ?] ?]]. }
  destruct (drift_stops_progression plain_encode plain_keccak plain_address 84532 sample_escrow false
    lower_getAddress (sample_cfg false) lower_getAddress_lower sample_isAddress sample_getAddress
    sample_indexed (ReconClassifier.sample_trade 101) None
    [amount_finding "7" "totalAmountLocked" 101 100] (sample_rx drifting) ["0a0b0c0d"]
    (si_findings drifting) (si_compared drifting) (fun _ => Ok (si_paused drifting)) 20
    (listBlockingContainments (cw_db start_cworld)) quiet_window quiet_sla (cw_db start_cworld) d' ids
    (OpTrigger (sample_request "r1" false)) [start_cworld] contained_world contained_run.2
    (Ret contained_run.1.1) [start_cworld] contained_world) as [Hb Hs].
  - reflexivity.
  - reflexivity.
  - vm_compute. reflexivity.
  - apply drift_amount. intros (H & _). vm_compute in H. discriminate.
  - intros f Hf. exact Hf.
  - exact Hp.
  - exact Hw.
  - exact Hrun.
  - exists []. split; [reflexivity|]. intros e He. inversion He.
  - split; [exact Hb|]. split; [|exact Hs]. vm_compute. discriminate.
Defined.
