(* ===== verification/IndexerTypes.v ===== *)
(** The indexer's data: the entities of [indexer/schema.graphql] (the generated
    classes of [indexer/src/model]), the escrow events it decodes, the blocks it
    is handed and the state of one batch.

    Event entities share their first eight columns; the columns a handler sets
    beyond these are a list of named values, as in [new TradeEvent({...})].
    A relation column holds the id of the related row.  [Number(bigint)] rounds
    to a double ([js_number]). *)
From stdpp Require Import base list gmap strings.
From S2P Require Import Prelude JsText JsDate.

Open Scope string_scope.
Open Scope Z_scope.

(** ** Enumerations *)

Inductive TradeStatus := LOCKED | IN_TRANSIT | ARRIVAL_CONFIRMED | FROZEN | CLOSED.

Inductive DisputeStatus := REFUND | RESOLVE.

Inductive ClaimType :=
| STAGE1_SUPPLIER
| STAGE1_LOGISTICS_FEE
| STAGE1_PLATFORM_FEE
| STAGE2_SUPPLIER
| LOCK_TIMEOUT_BUYER_REFUND
| IN_TRANSIT_TIMEOUT_BUYER_REFUND
| DISPUTE_REFUND_BUYER
| DISPUTE_RESOLVE_SUPPLIER.

#[export] Instance TradeStatus_eq_dec : EqDecision TradeStatus.
Proof. solve_decision. Defined.
#[export] Instance DisputeStatus_eq_dec : EqDecision DisputeStatus.
Proof. solve_decision. Defined.
#[export] Instance ClaimType_eq_dec : EqDecision ClaimType.
Proof. solve_decision. Defined.

(** [Object.values(ClaimType)] *)
Definition CLAIM_TYPE_VALUES : list ClaimType :=
  [STAGE1_SUPPLIER; STAGE1_LOGISTICS_FEE; STAGE1_PLATFORM_FEE; STAGE2_SUPPLIER;
   LOCK_TIMEOUT_BUYER_REFUND; IN_TRANSIT_TIMEOUT_BUYER_REFUND; DISPUTE_REFUND_BUYER;
   DISPUTE_RESOLVE_SUPPLIER].

(** ** Numbers *)

(** [Number(z)]: the nearest double, ties to even.  The values are below 2^256,
    far from the overflow to infinity. *)
Definition js_number (z : Z) : Z :=
  let a := Z.abs z in
  if a <=? 2 ^ 53 then z
  else
    let ulp := 2 ^ (Z.log2 a - 52) in
    let q := a / ulp in
    let r := a mod ulp in
    let up := (ulp <? 2 * r) || ((ulp =? 2 * r) && Z.odd q) in
    Z.sgn z * ((if up then q + 1 else q) * ulp).

Lemma js_number_safe z : Z.abs z <= 2 ^ 53 -> js_number z = z.
Proof. intros H. unfold js_number. by rewrite (proj2 (Z.leb_le _ _) H). Qed.

(** [CLAIM_TYPE_VALUES[Number(claimType)] ?? null] *)
Definition claim_type_of (claimType : Z) : option ClaimType :=
  let i := js_number claimType in
  if i <? 0 then None else CLAIM_TYPE_VALUES !! Z.to_nat i.

(** ** Entities *)

Record Trade := {
  tr_id : string;
  tr_tradeId : string;
  tr_buyer : string;
  tr_supplier : string;
  tr_status : TradeStatus;
  tr_totalAmountLocked : Z;
  tr_logisticsAmount : Z;
  tr_platformFeesAmount : Z;
  tr_platformFeeNetAmount : Z;
  tr_settlementSupportFeeAmount : Z;
  tr_supplierFirstTranche : Z;
  tr_supplierSecondTranche : Z;
  tr_ricardianHash : string;
  tr_createdAt : js_date;
  tr_arrivalTimestamp : option js_date;
  tr_paused : bool
}.

(** The relation [trade] is [None] while it has not been loaded. *)
Record DisputeProposal := {
  dp_id : string;
  dp_proposalId : string;
  dp_trade : option string;
  dp_disputeStatus : DisputeStatus;
  dp_approvalCount : Z;
  dp_executed : bool;
  dp_createdAt : js_date;
  dp_proposer : string;
  dp_expiresAt : js_date;
  dp_cancelled : bool
}.

Record OracleUpdateProposal := {
  op_id : string;
  op_proposalId : string;
  op_newOracle : string;
  op_approvalCount : Z;
  op_executed : bool;
  op_createdAt : js_date;
  op_eta : Z;
  op_proposer : string;
  op_emergencyFastTrack : bool;
  op_expiresAt : js_date;
  op_cancelled : bool
}.

Record AdminChangeProposal := {
  ap_id : string;
  ap_proposalId : string;
  ap_kind : Z;
  ap_currentAdmin : string;
  ap_newAdmin : string;
  ap_newThreshold : Z;
  ap_approvalCount : Z;
  ap_executed : bool;
  ap_createdAt : js_date;
  ap_eta : Z;
  ap_proposer : string;
  ap_epoch : Z;
  ap_expiresAt : js_date;
  ap_cancelled : bool
}.

Inductive Column :=
| BigIntColumn (z : Z)
| IntColumn (z : Z)
| StringColumn (s : string)
| ClaimColumn (c : option ClaimType)
| DisputeColumn (d : DisputeStatus).

(** [TradeEvent], [DisputeEvent], [OracleEvent], [AdminEvent] and [SystemEvent]:
    [ev_parent] is the relation [trade], [dispute], [oracleUpdate] or
    [adminChangeProposal]; a system event has none. *)
Record EventRow := {
  ev_id : string;
  ev_parent : option string;
  ev_eventName : string;
  ev_blockNumber : Z;
  ev_timestamp : js_date;
  ev_txHash : string;
  ev_logIndex : Z;
  ev_transactionIndex : Z;
  ev_columns : list (string * Column)
}.

Record OverviewCounters := {
  totalTrades : Z;
  lockedTrades : Z;
  stage1Trades : Z;
  stage2Trades : Z;
  completedTrades : Z;
  disputedTrades : Z;
  cancelledTrades : Z
}.

Record OverviewSnapshot := {
  ov_counters : OverviewCounters;
  ov_lastProcessedBlock : Z;
  ov_lastIndexedAt : js_date;
  ov_lastTradeEventAt : option js_date
}.

(** ** Decoded events

    The events of the escrow's ABI with the arguments [parseLog] returns, in the
    ABI's order; addresses and 32-byte words are hex texts, integers [bigint]s.
    [OtherEvent] is an event of the ABI for which the indexer has no handler. *)
Inductive EscrowEvent :=
| TradeLocked (tradeId : Z) (buyer supplier : string)
    (totalAmount logisticsAmount platformFeesAmount : Z)
    (supplierFirstTranche supplierSecondTranche : Z) (ricardianHash : string)
| FundsReleasedStage1 (tradeId : Z) (supplier : string) (supplierFirstTranche : Z)
    (treasury : string) (logisticsAmount : Z)
| PlatformFeesPaidStage1 (tradeId : Z) (treasury : string) (platformFeesAmount : Z)
    (platformFeeNet settlementSupportFee : option Z)
| InspectionAvailable (tradeId inspectionAvailableAt inspectionWindowSeconds noticeDeadline : Z)
| InspectionAcceptedForFinalRelease (tradeId acceptedAt : Z)
| FinalTrancheReleased (tradeId : Z) (supplier : string) (supplierSecondTranche : Z)
| DisputeOpenedByBuyer (tradeId : Z)
| TradeCancelledAfterLockTimeout (tradeId : Z) (buyer : string) (refundedAmount : Z)
| TradePaused (tradeId : Z) (triggeredBy : string)
| TradeUnpaused (tradeId : Z) (triggeredBy : string)
| InTransitTimeoutRefunded (tradeId : Z) (buyer : string) (refundedAmount : Z)
| RelayedActionExecuted (relayer user action : string) (tradeId : Z)
| GaslessTradeFunded (tradeId : Z) (buyer usdcAuthorizationNonce : string) (amount : Z)
| SupplierPayoutTransferred (tradeId : Z) (supplier : string) (amount claimType : Z)
    (triggeredBy : string)
| BuyerRefundTransferred (tradeId : Z) (buyer : string) (amount claimType : Z)
    (triggeredBy : string)
| ClaimableAccrued (tradeId : Z) (recipient : string) (amount claimType : Z)
| DisputeSolutionProposed (proposalId tradeId disputeStatus : Z) (proposer : string)
| DisputeApproved (proposalId : Z) (approver : string) (approvalCount requiredApprovals : Z)
| DisputeFinalized (proposalId tradeId disputeStatus : Z)
| DisputeProposalExpiredCancelled (proposalId tradeId : Z) (cancelledBy : string)
| DisputePayout (tradeId proposalId : Z) (recipient : string) (amount payoutType : Z)
| OracleUpdateProposed (proposalId : Z) (proposer newOracle : string) (eta : Z)
    (emergencyFastTrack : bool)
| OracleUpdateApproved (proposalId : Z) (approver : string) (approvalCount requiredApprovals : Z)
| OracleUpdated (oldOracle newOracle : string)
| OracleUpdateProposalExpiredCancelled (proposalId : Z) (cancelledBy : string)
| OracleDisabledEmergency (disabledBy previousOracle : string)
| AdminChangeProposed (proposalId : Z) (proposer : string) (kind : Z)
    (currentAdmin newAdmin : string) (newThreshold eta epoch : Z)
| AdminChangeApproved (proposalId : Z) (approver : string) (approvalCount requiredApprovals : Z)
| AdminChangeExecuted (proposalId kind : Z) (currentAdmin newAdmin : string) (newThreshold : Z)
| AdminAdded (newAdmin : string)
| AdminRemoved (oldAdmin : string)
| AdminReplaced (oldAdmin newAdmin : string)
| AdminChangeProposalCancelled (proposalId : Z) (cancelledBy : string)
| Paused (triggeredBy : string)
| UnpauseProposed (proposer : string) (scope tradeId : Z) (incidentRef : string) (epoch : Z)
| UnpauseApproved (approver : string) (approvalCount requiredApprovals : Z)
| UnpauseProposalCancelled (cancelledBy : string)
| Unpaused (account : string)
| ClaimsPaused (triggeredBy : string)
| ClaimsUnpaused (triggeredBy : string)
| TreasuryClaimed (treasuryIdentity payoutReceiver : string) (amount : Z) (triggeredBy : string)
| TreasuryPayoutAddressUpdateProposed (proposalId : Z) (proposer newPayoutReceiver : string) (eta : Z)
| TreasuryPayoutAddressUpdateApproved (proposalId : Z) (approver : string)
    (approvalCount requiredApprovals : Z)
| TreasuryPayoutAddressUpdated (oldPayoutReceiver newPayoutReceiver : string)
| TreasuryPayoutAddressUpdateProposalExpiredCancelled (proposalId : Z) (cancelledBy : string)
| AuthorizationConsumed (user action : string) (nonce : Z) (relayer : string) (deadline : Z)
| RelayerUpdated (relayer : string) (allowed : bool) (updatedBy : string)
| RequiredApprovalsUpdated (oldThreshold newThreshold : Z)
| GovernanceEpochAdvanced (newEpoch : Z)
| OtherEvent (name : string).

(** ** Blocks *)

(** A log of a block; [lg_transaction] is the hash of [getTransaction()], or the
    error it throws. *)
Record Log := {
  lg_address : string;
  lg_topics : list string;
  lg_data : string;
  lg_logIndex : Z;
  lg_transactionIndex : Z;
  lg_transaction : result string string
}.

(** [bk_timestamp] is in milliseconds; an absent timestamp is [None]. *)
Record Block := {
  bk_height : Z;
  bk_hash : string;
  bk_timestamp : option Z;
  bk_logs : list Log
}.

(** [new Date(block.header.timestamp || 0)] *)
Definition block_date (block : Block) : js_date := new_date (default 0 (bk_timestamp block)).

(** ** The projection's tables and the state of a batch *)

Record Store := {
  st_trades : gmap string Trade;
  st_tradeEvents : gmap string EventRow;
  st_disputeProposals : gmap string DisputeProposal;
  st_disputeEvents : gmap string EventRow;
  st_oracleUpdateProposals : gmap string OracleUpdateProposal;
  st_oracleEvents : gmap string EventRow;
  st_adminChangeProposals : gmap string AdminChangeProposal;
  st_adminEvents : gmap string EventRow;
  st_systemEvents : gmap string EventRow;
  st_overview : option OverviewSnapshot
}.

Definition empty_store : Store :=
  {| st_trades := ∅; st_tradeEvents := ∅; st_disputeProposals := ∅; st_disputeEvents := ∅;
     st_oracleUpdateProposals := ∅; st_oracleEvents := ∅; st_adminChangeProposals := ∅;
     st_adminEvents := ∅; st_systemEvents := ∅; st_overview := None |}.

(** ** Reads of the database *)

(** What a batch reads: rows by id, and the two tables the overview is rebuilt
    from. *)
Inductive StoreRead :=
| ReadTrade (id : string)
| ReadDisputeProposal (id : string)
| ReadOracleProposal (id : string)
| ReadAdminProposal (id : string)
| ReadOverview
| FindTrades
| FindTradeEvents.

(** The error with which a read of this batch rejects, if it does.  A batch reads
    a row at most once: what it finds stays in its map, and a missing or rejected
    row ends it. *)
Class StoreReads := read_error : StoreRead -> option string.

(** ** The variables of a batch *)

(** The local variables of [processBatch]. *)
Record Batch := {
  b_trades : gmap string Trade;
  b_tradeEvents : list EventRow;
  b_disputeProposals : gmap string DisputeProposal;
  b_disputeEvents : list EventRow;
  b_oracleUpdateProposals : gmap string OracleUpdateProposal;
  b_oracleEvents : list EventRow;
  b_adminChangeProposals : gmap string AdminChangeProposal;
  b_adminEvents : list EventRow;
  b_systemEvents : list EventRow;
  b_overviewSnapshot : OverviewSnapshot
}.

(** ** The overview counters

    The overview counters: [indexer/src/overviewAggregate.ts],
    [eventIdentity.ts] and the rebuild of a missing snapshot in [main.ts].

    [localeCompare] breaks the tie of two rows with the same position and is a
    parameter.  [find] hands over the event rows with their [trade] relation
    loaded or not, which the query options decide and [relations] stands for. *)

Open Scope string_scope.
Open Scope Z_scope.

(** ** Counters *)

Definition createEmptyOverviewCounters : OverviewCounters :=
  {| totalTrades := 0; lockedTrades := 0; stage1Trades := 0; stage2Trades := 0;
     completedTrades := 0; disputedTrades := 0; cancelledTrades := 0 |}.

(** The counters with one bucket replaced. *)
Definition set_total (v : Z) (c : OverviewCounters) : OverviewCounters :=
  {| totalTrades := v; lockedTrades := lockedTrades c; stage1Trades := stage1Trades c;
     stage2Trades := stage2Trades c; completedTrades := completedTrades c;
     disputedTrades := disputedTrades c; cancelledTrades := cancelledTrades c |}.

Definition set_cancelled (v : Z) (c : OverviewCounters) : OverviewCounters :=
  {| totalTrades := totalTrades c; lockedTrades := lockedTrades c; stage1Trades := stage1Trades c;
     stage2Trades := stage2Trades c; completedTrades := completedTrades c;
     disputedTrades := disputedTrades c; cancelledTrades := v |}.

(** The bucket a status is counted in. *)
Definition bucket (status : TradeStatus) (c : OverviewCounters) : Z :=
  match status with
  | LOCKED => lockedTrades c
  | IN_TRANSIT => stage1Trades c
  | ARRIVAL_CONFIRMED => stage2Trades c
  | CLOSED => completedTrades c
  | FROZEN => disputedTrades c
  end.

Definition set_bucket (status : TradeStatus) (v : Z) (c : OverviewCounters) : OverviewCounters :=
  {| totalTrades := totalTrades c;
     lockedTrades := match status with LOCKED => v | _ => lockedTrades c end;
     stage1Trades := match status with IN_TRANSIT => v | _ => stage1Trades c end;
     stage2Trades := match status with ARRIVAL_CONFIRMED => v | _ => stage2Trades c end;
     completedTrades := match status with CLOSED => v | _ => completedTrades c end;
     disputedTrades := match status with FROZEN => v | _ => disputedTrades c end;
     cancelledTrades := cancelledTrades c |}.

(** The property name in the error message. *)
Definition bucket_name (status : TradeStatus) : string :=
  match status with
  | LOCKED => "lockedTrades"
  | IN_TRANSIT => "stage1Trades"
  | ARRIVAL_CONFIRMED => "stage2Trades"
  | CLOSED => "completedTrades"
  | FROZEN => "disputedTrades"
  end.

Definition incrementStatusBucket (status : TradeStatus) (c : OverviewCounters) : OverviewCounters :=
  set_bucket status (bucket status c + 1) c.

Definition decrementStatusBucket (status : TradeStatus) (c : OverviewCounters)
    : result string OverviewCounters :=
  if bucket status c <=? 0
  then Err ("Overview counter underflow for " ++ bucket_name status)
  else Ok (set_bucket status (bucket status c - 1) c).

Definition applyTradeCreated (initialStatus : TradeStatus) (counters : OverviewCounters)
    : OverviewCounters :=
  incrementStatusBucket initialStatus (set_total (totalTrades counters + 1) counters).

Definition applyTradeTransition (prevStatus nextStatus : TradeStatus) (counters : OverviewCounters)
    : result string OverviewCounters :=
  if bool_decide (prevStatus = nextStatus) then Ok counters
  else
    next ← decrementStatusBucket prevStatus counters;
    Ok (incrementStatusBucket nextStatus next).

Definition applyTradeCancelled (prevStatus : TradeStatus) (counters : OverviewCounters)
    : result string OverviewCounters :=
  next ← decrementStatusBucket prevStatus counters;
  Ok (set_cancelled (cancelledTrades next + 1) next).

(** ** Rebuilding the counters *)

Definition isCancellationEvent (eventName : option string) : bool :=
  match eventName with
  | Some n => String.eqb n "TradeCancelledAfterLockTimeout" ||
              String.eqb n "InTransitTimeoutRefunded" || String.eqb n "DisputePayout:REFUND"
  | None => false
  end.

(** One round of the loop over the existing trades: an id and its status. *)
Definition count_existing (terminalEventByTradeId : gmap string string) (counters : OverviewCounters)
    (trade : string * TradeStatus) : OverviewCounters :=
  let counters := set_total (totalTrades counters + 1) counters in
  if bool_decide (trade.2 <> CLOSED) then incrementStatusBucket trade.2 counters
  else if isCancellationEvent (terminalEventByTradeId !! trade.1)
       then set_cancelled (cancelledTrades counters + 1) counters
       else set_bucket CLOSED (completedTrades counters + 1) counters.

Definition buildCountersFromExistingState (trades : list (string * TradeStatus))
    (terminalEventByTradeId : gmap string string) : OverviewCounters :=
  foldl (count_existing terminalEventByTradeId) createEmptyOverviewCounters trades.

(** ** Event identity and order *)

Definition buildEvmEventId (txHash : string) (logIndex : Z) : string :=
  txHash ++ "-" ++ print_Z logIndex.

Definition isTerminalTradeEvent (eventName : string) : bool :=
  String.eqb eventName "FinalTrancheReleased" ||
  String.eqb eventName "TradeCancelledAfterLockTimeout" ||
  String.eqb eventName "InTransitTimeoutRefunded" || String.eqb eventName "DisputePayout".

(** [event.eventName === 'DisputePayout' && event.payoutType === DisputeStatus.REFUND] *)
Definition is_refund_payout (event : EventRow) : bool :=
  String.eqb (ev_eventName event) "DisputePayout" &&
  existsb (fun c => match c with (name, DisputeColumn REFUND) => String.eqb name "payoutType"
                               | _ => false end) (ev_columns event).

Definition terminal_key (event : EventRow) : string :=
  if is_refund_payout event then "DisputePayout:REFUND" else ev_eventName event.

Section overview.
Context (localeCompare : string -> string -> Z).

Definition compareOrderedEvmEvents (left right : EventRow) : Z :=
  if negb (ev_blockNumber left =? ev_blockNumber right)
  then ev_blockNumber left - ev_blockNumber right
  else if negb (ev_transactionIndex left =? ev_transactionIndex right)
  then ev_transactionIndex left - ev_transactionIndex right
  else if negb (ev_logIndex left =? ev_logIndex right)
  then ev_logIndex left - ev_logIndex right
  else localeCompare (ev_id left) (ev_id right).

(** One round of the loop: [event.trade?.id] must be a non-empty id. *)
Definition keep_latest (latest : gmap string EventRow) (event : EventRow) : gmap string EventRow :=
  match ev_parent event with
  | Some tradeId =>
      if String.eqb tradeId "" || negb (isTerminalTradeEvent (ev_eventName event)) then latest
      else match latest !! tradeId with
           | Some existing =>
               if 0 <? compareOrderedEvmEvents event existing
               then <[tradeId := event]> latest else latest
           | None => <[tradeId := event]> latest
           end
  | None => latest
  end.

Definition latestTerminalEventsByTradeId (events : list EventRow) : gmap string string :=
  terminal_key <$> foldl keep_latest ∅ events.

(** ** The snapshot of a batch *)

(** A row as [find] returns it: without its relation unless the query loads it. *)
Definition found (relations : bool) (event : EventRow) : EventRow :=
  if relations then event
  else {| ev_id := ev_id event; ev_parent := None; ev_eventName := ev_eventName event;
          ev_blockNumber := ev_blockNumber event; ev_timestamp := ev_timestamp event;
          ev_txHash := ev_txHash event; ev_logIndex := ev_logIndex event;
          ev_transactionIndex := ev_transactionIndex event; ev_columns := ev_columns event |}.

(** The snapshot counted from the existing trades and their terminal events. *)
Definition rebuilt_overview (relations : bool) (s : Store) : OverviewSnapshot :=
  let existingTrades := (map_to_list (st_trades s)).*2 in
  let terminalEvents := found relations <$> (map_to_list (st_tradeEvents s)).*2 in
  {| ov_counters :=
       buildCountersFromExistingState
         ((fun trade => (tr_id trade, tr_status trade)) <$> existingTrades)
         (latestTerminalEventsByTradeId terminalEvents);
     ov_lastProcessedBlock := 0;
     ov_lastIndexedAt := new_date 0;
     ov_lastTradeEventAt := None |}.

(** The stored snapshot, or a rebuilt one; each read may reject. *)
Definition getOrLoadOverviewSnapshot `{StoreReads} (relations : bool) (s : Store)
    : result string OverviewSnapshot :=
  match read_error ReadOverview with
  | Some error => Err error
  | None =>
      match st_overview s with
      | Some snapshot => Ok snapshot
      | None =>
          match read_error FindTrades, read_error FindTradeEvents with
          | Some error, _ | None, Some error => Err error
          | None, None => Ok (rebuilt_overview relations s)
          end
      end
  end.

End overview.

(** ** Arithmetic of the buckets *)

Lemma bucket_increment st st' c :
  bucket st' (incrementStatusBucket st c) = bucket st' c + (if bool_decide (st = st') then 1 else 0).
Proof. by destruct st, st'; simpl; rewrite ?Z.add_0_r. Qed.

Lemma decrement_ok st c : 0 < bucket st c ->
  decrementStatusBucket st c = Ok (set_bucket st (bucket st c - 1) c).
Proof. intros H. unfold decrementStatusBucket. destruct (bucket st c <=? 0) eqn:E; [lia|done]. Qed.

Example overview_transition :
  applyTradeTransition LOCKED IN_TRANSIT (applyTradeCreated LOCKED createEmptyOverviewCounters)
  = Ok (set_total 1 (set_bucket IN_TRANSIT 1 createEmptyOverviewCounters)).
Proof. reflexivity. Qed.
