(* ===== verification/IndexerHandlers.v ===== *)
(** The indexer's event handlers: [indexer/src/main.ts], [handlers/claims.ts],
    [handlerContext.ts] and [governanceProjection.ts].

    A handler reads the tables, changes the local variables of the batch and may
    throw: the monad [Handler].  A read of a table may itself reject
    ([StoreReads]).  The batch's maps hold the objects that later handlers mutate;
    an event row refers to its parent by id.  A proposal loaded from its table
    comes without its [trade] relation.  Log lines are left out. *)
From stdpp Require Import base list gmap strings.
From S2P Require Import Prelude JsText JsDate IndexerTypes.

Open Scope string_scope.
Open Scope Z_scope.

(** ** The handler monad *)

Definition Handler (A : Type) : Type := Store -> Batch -> result string (A * Batch).

#[export] Instance Handler_ret : MRet Handler := fun A a s b => Ok (a, b).
#[export] Instance Handler_bind : MBind Handler := fun A B f m s b =>
  match m s b with
  | Ok (a, b') => f a s b'
  | Err e => Err e
  end.

Definition lift {A} (r : result string A) : Handler A := fun s b =>
  match r with Ok a => Ok (a, b) | Err e => Err e end.

(** Reading and writing the variables of the batch. *)
Definition gets {A} (f : Batch -> A) : Handler A := fun s b => Ok (f b, b).
Definition modify (f : Batch -> Batch) : Handler unit := fun s b => Ok (tt, f b).

(** ** The variables of the batch *)

Definition put_trade (id : string) (trade : Trade) (b : Batch) : Batch :=
  {| b_trades := <[id := trade]> (b_trades b); b_tradeEvents := b_tradeEvents b;
     b_disputeProposals := b_disputeProposals b; b_disputeEvents := b_disputeEvents b;
     b_oracleUpdateProposals := b_oracleUpdateProposals b; b_oracleEvents := b_oracleEvents b;
     b_adminChangeProposals := b_adminChangeProposals b; b_adminEvents := b_adminEvents b;
     b_systemEvents := b_systemEvents b; b_overviewSnapshot := b_overviewSnapshot b |}.

Definition with_disputes (f : gmap string DisputeProposal -> gmap string DisputeProposal) (b : Batch)
    : Batch :=
  {| b_trades := b_trades b; b_tradeEvents := b_tradeEvents b;
     b_disputeProposals := f (b_disputeProposals b); b_disputeEvents := b_disputeEvents b;
     b_oracleUpdateProposals := b_oracleUpdateProposals b; b_oracleEvents := b_oracleEvents b;
     b_adminChangeProposals := b_adminChangeProposals b; b_adminEvents := b_adminEvents b;
     b_systemEvents := b_systemEvents b; b_overviewSnapshot := b_overviewSnapshot b |}.

Definition with_oracle_proposals
    (f : gmap string OracleUpdateProposal -> gmap string OracleUpdateProposal) (b : Batch) : Batch :=
  {| b_trades := b_trades b; b_tradeEvents := b_tradeEvents b;
     b_disputeProposals := b_disputeProposals b; b_disputeEvents := b_disputeEvents b;
     b_oracleUpdateProposals := f (b_oracleUpdateProposals b); b_oracleEvents := b_oracleEvents b;
     b_adminChangeProposals := b_adminChangeProposals b; b_adminEvents := b_adminEvents b;
     b_systemEvents := b_systemEvents b; b_overviewSnapshot := b_overviewSnapshot b |}.

Definition with_admin_proposals
    (f : gmap string AdminChangeProposal -> gmap string AdminChangeProposal) (b : Batch) : Batch :=
  {| b_trades := b_trades b; b_tradeEvents := b_tradeEvents b;
     b_disputeProposals := b_disputeProposals b; b_disputeEvents := b_disputeEvents b;
     b_oracleUpdateProposals := b_oracleUpdateProposals b; b_oracleEvents := b_oracleEvents b;
     b_adminChangeProposals := f (b_adminChangeProposals b); b_adminEvents := b_adminEvents b;
     b_systemEvents := b_systemEvents b; b_overviewSnapshot := b_overviewSnapshot b |}.

Definition with_overview (f : OverviewSnapshot -> OverviewSnapshot) (b : Batch) : Batch :=
  {| b_trades := b_trades b; b_tradeEvents := b_tradeEvents b;
     b_disputeProposals := b_disputeProposals b; b_disputeEvents := b_disputeEvents b;
     b_oracleUpdateProposals := b_oracleUpdateProposals b; b_oracleEvents := b_oracleEvents b;
     b_adminChangeProposals := b_adminChangeProposals b; b_adminEvents := b_adminEvents b;
     b_systemEvents := b_systemEvents b; b_overviewSnapshot := f (b_overviewSnapshot b) |}.

(** The five arrays of events. *)
Inductive EventTable := TradeEvents | DisputeEvents | OracleEvents | AdminEvents | SystemEvents.

Definition push_event (t : EventTable) (row : EventRow) (b : Batch) : Batch :=
  let app t' l := match t, t' with
    | TradeEvents, TradeEvents | DisputeEvents, DisputeEvents | OracleEvents, OracleEvents
    | AdminEvents, AdminEvents | SystemEvents, SystemEvents => (l ++ [row])%list
    | _, _ => l end in
  {| b_trades := b_trades b; b_tradeEvents := app TradeEvents (b_tradeEvents b);
     b_disputeProposals := b_disputeProposals b; b_disputeEvents := app DisputeEvents (b_disputeEvents b);
     b_oracleUpdateProposals := b_oracleUpdateProposals b;
     b_oracleEvents := app OracleEvents (b_oracleEvents b);
     b_adminChangeProposals := b_adminChangeProposals b;
     b_adminEvents := app AdminEvents (b_adminEvents b);
     b_systemEvents := app SystemEvents (b_systemEvents b);
     b_overviewSnapshot := b_overviewSnapshot b |}.

(** ** What the handlers share *)

Section handlers.
Context {reads : StoreReads}.

(** [ctx.store.get]: the row of a table, unless the read rejects. *)
Definition store_get {A} (read : StoreRead) (row : option A) : result string (option A) :=
  match read_error read with
  | Some error => Err error
  | None => Ok row
  end.

(** [trades.get(id)], then [ctx.store.get(Trade, id)] kept in the map. *)
Definition getOrLoadTrade (tradeId : string) : Handler Trade := fun s b =>
  match b_trades b !! tradeId with
  | Some trade => Ok (trade, b)
  | None =>
      match store_get (ReadTrade tradeId) (st_trades s !! tradeId) with
      | Err error => Err error
      | Ok (Some trade) => Ok (trade, put_trade tradeId trade b)
      | Ok None => Err ("Required parent trade " ++ tradeId ++ " is missing; hold the checkpoint " ++
                        "and replay after correcting event coverage")
      end
  end.

(** A proposal fetched by id has no relation loaded. *)
Definition fetched (p : DisputeProposal) : DisputeProposal :=
  {| dp_id := dp_id p; dp_proposalId := dp_proposalId p; dp_trade := None;
     dp_disputeStatus := dp_disputeStatus p; dp_approvalCount := dp_approvalCount p;
     dp_executed := dp_executed p; dp_createdAt := dp_createdAt p; dp_proposer := dp_proposer p;
     dp_expiresAt := dp_expiresAt p; dp_cancelled := dp_cancelled p |}.

(** [map.get(id)], else [ctx.store.get] kept in the map, else the given error. *)
Definition loadDisputeProposal (id error : string) : Handler unit := fun s b =>
  match b_disputeProposals b !! id with
  | Some _ => Ok (tt, b)
  | None =>
      match store_get (ReadDisputeProposal id) (st_disputeProposals s !! id) with
      | Err rejection => Err rejection
      | Ok (Some p) => Ok (tt, with_disputes <[id := fetched p]> b)
      | Ok None => Err error
      end
  end.

Definition loadOracleProposal (id error : string) : Handler unit := fun s b =>
  match b_oracleUpdateProposals b !! id with
  | Some _ => Ok (tt, b)
  | None =>
      match store_get (ReadOracleProposal id) (st_oracleUpdateProposals s !! id) with
      | Err rejection => Err rejection
      | Ok (Some p) => Ok (tt, with_oracle_proposals <[id := p]> b)
      | Ok None => Err error
      end
  end.

Definition loadAdminProposal (id error : string) : Handler unit := fun s b =>
  match b_adminChangeProposals b !! id with
  | Some _ => Ok (tt, b)
  | None =>
      match store_get (ReadAdminProposal id) (st_adminChangeProposals s !! id) with
      | Err rejection => Err rejection
      | Ok (Some p) => Ok (tt, with_admin_proposals <[id := p]> b)
      | Ok None => Err error
      end
  end.

(** The position of the log being handled. *)
Record LogContext := {
  lc_eventId : string;
  lc_height : Z;
  lc_timestamp : js_date;
  lc_txHash : string;
  lc_logIndex : Z;
  lc_transactionIndex : Z
}.

Definition new_event (lc : LogContext) (eventName : string) (parent : option string)
    (columns : list (string * Column)) : EventRow :=
  {| ev_id := lc_eventId lc; ev_parent := parent; ev_eventName := eventName;
     ev_blockNumber := lc_height lc; ev_timestamp := lc_timestamp lc; ev_txHash := lc_txHash lc;
     ev_logIndex := lc_logIndex lc; ev_transactionIndex := lc_transactionIndex lc;
     ev_columns := columns |}.

Definition push (t : EventTable) (lc : LogContext) (eventName : string) (parent : option string)
    (columns : list (string * Column)) : Handler unit :=
  modify (push_event t (new_event lc eventName parent columns)).

Definition snapshotCounters (snapshot : OverviewSnapshot) : OverviewCounters := ov_counters snapshot.

Definition applySnapshotCounters (counters : OverviewCounters) (snapshot : OverviewSnapshot)
    : OverviewSnapshot :=
  {| ov_counters := counters; ov_lastProcessedBlock := ov_lastProcessedBlock snapshot;
     ov_lastIndexedAt := ov_lastIndexedAt snapshot;
     ov_lastTradeEventAt := ov_lastTradeEventAt snapshot |}.

Definition set_lastTradeEventAt (timestamp : js_date) (snapshot : OverviewSnapshot)
    : OverviewSnapshot :=
  {| ov_counters := ov_counters snapshot; ov_lastProcessedBlock := ov_lastProcessedBlock snapshot;
     ov_lastIndexedAt := ov_lastIndexedAt snapshot; ov_lastTradeEventAt := Some timestamp |}.

(** [applySnapshotCounters(overviewSnapshot, f(snapshotCounters(overviewSnapshot)))] followed by
    [overviewSnapshot.lastTradeEventAt = timestamp]. *)
Definition update_counters (f : OverviewCounters -> result string OverviewCounters)
    (timestamp : js_date) : Handler unit :=
  c ← gets (fun b => snapshotCounters (b_overviewSnapshot b));
  counters ← lift (f c);
  modify (with_overview (applySnapshotCounters counters));;
  modify (with_overview (set_lastTradeEventAt timestamp)).

Definition touch_overview (timestamp : js_date) : Handler unit :=
  modify (with_overview (set_lastTradeEventAt timestamp)).

Definition set_status (status : TradeStatus) (t : Trade) : Trade :=
  {| tr_id := tr_id t; tr_tradeId := tr_tradeId t; tr_buyer := tr_buyer t;
     tr_supplier := tr_supplier t; tr_status := status;
     tr_totalAmountLocked := tr_totalAmountLocked t; tr_logisticsAmount := tr_logisticsAmount t;
     tr_platformFeesAmount := tr_platformFeesAmount t;
     tr_platformFeeNetAmount := tr_platformFeeNetAmount t;
     tr_settlementSupportFeeAmount := tr_settlementSupportFeeAmount t;
     tr_supplierFirstTranche := tr_supplierFirstTranche t;
     tr_supplierSecondTranche := tr_supplierSecondTranche t; tr_ricardianHash := tr_ricardianHash t;
     tr_createdAt := tr_createdAt t; tr_arrivalTimestamp := tr_arrivalTimestamp t;
     tr_paused := tr_paused t |}.

Definition set_arrival (d : js_date) (t : Trade) : Trade :=
  {| tr_id := tr_id t; tr_tradeId := tr_tradeId t; tr_buyer := tr_buyer t;
     tr_supplier := tr_supplier t; tr_status := tr_status t;
     tr_totalAmountLocked := tr_totalAmountLocked t; tr_logisticsAmount := tr_logisticsAmount t;
     tr_platformFeesAmount := tr_platformFeesAmount t;
     tr_platformFeeNetAmount := tr_platformFeeNetAmount t;
     tr_settlementSupportFeeAmount := tr_settlementSupportFeeAmount t;
     tr_supplierFirstTranche := tr_supplierFirstTranche t;
     tr_supplierSecondTranche := tr_supplierSecondTranche t; tr_ricardianHash := tr_ricardianHash t;
     tr_createdAt := tr_createdAt t; tr_arrivalTimestamp := Some d; tr_paused := tr_paused t |}.

Definition set_trade_paused (v : bool) (t : Trade) : Trade :=
  {| tr_id := tr_id t; tr_tradeId := tr_tradeId t; tr_buyer := tr_buyer t;
     tr_supplier := tr_supplier t; tr_status := tr_status t;
     tr_totalAmountLocked := tr_totalAmountLocked t; tr_logisticsAmount := tr_logisticsAmount t;
     tr_platformFeesAmount := tr_platformFeesAmount t;
     tr_platformFeeNetAmount := tr_platformFeeNetAmount t;
     tr_settlementSupportFeeAmount := tr_settlementSupportFeeAmount t;
     tr_supplierFirstTranche := tr_supplierFirstTranche t;
     tr_supplierSecondTranche := tr_supplierSecondTranche t; tr_ricardianHash := tr_ricardianHash t;
     tr_createdAt := tr_createdAt t; tr_arrivalTimestamp := tr_arrivalTimestamp t; tr_paused := v |}.

Definition SETTLEMENT_SUPPORT_FEE_BASE_UNITS : Z := 4000000.

(** 7 * 24 * 60 * 60 * 1000 *)
Definition PROPOSAL_TTL_MS : Z := 604800000.

(** [platformFeeNetAmount] and [settlementSupportFeeAmount]. *)
Definition splitPlatformFeeComponents (platformFeesAmount : Z) : Z * Z :=
  let settlementSupportFeeAmount :=
    if platformFeesAmount <? SETTLEMENT_SUPPORT_FEE_BASE_UNITS
    then platformFeesAmount else SETTLEMENT_SUPPORT_FEE_BASE_UNITS in
  (platformFeesAmount - settlementSupportFeeAmount, settlementSupportFeeAmount).

(** [disputeStatus === 0n ? DisputeStatus.REFUND : DisputeStatus.RESOLVE] *)
Definition dispute_status_of (z : Z) : DisputeStatus := if z =? 0 then REFUND else RESOLVE.

(** [new Date(timestamp.getTime() + PROPOSAL_TTL_MS)] *)
Definition expires_at (timestamp : js_date) : js_date :=
  match timestamp with Some t => new_date (t + PROPOSAL_TTL_MS) | None => None end.

(** ** Trade events *)

Definition handleTradeLocked (tradeId : Z) (buyer supplier : string)
    (totalAmount logisticsAmount platformFeesAmount supplierFirstTranche supplierSecondTranche : Z)
    (ricardianHash : string) (lc : LogContext) : Handler unit :=
  update_counters (fun c => Ok (applyTradeCreated LOCKED c)) (lc_timestamp lc);;
  let '(platformFeeNetAmount, settlementSupportFeeAmount) :=
    splitPlatformFeeComponents platformFeesAmount in
  let trade :=
    {| tr_id := print_Z tradeId; tr_tradeId := print_Z tradeId; tr_buyer := toLowerCase buyer;
       tr_supplier := toLowerCase supplier; tr_status := LOCKED;
       tr_totalAmountLocked := totalAmount; tr_logisticsAmount := logisticsAmount;
       tr_platformFeesAmount := platformFeesAmount;
       tr_platformFeeNetAmount := platformFeeNetAmount;
       tr_settlementSupportFeeAmount := settlementSupportFeeAmount;
       tr_supplierFirstTranche := supplierFirstTranche;
       tr_supplierSecondTranche := supplierSecondTranche; tr_ricardianHash := ricardianHash;
       tr_createdAt := lc_timestamp lc; tr_arrivalTimestamp := None; tr_paused := false |} in
  modify (put_trade (print_Z tradeId) trade);;
  push TradeEvents lc "TradeLocked" (Some (tr_id trade))
    [("totalAmount", BigIntColumn totalAmount); ("logisticsAmount", BigIntColumn logisticsAmount);
     ("platformFeesAmount", BigIntColumn platformFeesAmount);
     ("platformFeeNetAmount", BigIntColumn platformFeeNetAmount);
     ("settlementSupportFeeAmount", BigIntColumn settlementSupportFeeAmount);
     ("supplierFirstTranche", BigIntColumn supplierFirstTranche);
     ("supplierSecondTranche", BigIntColumn supplierSecondTranche)].

Definition handleFundsReleasedStage1 (tradeId supplierFirstTranche : Z) (treasury : string)
    (logisticsAmount : Z) (lc : LogContext) : Handler unit :=
  trade ← getOrLoadTrade (print_Z tradeId);
  update_counters (applyTradeTransition (tr_status trade) IN_TRANSIT) (lc_timestamp lc);;
  modify (put_trade (print_Z tradeId) (set_status IN_TRANSIT trade));;
  push TradeEvents lc "FundsReleasedStage1" (Some (tr_id trade))
    [("releasedFirstTranche", BigIntColumn supplierFirstTranche);
     ("releasedLogisticsAmount", BigIntColumn logisticsAmount);
     ("treasuryAddress", StringColumn (toLowerCase treasury))].

Definition handlePlatformFeesPaidStage1 (tradeId : Z) (treasury : string) (platformFeesAmount : Z)
    (eventPlatformFeeNet eventSettlementSupportFee : option Z) (lc : LogContext) : Handler unit :=
  trade ← getOrLoadTrade (print_Z tradeId);
  touch_overview (lc_timestamp lc);;
  let fallbackSplit := splitPlatformFeeComponents platformFeesAmount in
  let platformFeeNetAmount := default fallbackSplit.1 eventPlatformFeeNet in
  let settlementSupportFeeAmount := default fallbackSplit.2 eventSettlementSupportFee in
  push TradeEvents lc "PlatformFeesPaidStage1" (Some (tr_id trade))
    [("paidPlatformFees", BigIntColumn platformFeesAmount);
     ("paidPlatformFeeNet", BigIntColumn platformFeeNetAmount);
     ("paidSettlementSupportFee", BigIntColumn settlementSupportFeeAmount);
     ("treasuryAddress", StringColumn (toLowerCase treasury))].

Definition handleInspectionAvailable
    (tradeId inspectionAvailableAt inspectionWindowSeconds noticeDeadline : Z) (lc : LogContext)
    : Handler unit :=
  trade ← getOrLoadTrade (print_Z tradeId);
  update_counters (applyTradeTransition (tr_status trade) ARRIVAL_CONFIRMED) (lc_timestamp lc);;
  let arrivalTimestamp := new_date (js_number (js_number inspectionAvailableAt * 1000)) in
  modify (put_trade (print_Z tradeId)
            (set_arrival arrivalTimestamp (set_status ARRIVAL_CONFIRMED trade)));;
  push TradeEvents lc "InspectionAvailable" (Some (tr_id trade))
    [("inspectionAvailableAt", BigIntColumn inspectionAvailableAt);
     ("inspectionWindowSeconds", BigIntColumn inspectionWindowSeconds);
     ("inspectionNoticeDeadline", BigIntColumn noticeDeadline)].

Definition handleInspectionAcceptedForFinalRelease (tradeId acceptedAt : Z) (lc : LogContext)
    : Handler unit :=
  trade ← getOrLoadTrade (print_Z tradeId);
  touch_overview (lc_timestamp lc);;
  push TradeEvents lc "InspectionAcceptedForFinalRelease" (Some (tr_id trade))
    [("inspectionAcceptedAt", BigIntColumn acceptedAt)].

Definition handleFinalTrancheReleased (tradeId : Z) (supplier : string) (supplierSecondTranche : Z)
    (lc : LogContext) : Handler unit :=
  trade ← getOrLoadTrade (print_Z tradeId);
  update_counters (applyTradeTransition (tr_status trade) CLOSED) (lc_timestamp lc);;
  modify (put_trade (print_Z tradeId) (set_status CLOSED trade));;
  push TradeEvents lc "FinalTrancheReleased" (Some (tr_id trade))
    [("finalTranche", BigIntColumn supplierSecondTranche);
     ("finalRecipient", StringColumn (toLowerCase supplier))].

Definition handleDisputeOpenedByBuyer (tradeId : Z) (lc : LogContext) : Handler unit :=
  trade ← getOrLoadTrade (print_Z tradeId);
  update_counters (applyTradeTransition (tr_status trade) FROZEN) (lc_timestamp lc);;
  modify (put_trade (print_Z tradeId) (set_status FROZEN trade));;
  push TradeEvents lc "DisputeOpenedByBuyer" (Some (tr_id trade)) [].

Definition handleTradePaused (tradeId : Z) (triggeredBy : string) (lc : LogContext) : Handler unit :=
  trade ← getOrLoadTrade (print_Z tradeId);
  modify (put_trade (print_Z tradeId) (set_trade_paused true trade));;
  touch_overview (lc_timestamp lc);;
  push TradeEvents lc "TradePaused" (Some (tr_id trade))
    [("pauseTriggeredBy", StringColumn (toLowerCase triggeredBy))].

Definition handleTradeUnpaused (tradeId : Z) (triggeredBy : string) (lc : LogContext) : Handler unit :=
  trade ← getOrLoadTrade (print_Z tradeId);
  modify (put_trade (print_Z tradeId) (set_trade_paused false trade));;
  touch_overview (lc_timestamp lc);;
  push TradeEvents lc "TradeUnpaused" (Some (tr_id trade))
    [("pauseTriggeredBy", StringColumn (toLowerCase triggeredBy))].

Definition handleTradeCancelledAfterLockTimeout (tradeId : Z) (buyer : string) (refundedAmount : Z)
    (lc : LogContext) : Handler unit :=
  trade ← getOrLoadTrade (print_Z tradeId);
  update_counters (applyTradeCancelled (tr_status trade)) (lc_timestamp lc);;
  modify (put_trade (print_Z tradeId) (set_status CLOSED trade));;
  push TradeEvents lc "TradeCancelledAfterLockTimeout" (Some (tr_id trade))
    [("refundedAmount", BigIntColumn refundedAmount);
     ("refundedTo", StringColumn (toLowerCase buyer))].

Definition handleInTransitTimeoutRefunded (tradeId : Z) (buyer : string) (refundedAmount : Z)
    (lc : LogContext) : Handler unit :=
  trade ← getOrLoadTrade (print_Z tradeId);
  update_counters (applyTradeCancelled (tr_status trade)) (lc_timestamp lc);;
  modify (put_trade (print_Z tradeId) (set_status CLOSED trade));;
  push TradeEvents lc "InTransitTimeoutRefunded" (Some (tr_id trade))
    [("refundedBuyerPrincipal", BigIntColumn refundedAmount);
     ("refundedTo", StringColumn (toLowerCase buyer))].

Definition handleRelayedActionExecuted (relayer user action : string) (tradeId : Z)
    (lc : LogContext) : Handler unit :=
  trade ← getOrLoadTrade (print_Z tradeId);
  touch_overview (lc_timestamp lc);;
  push TradeEvents lc "RelayedActionExecuted" (Some (tr_id trade))
    [("relayedAction", StringColumn action); ("relayedUser", StringColumn (toLowerCase user));
     ("relayedRelayer", StringColumn (toLowerCase relayer))].

Definition handleGaslessTradeFunded (tradeId : Z) (buyer usdcAuthorizationNonce : string)
    (amount : Z) (lc : LogContext) : Handler unit :=
  trade ← getOrLoadTrade (print_Z tradeId);
  touch_overview (lc_timestamp lc);;
  push TradeEvents lc "GaslessTradeFunded" (Some (tr_id trade))
    [("gaslessBuyer", StringColumn (toLowerCase buyer));
     ("usdcAuthorizationNonce", StringColumn usdcAuthorizationNonce);
     ("totalAmount", BigIntColumn amount)].

Definition handleSupplierPayoutTransferred (tradeId : Z) (supplier : string) (amount claimType : Z)
    (triggeredBy : string) (lc : LogContext) : Handler unit :=
  trade ← getOrLoadTrade (print_Z tradeId);
  let claimTypeEnum := claim_type_of claimType in
  touch_overview (lc_timestamp lc);;
  push TradeEvents lc "SupplierPayoutTransferred" (Some (tr_id trade))
    [("supplierPayoutRecipient", StringColumn (toLowerCase supplier));
     ("supplierPayoutAmount", BigIntColumn amount);
     ("supplierPayoutType", ClaimColumn claimTypeEnum);
     ("supplierPayoutTriggeredBy", StringColumn (toLowerCase triggeredBy))].

Definition handleBuyerRefundTransferred (tradeId : Z) (buyer : string) (amount claimType : Z)
    (triggeredBy : string) (lc : LogContext) : Handler unit :=
  trade ← getOrLoadTrade (print_Z tradeId);
  let claimTypeEnum := claim_type_of claimType in
  touch_overview (lc_timestamp lc);;
  push TradeEvents lc "BuyerRefundTransferred" (Some (tr_id trade))
    [("buyerRefundRecipient", StringColumn (toLowerCase buyer));
     ("buyerRefundAmount", BigIntColumn amount);
     ("buyerRefundType", ClaimColumn claimTypeEnum);
     ("buyerRefundTriggeredBy", StringColumn (toLowerCase triggeredBy))].

Definition handleClaimableAccrued (tradeId : Z) (recipient : string) (amount claimType : Z)
    (lc : LogContext) : Handler unit :=
  trade ← getOrLoadTrade (print_Z tradeId);
  let claimTypeEnum := claim_type_of claimType in
  touch_overview (lc_timestamp lc);;
  push TradeEvents lc "ClaimableAccrued" (Some (tr_id trade))
    [("claimType", ClaimColumn claimTypeEnum);
     ("claimRecipient", StringColumn (toLowerCase recipient));
     ("claimAmount", BigIntColumn amount)].

Definition handleDisputePayout (tradeId proposalId : Z) (recipient : string) (amount payoutType : Z)
    (lc : LogContext) : Handler unit :=
  trade ← getOrLoadTrade (print_Z tradeId);
  let payoutTypeEnum := dispute_status_of payoutType in
  update_counters (match payoutTypeEnum with
                   | REFUND => applyTradeCancelled (tr_status trade)
                   | RESOLVE => applyTradeTransition (tr_status trade) CLOSED
                   end) (lc_timestamp lc);;
  modify (put_trade (print_Z tradeId) (set_status CLOSED trade));;
  push TradeEvents lc "DisputePayout" (Some (tr_id trade))
    [("payoutRecipient", StringColumn (toLowerCase recipient));
     ("payoutAmount", BigIntColumn amount); ("payoutType", DisputeColumn payoutTypeEnum);
     ("relatedProposalId", StringColumn (print_Z proposalId))].

(** ** Dispute events *)

Definition set_dispute_approvals (n : Z) (p : DisputeProposal) : DisputeProposal :=
  {| dp_id := dp_id p; dp_proposalId := dp_proposalId p; dp_trade := dp_trade p;
     dp_disputeStatus := dp_disputeStatus p; dp_approvalCount := n; dp_executed := dp_executed p;
     dp_createdAt := dp_createdAt p; dp_proposer := dp_proposer p; dp_expiresAt := dp_expiresAt p;
     dp_cancelled := dp_cancelled p |}.

Definition set_dispute_executed (p : DisputeProposal) : DisputeProposal :=
  {| dp_id := dp_id p; dp_proposalId := dp_proposalId p; dp_trade := dp_trade p;
     dp_disputeStatus := dp_disputeStatus p; dp_approvalCount := dp_approvalCount p;
     dp_executed := true; dp_createdAt := dp_createdAt p; dp_proposer := dp_proposer p;
     dp_expiresAt := dp_expiresAt p; dp_cancelled := dp_cancelled p |}.

Definition set_dispute_cancelled (p : DisputeProposal) : DisputeProposal :=
  {| dp_id := dp_id p; dp_proposalId := dp_proposalId p; dp_trade := dp_trade p;
     dp_disputeStatus := dp_disputeStatus p; dp_approvalCount := dp_approvalCount p;
     dp_executed := dp_executed p; dp_createdAt := dp_createdAt p; dp_proposer := dp_proposer p;
     dp_expiresAt := dp_expiresAt p; dp_cancelled := true |}.

Definition handleDisputeSolutionProposed (proposalId tradeId disputeStatus : Z) (proposer : string)
    (lc : LogContext) : Handler unit :=
  trade ← getOrLoadTrade (print_Z tradeId);
  let disputeStatusEnum := dispute_status_of disputeStatus in
  let proposal :=
    {| dp_id := print_Z proposalId; dp_proposalId := print_Z proposalId;
       dp_trade := Some (tr_id trade); dp_disputeStatus := disputeStatusEnum;
       dp_approvalCount := 1; dp_executed := false; dp_createdAt := lc_timestamp lc;
       dp_proposer := toLowerCase proposer; dp_expiresAt := expires_at (lc_timestamp lc);
       dp_cancelled := false |} in
  modify (with_disputes <[print_Z proposalId := proposal]>);;
  push DisputeEvents lc "DisputeSolutionProposed" (Some (dp_id proposal))
    [("proposedDisputeStatus", DisputeColumn disputeStatusEnum);
     ("proposer", StringColumn (toLowerCase proposer))].

Definition handleDisputeApproved (proposalId : Z) (approver : string)
    (approvalCount requiredApprovals : Z) (lc : LogContext) : Handler unit :=
  let key := print_Z proposalId in
  loadDisputeProposal key
    ("Required parent dispute proposal " ++ key ++ " is missing for DisputeApproved event");;
  modify (with_disputes (alter (set_dispute_approvals (js_number approvalCount)) key));;
  push DisputeEvents lc "DisputeApproved" (Some key)
    [("approver", StringColumn (toLowerCase approver));
     ("approvalCount", IntColumn (js_number approvalCount));
     ("requiredApprovals", IntColumn (js_number requiredApprovals))].

Definition handleDisputeFinalized (proposalId disputeStatus : Z) (lc : LogContext) : Handler unit :=
  let key := print_Z proposalId in
  loadDisputeProposal key
    ("Required parent dispute proposal " ++ key ++ " is missing for DisputeFinalized event");;
  modify (with_disputes (alter set_dispute_executed key));;
  push DisputeEvents lc "DisputeFinalized" (Some key)
    [("finalDisputeStatus", DisputeColumn (dispute_status_of disputeStatus))].

Definition handleDisputeProposalExpiredCancelled (proposalId : Z) (cancelledBy : string)
    (lc : LogContext) : Handler unit :=
  let key := print_Z proposalId in
  loadDisputeProposal key
    ("Required parent dispute proposal " ++ key ++ " is missing for ExpiredCancelled event");;
  modify (with_disputes (alter set_dispute_cancelled key));;
  push DisputeEvents lc "DisputeProposalExpiredCancelled" (Some key)
    [("cancelledBy", StringColumn (toLowerCase cancelledBy))].

(** ** Oracle events *)

Definition set_oracle_approvals (n : Z) (p : OracleUpdateProposal) : OracleUpdateProposal :=
  {| op_id := op_id p; op_proposalId := op_proposalId p; op_newOracle := op_newOracle p;
     op_approvalCount := n; op_executed := op_executed p; op_createdAt := op_createdAt p;
     op_eta := op_eta p; op_proposer := op_proposer p;
     op_emergencyFastTrack := op_emergencyFastTrack p; op_expiresAt := op_expiresAt p;
     op_cancelled := op_cancelled p |}.

Definition set_oracle_cancelled (p : OracleUpdateProposal) : OracleUpdateProposal :=
  {| op_id := op_id p; op_proposalId := op_proposalId p; op_newOracle := op_newOracle p;
     op_approvalCount := op_approvalCount p; op_executed := op_executed p;
     op_createdAt := op_createdAt p; op_eta := op_eta p; op_proposer := op_proposer p;
     op_emergencyFastTrack := op_emergencyFastTrack p; op_expiresAt := op_expiresAt p;
     op_cancelled := true |}.

Definition missing_oracle_proposal (key : string) : string :=
  "Required parent Oracle update proposal " ++ key ++ " is missing".

Definition handleOracleUpdateProposed (proposalId : Z) (proposer newOracle : string) (eta : Z)
    (emergencyFastTrack : bool) (lc : LogContext) : Handler unit :=
  let proposal :=
    {| op_id := print_Z proposalId; op_proposalId := print_Z proposalId;
       op_newOracle := toLowerCase newOracle; op_approvalCount := 1; op_executed := false;
       op_createdAt := lc_timestamp lc; op_eta := eta; op_proposer := toLowerCase proposer;
       op_emergencyFastTrack := emergencyFastTrack; op_expiresAt := expires_at (lc_timestamp lc);
       op_cancelled := false |} in
  modify (with_oracle_proposals <[print_Z proposalId := proposal]>);;
  push OracleEvents lc "OracleUpdateProposed" (Some (op_id proposal))
    [("proposedOracle", StringColumn (toLowerCase newOracle)); ("eta", BigIntColumn eta);
     ("proposer", StringColumn (toLowerCase proposer))].

Definition handleOracleUpdateApproved (proposalId : Z) (approver : string)
    (approvalCount requiredApprovals : Z) (lc : LogContext) : Handler unit :=
  let key := print_Z proposalId in
  loadOracleProposal key (missing_oracle_proposal key);;
  modify (with_oracle_proposals (alter (set_oracle_approvals (js_number approvalCount)) key));;
  push OracleEvents lc "OracleUpdateApproved" (Some key)
    [("approver", StringColumn (toLowerCase approver));
     ("approvalCount", IntColumn (js_number approvalCount));
     ("requiredApprovals", IntColumn (js_number requiredApprovals))].

Definition handleOracleUpdated (oldOracle newOracle : string) (lc : LogContext) : Handler unit :=
  push OracleEvents lc "OracleUpdated" None
    [("oldOracle", StringColumn (toLowerCase oldOracle));
     ("newOracle", StringColumn (toLowerCase newOracle))].

Definition handleOracleUpdateProposalExpiredCancelled (proposalId : Z) (cancelledBy : string)
    (lc : LogContext) : Handler unit :=
  let key := print_Z proposalId in
  loadOracleProposal key (missing_oracle_proposal key);;
  modify (with_oracle_proposals (alter set_oracle_cancelled key));;
  push OracleEvents lc "OracleUpdateProposalExpiredCancelled" (Some key)
    [("cancelledBy", StringColumn (toLowerCase cancelledBy))].

Definition handleOracleDisabledEmergency (disabledBy previousOracle : string) (lc : LogContext)
    : Handler unit :=
  push OracleEvents lc "OracleDisabledEmergency" None
    [("disabledBy", StringColumn (toLowerCase disabledBy));
     ("previousOracle", StringColumn (toLowerCase previousOracle))].

(** ** Admin events *)

Definition set_admin_approvals (n : Z) (p : AdminChangeProposal) : AdminChangeProposal :=
  {| ap_id := ap_id p; ap_proposalId := ap_proposalId p; ap_kind := ap_kind p;
     ap_currentAdmin := ap_currentAdmin p; ap_newAdmin := ap_newAdmin p;
     ap_newThreshold := ap_newThreshold p; ap_approvalCount := n; ap_executed := ap_executed p;
     ap_createdAt := ap_createdAt p; ap_eta := ap_eta p; ap_proposer := ap_proposer p;
     ap_epoch := ap_epoch p; ap_expiresAt := ap_expiresAt p; ap_cancelled := ap_cancelled p |}.

Definition set_admin_cancelled (p : AdminChangeProposal) : AdminChangeProposal :=
  {| ap_id := ap_id p; ap_proposalId := ap_proposalId p; ap_kind := ap_kind p;
     ap_currentAdmin := ap_currentAdmin p; ap_newAdmin := ap_newAdmin p;
     ap_newThreshold := ap_newThreshold p; ap_approvalCount := ap_approvalCount p;
     ap_executed := ap_executed p; ap_createdAt := ap_createdAt p; ap_eta := ap_eta p;
     ap_proposer := ap_proposer p; ap_epoch := ap_epoch p; ap_expiresAt := ap_expiresAt p;
     ap_cancelled := true |}.

(** [markGovernanceProposalExecuted]: [proposal.executed = true; proposals.set(id, proposal)]. *)
Definition markGovernanceProposalExecuted (p : AdminChangeProposal) : AdminChangeProposal :=
  {| ap_id := ap_id p; ap_proposalId := ap_proposalId p; ap_kind := ap_kind p;
     ap_currentAdmin := ap_currentAdmin p; ap_newAdmin := ap_newAdmin p;
     ap_newThreshold := ap_newThreshold p; ap_approvalCount := ap_approvalCount p;
     ap_executed := true; ap_createdAt := ap_createdAt p; ap_eta := ap_eta p;
     ap_proposer := ap_proposer p; ap_epoch := ap_epoch p; ap_expiresAt := ap_expiresAt p;
     ap_cancelled := ap_cancelled p |}.

Definition missing_admin_proposal (key : string) : string :=
  "Required parent Admin change proposal " ++ key ++ " is missing".

Definition handleAdminChangeProposed (proposalId : Z) (proposer : string) (kind : Z)
    (currentAdmin newAdmin : string) (newThreshold eta epoch : Z) (lc : LogContext) : Handler unit :=
  let proposal :=
    {| ap_id := print_Z proposalId; ap_proposalId := print_Z proposalId; ap_kind := js_number kind;
       ap_currentAdmin := toLowerCase currentAdmin; ap_newAdmin := toLowerCase newAdmin;
       ap_newThreshold := newThreshold; ap_approvalCount := 1; ap_executed := false;
       ap_createdAt := lc_timestamp lc; ap_eta := eta; ap_proposer := toLowerCase proposer;
       ap_epoch := epoch; ap_expiresAt := expires_at (lc_timestamp lc); ap_cancelled := false |} in
  modify (with_admin_proposals <[print_Z proposalId := proposal]>);;
  push AdminEvents lc "AdminChangeProposed" (Some (ap_id proposal))
    [("adminChangeKind", IntColumn (js_number kind));
     ("currentAdmin", StringColumn (toLowerCase currentAdmin));
     ("newAdmin", StringColumn (toLowerCase newAdmin)); ("newThreshold", BigIntColumn newThreshold);
     ("governanceEpoch", BigIntColumn epoch); ("eta", BigIntColumn eta);
     ("proposer", StringColumn (toLowerCase proposer))].

Definition handleAdminChangeApproved (proposalId : Z) (approver : string)
    (approvalCount requiredApprovals : Z) (lc : LogContext) : Handler unit :=
  let key := print_Z proposalId in
  loadAdminProposal key (missing_admin_proposal key);;
  modify (with_admin_proposals (alter (set_admin_approvals (js_number approvalCount)) key));;
  push AdminEvents lc "AdminChangeApproved" (Some key)
    [("approver", StringColumn (toLowerCase approver));
     ("approvalCount", IntColumn (js_number approvalCount));
     ("requiredApprovals", IntColumn (js_number requiredApprovals))].

Definition handleAdminChangeExecuted (proposalId kind : Z) (currentAdmin newAdmin : string)
    (newThreshold : Z) (lc : LogContext) : Handler unit :=
  let key := print_Z proposalId in
  loadAdminProposal key ("Admin change proposal " ++ key ++ " not found for execution");;
  modify (with_admin_proposals (alter markGovernanceProposalExecuted key));;
  push AdminEvents lc "AdminChangeExecuted" (Some key)
    [("adminChangeKind", IntColumn (js_number kind));
     ("currentAdmin", StringColumn (toLowerCase currentAdmin));
     ("newAdmin", StringColumn (toLowerCase newAdmin)); ("newThreshold", BigIntColumn newThreshold)].

Definition handleAdminAdded (newAdmin : string) (lc : LogContext) : Handler unit :=
  push AdminEvents lc "AdminAdded" None [("addedAdmin", StringColumn (toLowerCase newAdmin))].

Definition handleAdminRemoved (oldAdmin : string) (lc : LogContext) : Handler unit :=
  push AdminEvents lc "AdminRemoved" None [("removedAdmin", StringColumn (toLowerCase oldAdmin))].

Definition handleAdminReplaced (oldAdmin newAdmin : string) (lc : LogContext) : Handler unit :=
  push AdminEvents lc "AdminReplaced" None
    [("oldAdmin", StringColumn (toLowerCase oldAdmin));
     ("replacementAdmin", StringColumn (toLowerCase newAdmin))].

Definition handleAdminChangeProposalCancelled (proposalId : Z) (cancelledBy : string)
    (lc : LogContext) : Handler unit :=
  let key := print_Z proposalId in
  loadAdminProposal key (missing_admin_proposal key);;
  modify (with_admin_proposals (alter set_admin_cancelled key));;
  push AdminEvents lc "AdminChangeProposalCancelled" (Some key)
    [("cancelledBy", StringColumn (toLowerCase cancelledBy))].

(** ** System events *)

Definition triggered_by (account : string) : string * Column :=
  ("triggeredBy", StringColumn (toLowerCase account)).

Definition handlePaused (triggeredBy : string) (lc : LogContext) : Handler unit :=
  push SystemEvents lc "Paused" None [triggered_by triggeredBy].

Definition handleUnpauseProposed (proposer : string) (scope tradeId : Z) (incidentRef : string)
    (epoch : Z) (lc : LogContext) : Handler unit :=
  push SystemEvents lc "UnpauseProposed" None
    [triggered_by proposer; ("pauseScope", IntColumn (js_number scope));
     ("pauseTradeId", BigIntColumn tradeId); ("incidentRef", StringColumn incidentRef);
     ("governanceEpoch", BigIntColumn epoch)].

Definition handleUnpauseApproved (approver : string) (approvalCount requiredApprovals : Z)
    (lc : LogContext) : Handler unit :=
  push SystemEvents lc "UnpauseApproved" None
    [triggered_by approver; ("approvalCount", IntColumn (js_number approvalCount));
     ("requiredApprovals", IntColumn (js_number requiredApprovals))].

Definition handleUnpauseProposalCancelled (cancelledBy : string) (lc : LogContext) : Handler unit :=
  push SystemEvents lc "UnpauseProposalCancelled" None [triggered_by cancelledBy].

Definition handleUnpaused (account : string) (lc : LogContext) : Handler unit :=
  push SystemEvents lc "Unpaused" None [triggered_by account].

Definition handleClaimsPaused (triggeredBy : string) (lc : LogContext) : Handler unit :=
  push SystemEvents lc "ClaimsPaused" None [triggered_by triggeredBy].

Definition handleClaimsUnpaused (triggeredBy : string) (lc : LogContext) : Handler unit :=
  push SystemEvents lc "ClaimsUnpaused" None [triggered_by triggeredBy].

Definition handleTreasuryClaimed (treasuryIdentity payoutReceiver : string) (amount : Z)
    (triggeredBy : string) (lc : LogContext) : Handler unit :=
  push SystemEvents lc "TreasuryClaimed" None
    [triggered_by triggeredBy; ("claimAmount", BigIntColumn amount);
     ("treasuryIdentity", StringColumn (toLowerCase treasuryIdentity));
     ("payoutReceiver", StringColumn (toLowerCase payoutReceiver))].

Definition handleTreasuryPayoutAddressUpdateProposed (proposalId : Z)
    (proposer newPayoutReceiver : string) (eta : Z) (lc : LogContext) : Handler unit :=
  push SystemEvents lc "TreasuryPayoutAddressUpdateProposed" None
    [("proposalId", StringColumn (print_Z proposalId)); triggered_by proposer;
     ("newPayoutReceiver", StringColumn (toLowerCase newPayoutReceiver));
     ("payoutReceiver", StringColumn (toLowerCase newPayoutReceiver)); ("eta", BigIntColumn eta)].

Definition handleTreasuryPayoutAddressUpdateApproved (proposalId : Z) (approver : string)
    (approvalCount requiredApprovals : Z) (lc : LogContext) : Handler unit :=
  push SystemEvents lc "TreasuryPayoutAddressUpdateApproved" None
    [("proposalId", StringColumn (print_Z proposalId)); triggered_by approver;
     ("approvalCount", IntColumn (js_number approvalCount));
     ("requiredApprovals", IntColumn (js_number requiredApprovals))].

Definition handleTreasuryPayoutAddressUpdated (oldPayoutReceiver newPayoutReceiver : string)
    (lc : LogContext) : Handler unit :=
  push SystemEvents lc "TreasuryPayoutAddressUpdated" None
    [("oldPayoutReceiver", StringColumn (toLowerCase oldPayoutReceiver));
     ("newPayoutReceiver", StringColumn (toLowerCase newPayoutReceiver));
     ("payoutReceiver", StringColumn (toLowerCase newPayoutReceiver))].

Definition handleTreasuryPayoutAddressUpdateProposalExpiredCancelled (proposalId : Z)
    (cancelledBy : string) (lc : LogContext) : Handler unit :=
  push SystemEvents lc "TreasuryPayoutAddressUpdateProposalExpiredCancelled" None
    [("proposalId", StringColumn (print_Z proposalId)); triggered_by cancelledBy].

Definition handleAuthorizationConsumed (user action : string) (nonce : Z) (relayer : string)
    (deadline : Z) (lc : LogContext) : Handler unit :=
  push SystemEvents lc "AuthorizationConsumed" None
    [triggered_by relayer; ("authorizationUser", StringColumn (toLowerCase user));
     ("authorizationAction", StringColumn action); ("authorizationNonce", BigIntColumn nonce);
     ("authorizationRelayer", StringColumn (toLowerCase relayer));
     ("authorizationDeadline", BigIntColumn deadline)].

Definition handleRelayerUpdated (relayer : string) (allowed : bool) (updatedBy : string)
    (lc : LogContext) : Handler unit :=
  push SystemEvents lc "RelayerUpdated" None
    [triggered_by updatedBy; ("authorizationRelayer", StringColumn (toLowerCase relayer));
     ("authorizationAction", StringColumn (if allowed then "RELAYER_ALLOWED" else "RELAYER_REVOKED"))].

Definition handleRequiredApprovalsUpdated (oldThreshold newThreshold : Z) (lc : LogContext)
    : Handler unit :=
  push SystemEvents lc "RequiredApprovalsUpdated" None
    [("oldThreshold", BigIntColumn oldThreshold); ("newThreshold", BigIntColumn newThreshold)].

Definition handleGovernanceEpochAdvanced (newEpoch : Z) (lc : LogContext) : Handler unit :=
  push SystemEvents lc "GovernanceEpochAdvanced" None [("governanceEpoch", BigIntColumn newEpoch)].

(** ** The switch of [processBatch] *)

(** [decoded.name] *)
Definition event_name (e : EscrowEvent) : string :=
  match e with
  | TradeLocked _ _ _ _ _ _ _ _ _ => "TradeLocked"
  | FundsReleasedStage1 _ _ _ _ _ => "FundsReleasedStage1"
  | PlatformFeesPaidStage1 _ _ _ _ _ => "PlatformFeesPaidStage1"
  | InspectionAvailable _ _ _ _ => "InspectionAvailable"
  | InspectionAcceptedForFinalRelease _ _ => "InspectionAcceptedForFinalRelease"
  | FinalTrancheReleased _ _ _ => "FinalTrancheReleased"
  | DisputeOpenedByBuyer _ => "DisputeOpenedByBuyer"
  | TradeCancelledAfterLockTimeout _ _ _ => "TradeCancelledAfterLockTimeout"
  | TradePaused _ _ => "TradePaused"
  | TradeUnpaused _ _ => "TradeUnpaused"
  | InTransitTimeoutRefunded _ _ _ => "InTransitTimeoutRefunded"
  | RelayedActionExecuted _ _ _ _ => "RelayedActionExecuted"
  | GaslessTradeFunded _ _ _ _ => "GaslessTradeFunded"
  | SupplierPayoutTransferred _ _ _ _ _ => "SupplierPayoutTransferred"
  | BuyerRefundTransferred _ _ _ _ _ => "BuyerRefundTransferred"
  | ClaimableAccrued _ _ _ _ => "ClaimableAccrued"
  | DisputeSolutionProposed _ _ _ _ => "DisputeSolutionProposed"
  | DisputeApproved _ _ _ _ => "DisputeApproved"
  | DisputeFinalized _ _ _ => "DisputeFinalized"
  | DisputeProposalExpiredCancelled _ _ _ => "DisputeProposalExpiredCancelled"
  | DisputePayout _ _ _ _ _ => "DisputePayout"
  | OracleUpdateProposed _ _ _ _ _ => "OracleUpdateProposed"
  | OracleUpdateApproved _ _ _ _ => "OracleUpdateApproved"
  | OracleUpdated _ _ => "OracleUpdated"
  | OracleUpdateProposalExpiredCancelled _ _ => "OracleUpdateProposalExpiredCancelled"
  | OracleDisabledEmergency _ _ => "OracleDisabledEmergency"
  | AdminChangeProposed _ _ _ _ _ _ _ _ => "AdminChangeProposed"
  | AdminChangeApproved _ _ _ _ => "AdminChangeApproved"
  | AdminChangeExecuted _ _ _ _ _ => "AdminChangeExecuted"
  | AdminAdded _ => "AdminAdded"
  | AdminRemoved _ => "AdminRemoved"
  | AdminReplaced _ _ => "AdminReplaced"
  | AdminChangeProposalCancelled _ _ => "AdminChangeProposalCancelled"
  | Paused _ => "Paused"
  | UnpauseProposed _ _ _ _ _ => "UnpauseProposed"
  | UnpauseApproved _ _ _ => "UnpauseApproved"
  | UnpauseProposalCancelled _ => "UnpauseProposalCancelled"
  | Unpaused _ => "Unpaused"
  | ClaimsPaused _ => "ClaimsPaused"
  | ClaimsUnpaused _ => "ClaimsUnpaused"
  | TreasuryClaimed _ _ _ _ => "TreasuryClaimed"
  | TreasuryPayoutAddressUpdateProposed _ _ _ _ => "TreasuryPayoutAddressUpdateProposed"
  | TreasuryPayoutAddressUpdateApproved _ _ _ _ => "TreasuryPayoutAddressUpdateApproved"
  | TreasuryPayoutAddressUpdated _ _ => "TreasuryPayoutAddressUpdated"
  | TreasuryPayoutAddressUpdateProposalExpiredCancelled _ _ =>
      "TreasuryPayoutAddressUpdateProposalExpiredCancelled"
  | AuthorizationConsumed _ _ _ _ _ => "AuthorizationConsumed"
  | RelayerUpdated _ _ _ => "RelayerUpdated"
  | RequiredApprovalsUpdated _ _ => "RequiredApprovalsUpdated"
  | GovernanceEpochAdvanced _ => "GovernanceEpochAdvanced"
  | OtherEvent name => name
  end.

(** The case of the switch for an event; [None] is its default branch. *)
Definition dispatch (e : EscrowEvent) : option (LogContext -> Handler unit) :=
  match e with
  | TradeLocked t b s ta la pf s1 s2 h => Some (handleTradeLocked t b s ta la pf s1 s2 h)
  | FundsReleasedStage1 t _ s1 tr la => Some (handleFundsReleasedStage1 t s1 tr la)
  | PlatformFeesPaidStage1 t tr pf net fee => Some (handlePlatformFeesPaidStage1 t tr pf net fee)
  | InspectionAvailable t at_ w d => Some (handleInspectionAvailable t at_ w d)
  | InspectionAcceptedForFinalRelease t at_ => Some (handleInspectionAcceptedForFinalRelease t at_)
  | FinalTrancheReleased t s s2 => Some (handleFinalTrancheReleased t s s2)
  | DisputeOpenedByBuyer t => Some (handleDisputeOpenedByBuyer t)
  | TradeCancelledAfterLockTimeout t b a => Some (handleTradeCancelledAfterLockTimeout t b a)
  | TradePaused t by_ => Some (handleTradePaused t by_)
  | TradeUnpaused t by_ => Some (handleTradeUnpaused t by_)
  | InTransitTimeoutRefunded t b a => Some (handleInTransitTimeoutRefunded t b a)
  | RelayedActionExecuted r u a t => Some (handleRelayedActionExecuted r u a t)
  | GaslessTradeFunded t b n a => Some (handleGaslessTradeFunded t b n a)
  | SupplierPayoutTransferred t s a c by_ => Some (handleSupplierPayoutTransferred t s a c by_)
  | BuyerRefundTransferred t b a c by_ => Some (handleBuyerRefundTransferred t b a c by_)
  | ClaimableAccrued t r a c => Some (handleClaimableAccrued t r a c)
  | DisputeSolutionProposed p t d by_ => Some (handleDisputeSolutionProposed p t d by_)
  | DisputeApproved p by_ n req => Some (handleDisputeApproved p by_ n req)
  | DisputeFinalized p _ d => Some (handleDisputeFinalized p d)
  | DisputeProposalExpiredCancelled p _ by_ => Some (handleDisputeProposalExpiredCancelled p by_)
  | DisputePayout t p r a d => Some (handleDisputePayout t p r a d)
  | OracleUpdateProposed p by_ o eta f => Some (handleOracleUpdateProposed p by_ o eta f)
  | OracleUpdateApproved p by_ n req => Some (handleOracleUpdateApproved p by_ n req)
  | OracleUpdated o n => Some (handleOracleUpdated o n)
  | OracleUpdateProposalExpiredCancelled p by_ =>
      Some (handleOracleUpdateProposalExpiredCancelled p by_)
  | OracleDisabledEmergency by_ o => Some (handleOracleDisabledEmergency by_ o)
  | AdminChangeProposed p by_ k c n th eta ep =>
      Some (handleAdminChangeProposed p by_ k c n th eta ep)
  | AdminChangeApproved p by_ n req => Some (handleAdminChangeApproved p by_ n req)
  | AdminChangeExecuted p k c n th => Some (handleAdminChangeExecuted p k c n th)
  | AdminAdded n => Some (handleAdminAdded n)
  | AdminRemoved o => Some (handleAdminRemoved o)
  | AdminReplaced o n => Some (handleAdminReplaced o n)
  | AdminChangeProposalCancelled p by_ => Some (handleAdminChangeProposalCancelled p by_)
  | Paused by_ => Some (handlePaused by_)
  | UnpauseProposed by_ sc t r ep => Some (handleUnpauseProposed by_ sc t r ep)
  | UnpauseApproved by_ n req => Some (handleUnpauseApproved by_ n req)
  | UnpauseProposalCancelled by_ => Some (handleUnpauseProposalCancelled by_)
  | Unpaused a => Some (handleUnpaused a)
  | ClaimsPaused by_ => Some (handleClaimsPaused by_)
  | ClaimsUnpaused by_ => Some (handleClaimsUnpaused by_)
  | TreasuryClaimed i r a by_ => Some (handleTreasuryClaimed i r a by_)
  | TreasuryPayoutAddressUpdateProposed p by_ r eta =>
      Some (handleTreasuryPayoutAddressUpdateProposed p by_ r eta)
  | TreasuryPayoutAddressUpdateApproved p by_ n req =>
      Some (handleTreasuryPayoutAddressUpdateApproved p by_ n req)
  | TreasuryPayoutAddressUpdated o n => Some (handleTreasuryPayoutAddressUpdated o n)
  | TreasuryPayoutAddressUpdateProposalExpiredCancelled p by_ =>
      Some (handleTreasuryPayoutAddressUpdateProposalExpiredCancelled p by_)
  | AuthorizationConsumed u a n r d => Some (handleAuthorizationConsumed u a n r d)
  | RelayerUpdated r a by_ => Some (handleRelayerUpdated r a by_)
  | RequiredApprovalsUpdated o n => Some (handleRequiredApprovalsUpdated o n)
  | GovernanceEpochAdvanced n => Some (handleGovernanceEpochAdvanced n)
  | OtherEvent _ => None
  end.

End handlers.
