(* ===== verification/IndexerBatch.v ===== *)
(** One batch of the indexer: [processBatch] of [indexer/src/main.ts],
    [persistence.ts], [poisonLog.ts] and the quarantine table of
    [quarantine.ts].

    [parseLog] is the decoder of ethers and [localeCompare] the tie-break of
    string collation.  Whether the reads of the tables, the quarantine write, the
    alert and the write of the projection succeed is the input [Faults].  A persistence error is a graph
    of objects linked by [driverError] and [cause].  Log lines are left out. *)
From stdpp Require Import base list gmap strings.
From S2P Require Import Prelude JsText JsDate IndexerTypes IndexerHandlers.

Open Scope string_scope.
Open Scope Z_scope.

(** ** Writing a batch *)

(** [store.upsert(events)]: rows are written by id, in order. *)
Definition upsert_events (rows : list EventRow) (table : gmap string EventRow)
    : gmap string EventRow :=
  foldl (fun t row => <[ev_id row := row]> t) table rows.

Definition with_trade (t : option string) (p : DisputeProposal) : DisputeProposal :=
  {| dp_id := dp_id p; dp_proposalId := dp_proposalId p; dp_trade := t;
     dp_disputeStatus := dp_disputeStatus p; dp_approvalCount := dp_approvalCount p;
     dp_executed := dp_executed p; dp_createdAt := dp_createdAt p; dp_proposer := dp_proposer p;
     dp_expiresAt := dp_expiresAt p; dp_cancelled := dp_cancelled p |}.

(** An upsert does not write a relation column that is not loaded. *)
Definition stored (old : option DisputeProposal) (p : DisputeProposal) : DisputeProposal :=
  match dp_trade p with Some _ => p | None => with_trade (old ≫= dp_trade) p end.

Definition upsert_disputes (proposals table : gmap string DisputeProposal)
    : gmap string DisputeProposal :=
  merge (fun p old => match p with Some p => Some (stored old p) | None => old end) proposals table.

Definition persistIndexerBatch (s : Store) (b : Batch) : Store :=
  {| st_trades := b_trades b ∪ st_trades s;
     st_tradeEvents := upsert_events (b_tradeEvents b) (st_tradeEvents s);
     st_disputeProposals := upsert_disputes (b_disputeProposals b) (st_disputeProposals s);
     st_disputeEvents := upsert_events (b_disputeEvents b) (st_disputeEvents s);
     st_oracleUpdateProposals := b_oracleUpdateProposals b ∪ st_oracleUpdateProposals s;
     st_oracleEvents := upsert_events (b_oracleEvents b) (st_oracleEvents s);
     st_adminChangeProposals := b_adminChangeProposals b ∪ st_adminChangeProposals s;
     st_adminEvents := upsert_events (b_adminEvents b) (st_adminEvents s);
     st_systemEvents := upsert_events (b_systemEvents b) (st_systemEvents s);
     st_overview := Some (b_overviewSnapshot b) |}.

(** ** Persistence errors *)

(** A JavaScript value that is an object of the error graph, or anything else. *)
Inductive jsval := VObject (address : nat) | VOther.

Record ErrorObject := {
  eo_code : option string;
  eo_driverError : jsval;
  eo_cause : jsval
}.

(** [/^[0-9A-Z]{5}$/] *)
Definition is_sqlstate (s : string) : bool :=
  Nat.eqb (String.length s) 5 &&
  all_chars (fun c => is_digit c || char_between 65 90 c) s.

Fixpoint error_search (fuel : nat) (heap : nat -> option ErrorObject) (pending : list jsval)
    (seen : list nat) : option bool :=
  match fuel with
  | O => None
  | S fuel =>
      match pending with
      | [] => Some false
      | current :: pending =>
          if (16 <=? length seen)%nat then Some false
          else
            match current with
            | VOther => error_search fuel heap pending seen
            | VObject a =>
                match heap a with
                | Some value =>
                    if includes seen a then error_search fuel heap pending seen
                    else
                      let seen := a :: seen in
                      let next := (pending ++ [eo_driverError value; eo_cause value])%list in
                      match eo_code value with
                      | Some code =>
                          if is_sqlstate code
                          then Some (String.prefix "22" code || String.prefix "23" code)
                          else error_search fuel heap next seen
                      | None => error_search fuel heap next seen
                      end
                | None => error_search fuel heap pending seen
                end
            end
      end
  end.

(** Every round takes one entry from the queue, and adds two only when an object
    is seen for the first time, which happens at most 16 times. *)
Definition search_fuel : nat := 34.

Definition isNonRetryablePersistenceError (heap : nat -> option ErrorObject) (error : jsval) : bool :=
  default false (error_search search_fuel heap [error] []).

Lemma error_search_terminates heap fuel pending seen :
  (length pending + 2 * (16 - length seen) < fuel)%nat ->
  is_Some (error_search fuel heap pending seen).
Proof.
  revert pending seen. induction fuel as [|fuel IH]; intros pending seen Hf; [lia|].
  cbn [error_search]. destruct pending as [|v pending]; [by eexists|]. simpl in Hf.
  destruct (Nat.leb_spec 16 (length seen)) as [|Hs]; [by eexists|].
  destruct v as [a|]; [|apply IH; lia]. destruct (heap a) as [o|]; [|apply IH; lia].
  destruct (includes seen a); [apply IH; simpl in *; lia|].
  assert (is_Some (error_search fuel heap (pending ++ [eo_driverError o; eo_cause o]) (a :: seen)))
    by (apply IH; rewrite length_app; simpl; lia).
  destruct (eo_code o) as [c|]; [|done]. destruct (is_sqlstate c); [by eexists|done].
Qed.

Lemma error_search_answers heap error :
  is_Some (error_search search_fuel heap [error] []).
Proof. apply error_search_terminates. simpl. unfold search_fuel. lia. Qed.

(** ** Quarantine *)

Inductive PoisonLogReason := UNDECODABLE | UNKNOWN_EVENT | HANDLER_FAILURE.

Record QuarantinedLogEntry := {
  qe_blockNumber : Z;
  qe_blockHash : string;
  qe_txHash : string;
  qe_logIndex : Z;
  qe_transactionIndex : Z;
  qe_contractAddress : string;
  qe_topics : list string;
  qe_data : string;
  qe_reason : PoisonLogReason;
  qe_errorMessage : string;
  qe_abiFingerprint : string;
  qe_eventName : option string
}.

Inductive QuarantineStatus := UNRESOLVED | RESOLVED.

#[export] Instance QuarantineStatus_eq_dec : EqDecision QuarantineStatus.
Proof. solve_decision. Defined.

(** A row of [indexer_quarantined_log]; times are those of [now()]. *)
Record QuarantineRow := {
  qr_entry : QuarantinedLogEntry;
  qr_status : QuarantineStatus;
  qr_firstSeenAt : Z;
  qr_lastSeenAt : Z;
  qr_occurrences : Z;
  qr_resolvedAt : option Z;
  qr_resolutionNote : option string
}.

(** The unique index on [(block_number, tx_hash, log_index)]. *)
Definition quarantine_key : Type := Z * string * Z.

Definition entry_key (e : QuarantinedLogEntry) : quarantine_key :=
  (qe_blockNumber e, qe_txHash e, qe_logIndex e).

Definition QuarantineTable : Type := gmap quarantine_key QuarantineRow.

(** [RECORD_POISON_LOG_SQL]: on conflict the raw log of the first sighting stays. *)
Definition recordPoisonLog (now : Z) (e : QuarantinedLogEntry) (q : QuarantineTable)
    : QuarantineTable :=
  let row :=
    match q !! entry_key e with
    | None =>
        {| qr_entry := e; qr_status := UNRESOLVED; qr_firstSeenAt := now; qr_lastSeenAt := now;
           qr_occurrences := 1; qr_resolvedAt := None; qr_resolutionNote := None |}
    | Some old =>
        {| qr_entry :=
             {| qe_blockNumber := qe_blockNumber (qr_entry old);
                qe_blockHash := qe_blockHash (qr_entry old);
                qe_txHash := qe_txHash (qr_entry old);
                qe_logIndex := qe_logIndex (qr_entry old);
                qe_transactionIndex := qe_transactionIndex (qr_entry old);
                qe_contractAddress := qe_contractAddress (qr_entry old);
                qe_topics := qe_topics (qr_entry old);
                qe_data := qe_data (qr_entry old);
                qe_reason := qe_reason e; qe_errorMessage := qe_errorMessage e;
                qe_abiFingerprint := qe_abiFingerprint e; qe_eventName := qe_eventName e |};
           qr_status := UNRESOLVED; qr_firstSeenAt := qr_firstSeenAt old; qr_lastSeenAt := now;
           qr_occurrences := qr_occurrences old + 1; qr_resolvedAt := None;
           qr_resolutionNote := None |}
    end in
  <[entry_key e := row]> q.

Definition is_unresolved (row : QuarantineRow) : bool := bool_decide (qr_status row = UNRESOLVED).

(** [COUNT_UNRESOLVED_SQL] *)
Definition countUnresolved (q : QuarantineTable) : Z :=
  Z.of_nat (length (filter (fun r : QuarantineRow => is_unresolved r = true) (map_to_list q).*2)).

(** [RESOLVE_SQL] *)
Definition resolve (now : Z) (key : quarantine_key) (note : string) (q : QuarantineTable)
    : QuarantineTable :=
  match q !! key with
  | Some row =>
      if is_unresolved row
      then <[key := {| qr_entry := qr_entry row; qr_status := RESOLVED;
                       qr_firstSeenAt := qr_firstSeenAt row; qr_lastSeenAt := qr_lastSeenAt row;
                       qr_occurrences := qr_occurrences row; qr_resolvedAt := Some now;
                       qr_resolutionNote := Some note |}]> q
      else q
  | None => q
  end.

(** ** Poison logs *)

(** What a log keeps of itself for the quarantine: [poisonContext]. *)
Record PoisonContext := {
  pc_abiFingerprint : string;
  pc_blockNumber : Z;
  pc_blockHash : string;
  pc_txHash : string;
  pc_log : Log
}.

Record PoisonLogInput := {
  pi_context : PoisonContext;
  pi_reason : PoisonLogReason;
  pi_error : string;
  pi_eventName : option string
}.

Definition buildQuarantinedLogEntry (input : PoisonLogInput) : QuarantinedLogEntry :=
  let c := pi_context input in
  {| qe_blockNumber := pc_blockNumber c; qe_blockHash := pc_blockHash c; qe_txHash := pc_txHash c;
     qe_logIndex := lg_logIndex (pc_log c); qe_transactionIndex := lg_transactionIndex (pc_log c);
     qe_contractAddress := toLowerCase (lg_address (pc_log c)); qe_topics := lg_topics (pc_log c);
     qe_data := lg_data (pc_log c); qe_reason := pi_reason input;
     qe_errorMessage := pi_error input; qe_abiFingerprint := pc_abiFingerprint c;
     qe_eventName := pi_eventName input |}.

(** What leaves the batch by other connections: quarantine rows and alerts. *)
Record Evidence := {
  e_quarantine : QuarantineTable;
  e_alerts : list QuarantinedLogEntry
}.

(** What fails: the quarantine write and the alert for an entry, the reads of the
    database, and the write of the projection (the error, its graph of objects and
    its message). *)
Record Faults := {
  f_reads : StoreReads;
  f_quarantine : QuarantinedLogEntry -> bool;
  f_alert : QuarantinedLogEntry -> bool;
  f_persist : option (jsval * string);
  f_heap : nat -> option ErrorObject
}.

Definition reportPoisonLog (faults : Faults) (now : Z) (input : PoisonLogInput) (e : Evidence)
    : QuarantinedLogEntry * Evidence :=
  let entry := buildQuarantinedLogEntry input in
  let q := if f_quarantine faults entry then e_quarantine e
           else recordPoisonLog now entry (e_quarantine e) in
  let a := if f_alert faults entry then e_alerts e else (e_alerts e ++ [entry])%list in
  (entry, {| e_quarantine := q; e_alerts := a |}).

(** A halt, a rejected read of the overview before the first log, or the error of
    the write. *)
Inductive BatchError :=
| PoisonLogHaltError (entry : QuarantinedLogEntry)
| StoreError (error : string)
| PersistenceError (error : jsval).

(** [haltOnPoisonLog] *)
Definition haltOnPoisonLog {A} (faults : Faults) (now : Z) (input : PoisonLogInput) (e : Evidence)
    : result BatchError A * Evidence :=
  let '(entry, e) := reportPoisonLog faults now input e in (Err (PoisonLogHaltError entry), e).

(** ** The batch *)

Section batch.
Context (ESCROW_ADDRESS ESCROW_ABI_FINGERPRINT : string).
Context (parseLog : list string -> string -> result string (option EscrowEvent)).
Context (localeCompare : string -> string -> Z) (relations : bool).

(** The variables a batch starts with. *)
Definition starting_batch (overview : OverviewSnapshot) : Batch :=
  {| b_trades := ∅; b_tradeEvents := []; b_disputeProposals := ∅; b_disputeEvents := [];
     b_oracleUpdateProposals := ∅; b_oracleEvents := []; b_adminChangeProposals := ∅;
     b_adminEvents := []; b_systemEvents := [];
     b_overviewSnapshot := overview |}.

(** Those when every read answers. *)
Definition overview_of (s : Store) : OverviewSnapshot :=
  match st_overview s with
  | Some snapshot => snapshot
  | None => rebuilt_overview localeCompare relations s
  end.

Definition new_batch (s : Store) : Batch := starting_batch (overview_of s).

(** [overviewSnapshot.lastProcessedBlock = height; overviewSnapshot.lastIndexedAt = indexedAt]. *)
Definition enter_block (block : Block) : Handler unit :=
  modify (with_overview (fun o =>
    {| ov_counters := ov_counters o; ov_lastProcessedBlock := bk_height block;
       ov_lastIndexedAt := block_date block; ov_lastTradeEventAt := ov_lastTradeEventAt o |})).

Definition is_escrow_log (log : Log) : bool :=
  String.eqb (toLowerCase (lg_address log)) ESCROW_ADDRESS.

Definition safeTransactionHash (log : Log) : string :=
  match lg_transaction log with Ok hash => hash | Err _ => "" end.

Definition poison_context (block : Block) (log : Log) : PoisonContext :=
  {| pc_abiFingerprint := ESCROW_ABI_FINGERPRINT; pc_blockNumber := bk_height block;
     pc_blockHash := bk_hash block; pc_txHash := safeTransactionHash log; pc_log := log |}.

(** The context of the handlers, from [log.getTransaction()]. *)
Definition log_context (block : Block) (log : Log) (txHash : string) : LogContext :=
  {| lc_eventId := buildEvmEventId txHash (lg_logIndex log); lc_height := bk_height block;
     lc_timestamp := block_date block; lc_txHash := txHash; lc_logIndex := lg_logIndex log;
     lc_transactionIndex := lg_transactionIndex log |}.

Section one_batch.
Context {reads : StoreReads}.

(** The [try] block around the switch: the reason and the error of its failure. *)
Definition project (block : Block) (log : Log) (decoded : EscrowEvent) (s : Store) (b : Batch)
    : result (PoisonLogReason * string) Batch :=
  match lg_transaction log with
  | Err error => Err (HANDLER_FAILURE, error)
  | Ok txHash =>
      match dispatch decoded with
      | None =>
          Err (UNKNOWN_EVENT,
               "Decoded escrow event " ++ event_name decoded ++ " has no projection handler")
      | Some handler =>
          match handler (log_context block log txHash) s b with
          | Ok (_, b') => Ok b'
          | Err error => Err (HANDLER_FAILURE, error)
          end
      end
  end.

(** One log: either the input of the halt, or the new variables and the log's
    entry of [persistenceLogs] when it is an escrow log. *)
Definition process_log (block : Block) (log : Log) (s : Store) (b : Batch)
    : result PoisonLogInput (Batch * option (PoisonContext * string)) :=
  if negb (is_escrow_log log) then Ok (b, None)
  else
    let context := poison_context block log in
    let poison reason error eventName :=
      {| pi_context := context; pi_reason := reason; pi_error := error;
         pi_eventName := eventName |} in
    match parseLog (lg_topics log) (lg_data log) with
    | Err error => Err (poison UNDECODABLE error None)
    | Ok None =>
        Err (poison UNDECODABLE
               "Escrow ABI produced no decoding for a matching event topic" None)
    | Ok (Some decoded) =>
        match project block log decoded s b with
        | Ok b' => Ok (b', Some (context, event_name decoded))
        | Err (reason, error) => Err (poison reason error (Some (event_name decoded)))
        end
    end.

Fixpoint process_logs (block : Block) (logs : list Log) (s : Store)
    (acc : Batch * list (PoisonContext * string))
    : result PoisonLogInput (Batch * list (PoisonContext * string)) :=
  match logs with
  | [] => Ok acc
  | log :: logs =>
      match process_log block log s acc.1 with
      | Ok (b, p) => process_logs block logs s (b, (acc.2 ++ option_list p)%list)
      | Err input => Err input
      end
  end.

Definition enter (block : Block) (s : Store) (b : Batch) : Batch :=
  match enter_block block s b with Ok (_, b') => b' | Err _ => b end.

Fixpoint process_blocks (blocks : list Block) (s : Store)
    (acc : Batch * list (PoisonContext * string))
    : result PoisonLogInput (Batch * list (PoisonContext * string)) :=
  match blocks with
  | [] => Ok acc
  | block :: blocks =>
      match process_logs block (bk_logs block) s (enter block s acc.1, acc.2) with
      | Ok acc => process_blocks blocks s acc
      | Err input => Err input
      end
  end.

End one_batch.

(** A persistence failure reports every log of the batch. *)
Definition report_all (faults : Faults) (now : Z) (message : string)
    (logs : list (PoisonContext * string)) (e : Evidence) : Evidence :=
  foldl (fun e '(context, eventName) =>
           (reportPoisonLog faults now
              {| pi_context := context; pi_reason := HANDLER_FAILURE;
                 pi_error := "Batch persistence failed: " ++ message;
                 pi_eventName := Some eventName |} e).2) e logs.

(** The tables after the batch, or the error that leaves [processBatch]; the
    evidence written by other connections stays in both cases. *)
Definition processBatch (faults : Faults) (now : Z) (blocks : list Block) (s : Store)
    (e : Evidence) : result BatchError Store * Evidence :=
  match getOrLoadOverviewSnapshot localeCompare (H := f_reads faults) relations s with
  | Err error => (Err (StoreError error), e)
  | Ok overview =>
      match process_blocks (reads := f_reads faults) blocks s (starting_batch overview, []) with
      | Err input => haltOnPoisonLog faults now input e
      | Ok (b, persistenceLogs) =>
          match f_persist faults with
          | None => (Ok (persistIndexerBatch s b), e)
          | Some (error, message) =>
              if negb (isNonRetryablePersistenceError (f_heap faults) error)
              then (Err (PersistenceError error), e)
              else (Err (PersistenceError error), report_all faults now message persistenceLogs e)
          end
      end
  end.

(** ** Histories of the processor

    The processor hands over the blocks that follow its checkpoint and commits
    the tables and the checkpoint together; when [processBatch] throws, both stay
    as they were.  An operator may resolve quarantined logs at any time. *)
Record Indexer := {
  ix_store : Store;
  ix_checkpoint : list Block;
  ix_evidence : Evidence
}.

Definition initial_indexer : Indexer :=
  {| ix_store := empty_store; ix_checkpoint := [];
     ix_evidence := {| e_quarantine := ∅; e_alerts := [] |} |}.

Inductive indexer_step : Indexer -> Indexer -> Prop :=
| step_commit faults now blocks i s' e' :
    blocks <> [] ->
    processBatch faults now blocks (ix_store i) (ix_evidence i) = (Ok s', e') ->
    indexer_step i {| ix_store := s'; ix_checkpoint := ix_checkpoint i ++ blocks;
                      ix_evidence := e' |}
| step_rollback faults now blocks i error e' :
    processBatch faults now blocks (ix_store i) (ix_evidence i) = (Err error, e') ->
    indexer_step i {| ix_store := ix_store i; ix_checkpoint := ix_checkpoint i;
                      ix_evidence := e' |}
| step_resolve now key note i :
    indexer_step i {| ix_store := ix_store i; ix_checkpoint := ix_checkpoint i;
                      ix_evidence := {| e_quarantine := resolve now key note
                                          (e_quarantine (ix_evidence i));
                                        e_alerts := e_alerts (ix_evidence i) |} |}.

Inductive reachable_indexer : Indexer -> Prop :=
| reach_initial : reachable_indexer initial_indexer
| reach_step i i' : reachable_indexer i -> indexer_step i i' -> reachable_indexer i'.

End batch.
