(* ===== verification/IndexerView.v ===== *)
(** A batch is a write-back cache: the tables a batch would leave, its view,
    determine everything its handlers do.  Two states with the same view stay so
    under every handler, with the same results and the same errors
    ([dispatch_respects]); processing blocks in one batch, in several, or writing
    after every log is therefore the same ([batch_split], [replay_batch]). *)
From stdpp Require Import base list gmap strings.
From S2P Require Import Prelude JsText JsDate IndexerTypes IndexerHandlers.
From S2P Require Import IndexerBatch.

Open Scope string_scope.
Open Scope Z_scope.

(** ** Reads that answer *)

(** The handlers here and below run on a database whose reads answer; what a
    rejected read changes is [flaky] at the end. *)
#[export] Instance reads_answer : StoreReads := fun _ => None.

(** ** Views *)

Definition same_view (s : Store) (b : Batch) (s' : Store) (b' : Batch) : Prop :=
  persistIndexerBatch s b = persistIndexerBatch s' b'.

(** Same outcome, up to the view of the batch. *)
Definition same_outcome {A} (s s' : Store) (r r' : result string (A * Batch)) : Prop :=
  match r, r' with
  | Ok (a, b), Ok (a', b') => a = a' /\ same_view s b s' b'
  | Err e, Err e' => e = e'
  | _, _ => False
  end.

Definition respects {A} (h : Handler A) : Prop :=
  forall s b s' b', same_view s b s' b' -> same_outcome s s' (h s b) (h s' b').

Lemma respects_ret {A} (a : A) : respects (mret a).
Proof. by intros s b s' b'. Qed.

Lemma respects_bind {A B} (m : Handler A) (f : A -> Handler B) :
  respects m -> (forall a, respects (f a)) -> respects (m ≫= f).
Proof.
  intros Hm Hf s b s' b' H. specialize (Hm s b s' b' H). unfold mbind, Handler_bind.
  destruct (m s b) as [[a b1]|e], (m s' b') as [[a' b1']|e']; simpl in *; try done.
  destruct Hm as [-> Hv]. by apply Hf.
Qed.

Lemma respects_lift {A} (r : result string A) : respects (lift r).
Proof. intros s b s' b' H. unfold lift. by destruct r. Qed.

(** A change of the variables that acts on the view. *)
Definition acts (f : Batch -> Batch) : Prop :=
  exists F, forall s b, persistIndexerBatch s (f b) = F (persistIndexerBatch s b).

Lemma respects_modify f : acts f -> respects (modify f).
Proof.
  intros [F HF] s b s' b' H. split; [done|]. unfold same_view in *. by rewrite !HF, H.
Qed.

Lemma view_overview s b s' b' :
  same_view s b s' b' -> b_overviewSnapshot b = b_overviewSnapshot b'.
Proof. intros H. by injection (f_equal st_overview H). Qed.

Lemma respects_gets {A} (f : OverviewSnapshot -> A) :
  respects (gets (fun b => f (b_overviewSnapshot b))).
Proof. intros s b s' b' H. split; [|done]. by rewrite (view_overview _ _ _ _ H). Qed.

Lemma acts_put_trade id t : acts (put_trade id t).
Proof.
  exists (fun s => {| st_trades := <[id := t]> (st_trades s); st_tradeEvents := st_tradeEvents s;
    st_disputeProposals := st_disputeProposals s; st_disputeEvents := st_disputeEvents s;
    st_oracleUpdateProposals := st_oracleUpdateProposals s; st_oracleEvents := st_oracleEvents s;
    st_adminChangeProposals := st_adminChangeProposals s; st_adminEvents := st_adminEvents s;
    st_systemEvents := st_systemEvents s; st_overview := st_overview s |}).
  intros s b. unfold persistIndexerBatch; simpl. by rewrite insert_union_l.
Qed.

Lemma acts_with_overview f : acts (with_overview f).
Proof.
  exists (fun s => {| st_trades := st_trades s; st_tradeEvents := st_tradeEvents s;
    st_disputeProposals := st_disputeProposals s; st_disputeEvents := st_disputeEvents s;
    st_oracleUpdateProposals := st_oracleUpdateProposals s; st_oracleEvents := st_oracleEvents s;
    st_adminChangeProposals := st_adminChangeProposals s; st_adminEvents := st_adminEvents s;
    st_systemEvents := st_systemEvents s; st_overview := f <$> st_overview s |}).
  done.
Qed.

Lemma upsert_events_app l l' t :
  upsert_events (l ++ l') t = upsert_events l' (upsert_events l t).
Proof. apply foldl_app. Qed.

Lemma acts_push_event t row : acts (push_event t row).
Proof.
  exists (fun s =>
    let ins t' m := match t, t' with
      | TradeEvents, TradeEvents | DisputeEvents, DisputeEvents | OracleEvents, OracleEvents
      | AdminEvents, AdminEvents | SystemEvents, SystemEvents => <[ev_id row := row]> m
      | _, _ => m end in
    {| st_trades := st_trades s; st_tradeEvents := ins TradeEvents (st_tradeEvents s);
       st_disputeProposals := st_disputeProposals s;
       st_disputeEvents := ins DisputeEvents (st_disputeEvents s);
       st_oracleUpdateProposals := st_oracleUpdateProposals s;
       st_oracleEvents := ins OracleEvents (st_oracleEvents s);
       st_adminChangeProposals := st_adminChangeProposals s;
       st_adminEvents := ins AdminEvents (st_adminEvents s);
       st_systemEvents := ins SystemEvents (st_systemEvents s); st_overview := st_overview s |}).
  intros s b. unfold persistIndexerBatch. destruct t; simpl; by rewrite upsert_events_app.
Qed.

Lemma acts_oracle_insert id p : acts (with_oracle_proposals <[id := p]>).
Proof.
  exists (fun s => {| st_trades := st_trades s; st_tradeEvents := st_tradeEvents s;
    st_disputeProposals := st_disputeProposals s; st_disputeEvents := st_disputeEvents s;
    st_oracleUpdateProposals := <[id := p]> (st_oracleUpdateProposals s);
    st_oracleEvents := st_oracleEvents s; st_adminChangeProposals := st_adminChangeProposals s;
    st_adminEvents := st_adminEvents s; st_systemEvents := st_systemEvents s;
    st_overview := st_overview s |}).
  intros s b. unfold persistIndexerBatch; simpl. by rewrite insert_union_l.
Qed.

Lemma acts_admin_insert id p : acts (with_admin_proposals <[id := p]>).
Proof.
  exists (fun s => {| st_trades := st_trades s; st_tradeEvents := st_tradeEvents s;
    st_disputeProposals := st_disputeProposals s; st_disputeEvents := st_disputeEvents s;
    st_oracleUpdateProposals := st_oracleUpdateProposals s; st_oracleEvents := st_oracleEvents s;
    st_adminChangeProposals := <[id := p]> (st_adminChangeProposals s);
    st_adminEvents := st_adminEvents s; st_systemEvents := st_systemEvents s;
    st_overview := st_overview s |}).
  intros s b. unfold persistIndexerBatch; simpl. by rewrite insert_union_l.
Qed.

(** ** Dispute proposals: a loaded row has no relation, the view keeps it *)

Lemma lookup_upsert_disputes b t id :
  upsert_disputes b t !! id =
  match b !! id with Some p => Some (stored (t !! id) p) | None => t !! id end.
Proof. unfold upsert_disputes. rewrite lookup_merge. by destruct (b !! id), (t !! id). Qed.

Lemma upsert_disputes_insert id p b t : is_Some (dp_trade p) ->
  upsert_disputes (<[id := p]> b) t = <[id := p]> (upsert_disputes b t).
Proof.
  intros [tr Hp]. apply map_eq. intros j. rewrite lookup_upsert_disputes.
  destruct (decide (id = j)) as [<-|].
  - rewrite !lookup_insert_eq. unfold stored. by rewrite Hp.
  - by rewrite !lookup_insert_ne, lookup_upsert_disputes.
Qed.

Lemma acts_dispute_insert id p : is_Some (dp_trade p) -> acts (with_disputes <[id := p]>).
Proof.
  intros Hp. exists (fun s => {| st_trades := st_trades s; st_tradeEvents := st_tradeEvents s;
    st_disputeProposals := <[id := p]> (st_disputeProposals s);
    st_disputeEvents := st_disputeEvents s;
    st_oracleUpdateProposals := st_oracleUpdateProposals s; st_oracleEvents := st_oracleEvents s;
    st_adminChangeProposals := st_adminChangeProposals s; st_adminEvents := st_adminEvents s;
    st_systemEvents := st_systemEvents s; st_overview := st_overview s |}).
  intros s b. unfold persistIndexerBatch; simpl. by rewrite upsert_disputes_insert.
Qed.

(** A change of a proposal that leaves its relation alone. *)
Definition keeps_trade (f : DisputeProposal -> DisputeProposal) : Prop :=
  (forall p, dp_trade (f p) = dp_trade p) /\ (forall t p, f (with_trade t p) = with_trade t (f p)).

Lemma keeps_trade_stored f old p : keeps_trade f -> stored old (f p) = f (stored old p).
Proof. intros [H1 H2]. unfold stored. rewrite H1. destruct (dp_trade p); by rewrite ?H2. Qed.

Lemma stored_fetched p : stored (Some p) (fetched p) = p.
Proof. by destruct p. Qed.

(** ** Loading a parent and changing it *)

Definition update_dispute f key error : Handler unit :=
  loadDisputeProposal key error;; modify (with_disputes (alter f key)).
Definition update_oracle f key error : Handler unit :=
  loadOracleProposal key error;; modify (with_oracle_proposals (alter f key)).
Definition update_admin f key error : Handler unit :=
  loadAdminProposal key error;; modify (with_admin_proposals (alter f key)).

Lemma alter_union_cached {A} (f : A -> A) key (m t : gmap string A) :
  is_Some (m !! key) -> alter f key m ∪ t = alter f key (m ∪ t).
Proof.
  intros [x Hx]. apply map_eq. intros j. rewrite lookup_union.
  destruct (decide (key = j)) as [<-|Hj].
  - rewrite !lookup_alter_eq, lookup_union, Hx. by destruct (t !! key).
  - by rewrite !lookup_alter_ne, lookup_union.
Qed.

Lemma insert_union_loaded {A} key (p : A) (m t : gmap string A) :
  m !! key = None -> t !! key = Some p -> <[key := p]> m ∪ t = m ∪ t.
Proof.
  intros Hm Ht. rewrite <- insert_union_l. apply insert_id. by rewrite lookup_union, Hm, Ht.
Qed.

Lemma insert_disputes_loaded key p m t :
  m !! key = None -> t !! key = Some p ->
  upsert_disputes (<[key := fetched p]> m) t = upsert_disputes m t.
Proof.
  intros Hm Ht. apply map_eq. intros j. rewrite !lookup_upsert_disputes.
  destruct (decide (key = j)) as [<-|].
  - by rewrite lookup_insert_eq, Hm, Ht, stored_fetched.
  - by rewrite lookup_insert_ne.
Qed.

Lemma alter_disputes_cached f key m t : keeps_trade f -> is_Some (m !! key) ->
  upsert_disputes (alter f key m) t = alter f key (upsert_disputes m t).
Proof.
  intros Hf [x Hx]. apply map_eq. intros j. rewrite lookup_upsert_disputes.
  destruct (decide (key = j)) as [<-|].
  - rewrite !lookup_alter_eq, lookup_upsert_disputes, Hx. simpl. by rewrite keeps_trade_stored.
  - by rewrite !lookup_alter_ne, lookup_upsert_disputes.
Qed.

(** The tables with their proposals changed, as a direct write would. *)
Definition alter_disputes f (s : Store) : Store :=
  {| st_trades := st_trades s; st_tradeEvents := st_tradeEvents s;
     st_disputeProposals := f (st_disputeProposals s);
     st_disputeEvents := st_disputeEvents s;
     st_oracleUpdateProposals := st_oracleUpdateProposals s; st_oracleEvents := st_oracleEvents s;
     st_adminChangeProposals := st_adminChangeProposals s; st_adminEvents := st_adminEvents s;
     st_systemEvents := st_systemEvents s; st_overview := st_overview s |}.
Definition alter_oracle f (s : Store) : Store :=
  {| st_trades := st_trades s; st_tradeEvents := st_tradeEvents s;
     st_disputeProposals := st_disputeProposals s; st_disputeEvents := st_disputeEvents s;
     st_oracleUpdateProposals := f (st_oracleUpdateProposals s);
     st_oracleEvents := st_oracleEvents s; st_adminChangeProposals := st_adminChangeProposals s;
     st_adminEvents := st_adminEvents s; st_systemEvents := st_systemEvents s;
     st_overview := st_overview s |}.
Definition alter_admin f (s : Store) : Store :=
  {| st_trades := st_trades s; st_tradeEvents := st_tradeEvents s;
     st_disputeProposals := st_disputeProposals s; st_disputeEvents := st_disputeEvents s;
     st_oracleUpdateProposals := st_oracleUpdateProposals s; st_oracleEvents := st_oracleEvents s;
     st_adminChangeProposals := f (st_adminChangeProposals s);
     st_adminEvents := st_adminEvents s; st_systemEvents := st_systemEvents s;
     st_overview := st_overview s |}.

(** What an update does to the view: a direct write, or its error. *)
Definition updates {A} (table : Store -> gmap string A) (write : Store -> Store) key error
    (h : Handler unit) : Prop :=
  forall s b, match h s b with
  | Ok (_, b') => is_Some (table (persistIndexerBatch s b) !! key) /\
                  persistIndexerBatch s b' = write (persistIndexerBatch s b)
  | Err e => table (persistIndexerBatch s b) !! key = None /\ e = error
  end.

Lemma respects_updates {A} (table : Store -> gmap string A) write key error h :
  updates table write key error h -> respects h.
Proof.
  intros H s b s' b' Hv. pose proof (H s b) as H1. pose proof (H s' b') as H2.
  unfold same_view in Hv. rewrite Hv in H1.
  destruct (h s b) as [[[] b1]|e], (h s' b') as [[[] b1']|e']; simpl in *;
    destruct H1 as [H1 E1], H2 as [H2 E2].
  - unfold same_view. by rewrite E1, E2.
  - destruct H1 as [? H1]. congruence.
  - destruct H2 as [? H2]. congruence.
  - congruence.
Qed.

Lemma dispute_updates f key error : keeps_trade f ->
  updates st_disputeProposals (alter_disputes (alter f key)) key error (update_dispute f key error).
Proof.
  intros Hf s b. unfold update_dispute, mbind, Handler_bind, loadDisputeProposal, modify; simpl.
  rewrite lookup_upsert_disputes.
  destruct (b_disputeProposals b !! key) as [p|] eqn:Eb;
    [|destruct (st_disputeProposals s !! key) as [p|] eqn:Es]; [| |done]; (split; [by eexists|]);
    unfold persistIndexerBatch, alter_disputes; simpl; f_equal.
  - by apply alter_disputes_cached.
  - by rewrite alter_disputes_cached, insert_disputes_loaded by (rewrite ?lookup_insert_eq; eauto).
Qed.

Lemma oracle_updates f key error :
  updates st_oracleUpdateProposals (alter_oracle (alter f key)) key error
    (update_oracle f key error).
Proof.
  intros s b. unfold update_oracle, mbind, Handler_bind, loadOracleProposal, modify; simpl.
  rewrite lookup_union.
  destruct (b_oracleUpdateProposals b !! key) as [p|] eqn:Eb;
    [|destruct (st_oracleUpdateProposals s !! key) as [p|] eqn:Es]; [| |done];
    (split; [destruct (st_oracleUpdateProposals s !! key); by eexists|]);
    unfold persistIndexerBatch, alter_oracle; simpl; f_equal.
  - by apply alter_union_cached.
  - by rewrite alter_union_cached, insert_union_loaded by (rewrite ?lookup_insert_eq; eauto).
Qed.

Lemma admin_updates f key error :
  updates st_adminChangeProposals (alter_admin (alter f key)) key error
    (update_admin f key error).
Proof.
  intros s b. unfold update_admin, mbind, Handler_bind, loadAdminProposal, modify; simpl.
  rewrite lookup_union.
  destruct (b_adminChangeProposals b !! key) as [p|] eqn:Eb;
    [|destruct (st_adminChangeProposals s !! key) as [p|] eqn:Es]; [| |done];
    (split; [destruct (st_adminChangeProposals s !! key); by eexists|]);
    unfold persistIndexerBatch, alter_admin; simpl; f_equal.
  - by apply alter_union_cached.
  - by rewrite alter_union_cached, insert_union_loaded by (rewrite ?lookup_insert_eq; eauto).
Qed.

Lemma bind_assoc {A B C} (m : Handler A) (f : A -> Handler B) (g : B -> Handler C) s b :
  ((m ≫= f) ≫= g) s b = (m ≫= (fun a => f a ≫= g)) s b.
Proof. unfold mbind, Handler_bind. by destruct (m s b) as [[]|]. Qed.

Lemma respects_ext {A} (h h' : Handler A) : (forall s b, h s b = h' s b) -> respects h -> respects h'.
Proof. intros E H s b s' b' Hv. rewrite <- !E. by apply H. Qed.

Lemma respects_update_dispute {A} f key error (k : unit -> unit -> Handler A) : keeps_trade f ->
  (forall u v, respects (k u v)) ->
  respects (u ← loadDisputeProposal key error;
            v ← modify (with_disputes (alter f key)); k u v).
Proof.
  intros Hf Hk. apply (respects_ext (update_dispute f key error ≫= k tt)).
  { intros s b. unfold update_dispute. rewrite bind_assoc. unfold mbind, Handler_bind.
    by destruct (loadDisputeProposal key error s b) as [[[] ?]|]. }
  apply respects_bind; [|done]. eapply respects_updates, dispute_updates, Hf.
Qed.

Lemma respects_update_oracle {A} f key error (k : unit -> unit -> Handler A) :
  (forall u v, respects (k u v)) ->
  respects (u ← loadOracleProposal key error;
            v ← modify (with_oracle_proposals (alter f key)); k u v).
Proof.
  intros Hk. apply (respects_ext (update_oracle f key error ≫= k tt)).
  { intros s b. unfold update_oracle. rewrite bind_assoc. unfold mbind, Handler_bind.
    by destruct (loadOracleProposal key error s b) as [[[] ?]|]. }
  apply respects_bind; [|done]. eapply respects_updates, oracle_updates.
Qed.

Lemma respects_update_admin {A} f key error (k : unit -> unit -> Handler A) :
  (forall u v, respects (k u v)) ->
  respects (u ← loadAdminProposal key error;
            v ← modify (with_admin_proposals (alter f key)); k u v).
Proof.
  intros Hk. apply (respects_ext (update_admin f key error ≫= k tt)).
  { intros s b. unfold update_admin. rewrite bind_assoc. unfold mbind, Handler_bind.
    by destruct (loadAdminProposal key error s b) as [[[] ?]|]. }
  apply respects_bind; [|done]. eapply respects_updates, admin_updates.
Qed.

(** Reading a trade fills the map with the row the view already has. *)
Lemma getOrLoadTrade_view id s b :
  match getOrLoadTrade id s b with
  | Ok (t, b') => st_trades (persistIndexerBatch s b) !! id = Some t /\ same_view s b s b'
  | Err e => st_trades (persistIndexerBatch s b) !! id = None /\
             forall s' b', st_trades (persistIndexerBatch s' b') !! id = None ->
                           getOrLoadTrade id s' b' = Err e
  end.
Proof.
  unfold getOrLoadTrade; simpl. rewrite lookup_union.
  destruct (b_trades b !! id) as [t|] eqn:Eb; [by destruct (st_trades s !! id)|].
  destruct (st_trades s !! id) as [t|] eqn:Es; simpl.
  - split; [done|]. unfold same_view, persistIndexerBatch; simpl. by rewrite insert_union_loaded.
  - split; [done|]. intros s' b'. rewrite lookup_union.
    by destruct (b_trades b' !! id), (st_trades s' !! id).
Qed.

Lemma respects_getOrLoadTrade id : respects (getOrLoadTrade id).
Proof.
  intros s b s' b' Hv. pose proof (getOrLoadTrade_view id s b) as H1.
  pose proof (getOrLoadTrade_view id s' b') as H2. unfold same_view in Hv.
  destruct (getOrLoadTrade id s b) as [[t b1]|e]; rewrite Hv in H1.
  - destruct H1 as [H1 V1]. unfold same_view in V1.
    destruct (getOrLoadTrade id s' b') as [[t' b1']|e']; destruct H2 as [H2 V2]; [|congruence].
    split; [congruence|]. unfold same_view in *. congruence.
  - destruct H1 as [H1 E1]. by rewrite (E1 s' b' H1).
Qed.

(** ** Every handler respects the view *)

Lemma respects_push t lc name parent columns : respects (push t lc name parent columns).
Proof. apply respects_modify, acts_push_event. Qed.

Lemma respects_touch_overview d : respects (touch_overview d).
Proof. apply respects_modify, acts_with_overview. Qed.

Lemma respects_update_counters f d : respects (update_counters f d).
Proof.
  apply respects_bind; [apply (respects_gets snapshotCounters)|]. intros c.
  apply respects_bind; [apply respects_lift|]. intros c'.
  apply respects_bind; [|intros _]; apply respects_modify, acts_with_overview.
Qed.

Create HintDb indexer.
#[export] Hint Resolve respects_push respects_touch_overview respects_update_counters
  respects_getOrLoadTrade respects_ret : indexer.
#[export] Hint Extern 1 (respects (modify (put_trade _ _))) =>
  apply respects_modify, acts_put_trade : indexer.
#[export] Hint Extern 1 (respects (modify (with_disputes (insert _ _)))) =>
  apply respects_modify, acts_dispute_insert; eexists; reflexivity : indexer.
#[export] Hint Extern 1 (respects (modify (with_oracle_proposals (insert _ _)))) =>
  apply respects_modify, acts_oracle_insert : indexer.
#[export] Hint Extern 1 (respects (modify (with_admin_proposals (insert _ _)))) =>
  apply respects_modify, acts_admin_insert : indexer.

Ltac respects :=
  intros; cbv zeta;
  first
    [ solve [eauto with indexer]
    | apply respects_update_dispute; [by split|intros; respects]
    | apply respects_update_oracle; intros; respects
    | apply respects_update_admin; intros; respects
    | apply respects_bind; [respects|intros; respects] ].

Lemma dispatch_respects e handler lc : dispatch e = Some handler -> respects (handler lc).
Proof.
  destruct e; intros [= <-];
    cbv beta delta [handleTradeLocked handleFundsReleasedStage1 handlePlatformFeesPaidStage1
      handleInspectionAvailable handleInspectionAcceptedForFinalRelease handleFinalTrancheReleased
      handleDisputeOpenedByBuyer handleTradePaused handleTradeUnpaused
      handleTradeCancelledAfterLockTimeout handleInTransitTimeoutRefunded
      handleRelayedActionExecuted handleGaslessTradeFunded handleSupplierPayoutTransferred
      handleBuyerRefundTransferred handleClaimableAccrued handleDisputePayout
      handleDisputeSolutionProposed handleDisputeApproved handleDisputeFinalized
      handleDisputeProposalExpiredCancelled handleOracleUpdateProposed handleOracleUpdateApproved
      handleOracleUpdated handleOracleUpdateProposalExpiredCancelled handleOracleDisabledEmergency
      handleAdminChangeProposed handleAdminChangeApproved handleAdminChangeExecuted
      handleAdminAdded handleAdminRemoved handleAdminReplaced handleAdminChangeProposalCancelled];
    respects.
Qed.

(** ** Blocks *)

Section blocks.
Context (ESCROW_ADDRESS ESCROW_ABI_FINGERPRINT : string).
Context (parseLog : list string -> string -> result string (option EscrowEvent)).
Context (localeCompare : string -> string -> Z) (relations : bool).

#[local] Notation process_log := (process_log ESCROW_ADDRESS ESCROW_ABI_FINGERPRINT parseLog).
#[local] Notation process_logs := (process_logs ESCROW_ADDRESS ESCROW_ABI_FINGERPRINT parseLog).
#[local] Notation process_blocks := (process_blocks ESCROW_ADDRESS ESCROW_ABI_FINGERPRINT parseLog).
#[local] Notation new_batch := (new_batch localeCompare relations).

(** Same outcome of a piece of a batch: the same halt, or the same further
    entries of [persistenceLogs] and the same view. *)
Definition same_progress {P} (s s' : Store) (r r' : result PoisonLogInput (Batch * P)) : Prop :=
  match r, r' with
  | Ok (b, p), Ok (b', p') => p = p' /\ same_view s b s' b'
  | Err i, Err i' => i = i'
  | _, _ => False
  end.

Lemma process_log_respects block log s b s' b' :
  same_view s b s' b' -> same_progress s s' (process_log block log s b) (process_log block log s' b').
Proof.
  intros Hv. unfold process_log. destruct (negb _); [done|].
  destruct (parseLog _ _) as [[e|]|]; [|done..]. unfold project.
  destruct (lg_transaction log) as [h|]; [|done]. destruct (dispatch e) as [handler|] eqn:E; [|done].
  pose proof (dispatch_respects e handler (log_context block log h) E s b s' b' Hv) as H.
  destruct (handler _ s b) as [[[] b1]|], (handler _ s' b') as [[[] b1']|]; simpl in *; try done.
  - by destruct H.
  - by subst.
Qed.

Lemma enter_view block s b s' b' :
  same_view s b s' b' -> same_view s (enter block s b) s' (enter block s' b').
Proof. intros H. apply (respects_modify _ (acts_with_overview _) s b s' b' H). Qed.

(** The reported logs collected so far do not matter to what is done next. *)
Lemma process_logs_respects block logs s s' b b' p :
  same_view s b s' b' ->
  same_progress s s' (process_logs block logs s (b, p)) (process_logs block logs s' (b', p)).
Proof.
  revert b b' p. induction logs as [|log logs IH]; intros b b' p Hv; simpl; [done|].
  pose proof (process_log_respects block log s b s' b' Hv) as H.
  destruct (process_log block log s b) as [[b1 q]|i], (process_log block log s' b') as [[b1' q']|i'];
    simpl in *; try done. destruct H as [-> Hv']. by apply IH.
Qed.

Lemma process_blocks_respects blocks s s' b b' p :
  same_view s b s' b' ->
  same_progress s s' (process_blocks blocks s (b, p)) (process_blocks blocks s' (b', p)).
Proof.
  revert b b' p. induction blocks as [|block blocks IH]; intros b b' p Hv; simpl; [done|].
  pose proof (process_logs_respects block (bk_logs block) s s' _ _ p (enter_view block _ _ _ _ Hv)) as H.
  destruct (process_logs block _ s _) as [[b1 q]|i], (process_logs block _ s' _) as [[b1' q']|i'];
    simpl in *; try done. destruct H as [-> Hv']. by apply IH.
Qed.

Lemma process_logs_prefix block logs s b p :
  process_logs block logs s (b, p) =
  match process_logs block logs s (b, []) with
  | Ok (b', q) => Ok (b', (p ++ q)%list) | Err i => Err i end.
Proof.
  revert b p. induction logs as [|log logs IH]; intros b p; simpl; [by rewrite app_nil_r|].
  destruct (process_log block log s b) as [[b1 q]|i]; [|done]. simpl.
  rewrite IH. rewrite (IH b1 (option_list q)). destruct (process_logs block logs s (b1, [])) as [[]|];
    [|done]. by rewrite app_assoc.
Qed.

Lemma process_blocks_prefix blocks s b p :
  process_blocks blocks s (b, p) =
  match process_blocks blocks s (b, []) with
  | Ok (b', q) => Ok (b', (p ++ q)%list) | Err i => Err i end.
Proof.
  revert b p. induction blocks as [|block blocks IH]; intros b p; simpl; [by rewrite app_nil_r|].
  rewrite process_logs_prefix. destruct (process_logs block _ s (_, [])) as [[b1 q]|i]; [|done].
  rewrite IH, (IH b1 q). destruct (process_blocks blocks s (b1, [])) as [[]|]; [|done].
  by rewrite app_assoc.
Qed.

Lemma process_blocks_app bs1 bs2 s acc :
  process_blocks (bs1 ++ bs2) s acc =
  match process_blocks bs1 s acc with Ok acc => process_blocks bs2 s acc | Err i => Err i end.
Proof.
  revert acc. induction bs1 as [|block bs1 IH]; intros acc; simpl; [done|].
  by destruct (process_logs block _ s _).
Qed.

(** ** Batches, and writing after every log *)

(** The tables after a batch that halts nowhere and whose write succeeds. *)
Definition run_batch (blocks : list Block) (s : Store) : result PoisonLogInput Store :=
  match process_blocks blocks s (new_batch s, []) with
  | Ok (b, _) => Ok (persistIndexerBatch s b)
  | Err i => Err i
  end.

Lemma fresh_view s b :
  same_view (persistIndexerBatch s b) (new_batch (persistIndexerBatch s b)) s b.
Proof.
  unfold same_view, persistIndexerBatch, new_batch, starting_batch, overview_of; simpl.
  f_equal; try apply map_empty_union.
  apply map_eq. intros j. by rewrite lookup_upsert_disputes, lookup_empty.
Qed.

(** One batch of two lists of blocks is two batches. *)
Lemma batch_split bs1 bs2 s :
  run_batch (bs1 ++ bs2) s =
  match run_batch bs1 s with Ok s' => run_batch bs2 s' | Err i => Err i end.
Proof.
  unfold run_batch. rewrite process_blocks_app.
  destruct (process_blocks bs1 s (new_batch s, [])) as [[b p]|i]; [|done].
  rewrite process_blocks_prefix.
  pose proof (process_blocks_respects bs2 _ _ _ _ [] (fresh_view s b)) as H.
  destruct (process_blocks bs2 (persistIndexerBatch s b) _) as [[b1 q]|],
           (process_blocks bs2 s (b, [])) as [[b1' q']|]; simpl in *; try done.
  - destruct H as [_ H]. by f_equal.
  - by subst.
Qed.

(** The reference: every block header and every log is written at once. *)
Definition write_log (block : Block) (log : Log) (s : Store) : result PoisonLogInput Store :=
  match process_log block log s (new_batch s) with
  | Ok (b, _) => Ok (persistIndexerBatch s b)
  | Err i => Err i
  end.

Fixpoint write_logs (block : Block) (logs : list Log) (s : Store) : result PoisonLogInput Store :=
  match logs with
  | [] => Ok s
  | log :: logs =>
      match write_log block log s with Ok s' => write_logs block logs s' | Err i => Err i end
  end.

Definition write_header (block : Block) (s : Store) : Store :=
  persistIndexerBatch s (enter block s (new_batch s)).

Fixpoint replay (blocks : list Block) (s : Store) : result PoisonLogInput Store :=
  match blocks with
  | [] => Ok s
  | block :: blocks =>
      match write_logs block (bk_logs block) (write_header block s) with
      | Ok s' => replay blocks s'
      | Err i => Err i
      end
  end.

Lemma write_logs_view block logs s b :
  write_logs block logs (persistIndexerBatch s b) =
  match process_logs block logs s (b, []) with
  | Ok (b', _) => Ok (persistIndexerBatch s b') | Err i => Err i end.
Proof.
  revert b. induction logs as [|log logs IH]; intros b; simpl; [done|]. unfold write_log.
  pose proof (process_log_respects block log _ _ _ _ (fresh_view s b)) as H.
  destruct (process_log block log (persistIndexerBatch s b) _) as [[b1 q]|],
           (process_log block log s b) as [[b1' q']|]; simpl in *; try done.
  - destruct H as [_ H]. rewrite H, IH. rewrite (process_logs_prefix _ _ _ _ (option_list q')).
    by destruct (process_logs block logs s (b1', [])) as [[]|].
  - by subst.
Qed.

Lemma replay_app bs1 bs2 s :
  replay (bs1 ++ bs2) s = match replay bs1 s with Ok s' => replay bs2 s' | Err i => Err i end.
Proof.
  revert s. induction bs1 as [|block bs1 IH]; intros s; simpl; [done|].
  by destruct (write_logs block _ _).
Qed.

Lemma run_batch_one block s : run_batch [block] s = replay [block] s.
Proof.
  unfold run_batch; simpl. unfold write_header. rewrite write_logs_view.
  by destruct (process_logs block (bk_logs block) s (enter block s (new_batch s), [])) as [[]|].
Qed.

(** A batch is the replay of its blocks. *)
Lemma replay_batch blocks s : blocks <> [] -> run_batch blocks s = replay blocks s.
Proof.
  revert s. induction blocks as [|block blocks IH]; intros s Hne; [done|]. clear Hne.
  change (block :: blocks) with ([block] ++ blocks)%list. rewrite replay_app.
  destruct blocks as [|block' blocks].
  { rewrite app_nil_r, run_batch_one. by destruct (replay [block] s). }
  rewrite batch_split, run_batch_one. destruct (replay [block] s) as [s'|]; [|done].
  by apply IH.
Qed.

End blocks.

(** ** Rejected reads *)

Section rejections.
Context (reads : StoreReads).

(** Some read of the batch rejects with this error. *)
Definition rejects (error : string) : Prop := exists r, reads r = Some error.

(** [h] does what [h0] does, or throws the error of a rejected read. *)
Definition flaky {A} (h h0 : Handler A) : Prop :=
  forall s b, h s b = h0 s b \/ exists error, h s b = Err error /\ rejects error.

Lemma flaky_refl {A} (h : Handler A) : flaky h h.
Proof. intros s b. by left. Qed.

Lemma flaky_bind {A B} (m m0 : Handler A) (f f0 : A -> Handler B) :
  flaky m m0 -> (forall a, flaky (f a) (f0 a)) -> flaky (m ≫= f) (m0 ≫= f0).
Proof.
  intros Hm Hf s b. unfold mbind, Handler_bind.
  destruct (Hm s b) as [->|(error & -> & Hr)]; [|right; by exists error].
  destruct (m0 s b) as [[a b1]|]; [apply Hf|by left].
Qed.

Lemma flaky_store_get {A} r (row : option A) :
  store_get (reads := reads) r row = Ok row \/
  exists error, store_get (reads := reads) r row = Err error /\ rejects error.
Proof.
  unfold store_get, read_error. destruct (reads r) as [error|] eqn:E; [|by left].
  right. exists error. split; [done|by exists r].
Qed.

Ltac flaky_load :=
  intros s b;
  unfold getOrLoadTrade, loadDisputeProposal, loadOracleProposal, loadAdminProposal;
  lazymatch goal with |- match ?cached with _ => _ end = _ \/ _ =>
    destruct cached; [by left|] end;
  lazymatch goal with |- context [store_get (reads := reads) ?r ?row] =>
    destruct (flaky_store_get r row) as [->|(m & -> & Hm)]; [by left|right; by exists m] end.

Lemma flaky_trade id :
  flaky (getOrLoadTrade (reads := reads) id) (getOrLoadTrade (reads := reads_answer) id).
Proof. flaky_load. Qed.
Lemma flaky_dispute id error : flaky (loadDisputeProposal (reads := reads) id error)
  (loadDisputeProposal (reads := reads_answer) id error).
Proof. flaky_load. Qed.
Lemma flaky_oracle id error : flaky (loadOracleProposal (reads := reads) id error)
  (loadOracleProposal (reads := reads_answer) id error).
Proof. flaky_load. Qed.
Lemma flaky_admin id error : flaky (loadAdminProposal (reads := reads) id error)
  (loadAdminProposal (reads := reads_answer) id error).
Proof. flaky_load. Qed.

Ltac flaky :=
  intros; cbv zeta;
  first
    [ apply flaky_refl | apply flaky_trade | apply flaky_dispute | apply flaky_oracle
    | apply flaky_admin | apply flaky_bind; [flaky|intros; flaky] ].

(** A rejected read does not change which events have a handler, only whether the
    handler completes. *)
Lemma dispatch_flaky e :
  match dispatch (reads := reads) e, dispatch (reads := reads_answer) e with
  | Some h, Some h0 => forall lc, flaky (h lc) (h0 lc)
  | None, None => True
  | _, _ => False
  end.
Proof.
  destruct e; cbn [dispatch]; try done; intros lc; try apply flaky_refl;
    cbv beta delta [handleFundsReleasedStage1 handlePlatformFeesPaidStage1
      handleInspectionAvailable handleInspectionAcceptedForFinalRelease handleFinalTrancheReleased
      handleDisputeOpenedByBuyer handleTradePaused handleTradeUnpaused
      handleTradeCancelledAfterLockTimeout handleInTransitTimeoutRefunded
      handleRelayedActionExecuted handleGaslessTradeFunded handleSupplierPayoutTransferred
      handleBuyerRefundTransferred handleClaimableAccrued handleDisputePayout
      handleDisputeSolutionProposed handleDisputeApproved handleDisputeFinalized
      handleDisputeProposalExpiredCancelled handleOracleUpdateApproved
      handleOracleUpdateProposalExpiredCancelled handleAdminChangeApproved
      handleAdminChangeExecuted handleAdminChangeProposalCancelled];
    flaky.
Qed.

Lemma dispatch_none e : dispatch (reads := reads) e = None -> dispatch (reads := reads_answer) e = None.
Proof. intros H. pose proof (dispatch_flaky e) as Hd. rewrite H in Hd.
  by destruct (dispatch (reads := reads_answer) e).
Qed.

(** A batch starts as if the reads answered, or on the error of a rejected read. *)
Lemma overview_flaky localeCompare relations s :
  getOrLoadOverviewSnapshot localeCompare (H := reads) relations s
    = Ok (overview_of localeCompare relations s) \/
  exists error,
    getOrLoadOverviewSnapshot localeCompare (H := reads) relations s = Err error /\ rejects error.
Proof.
  unfold getOrLoadOverviewSnapshot, overview_of, read_error.
  destruct (reads ReadOverview) as [error|] eqn:E1; [right; exists error; split; [done|by eexists]|].
  destruct (st_overview s); [by left|].
  destruct (reads FindTrades) as [error|] eqn:E2; [right; exists error; split; [done|by eexists]|].
  destruct (reads FindTradeEvents) as [error|] eqn:E3; [|by left].
  right; exists error; split; [done|by eexists].
Qed.

(** The halt at a log is that of a log that cannot be projected, or blames the
    log for a rejected read. *)
Definition interrupted (input : PoisonLogInput) : Prop :=
  pi_reason input = HANDLER_FAILURE /\ rejects (pi_error input).

Lemma process_log_flaky ESCROW_ADDRESS ESCROW_ABI_FINGERPRINT parseLog block log s b :
  let run reads := process_log ESCROW_ADDRESS ESCROW_ABI_FINGERPRINT parseLog (reads := reads)
                     block log s b in
  run reads = run reads_answer \/ exists input, run reads = Err input /\ interrupted input.
Proof.
  cbv zeta. unfold process_log. destruct (negb _); [by left|].
  destruct (parseLog _ _) as [[decoded|]|]; [|by left..]. unfold project.
  destruct (lg_transaction log) as [h|]; [|by left].
  pose proof (dispatch_flaky decoded) as Hd.
  destruct (dispatch (reads := reads) decoded) as [f|], (dispatch decoded) as [f0|]; try done;
    [|by left].
  destruct (Hd (log_context block log h) s b) as [->|(error & -> & Hr)]; [by left|].
  right. eexists. split; [done|]. by split.
Qed.

End rejections.
