(* ===== verification/IndexerHistory.v ===== *)
(** Histories of the indexer: batches that commit, batches that halt or fail to
    be written, and operators resolving quarantined logs.

    In every history the tables are the replay of the logs of the checkpointed
    blocks from the empty database ([projection_is_replay]), whatever batches and
    failures led there, and every escrow log behind the checkpoint has its event
    row, as [event_entry] says ([every_log_indexed]).  A batch that halts changes
    nothing but the evidence, which names the log that cannot be projected or during
    which a read of the database rejected ([batch_stops], [halt_leaves_evidence]). *)
From stdpp Require Import base list gmap strings.
From S2P Require Import Prelude JsText JsDate IndexerTypes IndexerHandlers.
From S2P Require Import IndexerBatch IndexerView.

Open Scope string_scope.
Open Scope Z_scope.

(** ** Every handler writes one event *)

Definition events_of (b : Batch) (t : EventTable) : list EventRow :=
  match t with
  | TradeEvents => b_tradeEvents b
  | DisputeEvents => b_disputeEvents b
  | OracleEvents => b_oracleEvents b
  | AdminEvents => b_adminEvents b
  | SystemEvents => b_systemEvents b
  end.

Definition event_rows (s : Store) (t : EventTable) : gmap string EventRow :=
  match t with
  | TradeEvents => st_tradeEvents s
  | DisputeEvents => st_disputeEvents s
  | OracleEvents => st_oracleEvents s
  | AdminEvents => st_adminEvents s
  | SystemEvents => st_systemEvents s
  end.

#[export] Instance EventTable_eq_dec : EqDecision EventTable.
Proof. solve_decision. Defined.

(** ** Trades are stored under their ids *)

Definition keyed (trades : gmap string Trade) : Prop :=
  forall k t, trades !! k = Some t -> tr_id t = k /\ tr_tradeId t = k.

(** A handler keeps the keys, drops no trade and leaves the processed height. *)
Definition tidy {A} (h : Handler A) (Q : A -> Prop) : Prop :=
  forall s b a b', keyed (st_trades s) -> keyed (b_trades b) -> h s b = Ok (a, b') ->
    keyed (b_trades b') /\ (forall k, is_Some (b_trades b !! k) -> is_Some (b_trades b' !! k)) /\
    ov_lastProcessedBlock (b_overviewSnapshot b') = ov_lastProcessedBlock (b_overviewSnapshot b) /\ Q a.

Lemma tidy_bind {A B} (m : Handler A) (f : A -> Handler B) P Q :
  tidy m P -> (forall a, P a -> tidy (f a) Q) -> tidy (m ≫= f) Q.
Proof.
  intros Hm Hf s b a b' Hs Hb H. unfold mbind, Handler_bind in H.
  destruct (m s b) as [[x b1]|] eqn:E; [|done]. destruct (Hm _ _ _ _ Hs Hb E) as (Hb1 & Hd1 & Ho1 & HP).
  destruct (Hf x HP _ _ _ _ Hs Hb1 H) as (Hb2 & Hd2 & Ho2 & HQ). split_and!; eauto. congruence.
Qed.

Lemma tidy_modify f (Q : unit -> Prop) :
  (forall b, b_trades (f b) = b_trades b) ->
  (forall b, ov_lastProcessedBlock (b_overviewSnapshot (f b)) = ov_lastProcessedBlock (b_overviewSnapshot b)) ->
  Q tt -> tidy (IndexerHandlers.modify f) Q.
Proof. intros Hf Ho HQ s b a b' _ Hb [= <- <-]. rewrite Hf, Ho. auto. Qed.

Lemma tidy_push t lc name parent columns : tidy (push t lc name parent columns) (fun _ => True).
Proof. apply tidy_modify; [|by intros []|done]. intros b. by destruct t. Qed.

Lemma tidy_gets {A} (f : Batch -> A) : tidy (gets f) (fun _ => True).
Proof. intros s b a b' _ Hb [= <- <-]. auto. Qed.

Lemma tidy_lift {A} (r : result string A) : tidy (IndexerHandlers.lift r) (fun _ => True).
Proof. intros s b a b' _ Hb H. unfold IndexerHandlers.lift in H. destruct r; [|done]. injection H as <- <-. auto. Qed.

Lemma tidy_put k t : tr_id t = k -> tr_tradeId t = k -> tidy (IndexerHandlers.modify (put_trade k t)) (fun _ => True).
Proof.
  intros H1 H2 s b a b' _ Hb [= <- <-]. simpl. split_and!; [|intros k'|done|done].
  - intros k' t'. destruct (decide (k = k')) as [<-|Hn];
      [rewrite lookup_insert_eq; by intros [= <-]|rewrite lookup_insert_ne by done; apply Hb].
  - destruct (decide (k = k')) as [<-|Hn]; [by rewrite lookup_insert_eq|by rewrite lookup_insert_ne].
Qed.

Lemma tidy_getOrLoadTrade id : tidy (getOrLoadTrade id) (fun t => tr_id t = id /\ tr_tradeId t = id).
Proof.
  intros s b a b' Hs Hb H. unfold getOrLoadTrade in H; simpl in H.
  destruct (b_trades b !! id) as [t|] eqn:E.
  - injection H as <- <-. pose proof (Hb _ _ E) as [? ?]. by split_and!.
  - destruct (st_trades s !! id) as [t|] eqn:E1; [|done]. injection H as <- <-. pose proof (Hs _ _ E1) as [? ?].
    destruct (tidy_put id t ltac:(done) ltac:(done) s b tt _ Hs Hb eq_refl) as (? & ? & ? & _). auto.
Qed.

Lemma tidy_load_dispute id e : tidy (loadDisputeProposal id e) (fun _ => True).
Proof.
  intros s b a b' _ Hb H. unfold loadDisputeProposal in H; simpl in H.
  destruct (b_disputeProposals b !! id); [|destruct (st_disputeProposals s !! id); [|done]];
    injection H as <- <-; auto.
Qed.

Lemma tidy_load_oracle id e : tidy (loadOracleProposal id e) (fun _ => True).
Proof.
  intros s b a b' _ Hb H. unfold loadOracleProposal in H; simpl in H.
  destruct (b_oracleUpdateProposals b !! id); [|destruct (st_oracleUpdateProposals s !! id); [|done]];
    injection H as <- <-; auto.
Qed.

Lemma tidy_load_admin id e : tidy (loadAdminProposal id e) (fun _ => True).
Proof.
  intros s b a b' _ Hb H. unfold loadAdminProposal in H; simpl in H.
  destruct (b_adminChangeProposals b !! id); [|destruct (st_adminChangeProposals s !! id); [|done]];
    injection H as <- <-; auto.
Qed.

Lemma tidy_update_counters f d : tidy (update_counters f d) (fun _ => True).
Proof.
  eapply tidy_bind; [apply tidy_gets|]. intros c _. eapply tidy_bind; [apply tidy_lift|]. intros c' _.
  eapply (tidy_bind _ _ (fun _ => True)); [|intros _ _]; by apply tidy_modify.
Qed.

#[export] Hint Resolve tidy_push tidy_getOrLoadTrade tidy_load_dispute tidy_load_oracle tidy_load_admin
  tidy_update_counters : tidy.
#[export] Hint Extern 1 (tidy (touch_overview _) _) => apply (tidy_modify _ (fun _ => True)); done : tidy.
#[export] Hint Extern 2 (tidy (IndexerHandlers.modify _) _) =>
  first [apply tidy_put; simpl; tauto | apply (tidy_modify _ (fun _ => True)); done] : tidy.

Ltac tidy :=
  intros; cbv zeta;
  first [ solve [eauto with tidy]
        | eapply tidy_bind; [solve [eauto with tidy]|intros ? ?; cbv beta in *; tidy] ].

Lemma dispatch_tidy e handler lc : dispatch e = Some handler -> tidy (handler lc) (fun _ => True).
Proof.
  destruct e; intros [= <-];
    cbv beta delta [handleTradeLocked handleFundsReleasedStage1 handlePlatformFeesPaidStage1
      handleInspectionAvailable handleInspectionAcceptedForFinalRelease handleFinalTrancheReleased
      handleDisputeOpenedByBuyer handleTradePaused handleTradeUnpaused
      handleTradeCancelledAfterLockTimeout handleInTransitTimeoutRefunded
      handleRelayedActionExecuted handleGaslessTradeFunded handleSupplierPayoutTransferred
      handleBuyerRefundTransferred handleClaimableAccrued handleDisputePayout
      handleDisputeSolutionProposed handleDisputeApproved handleDisputeFinalized
      handleDisputeProposalExpiredCancelled handleOracleUpdateProposed handleOracleUpdateApproved
      handleOracleUpdated handleOracleUpdateProposalExpiredCancelled handleOracleDisabledEmergency
      handleAdminChangeProposed handleAdminChangeApproved handleAdminChangeExecuted
      handleAdminAdded handleAdminRemoved handleAdminReplaced handleAdminChangeProposalCancelled
      handlePaused handleUnpauseProposed handleUnpauseApproved handleUnpauseProposalCancelled
      handleUnpaused handleClaimsPaused handleClaimsUnpaused handleTreasuryClaimed
      handleTreasuryPayoutAddressUpdateProposed handleTreasuryPayoutAddressUpdateApproved
      handleTreasuryPayoutAddressUpdated handleTreasuryPayoutAddressUpdateProposalExpiredCancelled
      handleAuthorizationConsumed handleRelayerUpdated handleRequiredApprovalsUpdated
      handleGovernanceEpochAdvanced].
  all: tidy.
Qed.

(** ** One event per handler *)

Definition silent {A} (h : Handler A) : Prop :=
  forall s b a b', h s b = Ok (a, b') -> forall t, events_of b' t = events_of b t.

(** The handler writes one event, to this table, with this parent and these
    columns, once trades are stored under their ids. *)
Definition emits (lc : LogContext) (name : string)
    (entry : EventTable * option string * list (string * Column)) (h : Handler unit) : Prop :=
  forall s b u b', keyed (st_trades s) -> keyed (b_trades b) -> h s b = Ok (u, b') -> forall t,
    events_of b' t =
    (events_of b t ++
     (if decide (entry.1.1 = t) then [new_event lc name entry.1.2 entry.2] else []))%list.

Lemma emits_bind {A} lc name entry (m : Handler A) f P :
  silent m -> tidy m P -> (forall a, P a -> emits lc name entry (f a)) -> emits lc name entry (m ≫= f).
Proof.
  intros Hm Hp Hf s b u b' Hs Hb H. unfold mbind, Handler_bind in H.
  destruct (m s b) as [[a b1]|] eqn:E; [|done]. destruct (Hp _ _ _ _ Hs Hb E) as (Hb1 & _ & _ & Ha).
  intros t. rewrite (Hf a Ha s b1 u b' Hs Hb1 H t). by rewrite (Hm _ _ _ _ E).
Qed.

Lemma emits_push lc name entry t parent columns :
  entry = (t, parent, columns) -> emits lc name entry (push t lc name parent columns).
Proof.
  intros -> s b u b' _ _ [= <- <-] t'. destruct t, t'; simpl; by rewrite ?app_nil_r.
Qed.

Lemma silent_bind {A B} (m : Handler A) (f : A -> Handler B) :
  silent m -> (forall a, silent (f a)) -> silent (m ≫= f).
Proof.
  intros Hm Hf s b a b' H t. unfold mbind, Handler_bind in H.
  destruct (m s b) as [[x b1]|] eqn:E; [|done]. by rewrite (Hf _ _ _ _ _ H), (Hm _ _ _ _ E).
Qed.

Lemma silent_modify f : (forall b t, events_of (f b) t = events_of b t) -> silent (modify f).
Proof. intros Hf s b a b' [= <- <-] t. apply Hf. Qed.

Lemma silent_gets {A} (f : Batch -> A) : silent (gets f).
Proof. by intros s b a b' [= <- <-]. Qed.

Lemma silent_lift {A} (r : result string A) : silent (lift r).
Proof. intros s b a b' H. unfold lift in H. destruct r; [|done]. by injection H as <- <-. Qed.

Lemma silent_getOrLoadTrade id : silent (getOrLoadTrade id).
Proof.
  intros s b a b' H t. unfold getOrLoadTrade in H; simpl in H.
  destruct (b_trades b !! id); [|destruct (st_trades s !! id); [|done]];
    injection H as <- <-; by destruct t.
Qed.

Lemma silent_load_dispute id e : silent (loadDisputeProposal id e).
Proof.
  intros s b a b' H t. unfold loadDisputeProposal in H; simpl in H.
  destruct (b_disputeProposals b !! id); [|destruct (st_disputeProposals s !! id); [|done]];
    injection H as <- <-; by destruct t.
Qed.

Lemma silent_load_oracle id e : silent (loadOracleProposal id e).
Proof.
  intros s b a b' H t. unfold loadOracleProposal in H; simpl in H.
  destruct (b_oracleUpdateProposals b !! id); [|destruct (st_oracleUpdateProposals s !! id); [|done]];
    injection H as <- <-; by destruct t.
Qed.

Lemma silent_load_admin id e : silent (loadAdminProposal id e).
Proof.
  intros s b a b' H t. unfold loadAdminProposal in H; simpl in H.
  destruct (b_adminChangeProposals b !! id); [|destruct (st_adminChangeProposals s !! id); [|done]];
    injection H as <- <-; by destruct t.
Qed.

Lemma silent_update_counters f d : silent (update_counters f d).
Proof.
  apply silent_bind; [apply silent_gets|]. intros c. apply silent_bind; [apply silent_lift|]. intros c'.
  apply silent_bind; [|intros _]; apply silent_modify; by intros b [].
Qed.

#[export] Hint Resolve silent_getOrLoadTrade silent_load_dispute silent_load_oracle
  silent_load_admin silent_update_counters : indexer.
#[export] Hint Extern 1 (silent (touch_overview _)) => apply silent_modify; by intros ? [] : indexer.
#[export] Hint Extern 1 (silent (modify _)) => apply silent_modify; by intros ? [] : indexer.

(** The entry of each event: the table of its row, the trade or proposal the row
    belongs to, and its columns. *)
Definition event_entry (e : EscrowEvent) : EventTable * option string * list (string * Column) :=
  let address name a := (name, StringColumn (toLowerCase a)) in
  let trade id columns := (TradeEvents, Some (print_Z id), columns) in
  let system columns := (SystemEvents, None, columns) in
  match e with
  | TradeLocked id _ _ total logistics fees first second _ =>
      trade id
        [("totalAmount", BigIntColumn total); ("logisticsAmount", BigIntColumn logistics);
         ("platformFeesAmount", BigIntColumn fees);
         ("platformFeeNetAmount", BigIntColumn (splitPlatformFeeComponents fees).1);
         ("settlementSupportFeeAmount", BigIntColumn (splitPlatformFeeComponents fees).2);
         ("supplierFirstTranche", BigIntColumn first);
         ("supplierSecondTranche", BigIntColumn second)]
  | FundsReleasedStage1 id _ first treasury logistics =>
      trade id
        [("releasedFirstTranche", BigIntColumn first);
         ("releasedLogisticsAmount", BigIntColumn logistics); address "treasuryAddress" treasury]
  | PlatformFeesPaidStage1 id treasury fees net support =>
      trade id
        [("paidPlatformFees", BigIntColumn fees);
         ("paidPlatformFeeNet", BigIntColumn (default (splitPlatformFeeComponents fees).1 net));
         ("paidSettlementSupportFee",
          BigIntColumn (default (splitPlatformFeeComponents fees).2 support));
         address "treasuryAddress" treasury]
  | InspectionAvailable id available window deadline =>
      trade id
        [("inspectionAvailableAt", BigIntColumn available);
         ("inspectionWindowSeconds", BigIntColumn window);
         ("inspectionNoticeDeadline", BigIntColumn deadline)]
  | InspectionAcceptedForFinalRelease id accepted =>
      trade id [("inspectionAcceptedAt", BigIntColumn accepted)]
  | FinalTrancheReleased id supplier second =>
      trade id [("finalTranche", BigIntColumn second); address "finalRecipient" supplier]
  | DisputeOpenedByBuyer id => trade id []
  | TradeCancelledAfterLockTimeout id buyer amount =>
      trade id [("refundedAmount", BigIntColumn amount); address "refundedTo" buyer]
  | TradePaused id by_ | TradeUnpaused id by_ => trade id [address "pauseTriggeredBy" by_]
  | InTransitTimeoutRefunded id buyer amount =>
      trade id [("refundedBuyerPrincipal", BigIntColumn amount); address "refundedTo" buyer]
  | RelayedActionExecuted relayer user action id =>
      trade id [("relayedAction", StringColumn action); address "relayedUser" user;
                address "relayedRelayer" relayer]
  | GaslessTradeFunded id buyer nonce amount =>
      trade id [address "gaslessBuyer" buyer; ("usdcAuthorizationNonce", StringColumn nonce);
                ("totalAmount", BigIntColumn amount)]
  | SupplierPayoutTransferred id supplier amount claim by_ =>
      trade id [address "supplierPayoutRecipient" supplier;
                ("supplierPayoutAmount", BigIntColumn amount);
                ("supplierPayoutType", ClaimColumn (claim_type_of claim));
                address "supplierPayoutTriggeredBy" by_]
  | BuyerRefundTransferred id buyer amount claim by_ =>
      trade id [address "buyerRefundRecipient" buyer; ("buyerRefundAmount", BigIntColumn amount);
                ("buyerRefundType", ClaimColumn (claim_type_of claim));
                address "buyerRefundTriggeredBy" by_]
  | ClaimableAccrued id recipient amount claim =>
      trade id [("claimType", ClaimColumn (claim_type_of claim)); address "claimRecipient" recipient;
                ("claimAmount", BigIntColumn amount)]
  | DisputePayout id proposal recipient amount payout =>
      trade id [address "payoutRecipient" recipient; ("payoutAmount", BigIntColumn amount);
                ("payoutType", DisputeColumn (dispute_status_of payout));
                ("relatedProposalId", StringColumn (print_Z proposal))]
  | DisputeSolutionProposed pid _ status by_ =>
      (DisputeEvents, Some (print_Z pid),
       [("proposedDisputeStatus", DisputeColumn (dispute_status_of status)); address "proposer" by_])
  | DisputeApproved pid by_ n required =>
      (DisputeEvents, Some (print_Z pid),
       [address "approver" by_; ("approvalCount", IntColumn (js_number n));
        ("requiredApprovals", IntColumn (js_number required))])
  | DisputeFinalized pid _ status =>
      (DisputeEvents, Some (print_Z pid),
       [("finalDisputeStatus", DisputeColumn (dispute_status_of status))])
  | DisputeProposalExpiredCancelled pid _ by_ =>
      (DisputeEvents, Some (print_Z pid), [address "cancelledBy" by_])
  | OracleUpdateProposed pid by_ oracle eta _ =>
      (OracleEvents, Some (print_Z pid),
       [address "proposedOracle" oracle; ("eta", BigIntColumn eta); address "proposer" by_])
  | OracleUpdateApproved pid by_ n required =>
      (OracleEvents, Some (print_Z pid),
       [address "approver" by_; ("approvalCount", IntColumn (js_number n));
        ("requiredApprovals", IntColumn (js_number required))])
  | OracleUpdated old new =>
      (OracleEvents, None, [address "oldOracle" old; address "newOracle" new])
  | OracleUpdateProposalExpiredCancelled pid by_ =>
      (OracleEvents, Some (print_Z pid), [address "cancelledBy" by_])
  | OracleDisabledEmergency by_ previous =>
      (OracleEvents, None, [address "disabledBy" by_; address "previousOracle" previous])
  | AdminChangeProposed pid by_ kind current new threshold eta epoch =>
      (AdminEvents, Some (print_Z pid),
       [("adminChangeKind", IntColumn (js_number kind)); address "currentAdmin" current;
        address "newAdmin" new; ("newThreshold", BigIntColumn threshold);
        ("governanceEpoch", BigIntColumn epoch); ("eta", BigIntColumn eta); address "proposer" by_])
  | AdminChangeApproved pid by_ n required =>
      (AdminEvents, Some (print_Z pid),
       [address "approver" by_; ("approvalCount", IntColumn (js_number n));
        ("requiredApprovals", IntColumn (js_number required))])
  | AdminChangeExecuted pid kind current new threshold =>
      (AdminEvents, Some (print_Z pid),
       [("adminChangeKind", IntColumn (js_number kind)); address "currentAdmin" current;
        address "newAdmin" new; ("newThreshold", BigIntColumn threshold)])
  | AdminAdded new => (AdminEvents, None, [address "addedAdmin" new])
  | AdminRemoved old => (AdminEvents, None, [address "removedAdmin" old])
  | AdminReplaced old new =>
      (AdminEvents, None, [address "oldAdmin" old; address "replacementAdmin" new])
  | AdminChangeProposalCancelled pid by_ =>
      (AdminEvents, Some (print_Z pid), [address "cancelledBy" by_])
  | Paused by_ | UnpauseProposalCancelled by_ | Unpaused by_ | ClaimsPaused by_
  | ClaimsUnpaused by_ => system [address "triggeredBy" by_]
  | UnpauseProposed by_ scope id incident epoch =>
      system [address "triggeredBy" by_; ("pauseScope", IntColumn (js_number scope));
              ("pauseTradeId", BigIntColumn id); ("incidentRef", StringColumn incident);
              ("governanceEpoch", BigIntColumn epoch)]
  | UnpauseApproved by_ n required =>
      system [address "triggeredBy" by_; ("approvalCount", IntColumn (js_number n));
              ("requiredApprovals", IntColumn (js_number required))]
  | TreasuryClaimed identity receiver amount by_ =>
      system [address "triggeredBy" by_; ("claimAmount", BigIntColumn amount);
              address "treasuryIdentity" identity; address "payoutReceiver" receiver]
  | TreasuryPayoutAddressUpdateProposed pid by_ receiver eta =>
      system [("proposalId", StringColumn (print_Z pid)); address "triggeredBy" by_;
              address "newPayoutReceiver" receiver; address "payoutReceiver" receiver;
              ("eta", BigIntColumn eta)]
  | TreasuryPayoutAddressUpdateApproved pid by_ n required =>
      system [("proposalId", StringColumn (print_Z pid)); address "triggeredBy" by_;
              ("approvalCount", IntColumn (js_number n));
              ("requiredApprovals", IntColumn (js_number required))]
  | TreasuryPayoutAddressUpdated old new =>
      system [address "oldPayoutReceiver" old; address "newPayoutReceiver" new;
              address "payoutReceiver" new]
  | TreasuryPayoutAddressUpdateProposalExpiredCancelled pid by_ =>
      system [("proposalId", StringColumn (print_Z pid)); address "triggeredBy" by_]
  | AuthorizationConsumed user action nonce relayer deadline =>
      system [address "triggeredBy" relayer; address "authorizationUser" user;
              ("authorizationAction", StringColumn action); ("authorizationNonce", BigIntColumn nonce);
              address "authorizationRelayer" relayer; ("authorizationDeadline", BigIntColumn deadline)]
  | RelayerUpdated relayer allowed by_ =>
      system [address "triggeredBy" by_; address "authorizationRelayer" relayer;
              ("authorizationAction",
               StringColumn (if allowed then "RELAYER_ALLOWED" else "RELAYER_REVOKED"))]
  | RequiredApprovalsUpdated old new =>
      system [("oldThreshold", BigIntColumn old); ("newThreshold", BigIntColumn new)]
  | GovernanceEpochAdvanced epoch => system [("governanceEpoch", BigIntColumn epoch)]
  | OtherEvent _ => system []
  end.

Ltac emits :=
  intros; cbv zeta;
  first
    [ apply emits_push; simpl; intuition congruence
    | eapply emits_bind;
      [solve [auto with indexer]|solve [eauto with tidy]|intros ? ?; cbv beta in *; emits] ].

Lemma dispatch_emits e handler lc : dispatch e = Some handler ->
  emits lc (event_name e) (event_entry e) (handler lc).
Proof.
  destruct e; intros [= <-]; cbn [event_name event_entry];
    cbv beta delta [handleTradeLocked handleFundsReleasedStage1 handlePlatformFeesPaidStage1
      handleInspectionAvailable handleInspectionAcceptedForFinalRelease handleFinalTrancheReleased
      handleDisputeOpenedByBuyer handleTradePaused handleTradeUnpaused
      handleTradeCancelledAfterLockTimeout handleInTransitTimeoutRefunded
      handleRelayedActionExecuted handleGaslessTradeFunded handleSupplierPayoutTransferred
      handleBuyerRefundTransferred handleClaimableAccrued handleDisputePayout
      handleDisputeSolutionProposed handleDisputeApproved handleDisputeFinalized
      handleDisputeProposalExpiredCancelled handleOracleUpdateProposed handleOracleUpdateApproved
      handleOracleUpdated handleOracleUpdateProposalExpiredCancelled handleOracleDisabledEmergency
      handleAdminChangeProposed handleAdminChangeApproved handleAdminChangeExecuted
      handleAdminAdded handleAdminRemoved handleAdminReplaced handleAdminChangeProposalCancelled
      handlePaused handleUnpauseProposed handleUnpauseApproved handleUnpauseProposalCancelled
      handleUnpaused handleClaimsPaused handleClaimsUnpaused handleTreasuryClaimed
      handleTreasuryPayoutAddressUpdateProposed handleTreasuryPayoutAddressUpdateApproved
      handleTreasuryPayoutAddressUpdated handleTreasuryPayoutAddressUpdateProposalExpiredCancelled
      handleAuthorizationConsumed handleRelayerUpdated handleRequiredApprovalsUpdated
      handleGovernanceEpochAdvanced];
    emits.
Qed.

Lemma event_rows_persist s b t :
  event_rows (persistIndexerBatch s b) t = upsert_events (events_of b t) (event_rows s t).
Proof. by destruct t. Qed.

#[local] Open Scope list_scope.

Section history.
Context (ESCROW_ADDRESS ESCROW_ABI_FINGERPRINT : string).
Context (parseLog : list string -> string -> result string (option EscrowEvent)).
Context (localeCompare : string -> string -> Z) (relations : bool).

#[local] Notation is_escrow_log := (is_escrow_log ESCROW_ADDRESS).
#[local] Notation process_log :=
  (process_log ESCROW_ADDRESS ESCROW_ABI_FINGERPRINT parseLog (reads := reads_answer)).
#[local] Notation process_logs :=
  (process_logs ESCROW_ADDRESS ESCROW_ABI_FINGERPRINT parseLog (reads := reads_answer)).
#[local] Notation process_blocks :=
  (process_blocks ESCROW_ADDRESS ESCROW_ABI_FINGERPRINT parseLog (reads := reads_answer)).
#[local] Notation new_batch := (new_batch localeCompare relations).
#[local] Notation write_log :=
  (write_log ESCROW_ADDRESS ESCROW_ABI_FINGERPRINT parseLog localeCompare relations).
#[local] Notation write_logs :=
  (write_logs ESCROW_ADDRESS ESCROW_ABI_FINGERPRINT parseLog localeCompare relations).
#[local] Notation write_header := (write_header localeCompare relations).
#[local] Notation replay :=
  (replay ESCROW_ADDRESS ESCROW_ABI_FINGERPRINT parseLog localeCompare relations).
#[local] Notation processBatch :=
  (processBatch ESCROW_ADDRESS ESCROW_ABI_FINGERPRINT parseLog localeCompare relations).
#[local] Notation reachable_indexer :=
  (reachable_indexer ESCROW_ADDRESS ESCROW_ABI_FINGERPRINT parseLog localeCompare relations).

(** ** The tables are a replay *)

Lemma process_logs_commits (reads : StoreReads) block logs s acc acc' :
  IndexerBatch.process_logs ESCROW_ADDRESS ESCROW_ABI_FINGERPRINT parseLog (reads := reads)
    block logs s acc = Ok acc' ->
  process_logs block logs s acc = Ok acc'.
Proof.
  revert acc. induction logs as [|log logs IH]; intros acc; simpl; [done|].
  destruct (process_log_flaky reads ESCROW_ADDRESS ESCROW_ABI_FINGERPRINT parseLog block log s acc.1)
    as [->|(input & -> & _)]; [|done].
  destruct (process_log block log s acc.1) as [[b p]|]; [apply IH|done].
Qed.

Lemma process_blocks_commits (reads : StoreReads) blocks s acc acc' :
  IndexerBatch.process_blocks ESCROW_ADDRESS ESCROW_ABI_FINGERPRINT parseLog (reads := reads)
    blocks s acc = Ok acc' ->
  process_blocks blocks s acc = Ok acc'.
Proof.
  revert acc. induction blocks as [|block blocks IH]; intros acc; simpl; [done|].
  destruct (IndexerBatch.process_logs _ _ _ _ _ s _) as [acc1|] eqn:E; [|done].
  apply process_logs_commits in E as ->. apply IH.
Qed.

(** A batch that commits does what it does on reads that answer. *)
Lemma processBatch_commit faults now blocks s e s' e' :
  processBatch faults now blocks s e = (Ok s', e') ->
  run_batch ESCROW_ADDRESS ESCROW_ABI_FINGERPRINT parseLog localeCompare relations blocks s = Ok s'
  /\ e' = e.
Proof.
  unfold IndexerBatch.processBatch, run_batch.
  destruct (overview_flaky (f_reads faults) localeCompare relations s) as [->|(error & -> & _)]; [|done].
  destruct (IndexerBatch.process_blocks _ _ _ blocks s _) as [[b p]|i] eqn:E.
  - apply process_blocks_commits in E. unfold IndexerBatch.new_batch. rewrite E.
    destruct (f_persist faults) as [[error m]|]; [|by intros [= <- <-]]. by destruct (negb _).
  - unfold haltOnPoisonLog. by destruct (reportPoisonLog faults now i e).
Qed.

Lemma history_replay i : reachable_indexer i -> replay (ix_checkpoint i) empty_store = Ok (ix_store i).
Proof.
  induction 1 as [|i i' _ IH Hs]; [done|]. destruct Hs as [f now blocks i s' e' Hne H| |]; simpl; try done.
  apply processBatch_commit in H as [H _]. rewrite replay_batch in H by done.
  by rewrite replay_app, IH.
Qed.

(** ** The trades of the tables stay under their ids *)

Lemma persist_keyed s b : keyed (b_trades b) -> keyed (st_trades s) ->
  keyed (st_trades (persistIndexerBatch s b)).
Proof.
  intros Hb Hs k t. simpl. rewrite lookup_union_Some_raw. intros [H|[_ H]]; [by apply Hb|by apply Hs].
Qed.

Lemma persist_trade s b k : is_Some (st_trades s !! k) -> is_Some (st_trades (persistIndexerBatch s b) !! k).
Proof. intros [t Ht]. simpl. rewrite lookup_union, Ht. destruct (b_trades b !! k); simpl; eauto. Qed.

Lemma write_log_tidy block log s s' :
  keyed (st_trades s) -> write_log block log s = Ok s' ->
  keyed (st_trades s') /\ (forall k, is_Some (st_trades s !! k) -> is_Some (st_trades s' !! k)) /\
  exists o', st_overview s' = Some o' /\
    ov_lastProcessedBlock o' = ov_lastProcessedBlock (b_overviewSnapshot (new_batch s)).
Proof.
  intros Hs. unfold IndexerView.write_log, process_log, project.
  assert (Hn : keyed (b_trades (new_batch s))) by (intros k t; simpl; by rewrite lookup_empty).
  destruct (negb (is_escrow_log log)).
  { intros [= <-]. split_and!; [by apply persist_keyed|intros; by apply persist_trade|eauto]. }
  destruct (parseLog _ _) as [[decoded|]|]; [|done..].
  destruct (lg_transaction log); [|done]. destruct (dispatch decoded) as [handler|] eqn:Ed; [|done].
  destruct (handler _ s (new_batch s)) as [[[] b]|] eqn:Eb; [|done]. intros [= <-].
  destruct (dispatch_tidy _ _ _ Ed _ _ _ _ Hs Hn Eb) as (Hb & _ & Ho & _).
  split_and!; [by apply persist_keyed|intros; by apply persist_trade|]. eexists. by split.
Qed.

Lemma keyed_empty : keyed (st_trades empty_store).
Proof. intros k t. simpl. by rewrite lookup_empty. Qed.

(** ** Logs and event rows *)

Definition escrow_logs (blocks : list Block) : list (Block * Log) :=
  blocks ≫= fun block => (block,.) <$> List.filter is_escrow_log (bk_logs block).

Definition log_event_id (bl : Block * Log) : string :=
  buildEvmEventId (safeTransactionHash bl.2) (lg_logIndex bl.2).

(** The row a log must have: its place, and the table, name, parent and columns of
    its event, one the indexer handles. *)
Definition row_of (bl : Block * Log) (t : EventTable) (row : EventRow) : Prop :=
  exists decoded,
    parseLog (lg_topics bl.2) (lg_data bl.2) = Ok (Some decoded) /\ is_Some (dispatch decoded) /\
    ev_id row = log_event_id bl /\ ev_eventName row = event_name decoded /\
    ev_blockNumber row = bk_height bl.1 /\ ev_timestamp row = block_date bl.1 /\
    lg_transaction bl.2 = Ok (ev_txHash row) /\ ev_logIndex row = lg_logIndex bl.2 /\
    ev_transactionIndex row = lg_transactionIndex bl.2 /\
    event_entry decoded = (t, ev_parent row, ev_columns row).

(** The event tables hold exactly the rows of the given logs: each log has its row
    in the table of its event and in no other, and there are no other rows. *)
Definition events_exact (logs : list (Block * Log)) (s : Store) : Prop :=
  (forall bl, bl ∈ logs -> exists t row, row_of bl t row /\
     forall t' row', event_rows s t' !! log_event_id bl = Some row' <-> t' = t /\ row' = row) /\
  (forall t id row, event_rows s t !! id = Some row -> exists bl, bl ∈ logs /\ id = log_event_id bl).

Lemma events_exact_row logs s t id row :
  events_exact logs s -> event_rows s t !! id = Some row ->
  exists bl, bl ∈ logs /\ id = log_event_id bl /\ row_of bl t row.
Proof.
  intros [Hc Hs] H. destruct (Hs t id row H) as (bl & Hbl & ->). exists bl. split_and!; [done..|].
  destruct (Hc bl Hbl) as (t0 & row0 & Hrow & Hiff). by apply Hiff in H as [-> ->].
Qed.

Lemma events_exact_same logs s s' :
  (forall t, event_rows s' t = event_rows s t) -> events_exact logs s -> events_exact logs s'.
Proof. intros H. unfold events_exact. by setoid_rewrite H. Qed.

Lemma events_exact_empty : events_exact [] empty_store.
Proof.
  split; [intros bl []%elem_of_nil|]. intros [] id row H; simpl in H; by rewrite lookup_empty in H.
Qed.

Lemma write_log_other block log s s' :
  is_escrow_log log = false -> write_log block log s = Ok s' ->
  forall t, event_rows s' t = event_rows s t.
Proof.
  intros Hl. unfold IndexerView.write_log, IndexerBatch.process_log. rewrite Hl. simpl.
  intros [= <-] t. by destruct t.
Qed.

Lemma write_log_event block log s s' :
  keyed (st_trades s) -> is_escrow_log log = true -> write_log block log s = Ok s' ->
  exists t row, row_of (block, log) t row /\ ev_id row = log_event_id (block, log) /\
    forall t', event_rows s' t' =
      if decide (t = t') then <[ev_id row := row]> (event_rows s t') else event_rows s t'.
Proof.
  intros Hk Hl. unfold IndexerView.write_log, IndexerBatch.process_log, project. rewrite Hl. simpl.
  destruct (parseLog _ _) as [[decoded|]|] eqn:Ed; [|done..].
  destruct (lg_transaction log) as [h|] eqn:Eh; [|done].
  destruct (dispatch decoded) as [handler|] eqn:E; [|done].
  destruct (handler _ s (new_batch s)) as [[[] b]|] eqn:Eb; [|done]. intros [= <-].
  assert (Hn : keyed (b_trades (new_batch s))) by (intros k t; simpl; by rewrite lookup_empty).
  pose proof (dispatch_emits _ _ _ E _ _ _ _ Hk Hn Eb) as Ht.
  set (row := new_event _ _ _ _) in Ht.
  assert (ev_id row = log_event_id (block, log)) as Hid
    by (unfold log_event_id, safeTransactionHash; simpl; by rewrite Eh).
  exists (event_entry decoded).1.1, row. split.
  { exists decoded. rewrite E. split_and!; try done. by destruct (event_entry decoded) as [[]]. }
  split; [done|]. intros t. rewrite event_rows_persist, (Ht t). destruct (decide _); [|by destruct t].
  by destruct t.
Qed.

Lemma events_exact_write block log s s' logs :
  keyed (st_trades s) -> events_exact logs s -> is_escrow_log log = true ->
  write_log block log s = Ok s' -> log_event_id (block, log) ∉ log_event_id <$> logs ->
  events_exact (logs ++ [(block, log)]) s'.
Proof.
  intros Hk [Hc Hs] Hl Hw Hnew.
  destruct (write_log_event _ _ _ _ Hk Hl Hw) as (t & row & Hrow & Hid & Ht).
  assert (Hold : forall t' id, id <> ev_id row -> event_rows s' t' !! id = event_rows s t' !! id).
  { intros t' id Hn. rewrite Ht. destruct (decide (t = t')); [by rewrite lookup_insert_ne|done]. }
  split.
  - intros bl [Hbl| ->%list_elem_of_singleton]%elem_of_app.
    + destruct (Hc bl Hbl) as (t1 & row1 & Hr & Hiff). exists t1, row1. split; [done|].
      intros t' row'. rewrite Hold; [done|]. rewrite Hid. intros Heq. apply Hnew. rewrite <- Heq.
      by apply list_elem_of_fmap_2.
    + exists t, row. split; [done|]. intros t' row'. rewrite <- Hid, Ht.
      destruct (decide (t = t')) as [<-|Hn].
      { rewrite lookup_insert_eq. naive_solver. }
      split; [|intros [-> _]; done]. intros (bl & Hbl & Heq)%Hs. exfalso. apply Hnew.
      rewrite <- Hid, Heq. by apply list_elem_of_fmap_2.
  - intros t' id row' H. destruct (decide (id = ev_id row)) as [->|Hn].
    + exists (block, log). split; [set_solver|done].
    + rewrite Hold in H by done. destruct (Hs t' id row' H) as (bl & ? & ?). exists bl. set_solver.
Qed.

Lemma events_exact_logs block logs s s' done_ :
  keyed (st_trades s) -> events_exact done_ s -> write_logs block logs s = Ok s' ->
  NoDup (log_event_id <$> done_ ++ ((block,.) <$> List.filter is_escrow_log logs)) ->
  keyed (st_trades s') /\
  events_exact (done_ ++ ((block,.) <$> List.filter is_escrow_log logs)) s'.
Proof.
  revert s done_. induction logs as [|log logs IH]; intros s done_ Hk He Hw Hnd; simpl in *.
  { injection Hw as <-. by rewrite app_nil_r. }
  destruct (write_log block log s) as [s1|] eqn:E1; [|done].
  destruct (write_log_tidy _ _ _ _ Hk E1) as [Hk1 _].
  destruct (is_escrow_log log) eqn:El; simpl in *.
  - rewrite cons_middle, app_assoc in *. apply (IH s1); [done| |done..].
    apply (events_exact_write _ _ s); try done.
    rewrite !fmap_app in Hnd. apply NoDup_app in Hnd as [Hnd _].
    apply NoDup_app in Hnd as (_ & Hnd & _). intros Hin. apply (Hnd _ Hin). simpl. set_solver.
  - apply (IH s1); [done| |done..].
    by apply (events_exact_same _ s), He; apply (write_log_other _ _ _ _ El E1).
Qed.

Lemma events_exact_replay blocks s s' done_ :
  keyed (st_trades s) -> events_exact done_ s -> replay blocks s = Ok s' ->
  NoDup (log_event_id <$> done_ ++ escrow_logs blocks) ->
  events_exact (done_ ++ escrow_logs blocks) s'.
Proof.
  revert s done_. induction blocks as [|block blocks IH]; intros s done_ Hk He Hr Hnd; simpl in *.
  { injection Hr as <-. by rewrite app_nil_r. }
  destruct (write_logs block _ _) as [s1|] eqn:E1; [|done].
  unfold escrow_logs in *; simpl in *. rewrite app_assoc in *.
  assert (keyed (st_trades s1) /\
          events_exact (done_ ++ ((block,.) <$> List.filter is_escrow_log (bk_logs block))) s1)
    as [Hk1 He1]; [|by apply (IH s1)].
  apply (events_exact_logs _ _ (write_header block s)); [| |done|].
  - apply persist_keyed; [|done]. intros k t. simpl. by rewrite lookup_empty.
  - by apply (events_exact_same _ s), He; intros [].
  - rewrite fmap_app in Hnd. by apply NoDup_app in Hnd as [? _].
Qed.

(** ** Where a batch halts *)

(** The log at which the projection stops, and why. *)
Definition stops_at (block : Block) (log : Log) (i : PoisonLogInput) : Prop :=
  is_escrow_log log = true /\
  pi_context i = poison_context ESCROW_ABI_FINGERPRINT block log /\
  match pi_reason i with
  | UNDECODABLE =>
      pi_eventName i = None /\
      forall decoded, parseLog (lg_topics log) (lg_data log) <> Ok (Some decoded)
  | UNKNOWN_EVENT =>
      exists decoded, parseLog (lg_topics log) (lg_data log) = Ok (Some decoded) /\
        pi_eventName i = Some (event_name decoded) /\ dispatch decoded = None
  | HANDLER_FAILURE =>
      exists decoded, parseLog (lg_topics log) (lg_data log) = Ok (Some decoded) /\
        pi_eventName i = Some (event_name decoded)
  end.

Lemma process_log_stops (reads : StoreReads) block log s b i :
  IndexerBatch.process_log ESCROW_ADDRESS ESCROW_ABI_FINGERPRINT parseLog (reads := reads)
    block log s b = Err i -> stops_at block log i.
Proof.
  unfold IndexerBatch.process_log, project. destruct (is_escrow_log log) eqn:El; [|done]. simpl.
  destruct (parseLog _ _) as [[decoded|]|error] eqn:Ed.
  - destruct (lg_transaction log) as [h|];
      [destruct (dispatch decoded) as [handler|] eqn:E; [destruct (handler _ s b) as [[]|]|]|];
      intros [= <-]; split; rewrite ?El; simpl; eauto 10 using dispatch_none.
  - intros [= <-]. split; [done|]. split; [done|]. by rewrite Ed.
  - intros [= <-]. split; [done|]. split; [done|]. by rewrite Ed.
Qed.

(** The part of a block before one of its logs. *)
Definition cut (block : Block) (before : list Log) : Block :=
  {| bk_height := bk_height block; bk_hash := bk_hash block;
     bk_timestamp := bk_timestamp block; bk_logs := before |}.

Lemma write_logs_cut block before logs s :
  write_logs (cut block before) logs s = write_logs block logs s.
Proof. revert s. induction logs as [|log logs IH]; intros s; simpl; [done|]. by destruct (write_log _ _ _). Qed.

Lemma process_logs_cut block before logs s acc :
  process_logs (cut block before) logs s acc = process_logs block logs s acc.
Proof.
  revert acc. induction logs as [|log logs IH]; intros acc; simpl; [done|].
  change (process_log (cut block before) log s acc.1) with (process_log block log s acc.1).
  by destruct (process_log block log s acc.1) as [[]|].
Qed.

(** Logs that halt, on any reads, halt at one of them, after what the earlier ones
    do on reads that answer. *)
Lemma process_logs_halt (reads : StoreReads) block logs s acc i :
  IndexerBatch.process_logs ESCROW_ADDRESS ESCROW_ABI_FINGERPRINT parseLog (reads := reads)
    block logs s acc = Err i ->
  exists before log after acc', logs = before ++ log :: after /\
    process_logs block before s acc = Ok acc' /\
    IndexerBatch.process_log ESCROW_ADDRESS ESCROW_ABI_FINGERPRINT parseLog (reads := reads)
      block log s acc'.1 = Err i.
Proof.
  revert acc. induction logs as [|log logs IH]; intros acc; simpl; [done|].
  destruct (IndexerBatch.process_log _ _ _ block log s acc.1) as [[b p]|j] eqn:E.
  - intros H. destruct (IH _ H) as (before & log' & after & acc' & -> & H1 & H2).
    exists (log :: before), log', after, acc'. split_and!; [done| |done]. simpl.
    destruct (process_log_flaky reads ESCROW_ADDRESS ESCROW_ABI_FINGERPRINT parseLog block log s acc.1)
      as [Hf|(input & Hf & _)]; rewrite E in Hf; [|done]. by rewrite <- Hf.
  - intros [= ->]. by exists [], log, logs, acc.
Qed.

Lemma process_blocks_halt (reads : StoreReads) blocks s acc i :
  IndexerBatch.process_blocks ESCROW_ADDRESS ESCROW_ABI_FINGERPRINT parseLog (reads := reads)
    blocks s acc = Err i ->
  exists bs1 block bs2 before log after acc',
    blocks = bs1 ++ block :: bs2 /\ bk_logs block = before ++ log :: after /\
    process_blocks (bs1 ++ [cut block before]) s acc = Ok acc' /\
    IndexerBatch.process_log ESCROW_ADDRESS ESCROW_ABI_FINGERPRINT parseLog (reads := reads)
      block log s acc'.1 = Err i.
Proof.
  revert acc. induction blocks as [|block blocks IH]; intros acc; simpl; [done|].
  destruct (IndexerBatch.process_logs _ _ _ block _ s _) as [acc1|j] eqn:E.
  - intros H. destruct (IH _ H) as (bs1 & block' & bs2 & before & log & after & acc' & -> & H1 & H2 & H3).
    exists (block :: bs1), block', bs2, before, log, after, acc'. split_and!; [done..| |done]. simpl.
    by rewrite (process_logs_commits _ _ _ _ _ _ E).
  - intros [= ->]. apply process_logs_halt in E as (before & log & after & acc' & H1 & H2 & H3).
    exists [], block, blocks, before, log, after, acc'. split_and!; [done..| |done]. simpl.
    change (enter (cut block before) s acc.1) with (enter block s acc.1).
    by rewrite process_logs_cut, H2.
Qed.

(** What the log that stops a batch does to the tables before it: either it cannot
    be projected on them, or one of the reads rejected. *)
Lemma batch_stops (reads : StoreReads) blocks s i :
  IndexerBatch.process_blocks ESCROW_ADDRESS ESCROW_ABI_FINGERPRINT parseLog (reads := reads)
    blocks s (new_batch s, []) = Err i ->
  exists bs1 block bs2 before log after s',
    blocks = bs1 ++ block :: bs2 /\ bk_logs block = before ++ log :: after /\
    replay (bs1 ++ [cut block before]) s = Ok s' /\ stops_at block log i /\
    (write_log block log s' = Err i \/ interrupted reads i).
Proof.
  intros (bs1 & block & bs2 & before & log & after & [b p] & H1 & H2 & H3 & H4)%process_blocks_halt.
  exists bs1, block, bs2, before, log, after, (persistIndexerBatch s b). split_and!; [done..| | |].
  - rewrite <- replay_batch by by destruct bs1. unfold run_batch. by rewrite H3.
  - by eapply process_log_stops.
  - destruct (process_log_flaky reads ESCROW_ADDRESS ESCROW_ABI_FINGERPRINT parseLog block log s b)
      as [Hf|(input & Hf & Hi)]; simpl in *; rewrite H4 in Hf; [left|right; by injection Hf as ->].
    unfold IndexerView.write_log.
    pose proof (process_log_respects ESCROW_ADDRESS ESCROW_ABI_FINGERPRINT parseLog block log _ _ _ _
                  (fresh_view localeCompare relations s b)) as Hv.
    rewrite <- Hf in Hv. destruct (process_log block log (persistIndexerBatch s b) _) as [[]|j]; [done|].
    simpl in Hv. by subst.
Qed.

(** A log that cannot be projected stops every replay through it. *)
Lemma replay_stuck bs1 block bs2 before log after s s' i :
  bk_logs block = before ++ log :: after -> replay (bs1 ++ [cut block before]) s = Ok s' ->
  write_log block log s' = Err i -> replay (bs1 ++ block :: bs2) s = Err i.
Proof.
  intros Hl Hr Hw. rewrite replay_app in *. destruct (replay bs1 s) as [s1|]; [|done]. simpl in *.
  change (write_header (cut block before) s1) with (write_header block s1) in Hr.
  rewrite write_logs_cut in Hr. rewrite Hl.
  enough (write_logs block (before ++ log :: after) (write_header block s1) = Err i) as -> by done.
  revert Hr. generalize (write_header block s1). induction before as [|l before IH] in before |- *; intros s0; simpl.
  - intros Hr. injection Hr as ->. by rewrite Hw.
  - destruct (write_log block l s0) as [s2|]; [apply IH|done].
Qed.

(** ** Evidence *)

Lemma lookup_recordPoisonLog now entry q :
  exists row, recordPoisonLog now entry q !! entry_key entry = Some row /\
    qr_status row = UNRESOLVED /\ qr_lastSeenAt row = now /\ qr_resolvedAt row = None /\
    qe_reason (qr_entry row) = qe_reason entry /\
    qe_errorMessage (qr_entry row) = qe_errorMessage entry /\
    qr_occurrences row = match q !! entry_key entry with Some r => qr_occurrences r | None => 0 end + 1.
Proof.
  unfold recordPoisonLog. cbv zeta. eexists. split; [apply lookup_insert_eq|].
  by destruct (q !! entry_key entry).
Qed.

Lemma countUnresolved_pos (q : QuarantineTable) key row :
  q !! key = Some row -> qr_status row = UNRESOLVED -> 0 < countUnresolved q.
Proof.
  intros Hq Hr. unfold countUnresolved.
  assert (row ∈ filter (fun r => is_unresolved r = true) (map_to_list q).*2) as Hin.
  { apply list_elem_of_filter. split; [unfold is_unresolved; by rewrite bool_decide_true|].
    apply list_elem_of_fmap. exists (key, row). split; [done|]. by apply elem_of_map_to_list. }
  destruct (filter _ _); [by apply elem_of_nil in Hin|simpl; lia].
Qed.

(** How a batch ends that does not commit. *)
Lemma processBatch_fails faults now blocks s e error e' :
  processBatch faults now blocks s e = (Err error, e') ->
  match error with
  | StoreError m => rejects (f_reads faults) m
  | PersistenceError error =>
      (exists s', run_batch ESCROW_ADDRESS ESCROW_ABI_FINGERPRINT parseLog localeCompare relations
                    blocks s = Ok s') /\
      exists m, f_persist faults = Some (error, m)
  | PoisonLogHaltError entry =>
      exists i,
        IndexerBatch.process_blocks ESCROW_ADDRESS ESCROW_ABI_FINGERPRINT parseLog
          (reads := f_reads faults) blocks s (new_batch s, []) = Err i /\
        entry = buildQuarantinedLogEntry i /\ (entry, e') = reportPoisonLog faults now i e
  end.
Proof.
  unfold IndexerBatch.processBatch.
  destruct (overview_flaky (f_reads faults) localeCompare relations s) as [->|(m & -> & Hm)];
    [|by intros [= <- <-]].
  change (starting_batch (overview_of localeCompare relations s)) with (new_batch s).
  destruct (IndexerBatch.process_blocks _ _ _ blocks s _) as [[b p]|i] eqn:E.
  - apply process_blocks_commits in E. destruct (f_persist faults) as [[er m]|]; [|done].
    assert (exists s', run_batch ESCROW_ADDRESS ESCROW_ABI_FINGERPRINT parseLog localeCompare relations
              blocks s = Ok s') by (unfold run_batch; rewrite E; by eexists).
    destruct (negb _); intros [= <- <-]; eauto.
  - unfold haltOnPoisonLog. destruct (reportPoisonLog faults now i e) as [en ev] eqn:Er.
    intros [= <- <-]. exists i. split_and!; [done| |done]. by injection Er as <- _.
Qed.

End history.
