(* ===== verification/EscrowModel.v ===== *)
(** The escrow contract as the source of the events the indexer projects:
    [contracts/src/AgroasysEscrow.sol].

    Each external function is the change of the trades, disputes and governance
    proposals it makes and the events it emits, in order, under the checks on this
    state.  The checks on callers, signatures, the global pause, time windows,
    quorum and the launch schedule only restrict the calls further and are left
    out; where a branch depends on them it is a boolean argument.  Addresses and
    words are the texts their decoder prints; [keccak256] is a parameter. *)
From stdpp Require Import base list gmap strings.
From S2P Require Import Prelude JsText JsDate IndexerTypes.

Open Scope string_scope.
Open Scope Z_scope.

(** ** Storage *)

Record ChainTrade := {
  ct_tradeId : Z;
  ct_ricardianHash : string;
  ct_status : TradeStatus;
  ct_buyerAddress : string;
  ct_supplierAddress : string;
  ct_totalAmountLocked : Z;
  ct_logisticsAmount : Z;
  ct_platformFeesAmount : Z;
  ct_supplierFirstTranche : Z;
  ct_supplierSecondTranche : Z;
  ct_createdAt : Z;
  ct_arrivalTimestamp : Z
}.

(** A dispute proposal with its cancellation flag. *)
Record ChainDispute := {
  cd_tradeId : Z;
  cd_disputeStatus : DisputeStatus;
  cd_approvalCount : Z;
  cd_executed : bool;
  cd_cancelled : bool
}.

(** A governance proposal: approvals, executed, cancelled. *)
Record ChainProposal := {
  cp_approvalCount : Z;
  cp_executed : bool;
  cp_cancelled : bool
}.

(** [es_tradePaused]: the ids whose flag is set; [es_activeDispute]: the active
    proposal of the trades that have one.  Ids are allocated from the counters. *)
Record Escrow := {
  es_tradeCounter : Z;
  es_trades : gmap Z ChainTrade;
  es_tradePaused : gset Z;
  es_disputeCounter : Z;
  es_disputes : gmap Z ChainDispute;
  es_activeDispute : gmap Z Z;
  es_oracleUpdateCounter : Z;
  es_oracleUpdates : gmap Z ChainProposal;
  es_adminChangeCounter : Z;
  es_adminChanges : gmap Z ChainProposal
}.

Definition deployed : Escrow :=
  {| es_tradeCounter := 0; es_trades := ∅; es_tradePaused := ∅; es_disputeCounter := 0;
     es_disputes := ∅; es_activeDispute := ∅; es_oracleUpdateCounter := 0; es_oracleUpdates := ∅;
     es_adminChangeCounter := 0; es_adminChanges := ∅ |}.

Definition with_trades (f : gmap Z ChainTrade -> gmap Z ChainTrade) (e : Escrow) : Escrow :=
  {| es_tradeCounter := es_tradeCounter e; es_trades := f (es_trades e);
     es_tradePaused := es_tradePaused e; es_disputeCounter := es_disputeCounter e;
     es_disputes := es_disputes e; es_activeDispute := es_activeDispute e;
     es_oracleUpdateCounter := es_oracleUpdateCounter e; es_oracleUpdates := es_oracleUpdates e;
     es_adminChangeCounter := es_adminChangeCounter e; es_adminChanges := es_adminChanges e |}.

Definition with_paused (f : gset Z -> gset Z) (e : Escrow) : Escrow :=
  {| es_tradeCounter := es_tradeCounter e; es_trades := es_trades e;
     es_tradePaused := f (es_tradePaused e); es_disputeCounter := es_disputeCounter e;
     es_disputes := es_disputes e; es_activeDispute := es_activeDispute e;
     es_oracleUpdateCounter := es_oracleUpdateCounter e; es_oracleUpdates := es_oracleUpdates e;
     es_adminChangeCounter := es_adminChangeCounter e; es_adminChanges := es_adminChanges e |}.

Definition with_chain_disputes (counter : Z) (f : gmap Z ChainDispute -> gmap Z ChainDispute)
    (g : gmap Z Z -> gmap Z Z) (e : Escrow) : Escrow :=
  {| es_tradeCounter := es_tradeCounter e; es_trades := es_trades e;
     es_tradePaused := es_tradePaused e; es_disputeCounter := counter;
     es_disputes := f (es_disputes e); es_activeDispute := g (es_activeDispute e);
     es_oracleUpdateCounter := es_oracleUpdateCounter e; es_oracleUpdates := es_oracleUpdates e;
     es_adminChangeCounter := es_adminChangeCounter e; es_adminChanges := es_adminChanges e |}.

Definition with_oracle_updates (counter : Z) (f : gmap Z ChainProposal -> gmap Z ChainProposal)
    (e : Escrow) : Escrow :=
  {| es_tradeCounter := es_tradeCounter e; es_trades := es_trades e;
     es_tradePaused := es_tradePaused e; es_disputeCounter := es_disputeCounter e;
     es_disputes := es_disputes e; es_activeDispute := es_activeDispute e;
     es_oracleUpdateCounter := counter; es_oracleUpdates := f (es_oracleUpdates e);
     es_adminChangeCounter := es_adminChangeCounter e; es_adminChanges := es_adminChanges e |}.

Definition with_admin_changes (counter : Z) (f : gmap Z ChainProposal -> gmap Z ChainProposal)
    (e : Escrow) : Escrow :=
  {| es_tradeCounter := es_tradeCounter e; es_trades := es_trades e;
     es_tradePaused := es_tradePaused e; es_disputeCounter := es_disputeCounter e;
     es_disputes := es_disputes e; es_activeDispute := es_activeDispute e;
     es_oracleUpdateCounter := es_oracleUpdateCounter e; es_oracleUpdates := es_oracleUpdates e;
     es_adminChangeCounter := counter; es_adminChanges := f (es_adminChanges e) |}.

Definition set_ct_status (status : TradeStatus) (arrival : Z) (t : ChainTrade) : ChainTrade :=
  {| ct_tradeId := ct_tradeId t; ct_ricardianHash := ct_ricardianHash t; ct_status := status;
     ct_buyerAddress := ct_buyerAddress t; ct_supplierAddress := ct_supplierAddress t;
     ct_totalAmountLocked := ct_totalAmountLocked t; ct_logisticsAmount := ct_logisticsAmount t;
     ct_platformFeesAmount := ct_platformFeesAmount t;
     ct_supplierFirstTranche := ct_supplierFirstTranche t;
     ct_supplierSecondTranche := ct_supplierSecondTranche t; ct_createdAt := ct_createdAt t;
     ct_arrivalTimestamp := arrival |}.

(** ** Internal functions *)

Definition EMPTY_ADDRESS : string := "0x0000000000000000000000000000000000000000".
Definition EMPTY_WORD : string :=
  "0x0000000000000000000000000000000000000000000000000000000000000000".

Definition is_uint256 (z : Z) : bool := (0 <=? z) && (z <? 2 ^ 256).

(** The numbers of the enum [ClaimType]. *)
Definition claim_number (c : ClaimType) : Z :=
  match c with
  | STAGE1_SUPPLIER => 0 | STAGE1_LOGISTICS_FEE => 1 | STAGE1_PLATFORM_FEE => 2
  | STAGE2_SUPPLIER => 3 | LOCK_TIMEOUT_BUYER_REFUND => 4 | IN_TRANSIT_TIMEOUT_BUYER_REFUND => 5
  | DISPUTE_REFUND_BUYER => 6 | DISPUTE_RESOLVE_SUPPLIER => 7
  end.

Definition dispute_number (d : DisputeStatus) : Z := match d with REFUND => 0 | RESOLVE => 1 end.

Definition SETTLEMENT_SUPPORT_FEE : Z := 4000000.

(** [require] of a custom error. *)
Definition require (c : bool) (error : string) : result string unit :=
  if c then Ok tt else Err error.

Section escrow.
Context (keccak256 : string -> string).

(** [msg.sender] and [block.timestamp] *)
Record Message := { msg_sender : string; block_timestamp : Z }.

Definition accrueClaimable (id : Z) (recipient : string) (amount : Z) (c : ClaimType)
    : list EscrowEvent :=
  if amount =? 0 then [] else [ClaimableAccrued id recipient amount (claim_number c)].

Definition transferSupplierPayout (m : Message) (id : Z) (supplier : string) (amount : Z)
    (c : ClaimType) : list EscrowEvent :=
  if amount =? 0 then []
  else [SupplierPayoutTransferred id supplier amount (claim_number c) (msg_sender m)].

Definition transferBuyerRefund (m : Message) (id : Z) (buyer : string) (amount : Z)
    (c : ClaimType) : list EscrowEvent :=
  if amount =? 0 then []
  else [BuyerRefundTransferred id buyer amount (claim_number c) (msg_sender m)].

(** [platformFeeNetAmount] and [settlementSupportFeeAmount]. *)
Definition split_fee (fees : Z) : Z * Z :=
  let support := if fees <? SETTLEMENT_SUPPORT_FEE then fees else SETTLEMENT_SUPPORT_FEE in
  (fees - support, support).

(** A signed authorization: its nonce and deadline. *)
Record Authorization := { au_nonce : Z; au_deadline : Z }.

Definition consumeAuthorization (m : Message) (user action : string) (a : Authorization)
    : list EscrowEvent :=
  [AuthorizationConsumed user (keccak256 action) (au_nonce a) (msg_sender m) (au_deadline a)].

Definition relayed (m : Message) (user action : string) (id : Z) : list EscrowEvent :=
  [RelayedActionExecuted (msg_sender m) user (keccak256 action) id].

(** [_tradeId < tradeCounter], the trade not paused, and [trades[_tradeId]]. *)
Definition active_trade (e : Escrow) (id : Z) : result string ChainTrade :=
  _ ← require (bool_decide (id ∉ es_tradePaused e)) "EscrowTradePaused";
  match es_trades e !! id with Some t => Ok t | None => Err "EscrowTradeNotFound" end.

Definition require_status (t : ChainTrade) (status : TradeStatus) (error : string)
    : result string unit :=
  require (bool_decide (ct_status t = status)) error.

Definition move (id : Z) (t : ChainTrade) (status : TradeStatus) (arrival : Z) (e : Escrow) : Escrow :=
  with_trades <[id := set_ct_status status arrival t]> e.

(** ** Trades *)

Record TradeTerms := {
  tt_buyer : string;
  tt_supplier : string;
  tt_totalAmount : Z;
  tt_logisticsAmount : Z;
  tt_platformFeesAmount : Z;
  tt_supplierFirstTranche : Z;
  tt_supplierSecondTranche : Z;
  tt_ricardianHash : string
}.

Definition validateTradeAmounts (t : TradeTerms) : result string unit :=
  _ ← require (negb (String.eqb (tt_ricardianHash t) EMPTY_WORD)) "EscrowRicardianHashRequired";
  _ ← require (negb (String.eqb (tt_supplier t) EMPTY_ADDRESS)) "EscrowSupplierRequired";
  _ ← require (tt_totalAmount t =? tt_logisticsAmount t + tt_platformFeesAmount t +
                 tt_supplierFirstTranche t + tt_supplierSecondTranche t) "EscrowBreakdownMismatch";
  require ((0 <? tt_supplierFirstTranche t) && (0 <? tt_supplierSecondTranche t))
    "EscrowTranchesMustBeGreaterThan0".

(** The buyer is the recovered signer, which is never the zero address; the
    amounts are [uint256]s. *)
Definition createTradeWithAuthorization (m : Message) (t : TradeTerms) (a : Authorization)
    (usdcNonce : string) (e : Escrow) : result string (Escrow * list EscrowEvent) :=
  _ ← require (is_uint256 (tt_logisticsAmount t) && is_uint256 (tt_platformFeesAmount t))
        "abi";
  _ ← validateTradeAmounts t;
  _ ← require (negb (String.eqb (tt_buyer t) EMPTY_ADDRESS)) "EscrowBadAuthorization";
  let id := es_tradeCounter e in
  let trade :=
    {| ct_tradeId := id; ct_ricardianHash := tt_ricardianHash t; ct_status := LOCKED;
       ct_buyerAddress := tt_buyer t; ct_supplierAddress := tt_supplier t;
       ct_totalAmountLocked := tt_totalAmount t; ct_logisticsAmount := tt_logisticsAmount t;
       ct_platformFeesAmount := tt_platformFeesAmount t;
       ct_supplierFirstTranche := tt_supplierFirstTranche t;
       ct_supplierSecondTranche := tt_supplierSecondTranche t;
       ct_createdAt := block_timestamp m; ct_arrivalTimestamp := 0 |} in
  let e' := {| es_tradeCounter := id + 1; es_trades := <[id := trade]> (es_trades e);
    es_tradePaused := es_tradePaused e; es_disputeCounter := es_disputeCounter e;
    es_disputes := es_disputes e; es_activeDispute := es_activeDispute e;
    es_oracleUpdateCounter := es_oracleUpdateCounter e; es_oracleUpdates := es_oracleUpdates e;
    es_adminChangeCounter := es_adminChangeCounter e; es_adminChanges := es_adminChanges e |} in
  Ok (e',
      consumeAuthorization m (tt_buyer t) "CREATE_TRADE" a ++
      [TradeLocked id (tt_buyer t) (tt_supplier t) (tt_totalAmount t) (tt_logisticsAmount t)
         (tt_platformFeesAmount t) (tt_supplierFirstTranche t) (tt_supplierSecondTranche t)
         (tt_ricardianHash t);
       GaslessTradeFunded id (tt_buyer t) usdcNonce (tt_totalAmount t)] ++
      relayed m (tt_buyer t) "CREATE_TRADE" id)%list.

Definition releaseFundsStage1 (m : Message) (treasury : string) (id : Z) (e : Escrow)
    : result string (Escrow * list EscrowEvent) :=
  t ← active_trade e id;
  _ ← require_status t LOCKED "EscrowStatusMustBeLOCKED";
  let '(net, support) := split_fee (ct_platformFeesAmount t) in
  Ok (move id t IN_TRANSIT (ct_arrivalTimestamp t) e,
      transferSupplierPayout m id (ct_supplierAddress t) (ct_supplierFirstTranche t)
        STAGE1_SUPPLIER ++
      accrueClaimable id treasury (ct_logisticsAmount t) STAGE1_LOGISTICS_FEE ++
      accrueClaimable id treasury (ct_platformFeesAmount t) STAGE1_PLATFORM_FEE ++
      [FundsReleasedStage1 id (ct_supplierAddress t) (ct_supplierFirstTranche t) treasury
         (ct_logisticsAmount t);
       PlatformFeesPaidStage1 id treasury (ct_platformFeesAmount t) (Some net) (Some support)])%list.

Definition confirmInspectionAvailable (m : Message) (id window : Z) (e : Escrow)
    : result string (Escrow * list EscrowEvent) :=
  t ← active_trade e id;
  _ ← require_status t IN_TRANSIT "EscrowStatusMustBeINTRANSIT";
  Ok (move id t ARRIVAL_CONFIRMED (block_timestamp m) e,
      [InspectionAvailable id (block_timestamp m) window (block_timestamp m + window)]).

Definition openDisputeWithAuthorization (m : Message) (id : Z) (a : Authorization) (e : Escrow)
    : result string (Escrow * list EscrowEvent) :=
  t ← active_trade e id;
  _ ← require_status t ARRIVAL_CONFIRMED "EscrowMustBeARRIVALCONFIRMED";
  Ok (move id t FROZEN (ct_arrivalTimestamp t) e,
      consumeAuthorization m (ct_buyerAddress t) "OPEN_DISPUTE" a ++ [DisputeOpenedByBuyer id] ++
      relayed m (ct_buyerAddress t) "OPEN_DISPUTE" id)%list.

(** [_releaseFinalTranche]: the events of the release. *)
Definition releaseFinalTranche (m : Message) (id : Z) (t : ChainTrade) : list EscrowEvent :=
  (transferSupplierPayout m id (ct_supplierAddress t) (ct_supplierSecondTranche t) STAGE2_SUPPLIER ++
   [FinalTrancheReleased id (ct_supplierAddress t) (ct_supplierSecondTranche t)])%list.

Definition finalizeAfterDisputeWindow (m : Message) (id : Z) (e : Escrow)
    : result string (Escrow * list EscrowEvent) :=
  t ← active_trade e id;
  _ ← require_status t ARRIVAL_CONFIRMED "EscrowMustBeARRIVALCONFIRMED";
  Ok (move id t CLOSED (ct_arrivalTimestamp t) e, releaseFinalTranche m id t).

Definition finalizeAfterDisputeWindowWithAuthorization (m : Message) (id : Z) (a : Authorization)
    (e : Escrow) : result string (Escrow * list EscrowEvent) :=
  t ← active_trade e id;
  _ ← require_status t ARRIVAL_CONFIRMED "EscrowMustBeARRIVALCONFIRMED";
  Ok (move id t CLOSED (ct_arrivalTimestamp t) e,
      consumeAuthorization m (ct_supplierAddress t) "FINALIZE_AFTER_DISPUTE_WINDOW" a ++
      releaseFinalTranche m id t ++
      relayed m (ct_supplierAddress t) "FINALIZE_AFTER_DISPUTE_WINDOW" id)%list.

Definition finalizeAfterInspectionAcceptanceWithAuthorization (m : Message) (id : Z)
    (a : Authorization) (e : Escrow) : result string (Escrow * list EscrowEvent) :=
  t ← active_trade e id;
  _ ← require_status t ARRIVAL_CONFIRMED "EscrowMustBeARRIVALCONFIRMED";
  Ok (move id t CLOSED (ct_arrivalTimestamp t) e,
      consumeAuthorization m (ct_buyerAddress t) "FINALIZE_AFTER_INSPECTION_ACCEPTANCE" a ++
      releaseFinalTranche m id t ++
      [InspectionAcceptedForFinalRelease id (block_timestamp m)] ++
      relayed m (ct_buyerAddress t) "FINALIZE_AFTER_INSPECTION_ACCEPTANCE" id)%list.

Definition cancelLockedTradeAfterTimeoutWithAuthorization (m : Message) (id : Z)
    (a : Authorization) (e : Escrow) : result string (Escrow * list EscrowEvent) :=
  t ← active_trade e id;
  _ ← require_status t LOCKED "EscrowStatusMustBeLOCKED";
  Ok (move id t CLOSED (ct_arrivalTimestamp t) e,
      consumeAuthorization m (ct_buyerAddress t) "CANCEL_LOCKED_TIMEOUT" a ++
      transferBuyerRefund m id (ct_buyerAddress t) (ct_totalAmountLocked t)
        LOCK_TIMEOUT_BUYER_REFUND ++
      [TradeCancelledAfterLockTimeout id (ct_buyerAddress t) (ct_totalAmountLocked t)] ++
      relayed m (ct_buyerAddress t) "CANCEL_LOCKED_TIMEOUT" id)%list.

Definition refundInTransitAfterTimeoutWithAuthorization (m : Message) (id : Z)
    (a : Authorization) (e : Escrow) : result string (Escrow * list EscrowEvent) :=
  t ← active_trade e id;
  _ ← require_status t IN_TRANSIT "EscrowStatusMustBeINTRANSIT";
  Ok (move id t CLOSED (ct_arrivalTimestamp t) e,
      consumeAuthorization m (ct_buyerAddress t) "REFUND_IN_TRANSIT_TIMEOUT" a ++
      transferBuyerRefund m id (ct_buyerAddress t) (ct_supplierSecondTranche t)
        IN_TRANSIT_TIMEOUT_BUYER_REFUND ++
      [InTransitTimeoutRefunded id (ct_buyerAddress t) (ct_supplierSecondTranche t)] ++
      relayed m (ct_buyerAddress t) "REFUND_IN_TRANSIT_TIMEOUT" id)%list.

Definition pauseTrade (m : Message) (id : Z) (e : Escrow)
    : result string (Escrow * list EscrowEvent) :=
  _ ← require (bool_decide (is_Some (es_trades e !! id))) "EscrowTradeNotFound";
  _ ← require (bool_decide (id ∉ es_tradePaused e)) "EscrowTradeAlreadyPaused";
  Ok (with_paused (fun s => {[id]} ∪ s) e, [TradePaused id (msg_sender m)]).

(** ** Unpausing: the proposal and its quorum are inputs *)

Inductive PauseScope := GLOBAL | CLAIMS | TRADE.

Definition scope_number (s : PauseScope) : Z := match s with GLOBAL => 0 | CLAIMS => 1 | TRADE => 2 end.

(** [cancelled]: a stale proposal is cancelled first. *)
Definition proposeUnpause (m : Message) (cancelled : bool) (scope : PauseScope) (id : Z)
    (incidentRef : string) (epoch required : Z) (e : Escrow)
    : result string (Escrow * list EscrowEvent) :=
  Ok (e, (if cancelled then [UnpauseProposalCancelled (msg_sender m)] else []) ++
         [UnpauseProposed (msg_sender m) (scope_number scope) id incidentRef epoch;
          UnpauseApproved (msg_sender m) 1 required])%list.

(** [_validatePausedScope], then the approval, and [_executeUnpause] at quorum. *)
Definition approveUnpause (m : Message) (scope : PauseScope) (id approvals required : Z)
    (e : Escrow) : result string (Escrow * list EscrowEvent) :=
  _ ← match scope with
      | TRADE =>
          _ ← require (bool_decide (is_Some (es_trades e !! id))) "EscrowTradeNotFound";
          require (bool_decide (id ∈ es_tradePaused e)) "EscrowTradeNotPaused"
      | _ => Ok tt
      end;
  let approved := UnpauseApproved (msg_sender m) approvals required in
  if required <=? approvals then
    match scope with
    | GLOBAL => Ok (e, [approved; Unpaused (msg_sender m)])
    | CLAIMS => Ok (e, [approved; ClaimsUnpaused (msg_sender m)])
    | TRADE => Ok (with_paused (fun s => s ∖ {[id]}) e, [approved; TradeUnpaused id (msg_sender m)])
    end
  else Ok (e, [approved]).

(** ** Disputes *)

Definition set_dispute (n : Z) (executed cancelled : bool) (p : ChainDispute) : ChainDispute :=
  {| cd_tradeId := cd_tradeId p; cd_disputeStatus := cd_disputeStatus p; cd_approvalCount := n;
     cd_executed := executed; cd_cancelled := cancelled |}.

Definition cancel_dispute (id : Z) (e : Escrow) : Escrow :=
  with_chain_disputes (es_disputeCounter e)
    (alter (fun p => set_dispute (cd_approvalCount p) (cd_executed p) true p) id)
    (fun a => a) e.

(** [expired]: the active proposal has expired or belongs to an old epoch. *)
Definition proposeDisputeSolution (m : Message) (expired : bool) (id : Z) (status : DisputeStatus)
    (e : Escrow) : result string (Escrow * list EscrowEvent) :=
  t ← active_trade e id;
  _ ← require_status t FROZEN "EscrowTradeNotFrozen";
  '(e1, evs) ←
    match es_activeDispute e !! id with
    | Some active =>
        match es_disputes e !! active with
        | Some p =>
            if expired && negb (cd_cancelled p)
            then Ok (cancel_dispute active e,
                     [DisputeProposalExpiredCancelled active id (msg_sender m)])
            else Err "EscrowActiveProposalExists"
        | None => Err "EscrowActiveProposalExists"
        end
    | None => Ok (e, [])
    end;
  let proposalId := es_disputeCounter e1 in
  let proposal := {| cd_tradeId := id; cd_disputeStatus := status; cd_approvalCount := 1;
                     cd_executed := false; cd_cancelled := false |} in
  Ok (with_chain_disputes (proposalId + 1) <[proposalId := proposal]> <[id := proposalId]> e1,
      evs ++ [DisputeSolutionProposed proposalId id (dispute_number status) (msg_sender m)])%list.

(** [_executeDispute]: the payout and its events. *)
Definition executeDispute (m : Message) (proposalId : Z) (p : ChainDispute) (t : ChainTrade)
    (approvals : Z) (e : Escrow) : Escrow * list EscrowEvent :=
  let e' := with_chain_disputes (es_disputeCounter e)
              <[proposalId := set_dispute approvals true (cd_cancelled p) p]>
              (delete (cd_tradeId p)) e in
  let amount := ct_supplierSecondTranche t in
  let '(recipient, transfer) :=
    match cd_disputeStatus p with
    | REFUND => (ct_buyerAddress t,
        transferBuyerRefund m (cd_tradeId p) (ct_buyerAddress t) amount DISPUTE_REFUND_BUYER)
    | RESOLVE => (ct_supplierAddress t,
        transferSupplierPayout m (cd_tradeId p) (ct_supplierAddress t) amount
          DISPUTE_RESOLVE_SUPPLIER)
    end in
  (move (cd_tradeId p) t CLOSED (ct_arrivalTimestamp t) e',
   transfer ++
   [DisputePayout (cd_tradeId p) proposalId recipient amount (dispute_number (cd_disputeStatus p));
    DisputeFinalized proposalId (cd_tradeId p) (dispute_number (cd_disputeStatus p))])%list.

Definition approveDisputeSolution (m : Message) (required proposalId : Z) (e : Escrow)
    : result string (Escrow * list EscrowEvent) :=
  match es_disputes e !! proposalId with
  | None => Err "EscrowProposalNotFound"
  | Some p =>
      _ ← require (negb (cd_executed p)) "EscrowAlreadyExecuted";
      _ ← require (negb (cd_cancelled p)) "EscrowProposalCancelled";
      t ← active_trade e (cd_tradeId p);
      _ ← require_status t FROZEN "EscrowTradeNotFrozen";
      let approvals := cd_approvalCount p + 1 in
      let approved := DisputeApproved proposalId (msg_sender m) approvals required in
      if required <=? approvals then
        let '(e', evs) := executeDispute m proposalId p t approvals e in
        Ok (e', approved :: evs)
      else
        Ok (with_chain_disputes (es_disputeCounter e)
              <[proposalId := set_dispute approvals false (cd_cancelled p) p]> (fun a => a) e,
            [approved])
  end.

Definition cancelExpiredDisputeProposal (m : Message) (proposalId : Z) (e : Escrow)
    : result string (Escrow * list EscrowEvent) :=
  match es_disputes e !! proposalId with
  | None => Err "EscrowProposalNotFound"
  | Some p =>
      _ ← require (negb (cd_executed p)) "EscrowAlreadyExecuted";
      _ ← require (negb (cd_cancelled p)) "EscrowAlreadyCancelled";
      _ ← require (bool_decide (cd_tradeId p ∉ es_tradePaused e)) "EscrowTradePaused";
      let is_active := bool_decide (es_activeDispute e !! cd_tradeId p = Some proposalId) in
      Ok (with_chain_disputes (es_disputeCounter e)
            <[proposalId := set_dispute (cd_approvalCount p) (cd_executed p) true p]>
            (if is_active then delete (cd_tradeId p) else fun a => a) e,
          [DisputeProposalExpiredCancelled proposalId (cd_tradeId p) (msg_sender m)])
  end.

(** ** Governance proposals *)

Definition new_proposal : ChainProposal :=
  {| cp_approvalCount := 1; cp_executed := false; cp_cancelled := false |}.

(** A proposal that can still be acted on. *)
Definition open_proposal (proposals : gmap Z ChainProposal) (id : Z) : result string ChainProposal :=
  match proposals !! id with
  | None => Err "EscrowProposalNotFound"
  | Some p =>
      _ ← require (negb (cp_executed p)) "EscrowAlreadyExecuted";
      _ ← require (negb (cp_cancelled p)) "EscrowProposalCancelled";
      Ok p
  end.

Definition approved_once (p : ChainProposal) : ChainProposal :=
  {| cp_approvalCount := cp_approvalCount p + 1; cp_executed := cp_executed p;
     cp_cancelled := cp_cancelled p |}.

Definition executed (p : ChainProposal) : ChainProposal :=
  {| cp_approvalCount := cp_approvalCount p; cp_executed := true; cp_cancelled := cp_cancelled p |}.

Definition cancelled (p : ChainProposal) : ChainProposal :=
  {| cp_approvalCount := cp_approvalCount p; cp_executed := cp_executed p; cp_cancelled := true |}.

Definition proposeOracleUpdate (m : Message) (newOracle : string) (eta required : Z)
    (emergencyFastTrack : bool) (e : Escrow) : result string (Escrow * list EscrowEvent) :=
  let id := es_oracleUpdateCounter e in
  Ok (with_oracle_updates (id + 1) <[id := new_proposal]> e,
      [OracleUpdateProposed id (msg_sender m) newOracle eta emergencyFastTrack;
       OracleUpdateApproved id (msg_sender m) 1 required]).

Definition approveOracleUpdate (m : Message) (id required : Z) (e : Escrow)
    : result string (Escrow * list EscrowEvent) :=
  p ← open_proposal (es_oracleUpdates e) id;
  Ok (with_oracle_updates (es_oracleUpdateCounter e) <[id := approved_once p]> e,
      [OracleUpdateApproved id (msg_sender m) (cp_approvalCount p + 1) required]).

Definition executeOracleUpdate (id : Z) (oldOracle newOracle : string) (epoch : Z) (e : Escrow)
    : result string (Escrow * list EscrowEvent) :=
  p ← open_proposal (es_oracleUpdates e) id;
  Ok (with_oracle_updates (es_oracleUpdateCounter e) <[id := executed p]> e,
      [GovernanceEpochAdvanced epoch; OracleUpdated oldOracle newOracle]).

Definition cancelExpiredOracleUpdateProposal (m : Message) (id : Z) (e : Escrow)
    : result string (Escrow * list EscrowEvent) :=
  p ← open_proposal (es_oracleUpdates e) id;
  Ok (with_oracle_updates (es_oracleUpdateCounter e) <[id := cancelled p]> e,
      [OracleUpdateProposalExpiredCancelled id (msg_sender m)]).

Definition proposeAdminChange (m : Message) (kind : Z) (currentAdmin newAdmin : string)
    (newThreshold eta epoch required : Z) (e : Escrow)
    : result string (Escrow * list EscrowEvent) :=
  let id := es_adminChangeCounter e in
  Ok (with_admin_changes (id + 1) <[id := new_proposal]> e,
      [AdminChangeProposed id (msg_sender m) kind currentAdmin newAdmin newThreshold eta epoch;
       AdminChangeApproved id (msg_sender m) 1 required]).

Definition approveAdminChange (m : Message) (id required : Z) (e : Escrow)
    : result string (Escrow * list EscrowEvent) :=
  p ← open_proposal (es_adminChanges e) id;
  Ok (with_admin_changes (es_adminChangeCounter e) <[id := approved_once p]> e,
      [AdminChangeApproved id (msg_sender m) (cp_approvalCount p + 1) required]).

(** The event of the change itself, by its kind. *)
Inductive AdminChangeEffect :=
| effect_add | effect_remove | effect_replace | effect_threshold (old : Z)
| effect_relayer (allowed : bool).

Definition executeAdminChange (m : Message) (id kind : Z) (effect : AdminChangeEffect)
    (currentAdmin newAdmin : string) (newThreshold epoch : Z) (e : Escrow)
    : result string (Escrow * list EscrowEvent) :=
  p ← open_proposal (es_adminChanges e) id;
  let change :=
    match effect with
    | effect_add => AdminAdded newAdmin
    | effect_remove => AdminRemoved currentAdmin
    | effect_replace => AdminReplaced currentAdmin newAdmin
    | effect_threshold old => RequiredApprovalsUpdated old newThreshold
    | effect_relayer allowed =>
        RelayerUpdated (if allowed then newAdmin else currentAdmin) allowed (msg_sender m)
    end in
  Ok (with_admin_changes (es_adminChangeCounter e) <[id := executed p]> e,
      [change; AdminChangeExecuted id kind currentAdmin newAdmin newThreshold;
       GovernanceEpochAdvanced epoch]).

Definition cancelAdminChangeProposal (m : Message) (id : Z) (e : Escrow)
    : result string (Escrow * list EscrowEvent) :=
  p ← open_proposal (es_adminChanges e) id;
  Ok (with_admin_changes (es_adminChangeCounter e) <[id := cancelled p]> e,
      [AdminChangeProposalCancelled id (msg_sender m)]).

(** ** Calls that keep this state: pausing, treasury claims and payout receivers *)

Inductive plain_call (m : Message) : list EscrowEvent -> Prop :=
| call_constructor relayer : plain_call m [RelayerUpdated relayer true (msg_sender m)]
| call_pause : plain_call m [Paused (msg_sender m)]
| call_pauseClaims : plain_call m [ClaimsPaused (msg_sender m)]
| call_cancelUnpause : plain_call m [UnpauseProposalCancelled (msg_sender m)]
| call_disableOracle (was_paused : bool) oracle :
    plain_call m ((if was_paused then [] else [Paused (msg_sender m)]) ++
                  [OracleDisabledEmergency (msg_sender m) oracle])%list
| call_claimTreasury treasury receiver amount :
    plain_call m [TreasuryClaimed treasury receiver amount (msg_sender m)]
| call_proposeReceiver id receiver eta required :
    plain_call m [TreasuryPayoutAddressUpdateProposed id (msg_sender m) receiver eta;
                  TreasuryPayoutAddressUpdateApproved id (msg_sender m) 1 required]
| call_approveReceiver id approvals required :
    plain_call m [TreasuryPayoutAddressUpdateApproved id (msg_sender m) approvals required]
| call_executeReceiver epoch old new :
    plain_call m [GovernanceEpochAdvanced epoch; TreasuryPayoutAddressUpdated old new]
| call_cancelReceiver id :
    plain_call m [TreasuryPayoutAddressUpdateProposalExpiredCancelled id (msg_sender m)].

(** ** Runs of the contract *)

(** Block times are seconds that a [Date] can hold. *)
Definition block_time_ok (m : Message) : Prop :=
  0 < block_timestamp m <= MAX_TIME_VALUE / 1000.

Inductive escrow_tx (m : Message) (e : Escrow) : result string (Escrow * list EscrowEvent) -> Prop :=
| tx_create t a n : escrow_tx m e (createTradeWithAuthorization m t a n e)
| tx_release treasury id : escrow_tx m e (releaseFundsStage1 m treasury id e)
| tx_inspection id window : escrow_tx m e (confirmInspectionAvailable m id window e)
| tx_dispute id a : escrow_tx m e (openDisputeWithAuthorization m id a e)
| tx_finalize id : escrow_tx m e (finalizeAfterDisputeWindow m id e)
| tx_finalize_signed id a : escrow_tx m e (finalizeAfterDisputeWindowWithAuthorization m id a e)
| tx_accept id a : escrow_tx m e (finalizeAfterInspectionAcceptanceWithAuthorization m id a e)
| tx_cancel id a : escrow_tx m e (cancelLockedTradeAfterTimeoutWithAuthorization m id a e)
| tx_refund id a : escrow_tx m e (refundInTransitAfterTimeoutWithAuthorization m id a e)
| tx_pause_trade id : escrow_tx m e (pauseTrade m id e)
| tx_propose_unpause b scope id r ep req : escrow_tx m e (proposeUnpause m b scope id r ep req e)
| tx_approve_unpause scope id n req : escrow_tx m e (approveUnpause m scope id n req e)
| tx_propose_dispute b id status : escrow_tx m e (proposeDisputeSolution m b id status e)
| tx_approve_dispute req id : escrow_tx m e (approveDisputeSolution m req id e)
| tx_cancel_dispute id : escrow_tx m e (cancelExpiredDisputeProposal m id e)
| tx_propose_oracle o eta req f : escrow_tx m e (proposeOracleUpdate m o eta req f e)
| tx_approve_oracle id req : escrow_tx m e (approveOracleUpdate m id req e)
| tx_execute_oracle id old new ep : escrow_tx m e (executeOracleUpdate id old new ep e)
| tx_cancel_oracle id : escrow_tx m e (cancelExpiredOracleUpdateProposal m id e)
| tx_propose_admin k c n th eta ep req : escrow_tx m e (proposeAdminChange m k c n th eta ep req e)
| tx_approve_admin id req : escrow_tx m e (approveAdminChange m id req e)
| tx_execute_admin id k f c n th ep : escrow_tx m e (executeAdminChange m id k f c n th ep e)
| tx_cancel_admin id : escrow_tx m e (cancelAdminChangeProposal m id e)
| tx_plain evs : plain_call m evs -> escrow_tx m e (Ok (e, evs)).

(** A run from deployment, with the events emitted so far. *)
Inductive escrow_run : Escrow -> list EscrowEvent -> Prop :=
| run_deployed : escrow_run deployed []
| run_tx m e evs e' evs' :
    escrow_run e evs -> block_time_ok m -> escrow_tx m e (Ok (e', evs')) ->
    escrow_run e' (evs ++ evs')%list.

End escrow.
