(* ===== verification/IndexerSpec.v ===== *)
(** What an event means for the projection: the trades, proposals and counters
    after it, as a function of those before.  [write_event_spec] shows that the
    handlers, run over the tables, do exactly this. *)
From stdpp Require Import base list gmap strings.
From S2P Require Import Prelude JsText JsDate IndexerTypes IndexerHandlers.
From S2P Require Import IndexerBatch IndexerView.

Open Scope string_scope.
Open Scope Z_scope.

Record Projection := {
  p_trades : gmap string Trade;
  p_disputes : gmap string DisputeProposal;
  p_oracle : gmap string OracleUpdateProposal;
  p_admin : gmap string AdminChangeProposal;
  p_counters : OverviewCounters
}.

Definition projection (s : Store) (o : OverviewSnapshot) : Projection :=
  {| p_trades := st_trades s; p_disputes := st_disputeProposals s;
     p_oracle := st_oracleUpdateProposals s; p_admin := st_adminChangeProposals s;
     p_counters := ov_counters o |}.

Definition set_trades (f : gmap string Trade -> gmap string Trade) (c : OverviewCounters)
    (p : Projection) : Projection :=
  {| p_trades := f (p_trades p); p_disputes := p_disputes p; p_oracle := p_oracle p;
     p_admin := p_admin p; p_counters := c |}.
Definition set_disputes f (p : Projection) : Projection :=
  {| p_trades := p_trades p; p_disputes := f (p_disputes p); p_oracle := p_oracle p;
     p_admin := p_admin p; p_counters := p_counters p |}.
Definition set_oracle f (p : Projection) : Projection :=
  {| p_trades := p_trades p; p_disputes := p_disputes p; p_oracle := f (p_oracle p);
     p_admin := p_admin p; p_counters := p_counters p |}.
Definition set_admin f (p : Projection) : Projection :=
  {| p_trades := p_trades p; p_disputes := p_disputes p; p_oracle := p_oracle p;
     p_admin := f (p_admin p); p_counters := p_counters p |}.

(** ** The specification *)

(** The event belongs to a known trade and changes nothing. *)
Definition of_trade (id : Z) (p : Projection) : option Projection :=
  _ ← p_trades p !! print_Z id; Some p.

Definition ok_or_none {A} (r : result string A) : option A :=
  match r with Ok a => Some a | Err _ => None end.

(** The trade changes by [g], the counters by [f] of its old status. *)
Definition change_trade (id : Z) (f : TradeStatus -> OverviewCounters -> result string OverviewCounters)
    (g : Trade -> Trade) (p : Projection) : option Projection :=
  t ← p_trades p !! print_Z id;
  c ← ok_or_none (f (tr_status t) (p_counters p));
  Some (set_trades <[print_Z id := g t]> c p).

Definition to_status (status : TradeStatus) (old : TradeStatus) :=
  applyTradeTransition old status.

(** A known proposal changes by [g]. *)
Definition change_dispute (id : Z) (g : DisputeProposal -> DisputeProposal) (p : Projection)
    : option Projection :=
  _ ← p_disputes p !! print_Z id; Some (set_disputes (alter g (print_Z id)) p).
Definition change_oracle (id : Z) (g : OracleUpdateProposal -> OracleUpdateProposal) (p : Projection)
    : option Projection :=
  _ ← p_oracle p !! print_Z id; Some (set_oracle (alter g (print_Z id)) p).
Definition change_admin (id : Z) (g : AdminChangeProposal -> AdminChangeProposal) (p : Projection)
    : option Projection :=
  _ ← p_admin p !! print_Z id; Some (set_admin (alter g (print_Z id)) p).

(** The rows an event creates. *)
Definition locked_trade (tradeId : Z) (buyer supplier : string)
    (total logistics fees first second : Z) (hash : string) (ts : js_date) : Trade :=
  {| tr_id := print_Z tradeId; tr_tradeId := print_Z tradeId; tr_buyer := toLowerCase buyer;
     tr_supplier := toLowerCase supplier; tr_status := LOCKED; tr_totalAmountLocked := total;
     tr_logisticsAmount := logistics; tr_platformFeesAmount := fees;
     tr_platformFeeNetAmount := (splitPlatformFeeComponents fees).1;
     tr_settlementSupportFeeAmount := (splitPlatformFeeComponents fees).2;
     tr_supplierFirstTranche := first; tr_supplierSecondTranche := second;
     tr_ricardianHash := hash; tr_createdAt := ts; tr_arrivalTimestamp := None; tr_paused := false |}.

Definition new_dispute (proposalId : Z) (trade : string) (status : DisputeStatus) (proposer : string)
    (ts : js_date) : DisputeProposal :=
  {| dp_id := print_Z proposalId; dp_proposalId := print_Z proposalId; dp_trade := Some trade;
     dp_disputeStatus := status; dp_approvalCount := 1; dp_executed := false; dp_createdAt := ts;
     dp_proposer := toLowerCase proposer; dp_expiresAt := expires_at ts; dp_cancelled := false |}.

Definition new_oracle_update (proposalId : Z) (proposer newOracle : string) (eta : Z)
    (fastTrack : bool) (ts : js_date) : OracleUpdateProposal :=
  {| op_id := print_Z proposalId; op_proposalId := print_Z proposalId;
     op_newOracle := toLowerCase newOracle; op_approvalCount := 1; op_executed := false;
     op_createdAt := ts; op_eta := eta; op_proposer := toLowerCase proposer;
     op_emergencyFastTrack := fastTrack; op_expiresAt := expires_at ts; op_cancelled := false |}.

Definition new_admin_change (proposalId : Z) (proposer : string) (kind : Z)
    (currentAdmin newAdmin : string) (newThreshold eta epoch : Z) (ts : js_date)
    : AdminChangeProposal :=
  {| ap_id := print_Z proposalId; ap_proposalId := print_Z proposalId; ap_kind := js_number kind;
     ap_currentAdmin := toLowerCase currentAdmin; ap_newAdmin := toLowerCase newAdmin;
     ap_newThreshold := newThreshold; ap_approvalCount := 1; ap_executed := false;
     ap_createdAt := ts; ap_eta := eta; ap_proposer := toLowerCase proposer; ap_epoch := epoch;
     ap_expiresAt := expires_at ts; ap_cancelled := false |}.

(** [None]: the indexer cannot project the event. *)
Definition apply_event (e : EscrowEvent) (ts : js_date) (p : Projection) : option Projection :=
  match e with
  | TradeLocked id b s ta la pf s1 s2 h =>
      Some (set_trades <[print_Z id := locked_trade id b s ta la pf s1 s2 h ts]>
              (applyTradeCreated LOCKED (p_counters p)) p)
  | FundsReleasedStage1 id _ _ _ _ => change_trade id (to_status IN_TRANSIT) (set_status IN_TRANSIT) p
  | InspectionAvailable id available _ _ =>
      change_trade id (to_status ARRIVAL_CONFIRMED)
        (fun t => set_arrival (new_date (js_number (js_number available * 1000)))
                    (set_status ARRIVAL_CONFIRMED t)) p
  | FinalTrancheReleased id _ _ => change_trade id (to_status CLOSED) (set_status CLOSED) p
  | DisputeOpenedByBuyer id => change_trade id (to_status FROZEN) (set_status FROZEN) p
  | TradeCancelledAfterLockTimeout id _ _ | InTransitTimeoutRefunded id _ _ =>
      change_trade id applyTradeCancelled (set_status CLOSED) p
  | DisputePayout id _ _ _ payout =>
      change_trade id (match dispute_status_of payout with
                       | REFUND => applyTradeCancelled | RESOLVE => to_status CLOSED end)
        (set_status CLOSED) p
  | TradePaused id _ => change_trade id (fun _ => Ok) (set_trade_paused true) p
  | TradeUnpaused id _ => change_trade id (fun _ => Ok) (set_trade_paused false) p
  | PlatformFeesPaidStage1 id _ _ _ _ | InspectionAcceptedForFinalRelease id _
  | RelayedActionExecuted _ _ _ id | GaslessTradeFunded id _ _ _
  | SupplierPayoutTransferred id _ _ _ _ | BuyerRefundTransferred id _ _ _ _
  | ClaimableAccrued id _ _ _ => of_trade id p
  | DisputeSolutionProposed pid id status by_ =>
      t ← p_trades p !! print_Z id;
      Some (set_disputes
              <[print_Z pid := new_dispute pid (tr_id t) (dispute_status_of status) by_ ts]> p)
  | DisputeApproved pid _ n _ => change_dispute pid (set_dispute_approvals (js_number n)) p
  | DisputeFinalized pid _ _ => change_dispute pid set_dispute_executed p
  | DisputeProposalExpiredCancelled pid _ _ => change_dispute pid set_dispute_cancelled p
  | OracleUpdateProposed pid by_ o eta f =>
      Some (set_oracle <[print_Z pid := new_oracle_update pid by_ o eta f ts]> p)
  | OracleUpdateApproved pid _ n _ => change_oracle pid (set_oracle_approvals (js_number n)) p
  | OracleUpdateProposalExpiredCancelled pid _ => change_oracle pid set_oracle_cancelled p
  | AdminChangeProposed pid by_ k c n th eta ep =>
      Some (set_admin <[print_Z pid := new_admin_change pid by_ k c n th eta ep ts]> p)
  | AdminChangeApproved pid _ n _ => change_admin pid (set_admin_approvals (js_number n)) p
  | AdminChangeExecuted pid _ _ _ _ => change_admin pid markGovernanceProposalExecuted p
  | AdminChangeProposalCancelled pid _ => change_admin pid set_admin_cancelled p
  | OtherEvent _ => None
  | _ => Some p
  end.

(** ** The handlers implement it *)

Section spec.
Context (localeCompare : string -> string -> Z) (relations : bool).

#[local] Notation new_batch := (new_batch localeCompare relations).

(** The tables after one handler and its write. *)
Definition write_handler (h : Handler unit) (s : Store) : result string Store :=
  match h s (new_batch s) with
  | Ok (_, b) => Ok (persistIndexerBatch s b)
  | Err e => Err e
  end.

(** What a handler leaves is the specified projection, or it throws. *)
Definition matches (r : result string Store) (spec : option Projection) : Prop :=
  match r, spec with
  | Ok s', Some p => exists o, st_overview s' = Some o /\ projection s' o = p
  | Err _, None => True
  | _, _ => False
  end.

Lemma upsert_disputes_empty t : upsert_disputes ∅ t = t.
Proof. apply map_eq. intros j. by rewrite lookup_upsert_disputes, lookup_empty. Qed.

Lemma new_batch_overview s o : st_overview s = Some o ->
  overview_of localeCompare relations s = o.
Proof. intros Ho. unfold overview_of. by rewrite Ho. Qed.

Lemma union_one {A} k (a : A) (t : gmap string A) : <[k := a]> ∅ ∪ t = <[k := a]> t.
Proof. by rewrite <- insert_union_l, map_empty_union. Qed.

Lemma union_loaded {A} k (a : A) (t : gmap string A) :
  t !! k = Some a -> <[k := a]> ∅ ∪ t = t.
Proof. intros H. rewrite union_one. by apply insert_id. Qed.

Lemma union_changed {A} (f : A -> A) k (a : A) (t : gmap string A) :
  t !! k = Some a -> alter f k (<[k := a]> ∅) ∪ t = alter f k t.
Proof.
  intros H. rewrite alter_union_cached by (rewrite lookup_insert_eq; eauto). by rewrite union_loaded.
Qed.

Lemma disputes_changed f k p t : keeps_trade f -> t !! k = Some p ->
  upsert_disputes (alter f k (<[k := fetched p]> ∅)) t = alter f k t.
Proof.
  intros Hf H. rewrite alter_disputes_cached by (rewrite ?lookup_insert_eq; eauto).
  by rewrite insert_disputes_loaded, upsert_disputes_empty.
Qed.

Lemma dispute_created k p t : is_Some (dp_trade p) -> upsert_disputes (<[k := p]> ∅) t = <[k := p]> t.
Proof. intros H. by rewrite upsert_disputes_insert, upsert_disputes_empty. Qed.

(** ** One lemma per shape of handler *)

Context (s : Store) (o : OverviewSnapshot) (Ho : st_overview s = Some o).

#[local] Notation now := (projection s o).

Ltac start :=
  unfold write_handler, update_counters, touch_overview, push, gets, modify, lift, mbind,
    Handler_bind, getOrLoadTrade, loadDisputeProposal, loadOracleProposal, loadAdminProposal,
    change_trade, of_trade, change_dispute, change_oracle, change_admin, mbind, option_bind;
  simpl; rewrite ?lookup_empty, ?(new_batch_overview _ _ Ho).

Ltac same_projection :=
  eexists; split; [reflexivity|]; unfold projection, set_trades, set_disputes, set_oracle, set_admin;
  simpl; rewrite ?(new_batch_overview _ _ Ho); f_equal;
  rewrite ?upsert_disputes_empty, ?map_empty_union; try done.

Lemma push_spec t lc name parent columns :
  matches (write_handler (push t lc name parent columns) s) (Some now).
Proof. start. same_projection. Qed.

Lemma of_trade_spec id lc ts name columns :
  matches (write_handler (trade ← getOrLoadTrade (print_Z id); touch_overview ts;;
             push TradeEvents lc name (Some (tr_id trade)) columns) s) (of_trade id now).
Proof.
  start. destruct (st_trades s !! print_Z id) as [t|] eqn:Et; [|done]. same_projection.
  by apply union_loaded.
Qed.

Lemma change_trade_spec id f g lc ts name columns :
  matches (write_handler (trade ← getOrLoadTrade (print_Z id);
             update_counters (f (tr_status trade)) ts;;
             modify (put_trade (print_Z id) (g trade));;
             push TradeEvents lc name (Some (tr_id trade)) columns) s) (change_trade id f g now).
Proof.
  start. destruct (st_trades s !! print_Z id) as [t|] eqn:Et; [|done]. simpl.
  rewrite ?(new_batch_overview _ _ Ho). unfold snapshotCounters.
  destruct (f (tr_status t) (ov_counters o)); [|done]. same_projection.
  by rewrite insert_insert_eq, union_one.
Qed.

Lemma pause_trade_spec id v lc ts name columns :
  matches (write_handler (trade ← getOrLoadTrade (print_Z id);
             modify (put_trade (print_Z id) (set_trade_paused v trade));; touch_overview ts;;
             push TradeEvents lc name (Some (tr_id trade)) columns) s)
    (change_trade id (fun _ => Ok) (set_trade_paused v) now).
Proof.
  start. destruct (st_trades s !! print_Z id) as [t|] eqn:Et; [|done]. same_projection.
  by rewrite insert_insert_eq, union_one.
Qed.

Lemma change_dispute_spec id f error lc name columns : keeps_trade f ->
  matches (write_handler (loadDisputeProposal (print_Z id) error;;
             modify (with_disputes (alter f (print_Z id)));;
             push DisputeEvents lc name (Some (print_Z id)) columns) s) (change_dispute id f now).
Proof.
  intros Hf. start. destruct (st_disputeProposals s !! print_Z id) as [p|] eqn:Ep; [|done].
  same_projection. by apply disputes_changed.
Qed.

Lemma change_oracle_spec id f error lc name columns :
  matches (write_handler (loadOracleProposal (print_Z id) error;;
             modify (with_oracle_proposals (alter f (print_Z id)));;
             push OracleEvents lc name (Some (print_Z id)) columns) s) (change_oracle id f now).
Proof.
  start. destruct (st_oracleUpdateProposals s !! print_Z id) as [p|] eqn:Ep; [|done].
  same_projection. by apply union_changed.
Qed.

Lemma change_admin_spec id f error lc name columns :
  matches (write_handler (loadAdminProposal (print_Z id) error;;
             modify (with_admin_proposals (alter f (print_Z id)));;
             push AdminEvents lc name (Some (print_Z id)) columns) s) (change_admin id f now).
Proof.
  start. destruct (st_adminChangeProposals s !! print_Z id) as [p|] eqn:Ep; [|done].
  same_projection. by apply union_changed.
Qed.

Lemma lock_spec id b sup ta la pf s1 s2 h lc :
  matches (write_handler (handleTradeLocked id b sup ta la pf s1 s2 h lc) s)
    (apply_event (TradeLocked id b sup ta la pf s1 s2 h) (lc_timestamp lc) now).
Proof.
  unfold handleTradeLocked, splitPlatformFeeComponents. start.
  rewrite ?(new_batch_overview _ _ Ho). same_projection. by rewrite union_one.
Qed.

Lemma propose_dispute_spec pid id status by_ lc :
  matches (write_handler (handleDisputeSolutionProposed pid id status by_ lc) s)
    (apply_event (DisputeSolutionProposed pid id status by_) (lc_timestamp lc) now).
Proof.
  unfold handleDisputeSolutionProposed. start.
  destruct (st_trades s !! print_Z id) as [t|] eqn:Et; [|done]. same_projection.
  - by apply union_loaded.
  - by apply dispute_created; eexists.
Qed.

Lemma propose_oracle_spec pid by_ no eta f lc :
  matches (write_handler (handleOracleUpdateProposed pid by_ no eta f lc) s)
    (apply_event (OracleUpdateProposed pid by_ no eta f) (lc_timestamp lc) now).
Proof. unfold handleOracleUpdateProposed. start. same_projection. by rewrite union_one. Qed.

Lemma propose_admin_spec pid by_ k c n th eta ep lc :
  matches (write_handler (handleAdminChangeProposed pid by_ k c n th eta ep lc) s)
    (apply_event (AdminChangeProposed pid by_ k c n th eta ep) (lc_timestamp lc) now).
Proof. unfold handleAdminChangeProposed. start. same_projection. by rewrite union_one. Qed.

Lemma payout_spec id pid r a d lc :
  matches (write_handler (handleDisputePayout id pid r a d lc) s)
    (apply_event (DisputePayout id pid r a d) (lc_timestamp lc) now).
Proof.
  unfold handleDisputePayout. unfold apply_event.
  destruct (dispute_status_of d); [apply (change_trade_spec id applyTradeCancelled)
                                  |apply (change_trade_spec id (to_status CLOSED))].
Qed.

(** The lemma for the shape of the specification. *)
Ltac by_shape :=
  lazymatch goal with
  | |- matches _ (Some (projection _ _)) => apply push_spec
  | |- matches _ (of_trade _ _) => apply of_trade_spec
  | |- matches _ (change_trade _ _ (set_trade_paused _) _) => apply pause_trade_spec
  | |- matches _ (change_trade ?id (match _ with REFUND => _ | RESOLVE => _ end) _ _) =>
      apply payout_spec
  | |- matches _ (change_trade ?id ?f ?g _) => apply (change_trade_spec id f g)
  | |- matches _ (change_dispute _ _ _) => apply change_dispute_spec; by split
  | |- matches _ (change_oracle _ _ _) => apply change_oracle_spec
  | |- matches _ (change_admin _ _ _) => apply change_admin_spec
  | |- matches (write_handler (handleTradeLocked _ _ _ _ _ _ _ _ _ _) _) _ => apply lock_spec
  | |- matches (write_handler (handleDisputeSolutionProposed _ _ _ _ _) _) _ =>
      apply propose_dispute_spec
  | |- matches (write_handler (handleOracleUpdateProposed _ _ _ _ _ _) _) _ =>
      apply propose_oracle_spec
  | |- matches (write_handler (handleAdminChangeProposed _ _ _ _ _ _ _ _ _) _) _ =>
      apply propose_admin_spec
  end.

Lemma write_event_spec e handler lc : dispatch e = Some handler ->
  matches (write_handler (handler lc) s) (apply_event e (lc_timestamp lc) now).
Proof. destruct e; intros [= <-]; cbn [apply_event]; by_shape. Qed.

End spec.
