(* ===== verification/IndexerTracks.v ===== *)
(** The projection follows the contract: for every run of [EscrowModel] the
    specification of [IndexerSpec] applies to each event, and the rows and
    counters it leaves are those of the contract's state ([run_tracked]). *)
From stdpp Require Import base list gmap strings.
From S2P Require Import Prelude JsText JsDate IndexerTypes IndexerHandlers.
From S2P Require Import IndexerBatch IndexerView IndexerSpec EscrowModel.

Open Scope string_scope.
Open Scope Z_scope.

(** ** Counting trades by status *)

Definition in_status (status : TradeStatus) (t : Trade) : Z :=
  if decide (tr_status t = status) then 1 else 0.

Definition count_status (status : TradeStatus) (m : gmap string Trade) : Z :=
  map_fold (fun _ t n => in_status status t + n) 0 m.

Lemma count_status_fresh status m k t : m !! k = None ->
  count_status status (<[k := t]> m) = in_status status t + count_status status m.
Proof. intros H. unfold count_status. apply (map_fold_insert_L (fun _ t n => in_status status t + n)); [intros; lia|done]. Qed.

Lemma count_status_update status m k t t' : m !! k = Some t ->
  count_status status (<[k := t']> m) =
  count_status status m - in_status status t + in_status status t'.
Proof.
  intros H. rewrite <- (insert_delete_id m k t H) at 2. rewrite <- insert_delete_eq.
  rewrite !count_status_fresh by apply lookup_delete_eq. lia.
Qed.

Lemma count_status_nonneg status m : 0 <= count_status status m.
Proof.
  unfold count_status. apply (map_fold_weak_ind (fun n _ => 0 <= n)); [done|].
  intros k t m' n _ H. unfold in_status. cbv beta. case_decide; lia.
Qed.

Lemma count_status_pos status m k t : m !! k = Some t -> tr_status t = status ->
  0 < count_status status m.
Proof.
  intros H Hs. rewrite <- (insert_delete_id m k t H), count_status_fresh by apply lookup_delete_eq.
  pose proof (count_status_nonneg status (delete k m)). unfold in_status.
  rewrite decide_True by done. lia.
Qed.

(** ** Rows and the contract's state *)

(** [new Date(Number(seconds) * 1000)] *)
Definition date_of_seconds (a : Z) : js_date := new_date (js_number (js_number a * 1000)).

Record trade_row (id : Z) (paused : bool) (ct : ChainTrade) (t : Trade) : Prop := {
  trr_id : tr_id t = print_Z id;
  trr_tradeId : tr_tradeId t = print_Z id;
  trr_buyer : tr_buyer t = toLowerCase (ct_buyerAddress ct);
  trr_supplier : tr_supplier t = toLowerCase (ct_supplierAddress ct);
  trr_status : tr_status t = ct_status ct;
  trr_total : tr_totalAmountLocked t = ct_totalAmountLocked ct;
  trr_logistics : tr_logisticsAmount t = ct_logisticsAmount ct;
  trr_fees : tr_platformFeesAmount t = ct_platformFeesAmount ct;
  trr_split : (tr_platformFeeNetAmount t, tr_settlementSupportFeeAmount t)
              = splitPlatformFeeComponents (ct_platformFeesAmount ct);
  trr_first : tr_supplierFirstTranche t = ct_supplierFirstTranche ct;
  trr_second : tr_supplierSecondTranche t = ct_supplierSecondTranche ct;
  trr_hash : tr_ricardianHash t = ct_ricardianHash ct;
  trr_arrival : tr_arrivalTimestamp t =
                if ct_arrivalTimestamp ct =? 0 then None
                else Some (date_of_seconds (ct_arrivalTimestamp ct));
  trr_paused : tr_paused t = paused
}.

Record dispute_row (id : Z) (cd : ChainDispute) (p : DisputeProposal) : Prop := {
  dpr_id : dp_id p = print_Z id;
  dpr_trade : dp_trade p = Some (print_Z (cd_tradeId cd));
  dpr_status : dp_disputeStatus p = cd_disputeStatus cd;
  dpr_approvals : dp_approvalCount p = js_number (cd_approvalCount cd);
  dpr_executed : dp_executed p = cd_executed cd;
  dpr_cancelled : dp_cancelled p = cd_cancelled cd
}.

(** The [executed] column is apart: the contract's [OracleUpdated] does not say
    which proposal it executes, so no row of an oracle update is ever marked. *)
Record oracle_row (id : Z) (cp : ChainProposal) (p : OracleUpdateProposal) : Prop := {
  orr_id : op_id p = print_Z id;
  orr_approvals : op_approvalCount p = js_number (cp_approvalCount cp);
  orr_cancelled : op_cancelled p = cp_cancelled cp
}.

Record admin_row (id : Z) (cp : ChainProposal) (p : AdminChangeProposal) : Prop := {
  adr_id : ap_id p = print_Z id;
  adr_approvals : ap_approvalCount p = js_number (cp_approvalCount cp);
  adr_executed : ap_executed p = cp_executed cp;
  adr_cancelled : ap_cancelled p = cp_cancelled cp
}.

(** A table holds one row per entry of a mapping of the contract, and no other. *)
Definition table_of {A B} (rel : Z -> A -> B -> Prop) (m : gmap Z A) (t : gmap string B) : Prop :=
  (forall id a, m !! id = Some a -> exists b, t !! print_Z id = Some b /\ rel id a b) /\
  (forall k b, t !! k = Some b -> exists id a, k = print_Z id /\ m !! id = Some a).

Definition is_paused (e : Escrow) (id : Z) : bool := bool_decide (id ∈ es_tradePaused e).

(** [refunds]: how many trades were closed by a refund. *)
Record tracks (e : Escrow) (refunds : Z) (p : Projection) : Prop := {
  tk_trades : table_of (fun id => trade_row id (is_paused e id)) (es_trades e) (p_trades p);
  tk_disputes : table_of dispute_row (es_disputes e) (p_disputes p);
  tk_oracle : table_of oracle_row (es_oracleUpdates e) (p_oracle p);
  tk_oracle_unmarked : map_Forall (fun _ row => op_executed row = false) (p_oracle p);
  tk_admin : table_of admin_row (es_adminChanges e) (p_admin p);
  tk_total : totalTrades (p_counters p) = es_tradeCounter e;
  tk_size : Z.of_nat (size (p_trades p)) = es_tradeCounter e;
  tk_counts : forall status,
    bucket status (p_counters p) +
      (if decide (status = CLOSED) then cancelledTrades (p_counters p) else 0)
    = count_status status (p_trades p);
  tk_cancelled : cancelledTrades (p_counters p) = refunds
}.

Lemma table_of_insert {A B} (rel : Z -> A -> B -> Prop) m t id a b :
  table_of rel m t -> rel id a b -> table_of rel (<[id := a]> m) (<[print_Z id := b]> t).
Proof.
  intros [H1 H2] Hr. split.
  - intros id' a' H. apply lookup_insert_Some in H as [[<- <-]|[Hne H]].
    + exists b. by rewrite lookup_insert_eq.
    + destruct (H1 _ _ H) as (b' & ? & ?). exists b'.
      rewrite lookup_insert_ne; [done|]. intros ?%print_Z_inj. done.
  - intros k b' H. apply lookup_insert_Some in H as [[<- <-]|[Hne H]].
    + exists id, a. by rewrite lookup_insert_eq.
    + destruct (H2 _ _ H) as (id' & a' & -> & ?). exists id', a'.
      rewrite lookup_insert_ne; [done|]. intros ->. done.
Qed.

Lemma table_of_alter {A B} (rel : Z -> A -> B -> Prop) m t id a a' (g : B -> B) :
  table_of rel m t -> m !! id = Some a -> (forall b, rel id a b -> rel id a' (g b)) ->
  is_Some (t !! print_Z id) /\ table_of rel (<[id := a']> m) (alter g (print_Z id) t).
Proof.
  intros Ht Hm Hg. destruct (proj1 Ht _ _ Hm) as (b & Hb & Hr). split; [by eexists|].
  assert (alter g (print_Z id) t = <[print_Z id := g b]> t) as ->.
  { apply map_eq. intros j. destruct (decide (print_Z id = j)) as [<-|].
    - by rewrite lookup_alter_eq, lookup_insert_eq, Hb.
    - by rewrite lookup_alter_ne, lookup_insert_ne. }
  by apply table_of_insert; [|apply Hg].
Qed.

Lemma table_of_none {A B} (rel : Z -> A -> B -> Prop) m t id :
  table_of rel m t -> m !! id = None -> t !! print_Z id = None.
Proof.
  intros [_ H2] Hm. destruct (t !! print_Z id) as [b|] eqn:E; [|done].
  destruct (H2 _ _ E) as (id' & a & Heq & Ha). apply print_Z_inj in Heq as <-. congruence.
Qed.

(** ** Events one at a time *)

Fixpoint apply_all (evts : list (EscrowEvent * js_date)) (p : Projection) : option Projection :=
  match evts with
  | [] => Some p
  | (e, ts) :: evts => p' ← apply_event e ts p; apply_all evts p'
  end.

Definition is_refund (e : EscrowEvent) : bool :=
  match e with
  | TradeCancelledAfterLockTimeout _ _ _ | InTransitTimeoutRefunded _ _ _ => true
  | DisputePayout _ _ _ _ payout => payout =? 0
  | _ => false
  end.

Definition refunds (evs : list EscrowEvent) : Z := Z.of_nat (length (List.filter is_refund evs)).

Lemma refunds_app l l' : refunds (l ++ l') = refunds l + refunds l'.
Proof. unfold refunds. rewrite List.filter_app, length_app. lia. Qed.

(** From a projection that tracks [e], the events lead to one that tracks [e']. *)
Definition follows (e : Escrow) (evs : list EscrowEvent) (e' : Escrow) : Prop :=
  forall n p evts, evts.*1 = evs -> tracks e n p ->
    exists p', apply_all evts p = Some p' /\ tracks e' (n + refunds evs) p'.

Lemma apply_all_app l l' p :
  apply_all (l ++ l') p = p' ← apply_all l p; apply_all l' p'.
Proof.
  revert p. induction l as [|[e ts] l IH]; intros p; simpl; [done|].
  destruct (apply_event e ts p); simpl; auto.
Qed.

Lemma follows_nil e : follows e [] e.
Proof.
  intros n p evts Hl%fmap_nil_inv Ht. subst. exists p. split; [done|]. by rewrite Z.add_0_r.
Qed.

Lemma follows_app e1 evs1 e2 evs2 e3 :
  follows e1 evs1 e2 -> follows e2 evs2 e3 -> follows e1 (evs1 ++ evs2)%list e3.
Proof.
  intros H1 H2 n p evts Hl Ht. apply fmap_app_inv in Hl as (l1 & l2 & -> & -> & ->).
  destruct (H1 n p l1 eq_refl Ht) as (p1 & E1 & T1).
  destruct (H2 _ p1 l2 eq_refl T1) as (p2 & E2 & T2).
  exists p2. rewrite apply_all_app, E1. split; [done|]. rewrite refunds_app.
  by rewrite Z.add_assoc.
Qed.

Lemma follows_one e ev e' :
  (forall n p ts, tracks e n p -> exists p', apply_event ev ts p = Some p' /\
     tracks e' (n + if is_refund ev then 1 else 0) p') -> follows e [ev] e'.
Proof.
  intros H n p evts Hl Ht. destruct evts as [|[ev' ts] [|]]; simpl in *; try done.
  injection Hl as ->. destruct (H n p ts Ht) as (p' & E & T). exists p'. rewrite E.
  split; [done|]. unfold refunds. simpl. by destruct (is_refund ev).
Qed.

Lemma follows_cons e1 ev e2 evs e3 :
  follows e1 [ev] e2 -> follows e2 evs e3 -> follows e1 (ev :: evs) e3.
Proof. apply (follows_app e1 [ev] e2 evs e3). Qed.

(** Events that change nothing: those of an existing trade, and system events. *)
Definition benign (e : Escrow) (ev : EscrowEvent) : Prop :=
  is_refund ev = false /\
  ((forall ts p, apply_event ev ts p = Some p) \/
   exists id, is_Some (es_trades e !! id) /\ forall ts p, apply_event ev ts p = of_trade id p).

Lemma follows_benign e evs : Forall (benign e) evs -> follows e evs e.
Proof.
  induction 1 as [|ev evs [Hr Hb] _ IH]; [apply follows_nil|].
  apply (follows_cons e ev e); [|done]. apply follows_one. intros n p ts Ht. rewrite Hr, Z.add_0_r.
  exists p. split; [|done]. destruct Hb as [Hb|(id & [ct Hct] & Hb)]; [done|].
  rewrite Hb. unfold of_trade. by destruct (proj1 (tk_trades _ _ _ Ht) _ _ Hct) as (t & -> & _).
Qed.

(** ** Trades *)

Lemma bucket_set st st' v c : bucket st (set_bucket st' v c) = if decide (st = st') then v else bucket st c.
Proof. by destruct st, st'. Qed.

Lemma tracks_bucket e n p st : tracks e n p -> st <> CLOSED ->
  bucket st (p_counters p) = count_status st (p_trades p).
Proof. intros Ht Hst. rewrite <- (tk_counts _ _ _ Ht st), decide_False by done. lia. Qed.

(** The tracked state after a change of one trade row and of the counters. *)
Lemma tracks_move e n p id ct t ct' t' c' n' :
  tracks e n p -> es_trades e !! id = Some ct -> p_trades p !! print_Z id = Some t ->
  trade_row id (is_paused e id) ct' t' -> totalTrades c' = totalTrades (p_counters p) ->
  cancelledTrades c' = n' ->
  (forall st, bucket st c' + (if decide (st = CLOSED) then n' else 0) =
     count_status st (p_trades p) - in_status st t + in_status st t') ->
  tracks (with_trades <[id := ct']> e) n' (set_trades <[print_Z id := t']> c' p).
Proof.
  intros Ht He Hp Hrow Htot Hcan Hc. split; simpl; try apply Ht.
  - apply table_of_insert; [apply Ht|done].
  - rewrite Htot. apply Ht.
  - rewrite map_size_insert_Some by done. apply Ht.
  - intros st. rewrite Hcan, Hc. by rewrite (count_status_update _ _ _ t).
  - done.
Qed.

Lemma follows_transition e id ct st arrival g ev :
  es_trades e !! id = Some ct -> ct_status ct <> st -> ct_status ct <> CLOSED ->
  (forall t, trade_row id (is_paused e id) ct t ->
     trade_row id (is_paused e id) (set_ct_status st arrival ct) (g t)) ->
  (forall ts p, apply_event ev ts p = change_trade id (to_status st) g p) -> is_refund ev = false ->
  follows e [ev] (move id ct st arrival e).
Proof.
  intros He Hne Hncl Hg Hev Hr. apply follows_one. intros n p ts Ht. rewrite Hr, Z.add_0_r, Hev.
  destruct (proj1 (tk_trades _ _ _ Ht) _ _ He) as (t & Hp & Hrow).
  pose proof (trr_status _ _ _ _ Hrow) as Hst. pose proof (trr_status _ _ _ _ (Hg _ Hrow)) as Hst'.
  simpl in Hst'. unfold change_trade. rewrite Hp. simpl. unfold to_status, applyTradeTransition.
  rewrite Hst, bool_decide_false by done.
  pose proof (count_status_pos (ct_status ct) _ _ _ Hp Hst).
  pose proof (tracks_bucket _ _ _ _ Ht Hncl) as Hb.
  rewrite decrement_ok by lia. simpl. eexists. split; [reflexivity|].
  eapply tracks_move; [done..|by apply Hg|done|apply Ht|].
  intros s. rewrite <- (tk_counts _ _ _ Ht s), <- (tk_cancelled _ _ _ Ht).
  unfold incrementStatusBucket, in_status. rewrite Hst, Hst', !bucket_set.
  repeat case_decide; subst; try congruence; lia.
Qed.

Lemma follows_refund e id ct arrival ev :
  es_trades e !! id = Some ct -> ct_status ct <> CLOSED -> arrival = ct_arrivalTimestamp ct ->
  (forall ts p, apply_event ev ts p = change_trade id applyTradeCancelled (set_status CLOSED) p) ->
  is_refund ev = true ->
  follows e [ev] (move id ct CLOSED arrival e).
Proof.
  intros He Hncl -> Hev Hr. apply follows_one. intros n p ts Ht. rewrite Hr, Hev.
  destruct (proj1 (tk_trades _ _ _ Ht) _ _ He) as (t & Hp & Hrow).
  pose proof (trr_status _ _ _ _ Hrow) as Hst.
  unfold change_trade. rewrite Hp. simpl. unfold applyTradeCancelled. rewrite Hst.
  pose proof (count_status_pos (ct_status ct) _ _ _ Hp Hst).
  pose proof (tracks_bucket _ _ _ _ Ht Hncl) as Hb.
  rewrite decrement_ok by lia. simpl. eexists. split; [reflexivity|].
  eapply tracks_move; [done..| |done|simpl; by rewrite (tk_cancelled _ _ _ Ht)|].
  { by destruct Hrow; split. }
  intros s. rewrite <- (tk_counts _ _ _ Ht s). pose proof (tk_cancelled _ _ _ Ht) as Hn.
  change (bucket s (set_cancelled ?v ?c)) with (bucket s c).
  unfold in_status. simpl. rewrite Hst.
  replace (bucket s _) with (if decide (s = ct_status ct) then bucket (ct_status ct) (p_counters p) - 1
                             else bucket s (p_counters p)) by (by destruct s, (ct_status ct)).
  repeat case_decide; subst; try congruence; lia.
Qed.

(** One entry related anew, by another relation that keeps the others. *)
Lemma table_of_relate {A B} (rel rel' : Z -> A -> B -> Prop) m t id a b :
  table_of rel m t -> m !! id = Some a -> rel' id a b ->
  (forall i a b, i <> id -> rel i a b -> rel' i a b) -> table_of rel' m (<[print_Z id := b]> t).
Proof.
  intros [H1 H2] Hm Hr Hw. split.
  - intros i a' Hi. destruct (decide (i = id)) as [->|Hne].
    + exists b. rewrite lookup_insert_eq. split; [done|]. congruence.
    + destruct (H1 _ _ Hi) as (b' & ? & ?). exists b'. rewrite lookup_insert_ne; [auto|].
      by intros ?%print_Z_inj.
  - intros k b' H. apply lookup_insert_Some in H as [[<- <-]|[_ H]]; [by exists id, a|eauto].
Qed.

(** The contract after a trade is stored. *)
Definition with_new_trade (ct : ChainTrade) (e : Escrow) : Escrow :=
  {| es_tradeCounter := es_tradeCounter e + 1;
     es_trades := <[es_tradeCounter e := ct]> (es_trades e);
     es_tradePaused := es_tradePaused e; es_disputeCounter := es_disputeCounter e;
     es_disputes := es_disputes e; es_activeDispute := es_activeDispute e;
     es_oracleUpdateCounter := es_oracleUpdateCounter e; es_oracleUpdates := es_oracleUpdates e;
     es_adminChangeCounter := es_adminChangeCounter e; es_adminChanges := es_adminChanges e |}.

Lemma follows_lock e ct b s ta la pf s1 s2 h :
  es_trades e !! es_tradeCounter e = None -> is_paused e (es_tradeCounter e) = false ->
  ct_status ct = LOCKED ->
  (forall ts, trade_row (es_tradeCounter e) false ct
                (locked_trade (es_tradeCounter e) b s ta la pf s1 s2 h ts)) ->
  follows e [TradeLocked (es_tradeCounter e) b s ta la pf s1 s2 h] (with_new_trade ct e).
Proof.
  intros Hnew Hpa Hst Hrow. apply follows_one. intros n p ts Ht. simpl. rewrite Z.add_0_r.
  eexists. split; [reflexivity|]. pose proof (table_of_none _ _ _ _ (tk_trades _ _ _ Ht) Hnew) as Hp.
  split; simpl; try apply Ht.
  - apply table_of_insert; [apply Ht|]. change (is_paused _ _) with (is_paused e (es_tradeCounter e)).
    by rewrite Hpa.
  - by rewrite (tk_total _ _ _ Ht).
  - rewrite map_size_insert_None by done. pose proof (tk_size _ _ _ Ht). lia.
  - intros st. rewrite count_status_fresh by done. rewrite <- (tk_counts _ _ _ Ht st).
    unfold applyTradeCreated. rewrite bucket_increment. unfold in_status; simpl.
    change (bucket st (set_total _ _)) with (bucket st (p_counters p)).
    change (cancelledTrades (incrementStatusBucket _ _)) with (cancelledTrades (p_counters p)).
    case_bool_decide; repeat case_decide; subst; try congruence; lia.
Qed.

Lemma follows_pause e id v ev :
  is_Some (es_trades e !! id) ->
  (forall ts p, apply_event ev ts p = change_trade id (fun _ => Ok) (set_trade_paused v) p) ->
  is_refund ev = false ->
  follows e [ev] (with_paused (fun s => if v then {[id]} ∪ s else s ∖ {[id]}) e).
Proof.
  intros [ct He] Hev Hr. apply follows_one. intros n p ts Ht. rewrite Hr, Z.add_0_r, Hev.
  destruct (proj1 (tk_trades _ _ _ Ht) _ _ He) as (t & Hp & Hrow).
  unfold change_trade. rewrite Hp. simpl. eexists. split; [reflexivity|].
  split; simpl; try apply Ht.
  - apply (table_of_relate (fun i => trade_row i (is_paused e i)) _ _ _ id ct); [apply Ht|done|..].
    + destruct Hrow; split; simpl; try done. symmetry. unfold is_paused; simpl.
      destruct v; [apply bool_decide_true|apply bool_decide_false]; set_solver.
    + intros i a b Hne Hab. replace (is_paused _ i) with (is_paused e i); [done|].
      unfold is_paused; simpl. apply bool_decide_ext. destruct v; set_solver.
  - rewrite map_size_insert_Some by done. apply Ht.
  - intros st. rewrite (count_status_update _ _ _ t) by done. rewrite (tk_counts _ _ _ Ht st).
    unfold in_status. simpl. lia.
Qed.

(** ** Disputes *)

Lemma follows_propose_dispute e g id t status by_ :
  es_trades e !! id = Some t ->
  follows e [DisputeSolutionProposed (es_disputeCounter e) id (dispute_number status) by_]
    (with_chain_disputes (es_disputeCounter e + 1)
       <[es_disputeCounter e := {| cd_tradeId := id; cd_disputeStatus := status;
           cd_approvalCount := 1; cd_executed := false; cd_cancelled := false |}]> g e).
Proof.
  intros He. apply follows_one. intros n p ts Ht. simpl. rewrite Z.add_0_r.
  destruct (proj1 (tk_trades _ _ _ Ht) _ _ He) as (row & Hp & Hrow). rewrite Hp. simpl.
  eexists. split; [reflexivity|]. split; simpl; try apply Ht.
  apply table_of_insert; [apply Ht|]. split; simpl; try done.
  - by rewrite (trr_id _ _ _ _ Hrow).
  - by destruct status.
Qed.

Lemma follows_change_dispute e counter g id cd cd' f ev :
  es_disputes e !! id = Some cd ->
  (forall row, dispute_row id cd row -> dispute_row id cd' (f row)) ->
  (forall ts p, apply_event ev ts p = change_dispute id f p) -> is_refund ev = false ->
  follows e [ev] (with_chain_disputes counter <[id := cd']> g e).
Proof.
  intros He Hf Hev Hr. apply follows_one. intros n p ts Ht. rewrite Hr, Z.add_0_r, Hev.
  destruct (table_of_alter _ _ _ _ _ cd' f (tk_disputes _ _ _ Ht) He Hf) as [[row Hp] Htab].
  unfold change_dispute. rewrite Hp. simpl. eexists. split; [reflexivity|].
  by split; simpl; try apply Ht.
Qed.

(** ** Governance *)

Lemma follows_propose_oracle e by_ o eta f :
  follows e [OracleUpdateProposed (es_oracleUpdateCounter e) by_ o eta f]
    (with_oracle_updates (es_oracleUpdateCounter e + 1)
       <[es_oracleUpdateCounter e := new_proposal]> e).
Proof.
  apply follows_one. intros n p ts Ht. simpl. rewrite Z.add_0_r. eexists. split; [reflexivity|].
  split; simpl; try apply Ht; [by apply table_of_insert; [apply Ht|]|].
  by apply map_Forall_insert_2, Ht.
Qed.

Lemma follows_change_oracle e counter id cp cp' f ev :
  es_oracleUpdates e !! id = Some cp ->
  (forall row, oracle_row id cp row -> oracle_row id cp' (f row)) ->
  (forall row, op_executed (f row) = op_executed row) ->
  (forall ts p, apply_event ev ts p = change_oracle id f p) -> is_refund ev = false ->
  follows e [ev] (with_oracle_updates counter <[id := cp']> e).
Proof.
  intros He Hf Hx Hev Hr. apply follows_one. intros n p ts Ht. rewrite Hr, Z.add_0_r, Hev.
  destruct (table_of_alter _ _ _ _ _ cp' f (tk_oracle _ _ _ Ht) He Hf) as [[row Hp] Htab].
  unfold change_oracle. rewrite Hp. simpl. eexists. split; [reflexivity|].
  split; simpl; try apply Ht; [done|]. intros k r. rewrite lookup_alter_Some.
  intros [(<- & r0 & Hr0 & ->)|[_ Hr0]]; [rewrite Hx|]; by apply (tk_oracle_unmarked _ _ _ Ht) in Hr0.
Qed.

Lemma follows_execute_oracle e counter id cp cp' evs :
  es_oracleUpdates e !! id = Some cp -> cp_approvalCount cp' = cp_approvalCount cp ->
  cp_cancelled cp' = cp_cancelled cp -> Forall (benign e) evs ->
  follows e evs (with_oracle_updates counter <[id := cp']> e).
Proof.
  intros He Ha Hc Hb n p evts Hl Ht. destruct (follows_benign e evs Hb n p evts Hl Ht) as (p' & E & T).
  exists p'. split; [done|]. split; simpl; try apply T.
  destruct (table_of_alter _ _ _ _ _ cp' (fun r => r) (tk_oracle _ _ _ T) He) as [_ H].
  { intros row []. split; congruence. }
  by rewrite alter_id in H by done.
Qed.

Lemma follows_propose_admin e by_ k c a th eta ep :
  follows e [AdminChangeProposed (es_adminChangeCounter e) by_ k c a th eta ep]
    (with_admin_changes (es_adminChangeCounter e + 1)
       <[es_adminChangeCounter e := new_proposal]> e).
Proof.
  apply follows_one. intros n p ts Ht. simpl. rewrite Z.add_0_r. eexists. split; [reflexivity|].
  split; simpl; try apply Ht. by apply table_of_insert; [apply Ht|].
Qed.

Lemma follows_change_admin e counter id cp cp' f ev :
  es_adminChanges e !! id = Some cp ->
  (forall row, admin_row id cp row -> admin_row id cp' (f row)) ->
  (forall ts p, apply_event ev ts p = change_admin id f p) -> is_refund ev = false ->
  follows e [ev] (with_admin_changes counter <[id := cp']> e).
Proof.
  intros He Hf Hev Hr. apply follows_one. intros n p ts Ht. rewrite Hr, Z.add_0_r, Hev.
  destruct (table_of_alter _ _ _ _ _ cp' f (tk_admin _ _ _ Ht) He Hf) as [[row Hp] Htab].
  unfold change_admin. rewrite Hp. simpl. eexists. split; [reflexivity|].
  by split; simpl; try apply Ht.
Qed.

(** ** The contract's own invariant *)

Record chain_trade_ok (e : Escrow) (id : Z) (ct : ChainTrade) : Prop := {
  cto_id : ct_tradeId ct = id;
  cto_range : 0 <= id < es_tradeCounter e;
  cto_fees : 0 <= ct_platformFeesAmount ct;
  cto_buyer : ct_buyerAddress ct <> EMPTY_ADDRESS;
  cto_supplier : ct_supplierAddress ct <> EMPTY_ADDRESS;
  cto_arrival : 0 <= ct_arrivalTimestamp ct <= MAX_TIME_VALUE / 1000;
  cto_created : 0 < ct_createdAt ct <= MAX_TIME_VALUE / 1000;
  cto_logistics : 0 <= ct_logisticsAmount ct;
  cto_tranches : 0 < ct_supplierFirstTranche ct /\ 0 < ct_supplierSecondTranche ct;
  cto_total : ct_totalAmountLocked ct =
    ct_logisticsAmount ct + ct_platformFeesAmount ct + ct_supplierFirstTranche ct +
    ct_supplierSecondTranche ct
}.

Record escrow_ok (e : Escrow) : Prop := {
  ok_trades : forall id ct, es_trades e !! id = Some ct -> chain_trade_ok e id ct;
  ok_dense : forall id, 0 <= id < es_tradeCounter e -> is_Some (es_trades e !! id);
  ok_paused : forall id, id ∈ es_tradePaused e -> is_Some (es_trades e !! id);
  ok_counter : 0 <= es_tradeCounter e
}.

Lemma deployed_ok : escrow_ok deployed.
Proof.
  split; simpl; [intros id ct H; by rewrite lookup_empty in H|intros; lia|intros id H; set_solver|lia].
Qed.

Lemma move_ok e id ct st arrival :
  escrow_ok e -> es_trades e !! id = Some ct -> 0 <= arrival <= MAX_TIME_VALUE / 1000 ->
  escrow_ok (move id ct st arrival e).
Proof.
  intros [H1 H2 H3 H4] Hid Ha. split; simpl; [| | |done].
  - intros i c H. apply lookup_insert_Some in H as [[<- <-]|[_ H]]; [|by destruct (H1 _ _ H)].
    by destruct (H1 _ _ Hid).
  - intros i Hi. destruct (decide (id = i)) as [<-|]; [rewrite lookup_insert_eq; eauto|].
    rewrite lookup_insert_ne by done. auto.
  - intros i Hi. destruct (decide (id = i)) as [<-|]; [rewrite lookup_insert_eq; eauto|].
    rewrite lookup_insert_ne by done. auto.
Qed.

(** The same trades, pause flags and counter. *)
Lemma same_trades_ok e e' :
  es_trades e' = es_trades e -> es_tradePaused e' = es_tradePaused e ->
  es_tradeCounter e' = es_tradeCounter e -> escrow_ok e -> escrow_ok e'.
Proof.
  intros E1 E2 E3 [H1 H2 H3 H4]. split; rewrite ?E1, ?E2, ?E3; auto.
  intros id ct H. destruct (H1 id ct H). split; try done. by rewrite E3.
Qed.

Lemma require_ok c error u : require c error = Ok u <-> c = true.
Proof. destruct c, u; simpl; split; congruence. Qed.

Lemma active_trade_ok e id t : active_trade e id = Ok t -> es_trades e !! id = Some t.
Proof.
  unfold active_trade. intros H. inv_ok. done.
Qed.

Lemma require_status_ok t st error u : require_status t st error = Ok u -> ct_status t = st.
Proof. unfold require_status. intros H%require_ok. by reflect_bools. Qed.

(** Open a successful call: its trade, its checks, its result. *)
Ltac open_call H :=
  inv_ok;
  repeat match goal with
  | H : active_trade _ _ = Ok _ |- _ => apply active_trade_ok in H
  | H : require_status _ _ _ = Ok _ |- _ => apply require_status_ok in H
  | H : require _ _ = Ok _ |- _ => apply require_ok in H
  end; reflect_bools.

Section benign.
Context (keccak256 : string -> string) (m : Message) (e : Escrow).

Lemma benign_system ev : is_refund ev = false -> (forall ts p, apply_event ev ts p = Some p) -> benign e ev.
Proof. intros ? ?. split; auto. Qed.

Lemma benign_trade ev id : is_refund ev = false -> is_Some (es_trades e !! id) ->
  (forall ts p, apply_event ev ts p = of_trade id p) -> benign e ev.
Proof. intros ? ? ?. split; eauto. Qed.

Lemma benign_authorization user action a :
  Forall (benign e) (consumeAuthorization keccak256 m user action a).
Proof. constructor; [|constructor]. by apply benign_system. Qed.

Lemma benign_relayed user action id : is_Some (es_trades e !! id) ->
  Forall (benign e) (relayed keccak256 m user action id).
Proof. intros H. constructor; [|constructor]. by apply (benign_trade _ id). Qed.

Lemma benign_payout id s a c : is_Some (es_trades e !! id) ->
  Forall (benign e) (transferSupplierPayout m id s a c).
Proof.
  intros H. unfold transferSupplierPayout. destruct (a =? 0); constructor; [|constructor].
  by apply (benign_trade _ id).
Qed.

Lemma benign_transfer id b a c : is_Some (es_trades e !! id) ->
  Forall (benign e) (transferBuyerRefund m id b a c).
Proof.
  intros H. unfold transferBuyerRefund. destruct (a =? 0); constructor; [|constructor].
  by apply (benign_trade _ id).
Qed.

Lemma benign_accrue id r a c : is_Some (es_trades e !! id) ->
  Forall (benign e) (accrueClaimable id r a c).
Proof.
  intros H. unfold accrueClaimable. destruct (a =? 0); constructor; [|constructor].
  by apply (benign_trade _ id).
Qed.

Lemma plain_benign evs : plain_call m evs -> Forall (benign e) evs.
Proof.
  destruct 1; try destruct was_paused; simpl; repeat (constructor; [by split; [|left]|]); constructor.
Qed.

End benign.

Lemma move_lookup id ct st a e : is_Some (es_trades (move id ct st a e) !! id).
Proof. simpl. rewrite lookup_insert_eq. eauto. Qed.

Create HintDb escrow.
#[export] Hint Resolve benign_authorization benign_relayed benign_payout benign_transfer
  benign_accrue plain_benign follows_nil move_lookup move_ok : escrow.
#[export] Hint Extern 1 (is_Some (es_trades _ !! _)) => eexists; eassumption : escrow.

(** A status change of a row is the status change of the trade. *)
Lemma status_row e id ct st t :
  trade_row id (is_paused e id) ct t ->
  trade_row id (is_paused e id) (set_ct_status st (ct_arrivalTimestamp ct) ct) (set_status st t).
Proof. by intros []; split. Qed.

Lemma follows_status e id ct st ev :
  es_trades e !! id = Some ct -> ct_status ct <> st -> ct_status ct <> CLOSED ->
  (forall ts p, apply_event ev ts p = change_trade id (to_status st) (set_status st) p) ->
  is_refund ev = false -> follows e [ev] (move id ct st (ct_arrivalTimestamp ct) e).
Proof. intros. eapply follows_transition; eauto using status_row. Qed.
