(* ===== verification/IndexerSound.v ===== *)
(** The indexer against the contract: whatever the contract does, the indexer
    projects every event ([run_tracked]), its tables are those of the contract's
    state, and the reconciliation classifier finds nothing between the two.  *)
From stdpp Require Import base list gmap strings.
From S2P Require Import Prelude JsText JsDate IndexerTypes IndexerHandlers.
From S2P Require Import IndexerBatch IndexerView IndexerHistory IndexerSpec EscrowModel.
From S2P Require Import IndexerTracks.

Open Scope string_scope.
Open Scope Z_scope.
#[local] Open Scope list_scope.

(** ** Every call of the contract is followed *)

Definition tracked (e : Escrow) (r : result string (Escrow * list EscrowEvent)) : Prop :=
  match r with Ok (e', evs) => follows e evs e' /\ escrow_ok e' | Err _ => True end.

Section calls.
Context (keccak256 : string -> string) (m : Message) (e : Escrow).
Context (Hm : block_time_ok m) (Hok : escrow_ok e).

Lemma tracked_intro (r : result string (Escrow * list EscrowEvent)) :
  (forall e' evs, r = Ok (e', evs) -> follows e evs e' /\ escrow_ok e') -> tracked e r.
Proof. intros H. destruct r as [[e' evs]|]; simpl; auto. Qed.

(** A list of events that stay, one that moves the trade, and more that stay. *)
Lemma follows_around evs evs1 ev evs2 e' :
  evs = evs1 ++ [ev] ++ evs2 -> Forall (benign e) evs1 -> follows e [ev] e' -> Forall (benign e') evs2 ->
  follows e evs e'.
Proof.
  intros -> H1 H2 H3. eapply follows_app; [by apply follows_benign|].
  eapply follows_app; [exact H2|by apply follows_benign].
Qed.

Lemma ok_pair {E A B} (a c : A) (b d : B) : Ok (E := E) (a, b) = Ok (c, d) -> a = c /\ b = d.
Proof. by intros [= -> ->]. Qed.

Ltac start_call :=
  apply tracked_intro; intros e' evs H;
  repeat match goal with
  | H : mbind _ _ = Ok (e', evs) |- _ => apply bind_ok in H as (? & ? & H)
  end;
  apply ok_pair in H as [<- <-]; open_call H.

Lemma arrival_kept id ct : es_trades e !! id = Some ct ->
  0 <= ct_arrivalTimestamp ct <= MAX_TIME_VALUE / 1000.
Proof. intros H. by destruct (ok_trades _ Hok _ _ H). Qed.

Hint Resolve arrival_kept : escrow.

Lemma create_tracked t a n : tracked e (createTradeWithAuthorization keccak256 m t a n e).
Proof.
  unfold createTradeWithAuthorization, validateTradeAmounts, is_uint256. start_call.
  assert (es_trades e !! es_tradeCounter e = None) as Hnew.
  { destruct (es_trades e !! es_tradeCounter e) eqn:E; [|done]. destruct (ok_trades _ Hok _ _ E). lia. }
  match goal with |- follows _ _ ?e' /\ _ => change e' with (with_new_trade
    {| ct_tradeId := es_tradeCounter e; ct_ricardianHash := tt_ricardianHash t; ct_status := LOCKED;
       ct_buyerAddress := tt_buyer t; ct_supplierAddress := tt_supplier t;
       ct_totalAmountLocked := tt_totalAmount t; ct_logisticsAmount := tt_logisticsAmount t;
       ct_platformFeesAmount := tt_platformFeesAmount t;
       ct_supplierFirstTranche := tt_supplierFirstTranche t;
       ct_supplierSecondTranche := tt_supplierSecondTranche t;
       ct_createdAt := block_timestamp m; ct_arrivalTimestamp := 0 |} e) end.
  split.
  - eapply (follows_around _ (consumeAuthorization _ _ _ _ _) (TradeLocked _ _ _ _ _ _ _ _ _)
             (GaslessTradeFunded _ _ _ _ :: relayed _ _ _ _ _)); [reflexivity|auto with escrow|..].
    + apply follows_lock; [done| |done|].
      * apply bool_decide_false. intros [c Hc]%(ok_paused _ Hok). congruence.
      * intros ts. by split.
    + match goal with |- Forall (benign ?e') _ =>
        assert (is_Some (es_trades e' !! es_tradeCounter e)) as Hin
          by (simpl; rewrite lookup_insert_eq; eauto) end.
      constructor; [by apply (benign_trade _ _ (es_tradeCounter e))|by apply benign_relayed].
  - split; simpl.
    + intros i c H'. apply lookup_insert_Some in H' as [[<- <-]|[_ H']].
      * pose proof (ok_counter _ Hok). by split; simpl; try done; lia.
      * destruct (ok_trades _ Hok _ _ H'). split; try done. simpl. lia.
    + intros i Hi. destruct (decide (es_tradeCounter e = i)) as [<-|];
        [rewrite lookup_insert_eq; eauto|].
      rewrite lookup_insert_ne by done. apply (ok_dense _ Hok). lia.
    + intros i Hi%(ok_paused _ Hok). destruct (decide (es_tradeCounter e = i)) as [<-|];
        [rewrite lookup_insert_eq; eauto|]. by rewrite lookup_insert_ne.
    + pose proof (ok_counter _ Hok). lia.
Qed.

(** The payments before a status event stay, the relayed action after it too. *)
Ltac stays := rewrite ?Forall_app; split_and?; auto with escrow.
Ltac by_status H :=
  eapply follows_status; [exact H|congruence|congruence|done|done].
Ltac around before ev after :=
  apply (follows_around _ before ev after); [by rewrite <- ?app_assoc|stays| |].

Lemma release_tracked treasury id : tracked e (releaseFundsStage1 m treasury id e).
Proof.
  unfold releaseFundsStage1. apply tracked_intro. intros e' evs H.
  apply bind_ok in H as (t & Ht & H). destruct (split_fee _) as [net support]. open_call H.
  split; [|eauto with escrow].
  match goal with |- follows _ (?a ++ ?b ++ ?c ++ [?x; ?y]) _ => around (a ++ b ++ c) x [y] end.
  - by_status Ht.
  - constructor; [|constructor]. apply (benign_trade _ _ id); auto with escrow.
Qed.

Lemma inspection_tracked id window : tracked e (confirmInspectionAvailable m id window e).
Proof.
  unfold confirmInspectionAvailable. start_call. match goal with H : es_trades e !! _ = Some _ |- _ => rename H into Ht end. destruct Hm as [Hm0 Hm1]. split.
  - eapply (follows_transition _ _ _ _ _ (fun t => set_arrival _ (set_status ARRIVAL_CONFIRMED t)));
      [exact Ht|congruence|congruence| |done|done].
    intros r []. split; simpl; try done. destruct (Z.eqb_spec (block_timestamp m) 0); [lia|done].
  - apply move_ok; [done..|lia].
Qed.

Lemma dispute_tracked id a : tracked e (openDisputeWithAuthorization keccak256 m id a e).
Proof.
  unfold openDisputeWithAuthorization. start_call. match goal with H : es_trades e !! _ = Some _ |- _ => rename H into Ht end. split; [|eauto with escrow].
  match goal with |- follows _ (?a ++ [?x] ++ ?b) _ => around a x b end;
    [by_status Ht|auto with escrow].
Qed.

Lemma finalize_tracked id : tracked e (finalizeAfterDisputeWindow m id e).
Proof.
  unfold finalizeAfterDisputeWindow, releaseFinalTranche. start_call. match goal with H : es_trades e !! _ = Some _ |- _ => rename H into Ht end.
  split; [|eauto with escrow].
  match goal with |- follows _ (?a ++ [?x]) _ => around a x (@nil EscrowEvent) end;
    [by_status Ht|constructor].
Qed.

Lemma finalize_signed_tracked id a :
  tracked e (finalizeAfterDisputeWindowWithAuthorization keccak256 m id a e).
Proof.
  unfold finalizeAfterDisputeWindowWithAuthorization, releaseFinalTranche. start_call.
  match goal with H : es_trades e !! _ = Some _ |- _ => rename H into Ht end. split; [|eauto with escrow].
  match goal with |- follows _ (?a ++ (?b ++ [?x]) ++ ?c) _ => around (a ++ b) x c end;
    [by_status Ht|auto with escrow].
Qed.

Lemma accept_tracked id a :
  tracked e (finalizeAfterInspectionAcceptanceWithAuthorization keccak256 m id a e).
Proof.
  unfold finalizeAfterInspectionAcceptanceWithAuthorization, releaseFinalTranche. start_call.
  match goal with H : es_trades e !! _ = Some _ |- _ => rename H into Ht end. split; [|eauto with escrow].
  match goal with |- follows _ (?a ++ (?b ++ [?x]) ++ [?y] ++ ?c) _ =>
    around (a ++ b) x ([y] ++ c) end; [by_status Ht|].
  constructor; [|auto with escrow]. apply (benign_trade _ _ id); auto with escrow.
Qed.

Lemma cancel_tracked id a :
  tracked e (cancelLockedTradeAfterTimeoutWithAuthorization keccak256 m id a e).
Proof.
  unfold cancelLockedTradeAfterTimeoutWithAuthorization. start_call. match goal with H : es_trades e !! _ = Some _ |- _ => rename H into Ht end.
  split; [|eauto with escrow].
  match goal with |- follows _ (?a ++ ?b ++ [?x] ++ ?c) _ => around (a ++ b) x c end;
    [eapply follows_refund; [exact Ht|congruence|done..]|auto with escrow].
Qed.

Lemma refund_tracked id a :
  tracked e (refundInTransitAfterTimeoutWithAuthorization keccak256 m id a e).
Proof.
  unfold refundInTransitAfterTimeoutWithAuthorization. start_call. match goal with H : es_trades e !! _ = Some _ |- _ => rename H into Ht end.
  split; [|eauto with escrow].
  match goal with |- follows _ (?a ++ ?b ++ [?x] ++ ?c) _ => around (a ++ b) x c end;
    [eapply follows_refund; [exact Ht|congruence|done..]|auto with escrow].
Qed.

Lemma paused_ok f : escrow_ok e ->
  (forall id, id ∈ f (es_tradePaused e) -> is_Some (es_trades e !! id)) -> escrow_ok (with_paused f e).
Proof.
  intros [H1 H2 H3 H4] H. split; simpl; try done. intros id ct Hc. by destruct (H1 id ct Hc).
Qed.

Lemma pause_tracked id : tracked e (pauseTrade m id e).
Proof.
  unfold pauseTrade. start_call. split.
  - by apply (follows_pause _ id true).
  - apply paused_ok; [done|]. intros i [->%elem_of_singleton|Hi]%elem_of_union; [done|].
    by apply (ok_paused _ Hok).
Qed.

Lemma propose_unpause_tracked b scope id r ep req :
  tracked e (proposeUnpause m b scope id r ep req e).
Proof.
  unfold proposeUnpause. start_call. split; [|done]. apply follows_benign.
  rewrite Forall_app. split; [destruct b|]; repeat (constructor; [by apply benign_system|]); constructor.
Qed.

Lemma approve_unpause_tracked scope id n req : tracked e (approveUnpause m scope id n req e).
Proof.
  unfold approveUnpause. apply tracked_intro. intros e' evs H. apply bind_ok in H as (u & Hu & H).
  destruct (req <=? n); [destruct scope|]; injection H as <- <-;
    try (split; [apply follows_benign; repeat (constructor; [by apply benign_system|]); constructor|done]).
  open_call Hu. split.
  - eapply follows_cons; [apply follows_benign; constructor; [by apply benign_system|constructor]|].
    by apply (follows_pause _ id false).
  - apply paused_ok; [done|]. intros i [Hi _]%elem_of_difference. by apply (ok_paused _ Hok).
Qed.

(** ** Disputes and governance *)

Lemma propose_dispute_tracked b id status : tracked e (proposeDisputeSolution m b id status e).
Proof.
  unfold proposeDisputeSolution. apply tracked_intro. intros e' evs H.
  apply bind_ok in H as (t & Ht%active_trade_ok & H). apply bind_ok in H as (u & _ & H).
  apply bind_ok in H as ([e1 evs1] & H1 & H). apply ok_pair in H as [<- <-].
  assert (follows e evs1 e1 /\ es_trades e1 = es_trades e /\ es_tradePaused e1 = es_tradePaused e /\
          es_tradeCounter e1 = es_tradeCounter e) as (Hf & E1 & E2 & E3).
  { destruct (es_activeDispute e !! id) as [active|]; [|injection H1 as <- <-; auto with escrow].
    destruct (es_disputes e !! active) as [p|] eqn:Ep; [|done].
    destruct (b && negb (cd_cancelled p)); [|done]. injection H1 as <- <-. split_and!; [|done..].
    unfold cancel_dispute.
    replace (with_chain_disputes _ (alter _ _) _ _) with
      (with_chain_disputes (es_disputeCounter e)
         <[active := set_dispute (cd_approvalCount p) (cd_executed p) true p]> (fun a => a) e).
    - eapply (follows_change_dispute _ _ _ _ _ _ set_dispute_cancelled); [exact Ep| |done|done].
      by intros r []; split.
    - unfold with_chain_disputes. f_equal. apply map_eq. intros j.
      destruct (decide (active = j)) as [<-|]; [by rewrite lookup_insert_eq, lookup_alter_eq, Ep|].
      by rewrite lookup_insert_ne, lookup_alter_ne. }
  split.
  - eapply follows_app; [exact Hf|]. eapply (follows_propose_dispute _ _ _ t). by rewrite E1.
  - by apply (same_trades_ok e).
Qed.

Lemma approve_row n f id cd r : dispute_row id cd r -> f = cd_executed cd ->
  dispute_row id (set_dispute n f (cd_cancelled cd) cd) (set_dispute_approvals (js_number n) r).
Proof. by intros [] ->; split. Qed.

Lemma executed_row n id cd r : cd_approvalCount cd = n -> dispute_row id cd r ->
  dispute_row id (set_dispute n true (cd_cancelled cd) cd) (set_dispute_executed r).
Proof. by intros <- []; split. Qed.

(** The payout of a dispute: the transfer, the closing of the trade, and the
    proposal marked executed. *)
Lemma execute_dispute_follows pid p t n e' evs :
  es_disputes e !! pid = Some (set_dispute n false (cd_cancelled p) p) ->
  es_trades e !! cd_tradeId p = Some t -> ct_status t = FROZEN ->
  executeDispute m pid p t n e = (e', evs) -> follows e evs e' /\ escrow_ok e'.
Proof.
  intros Hp Ht Hst. unfold executeDispute.
  set (e2 := move (cd_tradeId p) t CLOSED (ct_arrivalTimestamp t) e).
  assert (forall g ev, (forall ts pr, apply_event ev ts pr = change_dispute pid set_dispute_executed pr) ->
    is_refund ev = false ->
    follows e2 [ev] (with_chain_disputes (es_disputeCounter e)
      <[pid := set_dispute n true (cd_cancelled p) p]> g e2)) as Hfin.
  { intros g ev Hev Hr. eapply (follows_change_dispute _ _ _ _ _ _ set_dispute_executed);
      [exact Hp| |done|done]. intros r Hrow.
    apply (executed_row n) in Hrow; [exact Hrow|done]. }
  assert (escrow_ok e2) as Hok2 by (apply move_ok; eauto with escrow).
  destruct (cd_disputeStatus p); intros [= <- <-]; (split; [|by apply (same_trades_ok e2)]);
    (eapply follows_app; [apply follows_benign; auto with escrow|]);
    (eapply follows_cons; [|by apply Hfin]).
  - eapply follows_refund; [exact Ht|congruence|done..].
  - eapply follows_status; [exact Ht|congruence|congruence|done|done].
Qed.
End calls.

Section more_calls.
Context (keccak256 : string -> string) (m : Message) (e : Escrow).
Context (Hm : block_time_ok m) (Hok : escrow_ok e).

Lemma approve_dispute_tracked req pid : tracked e (approveDisputeSolution m req pid e).
Proof.
  unfold approveDisputeSolution. apply tracked_intro. intros e' evs H.
  destruct (es_disputes e !! pid) as [p|] eqn:Ep; [|done].
  apply bind_ok in H as (? & Hex%require_ok%negb_true_iff & H).
  apply bind_ok in H as (? & _ & H).
  apply bind_ok in H as (t & Ht%active_trade_ok & H).
  apply bind_ok in H as (? & Hst%require_status_ok & H).
  set (n := cd_approvalCount p + 1) in *.
  set (e1 := with_chain_disputes (es_disputeCounter e)
               <[pid := set_dispute n false (cd_cancelled p) p]> (fun a => a) e) in *.
  assert (follows e [DisputeApproved pid (msg_sender m) n req] e1) as H1.
  { eapply (follows_change_dispute _ _ _ _ _ _ (set_dispute_approvals (js_number n)));
      [exact Ep| |done|done]. intros r Hr. by apply approve_row. }
  assert (escrow_ok e1) as Hok1 by by apply (same_trades_ok e).
  destruct (req <=? n); [|by injection H as <- <-].
  destruct (executeDispute m pid p t n e) as [e2 evs2] eqn:E. injection H as <- <-.
  assert (executeDispute m pid p t n e1 = (e2, evs2)) as E1.
  { rewrite <- E. unfold executeDispute, e1, with_chain_disputes, move, with_trades.
    destruct (cd_disputeStatus p); simpl; by rewrite insert_insert_eq. }
  eapply (execute_dispute_follows m e1) in E1; [|done|simpl; apply lookup_insert_eq|done|done].
  destruct E1 as [H2 H3]. split; [|done]. by eapply follows_cons.
Qed.

Lemma cancel_dispute_tracked pid : tracked e (cancelExpiredDisputeProposal m pid e).
Proof.
  unfold cancelExpiredDisputeProposal. apply tracked_intro. intros e' evs H.
  destruct (es_disputes e !! pid) as [p|] eqn:Ep; [|done]. open_call H.
  split; [|by apply (same_trades_ok e)].
  eapply (follows_change_dispute _ _ _ _ _ _ set_dispute_cancelled); [exact Ep| |done|done].
  by intros r []; split.
Qed.

Lemma open_proposal_ok ps id p : open_proposal ps id = Ok p -> ps !! id = Some p.
Proof. unfold open_proposal. intros H. destruct (ps !! id); [|done]. by open_call H. Qed.

Ltac start_proposal :=
  apply tracked_intro; intros e' evs H;
  apply bind_ok in H as (p & Hp%open_proposal_ok & H); apply ok_pair in H as [<- <-];
  split; [|by apply (same_trades_ok e)].

Lemma oracle_tracked o eta req f id old new ep :
  tracked e (proposeOracleUpdate m o eta req f e) /\ tracked e (approveOracleUpdate m id req e) /\
  tracked e (executeOracleUpdate id old new ep e) /\
  tracked e (cancelExpiredOracleUpdateProposal m id e).
Proof.
  split_and!.
  - split; [|by apply (same_trades_ok e)]. eapply follows_cons; [apply follows_propose_oracle|].
    set (e1 := with_oracle_updates _ _ e). change (follows e1 [OracleUpdateApproved
      (es_oracleUpdateCounter e) (msg_sender m) 1 req] e1).
    assert (es_oracleUpdates e1 !! es_oracleUpdateCounter e = Some new_proposal) as Hp
      by apply lookup_insert_eq.
    replace e1 with (with_oracle_updates (es_oracleUpdateCounter e1)
      <[es_oracleUpdateCounter e := new_proposal]> e1) at 2
      by (unfold with_oracle_updates; rewrite insert_id by done; by destruct e1).
    eapply (follows_change_oracle _ _ _ _ _ (set_oracle_approvals (js_number 1)));
      [exact Hp| |done|done|done]. by intros r []; split.
  - start_proposal. eapply (follows_change_oracle _ _ _ _ _ (set_oracle_approvals _));
      [exact Hp| |done|done|done]. by intros r []; split.
  - start_proposal. eapply follows_execute_oracle; [exact Hp|done|done|].
    repeat (constructor; [by apply benign_system|]). constructor.
  - start_proposal. eapply (follows_change_oracle _ _ _ _ _ set_oracle_cancelled);
      [exact Hp| |done|done|done]. by intros r []; split.
Qed.

Lemma admin_tracked k c a th eta ep req id f :
  tracked e (proposeAdminChange m k c a th eta ep req e) /\
  tracked e (approveAdminChange m id req e) /\
  tracked e (executeAdminChange m id k f c a th ep e) /\
  tracked e (cancelAdminChangeProposal m id e).
Proof.
  split_and!.
  - split; [|by apply (same_trades_ok e)]. eapply follows_cons; [apply follows_propose_admin|].
    set (e1 := with_admin_changes _ _ e). change (follows e1 [AdminChangeApproved
      (es_adminChangeCounter e) (msg_sender m) 1 req] e1).
    assert (es_adminChanges e1 !! es_adminChangeCounter e = Some new_proposal) as Hp
      by apply lookup_insert_eq.
    replace e1 with (with_admin_changes (es_adminChangeCounter e1)
      <[es_adminChangeCounter e := new_proposal]> e1) at 2
      by (unfold with_admin_changes; rewrite insert_id by done; by destruct e1).
    eapply (follows_change_admin _ _ _ _ _ (set_admin_approvals (js_number 1)));
      [exact Hp| |done|done]. by intros r []; split.
  - start_proposal. eapply (follows_change_admin _ _ _ _ _ (set_admin_approvals _));
      [exact Hp| |done|done]. by intros r []; split.
  - start_proposal. eapply follows_cons; [apply follows_benign; constructor;
      [by destruct f; apply benign_system|constructor]|].
    eapply (follows_cons _ _ (with_admin_changes (es_adminChangeCounter e) <[id := executed p]> e)).
    + eapply (follows_change_admin _ _ _ _ _ markGovernanceProposalExecuted);
        [exact Hp| |done|done]. by intros r []; split.
    + apply follows_benign. repeat (constructor; [by apply benign_system|]). constructor.
  - start_proposal. eapply (follows_change_admin _ _ _ _ _ set_admin_cancelled);
      [exact Hp| |done|done]. by intros r []; split.
Qed.

(** Every call of the contract that succeeds is followed by the projection. *)
Lemma tx_tracked r : escrow_tx keccak256 m e r -> tracked e r.
Proof.
  destruct 1; first
    [ by apply create_tracked | by apply release_tracked | by apply inspection_tracked
    | by apply dispute_tracked | by apply finalize_tracked | by apply finalize_signed_tracked
    | by apply accept_tracked | by apply cancel_tracked | by apply refund_tracked
    | by apply pause_tracked | by apply propose_unpause_tracked | by apply approve_unpause_tracked
    | by apply propose_dispute_tracked | by apply approve_dispute_tracked
    | by apply cancel_dispute_tracked | idtac ].
  - by apply (oracle_tracked o eta req f 0 "" "" 0).
  - by apply (oracle_tracked "" 0 req false id "" "" 0).
  - by apply (oracle_tracked "" 0 0 false id old new ep).
  - by apply (oracle_tracked "" 0 0 false id "" "" 0).
  - by apply (admin_tracked k c n th eta ep req 0 effect_add).
  - by apply (admin_tracked 0 "" "" 0 0 0 req id effect_add).
  - by apply (admin_tracked k c n th 0 ep 0 id f).
  - by apply (admin_tracked 0 "" "" 0 0 0 0 id effect_add).
  - split; [|done]. apply follows_benign. eauto with escrow.
Qed.

End more_calls.

(** ** From the contract to the tables *)

Definition empty_projection : Projection :=
  {| p_trades := ∅; p_disputes := ∅; p_oracle := ∅; p_admin := ∅;
     p_counters := createEmptyOverviewCounters |}.

Lemma table_of_empty {A B} (rel : Z -> A -> B -> Prop) : table_of rel ∅ ∅.
Proof. by split; intros ? ?; rewrite lookup_empty. Qed.

Lemma tracks_deployed : tracks deployed 0 empty_projection.
Proof. split; try apply table_of_empty; try done. by intros []. Qed.

Lemma run_tracked keccak256 e evs : escrow_run keccak256 e evs -> follows deployed evs e /\ escrow_ok e.
Proof.
  induction 1 as [|m e evs e' evs' _ [IH Hok] Hm Htx].
  - split; [apply follows_nil|apply deployed_ok].
  - destruct (tx_tracked keccak256 m e Hm Hok _ Htx). split; [by eapply follows_app|done].
Qed.

Section tables.
Context (ESCROW_ADDRESS ESCROW_ABI_FINGERPRINT : string).
Context (parseLog : list string -> string -> result string (option EscrowEvent)).
Context (localeCompare : string -> string -> Z) (relations : bool).

#[local] Notation overview_of := (overview_of localeCompare relations).
#[local] Notation new_batch := (new_batch localeCompare relations).
#[local] Notation write_log :=
  (write_log ESCROW_ADDRESS ESCROW_ABI_FINGERPRINT parseLog localeCompare relations).
#[local] Notation write_logs :=
  (write_logs ESCROW_ADDRESS ESCROW_ABI_FINGERPRINT parseLog localeCompare relations).
#[local] Notation write_header := (write_header localeCompare relations).
#[local] Notation replay :=
  (replay ESCROW_ADDRESS ESCROW_ABI_FINGERPRINT parseLog localeCompare relations).
#[local] Notation is_escrow_log := (is_escrow_log ESCROW_ADDRESS).
#[local] Notation escrow_logs := (escrow_logs ESCROW_ADDRESS).

(** The tables with the counters a batch would start from. *)
Definition projected (s : Store) : Projection := projection s (overview_of s).

(** A log carries an event: it decodes to it and its transaction is known. *)
Definition carries_event (bl : Block * Log) (ev : EscrowEvent) : Prop :=
  parseLog (lg_topics bl.2) (lg_data bl.2) = Ok (Some ev) /\
  exists hash, lg_transaction bl.2 = Ok hash.

(** The escrow logs of the blocks carry these events, in order. *)
Definition carries (blocks : list Block) (evs : list EscrowEvent) : Prop :=
  Forall2 carries_event (escrow_logs blocks) evs.

Lemma projection_same s s' o : projection s o = projection s' o -> st_overview s = Some o ->
  st_overview s' = Some o -> projected s = projected s'.
Proof. intros H E1 E2. unfold projected, IndexerBatch.overview_of. by rewrite E1, E2. Qed.

Lemma write_log_other_spec block log s o :
  is_escrow_log log = false -> st_overview s = Some o ->
  exists s', write_log block log s = Ok s' /\ st_overview s' = Some o /\ projected s' = projected s.
Proof.
  intros Hl Ho. unfold IndexerView.write_log, process_log. rewrite Hl. simpl.
  eexists. split; [reflexivity|]. simpl. rewrite (new_batch_overview _ _ _ _ Ho). split; [done|].
  apply (projection_same _ _ o); [|simpl; by rewrite (new_batch_overview _ _ _ _ Ho)|done].
  unfold projection, persistIndexerBatch. simpl.
  by rewrite !map_empty_union, upsert_disputes_empty.
Qed.

Lemma write_log_spec block log s o ev p :
  is_escrow_log log = true -> carries_event (block, log) ev -> st_overview s = Some o ->
  apply_event ev (block_date block) (projected s) = Some p ->
  exists s' o', write_log block log s = Ok s' /\ st_overview s' = Some o' /\ projected s' = p.
Proof.
  intros Hl [Hp [hash Hh]] Ho Ha. simpl in *.
  unfold IndexerView.write_log, process_log, project. rewrite Hl, Hp, Hh. simpl.
  unfold projected in Ha. rewrite (new_batch_overview _ _ _ _ Ho) in Ha.
  destruct (dispatch ev) as [handler|] eqn:Ed; [|by destruct ev].
  pose proof (write_event_spec localeCompare relations s o Ho ev handler
                (log_context block log hash) Ed) as H.
  simpl in H. rewrite Ha in H. unfold write_handler in H.
  destruct (handler _ s (new_batch s)) as [[u b]|]; simpl in H; [|done].
  destruct H as (o' & Ho' & <-). eexists _, o'. split; [reflexivity|]. split; [done|].
  unfold projected, IndexerBatch.overview_of. simpl. by injection Ho' as ->.
Qed.

Lemma write_header_spec block s :
  exists o, st_overview (write_header block s) = Some o /\ projected (write_header block s) = projected s.
Proof.
  eexists. split; [reflexivity|]. unfold projected, projection, IndexerView.write_header. simpl.
  by rewrite !map_empty_union, upsert_disputes_empty.
Qed.

Lemma write_logs_spec block logs evs s o p :
  Forall2 carries_event ((block,.) <$> List.filter is_escrow_log logs) evs ->
  st_overview s = Some o ->
  apply_all ((., block_date block) <$> evs) (projected s) = Some p ->
  exists s' o', write_logs block logs s = Ok s' /\ st_overview s' = Some o' /\ projected s' = p.
Proof.
  revert evs s o. induction logs as [|log logs IH]; intros evs s o Hc Ho Ha; simpl in *.
  { inversion Hc; subst. simpl in Ha. injection Ha as <-. by exists s, o. }
  destruct (is_escrow_log log) eqn:El.
  - simpl in Hc. inversion Hc as [|? ev ? evs' H1 H2]; subst. simpl in Ha.
    destruct (apply_event ev (block_date block) (projected s)) as [p1|] eqn:E1; [|done].
    destruct (write_log_spec _ _ _ _ _ _ El H1 Ho E1) as (s1 & o1 & -> & Ho1 & Hp1).
    apply (IH evs' s1 o1); [done..|]. rewrite Hp1. exact Ha.
  - destruct (write_log_other_spec block log s o El Ho) as (s1 & -> & Ho1 & Hp1).
    apply (IH evs s1 o); [done..|]. by rewrite Hp1.
Qed.

(** The events of some blocks with the dates of their blocks. *)
Lemma replay_spec blocks evs s :
  carries blocks evs ->
  exists dates, dates.*1 = evs /\ forall p, apply_all dates (projected s) = Some p ->
    exists s', replay blocks s = Ok s' /\ projected s' = p /\
      (blocks <> [] -> is_Some (st_overview s')).
Proof.
  revert evs s. induction blocks as [|block blocks IH]; intros evs s Hc.
  { inversion Hc; subst. exists []. split; [done|]. intros p [= <-]. by exists s. }
  unfold carries, IndexerHistory.escrow_logs in Hc. simpl in Hc.
  apply Forall2_app_inv_l in Hc as (evs1 & evs2 & H1 & H2 & ->).
  destruct (write_header_spec block s) as (o & Ho & Hh).
  set (dates1 := (., block_date block) <$> evs1).
  assert (dates1.*1 = evs1) as Hd1.
  { unfold dates1. rewrite <- list_fmap_compose. simpl. apply list_fmap_id. }
  destruct (apply_all dates1 (projected s)) as [p1|] eqn:E1.
  - rewrite <- Hh in E1. destruct (write_logs_spec _ _ _ _ _ _ H1 Ho E1) as (s1 & o1 & W & Ho1 & Hp1).
    destruct (IH evs2 s1 H2) as (dates2 & Hd2 & Hdone).
    exists (dates1 ++ dates2). split; [by rewrite fmap_app, Hd1, Hd2|].
    intros p Hp. rewrite apply_all_app, <- Hh, E1 in Hp. simpl in Hp. rewrite <- Hp1 in Hp.
    destruct (Hdone p Hp) as (s2 & Hr & Hp2 & Hov). exists s2. simpl. rewrite W. split; [done|].
    split; [done|]. intros _. destruct blocks as [|b bs]; [|by apply Hov].
    simpl in Hr. injection Hr as <-. by eexists.
  - exists (dates1 ++ ((., block_date block) <$> evs2)). split.
    + rewrite fmap_app, Hd1. f_equal. rewrite <- list_fmap_compose. apply list_fmap_id.
    + intros p Hp. rewrite apply_all_app, E1 in Hp. done.
Qed.

Lemma replay_tracks keccak256 e evs blocks :
  escrow_run keccak256 e evs -> carries blocks evs ->
  exists s, replay blocks empty_store = Ok s /\ tracks e (refunds evs) (projected s) /\
    (blocks <> [] -> is_Some (st_overview s)).
Proof.
  intros Hrun Hc. destruct (run_tracked _ _ _ Hrun) as [Hf _].
  destruct (replay_spec blocks evs empty_store Hc) as (dates & Hd & Hdone).
  assert (projected empty_store = empty_projection) as He.
  { by vm_compute. }
  destruct (Hf 0 empty_projection dates Hd tracks_deployed) as (p & Hp & Ht).
  rewrite <- He in Hp. destruct (Hdone p Hp) as (s & Hs & <- & Hov). by exists s.
Qed.

End tables.
