(* ===== verification/EscrowFees.v ===== *)
(** The fees the escrow contract announces: a trade that left LOCKED through the
    first release has announced its logistics fee and its platform fee exactly
    once, with the amounts it was created with; any other trade has announced
    none. *)
From stdpp Require Import base list gmap strings.
From S2P Require Import Prelude JsText JsDate IndexerTypes IndexerSpec EscrowModel.
From S2P Require Import IndexerTracks IndexerSound.

Open Scope string_scope.
Open Scope Z_scope.
#[local] Open Scope list_scope.

(** The trade whose fee an event announces. *)
Definition fee_trade (ev : EscrowEvent) : option Z :=
  match ev with
  | FundsReleasedStage1 id _ _ _ _ | PlatformFeesPaidStage1 id _ _ _ _ => Some id
  | _ => None
  end.

Definition fee_trail (id : Z) (evs : list EscrowEvent) : list EscrowEvent :=
  filter (fun ev => fee_trade ev = Some id) evs.

(** What the release of a trade announces. *)
Definition announced (id : Z) (ct : ChainTrade) (treasury : string) : list EscrowEvent :=
  let '(net, support) := split_fee (ct_platformFeesAmount ct) in
  [FundsReleasedStage1 id (ct_supplierAddress ct) (ct_supplierFirstTranche ct) treasury
     (ct_logisticsAmount ct);
   PlatformFeesPaidStage1 id treasury (ct_platformFeesAmount ct) (Some net) (Some support)].

Definition released (id : Z) (ct : ChainTrade) (trail : list EscrowEvent) : Prop :=
  exists treasury, trail = announced id ct treasury.

Definition trail_ok (id : Z) (trade : option ChainTrade) (trail : list EscrowEvent) : Prop :=
  match trade with
  | None => trail = []
  | Some ct =>
      match ct_status ct with
      | LOCKED => trail = []
      | CLOSED => trail = [] \/ released id ct trail
      | _ => released id ct trail
      end
  end.

Definition trails_ok (e : Escrow) (evs : list EscrowEvent) : Prop :=
  forall id, trail_ok id (es_trades e !! id) (fee_trail id evs).

Definition quiet (evs : list EscrowEvent) : Prop := Forall (fun ev => fee_trade ev = None) evs.

Lemma quiet_trail id evs : quiet evs -> fee_trail id evs = [].
Proof.
  induction 1 as [|ev evs H _ IH]; [done|]. unfold fee_trail in *. by rewrite filter_cons_False by (rewrite H; done).
Qed.

Lemma fee_trail_app id l l' : fee_trail id (l ++ l') = fee_trail id l ++ fee_trail id l'.
Proof. apply filter_app. Qed.

Lemma trail_ok_move id ct st arrival trail :
  trail_ok id (Some ct) trail -> st <> LOCKED -> (ct_status ct = LOCKED -> st = CLOSED) ->
  (ct_status ct = CLOSED -> st = CLOSED) -> trail_ok id (Some (set_ct_status st arrival ct)) trail.
Proof.
  unfold trail_ok, released. simpl. intros H H1 H2 H3.
  change (announced id (set_ct_status st arrival ct)) with (announced id ct).
  destruct (ct_status ct), st; try done; try (by specialize (H2 eq_refl)); try (by specialize (H3 eq_refl)); auto.
Qed.

Lemma trail_quiet id trade evs evs' :
  quiet evs' -> trail_ok id trade (fee_trail id evs) -> trail_ok id trade (fee_trail id (evs ++ evs')).
Proof. intros Hq. by rewrite fee_trail_app, (quiet_trail id evs'), app_nil_r. Qed.

Lemma trails_same e e' evs evs' :
  es_trades e' = es_trades e -> quiet evs' -> trails_ok e evs -> trails_ok e' (evs ++ evs').
Proof. intros Ht Hq H id. rewrite Ht. by apply trail_quiet. Qed.

Lemma trails_move e id ct st arrival evs evs' :
  es_trades e !! id = Some ct -> quiet evs' -> st <> LOCKED -> ct_status ct <> CLOSED ->
  (ct_status ct = LOCKED -> st = CLOSED) ->
  trails_ok e evs -> trails_ok (move id ct st arrival e) (evs ++ evs').
Proof.
  intros Hid Hq H1 Hnc H2 H i. apply trail_quiet; [done|]. simpl.
  destruct (decide (id = i)) as [<-|Hn]; [|by rewrite lookup_insert_ne].
  rewrite lookup_insert_eq. apply trail_ok_move; [|done|done|done]. specialize (H id). by rewrite Hid in H.
Qed.

Lemma quiet_app l l' : quiet l -> quiet l' -> quiet (l ++ l').
Proof. intros. by apply Forall_app. Qed.

Section quiet.
Context (keccak256 : string -> string) (m : Message).

Lemma quiet_payout id s a c : quiet (transferSupplierPayout m id s a c).
Proof. unfold transferSupplierPayout, quiet. destruct (a =? 0); auto. Qed.

Lemma quiet_transfer id b a c : quiet (transferBuyerRefund m id b a c).
Proof. unfold transferBuyerRefund, quiet. destruct (a =? 0); auto. Qed.

Lemma quiet_accrue id r a c : quiet (accrueClaimable id r a c).
Proof. unfold accrueClaimable, quiet. destruct (a =? 0); auto. Qed.

Lemma plain_quiet evs : plain_call m evs -> quiet evs.
Proof. destruct 1; try destruct was_paused; simpl; repeat constructor. Qed.

End quiet.

Create HintDb fees.
#[export] Hint Resolve quiet_payout quiet_transfer quiet_accrue plain_quiet quiet_app : fees.
#[export] Hint Extern 2 (quiet (consumeAuthorization _ _ _ _ _)) => repeat constructor : fees.
#[export] Hint Extern 2 (quiet (relayed _ _ _ _ _)) => repeat constructor : fees.
#[export] Hint Extern 3 (quiet [_]) => repeat constructor : fees.
#[export] Hint Extern 3 (quiet [_; _]) => repeat constructor : fees.
#[export] Hint Extern 3 (quiet [_; _; _]) => repeat constructor : fees.
#[export] Hint Extern 3 (quiet []) => constructor : fees.
#[export] Hint Extern 4 (_ = _ -> _ = _) => congruence : fees.
#[export] Hint Extern 4 (_ <> _) => congruence : fees.

Section run.
Context (keccak256 : string -> string).

Lemma trails_create m t a n e e' evs evs' :
  escrow_ok e -> createTradeWithAuthorization keccak256 m t a n e = Ok (e', evs') ->
  trails_ok e evs -> trails_ok e' (evs ++ evs').
Proof.
  intros Hok H Ht. unfold createTradeWithAuthorization in H. open_call H.
  assert (Hnone : es_trades e !! es_tradeCounter e = None).
  { destruct (es_trades e !! es_tradeCounter e) eqn:E; [|done].
    apply (ok_trades _ Hok) in E as [_ E _]. lia. }
  intros id. apply trail_quiet; [repeat constructor|]. simpl.
  destruct (decide (es_tradeCounter e = id)) as [<-|]; [|by rewrite lookup_insert_ne].
  rewrite lookup_insert_eq. specialize (Ht (es_tradeCounter e)). by rewrite Hnone in Ht.
Qed.

Lemma trails_release m treasury id e e' evs evs' :
  releaseFundsStage1 m treasury id e = Ok (e', evs') -> trails_ok e evs -> trails_ok e' (evs ++ evs').
Proof.
  intros H Ht. unfold releaseFundsStage1 in H. open_call H.
  destruct (split_fee (ct_platformFeesAmount x)) as [net support] eqn:Es. injection H1 as <- <-. intros i.
  rewrite !fee_trail_app, !(quiet_trail i (transferSupplierPayout _ _ _ _ _)),
    !(quiet_trail i (accrueClaimable _ _ _ _)) by auto with fees. simpl. specialize (Ht i).
  destruct (decide (id = i)) as [<-|Hn].
  - rewrite lookup_insert_eq. rewrite H in Ht. simpl in Ht. rewrite H0 in Ht.
    rewrite Ht. exists treasury. unfold announced.
    change (split_fee (ct_platformFeesAmount (set_ct_status IN_TRANSIT (ct_arrivalTimestamp x) x)))
      with (split_fee (ct_platformFeesAmount x)). rewrite Es.
    unfold fee_trail. by rewrite !filter_cons_True.
  - rewrite lookup_insert_ne by done. unfold fee_trail at 2.
    rewrite !filter_cons_False by (simpl; congruence). by rewrite filter_nil, app_nil_r.
Qed.

(** Calls that leave the trades and announce no fee. *)
Definition aside (e : Escrow) (r : result string (Escrow * list EscrowEvent)) : Prop :=
  match r with Ok (e', evs) => es_trades e' = es_trades e /\ quiet evs | Err _ => True end.

Lemma aside_bind {A} e (m : result string A) f :
  (forall a, m = Ok a -> aside e (f a)) -> aside e (m ≫= f).
Proof. intros H. destruct m; [by apply H|done]. Qed.

Ltac aside :=
  repeat first
    [ apply aside_bind; intros ? ?
    | progress case_match
    | split; [done|repeat constructor]
    | done ].

Definition keeps_trails (e : Escrow) (r : result string (Escrow * list EscrowEvent)) : Prop :=
  match r with
  | Ok (e', evs') => forall evs, trails_ok e evs -> trails_ok e' (evs ++ evs')
  | Err _ => True
  end.

Lemma keeps_aside e r : aside e r -> keeps_trails e r.
Proof. destruct r as [[e' evs']|]; [|done]. intros [? ?] evs. by apply trails_same. Qed.

Lemma keeps_intro e r :
  (forall e' evs' evs, r = Ok (e', evs') -> trails_ok e evs -> trails_ok e' (evs ++ evs')) -> keeps_trails e r.
Proof. intros H. destruct r as [[e' evs']|]; simpl; eauto. Qed.

Ltac moves :=
  apply keeps_intro; intros e' evs' evs H Ht;
  repeat match goal with H : mbind _ _ = Ok (e', evs') |- _ => apply bind_ok in H as (? & ? & H) end;
  apply ok_pair in H as [<- <-]; open_call H;
  eapply trails_move; [eassumption|eauto 10 with fees|congruence..|done].

Lemma aside_propose_dispute m b id status e : aside e (proposeDisputeSolution m b id status e).
Proof.
  unfold proposeDisputeSolution. apply aside_bind. intros t _. apply aside_bind. intros _ _.
  destruct (es_activeDispute e !! id) as [active|]; [|split; [done|repeat constructor]].
  destruct (es_disputes e !! active); [|done]. destruct (b && _); [|done]. split; [done|repeat constructor].
Qed.

Lemma keeps_approve_dispute m req id e : keeps_trails e (approveDisputeSolution m req id e).
Proof.
  unfold approveDisputeSolution. destruct (es_disputes e !! id) as [p|] eqn:Ep; [|done].
  apply keeps_intro. intros e' evs' evs H Ht.
  repeat match goal with H : mbind _ _ = Ok (e', evs') |- _ => apply bind_ok in H as (? & ? & H) end.
  open_call H. case_match; [|injection H as <- <-; apply (trails_same e); [done|repeat constructor|done]].
  destruct (executeDispute _ _ _ _ _ _) as [e1 evs1] eqn:Ex. injection H as <- <-.
  unfold executeDispute in Ex.
  destruct (cd_disputeStatus p); injection Ex as <- <-;
    (eapply trails_move; [eassumption| |congruence..|exact Ht]);
    (constructor; [done|]; apply quiet_app; [eauto with fees|repeat constructor]).
Qed.

Lemma tx_trails m e r : escrow_ok e -> escrow_tx keccak256 m e r -> keeps_trails e r.
Proof.
  intros Hok. destruct 1.
  - apply keeps_intro. intros. by eapply trails_create.
  - apply keeps_intro. intros. by eapply trails_release.
  - unfold confirmInspectionAvailable. moves.
  - unfold openDisputeWithAuthorization. moves.
  - unfold finalizeAfterDisputeWindow, releaseFinalTranche. moves.
  - unfold finalizeAfterDisputeWindowWithAuthorization, releaseFinalTranche. moves.
  - unfold finalizeAfterInspectionAcceptanceWithAuthorization, releaseFinalTranche. moves.
  - unfold cancelLockedTradeAfterTimeoutWithAuthorization. moves.
  - unfold refundInTransitAfterTimeoutWithAuthorization. moves.
  - apply keeps_aside. unfold pauseTrade. aside.
  - apply keeps_aside. unfold proposeUnpause. aside.
  - apply keeps_aside. unfold approveUnpause. aside.
  - apply keeps_aside, aside_propose_dispute.
  - apply keeps_approve_dispute.
  - apply keeps_aside. unfold cancelExpiredDisputeProposal. aside.
  - apply keeps_aside. unfold proposeOracleUpdate. aside.
  - apply keeps_aside. unfold approveOracleUpdate. aside.
  - apply keeps_aside. unfold executeOracleUpdate. aside.
  - apply keeps_aside. unfold cancelExpiredOracleUpdateProposal. aside.
  - apply keeps_aside. unfold proposeAdminChange. aside.
  - apply keeps_aside. unfold approveAdminChange. aside.
  - apply keeps_aside. unfold executeAdminChange. aside.
  - apply keeps_aside. unfold cancelAdminChangeProposal. aside.
  - apply keeps_aside. split; [done|eauto with fees].
Qed.

Lemma run_trails e evs : escrow_run keccak256 e evs -> trails_ok e evs.
Proof.
  induction 1 as [|m e evs e' evs' Hrun IH Hm Htx].
  - intros id. simpl. by rewrite lookup_empty.
  - destruct (run_tracked _ _ _ Hrun) as [_ Hok]. by apply (tx_trails _ _ _ Hok Htx).
Qed.

End run.

(** A fee event of a run is one of the announcements of its trade. *)
Lemma run_fee_event keccak256 e evs ev id :
  escrow_run keccak256 e evs -> ev ∈ evs -> fee_trade ev = Some id ->
  exists ct treasury, es_trades e !! id = Some ct /\ ct_status ct <> LOCKED /\
    fee_trail id evs = announced id ct treasury /\ ev ∈ announced id ct treasury.
Proof.
  intros Hr%run_trails Hin Hid. specialize (Hr id).
  assert (Htr : ev ∈ fee_trail id evs) by (by apply list_elem_of_filter).
  unfold trail_ok, released in Hr.
  destruct (es_trades e !! id) as [ct|]; [|rewrite Hr in Htr; by apply elem_of_nil in Htr].
  exists ct.
  destruct (ct_status ct);
    [rewrite Hr in Htr; by apply elem_of_nil in Htr|..|destruct Hr as [Hr|Hr];
      [rewrite Hr in Htr; by apply elem_of_nil in Htr|]];
    destruct Hr as (treasury & Hr); exists treasury; rewrite <- Hr; by split_and!.
Qed.
