(* ===== verification/IndexerCorrect.v ===== *)
(** What the indexer promises: its tables are the replay of the checkpointed
    blocks ([projection_is_replay]), with one event row per escrow log
    ([every_log_indexed]); a log it cannot project stops it, is named in the
    evidence and is never skipped ([halt_leaves_evidence]); and on the events of
    the escrow contract only the database stops it ([escrow_never_halts]) and it
    holds the contract's state ([indexer_tracks_escrow]). *)
From stdpp Require Import base list gmap strings.
From S2P Require Import Prelude JsText JsDate IndexerTypes IndexerHandlers.
From S2P Require Import IndexerBatch IndexerView IndexerHistory IndexerSpec EscrowModel.
From S2P Require Import IndexerTracks IndexerSound.

Open Scope string_scope.
Open Scope Z_scope.
#[local] Open Scope list_scope.

Section indexer.
Context (ESCROW_ADDRESS ESCROW_ABI_FINGERPRINT : string).
Context (parseLog : list string -> string -> result string (option EscrowEvent)).
Context (localeCompare : string -> string -> Z) (relations : bool).

#[local] Notation replay :=
  (replay ESCROW_ADDRESS ESCROW_ABI_FINGERPRINT parseLog localeCompare relations).
#[local] Notation write_log :=
  (write_log ESCROW_ADDRESS ESCROW_ABI_FINGERPRINT parseLog localeCompare relations).
#[local] Notation processBatch :=
  (processBatch ESCROW_ADDRESS ESCROW_ABI_FINGERPRINT parseLog localeCompare relations).
#[local] Notation reachable_indexer :=
  (reachable_indexer ESCROW_ADDRESS ESCROW_ABI_FINGERPRINT parseLog localeCompare relations).
#[local] Notation escrow_logs := (escrow_logs ESCROW_ADDRESS).
#[local] Notation stops_at := (stops_at ESCROW_ADDRESS ESCROW_ABI_FINGERPRINT parseLog).
#[local] Notation carries := (carries ESCROW_ADDRESS parseLog).

(** C26. Batching is invisible: in every history of batches that commit, halt or
    fail to be written, whatever their boundaries, the tables are those of
    writing every log of the checkpointed blocks through to the database, one by
    one, from the empty database. *)
Theorem projection_is_replay i :
  reachable_indexer i -> replay (ix_checkpoint i) empty_store = Ok (ix_store i).
Proof. apply history_replay. Qed.

(** C27. Every escrow log behind the checkpoint has exactly one event row, in the
    table of its event and no other, with the log's place and the event's name,
    trade or proposal and columns; and there are no other event rows.  (Event ids,
    transaction hash and log index, are those of distinct logs.) *)
Theorem every_log_indexed i :
  reachable_indexer i -> NoDup (log_event_id <$> escrow_logs (ix_checkpoint i)) ->
  events_exact parseLog (escrow_logs (ix_checkpoint i)) (ix_store i).
Proof.
  intros Hr%history_replay Hnd.
  by apply (events_exact_replay _ _ _ _ _ _ empty_store _ []) in Hr;
    [|apply keyed_empty|apply events_exact_empty|].
Qed.

Lemma reported faults now i e entry e' : (entry, e') = reportPoisonLog faults now i e ->
  entry = buildQuarantinedLogEntry i /\
  (f_alert faults entry = false -> entry ∈ e_alerts e') /\
  (f_quarantine faults entry = false -> exists row,
     e_quarantine e' !! entry_key entry = Some row /\ qr_status row = UNRESOLVED /\
     qe_reason (qr_entry row) = qe_reason entry /\
     qe_errorMessage (qr_entry row) = qe_errorMessage entry /\
     0 < countUnresolved (e_quarantine e')).
Proof.
  intros [= -> ->]. simpl. split; [done|]. split; intros ->; [set_solver|].
  destruct (lookup_recordPoisonLog now (buildQuarantinedLogEntry i) (e_quarantine e))
    as (row & Hq & Hs & _ & _ & Hr & Hm & _).
  exists row. split_and!; [done..|]. by eapply countUnresolved_pos.
Qed.

(** C24. A halt names the log at which projection stops: when a batch halts,
    everything before one of its escrow logs projects, that log is the one named,
    alerted, and recorded as unresolved with its reason, unless those writes fail;
    and either the log cannot be projected on the tables before it, and then no
    history ever commits past it, or a read of the database rejected while it was
    handled and its error is the one recorded. *)
Theorem halt_leaves_evidence faults now blocks i entry e' :
  reachable_indexer i ->
  processBatch faults now blocks (ix_store i) (ix_evidence i)
    = (Err (PoisonLogHaltError entry), e') ->
  (exists bs1 block bs2 before log after input s',
     blocks = bs1 ++ block :: bs2 /\ bk_logs block = before ++ log :: after /\
     replay (ix_checkpoint i ++ bs1 ++ [cut block before]) empty_store = Ok s' /\
     stops_at block log input /\ entry = buildQuarantinedLogEntry input /\
     ((write_log block log s' = Err input /\
       forall i' later, reachable_indexer i' ->
         ix_checkpoint i' <> ix_checkpoint i ++ bs1 ++ block :: later) \/
      interrupted (f_reads faults) input)) /\
  (f_alert faults entry = false -> entry ∈ e_alerts e') /\
  (f_quarantine faults entry = false -> exists row,
     e_quarantine e' !! entry_key entry = Some row /\ qr_status row = UNRESOLVED /\
     qe_reason (qr_entry row) = qe_reason entry /\
     qe_errorMessage (qr_entry row) = qe_errorMessage entry /\
     0 < countUnresolved (e_quarantine e')).
Proof.
  intros Hi%history_replay (input & Hstop & -> & Hrep)%processBatch_fails.
  destruct (reported _ _ _ _ _ _ Hrep) as (_ & Halert & Hquar). split_and!; [|done|done].
  apply batch_stops in Hstop
    as (bs1 & block & bs2 & before & log & after & s' & Hb & Hl & Hs & Hstop & Hw).
  exists bs1, block, bs2, before, log, after, input, s'. split_and!; try done.
  { by rewrite replay_app, Hi. }
  destruct Hw as [Hw|Hw]; [left|by right]. split; [done|].
  intros i' later Hi'%history_replay Heq. rewrite Heq, replay_app, Hi in Hi'. simpl in Hi'.
  by erewrite replay_stuck in Hi' by done.
Qed.

Lemma tracked_tables keccak256 e evs i :
  escrow_run keccak256 e evs -> reachable_indexer i ->
  carries (ix_checkpoint i) evs -> ix_checkpoint i <> [] ->
  exists o, st_overview (ix_store i) = Some o /\
    tracks e (refunds evs) (projection (ix_store i) o).
Proof.
  intros Hrun Hi%history_replay Hc Hne.
  destruct (replay_tracks ESCROW_ADDRESS ESCROW_ABI_FINGERPRINT parseLog localeCompare relations
              _ _ _ _ Hrun Hc) as (s & Hs & Ht & Ho).
  rewrite Hi in Hs. injection Hs as <-. destruct (Ho Hne) as [o Hov]. exists o. split; [done|].
  unfold projected, overview_of in Ht. by rewrite Hov in Ht.
Qed.


(** C25. The escrow's own events never stop the indexer by themselves: whatever
    calls the contract accepted, the next blocks of the chain are projected and
    committed when the database answers; and a batch of them fails only on a read
    that rejected, with that read's error, or on the rejected write of the batch. *)
Theorem escrow_never_halts keccak256 e evs i faults now blocks :
  escrow_run keccak256 e evs -> reachable_indexer i ->
  carries (ix_checkpoint i ++ blocks) evs -> blocks <> [] ->
  ((forall r, f_reads faults r = None) -> f_persist faults = None ->
   exists s', processBatch faults now blocks (ix_store i) (ix_evidence i) = (Ok s', ix_evidence i)) /\
  match (processBatch faults now blocks (ix_store i) (ix_evidence i)).1 with
  | Ok s' => replay (ix_checkpoint i ++ blocks) empty_store = Ok s'
  | Err (StoreError m) => rejects (f_reads faults) m
  | Err (PoisonLogHaltError entry) =>
      qe_reason entry = HANDLER_FAILURE /\ rejects (f_reads faults) (qe_errorMessage entry)
  | Err (PersistenceError error) => exists m, f_persist faults = Some (error, m)
  end.
Proof.
  intros Hrun Hi Hc Hne. pose proof (history_replay _ _ _ _ _ _ Hi) as Hck.
  destruct (replay_tracks ESCROW_ADDRESS ESCROW_ABI_FINGERPRINT parseLog localeCompare relations
              _ _ _ _ Hrun Hc) as (s & Hs & _).
  assert (Hb : replay blocks (ix_store i) = Ok s) by (rewrite replay_app, Hck in Hs; exact Hs).
  destruct (processBatch faults now blocks (ix_store i) (ix_evidence i)) as [[s'|error] e'] eqn:E; simpl.
  { apply processBatch_commit in E as [E ->]. rewrite replay_batch in E by done.
    split; [intros _ _; by exists s'|]. rewrite Hs. congruence. }
  apply processBatch_fails in E. destruct error as [entry|m|error].
  - destruct E as (input & Hstop & -> & _).
    apply batch_stops in Hstop as (? & ? & ? & ? & ? & ? & s1 & -> & Hl & Hr & _ & [Hw|[Hre Hm]]).
    + by erewrite replay_stuck in Hb by done.
    + split; [|done]. intros Hall. destruct Hm as [r Hm]. by rewrite Hall in Hm.
  - split; [|done]. intros Hall. destruct E as [r Hm]. by rewrite Hall in Hm.
  - destruct E as [_ [m Hm]]. split; [|by exists m]. intros _ Hn. by rewrite Hn in Hm.
Qed.

(** The row of an oracle update never says that it was executed: [OracleUpdated]
    does not name its proposal. *)
Theorem oracle_updates_never_executed keccak256 e evs i id cp :
  escrow_run keccak256 e evs -> reachable_indexer i ->
  carries (ix_checkpoint i) evs -> ix_checkpoint i <> [] -> es_oracleUpdates e !! id = Some cp ->
  exists row, st_oracleUpdateProposals (ix_store i) !! print_Z id = Some row /\ op_executed row = false.
Proof.
  intros Hrun Hi Hc Hne Hcp. destruct (tracked_tables _ _ _ _ Hrun Hi Hc Hne) as (o & _ & Ht).
  destruct (proj1 (tk_oracle _ _ _ Ht) _ _ Hcp) as (row & Hrow & Hr). exists row. split; [done|].
  by apply (tk_oracle_unmarked _ _ _ Ht) in Hrow.
Qed.

(** A rebuilt snapshot counts no cancelled trade: the query that loads the
    terminal events does not load their trades. *)
Lemma terminal_events_without_trades events :
  latestTerminalEventsByTradeId localeCompare (found false <$> events) = ∅.
Proof.
  unfold latestTerminalEventsByTradeId.
  enough (foldl (keep_latest localeCompare) ∅ (found false <$> events) = ∅) as -> by apply fmap_empty.
  induction events as [|ev events IH]; simpl; done.
Qed.

Lemma count_existing_cancelled trades c :
  cancelledTrades (foldl (count_existing ∅) c trades) = cancelledTrades c.
Proof.
  revert c. induction trades as [|[id st] trades IH]; intros c; [done|]. simpl. rewrite IH.
  unfold count_existing. rewrite lookup_empty. simpl. case_bool_decide; by destruct st.
Qed.

Theorem rebuild_counts_no_cancellation s : st_overview s = None ->
  cancelledTrades (ov_counters (overview_of localeCompare false s)) = 0.
Proof.
  intros Ho. unfold overview_of, rebuilt_overview, buildCountersFromExistingState. rewrite Ho. simpl.
  by rewrite terminal_events_without_trades, count_existing_cancelled.
Qed.

End indexer.
