(* ===== verification/IndexerRecon.v ===== *)
(** The indexer, the escrow and reconciliation together: the chain trade as the
    SDK reads it ([getTrade] of [sdk/src/modules/oracleSDK.ts]), the indexed trade
    as reconciliation reads it ([toIndexedTradeRecord] of
    [reconciliation/src/indexer/client.ts]), and the classifier between the two
    finding nothing on whatever history of the contract the indexer has followed.

    The indexer's GraphQL server is not part of the sources: it is a function of
    the row whose documented behaviour is [serves]; the text of a [DateTime] is
    kept as the instant [new Date] reads from it. *)
From stdpp Require Import base list gmap strings.
From S2P Require Import Prelude JsText JsDate IndexerTypes IndexerHandlers.
From S2P Require Import IndexerBatch IndexerView IndexerHistory IndexerSpec EscrowModel.
From S2P Require Import IndexerTracks IndexerSound IndexerCorrect ReconTypes ReconCoverage.
From S2P Require Import ReconClassifier.

Open Scope string_scope.
Open Scope Z_scope.

(** ** Reading the chain *)

(** [Number(trade.status)]: the number of the contract's enum. *)
Definition status_number (status : IndexerTypes.TradeStatus) : Z :=
  match status with
  | IndexerTypes.LOCKED => 0 | IndexerTypes.IN_TRANSIT => 1 | IndexerTypes.ARRIVAL_CONFIRMED => 2
  | IndexerTypes.FROZEN => 3 | IndexerTypes.CLOSED => 4
  end.

(** The struct the mapping answers for an id never allocated. *)
Definition zero_trade : ChainTrade :=
  {| ct_tradeId := 0; ct_ricardianHash := EMPTY_WORD; ct_status := IndexerTypes.LOCKED;
     ct_buyerAddress := EMPTY_ADDRESS; ct_supplierAddress := EMPTY_ADDRESS;
     ct_totalAmountLocked := 0; ct_logisticsAmount := 0; ct_platformFeesAmount := 0;
     ct_supplierFirstTranche := 0; ct_supplierSecondTranche := 0; ct_createdAt := 0;
     ct_arrivalTimestamp := 0 |}.

(** [contract.trades(tradeId)] at a block whose state is [e]. *)
Definition trades (e : Escrow) (id : Z) : ChainTrade := default zero_trade (es_trades e !! id).

Definition getTrade (trade : ChainTrade) : ReconTypes.Trade :=
  {| t_tradeId := print_Z (ct_tradeId trade);
     t_buyer := ct_buyerAddress trade;
     t_supplier := ct_supplierAddress trade;
     t_status := status_number (ct_status trade);
     t_totalAmountLocked := ct_totalAmountLocked trade;
     t_logisticsAmount := ct_logisticsAmount trade;
     t_platformFeesAmount := ct_platformFeesAmount trade;
     t_supplierFirstTranche := ct_supplierFirstTranche trade;
     t_supplierSecondTranche := ct_supplierSecondTranche trade;
     t_ricardianHash := ct_ricardianHash trade;
     t_createdAt := date_of_seconds (ct_createdAt trade);
     t_arrivalTimestamp :=
       if negb (ct_arrivalTimestamp trade =? 0) && (0 <? js_number (ct_arrivalTimestamp trade))
       then Some (date_of_seconds (ct_arrivalTimestamp trade))
       else None |}.

(** ** Reading the indexer *)

Record RawIndexedTrade := {
  rw_tradeId : string;
  rw_buyer : string;
  rw_supplier : string;
  rw_status : string;
  rw_totalAmountLocked : string;
  rw_logisticsAmount : string;
  rw_platformFeesAmount : string;
  rw_platformFeeNetAmount : string;
  rw_settlementSupportFeeAmount : string;
  rw_supplierFirstTranche : string;
  rw_supplierSecondTranche : string;
  rw_ricardianHash : string;
  rw_createdAt : js_date;
  rw_arrivalTimestamp : option js_date
}.

(** [BigInt(text)] of a decimal text. *)
Definition BigInt_text (s : string) : Z := Z.of_N (digits_value s).

Definition toIndexedTradeRecord (trade : RawIndexedTrade) : IndexedTradeRecord :=
  {| ReconTypes.ix_tradeId := rw_tradeId trade;
     ix_buyer := rw_buyer trade;
     ix_supplier := rw_supplier trade;
     ix_status := rw_status trade;
     ix_totalAmountLocked := BigInt_text (rw_totalAmountLocked trade);
     ix_logisticsAmount := BigInt_text (rw_logisticsAmount trade);
     ix_platformFeesAmount := BigInt_text (rw_platformFeesAmount trade);
     ix_platformFeeNetAmount := BigInt_text (rw_platformFeeNetAmount trade);
     ix_settlementSupportFeeAmount := BigInt_text (rw_settlementSupportFeeAmount trade);
     ix_supplierFirstTranche := BigInt_text (rw_supplierFirstTranche trade);
     ix_supplierSecondTranche := BigInt_text (rw_supplierSecondTranche trade);
     ix_ricardianHash := rw_ricardianHash trade;
     ix_createdAt := rw_createdAt trade;
     ix_arrivalTimestamp := rw_arrivalTimestamp trade |}.

(** The names of the GraphQL enum [TradeStatus]. *)
Definition status_name (status : IndexerTypes.TradeStatus) : string :=
  match status with
  | IndexerTypes.LOCKED => "LOCKED" | IndexerTypes.IN_TRANSIT => "IN_TRANSIT"
  | IndexerTypes.ARRIVAL_CONFIRMED => "ARRIVAL_CONFIRMED" | IndexerTypes.FROZEN => "FROZEN"
  | IndexerTypes.CLOSED => "CLOSED"
  end.

(** The server answers a row's columns: a [BigInt] in decimal, an enum by name. *)
Definition serves (graphql : IndexerTypes.Trade -> RawIndexedTrade) : Prop :=
  forall t,
    rw_tradeId (graphql t) = tr_tradeId t /\ rw_buyer (graphql t) = tr_buyer t /\
    rw_supplier (graphql t) = tr_supplier t /\ rw_status (graphql t) = status_name (tr_status t) /\
    rw_totalAmountLocked (graphql t) = print_Z (tr_totalAmountLocked t) /\
    rw_logisticsAmount (graphql t) = print_Z (tr_logisticsAmount t) /\
    rw_platformFeesAmount (graphql t) = print_Z (tr_platformFeesAmount t) /\
    rw_platformFeeNetAmount (graphql t) = print_Z (tr_platformFeeNetAmount t) /\
    rw_settlementSupportFeeAmount (graphql t) = print_Z (tr_settlementSupportFeeAmount t) /\
    rw_supplierFirstTranche (graphql t) = print_Z (tr_supplierFirstTranche t) /\
    rw_supplierSecondTranche (graphql t) = print_Z (tr_supplierSecondTranche t) /\
    rw_ricardianHash (graphql t) = tr_ricardianHash t /\
    rw_arrivalTimestamp (graphql t) = tr_arrivalTimestamp t.

Lemma status_label_name status : statusLabel (status_number status) = status_name status.
Proof. by destruct status. Qed.

Lemma BigInt_print z : 0 <= z -> BigInt_text (print_Z z) = z.
Proof.
  intros H. unfold BigInt_text. destruct z as [|p|p]; [done| |lia].
  cbn [print_Z]. rewrite digits_value_print. lia.
Qed.

(** Arrival times of the contract are dates. *)
Lemma date_of_seconds_valid a : 0 <= a <= MAX_TIME_VALUE / 1000 ->
  js_number a = a /\ date_of_seconds a = Some (a * 1000).
Proof.
  intros H. assert (MAX_TIME_VALUE / 1000 = 8640000000000) as Hm by done. rewrite Hm in H.
  assert (js_number a = a) as Ha by (apply js_number_safe; lia). split; [done|].
  unfold date_of_seconds. rewrite Ha, js_number_safe by lia. unfold new_date, time_in_range, MAX_TIME_VALUE.
  rewrite !(proj2 (Z.leb_le _ _)) by lia. done.
Qed.

Lemma arrival_read a : 0 <= a <= MAX_TIME_VALUE / 1000 ->
  (if negb (a =? 0) && (0 <? js_number a) then Some (date_of_seconds a) else None)
  = (if a =? 0 then None else Some (Some (a * 1000))).
Proof.
  intros H. destruct (date_of_seconds_valid a H) as [-> ->].
  destruct (Z.eqb_spec a 0); [done|]. by rewrite (proj2 (Z.ltb_lt 0 a)) by lia.
Qed.

Section no_drift.
Context (isAddress : string -> bool) (getAddress : string -> string).
Context (graphql : IndexerTypes.Trade -> RawIndexedTrade).

(** A text [getAddress] prints: the form in which a decoder hands out addresses. *)
Definition checksummed (a : string) : Prop :=
  isAddress a = true /\ getAddress a = a /\ a <> "".

(** Checksumming restores the case of an address that was lower-cased. *)
Definition restores_case : Prop :=
  forall a, checksummed a -> isAddress (toLowerCase a) = true /\ getAddress (toLowerCase a) = a.

Lemma same_party_lower a : restores_case -> checksummed a ->
  same_party isAddress getAddress (toLowerCase a) a.
Proof.
  intros Hr Ha. destruct (Hr a Ha) as [H1 H2]. destruct Ha as (H3 & H4 & H5). exists a.
  unfold normalizeAddressOrNull. rewrite H1, H2, H3, H4. split_and!; [|done..]. by destruct a.
Qed.

Lemma row_amounts e id paused ct t :
  serves graphql -> chain_trade_ok e id ct -> trade_row id paused ct t ->
  amounts_agree (toIndexedTradeRecord (graphql t)) (getTrade ct).
Proof.
  intros Hg [_ _ Hfees _ _ _ _ Hlog [H1 H2] Htot] Ht.
  destruct (Hg t) as (_ & _ & _ & _ & G5 & G6 & G7 & _ & _ & G10 & G11 & _).
  unfold amounts_agree, toIndexedTradeRecord, getTrade. cbn [ReconTypes.ix_totalAmountLocked
    ix_logisticsAmount ix_platformFeesAmount ix_supplierFirstTranche ix_supplierSecondTranche
    t_totalAmountLocked t_logisticsAmount t_platformFeesAmount t_supplierFirstTranche
    t_supplierSecondTranche].
  rewrite G5, G6, G7, G10, G11, (trr_total _ _ _ _ Ht), (trr_logistics _ _ _ _ Ht),
    (trr_fees _ _ _ _ Ht), (trr_first _ _ _ _ Ht), (trr_second _ _ _ _ Ht).
  rewrite !BigInt_print by lia. done.
Qed.

Lemma row_fees id paused ct t :
  serves graphql -> 0 <= ct_platformFeesAmount ct -> trade_row id paused ct t ->
  fees_split (toIndexedTradeRecord (graphql t)).
Proof.
  intros Hg Hfees Ht. destruct (Hg t) as (_ & _ & _ & _ & _ & _ & G7 & G8 & G9 & _).
  pose proof (trr_split _ _ _ _ Ht) as Hs. unfold IndexerHandlers.splitPlatformFeeComponents in Hs.
  injection Hs as Hn Hu. unfold fees_split, toIndexedTradeRecord.
  cbn [ix_platformFeesAmount ix_platformFeeNetAmount ix_settlementSupportFeeAmount].
  rewrite G7, G8, G9, Hn, Hu, (trr_fees _ _ _ _ Ht).
  unfold SETTLEMENT_SUPPORT_FEE_BASE_UNITS, IndexerHandlers.SETTLEMENT_SUPPORT_FEE_BASE_UNITS.
  destruct (Z.ltb_spec (ct_platformFeesAmount ct) 4000000); rewrite !BigInt_print by lia; lia.
Qed.

(** A row that follows a trade of the contract agrees with it. *)
Lemma row_agrees e id paused ct t :
  restores_case -> serves graphql -> chain_trade_ok e id ct ->
  checksummed (ct_buyerAddress ct) -> checksummed (ct_supplierAddress ct) ->
  trade_row id paused ct t ->
  agrees isAddress getAddress (toIndexedTradeRecord (graphql t)) (getTrade ct).
Proof.
  intros Hr Hg Hok Hb Hs Ht.
  destruct (Hg t) as (_ & G2 & G3 & G4 & _ & _ & _ & _ & _ & _ & _ & G12 & G13).
  pose proof (cto_arrival _ _ _ Hok) as Ha. pose proof (arrival_read _ Ha) as Hread.
  destruct (date_of_seconds_valid _ Ha) as [_ Hd].
  pose proof (trr_arrival _ _ _ _ Ht) as Harr. rewrite Hd in Harr. split.
  - simpl. by rewrite G4, (trr_status _ _ _ _ Ht), status_label_name.
  - simpl. rewrite G2, (trr_buyer _ _ _ _ Ht). by apply same_party_lower.
  - simpl. rewrite G3, (trr_supplier _ _ _ _ Ht). by apply same_party_lower.
  - by eapply row_amounts.
  - by eapply row_fees; [|apply (cto_fees _ _ _ Hok)|].
  - simpl. by rewrite G12, (trr_hash _ _ _ _ Ht).
  - unfold toIndexedTradeRecord, getTrade. cbn [ix_arrivalTimestamp t_arrivalTimestamp].
    by rewrite G13, Harr, Hread.
  - unfold getTrade. cbn [t_arrivalTimestamp]. rewrite Hread. by destruct (_ =? _).
Qed.

(** C8. No drift from the pipeline itself: when the indexer has followed the
    contract's logs, it holds one trade for each id the contract has allocated,
    and comparing each of them with the chain trade reports nothing, whatever
    calls led there and wherever batches were cut. *)
Theorem indexer_agrees_with_chain ESCROW_ADDRESS FINGERPRINT parseLog localeCompare relations
    keccak256 e evs i :
  escrow_run keccak256 e evs ->
  reachable_indexer ESCROW_ADDRESS FINGERPRINT parseLog localeCompare relations i ->
  carries ESCROW_ADDRESS parseLog (ix_checkpoint i) evs -> ix_checkpoint i <> []%list ->
  restores_case -> serves graphql ->
  (forall id ct, es_trades e !! id = Some ct ->
     checksummed (ct_buyerAddress ct) /\ checksummed (ct_supplierAddress ct)) ->
  Z.of_nat (size (st_trades (ix_store i))) = es_tradeCounter e /\
  forall id, 0 <= id < es_tradeCounter e ->
    exists t, st_trades (ix_store i) !! print_Z id = Some t /\
      classifyDrifts isAddress getAddress (toIndexedTradeRecord (graphql t))
        (Some (getTrade (trades e id))) None = Ok [].
Proof.
  intros Hrun Hi Hc Hne Hr Hg Hparties.
  destruct (tracked_tables _ _ _ _ _ _ _ _ _ Hrun Hi Hc Hne) as (o & _ & Ht).
  destruct (run_tracked _ _ _ Hrun) as [_ Hok]. split; [apply (tk_size _ _ _ Ht)|].
  intros id Hid. destruct (ok_dense _ Hok id Hid) as [ct Hct].
  destruct (proj1 (tk_trades _ _ _ Ht) _ _ Hct) as (t & Hrow & Hrel). exists t. split; [done|].
  destruct (Hparties _ _ Hct) as [Hb Hs]. pose proof (ok_trades _ Hok _ _ Hct) as Hct_ok.
  apply classify_silent_spec. split; [done|]. unfold trades. rewrite Hct. simpl. eexists. split; [done|].
  split; [|by eapply row_agrees].
  unfold isZeroAddress, normalizeAddressOrNull, getTrade. cbn [t_buyer]. destruct Hb as (-> & -> & _). simpl.
  apply String.eqb_neq. apply (cto_buyer _ _ _ Hct_ok).
Qed.

End no_drift.
