(* ===== verification/IndexerSamples.v ===== *)
(** The theorems about the indexer on a concrete chain: a trade is created and
    its first tranche released, in two blocks; a third block carries a log that
    does not decode. *)
From stdpp Require Import base list gmap strings.
From S2P Require Import Prelude JsText JsDate IndexerTypes IndexerHandlers.
From S2P Require Import IndexerBatch IndexerView IndexerHistory IndexerSpec EscrowModel.
From S2P Require Import IndexerTracks IndexerSound IndexerCorrect ReconTypes ReconClassifier.
From S2P Require Import IndexerRecon.

Open Scope string_scope.
Open Scope Z_scope.
#[local] Open Scope list_scope.

(** ** The contract *)

Definition s_keccak (s : string) : string := "keccak:" ++ s.

Definition s_message : Message := {| msg_sender := "0xrelayer"; block_timestamp := 1700000000 |}.

Definition s_terms : TradeTerms :=
  {| tt_buyer := "0xbuyer"; tt_supplier := "0xsupplier"; tt_totalAmount := 60000000;
     tt_logisticsAmount := 5000000; tt_platformFeesAmount := 5000000;
     tt_supplierFirstTranche := 20000000; tt_supplierSecondTranche := 30000000;
     tt_ricardianHash := "0xagreement" |}.

Definition s_authorization : Authorization := {| au_nonce := 7; au_deadline := 1700000600 |}.

Definition s_create :=
  createTradeWithAuthorization s_keccak s_message s_terms s_authorization "0xnonce" deployed.

Definition s_call (r : result string (Escrow * list EscrowEvent)) : Escrow * list EscrowEvent :=
  match r with Ok x => x | Err _ => (deployed, []) end.

Definition s_created : Escrow := (s_call s_create).1.
Definition s_release := releaseFundsStage1 s_message "0xtreasury" 0 s_created.
Definition s_escrow : Escrow := (s_call s_release).1.
Definition s_events1 : list EscrowEvent := (s_call s_create).2.
Definition s_events2 : list EscrowEvent := (s_call s_release).2.
Definition s_events : list EscrowEvent := (([] ++ s_events1) ++ s_events2).

Lemma s_run1 : escrow_run s_keccak s_created ([] ++ s_events1).
Proof.
  apply (run_tx _ s_message deployed); [constructor|by vm_compute|].
  change (escrow_tx s_keccak s_message deployed s_create). constructor.
Defined.

Lemma s_run : escrow_run s_keccak s_escrow s_events.
Proof.
  apply (run_tx _ s_message s_created); [apply s_run1|by vm_compute|].
  change (escrow_tx s_keccak s_message s_created s_release). constructor.
Defined.

(** ** The chain the indexer reads *)

(** The data of a log names its event. *)
Definition s_parse (topics : list string) (data : string) : result string (option EscrowEvent) :=
  if digits_only data then Ok (s_events !! N.to_nat (digits_value data)) else Err "bad data".

Definition s_log (n : Z) (data : string) : Log :=
  {| lg_address := "0xESCROW"; lg_topics := []; lg_data := data; lg_logIndex := n;
     lg_transactionIndex := 0; lg_transaction := Ok "0xtx" |}.

Definition s_block (height : Z) (logs : list Log) : Block :=
  {| bk_height := height; bk_hash := "0xblock"; bk_timestamp := Some 1700000000000; bk_logs := logs |}.

Definition s_log_other : Log :=
  {| lg_address := "0xusdc"; lg_topics := []; lg_data := "transfer"; lg_logIndex := 50;
     lg_transactionIndex := 0; lg_transaction := Ok "0xtx" |}.

Definition s_block1 : Block := s_block 10 (s_log_other :: ((fun n => s_log n (print_Z n)) <$> seqZ 0 4)).
Definition s_block2 : Block := s_block 11 ((fun n => s_log n (print_Z n)) <$> seqZ 4 5).
Definition s_bad : Block := s_block 12 [s_log_other; s_log 20 "garbage"; s_log 21 "0"].

Definition s_locale (a b : string) : Z := 0.
Definition s_faults : Faults :=
  {| f_reads := reads_answer; f_quarantine := fun _ => false; f_alert := fun _ => false; f_persist := None;
     f_heap := fun _ => None |}.

Notation s_batch blocks i :=
  (processBatch "0xescrow" "abi" s_parse s_locale false s_faults 99 blocks (ix_store i) (ix_evidence i)).

(** The tables after a batch, unchanged when it fails. *)
Definition s_after (blocks : list Block) (i : Indexer) : Indexer :=
  match s_batch blocks i with
  | (Ok s, e) => {| ix_store := s; ix_checkpoint := ix_checkpoint i ++ blocks; ix_evidence := e |}
  | (Err _, e) => {| ix_store := ix_store i; ix_checkpoint := ix_checkpoint i; ix_evidence := e |}
  end.

Notation s_reachable := (reachable_indexer "0xescrow" "abi" s_parse s_locale false).

Lemma s_after_reachable blocks i : blocks <> [] -> s_reachable i -> s_reachable (s_after blocks i).
Proof.
  intros Hne Hi. eapply reach_step; [exact Hi|]. unfold s_after.
  destruct (s_batch blocks i) as [[s|error] e] eqn:E.
  - by eapply step_commit.
  - by eapply step_rollback.
Qed.

Definition s_indexer1 : Indexer := s_after [s_block1] initial_indexer.
Definition s_halted : Indexer := s_after [s_bad] s_indexer1.
Definition s_indexer : Indexer := s_after [s_block2] s_halted.

Lemma s_indexer1_reachable : s_reachable s_indexer1.
Proof. apply s_after_reachable; [done|constructor]. Qed.

Lemma s_halted_reachable : s_reachable s_halted.
Proof. apply s_after_reachable; [done|apply s_indexer1_reachable]. Qed.

Lemma s_indexer_reachable : s_reachable s_indexer.
Proof. apply s_after_reachable; [done|apply s_halted_reachable]. Qed.

Example s_checkpoint : ix_checkpoint s_indexer = [s_block1; s_block2].
Proof. vm_compute. reflexivity. Qed.

Example s_status : tr_status <$> st_trades (ix_store s_indexer) !! "0" = Some IndexerTypes.IN_TRANSIT.
Proof. vm_compute. reflexivity. Qed.

Example s_unresolved : countUnresolved (e_quarantine (ix_evidence s_indexer)) = 1.
Proof. vm_compute. reflexivity. Qed.

Lemma s_carries : carries "0xescrow" s_parse (ix_checkpoint s_indexer) s_events.
Proof.
  unfold carries. rewrite s_checkpoint.
  vm_compute. repeat (constructor; [split; [vm_compute; reflexivity|by eexists]|]). constructor.
Qed.

(** ** Witnesses *)

Lemma projection_is_replay_witness :
  replay "0xescrow" "abi" s_parse s_locale false (ix_checkpoint s_indexer) empty_store
    = Ok (ix_store s_indexer).
Proof. apply projection_is_replay. apply s_indexer_reachable. Defined.

Lemma every_log_indexed_witness :
  length (escrow_logs "0xescrow" (ix_checkpoint s_indexer)) = 9%nat /\
  events_exact s_parse (escrow_logs "0xescrow" (ix_checkpoint s_indexer)) (ix_store s_indexer).
Proof.
  split; [vm_compute; reflexivity|].
  apply every_log_indexed with (ESCROW_ABI_FINGERPRINT := "abi") (localeCompare := s_locale)
    (relations := false); [apply s_indexer_reachable|].
  apply (bool_decide_unpack _). vm_compute. exact I.
Defined.

Definition s_entry : QuarantinedLogEntry :=
  buildQuarantinedLogEntry
    {| pi_context := poison_context "abi" s_bad (s_log 20 "garbage"); pi_reason := UNDECODABLE;
       pi_error := "bad data"; pi_eventName := None |}.

Lemma halt_leaves_evidence_witness :
  s_batch [s_bad] s_indexer1 = (Err (PoisonLogHaltError s_entry), ix_evidence s_halted) /\
  s_entry ∈ e_alerts (ix_evidence s_halted) /\
  exists bs1 block bs2, [s_bad] = (bs1 ++ block :: bs2)%list /\
    forall i' later, s_reachable i' -> ix_checkpoint i' <> ix_checkpoint s_indexer1 ++ bs1 ++ block :: later.
Proof.
  assert (s_batch [s_bad] s_indexer1 = (Err (PoisonLogHaltError s_entry), ix_evidence s_halted)) as H
    by (vm_compute; reflexivity).
  split; [exact H|].
  destruct (halt_leaves_evidence "0xescrow" "abi" s_parse s_locale false s_faults 99 [s_bad]
              s_indexer1 s_entry (ix_evidence s_halted) s_indexer1_reachable H)
    as ((bs1 & block & bs2 & ? & ? & ? & ? & ? & Hb & _ & _ & _ & _ & Hw) & H1 & _).
  split; [exact (H1 eq_refl)|]. exists bs1, block, bs2. split; [exact Hb|].
  destruct Hw as [[_ Hw]|[_ [r Hr]]]; [exact Hw|discriminate Hr].
Defined.

(** A database that times out on trades: a log of the contract halts the batch. *)
Definition s_timeout : Faults :=
  {| f_reads := fun r => match r with ReadTrade _ => Some "timeout" | _ => None end;
     f_quarantine := fun _ => false; f_alert := fun _ => false; f_persist := None;
     f_heap := fun _ => None |}.

Example s_read_rejected :
  match (processBatch "0xescrow" "abi" s_parse s_locale false s_timeout 99 [s_block2]
           (ix_store s_halted) (ix_evidence s_halted)).1 with
  | Err (PoisonLogHaltError entry) => (qe_reason entry, qe_errorMessage entry)
  | _ => (UNDECODABLE, "")
  end = (HANDLER_FAILURE, "timeout").
Proof. vm_compute. reflexivity. Qed.


Lemma escrow_never_halts_witness :
  ix_checkpoint s_halted = [s_block1] /\
  exists s', s_batch [s_block2] s_halted = (Ok s', ix_evidence s_halted).
Proof.
  split; [vm_compute; reflexivity|].
  destruct (escrow_never_halts "0xescrow" "abi" s_parse s_locale false s_keccak s_escrow s_events
              s_halted s_faults 99 [s_block2] s_run s_halted_reachable s_carries
              ltac:(discriminate)) as [H _].
  exact (H (fun _ => eq_refl) eq_refl).
Defined.

(** Texts in lower case stand for addresses, the server answers the columns. *)
Definition s_graphql (t : IndexerTypes.Trade) : RawIndexedTrade :=
  {| rw_tradeId := tr_tradeId t; rw_buyer := tr_buyer t; rw_supplier := tr_supplier t;
     rw_status := status_name (tr_status t);
     rw_totalAmountLocked := print_Z (tr_totalAmountLocked t);
     rw_logisticsAmount := print_Z (tr_logisticsAmount t);
     rw_platformFeesAmount := print_Z (tr_platformFeesAmount t);
     rw_platformFeeNetAmount := print_Z (tr_platformFeeNetAmount t);
     rw_settlementSupportFeeAmount := print_Z (tr_settlementSupportFeeAmount t);
     rw_supplierFirstTranche := print_Z (tr_supplierFirstTranche t);
     rw_supplierSecondTranche := print_Z (tr_supplierSecondTranche t);
     rw_ricardianHash := tr_ricardianHash t; rw_createdAt := tr_createdAt t;
     rw_arrivalTimestamp := tr_arrivalTimestamp t |}.

Lemma s_restores_case : restores_case truthy toLowerCase.
Proof. intros a (_ & Ha & Hne). rewrite Ha. split; [by destruct a|done]. Qed.

Lemma s_parties id ct : es_trades s_escrow !! id = Some ct ->
  checksummed truthy toLowerCase (ct_buyerAddress ct) /\
  checksummed truthy toLowerCase (ct_supplierAddress ct).
Proof.
  intros H. assert (is_Some (es_trades s_escrow !! id)) as Hs by eauto.
  apply elem_of_dom in Hs. assert (dom (es_trades s_escrow) = {[0]}) as Hd by (vm_compute; reflexivity).
  rewrite Hd in Hs. apply elem_of_singleton in Hs as ->.
  assert (es_trades s_escrow !! 0 = Some (trades s_escrow 0)) as H0 by (vm_compute; reflexivity).
  rewrite H0 in H. injection H as <-. by vm_compute.
Qed.

Lemma indexer_agrees_with_chain_witness :
  es_tradeCounter s_escrow = 1 /\ Z.of_nat (size (st_trades (ix_store s_indexer))) = 1.
Proof.
  split; [vm_compute; reflexivity|].
  apply (indexer_agrees_with_chain truthy toLowerCase s_graphql "0xescrow" "abi" s_parse s_locale false
           s_keccak s_escrow s_events s_indexer s_run s_indexer_reachable s_carries);
    [rewrite s_checkpoint; discriminate|exact s_restores_case|intros t; by repeat split|exact s_parties].
Defined.
