(* ===== verification/FeeFeed.v ===== *)
(** The page of fee events treasury reads ([treasury/src/indexer/client.ts]) from the
    indexer's tables, and the composition: over every history of the two services
    the treasury's ledger holds the fees of the contract's trades.

    The GraphQL server is not part of the sources; [fee_feed] and [row_slice] are
    the documented meaning of the query: the selected rows in the order of block
    and log, limit and offset. *)
From stdpp Require Import base list gmap strings sorting.
From S2P Require Import Prelude JsText JsDate IndexerTypes IndexerHandlers.
From S2P Require Import IndexerBatch IndexerView IndexerHistory EscrowModel IndexerTracks IndexerSound.
From S2P Require Import EscrowFees IndexerCorrect FeeFlow TreasuryAmount TreasuryPolicy TreasuryChain.
From S2P Require Import TreasuryDb TreasuryLedger TreasuryDbInv TreasuryIngest TreasuryCover.

Open Scope string_scope.
Open Scope Z_scope.
#[local] Open Scope list_scope.

(** ** The page (client.ts, [fetchTreasuryEvents]) *)

(** A nullable [BigInt] column, as GraphQL prints it. *)
Definition big_column (name : string) (row : EventRow) : option string :=
  match List.find (fun c => String.eqb c.1 name) (ev_columns row) with
  | Some (_, BigIntColumn z) => Some (print_Z z)
  | _ => None
  end.

(** [None]: the row has no trade, and [event.trade.tradeId] throws. *)
Definition toIndexerTradeEvent (s : Store) (row : EventRow) : option IndexerTradeEvent :=
  k ← ev_parent row;
  trade ← st_trades s !! k;
  timestamp ← ev_timestamp row;
  Some {| te_id := ev_id row; te_tradeId := tr_tradeId trade; te_eventName := ev_eventName row;
          te_txHash := Some (ev_txHash row); te_blockNumber := ev_blockNumber row;
          te_logIndex := ev_logIndex row; te_timestamp := timestamp;
          te_releasedLogisticsAmount := truthy_text (big_column "releasedLogisticsAmount" row);
          te_paidPlatformFees := truthy_text (big_column "paidPlatformFees" row);
          te_paidPlatformFeeNet := truthy_text (big_column "paidPlatformFeeNet" row);
          te_paidSettlementSupportFee := truthy_text (big_column "paidSettlementSupportFee" row) |}.

Definition position_le (a b : EventRow) : Prop :=
  ev_blockNumber a < ev_blockNumber b \/
  ev_blockNumber a = ev_blockNumber b /\ ev_logIndex a <= ev_logIndex b.

Definition is_fee_row (row : EventRow) : bool :=
  String.eqb (ev_eventName row) "FundsReleasedStage1" ||
  String.eqb (ev_eventName row) "PlatformFeesPaidStage1".

(** The rows of the two names, in the order of the query. *)
Record fee_feed (s : Store) (rows : list EventRow) : Prop := {
  ff_rows : rows ≡ₚ filter (fun row => is_fee_row row = true) (map_to_list (st_tradeEvents s)).*2;
  ff_sorted : StronglySorted position_le rows
}.

Definition row_in (win : IndexerBlockWindow) (row : EventRow) : Prop :=
  bw_fromBlock win <= ev_blockNumber row <= bw_toBlock win.

#[export] Instance row_in_dec win row : Decision (row_in win row).
Proof. unfold row_in. apply _. Defined.

Definition row_slice (rows : list EventRow) (win : IndexerBlockWindow) : list EventRow :=
  take (Z.to_nat (bw_limit win)) (drop (Z.to_nat (bw_offset win)) (filter (row_in win) rows)).

(** ** Rows as events

    [read_event] is what [toIndexerTradeEvent] answers while the trade exists. *)
Definition read_event (row : EventRow) : IndexerTradeEvent :=
  {| te_id := ev_id row; te_tradeId := default "" (ev_parent row); te_eventName := ev_eventName row;
     te_txHash := Some (ev_txHash row); te_blockNumber := ev_blockNumber row;
     te_logIndex := ev_logIndex row; te_timestamp := default 0 (ev_timestamp row);
     te_releasedLogisticsAmount := truthy_text (big_column "releasedLogisticsAmount" row);
     te_paidPlatformFees := truthy_text (big_column "paidPlatformFees" row);
     te_paidPlatformFeeNet := truthy_text (big_column "paidPlatformFeeNet" row);
     te_paidSettlementSupportFee := truthy_text (big_column "paidSettlementSupportFee" row) |}.

Lemma read_event_row s row ev :
  keyed (st_trades s) -> toIndexerTradeEvent s row = Some ev -> ev = read_event row.
Proof.
  intros Hk. unfold toIndexerTradeEvent. destruct (ev_parent row) as [k|] eqn:Ep; [|done]. simpl.
  destruct (st_trades s !! k) as [t|] eqn:Et; [|done]. simpl.
  destruct (ev_timestamp row) as [ts|] eqn:Es; [|done]. intros [= <-].
  unfold read_event. destruct (Hk _ _ Et) as [_ ->]. by rewrite Ep, Es.
Qed.

Lemma read_fee_events s rows page :
  keyed (st_trades s) -> mapM (toIndexerTradeEvent s) rows = Some page -> page = read_event <$> rows.
Proof.
  intros Hk H%mapM_Some. induction H as [|row ev rows page H _ IH]; [done|].
  simpl. by rewrite (read_event_row _ _ _ Hk H), IH.
Qed.

Lemma trade_slice_rows rows win :
  trade_slice (read_event <$> rows) win = read_event <$> row_slice rows win.
Proof.
  unfold trade_slice, row_slice. rewrite fmap_take, fmap_drop. do 2 f_equal.
  induction rows as [|row rows IH]; [done|]. rewrite fmap_cons, !filter_cons.
  change (in_window win (read_event row)) with (row_in win row). rewrite IH.
  repeat case_decide; tauto.
Qed.

(** ** The lines of a fee event *)

(** The components an event of the contract pays. *)
Definition event_fees (e : EscrowEvent) : list (TreasuryComponent * Z) :=
  match e with
  | FundsReleasedStage1 _ _ _ _ logistics => [(LOGISTICS, logistics)]
  | PlatformFeesPaidStage1 _ _ _ (Some net) (Some support) =>
      List.filter (fun p : TreasuryComponent * Z => 0 <? p.2) [(PLATFORM_FEE, net); (SETTLEMENT_SUPPORT_FEE, support)]
  | _ => []
  end.

Definition event_trade (e : EscrowEvent) : Z := default 0 (fee_trade e).

(** Both parts of a platform fee are in the event, and no amount is negative. *)
Definition fees_given (e : EscrowEvent) : Prop :=
  match e with
  | FundsReleasedStage1 _ _ _ _ logistics => 0 <= logistics
  | PlatformFeesPaidStage1 _ _ _ net support =>
      exists n s, net = Some n /\ support = Some s /\ 0 <= n /\ 0 <= s
  | _ => True
  end.

Lemma fee_log_lines parseLog bl e row :
  fee_log parseLog bl e row -> fees_given e -> ev_txHash row <> "" ->
  fee_lines (read_event row) = (fun p => (p.1, print_Z p.2)) <$> event_fees e.
Proof.
  intros (hash & id & name & columns & _ & _ & Hc & ->) Hg Htx.
  assert (Hh : truthy_text (Some hash) = Some hash).
  { unfold truthy_text, truthy. simpl in Htx. by rewrite (proj2 (String.eqb_neq _ _) Htx). }
  destruct e; try discriminate Hc; injection Hc as <- <- <-; unfold fee_lines, logistics_lines, read_event, new_event; cbn -[print_Z truthy_text].
  - by rewrite Hh, !print_Z_text.
  - destruct Hg as (n & s & -> & -> & Hn & Hs). rewrite Hh, !print_Z_text. simpl.
    unfold resolvePlatformFeeSplit. cbn -[print_Z truthy_text].
    rewrite !print_Z_text, !to_bigint_print by done. unfold platform_lines. simpl.
    rewrite !Z.leb_antisym. destruct (0 <? n), (0 <? s); reflexivity.
Qed.

(** ** The feed of an indexer *)

Section feed.
Context (ESCROW_ADDRESS ESCROW_ABI_FINGERPRINT : string).
Context (parseLog : list string -> string -> result string (option EscrowEvent)).
Context (localeCompare : string -> string -> Z) (relations : bool).

#[local] Notation escrow_logs := (escrow_logs ESCROW_ADDRESS).
#[local] Notation fee_log := (fee_log parseLog).
#[local] Notation reachable_indexer :=
  (reachable_indexer ESCROW_ADDRESS ESCROW_ABI_FINGERPRINT parseLog localeCompare relations).

(** The blocks of a chain: heights grow, a log has its own id and its own position. *)
Record chain_ok (blocks : list Block) : Prop := {
  ch_heights : StronglySorted (fun a b => bk_height a < bk_height b) blocks;
  ch_from : forall b, b ∈ blocks -> 0 <= bk_height b;
  ch_ids : NoDup (log_event_id <$> escrow_logs blocks);
  ch_positions : forall x y, x ∈ escrow_logs blocks -> y ∈ escrow_logs blocks ->
    bk_height x.1 = bk_height y.1 -> lg_logIndex x.2 = lg_logIndex y.2 -> x = y;
  ch_hashes : forall x h, x ∈ escrow_logs blocks -> lg_transaction x.2 = Ok h -> h <> ""
}.

Lemma escrow_logs_app l l' : escrow_logs (l ++ l') = escrow_logs l ++ escrow_logs l'.
Proof. apply bind_app. Qed.

Lemma chain_ok_prefix l l' : l `prefix_of` l' -> chain_ok l' -> chain_ok l.
Proof.
  intros [k ->] [H1 H2 H3 H4 H5]. rewrite escrow_logs_app in *. split.
  - by apply StronglySorted_app_1_l in H1.
  - set_solver.
  - rewrite fmap_app in H3. by apply NoDup_app in H3 as [? _].
  - set_solver.
  - set_solver.
Qed.

Lemma is_fee_event ev : is_fee_row ev = true <->
  ev_eventName ev = "FundsReleasedStage1" \/ ev_eventName ev = "PlatformFeesPaidStage1".
Proof. unfold is_fee_row. by rewrite orb_true_iff, !String.eqb_eq. Qed.

Lemma fee_columns_name e : is_Some (dispatch e) -> (exists x, fee_columns e = Some x) <->
  event_name e = "FundsReleasedStage1" \/ event_name e = "PlatformFeesPaidStage1".
Proof.
  intros Hd. destruct e; simpl; split; intros H; try (by destruct H as [? [=]]);
    try (by destruct H as [[=]|[=]]); try (by left); try (by right); try (by eexists).
  by destruct Hd.
Qed.

Lemma indexer_events i : reachable_indexer i -> chain_ok (ix_checkpoint i) ->
  events_exact parseLog (escrow_logs (ix_checkpoint i)) (ix_store i).
Proof.
  intros Hr%history_replay Hch.
  by apply (events_exact_replay _ _ _ _ _ _ empty_store _ []) in Hr;
    [|apply keyed_empty|apply events_exact_empty|apply (ch_ids _ Hch)].
Qed.

(** The rows of the feed are those of the fee logs behind the checkpoint. *)
Lemma feed_log i rows row :
  reachable_indexer i -> chain_ok (ix_checkpoint i) -> fee_feed (ix_store i) rows ->
  row ∈ rows <-> exists bl e, bl ∈ escrow_logs (ix_checkpoint i) /\ fee_log bl e row.
Proof.
  intros Hr Hch Hf. destruct (indexer_fee_rows _ _ _ _ _ _ Hr (ch_ids _ Hch)) as [Hk Hrows].
  rewrite (ff_rows _ _ Hf).
  assert (Hin : row ∈ filter (fun row => is_fee_row row = true) (map_to_list (st_tradeEvents (ix_store i))).*2 <->
    is_fee_row row = true /\ exists id, st_tradeEvents (ix_store i) !! id = Some row).
  { rewrite list_elem_of_filter, list_elem_of_fmap. split.
    - intros [Hn ([id row'] & -> & H%elem_of_map_to_list)]. split; [done|by exists id].
    - intros [Hn [id H%elem_of_map_to_list]]. split; [done|by exists (id, row)]. }
  rewrite Hin. split.
  - intros [Hn [id Hid]]. pose proof (indexer_events _ Hr Hch) as Hex.
    destruct (events_exact_row _ _ _ TradeEvents id row Hex Hid) as (bl & Hbl & -> & e & Hp & Hd & Hid' & Hname & _ & _ & Hh & _).
    simpl in Hbl. exists bl, e. split; [done|]. apply is_fee_event in Hn. rewrite Hname in Hn.
    apply (fee_columns_name _ Hd) in Hn as [[[tid name] columns] Hc].
    assert (Hl : fee_log bl e (new_event (log_context bl.1 bl.2 (ev_txHash row)) name (Some (print_Z tid)) columns))
      by (exists (ev_txHash row), tid, name, columns; by split_and!).
    destruct (Hrows _ _ _ Hbl Hl) as [Hrow _]. rewrite Hid in Hrow. injection Hrow as ->. done.
  - intros (bl & e & Hbl & Hl). destruct (Hrows _ _ _ Hbl Hl) as [Hrow _]. split; [|eauto].
    destruct Hl as (h & tid & name & columns & _ & _ & Hc & ->). apply is_fee_event. simpl.
    destruct e; try discriminate Hc; injection Hc as <- <- <-; auto.
Qed.

Lemma fee_log_place bl e row : fee_log bl e row ->
  ev_id row = log_event_id bl /\ ev_blockNumber row = bk_height bl.1 /\
  ev_logIndex row = lg_logIndex bl.2 /\ lg_transaction bl.2 = Ok (ev_txHash row) /\
  ev_parent row = Some (print_Z (event_trade e)) /\ ev_eventName row = event_name e /\
  parseLog (lg_topics bl.2) (lg_data bl.2) = Ok (Some e) /\ is_Some (fee_trade e).
Proof.
  intros (h & tid & name & columns & Hp & Hh & Hc & ->).
  split_and!; try done.
  - unfold log_event_id, safeTransactionHash. by rewrite Hh.
  - destruct e; try discriminate Hc; by injection Hc as <- <- <-.
  - destruct e; try discriminate Hc; by injection Hc as <- <- <-.
  - destruct e; try discriminate Hc; simpl; eauto.
Qed.

Lemma fee_log_row bl e e' row row' : fee_log bl e row -> fee_log bl e' row' -> e' = e /\ row' = row.
Proof.
  intros (h & tid & name & columns & Hp & Hh & Hc & ->) (h' & tid' & name' & columns' & Hp' & Hh' & Hc' & ->).
  rewrite Hp in Hp'. injection Hp' as <-. rewrite Hh in Hh'. injection Hh' as <-.
  rewrite Hc in Hc'. by injection Hc' as <- <- <-.
Qed.

Lemma feed_nodup i rows : reachable_indexer i -> chain_ok (ix_checkpoint i) ->
  fee_feed (ix_store i) rows -> NoDup rows.
Proof.
  intros Hr Hch Hf. rewrite (ff_rows _ _ Hf). apply NoDup_filter.
  pose proof (indexer_events _ Hr Hch) as Hex.
  assert (Hkey : forall id row, st_tradeEvents (ix_store i) !! id = Some row -> ev_id row = id).
  { intros id row Hid. by destruct (events_exact_row _ _ _ TradeEvents id row Hex Hid) as (bl & _ & -> & e & _ & _ & ? & _). }
  apply NoDup_fmap_2_strong; [|apply NoDup_map_to_list].
  intros [id row] [id' row'] H%elem_of_map_to_list H'%elem_of_map_to_list. simpl. intros <-.
  apply Hkey in H, H'. by subst.
Qed.

(** The processed height of an indexer; its blocks are those up to it. *)
Definition processed_height (i : Indexer) : option Z := ov_lastProcessedBlock <$> st_overview (ix_store i).

Lemma processed_last i p : reachable_indexer i -> processed_height i = Some p ->
  exists block, last (ix_checkpoint i) = Some block /\ bk_height block = p.
Proof.
  intros Hr%history_replay Hp.
  destruct (replay_height _ _ _ _ _ _ _ _ keyed_empty Hr) as [_ Hl]. unfold processed_height in Hp.
  destruct (last (ix_checkpoint i)) as [block|].
  - destruct Hl as (o & Ho & Hh). exists block. split; [done|]. rewrite Ho in Hp. simpl in Hp. congruence.
  - by rewrite Hl in Hp.
Qed.

Lemma processed_covers m final p bl :
  reachable_indexer m -> chain_ok (ix_checkpoint final) -> ix_checkpoint m `prefix_of` ix_checkpoint final ->
  processed_height m = Some p -> bl ∈ escrow_logs (ix_checkpoint final) -> bk_height bl.1 <= p ->
  bl ∈ escrow_logs (ix_checkpoint m).
Proof.
  intros Hr Hch [rest Hpre] Hp Hbl Hle. destruct (processed_last _ _ Hr Hp) as (block & Hlast & <-).
  rewrite Hpre, escrow_logs_app in Hbl. apply elem_of_app in Hbl as [Hbl|Hbl]; [done|exfalso].
  pose proof (ch_heights _ Hch) as Hs. rewrite Hpre in Hs.
  assert (Hin : bl.1 ∈ rest).
  { unfold IndexerHistory.escrow_logs in Hbl. apply list_elem_of_bind in Hbl as (b & H & Hb).
    apply list_elem_of_fmap in H as (l & -> & _). done. }
  assert (Hlast' : block ∈ ix_checkpoint m) by (apply last_Some in Hlast as [k ->]; set_solver).
  pose proof (StronglySorted_app_1_elem_of _ _ _ _ _ Hs Hlast' Hin) as H. simpl in H. lia.
Qed.

(** An earlier indexer answers a window it has processed as the final one does. *)
Lemma feed_window m n final p win rows_n rows :
  reachable_indexer m -> reachable_indexer n -> reachable_indexer final -> chain_ok (ix_checkpoint final) ->
  ix_checkpoint m `prefix_of` ix_checkpoint n -> ix_checkpoint n `prefix_of` ix_checkpoint final ->
  processed_height m = Some p -> bw_toBlock win <= p ->
  fee_feed (ix_store n) rows_n -> fee_feed (ix_store final) rows ->
  filter (row_in win) rows_n = filter (row_in win) rows.
Proof.
  intros Hm Hn Hf Hch Hmn Hnf Hp Hto Hfn Hff.
  pose proof (chain_ok_prefix _ _ Hnf Hch) as Hchn.
  assert (Hlogs : forall row, row ∈ filter (row_in win) rows_n <-> row ∈ filter (row_in win) rows).
  { intros row. rewrite !list_elem_of_filter, (feed_log _ _ _ Hn Hchn Hfn), (feed_log _ _ _ Hf Hch Hff).
    split; intros [Hw (bl & e & Hbl & Hl)]; (split; [done|]); exists bl, e; (split; [|done]).
    - destruct Hnf as [k ->]. rewrite escrow_logs_app. set_solver.
    - destruct (fee_log_place _ _ _ Hl) as (_ & Hh & _). unfold row_in in Hw. rewrite Hh in Hw.
      assert (bl ∈ escrow_logs (ix_checkpoint m)) as Hin.
      { eapply processed_covers; [exact Hm|exact Hch|by etrans|exact Hp|done|lia]. }
      destruct Hmn as [k ->]. rewrite escrow_logs_app. set_solver. }
  apply (StronglySorted_unique_strong position_le).
  - intros r1 r2 [_ H1]%list_elem_of_filter [_ H2]%list_elem_of_filter H12 H21.
    apply (feed_log _ _ _ Hn Hchn Hfn) in H1 as (b1 & e1 & Hb1 & Hl1).
    apply (feed_log _ _ _ Hf Hch Hff) in H2 as (b2 & e2 & Hb2 & Hl2).
    destruct (fee_log_place _ _ _ Hl1) as (_ & Hh1 & Hi1 & _).
    destruct (fee_log_place _ _ _ Hl2) as (_ & Hh2 & Hi2 & _).
    unfold position_le in *. rewrite Hh1, Hh2, Hi1, Hi2 in *.
    assert (b1 = b2) as ->.
    { apply (ch_positions _ Hch); [|done|lia..]. destruct Hnf as [k ->]. rewrite escrow_logs_app. set_solver. }
    by destruct (fee_log_row _ _ _ _ _ Hl1 Hl2).
  - apply sorted_filter, Hfn.
  - apply sorted_filter, Hff.
  - apply NoDup_Permutation; [..|done]; apply NoDup_filter;
      [exact (feed_nodup _ _ Hn Hchn Hfn)|exact (feed_nodup _ _ Hf Hch Hff)].
Qed.

(** ** A treasury that reads the indexer *)

(** The indexer over time, up to its present state: checkpoints only grow. *)
Record timeline (final : Indexer) (at_ : nat -> Indexer) : Prop := {
  tl_reachable : forall n, reachable_indexer (at_ n);
  tl_grows : forall m n, (m <= n)%nat -> ix_checkpoint (at_ m) `prefix_of` ix_checkpoint (at_ n);
  tl_final : forall n, ix_checkpoint (at_ n) `prefix_of` ix_checkpoint final
}.

(** The world of a run whose indexer answers, when it answers, from its tables at
    that moment, and in which other processes do not ingest. *)
Record reads_indexer (final : Indexer) (w : World) : Prop := {
  ri_other : forall n d, rtc concurrent d (w_other w n d);
  ri_indexer : exists at_, timeline final at_ /\
    (forall n x, w_processed w n = Ok x -> x = processed_height (at_ n)) /\
    (forall n win page, w_tradePage w n win = Ok page -> exists rows,
       fee_feed (ix_store (at_ n)) rows /\
       mapM (toIndexerTradeEvent (ix_store (at_ n))) (row_slice rows win) = Some page)
}.

Lemma reads_faithful final rows w :
  reachable_indexer final -> chain_ok (ix_checkpoint final) -> fee_feed (ix_store final) rows ->
  reads_indexer final w -> faithful (read_event <$> rows) w.
Proof.
  intros Hr Hch Hf [Hother (at_ & [Hre Hgr Hfin] & Hproc & Hpage)]. split; [done|].
  intros m n p win page Hp Hmn Hto Hw. apply Hproc in Hp. destruct (Hpage _ _ _ Hw) as (rows_n & Hfn & Hpg).
  pose proof (chain_ok_prefix _ _ (Hfin n) Hch) as Hchn.
  destruct (indexer_fee_rows _ _ _ _ _ _ (Hre n) (ch_ids _ Hchn)) as [Hk _].
  apply (read_fee_events _ _ _ Hk) in Hpg. rewrite trade_slice_rows, Hpg. unfold row_slice.
  erewrite (feed_window (at_ m) (at_ n) final); [done|done|done|done|done| |done|by symmetry|done|done|done].
  apply Hgr. lia.
Qed.

Lemma feed_ordered final rows :
  reachable_indexer final -> chain_ok (ix_checkpoint final) -> fee_feed (ix_store final) rows ->
  events_ordered (read_event <$> rows).
Proof.
  intros Hr Hch Hf. split.
  - intros a (row & -> & Hin)%list_elem_of_fmap. apply (feed_log _ _ _ Hr Hch Hf) in Hin as (bl & e & Hbl & Hl).
    destruct (fee_log_place _ _ _ Hl) as (_ & Hh & _). simpl. rewrite Hh. apply (ch_from _ Hch).
    unfold IndexerHistory.escrow_logs in Hbl. apply list_elem_of_bind in Hbl as (b & H & Hb).
    by apply list_elem_of_fmap in H as (l & -> & _).
  - pose proof (ff_sorted _ _ Hf) as Hs. clear Hf. induction Hs as [|row rows _ IH Hx]; [constructor|].
    rewrite fmap_cons. constructor; [done|]. rewrite Forall_forall. rewrite Forall_forall in Hx.
    intros ev (row' & -> & Hin)%list_elem_of_fmap. apply Hx in Hin. unfold position_le in Hin. simpl. lia.
  - intros a b (row & -> & Hin)%list_elem_of_fmap (row' & -> & Hin')%list_elem_of_fmap Hid. simpl in Hid.
    apply (feed_log _ _ _ Hr Hch Hf) in Hin as (bl & e & Hbl & Hl), Hin' as (bl' & e' & Hbl' & Hl').
    destruct (fee_log_place _ _ _ Hl) as (Hi & _), (fee_log_place _ _ _ Hl') as (Hi' & _).
    assert (bl = bl') as <-.
    { rewrite Hi, Hi' in Hid. apply list_elem_of_lookup in Hbl as [k Hk], Hbl' as [k' Hk'].
      assert (k = k') as <-.
      { eapply (NoDup_lookup _ _ _ _ (ch_ids _ Hch)); rewrite list_lookup_fmap;
          [by rewrite Hk|rewrite Hk'; simpl; by rewrite Hid]. }
      congruence. }
    by destruct (fee_log_row _ _ _ _ _ Hl Hl') as [_ ->].
Qed.

(** ** The contract's fees *)

(** The fee of a component, as the contract splits it. *)
Definition contract_fee (ct : ChainTrade) (c : TreasuryComponent) : Z :=
  match c with
  | LOGISTICS => ct_logisticsAmount ct
  | PLATFORM_FEE => (split_fee (ct_platformFeesAmount ct)).1
  | SETTLEMENT_SUPPORT_FEE => (split_fee (ct_platformFeesAmount ct)).2
  end.

(** A ledger entry for that component of that trade. *)
Definition fee_entry (id : Z) (ct : ChainTrade) (c : TreasuryComponent) (entry : LedgerEntry) : Prop :=
  le_trade_id entry = print_Z id /\ le_component_type entry = c /\
  le_amount_raw entry = print_Z (contract_fee ct c).

(** The contract took its fees of the trade. *)
Definition fees_taken (evs : list EscrowEvent) (id : Z) (ct : ChainTrade) : Prop :=
  ct_status ct ∈ [IN_TRANSIT; ARRIVAL_CONFIRMED; FROZEN] \/ exists ev, ev ∈ evs /\ fee_trade ev = Some id.

Definition fee_due (ct : ChainTrade) (c : TreasuryComponent) : Prop := c = LOGISTICS \/ 0 < contract_fee ct c.

Lemma split_fee_nonneg fees : 0 <= fees -> 0 <= (split_fee fees).1 /\ 0 <= (split_fee fees).2.
Proof. intros H. unfold split_fee, EscrowModel.SETTLEMENT_SUPPORT_FEE. simpl. destruct (Z.ltb_spec fees 4000000); lia. Qed.

Lemma announced_events id ct treasury ev : ev ∈ announced id ct treasury <->
  ev = FundsReleasedStage1 id (ct_supplierAddress ct) (ct_supplierFirstTranche ct) treasury (ct_logisticsAmount ct) \/
  ev = PlatformFeesPaidStage1 id treasury (ct_platformFeesAmount ct)
         (Some (contract_fee ct PLATFORM_FEE)) (Some (contract_fee ct SETTLEMENT_SUPPORT_FEE)).
Proof. unfold announced, contract_fee. destruct (split_fee _) as [n s]. set_solver. Qed.

Lemma announced_fee id ct treasury ev c a :
  ev ∈ announced id ct treasury -> (c, a) ∈ event_fees ev -> a = contract_fee ct c.
Proof.
  intros [-> | ->]%announced_events; simpl; [set_solver|].
  destruct (0 <? _), (0 <? _); set_solver.
Qed.

Lemma announced_component id ct treasury ev ev' c a a' :
  ev ∈ announced id ct treasury -> ev' ∈ announced id ct treasury ->
  (c, a) ∈ event_fees ev -> (c, a') ∈ event_fees ev' -> ev = ev'.
Proof.
  intros [-> | ->]%announced_events [-> | ->]%announced_events; try done; simpl;
    destruct (0 <? _), (0 <? _); set_solver.
Qed.

Lemma announced_due id ct treasury c : fee_due ct c ->
  exists ev, ev ∈ announced id ct treasury /\ (c, contract_fee ct c) ∈ event_fees ev.
Proof.
  intros H. destruct (decide (c = LOGISTICS)) as [->|Hc].
  - eexists. split; [apply announced_events; by left|simpl; set_solver].
  - destruct H as [|H]; [done|]. eexists. split; [apply announced_events; by right|]. cbn -[contract_fee].
    destruct c; [done| |]; rewrite (proj2 (Z.ltb_lt 0 (contract_fee ct _)) H);
      destruct (0 <? _); set_solver.
Qed.

Lemma announced_given e id ct treasury ev :
  chain_trade_ok e id ct -> ev ∈ announced id ct treasury -> fees_given ev.
Proof.
  intros Hok [-> | ->]%announced_events; simpl; [apply (cto_logistics _ _ _ Hok)|].
  pose proof (split_fee_nonneg _ (cto_fees _ _ _ Hok)). unfold contract_fee. eauto 10.
Qed.

Lemma announced_nodup id ct treasury : NoDup (announced id ct treasury).
Proof. unfold announced. destruct (split_fee _). repeat constructor; set_solver. Qed.

Lemma filter_nodup_lookup {A} (P : A -> Prop) `{forall x, Decision (P x)} (l : list A) x i j :
  NoDup (filter P l) -> P x -> l !! i = Some x -> l !! j = Some x -> i = j.
Proof.
  intros Hnd HP. revert i j. induction l as [|y l IH]; intros i j Hi Hj; [done|].
  assert (Hno : forall k, l !! k = Some x -> y <> x).
  { intros k Hk ->. rewrite filter_cons_True in Hnd by done. apply NoDup_cons in Hnd as [Hnd _].
    apply Hnd, list_elem_of_filter. split; [done|]. by eapply list_elem_of_lookup_2. }
  assert (Hnd' : NoDup (filter P l)).
  { rewrite filter_cons in Hnd. destruct (decide (P y)); [by apply NoDup_cons in Hnd as [_ ?]|done]. }
  destruct i as [|i], j as [|j]; simpl in *; [done|..|f_equal; auto].
  - injection Hi as ->. by apply Hno in Hj.
  - injection Hj as ->. by apply Hno in Hi.
Qed.

Lemma feed_exists s : exists rows, fee_feed s rows.
Proof.
  assert (Htr : Transitive position_le) by (intros a b c; unfold position_le; lia).
  assert (Hto : Total position_le) by (intros a b; unfold position_le; lia).
  assert (Hdec : forall a b, Decision (position_le a b)) by (intros a b; unfold position_le; apply _).
  exists (merge_sort position_le (filter (fun row => is_fee_row row = true) (map_to_list (st_tradeEvents s)).*2)).
  split; [apply merge_sort_Permutation|by apply StronglySorted_merge_sort].
Qed.

(** ** From the contract to the ledger *)

#[local] Notation carries := (carries ESCROW_ADDRESS parseLog).
#[local] Notation carries_event := (carries_event parseLog).

Context (keccak256 sha256 : string -> string) (cfg : Config).
Context (e : Escrow) (evs : list EscrowEvent) (final : Indexer) (rows : list EventRow).
Context (Hrun : escrow_run keccak256 e evs) (Hre : reachable_indexer final).
Context (Hch : chain_ok (ix_checkpoint final)) (Hcar : carries (ix_checkpoint final) evs).
Context (Hfeed : fee_feed (ix_store final) rows).

Lemma carried_at k bl ev :
  escrow_logs (ix_checkpoint final) !! k = Some bl -> parseLog (lg_topics bl.2) (lg_data bl.2) = Ok (Some ev) ->
  evs !! k = Some ev.
Proof.
  intros Hk Hp. destruct (Forall2_lookup_l _ _ _ _ _ Hcar Hk) as (ev' & Hev & Hp' & _). congruence.
Qed.

Lemma fee_log_announced bl ev row :
  bl ∈ escrow_logs (ix_checkpoint final) -> fee_log bl ev row ->
  exists ct treasury, es_trades e !! event_trade ev = Some ct /\ ct_status ct <> LOCKED /\
    chain_trade_ok e (event_trade ev) ct /\ fee_trail (event_trade ev) evs = announced (event_trade ev) ct treasury /\
    ev ∈ announced (event_trade ev) ct treasury /\
    fee_lines (read_event row) = (fun p => (p.1, print_Z p.2)) <$> event_fees ev.
Proof.
  intros Hbl Hl. destruct (fee_log_place _ _ _ Hl) as (_ & _ & _ & Hh & _ & _ & Hp & [id Hid]).
  pose proof Hbl as [k Hk]%list_elem_of_lookup. pose proof (carried_at _ _ _ Hk Hp) as Hev.
  assert (event_trade ev = id) as -> by (unfold event_trade; by rewrite Hid).
  destruct (run_fee_event _ _ _ _ _ Hrun (list_elem_of_lookup_2 _ _ _ Hev) Hid)
    as (ct & treasury & Hct & Hst & Htr & Hin).
  destruct (run_tracked _ _ _ Hrun) as [_ Hok]. pose proof (ok_trades _ Hok _ _ Hct) as Hcto.
  exists ct, treasury. split_and!; try done. eapply fee_log_lines; [done|by eapply announced_given|].
  by apply (ch_hashes _ Hch bl).
Qed.

Lemma taken_announced id ct : es_trades e !! id = Some ct -> fees_taken evs id ct ->
  exists treasury, fee_trail id evs = announced id ct treasury.
Proof.
  intros Hct [Hst|(ev & Hin & Hid)].
  - pose proof (run_trails _ _ _ Hrun id) as H. rewrite Hct in H. simpl in H. unfold released in H.
    destruct (ct_status ct); [set_solver|done..|set_solver].
  - destruct (run_fee_event _ _ _ _ _ Hrun Hin Hid) as (ct' & treasury & Hct' & _ & Htr & _).
    exists treasury. congruence.
Qed.

(** The log of each announcement is behind the checkpoint, with its row. *)
Lemma announced_log id ct treasury ev :
  fee_trail id evs = announced id ct treasury -> ev ∈ announced id ct treasury ->
  exists bl row, bl ∈ escrow_logs (ix_checkpoint final) /\ fee_log bl ev row /\ event_trade ev = id /\ row ∈ rows.
Proof.
  intros Htr Hin. rewrite <- Htr in Hin. apply list_elem_of_filter in Hin as [Hid Hin].
  apply list_elem_of_lookup in Hin as [k Hk].
  destruct (Forall2_lookup_r _ _ _ _ _ Hcar Hk) as (bl & Hbl & Hp & h & Hh).
  apply list_elem_of_lookup_2 in Hbl.
  assert (exists tid name columns, fee_columns ev = Some (tid, name, columns)) as (tid & name & columns & Hc)
    by (destruct ev; try discriminate Hid; simpl; eauto).
  assert (Hl : fee_log bl ev (new_event (log_context bl.1 bl.2 h) name (Some (print_Z tid)) columns))
    by (exists h, tid, name, columns; by split_and!).
  eexists bl, _. split_and!; [done|exact Hl|unfold event_trade; by rewrite Hid|].
  apply (feed_log _ _ _ Hre Hch Hfeed). by exists bl, ev.
Qed.

(** A ledger entry is the fee of a released trade, from one log. *)
Lemma entry_of_log (entry : LedgerEntry) ev line :
  ev ∈ read_event <$> rows -> line ∈ fee_lines ev -> TreasuryCover.row_of ev line entry ->
  exists k bl fe ct treasury, escrow_logs (ix_checkpoint final) !! k = Some bl /\ evs !! k = Some fe /\
    le_entry_key entry = buildEntryKey (log_event_id bl) (le_component_type entry) /\
    es_trades e !! event_trade fe = Some ct /\ ct_status ct <> LOCKED /\
    fee_trail (event_trade fe) evs = announced (event_trade fe) ct treasury /\
    fe ∈ announced (event_trade fe) ct treasury /\ fee_trade fe = Some (event_trade fe) /\
    (le_component_type entry, contract_fee ct (le_component_type entry)) ∈ event_fees fe /\
    fee_entry (event_trade fe) ct (le_component_type entry) entry.
Proof.
  intros (row & -> & Hrow)%list_elem_of_fmap Hl (Rk & Rc & Ra & Rt & Rb & Rn).
  apply (feed_log _ _ _ Hre Hch Hfeed) in Hrow as (bl & fe & Hbl & Hlog).
  destruct (fee_log_announced _ _ _ Hbl Hlog) as (ct & treasury & Hct & Hst & _ & Htr & Hin & Hlines).
  destruct (fee_log_place _ _ _ Hlog) as (Hid & _ & _ & _ & Hpar & _ & Hp & [tid Htid]).
  rewrite Hlines in Hl. apply list_elem_of_fmap in Hl as ([c a] & -> & Hca). simpl in *.
  pose proof (announced_fee _ _ _ _ _ _ Hin Hca) as ->.
  apply list_elem_of_lookup in Hbl as [k Hk]. exists k, bl, fe, ct, treasury. rewrite Rc, Rk, Hid.
  split_and!; try done; [by eapply carried_at| |].
  - unfold event_trade. by rewrite Htid.
  - unfold fee_entry. rewrite Rt, Rc, Ra, Hpar. by split_and!.
Qed.

Context (d : db) (Hok : ledger_ok (ledger d)).
Context (Hs : sourced (read_event <$> rows) d) (Hc : covered (read_event <$> rows) d).

Lemma fee_arrives id ct c :
  es_trades e !! id = Some ct -> fees_taken evs id ct -> fee_due ct c ->
  exists (bl : Block * Log) (ev : EscrowEvent), bl ∈ escrow_logs (ix_checkpoint final) /\
    carries_event bl ev /\ fee_trade ev = Some id /\
    (bk_height bl.1 < watermark TRADE_EVENT_CURSOR (ledger d) ->
     exists eid entry, ledger_entries d !! eid = Some entry /\ fee_entry id ct c entry).
Proof.
  intros Hct Htaken Hdue. destruct (taken_announced _ _ Hct Htaken) as [treasury Htr].
  destruct (announced_due id ct treasury c Hdue) as (ev & Hin & Hca).
  destruct (announced_log _ _ _ _ Htr Hin) as (bl & row & Hbl & Hl & Hid & Hrow).
  destruct (fee_log_place _ _ _ Hl) as (_ & Hbh & _ & Hhash & Hpar & _ & Hp & [tid Htid]).
  exists bl, ev. split_and!; [done|by split; [|eexists]|unfold event_trade in Hid; rewrite Htid in *; by subst|].
  intros Hlt. destruct (fee_log_announced _ _ _ Hbl Hl) as (ct' & tr' & _ & _ & _ & _ & _ & Hlines).
  destruct (Hc (read_event row)) with (line := (c, print_Z (contract_fee ct c))) as (eid & entry & He & Hr).
  - by apply list_elem_of_fmap_2.
  - simpl. by rewrite Hbh.
  - rewrite Hlines. apply list_elem_of_fmap. by exists (c, contract_fee ct c).
  - exists eid, entry. split; [done|]. destruct Hr as (_ & Hrc & Hra & Hrt & _).
    unfold fee_entry. rewrite Hrc, Hra, Hrt. simpl. rewrite Hpar, Hid. by split_and!.
Qed.

Lemma entries_are_fees eid entry : ledger_entries d !! eid = Some entry ->
  exists id ct, es_trades e !! id = Some ct /\ ct_status ct <> LOCKED /\
    fee_entry id ct (le_component_type entry) entry.
Proof.
  intros He. destruct (Hs eid entry He) as (ev & line & Hin & Hl & Hr).
  destruct (entry_of_log _ _ _ Hin Hl Hr) as (k & bl & fe & ct & tr & _ & _ & _ & Hct & Hst & _ & _ & _ & _ & Hf).
  eauto.
Qed.

Lemma entries_once eid eid' entry entry' :
  ledger_entries d !! eid = Some entry -> ledger_entries d !! eid' = Some entry' ->
  le_trade_id entry = le_trade_id entry' -> le_component_type entry = le_component_type entry' -> eid = eid'.
Proof.
  intros He He' Ht Hcomp.
  destruct (Hs eid entry He) as (ev & line & Hin & Hl & Hr), (Hs eid' entry' He') as (ev' & line' & Hin' & Hl' & Hr').
  destruct (entry_of_log _ _ _ Hin Hl Hr)
    as (k & bl & fe & ct & tr & Hk & Hev & Hkey & Hct & _ & Htr & Hfe & Hid & Hca & Hf & _).
  destruct (entry_of_log _ _ _ Hin' Hl' Hr')
    as (k' & bl' & fe' & ct' & tr' & Hk' & Hev' & Hkey' & Hct' & _ & Htr' & Hfe' & _ & Hca' & Hf' & _).
  rewrite Hf, Hf' in Ht. apply print_Z_inj in Ht. rewrite <- Ht in *. rewrite Hct in Hct'. injection Hct' as <-.
  rewrite Htr in Htr'. rewrite <- Htr' in Hfe'. rewrite <- Hcomp in Hca'.
  pose proof (announced_component _ _ _ _ _ _ _ _ Hfe Hfe' Hca Hca') as <-.
  assert (k = k') as <-.
  { eapply (filter_nodup_lookup (fun ev => fee_trade ev = Some (event_trade fe)) evs); [|exact Hid|done|done].
    change (NoDup (fee_trail (event_trade fe) evs)). rewrite Htr. apply announced_nodup. }
  rewrite Hk in Hk'. injection Hk' as <-.
  eapply (lo_key _ Hok); [exact He|exact He'|]. by rewrite Hkey, Hkey', Hcomp.
Qed.

End feed.

(** C9. The fees of the contract reach the ledger, each once.  Take any run of the
    escrow contract, any history of the indexer over the blocks that carry its
    events and any history of the treasury reading that indexer as it grows, with
    failures, caps, retries, reviews and orphanings anywhere: every fee the
    contract took of a trade (logistics, platform fee, settlement support) is in
    the ledger under that trade, with the contract's amount, as soon as the
    watermark has passed the block of its event; every ledger entry is such a fee;
    and no trade has two entries for one component. *)
Theorem escrow_fees_reach_ledger (ESCROW_ADDRESS ESCROW_ABI_FINGERPRINT : string)
    (parseLog : list string -> string -> result string (option EscrowEvent))
    (localeCompare : string -> string -> Z) (relations : bool) (keccak256 sha256 : string -> string)
    (cfg : Config) (e : Escrow) (evs : list EscrowEvent) (final : Indexer) (d : db) :
  escrow_run keccak256 e evs ->
  reachable_indexer ESCROW_ADDRESS ESCROW_ABI_FINGERPRINT parseLog localeCompare relations final ->
  chain_ok ESCROW_ADDRESS (ix_checkpoint final) ->
  carries ESCROW_ADDRESS parseLog (ix_checkpoint final) evs ->
  0 < ingestBatchSize cfg ->
  ingest_history sha256 cfg
    (reads_indexer ESCROW_ADDRESS ESCROW_ABI_FINGERPRINT parseLog localeCompare relations final) d ->
  (forall id ct (c : TreasuryComponent), es_trades e !! id = Some ct -> fees_taken evs id ct -> fee_due ct c ->
     exists (bl : Block * Log) (ev : EscrowEvent), bl ∈ escrow_logs ESCROW_ADDRESS (ix_checkpoint final) /\
       carries_event parseLog bl ev /\ fee_trade ev = Some id /\
       (bk_height bl.1 < watermark TRADE_EVENT_CURSOR (ledger d) ->
        exists eid entry, ledger_entries d !! eid = Some entry /\ fee_entry id ct c entry)) /\
  (forall eid entry, ledger_entries d !! eid = Some entry ->
     exists id ct, es_trades e !! id = Some ct /\ ct_status ct <> LOCKED /\
       fee_entry id ct (le_component_type entry) entry) /\
  (forall eid eid' entry entry', ledger_entries d !! eid = Some entry -> ledger_entries d !! eid' = Some entry' ->
     le_trade_id entry = le_trade_id entry' -> le_component_type entry = le_component_type entry' -> eid = eid').
Proof.
  intros Hrun Hre Hch Hcar Hlimit Hh. destruct (feed_exists (ix_store final)) as [rows Hfeed].
  assert (Hh' : ingest_history sha256 cfg (faithful (read_event <$> rows)) d).
  { eapply ingest_history_weaken; [|exact Hh]. intros w. by eapply reads_faithful. }
  destruct (ingest_history_inv sha256 cfg (read_event <$> rows) d ltac:(by eapply feed_ordered) Hlimit Hh')
    as ([Hok Hs] & Hc & _).
  split_and!; [intros; by eapply fee_arrives|by eapply entries_are_fees|intros; by eapply entries_once].
Qed.
