(* ===== verification/TreasurySamples.v ===== *)
(** Ingestion on concrete runs: three runs under an event cap, with an orphaning
    between them, and what the cursor, the promotion and the amounts do when an
    orphaning, a re-read or a wrong indexer overlaps a run. *)
From stdpp Require Import base list gmap strings sorting.
From S2P Require Import Prelude JsText TreasuryAmount TreasuryPolicy TreasuryChain TreasuryDb.
From S2P Require Import TreasuryLedger TreasuryDbInv TreasuryIngest TreasuryCover TreasuryProgress.

Open Scope string_scope.
Open Scope Z_scope.

(** ** Three runs *)

Definition i_event (n : Z) (name : string) (block : Z) (logistics fees : option string) : IndexerTradeEvent :=
  {| te_id := print_Z n; te_tradeId := "7"; te_eventName := name; te_txHash := Some "0xabc";
     te_blockNumber := block; te_logIndex := n; te_timestamp := 4000;
     te_releasedLogisticsAmount := logistics; te_paidPlatformFees := fees;
     te_paidPlatformFeeNet := None; te_paidSettlementSupportFee := None |}.

Definition i_events : list IndexerTradeEvent :=
  [i_event 1 "FundsReleasedStage1" 10 (Some "500") None;
   i_event 2 "PlatformFeesPaidStage1" 10 None (Some "5000000");
   i_event 3 "FundsReleasedStage1" 11 (Some "700") None;
   i_event 4 "PlatformFeesPaidStage1" 12 None (Some "3000000")].

Definition i_config : Config := {| ingestBatchSize := 2; ingestMaxEvents := 2 |}.
Definition i_hash : string := "0x" ++ repeat_char 64 "a"%char.
Definition i_sha (s : string) : string := s.

(** The indexer and the chain answer; [other] is what other processes do. *)
Definition i_world (events : list IndexerTradeEvent) (other : nat -> db -> db) : World :=
  {| w_other := other; w_configured := true; w_finalized := fun _ => Ok (Some (20, Some i_hash));
     w_processed := fun _ => Ok (Some 12); w_tradePage := fun _ win => Ok (trade_slice events win);
     w_claimPage := fun _ _ => Ok []; w_getBlock := fun _ _ => Ok (Some (Some i_hash));
     w_getReceipt := fun _ _ => Ok None; w_lock := fun _ => Ok true; w_now := fun n => Z.of_nat n |}.

Definition alone (n : nat) (d : db) : db := d.

Lemma i_faithful events other :
  (forall n d, rtc concurrent d (other n d)) -> faithful events (i_world events other).
Proof. intros H. split; [done|]. by intros m n p win page _ _ _ [= <-]. Qed.

Lemma i_alone n d : rtc concurrent d (alone n d).
Proof. done. Qed.

Definition i_run (w : World) (d : db) := executeRun i_sha i_config w 9 (start d).

Definition i_reorg (id block : Z) : LedgerChainReorgEvent :=
  {| re_ledger_entry_id := id; re_entry_key := ""; re_trade_id := "7"; re_tx_hash := "0xabc";
     re_block_number := block; re_expected_block_hash := Some i_hash; re_observed_block_hash := None;
     re_observed_block_number := None; re_observed_log_index := None; re_reorg_depth := 1;
     re_stable_block_number := 20; re_mismatch_reason := RECEIPT_MISSING |}.

(** The verifier orphans entry [id], when it is there. *)
Definition i_orphan (id block : Z) (d : db) : db :=
  match recordLedgerEntryOrphaned (i_reorg id block) None "system:chain-canonicality" 60 (ledger d) with
  | Ok (l, _) => set_ledger l d
  | Err _ => d
  end.

Lemma i_orphan_step id block d : rtc concurrent d (i_orphan id block d).
Proof.
  unfold i_orphan. destruct (recordLedgerEntryOrphaned _ _ _ _ _) as [[l c]|] eqn:E; [|done].
  apply rv_orphaned in E. apply rtc_once. split; [by apply ts_ledger, ls_review|by right].
Qed.

Definition i_db1 : db := run_db (i_run (i_world i_events alone) empty_db).2.
Definition i_db2 : db := i_orphan 1 10 i_db1.
Definition i_db3 : db := run_db (i_run (i_world i_events alone) i_db2).2.
Definition i_db4 : db := run_db (i_run (i_world i_events alone) i_db3).2.

Lemma i_history : ingest_history i_sha i_config (faithful i_events) i_db4.
Proof.
  assert (Hf : faithful i_events (i_world i_events alone)) by apply i_faithful, i_alone.
  assert (H2 : ingest_history i_sha i_config (faithful i_events) i_db2).
  { apply (ih_other _ _ _ i_db1); [apply ih_run; [apply ih_start|done]|].
    assert (Hs : rtc concurrent i_db1 i_db2) by apply i_orphan_step.
    unfold i_db2, i_orphan. destruct (recordLedgerEntryOrphaned _ _ _ _ _) as [[l c]|] eqn:E.
    - apply rv_orphaned in E. split; [by apply ts_ledger, ls_review|by right].
    - exfalso. vm_compute in E. discriminate E. }
  apply ih_run; [apply ih_run; [exact H2|exact Hf]|exact Hf].
Qed.

Lemma i_ordered : events_ordered i_events.
Proof.
  split.
  - intros a Ha. assert (Hall : Forall (fun a => 0 <= te_blockNumber a) i_events)
      by (apply (bool_decide_unpack _); vm_compute; exact I).
    rewrite Forall_forall in Hall. by apply Hall.
  - repeat constructor; by vm_compute.
  - intros a b Ha Hb. unfold i_events in *. rewrite !elem_of_cons, elem_of_nil in Ha, Hb.
    repeat match goal with H : _ \/ _ |- _ => destruct H end; subst; try done; intros H; vm_compute in H; congruence.
Qed.

Definition i_rows (d : db) : list (string * string * ChainCanonicalityState) :=
  omap (fun id => (fun e => (le_entry_key e, le_amount_raw e, le_canonicality_state e)) <$> ledger_entries d !! id)
    (seqZ 1 9).

Lemma ingestion_misses_no_fee_witness :
  watermark TRADE_EVENT_CURSOR (ledger i_db4) = 13 /\
  i_rows i_db4 =
    [("1:logistics", "500", ORPHANED); ("2:platform_fee", "1000000", UNVERIFIED);
     ("2:settlement_support_fee", "4000000", UNVERIFIED); ("3:logistics", "700", UNVERIFIED);
     ("4:settlement_support_fee", "3000000", UNVERIFIED)] /\
  forall ev line, ev ∈ i_events -> line ∈ fee_lines ev ->
    exists id e, ledger_entries i_db4 !! id = Some e /\ row_of ev line e.
Proof.
  split; [vm_compute; reflexivity|]. split; [vm_compute; reflexivity|]. intros ev line Hin Hl.
  assert (Hw : watermark TRADE_EVENT_CURSOR (ledger i_db4) = 13) by (vm_compute; reflexivity).
  assert (Hall : Forall (fun a => te_blockNumber a < 13) i_events)
    by (apply (bool_decide_unpack _); vm_compute; exact I).
  pose proof (ingestion_misses_no_fee i_sha i_config i_events i_db4 i_ordered ltac:(reflexivity) i_history)
    as [Hcover _].
  rewrite Hw in Hcover. rewrite Forall_forall in Hall.
  destruct (Hcover ev Hin (Hall ev Hin) line Hl) as (id & e & He & Hr & _).
  exact (ex_intro _ id (ex_intro _ e (conj He Hr))).
Defined.


(** ** An overlapping run undoes a rewind

    The run writes [GREATEST] of the rewound cursor and the block it computed
    before the rewind. *)
Definition i_all : Config := {| ingestBatchSize := 9; ingestMaxEvents := 9 |}.
Definition i_caught_up : db := run_db (executeRun i_sha i_all (i_world i_events alone) 9 (start empty_db)).2.
Definition orphan_late (n : nat) (d : db) : db := if (n =? 5)%nat then i_orphan 1 10 d else d.
Definition i_overlapped : db :=
  run_db (executeRun i_sha i_all (i_world i_events orphan_late) 9 (start i_caught_up)).2.

Lemma orphan_late_concurrent n d : rtc concurrent d (orphan_late n d).
Proof. unfold orphan_late. destruct (n =? 5)%nat; [apply i_orphan_step|done]. Qed.

Theorem overlapping_run_undoes_rewind :
  faithful i_events (i_world i_events orphan_late) /\
  watermark TRADE_EVENT_CURSOR (ledger (i_orphan 1 10 i_caught_up)) = 10 /\
  le_canonicality_state <$> ledger_entries i_overlapped !! 1 = Some ORPHANED /\
  watermark TRADE_EVENT_CURSOR (ledger i_overlapped) = 13.
Proof. split; [apply i_faithful, orphan_late_concurrent|]. split_and!; vm_compute; reflexivity. Qed.

(** ** A lowered amount leaves its allocation

    A re-read of an event with a lower amount updates the entry and not the
    allocations made of it. *)
Definition lowered : LedgerUpsert :=
  {| ld_entryKey := ld_entryKey sample_upsert; ld_tradeId := "7"; ld_txHash := "0xabc";
     ld_blockNumber := 90; ld_blockHash := ld_blockHash sample_upsert; ld_logIndex := 3;
     ld_logAddress := ld_logAddress sample_upsert; ld_logIdentityHash := ld_logIdentityHash sample_upsert;
     ld_eventName := "PlatformFeesPaidStage1"; ld_componentType := PLATFORM_FEE; ld_amountRaw := "400";
     ld_sourceTimestamp := 4000 |}.

Definition tdb_lowered : db := set_ledger (ledger_with lowered (ledger tdb4)) tdb4.

Theorem lowered_amount_keeps_allocation :
  treasury_reachable tdb_lowered /\ sweep_batch_entries tdb_lowered = [sample_allocation] /\
  se_entry_amount_raw sample_allocation = "500" /\
  le_amount_raw <$> ledger_entries tdb_lowered !! 1 = Some "400".
Proof.
  split; [|split_and!; vm_compute; reflexivity].
  eapply rtc_r; [apply tdb4_reachable|]. apply ts_ledger, ledger_with_step. vm_compute. reflexivity.
Qed.

(** ** A promotion describes the row it finds, not the row that was verified *)
Definition tdb_promoted : db :=
  set_ledger (markLedgerEntryCanonical sample_mark 80 (ledger tdb_lowered)).1 tdb_lowered.

Theorem promotion_covers_later_amount :
  le_canonicality_state <$> ledger_entries tdb_lowered !! 1 = Some UNVERIFIED /\
  (fun e => (le_amount_raw e, le_canonicality_state e)) <$> ledger_entries tdb_promoted !! 1
    = Some ("400", CANONICAL).
Proof. split; vm_compute; reflexivity. Qed.

(** ** A page of claims that is filtered out ends the window

    The rows are filtered after the page is read; a page of which nothing is left
    looks like the end. *)
Definition claim_row (id : string) (amount : option string) : SystemEventRow :=
  {| sr_id := id; sr_txHash := "0xdef"; sr_blockNumber := 11; sr_timestamp := 4000;
     sr_claimAmount := amount; sr_treasuryIdentity := Some "0xtreasury"; sr_payoutReceiver := Some "0xreceiver" |}.

Definition claim_rows : list SystemEventRow :=
  [claim_row "c1" None; claim_row "c2" None; claim_row "c3" (Some "900")].

Definition claim_world : World :=
  {| w_other := alone; w_configured := true; w_finalized := fun _ => Ok (Some (20, Some i_hash));
     w_processed := fun _ => Ok (Some 12); w_tradePage := fun _ win => Ok (trade_slice [] win);
     w_claimPage := fun _ win => Ok (claim_slice claim_rows win); w_getBlock := fun _ _ => Ok (Some (Some i_hash));
     w_getReceipt := fun _ _ => Ok None; w_lock := fun _ => Ok true; w_now := fun n => Z.of_nat n |}.

Definition claims_read : db := run_db (i_run claim_world empty_db).2.

Theorem filtered_page_ends_claims :
  length (omap toTreasuryClaimEvent claim_rows) = 1%nat /\
  watermark CLAIM_EVENT_CURSOR (ledger claims_read) = 13 /\ claim_events claims_read = [].
Proof. split_and!; vm_compute; reflexivity. Qed.

(** ** Fees of the sample trade

    The fees of the sample trade of [IndexerSamples], from the contract through the
    indexer to the treasury's ledger. *)
From stdpp Require Import base list gmap strings sorting.
From S2P Require Import Prelude JsText JsDate IndexerTypes IndexerHandlers IndexerTypes.
From S2P Require Import IndexerBatch IndexerView IndexerHistory EscrowModel IndexerTracks IndexerSound.
From S2P Require Import EscrowFees IndexerCorrect IndexerSamples FeeFlow TreasuryAmount TreasuryPolicy.
From S2P Require Import TreasuryChain TreasuryDb TreasuryLedger TreasuryDbInv TreasuryIngest TreasuryCover.
From S2P Require Import FeeFeed.

Open Scope string_scope.
Open Scope Z_scope.
#[local] Open Scope list_scope.

Definition s_position (a b : EventRow) : bool := ev_logIndex a <=? ev_logIndex b.

(** The fee rows of the sample indexer, all of one block, by log index. *)
Fixpoint s_insert (row : EventRow) (rows : list EventRow) : list EventRow :=
  match rows with
  | [] => [row]
  | r :: rest => if s_position row r then row :: rows else r :: s_insert row rest
  end.

Definition s_rows : list EventRow :=
  foldr s_insert [] (filter (fun row => is_fee_row row = true) (map_to_list (st_tradeEvents (ix_store s_indexer))).*2).

Lemma s_insert_perm row rows : s_insert row rows ≡ₚ row :: rows.
Proof.
  induction rows as [|r rows IH]; [done|]. simpl. destruct (s_position row r); [done|].
  rewrite IH. constructor.
Qed.

Lemma s_sort_perm rows : foldr s_insert [] rows ≡ₚ rows.
Proof. induction rows as [|r rows IH]; [done|]. simpl. by rewrite s_insert_perm, IH. Qed.

#[local] Instance position_le_dec a b : Decision (position_le a b).
Proof. unfold position_le. apply _. Defined.

Lemma s_feed : fee_feed (ix_store s_indexer) s_rows.
Proof.
  split; [apply s_sort_perm|].
  assert (Hs : Sorted position_le s_rows).
  { apply (bool_decide_unpack _). vm_compute. exact I. }
  apply Sorted_StronglySorted in Hs; [done|]. intros a b c. unfold position_le. lia.
Qed.

Definition s_world : World :=
  {| w_other := alone; w_configured := true; w_finalized := fun _ => Ok (Some (20, Some i_hash));
     w_processed := fun _ => Ok (processed_height s_indexer);
     w_tradePage := fun _ win =>
       match mapM (toIndexerTradeEvent (ix_store s_indexer)) (row_slice s_rows win) with
       | Some page => Ok page
       | None => Err (PlainError "Cannot read properties of null (reading 'tradeId')")
       end;
     w_claimPage := fun _ _ => Ok []; w_getBlock := fun _ _ => Ok (Some (Some i_hash));
     w_getReceipt := fun _ _ => Ok None; w_lock := fun _ => Ok true; w_now := fun n => Z.of_nat n |}.

Notation s_reads := (reads_indexer "0xescrow" "abi" s_parse s_locale false s_indexer).

Lemma s_world_reads : s_reads s_world.
Proof.
  split; [apply i_alone|]. exists (fun _ => s_indexer). split_and!.
  - split; [intros _; apply s_indexer_reachable|done|done].
  - intros n x. change (w_processed s_world n) with (@Ok TreasuryError _ (processed_height s_indexer)).
    generalize (processed_height s_indexer). congruence.
  - intros n win page H. exists s_rows. split; [apply s_feed|]. unfold s_world, w_tradePage in H.
    destruct (mapM _ _) as [p|]; [by injection H as ->|done].
Qed.

Lemma s_chain : chain_ok "0xescrow" (ix_checkpoint s_indexer).
Proof.
  rewrite s_checkpoint. split.
  - repeat constructor.
  - intros b Hb. apply elem_of_cons in Hb as [->|Hb]; [done|]. by apply list_elem_of_singleton in Hb as ->.
  - apply (bool_decide_unpack _). vm_compute. exact I.
  - assert (H : forall x y, x ∈ escrow_logs "0xescrow" [s_block1; s_block2] ->
      y ∈ escrow_logs "0xescrow" [s_block1; s_block2] -> lg_logIndex x.2 = lg_logIndex y.2 -> x = y).
    { intros x y Hx Hy E. apply list_elem_of_lookup in Hx as [i Hi], Hy as [j Hj].
      assert (Hn : NoDup ((fun x : Block * Log => lg_logIndex x.2) <$> escrow_logs "0xescrow" [s_block1; s_block2]))
        by (apply (bool_decide_unpack _); vm_compute; exact I).
      assert (i = j) as <-.
      { eapply (NoDup_lookup _ _ _ _ Hn); rewrite list_lookup_fmap; [by rewrite Hi|].
        rewrite Hj. simpl. by rewrite E. }
      congruence. }
    intros x y Hx Hy _. by apply H.
  - assert (H : Forall (fun x : Block * Log => lg_transaction x.2 <> Ok "")
      (escrow_logs "0xescrow" [s_block1; s_block2])) by (repeat constructor; vm_compute; congruence).
    rewrite Forall_forall in H. intros x h Hx Hh ->. by apply (H x).
Qed.

Definition s_treasury : db := run_db (executeRun i_sha i_all s_world 9 (start empty_db)).2.

Lemma s_treasury_history : ingest_history i_sha i_all s_reads s_treasury.
Proof. apply ih_run; [apply ih_start|apply s_world_reads]. Qed.

Definition s_trade_of (e : Escrow) : ChainTrade :=
  default {| ct_tradeId := 0; ct_ricardianHash := ""; ct_status := LOCKED; ct_buyerAddress := "";
             ct_supplierAddress := ""; ct_totalAmountLocked := 0; ct_logisticsAmount := 0;
             ct_platformFeesAmount := 0; ct_supplierFirstTranche := 0; ct_supplierSecondTranche := 0;
             ct_createdAt := 0; ct_arrivalTimestamp := 0 |} (es_trades e !! 0).

Lemma escrow_fees_reach_ledger_witness :
  watermark TRADE_EVENT_CURSOR (ledger s_treasury) = 12 /\
  ((fun c => contract_fee (s_trade_of s_escrow) c) <$> [LOGISTICS; PLATFORM_FEE; SETTLEMENT_SUPPORT_FEE])
    = [5000000; 1000000; 4000000] /\
  i_rows s_treasury =
    [("0xtx-7:logistics", "5000000", UNVERIFIED); ("0xtx-8:platform_fee", "1000000", UNVERIFIED);
     ("0xtx-8:settlement_support_fee", "4000000", UNVERIFIED)] /\
  forall c, fee_due (s_trade_of s_escrow) c ->
    exists bl ev, bl ∈ escrow_logs "0xescrow" (ix_checkpoint s_indexer) /\
      carries_event s_parse bl ev /\ fee_trade ev = Some 0 /\
      (bk_height bl.1 < watermark TRADE_EVENT_CURSOR (ledger s_treasury) ->
       exists eid entry, ledger_entries s_treasury !! eid = Some entry /\
         fee_entry 0 (s_trade_of s_escrow) c entry).
Proof.
  split; [vm_compute; reflexivity|]. split; [vm_compute; reflexivity|]. split; [vm_compute; reflexivity|].
  intros c Hdue.
  pose proof (escrow_fees_reach_ledger "0xescrow" "abi" s_parse s_locale false s_keccak i_sha i_all s_escrow
    s_events s_indexer s_treasury s_run s_indexer_reachable s_chain s_carries ltac:(reflexivity)
    s_treasury_history) as [H _].
  apply H; [vm_compute; reflexivity| |exact Hdue].
  left. vm_compute. left.
Defined.
