(* ===== verification/TreasuryGate.v ===== *)
(** The two controls every payout decision of the treasury reads:
    treasury/src/core/reconciliationGate.ts over the tables of the reconciliation
    service ([ReconDb]), and treasury/src/core/ingestionFreshness.ts over the
    ingestion cursors ([TreasuryLedger]).

    A reader of the reconciliation tables sees one snapshot of them (repeatable
    read).  The column [export_evidence_version] is the function [gr_certified] of
    the run key, and [gr_protocol] is what the database function of the publication
    protocol answers.  Every call of the clock is an argument of its own. *)
From stdpp Require Import base list gmap strings.
From S2P Require Import Prelude JsText JsDate JsMap TreasuryAmount TreasuryPolicy TreasuryDb TreasuryLedger.
From S2P Require Import TreasuryIngest ReconTypes ReconCoverage ReconClassifier ReconDb ReconRun.
From S2P Require Import ReconRunInv ReconHistory ReconSound Containment.

Open Scope string_scope.
Open Scope Z_scope.

(** ** The reconciliation gate (reconciliationGate.ts) *)

Module Gate.

Inductive ReconciliationGateStatus := CLEAR | BLOCKED | UNKNOWN.
Inductive GateFreshness := FRESH | STALE | MISSING.

#[global] Instance ReconciliationGateStatus_eq_dec : EqDecision ReconciliationGateStatus.
Proof. solve_decision. Defined.
#[global] Instance GateFreshness_eq_dec : EqDecision GateFreshness.
Proof. solve_decision. Defined.

Record TradeReconciliationGate := {
  tg_tradeId : string;
  tg_status : ReconciliationGateStatus;
  tg_runKey : option string;
  tg_driftCount : Z;
  tg_freshness : GateFreshness;
  tg_completedAt : option Z;
  tg_staleRunningRunCount : Z;
  tg_coverageFromBlock : option Z;
  tg_coverageToBlock : option Z;
  tg_coverageComplete : option bool;
  tg_blockedReasons : list string }.

#[global] Instance TradeReconciliationGate_eq_dec : EqDecision TradeReconciliationGate.
Proof. solve_decision. Defined.

Record ReconciliationRunAnchor := {
  ra_runKey : string;
  ra_completedAt : Z;
  ra_coverageFromBlock : option Z;
  ra_coverageToBlock : Z;
  ra_staleRunningRunCount : Z;
  ra_evidenceVersion : option Z }.

#[global] Instance ReconciliationRunAnchor_eq_dec : EqDecision ReconciliationRunAnchor.
Proof. solve_decision. Defined.

Record SnapshotRunSelection := { sel_runKey : option string; sel_requireImmutable : bool }.

Definition no_selection : SnapshotRunSelection :=
  {| sel_runKey := None; sel_requireImmutable := false |}.

(** What one transaction on the reconciliation database sees. *)
Record GateReader := {
  gr_db : recon_db;
  gr_certified : string -> bool;
  gr_protocol : option Z }.

Record GateConfig := { maxAgeSeconds : Z; maxRunningRunAgeSeconds : Z }.

Definition UNAVAILABLE : TreasuryError :=
  PlainError "Reconciliation evidence is unavailable or incomplete".

Definition requireReconciliationSnapshotProtocol (r : GateReader) : result TreasuryError unit :=
  throw_if (negb (bool_decide (gr_protocol r = Some 1))) UNAVAILABLE.

Definition toBlockNumber (value : option Z) : option Z :=
  match value with
  | Some n => if is_safe_integer n && (0 <=? n) then Some n else None
  | None => None
  end.

(** The coverage columns, which [completeRun] fills from the run's coverage. *)
Definition row_coverage (row : ReconcileRunRow) : option RunCoverage :=
  stats ← rr_stats row; st_coverage stats.
Definition coverage_from_block (row : ReconcileRunRow) : option Z := rc_fromBlock <$> row_coverage row.
Definition coverage_to_block (row : ReconcileRunRow) : option Z :=
  (fun c => cb_blockNumber (rc_boundary c)) <$> row_coverage row.
Definition coverage_complete (row : ReconcileRunRow) : option bool := rc_complete <$> row_coverage row.

(** [ORDER BY completed_at DESC, id DESC], in which a null comes first. *)
Definition run_newer (a b : string * ReconcileRunRow) : bool :=
  match rr_completed_at a.2, rr_completed_at b.2 with
  | None, None => rr_id b.2 <=? rr_id a.2
  | None, Some _ => true
  | Some _, None => false
  | Some x, Some y => (y <? x) || ((x =? y) && (rr_id b.2 <=? rr_id a.2))
  end.

Definition run_selected (sel : SnapshotRunSelection) (r : GateReader)
    (entry : string * ReconcileRunRow) : bool :=
  bool_decide (rr_status entry.2 = ReconDb.COMPLETED)
  && match sel_runKey sel with Some key => String.eqb entry.1 key | None => true end
  && (negb (sel_requireImmutable sel) || gr_certified r entry.1).

Definition latest_run (sel : SnapshotRunSelection) (r : GateReader) : option (string * ReconcileRunRow) :=
  head (js_sort run_newer (List.filter (run_selected sel r) (map_to_list (reconcile_runs (gr_db r))))).

(** [status = 'RUNNING' AND started_at < cutoff] *)
Definition stale_running (cfg : GateConfig) (now : Z) (r : GateReader) : Z :=
  let cutoff := now - maxRunningRunAgeSeconds cfg * 1000 in
  Z.of_nat (length (List.filter
    (fun p => bool_decide (rr_status p.2 = RUNNING) && (rr_started_at p.2 <? cutoff))
    (map_to_list (reconcile_runs (gr_db r))))).

Definition trade_scoped (key tradeId : string) (d : recon_db) : bool :=
  existsb (fun s => String.eqb (sc_run_key s) key && String.eqb (sc_trade_id s) tradeId)
    (reconcile_run_trades d).

Definition drift_count (key tradeId : string) (d : recon_db) : Z :=
  Z.of_nat (length (List.filter
    (fun row => String.eqb (dr_run_key row) key && String.eqb (df_tradeId (dr_finding row)) tradeId)
    (reconcile_drifts d))).

(** A run key the code takes for present. *)
Definition run_present (run : option (string * ReconcileRunRow)) : option (string * ReconcileRunRow) :=
  match run with Some p => if truthy p.1 then Some p else None | None => None end.

(** [readSnapshotRunAnchor]; [now1] bounds running runs, [now2] is the age's. *)
Definition readSnapshotRunAnchor (cfg : GateConfig) (sel : SnapshotRunSelection) (now1 now2 : Z)
    (r : GateReader) : result TreasuryError ReconciliationRunAnchor :=
  _ ← (if sel_requireImmutable sel then requireReconciliationSnapshotProtocol r else Ok tt);
  let staleRunningRunCount := stale_running cfg now1 r in
  match run_present (latest_run sel r) with
  | None => Err UNAVAILABLE
  | Some (key, row) =>
      match rr_completed_at row, toBlockNumber (coverage_to_block row), coverage_complete row with
      | Some completedAt, Some coverageToBlock, Some true =>
          let age := now2 - completedAt in
          if (age <? 0) || (maxAgeSeconds cfg * 1000 <? age) || (0 <? staleRunningRunCount)
          then Err UNAVAILABLE
          else Ok {| ra_runKey := key; ra_completedAt := completedAt;
                     ra_coverageFromBlock := toBlockNumber (coverage_from_block row);
                     ra_coverageToBlock := coverageToBlock;
                     ra_staleRunningRunCount := staleRunningRunCount;
                     ra_evidenceVersion := if sel_requireImmutable sel then Some 1 else None |}
      | _, _, _ => Err UNAVAILABLE
      end
  end.

(** ** Verdicts on trades *)

(** The gate of a trade without a run to look at. *)
Definition no_run_gate (status : ReconciliationGateStatus) (staleRunning : Z) (reason tradeId : string)
    : TradeReconciliationGate :=
  {| tg_tradeId := tradeId; tg_status := status; tg_runKey := None; tg_driftCount := 0;
     tg_freshness := MISSING; tg_completedAt := None; tg_staleRunningRunCount := staleRunning;
     tg_coverageFromBlock := None; tg_coverageToBlock := None; tg_coverageComplete := None;
     tg_blockedReasons := [reason] |}.

(** [freshnessReason]; [None] is fresh. *)
Definition freshness_reason (cfg : GateConfig) (now : Z) (completedAt : option Z) : option string :=
  match completedAt with
  | None => Some "Latest completed reconciliation run does not have a completion timestamp"
  | Some t =>
      let ageMs := now - t in
      if ageMs <? 0 then Some "Latest completed reconciliation run has a future completion timestamp"
      else if maxAgeSeconds cfg * 1000 <? ageMs
      then Some ("Latest completed reconciliation run is older than "
                   ++ print_Z (maxAgeSeconds cfg) ++ " seconds")
      else None
  end.

Definition running_reason (cfg : GateConfig) (staleRunning : Z) : option string :=
  if 0 <? staleRunning
  then Some (print_Z staleRunning ++ " reconciliation run(s) have remained RUNNING beyond "
               ++ print_Z (maxRunningRunAgeSeconds cfg) ++ " seconds")
  else None.

Definition coverage_reason (coverageComplete : option bool) (coverageToBlock : option Z) : option string :=
  match coverageComplete, coverageToBlock with
  | Some true, Some _ => None
  | Some false, _ => Some "Latest completed reconciliation run published an incomplete chain range"
  | _, _ => Some "Latest completed reconciliation run did not publish a chain coverage watermark"
  end.

Definition pushed (reason : option string) : list string :=
  match reason with Some m => [m] | None => [] end.

(** The verdict on one trade, given the run. *)
Definition gate_of (cfg : GateConfig) (now staleRunning : Z) (d : recon_db) (key : string)
    (row : ReconcileRunRow) (tradeId : string) : TradeReconciliationGate :=
  let completedAt := rr_completed_at row in
  let coverageToBlock := toBlockNumber (coverage_to_block row) in
  let coverageComplete := coverage_complete row in
  let stale := freshness_reason cfg now completedAt in
  let driftCount := drift_count key tradeId d in
  let gate status count freshness reasons :=
    {| tg_tradeId := tradeId; tg_status := status; tg_runKey := Some key; tg_driftCount := count;
       tg_freshness := freshness; tg_completedAt := completedAt;
       tg_staleRunningRunCount := staleRunning;
       tg_coverageFromBlock := toBlockNumber (coverage_from_block row);
       tg_coverageToBlock := coverageToBlock; tg_coverageComplete := coverageComplete;
       tg_blockedReasons := reasons |} in
  match (pushed stale ++ pushed (running_reason cfg staleRunning)
           ++ pushed (coverage_reason coverageComplete coverageToBlock))%list with
  | (_ :: _) as reasons =>
      gate BLOCKED driftCount (if bool_decide (is_Some stale) then STALE else FRESH) reasons
  | [] =>
      if negb (trade_scoped key tradeId d)
      then gate UNKNOWN driftCount FRESH
             ["Trade is not covered by the latest completed reconciliation run"]
      else if 0 <? driftCount
      then gate BLOCKED driftCount FRESH
             ["Latest reconciliation run reported " ++ print_Z driftCount ++ " drift finding(s)"]
      else gate CLEAR 0 FRESH []
  end.

(** [new Set(tradeIds.filter((tradeId) => tradeId.trim().length > 0))] *)
Definition unique_trades (tradeIds : list string) : list string :=
  js_set (List.filter (fun id => truthy (trim id)) tradeIds).

Definition set_all (gate : string -> TradeReconciliationGate) (ids : list string)
    : jsmap TradeReconciliationGate :=
  foldl (fun m id => map_set id (gate id) m) [] ids.

Definition assessTradesFromReader (cfg : GateConfig) (sel : SnapshotRunSelection) (now1 now2 : Z)
    (reader : option GateReader) (tradeIds : list string)
    : result TreasuryError (jsmap TradeReconciliationGate) :=
  let ids := unique_trades tradeIds in
  if bool_decide (ids = []) then Ok []
  else
    match reader with
    | None => Ok (set_all (no_run_gate UNKNOWN 0 "Reconciliation database is not configured") ids)
    | Some r =>
        _ ← (if sel_requireImmutable sel then requireReconciliationSnapshotProtocol r else Ok tt);
        let staleRunning := stale_running cfg now1 r in
        Ok (set_all
          match run_present (latest_run sel r) with
          | None => no_run_gate BLOCKED staleRunning "No completed reconciliation run is available"
          | Some (key, row) => gate_of cfg now2 staleRunning (gr_db r) key row
          end ids)
    end.

(** ** The summary for operators *)

Inductive SummaryStatus := S_CLEAR | S_BLOCKED | S_STALE | S_MISSING | S_UNKNOWN.

Record ReconciliationControlSummary := {
  cs_status : SummaryStatus;
  cs_freshness : GateFreshness;
  cs_latestCompletedRunKey : option string;
  cs_latestCompletedRunAt : option Z;
  cs_latestCompletedRunAgeSeconds : option Z;
  cs_coverageToBlock : option Z;
  cs_coverageComplete : option bool;
  cs_staleRunningRunCount : Z;
  cs_trackedTradeCount : Z;
  cs_clearTradeCount : Z;
  cs_blockedTradeCount : Z;
  cs_unknownTradeCount : Z;
  cs_driftBlockedTradeCount : Z;
  cs_blockedReasons : list string }.

Definition count (p : TradeReconciliationGate -> bool) (gates : list TradeReconciliationGate) : Z :=
  Z.of_nat (length (List.filter p gates)).
Definition has_status (s : ReconciliationGateStatus) (g : TradeReconciliationGate) : bool :=
  bool_decide (tg_status g = s).

(** [summarizeTrades], from the gates of [assessTrades]. *)
Definition summarizeTrades (now : Z) (values : list TradeReconciliationGate)
    : ReconciliationControlSummary :=
  let first {A} (f : TradeReconciliationGate -> A) (d : A) : A := from_option f d (head values) in
  let freshness := first tg_freshness MISSING in
  let latestCompletedRunAt := first tg_completedAt None in
  let unknownTradeCount := count (has_status UNKNOWN) values in
  let blockedTradeCount := count (has_status BLOCKED) values in
  {| cs_status :=
       match freshness with
       | MISSING => S_MISSING
       | STALE => S_STALE
       | FRESH => if 0 <? unknownTradeCount then S_UNKNOWN
                  else if 0 <? blockedTradeCount then S_BLOCKED else S_CLEAR
       end;
     cs_freshness := freshness;
     cs_latestCompletedRunKey := first tg_runKey None;
     cs_latestCompletedRunAt := latestCompletedRunAt;
     cs_latestCompletedRunAgeSeconds := (fun t => Z.max 0 ((now - t) / 1000)) <$> latestCompletedRunAt;
     cs_coverageToBlock := first tg_coverageToBlock None;
     cs_coverageComplete := first tg_coverageComplete None;
     cs_staleRunningRunCount := first tg_staleRunningRunCount 0;
     cs_trackedTradeCount := Z.of_nat (length values);
     cs_clearTradeCount := count (has_status CLEAR) values;
     cs_blockedTradeCount := blockedTradeCount;
     cs_unknownTradeCount := unknownTradeCount;
     cs_driftBlockedTradeCount := count (fun g => 0 <? tg_driftCount g) values;
     cs_blockedReasons := js_set (List.filter truthy (concat (map tg_blockedReasons values))) |}.

End Gate.

(** ** Freshness of ingestion (ingestionFreshness.ts) *)

Module Freshness.

Inductive IngestionFreshnessStatus := FRESH | STALE | NEVER_RUN | UNKNOWN.

#[global] Instance IngestionFreshnessStatus_eq_dec : EqDecision IngestionFreshnessStatus.
Proof. solve_decision. Defined.

Record IngestionFreshnessAssessment := {
  ia_status : IngestionFreshnessStatus;
  ia_lastSuccessAt : option Z;
  ia_ageSeconds : option Z;
  ia_maxAgeSeconds : Z;
  ia_lagBlocks : option Z;
  ia_maxLagBlocks : Z;
  ia_ingestedThroughBlockNumber : option Z;
  ia_stableBlockNumber : option Z;
  ia_consecutiveFailureCount : Z;
  ia_lastBlockedReason : option string;
  ia_blockedReasons : list string }.

Record FreshnessConfig := { ingestionMaxAgeSeconds : Z; ingestionMaxLagBlocks : Z }.

Definition LAST_FAILED_ATTEMPT_MESSAGE : string :=
  "Last ingestion attempt failed; use the ingestion run evidence or service logs for details.".

(** A cursor row with its name, in the order of the query. *)
Definition cursor_row : Type := string * IngestionCursorState.

Definition listIngestionCursorStates (cursorNames : list string) (l : Ledger) : list cursor_row :=
  js_sort (fun a b => String.leb a.1 b.1)
    (List.filter (fun p => includes cursorNames p.1) (map_to_list (ingestion_state l))).

(** The smallest of the values present. *)
Definition lowest (f : IngestionCursorState -> option Z) (states : list cursor_row) : option Z :=
  foldl (fun low s => match f s.2 with
                      | None => low
                      | Some v => match low with
                                  | None => Some v
                                  | Some m => if v <? m then Some v else low
                                  end
                      end) None states.

Definition first_text (f : IngestionCursorState -> option string) (states : list cursor_row)
    : option string :=
  match List.find (fun s => bool_decide (is_Some (f s.2))) states with
  | Some s => f s.2
  | None => None
  end.

Definition missing_cursors (states : list cursor_row) : list string :=
  List.filter (fun name => negb (existsb (fun s => String.eqb s.1 name) states)) INGESTION_CURSORS.

Definition never_succeeded (states : list cursor_row) : list cursor_row :=
  List.filter (fun s => bool_decide (ic_lastSuccessAt s.2 = None)) states.

Definition freshness_unknown (cfg : FreshnessConfig) (stableBlockNumber : option Z)
    : IngestionFreshnessAssessment :=
  {| ia_status := UNKNOWN; ia_lastSuccessAt := None; ia_ageSeconds := None;
     ia_maxAgeSeconds := ingestionMaxAgeSeconds cfg; ia_lagBlocks := None;
     ia_maxLagBlocks := ingestionMaxLagBlocks cfg; ia_ingestedThroughBlockNumber := None;
     ia_stableBlockNumber := stableBlockNumber; ia_consecutiveFailureCount := 0;
     ia_lastBlockedReason := None;
     ia_blockedReasons :=
       ["Treasury ingestion freshness could not be determined because the ingestion state could not be read."] |}.

Definition age_seconds (now lastSuccessAt : Z) : Z := Z.max 0 ((now - lastSuccessAt) / 1000).

Definition lag_blocks (stableBlockNumber ingestedThrough : option Z) : option Z :=
  match stableBlockNumber, ingestedThrough with
  | Some s, Some i => Some (Z.max 0 (s - i))
  | _, _ => None
  end.

(** The reasons of age and lag. *)
Definition stale_reasons (cfg : FreshnessConfig) (ageSeconds : Z) (lagBlocks : option Z) : list string :=
  ((if ingestionMaxAgeSeconds cfg <? ageSeconds
    then [("Treasury ingestion last completed " ++ print_Z ageSeconds ++ "s ago, beyond the "
             ++ print_Z (ingestionMaxAgeSeconds cfg) ++ "s freshness threshold.")%string] else [])
   ++ match lagBlocks with
      | Some lag =>
          if ingestionMaxLagBlocks cfg <? lag
          then [("Treasury ingestion is " ++ print_Z lag ++ " block(s) behind the finalized head, beyond the "
                   ++ print_Z (ingestionMaxLagBlocks cfg) ++ "-block lag threshold.")%string] else []
      | None => []
      end)%list.

(** [assess]; [None] when the states could not be read. *)
Definition assess (cfg : FreshnessConfig) (stableBlockNumber : option Z)
    (read : option (list cursor_row)) (now : Z) : IngestionFreshnessAssessment :=
  match read with
  | None => freshness_unknown cfg stableBlockNumber
  | Some states =>
      let lastSuccessAt := lowest ic_lastSuccessAt states in
      let consecutiveFailureCount :=
        foldl (fun high s => Z.max high (ic_consecutiveFailureCount s.2)) 0 states in
      let lastBlockedReason := first_text ic_lastBlockedReason states in
      let lastPartialReason := first_text ic_lastPartialReason states in
      let ingestedThrough := lowest ic_lastIngestedThroughBlockNumber states in
      let failed := match truthy_text lastBlockedReason with
                    | Some _ => [LAST_FAILED_ATTEMPT_MESSAGE] | None => [] end in
      let answer status last age lag reasons :=
        {| ia_status := status; ia_lastSuccessAt := last; ia_ageSeconds := age;
           ia_maxAgeSeconds := ingestionMaxAgeSeconds cfg; ia_lagBlocks := lag;
           ia_maxLagBlocks := ingestionMaxLagBlocks cfg;
           ia_ingestedThroughBlockNumber := ingestedThrough;
           ia_stableBlockNumber := stableBlockNumber;
           ia_consecutiveFailureCount := consecutiveFailureCount;
           ia_lastBlockedReason := lastBlockedReason; ia_blockedReasons := reasons |} in
      match missing_cursors states, never_succeeded states, lastSuccessAt with
      | [], [], Some last =>
          let ageSeconds := age_seconds now last in
          let lagBlocks := lag_blocks stableBlockNumber ingestedThrough in
          let reasons := stale_reasons cfg ageSeconds lagBlocks in
          match reasons with
          | [] => answer FRESH (Some last) (Some ageSeconds) lagBlocks []
          | _ :: _ =>
              answer STALE (Some last) (Some ageSeconds) lagBlocks
                (reasons ++ failed ++
                 match truthy_text lastPartialReason with
                 | Some m => [("Last ingestion run did not catch up: " ++ m)%string] | None => [] end)%list
          end
      | missing, never, _ =>
          answer NEVER_RUN None None None
            ([("Treasury ingestion has never completed a run for "
                 ++ String.concat ", " (js_sort String.leb (missing ++ map fst never)%list)
                 ++ "; chain evidence coverage is unproven.")%string] ++ failed)%list
      end
  end.

End Freshness.

(** ** Lemmas: freshness *)

Section freshness_lemmas.
Import Freshness.

Lemma lowest_spec f states :
  match lowest f states with
  | None => forall s, s ∈ states -> f s.2 = None
  | Some m => (exists s, s ∈ states /\ f s.2 = Some m) /\
              forall s v, s ∈ states -> f s.2 = Some v -> m <= v
  end.
Proof.
  unfold lowest. induction states as [|s states IH] using rev_ind; [by intros s ?%not_elem_of_nil|].
  rewrite foldl_app. cbn.
  match goal with IH : context [foldl ?g None states] |- _ => destruct (foldl g None states) as [m|] end.
  - destruct IH as [(s0 & Hs0 & Hf0) Hmin]. destruct (f s.2) as [v|] eqn:Hv.
    + destruct (Z.ltb_spec v m); (split; [|intros s1 v1 [H1|H1%list_elem_of_singleton]%elem_of_app Hv1]).
      * exists s. split; [apply elem_of_app; right; left | done].
      * specialize (Hmin s1 v1 H1 Hv1). lia.
      * subst. simplify_eq. lia.
      * exists s0. split; [apply elem_of_app; by left | done].
      * eauto.
      * subst. simplify_eq. lia.
    + split; [exists s0; split; [apply elem_of_app; by left | done]|].
      intros s1 v1 [H1|H1%list_elem_of_singleton]%elem_of_app Hv1; [eauto|]. congruence.
  - destruct (f s.2) as [v|] eqn:Hv.
    + split; [exists s; split; [apply elem_of_app; right; left | done]|].
      intros s1 v1 [H1|H1%list_elem_of_singleton]%elem_of_app Hv1; [by rewrite IH in Hv1|].
      subst. simplify_eq. lia.
    + intros s1 [H1|H1%list_elem_of_singleton]%elem_of_app; [eauto | by subst].
Qed.

Lemma filter_nil_iff {A} (p : A -> bool) l :
  List.filter p l = [] <-> forall x, x ∈ l -> p x = false.
Proof.
  split.
  - intros H x Hx. destruct (p x) eqn:E; [|done].
    assert (In x (List.filter p l)) as Hin by (apply filter_In; split; [by apply list_elem_of_In | done]).
    by rewrite H in Hin.
  - intros H. induction l as [|x l IH]; [done|]. cbn. rewrite H by left.
    apply IH. intros y Hy. apply H. by right.
Qed.

(** Every cursor exists, each of them last succeeded within the age limit, and
    none of them lags. *)
Definition cursors_current (cfg : FreshnessConfig) (stable : option Z) (now : Z)
    (states : list cursor_row) : Prop :=
  (forall name, name ∈ INGESTION_CURSORS -> exists c, (name, c) ∈ states) /\
  (forall s, s ∈ states -> exists t, ic_lastSuccessAt s.2 = Some t /\
     age_seconds now t <= ingestionMaxAgeSeconds cfg) /\
  (forall head s i, stable = Some head -> s ∈ states ->
     ic_lastIngestedThroughBlockNumber s.2 = Some i -> Z.max 0 (head - i) <= ingestionMaxLagBlocks cfg).

Lemma missing_nil states :
  missing_cursors states = [] <-> forall name, name ∈ INGESTION_CURSORS -> exists c, (name, c) ∈ states.
Proof.
  unfold missing_cursors. rewrite filter_nil_iff. apply forall_proper. intros name.
  rewrite negb_false_iff, existsb_exists. split; intros H Hn.
  - destruct (H Hn) as ([n c] & Hin & He). apply String.eqb_eq in He. cbn in He. subst n.
    exists c. by apply list_elem_of_In.
  - destruct (H Hn) as [c Hc]. exists (name, c). split; [by apply list_elem_of_In | apply String.eqb_refl].
Qed.

Lemma stale_reasons_nil cfg age lag :
  stale_reasons cfg age lag = [] <->
  age <= ingestionMaxAgeSeconds cfg /\
  (forall n, lag = Some n -> n <= ingestionMaxLagBlocks cfg).
Proof.
  unfold stale_reasons. rewrite app_nil.
  destruct (Z.ltb_spec (ingestionMaxAgeSeconds cfg) age); [split; [by intros [? _] | intros [? _]; lia]|].
  destruct lag as [n|]; [|split; [done|]; naive_solver].
  destruct (Z.ltb_spec (ingestionMaxLagBlocks cfg) n); split.
  - by intros [_ ?].
  - intros [_ H']. specialize (H' n eq_refl). lia.
  - intros _. split; [lia|]. by intros ? [= <-].
  - done.
Qed.

(** The status is FRESH exactly when nothing blocks, which is exactly when the
    cursors are current. *)
Lemma assess_fresh cfg stable states now :
  ia_status (assess cfg stable (Some states) now) = FRESH <-> cursors_current cfg stable now states.
Proof.
  unfold assess, cursors_current. rewrite <- missing_nil.
  pose proof (lowest_spec ic_lastSuccessAt states) as Hlow.
  pose proof (lowest_spec ic_lastIngestedThroughBlockNumber states) as Hing.
  destruct (missing_cursors states) as [|n ns] eqn:Hm; [|split; [done | by intros [? _]]].
  assert (exists s, s ∈ states) as [s1 Hs1].
  { destruct (proj1 (missing_nil states) Hm TRADE_EVENT_CURSOR) as [c Hc]; [left | eauto]. }
  destruct (never_succeeded states) as [|[x c] xs] eqn:Hn.
  2: { split; [done|]. intros (_ & H & _). assert (In (x, c) (never_succeeded states)) as Hin
         by (rewrite Hn; by left).
       apply filter_In in Hin as [Hin He%bool_decide_eq_true].
       destruct (H (x, c)) as (t & Ht & _); [by apply list_elem_of_In|]. cbn in *. congruence. }
  unfold never_succeeded in Hn. rewrite filter_nil_iff in Hn.
  destruct (lowest ic_lastSuccessAt states) as [last|].
  2: { specialize (Hlow _ Hs1). specialize (Hn _ Hs1). by rewrite bool_decide_eq_false in Hn. }
  destruct Hlow as [(s0 & Hs0 & Ht0) Hmin].
  transitivity (stale_reasons cfg (age_seconds now last)
    (lag_blocks stable (lowest ic_lastIngestedThroughBlockNumber states)) = []).
  { destruct (stale_reasons _ _ _); split; done. }
  rewrite stale_reasons_nil. split.
  - intros [Ha Hl]. split_and!; [done| |].
    + intros s Hs. specialize (Hn s Hs). apply bool_decide_eq_false in Hn.
      destruct (ic_lastSuccessAt s.2) as [t|] eqn:Et; [|done]. exists t. split; [done|].
      specialize (Hmin s t Hs Et). unfold age_seconds in *.
      pose proof (Z.div_le_mono (now - t) (now - last) 1000). lia.
    + intros head s i -> Hs Hi.
      destruct (lowest ic_lastIngestedThroughBlockNumber states) as [low|]; [|by rewrite Hing in Hi].
      specialize (Hl _ eq_refl). destruct Hing as [_ Hing]. specialize (Hing s i Hs Hi). lia.
  - intros (_ & Hall & Hlag). split.
    + destruct (Hall s0 Hs0) as (t & Ht & Hage). congruence.
    + intros n Hl. destruct stable as [head|]; [|done].
      destruct (lowest ic_lastIngestedThroughBlockNumber states) as [low|]; [|done].
      injection Hl as <-. destruct Hing as [(s2 & Hs2 & Hi2) _]. by apply (Hlag head s2 low).
Qed.

Lemma assess_reasons cfg stable read now :
  ia_blockedReasons (assess cfg stable read now) = [] <->
  ia_status (assess cfg stable read now) = FRESH.
Proof.
  unfold assess. destruct read as [states|]; [|done].
  destruct (missing_cursors states); [|done]. destruct (never_succeeded states) as [|[]]; [|done].
  destruct (lowest ic_lastSuccessAt states); [|done]. destruct (stale_reasons _ _ _); [done|done].
Qed.

End freshness_lemmas.

(** ** Lemmas: the gate *)

Section gate_lemmas.
Import Gate.

Lemma js_set_elem l x : x ∈ js_set l <-> x ∈ l.
Proof.
  unfold js_set.
  assert (forall acc, x ∈ foldl (fun acc y => if includes acc y then acc else (acc ++ [y])%list) acc l
    <-> x ∈ acc \/ x ∈ l) as H.
  { induction l as [|y l IH]; intros acc; cbn; [rewrite elem_of_nil; tauto|].
    rewrite IH, elem_of_cons. destruct (includes acc y) eqn:E.
    - apply includes_true in E. split; [tauto|]. by intros [?|[->|?]]; [left|left|right].
    - rewrite elem_of_app, list_elem_of_singleton. tauto. }
  rewrite H, elem_of_nil. tauto.
Qed.

Lemma unique_trades_elem ids id : id ∈ unique_trades ids <-> id ∈ ids /\ truthy (trim id) = true.
Proof. unfold unique_trades. rewrite js_set_elem, !list_elem_of_In, filter_In. done. Qed.

Lemma set_all_get gate ids id :
  map_get id (set_all gate ids) = if includes ids id then Some (gate id) else None.
Proof.
  unfold set_all. induction ids as [|x ids IH] using rev_ind; [done|].
  rewrite foldl_app. cbn. rewrite map_get_set_case, IH. unfold includes.
  destruct (String.eqb_spec x id) as [->|Hne].
  - by rewrite bool_decide_true by (apply elem_of_app; right; left).
  - assert (id ∈ (ids ++ [x])%list <-> id ∈ ids) as He.
    { rewrite elem_of_app, list_elem_of_singleton. split; [intros [?|?]; [done | congruence] | by left]. }
    by rewrite (bool_decide_ext _ _ He).
Qed.

Lemma set_all_keys gate ids :
  forall id, id ∈ map_keys (set_all gate ids) <-> id ∈ ids.
Proof.
  intros id. rewrite map_get_keys, set_all_get, <- (includes_true ids id).
  destruct (includes ids id); split; try done; [by eexists | by intros [? ?]].
Qed.

(** What a CLEAR gate rests on, in the rows of the run. *)
Definition run_current (cfg : GateConfig) (now : Z) (row : ReconcileRunRow) : Prop :=
  exists t, rr_completed_at row = Some t /\ 0 <= now - t <= maxAgeSeconds cfg * 1000.

Definition run_covered (row : ReconcileRunRow) (to_block : Z) : Prop :=
  coverage_complete row = Some true /\ toBlockNumber (coverage_to_block row) = Some to_block.

Lemma freshness_reason_none cfg now row :
  freshness_reason cfg now (rr_completed_at row) = None <-> run_current cfg now row.
Proof.
  unfold freshness_reason, run_current. destruct (rr_completed_at row) as [t|].
  2: { split; [done | by intros (? & ? & _)]. }
  destruct (Z.ltb_spec (now - t) 0); [split; [done|]; intros (? & [= <-] & ?); lia|].
  destruct (Z.ltb_spec (maxAgeSeconds cfg * 1000) (now - t)).
  - split; [done|]. intros (? & [= <-] & ?). lia.
  - split; [|done]. exists t. split; [done | lia].
Qed.

Lemma pushed_nil r : pushed r = [] <-> r = None.
Proof. by destruct r. Qed.

Lemma running_reason_none cfg n : running_reason cfg n = None <-> n <= 0.
Proof. unfold running_reason. destruct (Z.ltb_spec 0 n); split; done || lia. Qed.

Lemma coverage_reason_none row :
  coverage_reason (coverage_complete row) (toBlockNumber (coverage_to_block row)) = None <->
  exists b, run_covered row b.
Proof.
  unfold coverage_reason, run_covered. destruct (coverage_complete row) as [[]|];
    [|split; [done | by intros (? & ? & _)]..].
  destruct (toBlockNumber _) as [b|]; split; [by exists b | done | done | by intros (? & _ & ?)].
Qed.

(** A trade's gate is CLEAR exactly when the run is current and covered a whole
    range, no run hangs, and the run has the trade in scope without drift. *)
Lemma gate_of_clear cfg now staleRunning d key row id :
  tg_status (gate_of cfg now staleRunning d key row id) = CLEAR <->
  run_current cfg now row /\ staleRunning <= 0 /\ (exists b, run_covered row b) /\
  trade_scoped key id d = true /\ drift_count key id d = 0.
Proof.
  unfold gate_of. rewrite <- freshness_reason_none, <- (running_reason_none cfg), <- coverage_reason_none.
  rewrite <- !pushed_nil. cbv zeta.
  destruct (pushed (freshness_reason _ _ _)) as [|? ?]; [|split; [done | by intros [? _]]]. cbn.
  destruct (pushed (running_reason _ _)) as [|? ?]; [|split; [done | by intros (_ & ? & _)]]. cbn.
  destruct (pushed (coverage_reason _ _)) as [|? ?]; [|split; [done | by intros (_ & _ & ? & _)]].
  destruct (trade_scoped key id d); cbn; [|split; [done | by intros (_ & _ & _ & ? & _)]].
  assert (0 <= drift_count key id d) by (unfold drift_count; lia).
  destruct (Z.ltb_spec 0 (drift_count key id d)); split; try done; [|intros _; split_and!; done || lia].
  intros (_ & _ & _ & _ & ?). lia.
Qed.

Lemma gate_of_run cfg now staleRunning d key row id :
  let g := gate_of cfg now staleRunning d key row id in
  tg_tradeId g = id /\ tg_runKey g = Some key /\ tg_completedAt g = rr_completed_at row /\
  tg_staleRunningRunCount g = staleRunning /\
  tg_coverageToBlock g = toBlockNumber (coverage_to_block row) /\
  tg_coverageComplete g = coverage_complete row.
Proof.
  cbv zeta. unfold gate_of. destruct (_ ++ _)%list; [|done].
  destruct (negb _); [done|]. by destruct (_ <? _).
Qed.

(** The order of the query is total. *)
Lemma run_newer_total a b : run_newer a b = false -> run_newer b a = true.
Proof.
  unfold run_newer. destruct (rr_completed_at a.2) as [x|], (rr_completed_at b.2) as [y|]; try done.
  - intros [H1 H2]%orb_false_iff. apply Z.ltb_ge in H1.
    destruct (Z.ltb_spec x y); [done|]. assert (x = y) as -> by lia. rewrite Z.eqb_refl in *. cbn in *.
    apply Z.leb_gt in H2. apply Z.leb_le. lia.
  - intros ?%Z.leb_gt. apply Z.leb_le. lia.
Qed.

Lemma run_newer_trans a b c : run_newer a b = true -> run_newer b c = true -> run_newer a c = true.
Proof.
  unfold run_newer. destruct (rr_completed_at a.2) as [x|], (rr_completed_at b.2) as [y|],
    (rr_completed_at c.2) as [z|]; try done; intros H1 H2.
  - apply orb_true_iff. apply orb_true_iff in H1, H2. rewrite andb_true_iff, !Z.ltb_lt, !Z.eqb_eq, !Z.leb_le in *.
    lia.
  - apply Z.leb_le in H1, H2. apply Z.leb_le. lia.
Qed.

Lemma latest_run_spec sel r p :
  latest_run sel r = Some p ->
  reconcile_runs (gr_db r) !! p.1 = Some p.2 /\ run_selected sel r p = true /\
  forall key row, reconcile_runs (gr_db r) !! key = Some row ->
    run_selected sel r (key, row) = true -> run_newer p (key, row) = true.
Proof.
  unfold latest_run. set (rows := List.filter _ _). intros H.
  assert (forall q, q ∈ rows <-> reconcile_runs (gr_db r) !! q.1 = Some q.2 /\ run_selected sel r q = true)
    as Hrows.
  { intros [k row]. unfold rows. rewrite list_elem_of_In, filter_In, <- list_elem_of_In.
    by rewrite elem_of_map_to_list. }
  pose proof (js_sort_Permutation run_newer rows) as Hp.
  pose proof (js_sort_sorted run_newer rows run_newer_total run_newer_trans) as Hs.
  destruct (js_sort run_newer rows) as [|x l]; [done|]. injection H as ->.
  assert (p ∈ rows) as Hin by (rewrite <- Hp; left). apply Hrows in Hin as [? ?].
  split_and!; [done..|]. intros key row Hr Hsel.
  assert ((key, row) ∈ rows) as Hq by (by apply Hrows). rewrite <- Hp in Hq.
  apply elem_of_cons in Hq as [->|Hq].
  - destruct (run_newer p p) eqn:E; [done|]. by apply run_newer_total in E as E'; congruence.
  - apply StronglySorted_inv in Hs as [_ Hs]. rewrite Forall_forall in Hs. by apply Hs.
Qed.

(** The gate a trade gets, when there is a reader. *)
Lemma assess_get cfg sel now1 now2 r ids gates id g :
  assessTradesFromReader cfg sel now1 now2 (Some r) ids = Ok gates -> map_get id gates = Some g ->
  id ∈ ids /\ truthy (trim id) = true /\
  match run_present (latest_run sel r) with
  | None => g = no_run_gate BLOCKED (stale_running cfg now1 r)
                  "No completed reconciliation run is available" id
  | Some (key, row) => g = gate_of cfg now2 (stale_running cfg now1 r) (gr_db r) key row id
  end.
Proof.
  unfold assessTradesFromReader. case_bool_decide as Hids; [by intros [= <-]|]. intros H Hg.
  apply bind_ok in H as ([] & _ & [= <-]). rewrite set_all_get in Hg.
  destruct (includes _ id) eqn:Hi; [|done]. apply includes_true, unique_trades_elem in Hi as [? ?].
  injection Hg as <-. split_and!; [done..|]. by destruct (run_present _) as [[key row]|].
Qed.

Lemma stale_running_none cfg now r :
  stale_running cfg now r <= 0 <->
  forall key row, reconcile_runs (gr_db r) !! key = Some row -> rr_status row = RUNNING ->
    now - maxRunningRunAgeSeconds cfg * 1000 <= rr_started_at row.
Proof.
  unfold stale_running. set (rows := List.filter _ _).
  transitivity (rows = []). { destruct rows; [done|]. cbn. split; [lia | done]. }
  unfold rows. rewrite filter_nil_iff. split.
  - intros H key row Hr Hs. specialize (H (key, row)). rewrite elem_of_map_to_list in H.
    specialize (H Hr). cbn in H. rewrite bool_decide_true in H by done. apply Z.ltb_ge in H. done.
  - intros H [key row] Hr%elem_of_map_to_list. cbn. case_bool_decide as Hs; [|done].
    apply Z.ltb_ge. by eapply H.
Qed.

Lemma trade_scoped_row key id d :
  trade_scoped key id d = true -> exists s, s ∈ scope_of key d /\ sc_trade_id s = id.
Proof.
  intros (s & Hs & H)%existsb_elem. apply andb_true_iff in H as [Hk Ht%String.eqb_eq].
  exists s. split; [|done]. apply list_elem_of_In, filter_In. by split; [apply list_elem_of_In|].
Qed.

Lemma drift_count_none key id d :
  drift_count key id d = 0 ->
  forall row, row ∈ drifts_of key (reconcile_drifts d) -> df_tradeId (dr_finding row) <> id.
Proof.
  intros H row [Hin Hk]%list_elem_of_In%filter_In He. unfold drift_count in H.
  assert (List.filter (fun row => String.eqb (dr_run_key row) key && String.eqb (df_tradeId (dr_finding row)) id)
    (reconcile_drifts d) = []) as Hnil by (destruct (List.filter _ _); [done | cbn in H; lia]).
  rewrite filter_nil_iff in Hnil. specialize (Hnil row). rewrite Hk, He, String.eqb_refl in Hnil.
  by specialize (Hnil ltac:(by apply list_elem_of_In)).
Qed.

End gate_lemmas.

(** ** What the gate's answers are worth *)

Section gate_theorems.
Import Gate.
Context (isAddress : string -> bool) (getAddress : string -> string) (config : ReconConfig).
Notation recon_history := (recon_history isAddress getAddress config).

(** What a CLEAR gate says of the reconciliation history: [key] is the latest
    completed run, complete, recent, and some published run of its cycle compared
    the trade with the chain at the block of its watermark and found agreement. *)
Definition clear_evidence (w : world) (r : GateReader) (cfg : GateConfig) (sel : SnapshotRunSelection)
    (now1 now2 : Z) (id key : string) (to_block : Z) : Prop :=
  exists row cov, reconcile_runs (w_db w) !! key = Some row /\ rr_status row = ReconDb.COMPLETED /\
    run_current cfg now2 row /\
    (forall key' row', reconcile_runs (w_db w) !! key' = Some row' ->
       run_selected sel r (key', row') = true -> run_newer (key, row) (key', row') = true) /\
    (forall key' row', reconcile_runs (w_db w) !! key' = Some row' -> rr_status row' = RUNNING ->
       now1 - maxRunningRunAgeSeconds cfg * 1000 <= rr_started_at row') /\
    row_coverage row = Some cov /\ rc_complete cov = true /\
    cb_blockNumber (rc_boundary cov) = to_block /\
    exists p, p ∈ w_log w /\ same_point (rd_boundary (pb_reads p)) (rc_boundary cov) /\
      agreed isAddress getAddress (pb_reads p) id.

Lemma clear_gate_evidence past w r cfg sel now1 now2 ids gates id g :
  recon_history (w :: past) -> gr_db r = w_db w ->
  assessTradesFromReader cfg sel now1 now2 (Some r) ids = Ok gates ->
  map_get id gates = Some g -> tg_status g = CLEAR ->
  exists key b, tg_runKey g = Some key /\ tg_coverageToBlock g = Some b /\
    clear_evidence w r cfg sel now1 now2 id key b.
Proof.
  intros Hh Hd Ha Hg Hc. destruct (assess_get _ _ _ _ _ _ _ _ _ Ha Hg) as (_ & _ & H).
  destruct (run_present (latest_run sel r)) as [[key row]|] eqn:Hl; [|by subst g].
  assert (latest_run sel r = Some (key, row)) as Hlatest.
  { unfold run_present in Hl. destruct (latest_run sel r) as [q|]; [|done].
    destruct (truthy q.1); congruence. }
  destruct (latest_run_spec _ _ _ Hlatest) as (Hr & Hsel & Hnew). cbn in Hr. subst g.
  rewrite Hd in Hr, Hnew, Hc |- *. apply gate_of_clear in Hc as (Hcur & Hst & (b & Hcomp & Hb) & Hs & Hdr).
  destruct (gate_of_run cfg now2 (stale_running cfg now1 r) (w_db w) key row id)
    as (_ & -> & _ & _ & -> & _).
  exists key, b. split_and!; [done..|].
  unfold run_selected in Hsel. cbn in Hsel. apply andb_true_iff in Hsel as [[Hsel _]%andb_true_iff _].
  apply bool_decide_eq_true in Hsel.
  unfold coverage_complete in Hcomp. unfold coverage_to_block in Hb.
  destruct (row_coverage row) as [cov|] eqn:Hcov; [|done]. cbn in Hcomp, Hb. injection Hcomp as Hcomp.
  assert (cb_blockNumber (rc_boundary cov) = b) as Hbn.
  { destruct (_ && _) in Hb; [by injection Hb|done]. }
  exists row, cov. split_and!; try done.
  - rewrite <- Hd. by apply (stale_running_none cfg now1 r).
  - destruct (trade_scoped_row _ _ _ Hs) as (s & Hin & <-).
    apply (wi_trade _ _ _ _ (history_inv _ _ _ _ _ Hh) key row cov Hr); [|done|by apply drift_count_none].
    unfold row_coverage in Hcov. destruct (rr_stats row) as [st|] eqn:Hstats; [|done].
    split; [done|]. by exists st.
Qed.

End gate_theorems.

(** The gates of one answer are those of one run. *)
Lemma assess_head_freshness cfg sel now1 now2 reader ids gates :
  Gate.assessTradesFromReader cfg sel now1 now2 reader ids = Ok gates ->
  exists gate, gates = Gate.set_all gate (Gate.unique_trades ids) /\
    ((forall id, Gate.tg_freshness (gate id) = Gate.MISSING /\ Gate.tg_status (gate id) <> Gate.CLEAR) \/
     (forall id, Gate.tg_freshness (gate id) = Gate.STALE /\ Gate.tg_status (gate id) <> Gate.CLEAR) \/
     (forall id, Gate.tg_freshness (gate id) = Gate.FRESH)).
Proof.
  unfold Gate.assessTradesFromReader. case_bool_decide as Hn.
  { intros [= <-]. rewrite Hn. exists (Gate.no_run_gate Gate.UNKNOWN 0 ""). split; [done|]. by left. }
  destruct reader as [r|]; [|intros [= <-]; eexists; split; [done|]; by left].
  intros H. apply bind_ok in H as ([] & _ & [= <-]). eexists. split; [done|].
  destruct (Gate.run_present _) as [[key row]|]; [|by left]. right.
  unfold Gate.gate_of. cbv zeta.
  destruct (Gate.freshness_reason cfg now2 (rr_completed_at row)) as [m|]; cbn.
  - left. done.
  - right. intros id. destruct (_ ++ _)%list; [|done].
    destruct (negb _); [done|]. by destruct (_ <? _).
Qed.
