(* ===== verification/TreasuryExport.v ===== *)
(** Which ledger entries may be paid out or exported:
    treasury/src/core/exportEligibility.ts with its context
    ([exportEligibilityContext.ts]), the sweep gate ([api/sweepBatchGate.ts]), the
    manual payout transition and the export route of [api/controller.ts], and the
    pages of [core/ledgerExport.ts] and [core/ledgerExportService.ts].

    An assessment asks the settlement RPC, reads the reconciliation database and
    writes the verdicts of the chain, in the monad of [TreasuryIngest]: before each
    effect other transactions of the treasury may commit.  The texts of verdict
    details are left out, and so are metrics and logs.  Payout events are listed in
    the order of their creation. *)
From stdpp Require Import base list gmap strings.
From S2P Require Import Prelude JsText JsDate JsMap Finality ReconTypes ReconCoverage ReconClassifier.
From S2P Require Import ReconDb ReconRun ReconRunInv ReconHistory ReconSound Containment.
From S2P Require Import TreasuryAmount TreasuryPolicy TreasuryChain TreasuryDb TreasuryLedger.
From S2P Require Import TreasuryDbInv TreasuryIngest.
From S2P Require Import TreasuryGate.

Open Scope string_scope.
Open Scope Z_scope.

(** ** Rows (database/queries/ledger.ts) *)

Record LedgerEntryForExport := {
  xe_id : Z;
  xe_row : LedgerEntry;
  xe_latest_state : option PayoutState }.

(** The state of the newest event of an entry. *)
Definition latest_state (id : Z) (l : Ledger) : option PayoutState :=
  pl_state <$> last (List.filter (fun p => pl_ledger_entry_id p =? id) (payout_events l)).

Definition export_row (l : Ledger) (entry : Z * LedgerEntry) : LedgerEntryForExport :=
  {| xe_id := entry.1; xe_row := entry.2; xe_latest_state := latest_state entry.1 l |}.

(** [ORDER BY e.id] *)
Definition getLedgerEntriesForEligibilityByIds (ids : list Z) (l : Ledger) : list LedgerEntryForExport :=
  map (export_row l)
    (js_sort (fun a b => a.1 <=? b.1)
       (List.filter (fun p => includes ids p.1) (map_to_list (ledger_rows l)))).

(** ** What an assessment asks *)

Inductive BlockTag := LATEST | SAFE_TAG | FINALIZED_TAG.

Record EligibilityWorld := {
  el_world : World;
  el_block : nat -> BlockTag -> result TreasuryError (option (Z * option string));
  el_recon : nat -> result TreasuryError (option Gate.GateReader);
  el_states_readable : nat -> bool;
  el_bank : nat -> Z -> result TreasuryError (option BankPayoutState) }.

Record EligibilityConfig := {
  gate_config : Gate.GateConfig;
  freshness_config : Freshness.FreshnessConfig }.

(** [try { ... } catch { ... }] *)
Definition attempt {A} (m : ingest A) : ingest (result IngestError A) := fun r =>
  let '(x, r') := m r in (Ok x, r').

(** ** Heads (exportEligibilityContext.ts) *)

Record SettlementHeads := {
  hd_heads : option SettlementConfirmationHeads;
  hd_failureReason : option string;
  hd_finalizedBlockHash : option string }.

Record SnapshotEligibilityContext := {
  sc_heads : SettlementConfirmationHeads;
  sc_finalizedBlockNumber : Z;
  sc_finalizedBlockHash : string;
  sc_ingestion : Freshness.IngestionFreshnessAssessment;
  sc_reconciliationRunKey : option string;
  sc_reconciliationByTradeId : jsmap Gate.TradeReconciliationGate;
  sc_reconciliationRunAnchor : option Gate.ReconciliationRunAnchor }.

Section eligibility.
Context (sha256 : string -> string) (cfg : EligibilityConfig) (e : EligibilityWorld).
Let w := el_world e.

Definition getBlock (tag : BlockTag) : ingest (option (Z * option string)) :=
  ask w (fun n => el_block e n tag).

Definition readSettlementHeads : ingest SettlementHeads :=
  if negb (w_configured w)
  then mret {| hd_heads := None;
               hd_failureReason := Some "Settlement runtime is not configured for treasury confirmation checks";
               hd_finalizedBlockHash := None |}
  else
    latestBlock ← getBlock LATEST;
    safeBlock ← getBlock SAFE_TAG;
    finalizedBlock ← getBlock FINALIZED_TAG;
    match latestBlock with
    | None =>
        mret {| hd_heads := None;
                hd_failureReason :=
                  Some "Managed RPC provider returned no latest block for treasury confirmation checks";
                hd_finalizedBlockHash := None |}
    | Some latest =>
        mret {| hd_heads := Some {| latestHead := latest.1; safeHead := fst <$> safeBlock;
                                    finalizedHead := fst <$> finalizedBlock |};
                hd_failureReason := None;
                hd_finalizedBlockHash := finalizedBlock ≫= snd |}
    end.

(** [ingestionFreshness.assess({ stableBlockNumber })] *)
Definition assess_ingestion (stableBlockNumber : option Z)
    : ingest Freshness.IngestionFreshnessAssessment :=
  run ← get_run;
  states ← attempt (statement w (fun d =>
    if el_states_readable e (run_tick run)
    then Ok (d, Freshness.listIngestionCursorStates INGESTION_CURSORS (ledger d))
    else Err (PlainError "the ingestion state could not be read")));
  run ← get_run;
  mret (Freshness.assess (freshness_config cfg) stableBlockNumber
          (match states with Ok s => Some s | Err _ => None end) (w_now w (run_tick run))).

(** [reconciliationGate.assessTrades] *)
Definition assess_trades (tradeIds : list string) (sel : Gate.SnapshotRunSelection)
    : ingest (jsmap Gate.TradeReconciliationGate) :=
  run ← get_run;
  reader ← ask w (el_recon e);
  let now := w_now w (run_tick run) in
  lift (Gate.assessTradesFromReader (gate_config cfg) sel now now reader tradeIds).

(** ** Canonicality of one entry (exportEligibility.ts) *)

Record CanonicalityOutcome := {
  co_state : ChainCanonicalityState;
  co_depth : option Z;
  co_stableBlockNumber : option Z;
  co_blockedReason : option string }.

Definition REVOCATION_ACTOR : string := "system:chain-canonicality".

Definition depth_text (depth : option Z) : string :=
  match depth with Some n => print_Z n | None => "unknown" end.

Definition mismatch_name (r : ChainMismatchReason) : string :=
  match r with
  | RECEIPT_MISSING => "RECEIPT_MISSING" | RECEIPT_REVERTED => "RECEIPT_REVERTED"
  | BLOCK_HASH_MISMATCH => "BLOCK_HASH_MISMATCH" | BLOCK_NUMBER_MISMATCH => "BLOCK_NUMBER_MISMATCH"
  | LOG_IDENTITY_MISMATCH => "LOG_IDENTITY_MISMATCH" | LOG_CONTENT_MISMATCH => "LOG_CONTENT_MISMATCH"
  end.

Definition log_identity (row : LedgerEntry) : ChainLogIdentity :=
  {| li_txHash := le_tx_hash row; li_blockNumber := le_block_number row;
     li_blockHash := le_block_hash row; li_logIndex := le_log_index row;
     li_logAddress := le_log_address row; li_logIdentityHash := le_log_identity_hash row |}.

(** The entry names a log, so that [verify] looks for its receipt. *)
Definition full_identity (i : ChainLogIdentity) : bool :=
  bool_decide (is_Some (normalizeBlockHash (li_blockHash i))) && bool_decide (is_Some (li_logIndex i))
  && bool_decide (is_Some (normalizeLogAddress (li_logAddress i)))
  && match li_logIdentityHash i with Some d => truthy d | None => false end.

(** [canonicalityVerifier.verify], with the lookup where it happens. *)
Definition verify_entry (row : LedgerEntry) (stableBlockNumber : Z) : ingest ChainCanonicalityVerdict :=
  let identity := log_identity row in
  let verdict answer := TreasuryChain.verify sha256 (w_configured w) identity answer stableBlockNumber in
  if w_configured w && full_identity identity
  then
    answer ← attempt (ask w (fun n => w_getReceipt w n (li_txHash identity)));
    mret (verdict match answer with Ok receipt => Ok receipt | Err _ => Err "receipt lookup failed" end)
  else mret (verdict (Ok None)).

Definition canonical_mark (entry : LedgerEntryForExport) (blockHash : string) (stableBlockNumber : Z)
    : CanonicalMark :=
  {| cm_ledgerEntryId := xe_id entry; cm_blockHash := blockHash;
     cm_logIndex := default 0 (le_log_index (xe_row entry));
     cm_logAddress := default "" (le_log_address (xe_row entry));
     cm_logIdentityHash := default "" (le_log_identity_hash (xe_row entry));
     cm_stableBlockNumber := stableBlockNumber |}.

Definition applyVerdict (entry : LedgerEntryForExport) (verdict : ChainCanonicalityVerdict)
    (stableBlockNumber : Z) : ingest CanonicalityOutcome :=
  let row := xe_row entry in
  run ← get_run;
  match verdict with
  | CanonicalVerdict blockHash _ =>
      state ← statement w (on_ledger (fun l => Ok (markLedgerEntryCanonical
                (canonical_mark entry blockHash stableBlockNumber) (w_now w (run_tick run)) l)));
      mret match (state : ChainCanonicalityState) with
           | CANONICAL => {| co_state := CANONICAL; co_depth := None;
                             co_stableBlockNumber := Some stableBlockNumber; co_blockedReason := None |}
           | ORPHANED =>
               {| co_state := ORPHANED; co_depth := le_canonicality_depth row;
                  co_stableBlockNumber := Some stableBlockNumber;
                  co_blockedReason := Some "Entry was orphaned by a concurrent chain re-verification and cannot become eligible again without an approved correction." |}
           | UNVERIFIED =>
               {| co_state := UNVERIFIED; co_depth := le_canonicality_depth row;
                  co_stableBlockNumber := Some stableBlockNumber;
                  co_blockedReason := Some "Chain canonicality could not be recorded, so the entry is not cleared for payout." |}
           end
  | UnverifiedVerdict _ =>
      mret {| co_state := UNVERIFIED; co_depth := le_canonicality_depth row;
              co_stableBlockNumber := Some stableBlockNumber;
              co_blockedReason := Some "Chain canonicality is unproven" |}
  | OrphanedVerdict reason expected observed observedNumber observedIndex depth stable =>
      _ ← statement w (on_ledger (recordLedgerEntryOrphaned
            {| re_ledger_entry_id := xe_id entry; re_entry_key := le_entry_key row;
               re_trade_id := le_trade_id row; re_tx_hash := le_tx_hash row;
               re_block_number := le_block_number row; re_expected_block_hash := expected;
               re_observed_block_hash := observed; re_observed_block_number := observedNumber;
               re_observed_log_index := observedIndex; re_reorg_depth := depth;
               re_stable_block_number := stable; re_mismatch_reason := reason |}
            (if canTransition (xe_latest_state entry) CANCELLED then xe_latest_state entry else None)
            REVOCATION_ACTOR (w_now w (run_tick run))));
      mret {| co_state := ORPHANED; co_depth := Some depth; co_stableBlockNumber := Some stable;
              co_blockedReason := Some ("Entry was orphaned by a chain reorganization ("
                ++ mismatch_name reason ++ ") at depth " ++ print_Z depth) |}
  end.

Definition assessCanonicality (entry : LedgerEntryForExport) (stableBlockNumber : option Z)
    : ingest CanonicalityOutcome :=
  let row := xe_row entry in
  if bool_decide (le_canonicality_state row = ORPHANED)
  then mret {| co_state := ORPHANED; co_depth := le_canonicality_depth row;
               co_stableBlockNumber := le_stable_block_number row;
               co_blockedReason := Some ("Entry was orphaned by a chain reorganization at depth "
                 ++ depth_text (le_canonicality_depth row)
                 ++ " and cannot become eligible again without an approved correction.") |}
  else
    match stableBlockNumber with
    | None =>
        mret {| co_state := le_canonicality_state row; co_depth := le_canonicality_depth row;
                co_stableBlockNumber := le_stable_block_number row;
                co_blockedReason := Some "Chain canonicality could not be re-verified because no finalized head is available." |}
    | Some stable =>
        verdict ← verify_entry row stable;
        applyVerdict entry verdict stable
    end.

(** ** Blocked reasons *)

Definition stage_name (s : SettlementConfirmationStage) : string :=
  match s with INDEXED => "INDEXED" | SAFE => "SAFE" | Finality.FINALIZED => "FINALIZED" end.

Definition confirmation_reasons (confirmationFailureReason : option string)
    (confirmationState : option SettlementConfirmationState) : list string :=
  match truthy_text confirmationFailureReason with
  | Some reason => [reason]
  | None =>
      match confirmationState with
      | Some state =>
          if isTreasuryConfirmationStage (stage state) then []
          else [("Entry has not reached Base finalized stage (current stage: "
                   ++ stage_name (stage state) ++ ")")%string]
      | None => ["Entry has not reached Base finalized stage"]
      end
  end.

Definition buildBlockedReasons (latestState : option PayoutState)
    (confirmationState : option SettlementConfirmationState)
    (reconciliationStatus : Gate.ReconciliationGateStatus) (confirmationFailureReason : option string)
    (reconciliationBlockedReasons : list string) (bankConfirmationState : option BankPayoutState)
    (canonicalityBlockedReason : option string) (ingestionBlockedReasons : list string)
    (reconciliationCoverageBlockedReason : option string) : list string :=
  js_set (ingestionBlockedReasons
    ++ confirmation_reasons confirmationFailureReason confirmationState
    ++ Gate.pushed (truthy_text canonicalityBlockedReason)
    ++ (if bool_decide (reconciliationStatus = Gate.CLEAR) then [] else reconciliationBlockedReasons)
    ++ Gate.pushed (truthy_text reconciliationCoverageBlockedReason)
    ++ (if bool_decide (latestState = Some EXTERNAL_EXECUTION_CONFIRMED)
           && negb (bool_decide (bankConfirmationState = Some BANK_CONFIRMED))
        then ["Confirmed external execution evidence is required before completion export."]
        else []))%list.

Definition resolveCoverageBlockedReason (entryBlockNumber : Z) (gate : Gate.TradeReconciliationGate)
    : option string :=
  match Gate.tg_coverageToBlock gate with
  | None => Some "Reconciliation run has no chain coverage watermark, so it cannot be bound to this entry."
  | Some to_block =>
      if to_block <? entryBlockNumber
      then Some ("Entry block " ++ print_Z entryBlockNumber ++ " is beyond reconciliation run "
             ++ default "unknown" (Gate.tg_runKey gate) ++ " coverage watermark " ++ print_Z to_block ++ ".")
      else None
  end.

Definition isExportableState (state : option PayoutState) : bool :=
  match state with
  | Some READY_FOR_EXTERNAL_HANDOFF | Some AWAITING_EXTERNAL_CONFIRMATION
  | Some EXTERNAL_EXECUTION_CONFIRMED => true
  | _ => false
  end.

Record TreasuryEntryEligibility := {
  te_entryId : Z;
  te_tradeId : string;
  te_payoutState : option PayoutState;
  te_confirmation : option SettlementConfirmationState;
  te_gate : Gate.TradeReconciliationGate;
  te_canonicality : CanonicalityOutcome;
  te_eligibleForPayout : bool;
  te_eligibleForExport : bool;
  te_blockedReasons : list string }.

(** The gate of a trade the reader has no answer for. *)
Definition undetermined_gate (tradeId : string) : Gate.TradeReconciliationGate :=
  Gate.no_run_gate Gate.UNKNOWN 0 "Reconciliation status could not be determined" tradeId.

(** [RangeError] and the like of a pure function. *)
Definition lift_text {A} (m : result string A) : ingest A :=
  lift match m with Ok x => Ok x | Err m => Err (PlainError m) end.

(** The body of the loop over the entries. *)
Definition assessEntry (heads : option SettlementConfirmationHeads) (failureReason : option string)
    (ingestion : Freshness.IngestionFreshnessAssessment)
    (gates : jsmap Gate.TradeReconciliationGate) (entry : LedgerEntryForExport)
    : ingest TreasuryEntryEligibility :=
  let row := xe_row entry in
  confirmationState ← match heads with
                      | Some h => s ← lift_text (resolveSettlementConfirmationStage (le_block_number row) h);
                                  mret (Some s)
                      | None => mret None
                      end;
  canonicality ← assessCanonicality entry (heads ≫= finalizedHead);
  bank ← (if bool_decide (xe_latest_state entry = Some EXTERNAL_EXECUTION_CONFIRMED)
          then ask w (fun n => el_bank e n (xe_id entry)) else mret None);
  let gate := default (undetermined_gate (le_trade_id row)) (map_get (le_trade_id row) gates) in
  let reasons := buildBlockedReasons (xe_latest_state entry) confirmationState (Gate.tg_status gate)
    failureReason (Gate.tg_blockedReasons gate) bank (co_blockedReason canonicality)
    (Freshness.ia_blockedReasons ingestion)
    (resolveCoverageBlockedReason (le_block_number row) gate) in
  let payout := bool_decide (reasons = []) in
  mret {| te_entryId := xe_id entry; te_tradeId := le_trade_id row;
          te_payoutState := xe_latest_state entry; te_confirmation := confirmationState;
          te_gate := gate; te_canonicality := canonicality; te_eligibleForPayout := payout;
          te_eligibleForExport := payout && isExportableState (xe_latest_state entry);
          te_blockedReasons := reasons |}.

Fixpoint assess_each (heads : option SettlementConfirmationHeads) (failureReason : option string)
    (ingestion : Freshness.IngestionFreshnessAssessment) (gates : jsmap Gate.TradeReconciliationGate)
    (entries : list LedgerEntryForExport) (found : gmap Z TreasuryEntryEligibility)
    : ingest (gmap Z TreasuryEntryEligibility) :=
  match entries with
  | [] => mret found
  | entry :: entries =>
      verdict ← assessEntry heads failureReason ingestion gates entry;
      assess_each heads failureReason ingestion gates entries (<[xe_id entry := verdict]> found)
  end.

(** ** The snapshot context of an export *)

(** The gate is evidence for the entry. *)
Definition snapshot_gate (entry : LedgerEntryForExport) (gate : Gate.TradeReconciliationGate) : bool :=
  bool_decide (is_Some (truthy_text (Gate.tg_runKey gate)))
  && bool_decide (Gate.tg_freshness gate = Gate.FRESH)
  && bool_decide (Gate.tg_coverageComplete gate = Some true)
  && match Gate.tg_coverageToBlock gate with
     | Some b => le_block_number (xe_row entry) <=? b | None => false end
  && (Gate.tg_staleRunningRunCount gate <=? 0)
  && negb (bool_decide (Gate.tg_status gate = Gate.UNKNOWN)).

Definition with_gates (key : option string) (gates : jsmap Gate.TradeReconciliationGate)
    (c : SnapshotEligibilityContext) : SnapshotEligibilityContext :=
  {| sc_heads := sc_heads c; sc_finalizedBlockNumber := sc_finalizedBlockNumber c;
     sc_finalizedBlockHash := sc_finalizedBlockHash c; sc_ingestion := sc_ingestion c;
     sc_reconciliationRunKey := key; sc_reconciliationByTradeId := gates;
     sc_reconciliationRunAnchor := sc_reconciliationRunAnchor c |}.

(** The loop that keeps the gates in the context. *)
Fixpoint retain_gates (gates : jsmap Gate.TradeReconciliationGate) (entries : list LedgerEntryForExport)
    (c : SnapshotEligibilityContext) : result TreasuryError SnapshotEligibilityContext :=
  match entries with
  | [] => Ok c
  | entry :: entries =>
      let tradeId := le_trade_id (xe_row entry) in
      match map_get tradeId gates with
      | None => Err Gate.UNAVAILABLE
      | Some gate =>
          _ ← throw_if (negb (snapshot_gate entry gate)) Gate.UNAVAILABLE;
          _ ← throw_if (bool_decide (is_Some (truthy_text (sc_reconciliationRunKey c)))
                        && negb (bool_decide (sc_reconciliationRunKey c = Gate.tg_runKey gate)))
                (PlainError "Reconciliation run changed during export construction");
          _ ← throw_if (match map_get tradeId (sc_reconciliationByTradeId c) with
                        | Some previous => negb (bool_decide (previous = gate))
                        | None => false
                        end)
                (PlainError "Reconciliation evidence changed during export construction");
          retain_gates gates entries
            (with_gates (Gate.tg_runKey gate) (map_set tradeId gate (sc_reconciliationByTradeId c)) c)
      end
  end.

(** ** The assessment *)

Definition assessEntries (entries : list LedgerEntryForExport)
    (context : option SnapshotEligibilityContext)
    : ingest (gmap Z TreasuryEntryEligibility * option SnapshotEligibilityContext) :=
  if bool_decide (length entries = 0%nat) then mret (∅, context)
  else
    _ ← modify (fun r => with_receipts ∅ (with_blocks ∅ r));
    read ← match context with
           | Some c => mret {| hd_heads := Some (sc_heads c); hd_failureReason := None;
                               hd_finalizedBlockHash := None |}
           | None => readSettlementHeads
           end;
    let stableBlockNumber := hd_heads read ≫= finalizedHead in
    ingestion ← match context with
                | Some c => mret (sc_ingestion c)
                | None => assess_ingestion stableBlockNumber
                end;
    gates ← assess_trades (map (fun x => le_trade_id (xe_row x)) entries)
              match context with
              | Some c => {| Gate.sel_runKey := sc_reconciliationRunKey c;
                             Gate.sel_requireImmutable := true |}
              | None => Gate.no_selection
              end;
    context ← match context with
              | Some c => c ← lift (retain_gates gates entries (with_gates (sc_reconciliationRunKey c) [] c));
                          mret (Some c)
              | None => mret None
              end;
    found ← assess_each (hd_heads read) (hd_failureReason read) ingestion gates entries ∅;
    mret (found, context).

(** ** The sweep gate (sweepBatchGate.ts) *)

Inductive SweepEligibilityRequirement := PAYOUT_REQUIRED | CANONICAL_REQUIRED.

(** A query. *)
Definition read {A} (f : Ledger -> A) : ingest A := statement w (fun d => Ok (d, f (ledger d))).

Definition sweep_cleared (requirement : SweepEligibilityRequirement)
    (found : gmap Z TreasuryEntryEligibility) (entry : LedgerEntryForExport) : bool :=
  match found !! xe_id entry with
  | Some gate =>
      match requirement with
      | PAYOUT_REQUIRED => te_eligibleForPayout gate
      | CANONICAL_REQUIRED => bool_decide (co_state (te_canonicality gate) = CANONICAL)
      end
  | None => false
  end.

Definition assertEntries (ledgerEntryIds : list Z) (requirement : SweepEligibilityRequirement)
    : ingest unit :=
  entries ← read (getLedgerEntriesForEligibilityByIds ledgerEntryIds);
  found ← assessEntries entries None;
  lift (throw_if (negb (forallb (sweep_cleared requirement found.1) entries))
    (HttpError 409 "SweepEligibilityBlocked"
       match requirement with
       | PAYOUT_REQUIRED => "Sweep batch ledger entries are not eligible for payout"
       | CANONICAL_REQUIRED => "Sweep batch ledger entries are no longer proven canonical"
       end)).

(** ** Manual payout transitions (controller.ts)

    [created_at] is the column of that name, in microseconds. *)
Context (created_at : Z -> Z).

(** [ORDER BY e.created_at DESC, e.id DESC] *)
Definition newest_first (a b : Z * LedgerEntry) : bool :=
  (created_at b.1 <? created_at a.1) || ((created_at a.1 =? created_at b.1) && (b.1 <=? a.1)).

(** [getLedgerEntries({ tradeId, limit, offset: 0 })]; the join is an inner one. *)
Definition getLedgerEntries (tradeId : string) (limit : nat) (l : Ledger) : list LedgerEntryForExport :=
  take limit (List.filter (fun x => bool_decide (is_Some (xe_latest_state x)))
    (map (export_row l)
      (js_sort newest_first
        (List.filter (fun p => String.eqb (le_trade_id p.2) tradeId) (map_to_list (ledger_rows l)))))).

Definition appendState (entryId : Z) (requestedState : PayoutState) (actor : option string)
    : ingest unit :=
  entry ← read (fun l => ledger_rows l !! entryId);
  match (entry : option LedgerEntry) with
  | None => lift (Err (HttpError 404 "NotFound" "Ledger entry not found"))
  | Some entry =>
      latest ← read (latest_state entryId);
      _ ← lift (assertValidTransition (default PENDING_REVIEW latest) requestedState);
      _ ← lift (throw_if (bool_decide (requestedState = EXTERNAL_EXECUTION_CONFIRMED))
            (HttpError 409 "EvidenceRequired" "External execution completion must be recorded through confirmed payout evidence, not manual state updates."));
      _ ← (if bool_decide (requestedState = READY_FOR_EXTERNAL_HANDOFF)
           then
             entries ← read (getLedgerEntries (le_trade_id entry) 500);
             match List.find (fun x => xe_id x =? entryId) (entries : list LedgerEntryForExport) with
             | None => lift (Err (HttpError 404 "NotFound" "Ledger entry not found in payout eligibility scope"))
             | Some candidate =>
                 found ← assessEntries [candidate] None;
                 let gate := found.1 !! entryId in
                 lift (throw_if (negb (from_option te_eligibleForPayout false gate))
                   (HttpError 409 "EligibilityBlocked"
                      ("Ledger entry is not eligible for payout: "
                         ++ match truthy_text (String.concat "; " ∘ te_blockedReasons <$> gate) with
                            | Some reasons => reasons
                            | None => "unknown gate failure"
                            end)))
             end
           else mret tt);
      statement w (on_ledger (fun l =>
        match appendPayoutState entryId requestedState actor l with
        | Ok l' => Ok (l', tt)
        | Err err => Err err
        end))
  end.

End eligibility.

(** ** Export pages (ledgerExport.ts) *)

Record ExportCursor := { xc_createdAt : Z; xc_id : Z }.

Record ExportSnapshotTotals := { xs_rowCount : Z; xs_totalAmountRaw : string }.

Record ExportContinuationCursor := {
  xk_position : ExportCursor;
  xk_snapshot : ExportSnapshotTotals;
  xk_scannedRowCount : Z;
  xk_scannedAmountRaw : string }.

Record ExportRequest := {
  xr_cutoff : Z;
  xr_cursor : option ExportContinuationCursor;
  xr_limit : Z;
  xr_allowPartial : bool }.

(** [nextCursor] stands for its token, which also names the cutoff. *)
Record ExportPage (A : Type) := {
  xp_cutoff : Z;
  xp_snapshot : ExportSnapshotTotals;
  xp_scannedRowCount : Z;
  xp_exportedRowCount : Z;
  xp_exportedAmountRaw : string;
  xp_nextCursor : option ExportContinuationCursor;
  xp_complete : bool;
  xp_entries : list A }.
Arguments xp_cutoff {A}. Arguments xp_snapshot {A}. Arguments xp_scannedRowCount {A}.
Arguments xp_exportedRowCount {A}. Arguments xp_exportedAmountRaw {A}.
Arguments xp_nextCursor {A}. Arguments xp_complete {A}. Arguments xp_entries {A}.

(** An [ExportRequestError] with the status the route answers for it. *)
Definition ExportRequestError (code message : string) : TreasuryError := HttpError 409 code message.

Definition INCONSISTENT : TreasuryError :=
  ExportRequestError "InconsistentExportSnapshot"
    "Ledger export snapshot changed while paging; restart the export with a new cutoff".

Definition buildExportPage {A} (request : ExportRequest) (snapshot : ExportSnapshotTotals)
    (candidates : list A) (hasMore : bool) (selectExportable : A -> bool) (readAmountRaw : A -> string)
    (readCursor : A -> ExportCursor) : result TreasuryError (ExportPage A) :=
  let baseline := from_option xk_snapshot snapshot (xr_cursor request) in
  baselineTotal ← to_bigint (xs_totalAmountRaw baseline);
  snapshotTotal ← to_bigint (xs_totalAmountRaw snapshot);
  let snapshotChanged := negb (xs_rowCount snapshot =? xs_rowCount baseline)
                         || negb (snapshotTotal =? baselineTotal) in
  let scannedRowCount := from_option xk_scannedRowCount 0 (xr_cursor request)
                         + Z.of_nat (length candidates) in
  before ← to_bigint (from_option xk_scannedAmountRaw "0" (xr_cursor request));
  sum ← sum_parsed (map readAmountRaw candidates) "amountRaw" 0;
  let scannedAmount := before + sum in
  _ ← throw_if (snapshotChanged || (xs_rowCount baseline <? scannedRowCount)
                || (baselineTotal <? scannedAmount)
                || (negb hasMore && (negb (scannedRowCount =? xs_rowCount baseline)
                                     || negb (scannedAmount =? baselineTotal))))
        INCONSISTENT;
  let entries := List.filter selectExportable candidates in
  exported ← sum_parsed (map readAmountRaw entries) "amountRaw" 0;
  let nextCursor :=
    match hasMore, last candidates with
    | true, Some lastCandidate =>
        Some {| xk_position := readCursor lastCandidate; xk_snapshot := baseline;
                xk_scannedRowCount := scannedRowCount; xk_scannedAmountRaw := print_Z scannedAmount |}
    | _, _ => None
    end in
  Ok {| xp_cutoff := xr_cutoff request; xp_snapshot := snapshot;
        xp_scannedRowCount := Z.of_nat (length candidates);
        xp_exportedRowCount := Z.of_nat (length entries); xp_exportedAmountRaw := print_Z exported;
        xp_nextCursor := nextCursor; xp_complete := bool_decide (nextCursor = None);
        xp_entries := entries |}.

Definition assertCompleteExportDelivery {A} (page : ExportPage A) (format : string)
    (allowPartial : bool) : result TreasuryError unit :=
  throw_if (String.eqb format "csv" && negb (xp_complete page) && negb allowPartial)
    (ExportRequestError "IncompleteExport"
       ("CSV export would truncate at " ++ print_Z (xp_scannedRowCount page) ++ " of "
          ++ print_Z (xs_rowCount (xp_snapshot page)) ++ " rows. Page the export with the JSON format and its cursor, or pass allowPartial=true to accept a partial file.")).

(** ** The export (ledgerExportService.ts, database/queries/ledger.ts, controller.ts) *)

Section export.
Context (sha256 : string -> string) (cfg : EligibilityConfig) (e : EligibilityWorld).
Context (created_at : Z -> Z).
Let w := el_world e.

(** [e.created_at <= $1]: a cutoff has milliseconds, a row microseconds. *)
Definition before_cutoff (cutoff : Z) (l : Ledger) : list (Z * LedgerEntry) :=
  List.filter (fun p => created_at p.1 <=? cutoff * 1000) (map_to_list (ledger_rows l)).

Definition raw_value (entry : Z * LedgerEntry) : Z := Z.of_N (digits_value (le_amount_raw entry.2)).

Definition getLedgerExportSnapshot (cutoff : Z) (l : Ledger) : ExportSnapshotTotals :=
  let rows := before_cutoff cutoff l in
  {| xs_rowCount := Z.of_nat (length rows);
     xs_totalAmountRaw := print_Z (foldr Z.add 0 (map raw_value rows)) |}.

(** [(e.created_at, e.id) < ($createdAt, $id)] *)
Definition below_cursor (cursor : ExportCursor) (entry : Z * LedgerEntry) : bool :=
  (created_at entry.1 <? xc_createdAt cursor * 1000)
  || ((created_at entry.1 =? xc_createdAt cursor * 1000) && (entry.1 <? xc_id cursor)).

Definition export_candidates (cutoff : Z) (cursor : option ExportCursor) (l : Ledger)
    : list LedgerEntryForExport :=
  map (export_row l)
    (js_sort (newest_first created_at)
       (List.filter (fun p => from_option (fun c => below_cursor c p) true cursor)
          (before_cutoff cutoff l))).

(** The page and whether more rows follow it. *)
Definition getLedgerEntriesForExport (cutoff : Z) (cursor : option ExportCursor) (limit : Z)
    (l : Ledger) : list LedgerEntryForExport * bool :=
  let rows := take (Z.to_nat (limit + 1)) (export_candidates cutoff cursor l) in
  let hasMore := limit <? Z.of_nat (length rows) in
  (if hasMore then take (Z.to_nat limit) rows else rows, hasMore).

(** [new Date(entry.created_at)] *)
Definition readCursor (entry : LedgerEntryForExport) : ExportCursor :=
  {| xc_createdAt := created_at (xe_id entry) / 1000; xc_id := xe_id entry |}.

(** The entry with the eligibility the controller annotates it with; without one
    the fallback is not eligible. *)
Definition annotate (found : gmap Z TreasuryEntryEligibility) (entry : LedgerEntryForExport)
    : LedgerEntryForExport * bool :=
  (entry, from_option te_eligibleForExport false (found !! xe_id entry)).

Definition loadLedgerExportPage (request : ExportRequest) : ingest (ExportPage (LedgerEntryForExport * bool)) :=
  snapshot ← read e (getLedgerExportSnapshot (xr_cutoff request));
  candidatePage ← read e (getLedgerEntriesForExport (xr_cutoff request)
                            (xk_position <$> xr_cursor request) (xr_limit request));
  found ← assessEntries sha256 cfg e (candidatePage : list LedgerEntryForExport * bool).1 None;
  lift (buildExportPage request snapshot (map (annotate found.1) candidatePage.1) candidatePage.2
          snd (fun x => le_amount_raw (xe_row x.1)) (fun x => readCursor x.1)).

(** [exportEntries] after its query is parsed; the rows are what it sends. *)
Definition exportEntries (format : string) (request : ExportRequest)
    : ingest (ExportPage (LedgerEntryForExport * bool)) :=
  _ ← lift (throw_if (bool_decide (is_Some (xr_cursor request)))
        (ExportRequestError "ExportContinuationRequiresSnapshot" "Legacy export continuations are no longer supported. Restart using the snapshot export workflow."));
  page ← loadLedgerExportPage request;
  _ ← lift (throw_if (negb (xp_complete page))
        (ExportRequestError "ExportContinuationRequiresSnapshot" "This export requires continuation. Restart using the snapshot export workflow."));
  _ ← lift (assertCompleteExportDelivery page format (xr_allowPartial request));
  mret page.

End export.

(** ** Lemmas: runs of an assessment *)

Lemma run_bind_ok {A B} (m : ingest A) (f : A -> ingest B) r b r' :
  (m ≫= f) r = (Ok b, r') -> exists a r1, m r = (Ok a, r1) /\ f a r1 = (Ok b, r').
Proof. unfold mbind, ingest_bind. destruct (m r) as [[a|err] r1]; [eauto | done]. Qed.

Lemma run_lift_ok {A} (m : result TreasuryError A) r a r' :
  lift m r = (Ok a, r') -> m = Ok a /\ r' = r.
Proof. unfold lift. destruct m; [by intros [= -> ->] | done]. Qed.

Lemma run_lift_text_ok {A} (m : result string A) r a r' :
  lift_text m r = (Ok a, r') -> m = Ok a /\ r' = r.
Proof. unfold lift_text. intros [H ->]%run_lift_ok. destruct m; [by injection H as ->|done]. Qed.

Lemma run_ask_ok {A} w (q : nat -> result TreasuryError A) r a r' :
  ask w q r = (Ok a, r') ->
  q (run_tick r) = Ok a /\ r' = with_db (w_other w (run_tick r) (run_db r)) r.
Proof. unfold ask. by intros [-> ->]%run_lift_ok. Qed.

Lemma run_statement_ok {A} w (f : db -> result TreasuryError (db * A)) r a r' :
  statement w f r = (Ok a, r') ->
  exists d', f (w_other w (run_tick r) (run_db r)) = Ok (d', a) /\ r' = with_db d' r.
Proof.
  unfold statement. destruct (f _) as [[d' x]|err]; [|done]. intros [= -> <-]. eauto.
Qed.

(** A run goes on: effects are numbered upwards and the ledger only moves on. *)
Definition moves (r r' : Run) : Prop :=
  (run_tick r <= run_tick r')%nat /\
  (ledger_ok (ledger (run_db r)) ->
   ledger_ok (ledger (run_db r')) /\ rows_later (ledger (run_db r)) (ledger (run_db r'))).

#[export] Instance moves_preorder : PreOrder moves.
Proof.
  split; [by intros r; split|]. intros a b c [T1 H1] [T2 H2]. split; [lia|].
  intros Hok. destruct (H1 Hok) as [Hb ?]. destruct (H2 Hb). split; [done | by etrans].
Qed.

Definition steady {A} (m : ingest A) : Prop := forall r, moves r (m r).2.

Lemma steady_ok {A} (m : ingest A) r a r' : steady m -> m r = (Ok a, r') -> moves r r'.
Proof. intros H E. specialize (H r). by rewrite E in H. Qed.

Lemma steady_bind {A B} (m : ingest A) (f : A -> ingest B) :
  steady m -> (forall a, steady (f a)) -> steady (m ≫= f).
Proof.
  intros Hm Hf r. unfold mbind, ingest_bind. specialize (Hm r).
  destruct (m r) as [[a|err] r1]; [|done]. etrans; [exact Hm | apply Hf].
Qed.

Lemma steady_attempt {A} (m : ingest A) : steady m -> steady (attempt m).
Proof. intros H r. unfold attempt. specialize (H r). by destruct (m r). Qed.

Lemma steady_unchanged {A} (m : ingest A) : (forall r, (m r).2 = r) -> steady m.
Proof. intros H r. by rewrite H. Qed.

Lemma steady_lift {A} (m : result TreasuryError A) : steady (lift m).
Proof. apply steady_unchanged. intros r. unfold lift. by destruct m. Qed.

Lemma steady_modify f : (forall r, run_db (f r) = run_db r /\ run_tick (f r) = run_tick r) ->
  steady (modify f).
Proof. intros H r. destruct (H r) as [Hd Ht]. split; cbn; [lia | by rewrite Hd]. Qed.

(** The other transactions move the ledger on, as every step of [TreasuryLedger] does. *)
Definition ledger_world (w : World) : Prop :=
  forall n d, ledger_ok (ledger d) ->
    ledger_ok (ledger (w_other w n d)) /\ rows_later (ledger d) (ledger (w_other w n d)).

Section steady.
Context (sha256 : string -> string) (cfg : EligibilityConfig) (e : EligibilityWorld).
Context (Hworld : ledger_world (el_world e)).

Lemma moves_other d r :
  (ledger_ok (ledger (w_other (el_world e) (run_tick r) (run_db r))) ->
   ledger_ok (ledger d) /\ rows_later (ledger (w_other (el_world e) (run_tick r) (run_db r))) (ledger d)) ->
  moves r (with_db d r).
Proof.
  intros H. split; [cbn; lia|]. intros Hok. destruct (Hworld (run_tick r) _ Hok) as [Hw ?].
  destruct (H Hw). split; [done | by etrans].
Qed.

Lemma steady_ask {A} (q : nat -> result TreasuryError A) : steady (ask (el_world e) q).
Proof.
  intros r. unfold ask. etrans; [|apply steady_lift]. apply moves_other. done.
Qed.

Lemma steady_statement {A} (f : db -> result TreasuryError (db * A)) :
  (forall d d' x, f d = Ok (d', x) -> ledger_ok (ledger d) ->
     ledger_ok (ledger d') /\ rows_later (ledger d) (ledger d')) ->
  steady (statement (el_world e) f).
Proof.
  intros H r. unfold statement. destruct (f _) as [[d' x]|err] eqn:E; cbn [snd]; apply moves_other.
  - intros Hok. by eapply H.
  - done.
Qed.

Lemma steady_read {A} (f : Ledger -> A) : steady (read e f).
Proof. apply steady_statement. by intros d d' x [= <- _]. Qed.

Lemma steady_review {A} (f : Ledger -> result TreasuryError (Ledger * A)) :
  (forall l l' x, f l = Ok (l', x) -> review_step l l') ->
  steady (statement (el_world e) (on_ledger f)).
Proof.
  intros H. apply steady_statement. intros d d' x. unfold on_ledger.
  destruct (f (ledger d)) as [[l' y]|err] eqn:E; [|done]. intros [= <- <-] Hok. cbn.
  apply review_step_ok; [done | by eapply H].
Qed.

#[local] Hint Resolve steady_lift steady_ask steady_read : steady.
#[local] Hint Extern 1 (steady (mret _)) => apply steady_unchanged; done : steady.
#[local] Hint Extern 1 (steady get_run) => apply steady_unchanged; done : steady.
#[local] Hint Extern 1 (steady (lift_text _)) => apply steady_lift : steady.

Ltac steady :=
  repeat first
    [ solve [auto with steady]
    | apply steady_bind; [|intros ?]
    | apply steady_attempt
    | case_match ].

Lemma steady_heads : steady (readSettlementHeads e).
Proof. unfold readSettlementHeads, getBlock. steady. Qed.

Lemma steady_ingestion stable : steady (assess_ingestion cfg e stable).
Proof.
  unfold assess_ingestion. steady; apply steady_statement; [by intros d d' x [= <- _] | done].
Qed.

Lemma steady_trades ids sel : steady (assess_trades cfg e ids sel).
Proof. unfold assess_trades. steady. Qed.

Lemma steady_canonicality entry stable : steady (assessCanonicality sha256 e entry stable).
Proof.
  unfold assessCanonicality, verify_entry, applyVerdict. steady; apply steady_review; intros l l' x Hx.
  - injection Hx as Hx. match type of Hx with ?m = _ => assert (l' = m.1) as -> by (by rewrite Hx) end.
    apply rv_canonical.
  - by eapply rv_orphaned.
  - by eapply rv_orphaned.
Qed.

Lemma steady_entry heads failure ingestion gates entry :
  steady (assessEntry sha256 e heads failure ingestion gates entry).
Proof.
  unfold assessEntry. apply steady_bind; [destruct heads; steady|]. intros s.
  apply steady_bind; [apply steady_canonicality|]. intros c. steady.
Qed.

Lemma steady_each heads failure ingestion gates entries found :
  steady (assess_each sha256 e heads failure ingestion gates entries found).
Proof.
  revert found. induction entries as [|x entries IH]; intros found; cbn [assess_each]; [steady|].
  apply steady_bind; [apply steady_entry|]. intros t. apply IH.
Qed.

End steady.

(** ** Lemmas: what clears an entry *)

Lemma js_set_nil l : js_set l = [] <-> l = [].
Proof.
  split; [|by intros ->]. intros H. destruct l as [|x l]; [done|]. exfalso.
  apply (not_elem_of_nil x). rewrite <- H. apply js_set_elem. left.
Qed.

Lemma confirmation_reasons_nil failure state :
  confirmation_reasons failure state = [] <->
  truthy_text failure = None /\ exists s, state = Some s /\ stage s = Finality.FINALIZED.
Proof.
  unfold confirmation_reasons. destruct (truthy_text failure); [split; [done | by intros [? _]]|].
  destruct state as [s|]; [|split; [done | by intros (_ & ? & ? & _)]].
  destruct (stage s) eqn:E; cbn; split; try done; try (intros (_ & ? & [= <-] & ?); congruence).
  intros _. split; [done|]. by exists s.
Qed.

Lemma build_reasons_nil state confirmation status failure reasons bank canonicality ingestion coverage :
  buildBlockedReasons state confirmation status failure reasons bank canonicality ingestion coverage = [] <->
  ingestion = [] /\ confirmation_reasons failure confirmation = [] /\
  truthy_text canonicality = None /\ (status = Gate.CLEAR \/ reasons = []) /\
  truthy_text coverage = None /\
  (state = Some EXTERNAL_EXECUTION_CONFIRMED -> bank = Some BANK_CONFIRMED).
Proof.
  unfold buildBlockedReasons. rewrite js_set_nil, !app_nil, !pushed_nil.
  repeat apply and_iff_compat_l.
  case_bool_decide as Hs; case_bool_decide as He; case_bool_decide as Hb; cbn; naive_solver.
Qed.

Lemma coverage_reason_cleared block gate :
  truthy_text (resolveCoverageBlockedReason block gate) = None <->
  exists b, Gate.tg_coverageToBlock gate = Some b /\ block <= b.
Proof.
  unfold resolveCoverageBlockedReason. destruct (Gate.tg_coverageToBlock gate) as [b|].
  2: { split; [done | by intros (? & ? & _)]. }
  destruct (Z.ltb_spec b block); cbn.
  - split; [done|]. intros (? & [= <-] & ?). lia.
  - split; [by exists b|done].
Qed.

Lemma resolve_stage_final block heads s :
  resolveSettlementConfirmationStage block heads = Ok s -> stage s = Finality.FINALIZED ->
  exists f, finalizedHead heads = Some f /\ block <= f.
Proof.
  unfold resolveSettlementConfirmationStage. intros H Hs. inv_ok. cbn in Hs.
  destruct (finalizedHead heads) as [f|]; [|by repeat case_match].
  exists f. split; [done|]. destruct (Z.leb_spec block f); [lia | by repeat case_match].
Qed.

Lemma full_identity_false sha256 i answer stable configured :
  configured && full_identity i = false ->
  exists s, TreasuryChain.verify sha256 configured i answer stable = UnverifiedVerdict s.
Proof.
  unfold full_identity, TreasuryChain.verify. intros H. destruct configured; cbn in *; [|eauto].
  destruct (normalizeBlockHash (li_blockHash i)); [|eauto]. destruct (li_logIndex i); [|eauto].
  destruct (normalizeLogAddress (li_logAddress i)); [|eauto].
  destruct (li_logIdentityHash i) as [d|]; [|eauto]. destruct (truthy d); [done|]. cbn. eauto.
Qed.

Section cleared.
Context (sha256 : string -> string) (cfg : EligibilityConfig) (e : EligibilityWorld).
Context (Hworld : ledger_world (el_world e)).

(** The chain's answer that clears an entry. *)
Definition chain_confirms (row : LedgerEntry) (r r' : Run) : Prop :=
  exists n receipt h log, (run_tick r <= n < run_tick r')%nat /\
    w_getReceipt (el_world e) n (le_tx_hash row) = Ok (Some receipt) /\
    receipt_confirms sha256 (log_identity row) receipt h log.

(** A row that is revoked stays so; one that is promoted was not. *)
Definition not_revoked (id : Z) (d : db) : Prop :=
  forall row, ledger_rows (ledger d) !! id = Some row -> le_canonicality_state row <> ORPHANED.

Lemma not_revoked_before id d d' :
  rows_later (ledger d) (ledger d') -> not_revoked id d' -> not_revoked id d.
Proof.
  intros [_ Hl] Hn row Hr Ho. destruct (Hl id row Hr) as (row' & Hr' & _ & Hstays).
  by apply (Hn row' Hr'), Hstays.
Qed.

Lemma verify_entry_canonical row stable r h s r' :
  verify_entry sha256 e row stable r = (Ok (CanonicalVerdict h s), r') ->
  chain_confirms row r r' /\ moves r r'.
Proof.
  unfold verify_entry. intros H. cbv zeta in H.
  destruct (w_configured (el_world e) && full_identity (log_identity row)) eqn:Hf.
  2: { injection H as H _. destruct (full_identity_false sha256 _ (Ok None) stable _ Hf) as [? Hv].
       by rewrite Hv in H. }
  apply andb_true_iff in Hf as [Hc _]. rewrite Hc in H.
  apply run_bind_ok in H as (answer & r1 & Ha & H). unfold attempt in Ha.
  destruct (ask _ _ r) as [got r2] eqn:Hask. injection Ha as <- <-. injection H as H <-.
  assert (moves r r2) as Hm.
  { pose proof (steady_ask e Hworld (fun n => w_getReceipt (el_world e) n (li_txHash (log_identity row))) r)
      as Hm. by rewrite Hask in Hm. }
  destruct got as [receipt|err]; apply verify_canonical in H as (_ & rc & log & [= Hr] & Hconf).
  apply run_ask_ok in Hask as [Hq ->]. split; [|done].
  exists (run_tick r), rc, h, log. split_and!; [lia | cbn; lia | | done].
  by rewrite <- Hr.
Qed.

Lemma canonicality_cleared entry stable r c r' :
  assessCanonicality sha256 e entry stable r = (Ok c, r') -> truthy_text (co_blockedReason c) = None ->
  is_Some stable /\ chain_confirms (xe_row entry) r r' /\ co_state c = CANONICAL /\
  (ledger_ok (ledger (run_db r)) -> not_revoked (xe_id entry) (run_db r)).
Proof.
  unfold assessCanonicality. intros H Hb. cbv zeta in H. case_bool_decide; [by injection H as <- <-|].
  destruct stable as [s|]; [|by injection H as <- <-].
  apply run_bind_ok in H as (verdict & r1 & Hv & H). unfold applyVerdict in H. cbv zeta in H.
  apply run_bind_ok in H as (r0 & r2 & Hget & H). injection Hget as <- <-.
  destruct verdict as [h s'|reason expected observed number index depth s'|s'].
  - apply run_bind_ok in H as (state & r3 & Hs & H).
    destruct state; injection H as <- <-; try done.
    apply run_statement_ok in Hs as (d' & Hd & ->).
    apply verify_entry_canonical in Hv as [(n & rc & hh & log & Hn & Hrest) Hm].
    split_and!; [by eexists | | done |].
    + exists n, rc, hh, log. cbn. split_and!; [lia | lia | apply Hrest | apply Hrest].
    + intros Hok. destruct Hm as [_ Hm]. destruct (Hm Hok) as [Hok1 Hl1].
      destruct (Hworld (run_tick r1) _ Hok1) as [_ Hl2].
      eapply not_revoked_before; [etrans; [exact Hl1 | exact Hl2]|].
      unfold on_ledger, markLedgerEntryCanonical in Hd.
      destruct (ledger_rows _ !! cm_ledgerEntryId _) as [row|] eqn:Hrow; [|done].
      intros row' Hr'. change (cm_ledgerEntryId _) with (xe_id entry) in Hrow.
      rewrite Hrow in Hr'. injection Hr' as <-. by case_bool_decide.
  - apply run_bind_ok in H as (x & r3 & _ & H). by injection H as <- <-.
  - by injection H as <- <-.
Qed.

Definition entry_block (x : LedgerEntryForExport) : Z := le_block_number (xe_row x).
Definition entry_trade (x : LedgerEntryForExport) : string := le_trade_id (xe_row x).

(** The bank's answer for an entry whose execution is recorded as confirmed. *)
Definition bank_confirms (x : LedgerEntryForExport) (r r' : Run) : Prop :=
  xe_latest_state x = Some EXTERNAL_EXECUTION_CONFIRMED ->
  exists n, (run_tick r <= n < run_tick r')%nat /\ el_bank e n (xe_id x) = Ok (Some BANK_CONFIRMED).

Lemma assessEntry_payout heads failure ingestion gates x r t r' :
  assessEntry sha256 e heads failure ingestion gates x r = (Ok t, r') ->
  te_eligibleForPayout t = true ->
  let gate := default (undetermined_gate (entry_trade x)) (map_get (entry_trade x) gates) in
  Freshness.ia_blockedReasons ingestion = [] /\
  (exists h f, heads = Some h /\ finalizedHead h = Some f /\ entry_block x <= f) /\
  chain_confirms (xe_row x) r r' /\
  (ledger_ok (ledger (run_db r)) -> not_revoked (xe_id x) (run_db r)) /\
  (exists b, Gate.tg_coverageToBlock gate = Some b /\ entry_block x <= b) /\
  (Gate.tg_status gate = Gate.CLEAR \/ Gate.tg_blockedReasons gate = []) /\
  bank_confirms x r r'.
Proof.
  intros H Hp gate. unfold assessEntry in H. cbv zeta in H.
  apply run_bind_ok in H as (state & r1 & Hstate & H).
  apply run_bind_ok in H as (c & r2 & Hc & H). apply run_bind_ok in H as (bank & r3 & Hbank & H).
  injection H as <- <-. cbn in Hp. apply bool_decide_eq_true in Hp.
  apply build_reasons_nil in Hp as (Hing & Hconf & Hcan & Hgate & Hcov & Hb).
  apply confirmation_reasons_nil in Hconf as (_ & s & -> & Hfin).
  assert (r1 = r /\ exists h, heads = Some h /\ resolveSettlementConfirmationStage (entry_block x) h = Ok s)
    as [-> (h & -> & Hs)].
  { destruct heads as [h|]; [|by injection Hstate].
    apply run_bind_ok in Hstate as (s1 & r4 & H1 & H2). apply run_lift_text_ok in H1 as [H1 ->].
    injection H2 as <- <-. split; [done|]. by exists h. }
  destruct (resolve_stage_final _ _ _ Hs Hfin) as (f & Hf & Hle).
  pose proof (steady_ok _ _ _ _ (steady_canonicality sha256 e Hworld x _) Hc) as [Ht _].
  apply canonicality_cleared in Hc as (_ & Hchain & _ & Hrev); [|done].
  assert (run_tick r2 <= run_tick r3)%nat as Ht3.
  { case_bool_decide; [apply run_ask_ok in Hbank as [_ ->]; cbn; lia | by injection Hbank as _ <-]. }
  split_and!; try done.
  - by exists h, f.
  - destruct Hchain as (n & rc & hh & log & Hn & Hrest). exists n, rc, hh, log. split; [lia | done].
  - by apply coverage_reason_cleared.
  - intros Hx. specialize (Hb Hx) as ->. rewrite bool_decide_true in Hbank by done.
    apply run_ask_ok in Hbank as [Hq ->]. exists (run_tick r2). cbn. split; [lia | done].
Qed.

Lemma assess_each_found heads failure ingestion gates entries found r found' r' id t :
  assess_each sha256 e heads failure ingestion gates entries found r = (Ok found', r') ->
  found' !! id = Some t ->
  found !! id = Some t \/ exists x r1 r2, x ∈ entries /\ xe_id x = id /\ moves r r1 /\ moves r2 r' /\
    assessEntry sha256 e heads failure ingestion gates x r1 = (Ok t, r2).
Proof.
  revert found r. induction entries as [|x entries IH]; intros found r H Ht; cbn [assess_each] in H.
  - injection H as <- <-. by left.
  - apply run_bind_ok in H as (t1 & r1 & H1 & H).
    pose proof (steady_ok _ _ _ _ (steady_entry sha256 e Hworld _ _ _ _ _) H1) as Hm1.
    pose proof (steady_ok _ _ _ _ (steady_each sha256 e Hworld _ _ _ _ _ _) H) as Hm2.
    destruct (IH _ _ H Ht) as [Hin|(y & r3 & r4 & Hy & Hid & Hm3 & Hm4 & Hr)].
    + apply lookup_insert_Some in Hin as [[Hid <-]|[_ Hin]]; [right|by left].
      exists x, r, r1. split_and!; [left | done | reflexivity | done | done].
    + right. exists y, r3, r4. split_and!; [by right | done | by etrans | done | done].
Qed.

Lemma moves_chain row r r1 r2 r' :
  moves r r1 -> moves r2 r' -> chain_confirms row r1 r2 -> chain_confirms row r r'.
Proof.
  intros [H1 _] [H2 _] (n & rc & h & log & Hn & Hrest). exists n, rc, h, log. split; [lia | done].
Qed.

Lemma moves_bank x r r1 r2 r' : moves r r1 -> moves r2 r' -> bank_confirms x r1 r2 -> bank_confirms x r r'.
Proof. intros [H1 _] [H2 _] Hb (n & Hn & ?)%Hb. exists n. split; [lia | done]. Qed.

(** A blocked gate says why. *)
Lemma gate_has_reason sel now1 now2 reader ids gates id :
  Gate.assessTradesFromReader (gate_config cfg) sel now1 now2 reader ids = Ok gates ->
  let gate := default (undetermined_gate id) (map_get id gates) in
  Gate.tg_status gate = Gate.CLEAR \/ Gate.tg_blockedReasons gate = [] ->
  exists g, map_get id gates = Some g /\ gate = g /\ Gate.tg_status g = Gate.CLEAR /\
    exists r, reader = Some r.
Proof.
  intros H. destruct (map_get id gates) as [g|] eqn:Hg; cbn; [|by intros [?|?]].
  intros Hc. exists g. unfold Gate.assessTradesFromReader in H. case_bool_decide; [by injection H as <-|].
  destruct reader as [r|].
  2: { injection H as <-. rewrite set_all_get in Hg. destruct (includes _ id); [|done].
       injection Hg as <-. by destruct Hc. }
  apply bind_ok in H as ([] & _ & [= <-]). rewrite set_all_get in Hg.
  destruct (includes _ id); [|done]. injection Hg as Hg. split_and!; [done.. | | by exists r].
  destruct Hc as [?|Hr]; [done|]. subst g. destruct (Gate.run_present _) as [[key row]|]; [|done].
  revert Hr. unfold Gate.gate_of. cbv zeta. destruct (_ ++ _)%list; [|done].
  destruct (negb _); [done|]. by destruct (_ <? _).
Qed.

End cleared.


(** ** What an eligible entry rests on *)

(** The tables after [n] further effects of which no one writes, the first of them
    numbered [tick]. *)
Fixpoint elapse (w : World) (tick n : nat) (d : db) : db :=
  match n with
  | O => d
  | S n => elapse w (S tick) n (w_other w tick d)
  end.

Definition elapse_run (w : World) (n : nat) (r : Run) : Run :=
  {| run_db := elapse w (run_tick r) n (run_db r); run_tick := run_tick r + n;
     run_blocks := run_blocks r; run_receipts := run_receipts r |}.

Lemma elapse_one w r d : d = w_other w (run_tick r) (run_db r) -> with_db d r = elapse_run w 1 r.
Proof. intros ->. unfold with_db, elapse_run. by rewrite Nat.add_1_r. Qed.

Lemma elapse_more w m n r : elapse_run w n (elapse_run w m r) = elapse_run w (m + n) r.
Proof.
  unfold elapse_run. cbn. f_equal; [|lia]. destruct r as [d tick bs rs]. cbn. clear.
  revert tick d. induction m as [|m IH]; intros tick d; cbn; [by rewrite Nat.add_0_r|].
  rewrite <- IH. f_equal. lia.
Qed.

Lemma ask_elapse {A} w (q : nat -> result TreasuryError A) r a r' :
  ask w q r = (Ok a, r') -> q (run_tick r) = Ok a /\ r' = elapse_run w 1 r.
Proof. intros [Hq ->]%run_ask_ok. split; [done | by apply elapse_one]. Qed.

Section backed.
Context (sha256 : string -> string) (cfg : EligibilityConfig) (e : EligibilityWorld).
Let w := el_world e.

Lemma heads_read r hd r' f :
  readSettlementHeads e r = (Ok hd, r') -> (h ← hd_heads hd; finalizedHead h) = Some f ->
  r' = elapse_run w 3 r /\
  exists hash, el_block e (run_tick r + 2) FINALIZED_TAG = Ok (Some (f, hash)).
Proof.
  unfold readSettlementHeads, getBlock. destruct (w_configured _); cbn [negb]; [|by intros [= <- _]].
  intros H Hf. apply run_bind_ok in H as (latest & r1 & [_ ->]%ask_elapse & H).
  apply run_bind_ok in H as (safe & r2 & [_ ->]%ask_elapse & H).
  apply run_bind_ok in H as (final & r3 & [Hq ->]%ask_elapse & H).
  rewrite !elapse_more in H, Hq. cbn [run_tick elapse_run] in Hq.
  destruct latest as [latest|]; injection H as <- <-; [|discriminate Hf]. split; [apply (elapse_more w 1 2)|].
  destruct final as [[n hash]|]; [|done]. injection Hf as ->. by exists hash.
Qed.

Lemma ingestion_read stable r i r' :
  assess_ingestion cfg e stable r = (Ok i, r') -> Freshness.ia_blockedReasons i = [] ->
  r' = elapse_run w 1 r /\
  cursors_current (freshness_config cfg) stable (w_now w (run_tick (elapse_run w 1 r)))
    (Freshness.listIngestionCursorStates INGESTION_CURSORS (ledger (run_db (elapse_run w 1 r)))).
Proof.
  unfold assess_ingestion. intros H Hb.
  apply run_bind_ok in H as (r0 & r1 & [= <- <-] & H).
  apply run_bind_ok in H as (states & r1 & Hs & H). apply run_bind_ok in H as (r2 & r3 & [= <- <-] & H).
  unfold attempt in Hs. destruct (statement _ _ r) as [got r2] eqn:E. injection Hs as <- <-.
  injection H as <- <-. destruct got as [states|err]; [|by cbn in Hb].
  apply run_statement_ok in E as (d & Hd & ->). destruct (el_states_readable _ _); [|done].
  injection Hd as <- <-. rewrite (elapse_one w r) by done. split; [done|].
  rewrite assess_reasons, assess_fresh in Hb. rewrite (elapse_one w r) in Hb by done. exact Hb.
Qed.

Lemma trades_read ids sel r gates r' :
  assess_trades cfg e ids sel r = (Ok gates, r') ->
  let now := w_now w (run_tick r) in
  exists reader, el_recon e (run_tick r) = Ok reader /\
    Gate.assessTradesFromReader (gate_config cfg) sel now now reader ids = Ok gates.
Proof.
  unfold assess_trades. intros H. apply run_bind_ok in H as (r0 & r1 & [= <- <-] & H).
  apply run_bind_ok in H as (reader & r1 & [Hq _]%ask_elapse & H). apply run_lift_ok in H as [H _].
  by exists reader.
Qed.

Context (isAddress : string -> bool) (getAddress : string -> string) (config : ReconConfig).
Notation recon_history := (recon_history isAddress getAddress config).
Notation clear_evidence := (clear_evidence isAddress getAddress).

(** C16. An entry the assessment clears for payout is backed by every control at once.
    In one assessment, whatever other transactions commit meanwhile: the finalized
    head the settlement RPC named is at or past the entry's block; the chain's
    receipt holds the recorded log in the recorded block; the row was not revoked;
    the ingestion cursors, read after the head, were all recent and close to it;
    and the reconciliation service had, as its latest selected run, a recent
    complete one covering the entry's block, with no run hanging, in whose cycle the
    entry's trade was compared with the chain and agreed.  If execution was recorded
    as confirmed, the bank confirmed it. *)
Theorem eligible_entry_backed entries r found context r' id t :
  (forall n reader, el_recon e n = Ok (Some reader) ->
     exists past v, recon_history (v :: past) /\ Gate.gr_db reader = w_db v) ->
  ledger_world w -> ledger_ok (ledger (run_db r)) ->
  assessEntries sha256 cfg e entries None r = (Ok (found, context), r') ->
  found !! id = Some t -> te_eligibleForPayout t = true ->
  exists x f hash reader past v key to_block,
    let now := w_now w (run_tick r + 4) in
    x ∈ entries /\ xe_id x = id /\
    el_block e (run_tick r + 2) FINALIZED_TAG = Ok (Some (f, hash)) /\ entry_block x <= f /\
    chain_confirms sha256 e (xe_row x) r r' /\ not_revoked id (run_db r) /\
    cursors_current (freshness_config cfg) (Some f) now
      (Freshness.listIngestionCursorStates INGESTION_CURSORS
         (ledger (elapse w (run_tick r) 4 (run_db r)))) /\
    el_recon e (run_tick r + 4) = Ok (Some reader) /\
    recon_history (v :: past) /\ Gate.gr_db reader = w_db v /\
    clear_evidence v reader (gate_config cfg) Gate.no_selection now now (entry_trade x) key to_block /\
    entry_block x <= to_block /\
    bank_confirms e x r r'.
Proof.
  intros Hrecon Hworld Hok H Ht Hp. unfold assessEntries in H.
  case_bool_decide; [by injection H as <- <- _|].
  apply run_bind_ok in H as ([] & r0 & [= <-] & H).
  apply run_bind_ok in H as (hd & r1 & Hhd & H). cbv zeta in H.
  apply run_bind_ok in H as (ingestion & r2 & Hing & H).
  apply run_bind_ok in H as (gates & r3 & Hgates & H).
  apply run_bind_ok in H as (c & r4 & [= <- <-] & H). apply run_bind_ok in H as (m & r5 & Heach & H).
  injection H as -> <- <-.
  destruct (assess_each_found sha256 e Hworld _ _ _ _ _ _ _ _ _ _ _ Heach Ht)
    as [?|(x & r6 & r7 & Hx & Hid & Hm1 & Hm2 & Hone)]; [done|].
  pose proof (steady_ok _ _ _ _ (steady_heads e Hworld) Hhd) as Hm3.
  pose proof (steady_ok _ _ _ _ (steady_ingestion cfg e Hworld _) Hing) as Hm4.
  pose proof (steady_ok _ _ _ _ (steady_trades cfg e Hworld _ _) Hgates) as Hm5.
  assert (moves r r6) as Hm6.
  { etrans; [|exact Hm1]. etrans; [|exact Hm5]. etrans; [|exact Hm4]. exact Hm3. }
  destruct (Hm6) as [_ Hl6]. destruct (Hl6 Hok) as [Hok6 Hlater].
  apply (assessEntry_payout sha256 e Hworld) in Hone as
    (Hfresh & (h & f & Hheads & Hf & Hbf) & Hchain & Hrev & (b & Hcov & Hbb) & Hclear & Hbank); [|done].
  rewrite Hheads in Hing. cbn in Hing. rewrite Hf in Hing.
  destruct (heads_read _ _ _ f Hhd) as [-> [hash Hblock]]; [by rewrite Hheads|].
  apply ingestion_read in Hing as [-> Hcur]; [|done]. rewrite elapse_more in Hgates, Hcur.
  apply trades_read in Hgates as (reader & Hreader & Hgates).
  destruct (gate_has_reason cfg _ _ _ _ _ _ (entry_trade x) Hgates Hclear)
    as (g & Hg & Hdef & Hstatus & rd & ->).
  unfold entry_trade in Hcov, Hdef. rewrite Hdef in Hcov.
  destruct (Hrecon _ _ Hreader) as (past & v & Hv & Hdb).
  destruct (clear_gate_evidence isAddress getAddress config _ _ _ _ _ _ _ _ _ _ _ Hv Hdb Hgates Hg Hstatus)
    as (key & b' & _ & Hb' & Hev). rewrite Hcov in Hb'. injection Hb' as <-.
  exists x, f, hash, rd, past, v, key, b. cbv zeta. split_and!; try done.
  - by eapply moves_chain.
  - rewrite <- Hid. eapply not_revoked_before; [exact Hlater | by apply Hrev].
  - by eapply moves_bank.
Qed.

End backed.

(** ** A delivered export is the ledger *)

Section exported.
Context (sha256 : string -> string) (cfg : EligibilityConfig) (e : EligibilityWorld).
Context (created_at : Z -> Z).
Let w := el_world e.

Definition entry_value (x : LedgerEntryForExport) : Z := raw_value (xe_id x, xe_row x).

Lemma raw_value_print row id n : 0 <= n -> le_amount_raw row = print_Z n -> raw_value (id, row) = n.
Proof.
  intros H E. unfold raw_value. cbn. rewrite E. destruct n as [|p|p]; [done| |lia].
  cbn [print_Z]. by rewrite digits_value_print.
Qed.

Lemma sum_entries {A} (f : A -> LedgerEntryForExport) (l : list A) n :
  sum_parsed (map (fun x => le_amount_raw (xe_row (f x))) l) "amountRaw" 0 = Ok n ->
  n = foldr Z.add 0 (map (fun x => entry_value (f x)) l).
Proof.
  intros (ns & HF & ->)%sum_parsed_ok. rewrite Z.add_0_l. f_equal.
  revert ns HF. induction l as [|x l IH]; intros ns HF; inversion HF as [|? m ? ms [[? ?] Hm] Ht]; subst; [done|].
  cbn. f_equal; [|by apply IH]. symmetry. by apply raw_value_print.
Qed.

Lemma export_rows cutoff l :
  map xe_id (export_candidates created_at cutoff None l)
    ≡ₚ map fst (before_cutoff created_at cutoff l) /\
  map entry_value (export_candidates created_at cutoff None l)
    ≡ₚ map raw_value (before_cutoff created_at cutoff l).
Proof.
  unfold export_candidates. rewrite !map_map. cbn.
  assert (List.filter (fun _ => true) (before_cutoff created_at cutoff l) = before_cutoff created_at cutoff l)
    as -> by (induction (before_cutoff created_at cutoff l) as [|x rows IH]; cbn; congruence).
  split; rewrite js_sort_Permutation; [done|]. unfold entry_value. cbn.
  erewrite map_ext; [done|]. by intros [].
Qed.

Lemma page_whole cutoff limit l rows more :
  0 < limit -> getLedgerEntriesForExport created_at cutoff None limit l = (rows, more) ->
  if more then rows <> [] else rows = export_candidates created_at cutoff None l.
Proof.
  intros Hlim. unfold getLedgerEntriesForExport. set (all := export_candidates _ _ _ _).
  destruct (Z.ltb_spec limit (Z.of_nat (length (take (Z.to_nat (limit + 1)) all)))) as [Hlt|Hle];
    intros [= <- <-]; rewrite length_take in *.
  - intros H%(f_equal length). rewrite !length_take in H. cbn in H. lia.
  - apply take_ge. lia.
Qed.

Lemma candidates_length cutoff l :
  length (export_candidates created_at cutoff None l) = length (before_cutoff created_at cutoff l).
Proof.
  rewrite <- (length_map xe_id), <- (length_map fst). by rewrite (proj1 (export_rows cutoff l)).
Qed.

Lemma sum_rows cutoff l :
  foldr Z.add 0 (map entry_value (export_candidates created_at cutoff None l)) =
  foldr Z.add 0 (map raw_value (before_cutoff created_at cutoff l)).
Proof.
  destruct (export_rows cutoff l) as [_ H]. apply (foldr_permutation_proper _ _ _); [|done].
  intros x y z. lia.
Qed.

Lemma sum_nonneg rows : 0 <= foldr Z.add 0 (map raw_value rows).
Proof. induction rows as [|x rows IH]; cbn; [lia|]. unfold raw_value at 1. lia. Qed.

(** A first page without a next one scanned what the snapshot counted. *)
Lemma first_page_whole {A} request snapshot (cs : list A) more select amount cursor page :
  xr_cursor request = None -> (more = true -> cs <> []) ->
  buildExportPage request snapshot cs more select amount cursor = Ok page -> xp_complete page = true ->
  more = false /\ xp_snapshot page = snapshot /\ xp_entries page = List.filter select cs /\
  xs_rowCount snapshot = Z.of_nat (length cs) /\ xp_scannedRowCount page = Z.of_nat (length cs) /\
  xp_exportedRowCount page = Z.of_nat (length (xp_entries page)) /\
  (exists n, to_bigint (xs_totalAmountRaw snapshot) = Ok n /\
     sum_parsed (map amount cs) "amountRaw" 0 = Ok n) /\
  exists n, sum_parsed (map amount (xp_entries page)) "amountRaw" 0 = Ok n /\
    xp_exportedAmountRaw page = print_Z n.
Proof.
  intros Hcur Hmore H Hc. unfold buildExportPage in H. rewrite Hcur in H. cbn [from_option] in H.
  apply bind_ok in H as (total & Ht & H). apply bind_ok in H as (total' & _ & H).
  apply bind_ok in H as (before & Hb & H). apply bind_ok in H as (sum & Hs & H).
  injection Hb as <-. apply bind_ok in H as ([] & Hchk & H). apply bind_ok in H as (n & Hn & H).
  injection H as <-. cbn in Hc |- *. apply bool_decide_eq_true in Hc.
  assert (more = false) as ->.
  { destruct more; [|done]. specialize (Hmore eq_refl). destruct (last cs) eqn:E; [done|].
    by apply last_None in E. }
  apply throw_if_ok in Hchk. cbn in Hchk. rewrite !orb_false_iff, !negb_false_iff in Hchk.
  destruct Hchk as (_ & Hrows%Z.eqb_eq & Hsum%Z.eqb_eq). cbn in Hrows, Hsum.
  split_and!; try done.
  - exists total. split; [done|]. rewrite Hs. f_equal. lia.
  - by exists n.
Qed.

Lemma read_elapse {A} (f : Ledger -> A) r a r' :
  read e f r = (Ok a, r') -> a = f (ledger (run_db (elapse_run w 1 r))) /\ r' = elapse_run w 1 r.
Proof.
  unfold read. intros (d & [= <- <-] & ->)%run_statement_ok. by rewrite (elapse_one w r).
Qed.

Lemma candidates_elem cutoff l x :
  x ∈ export_candidates created_at cutoff None l <->
  exists id row, (id, row) ∈ before_cutoff created_at cutoff l /\ x = export_row l (id, row).
Proof.
  unfold export_candidates. rewrite list_elem_of_In, in_map_iff. split.
  - intros ([id row] & <- & Hin). exists id, row. split; [|done].
    apply list_elem_of_In in Hin. rewrite js_sort_Permutation, list_elem_of_In, filter_In in Hin.
    apply list_elem_of_In, Hin.
  - intros (id & row & Hin & ->). exists (id, row). split; [done|]. apply list_elem_of_In.
    rewrite js_sort_Permutation, list_elem_of_In, filter_In. split; [by apply list_elem_of_In | done].
Qed.

Lemma nodup_map_filter {A B} (f : A -> B) (p : A -> bool) l :
  NoDup (map f l) -> NoDup (map f (List.filter p l)).
Proof.
  induction l as [|x l IH]; cbn; [done|]. intros [Hx Hl]%NoDup_cons.
  destruct (p x); [|by apply IH]. cbn. apply NoDup_cons. split; [|by apply IH].
  intros (y & Hy & Hin)%list_elem_of_In%in_map_iff. apply Hx, list_elem_of_In, in_map_iff.
  exists y. split; [done|]. by apply filter_In in Hin as [? _].
Qed.

Lemma candidates_once cutoff l : NoDup (map xe_id (export_candidates created_at cutoff None l)).
Proof.
  rewrite (proj1 (export_rows cutoff l)). apply nodup_map_filter, NoDup_fst_map_to_list.
Qed.

Lemma delivered_elem cutoff l found x cleared :
  (x, cleared) ∈ List.filter snd (map (annotate found) (export_candidates created_at cutoff None l)) <->
  cleared = true /\ exists id row t, (id, row) ∈ before_cutoff created_at cutoff l /\
    x = export_row l (id, row) /\ found !! id = Some t /\ te_eligibleForExport t = true.
Proof.
  rewrite list_elem_of_In, filter_In, in_map_iff. cbn. split.
  - intros [(y & Hy & Hin) ->]. unfold annotate in Hy. injection Hy as -> Hc. split; [done|].
    apply list_elem_of_In, candidates_elem in Hin as (id & row & Hin & ->). cbn in Hc.
    destruct (found !! id) as [t|] eqn:Ht; [|done]. by exists id, row, t.
  - intros (-> & id & row & t & Hin & -> & Ht & Hel). split; [|done]. exists (export_row l (id, row)).
    split; [|by apply list_elem_of_In, candidates_elem; exists id, row].
    unfold annotate. cbn. by rewrite Ht, <- Hel.
Qed.

(** C17. What the export route delivers is the ledger at the cutoff.  Any page it sends
    is complete and answers a request without a cursor: its entries are exactly the
    rows created up to the cutoff, as the candidate query read them, that the
    assessment cleared for export, each of them once; the row count and the total it
    states are those of all rows up to the cutoff in both reads, and the exported
    amount is the exact sum of what is sent. *)
Theorem export_route_exact format request r page r' :
  0 < xr_limit request ->
  exportEntries sha256 cfg e created_at format request r = (Ok page, r') ->
  let rows n := before_cutoff created_at (xr_cutoff request) (ledger (run_db (elapse_run w n r))) in
  let l := ledger (run_db (elapse_run w 2 r)) in
  exists found context,
    assessEntries sha256 cfg e (export_candidates created_at (xr_cutoff request) None l) None
      (elapse_run w 2 r) = (Ok (found, context), r') /\
    xr_cursor request = None /\ xp_complete page = true /\
    (forall x cleared, (x, cleared) ∈ xp_entries page <->
       cleared = true /\ exists id row t, (id, row) ∈ rows 2%nat /\ x = export_row l (id, row) /\
         found !! id = Some t /\ te_eligibleForExport t = true) /\
    NoDup (map (fun x => xe_id x.1) (xp_entries page)) /\
    xs_rowCount (xp_snapshot page) = Z.of_nat (length (rows 1%nat)) /\
    length (rows 2%nat) = length (rows 1%nat) /\
    xs_totalAmountRaw (xp_snapshot page) = print_Z (foldr Z.add 0 (map raw_value (rows 1%nat))) /\
    foldr Z.add 0 (map raw_value (rows 2%nat)) = foldr Z.add 0 (map raw_value (rows 1%nat)) /\
    xp_scannedRowCount page = xs_rowCount (xp_snapshot page) /\
    xp_exportedRowCount page = Z.of_nat (length (xp_entries page)) /\
    xp_exportedAmountRaw page = print_Z (foldr Z.add 0 (map (fun x => entry_value x.1) (xp_entries page))).
Proof.
  intros Hlim H rows l. unfold exportEntries in H.
  apply run_bind_ok in H as ([] & r0 & [Hcur ->]%run_lift_ok & H).
  apply run_bind_ok in H as (page0 & r1 & Hload & H).
  apply run_bind_ok in H as ([] & r2 & [Hwhole ->]%run_lift_ok & H).
  apply run_bind_ok in H as ([] & r2 & [_ ->]%run_lift_ok & [= -> ->]).
  unfold loadLedgerExportPage in Hload.
  apply run_bind_ok in Hload as (snapshot & r1 & Hsnap & Hload).
  apply run_bind_ok in Hload as ([cs more] & r2 & Hcand & Hload). cbn [fst snd] in Hload.
  apply run_bind_ok in Hload as ([found context] & r3 & Hassess & Hpage).
  apply run_lift_ok in Hpage as [Hpage ->]. cbn [fst] in Hpage.
  apply throw_if_ok in Hcur. apply throw_if_ok, negb_false_iff in Hwhole.
  apply bool_decide_eq_false in Hcur. destruct (xr_cursor request) eqn:Hnone; [by destruct Hcur|].
  cbn [fmap option_fmap option_map] in Hcand.
  apply read_elapse in Hsnap as [-> ->]. apply read_elapse in Hcand as [Hcand ->].
  rewrite elapse_more in Hcand, Hassess. symmetry in Hcand. cbn [Nat.add] in Hcand, Hassess.
  pose proof (page_whole _ _ _ _ _ Hlim Hcand) as Hall.
  apply first_page_whole in Hpage as (-> & -> & He & Hcount & Hscan & Hsent & Hsum & Hexp);
    [|done | by intros ->; destruct cs | done].
  destruct Hsum as (n & Hn & Hs). destruct Hexp as (m & Hm & Hexp).
  apply (sum_entries fst) in Hs as Hs, Hm as Hm. subst cs m. rewrite length_map in Hcount, Hscan.
  rewrite map_map in Hs. cbn in Hs, Hcount. rewrite sum_rows in Hs.
  cbn [xs_totalAmountRaw getLedgerExportSnapshot] in Hn.
  rewrite to_bigint_print in Hn by apply sum_nonneg. injection Hn as Hn.
  rewrite candidates_length in Hcount, Hscan.
  exists found, context. rewrite He in Hsent, Hexp |- *. split_and!; try done.
  - intros x cleared. apply delivered_elem.
  - apply nodup_map_filter. rewrite map_map. apply candidates_once.
  - apply Nat2Z.inj. symmetry. exact Hcount.
  - transitivity n; done.
  - rewrite Hscan. symmetry. exact Hcount.
Qed.

End exported.

(** ** A sample assessment

    Trade 2 is in the complete run [sw5] of [ReconSound].  Entry 1 is ready for
    handoff, entry 2 has no payout event yet and entry 3 is under review. *)

Definition x_hash : string := "0x" ++ repeat_char 64 "c"%char.
Definition x_address : string := "0x" ++ repeat_char 40 "e"%char.
Definition x_sha (s : string) : string := s.

Definition x_log (i : Z) : SettlementLog :=
  {| sl_index := i; sl_address := Some x_address; sl_topics := Some ["0x01"]; sl_data := Some "0x02" |}.

Definition x_row (i : Z) (amount : string) : LedgerEntry :=
  {| le_entry_key := print_Z i; le_trade_id := "2"; le_tx_hash := "0xabc"; le_block_number := 20;
     le_block_hash := Some x_hash; le_log_index := Some i; le_log_address := Some x_address;
     le_log_identity_hash := Some (computeLogIdentityHash x_sha (x_log i));
     le_event_name := "FundsReleasedStage1"; le_component_type := LOGISTICS; le_amount_raw := amount;
     le_source_timestamp := 1; le_canonicality_state := CANONICAL; le_canonicality_verified_at := None;
     le_observed_block_hash := None; le_canonicality_depth := None; le_stable_block_number := None |}.

Definition x_cursor : IngestionCursorState :=
  {| ic_nextBlockNumber := 41; ic_lastIngestedThroughBlockNumber := Some 40;
     ic_lastAttemptAt := Some 25; ic_lastSuccessAt := Some 25; ic_lastBlockedReason := None;
     ic_lastPartialReason := None; ic_consecutiveFailureCount := 0 |}.

Definition x_event (id : Z) (state : PayoutState) : PayoutLifecycleEvent :=
  {| pl_ledger_entry_id := id; pl_state := state; pl_actor := None |}.

Definition x_db : db :=
  set_ledger
    {| ledger_rows := <[1 := x_row 1 "500"]> (<[2 := x_row 2 "70"]> (<[3 := x_row 3 "9"]> ∅));
       ledger_seq := 4;
       payout_events := [x_event 3 PENDING_REVIEW; x_event 1 READY_FOR_EXTERNAL_HANDOFF];
       reorg_events := [];
       ingestion_state := <[TRADE_EVENT_CURSOR := x_cursor]> (<[CLAIM_EVENT_CURSOR := x_cursor]> ∅) |}
    empty_db.

Definition x_receipt : SettlementReceipt :=
  {| rc_blockNumber := 20; rc_blockHash := Some x_hash; rc_status := Some 1;
     rc_logs := Some [x_log 1; x_log 2; x_log 3] |}.

(** [receipt] and [finalized] are the chain's answers, [other] the other
    transactions. *)
Definition x_world (receipt : option SettlementReceipt) (finalized : option (Z * option string))
    (other : nat -> db -> db) : EligibilityWorld :=
  {| el_world :=
       {| w_other := other; w_configured := true; w_finalized := fun _ => Ok finalized;
          w_processed := fun _ => Ok (Some 40); w_tradePage := fun _ _ => Ok [];
          w_claimPage := fun _ _ => Ok []; w_getBlock := fun _ _ => Ok None;
          w_getReceipt := fun _ _ => Ok receipt; w_lock := fun _ => Ok true; w_now := fun _ => 31 |};
     el_block := fun _ tag => match tag with FINALIZED_TAG => Ok finalized | _ => Ok (Some (60, None)) end;
     el_recon := fun _ => Ok (Some {| Gate.gr_db := w_db sw5; Gate.gr_certified := fun _ => false;
                                      Gate.gr_protocol := None |});
     el_states_readable := fun _ => true;
     el_bank := fun _ _ => Ok None |}.

Definition x_config : EligibilityConfig :=
  {| gate_config := {| Gate.maxAgeSeconds := 60; Gate.maxRunningRunAgeSeconds := 60 |};
     freshness_config := {| Freshness.ingestionMaxAgeSeconds := 60; Freshness.ingestionMaxLagBlocks := 20 |} |}.

Definition quiet (n : nat) (d : db) : db := d.
Definition x_good : EligibilityWorld := x_world (Some x_receipt) (Some (50, Some x_hash)) quiet.
Definition x_created (id : Z) : Z := id * 1000.

Definition x_entries : list LedgerEntryForExport :=
  getLedgerEntriesForEligibilityByIds [1; 2; 3] (ledger x_db).
Definition x_request : ExportRequest :=
  {| xr_cutoff := 5; xr_cursor := None; xr_limit := 10; xr_allowPartial := false |}.

Example x_payable : exists found r',
  assessEntries x_sha x_config x_good x_entries None (start x_db) = (Ok (found, None), r') /\
  (te_eligibleForPayout <$> found !! 1) = Some true.
Proof. eexists _, _. split; [vm_compute; reflexivity | vm_compute; reflexivity]. Qed.

Lemma x_quiet : ledger_world (el_world x_good).
Proof. by intros n d. Qed.

Lemma x_recon n reader : el_recon x_good n = Ok (Some reader) -> Gate.gr_db reader = w_db sw5.
Proof.
  intros H. unfold x_good, x_world in H. cbn [el_recon] in H.
  apply (f_equal (fun o => match o with Ok (Some r) => Gate.gr_db r | _ => w_db sw5 end)) in H.
  cbn [Gate.gr_db] in H. by symmetry.
Qed.

Lemma x_row_at id row :
  ledger_rows (ledger x_db) !! id = Some row -> id < 4 /\ le_entry_key row = print_Z id.
Proof.
  cbn. rewrite !lookup_insert_Some, lookup_empty.
  intros [[<- <-]|[_ [[<- <-]|[_ [[<- <-]|[_ ?]]]]]]; done.
Qed.

Lemma x_ledger_ok : ledger_ok (ledger x_db).
Proof.
  split; [by intros id row [? _]%x_row_at|].
  intros i j a b [_ ->]%x_row_at [_ ->]%x_row_at. apply print_Z_inj.
Qed.

Lemma eligible_entry_backed_witness :
  exists x f v past key to_block,
    xe_id x = 1 /\ entry_block x <= f /\ not_revoked 1 x_db /\
    recon_history sample_isAddress sample_getAddress sample_config (v :: past) /\
    (exists reader, clear_evidence sample_isAddress sample_getAddress v reader (gate_config x_config)
       Gate.no_selection 31 31 (entry_trade x) key to_block) /\
    entry_block x <= to_block.
Proof.
  destruct x_payable as (found & r' & E & Ht). destruct (found !! 1) as [t|] eqn:Hf; [|discriminate Ht].
  destruct (eligible_entry_backed x_sha x_config x_good sample_isAddress sample_getAddress sample_config
    x_entries (start x_db) found None r' 1 t)
    as (x & f & hash & reader & past & v & key & b & _ & Hid & _ & Hle & _ & Hrev & _ & _ & Hh & _ & Hev & Hb & _).
  - intros n reader H%x_recon. exists [sw4; sw3; sw2; sw1; sw0], sw5. by split; [apply sw5_history|].
  - apply x_quiet.
  - apply x_ledger_ok.
  - exact E.
  - exact Hf.
  - by injection Ht.
  - exists x, f, v, past, key, b.
    exact (conj Hid (conj Hle (conj Hrev (conj Hh (conj (ex_intro _ reader Hev) Hb))))).
Defined.

Example x_export : exists (page : ExportPage (LedgerEntryForExport * bool)) r',
  exportEntries x_sha x_config x_good x_created "csv" x_request (start x_db) = (Ok page, r') /\
  map (fun x => xe_id x.1) (xp_entries page) = [1] /\ xp_exportedAmountRaw page = "500" /\
  xp_snapshot page = {| xs_rowCount := 3; xs_totalAmountRaw := "579" |}.
Proof. eexists _, _. split_and!; vm_compute; reflexivity. Qed.

Lemma export_route_exact_witness :
  exists page : ExportPage (LedgerEntryForExport * bool),
    map (fun x => xe_id x.1) (xp_entries page) = [1] /\ xp_complete page = true /\
    NoDup (map (fun x => xe_id x.1) (xp_entries page)) /\
    xp_exportedAmountRaw page = print_Z (foldr Z.add 0 (map (fun x => entry_value x.1) (xp_entries page))).
Proof.
  destruct x_export as (page & r' & E & Hids & _). exists page.
  destruct (export_route_exact x_sha x_config x_good x_created "csv" x_request (start x_db) page r')
    as (found & context & _ & _ & Hc & _ & Hn & _ & _ & _ & _ & _ & _ & Hs).
  - reflexivity.
  - exact E.
  - split_and!; done.
Defined.

(** ** Where a decision does not rest on what it names *)

Definition outcome {A} (m : ingest A) (d : db) : result IngestError A := (m (start d)).1.
Definition tables {A} (m : ingest A) (d : db) : db := run_db (m (start d)).2.
Definition states_of (id : Z) (d : db) : list PayoutState :=
  map pl_state (List.filter (fun p => pl_ledger_entry_id p =? id) (payout_events (ledger d))).

(** Without a finalized head an entry keeps the state the row stores, and closing a
    sweep looks at that state alone: the chain, which no longer knows the
    transaction, is not asked. *)
Example close_without_chain :
  let e := x_world None None quiet in
  outcome (assertEntries x_sha x_config e [1; 2; 3] CANONICAL_REQUIRED) x_db = Ok tt /\
  exists err, outcome (assertEntries x_sha x_config e [1; 2; 3] PAYOUT_REQUIRED) x_db = Err err.
Proof. split; [|eexists]; vm_compute; reflexivity. Qed.

Definition x_reorg : LedgerChainReorgEvent :=
  {| re_ledger_entry_id := 1; re_entry_key := "1"; re_trade_id := "2"; re_tx_hash := "0xabc";
     re_block_number := 20; re_expected_block_hash := Some x_hash; re_observed_block_hash := None;
     re_observed_block_number := None; re_observed_log_index := None; re_reorg_depth := 30;
     re_stable_block_number := 50; re_mismatch_reason := RECEIPT_MISSING |}.

(** Another assessment revokes entry 1 and cancels its payout before effect [tick]. *)
Definition revoked_at (tick n : nat) (d : db) : db :=
  if Nat.eqb n tick then
    match recordLedgerEntryOrphaned x_reorg (Some READY_FOR_EXTERNAL_HANDOFF) REVOCATION_ACTOR 31 (ledger d) with
    | Ok (l, _) => set_ledger l d
    | Err _ => d
    end
  else d.

(** A manual transition checks the state it read: the entry cancelled in between
    goes on to handoff, although CANCELLED has no successor. *)
Example cancelled_entry_moves_on :
  let e := x_world (Some x_receipt) (Some (50, Some x_hash)) (revoked_at 2) in
  let request := appendState x_sha x_config e x_created 1 AWAITING_EXTERNAL_CONFIRMATION None in
  let d := tables request x_db in
  outcome request x_db = Ok tt /\
  states_of 1 d = [READY_FOR_EXTERNAL_HANDOFF; CANCELLED; AWAITING_EXTERNAL_CONFIRMATION] /\
  latest_state 1 (ledger d) = Some AWAITING_EXTERNAL_CONFIRMATION /\
  (le_canonicality_state <$> ledger_rows (ledger d) !! 1) = Some ORPHANED.
Proof. vm_compute. split_and!; reflexivity. Qed.

(** The payout is confirmed before effect [tick]. *)
Definition confirmed_at (tick n : nat) (d : db) : db :=
  if Nat.eqb n tick then
    match appendPayoutState 1 AWAITING_EXTERNAL_CONFIRMATION None (ledger d) with
    | Ok l => match appendPayoutState 1 EXTERNAL_EXECUTION_CONFIRMED None l with
              | Ok l => set_ledger l d
              | Err _ => d
              end
    | Err _ => d
    end
  else d.

(** A revocation cancels from the state it read: a payout confirmed in between is
    cancelled after all. *)
Example confirmed_payout_cancelled :
  let e := x_world None (Some (50, Some x_hash)) (confirmed_at 6) in
  let d := tables (assessEntries x_sha x_config e (take 1 x_entries) None) x_db in
  states_of 1 d =
    [READY_FOR_EXTERNAL_HANDOFF; AWAITING_EXTERNAL_CONFIRMATION; EXTERNAL_EXECUTION_CONFIRMED; CANCELLED] /\
  ALLOWED_TRANSITIONS EXTERNAL_EXECUTION_CONFIRMED = [].
Proof. vm_compute. split; reflexivity. Qed.
